(* ===== verification/_CoqProject ===== *)
-Q . S2P
Prelude.v
Bpos.v
BkeyPack.v
BkeyOrder.v
BkeyFormat.v
Eytzinger.v
Checksum.v
Jhash.v
Six.v
Snapshot.v
Rhashtable.v
Superblock.v
NodeIter.v
BsetSearch.v
BsetMem.v
BsetTable.v
BsetUpdate.v
JournalRes.v
JournalSpace.v
JournalPins.v
JournalDisk.v
Journal.v
JournalKept.v
JournalKeys.v
JournalReplay.v
BsetSort.v
NodeSort.v
BsetTree.v
BsetTreeFacts.v
Extents.v
ExtentKeys.v
Topology.v
AllocKeys.v
Trans.v
TransFacts.v
TransCommit.v
Buckets.v
BucketFacts.v
BucketOps.v
Derived.v
DerivedCheck.v
Iter.v
Fsck.v
Rebuild.v
Store.v
