(* ===== verification/Prelude.v ===== *)
(** * subvol: a verification library for the storage engine

    subvol is a copy-on-write storage engine: keys in btrees, with a journal in
    front of them, snapshots, extents that point to the buckets of devices, and
    indexes that follow what the extents point to.  The library models the
    Rust code under [src/crates/subvol/src]; file names below are relative to
    that directory.  Definitions have the names of the functions they model.

    ** Conventions

    Machine integers are [Z]; wrapping, shifts and masks are written out, and
    [in_range w x] says that [x] is a [w]-bit value.  A function that can panic
    (a failed assertion, an index out of bounds, a checked operation) returns
    [option], and [None] is the panic.  A function that returns an error number
    returns it.  Memory the code reaches through pointers is a list of 64-bit
    words and a pointer an offset.  Loops that are not structural have fuel;
    the theorems show which fuel is enough, mostly one more than the length of
    what is walked, and that the result is not the lack of fuel.

    ** Keys

    [Bpos] has positions and unpacked keys, and their order as that of numbers
    of 160 bits.  [BkeyPack] has packed keys, as the words they are, and
    [BkeyOrder] the theorems: packing and unpacking are inverse, comparisons of
    packed keys are those of their positions, the lossy packing of a search
    position is the greatest one below it.  [BkeyFormat] chooses a format for
    the keys of a node and shows that they fit it ([btree/bkey.rs]).

    ** Btree nodes

    A node is up to three sorted sets of keys in one buffer.  [NodeIter] merges
    them; [Eytzinger], [BsetSearch] search in a set, by its auxiliary table or
    its tree of abbreviated keys, then key by key; [BsetTree] builds these
    tables and trees, and [BsetTreeFacts] shows that they are right and that a
    search that begins with them misses no key; [BsetMem], [BsetTable] and [BsetUpdate] insert into
    and delete from the last set ([btree/bset_update.rs]); [BsetSort] and
    [NodeSort] merge sets into another buffer and in place
    ([btree/bset_build.rs]).  The specification throughout is the row of blocks
    a set is: an insertion replaces a block, a sort is the merge of rows.
    [node_iter_init_finds] is about all of search, packing and iteration.

    ** Values

    [Extents] and [ExtentKeys] have the values of keys with pointers: walking
    their entries, trimming, dropping pointers ([btree/bset.rs]).  [AllocKeys]
    has the values of the allocation trees.  [Checksum] has the CRCs, against
    division of polynomials, and [Jhash] the hash of [util/jhash.rs].

    ** Transactions

    [Trans] is the commit of [btree/update.rs]: the updates are staged in the
    order of their triggers; triggers of extents add updates of buckets and
    backpointers; all keys go to the journal and then to the trees.  The trees
    are maps from keys to values here; the files on nodes justify that view of
    one node, while paths, locks, splits and merges appear only as the events
    that restart a commit.  [TransFacts] shows that the staged updates are a
    map, and [TransCommit] that a transaction without pointers replaces exactly
    its keys, whatever restarts it, or none, except that a leaf split in the
    middle of writing them leaves a part.  [Derived] shows that a commit of
    extents, trims and splits included, keeps the counters of buckets and the
    backpointers exactly those of the pointers in the trees, or fails.  It must
    not make two keys share a sector; and a sector must not move to a key in
    front that had pointers, whose backpointer the trigger of the key behind
    would delete ([moved_sector_forgotten]).

    ** Iterators

    [Iter] has the iterators of [btree/iter.rs] over a tree of nodes: [peek] with
    its views of snapshots, of the keys of the journal and of staged updates,
    [advance] and [next].  Over a tree that is not being replayed, and without
    staged updates of its leaves ([quiet]), [peek] of an iterator that neither
    reads extents nor filters snapshots returns the first key that is not
    deleted, and a scan all of them in order; that is the view of trees as maps
    that [Trans] and [Buckets] take.  With staged updates [peek] does not see
    what it should ([staged_insert_unseen], [staged_delete_unseen]).

    ** Buckets

    [Buckets] has the operations of [engine.rs] on buckets, each a transaction:
    allocation, claims, reclaim, the queue of discards with its worker, and the
    checks of the indexes.  [BucketFacts] and [BucketOps] show that the indexes
    of free buckets and of discards always agree with the buckets (as long as no
    leaf is split in the middle of a commit), that only unused buckets are
    freed, and that the worker gets its queue done.
    [DerivedCheck] has the comparison of the derived trees with the extents, in
    both directions: it passes exactly if the counters and backpointers are
    those of the pointers it sees, which are those of the lowest snapshot of
    every inode and offset; without two snapshots there, all pointers.

    ** Store and checker

    [Store] has the operations on keys that clients call: reads and scans, and
    commits of several keys.  They refine a map of keys; a commit that fails
    leaves every key as it was or as the operations leave it, and not a mixture
    unless a leaf was split in its middle.  [Topology] has the check of the
    topology of a root ([btree/interior.rs]): when it passes, the children fill
    the range of the root without gap or overlap, up to the first key that is
    no child pointer.  [Fsck] repairs the indexes of buckets and runs all checks
    over an image that was opened ([bin/subvol-fsck.rs]); after a repair the
    indexes agree with the buckets, and a run without errors means that
    indexes, counters and backpointers, guards and roots are sound, as far as
    the checks see.  [Rebuild] puts the derived trees together again from the
    pointers of all keys, as recovery does; afterwards the backpointers and the
    counters of the buckets with pointers are those of the pointers, while
    buckets without pointers keep what they had.

    ** Journal

    [JournalRes] are the reservations of the open entry, [JournalSpace] the ring
    of buckets, [JournalPins] what keeps entries from being reclaimed,
    [JournalDisk] the records on the device and the scan that finds them, and
    [Journal] the flush that all of these make up.  [JournalReplay] checks and
    sorts what was read and [JournalKeys] is the overlay of the keys replayed
    ([journal.rs]).  A flushed record is in the file at the place the device had
    for it, and [JournalKept] shows that no record that a recovery needs is
    overwritten or discarded, on a file where a write touches its own bytes
    only; the overlay has the newest key of every position.  The file behind a
    device is a parameter.

    [journal_res_get_fast] takes no lock: in [JournalRes] a flush loads the
    word, copies the buffer and stores the new word in three steps, with
    reservations of other threads in between.  The theorems are about runs in
    which the word had not changed when the flush stored over it, and say what
    happens when it had.

    ** Others

    [Six] has the locks of [lock/six.rs], as steps of threads, with readers that
    [bch2_btree_node_lock_write] hides from the word and puts back; [Rhashtable]
    the table of [util/rhashtable.rs], against a set (exact while at most 16
    objects share a bucket); [Snapshot] the table of snapshots and ancestor
    queries, against a walk along parents; [Superblock] the structures of [sb],
    their validation and their fields.

    ** Not modelled

    - paths, their locks and walking backwards in [btree/iter.rs];
    - [btree/interior.rs] (except the check of the topology and the entries of
      roots), [btree/cache.rs], [btree/alloc.rs], [btree/io.rs]: locking order,
      splits, the cache and reading and writing of nodes.
      [Trans] has their effect on a commit as events, [Iter] as an error of a
      traversal.
    - opening, the rest of recovery and the scheduling of workers in
      [engine.rs], updates of extents (what a new extent does to those it
      overlaps) in [btree/update.rs];
    - [util/rcu.rs], [util/workqueue.rs], [util/bit_spinlock.rs] and
      [util/log.rs], layers over threads of the standard library, and the
      printing of [bin/subvol-fsck.rs].
    - Threads: operations under one mutex are one step.  Memory is sequentially
      consistent.  Poisoned mutexes and failed allocations do not occur. *)


From stdpp Require Import base tactics list numbers option.
From Stdlib Require Import ZArith Lia.

Open Scope Z_scope.

(** ** Automation databases of the library *)

Create HintDb subvol.
Create HintDb width.

(** ** Panicking code

    A Rust function that may panic ([assert!], an out-of-range index, an
    arithmetic overflow, an over-long shift) is a function into [option]:
    [None] is the panic.  The notations are those of the option monad of
    stdpp, so [x ← m; k] stops at the first panic. *)

Definition assert (b : bool) : option unit := if b then Some tt else None.

Lemma assert_true b : assert b = Some tt ↔ b = true.
Proof. by destruct b. Qed.

(** ** Machine integers

    A [w]-bit unsigned integer is a [Z] in [0 .. 2^w). *)

Definition in_range (w x : Z) : Prop := 0 <= x < 2 ^ w.

Definition MAX (w : Z) : Z := 2 ^ w - 1.

(** [a.wrapping_add(b)], [a.wrapping_sub(b)], [a.wrapping_mul(b)]. *)
Definition wadd (w a b : Z) : Z := (a + b) mod 2 ^ w.
Definition wsub (w a b : Z) : Z := (a - b) mod 2 ^ w.
Definition wmul (w a b : Z) : Z := (a * b) mod 2 ^ w.

(** [a + b], [a - b], [a * b] with overflow checks. *)
Definition uadd (w a b : Z) : option Z := if a + b <? 2 ^ w then Some (a + b) else None.
Definition usub (a b : Z) : option Z := if b <=? a then Some (a - b) else None.
Definition umul (w a b : Z) : option Z := if a * b <? 2 ^ w then Some (a * b) else None.

(** [a << n] and [a >> n]: bits shifted out are lost, a shift by the width
    or more panics. *)
Definition ushl (w a n : Z) : option Z :=
  if n <? w then Some (Z.shiftl a n mod 2 ^ w) else None.
Definition ushr (w a n : Z) : option Z :=
  if n <? w then Some (Z.shiftr a n) else None.

(** [a.rotate_left(n)] for [n < w]. *)
Definition rotl (w a n : Z) : Z :=
  Z.lor (Z.shiftl a n mod 2 ^ w) (Z.shiftr a (w - n)).

(** The number of significant bits; [w - a.leading_zeros()]. *)
Definition bitlen (a : Z) : Z := if a =? 0 then 0 else Z.log2 a + 1.

Definition leading_zeros (w a : Z) : Z := w - bitlen a.

(** [a.trailing_zeros()] for [a > 0]. *)
Fixpoint pos_ctz (p : positive) : Z :=
  match p with
  | xO q => 1 + pos_ctz q
  | _ => 0
  end.
Definition trailing_zeros (w a : Z) : Z :=
  match a with
  | Zpos p => pos_ctz p
  | _ => w
  end.

(** [a.trailing_ones()]. *)
Fixpoint pos_cto (p : positive) : Z :=
  match p with
  | xI q => 1 + pos_cto q
  | xO _ => 0
  | xH => 1
  end.
Definition trailing_ones (a : Z) : Z :=
  match a with
  | Zpos p => pos_cto p
  | _ => 0
  end.

(** ** Powers of two *)

Lemma pow2_pos n : 0 <= n -> 0 < 2 ^ n.
Proof. intros; apply Z.pow_pos_nonneg; lia. Qed.

Lemma pow2_split a b : 0 <= a -> 0 <= b -> 2 ^ (a + b) = 2 ^ a * 2 ^ b.
Proof. intros; apply Z.pow_add_r; lia. Qed.

Lemma pow2_le a b : 0 <= a <= b -> 2 ^ a <= 2 ^ b.
Proof. intros; apply Z.pow_le_mono_r; lia. Qed.

#[export] Hint Resolve pow2_pos : width.

Lemma wadd_range w a b : 0 <= w -> in_range w (wadd w a b).
Proof. intros; apply Z.mod_pos_bound, pow2_pos; lia. Qed.
Lemma wsub_range w a b : 0 <= w -> in_range w (wsub w a b).
Proof. intros; apply Z.mod_pos_bound, pow2_pos; lia. Qed.
Lemma wmul_range w a b : 0 <= w -> in_range w (wmul w a b).
Proof. intros; apply Z.mod_pos_bound, pow2_pos; lia. Qed.

#[export] Hint Resolve wadd_range wsub_range wmul_range : width.

Lemma wadd_small w a b : in_range w (a + b) -> wadd w a b = a + b.
Proof. intros; by apply Z.mod_small. Qed.
Lemma wsub_small w a b : in_range w (a - b) -> wsub w a b = a - b.
Proof. intros; by apply Z.mod_small. Qed.

Lemma uadd_Some w a b r : uadd w a b = Some r <-> a + b < 2 ^ w /\ r = a + b.
Proof. unfold uadd. destruct (Z.ltb_spec (a + b) (2 ^ w)); intuition (congruence || lia). Qed.
Lemma usub_Some a b r : usub a b = Some r <-> b <= a /\ r = a - b.
Proof. unfold usub. destruct (Z.leb_spec b a); intuition (congruence || lia). Qed.

Lemma usub_ok a b : b <= a -> usub a b = Some (a - b).
Proof. intros. apply usub_Some. lia. Qed.
Lemma ushr_ok w a n : n < w -> ushr w a n = Some (Z.shiftr a n).
Proof. intros. unfold ushr. by destruct (Z.ltb_spec n w); [|lia]. Qed.
Lemma ushl_ok w a n : n < w -> ushl w a n = Some (Z.shiftl a n mod 2 ^ w).
Proof. intros. unfold ushl. by destruct (Z.ltb_spec n w); [|lia]. Qed.
Lemma uadd_ok w a b : a + b < 2 ^ w -> uadd w a b = Some (a + b).
Proof. intros. by apply uadd_Some. Qed.
Lemma ushl_small w a n : 0 <= n < w -> 0 <= a * 2 ^ n < 2 ^ w -> ushl w a n = Some (a * 2 ^ n).
Proof. intros. rewrite ushl_ok by lia. by rewrite Z.shiftl_mul_pow2, Z.mod_small by lia. Qed.
Lemma ushr_div w a n : 0 <= n < w -> ushr w a n = Some (a / 2 ^ n).
Proof. intros. rewrite ushr_ok by lia. by rewrite Z.shiftr_div_pow2 by lia. Qed.

(** Reduce a bind whose first computation is known to succeed. *)
Ltac bind_simpl := cbn [mbind option_bind].

(** ** Bit lengths *)

Lemma bitlen_le x b : 0 <= x -> 0 <= b -> (bitlen x <= b <-> x < 2 ^ b).
Proof.
  intros Hx Hb. unfold bitlen. destruct (Z.eqb_spec x 0) as [->|Hne].
  - split; intros; [apply pow2_pos|]; lia.
  - rewrite (Z.log2_lt_pow2 x b) by lia. lia.
Qed.

Lemma bitlen_nonneg x : 0 <= bitlen x.
Proof. unfold bitlen. pose proof (Z.log2_nonneg x). destruct (x =? 0); lia. Qed.

Lemma bitlen_bound x : 0 <= x -> x < 2 ^ bitlen x.
Proof. intros. apply bitlen_le; try lia. apply bitlen_nonneg. Qed.

(** ** Disjoint bits: [lor] is addition *)

Lemma lor_add a b : Z.land a b = 0 -> Z.lor a b = a + b.
Proof. intros H. rewrite Z.add_nocarry_lxor by done. by rewrite Z.lxor_lor. Qed.

Lemma land_mul_pow2_small a b n :
  0 <= n -> 0 <= b < 2 ^ n -> Z.land (a * 2 ^ n) b = 0.
Proof.
  intros Hn Hb. apply Z.bits_inj'. intros i Hi.
  rewrite Z.land_spec, Z.bits_0.
  destruct (Z.lt_ge_cases i n).
  - by rewrite Z.mul_pow2_bits_low by lia.
  - rewrite <- (Z.mod_small b (2 ^ n)) by lia.
    rewrite Z.mod_pow2_bits_high by lia. apply andb_false_r.
Qed.

Lemma lor_high_low a b n :
  0 <= n -> 0 <= b < 2 ^ n -> Z.lor (a * 2 ^ n) b = a * 2 ^ n + b.
Proof. intros. by apply lor_add, land_mul_pow2_small. Qed.

Lemma lor_low_high a b n :
  0 <= n -> 0 <= b < 2 ^ n -> Z.lor b (a * 2 ^ n) = a * 2 ^ n + b.
Proof. intros. by rewrite Z.lor_comm, lor_high_low. Qed.

(** ** Splitting a number at a bit position *)

Lemma div_pow2_split x a b :
  0 <= a -> 0 <= b -> x / 2 ^ (a + b) = x / 2 ^ a / 2 ^ b.
Proof. intros. rewrite pow2_split, Z.div_div by auto using pow2_pos, Z.pow_nonzero. done. Qed.

Lemma mod_pow2_add x a b :
  0 <= a -> 0 <= b ->
  x mod 2 ^ (a + b) = (x / 2 ^ b) mod 2 ^ a * 2 ^ b + x mod 2 ^ b.
Proof.
  intros. rewrite Z.add_comm, pow2_split by lia.
  pose proof (pow2_pos a). pose proof (pow2_pos b).
  rewrite Z.rem_mul_r by lia. lia.
Qed.

(** The upper part of [h * 2^n + l] is [h], the lower part is [l]. *)
Lemma div_high h l n : 0 <= n -> 0 <= l < 2 ^ n -> (h * 2 ^ n + l) / 2 ^ n = h.
Proof. intros. rewrite Z.div_add_l, Z.div_small; lia. Qed.

Lemma mod_low h l n : 0 <= n -> 0 <= l < 2 ^ n -> (h * 2 ^ n + l) mod 2 ^ n = l.
Proof. intros. rewrite Z.add_comm, Z.mod_add, Z.mod_small; lia. Qed.

Lemma div_pow2_range x a b :
  0 <= a -> 0 <= b -> 0 <= x < 2 ^ (a + b) -> 0 <= x / 2 ^ a < 2 ^ b.
Proof.
  intros Ha Hb Hx. pose proof (pow2_pos a Ha). rewrite pow2_split in Hx by lia.
  split; [apply Z.div_pos; lia|]. apply Z.div_lt_upper_bound; lia.
Qed.

(** Lexicographic comparison of two-part numbers. *)
Lemma compare_high_low h1 l1 h2 l2 n :
  0 <= n -> 0 <= l1 < 2 ^ n -> 0 <= l2 < 2 ^ n ->
  (h1 * 2 ^ n + l1 ?= h2 * 2 ^ n + l2) =
  match h1 ?= h2 with Eq => l1 ?= l2 | c => c end.
Proof.
  intros. pose proof (pow2_pos n).
  destruct (Z.compare_spec h1 h2) as [->| |].
  - destruct (Z.compare_spec l1 l2); [subst; apply Z.compare_refl|..].
    + apply Z.compare_lt_iff; lia.
    + apply Z.compare_gt_iff; lia.
  - apply Z.compare_lt_iff; nia.
  - apply Z.compare_gt_iff; nia.
Qed.

(** The sign convention of the comparison functions: -1, 0, 1. *)
Definition cmp_sign (c : comparison) : Z :=
  match c with Lt => -1 | Eq => 0 | Gt => 1 end.

Lemma mod_pow2_div x a b :
  0 <= a -> 0 <= b -> (x mod 2 ^ (a + b)) / 2 ^ a = (x / 2 ^ a) mod 2 ^ b.
Proof.
  intros. rewrite (Z.add_comm a b), mod_pow2_add by lia.
  apply div_high; [lia|]. apply Z.mod_pos_bound, pow2_pos; lia.
Qed.

Lemma mul_pow2_mod q a b :
  0 <= a -> 0 <= b -> (q * 2 ^ a) mod 2 ^ (a + b) = (q mod 2 ^ b) * 2 ^ a.
Proof.
  intros. rewrite Z.add_comm, pow2_split by lia.
  pose proof (pow2_pos a). pose proof (pow2_pos b).
  by rewrite Z.mul_mod_distr_r by lia.
Qed.

Lemma mul_pow2_div q a b :
  0 <= a -> 0 <= b -> (q * 2 ^ a) / 2 ^ (a + b) = q / 2 ^ b.
Proof.
  intros. rewrite Z.add_comm, pow2_split by lia.
  pose proof (pow2_pos a). pose proof (pow2_pos b).
  by rewrite Z.div_mul_cancel_r by lia.
Qed.

Lemma mod_mod_pow2 x a b :
  0 <= a <= b -> (x mod 2 ^ b) mod 2 ^ a = x mod 2 ^ a.
Proof.
  intros. replace b with ((b - a) + a) by lia.
  rewrite mod_pow2_add by lia. apply mod_low; [lia|].
  apply Z.mod_pos_bound, pow2_pos; lia.
Qed.

(** A left shift by [w - b] only sees the low [b] bits. *)
Lemma mul_pow2_drop v b w :
  0 <= b <= w -> (v mod 2 ^ b * 2 ^ (w - b)) mod 2 ^ w = (v * 2 ^ (w - b)) mod 2 ^ w.
Proof.
  intros. replace w with ((w - b) + b) at 2 4 by lia.
  rewrite !mul_pow2_mod, Z.mod_mod by (try apply Z.pow_nonzero; lia). done.
Qed.

(** ** Single bits *)

Lemma land_pow2_testbit c n : 0 <= n -> (Z.land c (2 ^ n) =? 0) = negb (Z.testbit c n).
Proof.
  intros Hn. destruct (Z.testbit c n) eqn:E; cbn [negb].
  - apply Z.eqb_neq. intros H. assert (Z.testbit (Z.land c (2 ^ n)) n = false) as Ht
      by (rewrite H; apply Z.bits_0).
    rewrite Z.land_spec, E, Z.pow2_bits_true in Ht by done. done.
  - apply Z.eqb_eq, Z.bits_inj'. intros k Hk. rewrite Z.land_spec, Z.bits_0, Z.pow2_bits_eqb by done.
    destruct (Z.eqb_spec n k) as [<-|]; [by rewrite E|apply andb_false_r].
Qed.

Lemma ldiff_pow2 s n : 0 <= n ->
  Z.ldiff s (2 ^ n) = if Z.testbit s n then s - 2 ^ n else s.
Proof.
  intros Hn. destruct (Z.testbit s n) eqn:E.
  - rewrite Z.sub_nocarry_ldiff; [done|]. apply Z.bits_inj'. intros k Hk.
    rewrite Z.ldiff_spec, Z.pow2_bits_eqb, Z.bits_0 by lia.
    destruct (Z.eqb_spec n k) as [<-|]; [by rewrite E|done].
  - apply Z.bits_inj'. intros k Hk. rewrite Z.ldiff_spec, Z.pow2_bits_eqb by lia.
    destruct (Z.eqb_spec n k) as [<-|]; [by rewrite E|]. by rewrite andb_true_r.
Qed.

Lemma lor_pow2 s n : 0 <= n ->
  Z.lor s (2 ^ n) = if Z.testbit s n then s else s + 2 ^ n.
Proof.
  intros Hn. destruct (Z.testbit s n) eqn:E.
  - apply Z.bits_inj'. intros k Hk. rewrite Z.lor_spec, Z.pow2_bits_eqb by lia.
    destruct (Z.eqb_spec n k) as [<-|]; [by rewrite E|]. by rewrite orb_false_r.
  - apply lor_add. apply Z.eqb_eq. by rewrite land_pow2_testbit, E by lia.
Qed.

(** The bit above [n] low bits. *)
Lemma testbit_high h l n : 0 <= n -> 0 <= l < 2 ^ n ->
  Z.testbit (h * 2 ^ n + l) n = Z.odd h.
Proof.
  intros Hn Hl. rewrite <- (div_high h l n) at 2 by lia.
  by rewrite <- Z.shiftr_div_pow2, <- Z.bit0_odd, Z.shiftr_spec, Z.add_0_l by lia.
Qed.

(** Overwriting the [w]-bit field at bit [n]. *)
Lemma set_field v x w n : 0 <= w -> 0 <= n -> 0 <= x < 2 ^ w ->
  Z.lor (Z.ldiff v (Z.shiftl (Z.ones w) n)) (Z.shiftl x n) = v + (x - v / 2 ^ n mod 2 ^ w) * 2 ^ n.
Proof.
  intros Hw Hn Hx.
  assert (Z.land v (Z.shiftl (Z.ones w) n) = v / 2 ^ n mod 2 ^ w * 2 ^ n) as Hl.
  { rewrite <- Z.shiftl_mul_pow2, <- Z.land_ones, <- Z.shiftr_div_pow2 by lia.
    apply Z.bits_inj'. intros k Hk. rewrite Z.land_spec, !Z.shiftl_spec by lia.
    destruct (Z.lt_ge_cases k n).
    - rewrite !(Z.testbit_neg_r _ (k - n)) by lia. apply andb_false_r.
    - rewrite Z.land_spec, Z.shiftr_spec by lia. do 2 f_equal. lia. }
  assert (v = Z.ldiff v (Z.shiftl (Z.ones w) n) + v / 2 ^ n mod 2 ^ w * 2 ^ n) as Hv.
  { rewrite <- Hl, <- lor_add; [by rewrite Z.lor_ldiff_and|].
    apply Z.bits_inj'. intros k Hk. rewrite Z.land_spec, Z.ldiff_spec, Z.land_spec, Z.bits_0.
    by destruct (Z.testbit v k), (Z.testbit (Z.shiftl (Z.ones w) n) k). }
  rewrite lor_add.
  - rewrite (Z.shiftl_mul_pow2 x) by lia. lia.
  - apply Z.bits_inj'. intros k Hk. rewrite Z.land_spec, Z.ldiff_spec, !Z.shiftl_spec, Z.bits_0 by lia.
    destruct (Z.lt_ge_cases k n); [by rewrite !(Z.testbit_neg_r _ (k - n)), andb_false_r by lia|].
    destruct (Z.lt_ge_cases (k - n) w).
    + by rewrite Z.ones_spec_low, andb_false_r by lia.
    + by rewrite <- (Z.mod_small x (2 ^ w)), Z.mod_pow2_bits_high, andb_false_r by lia.
Qed.
