(* ===== verification/Bpos.v ===== *)
(** * Positions and unpacked keys ([btree/bkey.rs])

    [bpos] is the search key of every btree: an inode number, an offset and
    a snapshot id, ordered lexicographically.  This file models the record
    types, every comparison function, the successor and predecessor
    functions and the field helpers of the unpacked key [bkey], and shows
    that all of them agree with one reference: the number [bpos_val p],
    160 bits wide, whose digits are the three fields. *)

From stdpp Require Import base tactics option.
From Stdlib Require Import ZArith Lia.
From S2P Require Import Prelude.

Open Scope Z_scope.

(** ** Data *)

Definition KEY_INODE_MAX : Z := MAX 64.
Definition KEY_OFFSET_MAX : Z := MAX 64.
Definition KEY_SNAPSHOT_MAX : Z := MAX 32.

Definition KEY_FORMAT_LOCAL_BTREE : Z := 0.
Definition KEY_FORMAT_CURRENT : Z := 1.
Definition BKEY_U64S : Z := 5.

Record bpos := SPOS { inode : Z; offset : Z; snapshot : Z }.

Definition POS (i o : Z) : bpos := SPOS i o 0.
Definition POS_MIN : bpos := SPOS 0 0 0.
Definition POS_MAX : bpos := SPOS KEY_INODE_MAX KEY_OFFSET_MAX 0.
Definition SPOS_MAX : bpos := SPOS KEY_INODE_MAX KEY_OFFSET_MAX KEY_SNAPSHOT_MAX.

Record bversion := mk_bversion { v_hi : Z; v_lo : Z }.
Definition ZERO_VERSION : bversion := mk_bversion 0 0.

Record bkey := mk_bkey {
  k_u64s : Z;
  k_format : Z;
  k_type : Z;
  k_version : bversion;
  k_size : Z;
  k_p : bpos
}.

Definition bpos_wf (p : bpos) : Prop :=
  in_range 64 (inode p) /\ in_range 64 (offset p) /\ in_range 32 (snapshot p).

Definition bversion_wf (v : bversion) : Prop :=
  in_range 32 (v_hi v) /\ in_range 64 (v_lo v).

Definition bkey_wf (k : bkey) : Prop :=
  in_range 8 (k_u64s k) /\ in_range 8 (k_format k) /\ in_range 8 (k_type k) /\
  bversion_wf (k_version k) /\ in_range 32 (k_size k) /\ bpos_wf (k_p k).

#[export] Instance bpos_eq_dec : EqDecision bpos.
Proof. solve_decision. Defined.
#[export] Instance bversion_eq_dec : EqDecision bversion.
Proof. solve_decision. Defined.
#[export] Instance bkey_eq_dec : EqDecision bkey.
Proof. solve_decision. Defined.

(** ** Comparisons of positions *)

Definition bpos_eq (l r : bpos) : bool :=
  Z.lor (Z.lor (Z.lxor (inode l) (inode r)) (Z.lxor (offset l) (offset r)))
        (Z.lxor (snapshot l) (snapshot r)) =? 0.

Definition bpos_lt (l r : bpos) : bool :=
  if negb (inode l =? inode r) then inode l <? inode r
  else if negb (offset l =? offset r) then offset l <? offset r
  else if negb (snapshot l =? snapshot r) then snapshot l <? snapshot r
  else false.

Definition bpos_le (l r : bpos) : bool :=
  if negb (inode l =? inode r) then inode l <? inode r
  else if negb (offset l =? offset r) then offset l <? offset r
  else if negb (snapshot l =? snapshot r) then snapshot l <? snapshot r
  else true.

Definition bpos_gt (l r : bpos) : bool := bpos_lt r l.
Definition bpos_ge (l r : bpos) : bool := bpos_le r l.

Definition bpos_cmp (l r : bpos) : Z :=
  if inode l <? inode r then -1
  else if inode l >? inode r then 1
  else if offset l <? offset r then -1
  else if offset l >? offset r then 1
  else if snapshot l <? snapshot r then -1
  else if snapshot l >? snapshot r then 1
  else 0.

Definition bpos_min (l r : bpos) : bpos := if bpos_lt l r then l else r.
Definition bpos_max (l r : bpos) : bpos := if bpos_gt l r then l else r.

(** Comparisons that ignore the snapshot. *)

Definition bkey_eq (l r : bpos) : bool :=
  Z.lor (Z.lxor (inode l) (inode r)) (Z.lxor (offset l) (offset r)) =? 0.

Definition bkey_lt (l r : bpos) : bool :=
  if negb (inode l =? inode r) then inode l <? inode r else offset l <? offset r.

Definition bkey_le (l r : bpos) : bool :=
  if negb (inode l =? inode r) then inode l <? inode r else offset l <=? offset r.

Definition bkey_gt (l r : bpos) : bool := bkey_lt r l.
Definition bkey_ge (l r : bpos) : bool := bkey_le r l.

Definition bkey_cmp (l r : bpos) : Z :=
  if inode l <? inode r then -1
  else if inode l >? inode r then 1
  else if offset l <? offset r then -1
  else if offset l >? offset r then 1
  else 0.

Definition bkey_min (l r : bpos) : bpos := if bkey_lt l r then l else r.
Definition bkey_max (l r : bpos) : bpos := if bkey_gt l r then l else r.

(** ** Versions *)

Definition bversion_cmp (l r : bversion) : Z :=
  if v_hi l <? v_hi r then -1
  else if v_hi l >? v_hi r then 1
  else if v_lo l <? v_lo r then -1
  else if v_lo l >? v_lo r then 1
  else 0.

Definition bversion_eq (l r : bversion) : bool := (v_hi l =? v_hi r) && (v_lo l =? v_lo r).

Definition bversion_zero (v : bversion) : bool := bversion_cmp v ZERO_VERSION =? 0.

(** ** Successors and predecessors

    [overflowing_add]/[overflowing_sub] carry into the next field; a carry
    out of the inode is the [assert!]. *)

Definition bpos_successor (p : bpos) : option bpos :=
  let s := wadd 32 (snapshot p) 1 in
  if snapshot p + 1 <? 2 ^ 32 then Some (SPOS (inode p) (offset p) s) else
  let o := wadd 64 (offset p) 1 in
  if offset p + 1 <? 2 ^ 64 then Some (SPOS (inode p) o s) else
  let i := wadd 64 (inode p) 1 in
  _ ← assert (inode p + 1 <? 2 ^ 64);
  Some (SPOS i o s).

Definition bpos_predecessor (p : bpos) : option bpos :=
  let s := wsub 32 (snapshot p) 1 in
  if 1 <=? snapshot p then Some (SPOS (inode p) (offset p) s) else
  let o := wsub 64 (offset p) 1 in
  if 1 <=? offset p then Some (SPOS (inode p) o s) else
  let i := wsub 64 (inode p) 1 in
  _ ← assert (1 <=? inode p);
  Some (SPOS i o s).

Definition bpos_nosnap_successor (p : bpos) : option bpos :=
  let o := wadd 64 (offset p) 1 in
  if offset p + 1 <? 2 ^ 64 then Some (SPOS (inode p) o 0) else
  let i := wadd 64 (inode p) 1 in
  _ ← assert (inode p + 1 <? 2 ^ 64);
  Some (SPOS i o 0).

Definition bpos_nosnap_predecessor (p : bpos) : option bpos :=
  let o := wsub 64 (offset p) 1 in
  if 1 <=? offset p then Some (SPOS (inode p) o 0) else
  let i := wsub 64 (inode p) 1 in
  _ ← assert (1 <=? inode p);
  Some (SPOS i o 0).

Definition bpos_with_snapshot (p : bpos) (s : Z) : bpos := SPOS (inode p) (offset p) s.

(** ** Field helpers of the unpacked key *)

Definition bkey_start_offset (k : bkey) : Z := wsub 64 (offset (k_p k)) (k_size k).

Definition bkey_start_pos (k : bkey) : bpos :=
  SPOS (inode (k_p k)) (bkey_start_offset k) (snapshot (k_p k)).

Definition bkey_init : bkey :=
  mk_bkey BKEY_U64S KEY_FORMAT_CURRENT 0 ZERO_VERSION 0 (POS 0 0).

Definition bch2_key_resize (k : bkey) (new_size : Z) : bkey :=
  mk_bkey (k_u64s k) (k_format k) (k_type k) (k_version k) new_size
    (SPOS (inode (k_p k))
          (wadd 64 (wsub 64 (offset (k_p k)) (k_size k)) new_size)
          (snapshot (k_p k))).

Definition bkey_val_u64s (k : bkey) : Z := wsub 32 (k_u64s k) BKEY_U64S.

Definition bkey_bytes (k : bkey) : Z := k_u64s k * 8.

Definition bkey_val_bytes (k : bkey) : Z := bkey_val_u64s k * 8.

Definition set_bkey_val_u64s (k : bkey) (val_u64s : Z) : option bkey :=
  u ← uadd 32 BKEY_U64S val_u64s;
  _ ← assert (u <=? MAX 8);
  Some (mk_bkey u (k_format k) (k_type k) (k_version k) (k_size k) (k_p k)).

Definition set_bkey_val_bytes (k : bkey) (bytes : Z) : option bkey :=
  set_bkey_val_u64s k ((bytes + 7) / 8).

Definition bkey_fields_eq (l r : bkey) : bool :=
  (k_u64s l =? k_u64s r) && (k_type l =? k_type r) && bpos_eq (k_p l) (k_p r) &&
  bversion_eq (k_version l) (k_version r) && (k_size l =? k_size r).

Definition bch2_bkey_maybe_mergable (l r : bkey) : bool :=
  (k_type l =? k_type r) && (bversion_cmp (k_version l) (k_version r) =? 0) &&
  bkey_eq (k_p l) (bkey_start_pos r).

(** ** Merging adjacent keys

    [bkey_s] is a key and a value pointer, either of which may be null: a
    null key is [None].  Of the value only the reservation fields are read. *)

Definition KEY_TYPE_reservation : Z := 7.
Definition KEY_TYPE_set : Z := 25.

Record bch_reservation := mk_bch_reservation { generation : Z; nr_replicas : Z }.

Definition bch2_reservation_merge (lk : bkey) (lv : bch_reservation)
    (rk : bkey) (rv : bch_reservation) : bool * bkey :=
  if negb (generation lv =? generation rv) || negb (nr_replicas lv =? nr_replicas rv)
  then (false, lk)
  else (true, bch2_key_resize lk (wadd 32 (k_size lk) (k_size rk))).

(** Returns the flag and the (possibly resized) left key. *)
Definition bch2_bkey_merge (l : option (bkey * bch_reservation))
    (r : option (bkey * bch_reservation)) : bool * option bkey :=
  match l, r with
  | Some (lk, lv), Some (rk, rv) =>
      if negb (bch2_bkey_maybe_mergable lk rk) then (false, Some lk)
      else if negb (k_size lk + k_size rk <? 2 ^ 32) then (false, Some lk)
      else if k_type lk =? KEY_TYPE_reservation
      then let '(b, k) := bch2_reservation_merge lk lv rk rv in (b, Some k)
      else if negb (k_type lk =? KEY_TYPE_set) then (false, Some lk)
      else (true, Some (bch2_key_resize lk (k_size lk + k_size rk)))
  | _, _ => (false, fst <$> l)
  end.

(** ** The reference order *)

Definition bkey_val (p : bpos) : Z := inode p * 2 ^ 64 + offset p.
Definition bpos_val (p : bpos) : Z := bkey_val p * 2 ^ 32 + snapshot p.

Lemma cmp_sign_spec (a b : Z) :
  cmp_sign (a ?= b) = if a <? b then -1 else if a >? b then 1 else 0.
Proof.
  unfold Z.ltb, Z.gtb. by destruct (a ?= b).
Qed.

Lemma if_cmp_chain (a b x : Z) :
  (if a <? b then -1 else if a >? b then 1 else x) =
  match a ?= b with Eq => x | c => cmp_sign c end.
Proof. unfold Z.ltb, Z.gtb. by destruct (a ?= b). Qed.

Lemma bkey_cmp_val l r :
  bpos_wf l -> bpos_wf r -> bkey_cmp l r = cmp_sign (bkey_val l ?= bkey_val r).
Proof.
  intros (? & ? & ?) (? & ? & ?). unfold bkey_cmp, bkey_val.
  rewrite compare_high_low by (unfold in_range in *; lia).
  rewrite !if_cmp_chain. by destruct (inode l ?= inode r), (offset l ?= offset r).
Qed.

Lemma bpos_cmp_val l r :
  bpos_wf l -> bpos_wf r -> bpos_cmp l r = cmp_sign (bpos_val l ?= bpos_val r).
Proof.
  intros (? & ? & ?) (? & ? & ?). unfold bpos_cmp, bpos_val, bkey_val.
  rewrite !compare_high_low by (unfold in_range in *; lia).
  rewrite !if_cmp_chain.
  by destruct (inode l ?= inode r), (offset l ?= offset r), (snapshot l ?= snapshot r).
Qed.

Lemma bpos_val_inj l r : bpos_wf l -> bpos_wf r -> bpos_val l = bpos_val r -> l = r.
Proof.
  intros Hl Hr. destruct l, r, Hl as (? & ? & ?), Hr as (? & ? & ?).
  unfold bpos_val, bkey_val, in_range in *; cbn in *. intros.
  assert (inode0 = inode1) by nia. subst.
  assert (offset0 = offset1) by nia. subst. f_equal; lia.
Qed.

Lemma lxor_zero_eqb a b : (Z.lxor a b =? 0) = (a =? b).
Proof.
  apply eq_true_iff_eq. rewrite !Z.eqb_eq. apply Z.lxor_eq_0_iff.
Qed.

Lemma lor_zero_eqb a b : (Z.lor a b =? 0) = (a =? 0) && (b =? 0).
Proof.
  apply eq_true_iff_eq. rewrite andb_true_iff, !Z.eqb_eq. apply Z.lor_eq_0_iff.
Qed.

Lemma bpos_eq_spec l r : bpos_eq l r = bool_decide (l = r).
Proof.
  unfold bpos_eq. rewrite !lor_zero_eqb, !lxor_zero_eqb.
  destruct l as [a b c], r as [a' b' c']; cbn.
  apply eq_true_iff_eq. rewrite bool_decide_eq_true, !andb_true_iff, !Z.eqb_eq.
  split; [intros [[]]; congruence | by injection 1].
Qed.

Lemma bkey_eq_spec l r :
  bkey_eq l r = (inode l =? inode r) && (offset l =? offset r).
Proof. unfold bkey_eq. by rewrite lor_zero_eqb, !lxor_zero_eqb. Qed.

Lemma bpos_lt_cmp l r : bpos_lt l r = (bpos_cmp l r <? 0).
Proof.
  unfold bpos_lt, bpos_cmp. rewrite !if_cmp_chain. rewrite !Z.eqb_compare; unfold Z.ltb.
  by destruct (inode l ?= inode r), (offset l ?= offset r), (snapshot l ?= snapshot r).
Qed.

Lemma bpos_le_cmp l r : bpos_le l r = (bpos_cmp l r <=? 0).
Proof.
  unfold bpos_le, bpos_cmp. rewrite !if_cmp_chain. rewrite !Z.eqb_compare; unfold Z.ltb.
  by destruct (inode l ?= inode r), (offset l ?= offset r), (snapshot l ?= snapshot r).
Qed.

Lemma bkey_lt_cmp l r : bkey_lt l r = (bkey_cmp l r <? 0).
Proof.
  unfold bkey_lt, bkey_cmp. rewrite !if_cmp_chain. rewrite !Z.eqb_compare; unfold Z.ltb.
  by destruct (inode l ?= inode r), (offset l ?= offset r).
Qed.

Lemma bkey_le_cmp l r : bkey_le l r = (bkey_cmp l r <=? 0).
Proof.
  unfold bkey_le, bkey_cmp. rewrite !if_cmp_chain. rewrite !Z.eqb_compare; unfold Z.ltb, Z.leb.
  by destruct (inode l ?= inode r), (offset l ?= offset r).
Qed.

Lemma cmp_sign_ltb a b : (cmp_sign (a ?= b) <? 0) = (a <? b).
Proof. unfold Z.ltb. by destruct (a ?= b). Qed.
Lemma cmp_sign_leb a b : (cmp_sign (a ?= b) <=? 0) = (a <=? b).
Proof. unfold Z.leb. by destruct (a ?= b). Qed.

Lemma bpos_lt_val l r : bpos_wf l -> bpos_wf r -> bpos_lt l r = (bpos_val l <? bpos_val r).
Proof. intros. by rewrite bpos_lt_cmp, bpos_cmp_val, cmp_sign_ltb. Qed.
Lemma bpos_le_val l r : bpos_wf l -> bpos_wf r -> bpos_le l r = (bpos_val l <=? bpos_val r).
Proof. intros. by rewrite bpos_le_cmp, bpos_cmp_val, cmp_sign_leb. Qed.
Lemma bkey_lt_val l r : bpos_wf l -> bpos_wf r -> bkey_lt l r = (bkey_val l <? bkey_val r).
Proof. intros. by rewrite bkey_lt_cmp, bkey_cmp_val, cmp_sign_ltb. Qed.
Lemma bkey_le_val l r : bpos_wf l -> bpos_wf r -> bkey_le l r = (bkey_val l <=? bkey_val r).
Proof. intros. by rewrite bkey_le_cmp, bkey_cmp_val, cmp_sign_leb. Qed.

(** ** Successors and predecessors *)

Lemma bpos_val_range p : bpos_wf p -> in_range 160 (bpos_val p).
Proof.
  intros (? & ? & ?). unfold bpos_val, bkey_val, in_range in *. lia.
Qed.

Lemma wadd_carry w a : 0 < w -> a = MAX w -> wadd w a 1 = 0.
Proof.
  intros Hw ->. unfold wadd, MAX. replace (2 ^ w - 1 + 1) with (2 ^ w) by lia.
  apply Z.mod_same. pose proof (pow2_pos w). lia.
Qed.

Lemma wsub_borrow w a : 0 < w -> a = 0 -> wsub w a 1 = MAX w.
Proof.
  intros Hw ->. unfold wsub, MAX. pose proof (Z.pow_gt_1 2 w).
  symmetry. apply (Z.mod_unique_pos _ _ (-1)); lia.
Qed.

(** Decide every comparison of a carry chain, then compute the fields. *)
Ltac carry_chain :=
  unfold assert, bpos_wf, bpos_val, bkey_val, in_range in *; cbn -[Z.pow] in *;
  repeat match goal with
  | |- context [?a <? ?b] => destruct (Z.ltb_spec a b); cbn -[Z.pow]
  | |- context [?a <=? ?b] => destruct (Z.leb_spec a b); cbn -[Z.pow]
  end;
  repeat match goal with
  | |- context [wadd ?w ?a 1] =>
      first [rewrite (wadd_carry w a) by (unfold MAX; lia)
            |rewrite (wadd_small w a 1) by (unfold in_range; lia)]
  | |- context [wsub ?w ?a 1] =>
      first [rewrite (wsub_borrow w a) by lia
            |rewrite (wsub_small w a 1) by (unfold in_range; lia)]
  end; unfold MAX in *; try lia.

Lemma bpos_successor_spec p : bpos_wf p ->
  match bpos_successor p with
  | Some q => bpos_wf q /\ bpos_val q = bpos_val p + 1
  | None => p = SPOS_MAX
  end.
Proof.
  destruct p as [i o s]. intros (Hi & Ho & Hs). unfold bpos_successor; carry_chain.
  unfold SPOS_MAX, KEY_INODE_MAX, KEY_OFFSET_MAX, KEY_SNAPSHOT_MAX, MAX. f_equal; lia.
Qed.

Lemma bpos_predecessor_spec p : bpos_wf p ->
  match bpos_predecessor p with
  | Some q => bpos_wf q /\ bpos_val q = bpos_val p - 1
  | None => p = POS_MIN
  end.
Proof.
  destruct p as [i o s]. intros (Hi & Ho & Hs). unfold bpos_predecessor; carry_chain.
  unfold POS_MIN. f_equal; lia.
Qed.

Lemma bpos_nosnap_successor_spec p : bpos_wf p ->
  match bpos_nosnap_successor p with
  | Some q => bpos_wf q /\ bkey_val q = bkey_val p + 1 /\ snapshot q = 0
  | None => inode p = KEY_INODE_MAX /\ offset p = KEY_OFFSET_MAX
  end.
Proof.
  destruct p as [i o s]. intros (Hi & Ho & Hs). unfold bpos_nosnap_successor; carry_chain.
  unfold KEY_INODE_MAX, KEY_OFFSET_MAX, MAX. lia.
Qed.

Lemma bpos_nosnap_predecessor_spec p : bpos_wf p ->
  match bpos_nosnap_predecessor p with
  | Some q => bpos_wf q /\ bkey_val q = bkey_val p - 1 /\ snapshot q = 0
  | None => inode p = 0 /\ offset p = 0
  end.
Proof.
  destruct p as [i o s]. intros (Hi & Ho & Hs). unfold bpos_nosnap_predecessor; carry_chain.
Qed.

(** ** Properties *)

(** Every comparison function of [bkey.rs] on well-formed positions is the
    order of the 160-bit number [bpos_val] (of its upper 128 bits for the
    functions that ignore the snapshot), and [bpos_min]/[bpos_max] choose
    the smaller and the larger number. *)
Theorem bpos_order_reference (l r : bpos) :
  bpos_wf l -> bpos_wf r ->
  bpos_cmp l r = cmp_sign (bpos_val l ?= bpos_val r) /\
  bpos_eq l r = (bpos_val l =? bpos_val r) /\
  bpos_lt l r = (bpos_val l <? bpos_val r) /\
  bpos_le l r = (bpos_val l <=? bpos_val r) /\
  bpos_gt l r = (bpos_val r <? bpos_val l) /\
  bpos_ge l r = (bpos_val r <=? bpos_val l) /\
  bpos_val (bpos_min l r) = Z.min (bpos_val l) (bpos_val r) /\
  bpos_val (bpos_max l r) = Z.max (bpos_val l) (bpos_val r) /\
  bkey_cmp l r = cmp_sign (bkey_val l ?= bkey_val r) /\
  bkey_eq l r = (bkey_cmp l r =? 0) /\
  bkey_lt l r = (bkey_val l <? bkey_val r) /\
  bkey_le l r = (bkey_val l <=? bkey_val r).
Proof.
  intros Hl Hr. unfold bpos_gt, bpos_ge, bpos_min, bpos_max, bpos_gt.
  rewrite !bpos_lt_val, !bpos_le_val, bkey_lt_val, bkey_le_val, bpos_cmp_val, bkey_cmp_val
    by done.
  repeat split; try done.
  - rewrite bpos_eq_spec. apply eq_true_iff_eq. rewrite bool_decide_eq_true, Z.eqb_eq.
    split; [by intros ->|]. by apply bpos_val_inj.
  - destruct (Z.ltb_spec (bpos_val l) (bpos_val r)); lia.
  - destruct (Z.ltb_spec (bpos_val r) (bpos_val l)); lia.
  - rewrite bkey_eq_spec, <- bkey_cmp_val by done. unfold bkey_cmp.
    rewrite !if_cmp_chain, !Z.eqb_compare.
    by destruct (inode l ?= inode r), (offset l ?= offset r).
Qed.

Lemma bpos_order_reference_witness :
  bpos_cmp (SPOS 1 7 3) (SPOS 1 7 4) = cmp_sign (bpos_val (SPOS 1 7 3) ?= bpos_val (SPOS 1 7 4)).
Proof. apply (bpos_order_reference (SPOS 1 7 3) (SPOS 1 7 4)); repeat split; done. Defined.

(** [bpos_successor] panics only on the largest position; otherwise it
    returns the least position above its argument, and [bpos_predecessor]
    leads back. *)
Theorem bpos_successor_least (p : bpos) :
  bpos_wf p ->
  (bpos_successor p = None <-> p = SPOS_MAX) /\
  forall q, bpos_successor p = Some q ->
    bpos_wf q /\ bpos_lt p q = true /\
    (forall r, bpos_wf r -> bpos_lt p r = true -> bpos_le q r = true) /\
    bpos_predecessor q = Some p.
Proof.
  intros Hp. pose proof (bpos_successor_spec p Hp) as Hs. split.
  { split; [by intros Hn; rewrite Hn in Hs | by intros ->]. }
  intros q Hq. rewrite Hq in Hs. destruct Hs as [Hwf Hv].
  split; [done|]. rewrite bpos_lt_val by done. split; [lia|]. split.
  - intros r Hr. rewrite bpos_lt_val, bpos_le_val by done. lia.
  - pose proof (bpos_predecessor_spec q Hwf) as Hpr.
    destruct (bpos_predecessor q) as [p'|].
    + f_equal. apply bpos_val_inj; [apply Hpr | done | lia].
    + pose proof (bpos_val_range p Hp). subst q. unfold in_range in *.
      change (bpos_val POS_MIN) with 0 in Hv. lia.
Qed.

Lemma bpos_successor_least_witness :
  bpos_successor (SPOS 1 KEY_OFFSET_MAX KEY_SNAPSHOT_MAX) = Some (SPOS 2 0 0) /\
  bpos_predecessor (SPOS 2 0 0) = Some (SPOS 1 KEY_OFFSET_MAX KEY_SNAPSHOT_MAX).
Proof.
  split; [reflexivity|].
  apply (bpos_successor_least (SPOS 1 KEY_OFFSET_MAX KEY_SNAPSHOT_MAX));
    [repeat split; done | reflexivity].
Defined.

(** A successful merge of two adjacent keys covers exactly the two: it
    starts where the left key started, ends where the right key ended, and
    keeps type and version; a failed merge leaves the left key alone. *)
Theorem bch2_bkey_merge_covers (lk rk : bkey) (lv rv : bch_reservation) :
  bkey_wf lk -> bkey_wf rk ->
  k_size lk <= offset (k_p lk) -> k_size rk <= offset (k_p rk) ->
  exists b k, bch2_bkey_merge (Some (lk, lv)) (Some (rk, rv)) = (b, Some k) /\
  (b = false -> k = lk) /\
  (b = true ->
     k_size k = k_size lk + k_size rk /\
     bkey_start_pos k = bkey_start_pos lk /\
     inode (k_p k) = inode (k_p rk) /\ offset (k_p k) = offset (k_p rk) /\
     k_type k = k_type rk /\ k_version k = k_version lk /\ bkey_wf k).
Proof.
  intros Hl Hr Hsl Hsr. unfold bch2_bkey_merge.
  destruct (bch2_bkey_maybe_mergable lk rk) eqn:Hm; cbn -[Z.pow]; [|naive_solver].
  destruct (Z.ltb_spec (k_size lk + k_size rk) (2 ^ 32)) as [Hsz|]; cbn -[Z.pow]; [|naive_solver].
  destruct lk as [lu lf lt lver ls [li lo lsn]], rk as [ru rf rt rver rs [ri ro rsn]].
  unfold bch2_bkey_maybe_mergable in Hm. rewrite bkey_eq_spec in Hm.
  unfold bkey_wf, bpos_wf, bkey_start_pos, bkey_start_offset, in_range in *; cbn -[Z.pow] in *.
  rewrite !andb_true_iff, !Z.eqb_eq in Hm. destruct Hm as [[-> _] [-> Hadj]].
  rewrite wsub_small in Hadj by (unfold in_range; lia).
  unfold bch2_reservation_merge, bch2_key_resize; cbn -[Z.pow].
  rewrite (wadd_small 32 ls rs), (wsub_small 64 lo ls), (wadd_small 64 (lo - ls))
    by (unfold in_range; lia).
  assert (wsub 64 (lo - ls + (ls + rs)) (ls + rs) = lo - ls) as Hb
    by (rewrite wsub_small; unfold in_range; lia).
  repeat case_match; simplify_eq; eexists _, _; (split; [reflexivity|]);
    (split; [done|]); intros Hb0; try discriminate Hb0;
    cbn -[Z.pow] in *; rewrite ?Hb; repeat split; try done; try lia; apply Hl.
Qed.

Lemma bch2_bkey_merge_covers_witness :
  let l := mk_bkey 5 1 KEY_TYPE_set ZERO_VERSION 8 (SPOS 1 8 0) in
  let r := mk_bkey 5 1 KEY_TYPE_set ZERO_VERSION 4 (SPOS 1 12 0) in
  bch2_bkey_merge (Some (l, mk_bch_reservation 0 0)) (Some (r, mk_bch_reservation 0 0)) =
    (true, Some (mk_bkey 5 1 KEY_TYPE_set ZERO_VERSION 12 (SPOS 1 12 0))).
Proof.
  intros l r.
  destruct (bch2_bkey_merge_covers l r (mk_bch_reservation 0 0) (mk_bch_reservation 0 0))
    as (b & k & H & _ & _); try (repeat split; done); try done.
Defined.
