(* ===== verification/BkeyPack.v ===== *)
(** * Packed keys ([btree/bkey.rs], [btree/node_iter.rs])

    A packed key stores six fields (inode, offset, snapshot, size, version)
    in the variable widths of a [bkey_format], most significant field first,
    starting at the top bit of the last word of the key; the first three
    bytes of word 0 hold [u64s], [format] and [type_].  A packed key is its
    memory: the list of its little-endian 64-bit words, which is how the
    source accesses it ([*mut bkey_packed as *mut u64]).

    The reference is arithmetic: packing appends fields to a number
    ([pack_repr]), unpacking reads a slice of the number ([wval]), and
    comparing packed keys compares prefixes of it. *)

From stdpp Require Import base tactics list option.
From Stdlib Require Import ZArith Lia.
From S2P Require Import Prelude Bpos.

Open Scope Z_scope.

(** ** Formats *)

Definition BKEY_FIELD_INODE : nat := 0.
Definition BKEY_FIELD_OFFSET : nat := 1.
Definition BKEY_FIELD_SNAPSHOT : nat := 2.
Definition BKEY_FIELD_SIZE : nat := 3.
Definition BKEY_NR_FIELDS : Z := 6.
Definition KEY_PACKED_BITS_START : Z := 24.

Record bkey_format := mk_bkey_format {
  f_key_u64s : Z;
  f_nr_fields : Z;
  f_bits : list Z;
  f_offset : list Z
}.

Definition BKEY_FORMAT_CURRENT : bkey_format :=
  mk_bkey_format BKEY_U64S BKEY_NR_FIELDS [64; 64; 32; 32; 32; 64] [0; 0; 0; 0; 0; 0].

(** Array reads of the format; an index past the six fields panics. *)
Definition field_bits (f : bkey_format) (i : nat) : option Z := f_bits f !! i.
Definition field_off (f : bkey_format) (i : nat) : option Z := f_offset f !! i.

(** ** The memory of a packed key *)

Definition word (m : list Z) (i : nat) : Z := nth i m 0.
#[global] Arguments word : simpl never.

Definition kp_u64s (m : list Z) : Z := word m 0 mod 2 ^ 8.
Definition kp_format (m : list Z) : Z := (word m 0 / 2 ^ 8) mod 2 ^ 8.
Definition kp_type (m : list Z) : Z := (word m 0 / 2 ^ 16) mod 2 ^ 8.

(** Store the three header bytes into word 0. *)
Definition set_header (m : list Z) (u64s format type_ : Z) : list Z :=
  <[0%nat := word m 0 / 2 ^ 24 * 2 ^ 24 + type_ * 2 ^ 16 + format * 2 ^ 8 + u64s]> m.

(** ** Packing *)

Record pack_state := mk_pack_state {
  ps_bits : Z;
  ps_w : Z;
  ps_p : Z;
  ps_words : list Z
}.

Definition store (m : list Z) (p : Z) (w : Z) : list Z := <[Z.to_nat p := w]> m.

(** [size_of::<bkey_packed>() / 8 = 5]. *)
Definition pack_state_init (f : bkey_format) (m : list Z) : option pack_state :=
  _ ← assert (negb (f_key_u64s f =? 0));
  _ ← assert (f_key_u64s f <=? 5);
  Some (mk_pack_state 64 0 (f_key_u64s f - 1) m).

Definition pack_state_finish (f : bkey_format) (st : pack_state) : option (list Z) :=
  _ ← assert (0 <=? ps_p st);
  _ ← assert (ps_p st <? f_key_u64s f);
  Some (store (ps_words st) (ps_p st) (ps_w st)).

Definition __set_inc_field (f : bkey_format) (st : pack_state) (field : nat) (v : Z)
  : option pack_state :=
  bits ← field_bits f field;
  if bits =? 0 then Some st else
  '(bits, st) ←
    (if ps_bits st <? bits then
       let bits := bits - ps_bits st in
       hi ← ushr 64 (Z.shiftr v 1) (bits - 1);
       let w := Z.lor (ps_w st) hi in
       let words := store (ps_words st) (ps_p st) w in
       let p := ps_p st - 1 in
       _ ← assert (0 <=? p);
       Some (bits, mk_pack_state 64 0 p words)
     else Some (bits, st));
  left ← usub (ps_bits st) bits;
  sh ← ushl 64 v left;
  Some (mk_pack_state left (Z.lor (ps_w st) sh) (ps_p st) (ps_words st)).

(** [None] is a panic, [Some None] is the source's [false]. *)
Definition set_inc_field (f : bkey_format) (st : pack_state) (field : nat) (v : Z)
  : option (option pack_state) :=
  bits ← field_bits f field;
  off ← field_off f field;
  if v <? off then Some None else
  let v := v - off in
  if bits <? bitlen v then Some None else
  st ← __set_inc_field f st field v;
  Some (Some st).

Definition set_inc_field_lossy (f : bkey_format) (st : pack_state) (field : nat) (v : Z)
  : option (bool * pack_state) :=
  bits ← field_bits f field;
  off ← field_off f field;
  _ ← assert (off <=? v);
  let v := v - off in
  '(v, ret) ←
    (if bits <? bitlen v then
       if bits =? 64 then Some (MAX 64, false)
       else m ← ushl 64 1 bits; Some (m - 1, false)
     else Some (v, true));
  st ← __set_inc_field f st field v;
  Some (ret, st).

Definition bkey_field_values (k : bkey) : list Z :=
  [inode (k_p k); offset (k_p k); snapshot (k_p k); k_size k;
   v_hi (k_version k); v_lo (k_version k)].

(** The loop over the fields; stops at the first field that does not fit. *)
Fixpoint pack_fields (f : bkey_format) (st : pack_state) (field : nat) (vs : list Z)
  : option (option pack_state) :=
  match vs with
  | [] => Some (Some st)
  | v :: vs =>
      r ← set_inc_field f st field v;
      match r with
      | None => Some None
      | Some st => pack_fields f st (S field) vs
      end
  end.

(** The words of the key are cleared before the fields are stored. *)
Definition clear_words (f : bkey_format) (m : list Z) : list Z :=
  replicate (Z.to_nat (f_key_u64s f)) 0 ++ drop (Z.to_nat (f_key_u64s f)) m.

Definition bch2_bkey_pack_key (out : list Z) (input : bkey) (f : bkey_format)
  : option (option (list Z)) :=
  _ ← assert (f_nr_fields f =? BKEY_NR_FIELDS);
  _ ← assert (Z.land (k_format input) 127 =? KEY_FORMAT_CURRENT);
  st ← pack_state_init f (clear_words f out);
  r ← pack_fields f st 0 (bkey_field_values input);
  match r with
  | None => Some None
  | Some st =>
      m ← pack_state_finish f st;
      out_u64s ← usub (f_key_u64s f + k_u64s input) BKEY_U64S;
      _ ← assert (out_u64s <=? MAX 8);
      Some (Some (set_header m out_u64s (Z.land (k_format input) 128) (k_type input)))
  end.

(** ** Packing positions *)

Inductive bkey_pack_pos_ret :=
| BKEY_PACK_POS_EXACT
| BKEY_PACK_POS_SMALLER
| BKEY_PACK_POS_FAIL.

Definition __bch2_bkey_pack_pos_exact (out : list Z) (input : bpos) (f : bkey_format)
  : option (option (list Z)) :=
  st ← pack_state_init f (clear_words f out);
  o_snap ← field_off f BKEY_FIELD_SNAPSHOT;
  o_off ← field_off f BKEY_FIELD_OFFSET;
  o_ino ← field_off f BKEY_FIELD_INODE;
  if (snapshot input <? o_snap) || (offset input <? o_off) || (inode input <? o_ino)
  then Some None else
  r ← pack_fields f st 0 [inode input; offset input; snapshot input];
  match r with
  | None => Some None
  | Some st =>
      m ← pack_state_finish f st;
      Some (Some (set_header m (f_key_u64s f) KEY_FORMAT_LOCAL_BTREE 0))
  end.

(** The three steps of [bch2_bkey_pack_pos_lossy]: step down to a position
    whose fields are not below the field offsets, store the fields clamped
    to their widths, and report whether anything was lost. *)

Definition lossy_floor_snapshot (f : bkey_format) (input : bpos)
  : option (option (bpos * bool)) :=
  o_snap ← field_off f BKEY_FIELD_SNAPSHOT;
  if snapshot input <? o_snap then
    let off := wsub 64 (offset input) 1 in
    if offset input =? 0 then
      let ino := wsub 64 (inode input) 1 in
      if inode input =? 0 then Some None
      else Some (Some (SPOS ino off KEY_SNAPSHOT_MAX, false))
    else Some (Some (SPOS (inode input) off KEY_SNAPSHOT_MAX, false))
  else Some (Some (input, true)).

Definition lossy_floor_offset (f : bkey_format) (input : bpos) (exact : bool)
  : option (option (bpos * bool)) :=
  o_off ← field_off f BKEY_FIELD_OFFSET;
  if offset input <? o_off then
    let ino := wsub 64 (inode input) 1 in
    if inode input =? 0 then Some None
    else Some (Some (SPOS ino KEY_OFFSET_MAX KEY_SNAPSHOT_MAX, false))
  else Some (Some (input, exact)).

Definition lossy_store (f : bkey_format) (st : pack_state) (input : bpos) (exact : bool)
  : option (pack_state * bool) :=
  '(b1, st) ← set_inc_field_lossy f st BKEY_FIELD_INODE (inode input);
  let input := if (b1 : bool) then input else SPOS (inode input) KEY_OFFSET_MAX KEY_SNAPSHOT_MAX in
  '(b2, st) ← set_inc_field_lossy f st BKEY_FIELD_OFFSET (offset input);
  let input := if (b2 : bool) then input else SPOS (inode input) (offset input) KEY_SNAPSHOT_MAX in
  '(b3, st) ← set_inc_field_lossy f st BKEY_FIELD_SNAPSHOT (snapshot input);
  Some (st, exact && b1 && b2 && b3).

Definition bch2_bkey_pack_pos_lossy (out : list Z) (input : bpos) (f : bkey_format)
  : option (bkey_pack_pos_ret * list Z) :=
  let out := clear_words f out in
  st ← pack_state_init f out;
  r ← lossy_floor_snapshot f input;
  match r with
  | None => Some (BKEY_PACK_POS_FAIL, out)
  | Some (input, exact) =>
      r ← lossy_floor_offset f input exact;
      match r with
      | None => Some (BKEY_PACK_POS_FAIL, out)
      | Some (input, exact) =>
          o_ino ← field_off f BKEY_FIELD_INODE;
          if inode input <? o_ino then Some (BKEY_PACK_POS_FAIL, out) else
          '(st, exact) ← lossy_store f st input exact;
          m ← pack_state_finish f st;
          Some (if (exact : bool) then BKEY_PACK_POS_EXACT else BKEY_PACK_POS_SMALLER,
                set_header m (f_key_u64s f) KEY_FORMAT_LOCAL_BTREE 0)
      end
  end.

(** ** Unpacking *)

Record unpack_state := mk_unpack_state { us_bits : Z; us_w : Z; us_p : Z }.

Definition unpack_state_init (f : bkey_format) (m : list Z) : option unpack_state :=
  _ ← assert (negb (f_key_u64s f =? 0));
  _ ← assert (f_key_u64s f <=? 5);
  let p := f_key_u64s f - 1 in
  Some (mk_unpack_state 64 (word m (Z.to_nat p)) p).

Definition get_inc_field (f : bkey_format) (m : list Z) (st : unpack_state) (field : nat)
  : option (Z * unpack_state) :=
  bits ← field_bits f field;
  off ← field_off f field;
  '(v, bits, st) ←
    (if us_bits st <=? bits then
       n ← usub 64 bits;
       v ← ushr 64 (us_w st) n;
       let bits := bits - us_bits st in
       let p := us_p st - 1 in
       _ ← assert ((0 <=? p) || (bits =? 0));
       let w := if 0 <=? p then word m (Z.to_nat p) else 0 in
       Some (v, bits, mk_unpack_state 64 w p)
     else Some (0, bits, st));
  n ← usub 63 bits;
  lo ← ushr 64 (Z.shiftr (us_w st) 1) n;
  w ← ushl 64 (us_w st) bits;
  left ← usub (us_bits st) bits;
  Some (wadd 64 (Z.lor v lo) off, mk_unpack_state left w (us_p st)).

Definition __bch2_bkey_unpack_key (f : bkey_format) (input : list Z) : option bkey :=
  _ ← assert (f_nr_fields f =? BKEY_NR_FIELDS);
  _ ← assert (f_key_u64s f <=? kp_u64s input);
  _ ← assert (Z.land (kp_format input) 127 =? KEY_FORMAT_LOCAL_BTREE);
  let out_u64s := kp_u64s input - f_key_u64s f + BKEY_U64S in
  _ ← assert (out_u64s <=? MAX 8);
  st ← unpack_state_init f input;
  '(ino, st) ← get_inc_field f input st 0;
  '(off, st) ← get_inc_field f input st 1;
  '(snap, st) ← get_inc_field f input st 2;
  '(size, st) ← get_inc_field f input st 3;
  '(vhi, st) ← get_inc_field f input st 4;
  '(vlo, st) ← get_inc_field f input st 5;
  Some (mk_bkey out_u64s
          (Z.lor KEY_FORMAT_CURRENT (Z.land (kp_format input) 128))
          (kp_type input)
          (mk_bversion (vhi mod 2 ^ 32) vlo)
          (size mod 2 ^ 32)
          (SPOS ino off (snap mod 2 ^ 32))).

Definition __bkey_unpack_pos (f : bkey_format) (input : list Z) : option bpos :=
  _ ← assert (f_nr_fields f =? BKEY_NR_FIELDS);
  _ ← assert (f_key_u64s f <=? kp_u64s input);
  _ ← assert (Z.land (kp_format input) 127 =? KEY_FORMAT_LOCAL_BTREE);
  st ← unpack_state_init f input;
  '(ino, st) ← get_inc_field f input st 0;
  '(off, st) ← get_inc_field f input st 1;
  '(snap, st) ← get_inc_field f input st 2;
  Some (SPOS ino off (snap mod 2 ^ 32)).

(** ** Converting a packed key to another format *)

(** [core::ptr::copy] of whole words. *)
Definition copy_words (m : list Z) (dst : nat) (src : list Z) : list Z :=
  take dst m ++ src ++ drop (dst + length src) m.

Fixpoint transform_fields (out_f in_f : bkey_format) (input : list Z)
    (ost : pack_state) (ist : unpack_state) (field n : nat) : option (option pack_state) :=
  match n with
  | O => Some (Some ost)
  | S n =>
      '(v, ist) ← get_inc_field in_f input ist field;
      r ← set_inc_field out_f ost field v;
      match r with
      | None => Some None
      | Some ost => transform_fields out_f in_f input ost ist (S field) n
      end
  end.

Definition bch2_bkey_transform (out_f : bkey_format) (out : list Z)
    (in_f : bkey_format) (input : list Z) : option (option (list Z)) :=
  _ ← assert (f_key_u64s in_f <=? kp_u64s input);
  out_u64s ← usub (f_key_u64s out_f + kp_u64s input) (f_key_u64s in_f);
  _ ← assert (out_u64s <=? MAX 8);
  ost ← pack_state_init out_f (clear_words out_f out);
  ist ← unpack_state_init in_f input;
  r ← transform_fields out_f in_f input ost ist 0 6;
  match r with
  | None => Some None
  | Some ost =>
      m ← pack_state_finish out_f ost;
      let m := set_header m out_u64s (Z.land (kp_format input) 128) (kp_type input) in
      let n := Z.to_nat (kp_u64s input - f_key_u64s in_f) in
      Some (Some (copy_words m (Z.to_nat (f_key_u64s out_f))
                    (take n (drop (Z.to_nat (f_key_u64s in_f)) input))))
  end.

(** ** Comparing packed keys ([node_iter.rs]) *)

(** Word by word from [high] downwards, then the partial word. *)
Fixpoint __bkey_cmp_bits (l r : list Z) (high : Z) (nr_key_bits : Z) (fuel : nat) : Z :=
  match fuel with
  | O => 0
  | S fuel =>
      let l_v := word l (Z.to_nat high) in
      let r_v := word r (Z.to_nat high) in
      if 64 <=? nr_key_bits then
        if negb (l_v =? r_v) then (if l_v >? r_v then 1 else -1)
        else __bkey_cmp_bits l r (high - 1) (nr_key_bits - 64) fuel
      else if nr_key_bits =? 0 then 0
      else
        let l_v := Z.shiftr l_v (64 - nr_key_bits) in
        let r_v := Z.shiftr r_v (64 - nr_key_bits) in
        if l_v >? r_v then 1 else if l_v <? r_v then -1 else 0
  end.

Definition bkey_format_key_bits (f : bkey_format) : option Z :=
  a ← field_bits f BKEY_FIELD_INODE;
  b ← field_bits f BKEY_FIELD_OFFSET;
  c ← field_bits f BKEY_FIELD_SNAPSHOT;
  Some (a + b + c).

Definition bkey_packed (m : list Z) : bool :=
  negb (Z.land (kp_format m) 127 =? KEY_FORMAT_CURRENT).

Definition bkey_deleted (m : list Z) : bool := kp_type m =? 0.

(** An unpacked key in memory: [repr(C, align(8))] puts [u64s], [format],
    [type_], a pad byte, [bversion] (lo, hi), [size] and [p] (snapshot,
    offset, inode) at the 4-byte boundaries 0, 4, 12, 16, 20, 24, 32. *)
Definition unpacked_pos (m : list Z) : bpos :=
  SPOS (word m 4) (word m 3) (word m 2 / 2 ^ 32).

(** The fuel covers the words of the largest format. *)
Definition bch2_bkey_cmp_packed (f : bkey_format) (nr_key_bits : Z) (l r : list Z)
  : option Z :=
  if bkey_packed l && bkey_packed r then
    n ← bkey_format_key_bits f;
    _ ← assert (nr_key_bits =? n);
    Some (__bkey_cmp_bits l r (f_key_u64s f - 1) nr_key_bits 6)
  else
    lp ← (if bkey_packed l then k_p <$> __bch2_bkey_unpack_key f l
          else Some (unpacked_pos l));
    rp ← (if bkey_packed l then Some (unpacked_pos r)
          else if bkey_packed r then k_p <$> __bch2_bkey_unpack_key f r
          else Some (unpacked_pos r));
    Some (bpos_cmp lp rp).

(** * The arithmetic reference *)

(** The number held by the first [n] words. *)
Fixpoint wval (m : list Z) (n : nat) : Z :=
  match n with
  | O => 0
  | S n => word m n * 2 ^ (64 * Z.of_nat n) + wval m n
  end.

Definition words_wf (m : list Z) : Prop := Forall (in_range 64) m.

Lemma word_range m i : words_wf m -> in_range 64 (word m i).
Proof.
  intros Hm. unfold word. rewrite nth_lookup.
  destruct (m !! i) as [w|] eqn:Hi; cbn; [|done].
  by apply (Forall_lookup_1 _ _ _ _ Hm Hi).
Qed.

Lemma wval_range m n : words_wf m -> in_range (64 * Z.of_nat n) (wval m n).
Proof.
  intros Hm. unfold in_range. induction n as [|n IH]; cbn [wval]; [done|].
  pose proof (word_range m n Hm) as Hw. unfold in_range in Hw.
  rewrite Nat2Z.inj_succ. replace (64 * Z.succ (Z.of_nat n)) with (64 + 64 * Z.of_nat n) by lia.
  rewrite pow2_split by lia. nia.
Qed.

Lemma word_wval m n i : words_wf m -> (i < n)%nat ->
  word m i = (wval m n / 2 ^ (64 * Z.of_nat i)) mod 2 ^ 64.
Proof.
  intros Hm. induction n as [|n IH]; intros Hi; [lia|]. cbn [wval].
  pose proof (wval_range m n Hm) as Hr. unfold in_range in Hr.
  destruct (decide (i = n)) as [->|].
  - rewrite div_high by lia. symmetry. apply Z.mod_small, word_range, Hm.
  - rewrite IH by lia.
    replace (64 * Z.of_nat n) with (64 * (Z.of_nat n - Z.of_nat i - 1) + 64 + 64 * Z.of_nat i)
      by lia.
    rewrite (pow2_split _ (64 * Z.of_nat i)), Z.mul_assoc, Z.div_add_l by lia.
    rewrite pow2_split, Z.mul_assoc, Z.add_comm, Z.mod_add by lia. done.
Qed.

Lemma word_store m p w i : (p < length m)%nat ->
  word (<[p := w]> m) i = if decide (i = p) then w else word m i.
Proof.
  intros Hp. unfold word. rewrite !nth_lookup. case_decide.
  - subst. by rewrite list_lookup_insert_eq.
  - by rewrite list_lookup_insert_ne.
Qed.

Lemma wval_store m p w n : (p < length m)%nat -> (p < n)%nat -> word m p = 0 ->
  wval (<[p := w]> m) n = wval m n + w * 2 ^ (64 * Z.of_nat p).
Proof.
  intros Hl Hp Hz. induction n as [|n IH]; [lia|]. cbn [wval].
  rewrite word_store by done. case_decide as Hd.
  - subst n. rewrite Hz. enough (wval (<[p := w]> m) p = wval m p) as -> by lia.
    clear IH Hp. assert (forall k, (k <= p)%nat -> wval (<[p := w]> m) k = wval m k) as H; [|by apply H].
    induction k; intros; cbn [wval]; [done|].
    rewrite word_store by done. rewrite decide_False, IHk by lia. done.
  - rewrite IH by lia. lia.
Qed.

Lemma words_wf_store m p w : words_wf m -> in_range 64 w -> words_wf (<[p := w]> m).
Proof. intros. by apply Forall_insert. Qed.

(** ** Packing appends to a number *)

(** [V] is the number of the [n] bits packed so far: the words above [ps_p]
    and the upper bits of [ps_w]. *)
Record pack_repr (f : bkey_format) (L : nat) (st : pack_state) (V n : Z) : Prop := {
  pr_bits : 0 <= ps_bits st <= 64;
  pr_p : 0 <= ps_p st < f_key_u64s f;
  pr_len : length (ps_words st) = L;
  pr_cap : f_key_u64s f <= Z.of_nat L;
  pr_w : in_range 64 (ps_w st);
  pr_wf : words_wf (ps_words st);
  pr_V : 0 <= V;
  pr_n : n = 64 * (f_key_u64s f - 1 - ps_p st) + 64 - ps_bits st;
  pr_zero : forall i, Z.of_nat i <= ps_p st -> word (ps_words st) i = 0;
  pr_val : exists H, wval (ps_words st) (Z.to_nat (f_key_u64s f)) = H * 2 ^ (64 * (ps_p st + 1)) /\
                V * 2 ^ ps_bits st = H * 2 ^ 64 + ps_w st
}.

Lemma w_multiple V H w b : 0 <= b <= 64 -> V * 2 ^ b = H * 2 ^ 64 + w ->
  w = (w / 2 ^ b) * 2 ^ b.
Proof.
  intros Hb He. pose proof (pow2_pos b).
  assert (w = (V - H * 2 ^ (64 - b)) * 2 ^ b) as ->.
  { replace 64 with ((64 - b) + b) in He at 1 by lia. rewrite pow2_split in He by lia. nia. }
  by rewrite Z.div_mul by lia.
Qed.

Lemma shiftr_shiftr_1 v n : 0 <= v -> 1 <= n -> Z.shiftr (Z.shiftr v 1) (n - 1) = v / 2 ^ n.
Proof.
  intros. rewrite Z.shiftr_shiftr, Z.shiftr_div_pow2 by lia. f_equal. f_equal. lia.
Qed.

(** Storing [b] bits that fit into the current word. *)
Lemma pack_within f L st V n b v :
  pack_repr f L st V n -> 0 <= v < 2 ^ b -> 1 <= b <= ps_bits st ->
  pack_repr f L
    (mk_pack_state (ps_bits st - b) (Z.lor (ps_w st) (Z.shiftl v (ps_bits st - b) mod 2 ^ 64))
       (ps_p st) (ps_words st))
    (V * 2 ^ b + v) (n + b).
Proof.
  intros [Hb Hp Hlen Hcap Hw Hwf HV Hn Hz (H & Hval & Heq)] Hv Hbb.
  set (left := ps_bits st - b) in *.
  pose proof (pow2_pos left ltac:(lia)).
  assert (2 ^ ps_bits st = 2 ^ b * 2 ^ left) as Hs by (rewrite <- pow2_split by lia; f_equal; lia).
  pose proof (pow2_le (ps_bits st) 64 ltac:(lia)) as Hle.
  assert (0 <= v * 2 ^ left < 2 ^ ps_bits st) by nia.
  pose proof (w_multiple _ _ _ _ Hb Heq) as Hm.
  rewrite Z.shiftl_mul_pow2, Z.mod_small by lia.
  assert (Z.lor (ps_w st) (v * 2 ^ left) = ps_w st + v * 2 ^ left) as ->.
  { rewrite Hm at 1. rewrite lor_high_low by lia. lia. }
  assert (ps_w st + v * 2 ^ left < 2 ^ 64).
  { unfold in_range in Hw. pose proof (pow2_pos (ps_bits st) ltac:(lia)).
    assert (2 ^ 64 = 2 ^ (64 - ps_bits st) * 2 ^ ps_bits st)
      by (rewrite <- pow2_split by lia; f_equal; lia).
    assert (ps_w st / 2 ^ ps_bits st < 2 ^ (64 - ps_bits st))
      by (apply Z.div_lt_upper_bound; lia). nia. }
  pose proof (pow2_pos b ltac:(lia)). unfold in_range in Hw.
  split; cbn; try done; try lia; [unfold in_range; nia|].
  exists H. split; [done|]. nia.
Qed.

(** Flushing the current word, which is then full. *)
Lemma pack_flush f L st V n b v :
  pack_repr f L st V n -> 0 <= v < 2 ^ b -> ps_bits st < b <= 64 ->
  n + b <= 64 * f_key_u64s f ->
  let b' := b - ps_bits st in
  0 <= ps_p st - 1 /\
  pack_repr f L
    (mk_pack_state 64 0 (ps_p st - 1)
       (store (ps_words st) (ps_p st) (Z.lor (ps_w st) (v / 2 ^ b'))))
    (V * 2 ^ ps_bits st + v / 2 ^ b') (n + ps_bits st).
Proof.
  intros [Hb Hp Hlen Hcap Hw Hwf HV Hn Hz (H & Hval & Heq)] Hv Hbb Hfit b'.
  assert (0 <= ps_p st - 1) by lia. split; [done|].
  pose proof (div_pow2_range v b' (ps_bits st) ltac:(lia) ltac:(lia)
    ltac:(replace (b' + ps_bits st) with b by lia; done)) as Hhi.
  pose proof (w_multiple _ _ _ _ Hb Heq) as Hm.
  assert (Z.lor (ps_w st) (v / 2 ^ b') = ps_w st + v / 2 ^ b') as ->.
  { rewrite Hm at 1. rewrite lor_high_low by lia. lia. }
  assert (in_range 64 (ps_w st + v / 2 ^ b')) as Hwr.
  { unfold in_range in *. pose proof (pow2_pos (ps_bits st) ltac:(lia)).
    assert (2 ^ 64 = 2 ^ (64 - ps_bits st) * 2 ^ ps_bits st)
      by (rewrite <- pow2_split by lia; f_equal; lia).
    assert (ps_w st / 2 ^ ps_bits st < 2 ^ (64 - ps_bits st))
      by (apply Z.div_lt_upper_bound; lia). nia. }
  pose proof (pow2_pos (ps_bits st) ltac:(lia)).
  split; cbn; try done; try lia.
  - unfold store. rewrite length_insert. lia.
  - by apply words_wf_store.
  - intros i Hi. unfold store. rewrite word_store by lia.
    rewrite decide_False by lia. apply Hz. lia.
  - exists (H * 2 ^ 64 + (ps_w st + v / 2 ^ b')). split.
    + unfold store. rewrite wval_store, Hval by (try lia; apply Hz; lia).
      replace (64 * (ps_p st + 1)) with (64 + 64 * ps_p st) by lia.
      replace (64 * (ps_p st - 1 + 1)) with (64 * ps_p st) by lia.
      rewrite pow2_split, Z2Nat.id by lia. ring.
    + lia.
Qed.

Lemma __set_inc_field_spec f L st V n i b v :
  pack_repr f L st V n -> field_bits f i = Some b -> 0 <= b <= 64 ->
  0 <= v < 2 ^ b -> n + b <= 64 * f_key_u64s f ->
  exists st', __set_inc_field f st i v = Some st' /\ pack_repr f L st' (V * 2 ^ b + v) (n + b).
Proof.
  intros HR Hf Hb Hv Hfit. unfold __set_inc_field. rewrite Hf. cbn -[Z.pow ushr].
  destruct (Z.eqb_spec b 0) as [->|Hb0].
  { exists st. split; [done|]. replace v with 0 by (cbn in Hv; lia).
    replace (V * 2 ^ 0 + 0) with V by lia. by rewrite Z.add_0_r. }
  destruct (Z.ltb_spec (ps_bits st) b) as [Hc|Hc].
  - destruct (pack_flush f L st V n b v HR Hv ltac:(lia) Hfit) as [Hp HR'].
    pose proof (pr_bits _ _ _ _ _ HR).
    unfold ushr. destruct (Z.ltb_spec (b - ps_bits st - 1) 64); [|lia]. cbn -[Z.pow].
    rewrite shiftr_shiftr_1 by lia. set (b' := b - ps_bits st) in *.
    unfold assert. destruct (Z.leb_spec 0 (ps_p st - 1)); [|lia]. cbn -[Z.pow].
    unfold usub. destruct (Z.leb_spec b' 64); [|lia]. cbn -[Z.pow].
    unfold ushl. destruct (Z.ltb_spec (64 - b') 64); [|lia]. cbn -[Z.pow].
    eexists; split; [reflexivity|].
    pose proof (Z.mod_pos_bound v (2 ^ b') ltac:(apply pow2_pos; lia)).
    pose proof (pack_within f L _ _ _ b' (v mod 2 ^ b') HR' ltac:(lia) ltac:(cbn; lia)) as HR''.
    cbn -[Z.pow] in HR''.
    rewrite !Z.shiftl_mul_pow2 in * by lia.
    rewrite (mul_pow2_drop v b' 64) in HR'' by lia.
    replace ((V * 2 ^ ps_bits st + v / 2 ^ b') * 2 ^ b' + v mod 2 ^ b')
      with (V * 2 ^ b + v) in HR''.
    2:{ replace b with (ps_bits st + b') at 1 by lia. rewrite pow2_split by lia.
        pose proof (Z.div_mod v (2 ^ b')). pose proof (pow2_pos b'). lia. }
    by replace (n + ps_bits st + b') with (n + b) in HR'' by lia.
  - cbn -[Z.pow]. unfold usub. destruct (Z.leb_spec b (ps_bits st)); [|lia]. cbn -[Z.pow].
    pose proof (pr_bits _ _ _ _ _ HR).
    unfold ushl. destruct (Z.ltb_spec (ps_bits st - b) 64); [|lia]. cbn -[Z.pow].
    eexists; split; [reflexivity|]. apply pack_within; [done..|lia].
Qed.

(** ** Fields as a number *)

(** The number obtained by appending the fields [vs] (less their offsets
    [os], in [bs] bits each) to [acc]. *)
Fixpoint fields_val (bs os vs : list Z) (acc : Z) : Z :=
  match bs, os, vs with
  | b :: bs, o :: os, v :: vs => fields_val bs os vs (acc * 2 ^ b + (v - o))
  | _, _, _ => acc
  end.

(** The test of [set_inc_field], field by field. *)
Fixpoint fields_fit (bs os vs : list Z) : bool :=
  match bs, os, vs with
  | b :: bs, o :: os, v :: vs =>
      (o <=? v) && (bitlen (v - o) <=? b) && fields_fit bs os vs
  | _, _, [] => true
  | _, _, _ => false
  end.

Fixpoint bits_sum (bs : list Z) (n : nat) : Z :=
  match bs, n with
  | b :: bs, S n => b + bits_sum bs n
  | _, _ => 0
  end.

(** A format as [bch2_bkey_format_done] makes it: the fields and the header
    fit the words, no field is wider than its unpacked counterpart and no
    value of a field overflows it. *)
Definition unpacked_bits : list Z := f_bits BKEY_FORMAT_CURRENT.

Record format_wf (f : bkey_format) : Prop := {
  fw_u64s : 1 <= f_key_u64s f <= 5;
  fw_nr : f_nr_fields f = BKEY_NR_FIELDS;
  fw_bits : Forall2 (fun b u => 0 <= b <= u) (f_bits f) unpacked_bits;
  fw_off : Forall (fun '(o, b, u) => 0 <= o /\ o + (2 ^ b - 1) <= MAX u)
             (zip (zip (f_offset f) (f_bits f)) unpacked_bits);
  fw_len : length (f_offset f) = 6%nat;
  fw_fit : bits_sum (f_bits f) 6 + KEY_PACKED_BITS_START <= 64 * f_key_u64s f
}.

Lemma bits_sum_nonneg bs n : Forall (fun b => 0 <= b) bs -> 0 <= bits_sum bs n.
Proof.
  intros H. revert n. induction H; intros [|n]; cbn; try lia. specialize (IHForall n). lia.
Qed.

Lemma fields_val_nonneg bs os vs acc :
  Forall (fun b => 0 <= b) bs -> fields_fit bs os vs = true -> 0 <= acc ->
  0 <= fields_val bs os vs acc.
Proof.
  intros Hb. revert os vs acc. induction Hb as [|b bs ? ? IH]; intros [|o os] [|v vs] acc Hf Ha;
    cbn in *; try done.
  rewrite !andb_true_iff, !Z.leb_le in Hf. destruct Hf as [[? ?] ?].
  apply IH; [done|]. pose proof (pow2_pos b). nia.
Qed.

(** The prefix of the number is the accumulator. *)
Lemma fields_val_prefix bs os vs acc :
  Forall (fun b => 0 <= b) bs -> fields_fit bs os vs = true ->
  fields_val bs os vs acc / 2 ^ bits_sum bs (length vs) = acc.
Proof.
  intros Hb. revert os vs acc. induction Hb as [|b bs ? Hbs IH]; intros [|o os] [|v vs] acc Hf;
    cbn -[Z.pow] in *; try done; try apply Z.div_1_r.
  rewrite !andb_true_iff, !Z.leb_le in Hf. destruct Hf as [[? Hl] Hf].
  pose proof (bits_sum_nonneg bs (length vs) Hbs).
  rewrite (Z.add_comm b), div_pow2_split, IH by (done || lia).
  apply div_high; [lia|]. apply bitlen_le in Hl; lia.
Qed.

Lemma set_inc_field_spec f L st V n i b o v :
  pack_repr f L st V n -> field_bits f i = Some b -> field_off f i = Some o ->
  0 <= b <= 64 -> n + b <= 64 * f_key_u64s f ->
  if (o <=? v) && (bitlen (v - o) <=? b)
  then exists st', set_inc_field f st i v = Some (Some st') /\
                   pack_repr f L st' (V * 2 ^ b + (v - o)) (n + b)
  else set_inc_field f st i v = Some None.
Proof.
  intros HR Hb Ho Hrb Hfit. unfold set_inc_field. rewrite Hb, Ho. cbn -[Z.pow].
  destruct (Z.leb_spec o v), (Z.ltb_spec v o); cbn -[Z.pow]; try lia; [|done].
  destruct (Z.leb_spec (bitlen (v - o)) b) as [Hl|], (Z.ltb_spec b (bitlen (v - o)));
    cbn -[Z.pow]; try lia; [|done].
  apply bitlen_le in Hl; [|lia..].
  destruct (__set_inc_field_spec f L st V n i b (v - o) HR Hb Hrb ltac:(lia) Hfit) as (st' & -> & ?).
  by exists st'.
Qed.

Lemma pack_fields_spec f L vs : forall st V n i bs os,
  pack_repr f L st V n -> drop i (f_bits f) = bs -> drop i (f_offset f) = os ->
  Forall (fun b => 0 <= b <= 64) bs -> (length vs <= length bs)%nat -> length os = length bs ->
  n + bits_sum bs (length vs) <= 64 * f_key_u64s f ->
  if fields_fit bs os vs
  then exists st', pack_fields f st i vs = Some (Some st') /\
         pack_repr f L st' (fields_val bs os vs V) (n + bits_sum bs (length vs))
  else pack_fields f st i vs = Some None.
Proof.
  induction vs as [|v vs IH]; intros st V n i bs os HR Hbs Hos Hb Hl Hlo Hfit.
  { destruct bs as [|b bs], os as [|o os]; cbn in *; try lia;
      exists st; rewrite Z.add_0_r; done. }
  destruct bs as [|b bs], os as [|o os]; cbn [length] in *; try lia.
  apply Forall_cons_1 in Hb as [Hb0 Hb].
  assert (field_bits f i = Some b) as Hfb
    by (unfold field_bits; rewrite <- (Nat.add_0_r i), <- lookup_drop, Hbs; done).
  assert (field_off f i = Some o) as Hfo
    by (unfold field_off; rewrite <- (Nat.add_0_r i), <- lookup_drop, Hos; done).
  assert (drop (S i) (f_bits f) = bs) as Hbs'
    by (rewrite <- Nat.add_1_r, <- drop_drop, Hbs; done).
  assert (drop (S i) (f_offset f) = os) as Hos'
    by (rewrite <- Nat.add_1_r, <- drop_drop, Hos; done).
  assert (0 <= bits_sum bs (length vs))
    by (apply bits_sum_nonneg; eapply Forall_impl; [|exact Hb]; cbn; lia).
  cbn [bits_sum] in Hfit.
  pose proof (set_inc_field_spec f L st V n i b o v HR Hfb Hfo Hb0 ltac:(lia)) as Hs.
  cbn [fields_fit fields_val pack_fields bits_sum].
  destruct ((o <=? v) && (bitlen (v - o) <=? b)); cbn [andb].
  - destruct Hs as (st1 & -> & HR1). cbn -[bits_sum].
    specialize (IH st1 _ _ (S i) bs os HR1 Hbs' Hos' Hb ltac:(lia) ltac:(lia) ltac:(lia)).
    destruct (fields_fit bs os vs); [|done].
    destruct IH as (st' & -> & HR'). exists st'. split; [done|].
    by replace (n + (b + bits_sum bs (length vs))) with (n + b + bits_sum bs (length vs)) by lia.
  - rewrite Hs. done.
Qed.

(** ** From the start state to the finished key *)

Lemma word_replicate_app n (l : list Z) i : (i < n)%nat -> word (replicate n 0 ++ l) i = 0.
Proof.
  intros. unfold word. rewrite nth_lookup, lookup_app_l by (rewrite length_replicate; lia).
  by rewrite lookup_replicate_2.
Qed.

Lemma wval_zero m n : (forall i, (i < n)%nat -> word m i = 0) -> wval m n = 0.
Proof.
  induction n as [|n IH]; intros H; cbn [wval]; [done|].
  rewrite H, IH by (intros; try apply H; lia). lia.
Qed.

Definition buffer_wf (f : bkey_format) (m : list Z) : Prop :=
  words_wf m /\ f_key_u64s f <= Z.of_nat (length m).

Lemma length_clear_words f m :
  f_key_u64s f <= Z.of_nat (length m) -> length (clear_words f m) = length m.
Proof. intros. unfold clear_words. rewrite length_app, length_replicate, length_drop. lia. Qed.

Lemma clear_words_wf f m : words_wf m -> words_wf (clear_words f m).
Proof.
  intros. apply Forall_app_2; [by apply Forall_replicate | by apply Forall_drop].
Qed.

Lemma pack_state_init_spec f m :
  1 <= f_key_u64s f <= 5 -> buffer_wf f m ->
  exists st, pack_state_init f (clear_words f m) = Some st /\ pack_repr f (length m) st 0 0.
Proof.
  intros Hu [Hm Hl]. unfold pack_state_init, assert.
  destruct (Z.eqb_spec (f_key_u64s f) 0), (Z.leb_spec (f_key_u64s f) 5); try lia.
  cbn -[Z.pow]. eexists; split; [reflexivity|].
  assert (forall i, Z.of_nat i <= f_key_u64s f - 1 -> word (clear_words f m) i = 0) as Hz.
  { intros i Hi. apply word_replicate_app. lia. }
  split; cbn; try done; try lia.
  - rewrite length_clear_words; done.
  - by apply clear_words_wf.
  - exists 0. split; [|done]. apply wval_zero. intros i Hi. apply Hz. lia.
Qed.

Lemma pack_state_finish_spec f L st V n :
  pack_repr f L st V n ->
  exists m, pack_state_finish f st = Some m /\ words_wf m /\
    length m = L /\
    wval m (Z.to_nat (f_key_u64s f)) = V * 2 ^ (64 * f_key_u64s f - n).
Proof.
  intros [Hb Hp Hlen Hcap Hw Hwf HV Hn Hz (H & Hval & Heq)].
  unfold pack_state_finish, assert.
  destruct (Z.leb_spec 0 (ps_p st)), (Z.ltb_spec (ps_p st) (f_key_u64s f)); try lia.
  cbn. eexists; split; [reflexivity|].
  split; [by apply words_wf_store|]. unfold store. split; [by rewrite length_insert|].
  rewrite wval_store, Hval by (try lia; apply Hz; lia).
  replace (64 * f_key_u64s f - n) with (ps_bits st + 64 * ps_p st) by lia.
  replace (64 * (ps_p st + 1)) with (64 + 64 * ps_p st) by lia.
  rewrite !pow2_split, Z2Nat.id by lia.
  rewrite (Z.mul_assoc V), Heq. ring.
Qed.

(** ** The header bytes *)

Lemma wval_word0 m n : (0 < n)%nat -> words_wf m -> exists h, 0 <= h /\
  wval m n = h * 2 ^ 64 + word m 0 /\
  forall w, (0 < length m)%nat -> wval (<[0%nat := w]> m) n = h * 2 ^ 64 + w.
Proof.
  intros Hn Hm. induction n as [|n IH]; [lia|].
  destruct n as [|n].
  - exists 0. cbn [wval]. split; [lia|]. split; [cbn; lia|].
    intros w Hl. rewrite word_store, decide_True by done. cbn; lia.
  - destruct IH as (h & Hh & He & Hw); [lia|].
    pose proof (word_range m (S n) Hm) as Hr. unfold in_range in Hr.
    exists (word m (S n) * 2 ^ (64 * Z.of_nat n) + h).
    pose proof (pow2_pos (64 * Z.of_nat n) ltac:(lia)).
    assert (2 ^ (64 * Z.of_nat (S n)) = 2 ^ (64 * Z.of_nat n) * 2 ^ 64) as Hs
      by (rewrite <- pow2_split by lia; f_equal; lia).
    split; [nia|]. split.
    + cbn [wval] in *. rewrite Hs. lia.
    + intros w Hl. specialize (Hw w Hl). cbn [wval] in *.
      rewrite word_store, decide_False by (done || lia). rewrite Hs. lia.
Qed.

Lemma header_div w u fm t :
  in_range 8 u -> in_range 8 fm -> in_range 8 t ->
  (w * 2 ^ 24 + t * 2 ^ 16 + fm * 2 ^ 8 + u) / 2 ^ 24 = w.
Proof.
  unfold in_range; intros. rewrite <- !Z.add_assoc. apply div_high; lia.
Qed.

Lemma set_header_wval f m u fm t :
  1 <= f_key_u64s f -> buffer_wf f m -> in_range 8 u -> in_range 8 fm -> in_range 8 t ->
  forall n, 24 <= n ->
  wval (set_header m u fm t) (Z.to_nat (f_key_u64s f)) / 2 ^ n =
  wval m (Z.to_nat (f_key_u64s f)) / 2 ^ n.
Proof.
  intros Hu [Hm Hl] H1 H2 H3 n Hn.
  destruct (wval_word0 m (Z.to_nat (f_key_u64s f)) ltac:(lia) Hm) as (h & Hh & He & Hw).
  unfold set_header. rewrite Hw, He by lia.
  replace n with (24 + (n - 24)) by lia. rewrite !div_pow2_split by lia. f_equal.
  replace 64 with (40 + 24) by lia. rewrite pow2_split, Z.mul_assoc by lia.
  rewrite !Z.div_add_l by lia. f_equal. by apply header_div.
Qed.

Lemma set_header_wf m u fm t :
  words_wf m -> in_range 8 u -> in_range 8 fm -> in_range 8 t -> words_wf (set_header m u fm t).
Proof.
  intros Hm ? ? ?. apply words_wf_store; [done|].
  pose proof (word_range m 0 Hm) as Hw. unfold in_range in *.
  pose proof (Z.div_lt_upper_bound (word m 0) (2 ^ 24) (2 ^ 40) ltac:(lia) ltac:(lia)).
  pose proof (Z.div_pos (word m 0) (2 ^ 24) ltac:(lia) ltac:(lia)). lia.
Qed.

Lemma header_fields m u fm t :
  (0 < length m)%nat -> in_range 8 u -> in_range 8 fm -> in_range 8 t ->
  kp_u64s (set_header m u fm t) = u /\ kp_format (set_header m u fm t) = fm /\
  kp_type (set_header m u fm t) = t.
Proof.
  intros Hl. unfold kp_u64s, kp_format, kp_type, set_header, in_range; intros.
  rewrite word_store, decide_True by done.
  set (q := word m 0 / 2 ^ 24).
  assert (q * 2 ^ 24 + t * 2 ^ 16 + fm * 2 ^ 8 + u =
          ((q * 2 ^ 8 + t) * 2 ^ 8 + fm) * 2 ^ 8 + u) as -> by lia.
  split; [apply mod_low; lia|].
  rewrite div_high by lia. split; [apply mod_low; lia|].
  change 16 with (8 + 8). rewrite div_pow2_split, !div_high by lia. apply mod_low; lia.
Qed.

(** ** Unpacking reads slices of the number *)

(** After [n] bits, [us_w] holds the rest of word [us_p], left justified. *)
Record unpack_repr (f : bkey_format) (m : list Z) (st : unpack_state) (n : Z) : Prop := {
  ur_bits : 1 <= us_bits st <= 64;
  ur_p : -1 <= us_p st < f_key_u64s f;
  ur_last : us_p st = -1 -> us_bits st = 64 /\ us_w st = 0;
  ur_n : n = 64 * (f_key_u64s f - 1 - us_p st) + 64 - us_bits st;
  ur_w : 0 <= us_p st ->
    us_w st = (wval m (Z.to_nat (f_key_u64s f)) / 2 ^ (64 * us_p st)) mod 2 ^ us_bits st
              * 2 ^ (64 - us_bits st)
}.

Lemma unpack_state_init_spec f m :
  1 <= f_key_u64s f <= 5 -> words_wf m ->
  exists st, unpack_state_init f m = Some st /\ unpack_repr f m st 0.
Proof.
  intros Hu Hm. unfold unpack_state_init, assert.
  destruct (Z.eqb_spec (f_key_u64s f) 0), (Z.leb_spec (f_key_u64s f) 5); try lia.
  cbn -[Z.pow]. eexists; split; [reflexivity|]. split; cbn -[Z.pow Z.mul]; try lia.
  intros _. rewrite (word_wval m (Z.to_nat (f_key_u64s f))) by (done || lia).
  rewrite Z2Nat.id by lia. by rewrite Z.mul_1_r.
Qed.

(** The tail of [get_inc_field], when the [b] bits are in the current word. *)
Lemma unpack_within W p bits b w :
  0 <= p -> 1 <= bits <= 64 -> 0 <= b <= bits -> b < 64 ->
  w = (W / 2 ^ (64 * p)) mod 2 ^ bits * 2 ^ (64 - bits) ->
  Z.shiftr (Z.shiftr w 1) (63 - b) = (W / 2 ^ (64 * p + bits - b)) mod 2 ^ b /\
  Z.shiftl w b mod 2 ^ 64 =
    (W / 2 ^ (64 * p)) mod 2 ^ (bits - b) * 2 ^ (64 - (bits - b)).
Proof.
  intros Hp Hb Hbb Hb64 ->. set (q := W / 2 ^ (64 * p)).
  assert (0 <= q mod 2 ^ bits * 2 ^ (64 - bits)).
  { pose proof (Z.mod_pos_bound q (2 ^ bits) ltac:(apply pow2_pos; lia)).
    pose proof (pow2_pos (64 - bits)). nia. }
  split.
  - replace (63 - b) with ((64 - b) - 1) by lia. rewrite shiftr_shiftr_1 by lia.
    replace (64 - b) with ((64 - bits) + (bits - b)) by lia.
    rewrite mul_pow2_div by lia.
    replace bits with ((bits - b) + b) at 1 by lia.
    rewrite mod_pow2_div by lia. f_equal.
    unfold q. rewrite <- div_pow2_split by lia. f_equal. f_equal. lia.
  - rewrite Z.shiftl_mul_pow2 by lia. rewrite <- Z.mul_assoc, <- pow2_split by lia.
    replace 64 with ((64 - bits + b) + (bits - b)) at 2 by lia.
    rewrite mul_pow2_mod, mod_mod_pow2 by lia. f_equal. f_equal. lia.
Qed.

Lemma get_inc_field_spec f m st n i b o :
  unpack_repr f m st n -> words_wf m -> 1 <= f_key_u64s f ->
  field_bits f i = Some b -> field_off f i = Some o ->
  0 <= b <= 64 -> n + b <= 64 * f_key_u64s f ->
  exists st',
    get_inc_field f m st i =
      Some (wadd 64 ((wval m (Z.to_nat (f_key_u64s f)) / 2 ^ (64 * f_key_u64s f - n - b))
                       mod 2 ^ b) o, st') /\
    unpack_repr f m st' (n + b).
Proof.
  intros [Hb Hp Hlast Hn Hw] Hm Hu Hfb Hfo Hrb Hfit. set (W := wval _ _) in *.
  unfold get_inc_field. rewrite Hfb, Hfo. cbn -[Z.pow usub ushr ushl].
  destruct (Z.leb_spec (us_bits st) b) as [Hc|Hc].
  - destruct (Z.eq_dec (us_p st) (-1)) as [Hp1|Hp1]; [destruct (Hlast Hp1); lia|].
    specialize (Hw ltac:(lia)).
    rewrite (usub_ok 64 b) by lia. cbn -[Z.pow usub ushr ushl]. rewrite ushr_ok by lia.
    cbn -[Z.pow usub ushr ushl]. set (b' := b - us_bits st). set (p' := us_p st - 1).
    assert (Z.shiftr (us_w st) (64 - b) = (W / 2 ^ (64 * us_p st)) mod 2 ^ us_bits st * 2 ^ b') as Hv.
    { rewrite Z.shiftr_div_pow2 by lia. rewrite Hw.
      replace (64 - us_bits st) with (b' + (64 - b)) by lia.
      rewrite pow2_split, Z.mul_assoc by lia. rewrite Z.div_mul; [done|]. apply Z.pow_nonzero; lia. }
    unfold assert.
    destruct (Z.leb_spec 0 p') as [Hp'|Hp']; cbn -[Z.pow usub ushr ushl].
    + rewrite (usub_ok 63) by lia. cbn -[Z.pow usub ushr ushl].
      rewrite ushr_ok, ushl_ok by lia. cbn -[Z.pow usub ushr ushl].
      rewrite usub_ok by lia. cbn -[Z.pow usub ushr ushl].
      destruct (unpack_within W p' 64 b' (word m (Z.to_nat p'))) as [Hlo Hhi]; try lia.
      { rewrite Z.sub_diag, Z.mul_1_r, (word_wval m (Z.to_nat (f_key_u64s f))) by (done || lia).
        by rewrite Z2Nat.id by lia. }
      eexists; split.
      * rewrite Hlo, Hhi, Hv. f_equal. f_equal. f_equal.
        pose proof (Z.mod_pos_bound (W / 2 ^ (64 * p' + 64 - b')) (2 ^ b') ltac:(apply pow2_pos; lia)).
        rewrite lor_high_low by lia.
        replace (64 * f_key_u64s f - n - b) with (64 * us_p st - b') by lia.
        replace (64 * p' + 64 - b') with (64 * us_p st - b') by lia.
        replace (2 ^ b) with (2 ^ (us_bits st + b')) by (f_equal; lia).
        rewrite mod_pow2_add, <- div_pow2_split by lia.
        by replace (64 * us_p st - b' + b') with (64 * us_p st) by lia.
      * split; cbn -[Z.pow]; try lia. done.
    + assert (b' = 0) as Hb0 by lia. rewrite Hb0 in Hv |- *.
      cbn -[Z.pow usub ushr ushl Z.lor]. rewrite (usub_ok 63) by lia. cbn -[Z.pow usub ushr ushl Z.lor].
      rewrite ushr_ok, ushl_ok by lia. cbn -[Z.pow usub ushr ushl Z.lor].
      rewrite usub_ok by lia. cbn -[Z.pow Z.lor].
      eexists; split.
      * rewrite Hv, Z.mul_1_r. change (Z.shiftr (Z.shiftr 0 1) (63 - 0)) with 0.
        rewrite Z.lor_0_r. replace (64 * f_key_u64s f - n - b) with (64 * us_p st) by lia.
        by replace b with (us_bits st) by lia.
      * split; cbn -[Z.pow Z.shiftl]; try lia. intros _. split; [lia|done].
  - cbn -[Z.pow usub ushr ushl]. rewrite (usub_ok 63) by lia. cbn -[Z.pow usub ushr ushl].
    rewrite ushr_ok, ushl_ok by lia. cbn -[Z.pow usub ushr ushl].
    rewrite usub_ok by lia. cbn -[Z.pow usub ushr ushl].
    destruct (Z.eq_dec (us_p st) (-1)) as [Hp1|Hp1].
    + destruct (Hlast Hp1) as [Hb64 Hw0]. assert (b = 0) by lia. subst b.
      eexists; split.
      * rewrite Hw0. cbn -[Z.pow wadd]. rewrite Z.mod_1_r. done.
      * split; cbn -[Z.pow Z.shiftl]; try lia. intros _. split; [lia|]. by rewrite ?Hw0.
    + specialize (Hw ltac:(lia)).
      destruct (unpack_within W (us_p st) (us_bits st) b (us_w st)) as [Hlo Hhi]; try lia; try done.
      eexists; split.
      * rewrite Hlo, Hhi. rewrite Z.lor_0_l. repeat f_equal; lia.
      * split; cbn -[Z.pow]; try lia. done.
Qed.

(** ** What a packed key holds *)

(** The first [length vs] fields of the packed key [m] are [vs]. *)
Record packed_as (f : bkey_format) (m : list Z) (vs : list Z) : Prop := {
  pa_wf : buffer_wf f m;
  pa_fit : fields_fit (f_bits f) (f_offset f) vs = true;
  pa_val : wval m (Z.to_nat (f_key_u64s f)) /
             2 ^ (64 * f_key_u64s f - bits_sum (f_bits f) (length vs)) =
           fields_val (f_bits f) (f_offset f) vs 0
}.

Lemma format_wf_bits f : format_wf f -> Forall (fun b => 0 <= b <= 64) (f_bits f).
Proof.
  intros [_ _ Hb _ _ _]. unfold unpacked_bits in Hb. cbn in Hb.
  repeat match goal with H : Forall2 _ _ (_ :: _) |- _ => inversion H; subst; clear H end.
  match goal with H : Forall2 _ _ [] |- _ => inversion H; subst end.
  repeat constructor; lia.
Qed.

Lemma format_wf_len f : format_wf f -> length (f_bits f) = 6%nat.
Proof. intros [_ _ Hb _ _ _]. by apply Forall2_length in Hb. Qed.

Lemma format_wf_nonneg f : format_wf f -> Forall (fun b => 0 <= b) (f_bits f).
Proof. intros H%format_wf_bits. eapply Forall_impl; [|exact H]. cbn; lia. Qed.

#[export] Hint Resolve format_wf_bits format_wf_len format_wf_nonneg fw_u64s fw_fit : subvol.

Lemma bits_sum_le bs n n' : Forall (fun b => 0 <= b) bs -> (n <= n')%nat ->
  bits_sum bs n <= bits_sum bs n'.
Proof.
  intros H. revert n n'. induction H as [|b bs Hb Hbs IH]; intros [|n] [|n'] Hn; cbn; try lia.
  - pose proof (bits_sum_nonneg bs n' Hbs). lia.
  - specialize (IH n n' ltac:(lia)). lia.
Qed.

Lemma fits_length bs os vs : fields_fit bs os vs = true ->
  (length vs <= length bs)%nat /\ (length vs <= length os)%nat.
Proof.
  revert os vs. induction bs as [|b bs IH]; intros [|o os] [|v vs] H; cbn in *; try done; try lia.
  rewrite !andb_true_iff in H. destruct H as [_ H]. apply IH in H. lia.
Qed.

Lemma prefix_fits f vs : format_wf f -> fields_fit (f_bits f) (f_offset f) vs = true ->
  0 <= bits_sum (f_bits f) (length vs) /\
  bits_sum (f_bits f) (length vs) + 24 <= 64 * f_key_u64s f.
Proof.
  intros Hf Hfit. pose proof (fits_length _ _ _ Hfit) as [Hl _].
  rewrite (format_wf_len f Hf) in Hl.
  pose proof (bits_sum_le (f_bits f) (length vs) 6 (format_wf_nonneg f Hf) Hl).
  pose proof (fw_fit f Hf). unfold KEY_PACKED_BITS_START in *.
  split; [|lia]. apply bits_sum_nonneg; auto with subvol.
Qed.

(** Finishing a key that holds the number of the fields [vs]. *)
Lemma finish_packed_as f m st vs u fm t :
  format_wf f -> buffer_wf f m -> in_range 8 u -> in_range 8 fm -> in_range 8 t ->
  fields_fit (f_bits f) (f_offset f) vs = true ->
  pack_repr f (length m) st (fields_val (f_bits f) (f_offset f) vs 0)
    (bits_sum (f_bits f) (length vs)) ->
  exists m', pack_state_finish f st = Some m' /\ length m' = length m /\
    packed_as f (set_header m' u fm t) vs.
Proof.
  intros Hf Hm H1 H2 H3 Hfit HR. pose proof (fw_u64s f Hf).
  destruct (pack_state_finish_spec _ _ _ _ _ HR) as (m' & Hfin & Hwf & Hl & Hv).
  assert (buffer_wf f m') as Hbm by (split; [done|]; rewrite Hl; apply Hm).
  pose proof (prefix_fits f vs Hf Hfit) as [? ?].
  exists m'. split; [done|]. split; [done|]. split; [|done|].
  - split; [by apply set_header_wf, H3|]. unfold set_header. rewrite length_insert. apply Hbm.
  - rewrite set_header_wval by (done || lia). rewrite Hv.
    apply Z.div_mul, Z.pow_nonzero; lia.
Qed.

(** Packing any prefix of the fields and storing a header. *)
Lemma pack_all_spec f m vs u fm t :
  format_wf f -> buffer_wf f m -> (length vs <= 6)%nat ->
  in_range 8 u -> in_range 8 fm -> in_range 8 t ->
  exists st, pack_state_init f (clear_words f m) = Some st /\
  if fields_fit (f_bits f) (f_offset f) vs
  then exists st' m', pack_fields f st 0 vs = Some (Some st') /\
         pack_state_finish f st' = Some m' /\ length m' = length m /\
         packed_as f (set_header m' u fm t) vs
  else pack_fields f st 0 vs = Some None.
Proof.
  intros Hf Hm Hlen H1 H2 H3.
  destruct (pack_state_init_spec f m (fw_u64s f Hf) Hm) as (st & Hi & HR).
  exists st. split; [done|].
  pose proof (bits_sum_le (f_bits f) (length vs) 6 (format_wf_nonneg f Hf) Hlen).
  pose proof (fw_fit f Hf). unfold KEY_PACKED_BITS_START in *.
  pose proof (pack_fields_spec f (length m) vs st 0 0 0 (f_bits f) (f_offset f) HR eq_refl eq_refl
    (format_wf_bits f Hf) ltac:(rewrite format_wf_len; done)
    ltac:(rewrite format_wf_len by done; apply fw_len, Hf) ltac:(lia)) as Hp.
  destruct (fields_fit (f_bits f) (f_offset f) vs) eqn:Hfit; [|done].
  destruct Hp as (st' & Hp & HR'). rewrite Z.add_0_l in HR'.
  destruct (finish_packed_as f m st' vs u fm t) as (m' & ? & ? & ?); try done.
  by exists st', m'.
Qed.

(** ** Reading the fields back *)

(** [st] is about to read field [i] of [m], and the fields from [i] on are [vs]. *)
Inductive reading (f : bkey_format) (m : list Z) (st : unpack_state) (i : nat) (vs : list Z)
  : Prop :=
| Reading (n acc : Z) :
    unpack_repr f m st n ->
    words_wf m ->
    Forall (fun b => 0 <= b <= 64) (drop i (f_bits f)) ->
    fields_fit (drop i (f_bits f)) (drop i (f_offset f)) vs = true ->
    n + bits_sum (drop i (f_bits f)) (length vs) <= 64 * f_key_u64s f ->
    wval m (Z.to_nat (f_key_u64s f)) /
      2 ^ (64 * f_key_u64s f - n - bits_sum (drop i (f_bits f)) (length vs)) =
      fields_val (drop i (f_bits f)) (drop i (f_offset f)) vs acc ->
    reading f m st i vs.

Lemma reading_init f m vs : format_wf f -> packed_as f m vs ->
  exists st, unpack_state_init f m = Some st /\ reading f m st 0 vs.
Proof.
  intros Hf [[Hm Hl] Hfit Hv].
  destruct (unpack_state_init_spec f m (fw_u64s f Hf) Hm) as (st & Hi & HR).
  exists st. split; [done|]. pose proof (prefix_fits f vs Hf Hfit).
  apply (Reading f m st 0 vs 0 0); rewrite ?drop_0; auto with subvol; try lia.
  by rewrite Z.sub_0_r.
Qed.

Lemma reading_step f m st i v vs :
  1 <= f_key_u64s f -> reading f m st i (v :: vs) -> in_range 64 v ->
  exists st', get_inc_field f m st i = Some (v, st') /\ reading f m st' (S i) vs.
Proof.
  intros Hu [n acc HR Hm Hb Hfit Hroom Hval] Hv.
  destruct (drop i (f_bits f)) as [|b bs] eqn:Hbs, (drop i (f_offset f)) as [|o os] eqn:Hos;
    try done.
  cbn [length fields_fit fields_val bits_sum] in *.
  rewrite !andb_true_iff, !Z.leb_le in Hfit. destruct Hfit as [[Ho Hl] Hfit].
  apply Forall_cons_1 in Hb as [Hb0 Hb].
  assert (Forall (fun b => 0 <= b) bs) as Hb' by (eapply Forall_impl; [|exact Hb]; cbn; lia).
  pose proof (bits_sum_nonneg bs (length vs) Hb').
  assert (field_bits f i = Some b) as Hfb
    by (unfold field_bits; rewrite <- (Nat.add_0_r i), <- lookup_drop, Hbs; done).
  assert (field_off f i = Some o) as Hfo
    by (unfold field_off; rewrite <- (Nat.add_0_r i), <- lookup_drop, Hos; done).
  assert (drop (S i) (f_bits f) = bs) as Hbs'
    by (rewrite <- Nat.add_1_r, <- drop_drop, Hbs; done).
  assert (drop (S i) (f_offset f) = os) as Hos'
    by (rewrite <- Nat.add_1_r, <- drop_drop, Hos; done).
  destruct (get_inc_field_spec f m st n i b o HR Hm Hu Hfb Hfo Hb0 ltac:(lia)) as (st' & Hg & HR').
  set (W := wval m (Z.to_nat (f_key_u64s f))) in *.
  set (s := bits_sum bs (length vs)) in *.
  apply bitlen_le in Hl; [|lia..].
  assert (W / 2 ^ (64 * f_key_u64s f - n - b) = acc * 2 ^ b + (v - o)) as HW.
  { replace (64 * f_key_u64s f - n - b) with (64 * f_key_u64s f - n - (b + s) + s) by lia.
    rewrite div_pow2_split, Hval by lia. by apply fields_val_prefix. }
  exists st'. split.
  - rewrite Hg, HW, mod_low by lia. rewrite wadd_small; [|unfold in_range in *; lia].
    by replace (v - o + o) with v by lia.
  - apply (Reading f m st' (S i) vs (n + b) (acc * 2 ^ b + (v - o)));
      rewrite ?Hbs', ?Hos'; try done; fold s; try lia.
    replace (64 * f_key_u64s f - (n + b) - s) with (64 * f_key_u64s f - n - (b + s)) by lia.
    done.
Qed.

(** A packed key whose header is well formed for unpacking. *)
Definition header_ok (f : bkey_format) (m : list Z) : Prop :=
  f_key_u64s f <= kp_u64s m /\ kp_u64s m - f_key_u64s f + BKEY_U64S <= 255 /\
  Z.land (kp_format m) 127 = 0.

Lemma __bkey_unpack_pos_spec f m p : format_wf f -> header_ok f m -> bpos_wf p ->
  packed_as f m [inode p; offset p; snapshot p] ->
  __bkey_unpack_pos f m = Some p.
Proof.
  intros Hf (Hu & _ & Hfm) (Hi & Ho & Hs) Hp. pose proof (fw_u64s f Hf) as Hu1.
  unfold __bkey_unpack_pos, assert. rewrite (fw_nr f Hf), Hfm.
  destruct (Z.leb_spec (f_key_u64s f) (kp_u64s m)); [|lia]. cbn -[Z.pow].
  destruct (reading_init f m _ Hf Hp) as (st0 & -> & HR). cbn -[Z.pow].
  destruct (reading_step f m st0 0 _ _ ltac:(lia) HR Hi) as (st1 & -> & HR1). cbn -[Z.pow].
  destruct (reading_step f m st1 1 _ _ ltac:(lia) HR1 Ho) as (st2 & -> & HR2). cbn -[Z.pow].
  assert (in_range 64 (snapshot p)) as Hs' by (unfold in_range in *; lia).
  destruct (reading_step f m st2 2 _ _ ltac:(lia) HR2 Hs') as (st3 & -> & _). cbn -[Z.pow].
  rewrite Z.mod_small by apply Hs. by destruct p.
Qed.

Lemma __bch2_bkey_unpack_key_spec f m k : format_wf f -> header_ok f m -> bkey_wf k ->
  packed_as f m (bkey_field_values k) ->
  __bch2_bkey_unpack_key f m =
    Some (mk_bkey (kp_u64s m - f_key_u64s f + BKEY_U64S)
            (Z.lor KEY_FORMAT_CURRENT (Z.land (kp_format m) 128)) (kp_type m)
            (k_version k) (k_size k) (k_p k)).
Proof.
  intros Hf (Hu & Hu2 & Hfm) (_ & _ & _ & [Hvh Hvl] & Hsz & Hi & Ho & Hs) Hp.
  pose proof (fw_u64s f Hf) as Hu1.
  unfold __bch2_bkey_unpack_key, assert. rewrite (fw_nr f Hf), Hfm.
  destruct (Z.leb_spec (f_key_u64s f) (kp_u64s m)); [|lia]. cbn -[Z.pow Z.add Z.sub].
  destruct (Z.leb_spec (kp_u64s m - f_key_u64s f + BKEY_U64S) (MAX 8));
    [|unfold MAX in *; lia]. cbn -[Z.pow Z.add Z.sub].
  destruct (reading_init f m _ Hf Hp) as (st0 & -> & HR). cbn -[Z.pow].
  destruct (reading_step f m st0 0 _ _ ltac:(lia) HR Hi) as (st1 & -> & HR1). cbn -[Z.pow].
  destruct (reading_step f m st1 1 _ _ ltac:(lia) HR1 Ho) as (st2 & -> & HR2). cbn -[Z.pow].
  assert (in_range 64 (snapshot (k_p k))) as Hs' by (unfold in_range in *; lia).
  destruct (reading_step f m st2 2 _ _ ltac:(lia) HR2 Hs') as (st3 & -> & HR3). cbn -[Z.pow].
  assert (in_range 64 (k_size k)) as Hsz' by (unfold in_range in *; lia).
  destruct (reading_step f m st3 3 _ _ ltac:(lia) HR3 Hsz') as (st4 & -> & HR4). cbn -[Z.pow].
  assert (in_range 64 (v_hi (k_version k))) as Hvh' by (unfold in_range in *; lia).
  destruct (reading_step f m st4 4 _ _ ltac:(lia) HR4 Hvh') as (st5 & -> & HR5). cbn -[Z.pow].
  destruct (reading_step f m st5 5 _ _ ltac:(lia) HR5 Hvl) as (st6 & -> & _). cbn -[Z.pow].
  rewrite !Z.mod_small by (apply Hvh || apply Hsz || apply Hs).
  by destruct k as [? ? ? [] ? []].
Qed.

(** ** Packing and unpacking whole keys *)

Definition key_fits (f : bkey_format) (k : bkey) : bool :=
  fields_fit (f_bits f) (f_offset f) (bkey_field_values k).

Lemma land_128_range x : in_range 8 (Z.land x 128).
Proof.
  assert (Z.land x 128 = Z.land x 128 mod 2 ^ 8) as ->.
  { rewrite <- Z.land_ones by lia. by rewrite <- Z.land_assoc. }
  apply Z.mod_pos_bound; lia.
Qed.

Lemma format_low_high x : in_range 8 x -> Z.land x 127 = 1 -> Z.lor 1 (Z.land x 128) = x.
Proof.
  intros Hx H1. rewrite <- H1. rewrite <- Z.land_lor_distr_r.
  change (Z.lor 127 128) with (Z.ones 8). rewrite Z.land_ones by lia. by apply Z.mod_small.
Qed.

Lemma land_127_128 x : Z.land (Z.land x 128) 127 = 0.
Proof. rewrite <- Z.land_assoc. change (Z.land 128 127) with 0. apply Z.land_0_r. Qed.

Lemma land_128_128 x : Z.land (Z.land x 128) 128 = Z.land x 128.
Proof. by rewrite <- Z.land_assoc. Qed.

Lemma bch2_bkey_pack_key_spec f out k :
  format_wf f -> buffer_wf f out -> bkey_wf k ->
  Z.land (k_format k) 127 = KEY_FORMAT_CURRENT -> BKEY_U64S <= k_u64s k ->
  if key_fits f k
  then exists m, bch2_bkey_pack_key out k f = Some (Some m) /\
         packed_as f m (bkey_field_values k) /\ length m = length out /\
         kp_u64s m = f_key_u64s f + k_u64s k - BKEY_U64S /\
         kp_format m = Z.land (k_format k) 128 /\ kp_type m = k_type k
  else bch2_bkey_pack_key out k f = Some None.
Proof.
  intros Hf Hb Hk Hfm Hu. pose proof (fw_u64s f Hf) as HU.
  destruct Hk as (Hku & Hkf & Hkt & Hkr). unfold BKEY_U64S in *.
  assert (in_range 8 (f_key_u64s f + k_u64s k - 5)) as Hou by (unfold in_range in *; lia).
  destruct (pack_all_spec f out (bkey_field_values k) (f_key_u64s f + k_u64s k - 5)
    (Z.land (k_format k) 128) (k_type k) Hf Hb ltac:(cbn; lia) Hou (land_128_range _) Hkt)
    as (st & Hi & Hp).
  unfold bch2_bkey_pack_key, assert, key_fits. rewrite (fw_nr f Hf), Hfm, Z.eqb_refl.
  cbn -[Z.pow pack_fields bkey_field_values].
  rewrite Hi. cbn -[pack_fields bkey_field_values].
  destruct (fields_fit _ _ _); [|by rewrite Hp].
  destruct Hp as (st' & m' & -> & Hfin & Hl & Hpa). cbn -[Z.pow usub].
  rewrite Hfin. cbn -[Z.pow usub]. unfold BKEY_U64S. rewrite usub_ok by lia. cbn -[Z.pow].
  destruct (Z.leb_spec (f_key_u64s f + k_u64s k - 5) (MAX 8));
    [|unfold MAX, in_range in *; lia]. cbn -[Z.pow].
  eexists; split; [reflexivity|]. split; [done|].
  split; [by unfold set_header; rewrite length_insert|].
  apply header_fields; try done; [|apply land_128_range]. destruct Hb as [_ Hb]. lia.
Qed.

(** ** Comparing packed keys *)

(** The comparison loop compares the top [n] bits of the two numbers. *)
Lemma __bkey_cmp_bits_spec l r : words_wf l -> words_wf r ->
  forall fuel k n, 0 <= n <= 64 * Z.of_nat k -> n < 64 * Z.of_nat fuel ->
  __bkey_cmp_bits l r (Z.of_nat k - 1) n fuel =
  cmp_sign (wval l k / 2 ^ (64 * Z.of_nat k - n) ?= wval r k / 2 ^ (64 * Z.of_nat k - n)).
Proof.
  intros Hl Hr. induction fuel as [|fuel IH]; intros k n Hn Hfuel; [lia|].
  cbn [__bkey_cmp_bits]. destruct k as [|k].
  { replace n with 0 by lia. done. }
  replace (Z.to_nat (Z.of_nat (S k) - 1)) with k by lia. cbn [wval].
  pose proof (wval_range l k Hl) as Rl. pose proof (wval_range r k Hr) as Rr.
  pose proof (word_range l k Hl) as Wl. pose proof (word_range r k Hr) as Wr.
  unfold in_range in *.
  destruct (Z.leb_spec 64 n).
  - set (e := 64 * Z.of_nat (S k) - n).
    assert (forall w x, (w * 2 ^ (64 * Z.of_nat k) + x) / 2 ^ e = w * 2 ^ (n - 64) + x / 2 ^ e) as Hd.
    { intros w x. replace (64 * Z.of_nat k) with ((n - 64) + e) by lia.
      rewrite pow2_split, Z.mul_assoc by lia. apply Z.div_add_l, Z.pow_nonzero; lia. }
    rewrite !Hd, compare_high_low.
    2: lia.
    2,3: apply div_pow2_range; try lia;
         replace (e + (n - 64)) with (64 * Z.of_nat k) by lia; lia.
    replace (Z.of_nat (S k) - 1 - 1) with (Z.of_nat k - 1) by lia.
    rewrite IH by lia. replace (64 * Z.of_nat k - (n - 64)) with e by lia.
    rewrite Z.eqb_compare. unfold Z.gtb. by destruct (word l k ?= word r k).
  - assert (forall w x, 0 <= x < 2 ^ (64 * Z.of_nat k) ->
      (w * 2 ^ (64 * Z.of_nat k) + x) / 2 ^ (64 * Z.of_nat (S k) - n) = w / 2 ^ (64 - n)) as Hd.
    { intros w x Hx. replace (64 * Z.of_nat (S k) - n) with (64 * Z.of_nat k + (64 - n)) by lia.
      rewrite div_pow2_split, div_high by lia. done. }
    rewrite !Hd by lia. destruct (Z.eqb_spec n 0) as [->|].
    + rewrite !Z.div_small by (cbn; lia). done.
    + rewrite !Z.shiftr_div_pow2 by lia. rewrite cmp_sign_spec.
      destruct (Z.ltb_spec (word l k / 2 ^ (64 - n)) (word r k / 2 ^ (64 - n))),
        (Z.gtb_spec (word l k / 2 ^ (64 - n)) (word r k / 2 ^ (64 - n))); lia || done.
Qed.

Lemma packed_as_prefix f m vs vs' : format_wf f ->
  packed_as f m (vs ++ vs') -> packed_as f m vs.
Proof.
  intros Hf [Hb Hfit Hv]. pose proof (prefix_fits f _ Hf Hfit) as [_ Hroom].
  assert (forall bs os acc, Forall (fun b => 0 <= b) bs -> fields_fit bs os (vs ++ vs') = true ->
    fields_fit bs os vs = true /\
    exists s, 0 <= s /\ bits_sum bs (length (vs ++ vs')) = bits_sum bs (length vs) + s /\
      fields_val bs os (vs ++ vs') acc / 2 ^ s = fields_val bs os vs acc) as Hsplit.
  { clear. induction vs as [|v vs IH]; intros bs os acc Hb Hfit.
    - split; [by destruct bs, os|]. exists (bits_sum bs (length vs')).
      split; [by apply bits_sum_nonneg|]. cbn [app length].
      rewrite fields_val_prefix by done. destruct bs, os; done.
    - destruct bs as [|b bs], os as [|o os]; try done. cbn [app fields_fit length] in *.
      rewrite !andb_true_iff in Hfit. destruct Hfit as [Hbo Hfit].
      inversion Hb; subst.
      destruct (IH bs os (acc * 2 ^ b + (v - o)) ltac:(done) Hfit) as (Hf & s & Hs & Hsum & Hval).
      split; [by rewrite !andb_true_iff|]. exists s. cbn [bits_sum fields_val].
      split; [done|]. split; [lia|done]. }
  destruct (Hsplit (f_bits f) (f_offset f) 0 (format_wf_nonneg f Hf) Hfit)
    as (Hf1 & s & Hs & Hsum & Hval).
  split; [done..|]. rewrite <- Hval, <- Hv, <- div_pow2_split by lia.
  f_equal. f_equal. lia.
Qed.

Lemma packed_key_pos f m k : format_wf f -> packed_as f m (bkey_field_values k) ->
  packed_as f m [inode (k_p k); offset (k_p k); snapshot (k_p k)].
Proof.
  intros Hf. apply (packed_as_prefix f m [_; _; _] [k_size k; v_hi (k_version k); v_lo (k_version k)] Hf).
Qed.

(** [bkey_unpack_pos] of [node_iter.rs]. *)
Definition bkey_unpack_pos (f : bkey_format) (m : list Z) : option bpos :=
  if bkey_packed m then __bkey_unpack_pos f m else Some (unpacked_pos m).

(** [m] is the memory of the key [k], packed in format [f] or unpacked. *)
Definition holds_key (f : bkey_format) (m : list Z) (k : bkey) : Prop :=
  bkey_wf k /\
  (header_ok f m /\ packed_as f m (bkey_field_values k) \/
   bkey_packed m = false /\ unpacked_pos m = k_p k).

Lemma header_ok_packed f m : header_ok f m -> bkey_packed m = true.
Proof. intros (_ & _ & H). unfold bkey_packed. by rewrite H. Qed.

Lemma format_wf_destruct f : format_wf f -> exists b0 b1 b2 bs o0 o1 o2 os,
  f_bits f = b0 :: b1 :: b2 :: bs /\ f_offset f = o0 :: o1 :: o2 :: os /\
  0 <= b0 <= 64 /\ 0 <= b1 <= 64 /\ 0 <= b2 <= 32 /\
  0 <= o0 /\ o0 + (2 ^ b0 - 1) <= MAX 64 /\ 0 <= o1 /\ o1 + (2 ^ b1 - 1) <= MAX 64 /\
  0 <= o2 /\ o2 + (2 ^ b2 - 1) <= MAX 32.
Proof.
  intros [_ _ Hb Ho Hl _]. unfold unpacked_bits in *. cbn in Hb, Ho.
  destruct (f_bits f) as [|b0 [|b1 [|b2 bs]]]; try (inversion Hb; fail);
    repeat match goal with H : Forall2 _ (_ :: _) _ |- _ => inversion H; subst; clear H
                      | H : Forall2 _ [] _ |- _ => inversion H end.
  destruct (f_offset f) as [|o0 [|o1 [|o2 os]]]; try done. cbn in Ho.
  repeat match goal with H : Forall _ (_ :: _) |- _ => inversion H; subst; clear H end.
  exists b0, b1, b2, bs, o0, o1, o2, os. repeat split; try lia.
Qed.

(** The number of the position fields, written out. *)
Lemma packed_pos_val f m p : format_wf f ->
  packed_as f m [inode p; offset p; snapshot p] ->
  exists b0 b1 b2 o0 o1 o2, bkey_format_key_bits f = Some (b0 + b1 + b2) /\
    bits_sum (f_bits f) 3 = b0 + b1 + b2 /\ 0 <= b0 <= 64 /\ 0 <= b1 <= 64 /\ 0 <= b2 <= 32 /\
    take 3 (f_offset f) = [o0; o1; o2] /\ take 3 (f_bits f) = [b0; b1; b2] /\
    o0 <= inode p < o0 + 2 ^ b0 /\ o1 <= offset p < o1 + 2 ^ b1 /\
    o2 <= snapshot p < o2 + 2 ^ b2 /\
    wval m (Z.to_nat (f_key_u64s f)) / 2 ^ (64 * f_key_u64s f - (b0 + b1 + b2)) =
      ((inode p - o0) * 2 ^ b1 + (offset p - o1)) * 2 ^ b2 + (snapshot p - o2).
Proof.
  intros Hf [Hb Hfit Hv].
  destruct (format_wf_destruct f Hf) as (b0&b1&b2&bs&o0&o1&o2&os&Eb&Eo&?&?&?&_).
  exists b0, b1, b2, o0, o1, o2.
  unfold bkey_format_key_bits, field_bits. rewrite Eb, Eo in *. cbn -[Z.pow Z.mul] in *.
  rewrite !andb_true_iff, !Z.leb_le in Hfit.
  destruct Hfit as ((? & Hl0) & (? & Hl1) & (? & Hl2) & _).
  apply bitlen_le in Hl0, Hl1, Hl2; try lia.
  replace (b0 + (b1 + (b2 + bits_sum bs 0))) with (b0 + b1 + b2) in * by (destruct bs; cbn; lia).
  repeat split; try lia. rewrite Hv.
  destruct bs, os; cbn; lia.
Qed.

Lemma compare_sub a b o : (a - o ?= b - o) = (a ?= b).
Proof. rewrite <- !Z.add_opp_r, !(Z.add_comm _ (- o)). apply Z.add_compare_mono_l. Qed.

Lemma cmp_packed_packed f l r lp rp : format_wf f ->
  packed_as f l [inode lp; offset lp; snapshot lp] ->
  packed_as f r [inode rp; offset rp; snapshot rp] ->
  __bkey_cmp_bits l r (f_key_u64s f - 1) (bits_sum (f_bits f) 3) 6 = bpos_cmp lp rp.
Proof.
  intros Hf Hl Hr. pose proof (fw_u64s f Hf).
  destruct (packed_pos_val f l lp Hf Hl)
    as (b0&b1&b2&o0&o1&o2&_&Hs&?&?&?&Eo&Eb&?&?&?&Vl).
  destruct (packed_pos_val f r rp Hf Hr)
    as (b0'&b1'&b2'&o0'&o1'&o2'&_&_&_&_&_&Eo'&Eb'&?&?&?&Vr).
  rewrite Eo in Eo'. rewrite Eb in Eb'. simplify_eq.
  pose proof (prefix_fits f _ Hf (pa_fit _ _ _ Hl)) as [_ Hroom]. cbn [length] in Hroom.
  rewrite Hs in *.
  replace (f_key_u64s f - 1) with (Z.of_nat (Z.to_nat (f_key_u64s f)) - 1) by lia.
  rewrite __bkey_cmp_bits_spec by (apply Hl || apply Hr || lia).
  rewrite Z2Nat.id, Vl, Vr, !compare_high_low, !compare_sub by lia.
  unfold bpos_cmp. rewrite !if_cmp_chain.
  by destruct (inode lp ?= inode rp), (offset lp ?= offset rp), (snapshot lp ?= snapshot rp).
Qed.
