(* ===== verification/BkeyOrder.v ===== *)
(** * Correctness of packed keys

    The properties of [BkeyPack]: packing followed by unpacking is the
    identity and fails exactly when a field does not fit; packed keys
    compare as their positions; the lossy packing of a search position is
    the greatest packable position below it; converting a key between two
    formats keeps its fields and its value. *)

From stdpp Require Import base tactics list option.
From Stdlib Require Import ZArith Lia.
From S2P Require Import Prelude Bpos BkeyPack.

Open Scope Z_scope.

(** ** Search positions *)

Definition packable (f : bkey_format) (q : bpos) : Prop :=
  bpos_wf q /\ fields_fit (f_bits f) (f_offset f) [inode q; offset q; snapshot q] = true.

(** The lexicographic order, spelled out for linear arithmetic. *)
Definition lex_le (p q : bpos) : Prop :=
  inode p < inode q \/
  inode p = inode q /\ (offset p < offset q \/ offset p = offset q /\ snapshot p <= snapshot q).

Lemma bpos_le_lex p q : bpos_le p q = true <-> lex_le p q.
Proof.
  unfold bpos_le, lex_le.
  destruct (Z.eqb_spec (inode p) (inode q)), (Z.eqb_spec (offset p) (offset q)),
    (Z.eqb_spec (snapshot p) (snapshot q)); cbn; rewrite ?Z.ltb_lt; intuition lia.
Qed.

Lemma lex_le_antisym p q : lex_le p q -> lex_le q p -> p = q.
Proof. destruct p, q. unfold lex_le; cbn. intros. f_equal; lia. Qed.

Lemma set_inc_field_lossy_spec f L st V n i b o v :
  pack_repr f L st V n -> field_bits f i = Some b -> field_off f i = Some o ->
  0 <= b <= 64 -> o <= v < 2 ^ 64 -> 0 <= o -> n + b <= 64 * f_key_u64s f ->
  exists st', set_inc_field_lossy f st i v = Some (v <=? o + (2 ^ b - 1), st') /\
    pack_repr f L st' (V * 2 ^ b + (Z.min v (o + (2 ^ b - 1)) - o)) (n + b).
Proof.
  intros HR Hfb Hfo Hb Hv Ho Hfit. unfold set_inc_field_lossy. rewrite Hfb, Hfo.
  unfold assert. cbn -[Z.pow __set_inc_field].
  destruct (Z.leb_spec o v); [|lia]. cbn -[Z.pow __set_inc_field]. pose proof (pow2_pos b).
  destruct (Z.ltb_spec b (bitlen (v - o))) as [Hc|Hc].
  - assert (2 ^ b <= v - o) as Hbig.
    { destruct (Z.lt_ge_cases (v - o) (2 ^ b)) as [Hlt|]; [|lia].
      apply bitlen_le in Hlt; lia. }
    assert (b <> 64) by (intros ->; lia).
    destruct (Z.eqb_spec b 64); [done|].
    rewrite ushl_ok by lia. cbn -[Z.pow __set_inc_field].
    rewrite Z.shiftl_mul_pow2, Z.mul_1_l, Z.mod_small
      by (try lia; pose proof (Z.pow_lt_mono_r 2 b 64); lia).
    destruct (__set_inc_field_spec f L st V n i b (2 ^ b - 1) HR Hfb Hb ltac:(lia) Hfit)
      as (st' & -> & HR').
    exists st'. split; [by destruct (Z.leb_spec v (o + (2 ^ b - 1))); [lia|]|].
    by rewrite Z.min_r, (Z.add_comm o), Z.add_simpl_r by lia.
  - cbn -[Z.pow __set_inc_field]. apply bitlen_le in Hc; [|lia..].
    destruct (__set_inc_field_spec f L st V n i b (v - o) HR Hfb Hb ltac:(lia) Hfit)
      as (st' & -> & HR').
    exists st'. split; [by destruct (Z.leb_spec v (o + (2 ^ b - 1))); [|lia]|].
    by rewrite Z.min_l by lia.
Qed.

Section Lossy.
Context (f : bkey_format) (Hf : format_wf f).
Context (b0 b1 b2 o0 o1 o2 : Z) (bs os : list Z).
Context (Eb : f_bits f = b0 :: b1 :: b2 :: bs) (Eo : f_offset f = o0 :: o1 :: o2 :: os).
Context (Hb0 : 0 <= b0 <= 64) (Hb1 : 0 <= b1 <= 64) (Hb2 : 0 <= b2 <= 32).
Context (Ho0 : 0 <= o0 /\ o0 + (2 ^ b0 - 1) <= MAX 64).
Context (Ho1 : 0 <= o1 /\ o1 + (2 ^ b1 - 1) <= MAX 64).
Context (Ho2 : 0 <= o2 /\ o2 + (2 ^ b2 - 1) <= MAX 32).

(** The largest value of each field. *)
Let m0 := o0 + (2 ^ b0 - 1).
Let m1 := o1 + (2 ^ b1 - 1).
Let m2 := o2 + (2 ^ b2 - 1).

Lemma packable_iff q : packable f q <->
  o0 <= inode q <= m0 /\ o1 <= offset q <= m1 /\ o2 <= snapshot q <= m2.
Proof.
  unfold packable. rewrite Eb, Eo. cbn [fields_fit].
  rewrite !andb_true_iff, !Z.leb_le. unfold bpos_wf, in_range, MAX, m0, m1, m2 in *.
  assert (forall v o b, 0 <= b -> o <= v -> bitlen (v - o) <= b <-> v <= o + (2 ^ b - 1)) as Hl.
  { intros. rewrite bitlen_le by lia. lia. }
  assert ((match bs, os with b :: bs', o :: os' => true | _, _ => true end) = true) as Ht
    by (by destruct bs, os).
  split.
  - intros (_ & (? & H0') & (? & H1') & (? & H2') & _).
    rewrite Hl in H0', H1', H2' by lia. lia.
  - intros (? & ? & ?). rewrite !Hl by lia. repeat split; try lia. by destruct bs, os.
Qed.

(** [r] is the greatest packable position at most [p], if there is one. *)
Definition same_below (p p' : bpos) : Prop :=
  lex_le p' p /\ forall q, packable f q -> lex_le q p -> lex_le q p'.

Definition none_below (p : bpos) : Prop := forall q, packable f q -> ~ lex_le q p.

Lemma lossy_floor_snapshot_spec p : bpos_wf p ->
  match lossy_floor_snapshot f p with
  | Some (Some (p', e)) =>
      bpos_wf p' /\ o2 <= snapshot p' /\ same_below p p' /\ (e = true <-> p' = p)
  | Some None => none_below p
  | None => False
  end.
Proof using Type*.
  intros (Hi & Ho & Hs). unfold lossy_floor_snapshot, field_off. rewrite Eo. cbn -[Z.pow].
  unfold in_range, MAX in *. destruct p as [i o s]; cbn -[Z.pow] in *.
  destruct (Z.ltb_spec s o2); cbn -[Z.pow].
  - destruct (Z.eqb_spec o 0) as [->|]; cbn -[Z.pow].
    + destruct (Z.eqb_spec i 0) as [->|]; cbn -[Z.pow].
      * intros q Hq%packable_iff. unfold lex_le; cbn. unfold m0, m1, m2 in *. lia.
      * rewrite (wsub_borrow 64 0), (wsub_small 64 i) by (unfold in_range; lia).
        unfold bpos_wf, in_range, same_below, lex_le, KEY_SNAPSHOT_MAX, MAX; cbn -[Z.pow].
        repeat split; try lia; try done; try (intros [=]; lia).
        intros q Hq%packable_iff. unfold m0, m1, m2 in *. lia.
    + rewrite wsub_small by (unfold in_range; lia).
      unfold bpos_wf, in_range, same_below, lex_le, KEY_SNAPSHOT_MAX, MAX; cbn -[Z.pow].
      repeat split; try lia; try done; try (intros [=]; lia).
      intros q Hq%packable_iff. unfold m0, m1, m2 in *. lia.
  - unfold bpos_wf, in_range, same_below, lex_le; cbn -[Z.pow].
    repeat split; try lia; try done.
Qed.

Lemma lossy_floor_offset_spec p e : bpos_wf p -> o2 <= snapshot p ->
  match lossy_floor_offset f p e with
  | Some (Some (p', e')) =>
      bpos_wf p' /\ o1 <= offset p' /\ o2 <= snapshot p' /\ same_below p p' /\
      (e' = true <-> e = true /\ p' = p)
  | Some None => none_below p
  | None => False
  end.
Proof using Type*.
  intros (Hi & Ho & Hs) Hs2. unfold lossy_floor_offset, field_off. rewrite Eo. cbn -[Z.pow].
  unfold in_range, MAX in *. destruct p as [i o s]; cbn -[Z.pow] in *.
  destruct (Z.ltb_spec o o1); cbn -[Z.pow].
  - destruct (Z.eqb_spec i 0) as [->|]; cbn -[Z.pow].
    + intros q Hq%packable_iff. unfold lex_le; cbn. unfold m0, m1, m2 in *. lia.
    + rewrite wsub_small by (unfold in_range; lia). pose proof (pow2_pos b1). pose proof (pow2_pos b2).
      unfold bpos_wf, in_range, same_below, lex_le, KEY_OFFSET_MAX, KEY_SNAPSHOT_MAX, MAX; cbn -[Z.pow].
      repeat split; try lia; try done; try (intros [? [=]]; lia).
      intros q Hq%packable_iff. unfold m0, m1, m2 in *. lia.
  - unfold bpos_wf, in_range, same_below, lex_le; cbn -[Z.pow].
    repeat split; try lia; try done. tauto.
Qed.

Lemma lossy_store_spec L st p e :
  pack_repr f L st 0 0 -> bpos_wf p ->
  o0 <= inode p -> o1 <= offset p -> o2 <= snapshot p ->
  b0 + b1 + b2 <= 64 * f_key_u64s f ->
  exists st' q e', lossy_store f st p e = Some (st', e') /\ packable f q /\
    pack_repr f L st'
      (((inode q - o0) * 2 ^ b1 + (offset q - o1)) * 2 ^ b2 + (snapshot q - o2)) (b0 + b1 + b2) /\
    same_below p q /\ (e' = true <-> e = true /\ q = p).
Proof using Type*.
  intros HR (Hi & Ho & Hs) H0 H1 H2 Hroom. destruct p as [i o s]; cbn -[Z.pow lossy_store] in *.
  assert (field_bits f 0 = Some b0 /\ field_bits f 1 = Some b1 /\ field_bits f 2 = Some b2)
    as (F0 & F1 & F2) by (unfold field_bits; by rewrite Eb).
  assert (field_off f 0 = Some o0 /\ field_off f 1 = Some o1 /\ field_off f 2 = Some o2)
    as (G0 & G1 & G2) by (unfold field_off; by rewrite Eo).
  unfold lossy_store, BKEY_FIELD_INODE, BKEY_FIELD_OFFSET, BKEY_FIELD_SNAPSHOT.
  unfold in_range, MAX in *.
  pose proof (pow2_pos b0). pose proof (pow2_pos b1). pose proof (pow2_pos b2).
  destruct (set_inc_field_lossy_spec f L st 0 0 0 b0 o0 i HR F0 G0) as (st1 & E1 & HR1); try lia.
  cbn [inode offset snapshot]. rewrite E1. cbn -[Z.pow set_inc_field_lossy]. fold m0 in HR1 |- *.
  set (o' := if i <=? m0 then o else KEY_OFFSET_MAX).
  set (s' := if i <=? m0 then s else KEY_SNAPSHOT_MAX).
  assert (o1 <= o' < 2 ^ 64 /\ o2 <= s' < 2 ^ 32) as [Ho' Hs'].
  { unfold o', s', KEY_OFFSET_MAX, KEY_SNAPSHOT_MAX, MAX in *. destruct (i <=? m0); lia. }
  replace (offset (if i <=? m0 then _ else _)) with o' by (unfold o'; by destruct (i <=? m0)).
  destruct (set_inc_field_lossy_spec f L st1 _ _ 1 b1 o1 o' HR1 F1 G1) as (st2 & E2 & HR2); try lia.
  rewrite E2. cbn -[Z.pow set_inc_field_lossy]. fold m1 in HR2 |- *.
  set (s'' := if o' <=? m1 then s' else KEY_SNAPSHOT_MAX).
  assert (o2 <= s'' < 2 ^ 32) as Hs''.
  { unfold s'', KEY_SNAPSHOT_MAX, MAX in *. destruct (o' <=? m1); lia. }
  replace (snapshot (if o' <=? m1 then _ else _)) with s''
    by (unfold s'', s'; by destruct (o' <=? m1), (i <=? m0)).
  destruct (set_inc_field_lossy_spec f L st2 _ _ 2 b2 o2 s'' HR2 F2 G2) as (st3 & E3 & HR3); try lia.
  rewrite E3. cbn -[Z.pow set_inc_field_lossy]. fold m2 in HR3 |- *.
  exists st3, (SPOS (Z.min i m0) (Z.min o' m1) (Z.min s'' m2)). eexists. split; [reflexivity|].
  cbn -[Z.pow]. rewrite packable_iff. cbn -[Z.pow].
  split; [unfold m0, m1, m2; lia|].
  split; [by rewrite Z.mul_0_l, Z.add_0_l in HR3|].
  split.
  - unfold same_below, lex_le; cbn -[Z.pow]. unfold s'', o', s', KEY_OFFSET_MAX, KEY_SNAPSHOT_MAX, MAX.
    assert (m1 < 2 ^ 64 /\ m2 < 2 ^ 32) by (unfold m1, m2; lia).
    split; [|intros q Hq%packable_iff]; destruct (Z.leb_spec i m0);
      try (destruct (Z.leb_spec o m1); lia);
      destruct (Z.leb_spec (2 ^ 64 - 1) m1); lia.
  - rewrite !andb_true_iff, !Z.leb_le. split.
    + intros [[[-> ?] ?] ?]. split; [done|]. unfold s'', o', s' in *.
      rewrite (proj2 (Z.leb_le i m0)) in * by lia. rewrite (proj2 (Z.leb_le o m1)) in * by lia.
      f_equal; lia.
    + intros [-> [= Hq0 Hq1 Hq2]]. unfold s'', o', s' in *.
      rewrite (proj2 (Z.leb_le i m0)) in * by lia. rewrite (proj2 (Z.leb_le o m1)) in * by lia. lia.
Qed.
End Lossy.

Lemma bch2_bkey_pack_pos_lossy_spec f out p :
  format_wf f -> buffer_wf f out -> bpos_wf p ->
  exists r m, bch2_bkey_pack_pos_lossy out p f = Some (r, m) /\
  match r with
  | BKEY_PACK_POS_FAIL => none_below f p
  | _ => exists q, packable f q /\ packed_as f m [inode q; offset q; snapshot q] /\
           kp_u64s m = f_key_u64s f /\ kp_format m = KEY_FORMAT_LOCAL_BTREE /\ kp_type m = 0 /\
           same_below f p q /\ (r = BKEY_PACK_POS_EXACT <-> q = p)
  end.
Proof.
  intros Hf Hb Hp. pose proof (fw_u64s f Hf) as HU.
  destruct (format_wf_destruct f Hf)
    as (b0&b1&b2&bs&o0&o1&o2&os&Eb&Eo&B0&B1&B2&O0&O0'&O1&O1'&O2&O2').
  destruct (pack_state_init_spec f out HU Hb) as (st & Hi & HR).
  unfold bch2_bkey_pack_pos_lossy. rewrite Hi. cbn -[lossy_floor_snapshot lossy_floor_offset lossy_store].
  pose proof (lossy_floor_snapshot_spec f Hf b0 b1 b2 o0 o1 o2 bs os Eb Eo B0 B1 B2
    (conj O0 O0') (conj O1 O1') (conj O2 O2') p Hp) as S1.
  destruct (lossy_floor_snapshot f p) as [[[p1 e1]|]|]; [|by eexists _, _|done].
  cbn -[lossy_floor_offset lossy_store]. destruct S1 as (W1 & Hs1 & [Hle1 Hg1] & He1).
  pose proof (lossy_floor_offset_spec f Hf b0 b1 b2 o0 o1 o2 bs os Eb Eo B0 B1 B2
    (conj O0 O0') (conj O1 O1') (conj O2 O2') p1 e1 W1 Hs1) as S2.
  destruct (lossy_floor_offset f p1 e1) as [[[p2 e2]|]|]; [| |done].
  2:{ eexists _, _. split; [reflexivity|]. intros q Hq Hl. by apply (S2 q Hq), Hg1. }
  cbn -[lossy_store]. destruct S2 as (W2 & Ho2 & Hs2 & [Hle2 Hg2] & He2).
  unfold field_off. rewrite Eo. cbn -[lossy_store].
  assert (lex_le p2 p) as Hle by (unfold lex_le in *; lia).
  destruct (Z.ltb_spec (inode p2) o0).
  { eexists _, _. split; [reflexivity|]. intros q Hq Hl. pose proof (Hg2 q Hq (Hg1 q Hq Hl)).
    apply (packable_iff f b0 b1 b2 o0 o1 o2 bs os Eb Eo B0 B1 B2
      (conj O0 O0') (conj O1 O1') (conj O2 O2')) in Hq. unfold lex_le in *. lia. }
  assert (bits_sum (f_bits f) 3 = b0 + b1 + b2) as Hsum.
  { rewrite Eb. cbn. destruct bs; cbn; lia. }
  pose proof (bits_sum_le (f_bits f) 3 6 (format_wf_nonneg f Hf) ltac:(lia)).
  pose proof (fw_fit f Hf). unfold KEY_PACKED_BITS_START in *.
  destruct (lossy_store_spec f Hf b0 b1 b2 o0 o1 o2 bs os Eb Eo B0 B1 B2
    (conj O0 O0') (conj O1 O1') (conj O2 O2') (length out) st p2 e2 HR W2)
    as (st' & q & e' & -> & Hq & HR' & [Hle3 Hg3] & He3); try lia.
  cbn -[pack_state_finish].
  destruct (finish_packed_as f out st' [inode q; offset q; snapshot q] (f_key_u64s f)
    KEY_FORMAT_LOCAL_BTREE 0 Hf Hb) as (m & -> & Hl & Hpa); try done.
  { unfold in_range; lia. }
  { apply Hq. }
  { cbn [length]. rewrite Hsum, Eb, Eo.
    cbn [fields_val]. by destruct bs, os; cbn [fields_val]; rewrite Z.mul_0_l, Z.add_0_l. }
  cbn. eexists _, _. split; [reflexivity|].
  assert (same_below f p q) as HS.
  { split; [unfold lex_le in *; lia|]. intros q' Hq' Hl'. by apply Hg3, Hg2, Hg1. }
  assert (e' = true <-> q = p) as Hex.
  { assert (q = p -> p2 = p /\ p1 = p) as Hback.
    { intros ->. pose proof (lex_le_antisym _ _ Hle3 Hle). subst p2.
      by rewrite (lex_le_antisym _ _ Hle2 Hle1). }
    clear -He1 He2 He3 Hback. split.
    - intros He. apply He3 in He as [He ->]. apply He2 in He as [He ->]. by apply He1.
    - intros Hq. destruct (Hback Hq) as [-> ->]. apply He3. split; [|done].
      apply He2. split; [|done]. by apply He1. }
  pose proof (header_fields m (f_key_u64s f) KEY_FORMAT_LOCAL_BTREE 0) as (Hh1 & Hh2 & Hh3);
    [destruct Hb; lia | unfold in_range; lia | done | done |].
  clear -Hex Hq Hpa Hh1 Hh2 Hh3 HS.
  destruct e'; exists q; do 6 (split; [done|]); rewrite <- Hex; by split.
Qed.

(** ** Converting between formats *)

Lemma transform_fields_pack out_f in_f input : 1 <= f_key_u64s in_f ->
  forall vs ost ist i, Forall (in_range 64) vs -> reading in_f input ist i vs ->
  transform_fields out_f in_f input ost ist i (length vs) = pack_fields out_f ost i vs.
Proof.
  intros HU. induction vs as [|v vs IH]; intros ost ist i Hr HR; [done|].
  apply Forall_cons_1 in Hr as [Hv Hr].
  destruct (reading_step in_f input ist i v vs HU HR Hv) as (ist' & Hg & HR').
  cbn [length transform_fields pack_fields]. rewrite Hg.
  cbn -[set_inc_field transform_fields pack_fields].
  destruct (set_inc_field out_f ost i v) as [[ost'|]|]; cbn; [by apply IH|done..].
Qed.

Lemma word_copy m dst src i : (i < dst)%nat -> (dst <= length m)%nat ->
  word (copy_words m dst src) i = word m i.
Proof.
  intros. unfold copy_words, word. rewrite !nth_lookup, lookup_app_l by (rewrite length_take; lia).
  by rewrite lookup_take_lt by lia.
Qed.

Lemma wval_ext m m' n : (forall i, (i < n)%nat -> word m i = word m' i) -> wval m n = wval m' n.
Proof.
  induction n as [|n IH]; intros H; cbn [wval]; [done|]. rewrite H, IH by (intros; try apply H; lia).
  done.
Qed.

Lemma packed_as_copy f m vs src : 1 <= f_key_u64s f -> words_wf src -> packed_as f m vs ->
  packed_as f (copy_words m (Z.to_nat (f_key_u64s f)) src) vs.
Proof.
  intros HU Hs [[Hm Hl] Hfit Hv]. split; [|done|].
  - split.
    + apply Forall_app_2; [by apply Forall_take|]. apply Forall_app_2; [done|by apply Forall_drop].
    + unfold copy_words. rewrite !length_app, length_take, length_drop. lia.
  - erewrite wval_ext; [exact Hv|]. intros i Hi. apply word_copy; lia.
Qed.

Lemma bkey_field_values_range k : bkey_wf k -> Forall (in_range 64) (bkey_field_values k).
Proof.
  intros (_ & _ & _ & [? ?] & ? & ? & ? & ?). unfold in_range in *.
  repeat constructor; try lia.
Qed.

Lemma kp_range m : in_range 8 (kp_u64s m) /\ in_range 8 (kp_format m) /\ in_range 8 (kp_type m).
Proof. repeat split; apply Z.mod_pos_bound; lia. Qed.

Lemma header_copy m dst src : (0 < dst)%nat -> (dst <= length m)%nat ->
  kp_u64s (copy_words m dst src) = kp_u64s m /\
  kp_format (copy_words m dst src) = kp_format m /\ kp_type (copy_words m dst src) = kp_type m.
Proof. intros. unfold kp_u64s, kp_format, kp_type. by rewrite !word_copy by lia. Qed.

(** ** Properties *)

(** C32: Packing a key into a well-formed format succeeds exactly when every
    field fits its offset and width; the packed key has the header the
    source gives it and unpacks to the original key. *)
Theorem bkey_pack_roundtrip (f : bkey_format) (out : list Z) (k : bkey) :
  format_wf f -> buffer_wf f out -> bkey_wf k ->
  Z.land (k_format k) 127 = KEY_FORMAT_CURRENT -> BKEY_U64S <= k_u64s k ->
  (exists m, bch2_bkey_pack_key out k f = Some (Some m) /\ key_fits f k = true /\
     __bch2_bkey_unpack_key f m = Some k /\ __bkey_unpack_pos f m = Some (k_p k) /\
     kp_u64s m = f_key_u64s f + k_u64s k - BKEY_U64S /\ kp_type m = k_type k) \/
  (bch2_bkey_pack_key out k f = Some None /\ key_fits f k = false).
Proof.
  intros Hf Hb Hk Hfm Hu. pose proof (bch2_bkey_pack_key_spec f out k Hf Hb Hk Hfm Hu) as Hp.
  destruct (key_fits f k); [left|by right].
  destruct Hp as (m & Hm & Hpa & _ & Hu' & Hf' & Ht').
  assert (header_ok f m) as Hh.
  { unfold header_ok. rewrite Hf', land_127_128, Hu'. destruct Hk as (Hku & _).
    unfold BKEY_U64S, in_range in *. lia. }
  exists m. split; [done|]. split; [done|]. split; [|split; [|done]].
  - rewrite (__bch2_bkey_unpack_key_spec f m k Hf Hh Hk Hpa), Hf', Ht', Hu', land_128_128.
    unfold KEY_FORMAT_CURRENT in *. rewrite format_low_high by (done || apply Hk).
    replace (f_key_u64s f + k_u64s k - BKEY_U64S - f_key_u64s f + BKEY_U64S) with (k_u64s k) by lia.
    by destruct k.
  - apply __bkey_unpack_pos_spec; [done..|apply Hk|by apply packed_key_pos].
Qed.

(** Comparison of keys in any mixture of packed and unpacked. *)
Lemma cmp_packed_spec (f : bkey_format) (l r : list Z) (lk rk : bkey) :
  format_wf f -> holds_key f l lk -> holds_key f r rk ->
  bch2_bkey_cmp_packed f (bits_sum (f_bits f) 3) l r = Some (bpos_cmp (k_p lk) (k_p rk)).
Proof.
  intros Hf [Wl Hl] [Wr Hr]. unfold bch2_bkey_cmp_packed.
  assert (forall m k, bkey_wf k -> header_ok f m -> packed_as f m (bkey_field_values k) ->
    k_p <$> __bch2_bkey_unpack_key f m = Some (k_p k)) as Hun.
  { intros m k Hk Hh Hp. by rewrite (__bch2_bkey_unpack_key_spec f m k). }
  destruct Hl as [[Hhl Hpl]|[-> Hl]], Hr as [[Hhr Hpr]|[Er Hr]];
    rewrite ?(header_ok_packed f l), ?(header_ok_packed f r), ?Er by done;
    cbn -[Z.pow bkey_format_key_bits __bkey_cmp_bits __bch2_bkey_unpack_key].
  - pose proof (packed_key_pos f l lk Hf Hpl) as Pl. pose proof (packed_key_pos f r rk Hf Hpr) as Pr.
    destruct (packed_pos_val f l _ Hf Pl) as (b0&b1&b2&?&?&?&->&Hs&_). cbn -[__bkey_cmp_bits].
    rewrite <- Hs, Z.eqb_refl. cbn -[__bkey_cmp_bits]. f_equal. by apply cmp_packed_packed.
  - rewrite (Hun l lk) by done. cbn. by rewrite Hr.
  - rewrite (Hun r rk) by done. cbn. by rewrite Hl.
  - by rewrite Hl, Hr.
Qed.

(** C31: Two keys in memory, each packed in the node's format or unpacked,
    compare as their positions: the word-wise comparison of the packed bits
    and the unpacking paths all give [bpos_cmp]. *)
Theorem bkey_cmp_packed_is_bpos_cmp (f : bkey_format) (l r : list Z) (lk rk : bkey) :
  format_wf f -> holds_key f l lk -> holds_key f r rk ->
  bch2_bkey_cmp_packed f (bits_sum (f_bits f) 3) l r = Some (bpos_cmp (k_p lk) (k_p rk)).
Proof. apply cmp_packed_spec. Qed.

(** C33: Packing a search position never fails by panic.  It reports FAIL exactly
    when no packable position is at most the search position; otherwise the
    packed key is a packable position, the greatest one at most the search
    position, and EXACT means that it is the search position itself. *)
Theorem bkey_pack_pos_lossy_floor (f : bkey_format) (out : list Z) (p : bpos) :
  format_wf f -> buffer_wf f out -> bpos_wf p ->
  exists r m, bch2_bkey_pack_pos_lossy out p f = Some (r, m) /\
  match r with
  | BKEY_PACK_POS_FAIL => forall q, packable f q -> bpos_le q p = false
  | _ => exists q, packable f q /\ __bkey_unpack_pos f m = Some q /\ bpos_le q p = true /\
           (forall q', packable f q' -> bpos_le q' p = true -> bpos_le q' q = true) /\
           (r = BKEY_PACK_POS_EXACT <-> q = p)
  end.
Proof.
  intros Hf Hb Hp. pose proof (fw_u64s f Hf).
  destruct (bch2_bkey_pack_pos_lossy_spec f out p Hf Hb Hp) as (r & m & Hm & Hr).
  exists r, m. split; [done|].
  assert (forall q q' : bpos, bpos_le q q' = true <-> lex_le q q') as Hle by apply bpos_le_lex.
  destruct r.
  3:{ intros q Hq. apply not_true_iff_false. rewrite Hle. by apply Hr. }
  all: destruct Hr as (q & Hq & Hpa & Hu & Hfm & _ & [Hb1 Hb2] & He); exists q;
    (split; [done|]); (split; [|split; [by apply Hle|split; [|done]]]);
    [ apply __bkey_unpack_pos_spec; [done| |apply Hq|done];
      unfold header_ok, KEY_FORMAT_LOCAL_BTREE, BKEY_U64S in *; rewrite Hu, Hfm; split; [lia|];
      split; [lia|done]
    | intros q' Hq'; rewrite !Hle; by apply Hb2 ].
Qed.

(** Converting a packed key to another format succeeds exactly when its
    fields fit the new format; the result has the same six fields, type and
    format flag, and its value words are copied behind the new key words. *)
Theorem bkey_transform_preserves (out_f in_f : bkey_format) (out input : list Z) (k : bkey) :
  format_wf out_f -> format_wf in_f -> buffer_wf out_f out -> words_wf input -> bkey_wf k ->
  packed_as in_f input (bkey_field_values k) -> f_key_u64s in_f <= kp_u64s input ->
  kp_u64s input - f_key_u64s in_f + f_key_u64s out_f <= 255 ->
  if key_fits out_f k
  then exists m, bch2_bkey_transform out_f out in_f input = Some (Some m) /\
         packed_as out_f m (bkey_field_values k) /\
         kp_u64s m = f_key_u64s out_f + (kp_u64s input - f_key_u64s in_f) /\
         kp_type m = kp_type input /\ kp_format m = Z.land (kp_format input) 128 /\
         (kp_u64s input <= Z.of_nat (length input) ->
          take (Z.to_nat (kp_u64s input - f_key_u64s in_f)) (drop (Z.to_nat (f_key_u64s out_f)) m) =
          take (Z.to_nat (kp_u64s input - f_key_u64s in_f))
               (drop (Z.to_nat (f_key_u64s in_f)) input))
  else bch2_bkey_transform out_f out in_f input = Some None.
Proof.
  intros Ho Hi Hb Hin Hk Hpa Hu Hu2.
  pose proof (fw_u64s _ Ho). pose proof (fw_u64s _ Hi). destruct (kp_range input) as (Ru & Rf & Rt).
  set (n := Z.to_nat (kp_u64s input - f_key_u64s in_f)).
  assert (in_range 8 (f_key_u64s out_f + kp_u64s input - f_key_u64s in_f)) as Rou
    by (unfold in_range in *; lia).
  destruct (pack_all_spec out_f out (bkey_field_values k)
    (f_key_u64s out_f + kp_u64s input - f_key_u64s in_f) (Z.land (kp_format input) 128)
    (kp_type input) Ho Hb ltac:(cbn; lia) Rou (land_128_range _) Rt) as (ost & E1 & Hp).
  destruct (reading_init in_f input _ Hi Hpa) as (ist & E2 & HR).
  unfold bch2_bkey_transform, assert, key_fits.
  destruct (Z.leb_spec (f_key_u64s in_f) (kp_u64s input)); [|lia].
  cbn -[Z.pow usub transform_fields]. rewrite usub_ok by lia. cbn -[Z.pow transform_fields].
  destruct (Z.leb_spec (f_key_u64s out_f + kp_u64s input - f_key_u64s in_f) (MAX 8));
    [|unfold MAX in *; lia].
  cbn -[Z.pow transform_fields]. rewrite E1. cbn -[Z.pow transform_fields]. rewrite E2.
  cbn -[Z.pow transform_fields].
  change 6%nat with (length (bkey_field_values k)).
  rewrite transform_fields_pack by (lia || done || by apply bkey_field_values_range).
  destruct (fields_fit _ _ _); [|by rewrite Hp].
  destruct Hp as (st' & m' & -> & Hfin & Hl & Hpo). cbn -[Z.pow]. rewrite Hfin. cbn -[Z.pow].
  set (h := set_header _ _ _ _) in *.
  assert (length h = length out) as Hlh by (unfold h, set_header; rewrite length_insert; done).
  destruct Hb as [Hbw Hbl].
  eexists; split; [reflexivity|]. split.
  { apply packed_as_copy; [lia| |done]. by apply Forall_take, Forall_drop. }
  fold n. destruct (header_copy h (Z.to_nat (f_key_u64s out_f))
    (take n (drop (Z.to_nat (f_key_u64s in_f)) input)) ltac:(lia) ltac:(lia)) as (-> & -> & ->).
  unfold h in *.
  destruct (header_fields m' (f_key_u64s out_f + kp_u64s input - f_key_u64s in_f)
    (Z.land (kp_format input) 128) (kp_type input) ltac:(lia) Rou (land_128_range _) Rt)
    as (-> & -> & ->).
  split; [lia|]. split; [done|]. split; [done|]. intros Hlen.
  unfold copy_words. rewrite drop_app_length' by (rewrite length_take; lia).
  rewrite take_app_le; [by rewrite take_take, Nat.min_id|].
  rewrite length_take, length_drop. lia.
Qed.

(** ** Witnesses *)

Definition example_format : bkey_format :=
  mk_bkey_format 2 6 [16; 48; 32; 0; 0; 8] [1000; 0; 0; 0; 0; 0].

Definition example_format2 : bkey_format :=
  mk_bkey_format 3 6 [32; 64; 32; 16; 0; 16] [0; 0; 0; 0; 0; 0].

Definition example_key : bkey :=
  mk_bkey 6 1 11 (mk_bversion 0 7) 0 (SPOS 4096 77 (MAX 32)).

(** A format given by its numbers. *)
Ltac concrete_format_wf :=
  split; try done; unfold unpacked_bits; cbn -[Z.pow];
    repeat match goal with
    | |- Forall2 _ [] [] => apply Forall2_nil_2
    | |- Forall2 _ (_ :: _) _ => apply Forall2_cons_2
    | |- Forall _ [] => apply Forall_nil_2
    | |- Forall _ (_ :: _) => apply Forall_cons_2
    end; unfold MAX; cbn; lia.

Lemma example_format_wf : format_wf example_format.
Proof. concrete_format_wf. Qed.

Lemma example_format2_wf : format_wf example_format2.
Proof. concrete_format_wf. Qed.

Lemma current_format_wf : format_wf BKEY_FORMAT_CURRENT.
Proof. concrete_format_wf. Qed.

Lemma example_key_wf : bkey_wf example_key.
Proof. repeat split; done. Qed.

Lemma zeros_wf n : words_wf (replicate n 0).
Proof. by apply Forall_replicate. Qed.

Lemma bkey_pack_roundtrip_witness :
  exists m, bch2_bkey_pack_key (replicate 5 0) example_key example_format = Some (Some m) /\
    __bch2_bkey_unpack_key example_format m = Some example_key.
Proof.
  destruct (bkey_pack_roundtrip example_format (replicate 5 0) example_key) as [H|H].
  - apply example_format_wf.
  - split; [apply zeros_wf|cbn; lia].
  - apply example_key_wf.
  - reflexivity.
  - done.
  - destruct H as (m & Hm & _ & Hu & _). exact (ex_intro _ m (conj Hm Hu)).
  - destruct H as [_ H]. vm_compute in H. discriminate.
Defined.

(** [example_key] as it lies in memory, packed and unpacked. *)
Definition example_packed : list Z :=
  match bch2_bkey_pack_key (replicate 5 0) example_key example_format with
  | Some (Some m) => m
  | _ => []
  end.

Definition example_unpacked : list Z := [0x0b0106; 0; 0xffffffff00000000; 78; 4096].

Lemma example_packed_as : packed_as example_format example_packed (bkey_field_values example_key).
Proof.
  pose proof (bch2_bkey_pack_key_spec example_format (replicate 5 0) example_key
    example_format_wf ltac:(split; [apply zeros_wf|cbn; lia]) example_key_wf eq_refl
    ltac:(done)) as H.
  replace (key_fits example_format example_key) with true in H by reflexivity.
  destruct H as (m & Hm & Hpa & _). unfold example_packed. by rewrite Hm.
Qed.

Lemma bkey_cmp_packed_is_bpos_cmp_witness :
  bch2_bkey_cmp_packed example_format 96 example_packed example_unpacked = Some (-1).
Proof.
  set (k := mk_bkey 6 1 11 (mk_bversion 0 7) 0 (SPOS 4096 78 (MAX 32))).
  apply (bkey_cmp_packed_is_bpos_cmp example_format example_packed example_unpacked example_key k).
  - apply example_format_wf.
  - split; [apply example_key_wf|left]. split; [repeat split; done|apply example_packed_as].
  - split; [repeat split; done|right]. split; reflexivity.
Defined.

Lemma bkey_pack_pos_lossy_floor_witness :
  exists m, bch2_bkey_pack_pos_lossy (replicate 5 0) (SPOS 4096 (2 ^ 50) 3) example_format =
    Some (BKEY_PACK_POS_SMALLER, m) /\
    __bkey_unpack_pos example_format m = Some (SPOS 4096 (2 ^ 48 - 1) (MAX 32)).
Proof.
  destruct (bkey_pack_pos_lossy_floor example_format (replicate 5 0) (SPOS 4096 (2 ^ 50) 3))
    as (r & m & Hm & _).
  - apply example_format_wf.
  - split; [apply zeros_wf|cbn; lia].
  - repeat split; done.
  - vm_compute in Hm. injection Hm as <- <-. eexists. split; [vm_compute; reflexivity|].
    vm_compute. reflexivity.
Defined.

Lemma bkey_transform_preserves_witness :
  exists m, bch2_bkey_transform example_format2 (replicate 5 0) example_format
    (take 2 example_packed ++ [42]) = Some (Some m) /\
    packed_as example_format2 m (bkey_field_values example_key).
Proof.
  assert (packed_as example_format (take 2 example_packed ++ [42]) (bkey_field_values example_key))
    as Hpa.
  { split; [split; [repeat constructor; done|done]|reflexivity|vm_compute; reflexivity]. }
  pose proof (bkey_transform_preserves example_format2 example_format (replicate 5 0)
    (take 2 example_packed ++ [42]) example_key example_format2_wf example_format_wf
    ltac:(split; [apply zeros_wf|cbn; lia]) ltac:(repeat constructor; done) example_key_wf Hpa
    ltac:(vm_compute; congruence) ltac:(vm_compute; congruence)) as H.
  replace (key_fits example_format2 example_key) with true in H by reflexivity.
  destruct H as (m & Hm & Hp & _). exact (ex_intro _ m (conj Hm Hp)).
Defined.
