(* ===== verification/BkeyFormat.v ===== *)
(** * Choosing a packing format ([btree/bkey.rs])

    When a node is written its keys are scanned into a [bkey_format_state]
    (the range of each field), and [bch2_bkey_format_done] turns the ranges
    into field widths and offsets, rounding widths up to bytes while the
    spare bits of the last word last.  The main result: the format is well
    formed and every scanned key fits it. *)

From stdpp Require Import base tactics list option.
From Stdlib Require Import ZArith Lia.
From S2P Require Import Prelude Bpos BkeyPack BkeyOrder.

Open Scope Z_scope.

(** ** The scan *)

Record bkey_format_state := mk_format_state { field_min : list Z; field_max : list Z }.

Definition bch2_bkey_format_init : bkey_format_state :=
  mk_format_state (<[BKEY_FIELD_SIZE := 0]> (replicate 6 (MAX 64))) (replicate 6 0).

Definition __bkey_format_add (st : bkey_format_state) (field : nat) (v : Z)
  : option bkey_format_state :=
  mn ← field_min st !! field;
  mx ← field_max st !! field;
  Some (mk_format_state (<[field := Z.min mn v]> (field_min st))
                        (<[field := Z.max mx v]> (field_max st))).

Fixpoint format_add_fields (st : bkey_format_state) (field : nat) (vs : list Z)
  : option bkey_format_state :=
  match vs with
  | [] => Some st
  | v :: vs => st ← __bkey_format_add st field v; format_add_fields st (S field) vs
  end.

Definition bch2_bkey_format_add_key (st : bkey_format_state) (k : bkey)
  : option bkey_format_state := format_add_fields st 0 (bkey_field_values k).

Definition bch2_bkey_format_add_pos (st : bkey_format_state) (p : bpos)
  : option bkey_format_state :=
  format_add_fields st 0 [inode p; offset p; snapshot p].

(** ** The format *)

Definition set_format_field (f : bkey_format) (field : nat) (bits off : Z)
  : option bkey_format :=
  ub ← unpacked_bits !! field;
  umax ← (if ub =? 64 then Some (MAX 64) else m ← ushl 64 1 ub; Some (m - 1));
  let bits := Z.min bits ub in
  off ← (if bits =? ub then Some 0
         else m ← ushl 64 1 bits; Some (Z.min off (umax - (m - 1))));
  Some (mk_bkey_format (f_key_u64s f) (f_nr_fields f)
          (<[field := bits]> (f_bits f)) (<[field := off]> (f_offset f))).

(** First loop: widths from the ranges; [bits] counts the bits used. *)
Fixpoint format_widths (st : bkey_format_state) (f : bkey_format) (bits : Z) (i n : nat)
  : option (bkey_format * Z) :=
  match n with
  | O => Some (f, bits)
  | S n =>
      mn ← field_min st !! i;
      mx ← field_max st !! i;
      let mn := Z.min mn mx in
      f ← set_format_field f i (bitlen (wsub 64 mx mn)) mn;
      b ← f_bits f !! i;
      format_widths st f (bits + b) (S i) n
  end.

(** Second loop: round widths up to bytes; [bits] counts the spare bits. *)
Fixpoint format_round (f : bkey_format) (bits : Z) (i n : nat) : option bkey_format :=
  match n with
  | O => Some f
  | S n =>
      b ← f_bits f !! i;
      let extra := (b + 7) / 8 * 8 - b in
      if extra <=? bits then
        off ← f_offset f !! i;
        f ← set_format_field f i (b + extra) off;
        format_round f (bits - extra) (S i) n
      else format_round f bits (S i) n
  end.

Definition bch2_bkey_format_done (st : bkey_format_state) : option bkey_format :=
  '(f, bits) ← format_widths st
    (mk_bkey_format 0 BKEY_NR_FIELDS (replicate 6 0) (replicate 6 0)) KEY_PACKED_BITS_START 0 6;
  let key_u64s := (bits + 63) / 64 in
  format_round (mk_bkey_format key_u64s (f_nr_fields f) (f_bits f) (f_offset f))
    (key_u64s * 64 - bits) 0 6.

Definition bch2_bkey_format_field_overflows (f : bkey_format) (i : nat) : option bool :=
  format_bits ← field_bits f i;
  ub ← unpacked_bits !! i;
  mask ← (if ub =? 64 then Some (MAX 64) else m ← ushl 64 1 ub; Some (m - 1));
  off ← field_off f i;
  if ub <? format_bits then Some true
  else if (format_bits =? ub) && negb (off =? 0) then Some true
  else
    fmask ← (if format_bits =? 0 then Some 0
             else if format_bits =? 64 then Some (MAX 64)
             else m ← ushl 64 1 format_bits; Some (m - 1));
    Some (Z.land (wadd 64 off fmask) mask <? off).

(** ** One field *)

Record field_ok (ub b o lo hi : Z) : Prop := {
  fo_b : 0 <= b <= ub;
  fo_o : 0 <= o;
  fo_top : o + (2 ^ b - 1) <= MAX ub;
  fo_lo : o <= lo;
  fo_hi : hi <= o + (2 ^ b - 1)
}.

Lemma unpacked_bits_lookup i ub : unpacked_bits !! i = Some ub -> ub = 32 \/ ub = 64.
Proof. intros. do 6 (destruct i as [|i]; [cbn in *; simplify_eq; auto|]). done. Qed.

Lemma set_format_field_spec f i ub bits off lo hi :
  unpacked_bits !! i = Some ub -> 0 <= lo <= hi -> hi <= MAX ub ->
  0 <= bits -> 0 <= off <= lo -> hi <= off + (2 ^ bits - 1) ->
  exists b o, field_ok ub b o lo hi /\ b = Z.min bits ub /\
    set_format_field f i bits off =
      Some (mk_bkey_format (f_key_u64s f) (f_nr_fields f)
              (<[i := b]> (f_bits f)) (<[i := o]> (f_offset f))).
Proof.
  intros Hub Hlo Hhi Hb Ho Hc. unfold set_format_field. rewrite Hub. cbn -[Z.pow ushl].
  assert ((if ub =? 64 then Some (MAX 64) else m ← ushl 64 1 ub; Some (m - 1)) = Some (MAX ub))
    as -> by (destruct (unpacked_bits_lookup _ _ Hub) as [-> | ->]; reflexivity).
  cbn -[Z.pow ushl]. pose proof (unpacked_bits_lookup _ _ Hub).
  unfold MAX in *. destruct (Z.eqb_spec (Z.min bits ub) ub) as [He|He].
  - exists (Z.min bits ub), 0. rewrite He. split; [|done].
    split; unfold MAX; lia.
  - assert (bits < ub) by lia. rewrite (Z.min_l bits ub) by lia. rewrite ushl_ok by lia. cbn -[Z.pow].
    pose proof (pow2_le bits ub ltac:(lia)). pose proof (pow2_le ub 64 ltac:(lia)).
    pose proof (Z.pow_lt_mono_r 2 bits 64 ltac:(lia) ltac:(lia) ltac:(lia)).
    rewrite Z.shiftl_mul_pow2, Z.mul_1_l, Z.mod_small by (try apply pow2_pos; lia).
    eexists _, _. split; [|done]. split; unfold MAX; lia.
Qed.

(** ** The loops *)

Lemma bits_sum_insert bs i b b' n : bs !! i = Some b -> (i < n)%nat ->
  bits_sum (<[i := b']> bs) n = bits_sum bs n + (b' - b).
Proof.
  revert i n. induction bs as [|x bs IH]; intros i n Hb Hi; [done|].
  destruct n as [|n]; [lia|]. destruct i as [|i]; cbn [lookup list_lookup] in Hb.
  - injection Hb as ->. change (<[0%nat := b']> (b :: bs)) with (b' :: bs). cbn [bits_sum]. lia.
  - change (<[S i := b']> (x :: bs)) with (x :: <[i := b']> bs). cbn [bits_sum].
    rewrite (IH i n) by (done || lia). lia.
Qed.

(** The ranges of a scan: what is below [i] is covered by the format. *)
Definition ranges_wf (los his : list Z) : Prop :=
  length los = 6%nat /\ length his = 6%nat /\
  forall j ub lo hi, unpacked_bits !! j = Some ub -> los !! j = Some lo -> his !! j = Some hi ->
    0 <= lo <= hi /\ hi <= MAX ub.

Record covers_below (i : nat) (f : bkey_format) (los his : list Z) : Prop := {
  cb_lb : length (f_bits f) = 6%nat;
  cb_lo : length (f_offset f) = 6%nat;
  cb_ok : forall j ub lo hi, (j < i)%nat -> unpacked_bits !! j = Some ub ->
    los !! j = Some lo -> his !! j = Some hi ->
    exists b o, f_bits f !! j = Some b /\ f_offset f !! j = Some o /\ field_ok ub b o lo hi
}.

Lemma lookup_6 (l : list Z) i : length l = 6%nat -> (i < 6)%nat -> exists x, l !! i = Some x.
Proof. intros. apply lookup_lt_is_Some_2. lia. Qed.

(** Replacing field [i] by a width and offset that cover its range. *)
Lemma covers_set i k f los his ub lo hi b o U nr :
  covers_below k f los his -> (i < 6)%nat ->
  unpacked_bits !! i = Some ub -> los !! i = Some lo -> his !! i = Some hi ->
  field_ok ub b o lo hi ->
  let f' := mk_bkey_format U nr (<[i := b]> (f_bits f)) (<[i := o]> (f_offset f)) in
  covers_below k f' los his /\ (k = i -> covers_below (S i) f' los his).
Proof.
  intros [Hlb Hlo Hok] Hi Hu Hl Hh Hf f'.
  assert (forall n, (forall j, (j < n)%nat -> j <> i -> (j < k)%nat) ->
    covers_below n f' los his) as Hgen.
  { intros n Hn. unfold f'. split; cbn [f_bits f_offset]; rewrite ?length_insert; try done.
    intros j ub' lo' hi' Hj Hu' Hl' Hh'. destruct (decide (j = i)) as [->|].
    - simplify_eq. exists b, o. rewrite !list_lookup_insert_eq by lia. done.
    - rewrite !list_lookup_insert_ne by done. apply (Hok j ub' lo' hi'); auto. }
  split; [apply Hgen; lia|]. intros ->. apply Hgen. lia.
Qed.

Lemma format_widths_spec st los his : length (field_min st) = 6%nat ->
  his = field_max st -> los = zip_with Z.min (field_min st) (field_max st) ->
  ranges_wf los his ->
  forall n f bits i, (i + n = 6)%nat -> covers_below i f los his ->
  (forall j, (i <= j < 6)%nat -> f_bits f !! j = Some 0) ->
  bits = KEY_PACKED_BITS_START + bits_sum (f_bits f) 6 ->
  exists f' bits', format_widths st f bits i n = Some (f', bits') /\
    covers_below 6 f' los his /\ bits' = KEY_PACKED_BITS_START + bits_sum (f_bits f') 6 /\
    f_nr_fields f' = f_nr_fields f.
Proof.
  intros Hmn -> Hlos Hr. induction n as [|n IH]; intros f bits i Hi Hc Hz Hb.
  { replace i with 6%nat in Hc by lia. by exists f, bits. }
  destruct Hr as (Hll & Hlh & Hr).
  destruct (lookup_6 (field_min st) i) as [mn Emn]; [done|lia|].
  destruct (lookup_6 (field_max st) i) as [mx Emx]; [done|lia|].
  destruct (lookup_6 unpacked_bits i) as [ub Eub]; [done|lia|].
  assert (los !! i = Some (Z.min mn mx)) as El by (by rewrite Hlos, lookup_zip_with, Emn, Emx).
  destruct (Hr i ub _ _ Eub El Emx) as [Hlo Hhi].
  pose proof (unpacked_bits_lookup _ _ Eub).
  cbn [format_widths]. rewrite Emn, Emx. cbn -[Z.pow set_format_field format_widths].
  assert (mx < 2 ^ 64) by (unfold MAX in *; destruct H as [-> | ->]; lia).
  rewrite wsub_small by (unfold in_range; lia).
  destruct (set_format_field_spec f i ub (bitlen (mx - Z.min mn mx)) (Z.min mn mx) (Z.min mn mx) mx)
    as (b & o & Hok & Hbb & ->); try done; try lia.
  { apply bitlen_nonneg. }
  { pose proof (bitlen_bound (mx - Z.min mn mx) ltac:(lia)). lia. }
  cbn -[Z.pow set_format_field format_widths].
  rewrite list_lookup_insert_eq by (rewrite (cb_lb _ _ _ _ Hc); lia).
  cbn -[Z.pow set_format_field format_widths].
  destruct (covers_set i i f los (field_max st) ub (Z.min mn mx) mx b o (f_key_u64s f) (f_nr_fields f) Hc)
    as [_ Hc']; try done; try lia. specialize (Hc' eq_refl).
  destruct (IH _ (bits + b) (S i) ltac:(lia) Hc') as (f' & bits' & -> & Hc6 & Hb6 & Hn).
  - intros j Hj. cbn. rewrite list_lookup_insert_ne by lia. apply Hz. lia.
  - cbn [f_bits]. rewrite (bits_sum_insert _ i 0) by (try apply Hz; lia). lia.
  - by exists f', bits'.
Qed.

Lemma round8 b : 0 <= b -> 0 <= (b + 7) / 8 * 8 - b < 8 /\ ((b + 7) / 8 * 8) mod 8 = 0.
Proof.
  intros. pose proof (Z.div_mod (b + 7) 8). pose proof (Z.mod_pos_bound (b + 7) 8).
  split; [lia|]. by rewrite Z.mod_mul.
Qed.

Lemma format_round_spec los his : ranges_wf los his ->
  forall n f spare i, (i + n = 6)%nat -> covers_below 6 f los his -> 0 <= spare ->
  bits_sum (f_bits f) 6 + KEY_PACKED_BITS_START + spare <= 64 * f_key_u64s f ->
  exists f', format_round f spare i n = Some f' /\ covers_below 6 f' los his /\
    bits_sum (f_bits f') 6 + KEY_PACKED_BITS_START <= 64 * f_key_u64s f' /\
    f_nr_fields f' = f_nr_fields f /\ f_key_u64s f' = f_key_u64s f.
Proof.
  intros (Hll & Hlh & Hr). induction n as [|n IH]; intros f spare i Hi Hc Hsp Hfit.
  { exists f. repeat split; try done; try apply Hc. lia. }
  destruct (lookup_6 unpacked_bits i) as [ub Eub]; [done|lia|].
  destruct (lookup_6 los i) as [lo Elo]; [done|lia|].
  destruct (lookup_6 his i) as [hi Ehi]; [done|lia|].
  destruct (cb_ok _ _ _ _ Hc i ub lo hi) as (b & o & Eb & Eo & Hok); try done; try lia.
  destruct (Hr i ub lo hi Eub Elo Ehi) as [Hlo Hhi].
  cbn [format_round]. rewrite Eb. cbn -[Z.pow set_format_field format_round].
  destruct Hok as [Hb Ho Htop Hlow Hhigh]. destruct (round8 b ltac:(lia)) as [Hx Hx8].
  set (extra := (b + 7) / 8 * 8 - b) in *.
  destruct (Z.leb_spec extra spare); [|apply IH; done || lia].
  rewrite Eo. cbn -[Z.pow set_format_field format_round].
  pose proof (pow2_le b (b + extra) ltac:(lia)).
  destruct (set_format_field_spec f i ub (b + extra) o lo hi) as (b' & o' & Hok' & Hbb & ->);
    try done; try lia.
  cbn -[Z.pow set_format_field format_round].
  destruct (IH (mk_bkey_format (f_key_u64s f) (f_nr_fields f)
                  (<[i := b']> (f_bits f)) (<[i := o']> (f_offset f))) (spare - extra) (S i))
    as (f' & ? & ? & ? & ? & ?); [lia| |lia| |by exists f'].
  - apply (covers_set i 6 f los his ub lo hi b' o' (f_key_u64s f) (f_nr_fields f)); done || lia.
  - cbn [f_bits f_key_u64s]. rewrite (bits_sum_insert _ i b) by (done || lia). lia.
Qed.

(** ** The scan covers what it has seen *)

Definition state_wf (st : bkey_format_state) : Prop :=
  length (field_min st) = 6%nat /\ length (field_max st) = 6%nat /\
  forall j ub mn mx, unpacked_bits !! j = Some ub -> field_min st !! j = Some mn ->
    field_max st !! j = Some mx -> 0 <= mn /\ 0 <= mx <= MAX ub.

(** Field [i + j] of the state contains the [j]-th value of [vs]. *)
Definition in_ranges (st : bkey_format_state) (i : nat) (vs : list Z) : Prop :=
  forall j v, vs !! j = Some v -> exists mn mx,
    field_min st !! (i + j)%nat = Some mn /\ field_max st !! (i + j)%nat = Some mx /\ mn <= v <= mx.

Definition values_wf (i : nat) (vs : list Z) : Prop :=
  forall j v, vs !! j = Some v -> exists ub, unpacked_bits !! (i + j)%nat = Some ub /\ 0 <= v <= MAX ub.

Lemma __bkey_format_add_spec st i v : state_wf st -> values_wf i [v] ->
  exists st', __bkey_format_add st i v = Some st' /\ state_wf st' /\ in_ranges st' i [v] /\
    forall i' vs, in_ranges st i' vs -> in_ranges st' i' vs.
Proof.
  intros (H1 & H2 & H3) Hv. destruct (Hv 0%nat v eq_refl) as (ub & Eub & Hr).
  rewrite Nat.add_0_r in Eub. pose proof (lookup_lt_Some _ _ _ Eub) as Hi. cbn in Hi.
  destruct (lookup_6 (field_min st) i) as [mn Emn]; [done|lia|].
  destruct (lookup_6 (field_max st) i) as [mx Emx]; [done|lia|].
  unfold __bkey_format_add. rewrite Emn, Emx. eexists; split; [reflexivity|].
  destruct (H3 i ub mn mx Eub Emn Emx) as [? ?].
  split; [|split].
  - split; [|split]; cbn [field_min field_max]; rewrite ?length_insert; try done.
    intros j ub' mn' mx' Eub' Emn' Emx'. destruct (decide (j = i)) as [->|].
    + rewrite list_lookup_insert_eq in Emn', Emx' by lia. simplify_eq. lia.
    + rewrite list_lookup_insert_ne in Emn', Emx' by done. by eapply H3.
  - intros [|j] w Hw; [|done]. injection Hw as <-. cbn [field_min field_max].
    rewrite Nat.add_0_r, !list_lookup_insert_eq by lia. eexists _, _. split; [done|].
    split; [done|]. lia.
  - intros i' vs Hin j w Hw. destruct (Hin j w Hw) as (mn' & mx' & E1 & E2 & ?).
    cbn [field_min field_max]. destruct (decide (i' + j = i)%nat) as [Heq|].
    + rewrite Heq in *. rewrite !list_lookup_insert_eq by lia. simplify_eq.
      eexists _, _. split; [done|]. split; [done|]. lia.
    + rewrite !list_lookup_insert_ne by done. by exists mn', mx'.
Qed.

Lemma format_add_fields_spec vs : forall st i, state_wf st -> values_wf i vs ->
  exists st', format_add_fields st i vs = Some st' /\ state_wf st' /\ in_ranges st' i vs /\
    forall i' vs', in_ranges st i' vs' -> in_ranges st' i' vs'.
Proof.
  induction vs as [|v vs IH]; intros st i Hst Hv; cbn [format_add_fields].
  { exists st. split; [done|]. split; [done|]. split; [by intros j v [=]|done]. }
  destruct (__bkey_format_add_spec st i v Hst) as (st1 & -> & Hst1 & Hin1 & Hm1).
  { intros [|j] w Hw; [|done]. by apply (Hv 0%nat). }
  destruct (IH st1 (S i) Hst1) as (st' & E & Hst' & Hin' & Hm').
  { intros j w Hw. replace (S i + j)%nat with (i + S j)%nat by lia. by apply (Hv (S j)). }
  exists st'. cbn. split; [done|]. split; [done|]. split; [|by eauto].
  intros [|j] w Hw.
  - by apply (Hm' i [v] Hin1 0%nat).
  - replace (i + S j)%nat with (S i + j)%nat by lia. by apply Hin'.
Qed.

Lemma init_wf : state_wf bch2_bkey_format_init.
Proof.
  split; [done|]. split; [done|]. intros j ub mn mx Hu Hn Hx.
  destruct (unpacked_bits_lookup _ _ Hu) as [-> | ->];
  do 6 (destruct j as [|j]; [cbn in *; simplify_eq; unfold MAX; lia|]); done.
Qed.

(** What the scan reads: whole keys and bare positions. *)
Definition scan_values (x : bkey + bpos) : list Z :=
  match x with
  | inl k => bkey_field_values k
  | inr p => [inode p; offset p; snapshot p]
  end.

Definition scan_wf (x : bkey + bpos) : Prop :=
  match x with inl k => bkey_wf k | inr p => bpos_wf p end.

Definition scan_add (st : bkey_format_state) (x : bkey + bpos) : option bkey_format_state :=
  match x with
  | inl k => bch2_bkey_format_add_key st k
  | inr p => bch2_bkey_format_add_pos st p
  end.

Fixpoint scan (st : bkey_format_state) (xs : list (bkey + bpos)) : option bkey_format_state :=
  match xs with
  | [] => Some st
  | x :: xs => st ← scan_add st x; scan st xs
  end.

Lemma scan_values_wf x : scan_wf x -> values_wf 0 (scan_values x).
Proof.
  destruct x as [k|p]; cbn.
  - intros (_ & _ & _ & [? ?] & ? & ? & ? & ?) j v Hj. unfold in_range, MAX in *.
    do 6 (destruct j as [|j]; [cbn in *; simplify_eq; eexists; split; [done|lia]|]). done.
  - intros (? & ? & ?) j v Hj. unfold in_range, MAX in *.
    do 3 (destruct j as [|j]; [cbn in *; simplify_eq; eexists; split; [done|lia]|]). done.
Qed.

Lemma scan_spec xs : forall st, state_wf st -> Forall scan_wf xs ->
  exists st', scan st xs = Some st' /\ state_wf st' /\
    Forall (fun x => in_ranges st' 0 (scan_values x)) xs /\
    forall i vs, in_ranges st i vs -> in_ranges st' i vs.
Proof.
  induction xs as [|x xs IH]; intros st Hst Hxs; cbn [scan].
  { exists st. split; [done|]. split; [done|]. split; [by apply Forall_nil_2|done]. }
  apply Forall_cons_1 in Hxs as [Hx Hxs].
  assert (scan_add st x = format_add_fields st 0 (scan_values x)) as -> by (by destruct x).
  destruct (format_add_fields_spec (scan_values x) st 0 Hst (scan_values_wf x Hx))
    as (st1 & -> & Hst1 & Hin1 & Hm1). cbn.
  destruct (IH st1 Hst1 Hxs) as (st' & E & Hst' & Hall & Hm').
  exists st'. split; [done|]. split; [done|]. split; [|by eauto].
  apply Forall_cons_2; [by apply Hm'|done].
Qed.

(** ** The format of a scan *)

Lemma fields_fit_lookup vs : forall bs os, (length vs <= length bs)%nat -> (length vs <= length os)%nat ->
  (forall j v b o, vs !! j = Some v -> bs !! j = Some b -> os !! j = Some o ->
     o <= v /\ bitlen (v - o) <= b) ->
  fields_fit bs os vs = true.
Proof.
  induction vs as [|v vs IH]; intros [|b bs] [|o os] Hb Ho H; cbn in Hb, Ho; try done; try lia.
  cbn [fields_fit]. destruct (H 0%nat v b o eq_refl eq_refl eq_refl).
  rewrite !andb_true_iff, !Z.leb_le. split; [done|].
  apply IH; [lia..|]. intros j v' b' o' E1 E2 E3. by apply (H (S j)).
Qed.

Lemma covers_format_wf f los his : covers_below 6 f los his -> length los = 6%nat ->
  length his = 6%nat -> f_nr_fields f = BKEY_NR_FIELDS -> 1 <= f_key_u64s f <= 5 ->
  bits_sum (f_bits f) 6 + KEY_PACKED_BITS_START <= 64 * f_key_u64s f -> format_wf f.
Proof.
  intros [Hlb Hlo Hok] Hll Hlh Hn HU Hfit.
  assert (forall j ub, unpacked_bits !! j = Some ub -> exists b o,
    f_bits f !! j = Some b /\ f_offset f !! j = Some o /\ 0 <= b <= ub /\ 0 <= o /\
    o + (2 ^ b - 1) <= MAX ub) as Hj.
  { intros j ub Eub. pose proof (lookup_lt_Some _ _ _ Eub) as Hi. cbn in Hi.
    destruct (lookup_6 los j) as [lo Elo]; [done..|].
    destruct (lookup_6 his j) as [hi Ehi]; [done..|].
    destruct (Hok j ub lo hi Hi Eub Elo Ehi) as (b & o & ? & ? & [? ? ? ? ?]).
    exists b, o. done. }
  split; try done.
  - apply Forall2_same_length_lookup. split; [done|].
    intros j b ub Eb Eub. destruct (Hj j ub Eub) as (b' & o & ? & ? & ?). simplify_eq. lia.
  - apply Forall_lookup. intros j [[o b] ub] E.
    apply lookup_zip_with_Some in E as ([o' b'] & ub' & ? & E & Eub).
    apply lookup_zip_with_Some in E as (o'' & b'' & ? & Eo & Eb). simplify_eq.
    destruct (Hj j ub' Eub) as (b & o & ? & ? & ?). simplify_eq. lia.
Qed.

Lemma bits_sum_bound f los his : covers_below 6 f los his -> length los = 6%nat ->
  length his = 6%nat -> 0 <= bits_sum (f_bits f) 6 <= 288.
Proof.
  intros [Hlb Hlo Hok] Hll Hlh.
  assert (forall j b ub, f_bits f !! j = Some b -> unpacked_bits !! j = Some ub -> 0 <= b <= ub) as Hj.
  { intros j b ub Eb Eub. pose proof (lookup_lt_Some _ _ _ Eub) as Hi. cbn in Hi.
    destruct (lookup_6 los j) as [lo Elo]; [done..|].
    destruct (lookup_6 his j) as [hi Ehi]; [done..|].
    destruct (Hok j ub lo hi Hi Eub Elo Ehi) as (b' & o & ? & ? & [? ? ? ? ?]). simplify_eq. done. }
  destruct (f_bits f) as [|b0 [|b1 [|b2 [|b3 [|b4 [|b5 [|]]]]]]]; try done.
  pose proof (Hj 0%nat _ _ eq_refl eq_refl). pose proof (Hj 1%nat _ _ eq_refl eq_refl).
  pose proof (Hj 2%nat _ _ eq_refl eq_refl). pose proof (Hj 3%nat _ _ eq_refl eq_refl).
  pose proof (Hj 4%nat _ _ eq_refl eq_refl). pose proof (Hj 5%nat _ _ eq_refl eq_refl).
  cbn. lia.
Qed.

Lemma bch2_bkey_format_done_spec st : state_wf st ->
  exists f, bch2_bkey_format_done st = Some f /\ format_wf f /\
    covers_below 6 f (zip_with Z.min (field_min st) (field_max st)) (field_max st).
Proof.
  intros (H1 & H2 & H3). set (los := zip_with _ _ _).
  assert (length los = 6%nat) as Hll by (unfold los; rewrite length_zip_with; lia).
  assert (ranges_wf los (field_max st)) as Hr.
  { split; [done|]. split; [done|]. intros j ub lo hi Eub El Eh. unfold los in El.
    rewrite lookup_zip_with, Eh in El. destruct (field_min st !! j) as [mn|] eqn:Emn; [|done].
    cbn in El. simplify_eq. destruct (H3 j ub mn hi Eub Emn Eh). lia. }
  unfold bch2_bkey_format_done.
  destruct (format_widths_spec st los (field_max st) H1 eq_refl eq_refl Hr 6
    (mk_bkey_format 0 BKEY_NR_FIELDS (replicate 6 0) (replicate 6 0)) KEY_PACKED_BITS_START 0)
    as (f & bits & -> & Hc & Hb & Hn); try done.
  { split; cbn; try done. lia. }
  { intros j Hj. cbn [f_bits]. apply lookup_replicate_2. lia. }
  cbn -[Z.pow Z.div format_round].
  pose proof (bits_sum_bound f los (field_max st) Hc Hll H2).
  unfold KEY_PACKED_BITS_START in *.
  set (U := (bits + 63) / 64). pose proof (Z.div_mod (bits + 63) 64).
  pose proof (Z.mod_pos_bound (bits + 63) 64).
  destruct (format_round_spec los (field_max st) Hr 6
    (mk_bkey_format U (f_nr_fields f) (f_bits f) (f_offset f)) (U * 64 - bits) 0)
    as (f' & -> & Hc' & Hfit & Hn' & HU); try done; cbn [f_bits f_key_u64s]; try lia.
  { split; cbn; apply Hc. }
  { unfold KEY_PACKED_BITS_START. lia. }
  exists f'. split; [done|]. split; [|done].
  eapply covers_format_wf; try done; [by rewrite Hn'|]. rewrite HU. cbn [f_key_u64s]. lia.
Qed.

Lemma covered_values_fit st f vs : format_wf f -> state_wf st -> in_ranges st 0 vs ->
  (length vs <= 6)%nat ->
  covers_below 6 f (zip_with Z.min (field_min st) (field_max st)) (field_max st) ->
  fields_fit (f_bits f) (f_offset f) vs = true.
Proof.
  intros Hf Hst Hin Hlen [Hlb Hlo Hok]. apply fields_fit_lookup; [lia..|].
  intros j v b o Ev Eb Eo. destruct (Hin j v Ev) as (mn & mx & Emn & Emx & Hv). cbn in Emn, Emx.
  pose proof (lookup_lt_Some _ _ _ Ev). destruct (lookup_6 unpacked_bits j) as [ub Eub]; [done|lia|].
  destruct (Hok j ub (Z.min mn mx) mx) as (b' & o' & ? & ? & [? ? ? ? ?]); try done; try lia.
  { by rewrite lookup_zip_with, Emn, Emx. }
  simplify_eq. split; [lia|]. apply bitlen_le; lia.
Qed.

(** ** Properties *)

(** C34: Scanning any sequence of keys and positions and finishing the format
    never panics; the format is well formed (so packing, comparing and
    searching in it are correct), every scanned key packs in it and every
    scanned position is packable. *)
Theorem format_done_fits (xs : list (bkey + bpos)) :
  Forall scan_wf xs ->
  exists st f, scan bch2_bkey_format_init xs = Some st /\ bch2_bkey_format_done st = Some f /\
    format_wf f /\
    Forall (fun x => match x with
                     | inl k => key_fits f k = true
                     | inr p => packable f p
                     end) xs.
Proof.
  intros Hxs. destruct (scan_spec xs _ init_wf Hxs) as (st & Hs & Hst & Hin & _).
  destruct (bch2_bkey_format_done_spec st Hst) as (f & Hd & Hf & Hc).
  exists st, f. split; [done|]. split; [done|]. split; [done|].
  apply Forall_forall. intros x Hx. rewrite Forall_forall in Hin, Hxs.
  specialize (Hin x Hx). specialize (Hxs x Hx).
  destruct x as [k|p]; cbn in Hin; [|split; [done|]];
    apply (covered_values_fit st); done || (cbn; lia).
Qed.

Lemma format_done_fits_witness :
  exists st f, scan bch2_bkey_format_init [inl example_key; inr (SPOS 5000 9 0)] = Some st /\
    bch2_bkey_format_done st = Some f /\ key_fits f example_key = true.
Proof.
  destruct (format_done_fits [inl example_key; inr (SPOS 5000 9 0)]) as (st & f & H1 & H2 & _ & H3).
  - repeat constructor; done.
  - exists st, f. split; [exact H1|]. split; [exact H2|]. inversion H3; assumption.
Defined.

Lemma field_mask b : 0 <= b <= 64 ->
  (if b =? 0 then Some 0 else if b =? 64 then Some (MAX 64)
   else m ← ushl 64 1 b; Some (m - 1)) = Some (2 ^ b - 1).
Proof.
  intros. destruct (Z.eqb_spec b 0) as [->|]; [done|].
  destruct (Z.eqb_spec b 64) as [->|]; [done|].
  rewrite ushl_ok by lia. cbn -[Z.pow].
  pose proof (Z.pow_lt_mono_r 2 b 64 ltac:(lia) ltac:(lia) ltac:(lia)).
  rewrite Z.shiftl_mul_pow2, Z.mul_1_l, Z.mod_small by (try apply pow2_pos; lia). done.
Qed.

(** The overflow test accepts exactly the fields that are no wider than
    their unpacked counterpart (offset 0 when as wide) and whose largest
    value does not exceed the unpacked maximum. *)
Theorem format_field_overflows_iff (f : bkey_format) (i : nat) (b o ub : Z) :
  field_bits f i = Some b -> field_off f i = Some o -> unpacked_bits !! i = Some ub ->
  0 <= b -> 0 <= o <= MAX ub ->
  bch2_bkey_format_field_overflows f i = Some false <->
  b <= ub /\ (b = ub -> o = 0) /\ o + (2 ^ b - 1) <= MAX ub.
Proof.
  intros Eb Eo Eub Hb Ho. unfold bch2_bkey_format_field_overflows. rewrite Eb, Eub, Eo.
  cbn -[Z.pow ushl wadd Z.land].
  assert (0 <= ub <= 64) as Hub by (destruct (unpacked_bits_lookup _ _ Eub); lia).
  assert ((if ub =? 64 then Some (MAX 64) else m ← ushl 64 1 ub; Some (m - 1)) = Some (Z.ones ub))
    as -> by (destruct (unpacked_bits_lookup _ _ Eub) as [-> | ->]; reflexivity).
  cbn -[Z.pow ushl wadd Z.land Z.ones].
  destruct (Z.ltb_spec ub b); [split; [done|lia]|].
  destruct (Z.eqb_spec b ub), (Z.eqb_spec o 0); cbn -[Z.pow ushl wadd Z.land Z.ones];
    try (split; [done|tauto]);
    (rewrite field_mask by lia; cbn -[Z.pow wadd Z.land Z.ones]; rewrite Z.land_ones by lia);
    pose proof (pow2_le b ub ltac:(lia)); pose proof (pow2_pos b ltac:(lia));
    pose proof (pow2_le ub 64 ltac:(lia)); unfold wadd, MAX in *;
    rewrite mod_mod_pow2 by lia;
    (destruct (Z.lt_ge_cases (o + (2 ^ b - 1)) (2 ^ ub)) as [Hlt|Hge];
     [rewrite Z.mod_small by lia
     |replace (o + (2 ^ b - 1)) with (o + (2 ^ b - 1) - 2 ^ ub + 1 * 2 ^ ub) by lia;
      rewrite Z.mod_add, Z.mod_small by lia]);
    match goal with |- context [?x <? ?y] => destruct (Z.ltb_spec x y) end;
    split; intros; try done; try lia; exfalso; lia.
Qed.

Lemma format_field_overflows_iff_witness :
  bch2_bkey_format_field_overflows example_format 0 = Some false.
Proof.
  apply (format_field_overflows_iff example_format 0 16 1000 64); try reflexivity; try lia;
    unfold MAX; try lia.
Defined.
