(* ===== verification/Eytzinger.v ===== *)
(** * The eytzinger layout ([util/eytzinger.rs])

    A sorted array of [size] elements stored as an implicit binary tree:
    the children of slot [i] are the slots [2 i] and [2 i + 1], slot 1 is
    the root.  The functions of the source map slots to in-order positions
    and back and walk the slots in order.

    The reference is the position [full_pos] of a slot in the in-order
    numbering of the complete tree of the same height.  The slots present in
    the bottom level are a prefix of it, so the in-order position drops the
    missing leaves, which are every second position above [extra]. *)

From stdpp Require Import base tactics option.
From Stdlib Require Import ZArith Lia.
From S2P Require Import Prelude.

Open Scope Z_scope.

Definition eytzinger1_child (i child : Z) : option Z :=
  _ ← assert (child <=? 1);
  i ← ushl 32 i 1;
  uadd 32 i child.

Definition eytzinger1_left_child (i : Z) : option Z := eytzinger1_child i 0.
Definition eytzinger1_right_child (i : Z) : option Z := eytzinger1_child i 1.

(** [31 - v.leading_zeros()]: the index of the highest set bit. *)
Definition high_bit (v : Z) : option Z := usub 31 (leading_zeros 32 v).

Definition rounddown_pow_of_two (v : Z) : option Z :=
  if v =? 0 then Some 0 else h ← high_bit v; ushl 32 1 h.

Definition eytzinger1_first (size : Z) : option Z := rounddown_pow_of_two size.

Definition eytzinger1_last (size : Z) : option Z :=
  s ← uadd 32 size 1;
  p ← rounddown_pow_of_two s;
  usub p 1.

Definition eytzinger1_next (i size : Z) : option Z :=
  _ ← assert (negb (i =? 0) && (i <=? size));
  r ← eytzinger1_right_child i;
  if r <=? size then
    hs ← high_bit size;
    hi ← high_bit r;
    n ← usub hs hi;
    i ← ushl 32 r n;
    ushr 32 i (if size <? i then 1 else 0)
  else ushr 32 i (trailing_ones i + 1).

Definition eytzinger1_prev (i size : Z) : option Z :=
  _ ← assert (negb (i =? 0) && (i <=? size));
  l ← eytzinger1_left_child i;
  if l <=? size then
    i ← uadd 32 l 1;
    hs ← high_bit size;
    hi ← high_bit i;
    n ← usub hs hi;
    i ← ushl 32 i n;
    i ← usub i 1;
    ushr 32 i (if size <? i then 1 else 0)
  else ushr 32 i (trailing_zeros 32 i + 1).

Definition eytzinger1_extra (size : Z) : option Z :=
  if negb (size =? 0) then
    s ← uadd 32 size 1;
    p ← rounddown_pow_of_two size;
    d ← usub s p;
    ushl 32 d 1
  else Some 0.

Definition __eytzinger1_to_inorder (i size extra : Z) : option Z :=
  _ ← assert (negb (i =? 0) && (i <=? size));
  b ← high_bit i;
  hs ← high_bit size;
  shift ← usub hs b;
  bit ← ushl 32 1 b;
  i ← ushl 32 (Z.lxor i bit) 1;
  i ← ushl 32 (Z.lor i 1) shift;
  if extra <? i then
    d ← usub i extra;
    usub i (Z.shiftr d 1)
  else Some i.

Definition __inorder_to_eytzinger1 (i size extra : Z) : option Z :=
  _ ← assert (negb (i =? 0) && (i <=? size));
  i ← (if extra <? i then d ← usub i extra; uadd 32 i d else Some i);
  let shift := trailing_zeros 32 i in
  q ← ushr 32 i (shift + 1);
  hs ← high_bit size;
  n ← usub hs shift;
  bit ← ushl 32 1 n;
  Some (Z.lor q bit).

Definition eytzinger1_to_inorder (i size : Z) : option Z :=
  extra ← eytzinger1_extra size;
  __eytzinger1_to_inorder i size extra.

Definition inorder_to_eytzinger1 (i size : Z) : option Z :=
  extra ← eytzinger1_extra size;
  __inorder_to_eytzinger1 i size extra.

(** ** Machine arithmetic on values in range *)

Lemma high_bit_ok v : 0 < v < 2 ^ 32 -> high_bit v = Some (Z.log2 v).
Proof.
  intros Hv. unfold high_bit, leading_zeros, bitlen.
  destruct (Z.eqb_spec v 0); [lia|].
  pose proof (Z.log2_nonneg v).
  rewrite usub_ok by lia. f_equal; lia.
Qed.

(** [v = q 1 0^t] and [v = q 0 1^t] in binary. *)
Lemma trailing_zeros_spec v : 0 < v -> exists q t,
  0 <= q /\ 0 <= t /\ trailing_zeros 32 v = t /\ v = (2 * q + 1) * 2 ^ t.
Proof.
  destruct v as [|p|p]; try lia. intros _. cbn [trailing_zeros].
  induction p as [p _|p IH|].
  - exists (Z.pos p), 0. cbn. lia.
  - destruct IH as (q & t & ? & ? & Ht & Hv). exists q, (1 + t). cbn [pos_ctz].
    rewrite pow2_split by lia. rewrite Pos2Z.inj_xO, Hv. lia.
  - by exists 0, 0.
Qed.

Lemma trailing_ones_spec v : 0 < v -> exists q t,
  0 <= q /\ 0 <= t /\ trailing_ones v = t /\ v = 2 * q * 2 ^ t + (2 ^ t - 1).
Proof.
  destruct v as [|p|p]; try lia. intros _. cbn [trailing_ones].
  induction p as [p IH|p _|].
  - destruct IH as (q & t & ? & ? & Ht & Hv). exists q, (1 + t). cbn [pos_cto].
    rewrite pow2_split by lia. rewrite Pos2Z.inj_xI, Hv. lia.
  - exists (Z.pos p), 0. cbn. lia.
  - by exists 0, 1.
Qed.

Lemma trailing_zeros_odd q t : 0 <= q -> 0 <= t -> trailing_zeros 32 ((2 * q + 1) * 2 ^ t) = t.
Proof.
  intros Hq Ht. pose proof (pow2_pos t Ht).
  destruct (trailing_zeros_spec ((2 * q + 1) * 2 ^ t)) as (q' & t' & ? & ? & Ht' & Hv); [nia|].
  rewrite Ht'. destruct (Z.lt_trichotomy t t') as [Hlt|[->|Hlt]]; [|done|].
  - replace t' with (t + 1 + (t' - t - 1)) in Hv by lia. rewrite !pow2_split in Hv by lia.
    assert (2 * q + 1 = (2 * q' + 1) * 2 * 2 ^ (t' - t - 1)); nia.
  - replace t with (t' + 1 + (t - t' - 1)) in Hv by lia. rewrite !pow2_split in Hv by lia.
    pose proof (pow2_pos t'). assert (2 * q' + 1 = (2 * q + 1) * 2 * 2 ^ (t - t' - 1)); nia.
Qed.

(** ** The complete tree *)

(** [L] is the height of the tree and [b] the level of slot [i]. *)
Definition full_pos (L b i : Z) : Z := (2 * (i - 2 ^ b) + 1) * 2 ^ (L - b).

(** Removing the missing leaves, every second position above [extra]. *)
Definition squeeze (extra J : Z) : Z := if extra <? J then (J + extra) / 2 else J.

Definition spread (extra r : Z) : Z := if extra <? r then 2 * r - extra else r.

Definition slot_ok (size i : Z) : Prop := 0 < i <= size.

(** A tree the source can index: it keeps at most [u16::MAX] slots. *)
Definition size_ok (size : Z) : Prop := 0 < size < 2 ^ 31 - 1.

Section Tree.
Context (size : Z) (Hsize : size_ok size).

Let L := Z.log2 size.
Let extra := 2 * (size + 1 - 2 ^ L).

Lemma L_bounds : 0 <= L < 31 /\ 2 ^ L <= size < 2 * 2 ^ L.
Proof.
  unfold size_ok in Hsize. pose proof (Z.log2_nonneg size).
  pose proof (Z.log2_spec size ltac:(lia)) as Hs. fold L in Hs, H.
  rewrite Z.pow_succ_r in Hs by lia.
  assert (L < 31) by (apply Z.log2_lt_pow2; lia). lia.
Qed.

Lemma pow_L : 2 * 2 ^ L <= 2 ^ 31.
Proof. destruct L_bounds. rewrite <- Z.pow_succ_r by lia. apply pow2_le. lia. Qed.

Lemma level_bounds i : slot_ok size i ->
  0 <= Z.log2 i <= L /\ 2 ^ Z.log2 i <= i < 2 * 2 ^ Z.log2 i /\
  2 ^ L = 2 ^ Z.log2 i * 2 ^ (L - Z.log2 i) /\ 0 < 2 ^ (L - Z.log2 i).
Proof.
  intros Hi. unfold slot_ok in Hi. pose proof (Z.log2_nonneg i).
  pose proof (Z.log2_spec i ltac:(lia)) as Hs. rewrite Z.pow_succ_r in Hs by lia.
  pose proof (Z.log2_le_mono i size ltac:(lia)). fold L in H0.
  rewrite <- pow2_split by lia. replace (Z.log2 i + (L - Z.log2 i)) with L by lia.
  pose proof (pow2_pos (L - Z.log2 i) ltac:(lia)). lia.
Qed.

Lemma extra_spec : eytzinger1_extra size = Some extra.
Proof.
  pose proof L_bounds. pose proof pow_L. pose proof Hsize as Hs. unfold size_ok in Hs.
  unfold eytzinger1_extra, rounddown_pow_of_two. destruct (Z.eqb_spec size 0); [lia|].
  cbn [negb]. rewrite uadd_ok by lia. bind_simpl.
  rewrite high_bit_ok by lia. bind_simpl. fold L.
  rewrite ushl_small by lia. bind_simpl. rewrite usub_ok by lia. bind_simpl.
  rewrite ushl_small by lia. f_equal. unfold extra. lia.
Qed.

Lemma full_pos_bounds i : slot_ok size i -> 0 < full_pos L (Z.log2 i) i < 2 * 2 ^ L.
Proof. intros Hi. destruct (level_bounds i Hi) as (? & ? & -> & ?). unfold full_pos. nia. Qed.

(** Slots of the bottom level are below [extra], the others are at even
    positions. *)
Lemma full_pos_level i : slot_ok size i ->
  (Z.log2 i = L /\ full_pos L (Z.log2 i) i < extra) \/
  (Z.log2 i < L /\ exists h, full_pos L (Z.log2 i) i = 2 * h).
Proof.
  intros Hi. destruct (level_bounds i Hi) as (? & ? & ? & ?). unfold slot_ok in Hi.
  destruct (Z.eq_dec (Z.log2 i) L) as [E|E].
  - left. split; [done|]. unfold full_pos, extra. rewrite E, Z.sub_diag. cbn. lia.
  - right. split; [lia|]. unfold full_pos.
    replace (L - Z.log2 i) with (1 + (L - Z.log2 i - 1)) by lia.
    rewrite pow2_split by lia. change (2 ^ 1) with 2. eexists. rewrite Z.mul_assoc, (Z.mul_comm _ 2).
    rewrite <- Z.mul_assoc. reflexivity.
Qed.

Lemma extra_bounds : 2 <= extra <= 2 * 2 ^ L.
Proof. pose proof L_bounds. unfold extra. lia. Qed.

Lemma to_inorder_spec i : slot_ok size i ->
  __eytzinger1_to_inorder i size extra = Some (squeeze extra (full_pos L (Z.log2 i) i)).
Proof.
  intros Hi. pose proof (full_pos_bounds i Hi). pose proof (full_pos_level i Hi) as Hl.
  destruct (level_bounds i Hi) as (Hb & Hi' & HL & ?).
  pose proof L_bounds. pose proof pow_L. pose proof extra_bounds.
  unfold slot_ok, size_ok in *.
  unfold __eytzinger1_to_inorder. destruct (Z.eqb_spec i 0); [lia|].
  destruct (Z.leb_spec i size); [|lia]. cbn [negb andb assert]. bind_simpl.
  rewrite !high_bit_ok by lia. bind_simpl. fold L. rewrite usub_ok by lia. bind_simpl.
  rewrite ushl_small by lia. bind_simpl. rewrite Z.mul_1_l.
  assert (Z.lxor i (2 ^ Z.log2 i) = i - 2 ^ Z.log2 i) as ->.
  { rewrite Z.sub_nocarry_ldiff.
    - apply Z.bits_inj'. intros k Hk. rewrite Z.lxor_spec, Z.ldiff_spec, Z.pow2_bits_eqb by lia.
      destruct (Z.eqb_spec (Z.log2 i) k) as [<-|]; [rewrite Z.bit_log2 by lia; done|].
      by destruct (Z.testbit i k).
    - apply Z.bits_inj'. intros k Hk. rewrite Z.ldiff_spec, Z.pow2_bits_eqb, Z.bits_0 by lia.
      destruct (Z.eqb_spec (Z.log2 i) k) as [<-|]; [rewrite Z.bit_log2 by lia; done|done]. }
  rewrite ushl_small by lia. bind_simpl.
  rewrite (lor_high_low _ 1 1) by lia. change (2 ^ 1) with 2.
  rewrite ushl_small by (unfold full_pos in *; lia). bind_simpl.
  rewrite (Z.mul_comm (i - _) 2). fold (full_pos L (Z.log2 i) i).
  unfold squeeze. destruct (Z.ltb_spec extra (full_pos L (Z.log2 i) i)); [|done].
  rewrite usub_ok by lia. bind_simpl. rewrite Z.shiftr_div_pow2 by lia. change (2 ^ 1) with 2.
  destruct Hl as [|[_ [h Hh]]]; [lia|]. rewrite Hh in *.
  assert (exists e, extra = 2 * e) as [e He] by (by eexists). rewrite He in *.
  replace (2 * h - 2 * e) with ((h - e) * 2) by lia. rewrite Z.div_mul by lia.
  replace (2 * h + 2 * e) with ((h + e) * 2) by lia. rewrite Z.div_mul by lia.
  rewrite usub_ok by lia. f_equal. lia.
Qed.

Lemma squeeze_bounds i : slot_ok size i ->
  slot_ok size (squeeze extra (full_pos L (Z.log2 i) i)) /\
  spread extra (squeeze extra (full_pos L (Z.log2 i) i)) = full_pos L (Z.log2 i) i.
Proof.
  intros Hi. pose proof (full_pos_bounds i Hi). pose proof (full_pos_level i Hi) as Hl.
  pose proof L_bounds. pose proof extra_bounds. set (J := full_pos _ _ _) in *.
  unfold slot_ok, squeeze, spread. destruct (Z.ltb_spec extra J).
  - destruct Hl as [|[_ [h Hh]]]; [lia|]. rewrite Hh in *.
    unfold extra in *. replace (2 * h + 2 * _) with ((h + (size + 1 - 2 ^ L)) * 2) by lia.
    rewrite Z.div_mul by lia.
    destruct (Z.ltb_spec (2 * (size + 1 - 2 ^ L)) (h + (size + 1 - 2 ^ L))); lia.
  - split; [|destruct (Z.ltb_spec extra J); lia]. unfold extra in *. lia.
Qed.

(** The position [J] of the complete tree, decomposed, gives the slot. *)
Lemma to_eytzinger_spec r : slot_ok size r ->
  exists i, slot_ok size i /\ __inorder_to_eytzinger1 r size extra = Some i /\
    full_pos L (Z.log2 i) i = spread extra r.
Proof.
  intros Hr. pose proof L_bounds. pose proof pow_L. pose proof extra_bounds.
  unfold slot_ok, size_ok in *. unfold __inorder_to_eytzinger1.
  destruct (Z.eqb_spec r 0); [lia|]. destruct (Z.leb_spec r size); [|lia].
  cbn [negb andb assert]. bind_simpl.
  assert ((if extra <? r then d ← usub r extra; uadd 32 r d else Some r) = Some (spread extra r)) as ->.
  { unfold spread. destruct (Z.ltb_spec extra r); [|done].
    rewrite usub_ok by lia. bind_simpl. rewrite uadd_ok; [f_equal; lia|].
    unfold extra in *. lia. }
  bind_simpl. set (J := spread extra r).
  assert (0 < J < 2 * 2 ^ L /\ (extra < J -> exists h, J = 2 * h)) as [HJ Hev].
  { unfold J, spread, extra in *. destruct (Z.ltb_spec (2 * (size + 1 - 2 ^ L)) r).
    - split; [lia|]. intros _. exists (r - (size + 1 - 2 ^ L)). lia.
    - split; [|lia]. lia. }
  destruct (trailing_zeros_spec J) as (q & t & Hq & Ht & HT & Hd); [lia|]. rewrite HT.
  pose proof (pow2_pos t Ht) as Hpt.
  assert (t <= L) as HtL.
  { destruct (Z.le_gt_cases t L); [done|]. pose proof (pow2_le (L + 1) t ltac:(lia)) as Hpp.
    rewrite Z.pow_add_r in Hpp by lia. nia. }
  assert (2 ^ L = 2 ^ (L - t) * 2 ^ t) as HpL by (rewrite <- pow2_split by lia; f_equal; lia).
  assert (q < 2 ^ (L - t)) by nia.
  rewrite ushr_div by lia. bind_simpl. rewrite high_bit_ok by lia. bind_simpl. fold L.
  rewrite usub_ok by lia. bind_simpl. pose proof (pow2_le (L - t) L ltac:(lia)).
  rewrite ushl_small by lia. bind_simpl. rewrite Z.mul_1_l.
  assert (J / 2 ^ (t + 1) = q) as ->.
  { rewrite Z.add_comm, pow2_split, Hd by lia. change (2 ^ 1) with 2.
    rewrite Z.div_mul_cancel_r by lia. symmetry. apply (Z.div_unique _ _ q 1); lia. }
  pose proof (lor_low_high 1 q (L - t) ltac:(lia) ltac:(lia)) as Hlor. rewrite Z.mul_1_l in Hlor.
  rewrite Hlor. exists (2 ^ (L - t) + q).
  assert (Z.log2 (2 ^ (L - t) + q) = L - t) as Hlog.
  { apply Z.log2_unique'  with (c := q); lia. }
  rewrite Hlog. assert (full_pos L (L - t) (2 ^ (L - t) + q) = J) as HfJ.
  { unfold full_pos. rewrite Hd. replace (L - (L - t)) with t by lia. f_equal. lia. }
  split; [|done].
  split; [lia|]. destruct (Z.eq_dec t 0) as [->|].
  - rewrite Z.sub_0_r. cbn [Z.pow Z.pow_pos] in Hd. unfold extra in *.
    destruct (Z.lt_ge_cases extra J) as [Hx|Hx]; [destruct (Hev Hx)|unfold extra in Hx]; lia.
  - pose proof (pow2_le (L - t + 1) L ltac:(lia)) as Hp1.
    rewrite Z.pow_add_r in Hp1 by lia. lia.
Qed.

Lemma full_pos_inj i i' : slot_ok size i -> slot_ok size i' ->
  full_pos L (Z.log2 i) i = full_pos L (Z.log2 i') i' -> i = i'.
Proof.
  intros Hi Hi'. destruct (level_bounds i Hi) as (? & ? & _ & Hp).
  destruct (level_bounds i' Hi') as (? & ? & _ & _). unfold full_pos. intros E.
  assert (Z.log2 i = Z.log2 i') as Hlog.
  { pose proof (trailing_zeros_odd (i - 2 ^ Z.log2 i) (L - Z.log2 i)).
    pose proof (trailing_zeros_odd (i' - 2 ^ Z.log2 i') (L - Z.log2 i')).
    rewrite E in *. lia. }
  rewrite Hlog in *. nia.
Qed.

Definition inorder (i : Z) : Z := squeeze extra (full_pos L (Z.log2 i) i).

(** A slot at the next position of the complete tree, or two further when
    the next one is a missing leaf, is next in order. *)
Lemma inorder_next i i' : slot_ok size i -> slot_ok size i' ->
  let J := full_pos L (Z.log2 i) i in
  let J' := full_pos L (Z.log2 i') i' in
  (J' = J + 1 /\ (J <= extra /\ J' <= extra)) \/ (J' = J + 2 /\ extra <= J) ->
  inorder i' = inorder i + 1.
Proof.
  intros Hi Hi' J J' HJ. unfold inorder, squeeze. fold J J'.
  pose proof (full_pos_level i Hi) as Hl. pose proof (full_pos_level i' Hi') as Hl'.
  fold J in Hl. fold J' in Hl'.
  destruct HJ as [[-> [? ?]]|[E ?]].
  - destruct (Z.ltb_spec extra (J + 1)), (Z.ltb_spec extra J); lia.
  - rewrite E in *. destruct (Z.ltb_spec extra (J + 2)); [|lia].
    replace (J + 2 + extra) with (J + extra + 1 * 2) by lia. rewrite Z.div_add by lia.
    destruct (Z.ltb_spec extra J); [done|]. replace J with extra by lia.
    replace (extra + extra) with (extra * 2) by lia. rewrite Z.div_mul; lia.
Qed.

Lemma log2_level b q : 0 <= b -> 2 ^ b <= q < 2 * 2 ^ b -> Z.log2 q = b.
Proof. intros. apply (Z.log2_unique' q b (q - 2 ^ b)); lia. Qed.

(** The leaf slot below [i] next to it in order. *)
Lemma inner_leaf i : slot_ok size i -> Z.log2 i < L ->
  let s := L - Z.log2 i - 1 in
  let r := (2 * i + 1) * 2 ^ s in
  0 <= s /\ 0 < 2 ^ s /\ 2 ^ L < r < 2 * 2 ^ L /\
  full_pos L L r = full_pos L (Z.log2 i) i + 1 /\
  full_pos L L (r - 1) = full_pos L (Z.log2 i) i - 1.
Proof.
  intros Hi Hlt s r. destruct (level_bounds i Hi) as (? & ? & HL & ?).
  assert (0 <= s) as Hs by lia. pose proof (pow2_pos s Hs). repeat split; try done.
  1-2: replace (L - Z.log2 i) with (1 + s) in HL by lia; rewrite pow2_split in HL by lia; nia.
  all: unfold full_pos, r; rewrite Z.sub_diag; replace (L - Z.log2 i) with (1 + s) in * by lia;
    rewrite HL, pow2_split by lia; change (2 ^ 1) with 2; change (2 ^ 0) with 1; lia.
Qed.

Lemma bottom_ok i : slot_ok size i \/ 2 ^ L <= i < 2 * 2 ^ L -> Z.log2 i = L ->
  full_pos L L i = 2 * i + 1 - 2 * 2 ^ L.
Proof. intros _ _. unfold full_pos. rewrite Z.sub_diag. change (2 ^ 0) with 1. lia. Qed.

(** A missing leaf's parent is present. *)
Lemma half_leaf r : 2 ^ L <= r < 2 * 2 ^ L -> size < r -> slot_ok size (r / 2) /\ Z.log2 (r / 2) = L - 1 \/ L = 0.
Proof.
  intros Hr Hlt. pose proof L_bounds. destruct (Z.eq_dec L 0) as [->|]; [by right|left].
  assert (2 ^ L = 2 * 2 ^ (L - 1)) as HL by (rewrite <- Z.pow_succ_r by lia; f_equal; lia).
  assert (2 ^ (L - 1) <= r / 2 < 2 * 2 ^ (L - 1)).
  { split; [apply Z.div_le_lower_bound; lia|apply Z.div_lt_upper_bound; lia]. }
  pose proof (pow2_pos (L - 1) ltac:(lia)).
  split; [split; lia|]. apply log2_level; lia.
Qed.

Lemma full_pos_alt b i : 0 <= b <= L -> full_pos L b i = (2 * i + 1) * 2 ^ (L - b) - 2 * 2 ^ L.
Proof.
  intros. unfold full_pos. replace (2 ^ L) with (2 ^ b * 2 ^ (L - b)); [lia|].
  rewrite <- pow2_split by lia. f_equal; lia.
Qed.

(** The ancestor [t + 1] levels up. *)
Lemma ancestor_pos i q t : slot_ok size i -> 0 < q -> 0 <= t -> i / 2 ^ (t + 1) = q ->
  slot_ok size q /\ full_pos L (Z.log2 q) q =
    (2 * q + 1) * (2 * 2 ^ t) * 2 ^ (L - Z.log2 i) - 2 * 2 ^ L.
Proof.
  intros Hi Hq Ht E. destruct (level_bounds i Hi) as (? & ? & ? & ?). unfold slot_ok in *.
  pose proof (pow2_pos (t + 1) ltac:(lia)).
  assert (q <= i) by (subst q; apply Z.div_le_upper_bound; nia).
  assert (t + 1 <= Z.log2 i).
  { destruct (Z.le_gt_cases (t + 1) (Z.log2 i)); [done|]. subst q. rewrite Z.div_small in Hq; [lia|].
    pose proof (pow2_le (Z.log2 i + 1) (t + 1) ltac:(lia)) as Hp. rewrite Z.pow_add_r in Hp by lia. lia. }
  assert (Z.log2 q = Z.log2 i - (t + 1)) as Hlog.
  { rewrite <- E, <- Z.shiftr_div_pow2, Z.log2_shiftr by lia. lia. }
  split; [lia|]. rewrite Hlog, full_pos_alt by lia.
  replace (L - (Z.log2 i - (t + 1))) with (1 + t + (L - Z.log2 i)) by lia.
  rewrite !pow2_split by lia. lia.
Qed.

(** A slot without a right child is in the last two levels. *)
Lemma low_level i : slot_ok size i -> size < 2 * i + 1 ->
  Z.log2 i = L /\ full_pos L (Z.log2 i) i < extra \/
  Z.log2 i = L - 1 /\ 2 ^ L = 2 * 2 ^ (L - 1).
Proof.
  intros Hi Hlt. destruct (level_bounds i Hi) as (? & ? & ? & ?). pose proof L_bounds.
  destruct (full_pos_level i Hi) as [?|[? _]]; [by left|right].
  assert (Z.log2 i = L - 1) as ->; [|split; [lia|rewrite <- Z.pow_succ_r by lia; f_equal; lia]].
  destruct (Z.le_gt_cases (L - 1) (Z.log2 i)); [lia|].
  pose proof (pow2_le (Z.log2 i + 2) L ltac:(lia)) as Hpp. rewrite Z.pow_add_r in Hpp by lia.
  change (2 ^ 2) with 4 in Hpp. lia.
Qed.

Lemma next_spec i : slot_ok size i -> exists i', eytzinger1_next i size = Some i' /\
  (inorder i = size /\ i' = 0 \/ slot_ok size i' /\ inorder i' = inorder i + 1).
Proof.
  intros Hi. pose proof L_bounds as [HL HLs]. pose proof pow_L. pose proof extra_bounds.
  destruct (level_bounds i Hi) as (Hb & Hbi & HbL & Hbp).
  pose proof Hi as Hi'. unfold slot_ok in Hi'. unfold size_ok in *.
  unfold eytzinger1_next, eytzinger1_right_child, eytzinger1_child.
  destruct (Z.eqb_spec i 0); [lia|]. destruct (Z.leb_spec i size); [|lia].
  cbn [negb andb assert Z.leb Z.compare Pos.compare Pos.compare_cont]. bind_simpl.
  rewrite ushl_small by lia. bind_simpl. change (2 ^ 1) with 2. rewrite uadd_ok by lia. bind_simpl.
  destruct (Z.leb_spec (i * 2 + 1) size) as [Hr|Hr].
  - rewrite !high_bit_ok by lia. bind_simpl. fold L.
    assert (Z.log2 (i * 2 + 1) = Z.log2 i + 1) as Hlr.
    { apply log2_level; [lia|]. rewrite Z.pow_add_r by lia. lia. }
    assert (Z.log2 i < L).
    { pose proof (Z.log2_le_mono (i * 2 + 1) size ltac:(lia)) as Hm. rewrite Hlr in Hm. unfold L. lia. }
    destruct (inner_leaf i Hi ltac:(lia)) as (Hs & Hps & Hrr & HJ & _).
    set (s := L - Z.log2 i - 1) in *. set (r := (2 * i + 1) * 2 ^ s) in *.
    rewrite Hlr, usub_ok by lia. bind_simpl. replace (L - (Z.log2 i + 1)) with s by lia.
    rewrite ushl_small by (unfold r in *; lia). bind_simpl.
    replace ((i * 2 + 1) * 2 ^ s) with r by (unfold r; lia).
    destruct (Z.ltb_spec size r) as [Hx|Hx].
    + rewrite ushr_div by lia. change (2 ^ 1) with 2. eexists; split; [reflexivity|right].
      destruct (half_leaf r) as [[Hh Hhl]|]; [lia|lia| |lia].
      split; [done|]. apply inorder_next; [done..|]. right.
      assert (s <> 0) by (intros E; unfold r in Hx; rewrite E in Hx; cbn in Hx; lia).
      rewrite (bottom_ok r) in HJ by (right || apply log2_level; lia).
      assert (r = 2 * (r / 2)).
      { unfold r. replace s with (s - 1 + 1) by lia. rewrite Z.pow_add_r by lia. change (2 ^ 1) with 2.
        rewrite Z.mul_assoc, Z.div_mul; lia. }
      rewrite Hhl. unfold full_pos at 1. replace (L - (L - 1)) with 1 by lia.
      assert (2 ^ L = 2 * 2 ^ (L - 1)) as HL1 by (rewrite <- Z.pow_succ_r by lia; f_equal; lia).
      change (2 ^ 1) with 2. unfold extra. lia.
    + rewrite ushr_div by lia. change (2 ^ 0) with 1. rewrite Z.div_1_r.
      eexists; split; [reflexivity|right].
      assert (slot_ok size r) as Hrs by (unfold slot_ok; lia). split; [done|].
      assert (Z.log2 r = L) as Hlog by (apply log2_level; lia).
      apply inorder_next; [done..|left]. rewrite Hlog, HJ. split; [done|].
      rewrite bottom_ok in HJ by (left + idtac; done). unfold extra. lia.
  - destruct (trailing_ones_spec i) as (q & t & Hq & Ht & HT & Hd); [lia|]. rewrite HT.
    pose proof (pow2_pos t Ht).
    assert (t <= Z.log2 i + 1) as Htb.
    { destruct (Z.le_gt_cases t (Z.log2 i + 1)) as [|Hgt]; [done|].
      pose proof (pow2_le (Z.log2 i + 2) t ltac:(lia)) as Hpp. rewrite Z.pow_add_r in Hpp by lia.
      change (2 ^ 2) with 4 in Hpp. nia. }
    assert (t < 31) as Ht31.
    { destruct (Z.le_gt_cases 31 t) as [Hgt|]; [|done]. pose proof (pow2_le 31 t ltac:(lia)). nia. }
    rewrite ushr_div by lia. eexists; split; [reflexivity|].
    assert (i / 2 ^ (t + 1) = q) as ->.
    { rewrite Z.pow_add_r by lia. change (2 ^ 1) with 2. symmetry.
      apply (Z.div_unique _ _ q (2 ^ t - 1)); lia. }
    destruct (Z.eq_dec q 0) as [->|Hq0].
    + left. split; [|done]. unfold inorder.
      assert (i = 2 ^ t - 1) as Hit by lia. clear Hd.
      assert (t = Z.log2 i + 1) as Hte.
      { destruct (Z.eq_dec t (Z.log2 i + 1)); [done|].
        pose proof (pow2_le t (Z.log2 i) ltac:(lia)). lia. }
      assert (2 ^ t = 2 * 2 ^ Z.log2 i) as Htp by (rewrite Hte, Z.pow_add_r by lia; lia).
      rewrite full_pos_alt by lia. unfold squeeze, extra.
      destruct (low_level i Hi ltac:(lia)) as [[E _]|[E E2]]; rewrite E in *.
      * rewrite Z.sub_diag. change (2 ^ 0) with 1. destruct (Z.ltb_spec (2 * (size + 1 - 2 ^ L))
          ((2 * i + 1) * 1 - 2 * 2 ^ L)); lia.
      * replace (L - (L - 1)) with 1 by lia. change (2 ^ 1) with 2.
        destruct (Z.ltb_spec (2 * (size + 1 - 2 ^ L)) ((2 * i + 1) * 2 - 2 * 2 ^ L)); [|lia].
        replace ((2 * i + 1) * 2 - 2 * 2 ^ L + 2 * (size + 1 - 2 ^ L))
          with ((2 * i + 1 + size + 1 - 2 * 2 ^ L) * 2) by lia.
        rewrite Z.div_mul; lia.
    + right. assert (i / 2 ^ (t + 1) = q) as Eq.
      { rewrite Z.pow_add_r by lia. symmetry. apply (Z.div_unique _ _ q (2 ^ t - 1)); lia. }
      destruct (ancestor_pos i q t Hi ltac:(lia) Ht Eq) as [Hsq HJq]. split; [done|].
      apply inorder_next; [done..|]. rewrite HJq. unfold extra in *.
      destruct (low_level i Hi ltac:(lia)) as [[E Hx]|[E E2]]; rewrite full_pos_alt in * by lia;
        rewrite E in *.
      * left. rewrite Z.sub_diag in *. change (2 ^ 0) with 1 in *. lia.
      * right. replace (L - (L - 1)) with 1 by lia. change (2 ^ 1) with 2. lia.
Qed.

Lemma prev_spec i : slot_ok size i -> exists i', eytzinger1_prev i size = Some i' /\
  (inorder i = 1 /\ i' = 0 \/ slot_ok size i' /\ inorder i = inorder i' + 1).
Proof.
  intros Hi. pose proof L_bounds as [HL HLs]. pose proof pow_L. pose proof extra_bounds.
  destruct (level_bounds i Hi) as (Hb & Hbi & HbL & Hbp).
  pose proof Hi as Hi'. unfold slot_ok in Hi'. unfold size_ok in *.
  unfold eytzinger1_prev, eytzinger1_left_child, eytzinger1_child.
  destruct (Z.eqb_spec i 0); [lia|]. destruct (Z.leb_spec i size); [|lia].
  cbn [negb andb assert Z.leb Z.compare Pos.compare Pos.compare_cont]. bind_simpl.
  rewrite ushl_small by lia. bind_simpl. change (2 ^ 1) with 2. rewrite (uadd_ok 32 _ 0) by lia.
  bind_simpl. rewrite Z.add_0_r. destruct (Z.leb_spec (i * 2) size) as [Hr|Hr].
  - rewrite uadd_ok by lia. bind_simpl. rewrite !high_bit_ok by lia. bind_simpl. fold L.
    assert (Z.log2 (i * 2 + 1) = Z.log2 i + 1) as Hlr.
    { apply log2_level; [lia|]. rewrite Z.pow_add_r by lia. lia. }
    assert (Z.log2 i < L).
    { pose proof (Z.log2_le_mono (2 * i) size ltac:(lia)) as Hm.
      rewrite Z.log2_double in Hm by lia. unfold L. lia. }
    destruct (inner_leaf i Hi ltac:(lia)) as (Hs & Hps & Hrr & _ & HJ).
    set (s := L - Z.log2 i - 1) in *. set (r := (2 * i + 1) * 2 ^ s) in *.
    rewrite Hlr, usub_ok by lia. bind_simpl. replace (L - (Z.log2 i + 1)) with s by lia.
    rewrite ushl_small by (unfold r in *; lia). bind_simpl.
    replace ((i * 2 + 1) * 2 ^ s) with r by (unfold r; lia).
    rewrite usub_ok by lia. bind_simpl.
    assert (full_pos L L (r - 1) = 2 * (r - 1) + 1 - 2 * 2 ^ L) as Hr1.
    { rewrite full_pos_alt, Z.sub_diag by lia. lia. }
    destruct (Z.ltb_spec size (r - 1)) as [Hx|Hx].
    + rewrite ushr_div by lia. change (2 ^ 1) with 2. eexists; split; [reflexivity|right].
      destruct (half_leaf (r - 1)) as [[Hh Hhl]|]; [lia|lia| |lia].
      split; [done|]. apply inorder_next; [done..|]. right.
      assert (s <> 0) by (intros E; unfold r in Hx; rewrite E in Hx; cbn in Hx; lia).
      assert (2 * ((r - 1) / 2) = r - 2).
      { unfold r. replace s with (s - 1 + 1) by lia. rewrite Z.pow_add_r by lia. change (2 ^ 1) with 2.
        replace ((2 * i + 1) * (2 ^ (s - 1) * 2) - 1)
          with (1 + ((2 * i + 1) * 2 ^ (s - 1) - 1) * 2) by lia.
        rewrite Z.div_add by lia. change (1 / 2) with 0. lia. }
      assert (2 ^ L = 2 * 2 ^ (L - 1)) as HL1 by (rewrite <- Z.pow_succ_r by lia; f_equal; lia).
      rewrite Hhl, (full_pos_alt (L - 1)) by lia. replace (L - (L - 1)) with 1 by lia.
      change (2 ^ 1) with 2. unfold extra. lia.
    + rewrite ushr_div by lia. change (2 ^ 0) with 1. rewrite Z.div_1_r.
      eexists; split; [reflexivity|right].
      assert (slot_ok size (r - 1)) as Hrs by (unfold slot_ok; lia). split; [done|].
      assert (Z.log2 (r - 1) = L) as Hlog by (apply log2_level; lia).
      apply inorder_next; [done..|left]. rewrite Hlog. unfold extra. lia.
  - destruct (trailing_zeros_spec i) as (q & t & Hq & Ht & HT & Hd); [lia|]. rewrite HT.
    pose proof (pow2_pos t Ht).
    assert (t < 31) as Ht31.
    { destruct (Z.le_gt_cases 31 t) as [Hgt|]; [|done]. pose proof (pow2_le 31 t ltac:(lia)). nia. }
    rewrite ushr_div by lia. eexists; split; [reflexivity|].
    assert (i / 2 ^ (t + 1) = q) as Eq.
    { rewrite Z.pow_add_r by lia. change (2 ^ 1) with 2. symmetry.
      apply (Z.div_unique _ _ q (2 ^ t)); lia. }
    rewrite Eq. destruct (Z.eq_dec q 0) as [->|Hq0].
    + left. split; [|done]. unfold inorder. assert (i = 2 ^ t) as Hit by lia. clear Hd.
      assert (Z.log2 i = t) as Hlt by (rewrite Hit; apply Z.log2_pow2; lia).
      destruct (low_level i Hi ltac:(lia)) as [[E _]|[E E2]].
      * assert (2 ^ L = i) as HiL by (rewrite <- E, Hlt; done).
        rewrite full_pos_alt, E, Z.sub_diag, HiL by lia. change (2 ^ 0) with 1.
        unfold squeeze. destruct (Z.ltb_spec extra ((2 * i + 1) * 1 - 2 * i)); lia.
      * rewrite <- E, Hlt, <- Hit in E2. lia.
    + right. destruct (ancestor_pos i q t Hi ltac:(lia) Ht Eq) as [Hsq HJq]. split; [done|].
      apply inorder_next; [done..|]. rewrite HJq. unfold extra in *.
      destruct (low_level i Hi ltac:(lia)) as [[E Hx]|[E E2]]; rewrite full_pos_alt in * by lia;
        rewrite E in *.
      * left. rewrite Z.sub_diag in *. change (2 ^ 0) with 1 in *. lia.
      * right. replace (L - (L - 1)) with 1 by lia. change (2 ^ 1) with 2. lia.
Qed.

Lemma rounddown_spec v : 0 < v < 2 ^ 32 -> rounddown_pow_of_two v = Some (2 ^ Z.log2 v).
Proof.
  intros Hv. unfold rounddown_pow_of_two. destruct (Z.eqb_spec v 0); [lia|].
  rewrite high_bit_ok by lia. bind_simpl. pose proof (Z.log2_nonneg v).
  pose proof (Z.log2_spec v ltac:(lia)). pose proof (Z.log2_lt_pow2 v 32 ltac:(lia)).
  rewrite ushl_small by lia. by rewrite Z.mul_1_l.
Qed.

Lemma first_spec : exists i, eytzinger1_first size = Some i /\ slot_ok size i /\ inorder i = 1.
Proof.
  pose proof L_bounds. pose proof extra_bounds. pose proof (pow2_pos L ltac:(lia)).
  unfold size_ok in *. exists (2 ^ L).
  split; [apply rounddown_spec; lia|]. split; [split; lia|].
  unfold inorder. rewrite Z.log2_pow2, full_pos_alt, Z.sub_diag by lia. change (2 ^ 0) with 1.
  unfold squeeze. destruct (Z.ltb_spec extra ((2 * 2 ^ L + 1) * 1 - 2 * 2 ^ L)); lia.
Qed.

Lemma last_spec : exists i, eytzinger1_last size = Some i /\ slot_ok size i /\ inorder i = size.
Proof.
  pose proof L_bounds. pose proof extra_bounds. pose proof pow_L. pose proof (pow2_pos L ltac:(lia)).
  unfold size_ok in *. unfold eytzinger1_last. rewrite uadd_ok by lia. bind_simpl.
  rewrite rounddown_spec by lia. bind_simpl.
  destruct (Z.eq_dec (size + 1) (2 * 2 ^ L)) as [E|E].
  - rewrite E, <- Z.pow_succ_r, Z.log2_pow2 by lia. rewrite Z.pow_succ_r, usub_ok by lia.
    eexists; split; [reflexivity|]. split; [split; lia|]. unfold inorder.
    rewrite (log2_level L) by lia. rewrite full_pos_alt, Z.sub_diag by lia. change (2 ^ 0) with 1.
    unfold squeeze, extra. destruct (Z.ltb_spec (2 * (size + 1 - 2 ^ L))
      ((2 * (2 * 2 ^ L - 1) + 1) * 1 - 2 * 2 ^ L)); lia.
  - rewrite (log2_level L) by lia. rewrite usub_ok by lia. eexists; split; [reflexivity|].
    assert (L <> 0) by (intros EL; rewrite EL in *; cbn in *; lia).
    assert (2 ^ L = 2 * 2 ^ (L - 1)) as HL1 by (rewrite <- Z.pow_succ_r by lia; f_equal; lia).
    pose proof (pow2_pos (L - 1) ltac:(lia)). split; [split; lia|].
    unfold inorder. rewrite (log2_level (L - 1)) by lia. rewrite full_pos_alt by lia.
    replace (L - (L - 1)) with 1 by lia. change (2 ^ 1) with 2. unfold squeeze, extra.
    destruct (Z.ltb_spec (2 * (size + 1 - 2 ^ L)) ((2 * (2 ^ L - 1) + 1) * 2 - 2 * 2 ^ L)); [|lia].
    replace ((2 * (2 ^ L - 1) + 1) * 2 - 2 * 2 ^ L + 2 * (size + 1 - 2 ^ L))
      with (size * 2) by lia. apply Z.div_mul. lia.
Qed.

Lemma to_inorder_ok i : slot_ok size i ->
  eytzinger1_to_inorder i size = Some (inorder i) /\ slot_ok size (inorder i).
Proof.
  intros Hi. unfold eytzinger1_to_inorder. rewrite extra_spec. bind_simpl.
  split; [by apply to_inorder_spec|]. by apply squeeze_bounds.
Qed.

Lemma inorder_to_ok r : slot_ok size r -> exists i, slot_ok size i /\
  inorder_to_eytzinger1 r size = Some i /\ inorder i = r.
Proof.
  intros Hr. destruct (to_eytzinger_spec r Hr) as (i & Hi & E & HJ). exists i.
  unfold inorder_to_eytzinger1. rewrite extra_spec. bind_simpl. split; [done|]. split; [done|].
  unfold inorder. rewrite HJ. pose proof extra_bounds. pose proof L_bounds.
  unfold spread, squeeze, slot_ok in *.
  destruct (Z.ltb_spec extra r); [|by destruct (Z.ltb_spec extra r); [lia|]].
  destruct (Z.ltb_spec extra (2 * r - extra)); [|lia].
  replace (2 * r - extra + extra) with (r * 2) by lia. apply Z.div_mul. lia.
Qed.

Lemma inorder_inj i i' : slot_ok size i -> slot_ok size i' -> inorder i = inorder i' -> i = i'.
Proof.
  intros Hi Hi' E. apply full_pos_inj; [done..|].
  destruct (squeeze_bounds i Hi) as [_ <-], (squeeze_bounds i' Hi') as [_ <-].
  unfold inorder in E. by rewrite E.
Qed.

End Tree.

(** ** Properties *)

(** On a tree of [size] slots, mapping a slot to its in-order position and
    an in-order position to its slot never panic, stay in [1 .. size] and
    are inverse to each other. *)
Theorem eytzinger_bijection (size i : Z) :
  size_ok size -> slot_ok size i ->
  (exists r, eytzinger1_to_inorder i size = Some r /\ slot_ok size r /\
     inorder_to_eytzinger1 r size = Some i) /\
  (exists s, inorder_to_eytzinger1 i size = Some s /\ slot_ok size s /\
     eytzinger1_to_inorder s size = Some i).
Proof.
  intros Hs Hi. destruct (to_inorder_ok size Hs i Hi) as [E Hr]. split.
  - exists (inorder size i). split; [done|]. split; [done|].
    destruct (inorder_to_ok size Hs _ Hr) as (i' & Hi' & -> & E'). f_equal.
    by apply (inorder_inj size Hs).
  - destruct (inorder_to_ok size Hs i Hi) as (s & Hs' & Es & E'). exists s.
    split; [done|]. split; [done|]. destruct (to_inorder_ok size Hs s Hs') as [-> _]. by f_equal.
Qed.

Lemma eytzinger_bijection_witness :
  size_ok 5 /\ (exists s, inorder_to_eytzinger1 4 5 = Some s /\ slot_ok 5 s /\
     eytzinger1_to_inorder s 5 = Some 4).
Proof.
  split; [unfold size_ok; lia|].
  apply (eytzinger_bijection 5 4); unfold size_ok, slot_ok; lia.
Defined.

(** The walk functions visit the slots in order: the first and the last slot
    are at positions 1 and [size], the next (previous) slot of a slot at
    position [r] is at [r + 1] ([r - 1]), and walking past either end gives
    0.  None of them panics. *)
Theorem eytzinger_walk (size i : Z) :
  size_ok size -> slot_ok size i ->
  exists r, eytzinger1_to_inorder i size = Some r /\
  (exists n, eytzinger1_next i size = Some n /\
     if r =? size then n = 0 else eytzinger1_to_inorder n size = Some (r + 1)) /\
  (exists p, eytzinger1_prev i size = Some p /\
     if r =? 1 then p = 0 else eytzinger1_to_inorder p size = Some (r - 1)) /\
  (exists f, eytzinger1_first size = Some f /\ eytzinger1_to_inorder f size = Some 1) /\
  (exists l, eytzinger1_last size = Some l /\ eytzinger1_to_inorder l size = Some size).
Proof.
  intros Hs Hi. destruct (to_inorder_ok size Hs i Hi) as [E [Hr1 Hr2]].
  exists (inorder size i). split; [done|]. split; [|split; [|split]].
  - destruct (next_spec size Hs i Hi) as (n & En & Hn). exists n. split; [done|].
    destruct Hn as [[-> ->]|[Hn En']]; [by rewrite Z.eqb_refl|].
    destruct (to_inorder_ok size Hs n Hn) as [-> [? ?]].
    destruct (Z.eqb_spec (inorder size i) size); [lia|by f_equal].
  - destruct (prev_spec size Hs i Hi) as (p & Ep & Hp). exists p. split; [done|].
    destruct Hp as [[-> ->]|[Hp Ep']]; [done|].
    destruct (to_inorder_ok size Hs p Hp) as [-> [? ?]].
    destruct (Z.eqb_spec (inorder size i) 1); [lia|f_equal; lia].
  - destruct (first_spec size Hs) as (f & Ef & Hf & E1). exists f. split; [done|].
    destruct (to_inorder_ok size Hs f Hf) as [-> _]. by f_equal.
  - destruct (last_spec size Hs) as (l & El & Hl & E1). exists l. split; [done|].
    destruct (to_inorder_ok size Hs l Hl) as [-> _]. by f_equal.
Qed.

Lemma eytzinger_walk_witness :
  exists r, eytzinger1_to_inorder 3 6 = Some r /\
  (exists n, eytzinger1_next 3 6 = Some n /\
     if r =? 6 then n = 0 else eytzinger1_to_inorder n 6 = Some (r + 1)).
Proof.
  destruct (eytzinger_walk 6 3) as (r & Hr & Hn & _); [unfold size_ok; lia|unfold slot_ok; lia|].
  exists r. split; [exact Hr|exact Hn].
Defined.
