(* ===== verification/Checksum.v ===== *)
(** * Checksums ([checksum.rs])

    The CRCs are table driven; the reference is the bit-serial division.
    What the callers rely on is stated as the class [Crc] (a feed function
    that is linear over exclusive or and loses no information) and the
    properties (concatenation, burst errors) are proved once against it.
    Both CRCs of the source are instances. *)

From stdpp Require Import base tactics list option.
From Stdlib Require Import ZArith Lia Btauto.
From S2P Require Import Prelude.

Open Scope Z_scope.

Definition BCH_CSUM_none : Z := 0.
Definition BCH_CSUM_crc32c_nonzero : Z := 1.
Definition BCH_CSUM_crc64_nonzero : Z := 2.
Definition BCH_CSUM_crc32c : Z := 5.
Definition BCH_CSUM_crc64 : Z := 6.
Definition BCH_CSUM_xxhash : Z := 7.

Record bch_csum := mk_bch_csum { lo : Z; hi : Z }.

Definition bch2_checksum_mergeable (type_ : Z) : bool :=
  (type_ =? BCH_CSUM_none) || (type_ =? BCH_CSUM_crc32c) || (type_ =? BCH_CSUM_crc64).

(** ** The tables *)

Definition crc32c_bit (crc : Z) : Z :=
  if negb (Z.land crc 1 =? 0) then Z.lxor (Z.shiftr crc 1) 0x82f63b78 else Z.shiftr crc 1.

Definition crc64_bit (crc : Z) : Z :=
  if negb (Z.land crc (2 ^ 63) =? 0)
  then Z.lxor (Z.shiftl crc 1 mod 2 ^ 64) 0x42f0e1eba9ea3693
  else Z.shiftl crc 1 mod 2 ^ 64.

Definition CRC32C_TABLE : list Z :=
  map (fun i => Nat.iter 8 crc32c_bit (Z.of_nat i)) (seq 0 256).

Definition CRC64_TABLE : list Z :=
  map (fun i => Nat.iter 8 crc64_bit (Z.shiftl (Z.of_nat i) 56 mod 2 ^ 64)) (seq 0 256).

(** The index is masked to eight bits, so the access is in range. *)
Definition crc32c_byte (crc byte : Z) : Z :=
  Z.lxor (nth (Z.to_nat (Z.land (Z.lxor crc byte) 0xff)) CRC32C_TABLE 0) (Z.shiftr crc 8).

Definition crc32c (crc : Z) (data : list Z) : Z := fold_left crc32c_byte data crc.

Definition crc64_be_byte (crc byte : Z) : Z :=
  Z.lxor (nth (Z.to_nat (Z.land (Z.lxor (Z.shiftr crc 56) byte) 0xff)) CRC64_TABLE 0)
    (Z.shiftl crc 8 mod 2 ^ 64).

Definition crc64_be (crc : Z) (data : list Z) : Z := fold_left crc64_be_byte data crc.

(** ** Merging *)

(** One pass of the loop over the zero page. *)
Definition merge_zeroes (type_ seed : Z) (len : nat) : option Z :=
  if type_ =? BCH_CSUM_none then Some 0
  else if type_ =? BCH_CSUM_crc32c then Some (crc32c (seed mod 2 ^ 32) (replicate len 0))
  else if type_ =? BCH_CSUM_crc64 then Some (crc64_be seed (replicate len 0))
  else None.

Fixpoint merge_loop (fuel : nat) (type_ seed : Z) (b_len : nat) : option Z :=
  match b_len with
  | O => Some seed
  | _ =>
      match fuel with
      | O => None
      | S fuel =>
          let len := Nat.min b_len 4096 in
          seed ← merge_zeroes type_ seed len;
          merge_loop fuel type_ seed (b_len - len)
      end
  end.

(** Every pass consumes at least one byte: [b_len] passes are enough. *)
Definition bch2_checksum_merge (type_ : Z) (a b : bch_csum) (b_len : nat) : option bch_csum :=
  _ ← assert (bch2_checksum_mergeable type_);
  seed ← merge_loop b_len type_ (lo a) b_len;
  Some (mk_bch_csum (Z.lxor seed (lo b)) (Z.lxor (hi a) (hi b))).

(** ** xxHash *)

Definition PRIME64_1 : Z := 11400714785074694791.
Definition PRIME64_2 : Z := 14029467366897019727.
Definition PRIME64_3 : Z := 1609587929392839161.
Definition PRIME64_4 : Z := 9650029242287828579.
Definition PRIME64_5 : Z := 2870177450012600261.

Definition xxh64_round (acc input : Z) : Z :=
  let acc := wadd 64 acc (wmul 64 input PRIME64_2) in
  let acc := rotl 64 acc 31 in
  wmul 64 acc PRIME64_1.

Definition xxh64_merge_round (acc val : Z) : Z :=
  let val := xxh64_round 0 val in
  let acc := Z.lxor acc val in
  wadd 64 (wmul 64 acc PRIME64_1) PRIME64_4.

(** [from_le_bytes(input[offset..offset + n])]; a slice past the end panics.
    A slice has at most [isize::MAX] bytes, so offsets do not overflow. *)
Definition le_value (bs : list Z) : Z := fold_right (fun b acc => b + 256 * acc) 0 bs.

Definition read_le (input : list Z) (offset n : nat) : option Z :=
  if (offset + n <=? length input)%nat then Some (le_value (take n (drop offset input))) else None.

Fixpoint xxh64_stripes (fuel : nat) (input : list Z) (limit offset : nat) (v1 v2 v3 v4 : Z)
  : option (nat * (Z * Z * Z * Z)) :=
  match fuel with
  | O => None
  | S fuel =>
      w1 ← read_le input offset 8;
      let v1 := xxh64_round v1 w1 in
      w2 ← read_le input (offset + 8) 8;
      let v2 := xxh64_round v2 w2 in
      w3 ← read_le input (offset + 16) 8;
      let v3 := xxh64_round v3 w3 in
      w4 ← read_le input (offset + 24) 8;
      let v4 := xxh64_round v4 w4 in
      let offset := (offset + 32)%nat in
      if (limit <? offset)%nat then Some (offset, (v1, v2, v3, v4))
      else xxh64_stripes fuel input limit offset v1 v2 v3 v4
  end.

Fixpoint xxh64_words (fuel : nat) (input : list Z) (offset : nat) (hash : Z) : option (nat * Z) :=
  if (offset + 8 <=? length input)%nat then
    match fuel with
    | O => None
    | S fuel =>
        word ← read_le input offset 8;
        let hash := Z.lxor hash (xxh64_round 0 word) in
        let hash := wadd 64 (wmul 64 (rotl 64 hash 27) PRIME64_1) PRIME64_4 in
        xxh64_words fuel input (offset + 8) hash
    end
  else Some (offset, hash).

Fixpoint xxh64_bytes (fuel : nat) (input : list Z) (offset : nat) (hash : Z) : option Z :=
  if (offset <? length input)%nat then
    match fuel with
    | O => None
    | S fuel =>
        byte ← input !! offset;
        let hash := Z.lxor hash (wmul 64 byte PRIME64_5) in
        let hash := wmul 64 (rotl 64 hash 11) PRIME64_1 in
        xxh64_bytes fuel input (offset + 1) hash
    end
  else Some hash.

Definition xxh64_finish (hash : Z) : Z :=
  let hash := Z.lxor hash (Z.shiftr hash 33) in
  let hash := wmul 64 hash PRIME64_2 in
  let hash := Z.lxor hash (Z.shiftr hash 29) in
  let hash := wmul 64 hash PRIME64_3 in
  Z.lxor hash (Z.shiftr hash 32).

(** Each loop advances by at least one byte per pass. *)
Definition xxh64 (input : list Z) (seed : Z) : option Z :=
  let len := length input in
  '(offset, hash) ←
    (if (32 <=? len)%nat then
       let limit := (len - 32)%nat in
       '(offset, (v1, v2, v3, v4)) ←
         xxh64_stripes len input limit 0
           (wadd 64 (wadd 64 seed PRIME64_1) PRIME64_2) (wadd 64 seed PRIME64_2)
           seed (wsub 64 seed PRIME64_1);
       let hash := wadd 64 (wadd 64 (wadd 64 (rotl 64 v1 1) (rotl 64 v2 7)) (rotl 64 v3 12))
                     (rotl 64 v4 18) in
       let hash := xxh64_merge_round hash v1 in
       let hash := xxh64_merge_round hash v2 in
       let hash := xxh64_merge_round hash v3 in
       let hash := xxh64_merge_round hash v4 in
       Some (offset, hash)
     else Some (0%nat, wadd 64 seed PRIME64_5));
  let hash := wadd 64 hash (Z.of_nat len) in
  '(offset, hash) ← xxh64_words len input offset hash;
  '(offset, hash) ←
    (if (offset + 4 <=? len)%nat then
       word ← read_le input offset 4;
       let hash := Z.lxor hash (wmul 64 word PRIME64_1) in
       let hash := wadd 64 (wmul 64 (rotl 64 hash 23) PRIME64_2) PRIME64_3 in
       Some ((offset + 4)%nat, hash)
     else Some (offset, hash));
  hash ← xxh64_bytes len input offset hash;
  Some (xxh64_finish hash).

(** ** The dispatch on the checksum type *)

Definition bch2_checksum (type_ : Z) (data : list Z) : option bch_csum :=
  value ←
    (if type_ =? BCH_CSUM_none then Some 0
     else if type_ =? BCH_CSUM_crc32c_nonzero then Some (Z.lxor (crc32c (MAX 32) data) (MAX 32))
     else if type_ =? BCH_CSUM_crc64_nonzero then Some (Z.lxor (crc64_be (MAX 64) data) (MAX 64))
     else if type_ =? BCH_CSUM_crc32c then Some (crc32c 0 data)
     else if type_ =? BCH_CSUM_crc64 then Some (crc64_be 0 data)
     else if type_ =? BCH_CSUM_xxhash then xxh64 data 0
     else Some 0);
  Some (mk_bch_csum value 0).

(** The vectors of the source's tests. *)
Definition digits : list Z := [49; 50; 51; 52; 53; 54; 55; 56; 57].

Example crc_vectors :
  crc32c 0 digits = 0x58e3fa20 /\ Z.lxor (crc32c (MAX 32) digits) (MAX 32) = 0xe3069283 /\
  crc64_be 0 digits = 0x6c40df5f0b497347 /\
  xxh64 [] 0 = Some 0xef46db3751d8e999 /\ xxh64 digits 0 = Some 0x8cb841db40e6ae83.
Proof. vm_compute. done. Qed.

(** ** What a CRC promises *)

Definition bytes_ok (d : list Z) : Prop := Forall (in_range 8) d.

Class Crc (feed : Z -> Z -> Z) (w : Z) := {
  crc_width : 8 <= w;
  crc_range c b : in_range w c -> in_range 8 b -> in_range w (feed c b);
  crc_linear c c' b b' : in_range w c -> in_range w c' -> in_range 8 b -> in_range 8 b' ->
    feed (Z.lxor c c') (Z.lxor b b') = Z.lxor (feed c b) (feed c' b');
  crc_no_loss c c' b : in_range w c -> in_range w c' -> in_range 8 b ->
    feed c b = feed c' b -> c = c';
  crc_nonzero d : bytes_ok d -> 8 * Z.of_nat (length d) <= w ->
    fold_left feed d 0 = 0 -> Forall (fun b => b = 0) d
}.

Lemma lxor_range w a b : 0 <= w -> in_range w a -> in_range w b -> in_range w (Z.lxor a b).
Proof.
  intros Hw [Ha Ha'] [Hb Hb']. split; [by apply Z.lxor_nonneg|].
  destruct (Z.eq_dec (Z.lxor a b) 0) as [->|]; [by apply pow2_pos|].
  assert (0 <= Z.lxor a b) by (by apply Z.lxor_nonneg).
  apply Z.log2_lt_cancel. rewrite Z.log2_pow2 by done.
  eapply Z.le_lt_trans; [by apply Z.log2_lxor|].
  assert (forall x, 0 <= x -> x < 2 ^ w -> Z.log2 x < Z.max 1 w) as Hl.
  { intros x Hx Hx'. destruct (Z.eq_dec x 0) as [->|]; [cbn; lia|].
    pose proof (proj1 (Z.log2_lt_pow2 x w ltac:(lia))). lia. }
  destruct (Z.eq_dec w 0) as [->|].
  - change (2 ^ 0) with 1 in *. assert (a = 0) as -> by lia. assert (b = 0) as -> by lia. done.
  - pose proof (Hl a Ha Ha'). pose proof (Hl b Hb Hb'). lia.
Qed.

Lemma lxor_eq_0 a b : Z.lxor a b = 0 -> a = b.
Proof. apply Z.lxor_eq. Qed.

Section CrcLemmas.
Context (feed : Z -> Z -> Z) (w : Z) `{HC : Crc feed w}.

Lemma run_range d c : bytes_ok d -> in_range w c -> in_range w (fold_left feed d c).
Proof.
  intros Hd. revert c. induction Hd as [|b d Hb Hd IH]; intros c Hc; [done|].
  cbn. by apply IH, crc_range.
Qed.

Lemma run_linear d d' c c' : bytes_ok d -> bytes_ok d' -> length d = length d' ->
  in_range w c -> in_range w c' ->
  fold_left feed (zip_with Z.lxor d d') (Z.lxor c c') =
  Z.lxor (fold_left feed d c) (fold_left feed d' c').
Proof.
  intros Hd. revert d' c c'. induction Hd as [|b d Hb Hd IH]; intros [|b' d'] c c' Hd' Hl Hc Hc';
    try done. apply Forall_cons_1 in Hd' as [Hb' Hd']. cbn.
  rewrite crc_linear by done. apply IH; try done; [by injection Hl|..]; by apply crc_range.
Qed.

Lemma zip_lxor_zeros d : zip_with Z.lxor (replicate (length d) 0) d = d.
Proof. induction d as [|b d IH]; cbn; [done|]. by rewrite IH. Qed.

Lemma zeros_ok n : bytes_ok (replicate n 0).
Proof. apply Forall_replicate. done. Qed.

(** The CRC of a concatenation from the two CRCs. *)
Lemma run_merge c d : bytes_ok d -> in_range w c ->
  fold_left feed d c = Z.lxor (fold_left feed (replicate (length d) 0) c) (fold_left feed d 0).
Proof.
  intros Hd Hc. pose proof crc_width. rewrite <- run_linear; try done.
  - by rewrite zip_lxor_zeros, Z.lxor_0_r.
  - apply zeros_ok.
  - by rewrite length_replicate.
  - split; [done|]. apply pow2_pos. lia.
Qed.

Lemma run_no_loss d c c' : bytes_ok d -> in_range w c -> in_range w c' ->
  fold_left feed d c = fold_left feed d c' -> c = c'.
Proof.
  intros Hd. revert c c'. induction Hd as [|b d Hb Hd IH]; intros c c' Hc Hc' E; [done|].
  cbn in E. apply (crc_no_loss c c' b); try done. apply IH; [by apply crc_range..|done].
Qed.

Lemma zip_lxor_bytes d d' : bytes_ok d -> bytes_ok d' -> bytes_ok (zip_with Z.lxor d d').
Proof.
  intros Hd. revert d'. induction Hd as [|b d Hb Hd IH]; intros [|b' d'] Hd'; try constructor.
  - apply Forall_cons_1 in Hd' as [? ?]. by apply lxor_range.
  - apply Forall_cons_1 in Hd' as [? ?]. by apply IH.
Qed.

Lemma zip_lxor_zero d d' : length d = length d' ->
  Forall (fun b => b = 0) (zip_with Z.lxor d d') -> d = d'.
Proof.
  revert d'. induction d as [|b d IH]; intros [|b' d'] Hl H; try done.
  cbn in H. apply Forall_cons_1 in H as [H1 H2]. f_equal; [by apply Z.lxor_eq|].
  apply IH; [by injection Hl|done].
Qed.

(** Two messages that differ in a burst no longer than the register have
    different CRCs. *)
Lemma run_burst c pre d d' post : in_range w c -> bytes_ok pre -> bytes_ok d -> bytes_ok d' ->
  bytes_ok post -> length d = length d' -> 8 * Z.of_nat (length d) <= w ->
  fold_left feed (pre ++ d ++ post) c = fold_left feed (pre ++ d' ++ post) c -> d = d'.
Proof.
  intros Hc Hpre Hd Hd' Hpost Hl Hw E. rewrite !fold_left_app in E.
  assert (in_range w (fold_left feed pre c)) as Hc1 by by apply run_range.
  set (c1 := fold_left feed pre c) in *.
  apply run_no_loss in E; [|done|by apply run_range..].
  apply zip_lxor_zero; [done|]. apply crc_nonzero.
  - by apply zip_lxor_bytes.
  - rewrite length_zip_with. lia.
  - pose proof (run_linear d d' c1 c1 Hd Hd' Hl Hc1 Hc1) as Hz.
    by rewrite E, !Z.lxor_nilpotent in Hz.
Qed.

End CrcLemmas.

(** ** The bit-serial reference *)

Lemma iter_S {A} (f : A -> A) n x : Nat.iter (S n) f x = f (Nat.iter n f x).
Proof. done. Qed.

Lemma iter_plus {A} (f : A -> A) n m x : Nat.iter (n + m) f x = Nat.iter n f (Nat.iter m f x).
Proof. induction n as [|n IH]; [done|]. cbn [Nat.add]. by rewrite !iter_S, IH. Qed.

Section Linear.
Context (f : Z -> Z) (Hlin : forall a b, f (Z.lxor a b) = Z.lxor (f a) (f b)).

Lemma iter_linear n a b : Nat.iter n f (Z.lxor a b) = Z.lxor (Nat.iter n f a) (Nat.iter n f b).
Proof. induction n as [|n IH]; [done|]. by rewrite !iter_S, IH, Hlin. Qed.

Context (w : Z) (Hran : forall a, in_range w a -> in_range w (f a))
  (Hinj : forall a b, in_range w a -> in_range w b -> f a = f b -> a = b).

Lemma iter_range n a : in_range w a -> in_range w (Nat.iter n f a).
Proof. intros. induction n; [done|]. rewrite iter_S. auto. Qed.

Lemma iter_inj n a b : in_range w a -> in_range w b -> Nat.iter n f a = Nat.iter n f b -> a = b.
Proof.
  intros Ha Hb. induction n as [|n IH]; [done|]. rewrite !iter_S. intros E. apply IH, Hinj; [by apply iter_range..|done].
Qed.

End Linear.

(** *** crc32c *)

Lemma crc32c_bit_alt c :
  crc32c_bit c = Z.lxor (Z.shiftr c 1) (if Z.testbit c 0 then 0x82f63b78 else 0).
Proof.
  unfold crc32c_bit. change 1 with (Z.ones 1) at 1. rewrite Z.land_ones by lia.
  change (2 ^ 1) with 2. rewrite <- Z.bit0_mod.
  destruct (Z.testbit c 0); cbn [Z.b2z negb Z.eqb]; [done|]. by rewrite Z.lxor_0_r.
Qed.

Lemma crc32c_bit_linear a b : crc32c_bit (Z.lxor a b) = Z.lxor (crc32c_bit a) (crc32c_bit b).
Proof.
  rewrite !crc32c_bit_alt, Z.shiftr_lxor, Z.lxor_spec.
  destruct (Z.testbit a 0), (Z.testbit b 0); cbn [xorb]; apply Z.bits_inj'; intros k _;
    rewrite !Z.lxor_spec, ?Z.bits_0; btauto.
Qed.

Lemma shiftr_range w a n : 0 <= n -> 0 <= w -> in_range w a -> 0 <= Z.shiftr a n < 2 ^ w.
Proof.
  intros Hn Hw [? ?]. rewrite Z.shiftr_div_pow2 by done. pose proof (pow2_pos n Hn).
  split; [apply Z.div_pos; lia|]. eapply Z.le_lt_trans; [|done]. apply Z.div_le_upper_bound; nia.
Qed.

Lemma crc32c_bit_range c : in_range 32 c -> in_range 32 (crc32c_bit c).
Proof.
  intros Hc. rewrite crc32c_bit_alt. apply lxor_range; [lia|..].
  - apply shiftr_range; try lia. done.
  - destruct (Z.testbit c 0); done.
Qed.

(** The top bit of the result is the bit that was shifted out. *)
Lemma crc32c_bit_inj a b : in_range 32 a -> in_range 32 b -> crc32c_bit a = crc32c_bit b -> a = b.
Proof.
  intros Ha Hb E. rewrite !crc32c_bit_alt in E.
  assert (forall x, in_range 32 x -> Z.testbit (Z.shiftr x 1) 31 = false) as H31.
  { intros x [Hx Hx']. rewrite Z.shiftr_spec by lia. cbn. rewrite <- (Z.mod_small x (2 ^ 32)) by lia.
    by rewrite Z.mod_pow2_bits_high by lia. }
  assert (Z.testbit a 0 = Z.testbit b 0) as E0.
  { assert (Z.testbit (Z.lxor (Z.shiftr a 1) (if Z.testbit a 0 then 0x82f63b78 else 0)) 31 =
            Z.testbit (Z.lxor (Z.shiftr b 1) (if Z.testbit b 0 then 0x82f63b78 else 0)) 31) as Et by by rewrite E.
    rewrite !Z.lxor_spec, !H31 in Et by done. by destruct (Z.testbit a 0), (Z.testbit b 0). }
  rewrite E0 in E. assert (Z.shiftr a 1 = Z.shiftr b 1) as E1.
  { set (p := if Z.testbit b 0 then _ else _) in E.
    rewrite <- (Z.lxor_0_r (Z.shiftr a 1)), <- (Z.lxor_0_r (Z.shiftr b 1)), <- (Z.lxor_nilpotent p),
      <- !Z.lxor_assoc. by rewrite E. }
  rewrite !Z.bit0_odd in E0. rewrite <- !Z.div2_spec in E1.
  rewrite (Z.div2_odd a), (Z.div2_odd b). by rewrite E0, E1.
Qed.

Lemma crc32c_bit_shift x n : Nat.iter n crc32c_bit (x * 2 ^ Z.of_nat n) = x.
Proof.
  induction n as [|n IH]; [cbn; lia|]. rewrite <- Nat.add_1_r, iter_plus.
  rewrite iter_S. cbn [Nat.iter nat_rect]. rewrite <- IH at 2. f_equal.
  rewrite Nat2Z.inj_add, pow2_split by lia. change (2 ^ Z.of_nat 1) with 2. rewrite Z.mul_assoc.
  rewrite crc32c_bit_alt, Z.bit0_odd, Z.odd_mul. cbn [Z.odd]. rewrite andb_false_r, Z.lxor_0_r.
  rewrite Z.shiftr_div_pow2 by lia. apply Z.div_mul. lia.
Qed.

Lemma split_low x n : 0 <= n -> x = Z.lxor (x mod 2 ^ n) (x / 2 ^ n * 2 ^ n).
Proof.
  intros Hn. pose proof (pow2_pos n Hn). pose proof (Z.mod_pos_bound x (2 ^ n) ltac:(lia)).
  rewrite <- Z.add_nocarry_lxor by (rewrite Z.land_comm; by apply land_mul_pow2_small).
  rewrite (Z.div_mod x (2 ^ n)) at 1 by lia. lia.
Qed.

Lemma nth_table (g : nat -> Z) i : 0 <= i < 256 -> nth (Z.to_nat i) (map g (seq 0 256)) 0 = g (Z.to_nat i).
Proof.
  intros Hi. rewrite (nth_indep _ 0 (g 0%nat)) by (rewrite length_map, length_seq; lia).
  rewrite map_nth, seq_nth by lia. done.
Qed.

Lemma land_byte x : Z.land x 0xff = x mod 2 ^ 8.
Proof. apply (Z.land_ones x 8). lia. Qed.

(** The table step is eight steps of the bit-serial division. *)
Lemma crc32c_byte_bits c b : in_range 8 b ->
  crc32c_byte c b = Nat.iter 8 crc32c_bit (Z.lxor c b).
Proof.
  intros Hb. unfold crc32c_byte, CRC32C_TABLE. rewrite land_byte.
  assert (0 <= Z.lxor c b mod 2 ^ 8 < 256) as Hi by (apply Z.mod_pos_bound; lia).
  rewrite nth_table, Z2Nat.id by lia. rewrite (split_low (Z.lxor c b) 8) at 2 by lia.
  rewrite iter_linear by apply crc32c_bit_linear. f_equal.
  change 8 with (Z.of_nat 8) at 3. rewrite crc32c_bit_shift.
  rewrite <- Z.shiftr_div_pow2, Z.shiftr_lxor by lia.
  replace (Z.shiftr b 8) with 0; [by rewrite Z.lxor_0_r|].
  rewrite Z.shiftr_div_pow2, Z.div_small by (done || lia). done.
Qed.

Lemma le_value_nonneg d : bytes_ok d -> 0 <= le_value d < 2 ^ (8 * Z.of_nat (length d)).
Proof.
  induction 1 as [|b d [? ?] Hd IH]; [done|]. cbn [le_value fold_right length]. fold (le_value d).
  replace (8 * Z.of_nat (S (length d))) with (8 + 8 * Z.of_nat (length d)) by lia.
  rewrite pow2_split by lia. change (2 ^ 8) with 256 in *. nia.
Qed.

Lemma crc32c_run_bits d c : bytes_ok d ->
  fold_left crc32c_byte d c = Nat.iter (8 * length d) crc32c_bit (Z.lxor c (le_value d)).
Proof.
  intros Hd. revert c. induction Hd as [|b d Hb Hd IH]; intros c.
  - cbn. by rewrite Z.lxor_0_r.
  - cbn [fold_left length]. rewrite IH, crc32c_byte_bits by done.
    replace (8 * S (length d))%nat with (8 * length d + 8)%nat by lia. rewrite iter_plus. f_equal.
    cbn [le_value fold_right]. fold (le_value d).
    replace (b + 256 * le_value d) with (Z.lxor b (le_value d * 2 ^ Z.of_nat 8)).
    + rewrite <- Z.lxor_assoc, (iter_linear _ crc32c_bit_linear 8 (Z.lxor c b)).
      by rewrite crc32c_bit_shift.
    + rewrite <- Z.add_nocarry_lxor; [lia|]. rewrite Z.land_comm. by apply land_mul_pow2_small.
Qed.

Lemma le_value_zero d : bytes_ok d -> le_value d = 0 -> Forall (fun b => b = 0) d.
Proof.
  induction 1 as [|b d [? ?] Hd IH]; [constructor|]. cbn [le_value fold_right]. fold (le_value d).
  pose proof (le_value_nonneg d Hd). intros. apply Forall_cons_2; [lia|]. apply IH. lia.
Qed.

Lemma crc32c_bit_0 n : Nat.iter n crc32c_bit 0 = 0.
Proof. induction n as [|n IH]; [done|]. by rewrite iter_S, IH. Qed.

Lemma byte_range w b : 8 <= w -> in_range 8 b -> in_range w b.
Proof. intros ? [? ?]. split; [done|]. pose proof (pow2_le 8 w). lia. Qed.

#[export] Instance crc32c_Crc : Crc crc32c_byte 32.
Proof.
  split; [lia|..].
  - intros c b Hc Hb. rewrite crc32c_byte_bits by done.
    apply iter_range; [apply crc32c_bit_range|]. apply lxor_range; [lia|done|]. apply byte_range; [lia|done].
  - intros c c' b b' _ _ Hb Hb'. rewrite !crc32c_byte_bits by (done || by apply lxor_range).
    rewrite <- iter_linear by apply crc32c_bit_linear. f_equal.
    apply Z.bits_inj'. intros k _. rewrite !Z.lxor_spec. btauto.
  - intros c c' b Hc Hc' Hb. rewrite !crc32c_byte_bits by done. intros E.
    apply byte_range with (w := 32) in Hb; [|lia].
    apply (iter_inj _ 32 crc32c_bit_range crc32c_bit_inj) in E; [|by apply lxor_range..].
    rewrite <- (Z.lxor_0_r c), <- (Z.lxor_0_r c'), <- (Z.lxor_nilpotent b), <- !Z.lxor_assoc.
    by rewrite E.
  - intros d Hd Hl. rewrite crc32c_run_bits, Z.lxor_0_l by done. intros E.
    apply le_value_zero; [done|]. rewrite <- (crc32c_bit_0 (8 * length d)) in E.
    apply (iter_inj _ 32 crc32c_bit_range crc32c_bit_inj) in E; [done| |done].
    pose proof (le_value_nonneg d Hd) as [? ?]. split; [done|].
    pose proof (pow2_le (8 * Z.of_nat (length d)) 32 ltac:(lia)). lia.
Qed.

(** *** crc64 *)

Definition crc64_poly : Z := 0x42f0e1eba9ea3693.

Lemma crc64_bit_alt c :
  crc64_bit c = Z.lxor (Z.shiftl c 1 mod 2 ^ 64) (if Z.testbit c 63 then crc64_poly else 0).
Proof.
  unfold crc64_bit. rewrite land_pow2_testbit by lia. fold crc64_poly.
  destruct (Z.testbit c 63); cbn [negb]; [done|]. by rewrite Z.lxor_0_r.
Qed.

Lemma lxor_mod_pow2 a b n : 0 <= n -> Z.lxor a b mod 2 ^ n = Z.lxor (a mod 2 ^ n) (b mod 2 ^ n).
Proof.
  intros Hn. apply Z.bits_inj'. intros k Hk. rewrite Z.lxor_spec.
  destruct (Z.lt_ge_cases k n).
  - by rewrite !Z.mod_pow2_bits_low, Z.lxor_spec by lia.
  - by rewrite !Z.mod_pow2_bits_high by lia.
Qed.

Lemma crc64_bit_linear a b : crc64_bit (Z.lxor a b) = Z.lxor (crc64_bit a) (crc64_bit b).
Proof.
  rewrite !crc64_bit_alt, Z.shiftl_lxor, Z.lxor_spec, lxor_mod_pow2 by lia.
  destruct (Z.testbit a 63), (Z.testbit b 63); cbn [xorb]; apply Z.bits_inj'; intros k _;
    rewrite !Z.lxor_spec, ?Z.bits_0; btauto.
Qed.

Lemma crc64_bit_range c : in_range 64 c -> in_range 64 (crc64_bit c).
Proof.
  intros Hc. rewrite crc64_bit_alt. apply lxor_range; [lia|..].
  - apply Z.mod_pos_bound. lia.
  - destruct (Z.testbit c 63); done.
Qed.

(** The bottom bit of the result is the bit that was shifted out. *)
Lemma crc64_bit_inj a b : in_range 64 a -> in_range 64 b -> crc64_bit a = crc64_bit b -> a = b.
Proof.
  intros [Ha Ha'] [Hb Hb'] E. rewrite !crc64_bit_alt in E.
  assert (forall x, Z.testbit (Z.shiftl x 1 mod 2 ^ 64) 0 = false) as H0.
  { intros x. rewrite Z.mod_pow2_bits_low, Z.shiftl_spec by lia. by apply Z.testbit_neg_r. }
  assert (Z.testbit a 63 = Z.testbit b 63) as E63.
  { assert (Z.testbit (Z.lxor (Z.shiftl a 1 mod 2 ^ 64) (if Z.testbit a 63 then crc64_poly else 0)) 0 =
      Z.testbit (Z.lxor (Z.shiftl b 1 mod 2 ^ 64) (if Z.testbit b 63 then crc64_poly else 0)) 0)
      as Et by by rewrite E.
    rewrite !Z.lxor_spec, !H0 in Et. by destruct (Z.testbit a 63), (Z.testbit b 63). }
  rewrite E63 in E. set (p := if Z.testbit b 63 then _ else _) in E.
  assert (Z.shiftl a 1 mod 2 ^ 64 = Z.shiftl b 1 mod 2 ^ 64) as E1.
  { rewrite <- (Z.lxor_0_r (_ mod _)), <- (Z.lxor_0_r (Z.shiftl b 1 mod _)), <- (Z.lxor_nilpotent p),
      <- !Z.lxor_assoc. by rewrite E. }
  apply Z.bits_inj'. intros k Hk. destruct (Z.lt_ge_cases k 63).
  - assert (Z.testbit (Z.shiftl a 1 mod 2 ^ 64) (k + 1) = Z.testbit (Z.shiftl b 1 mod 2 ^ 64) (k + 1))
      as Et by by rewrite E1.
    rewrite !Z.mod_pow2_bits_low, !Z.shiftl_spec in Et by lia.
    by replace (k + 1 - 1) with k in Et by lia.
  - destruct (Z.eq_dec k 63) as [->|]; [done|].
    rewrite <- (Z.mod_small a (2 ^ 64)), <- (Z.mod_small b (2 ^ 64)) by lia.
    by rewrite !Z.mod_pow2_bits_high by lia.
Qed.

Lemma crc64_bit_shift n y : 0 <= y -> y * 2 ^ Z.of_nat n < 2 ^ 64 ->
  Nat.iter n crc64_bit y = y * 2 ^ Z.of_nat n.
Proof.
  intros Hy. induction n as [|n IH]; [cbn; lia|]. intros Hlt.
  rewrite iter_S. rewrite Nat2Z.inj_succ, Z.pow_succ_r in * by lia.
  pose proof (pow2_pos (Z.of_nat n) ltac:(lia)).
  rewrite IH by lia. set (z := y * 2 ^ Z.of_nat n) in *.
  rewrite crc64_bit_alt, Z.shiftl_mul_pow2 by lia. change (2 ^ 1) with 2.
  rewrite Z.mod_small by nia.
  assert (Z.testbit z 63 = false) as ->; [|rewrite Z.lxor_0_r; lia].
  rewrite <- (Z.mod_small z (2 ^ 63)) by nia. apply Z.mod_pow2_bits_high. lia.
Qed.

Lemma crc64_be_byte_bits c b : in_range 64 c -> in_range 8 b ->
  crc64_be_byte c b = Nat.iter 8 crc64_bit (Z.lxor c (b * 2 ^ 56)).
Proof.
  intros Hc Hb. unfold crc64_be_byte, CRC64_TABLE. rewrite land_byte.
  assert (0 <= Z.lxor (Z.shiftr c 56) b mod 2 ^ 8 < 256) as Hi by (apply Z.mod_pos_bound; lia).
  rewrite nth_table, Z2Nat.id by lia.
  assert (in_range 8 (Z.lxor (Z.shiftr c 56) b)) as Hx.
  { apply lxor_range; [lia| |done]. destruct Hc. rewrite Z.shiftr_div_pow2 by lia.
    apply div_pow2_range; lia. }
  rewrite (Z.mod_small (Z.lxor (Z.shiftr c 56) b)) by exact Hx.
  rewrite (split_low c 56) at 3 by lia.
  assert (Z.lxor (Z.lxor (c mod 2 ^ 56) (c / 2 ^ 56 * 2 ^ 56)) (b * 2 ^ 56) =
    Z.lxor (Z.shiftl (Z.lxor (Z.shiftr c 56) b) 56) (c mod 2 ^ 56)) as ->.
  { rewrite Z.shiftl_lxor, !Z.shiftl_mul_pow2, Z.shiftr_div_pow2 by lia.
    apply Z.bits_inj'. intros k _. rewrite !Z.lxor_spec. btauto. }
  rewrite iter_linear by apply crc64_bit_linear. destruct Hx as [Hx Hx'].
  rewrite (Z.mod_small (Z.shiftl _ 56)) by (rewrite Z.shiftl_mul_pow2 by lia; lia).
  f_equal. pose proof (Z.mod_pos_bound c (2 ^ 56) ltac:(lia)).
  rewrite crc64_bit_shift by (change (2 ^ Z.of_nat 8) with 256; lia).
  rewrite Z.shiftl_mul_pow2 by lia. apply (mul_pow2_mod c 8 56); lia.
Qed.

(** The bytes placed at the top of the register, the first one highest. *)
Fixpoint be_top (d : list Z) : Z :=
  match d with
  | [] => 0
  | b :: d => Z.lxor (b * 2 ^ 56) (be_top d / 2 ^ 8)
  end.

Lemma be_top_range d : bytes_ok d -> in_range 64 (be_top d).
Proof.
  induction 1 as [|b d [? ?] Hd IH]; [done|]. cbn [be_top]. apply lxor_range; [lia|split; lia|].
  rewrite <- Z.shiftr_div_pow2 by lia. apply shiftr_range; [lia..|done].
Qed.

Lemma be_top_low d n : bytes_ok d -> (length d <= n)%nat -> (n <= 8)%nat ->
  exists h, 0 <= h /\ be_top d = h * 2 ^ (64 - 8 * Z.of_nat n).
Proof.
  intros Hd. revert n. induction Hd as [|b d [? ?] Hd IH]; intros n Hl Hn; [by exists 0|].
  destruct n as [|n]; cbn [length] in Hl; [lia|]. destruct (IH n) as (h & Hh & E); [lia..|].
  cbn [be_top]. rewrite E.
  replace (64 - 8 * Z.of_nat n) with (8 + (64 - 8 * Z.of_nat (S n))) by lia.
  rewrite pow2_split, Z.mul_assoc, (Z.mul_comm h), <- Z.mul_assoc, (Z.mul_comm (2 ^ 8)), Z.div_mul by lia.
  exists (Z.lxor (b * 2 ^ (8 * Z.of_nat n)) h). split; [apply Z.lxor_nonneg; split; intros; lia|].
  rewrite <- !Z.shiftl_mul_pow2, Z.shiftl_lxor, Z.shiftl_shiftl by lia. f_equal. f_equal. lia.
Qed.

Lemma crc64_run_bits d c : bytes_ok d -> (length d <= 8)%nat -> in_range 64 c ->
  fold_left crc64_be_byte d c = Nat.iter (8 * length d) crc64_bit (Z.lxor c (be_top d)).
Proof.
  intros Hd. revert c. induction Hd as [|b d Hb Hd IH]; intros c Hl Hc.
  - cbn. by rewrite Z.lxor_0_r.
  - cbn [fold_left length] in *. pose proof Hb as [? ?].
    assert (in_range 64 (Z.lxor c (b * 2 ^ 56))) by (apply lxor_range; [lia|done|split; lia]).
    rewrite crc64_be_byte_bits by done.
    rewrite IH by (lia || apply iter_range, H1; apply crc64_bit_range).
    replace (8 * S (length d))%nat with (8 * length d + 8)%nat by lia. rewrite iter_plus. f_equal.
    cbn [be_top]. rewrite <- Z.lxor_assoc, (iter_linear _ crc64_bit_linear 8 (Z.lxor c (b * 2 ^ 56))).
    f_equal. destruct (be_top_low d 7) as (h & Hh & E); [done|lia..|].
    pose proof (be_top_range d Hd) as [? Hlt]. rewrite E in *.
    change (64 - 8 * Z.of_nat 7) with 8 in *. rewrite Z.div_mul by lia.
    by rewrite crc64_bit_shift by (done || lia).
Qed.

Lemma be_top_zero d : bytes_ok d -> (length d <= 8)%nat -> be_top d = 0 -> Forall (fun b => b = 0) d.
Proof.
  induction 1 as [|b d [? ?] Hd IH]; intros Hl E; [constructor|]. cbn [be_top length] in *.
  apply Z.lxor_eq in E. pose proof (be_top_range d Hd) as [? ?].
  assert (be_top d / 2 ^ 8 < 2 ^ 56) by (apply Z.div_lt_upper_bound; lia).
  apply Forall_cons_2; [lia|]. apply IH; [lia|].
  destruct (be_top_low d 7) as (h & Hh & E'); [done|lia..|].
  change (64 - 8 * Z.of_nat 7) with 8 in E'. rewrite E', Z.div_mul in E by lia. lia.
Qed.

Lemma crc64_bit_0 n : Nat.iter n crc64_bit 0 = 0.
Proof. induction n as [|n IH]; [done|]. by rewrite iter_S, IH. Qed.

#[export] Instance crc64_Crc : Crc crc64_be_byte 64.
Proof.
  assert (forall b, in_range 8 b -> in_range 64 (b * 2 ^ 56)) as Hplace by (intros b [? ?]; split; lia).
  split; [lia|..].
  - intros c b Hc Hb. rewrite crc64_be_byte_bits by done.
    apply iter_range; [apply crc64_bit_range|]. apply lxor_range; [lia|done|auto].
  - intros c c' b b' Hc Hc' Hb Hb'.
    rewrite !crc64_be_byte_bits by (done || by apply lxor_range).
    rewrite <- iter_linear by apply crc64_bit_linear. f_equal.
    rewrite <- !Z.shiftl_mul_pow2, Z.shiftl_lxor by lia.
    apply Z.bits_inj'. intros k _. rewrite !Z.lxor_spec. btauto.
  - intros c c' b Hc Hc' Hb. rewrite !crc64_be_byte_bits by done. intros E.
    apply Hplace in Hb.
    apply (iter_inj _ 64 crc64_bit_range crc64_bit_inj) in E; [|by apply lxor_range..].
    rewrite <- (Z.lxor_0_r c), <- (Z.lxor_0_r c'), <- (Z.lxor_nilpotent (b * 2 ^ 56)), <- !Z.lxor_assoc.
    by rewrite E.
  - intros d Hd Hl. rewrite crc64_run_bits, Z.lxor_0_l by (done || lia). intros E.
    apply be_top_zero; [done|lia|]. rewrite <- (crc64_bit_0 (8 * length d)) in E.
    apply (iter_inj _ 64 crc64_bit_range crc64_bit_inj) in E; [done| |done]. by apply be_top_range.
Qed.

(** ** The loops *)

Lemma zero_range w : 0 <= w -> in_range w 0.
Proof. intros. split; [done|]. by apply pow2_pos. Qed.

Lemma fold_left_zeros (feed : Z -> Z -> Z) n m c :
  fold_left feed (replicate m 0) (fold_left feed (replicate n 0) c) =
  fold_left feed (replicate (n + m) 0) c.
Proof. by rewrite <- fold_left_app, replicate_add. Qed.

(** The zero page loop, for each mergeable type: [feed] is one zero byte. *)
Lemma merge_loop_spec type_ (feed : Z -> Z -> Z) (w : Z) :
  (forall seed n, in_range w seed ->
     merge_zeroes type_ seed n = Some (fold_left feed (replicate n 0) seed)) ->
  Crc feed w -> forall fuel seed n, (n <= fuel)%nat -> in_range w seed ->
  merge_loop fuel type_ seed n = Some (fold_left feed (replicate n 0) seed).
Proof.
  intros Hz HC. induction fuel as [|fuel IH]; intros seed n Hn Hs.
  { by replace n with 0%nat by lia. }
  destruct n as [|n]; [done|]. cbn [merge_loop]. rewrite Hz by done. bind_simpl.
  rewrite IH by (lia || (apply (run_range feed w); [apply zeros_ok|done])).
  rewrite fold_left_zeros. by replace (_ + _)%nat with (S n) by lia.
Qed.

Lemma merge_loop_none fuel seed n : (n <= fuel)%nat -> seed = 0 ->
  merge_loop fuel BCH_CSUM_none seed n = Some 0.
Proof.
  revert seed n. induction fuel as [|fuel IH]; intros seed [|n] Hn ->; try done; [lia|].
  cbn [merge_loop]. unfold merge_zeroes. cbn [Z.eqb BCH_CSUM_none]. bind_simpl. apply IH; lia.
Qed.

Lemma read_le_some input offset n : (offset + n <= length input)%nat ->
  exists v, read_le input offset n = Some v.
Proof. intros. unfold read_le. destruct (Nat.leb_spec (offset + n) (length input)); [eauto|lia]. Qed.

Lemma xxh64_stripes_total fuel input offset v1 v2 v3 v4 :
  (offset + 32 <= length input)%nat -> (length input <= offset + fuel)%nat ->
  exists offset' vs, xxh64_stripes fuel input (length input - 32) offset v1 v2 v3 v4 =
    Some (offset', vs) /\ (offset' <= length input)%nat.
Proof.
  revert offset v1 v2 v3 v4. induction fuel as [|fuel IH]; intros offset v1 v2 v3 v4 H1 H2; [lia|].
  cbn [xxh64_stripes].
  destruct (read_le_some input offset 8) as [? ->]; [lia|]. bind_simpl.
  destruct (read_le_some input (offset + 8) 8) as [? ->]; [lia|]. bind_simpl.
  destruct (read_le_some input (offset + 16) 8) as [? ->]; [lia|]. bind_simpl.
  destruct (read_le_some input (offset + 24) 8) as [? ->]; [lia|]. bind_simpl.
  destruct (Nat.ltb_spec (length input - 32) (offset + 32)).
  - do 2 eexists. split; [reflexivity|]. lia.
  - apply IH; lia.
Qed.

Lemma xxh64_words_total fuel input offset hash :
  (offset <= length input)%nat -> (length input <= offset + fuel)%nat ->
  exists offset' hash', xxh64_words fuel input offset hash = Some (offset', hash') /\
    (offset' <= length input < offset' + 8)%nat.
Proof.
  revert offset hash. induction fuel as [|fuel IH]; intros offset hash H1 H2; cbn [xxh64_words];
    destruct (Nat.leb_spec (offset + 8) (length input)); try lia.
  - do 2 eexists. split; [reflexivity|]. lia.
  - destruct (read_le_some input offset 8) as [? ->]; [lia|]. bind_simpl. apply IH; lia.
  - do 2 eexists. split; [reflexivity|]. lia.
Qed.

Lemma xxh64_bytes_total fuel input offset hash :
  (length input <= offset + fuel)%nat -> exists hash', xxh64_bytes fuel input offset hash = Some hash'.
Proof.
  revert offset hash. induction fuel as [|fuel IH]; intros offset hash H; cbn [xxh64_bytes];
    destruct (Nat.ltb_spec offset (length input)); try lia; eauto.
  destruct (lookup_lt_is_Some_2 input offset) as [b ->]; [done|]. bind_simpl. apply IH. lia.
Qed.

Lemma xxh64_finish_range hash : in_range 64 (xxh64_finish hash).
Proof.
  unfold xxh64_finish.
  apply lxor_range; [lia|apply wmul_range; lia|].
  apply shiftr_range; [lia..|]. apply wmul_range. lia.
Qed.

Lemma lxor_cancel a b m : Z.lxor a m = Z.lxor b m -> a = b.
Proof.
  intros E. rewrite <- (Z.lxor_0_r a), <- (Z.lxor_0_r b), <- (Z.lxor_nilpotent m), <- !Z.lxor_assoc.
  by rewrite E.
Qed.

(** ** Properties *)

(** C40: For every mergeable checksum type, the checksum of a concatenation is
    the merge of the two checksums with the length of the second part. *)
Theorem checksum_merge_concat (type_ : Z) (a b : list Z) :
  bch2_checksum_mergeable type_ = true -> bytes_ok a -> bytes_ok b ->
  exists ca cb, bch2_checksum type_ a = Some ca /\ bch2_checksum type_ b = Some cb /\
    bch2_checksum_merge type_ ca cb (length b) = bch2_checksum type_ (a ++ b).
Proof.
  intros Ht Ha Hb. unfold bch2_checksum_merge. rewrite Ht. cbn [assert]. bind_simpl.
  unfold bch2_checksum_mergeable in Ht.
  assert (type_ = BCH_CSUM_none \/ type_ = BCH_CSUM_crc32c \/ type_ = BCH_CSUM_crc64) as [ -> |[ -> | -> ]].
  { rewrite !orb_true_iff, !Z.eqb_eq in Ht. tauto. }
  all: do 2 eexists; (split; [reflexivity|]); (split; [reflexivity|]); cbn [lo hi].
  - by rewrite merge_loop_none by lia.
  - assert (in_range 32 (crc32c 0 a)) as Hr by (apply (run_range _ 32); [done|by apply zero_range]).
    rewrite (merge_loop_spec _ crc32c_byte 32); [|intros s n Hs|apply _|lia|done].
    + bind_simpl. rewrite Z.lxor_nilpotent. unfold bch2_checksum, crc32c. cbn -[fold_left crc32c_byte].
      by rewrite fold_left_app, (run_merge crc32c_byte 32 (fold_left crc32c_byte a 0) b).
    + unfold merge_zeroes, crc32c. by rewrite (Z.mod_small s) by exact Hs.
  - assert (in_range 64 (crc64_be 0 a)) as Hr by (apply (run_range _ 64); [done|by apply zero_range]).
    rewrite (merge_loop_spec _ crc64_be_byte 64); [|done|apply _|lia|done].
    bind_simpl. rewrite Z.lxor_nilpotent. unfold bch2_checksum, crc64_be. cbn -[fold_left crc64_be_byte].
    by rewrite fold_left_app, (run_merge crc64_be_byte 64 (fold_left crc64_be_byte a 0) b).
Qed.

Lemma checksum_merge_concat_witness :
  exists ca cb, bch2_checksum BCH_CSUM_crc32c digits = Some ca /\
    bch2_checksum BCH_CSUM_crc32c [1; 2] = Some cb /\
    bch2_checksum_merge BCH_CSUM_crc32c ca cb 2 = bch2_checksum BCH_CSUM_crc32c (digits ++ [1; 2]).
Proof.
  apply (checksum_merge_concat BCH_CSUM_crc32c digits [1; 2]); [reflexivity|repeat constructor; done..].
Defined.

(** The number of bytes of the check register of a CRC type. *)
Definition burst_bytes (type_ : Z) : nat :=
  if (type_ =? BCH_CSUM_crc32c) || (type_ =? BCH_CSUM_crc32c_nonzero) then 4
  else if (type_ =? BCH_CSUM_crc64) || (type_ =? BCH_CSUM_crc64_nonzero) then 8 else 0.

(** Replacing up to four (crc32c) or eight (crc64) consecutive bytes of a
    message by different ones always changes its checksum. *)
Theorem checksum_detects_burst (type_ : Z) (pre d d' post : list Z) :
  bytes_ok (pre ++ d ++ post) -> bytes_ok d' -> length d = length d' ->
  (length d <= burst_bytes type_)%nat -> d <> d' ->
  bch2_checksum type_ (pre ++ d ++ post) <> bch2_checksum type_ (pre ++ d' ++ post).
Proof.
  intros Hm Hd' Hl Hb Hne E. apply Forall_app in Hm as [Hpre Hm]. apply Forall_app in Hm as [Hd Hpost].
  apply Hne. unfold burst_bytes in Hb.
  destruct (Z.eqb_spec type_ BCH_CSUM_crc32c) as [->|]; [|destruct
    (Z.eqb_spec type_ BCH_CSUM_crc32c_nonzero) as [->|]; [|destruct
    (Z.eqb_spec type_ BCH_CSUM_crc64) as [->|]; [|destruct
    (Z.eqb_spec type_ BCH_CSUM_crc64_nonzero) as [->|]]]];
    cbn [orb] in Hb; [..|destruct d, d'; cbn in *; lia || done];
    unfold bch2_checksum in E; cbn -[crc32c crc64_be MAX] in E;
    injection E as E; try apply lxor_cancel in E.
  - apply (run_burst crc32c_byte 32 0 pre d d' post); try done; lia.
  - apply (run_burst crc32c_byte 32 (MAX 32) pre d d' post); try done; lia.
  - apply (run_burst crc64_be_byte 64 0 pre d d' post); try done; lia.
  - apply (run_burst crc64_be_byte 64 (MAX 64) pre d d' post); try done; lia.
Qed.

Lemma checksum_detects_burst_witness :
  bch2_checksum BCH_CSUM_crc64 ([1] ++ [2; 3] ++ digits) <>
  bch2_checksum BCH_CSUM_crc64 ([1] ++ [3; 2] ++ digits).
Proof.
  apply (checksum_detects_burst BCH_CSUM_crc64 [1] [2; 3] [3; 2] digits);
    [repeat constructor; done..|reflexivity|cbn; lia|discriminate].
Defined.

(** The table-driven loops compute the bit-serial division: each byte is
    added to the low (crc32c) or high (crc64) end of the register, which is
    then shifted eight times. *)
Theorem crc_bit_serial (data : list Z) (c32 c64 : Z) :
  bytes_ok data -> in_range 32 c32 -> in_range 64 c64 ->
  crc32c c32 data = fold_left (fun c b => Nat.iter 8 crc32c_bit (Z.lxor c b)) data c32 /\
  crc64_be c64 data =
    fold_left (fun c b => Nat.iter 8 crc64_bit (Z.lxor c (Z.shiftl b 56))) data c64.
Proof.
  intros Hd Hc Hc'. unfold crc32c, crc64_be. revert c32 c64 Hc Hc'.
  induction Hd as [|b d Hb Hd IH]; intros c32 c64 Hc Hc'; [done|]. cbn [fold_left].
  destruct (IH (crc32c_byte c32 b) (crc64_be_byte c64 b)) as [-> ->]; [by apply crc_range..|].
  by rewrite crc32c_byte_bits, crc64_be_byte_bits, Z.shiftl_mul_pow2 by (done || lia).
Qed.

Lemma crc_bit_serial_witness :
  crc32c 0 digits = fold_left (fun c b => Nat.iter 8 crc32c_bit (Z.lxor c b)) digits 0.
Proof. apply (crc_bit_serial digits 0 0); [repeat constructor; done|done..]. Defined.

(** The hash reads no byte outside its input and its loops end: it returns a
    64-bit value for every input and seed. *)
Theorem xxh64_total (input : list Z) (seed : Z) :
  exists h, xxh64 input seed = Some h /\ in_range 64 h.
Proof.
  unfold xxh64. cbn zeta.
  match goal with |- context [mbind _ (if ?c then ?x else ?y)] =>
    assert (exists offset hash, (if c then x else y) = Some (offset, hash) /\
      (offset <= length input)%nat) as (o1 & h1 & -> & Ho1) end.
  { destruct (Nat.leb_spec 32 (length input)).
    - destruct (xxh64_stripes_total (length input) input 0
        (wadd 64 (wadd 64 seed PRIME64_1) PRIME64_2) (wadd 64 seed PRIME64_2)
        seed (wsub 64 seed PRIME64_1)) as (o & [[[v1 v2] v3] v4] & -> & ?); [lia..|]. eauto.
    - do 2 eexists. split; [reflexivity|]. lia. }
  bind_simpl.
  destruct (xxh64_words_total (length input) input o1 (wadd 64 h1 (Z.of_nat (length input))))
    as (o2 & h2 & -> & Ho2); [lia..|]. bind_simpl.
  match goal with |- context [mbind _ (if ?c then ?x else ?y)] =>
    assert (exists offset hash, (if c then x else y) = Some (offset, hash)) as (o3 & h3 & ->) end.
  { destruct (Nat.leb_spec (o2 + 4) (length input)); [|eauto].
    destruct (read_le_some input o2 4) as [? ->]; [lia|]. eauto. }
  bind_simpl. destruct (xxh64_bytes_total (length input) input o3 h3) as [h4 ->]; [lia|].
  bind_simpl. eexists. split; [reflexivity|]. apply xxh64_finish_range.
Qed.
