(* ===== verification/Jhash.v ===== *)
(** * The Jenkins hash ([util/jhash.rs])

    [jhash] hashes a byte string, [jhash2] an array of 32-bit words and
    [jhash_1word] .. [jhash_3words] a fixed number of words.  The reads
    through the key pointer are lookups in the list of bytes (words); a read
    past its end has no value.  Words are read in the native byte order of
    the little-endian targets. *)

From stdpp Require Import base tactics list option.
From Stdlib Require Import ZArith Lia.
From S2P Require Import Prelude.

Open Scope Z_scope.

Definition JHASH_INITVAL : Z := 0xdeadbeef.

Definition jhash_size (n : Z) : option Z := ushl 32 1 n.

Definition jhash_mask (n : Z) : option Z := s ← jhash_size n; usub s 1.

Definition __jhash_mix (abc : Z * Z * Z) : Z * Z * Z :=
  let '(a, b, c) := abc in
  let a := wsub 32 a c in
  let a := Z.lxor a (rotl 32 c 4) in
  let c := wadd 32 c b in
  let b := wsub 32 b a in
  let b := Z.lxor b (rotl 32 a 6) in
  let a := wadd 32 a c in
  let c := wsub 32 c b in
  let c := Z.lxor c (rotl 32 b 8) in
  let b := wadd 32 b a in
  let a := wsub 32 a c in
  let a := Z.lxor a (rotl 32 c 16) in
  let c := wadd 32 c b in
  let b := wsub 32 b a in
  let b := Z.lxor b (rotl 32 a 19) in
  let a := wadd 32 a c in
  let c := wsub 32 c b in
  let c := Z.lxor c (rotl 32 b 4) in
  let b := wadd 32 b a in
  (a, b, c).

Definition __jhash_final (abc : Z * Z * Z) : Z * Z * Z :=
  let '(a, b, c) := abc in
  let c := Z.lxor c b in
  let c := wsub 32 c (rotl 32 b 14) in
  let a := Z.lxor a c in
  let a := wsub 32 a (rotl 32 c 11) in
  let b := Z.lxor b a in
  let b := wsub 32 b (rotl 32 a 25) in
  let c := Z.lxor c b in
  let c := wsub 32 c (rotl 32 b 16) in
  let a := Z.lxor a c in
  let a := wsub 32 a (rotl 32 c 4) in
  let b := Z.lxor b a in
  let b := wsub 32 b (rotl 32 a 14) in
  let c := Z.lxor c b in
  let c := wsub 32 c (rotl 32 b 24) in
  (a, b, c).

(** A 32-bit read of four bytes at an offset. *)
Definition read_u32 (k : list Z) (off : nat) : option Z :=
  b0 ← k !! off; b1 ← k !! (off + 1)%nat; b2 ← k !! (off + 2)%nat; b3 ← k !! (off + 3)%nat;
  Some (b0 + b1 * 2 ^ 8 + b2 * 2 ^ 16 + b3 * 2 ^ 24).

(** Byte [n - 1], shifted, is added to [x] if [length >= n]. *)
Definition add_byte (k : list Z) (length n : Z) (sh x : Z) : option Z :=
  if n <=? length then
    byte ← k !! Z.to_nat (n - 1);
    Some (wadd 32 x (Z.shiftl byte sh))
  else Some x.

Fixpoint jhash_loop (fuel : nat) (k : list Z) (length : Z) (abc : Z * Z * Z)
  : option (list Z * Z * (Z * Z * Z)) :=
  if 12 <? length then
    match fuel with
    | O => None
    | S fuel =>
        let '(a, b, c) := abc in
        w0 ← read_u32 k 0;
        w1 ← read_u32 k 4;
        w2 ← read_u32 k 8;
        jhash_loop fuel (drop 12 k) (length - 12)
          (__jhash_mix (wadd 32 a w0, wadd 32 b w1, wadd 32 c w2))
    end
  else Some (k, length, abc).

Definition jhash_tail (k : list Z) (length : Z) (abc : Z * Z * Z) : option Z :=
  let '(a, b, c) := abc in
  c ← add_byte k length 12 24 c;
  c ← add_byte k length 11 16 c;
  c ← add_byte k length 10 8 c;
  c ← add_byte k length 9 0 c;
  b ← add_byte k length 8 24 b;
  b ← add_byte k length 7 16 b;
  b ← add_byte k length 6 8 b;
  b ← add_byte k length 5 0 b;
  a ← add_byte k length 4 24 a;
  a ← add_byte k length 3 16 a;
  a ← add_byte k length 2 8 a;
  a ← add_byte k length 1 0 a;
  Some (if 1 <=? length then (__jhash_final (a, b, c)).2 else c).

(** The loop runs [length / 12] times at most. *)
Definition jhash (key : list Z) (length initval : Z) : option Z :=
  let a := wadd 32 (wadd 32 JHASH_INITVAL length) initval in
  '(k, length, abc) ← jhash_loop (Z.to_nat (length / 12)) key length (a, a, a);
  jhash_tail k length abc.

Fixpoint jhash2_loop (fuel : nat) (k : list Z) (length : Z) (abc : Z * Z * Z)
  : option (list Z * Z * (Z * Z * Z)) :=
  if 3 <? length then
    match fuel with
    | O => None
    | S fuel =>
        let '(a, b, c) := abc in
        w0 ← k !! 0%nat;
        w1 ← k !! 1%nat;
        w2 ← k !! 2%nat;
        jhash2_loop fuel (drop 3 k) (length - 3)
          (__jhash_mix (wadd 32 a w0, wadd 32 b w1, wadd 32 c w2))
    end
  else Some (k, length, abc).

Definition jhash2_tail (k : list Z) (length : Z) (abc : Z * Z * Z) : option Z :=
  let '(a, b, c) := abc in
  c ← (if 3 <=? length then w ← k !! 2%nat; Some (wadd 32 c w) else Some c);
  b ← (if 2 <=? length then w ← k !! 1%nat; Some (wadd 32 b w) else Some b);
  if 1 <=? length then
    w ← k !! 0%nat;
    Some (__jhash_final (wadd 32 a w, b, c)).2
  else Some c.

Definition jhash2 (k : list Z) (length initval : Z) : option Z :=
  l ← ushl 32 length 2;
  let a := wadd 32 (wadd 32 JHASH_INITVAL l) initval in
  '(k, length, abc) ← jhash2_loop (Z.to_nat (length / 3)) k length (a, a, a);
  jhash2_tail k length abc.

Definition __jhash_nwords (a b c initval : Z) : Z :=
  (__jhash_final (wadd 32 a initval, wadd 32 b initval, wadd 32 c initval)).2.

Definition jhash_3words (a b c initval : Z) : Z :=
  __jhash_nwords a b c (wadd 32 (wadd 32 initval JHASH_INITVAL) (Z.shiftl 3 2)).

Definition jhash_2words (a b initval : Z) : Z :=
  __jhash_nwords a b 0 (wadd 32 (wadd 32 initval JHASH_INITVAL) (Z.shiftl 2 2)).

Definition jhash_1word (a initval : Z) : Z :=
  __jhash_nwords a 0 0 (wadd 32 (wadd 32 initval JHASH_INITVAL) (Z.shiftl 1 2)).

(** The vectors of the source's tests. *)
Example jhash_vectors :
  jhash (map (fun i => (Z.of_nat i * 7 + 3) mod 256) (seq 0 20)) 20 0x13579bdf = Some 0x41206d53 /\
  jhash2 [0x10203040; 0x20406080; 0x306090c0; 0x4080c100; 0x50a0f140] 5 0x2468ace0 = Some 0x9d469ecc /\
  jhash_1word 0x11223344 7 = 0x42e26ba7 /\ jhash_2words 0x11223344 0x55667788 7 = 0xc1f00f29 /\
  jhash_3words 0x11223344 0x55667788 0x99aabbcc 7 = 0x388c8834.
Proof. vm_compute. done. Qed.

(** ** Words and bytes *)

Definition le_bytes (w : Z) : list Z :=
  [w mod 2 ^ 8; w / 2 ^ 8 mod 2 ^ 8; w / 2 ^ 16 mod 2 ^ 8; w / 2 ^ 24 mod 2 ^ 8].

Definition words_bytes (ws : list Z) : list Z := flat_map le_bytes ws.

Lemma le_bytes_value w : in_range 32 w ->
  w mod 2 ^ 8 + w / 2 ^ 8 mod 2 ^ 8 * 2 ^ 8 + w / 2 ^ 16 mod 2 ^ 8 * 2 ^ 16 +
  w / 2 ^ 24 mod 2 ^ 8 * 2 ^ 24 = w.
Proof.
  intros [H H']. pose proof (div_pow2_range w 24 8) as Hh. cbn in Hh.
  rewrite (Z.mod_small (w / 2 ^ 24)) by (apply Hh; lia).
  pose proof (Z.div_mod w (2 ^ 8) ltac:(lia)). pose proof (Z.div_mod (w / 2 ^ 8) (2 ^ 8) ltac:(lia)).
  pose proof (Z.div_mod (w / 2 ^ 16) (2 ^ 8) ltac:(lia)).
  pose proof (div_pow2_split w 8 8 ltac:(lia) ltac:(lia)) as E1.
  pose proof (div_pow2_split w 16 8 ltac:(lia) ltac:(lia)) as E2.
  change (8 + 8) with 16 in E1. change (16 + 8) with 24 in E2. rewrite <- E1, <- E2 in *. lia.
Qed.

Lemma wadd_wadd w a b c : 0 <= w -> wadd w (wadd w a b) c = wadd w a (b + c).
Proof.
  intros. unfold wadd. pose proof (pow2_pos w). rewrite Z.add_mod_idemp_l by lia. f_equal. lia.
Qed.

Lemma words_bytes_cons w ws : words_bytes (w :: ws) = le_bytes w ++ words_bytes ws.
Proof. done. Qed.

(** Four byte additions, as in the tail of [jhash], add the word. *)
Lemma add_word x w : in_range 32 w ->
  wadd 32 (wadd 32 (wadd 32 (wadd 32 x (Z.shiftl (w / 2 ^ 24 mod 2 ^ 8) 24))
    (Z.shiftl (w / 2 ^ 16 mod 2 ^ 8) 16)) (Z.shiftl (w / 2 ^ 8 mod 2 ^ 8) 8))
    (Z.shiftl (w mod 2 ^ 8) 0) = wadd 32 x w.
Proof.
  intros Hw. rewrite !Z.shiftl_mul_pow2, !wadd_wadd by lia. f_equal.
  rewrite <- (le_bytes_value w Hw) at 5. change (2 ^ 0) with 1. lia.
Qed.

Lemma read_word w ws : in_range 32 w -> read_u32 (words_bytes (w :: ws)) 0 = Some w.
Proof.
  intros Hw. unfold read_u32. cbn -[Z.pow Z.div Z.modulo Z.mul Z.add].
  by rewrite le_bytes_value.
Qed.

Lemma loops_agree n fuel fuel' ws abc :
  Forall (in_range 32) ws -> (length ws <= n)%nat ->
  (length ws <= 3 * fuel + 3)%nat -> (length ws <= 3 * fuel' + 3)%nat ->
  exists ws' abc', jhash2_loop fuel ws (Z.of_nat (length ws)) abc =
      Some (ws', Z.of_nat (length ws'), abc') /\
    jhash_loop fuel' (words_bytes ws) (4 * Z.of_nat (length ws)) abc =
      Some (words_bytes ws', 4 * Z.of_nat (length ws'), abc') /\
    Forall (in_range 32) ws' /\ (length ws' <= 3)%nat.
Proof.
  revert fuel fuel' ws abc. induction n as [|n IH]; intros fuel fuel' ws abc Hws Hn Hf Hf'.
  { destruct ws; cbn in Hn; [|lia]. exists [], abc. destruct fuel, fuel'; repeat split; cbn; (done || lia || constructor). }
  destruct (decide (length ws <= 3)%nat) as [Hl|Hl].
  { exists ws, abc. destruct fuel, fuel'; cbn [jhash_loop jhash2_loop];
      destruct (Z.ltb_spec 3 (Z.of_nat (length ws))), (Z.ltb_spec 12 (4 * Z.of_nat (length ws)));
      try lia; done. }
  destruct fuel as [|fuel], fuel' as [|fuel']; try lia.
  destruct ws as [|w0 [|w1 [|w2 ws]]]; cbn [length] in *; try lia.
  apply Forall_cons_1 in Hws as [H0 Hws]. apply Forall_cons_1 in Hws as [H1 Hws].
  apply Forall_cons_1 in Hws as [H2 Hws]. destruct abc as [[a b] c].
  cbn [jhash_loop jhash2_loop].
  destruct (Z.ltb_spec 3 (Z.of_nat (S (S (S (length ws)))))); [|lia].
  destruct (Z.ltb_spec 12 (4 * Z.of_nat (S (S (S (length ws)))))); [|lia].
  rewrite read_word by done. bind_simpl.
  assert (read_u32 (words_bytes (w0 :: w1 :: w2 :: ws)) 4 = Some w1) as ->
    by exact (read_word w1 (w2 :: ws) H1). bind_simpl.
  assert (read_u32 (words_bytes (w0 :: w1 :: w2 :: ws)) 8 = Some w2) as ->
    by exact (read_word w2 ws H2). bind_simpl.
  cbn [lookup list_lookup drop]. bind_simpl.
  change (drop 12 (words_bytes (w0 :: w1 :: w2 :: ws))) with (words_bytes ws).
  replace (Z.of_nat (S (S (S (length ws)))) - 3) with (Z.of_nat (length ws)) by lia.
  replace (4 * Z.of_nat (S (S (S (length ws)))) - 12) with (4 * Z.of_nat (length ws)) by lia.
  apply IH; try done; lia.
Qed.

Lemma tails_agree ws abc : Forall (in_range 32) ws -> (length ws <= 3)%nat ->
  exists h, jhash_tail (words_bytes ws) (4 * Z.of_nat (length ws)) abc = Some h /\
    jhash2_tail ws (Z.of_nat (length ws)) abc = Some h.
Proof.
  intros Hws Hl. destruct abc as [[a b] c].
  destruct ws as [|w0 [|w1 [|w2 [|]]]]; cbn [length] in Hl; try lia;
    repeat (apply Forall_cons_1 in Hws as [? Hws]);
    unfold jhash_tail, jhash2_tail, add_byte;
    lazy -[Z.pow Z.div Z.modulo Z.shiftl wadd __jhash_final in_range snd]; rewrite ?add_word by done; eauto.
Qed.

(** ** Properties *)

(** Hashing the little-endian bytes of an array of words with [jhash] gives
    the hash of the array with [jhash2], for every length that fits a
    [u32] of bytes; both read only the key. *)
Theorem jhash_bytes_words (ws : list Z) (initval : Z) :
  Forall (in_range 32) ws -> 4 * Z.of_nat (length ws) < 2 ^ 32 ->
  exists h, jhash (words_bytes ws) (4 * Z.of_nat (length ws)) initval = Some h /\
    jhash2 ws (Z.of_nat (length ws)) initval = Some h.
Proof.
  intros Hws Hl. unfold jhash, jhash2. rewrite ushl_small by (cbn; lia). bind_simpl.
  change (2 ^ 2) with 4. rewrite (Z.mul_comm _ 4).
  set (a := wadd 32 (wadd 32 JHASH_INITVAL _) initval).
  destruct (loops_agree (length ws) (Z.to_nat (Z.of_nat (length ws) / 3))
    (Z.to_nat (4 * Z.of_nat (length ws) / 12)) ws (a, a, a)) as (ws' & abc & -> & -> & Hw & Hl').
  - done.
  - lia.
  - pose proof (Z.div_mod (Z.of_nat (length ws)) 3). pose proof (Z.mod_pos_bound (Z.of_nat (length ws)) 3). lia.
  - change 12 with (4 * 3). rewrite Z.div_mul_cancel_l by lia.
    pose proof (Z.div_mod (Z.of_nat (length ws)) 3). pose proof (Z.mod_pos_bound (Z.of_nat (length ws)) 3). lia.
  - bind_simpl. by apply tails_agree.
Qed.

Lemma jhash_bytes_words_witness :
  exists h, jhash (words_bytes [1; 2; 3; 4; 5]) 20 9 = Some h /\ jhash2 [1; 2; 3; 4; 5] 5 9 = Some h.
Proof. apply (jhash_bytes_words [1; 2; 3; 4; 5] 9); [repeat constructor; done|cbn; lia]. Defined.

(** The fixed-length variants are [jhash2] on one, two and three words. *)
Theorem jhash_nwords_jhash2 (a b c initval : Z) :
  jhash2 [a; b; c] 3 initval = Some (jhash_3words a b c initval) /\
  jhash2 [a; b] 2 initval = Some (jhash_2words a b initval) /\
  jhash2 [a] 1 initval = Some (jhash_1word a initval).
Proof.
  assert (forall x n, wadd 32 (wadd 32 (wadd 32 JHASH_INITVAL n) initval) x =
    wadd 32 x (wadd 32 (wadd 32 initval JHASH_INITVAL) n)) as E.
  { intros x n. rewrite !wadd_wadd by lia. unfold wadd. rewrite Z.add_mod_idemp_r by lia. f_equal. lia. }
  assert (forall n, wadd 32 (wadd 32 JHASH_INITVAL n) initval =
    wadd 32 0 (wadd 32 (wadd 32 initval JHASH_INITVAL) n)) as E0.
  { intros n. rewrite <- E. unfold wadd. by rewrite Z.add_0_r, Z.mod_mod. }
  unfold jhash2, jhash_3words, jhash_2words, jhash_1word, __jhash_nwords.
  lazy -[wadd __jhash_final JHASH_INITVAL snd]. by rewrite !E, <- !E0.
Qed.
