(* ===== verification/Six.v ===== *)
(** * Shared/intent/exclusive locks ([lock/six.rs])

    A lock is one 32-bit word (26 bits of reader count, the intent and write
    bits, three waiting bits), the owner of the intent lock, recursion
    counts, a sequence number bumped when a write lock is dropped, and the
    wait fifo, an array of slots that point to the waiters on the sleeping
    threads' stacks.

    Every function is an atomic step on the lock and the waiters: a failed
    compare-and-exchange only reloads the word, and the fifo is only touched
    under [wait_lock].  What other threads can see is split into separate
    steps where the source releases in between: dropping a lock and waking
    the next holder, entering the slow path and queueing.  Threads are
    numbers; parking and unparking do not touch the lock and have no
    counterpart.  [None] is a failed assertion. *)

From stdpp Require Import base tactics list option gmap.
From Stdlib Require Import ZArith Lia.
From S2P Require Import Prelude.

Open Scope Z_scope.

Definition SIX_LOCK_WANT_BITS : Z := 2.
Definition SIX_LOCK_WANT_MASK : Z := 3.
Definition SIX_LOCK_INLINE_WAITERS : nat := 8.
Definition SIX_LOCK_INIT_PCPU : Z := 1.

Definition SIX_LOCK_HELD_READ : Z := 2 ^ 26 - 1.
Definition SIX_LOCK_HELD_INTENT : Z := 2 ^ 26.
Definition SIX_LOCK_HELD_WRITE : Z := 2 ^ 27.
Definition SIX_LOCK_WAITING_READ : Z := 2 ^ 28.
Definition SIX_LOCK_NOSPIN : Z := 2 ^ 31.

Inductive six_lock_type := SIX_LOCK_read | SIX_LOCK_intent | SIX_LOCK_write.

#[export] Instance six_lock_type_eq_dec : EqDecision six_lock_type.
Proof. solve_decision. Defined.

(** [lock_type as u32] *)
Definition type_index (t : six_lock_type) : Z :=
  match t with SIX_LOCK_read => 0 | SIX_LOCK_intent => 1 | SIX_LOCK_write => 2 end.

Record six_lock_waiter := mk_six_lock_waiter {
  trans_start_time : Z;
  task : option Z;
  lock_want : six_lock_type;
  lock_acquired : bool;
  slot_idx : nat
}.

(** [w] is the address of a waiter, [None] the null pointer. *)
Record six_lock_wait_slot := mk_six_lock_wait_slot { w : option Z; start_time : Z }.

Definition empty_slot : six_lock_wait_slot := mk_six_lock_wait_slot None 0.

Record six_lock_wait_fifo := mk_six_lock_wait_fifo {
  size : nat;
  nr : nat;
  next_free_hint : nat;
  data : list six_lock_wait_slot
}.

Definition six_lock_wait_fifo_default : six_lock_wait_fifo :=
  mk_six_lock_wait_fifo SIX_LOCK_INLINE_WAITERS 0 0 (replicate SIX_LOCK_INLINE_WAITERS empty_slot).

Record six_lock := mk_six_lock {
  state : Z;
  seqno : Z;
  pcpu_readers : option (list Z);
  intent_lock_recurse : Z;
  write_lock_recurse : Z;
  owner : option Z;
  wait_lock : six_lock_wait_fifo
}.

Definition six_lock_default : six_lock :=
  mk_six_lock 0 0 None 0 0 None six_lock_wait_fifo_default.

(** Field updates. *)
Definition set_state (l : six_lock) (s : Z) : six_lock :=
  mk_six_lock s (seqno l) (pcpu_readers l) (intent_lock_recurse l) (write_lock_recurse l) (owner l) (wait_lock l).
Definition set_seq (l : six_lock) (q : Z) : six_lock :=
  mk_six_lock (state l) q (pcpu_readers l) (intent_lock_recurse l) (write_lock_recurse l) (owner l) (wait_lock l).
Definition set_recurse (l : six_lock) (i wr : Z) : six_lock :=
  mk_six_lock (state l) (seqno l) (pcpu_readers l) i wr (owner l) (wait_lock l).
Definition set_owner (l : six_lock) (o : option Z) : six_lock :=
  mk_six_lock (state l) (seqno l) (pcpu_readers l) (intent_lock_recurse l) (write_lock_recurse l) o (wait_lock l).
Definition set_fifo (l : six_lock) (f : six_lock_wait_fifo) : six_lock :=
  mk_six_lock (state l) (seqno l) (pcpu_readers l) (intent_lock_recurse l) (write_lock_recurse l) (owner l) f.

Definition lock_val (t : six_lock_type) : Z :=
  match t with
  | SIX_LOCK_read => 1
  | SIX_LOCK_intent => SIX_LOCK_HELD_INTENT
  | SIX_LOCK_write => SIX_LOCK_HELD_WRITE
  end.

Definition lock_fail (t : six_lock_type) : Z :=
  match t with
  | SIX_LOCK_read => SIX_LOCK_HELD_WRITE
  | SIX_LOCK_intent => SIX_LOCK_HELD_INTENT
  | SIX_LOCK_write => SIX_LOCK_HELD_READ
  end.

Definition held_mask (t : six_lock_type) : Z :=
  match t with
  | SIX_LOCK_read => SIX_LOCK_HELD_READ
  | SIX_LOCK_intent => SIX_LOCK_HELD_INTENT
  | SIX_LOCK_write => SIX_LOCK_HELD_WRITE
  end.

Definition unlock_wakeup (t : six_lock_type) : six_lock_type :=
  match t with
  | SIX_LOCK_read => SIX_LOCK_write
  | SIX_LOCK_intent => SIX_LOCK_intent
  | SIX_LOCK_write => SIX_LOCK_read
  end.

Definition waiting_mask (t : six_lock_type) : Z :=
  Z.shiftl SIX_LOCK_WAITING_READ (type_index t).

(** [nr_cpus] is the number of processors the system reports. *)
Definition __six_lock_init (flags : Z) (nr_cpus : nat) : six_lock :=
  let l := six_lock_default in
  if negb (Z.land flags SIX_LOCK_INIT_PCPU =? 0)
  then mk_six_lock (state l) (seqno l) (Some (replicate nr_cpus 0)) (intent_lock_recurse l)
         (write_lock_recurse l) (owner l) (wait_lock l)
  else l.

Definition six_lock_exit (l : six_lock) : option six_lock :=
  _ ← assert (Z.land (state l) SIX_LOCK_HELD_READ =? 0);
  let f := wait_lock l in
  Some (mk_six_lock (state l) (seqno l) None (intent_lock_recurse l) (write_lock_recurse l) (owner l)
    (mk_six_lock_wait_fifo (size f) (nr f) (next_free_hint f) [])).

Definition six_lock_seq (l : six_lock) : Z := seqno l.

Definition is_type (a b : six_lock_type) : bool := bool_decide (a = b).

Definition six_set_owner (l : six_lock) (t : six_lock_type) (old : Z) (own : Z) : option six_lock :=
  if negb (is_type t SIX_LOCK_intent) then Some l
  else if Z.land old SIX_LOCK_HELD_INTENT =? 0 then
    _ ← assert (bool_decide (owner l = None));
    Some (set_owner l (Some own))
  else
    _ ← assert (bool_decide (owner l = Some own));
    Some l.

Definition __do_six_trylock (l : six_lock) (t : six_lock_type) (tsk : Z) (try_lock : bool)
  : option (bool * six_lock) :=
  _ ← (if is_type t SIX_LOCK_write then
         _ ← assert (bool_decide (owner l = Some tsk));
         assert (Bool.eqb try_lock (Z.land (state l) SIX_LOCK_HELD_WRITE =? 0))
       else Some tt);
  let old := state l in
  let ret := Z.land old (lock_fail t) =? 0 in
  if negb ret || (is_type t SIX_LOCK_write && negb try_lock) then
    l ← (if ret then six_set_owner l t old tsk else Some l);
    Some (ret, l)
  else
    let l := set_state l (wadd 32 old (lock_val t)) in
    _ ← assert (negb (Z.land (state l) (held_mask t) =? 0));
    l ← six_set_owner l t old tsk;
    Some (true, l).

(** ** The wait fifo *)

Fixpoint shrink_nr (data : list six_lock_wait_slot) (n : nat) : option nat :=
  match n with
  | O => Some O
  | S m =>
      slot ← data !! m;
      if bool_decide (w slot = None) then shrink_nr data m else Some (S m)
  end.

Definition six_lock_wait_fifo_shrink (f : six_lock_wait_fifo) : option six_lock_wait_fifo :=
  n ← shrink_nr (data f) (nr f);
  Some (mk_six_lock_wait_fifo (size f) n
    (if (n <? next_free_hint f)%nat then n else next_free_hint f) (data f)).

Definition six_lock_wait_fifo_remove (f : six_lock_wait_fifo) (idx : nat) : option six_lock_wait_fifo :=
  slot ← data f !! idx;
  Some (mk_six_lock_wait_fifo (size f) (nr f) (Nat.min (next_free_hint f) idx)
    (<[idx := mk_six_lock_wait_slot None (start_time slot)]> (data f))).

(** The first free slot below [nr], or [nr]. *)
Fixpoint free_slot (data : list six_lock_wait_slot) (nr i : nat) (fuel : nat) : option nat :=
  if (i <? nr)%nat then
    slot ← data !! i;
    if bool_decide (w slot = None) then Some i
    else match fuel with O => None | S fuel => free_slot data nr (S i) fuel end
  else Some i.

(** Returns the fifo and the slot index stored in the waiter. *)
Definition six_lock_wait_fifo_insert (f : six_lock_wait_fifo) (ptr : Z) (wait : six_lock_waiter)
  : option (six_lock_wait_fifo * six_lock_waiter) :=
  hslot ← data f !! next_free_hint f;
  '(i, f) ←
    (if bool_decide (w hslot = None) then Some (next_free_hint f, f)
     else
       i ← free_slot (data f) (nr f) 0 (nr f);
       if (i =? size f)%nat then
         _ ← assert (Z.of_nat (size f) <? 2 ^ 15);
         let sz := (size f * 2)%nat in
         Some (i, mk_six_lock_wait_fifo sz (nr f) (next_free_hint f)
           (data f ++ replicate (sz - size f) empty_slot))
       else Some (i, f));
  _ ← data f !! i;
  let st := Z.lor (Z.shiftl (trans_start_time wait) SIX_LOCK_WANT_BITS mod 2 ^ 64)
              (Z.land (type_index (lock_want wait)) SIX_LOCK_WANT_MASK) in
  Some (mk_six_lock_wait_fifo (size f) (Nat.max (nr f) (i + 1))
          (Nat.land (i + 1) (size f - 1))
          (<[i := mk_six_lock_wait_slot (Some ptr) st]> (data f)),
        mk_six_lock_waiter (trans_start_time wait) (task wait) (lock_want wait)
          (lock_acquired wait) i).

(** ** Waking up *)

(** A lock and the waiters in memory. *)
Definition world : Type := six_lock * gmap Z six_lock_waiter.

Definition set_acquired (wt : six_lock_waiter) (b : bool) : six_lock_waiter :=
  mk_six_lock_waiter (trans_start_time wt) (task wt) (lock_want wt) b (slot_idx wt).

Definition slot_wants (s : six_lock_wait_slot) (t : six_lock_type) : bool :=
  bool_decide (w s <> None) && (Z.land (start_time s) SIX_LOCK_WANT_MASK =? type_index t).

(** Try to give the lock to the waiter of slot [i]. *)
Definition hand_over (s : world) (t : six_lock_type) (i : nat) : option (bool * world) :=
  let '(l, ws) := s in
  slot ← data (wait_lock l) !! i;
  ptr ← w slot;
  wait ← ws !! ptr;
  tsk ← task wait;
  '(ok, l) ← __do_six_trylock l t tsk false;
  if (ok : bool) then
    f ← six_lock_wait_fifo_remove (wait_lock l) i;
    Some (true, (set_fifo l f, <[ptr := set_acquired wait true]> ws))
  else Some (false, (l, ws)).

(** The loop over the readers, [n] slots from [i]. *)
Fixpoint wake_readers (s : world) (i n : nat) : option world :=
  match n with
  | O => Some s
  | S n =>
      slot ← data (wait_lock s.1) !! i;
      if slot_wants slot SIX_LOCK_read then
        '(ok, s) ← hand_over s SIX_LOCK_read i;
        if (ok : bool) then wake_readers s (S i) n else Some s
      else wake_readers s (S i) n
  end.

(** The oldest matching waiter and the number of matches. *)
Fixpoint find_oldest (data : list six_lock_wait_slot) (t : six_lock_type) (i n : nat)
  (oldest : option nat) (n_matches : nat) : option (option nat * nat) :=
  match n with
  | O => Some (oldest, n_matches)
  | S n =>
      slot ← data !! i;
      if slot_wants slot t then
        better ←
          (match oldest with
           | None => Some true
           | Some o => oslot ← data !! o; Some (start_time slot <? start_time oslot)
           end : option bool);
        find_oldest data t (S i) n (if (better : bool) then Some i else oldest) (S n_matches)
      else find_oldest data t (S i) n oldest n_matches
  end.

Definition clear_waiting (s : world) (t : six_lock_type) : option world :=
  let '(l, ws) := s in
  let l := set_state l (Z.ldiff (state l) (waiting_mask t)) in
  f ← six_lock_wait_fifo_shrink (wait_lock l);
  Some (set_fifo l f, ws).

Definition __six_lock_wakeup (s : world) (t : six_lock_type) : option world :=
  if is_type t SIX_LOCK_read then
    s ← wake_readers s 0 (nr (wait_lock s.1));
    clear_waiting s t
  else
    '(oldest, n_matches) ← find_oldest (data (wait_lock s.1)) t 0 (nr (wait_lock s.1)) None 0;
    match oldest with
    | Some i =>
        '(ok, s) ← hand_over s t i;
        if ok && (1 <? n_matches)%nat then
          f ← six_lock_wait_fifo_shrink (wait_lock (s : world).1);
          Some (set_fifo (s : world).1 f, (s : world).2)
        else clear_waiting s t
    | None => clear_waiting s t
    end.

(** [st] is the state word the caller saw. *)
Definition six_lock_wakeup (s : world) (st : Z) (t : six_lock_type) : option world :=
  if is_type t SIX_LOCK_write && negb (Z.land st SIX_LOCK_HELD_READ =? 0) then Some s
  else if Z.land st (waiting_mask t) =? 0 then Some s
  else __six_lock_wakeup s t.

(** ** Locking and unlocking *)

Definition six_trylock_ip (l : six_lock) (t : six_lock_type) (me : Z) : option (bool * six_lock) :=
  __do_six_trylock l t me true.

(** [do_six_unlock_type] up to the atomic subtraction: returns the new
    state word, with which the caller goes on to [six_lock_wakeup]. *)
Definition unlock_release (l : six_lock) (t : six_lock_type) : option (Z * six_lock) :=
  let l := if is_type t SIX_LOCK_intent then set_owner l None else l in
  v ← (if negb (is_type t SIX_LOCK_read)
       then uadd 32 (lock_val t) (Z.land (state l) SIX_LOCK_NOSPIN)
       else Some (lock_val t));
  _ ← assert (negb (Z.land (state l) (held_mask t) =? 0));
  let st := wsub 32 (state l) v in
  Some (st, set_state l st).

Definition do_six_unlock_type (s : world) (t : six_lock_type) : option world :=
  '(st, l) ← unlock_release s.1 t;
  six_lock_wakeup (l, s.2) st (unlock_wakeup t).

(** [six_unlock_ip] up to the release: [None] in the result means that only
    a recursion count was dropped. *)
Definition unlock_begin (l : six_lock) (t : six_lock_type) (me : Z) : option (option Z * six_lock) :=
  _ ← (if is_type t SIX_LOCK_write
       then assert (negb (Z.land (state l) SIX_LOCK_HELD_INTENT =? 0)) else Some tt);
  _ ← (if is_type t SIX_LOCK_write || is_type t SIX_LOCK_intent
       then assert (bool_decide (owner l = Some me)) else Some tt);
  if is_type t SIX_LOCK_intent && negb (intent_lock_recurse l =? 0) then
    Some (None, set_recurse l (wsub 32 (intent_lock_recurse l) 1) (write_lock_recurse l))
  else if is_type t SIX_LOCK_write && negb (write_lock_recurse l =? 0) then
    Some (None, set_recurse l (intent_lock_recurse l) (wsub 32 (write_lock_recurse l) 1))
  else
    let l := if is_type t SIX_LOCK_write then set_seq l (wadd 32 (seqno l) 1) else l in
    '(st, l) ← unlock_release l t;
    Some (Some st, l).

Definition six_unlock_ip (s : world) (t : six_lock_type) (me : Z) : option world :=
  '(r, l) ← unlock_begin s.1 t me;
  match r with
  | None => Some (l, s.2)
  | Some st => six_lock_wakeup (l, s.2) st (unlock_wakeup t)
  end.

Definition six_relock_ip (s : world) (t : six_lock_type) (q me : Z) : option (bool * world) :=
  if negb (six_lock_seq s.1 =? q) then Some (false, s) else
  '(ok, l) ← six_trylock_ip s.1 t me;
  if negb ok then Some (false, (l, s.2)) else
  if negb (six_lock_seq l =? q) then
    s ← six_unlock_ip (l, s.2) t me;
    Some (false, s)
  else Some (true, (l, s.2)).

(** The slow path up to the queue: a writer first blocks new readers. *)
Definition slowpath_enter (l : six_lock) (t : six_lock_type) : option six_lock :=
  if is_type t SIX_LOCK_write then
    _ ← assert (Z.land (state l) SIX_LOCK_HELD_WRITE =? 0);
    Some (set_state l (wadd 32 (state l) SIX_LOCK_HELD_WRITE))
  else Some l.

(** Under [wait_lock]: announce the waiter, try once more, queue.  Returns
    whether the lock was taken. *)
Definition slowpath_queue (s : world) (t : six_lock_type) (ptr me : Z) : option (bool * world) :=
  let '(l, ws) := s in
  wait0 ← ws !! ptr;
  let wait := mk_six_lock_waiter (trans_start_time wait0) (Some me) t false (slot_idx wait0) in
  let l := set_state l (Z.lor (state l) (waiting_mask t)) in
  '(ok, l) ← __do_six_trylock l t me false;
  if (ok : bool) then Some (true, (l, <[ptr := wait]> ws)) else
  '(f, wait) ← six_lock_wait_fifo_insert (wait_lock l) ptr wait;
  Some (false, (set_fifo l f, <[ptr := wait]> ws)).

(** The way out of the slow path when [should_sleep_fn] says so: a waiter
    that was not granted the lock leaves the queue, and a writer unblocks the
    readers; one that was granted the lock drops it. *)
Definition cancel_dequeue (s : world) (t : six_lock_type) (wait : six_lock_waiter) : option world :=
  let '(l, ws) := s in
  f ← six_lock_wait_fifo_remove (wait_lock l) (slot_idx wait);
  f ← six_lock_wait_fifo_shrink f;
  let l := set_fifo l f in
  if is_type t SIX_LOCK_write
  then Some (set_state l (Z.ldiff (state l) SIX_LOCK_HELD_WRITE), ws)
  else Some (l, ws).

Definition slowpath_cancel (s : world) (t : six_lock_type) (ptr : Z) : option world :=
  wait ← s.2 !! ptr;
  if lock_acquired wait then do_six_unlock_type s t
  else
    s ← cancel_dequeue s t wait;
    if is_type t SIX_LOCK_write then six_lock_wakeup s (state s.1) SIX_LOCK_read else Some s.

(** ** Recursion, upgrade and downgrade *)

Definition six_lock_increment (l : six_lock) (t : six_lock_type) : option six_lock :=
  match t with
  | SIX_LOCK_read =>
      _ ← assert (negb (Z.land (state l) (Z.lor SIX_LOCK_HELD_READ SIX_LOCK_HELD_INTENT) =? 0));
      Some (set_state l (wadd 32 (state l) (lock_val t)))
  | SIX_LOCK_write =>
      let l := set_recurse l (intent_lock_recurse l) (wadd 32 (write_lock_recurse l) 1) in
      _ ← assert (negb (Z.land (state l) SIX_LOCK_HELD_INTENT =? 0));
      Some (set_recurse l (wadd 32 (intent_lock_recurse l) 1) (write_lock_recurse l))
  | SIX_LOCK_intent =>
      _ ← assert (negb (Z.land (state l) SIX_LOCK_HELD_INTENT =? 0));
      Some (set_recurse l (wadd 32 (intent_lock_recurse l) 1) (write_lock_recurse l))
  end.

Definition six_lock_downgrade (s : world) (me : Z) : option world :=
  l ← six_lock_increment s.1 SIX_LOCK_read;
  six_unlock_ip (l, s.2) SIX_LOCK_intent me.

Definition six_lock_tryupgrade (l : six_lock) (me : Z) : option (bool * six_lock) :=
  let old := state l in
  if negb (Z.land old SIX_LOCK_HELD_INTENT =? 0) then Some (false, l) else
  _ ← assert (negb (Z.land old SIX_LOCK_HELD_READ =? 0));
  new ← usub old (lock_val SIX_LOCK_read);
  let l := set_state l (Z.lor new SIX_LOCK_HELD_INTENT) in
  l ← six_set_owner l SIX_LOCK_intent old me;
  Some (true, l).

Definition six_trylock_convert (s : world) (from to : six_lock_type) (me : Z) : option (bool * world) :=
  _ ← assert (negb (is_type to SIX_LOCK_write));
  _ ← assert (negb (is_type from SIX_LOCK_write));
  if is_type to from then Some (true, s)
  else if is_type to SIX_LOCK_read then
    s ← six_lock_downgrade s me;
    Some (true, s)
  else
    '(ok, l) ← six_lock_tryupgrade s.1 me;
    Some (ok, (l, s.2)).

Definition six_lock_wakeup_all (s : world) : option world :=
  let st := state s.1 in
  s ← six_lock_wakeup s st SIX_LOCK_read;
  s ← six_lock_wakeup s st SIX_LOCK_intent;
  six_lock_wakeup s st SIX_LOCK_write.

Definition six_lock_counts (l : six_lock) : option (list Z) :=
  i ← uadd 32 (Z.b2z (negb (Z.land (state l) SIX_LOCK_HELD_INTENT =? 0))) (intent_lock_recurse l);
  Some [Z.land (state l) SIX_LOCK_HELD_READ; i;
        Z.b2z (negb (Z.land (state l) SIX_LOCK_HELD_WRITE =? 0))].

Definition six_lock_readers_add (l : six_lock) (n : Z) : option six_lock :=
  _ ← assert (0 <=? Z.land (state l) SIX_LOCK_HELD_READ + n);
  Some (set_state l (wadd 32 (state l) n)).

(** ** The lock word *)

(** [r] readers, the intent and the write bit, and the four upper bits. *)
Record word (s r : Z) (i wb : bool) (f : Z) : Prop := mk_word {
  word_eq : s = f * 2 ^ 28 + Z.b2z wb * 2 ^ 27 + Z.b2z i * 2 ^ 26 + r;
  word_r : 0 <= r < 2 ^ 26;
  word_f : 0 <= f < 2 ^ 4
}.

Section Word.
Context (s r : Z) (i wb : bool) (f : Z) (Hw : word s r i wb f).

Lemma lock_word_range : 0 <= s < 2 ^ 32.
Proof. destruct Hw as [-> ? ?]. destruct i, wb; cbn [Z.b2z]; lia. Qed.

Lemma word_read : Z.land s SIX_LOCK_HELD_READ = r.
Proof.
  destruct Hw as [-> Hr ?]. unfold SIX_LOCK_HELD_READ. change (2 ^ 26 - 1) with (Z.ones 26).
  rewrite Z.land_ones by lia.
  replace (f * 2 ^ 28 + Z.b2z wb * 2 ^ 27 + Z.b2z i * 2 ^ 26 + r)
    with ((f * 4 + Z.b2z wb * 2 + Z.b2z i) * 2 ^ 26 + r) by lia.
  by apply mod_low.
Qed.

Lemma word_intent_bit : Z.testbit s 26 = i.
Proof.
  destruct Hw as [-> Hr ?].
  replace (f * 2 ^ 28 + Z.b2z wb * 2 ^ 27 + Z.b2z i * 2 ^ 26 + r)
    with ((2 * (f * 2 + Z.b2z wb) + Z.b2z i) * 2 ^ 26 + r) by lia.
  rewrite testbit_high, Z.add_comm, Z.odd_add_mul_2 by lia. by destruct i.
Qed.

Lemma word_write_bit : Z.testbit s 27 = wb.
Proof.
  destruct Hw as [-> Hr ?].
  replace (f * 2 ^ 28 + Z.b2z wb * 2 ^ 27 + Z.b2z i * 2 ^ 26 + r)
    with ((Z.b2z wb + 2 * f) * 2 ^ 27 + (Z.b2z i * 2 ^ 26 + r)) by lia.
  rewrite testbit_high by (destruct i; cbn [Z.b2z]; lia).
  rewrite Z.odd_add_mul_2. by destruct wb.
Qed.

Lemma word_intent : (Z.land s SIX_LOCK_HELD_INTENT =? 0) = negb i.
Proof. unfold SIX_LOCK_HELD_INTENT. by rewrite land_pow2_testbit, word_intent_bit by lia. Qed.

Lemma word_write : (Z.land s SIX_LOCK_HELD_WRITE =? 0) = negb wb.
Proof. unfold SIX_LOCK_HELD_WRITE. by rewrite land_pow2_testbit, word_write_bit by lia. Qed.

Lemma word_flag k : 0 <= k < 4 -> Z.testbit s (28 + k) = Z.testbit f k.
Proof.
  intros Hk. destruct Hw as [-> Hr ?].
  rewrite (Z.add_comm 28), <- Z.shiftr_spec, Z.shiftr_div_pow2 by lia.
  replace (f * 2 ^ 28 + Z.b2z wb * 2 ^ 27 + Z.b2z i * 2 ^ 26 + r)
    with (f * 2 ^ 28 + (Z.b2z wb * 2 ^ 27 + Z.b2z i * 2 ^ 26 + r)) by lia.
  f_equal. apply div_high; [lia|]. destruct i, wb; cbn [Z.b2z]; lia.
Qed.

Lemma word_set_flag k : 0 <= k < 4 -> exists f', word (Z.lor s (2 ^ (28 + k))) r i wb f'.
Proof.
  intros Hk. rewrite lor_pow2, word_flag by lia.
  destruct (Z.testbit f k) eqn:E; [by exists f|].
  destruct Hw as [-> Hr Hf]. exists (f + 2 ^ k). split; [rewrite pow2_split by lia; lia|done|].
  assert (f + 2 ^ k = Z.lor f (2 ^ k)) as -> by (rewrite lor_pow2, E by lia; done).
  split; [apply Z.lor_nonneg; lia|].
  assert (k = 0 \/ k = 1 \/ k = 2 \/ k = 3) as Hk' by lia.
  assert (f = 0 \/ f = 1 \/ f = 2 \/ f = 3 \/ f = 4 \/ f = 5 \/ f = 6 \/ f = 7 \/ f = 8 \/ f = 9 \/
    f = 10 \/ f = 11 \/ f = 12 \/ f = 13 \/ f = 14 \/ f = 15) as Hf' by lia.
  clear E Hf Hk. repeat destruct Hk' as [ -> |Hk']; try subst k;
    repeat destruct Hf' as [ -> |Hf']; try subst f; vm_compute; reflexivity.
Qed.

Lemma flag_ge k : 0 <= k -> Z.testbit f k = true -> 2 ^ k <= f.
Proof.
  intros Hk E. destruct Hw as [_ _ [Hf _]]. destruct (Z.le_gt_cases (2 ^ k) f); [done|].
  rewrite <- (Z.mod_small f (2 ^ k)), Z.mod_pow2_bits_high in E by lia. done.
Qed.

Lemma word_clear_flag k : 0 <= k < 4 -> exists f', word (Z.ldiff s (2 ^ (28 + k))) r i wb f'.
Proof.
  intros Hk. rewrite ldiff_pow2, word_flag by lia.
  destruct (Z.testbit f k) eqn:E; [|by exists f].
  pose proof (flag_ge k ltac:(lia) E). pose proof (pow2_pos k ltac:(lia)).
  destruct Hw as [-> Hr Hf]. exists (f - 2 ^ k). split; [rewrite pow2_split by lia; lia|done|lia].
Qed.

End Word.

(** ** The abstract lock *)

(** The write side: free, claimed by the intent owner that waits for the
    readers to leave, or held. *)
Inductive wstate := WNone | WPending (t : Z) | WHeld (t : Z).

(** [readers] are the read locks that the lock word counts; [hidden] are those
    that [bch2_btree_node_lock_write] has taken off the count for the time of
    the call, since the thread that wants the write lock would otherwise wait
    for its own read locks. *)
Record holders := mk_holders {
  readers : list Z;
  intent : option Z;
  wr : wstate;
  hidden : list Z
}.

Definition no_holders : holders := mk_holders [] None WNone [].

(** When a lock can be granted. *)
Definition can (g : holders) (t : six_lock_type) : bool :=
  match t with
  | SIX_LOCK_read => match wr g with WNone => true | _ => false end
  | SIX_LOCK_intent => match intent g with None => true | _ => false end
  | SIX_LOCK_write => match readers g with [] => true | _ => false end
  end.

Definition acquire (g : holders) (t : six_lock_type) (me : Z) : holders :=
  match t with
  | SIX_LOCK_read => mk_holders (me :: readers g) (intent g) (wr g) (hidden g)
  | SIX_LOCK_intent => mk_holders (readers g) (Some me) (wr g) (hidden g)
  | SIX_LOCK_write => mk_holders (readers g) (intent g) (WHeld me) (hidden g)
  end.

Definition holds (g : holders) (t : six_lock_type) (me : Z) : Prop :=
  match t with
  | SIX_LOCK_read => me ∈ readers g
  | SIX_LOCK_intent => intent g = Some me
  | SIX_LOCK_write => wr g = WHeld me
  end.

Fixpoint remove_one (x : Z) (xs : list Z) : list Z :=
  match xs with
  | [] => []
  | y :: ys => if x =? y then ys else y :: remove_one x ys
  end.

Definition release (g : holders) (t : six_lock_type) (me : Z) : holders :=
  match t with
  | SIX_LOCK_read => mk_holders (remove_one me (readers g)) (intent g) (wr g) (hidden g)
  | SIX_LOCK_intent => mk_holders (readers g) None (wr g) (hidden g)
  | SIX_LOCK_write => mk_holders (readers g) (intent g) WNone (hidden g)
  end.

(** Who may ask for a lock: the reader count must not overflow into the
    intent bit, and only the intent owner asks for the write lock. *)
Definition may_ask (g : holders) (t : six_lock_type) (me : Z) (try_lock : bool) : Prop :=
  match t with
  | SIX_LOCK_read => Z.of_nat (length (readers g)) + 1 < 2 ^ 26
  | SIX_LOCK_intent => True
  | SIX_LOCK_write => intent g = Some me /\ wr g = if try_lock then WNone else WPending me
  end.

Definition wr_set (x : wstate) : bool := match x with WNone => false | _ => true end.
Definition is_set (x : option Z) : bool := match x with None => false | _ => true end.

(** The lock word and owner show the holders; a write lock is only held by
    the intent owner and excludes the readers of other threads, and only the
    intent owner hides readers. *)
Record lock_inv (l : six_lock) (g : holders) : Prop := {
  li_word : exists f, word (state l) (Z.of_nat (length (readers g))) (is_set (intent g)) (wr_set (wr g)) f;
  li_owner : owner l = intent g;
  li_wr t : wr g = WPending t \/ wr g = WHeld t -> intent g = Some t;
  li_excl t : wr g = WHeld t -> Forall (fun r => r = t) (readers g);
  li_hidden : Forall (fun r => intent g = Some r) (hidden g)
}.

Lemma lock_inv_default : lock_inv six_lock_default no_holders.
Proof.
  split; cbn; try done.
  - exists 0. by split.
  - intros t [|]; done.
Qed.

(** The state word, the owner and nothing else matter to [lock_inv]. *)
Lemma lock_inv_ext l l' g : lock_inv l g -> state l' = state l -> owner l' = owner l -> lock_inv l' g.
Proof. intros [H1 H2 H3 H4 H5] Hs Ho. split; try done; [by rewrite Hs|by rewrite Ho]. Qed.

Lemma is_type_spec a b : is_type a b = true <-> a = b.
Proof. unfold is_type. by rewrite bool_decide_eq_true. Qed.

Lemma wadd_word s v : 0 <= s + v < 2 ^ 32 -> wadd 32 s v = s + v.
Proof. intros. by apply wadd_small. Qed.

Lemma wsub_word s v : 0 <= s - v < 2 ^ 32 -> wsub 32 s v = s - v.
Proof. intros. by apply wsub_small. Qed.

Ltac lock_inv_done f :=
  split; cbn; first [by exists f | done | by intros ? [|] | intros; by constructor | naive_solver].

(** Nobody hides readers while the intent lock is free. *)
Lemma hidden_nil g : Forall (fun r => intent g = Some r) (hidden g) -> intent g = None -> hidden g = [].
Proof. intros H E. destruct H as [|x xs Hx _]; [done|congruence]. Qed.

(** The grant of a lock: exactly when the abstract lock can. *)
Definition granted (l : six_lock) (g : holders) (t : six_lock_type) (me : Z) (try_lock : bool) : Prop :=
  exists l', __do_six_trylock l t me try_lock = Some (can g t, l') /\
    lock_inv l' (if can g t then acquire g t me else g) /\
    wait_lock l' = wait_lock l /\ seqno l' = seqno l.

Lemma trylock_read l g me try_lock : lock_inv l g -> may_ask g SIX_LOCK_read me try_lock ->
  granted l g SIX_LOCK_read me try_lock.
Proof.
  intros Hi Hask. pose proof Hi as [[f Hw] Ho Hwr Hex Hhid].
  unfold granted, __do_six_trylock, is_type. cbn [may_ask] in Hask.
  rewrite bool_decide_false by done. bind_simpl. cbn [lock_fail andb].
  rewrite orb_false_r, (word_write _ _ _ _ _ Hw).
  destruct (wr g) eqn:Ewr; cbn [can wr_set negb acquire]; rewrite ?Ewr.
  - pose proof (lock_word_range _ _ _ _ _ Hw). destruct Hw as [E Hr Hf].
    rewrite wadd_word by (cbn [lock_val]; destruct (is_set (intent g)); cbn [Z.b2z] in *; lia).
    assert (word (state l + 1) (Z.of_nat (length (me :: readers g))) (is_set (intent g)) false f) as Hw'.
    { cbn [length wr_set Z.b2z] in *. split; [cbn [Z.b2z]; lia|lia|done]. }
    cbn [set_state state lock_val held_mask]. rewrite (word_read _ _ _ _ _ Hw').
    assert (assert (negb (Z.of_nat (length (me :: readers g)) =? 0)) = Some tt) as -> by done.
    bind_simpl. eexists. split; [reflexivity|]. split; [|done].
    rewrite ?Ewr. lock_inv_done f.
  - eexists. split; [reflexivity|]. done.
  - eexists. split; [reflexivity|]. done.
Qed.

Lemma trylock_intent l g me try_lock : lock_inv l g -> may_ask g SIX_LOCK_intent me try_lock ->
  granted l g SIX_LOCK_intent me try_lock.
Proof.
  intros Hi Hask. pose proof Hi as [[f Hw] Ho Hwr Hex Hhid].
  unfold granted, __do_six_trylock, is_type. cbn [may_ask] in Hask.
  rewrite bool_decide_false by done. bind_simpl. cbn [lock_fail andb].
  rewrite orb_false_r, (word_intent _ _ _ _ _ Hw).
  pose proof (hidden_nil g Hhid) as Hnil.
  destruct (intent g) as [o|] eqn:Eo; cbn [can is_set negb acquire]; rewrite ?Eo; cbn [negb].
  - eexists. split; [reflexivity|]. done.
  - specialize (Hnil eq_refl). assert (wr g = WNone) as Ewr.
    { destruct (wr g) as [|x|x] eqn:E; [done|..]; specialize (Hwr x); rewrite ?E in Hwr; naive_solver. }
    pose proof (lock_word_range _ _ _ _ _ Hw). rewrite Ewr in *. destruct Hw as [E Hr Hf]. cbn [is_set wr_set Z.b2z] in E.
    rewrite wadd_word by (cbn [lock_val]; unfold SIX_LOCK_HELD_INTENT; lia).
    assert (word (state l + SIX_LOCK_HELD_INTENT) (Z.of_nat (length (readers g))) true false f) as Hw'.
    { split; [unfold SIX_LOCK_HELD_INTENT; cbn [Z.b2z]; lia|lia|done]. }
    cbn [set_state state lock_val held_mask]. rewrite (word_intent _ _ _ _ _ Hw').
    cbn [negb assert]. bind_simpl. unfold six_set_owner.
    unfold is_type. rewrite bool_decide_true by done. cbn [negb].
    assert (Z.land (state l) SIX_LOCK_HELD_INTENT =? 0 = true) as ->.
    { apply (word_intent _ (Z.of_nat (length (readers g))) false false f). by split. }
    cbn [owner set_state]. rewrite Ho, bool_decide_true by done. cbn [assert]. bind_simpl.
    eexists. split; [reflexivity|]. split; [|done].
    rewrite ?Ewr, Hnil. lock_inv_done f.
Qed.

Lemma trylock_write l g me try_lock : lock_inv l g -> may_ask g SIX_LOCK_write me try_lock ->
  granted l g SIX_LOCK_write me try_lock.
Proof.
  intros Hi Hask. pose proof Hi as [[f Hw] Ho Hwr Hex Hhid].
  unfold granted, __do_six_trylock, is_type. cbn [may_ask] in Hask.
  rewrite !bool_decide_true by done. destruct Hask as [Hint Hw0].
  assert (Forall (fun r => Some me = Some r) (hidden g)) as Hhid' by (by rewrite <- Hint).
  rewrite Ho, Hint, bool_decide_true by done. cbn [assert]. bind_simpl.
  rewrite (word_write _ _ _ _ _ Hw). rewrite Hw0.
  assert (assert (Bool.eqb try_lock (negb (wr_set (if try_lock then WNone else WPending me)))) = Some tt)
    as -> by by destruct try_lock.
  bind_simpl. cbn [lock_fail andb]. rewrite (word_read _ _ _ _ _ Hw).
  destruct (readers g) as [|r0 rs] eqn:Er; cbn [can length]; rewrite ?Er.
  - cbn [Z.of_nat Z.eqb negb orb]. destruct try_lock; cbn [negb].
    + pose proof (lock_word_range _ _ _ _ _ Hw). rewrite Hw0 in Hw. destruct Hw as [E Hr Hf]. cbn [is_set wr_set Z.b2z length Z.of_nat] in E.
      rewrite Hint in *. cbn [is_set Z.b2z] in *.
      rewrite wadd_word by (cbn [lock_val]; unfold SIX_LOCK_HELD_WRITE; lia).
      assert (word (state l + SIX_LOCK_HELD_WRITE) 0 true true f) as Hw'.
      { split; [unfold SIX_LOCK_HELD_WRITE; cbn [Z.b2z]; lia|lia|done]. }
      cbn [set_state state lock_val held_mask]. rewrite (word_write _ _ _ _ _ Hw').
      cbn [negb assert]. bind_simpl. unfold six_set_owner, is_type.
      rewrite bool_decide_false by done. cbn [negb].
      eexists. split; [reflexivity|]. split; [|done].
      unfold acquire. rewrite Hint, Er. lock_inv_done f.
    + unfold six_set_owner, is_type. rewrite bool_decide_false by done. cbn [negb].
      eexists. split; [reflexivity|]. split; [|done].
      rewrite Hw0, Hint in Hw. rewrite Hint in Ho. unfold acquire. rewrite Hint, Er. lock_inv_done f.
  - assert (Z.of_nat (S (length rs)) =? 0 = false) as -> by (apply Z.eqb_neq; lia).
    cbn [negb orb]. eexists. split; [reflexivity|]. done.
Qed.

(** [__do_six_trylock] grants exactly when the abstract lock can, and never
    panics for a thread that may ask. *)
Lemma trylock_spec l g t me try_lock : lock_inv l g -> may_ask g t me try_lock ->
  granted l g t me try_lock.
Proof. destruct t; [apply trylock_read|apply trylock_intent|apply trylock_write]. Qed.

Lemma remove_one_length x xs : x ∈ xs -> length xs = S (length (remove_one x xs)).
Proof.
  induction xs as [|y ys IH]; cbn; [intros H; inversion H|].
  intros H. destruct (Z.eqb_spec x y); [done|]. cbn. f_equal. apply IH.
  apply elem_of_cons in H as [|]; [done|assumption].
Qed.

Lemma remove_one_Forall (P : Z -> Prop) x xs : Forall P xs -> Forall P (remove_one x xs).
Proof. induction 1 as [|y ys Hy H IH]; cbn; [by constructor|]. destruct (x =? y); [done|by constructor]. Qed.

Lemma land_pow2_value s n : 0 <= n -> Z.land s (2 ^ n) = if Z.testbit s n then 2 ^ n else 0.
Proof.
  intros Hn. destruct (Z.testbit s n) eqn:E.
  - apply Z.bits_inj'. intros k Hk. rewrite Z.land_spec, Z.pow2_bits_eqb by lia.
    destruct (Z.eqb_spec n k) as [<-|]; [by rewrite E|apply andb_false_r].
  - apply Z.eqb_eq. by rewrite land_pow2_testbit, E by lia.
Qed.

(** Dropping the intent or write bit also drops the spin bit. *)
Lemma unlock_value l g f t :
  word (state l) (Z.of_nat (length (readers g))) (is_set (intent g)) (wr_set (wr g)) f ->
  t <> SIX_LOCK_read -> exists f', 0 <= f' < 2 ^ 4 /\
    uadd 32 (lock_val t) (Z.land (state l) SIX_LOCK_NOSPIN) = Some (lock_val t + (f - f') * 2 ^ 28) /\
    f' <= f.
Proof.
  intros Hw Ht. unfold SIX_LOCK_NOSPIN. rewrite land_pow2_value by lia.
  change 31 with (28 + 3) at 1. rewrite (word_flag _ _ _ _ _ Hw) by lia.
  assert (lock_val t < 2 ^ 31) by (destruct t; cbn; unfold SIX_LOCK_HELD_INTENT, SIX_LOCK_HELD_WRITE; lia).
  destruct (Z.testbit f 3) eqn:E.
  - pose proof (flag_ge _ _ _ _ _ Hw 3 ltac:(lia) E). destruct Hw as [_ _ Hf].
    exists (f - 2 ^ 3). rewrite uadd_ok by lia. split; [lia|]. split; [f_equal; lia|lia].
  - destruct Hw as [_ _ Hf]. exists f. rewrite uadd_ok by lia. split; [lia|]. split; [f_equal; lia|lia].
Qed.

Definition may_release (g : holders) (t : six_lock_type) (me : Z) : Prop :=
  holds g t me /\ (t = SIX_LOCK_intent -> wr g = WNone /\ hidden g = []).

Lemma unlock_release_spec l g t me : lock_inv l g -> may_release g t me ->
  exists l', unlock_release l t = Some (state l', l') /\ lock_inv l' (release g t me) /\
    wait_lock l' = wait_lock l /\ seqno l' = seqno l.
Proof.
  intros [[f Hw] Ho Hwr Hex Hhid] [Hh Hn]. unfold unlock_release, is_type.
  pose proof (lock_word_range _ _ _ _ _ Hw). destruct t; cbn [holds] in Hh.
  - rewrite bool_decide_false, bool_decide_true by done. cbn [negb]. bind_simpl.
    pose proof (remove_one_length _ _ Hh) as Hl. cbn [held_mask lock_val].
    rewrite (word_read _ _ _ _ _ Hw), Hl.
    assert (assert (negb (Z.of_nat (S (length (remove_one me (readers g)))) =? 0)) = Some tt) as -> by done.
    bind_simpl. rewrite Hl in Hw. pose proof Hw as [E Hr Hf].
    rewrite wsub_word by (destruct (is_set (intent g)), (wr_set (wr g)); cbn [Z.b2z] in *; lia).
    eexists (set_state _ _). split; [reflexivity|]. split; [|done]. cbn [release].
    split; cbn; [exists f; split; [lia|lia|done]|done..| |done].
    intros t Ht. by apply remove_one_Forall, Hex.
  - destruct (Hn eq_refl) as [Hnw Hnh]. clear Hn. rewrite bool_decide_true, bool_decide_false by done. cbn [negb set_owner state].
    destruct (unlock_value l g f SIX_LOCK_intent Hw) as (f' & Hf' & -> & Hle); [done|]. bind_simpl.
    cbn [held_mask]. rewrite (word_intent _ _ _ _ _ Hw), Hh. cbn [is_set negb assert]. bind_simpl.
    rewrite Hh, Hnw in Hw. pose proof Hw as [E Hr Hf]. cbn [is_set wr_set Z.b2z] in E.
    rewrite wsub_word by (cbn [lock_val]; unfold SIX_LOCK_HELD_INTENT; lia).
    eexists (set_state _ _). split; [reflexivity|]. split; [|done]. cbn [release]. rewrite Hnw, Hnh.
    split; cbn; [|done|by intros ? [|]|done|by constructor].
    exists f'. split; [unfold SIX_LOCK_HELD_INTENT; cbn [Z.b2z]; lia|lia|done].
  - rewrite !bool_decide_false by done. cbn [negb].
    destruct (unlock_value l g f SIX_LOCK_write Hw) as (f' & Hf' & -> & Hle); [done|]. bind_simpl.
    cbn [held_mask]. rewrite (word_write _ _ _ _ _ Hw), Hh. cbn [wr_set negb assert]. bind_simpl.
    rewrite Hh in Hw. pose proof Hw as [E Hr Hf]. cbn [wr_set Z.b2z] in E.
    rewrite wsub_word by (cbn [lock_val]; unfold SIX_LOCK_HELD_WRITE; destruct (is_set (intent g)); cbn [Z.b2z] in *; lia).
    eexists (set_state _ _). split; [reflexivity|]. split; [|done]. cbn [release].
    split; cbn; [|done|by intros ? [|]|done|done].
    exists f'. split; [unfold SIX_LOCK_HELD_WRITE; cbn [Z.b2z]; lia|lia|done].
Qed.

(** [six_unlock_ip] up to the wakeup. *)
Lemma unlock_begin_spec l g t me : lock_inv l g -> holds g t me ->
  (t = SIX_LOCK_intent -> intent_lock_recurse l = 0 -> wr g = WNone /\ hidden g = []) ->
  exists r l', unlock_begin l t me = Some (r, l') /\ wait_lock l' = wait_lock l /\
    match r with
    | None => lock_inv l' g /\ seqno l' = seqno l
    | Some st => st = state l' /\ lock_inv l' (release g t me) /\
        seqno l' = if is_type t SIX_LOCK_write then wadd 32 (seqno l) 1 else seqno l
    end.
Proof.
  intros Hi Hh Hn. pose proof Hi as [[f Hw] Ho Hwr Hex Hhid]. unfold unlock_begin, is_type.
  assert (forall l0, lock_inv l0 g -> may_release g t me -> wait_lock l0 = wait_lock l ->
    (exists r l', ('(st, l1) ← unlock_release l0 t; Some (Some st, l1)) = Some (r, l') /\
     wait_lock l' = wait_lock l /\
     match r with
     | None => lock_inv l' g /\ seqno l' = seqno l
     | Some st => st = state l' /\ lock_inv l' (release g t me) /\ seqno l' = seqno l0
     end)) as Hgo.
  { intros l0 Hi0 Hm Hwl. destruct (unlock_release_spec l0 g t me Hi0 Hm) as (l' & -> & Hi' & Hw' & Hs').
    bind_simpl. do 2 eexists. split; [reflexivity|]. by rewrite Hw'. }
  destruct t; cbn [holds] in Hh.
  - rewrite !bool_decide_false by done. cbn [orb andb]. bind_simpl. by apply Hgo.
  - rewrite (bool_decide_false (SIX_LOCK_intent = SIX_LOCK_write)), bool_decide_true by done. cbn [orb andb].
    bind_simpl. rewrite Ho, Hh, bool_decide_true by done. cbn [assert]. bind_simpl.
    destruct (Z.eqb_spec (intent_lock_recurse l) 0); cbn [negb].
    + apply Hgo; try done. by split; [|intros _; apply Hn].
    + do 2 eexists. split; [reflexivity|]. split; [done|]. split; [|done]. by apply (lock_inv_ext l).
  - rewrite (bool_decide_true (SIX_LOCK_write = SIX_LOCK_write)), (bool_decide_false (SIX_LOCK_write = SIX_LOCK_intent)) by done.
    rewrite (word_intent _ _ _ _ _ Hw). pose proof (Hwr me ltac:(by right)) as Hint. rewrite Hint.
    cbn [is_set negb assert orb andb]. bind_simpl. rewrite Ho, Hint, bool_decide_true by done.
    cbn [assert]. bind_simpl. destruct (Z.eqb_spec (write_lock_recurse l) 0); cbn [negb].
    + apply Hgo; [by apply (lock_inv_ext l)|by split|done].
    + do 2 eexists. split; [reflexivity|]. split; [done|]. split; [|done]. by apply (lock_inv_ext l).
Qed.

(** ** The wait fifo as a set of occupied slots *)

Definition occupied (f : six_lock_wait_fifo) (i : nat) (s : six_lock_wait_slot) : Prop :=
  data f !! i = Some s /\ is_Some (w s).

Record fifo_inv (f : six_lock_wait_fifo) : Prop := {
  fi_len : length (data f) = size f;
  fi_size : (0 < size f)%nat;
  fi_u16 : Z.of_nat (size f) < 2 ^ 16;
  fi_nr : (nr f <= size f)%nat;
  fi_hint : (next_free_hint f < size f)%nat;
  fi_above i s : occupied f i s -> (i < nr f)%nat
}.

Lemma fifo_inv_default : fifo_inv six_lock_wait_fifo_default.
Proof.
  split; [done|first [done | compute; lia]..|]. intros i s [E [p Hp]].
  cbn [six_lock_wait_fifo_default data] in E.
  apply lookup_replicate in E as [-> _]. done.
Qed.

Lemma lookup_data f i : fifo_inv f -> (i < size f)%nat -> exists s, data f !! i = Some s.
Proof. intros Hf Hi. apply lookup_lt_is_Some_2. by rewrite fi_len. Qed.

Lemma shrink_nr_spec f n : fifo_inv f -> (n <= nr f)%nat ->
  exists m, shrink_nr (data f) n = Some m /\ (m <= n)%nat /\
    (forall i s, occupied f i s -> (i < n)%nat -> (i < m)%nat).
Proof.
  intros Hf. pose proof (fi_nr f Hf). induction n as [|n IH]; intros Hn.
  - exists 0%nat. split; [done|]. split; [lia|]. intros; lia.
  - cbn [shrink_nr]. destruct (lookup_data f n Hf ltac:(lia)) as [s E]. rewrite E. bind_simpl.
    case_bool_decide as Hs.
    + destruct IH as (m & -> & Hm & Hocc); [lia|]. exists m. split; [done|]. split; [lia|].
      intros i s' Ho Hi. apply (Hocc i s' Ho). destruct (decide (i = n)) as [->|]; [|lia].
      destruct Ho as [E' [p Hp]]. by simplify_eq.
    + exists (S n). split; [done|]. split; [lia|]. intros; lia.
Qed.

Lemma fifo_shrink_spec f : fifo_inv f -> exists f', six_lock_wait_fifo_shrink f = Some f' /\
  fifo_inv f' /\ (forall i s, occupied f' i s <-> occupied f i s).
Proof.
  intros Hf. destruct (shrink_nr_spec f (nr f) Hf ltac:(lia)) as (m & Em & Hm & Hocc).
  unfold six_lock_wait_fifo_shrink. rewrite Em. bind_simpl. eexists. split; [reflexivity|].
  split; [|done]. destruct Hf as [H1 H2 H3 H4 H5 H6].
  split; cbn [size nr next_free_hint data]; try done; try lia; [by destruct (Nat.ltb_spec m (next_free_hint f)); lia|].
  intros i s Ho. apply (Hocc i s Ho). by apply (H6 i s).
Qed.

Lemma fifo_remove_spec f idx : fifo_inv f -> (idx < size f)%nat ->
  exists f', six_lock_wait_fifo_remove f idx = Some f' /\ fifo_inv f' /\
    (forall i s, occupied f' i s <-> i <> idx /\ occupied f i s).
Proof.
  intros Hf Hidx. destruct (lookup_data f idx Hf Hidx) as [s0 E0].
  unfold six_lock_wait_fifo_remove. rewrite E0. bind_simpl. eexists. split; [reflexivity|].
  set (f' := mk_six_lock_wait_fifo _ _ _ _).
  assert (forall i s, occupied f' i s <-> i <> idx /\ occupied f i s) as Hocc.
  { intros i s. unfold occupied, f'. cbn. destruct (decide (i = idx)) as [->|Hne].
    - rewrite list_lookup_insert_eq by (by apply lookup_lt_Some in E0).
      naive_solver.
    - rewrite list_lookup_insert_ne by done. tauto. }
  split; [|done]. destruct Hf as [H1 H2 H3 H4 H5 H6].
  split; cbn; try done; try lia; [by rewrite length_insert|].
  intros i s Ho. apply Hocc in Ho as [_ Ho]. by apply (H6 i s).
Qed.

Lemma free_slot_spec f i fuel : fifo_inv f -> (i <= nr f)%nat -> (nr f <= i + fuel)%nat ->
  exists k, free_slot (data f) (nr f) i fuel = Some k /\ (k <= nr f)%nat /\
    (forall s, ~ occupied f k s).
Proof.
  intros Hf. pose proof (fi_nr f Hf). revert i. induction fuel as [|fuel IH]; intros i Hi Hfu; cbn [free_slot];
    (destruct (Nat.ltb_spec i (nr f)) as [Hlt|Hge];
     [|exists i; split; [done|]; split; [lia|]; intros s Ho; pose proof (fi_above f Hf i s Ho); lia]);
    [lia|].
  destruct (lookup_data f i Hf ltac:(lia)) as [s E]. rewrite E. bind_simpl.
  case_bool_decide as Hs; [|apply IH; lia].
  exists i. split; [done|]. split; [lia|]. intros s' [E' [p Hp]]. by simplify_eq.
Qed.

Lemma want_bits wait : 
  Z.land (Z.lor (Z.shiftl (trans_start_time wait) SIX_LOCK_WANT_BITS mod 2 ^ 64)
    (Z.land (type_index (lock_want wait)) SIX_LOCK_WANT_MASK)) SIX_LOCK_WANT_MASK =
  type_index (lock_want wait).
Proof.
  unfold SIX_LOCK_WANT_MASK, SIX_LOCK_WANT_BITS. change 3 with (Z.ones 2).
  rewrite Z.shiftl_mul_pow2 by lia. change 64 with (2 + 62). rewrite mul_pow2_mod by lia.
  assert (Z.land (type_index (lock_want wait)) (Z.ones 2) = type_index (lock_want wait)) as ->
    by by destruct (lock_want wait).
  assert (0 <= type_index (lock_want wait) < 2 ^ 2) by (by destruct (lock_want wait)).
  rewrite lor_high_low, Z.land_ones by lia. by apply mod_low.
Qed.

(** The fifo after it has doubled, if that was needed. *)
Lemma fifo_grow_inv f : fifo_inv f -> Z.of_nat (size f) < 2 ^ 15 ->
  fifo_inv (mk_six_lock_wait_fifo (size f * 2) (nr f) (next_free_hint f)
    (data f ++ replicate (size f * 2 - size f) empty_slot)) /\
  (forall i s, occupied (mk_six_lock_wait_fifo (size f * 2) (nr f) (next_free_hint f)
    (data f ++ replicate (size f * 2 - size f) empty_slot)) i s <-> occupied f i s).
Proof.
  intros Hf Hlt. set (f' := mk_six_lock_wait_fifo _ _ _ _).
  assert (forall i s, occupied f' i s <-> occupied f i s) as Hocc.
  { intros i s. unfold occupied, f'. cbn. split; intros [E Hs]; (split; [|done]).
    - apply lookup_app_Some in E as [|[_ E]]; [done|].
      apply lookup_replicate in E as [-> _]. by destruct Hs.
    - by apply lookup_app_l_Some. }
  split; [|done]. destruct Hf as [H1 H2 H3 H4 H5 H6].
  split; cbn; try lia; [rewrite length_app, length_replicate; lia|].
  intros i s Ho. apply Hocc in Ho. by apply (H6 i s).
Qed.

(** Queueing a waiter occupies exactly one slot, a free one, and leaves the
    others alone. *)
Lemma fifo_insert_spec f ptr wait : fifo_inv f -> Z.of_nat (nr f) < 2 ^ 15 ->
  exists f' i st, six_lock_wait_fifo_insert f ptr wait =
      Some (f', mk_six_lock_waiter (trans_start_time wait) (task wait) (lock_want wait)
                  (lock_acquired wait) i) /\
    fifo_inv f' /\ Z.land st SIX_LOCK_WANT_MASK = type_index (lock_want wait) /\
    (forall s, ~ occupied f i s) /\
    (forall j s, occupied f' j s <->
       j = i /\ s = mk_six_lock_wait_slot (Some ptr) st \/ j <> i /\ occupied f j s).
Proof.
  intros Hf Hnr. unfold six_lock_wait_fifo_insert.
  destruct (lookup_data f (next_free_hint f) Hf (fi_hint f Hf)) as [h Eh]. rewrite Eh. bind_simpl.
  match goal with |- context [mbind _ (if ?c then ?x else ?y)] =>
    assert (exists i f1, (if c then x else y) = Some (i, f1) /\ fifo_inv f1 /\ (i < size f1)%nat /\
      (forall s, ~ occupied f i s) /\ (forall j s, occupied f1 j s <-> occupied f j s))
      as (i & f1 & -> & Hf1 & Hi & Hfree & Hsame) end.
  { case_bool_decide as Hh.
    - exists (next_free_hint f), f. split; [done|]. split; [done|]. split; [apply Hf|]. split; [|done].
      intros s [E [p Hp]]. by simplify_eq.
    - destruct (free_slot_spec f 0 (nr f) Hf) as (k & -> & Hk & Hfree); [lia..|]. bind_simpl.
      pose proof (fi_nr f Hf). pose proof (fi_size f Hf). destruct (Nat.eqb_spec k (size f)) as [->|Hne].
      + destruct (Z.ltb_spec (Z.of_nat (size f)) (2 ^ 15)); [|lia]. cbn [assert]. bind_simpl.
        destruct (fifo_grow_inv f Hf ltac:(lia)) as [Hg Hgo].
        do 2 eexists. split; [reflexivity|]. split; [done|]. split; [cbn; lia|]. done.
      + exists k, f. split; [done|]. split; [done|]. split; [lia|]. done. }
  bind_simpl. destruct (lookup_data f1 i Hf1 Hi) as [si Ei]. rewrite Ei. bind_simpl.
  do 3 eexists. split; [reflexivity|]. set (f' := mk_six_lock_wait_fifo _ _ _ _).
  assert (forall j s, occupied f' j s <-> j = i /\ s = mk_six_lock_wait_slot (Some ptr)
    (Z.lor (Z.shiftl (trans_start_time wait) SIX_LOCK_WANT_BITS mod 2 ^ 64)
       (Z.land (type_index (lock_want wait)) SIX_LOCK_WANT_MASK)) \/ j <> i /\ occupied f j s) as Hocc.
  { intros j s. unfold occupied at 1, f'. cbn [data]. destruct (decide (j = i)) as [->|Hne].
    - rewrite list_lookup_insert_eq by (by apply lookup_lt_Some in Ei). naive_solver.
    - rewrite list_lookup_insert_ne by done. fold (occupied f1 j s). rewrite Hsame. tauto. }
  split; [|split; [apply want_bits|done]].
  destruct Hf1 as [H1 H2 H3 H4 H5 H6]. split; unfold f'; cbn [data size nr next_free_hint]; try done; try lia.
  - by rewrite length_insert.
  - pose proof (Nat.land_le_r (i + 1) (size f1 - 1)). lia.
  - intros j s Ho. apply Hocc in Ho as [[-> _]|[_ Ho]]; [lia|].
    apply Hsame in Ho. apply (H6 j s) in Ho. lia.
Qed.

(** ** The lock with its waiters *)

(** Slot [sl], number [i], belongs to the waiter at [ptr] of thread [tsk]. *)
Record queued (ws : gmap Z six_lock_waiter) (i : nat) (sl : six_lock_wait_slot)
  (ptr : Z) (wait : six_lock_waiter) (tsk : Z) : Prop := {
  qd_ptr : w sl = Some ptr;
  qd_wait : ws !! ptr = Some wait;
  qd_task : task wait = Some tsk;
  qd_acq : lock_acquired wait = false;
  qd_idx : slot_idx wait = i;
  qd_want : Z.land (start_time sl) SIX_LOCK_WANT_MASK = type_index (lock_want wait)
}.

Record queue_inv (f : six_lock_wait_fifo) (ws : gmap Z six_lock_waiter) (g : holders) : Prop := {
  qi_waiter i sl : occupied f i sl -> exists ptr wait tsk, queued ws i sl ptr wait tsk /\
    (lock_want wait = SIX_LOCK_write -> wr g = WPending tsk);
  qi_task i j sl sl' ptr ptr' wait wait' tsk : occupied f i sl -> occupied f j sl' ->
    queued ws i sl ptr wait tsk -> queued ws j sl' ptr' wait' tsk -> i = j
}.

Record inv (s : world) (g : holders) : Prop := {
  inv_lock : lock_inv s.1 g;
  inv_fifo : fifo_inv (wait_lock s.1);
  inv_queue : queue_inv (wait_lock s.1) s.2 g
}.

Lemma inv_default : inv (six_lock_default, ∅) no_holders.
Proof.
  split; cbn; [apply lock_inv_default|apply fifo_inv_default|].
  split; [|intros i j sl sl' p p' wt wt' tsk H]; [intros i sl H|];
    pose proof (fi_above _ fifo_inv_default i sl H) as Hlt; cbn in Hlt; lia.
Qed.

(** Only a change of the pending writer matters to the queue. *)
Lemma queue_inv_wr f ws g g' : queue_inv f ws g ->
  (forall t, wr g = WPending t -> wr g' = WPending t) -> queue_inv f ws g'.
Proof.
  intros [H1 H2] Hwr. split; [|done]. intros i sl Ho.
  destruct (H1 i sl Ho) as (ptr & wait & tsk & Hq & Hw). naive_solver.
Qed.

Lemma queue_inv_occ f f' ws g : queue_inv f ws g ->
  (forall i sl, occupied f' i sl -> occupied f i sl) -> queue_inv f' ws g.
Proof. intros [H1 H2] Hocc. split; [eauto|]. intros; eapply H2; eauto. Qed.

(** Waiters that are not in the queue may change. *)
Lemma queued_other ws i sl ptr wait tsk ptr0 wt0 : ptr <> ptr0 ->
  queued (<[ptr0 := wt0]> ws) i sl ptr wait tsk <-> queued ws i sl ptr wait tsk.
Proof.
  intros Hne. split; intros [H1 H2 H3 H4 H5 H6]; split; try done.
  - by rewrite lookup_insert_ne in H2 by done.
  - by rewrite lookup_insert_ne by done.
Qed.

Lemma type_index_inj t t' : type_index t = type_index t' -> t = t'.
Proof. by destruct t, t'. Qed.

(** [ptr] is not in the queue. *)
Definition unqueued (f : six_lock_wait_fifo) (ptr : Z) : Prop :=
  forall i sl, occupied f i sl -> w sl <> Some ptr.

Lemma queue_inv_insert f ws g ptr wt : queue_inv f ws g -> unqueued f ptr ->
  queue_inv f (<[ptr := wt]> ws) g.
Proof.
  intros [H1 H2] Hu. split.
  - intros i sl Ho. destruct (H1 i sl Ho) as (p & wait & tsk & Hq & Hw).
    exists p, wait, tsk. split; [|done]. apply queued_other; [|done].
    intros ->. apply (Hu i sl Ho). apply Hq.
  - intros i j sl sl' p p' wt1 wt2 tsk Ho Ho' Hq Hq'. apply (H2 i j sl sl' p p' wt1 wt2 tsk); try done.
    + apply queued_other in Hq; [done|]. intros ->. apply (Hu i sl Ho). apply Hq.
    + apply queued_other in Hq'; [done|]. intros ->. apply (Hu j sl' Ho'). apply Hq'.
Qed.

(** Taking slot [i] out of the queue frees its waiter. *)
Lemma unqueued_removed f f' ws g i sl ptr wait tsk : queue_inv f ws g ->
  occupied f i sl -> queued ws i sl ptr wait tsk ->
  (forall j s, occupied f' j s <-> j <> i /\ occupied f j s) -> unqueued f' ptr.
Proof.
  intros [H1 _] Ho Hq Hocc j s Hj E. apply Hocc in Hj as [Hne Hj].
  destruct (H1 j s Hj) as (p' & w' & t' & [Hp' Hw' _ _ Hi' _] & _). destruct Hq as [Hp Hw _ _ Hi _].
  apply Hne. congruence.
Qed.

(** ... and leaves no writer in the queue if the waiter was one. *)
Lemma queue_inv_removed f f' ws g g' i sl ptr wait tsk : queue_inv f ws g ->
  occupied f i sl -> queued ws i sl ptr wait tsk ->
  (forall j s, occupied f' j s <-> j <> i /\ occupied f j s) ->
  (forall t, t <> tsk -> wr g = WPending t -> wr g' = WPending t) -> queue_inv f' ws g'.
Proof.
  intros [H1 H2] Ho Hq Hocc Hwr. split.
  - intros j s Hj. apply Hocc in Hj as [Hne Hj].
    destruct (H1 j s Hj) as (p' & w' & t' & Hq' & Hw'). exists p', w', t'. split; [done|].
    intros Hwant. apply Hwr; [|by apply Hw']. intros ->. apply Hne. by eapply H2.
  - intros j k s s' p p' w1 w2 t Hj Hk. apply Hocc in Hj as [_ Hj]. apply Hocc in Hk as [_ Hk]. by eapply H2.
Qed.

Lemma queued_unique ws i sl ptr wait tsk ptr' wait' tsk' :
  queued ws i sl ptr wait tsk -> queued ws i sl ptr' wait' tsk' -> ptr = ptr' /\ wait = wait' /\ tsk = tsk'.
Proof. intros [? ? ? ? ? ?] [? ? ? ? ? ?]. naive_solver congruence. Qed.

(** ** The steps on the whole lock *)

Lemma waiting_mask_pow2 t : waiting_mask t = 2 ^ (28 + type_index t).
Proof. by destruct t. Qed.

Lemma type_index_range t : 0 <= type_index t < 4.
Proof. destruct t; cbn; lia. Qed.

(** [g] with [t] granted to [tsk]. *)
Definition grant (ok : bool) (g : holders) (t : six_lock_type) (tsk : Z) : holders :=
  if ok then acquire g t tsk else g.

Definition room (g : holders) : Prop := Z.of_nat (length (readers g)) + 1 < 2 ^ 26.

Lemma hand_over_spec s g t i sl : inv s g -> occupied (wait_lock s.1) i sl ->
  slot_wants sl t = true -> (t = SIX_LOCK_read -> room g) ->
  exists s' ptr wait tsk, queued s.2 i sl ptr wait tsk /\
    hand_over s t i = Some (can g t, s') /\ inv s' (grant (can g t) g t tsk) /\
    (forall j sl', i <> j -> occupied (wait_lock s.1) j sl' -> occupied (wait_lock s'.1) j sl') /\
    nr (wait_lock s'.1) = nr (wait_lock s.1) /\ seqno s'.1 = seqno s.1 /\
    (can g t = true -> s'.2 !! ptr = Some (set_acquired wait true) /\ unqueued (wait_lock s'.1) ptr).
Proof.
  intros [Hl Hf Hq] Ho Hwants Hroom. destruct s as [l ws]. cbn [fst snd] in *.
  destruct (qi_waiter _ _ _ Hq i sl Ho) as (ptr & wait & tsk & Hqd & Hwr).
  assert (lock_want wait = t) as Ht.
  { unfold slot_wants in Hwants. apply andb_true_iff in Hwants as [_ E]. apply Z.eqb_eq in E.
    apply type_index_inj. by rewrite <- (qd_want _ _ _ _ _ _ Hqd). }
  assert (may_ask g t tsk false) as Hask.
  { destruct t; cbn; [by apply Hroom|done|]. specialize (Hwr Ht). split; [|done].
    apply (li_wr _ _ Hl). by left. }
  destruct (trylock_spec l g t tsk false Hl Hask) as (l' & Etry & Hl' & Hwl & Hseq).
  unfold hand_over. rewrite (proj1 Ho). bind_simpl. rewrite (qd_ptr _ _ _ _ _ _ Hqd). bind_simpl.
  rewrite (qd_wait _ _ _ _ _ _ Hqd). bind_simpl. rewrite (qd_task _ _ _ _ _ _ Hqd). bind_simpl.
  rewrite Etry. bind_simpl. unfold grant. destruct (can g t) eqn:Ecan.
  - assert (i < size (wait_lock l'))%nat as Hi.
    { rewrite Hwl. pose proof (fi_above _ Hf i sl Ho). pose proof (fi_nr _ Hf). lia. }
    destruct (fifo_remove_spec (wait_lock l') i) as (f' & Erem & Hf' & Hocc); [by rewrite Hwl|done|].
    rewrite Erem. bind_simpl. rewrite Hwl in Hocc.
    exists (set_fifo l' f', <[ptr := set_acquired wait true]> ws), ptr, wait, tsk.
    assert (unqueued f' ptr) as Hun by by eapply unqueued_removed.
    split; [done|]. split; [done|]. split; [|split; [|split; [|split; [done|]]]].
    + split; cbn; [by apply (lock_inv_ext l')|done|].
      apply queue_inv_insert; [|done].
      eapply queue_inv_removed; try done. intros t' Hne Hp.
      destruct t; cbn [acquire wr]; [done..|]. specialize (Hwr Ht). congruence.
    + intros j sl' Hne Hj. cbn. apply Hocc. split; [done|assumption].
    + cbn. unfold six_lock_wait_fifo_remove in Erem. rewrite Hwl, (proj1 Ho) in Erem.
      cbn in Erem. by injection Erem as <-.
    + intros _. cbn. by rewrite lookup_insert_eq.
  - exists (l', ws), ptr, wait, tsk. split; [done|]. split; [done|]. cbn [fst snd].
    rewrite !Hwl, Hseq. split; [|done]. split; cbn [fst snd]; rewrite ?Hwl; done.
Qed.

Lemma clear_waiting_spec s g t : inv s g ->
  exists s', clear_waiting s t = Some s' /\ inv s' g /\ seqno s'.1 = seqno s.1 /\
    owner s'.1 = owner s.1 /\ s'.2 = s.2 /\
    (forall i sl, occupied (wait_lock s'.1) i sl -> occupied (wait_lock s.1) i sl).
Proof.
  intros [Hl Hf Hq]. destruct s as [l ws]. cbn [fst snd] in *.
  unfold clear_waiting. cbn [wait_lock set_state].
  destruct (fifo_shrink_spec _ Hf) as (f' & -> & Hf' & Hocc). bind_simpl.
  eexists. split; [reflexivity|]. split; [|repeat (split; [done|]); intros i sl; apply Hocc].
  split; cbn [fst snd set_fifo set_state wait_lock]; [|done|].
  - destruct Hl as [[f Hw] Ho Hwr Hex Hhid]. split; try done. cbn. rewrite waiting_mask_pow2.
    apply (word_clear_flag _ _ _ _ _ Hw (type_index t) (type_index_range t)).
  - eapply queue_inv_occ; [done|]. intros i sl. apply Hocc.
Qed.

Lemma shrink_fifo_spec s g : inv s g -> exists f',
  six_lock_wait_fifo_shrink (wait_lock s.1) = Some f' /\ inv (set_fifo s.1 f', s.2) g /\
    (forall i sl, occupied f' i sl -> occupied (wait_lock s.1) i sl).
Proof.
  intros [Hl Hf Hq]. destruct (fifo_shrink_spec _ Hf) as (f' & -> & Hf' & Hocc).
  exists f'. split; [done|]. split; [|intros i sl; apply Hocc]. split; cbn; [by apply (lock_inv_ext s.1)|done|].
  eapply queue_inv_occ; [done|]. intros i sl. apply Hocc.
Qed.

Definition claim (g : holders) (me : Z) : holders := mk_holders (readers g) (intent g) (WPending me) (hidden g).
Definition unclaim (g : holders) : holders := mk_holders (readers g) (intent g) WNone (hidden g).

Lemma slowpath_enter_spec l g me : lock_inv l g -> intent g = Some me -> wr g = WNone ->
  exists l', slowpath_enter l SIX_LOCK_write = Some l' /\ lock_inv l' (claim g me) /\
    wait_lock l' = wait_lock l /\ seqno l' = seqno l.
Proof.
  intros [[f Hw] Ho Hwr Hex Hhid] Hint Hn. unfold slowpath_enter, is_type. rewrite bool_decide_true by done.
  rewrite (word_write _ _ _ _ _ Hw), Hn. cbn [wr_set negb assert]. bind_simpl.
  rewrite Hint, Hn in Hw. pose proof Hw as [E Hr Hf]. cbn [is_set wr_set Z.b2z] in E.
  rewrite wadd_word by (unfold SIX_LOCK_HELD_WRITE; lia).
  eexists. split; [reflexivity|]. split; [|done]. unfold claim. rewrite Hint in *.
  split; cbn; [|done|naive_solver|done|done].
  exists f. split; [unfold SIX_LOCK_HELD_WRITE; cbn [Z.b2z]; lia|lia|done].
Qed.

(** Thread [me] is not asleep on the lock. *)
Definition awake (s : world) (me : Z) : Prop :=
  forall i sl ptr wait, occupied (wait_lock s.1) i sl -> ~ queued s.2 i sl ptr wait me.

Lemma slowpath_queue_spec s g t ptr me : inv s g -> may_ask g t me false ->
  is_Some (s.2 !! ptr) -> unqueued (wait_lock s.1) ptr -> awake s me ->
  Z.of_nat (nr (wait_lock s.1)) < 2 ^ 15 ->
  exists s', slowpath_queue s t ptr me = Some (can g t, s') /\ inv s' (grant (can g t) g t me) /\
    seqno s'.1 = seqno s.1.
Proof.
  intros [Hl Hf Hq] Hask [wait0 Hw0] Hu Haw Hnr. destruct s as [l ws]. cbn [fst snd] in *.
  unfold slowpath_queue. rewrite Hw0. bind_simpl.
  set (wait := mk_six_lock_waiter _ _ _ _ _). set (l1 := set_state l _).
  assert (lock_inv l1 g) as Hl1.
  { destruct Hl as [[f Hw] Ho Hwr Hex Hhid]. split; try done. cbn. rewrite waiting_mask_pow2.
    apply (word_set_flag _ _ _ _ _ Hw (type_index t) (type_index_range t)). }
  destruct (trylock_spec l1 g t me false Hl1 Hask) as (l2 & -> & Hl2 & Hwl & Hseq). bind_simpl.
  change (wait_lock l1) with (wait_lock l) in Hwl. unfold grant. destruct (can g t) eqn:Ecan.
  - eexists. split; [reflexivity|]. split; [|done]. split; cbn [fst snd]; [done|by rewrite Hwl|].
    rewrite Hwl. apply queue_inv_insert; [|done].
    destruct t; [by apply (queue_inv_wr _ _ g)..|]. destruct Hask as [_ Hp]. destruct Hq as [H1 H2].
    split; [|done]. intros i sl Hoc. destruct (H1 i sl Hoc) as (p & wt & tsk & Hqd & Hwr).
    exists p, wt, tsk. split; [done|]. intros Hwant. specialize (Hwr Hwant).
    exfalso. apply (Haw i sl p wt Hoc). cbn. congruence.
  - destruct (fifo_insert_spec (wait_lock l2) ptr wait) as (f' & i & st & -> & Hf' & Hst & Hfree & Hocc);
      [by rewrite Hwl..|]. bind_simpl. rewrite Hwl in Hfree, Hocc.
    eexists. split; [reflexivity|]. split; [|done]. set (wait' := mk_six_lock_waiter _ _ _ _ _).
    assert (queued (<[ptr := wait']> ws) i (mk_six_lock_wait_slot (Some ptr) st) ptr wait' me) as Hme.
    { split; cbn; try done. by rewrite lookup_insert_eq. }
    pose proof (queue_inv_insert _ _ _ ptr wait' Hq Hu) as [H1 H2].
    split; cbn [fst snd]; [by apply (lock_inv_ext l2)|done|]. split.
    + intros j sl Hj. apply Hocc in Hj as [[-> ->]|[Hne Hj]]; [|by apply H1].
      exists ptr, wait', me. split; [done|]. cbn. intros ->. apply Hask.
    + intros j k sl sl' p p' w1 w2 tsk Hj Hk Hqj Hqk.
      apply Hocc in Hj as [[-> ->]|[Hnej Hj]], Hk as [[-> ->]|[Hnek Hk]]; [done|..|by eapply H2].
      * exfalso. pose proof (queued_unique _ _ _ _ _ _ _ _ _ Hqj Hme) as (_ & _ & ->).
        apply (Haw k sl' p' w2 Hk). apply (queued_other _ _ _ _ _ _ ptr wait'); [|done].
        intros ->. apply (Hu k sl' Hk). apply Hqk.
      * exfalso. pose proof (queued_unique _ _ _ _ _ _ _ _ _ Hqk Hme) as (_ & _ & ->).
        apply (Haw j sl p w1 Hj). apply (queued_other _ _ _ _ _ _ ptr wait'); [|done].
        intros ->. apply (Hu j sl Hj). apply Hqj.
Qed.

Lemma cancel_dequeue_spec s g t i sl ptr wait me : inv s g ->
  occupied (wait_lock s.1) i sl -> queued s.2 i sl ptr wait me -> lock_want wait = t ->
  exists s', cancel_dequeue s t wait = Some s' /\
    inv s' (if is_type t SIX_LOCK_write then unclaim g else g) /\ seqno s'.1 = seqno s.1.
Proof.
  intros [Hl Hf Hq] Ho Hqd Ht. destruct s as [l ws]. cbn [fst snd] in *.
  destruct (qi_waiter _ _ _ Hq i sl Ho) as (p & wt & tsk & Hqd' & Hwr).
  pose proof (queued_unique _ _ _ _ _ _ _ _ _ Hqd' Hqd) as (-> & -> & ->).
  unfold cancel_dequeue. rewrite (qd_idx _ _ _ _ _ _ Hqd).
  assert (i < size (wait_lock l))%nat as Hi.
  { pose proof (fi_above _ Hf i sl Ho). pose proof (fi_nr _ Hf). lia. }
  destruct (fifo_remove_spec (wait_lock l) i Hf Hi) as (f1 & -> & Hf1 & Hocc1). bind_simpl.
  destruct (fifo_shrink_spec f1 Hf1) as (f2 & -> & Hf2 & Hocc2). bind_simpl.
  assert (forall j s, occupied f2 j s <-> j <> i /\ occupied (wait_lock l) j s) as Hocc
    by (intros j s; by rewrite Hocc2, Hocc1).
  unfold is_type. case_bool_decide as Hty.
  - eexists. split; [reflexivity|]. split; [|done]. specialize (Hwr ltac:(congruence)).
    split; cbn [fst snd set_state set_fifo wait_lock]; [|done|].
    + destruct Hl as [[f Hw] Ho' Hwr' Hex Hhid]. split; cbn; try done; [|by intros ? [|]].
      rewrite Hwr in Hw. unfold SIX_LOCK_HELD_WRITE. rewrite ldiff_pow2, (word_write_bit _ _ _ _ _ Hw) by lia.
      cbn [wr_set]. exists f. destruct Hw as [E Hr Hf']. cbn [wr_set Z.b2z] in E. split; [cbn [Z.b2z]; lia|lia|done].
    + eapply queue_inv_removed; try done. intros t' Hne Hp. congruence.
  - eexists. split; [reflexivity|]. split; [|done]. split; cbn [fst snd set_fifo wait_lock]; [|done|].
    + by apply (lock_inv_ext l).
    + by eapply queue_inv_removed.
Qed.

Lemma increment_read_spec l g me : lock_inv l g -> room g ->
  me ∈ readers g \/ intent g = Some me /\ wr g = WNone ->
  exists l', six_lock_increment l SIX_LOCK_read = Some l' /\
    lock_inv l' (acquire g SIX_LOCK_read me) /\ wait_lock l' = wait_lock l /\ seqno l' = seqno l.
Proof.
  intros [[f Hw] Ho Hwr Hex Hhid] Hroom Hh. unfold six_lock_increment.
  assert (assert (negb (Z.land (state l) (Z.lor SIX_LOCK_HELD_READ SIX_LOCK_HELD_INTENT) =? 0)) = Some tt) as ->.
  { rewrite Z.land_lor_distr_r, (word_read _ _ _ _ _ Hw).
    unfold SIX_LOCK_HELD_INTENT. rewrite land_pow2_value, (word_intent_bit _ _ _ _ _ Hw) by lia.
    destruct Hw as [_ Hr _].
    assert (Z.lor (Z.of_nat (length (readers g))) (if is_set (intent g) then 2 ^ 26 else 0) <> 0) as Hne.
    { intros E. apply Z.lor_eq_0_iff in E as [E1 E2]. destruct Hh as [Hh|[Hh _]].
      - destruct (readers g); [inversion Hh|]. cbn in E1. lia.
      - by rewrite Hh in E2. }
    by apply Z.eqb_neq in Hne as ->. }
  bind_simpl. eexists. split; [reflexivity|]. split; [|done]. pose proof Hw as [E Hr Hf].
  unfold room in Hroom. cbn [lock_val].
  rewrite wadd_word by (destruct (is_set (intent g)), (wr_set (wr g)); cbn [Z.b2z] in *; lia).
  split; cbn; [|done..| |done].
  - exists f. split; [lia|lia|done].
  - intros t Ht. destruct Hh as [Hh|[_ Hh]]; [|congruence].
    pose proof (Hex t Ht) as Hall. constructor; [|done]. rewrite Forall_forall in Hall. by apply Hall.
Qed.

Lemma increment_recurse_spec l g t me : lock_inv l g -> intent g = Some me -> t <> SIX_LOCK_read ->
  exists l', six_lock_increment l t = Some l' /\ lock_inv l' g /\ wait_lock l' = wait_lock l /\
    seqno l' = seqno l.
Proof.
  intros Hl Hint Ht. pose proof Hl as [[f Hw] Ho Hwr Hex Hhid].
  assert (Z.land (state l) SIX_LOCK_HELD_INTENT =? 0 = false) as E
    by (rewrite (word_intent _ _ _ _ _ Hw), Hint; done).
  destruct t; [done|..]; cbn [six_lock_increment state set_recurse]; rewrite E; cbn [negb assert]; bind_simpl;
    (eexists; split; [reflexivity|]; split; [by apply (lock_inv_ext l)|done]).
Qed.

Definition upgrade (g : holders) (me : Z) : holders :=
  mk_holders (remove_one me (readers g)) (Some me) (wr g) (hidden g).

Lemma tryupgrade_spec l g me : lock_inv l g -> me ∈ readers g ->
  exists l', six_lock_tryupgrade l me = Some (can g SIX_LOCK_intent, l') /\
    lock_inv l' (if can g SIX_LOCK_intent then upgrade g me else g) /\
    wait_lock l' = wait_lock l /\ seqno l' = seqno l.
Proof.
  intros Hl Hh. pose proof Hl as [[f Hw] Ho Hwr Hex Hhid]. unfold six_lock_tryupgrade.
  rewrite (word_intent _ _ _ _ _ Hw), negb_involutive. cbn [can].
  destruct (intent g) as [o|] eqn:Hint; cbn [is_set]; [by exists l|].
  pose proof (remove_one_length _ _ Hh) as Hlen. rewrite (word_read _ _ _ _ _ Hw), Hlen.
  assert (assert (negb (Z.of_nat (S (length (remove_one me (readers g)))) =? 0)) = Some tt) as -> by done.
  bind_simpl. rewrite Hlen in Hw. cbn [is_set] in Hw. pose proof Hw as [E Hr Hf]. cbn [lock_val].
  pose proof (lock_word_range _ _ _ _ _ Hw). rewrite usub_ok by (destruct (wr_set (wr g)); cbn [Z.b2z] in *; lia).
  bind_simpl. unfold six_set_owner, is_type. rewrite bool_decide_true by done. cbn [negb].
  rewrite (word_intent _ _ _ _ _ Hw). cbn [negb owner set_state]. rewrite Ho, bool_decide_true by done.
  cbn [assert]. bind_simpl. eexists. split; [reflexivity|]. split; [|done].
  assert (word (state l - 1) (Z.of_nat (length (remove_one me (readers g)))) false (wr_set (wr g)) f) as Hw'
    by (split; [lia|lia|done]).
  split; cbn [state owner set_state set_owner readers intent wr upgrade is_set]; [|done|..].
  - unfold SIX_LOCK_HELD_INTENT. rewrite lor_pow2, (word_intent_bit _ _ _ _ _ Hw') by lia.
    exists f. split; [cbn [Z.b2z] in *; lia|lia|done].
  - intros t Ht. exfalso. specialize (Hwr t Ht). congruence.
  - intros t Ht. by apply remove_one_Forall, Hex.
  - cbn [upgrade hidden]. rewrite (hidden_nil g); [by constructor|by rewrite Hint|done].
Qed.

(** [k] read locks of [me] taken off the count, and put back. *)
Definition hide (g : holders) (me : Z) (k : nat) (rest : list Z) : holders :=
  mk_holders rest (intent g) (wr g) (replicate k me ++ hidden g).
Definition unhide (g : holders) (me : Z) (k : nat) (rest : list Z) : holders :=
  mk_holders (replicate k me ++ readers g) (intent g) (wr g) rest.

Lemma readers_hide_spec l g me k rest : lock_inv l g -> intent g = Some me -> readers g ≡ₚ replicate k me ++ rest ->
  exists l', six_lock_readers_add l (- Z.of_nat k) = Some l' /\ lock_inv l' (hide g me k rest) /\
    wait_lock l' = wait_lock l /\ seqno l' = seqno l.
Proof.
  intros [[f Hw] Ho Hwr Hex Hhid] Hint Hp. unfold six_lock_readers_add. rewrite (word_read _ _ _ _ _ Hw).
  assert (length (readers g) = (k + length rest)%nat) as Hlen by (by rewrite Hp, length_app, length_replicate).
  rewrite (proj2 (Z.leb_le _ _)) by lia. cbn [assert]. bind_simpl.
  pose proof (lock_word_range _ _ _ _ _ Hw). pose proof Hw as [E Hr Hf].
  rewrite wadd_word by (destruct (is_set (intent g)), (wr_set (wr g)); cbn [Z.b2z] in *; lia).
  eexists. split; [reflexivity|]. split; [|done]. split; cbn [state owner set_state readers intent wr hidden hide]; try done.
  - exists f. split; [lia|lia|done].
  - intros t Ht. pose proof (Hex t Ht) as Hall. rewrite Hp in Hall. by apply Forall_app in Hall as [_ Hall].
  - apply Forall_app. split; [|done]. by apply Forall_replicate.
Qed.

Lemma readers_unhide_spec l g me k rest : lock_inv l g -> hidden g = replicate k me ++ rest -> intent g = Some me ->
  Z.of_nat (length (readers g) + k) < 2 ^ 26 -> (wr g = WNone \/ wr g = WHeld me) ->
  exists l', six_lock_readers_add l (Z.of_nat k) = Some l' /\ lock_inv l' (unhide g me k rest) /\
    wait_lock l' = wait_lock l /\ seqno l' = seqno l.
Proof.
  intros [[f Hw] Ho Hwr Hex Hhid] Hh Hint Hroom Hwg. unfold six_lock_readers_add. rewrite (word_read _ _ _ _ _ Hw).
  rewrite (proj2 (Z.leb_le _ _)) by lia. cbn [assert]. bind_simpl. pose proof Hw as [E Hr Hf].
  rewrite wadd_word by (destruct (is_set (intent g)), (wr_set (wr g)); cbn [Z.b2z] in *; lia).
  eexists. split; [reflexivity|]. split; [|done]. split; cbn [state owner set_state readers intent wr hidden unhide]; try done.
  - exists f. rewrite length_app, length_replicate. split; [lia|lia|done].
  - intros t Ht. assert (t = me) as -> by (destruct Hwg; congruence).
    apply Forall_app. split; [by apply Forall_replicate|by apply Hex].
  - rewrite Hh in Hhid. by apply Forall_app in Hhid as [_ ?].
Qed.

(** ** Interleaved steps

    [step b (s, g) (s', g')]: one thread takes one atomic step; [b] says
    that it dropped a write lock.  The side conditions are what the callers
    guarantee: a thread drops only locks it holds, asks for the write lock
    only as the intent owner, keeps its waiter in place while it is queued.
    [bch2_btree_node_lock_write] ([btree/interior.rs]) is a hide, the steps of
    [six_lock_write] and, when that has returned, an unhide, in which the
    thread keeps its intent lock. *)
Inductive step : bool -> world * holders -> world * holders -> Prop :=
  | step_trylock s g t me ok l' :
      may_ask g t me true -> six_trylock_ip s.1 t me = Some (ok, l') ->
      step false (s, g) ((l', s.2), grant ok g t me)
  | step_unlock s g t me r l' :
      holds g t me -> (t = SIX_LOCK_intent -> intent_lock_recurse s.1 = 0 -> wr g = WNone /\ hidden g = []) ->
      unlock_begin s.1 t me = Some (r, l') ->
      step (is_type t SIX_LOCK_write && bool_decide (is_Some r)) (s, g)
        ((l', s.2), if r then release g t me else g)
  | step_hand_over s g t i sl ptr wait tsk ok s' :
      occupied (wait_lock s.1) i sl -> slot_wants sl t = true -> queued s.2 i sl ptr wait tsk ->
      (t = SIX_LOCK_read -> room g) -> hand_over s t i = Some (ok, s') ->
      step false (s, g) (s', grant ok g t tsk)
  | step_clear s g t s' :
      clear_waiting s t = Some s' -> step false (s, g) (s', g)
  | step_shrink s g f' :
      six_lock_wait_fifo_shrink (wait_lock s.1) = Some f' ->
      step false (s, g) ((set_fifo s.1 f', s.2), g)
  | step_enter s g me l' :
      intent g = Some me -> wr g = WNone -> slowpath_enter s.1 SIX_LOCK_write = Some l' ->
      step false (s, g) ((l', s.2), claim g me)
  | step_queue s g t ptr me ok s' :
      may_ask g t me false -> is_Some (s.2 !! ptr) -> unqueued (wait_lock s.1) ptr -> awake s me ->
      Z.of_nat (nr (wait_lock s.1)) < 2 ^ 15 -> slowpath_queue s t ptr me = Some (ok, s') ->
      step false (s, g) (s', grant ok g t me)
  | step_cancel s g t i sl ptr wait me s' :
      occupied (wait_lock s.1) i sl -> queued s.2 i sl ptr wait me -> lock_want wait = t ->
      cancel_dequeue s t wait = Some s' ->
      step false (s, g) (s', if is_type t SIX_LOCK_write then unclaim g else g)
  | step_cancel_granted s g t me st l' :
      may_release g t me -> unlock_release s.1 t = Some (st, l') ->
      step false (s, g) ((l', s.2), release g t me)
  | step_increment_read s g me l' :
      room g -> me ∈ readers g \/ intent g = Some me /\ wr g = WNone ->
      six_lock_increment s.1 SIX_LOCK_read = Some l' ->
      step false (s, g) ((l', s.2), acquire g SIX_LOCK_read me)
  | step_increment s g t me l' :
      intent g = Some me -> t <> SIX_LOCK_read -> six_lock_increment s.1 t = Some l' ->
      step false (s, g) ((l', s.2), g)
  | step_upgrade s g me ok l' :
      me ∈ readers g -> six_lock_tryupgrade s.1 me = Some (ok, l') ->
      step false (s, g) ((l', s.2), if ok then upgrade g me else g)
  | step_hide s g me k rest l' :
      intent g = Some me -> readers g ≡ₚ replicate k me ++ rest ->
      six_lock_readers_add s.1 (- Z.of_nat k) = Some l' ->
      step false (s, g) ((l', s.2), hide g me k rest)
  | step_unhide s g me k rest l' :
      hidden g = replicate k me ++ rest -> intent g = Some me -> (wr g = WNone \/ wr g = WHeld me) ->
      Z.of_nat (length (readers g) + k) < 2 ^ 26 -> six_lock_readers_add s.1 (Z.of_nat k) = Some l' ->
      step false (s, g) ((l', s.2), unhide g me k rest)
  | step_waiter s g ptr wait :
      unqueued (wait_lock s.1) ptr -> step false (s, g) ((s.1, <[ptr := wait]> s.2), g).

Lemma inv_upd s g g' l' : inv s g -> lock_inv l' g' -> wait_lock l' = wait_lock s.1 ->
  (forall t, wr g = WPending t -> wr g' = WPending t) -> inv (l', s.2) g'.
Proof.
  intros [Hl Hf Hq] Hl' Hw Hwr. split; cbn; [done|by rewrite Hw|]. rewrite Hw. by eapply queue_inv_wr.
Qed.

Lemma grant_wr ok g t me : may_ask g t me true -> forall t', wr g = WPending t' -> wr (grant ok g t me) = WPending t'.
Proof. intros Ha t'. destruct ok, t; cbn; try done. destruct Ha as [_ ->]. done. Qed.

Lemma release_wr g t me : holds g t me -> forall t', wr g = WPending t' -> wr (release g t me) = WPending t'.
Proof. intros Hh t'. destruct t; cbn in *; try done. by rewrite Hh. Qed.

Lemma inv_step b s g s' g' : inv s g -> step b (s, g) (s', g') ->
  inv s' g' /\ seqno s'.1 = if b then wadd 32 (seqno s.1) 1 else seqno s.1.
Proof.
  intros Hi Hs. pose proof Hi as [Hl Hf Hq].
  inversion Hs as [s0 g0 t me ok l' Ha E|s0 g0 t me r l' Hh Hn E|s0 g0 t i sl p wt tsk ok s1 Ho Hw Hqd Hr E
    |s0 g0 t s1 E|s0 g0 f' E|s0 g0 me l' Hint Hn E|s0 g0 t p me ok s1 Ha Hp Hu Haw Hnr E
    |s0 g0 t i sl p wt me s1 Ho Hqd Ht E|s0 g0 t me st l' Hm E|s0 g0 me l' Hr Hh E|s0 g0 t me l' Hint Ht E
    |s0 g0 me ok l' Hh E|s0 g0 me k rest l' Hint Hp E|s0 g0 me k rest l' Hh Hint Hwg Hr E|s0 g0 p wt Hu]; subst; cbn [fst snd].
  - destruct (trylock_spec s.1 g t me true Hl Ha) as (l2 & E2 & Hl2 & Hw2 & Hs2).
    unfold six_trylock_ip in E. rewrite E2 in E. simplify_eq. split; [|done].
    eapply inv_upd; [done|done|done|by apply grant_wr].
  - destruct (unlock_begin_spec s.1 g t me Hl Hh Hn) as (r2 & l2 & E2 & Hw2 & Hr2).
    rewrite E2 in E. simplify_eq. destruct r as [st|].
    + destruct Hr2 as (_ & Hl2 & Hs2). rewrite bool_decide_true by eauto. rewrite andb_true_r.
      split; [|done]. eapply inv_upd; [done|done|done|by apply release_wr].
    + rewrite (bool_decide_false (is_Some None)), andb_false_r by (by intros [? ?]).
      destruct Hr2 as [Hl2 Hs2]. split; [|done]. by eapply inv_upd.
  - destruct (hand_over_spec s g t i sl Hi Ho Hw Hr) as (s2 & p2 & wt2 & tsk2 & Hqd2 & E2 & Hi2 & _ & _ & Hs2 & _).
    pose proof (queued_unique _ _ _ _ _ _ _ _ _ Hqd Hqd2) as (-> & -> & ->).
    rewrite E2 in E. simplify_eq. done.
  - destruct (clear_waiting_spec s g' t Hi) as (s2 & E2 & ? & ? & _). rewrite E2 in E. by simplify_eq.
  - destruct (shrink_fifo_spec s g' Hi) as (f2 & E2 & ? & _). rewrite E2 in E. by simplify_eq.
  - destruct (slowpath_enter_spec s.1 g me Hl Hint Hn) as (l2 & E2 & ? & ? & ?). rewrite E2 in E. simplify_eq.
    split; [|done]. eapply inv_upd; [done|done|done|]. intros t Ht. congruence.
  - destruct (slowpath_queue_spec s g t p me Hi Ha Hp Hu Haw Hnr) as (s2 & E2 & ? & ?). rewrite E2 in E. by simplify_eq.
  - destruct (cancel_dequeue_spec s g (lock_want wt) i sl p wt me Hi Ho Hqd eq_refl) as (s2 & E2 & ? & ?).
    rewrite E2 in E. by simplify_eq.
  - destruct (unlock_release_spec s.1 g t me Hl Hm) as (l2 & E2 & ? & ? & ?). rewrite E2 in E. simplify_eq.
    split; [|done]. eapply inv_upd; [done|done|done|]. apply release_wr. apply Hm.
  - destruct (increment_read_spec s.1 g me Hl Hr Hh) as (l2 & E2 & ? & ? & ?). rewrite E2 in E. simplify_eq.
    split; [|done]. by eapply inv_upd.
  - destruct (increment_recurse_spec s.1 g' t me Hl Hint Ht) as (l2 & E2 & ? & ? & ?). rewrite E2 in E. simplify_eq.
    split; [|done]. by eapply inv_upd.
  - destruct (tryupgrade_spec s.1 g me Hl Hh) as (l2 & E2 & ? & ? & ?). rewrite E2 in E. simplify_eq.
    split; [|done]. eapply inv_upd; [done|done|done|]. by destruct (can g SIX_LOCK_intent).
  - destruct (readers_hide_spec s.1 g me k rest Hl Hint Hp) as (l2 & E2 & ? & ? & ?). rewrite E2 in E. simplify_eq.
    split; [|done]. by eapply inv_upd.
  - destruct (readers_unhide_spec s.1 g me k rest Hl Hh Hint Hr Hwg) as (l2 & E2 & ? & ? & ?). rewrite E2 in E. simplify_eq.
    split; [|done]. by eapply inv_upd.
  - split; [|done]. split; cbn; [done|done|]. by apply queue_inv_insert.
Qed.

(** Executions, with the number of write locks dropped. *)
Inductive steps : nat -> world * holders -> world * holders -> Prop :=
  | steps_refl c : steps 0 c c
  | steps_step n b c c' c'' : steps n c c' -> step b c' c'' -> steps (Nat.b2n b + n) c c''.

Lemma inv_steps n c c' : steps n c c' -> inv c.1 c.2 ->
  inv c'.1 c'.2 /\ seqno c'.1.1 mod 2 ^ 32 = (seqno c.1.1 + Z.of_nat n) mod 2 ^ 32.
Proof.
  induction 1 as [c|n b c c' c'' Hs IH Hstep]; intros Hi; [by rewrite Z.add_0_r|].
  destruct (IH Hi) as [Hi' Hq]. destruct c' as [s1 g1], c'' as [s2 g2]. cbn [fst snd] in *.
  destruct (inv_step b s1 g1 s2 g2 Hi' Hstep) as [Hi2 Hq2]. split; [done|]. rewrite Hq2.
  destruct b; cbn [Nat.b2n Nat.add]; [|done]. unfold wadd. rewrite Z.mod_mod by done.
  rewrite <- Z.add_mod_idemp_l, Hq, Z.add_mod_idemp_l by done. f_equal. lia.
Qed.

Definition reachable (c : world * holders) : Prop :=
  exists n, steps n ((six_lock_default, ∅), no_holders) c.

Lemma reachable_inv s g : reachable (s, g) -> inv s g.
Proof. intros [n H]. apply (inv_steps _ _ _ H). apply inv_default. Qed.

Lemma steps_one b c c' : step b c c' -> steps (Nat.b2n b) c c'.
Proof. intros H. rewrite <- (Nat.add_0_r (Nat.b2n b)). eapply steps_step; [constructor|done]. Qed.

Lemma steps_trans n m c c' c'' : steps n c c' -> steps m c' c'' -> steps (n + m) c c''.
Proof.
  intros H1 H2. revert n c H1. induction H2 as [c0|m b c0 c1 c2 H2 IH Hs]; intros n c H1; [by rewrite Nat.add_0_r|].
  replace (n + (Nat.b2n b + m))%nat with (Nat.b2n b + (n + m))%nat by lia. eapply steps_step; [by apply IH|done].
Qed.

Lemma slot_wants_occupied f i sl t : data f !! i = Some sl -> slot_wants sl t = true -> occupied f i sl.
Proof.
  intros E H. split; [done|]. unfold slot_wants in H. apply andb_true_iff in H as [H _].
  apply bool_decide_eq_true in H. destruct (w sl); [eauto|done].
Qed.

Lemma hand_over_step s g t i sl : inv s g -> data (wait_lock s.1) !! i = Some sl ->
  slot_wants sl t = true -> (t = SIX_LOCK_read -> room g) ->
  exists s' tsk, hand_over s t i = Some (can g t, s') /\
    step false (s, g) (s', grant (can g t) g t tsk) /\ inv s' (grant (can g t) g t tsk) /\
    nr (wait_lock s'.1) = nr (wait_lock s.1).
Proof.
  intros Hi E Hw Hr. pose proof (slot_wants_occupied _ _ _ _ E Hw) as Ho.
  destruct (hand_over_spec s g t i sl Hi Ho Hw Hr) as (s' & ptr & wait & tsk & Hq & Eh & Hi' & _ & Hn & _).
  exists s', tsk. split; [done|]. split; [|done]. by eapply step_hand_over.
Qed.

Lemma wake_readers_spec n s g i : inv s g -> (i + n <= nr (wait_lock s.1))%nat ->
  Z.of_nat (length (readers g) + n) < 2 ^ 26 ->
  exists s' g', wake_readers s i n = Some s' /\ steps 0 (s, g) (s', g').
Proof.
  revert s g i. induction n as [|n IH]; intros s g i Hi Hn Hr; [exists s, g; split; [done|constructor]|].
  cbn [wake_readers]. pose proof (fi_nr _ (inv_fifo _ _ Hi)).
  destruct (lookup_data _ i (inv_fifo _ _ Hi) ltac:(lia)) as [sl E]. rewrite E. bind_simpl.
  destruct (slot_wants sl SIX_LOCK_read) eqn:Hw; [|apply IH; [done|lia|lia]].
  destruct (hand_over_step s g SIX_LOCK_read i sl Hi E Hw) as (s' & tsk & -> & Hs & Hi' & Hnr).
  { intros _. unfold room. lia. }
  bind_simpl. destruct (can g SIX_LOCK_read) eqn:Ec; cbn [grant] in *.
  - destruct (IH s' (acquire g SIX_LOCK_read tsk) (S i) Hi') as (s2 & g2 & -> & Hs2); [lia|cbn; lia|].
    exists s2, g2. split; [done|]. apply (steps_trans 0 0 _ _ _ (steps_one false _ _ Hs) Hs2).
  - exists s', g. split; [done|]. apply (steps_one false _ _ Hs).
Qed.

(** The search returns a matching slot, none of the matching slots is older. *)
Definition oldest_ok (f : six_lock_wait_fifo) (t : six_lock_type) (i : nat) (o : option nat) : Prop :=
  match o with
  | None => forall j sl, (j < i)%nat -> data f !! j = Some sl -> slot_wants sl t = false
  | Some k => exists slk, data f !! k = Some slk /\ slot_wants slk t = true /\
      forall j sl, (j < i)%nat -> data f !! j = Some sl -> slot_wants sl t = true ->
        start_time slk <= start_time sl
  end.

Lemma find_oldest_spec f t n i o m : fifo_inv f -> (i + n <= nr f)%nat -> oldest_ok f t i o ->
  exists o' m', find_oldest (data f) t i n o m = Some (o', m') /\ oldest_ok f t (i + n) o'.
Proof.
  intros Hf. pose proof (fi_nr f Hf). revert i o m.
  induction n as [|n IH]; intros i o m Hn Ho; [rewrite Nat.add_0_r; cbn; eauto|].
  cbn [find_oldest]. destruct (lookup_data f i Hf ltac:(lia)) as [sl E]. rewrite E. bind_simpl.
  rewrite <- Nat.add_succ_comm. destruct (slot_wants sl t) eqn:Hw.
  - destruct o as [k|].
    + destruct Ho as (slk & Ek & Hwk & Hmin). rewrite Ek. bind_simpl. apply IH; [lia|].
      destruct (Z.ltb_spec (start_time sl) (start_time slk)) as [Hlt|Hge].
      * exists sl. split; [done|]. split; [done|]. intros j slj Hj Ej Hwj.
        destruct (decide (j = i)) as [->|]; [simplify_eq; lia|].
        specialize (Hmin j slj ltac:(lia) Ej Hwj). lia.
      * exists slk. split; [done|]. split; [done|]. intros j slj Hj Ej Hwj.
        destruct (decide (j = i)) as [->|]; [simplify_eq; lia|]. apply (Hmin j slj); [lia|done..].
    + bind_simpl. apply IH; [lia|]. exists sl. split; [done|]. split; [done|]. intros j slj Hj Ej Hwj.
      destruct (decide (j = i)) as [->|]; [simplify_eq; lia|].
      rewrite (Ho j slj) in Hwj by (done || lia). done.
  - apply IH; [lia|]. destruct o as [k|].
    + destruct Ho as (slk & Ek & Hwk & Hmin). exists slk. split; [done|]. split; [done|].
      intros j slj Hj Ej Hwj. destruct (decide (j = i)) as [->|]; [simplify_eq; congruence|].
      apply (Hmin j slj); [lia|done..].
    + intros j slj Hj Ej. destruct (decide (j = i)) as [->|]; [by simplify_eq|]. apply (Ho j slj); [lia|done].
Qed.

(** A wakeup is a sequence of hand-overs and never panics. *)
Lemma __six_lock_wakeup_spec s g t : inv s g ->
  Z.of_nat (length (readers g) + nr (wait_lock s.1)) < 2 ^ 26 ->
  exists s' g', __six_lock_wakeup s t = Some s' /\ steps 0 (s, g) (s', g').
Proof.
  intros Hi Hr. unfold __six_lock_wakeup. unfold is_type. case_bool_decide as Ht.
  - destruct (wake_readers_spec (nr (wait_lock s.1)) s g 0 Hi) as (s1 & g1 & -> & Hs1); [lia|lia|].
    bind_simpl. pose proof (proj1 (inv_steps _ _ _ Hs1 Hi)) as Hi1. cbn [fst snd] in Hi1.
    destruct (clear_waiting_spec s1 g1 t Hi1) as (s2 & E2 & Hi2 & _). exists s2, g1. split; [done|].
    apply (steps_trans 0 0 _ _ _ Hs1). apply (steps_one false). by apply (step_clear _ _ t).
  - destruct (find_oldest_spec (wait_lock s.1) t (nr (wait_lock s.1)) 0 None 0) as (o & m & -> & Ho);
      [apply Hi|lia|by intros j sl ?; lia|]. bind_simpl. destruct o as [i|].
    + destruct Ho as (sl & E & Hw & _).
      destruct (hand_over_step s g t i sl Hi E Hw ltac:(by intros ->)) as (s1 & tsk & -> & Hs1 & Hi1 & _).
      bind_simpl. destruct (can g t && (1 <? m)%nat).
      * destruct (shrink_fifo_spec s1 _ Hi1) as (f' & E' & _). rewrite E'. bind_simpl.
        do 2 eexists. split; [reflexivity|]. apply (steps_trans 0 0 _ _ _ (steps_one false _ _ Hs1)).
        apply (steps_one false). by apply step_shrink.
      * destruct (clear_waiting_spec s1 _ t Hi1) as (s2 & E2 & _). do 2 eexists. split; [exact E2|].
        apply (steps_trans 0 0 _ _ _ (steps_one false _ _ Hs1)). apply (steps_one false). by apply (step_clear _ _ t).
    + destruct (clear_waiting_spec s g t Hi) as (s2 & E2 & _). do 2 eexists. split; [exact E2|].
      apply (steps_one false). by apply (step_clear _ _ t).
Qed.

Lemma six_lock_wakeup_spec s g st t : inv s g ->
  Z.of_nat (length (readers g) + nr (wait_lock s.1)) < 2 ^ 26 ->
  exists s' g', six_lock_wakeup s st t = Some s' /\ steps 0 (s, g) (s', g').
Proof.
  intros Hi Hr. unfold six_lock_wakeup.
  destruct (_ && _); [exists s, g; split; [done|constructor]|].
  destruct (_ =? 0); [exists s, g; split; [done|constructor]|]. by apply __six_lock_wakeup_spec.
Qed.

Lemma reader_reachable : exists l', six_trylock_ip six_lock_default SIX_LOCK_read 7 = Some (true, l') /\
  reachable ((l', ∅), mk_holders [7] None WNone []) /\ nr (wait_lock l') = 0%nat /\ seqno l' = 0.
Proof.
  eexists. split; [reflexivity|]. split; [|done]. exists 0%nat.
  apply (steps_one false). apply (step_trylock (six_lock_default, ∅) no_holders SIX_LOCK_read 7 true); done.
Qed.

(** ** Properties *)

(** C37: In every reachable state a write lock is held by at most one thread,
    which also owns the intent lock, while no other thread holds a read lock,
    counted in the lock word or hidden by [six_lock_readers_add]: the holder's
    own read locks may have been put back by [bch2_btree_node_lock_write].
    Only the intent owner hides read locks; the lock word and the owner field
    show exactly the other holders; and a thread that may ask is granted a lock
    exactly when no counted holder conflicts. *)
Theorem six_mutual_exclusion (s : world) (g : holders) :
  reachable (s, g) ->
  (forall me, holds g SIX_LOCK_write me ->
     (forall r, r ∈ readers g \/ r ∈ hidden g -> r = me) /\ holds g SIX_LOCK_intent me) /\
  (forall r, r ∈ hidden g -> intent g = Some r) /\
  owner s.1 = intent g /\
  Z.land (state s.1) SIX_LOCK_HELD_READ = Z.of_nat (length (readers g)) /\
  (Z.land (state s.1) SIX_LOCK_HELD_INTENT = 0 <-> intent g = None) /\
  (Z.land (state s.1) SIX_LOCK_HELD_WRITE = 0 <-> wr g = WNone) /\
  (forall t me, may_ask g t me true -> exists l',
     six_trylock_ip s.1 t me = Some (can g t, l') /\
     inv (l', s.2) (if can g t then acquire g t me else g)).
Proof.
  intros Hr. apply reachable_inv in Hr as Hi. pose proof Hi as [Hl Hf Hq].
  pose proof Hl as [[f Hw] Ho Hwr Hex Hhid]. rewrite Forall_forall in Hhid.
  split; [|split; [done|split; [done|split; [by apply (word_read _ _ _ _ _ Hw)|split; [|split]]]]].
  - intros me Hh. assert (intent g = Some me) as Hint by (apply Hwr; by right). split; [|done].
    intros r [Hin|Hin]; [|specialize (Hhid r Hin); congruence].
    pose proof (Hex me Hh) as Hall. rewrite Forall_forall in Hall. by apply Hall.
  - rewrite <- Z.eqb_eq, (word_intent _ _ _ _ _ Hw). by destruct (intent g).
  - rewrite <- Z.eqb_eq, (word_write _ _ _ _ _ Hw). by destruct (wr g).
  - intros t me Ha. destruct (trylock_spec s.1 g t me true Hl Ha) as (l' & E & Hl' & Hw' & _).
    exists l'. split; [done|]. eapply inv_upd; [done|done|done|].
    by apply (grant_wr (can g t) g t me).
Qed.

(** Thread 5 with a read and the intent lock takes the write lock the way
    [bch2_btree_node_lock_write] does. *)
Definition node_lock_write : option six_lock :=
  '(_, l) ← six_trylock_ip six_lock_default SIX_LOCK_read 5;
  '(_, l) ← six_trylock_ip l SIX_LOCK_intent 5;
  l ← six_lock_readers_add l (-1);
  '(_, l) ← six_trylock_ip l SIX_LOCK_write 5;
  six_lock_readers_add l 1.

Lemma node_lock_write_reachable : exists l, node_lock_write = Some l /\
  reachable ((l, ∅), mk_holders [5] (Some 5) (WHeld 5) []) /\ six_lock_counts l = Some [1; 1; 1].
Proof.
  set (l1 := default six_lock_default (snd <$> six_trylock_ip six_lock_default SIX_LOCK_read 5)).
  set (l2 := default six_lock_default (snd <$> six_trylock_ip l1 SIX_LOCK_intent 5)).
  set (l3 := default six_lock_default (six_lock_readers_add l2 (-1))).
  set (l4 := default six_lock_default (snd <$> six_trylock_ip l3 SIX_LOCK_write 5)).
  set (l5 := default six_lock_default (six_lock_readers_add l4 1)).
  exists l5. split; [reflexivity|]. split; [|reflexivity]. exists 0%nat.
  apply (steps_trans 0 0 _ ((l1, ∅), mk_holders [5] None WNone [])); [apply (steps_one false)|].
  { by apply (step_trylock (six_lock_default, ∅) no_holders SIX_LOCK_read 5 true). }
  apply (steps_trans 0 0 _ ((l2, ∅), mk_holders [5] (Some 5) WNone [])); [apply (steps_one false)|].
  { by apply (step_trylock (l1, ∅) (mk_holders [5] None WNone []) SIX_LOCK_intent 5 true). }
  apply (steps_trans 0 0 _ ((l3, ∅), mk_holders [] (Some 5) WNone [5])); [apply (steps_one false)|].
  { by apply (step_hide (l2, ∅) (mk_holders [5] (Some 5) WNone []) 5 1 []). }
  apply (steps_trans 0 0 _ ((l4, ∅), mk_holders [] (Some 5) (WHeld 5) [5])); [apply (steps_one false)|].
  { by apply (step_trylock (l3, ∅) (mk_holders [] (Some 5) WNone [5]) SIX_LOCK_write 5 true). }
  apply (steps_one false).
  apply (step_unhide (l4, ∅) (mk_holders [] (Some 5) (WHeld 5) [5]) 5 1 []); try done. by right.
Qed.

Lemma six_mutual_exclusion_witness : exists l, node_lock_write = Some l /\
  Z.land (state l) SIX_LOCK_HELD_READ = 1 /\ owner l = Some 5 /\
  exists l2, six_trylock_ip l SIX_LOCK_read 8 = Some (false, l2).
Proof.
  destruct node_lock_write_reachable as (l & E & Hr & _). exists l. split; [exact E|].
  destruct (six_mutual_exclusion (l, ∅) (mk_holders [5] (Some 5) (WHeld 5) []) Hr) as (_ & _ & H0 & H1 & _ & _ & H2).
  split; [exact H1|]. split; [exact H0|].
  destruct (H2 SIX_LOCK_read 8) as (l2 & E2 & _); [cbn; lia|]. exists l2. exact E2.
Defined.

(** Dropping a lock, with the wakeup that follows, never panics for a
    holder, and every lock it hands over is granted by the rules: the whole
    operation is an execution of the lock.  Only the drop of a write lock
    changes the sequence number. *)
Theorem six_unlock_sound (s : world) (g : holders) (t : six_lock_type) (me : Z) :
  reachable (s, g) -> holds g t me ->
  (t = SIX_LOCK_intent -> intent_lock_recurse s.1 = 0 -> wr g = WNone /\ hidden g = []) ->
  Z.of_nat (length (readers g) + nr (wait_lock s.1)) < 2 ^ 26 ->
  exists s' g' n, six_unlock_ip s t me = Some s' /\ steps n (s, g) (s', g') /\ reachable (s', g') /\
    (t <> SIX_LOCK_write -> n = 0%nat).
Proof.
  intros Hre Hh Hn Hroom. pose proof (reachable_inv _ _ Hre) as Hi. pose proof Hi as [Hl Hf Hq].
  unfold six_unlock_ip. destruct (unlock_begin_spec s.1 g t me Hl Hh Hn) as (r & l' & E & Hw & Hr).
  rewrite E. bind_simpl. pose proof (step_unlock s g t me r l' Hh Hn E) as Hstep.
  apply steps_one in Hstep as Hs1.
  assert (forall s' g' n, steps n (s, g) (s', g') -> reachable (s', g')) as Hreach.
  { intros s' g' n H. destruct Hre as [k Hk]. exists (k + n)%nat. by eapply steps_trans. }
  assert (t <> SIX_LOCK_write -> is_type t SIX_LOCK_write = false) as Hty
    by (intros; by apply bool_decide_false).
  destruct r as [st|].
  - destruct Hr as (_ & Hl' & _).
    assert (inv (l', s.2) (release g t me)) as Hi' by (eapply inv_upd; [done|done|done|by apply release_wr]).
    destruct (six_lock_wakeup_spec (l', s.2) (release g t me) st (unlock_wakeup t) Hi') as (s' & g' & E' & Hs').
    { cbn [fst]. rewrite Hw. destruct t; cbn [release readers]; [|done..].
      rewrite (remove_one_length _ _ Hh) in Hroom. lia. }
    do 3 eexists. split; [exact E'|]. pose proof (steps_trans _ _ _ _ _ Hs1 Hs') as Hall.
    split; [exact Hall|]. split; [by eapply Hreach|]. intros Ht. by rewrite Hty.
  - do 3 eexists. split; [reflexivity|]. split; [exact Hs1|]. split; [by eapply Hreach|].
    intros Ht. by rewrite Hty.
Qed.

Lemma six_unlock_sound_witness :
  exists l' s' g' n, six_trylock_ip six_lock_default SIX_LOCK_read 7 = Some (true, l') /\
    six_unlock_ip (l', ∅) SIX_LOCK_read 7 = Some s' /\
    steps n ((l', ∅), mk_holders [7] None WNone []) (s', g').
Proof.
  destruct reader_reachable as (l' & E & Hr & Hnr & _). exists l'.
  destruct (six_unlock_sound (l', ∅) (mk_holders [7] None WNone []) SIX_LOCK_read 7 Hr)
    as (s' & g' & n & E' & Hs & _).
  - apply elem_of_list_singleton || (cbn; left).
  - discriminate.
  - cbn. rewrite Hnr. reflexivity.
  - exists s', g', n. split; [exact E|]. split; [exact E'|exact Hs].
Defined.

(** A successful relock with a remembered sequence number means that no
    conflicting lock is held and that no write lock was dropped since the
    number was read, as long as fewer than 2^32 were. *)
Theorem six_relock_no_writer (s s' r : world) (g g' : holders) (n : nat) (t : six_lock_type) (me : Z) :
  reachable (s, g) -> steps n (s, g) (s', g') -> Z.of_nat n < 2 ^ 32 -> may_ask g' t me true ->
  six_relock_ip s' t (six_lock_seq s.1) me = Some (true, r) -> n = 0%nat /\ can g' t = true.
Proof.
  intros Hr Hs Hn Ha E. apply reachable_inv in Hr as Hi.
  destruct (inv_steps _ _ _ Hs Hi) as [[Hl' Hf' Hq'] Hseq]. cbn [fst snd] in *.
  unfold six_relock_ip in E. destruct (Z.eqb_spec (six_lock_seq s'.1) (six_lock_seq s.1)) as [Eq|]; [|done].
  cbn [negb] in E. unfold six_trylock_ip in E.
  destruct (trylock_spec s'.1 g' t me true Hl' Ha) as (l2 & E2 & _). rewrite E2 in E. cbn in E.
  destruct (can g' t) eqn:Ec; [|done]. split; [|done].
  unfold six_lock_seq in *. rewrite Eq in Hseq.
  assert ((Z.of_nat n) mod 2 ^ 32 = 0) as Hm.
  { replace (Z.of_nat n) with (seqno s.1 + Z.of_nat n - seqno s.1) by lia.
    by rewrite Zminus_mod, <- Hseq, Z.sub_diag. }
  rewrite Z.mod_small in Hm by lia. lia.
Qed.

Lemma six_relock_no_writer_witness :
  exists r, six_relock_ip (six_lock_default, ∅) SIX_LOCK_read 0 5 = Some (true, r) /\
    can no_holders SIX_LOCK_read = true.
Proof.
  eexists. split; [reflexivity|].
  eapply (six_relock_no_writer (six_lock_default, ∅) (six_lock_default, ∅) _ no_holders no_holders 0
    SIX_LOCK_read 5); [exists 0%nat; constructor|constructor|lia|cbn; lia|reflexivity].
Defined.

(** Handing over the free intent lock goes to a waiter that has waited
    longest: of the queued waiters for it none has an older start time.  It
    becomes the owner, is told so and leaves the queue. *)
Theorem six_wakeup_oldest (s : world) (g : holders) :
  reachable (s, g) -> intent g = None ->
  (exists i sl, data (wait_lock s.1) !! i = Some sl /\ slot_wants sl SIX_LOCK_intent = true) ->
  exists s' i sl ptr wait tsk, __six_lock_wakeup s SIX_LOCK_intent = Some s' /\
    occupied (wait_lock s.1) i sl /\ queued s.2 i sl ptr wait tsk /\
    (forall j sl', occupied (wait_lock s.1) j sl' -> slot_wants sl' SIX_LOCK_intent = true ->
       start_time sl <= start_time sl') /\
    owner s'.1 = Some tsk /\ s'.2 !! ptr = Some (set_acquired wait true) /\
    unqueued (wait_lock s'.1) ptr.
Proof.
  intros Hr Hint (i0 & sl0 & E0 & Hw0). apply reachable_inv in Hr as Hi. pose proof Hi as [Hl Hf Hq].
  unfold __six_lock_wakeup, is_type. rewrite bool_decide_false by done.
  destruct (find_oldest_spec (wait_lock s.1) SIX_LOCK_intent (nr (wait_lock s.1)) 0 None 0) as (o & m & -> & Ho);
    [done|lia|by intros j sl ?; lia|]. bind_simpl.
  pose proof (fi_above _ Hf i0 sl0 (slot_wants_occupied _ _ _ _ E0 Hw0)).
  destruct o as [i|]; [|by rewrite (Ho i0 sl0) in Hw0 by (done || lia)].
  destruct Ho as (sl & E & Hw & Hmin). pose proof (slot_wants_occupied _ _ _ _ E Hw) as Hoc.
  destruct (hand_over_spec s g SIX_LOCK_intent i sl Hi Hoc Hw) as
    (s1 & ptr & wait & tsk & Hqd & -> & Hi1 & _ & _ & _ & Hgr); [done|].
  assert (can g SIX_LOCK_intent = true) as Hcan by (cbn; by rewrite Hint).
  rewrite Hcan in *. destruct (Hgr eq_refl) as [Hacq Hun]. bind_simpl.
  pose proof (li_owner _ _ (inv_lock _ _ Hi1)) as Hown. cbn in Hown.
  assert (forall j sl', occupied (wait_lock s.1) j sl' -> slot_wants sl' SIX_LOCK_intent = true ->
       start_time sl <= start_time sl') as Hold.
  { intros j sl' [Ej Hj] Hwj. apply (Hmin j sl'); [|done|done]. apply (fi_above _ Hf j sl'). done. }
  cbn [andb]. destruct (1 <? m)%nat.
  - destruct (shrink_fifo_spec s1 _ Hi1) as (f' & -> & _ & Hsub). bind_simpl.
    eexists _, i, sl, ptr, wait, tsk. split; [reflexivity|]. repeat (split; [done|]).
    intros j sl' Hj. apply (Hun j sl'). by apply Hsub.
  - destruct (clear_waiting_spec s1 _ SIX_LOCK_intent Hi1) as (s2 & -> & _ & _ & Ho2 & Hws & Hsub).
    exists s2, i, sl, ptr, wait, tsk. split; [done|]. split; [done|]. split; [done|]. split; [done|].
    rewrite Ho2, Hws. split; [done|]. split; [done|]. intros j sl' Hj. apply (Hun j sl'). by apply Hsub.
Qed.

(** Thread 1 takes the intent lock, thread 2 queues for it with the waiter
    at address 100, thread 1 drops it; the state word that thread 1 will
    hand to the wakeup comes with the result. *)
Definition contended : option (Z * world) :=
  '(_, l) ← six_trylock_ip six_lock_default SIX_LOCK_intent 1;
  '(_, s) ← slowpath_queue
    (l, {[100 := mk_six_lock_waiter 5 None SIX_LOCK_read false 0]}) SIX_LOCK_intent 100 2;
  '(r, l) ← unlock_begin (s : world).1 SIX_LOCK_intent 1;
  st ← r;
  Some (st, (l, s.2)).

Lemma no_occupied i sl : ~ occupied six_lock_wait_fifo_default i sl.
Proof. intros H. apply (fi_above _ fifo_inv_default) in H. cbn in H. lia. Qed.

Lemma contended_reachable : exists st s, contended = Some (st, s) /\ reachable (s, no_holders) /\
  exists sl, data (wait_lock s.1) !! 0%nat = Some sl /\ slot_wants sl SIX_LOCK_intent = true.
Proof.
  unfold contended.
  destruct (trylock_spec six_lock_default no_holders SIX_LOCK_intent 1 true lock_inv_default I)
    as (l1 & E1 & Hl1 & Hw1 & _).
  cbn [can no_holders intent] in *. unfold six_trylock_ip. rewrite E1. bind_simpl.
  set (ws := {[100 := _]}). set (g1 := acquire no_holders SIX_LOCK_intent 1) in *.
  change (wait_lock six_lock_default) with six_lock_wait_fifo_default in Hw1.
  assert (steps 0 ((six_lock_default, ∅), no_holders) ((l1, ws), g1)) as S1.
  { apply (steps_trans 0 0 _ ((l1, ∅), g1)).
    - apply (steps_one false), (step_trylock (six_lock_default, ∅) no_holders SIX_LOCK_intent 1 true); done.
    - apply (steps_one false), (step_waiter (l1, ∅)). cbn. rewrite Hw1. intros i sl H.
      by apply no_occupied in H. }
  assert (unqueued (wait_lock l1) 100 /\ awake (l1, ws) 2 /\ Z.of_nat (nr (wait_lock l1)) < 2 ^ 15)
    as (Hu & Haw & Hnr).
  { unfold unqueued, awake. cbn [fst snd]. rewrite Hw1. split; [|split; [|done]];
      [intros i sl H|intros i sl p wt H]; by apply no_occupied in H. }
  destruct (slowpath_queue_spec (l1, ws) g1 SIX_LOCK_intent 100 2) as (s2 & E2 & Hi2 & _); try done.
  { by apply (inv_steps _ _ _ S1 inv_default). }
  cbn [can g1 acquire intent] in E2, Hi2. rewrite E2. bind_simpl.
  assert (steps 0 ((six_lock_default, ∅), no_holders) (s2, g1)) as S2.
  { apply (steps_trans 0 0 _ _ _ S1). apply (steps_one false).
    apply (step_queue (l1, ws) g1 SIX_LOCK_intent 100 2 false); try done. }
  vm_compute in E1. injection E1 as <-. vm_compute in E2. injection E2 as <-.
  eexists _, _. split; [vm_compute; reflexivity|]. split; [|eexists; split; reflexivity].
  exists 0%nat. apply (steps_trans 0 0 _ _ _ S2). apply (steps_one false).
  match goal with |- step _ (?s, ?g) (?s2, _) =>
    exact (step_unlock s g SIX_LOCK_intent 1 (Some 536870912) (s2.1) eq_refl (fun _ _ => conj eq_refl eq_refl) eq_refl)
  end.
Qed.

Lemma six_wakeup_oldest_witness : exists st s s' ptr wait tsk, contended = Some (st, s) /\
  __six_lock_wakeup s SIX_LOCK_intent = Some s' /\ owner s'.1 = Some tsk /\
  s'.2 !! ptr = Some (set_acquired wait true).
Proof.
  destruct contended_reachable as (st & s & E & Hr & Hsl).
  destruct (six_wakeup_oldest s no_holders Hr eq_refl) as
    (s' & i & sl & ptr & wait & tsk & H1 & _ & _ & _ & H2 & H3 & _).
  - destruct Hsl as (sl & H1 & H2). exists 0%nat, sl. split; [exact H1|exact H2].
  - exists st, s, s', ptr, wait, tsk. split; [exact E|]. split; [exact H1|]. split; [exact H2|exact H3].
Defined.

(** A wakeup that fails to hand over still clears the waiting bit, so the
    waiter can be forgotten: thread 3 takes the intent lock between thread
    1's drop and its wakeup, and drops it later; at the end the lock is
    free, no waiting bit is set, and thread 2 still sleeps in the queue. *)
Definition lost_wakeup : option world :=
  '(st, s) ← contended;
  '(_, l) ← six_trylock_ip (s : world).1 SIX_LOCK_intent 3;
  s ← six_lock_wakeup (l, s.2) st SIX_LOCK_intent;
  six_unlock_ip s SIX_LOCK_intent 3.

(** The run above ends with a free lock (state word 0, no owner) whose queue
    still holds thread 2, not granted: no later unlock will wake it, since
    [six_lock_wakeup] only looks at the queue when the waiting bit is set. *)
Theorem six_wakeup_lost :
  exists s sl wait, lost_wakeup = Some s /\ state s.1 = 0 /\ owner s.1 = None /\
    data (wait_lock s.1) !! 0%nat = Some sl /\ queued s.2 0 sl 100 wait 2 /\
    lock_want wait = SIX_LOCK_intent /\ six_lock_wakeup_all s = Some s.
Proof.
  eexists _, _, _. split; [vm_compute; reflexivity|].
  repeat (split; [reflexivity|]). split; [split; reflexivity|]. split; reflexivity.
Qed.
