(* ===== verification/Snapshot.v ===== *)
(** * Snapshot trees ([snapshot.rs])

    Snapshot ids are handed out downwards, so a parent's id is greater than
    its children's.  The in-memory table has the entry of id [n] at index
    [u32::MAX - n].  An ancestor query first follows the skip list upwards
    and then tests a 128-bit bitmap of near ancestors; the reference is the
    plain walk along the parents, which the source keeps as the "early"
    variant. *)

From stdpp Require Import base tactics list option.
From Stdlib Require Import ZArith Lia.
From S2P Require Import Prelude Bpos.

Open Scope Z_scope.

Definition IS_ANCESTOR_BITMAP : Z := 128.
Definition KEY_TYPE_snapshot : Z := 22.
Definition BCH_SNAPSHOT_WILL_DELETE : Z := 1.
Definition BCH_SNAPSHOT_SUBVOL : Z := 2.
Definition BCH_SNAPSHOT_DELETED : Z := 4.
Definition BCH_SNAPSHOT_NO_KEYS : Z := 8.
Definition BCH_ERR_invalid_snapshot_node : Z := -2604.

(** ** Lists of snapshot ids *)

(** [data] holds the first [nr] elements of an array of [size]. *)
Record snapshot_id_list := mk_snapshot_id_list { list_size : Z; data : list Z }.

Definition snapshot_list_has_id (s : snapshot_id_list) (id : Z) : bool :=
  existsb (fun x => x =? id) (data s).

(** [checked_next_power_of_two] *)
Definition next_power_of_two (n : Z) : Z := 2 ^ bitlen (n - 1).

(** [alloc] says whether an allocation of the given number of elements
    succeeds; -12 is ENOMEM. *)
Definition snapshot_list_add_nodup (alloc : Z -> bool) (s : snapshot_id_list) (id : Z)
  : Z * snapshot_id_list :=
  if snapshot_list_has_id s id then (0, s) else
  let new_size := wadd 64 (Z.of_nat (length (data s))) 1 in
  if list_size s <? new_size then
    if (next_power_of_two new_size <? 2 ^ 64) && alloc (next_power_of_two new_size)
    then (0, mk_snapshot_id_list (next_power_of_two new_size) (data s ++ [id]))
    else (-12, s)
  else (0, mk_snapshot_id_list (list_size s) (data s ++ [id])).

Definition snapshot_list_add (alloc : Z -> bool) (s : snapshot_id_list) (id : Z)
  : option (Z * snapshot_id_list) :=
  _ ← assert (negb (snapshot_list_has_id s id));
  Some (snapshot_list_add_nodup alloc s id).

Fixpoint snapshot_list_merge (alloc : Z -> bool) (dst : snapshot_id_list) (src : list Z)
  : Z * snapshot_id_list :=
  match src with
  | [] => (0, dst)
  | id :: src =>
      let '(ret, dst) := snapshot_list_add_nodup alloc dst id in
      if negb (ret =? 0) then (ret, dst) else snapshot_list_merge alloc dst src
  end.

(** ** The snapshot table *)

Inductive snapshot_id_state := SNAPSHOT_ID_empty | SNAPSHOT_ID_live | SNAPSHOT_ID_deleted.

#[export] Instance snapshot_id_state_eq_dec : EqDecision snapshot_id_state.
Proof. solve_decision. Defined.

Record snapshot_t := mk_snapshot_t {
  s_state : snapshot_id_state;
  parent : Z;
  skip : Z * Z * Z;
  depth : Z;
  children : Z * Z;
  subvol : Z;
  tree : Z;
  is_ancestor : Z * Z
}.

Definition snapshot_t_default : snapshot_t :=
  mk_snapshot_t SNAPSHOT_ID_empty 0 (0, 0, 0) 0 (0, 0) 0 0 (0, 0).

Record snapshot_table := mk_snapshot_table { nr : nat; s : list snapshot_t }.

Definition __snapshot_t (t : snapshot_table) (id : Z) : option snapshot_t :=
  let idx := MAX 32 - id in
  if idx <? Z.of_nat (nr t) then s t !! Z.to_nat idx else None.

Definition bch2_snapshot_parent (t : snapshot_table) (id : Z) : Z :=
  match __snapshot_t t id with Some n => parent n | None => 0 end.

Definition bch2_snapshot_parent_early (t : snapshot_table) (id : Z) : Z :=
  match __snapshot_t t id with Some n => parent n | None => 0 end.

Definition bch2_snapshot_tree (t : snapshot_table) (id : Z) : Z :=
  match __snapshot_t t id with Some n => tree n | None => 0 end.

Definition bch2_snapshots_same_tree (t : snapshot_table) (id1 id2 : Z) : bool :=
  if id1 =? id2 then true else
  match __snapshot_t t id1, __snapshot_t t id2 with
  | Some s1, Some s2 => tree s1 =? tree s2
  | _, _ => false
  end.

Fixpoint bch2_snapshot_nth_parent (t : snapshot_table) (id : Z) (n : nat) : Z :=
  match n with
  | O => id
  | S n => bch2_snapshot_nth_parent t (bch2_snapshot_parent t id) n
  end.

Fixpoint skiplist_walk (t : snapshot_table) (id : Z) (n : nat) : option Z :=
  match n with
  | O => Some id
  | S n => node ← __snapshot_t t id; skiplist_walk t (parent node) n
  end.

(** [random] is the 32-bit number read from the system. *)
Definition bch2_snapshot_skiplist_get (t : snapshot_table) (random id : Z) : option Z :=
  if id =? 0 then Some 0 else
  node ← __snapshot_t t id;
  if parent node =? 0 then Some id else
  _ ← assert (negb (depth node =? 0));
  skiplist_walk t id (Z.to_nat (random mod depth node)).

Fixpoint root_walk (fuel : nat) (t : snapshot_table) (id : Z) : option Z :=
  let p := bch2_snapshot_parent t id in
  if p =? 0 then Some id else
  match fuel with
  | O => None
  | S fuel => root_walk fuel t p
  end.

(** A path upwards has at most as many nodes as the table. *)
Definition bch2_snapshot_root (t : snapshot_table) (id : Z) : option Z := root_walk (nr t) t id.

Definition bch2_snapshot_id_state (t : snapshot_table) (id : Z) : snapshot_id_state :=
  match __snapshot_t t id with Some n => s_state n | None => SNAPSHOT_ID_empty end.

Definition bch2_snapshot_exists (t : snapshot_table) (id : Z) : bool :=
  bool_decide (bch2_snapshot_id_state t id = SNAPSHOT_ID_live).

Definition bch2_snapshot_is_internal_node (t : snapshot_table) (id : Z) : Z :=
  match __snapshot_t t id with
  | Some n => Z.b2z (negb (fst (children n) =? 0))
  | None => BCH_ERR_invalid_snapshot_node
  end.

Definition bch2_snapshot_is_leaf (t : snapshot_table) (id : Z) : Z :=
  let ret := bch2_snapshot_is_internal_node t id in
  if ret <? 0 then ret else 1 - ret.

Definition bch2_snapshot_depth (t : snapshot_table) (p : Z) : option Z :=
  if p =? 0 then Some 0 else
  node ← __snapshot_t t p;
  Some (wadd 32 (depth node) 1).

Definition bch2_snapshot_has_children (t : snapshot_table) (id : Z) : bool :=
  match __snapshot_t t id with
  | Some n => negb (Z.lor (fst (children n)) (snd (children n)) =? 0)
  | None => false
  end.

(** Children have smaller ids and the table is finite: [fuel] is its size. *)
Fixpoint live_walk (fuel : nat) (t : snapshot_table) (id : Z) : option Z :=
  node ← __snapshot_t t id;
  if bool_decide (s_state node = SNAPSHOT_ID_live) then Some id else
  _ ← assert (negb (fst (children node) =? 0) && (snd (children node) =? 0));
  match fuel with
  | O => None
  | S fuel => live_walk fuel t (fst (children node))
  end.

Definition bch2_snapshot_live_descendent (t : snapshot_table) (id : Z) : option Z :=
  live_walk (nr t) t id.

(** ** Ancestors *)

Definition get_ancestor_below (t : snapshot_table) (id ancestor : Z) : Z :=
  match __snapshot_t t id with
  | None => 0
  | Some n =>
      let '(s0, s1, s2) := skip n in
      if s2 <=? ancestor then s2
      else if s1 <=? ancestor then s1
      else if s0 <=? ancestor then s0
      else parent n
  end.

(** Bit [b] of the two-word bitmap; an index past it panics. *)
Definition bitmap_word (bm : Z * Z) (i : Z) : option Z :=
  if i =? 0 then Some (fst bm) else if i =? 1 then Some (snd bm) else None.

Definition test_ancestor_bitmap (t : snapshot_table) (id ancestor : Z) : option bool :=
  match __snapshot_t t id with
  | None => Some false
  | Some n =>
      d ← usub ancestor id;
      bit ← usub d 1;
      word ← bitmap_word (is_ancestor n) (bit / 64);
      Some (negb (Z.land word (2 ^ (bit mod 64)) =? 0))
  end.

Fixpoint early_walk (fuel : nat) (t : snapshot_table) (id ancestor : Z) : option bool :=
  if negb (id =? 0) && (id <? ancestor) then
    match fuel with
    | O => None
    | S fuel => early_walk fuel t (bch2_snapshot_parent_early t id) ancestor
    end
  else Some (id =? ancestor).

(** The walk visits every table entry at most once, and one id outside it. *)
Definition bch2_snapshot_is_ancestor_early (t : snapshot_table) (id ancestor : Z) : option bool :=
  early_walk (S (nr t)) t id ancestor.

Fixpoint skip_walk (fuel : nat) (t : snapshot_table) (id ancestor : Z) : option Z :=
  if negb (id =? 0) && (id <? ancestor - IS_ANCESTOR_BITMAP) then
    match fuel with
    | O => None
    | S fuel => skip_walk fuel t (get_ancestor_below t id ancestor) ancestor
    end
  else Some id.

Definition __bch2_snapshot_is_ancestor (t : snapshot_table) (id ancestor : Z) : option bool :=
  id ← (if IS_ANCESTOR_BITMAP <=? ancestor then skip_walk (S (nr t)) t id ancestor else Some id);
  if negb (id =? 0) && (id <? ancestor) then test_ancestor_bitmap t id ancestor
  else Some (id =? ancestor).

Definition bch2_snapshot_is_ancestor (t : snapshot_table) (id ancestor : Z) : option bool :=
  _ ← assert (negb (id =? 0));
  _ ← assert (negb (ancestor =? 0));
  if id =? ancestor then Some true else __bch2_snapshot_is_ancestor t id ancestor.

Fixpoint snapshot_list_has_ancestor (t : snapshot_table) (l : list Z) (id : Z) : option bool :=
  match l with
  | [] => Some false
  | x :: l =>
      b ← bch2_snapshot_is_ancestor t id x;
      if (b : bool) then Some true else snapshot_list_has_ancestor t l id
  end.

(** ** Walking the tree *)

Fixpoint tree_up (fuel : nat) (t : snapshot_table) (id dpt : Z) : option (Z * Z) :=
  let p := bch2_snapshot_parent t id in
  if p =? 0 then Some (0, dpt) else
  dpt ← usub dpt 1;
  let n := match __snapshot_t t p with Some x => snd (children x) | None => 0 end in
  if negb (n =? 0) && negb (n =? id) then
    dpt ← uadd 32 dpt 1;
    Some (n, dpt)
  else
    match fuel with
    | O => None
    | S fuel => tree_up fuel t p dpt
    end.

(** Returns the next id in preorder and its depth. *)
Definition __bch2_snapshot_tree_next (t : snapshot_table) (id dpt : Z) : option (Z * Z) :=
  let n := match __snapshot_t t id with Some x => fst (children x) | None => 0 end in
  if negb (n =? 0) then
    dpt ← uadd 32 dpt 1;
    Some (n, dpt)
  else tree_up (nr t) t id dpt.

(** ** Entering a snapshot key into the table *)

(** The on-disk value; [has_depth] says that the value is long enough to
    hold the fields from [depth] on. *)
Record bch_snapshot := mk_bch_snapshot {
  v_flags : Z;
  v_parent : Z;
  v_children : Z * Z;
  v_subvol : Z;
  v_tree : Z;
  v_depth : Z;
  v_skip : Z * Z * Z;
  v_has_depth : bool
}.

Definition set_bitmap (bm : Z * Z) (bit : Z) : option (Z * Z) :=
  word ← bitmap_word bm (bit / 64);
  let word := Z.lor word (2 ^ (bit mod 64)) in
  Some (if bit / 64 =? 0 then (word, snd bm) else (fst bm, word)).

Fixpoint mark_ancestors (fuel : nat) (t : snapshot_table) (id p : Z) (bm : Z * Z) : option (Z * Z) :=
  if p =? 0 then Some bm else
  d ← usub p id;
  bit ← usub d 1;
  if bit <? IS_ANCESTOR_BITMAP then
    match fuel with
    | O => None
    | S fuel =>
        bm ← set_bitmap bm bit;
        mark_ancestors fuel t id (bch2_snapshot_parent t p) bm
    end
  else Some bm.

Definition grow_table (t : snapshot_table) (idx : Z) : snapshot_table :=
  if Z.of_nat (nr t) <=? idx then
    let new_size := Z.to_nat (next_power_of_two (idx + 1)) in
    mk_snapshot_table new_size (s t ++ replicate (new_size - length (s t)) snapshot_t_default)
  else t.

(** [None] for [new] stands for a key of another type, a deleted snapshot.
    The result tells whether the filesystem must delete dead snapshots. *)
Definition bch2_mark_snapshot (t : snapshot_table) (id : Z) (new : option bch_snapshot)
  : option (snapshot_table * bool) :=
  let idx := MAX 32 - id in
  let t := grow_table t idx in
  match new with
  | Some v =>
      bm ← mark_ancestors (Z.to_nat IS_ANCESTOR_BITMAP) t id (v_parent v) (0, 0);
      let entry := mk_snapshot_t
        (if Z.land (v_flags v) (Z.lor BCH_SNAPSHOT_DELETED BCH_SNAPSHOT_NO_KEYS) =? 0
         then SNAPSHOT_ID_live else SNAPSHOT_ID_deleted)
        (v_parent v)
        (if v_has_depth v then v_skip v else (0, 0, 0))
        (if v_has_depth v then v_depth v else 0)
        (v_children v)
        (if negb (Z.land (v_flags v) BCH_SNAPSHOT_SUBVOL =? 0) then v_subvol v else 0)
        (v_tree v) bm in
      _ ← s t !! Z.to_nat idx;
      Some (mk_snapshot_table (nr t) (<[Z.to_nat idx := entry]> (s t)),
            negb (Z.land (v_flags v) BCH_SNAPSHOT_WILL_DELETE =? 0))
  | None =>
      _ ← s t !! Z.to_nat idx;
      Some (mk_snapshot_table (nr t) (<[Z.to_nat idx := snapshot_t_default]> (s t)), false)
  end.

(** ** The ancestor relation *)

Inductive anc (t : snapshot_table) : Z -> Z -> Prop :=
  | anc_refl id : anc t id id
  | anc_up id a : bch2_snapshot_parent t id <> 0 -> anc t (bch2_snapshot_parent t id) a -> anc t id a.

Definition bm_test (bm : Z * Z) (b : Z) : bool :=
  Z.testbit (if b / 64 =? 0 then fst bm else snd bm) (b mod 64).

(** The skip list of a node leads to proper ancestors. *)
Definition skip_ok (t : snapshot_table) (n : snapshot_t) : Prop :=
  let '(s0, s1, s2) := skip n in
  if parent n =? 0 then s0 = 0 /\ s1 = 0 /\ s2 = 0
  else Forall (fun x => 0 < x /\ anc t (parent n) x) [s0; s1; s2].

Record table_ok (t : snapshot_table) : Prop := {
  to_len : length (s t) = nr t;
  to_parent id n : 0 < id <= MAX 32 -> __snapshot_t t id = Some n ->
    parent n = 0 \/ id < parent n <= MAX 32;
  to_skip id n : 0 < id <= MAX 32 -> __snapshot_t t id = Some n -> skip_ok t n;
  to_bitmap id n b : 0 < id <= MAX 32 -> __snapshot_t t id = Some n -> 0 <= b < IS_ANCESTOR_BITMAP ->
    bm_test (is_ancestor n) b = true <-> parent n <> 0 /\ anc t (parent n) (id + 1 + b)
}.

Section Walks.
Context (t : snapshot_table) (Ht : table_ok t).

Lemma parent_cases id : 0 < id <= MAX 32 ->
  bch2_snapshot_parent t id = 0 \/ id < bch2_snapshot_parent t id <= MAX 32.
Proof.
  intros Hid. unfold bch2_snapshot_parent. destruct (__snapshot_t t id) as [n|] eqn:E; [|by left].
  by apply (to_parent t Ht id n).
Qed.

Lemma anc_range id a : anc t id a -> 0 < id <= MAX 32 -> id <= a <= MAX 32.
Proof.
  induction 1 as [id|id a Hp _ IH]; intros Hid; [lia|].
  destruct (parent_cases id Hid) as [E|E]; [done|]. assert (0 < bch2_snapshot_parent t id) as Hp' by lia.
  specialize (IH ltac:(lia)). lia.
Qed.

Lemma anc_trans id x a : anc t id x -> anc t x a -> anc t id a.
Proof. induction 1; [done|]. intros. apply anc_up; auto. Qed.

(** The path upwards is a line. *)
Lemma anc_linear id x a : anc t id x -> anc t id a -> 0 < id <= MAX 32 -> x <= a -> anc t x a.
Proof.
  induction 1 as [id|id x Hp Hx IH]; intros Ha Hid Hle; [done|].
  destruct (parent_cases id Hid) as [E|E]; [done|].
  inversion Ha as [|? ? _ Ha']; subst; [|apply IH; [done|lia|done]].
  pose proof (anc_range _ _ Hx ltac:(lia)). lia.
Qed.

(** Steps left on the way up. *)
Definition fuel_for (id : Z) : nat :=
  if id =? 0 then 0
  else if MAX 32 - id <? Z.of_nat (nr t) then Z.to_nat (MAX 32 - id + 2) else 1.

Lemma fuel_for_le id : 0 <= id <= MAX 32 -> (fuel_for id <= S (nr t))%nat.
Proof.
  intros. unfold fuel_for. destruct (id =? 0); [lia|].
  destruct (Z.ltb_spec (MAX 32 - id) (Z.of_nat (nr t))); lia.
Qed.

Lemma lookup_fuel id n : 0 < id <= MAX 32 -> __snapshot_t t id = Some n ->
  forall x, id < x <= MAX 32 \/ x = 0 -> (fuel_for x < fuel_for id)%nat.
Proof.
  intros Hid E x Hx. unfold __snapshot_t in E. unfold fuel_for.
  destruct (Z.ltb_spec (MAX 32 - id) (Z.of_nat (nr t))); [|done].
  destruct (Z.eqb_spec id 0); [lia|]. destruct (Z.eqb_spec x 0); [lia|].
  destruct (Z.ltb_spec (MAX 32 - x) (Z.of_nat (nr t))); lia.
Qed.

Lemma fuel_for_pos id : 0 < id <= MAX 32 -> (0 < fuel_for id)%nat.
Proof.
  intros. unfold fuel_for. destruct (Z.eqb_spec id 0); [lia|].
  destruct (Z.ltb_spec (MAX 32 - id) (Z.of_nat (nr t))); lia.
Qed.

Lemma anc_parent id a : id <> a -> anc t id a <->
  bch2_snapshot_parent t id <> 0 /\ anc t (bch2_snapshot_parent t id) a.
Proof.
  intros Hne. split; [|intros [? ?]; by apply anc_up]. inversion 1; subst; done.
Qed.

Lemma early_walk_spec fuel id a : 0 < a -> 0 <= id <= MAX 32 -> (fuel_for id <= fuel)%nat ->
  exists b, early_walk fuel t id a = Some b /\ (b = true <-> id <> 0 /\ anc t id a).
Proof.
  intros Ha. revert id. induction fuel as [|fuel IH]; intros id Hid Hf; cbn [early_walk];
    (destruct (Z.eqb_spec id 0) as [->|Hid0]; cbn [negb andb];
     [exists (0 =? a); split; [done|]; destruct (Z.eqb_spec 0 a); naive_solver lia|]);
    (destruct (Z.ltb_spec id a) as [Hlt|Hge];
     [|exists (id =? a); split; [done|]; destruct (Z.eqb_spec id a) as [->|Hne];
       [split; [intros _; split; [done|constructor]|done]
       |split; [done|intros [_ Hanc]; pose proof (anc_range _ _ Hanc ltac:(lia)); lia]]]).
  - pose proof (fuel_for_pos id ltac:(lia)). lia.
  - change (bch2_snapshot_parent_early t id) with (bch2_snapshot_parent t id).
    destruct (parent_cases id ltac:(lia)) as [E|E].
    + destruct (IH (bch2_snapshot_parent t id)) as (b & Eb & Hb).
      * rewrite E. unfold MAX. lia.
      * rewrite E. cbn. lia.
      * exists b. split; [done|]. rewrite Hb, (anc_parent id a) by lia. tauto.
    + destruct (__snapshot_t t id) as [n|] eqn:En;
        [|unfold bch2_snapshot_parent in E; rewrite En in E; lia].
      destruct (IH (bch2_snapshot_parent t id)) as (b & Eb & Hb); [lia| |].
      * pose proof (lookup_fuel id n ltac:(lia) En (bch2_snapshot_parent t id)). lia.
      * exists b. split; [done|]. rewrite Hb, (anc_parent id a) by lia. tauto.
Qed.

(** The target of a skip is 0 or above [id], and keeps the answer. *)
Lemma get_ancestor_below_spec id a : 0 < id < a -> id <= MAX 32 ->
  let x := get_ancestor_below t id a in
  0 <= x <= MAX 32 /\ (fuel_for x < fuel_for id)%nat /\
  (x <> 0 /\ anc t x a <-> anc t id a).
Proof.
  intros Hid Hm x. unfold get_ancestor_below in x.
  destruct (__snapshot_t t id) as [n|] eqn:En.
  2: { split; [unfold x, MAX; lia|]. split; [pose proof (fuel_for_pos id ltac:(lia)); unfold x; cbn; lia|].
       rewrite (anc_parent id a) by lia. unfold bch2_snapshot_parent. rewrite En. unfold x. tauto. }
  assert (bch2_snapshot_parent t id = parent n) as Ep by (unfold bch2_snapshot_parent; by rewrite En).
  assert (x = 0 \/ id < x <= MAX 32) as Hx; [|assert (x <> 0 /\ anc t x a <-> anc t id a) as Hiff].
  1, 2: pose proof (to_skip t Ht id n ltac:(lia) En) as Hs; unfold skip_ok in Hs;
    destruct (skip n) as [[s0 s1] s2]; destruct (parent_cases id ltac:(lia)) as [E|E]; rewrite Ep in E.
  - rewrite E in Hs. cbn in Hs. destruct Hs as (-> & -> & ->). left. unfold x. destruct (Z.leb_spec 0 a); lia.
  - destruct (Z.eqb_spec (parent n) 0); [lia|]. right.
    apply Forall_cons_1 in Hs as [[P0 A0] Hs]. apply Forall_cons_1 in Hs as [[P1 A1] Hs].
    apply Forall_cons_1 in Hs as [[P2 A2] _].
    apply anc_range in A0, A1, A2; [|lia..]. unfold x. repeat case_match; lia.
  - rewrite E in Hs. cbn in Hs. destruct Hs as (-> & -> & ->).
    rewrite (anc_parent id a), Ep by lia. assert (x = 0) as -> by (unfold x; destruct (Z.leb_spec 0 a); lia). tauto.
  - destruct (Z.eqb_spec (parent n) 0); [lia|].
    apply Forall_cons_1 in Hs as [[P0 A0] Hs]. apply Forall_cons_1 in Hs as [[P1 A1] Hs].
    apply Forall_cons_1 in Hs as [[P2 A2] _].
    assert (forall y, 0 < y -> anc t (parent n) y -> y <= a -> (y <> 0 /\ anc t y a <-> anc t id a)) as Hy.
    { intros y Hy Hanc Hle. rewrite (anc_parent id a), Ep by lia. split.
      - intros [_ Hya]. split; [done|]. by eapply anc_trans.
      - intros [_ Hpa]. split; [lia|]. by apply (anc_linear (parent n)); [..|lia|]. }
    unfold x. destruct (Z.leb_spec s2 a); [by apply Hy|]. destruct (Z.leb_spec s1 a); [by apply Hy|].
    destruct (Z.leb_spec s0 a); [by apply Hy|]. by rewrite (anc_parent id a), Ep by lia.
  - split; [destruct Hx; [unfold MAX; lia|lia]|]. split; [|done].
    apply (lookup_fuel id n); [lia|done|]. tauto.
Qed.

Lemma skip_walk_spec fuel id a : 0 < a -> 0 <= id <= MAX 32 -> (fuel_for id <= fuel)%nat ->
  exists id', skip_walk fuel t id a = Some id' /\ 0 <= id' <= MAX 32 /\
    (id' = 0 \/ a - IS_ANCESTOR_BITMAP <= id') /\
    (id' <> 0 /\ anc t id' a <-> id <> 0 /\ anc t id a).
Proof.
  intros Ha. revert id. induction fuel as [|fuel IH]; intros id Hid Hf; cbn [skip_walk];
    (destruct (Z.eqb_spec id 0) as [->|Hid0]; cbn [negb andb]; [exists 0; naive_solver|]);
    (destruct (Z.ltb_spec id (a - IS_ANCESTOR_BITMAP)) as [Hlt|Hge]; [|exists id; naive_solver]).
  - pose proof (fuel_for_pos id ltac:(lia)). lia.
  - unfold IS_ANCESTOR_BITMAP in Hlt.
    destruct (get_ancestor_below_spec id a ltac:(lia) ltac:(lia)) as (Hr & Hfu & Hiff).
    destruct (IH (get_ancestor_below t id a)) as (id' & E & Hr' & Hb & Hiff'); [done|lia|].
    exists id'. split; [done|]. split; [done|]. split; [done|]. rewrite Hiff', Hiff. tauto.
Qed.

Lemma test_bitmap_spec id a : 0 < id < a -> id <= MAX 32 -> a <= id + IS_ANCESTOR_BITMAP ->
  exists b, test_ancestor_bitmap t id a = Some b /\ (b = true <-> anc t id a).
Proof.
  intros Hid Hm Hnear. unfold test_ancestor_bitmap, IS_ANCESTOR_BITMAP in *.
  destruct (__snapshot_t t id) as [n|] eqn:En.
  2: { exists false. split; [done|]. rewrite (anc_parent id a) by lia. unfold bch2_snapshot_parent.
       rewrite En. naive_solver. }
  rewrite !usub_ok by lia. bind_simpl. rewrite usub_ok by lia. bind_simpl.
  assert (bch2_snapshot_parent t id = parent n) as Ep by (unfold bch2_snapshot_parent; by rewrite En).
  pose proof (to_bitmap t Ht id n (a - id - 1) ltac:(lia) En) as Hbm.
  unfold IS_ANCESTOR_BITMAP in Hbm. specialize (Hbm ltac:(lia)).
  replace (id + 1 + (a - id - 1)) with a in Hbm by lia.
  assert (0 <= (a - id - 1) / 64 < 2) as Hq
    by (split; [apply Z.div_pos; lia|apply Z.div_lt_upper_bound; lia]).
  pose proof (Z.mod_pos_bound (a - id - 1) 64 ltac:(lia)).
  unfold bitmap_word. exists (bm_test (is_ancestor n) (a - id - 1)).
  rewrite Hbm, (anc_parent id a), Ep by lia. split; [|done].
  unfold bm_test. destruct (Z.eqb_spec ((a - id - 1) / 64) 0).
  - bind_simpl. by rewrite land_pow2_testbit, negb_involutive by lia.
  - destruct (Z.eqb_spec ((a - id - 1) / 64) 1); [|lia]. bind_simpl.
    by rewrite land_pow2_testbit, negb_involutive by lia.
Qed.

Lemma is_ancestor_spec id a : 0 < id <= MAX 32 -> 0 < a ->
  exists b, bch2_snapshot_is_ancestor t id a = Some b /\ (b = true <-> anc t id a).
Proof.
  intros Hid Ha. unfold bch2_snapshot_is_ancestor.
  destruct (Z.eqb_spec id 0); [lia|]. destruct (Z.eqb_spec a 0); [lia|]. cbn [negb assert]. bind_simpl.
  destruct (Z.eqb_spec id a) as [->|Hne]; [exists true; split; [done|]; split; [constructor|done]|].
  unfold __bch2_snapshot_is_ancestor.
  assert (exists id', (if IS_ANCESTOR_BITMAP <=? a then skip_walk (S (nr t)) t id a else Some id) = Some id' /\
    0 <= id' <= MAX 32 /\ (id' = 0 \/ a <= id' + IS_ANCESTOR_BITMAP) /\
    (id' <> 0 /\ anc t id' a <-> anc t id a)) as (id' & -> & Hr & Hb & Hiff).
  { unfold IS_ANCESTOR_BITMAP. destruct (Z.leb_spec 128 a).
    - destruct (skip_walk_spec (S (nr t)) id a Ha ltac:(lia) (fuel_for_le id ltac:(lia)))
        as (id' & E & Hr & Hb & Hiff). exists id'. unfold IS_ANCESTOR_BITMAP in Hb.
      split; [done|]. split; [done|]. split; [lia|]. rewrite Hiff. naive_solver lia.
    - exists id. split; [done|]. split; [lia|]. split; [lia|]. naive_solver lia. }
  bind_simpl. destruct (Z.eqb_spec id' 0) as [->|Hid0]; cbn [negb andb].
  { exists (0 =? a). split; [done|]. destruct (Z.eqb_spec 0 a); [lia|]. naive_solver. }
  destruct (Z.ltb_spec id' a) as [Hlt|Hge].
  - destruct (test_bitmap_spec id' a ltac:(lia) ltac:(lia) ltac:(lia)) as (b & -> & Hb').
    exists b. split; [done|]. rewrite Hb', <- Hiff. tauto.
  - exists (id' =? a). split; [done|]. rewrite <- Hiff. destruct (Z.eqb_spec id' a) as [->|Hne'].
    + split; [intros _; split; [done|constructor]|done].
    + split; [done|]. intros [_ Hanc]. pose proof (anc_range _ _ Hanc ltac:(lia)). lia.
Qed.

End Walks.

(** ** Changing the table *)

(** Two tables with the same parents above [lo] have the same ancestors there. *)
Lemma anc_ext t t' id a : table_ok t ->
  (forall x, anc t id x -> bch2_snapshot_parent t' x = bch2_snapshot_parent t x) ->
  anc t id a -> anc t' id a.
Proof.
  intros Ht Hsame. induction 1 as [id|id a Hp Ha IH]; [constructor|].
  assert (bch2_snapshot_parent t' id = bch2_snapshot_parent t id) as E by (apply Hsame; constructor).
  apply anc_up; rewrite E; [done|]. apply IH. intros x Hx. apply Hsame. by apply anc_up.
Qed.

Lemma anc_ext_inv t t' id a :
  (forall x, anc t id x -> bch2_snapshot_parent t' x = bch2_snapshot_parent t x) ->
  anc t' id a -> anc t id a.
Proof.
  intros Hsame Ha. revert Hsame. induction Ha as [id|id a Hp Ha IH]; intros Hsame; [constructor|].
  assert (bch2_snapshot_parent t' id = bch2_snapshot_parent t id) as E by (apply Hsame; constructor).
  rewrite E in *. apply anc_up; [done|]. apply IH. intros x Hx. apply Hsame. by apply anc_up.
Qed.

Lemma next_power_of_two_ge n : 0 < n -> n <= next_power_of_two n.
Proof. intros. unfold next_power_of_two. pose proof (bitlen_bound (n - 1) ltac:(lia)). lia. Qed.

Lemma grow_len t idx : length (s t) = nr t -> 0 <= idx ->
  length (s (grow_table t idx)) = nr (grow_table t idx) /\ (nr t <= nr (grow_table t idx))%nat /\
  idx < Z.of_nat (nr (grow_table t idx)).
Proof.
  intros Hl Hidx. unfold grow_table. destruct (Z.leb_spec (Z.of_nat (nr t)) idx); [|split; [done|lia]].
  pose proof (next_power_of_two_ge (idx + 1) ltac:(lia)). cbn [s nr].
  rewrite length_app, length_replicate. lia.
Qed.

Lemma lookup_grow t idx id : length (s t) = nr t -> 0 <= idx -> id <= MAX 32 ->
  __snapshot_t (grow_table t idx) id =
  match __snapshot_t t id with
  | Some n => Some n
  | None => if MAX 32 - id <? Z.of_nat (nr (grow_table t idx)) then Some snapshot_t_default else None
  end.
Proof.
  intros Hl Hidx Hid. pose proof (grow_len t idx Hl Hidx) as (Hl' & Hle & _).
  unfold __snapshot_t. destruct (Z.ltb_spec (MAX 32 - id) (Z.of_nat (nr t))) as [Hin|Hout].
  - destruct (Z.ltb_spec (MAX 32 - id) (Z.of_nat (nr (grow_table t idx)))); [|lia].
    destruct (lookup_lt_is_Some_2 (s t) (Z.to_nat (MAX 32 - id))) as [n En]; [lia|]. rewrite En.
    unfold grow_table. destruct (Z.of_nat (nr t) <=? idx); [|done]. cbn [s]. by apply lookup_app_l_Some.
  - destruct (Z.ltb_spec (MAX 32 - id) (Z.of_nat (nr (grow_table t idx)))) as [Hin|]; [|done].
    unfold grow_table in *. destruct (Z.of_nat (nr t) <=? idx); [|lia]. cbn [s nr] in *.
    rewrite lookup_app_r by lia. apply lookup_replicate_2.
    rewrite length_app, length_replicate in Hl'. lia.
Qed.

Lemma parent_grow t idx id : length (s t) = nr t -> 0 <= idx -> id <= MAX 32 ->
  bch2_snapshot_parent (grow_table t idx) id = bch2_snapshot_parent t id.
Proof.
  intros Hl Hidx Hid. unfold bch2_snapshot_parent. rewrite lookup_grow by done.
  destruct (__snapshot_t t id); [done|]. by destruct (_ <? _).
Qed.

Lemma default_entry_bitmap b : bm_test (0, 0) b = false.
Proof. unfold bm_test. cbn [fst snd]. destruct (b / 64 =? 0); apply Z.bits_0. Qed.

Lemma table_ok_grow t idx : table_ok t -> 0 <= idx -> table_ok (grow_table t idx).
Proof.
  intros Ht Hidx. pose proof (to_len t Ht) as Hl.
  assert (forall id a, 0 < id <= MAX 32 -> anc t id a -> anc (grow_table t idx) id a) as Hanc.
  { intros id a Hid. apply anc_ext; [done|]. intros x Hx. apply parent_grow; [done..|].
    pose proof (anc_range t Ht _ _ Hx Hid). lia. }
  assert (forall id a, 0 < id <= MAX 32 -> anc (grow_table t idx) id a -> anc t id a) as Hanc'.
  { intros id a Hid. apply anc_ext_inv. intros x Hx. apply parent_grow; [done..|].
    pose proof (anc_range t Ht _ _ Hx Hid). lia. }
  assert (forall id n, 0 < id <= MAX 32 -> __snapshot_t (grow_table t idx) id = Some n ->
    __snapshot_t t id = Some n \/ n = snapshot_t_default) as Hcase.
  { intros id n Hid. rewrite lookup_grow by (done || lia). destruct (__snapshot_t t id); [naive_solver|].
    destruct (_ <? _); naive_solver. }
  split.
  - by apply grow_len.
  - intros id n Hid E. destruct (Hcase id n Hid E) as [E'| ->]; [by apply (to_parent t Ht)|by left].
  - intros id n Hid E. destruct (Hcase id n Hid E) as [E'| ->]; [|by unfold skip_ok].
    pose proof (to_skip t Ht id n Hid E') as Hs. pose proof (to_parent t Ht id n Hid E') as Hp.
    unfold skip_ok in *. destruct (skip n) as [[s0 s1] s2]. destruct (Z.eqb_spec (parent n) 0); [done|].
    eapply Forall_impl; [|exact Hs]. intros x [? ?]. split; [done|]. apply Hanc; [lia|done].
  - intros id n b Hid E Hb. destruct (Hcase id n Hid E) as [E'| ->].
    + rewrite (to_bitmap t Ht id n b Hid E' Hb). pose proof (to_parent t Ht id n Hid E') as Hp.
      split; intros [? ?]; (split; [done|]); [apply Hanc|apply Hanc']; try done; lia.
    + cbn [is_ancestor snapshot_t_default parent]. rewrite default_entry_bitmap. naive_solver.
Qed.

Lemma bm_test_set bm bit b : 0 <= bit < IS_ANCESTOR_BITMAP -> 0 <= b < IS_ANCESTOR_BITMAP ->
  exists bm', set_bitmap bm bit = Some bm' /\ bm_test bm' b = (bit =? b) || bm_test bm b.
Proof.
  unfold IS_ANCESTOR_BITMAP. intros Hbit Hb. unfold set_bitmap, bitmap_word.
  assert (0 <= bit / 64 < 2) by (split; [apply Z.div_pos; lia|apply Z.div_lt_upper_bound; lia]).
  pose proof (Z.mod_pos_bound bit 64 ltac:(lia)). pose proof (Z.mod_pos_bound b 64 ltac:(lia)).
  pose proof (Z.div_mod bit 64 ltac:(lia)). pose proof (Z.div_mod b 64 ltac:(lia)).
  assert (0 <= b / 64 < 2) by (split; [apply Z.div_pos; lia|apply Z.div_lt_upper_bound; lia]).
  assert ((bit =? b) = (bit / 64 =? b / 64) && (bit mod 64 =? b mod 64)) as Heq.
  { destruct (Z.eqb_spec (bit / 64) (b / 64)), (Z.eqb_spec (bit mod 64) (b mod 64)), (Z.eqb_spec bit b); cbn; congruence || lia. }
  destruct (Z.eqb_spec (bit / 64) 0) as [E|E]; [|destruct (Z.eqb_spec (bit / 64) 1) as [E1|]; [|lia]];
    bind_simpl; eexists; (split; [reflexivity|]); unfold bm_test; cbn [fst snd]; rewrite Heq;
    destruct (Z.eqb_spec (b / 64) 0) as [Eb|Eb];
    destruct (Z.eqb_spec (bit / 64) (b / 64)); try lia; cbn [andb orb];
    rewrite ?Z.lor_spec, ?Z.pow2_bits_eqb by lia; try done; apply orb_comm.
Qed.

(** The loop marks exactly the ancestors in reach. *)
Lemma mark_ancestors_spec t id fuel p bm : table_ok t -> 0 < id -> p = 0 \/ id < p <= MAX 32 ->
  (p <> 0 -> IS_ANCESTOR_BITMAP - (p - id - 1) <= Z.of_nat fuel) ->
  exists bm', mark_ancestors fuel t id p bm = Some bm' /\
    forall b, 0 <= b < IS_ANCESTOR_BITMAP ->
      bm_test bm' b = true <-> bm_test bm b = true \/ p <> 0 /\ anc t p (id + 1 + b).
Proof.
  intros Ht Hid. revert p bm. induction fuel as [|fuel IH]; intros p bm Hp Hf; cbn [mark_ancestors];
    (destruct (Z.eqb_spec p 0) as [->|Hp0]; [exists bm; naive_solver|]); destruct Hp as [|Hp]; try done;
    rewrite usub_ok by lia; bind_simpl; rewrite usub_ok by lia; bind_simpl;
    (destruct (Z.ltb_spec (p - id - 1) IS_ANCESTOR_BITMAP) as [Hlt|Hge]; [try lia|
      exists bm; split; [done|]; intros b Hb; split; [tauto|]; intros [|[_ Ha]]; [done|];
      pose proof (anc_range t Ht _ _ Ha ltac:(lia)); lia]).
  set (q := bch2_snapshot_parent t p). assert (q = 0 \/ p < q <= MAX 32) as Hq by (apply parent_cases; [done|lia]).
  unfold IS_ANCESTOR_BITMAP in *.
  destruct (bm_test_set bm (p - id - 1) 0) as (bm1 & E1 & _); [unfold IS_ANCESTOR_BITMAP; lia..|].
  rewrite E1. bind_simpl. destruct (IH q bm1) as (bm' & E' & Hbm'); [lia|lia|].
  exists bm'. split; [done|]. intros b Hb. rewrite Hbm' by done.
  destruct (bm_test_set bm (p - id - 1) b) as (bm2 & E2 & Hset); [unfold IS_ANCESTOR_BITMAP; lia..|].
  rewrite E1 in E2. simplify_eq. rewrite Hset, orb_true_iff, Z.eqb_eq.
  destruct (Z.eq_dec p (id + 1 + b)) as [Epb|Hne].
  - split; [intros _; right; split; [done|]; rewrite Epb; constructor|]. intros _. left. left. lia.
  - rewrite (anc_parent t p (id + 1 + b)) by done. fold q. split.
    + intros [[?|?]|?]; [lia|by left|by right].
    + intros [?|[_ ?]]; [by left; right|by right].
Qed.

(** A snapshot value that fits under the table: its parent is 0 or an entry
    above [id], and its skip list leads to ancestors. *)
Definition value_ok (t : snapshot_table) (id : Z) (v : bch_snapshot) : Prop :=
  (v_parent v = 0 \/ id < v_parent v <= MAX 32) /\
  let '(s0, s1, s2) := if v_has_depth v then v_skip v else (0, 0, 0) in
  if v_parent v =? 0 then s0 = 0 /\ s1 = 0 /\ s2 = 0
  else Forall (fun x => 0 < x /\ anc t (v_parent v) x) [s0; s1; s2].

(** No entry has [id] as its parent. *)
Definition childless (t : snapshot_table) (id : Z) : Prop :=
  forall x, 0 < x <= MAX 32 -> bch2_snapshot_parent t x <> id.

Lemma lookup_insert_table t id e x : length (s t) = nr t -> id <= MAX 32 -> x <= MAX 32 ->
  MAX 32 - id < Z.of_nat (nr t) ->
  __snapshot_t (mk_snapshot_table (nr t) (<[Z.to_nat (MAX 32 - id) := e]> (s t))) x =
  if x =? id then Some e else __snapshot_t t x.
Proof.
  intros Hl Hid Hx Hin. unfold __snapshot_t. cbn [nr s].
  destruct (Z.eqb_spec x id) as [->|Hne].
  - destruct (Z.ltb_spec (MAX 32 - id) (Z.of_nat (nr t))); [|lia].
    rewrite list_lookup_insert_eq by lia. done.
  - destruct (Z.ltb_spec (MAX 32 - x) (Z.of_nat (nr t))); [|done].
    by rewrite list_lookup_insert_ne by lia.
Qed.

(** Replacing the entry of a childless id keeps the paths of all others. *)
Section Replace.
Context (t : snapshot_table) (id : Z) (e : snapshot_t) (Ht : table_ok t).
Context (Hid : 0 < id <= MAX 32) (Hin : MAX 32 - id < Z.of_nat (nr t)) (Hch : childless t id).
Context (Hpar : parent e = 0 \/ id < parent e <= MAX 32).

Let t' := mk_snapshot_table (nr t) (<[Z.to_nat (MAX 32 - id) := e]> (s t)).

Lemma lookup_replace x : x <= MAX 32 ->
  __snapshot_t t' x = if x =? id then Some e else __snapshot_t t x.
Proof. intros. apply lookup_insert_table; try done; [apply Ht|lia]. Qed.

Lemma parent_replace x : x <= MAX 32 -> x <> id -> bch2_snapshot_parent t' x = bch2_snapshot_parent t x.
Proof.
  intros Hx Hne. unfold bch2_snapshot_parent. rewrite lookup_replace by done.
  by destruct (Z.eqb_spec x id).
Qed.

(** Paths from other ids do not meet [id]. *)
Lemma path_avoids x y : anc t x y -> 0 < x <= MAX 32 -> x <> id -> y <> id.
Proof.
  induction 1 as [x|x a Hp Ha IH]; intros Hx Hne; [done|]. apply IH; [|by apply Hch].
  pose proof (parent_cases t Ht x Hx). lia.
Qed.

Lemma anc_replace x a : 0 < x <= MAX 32 -> x <> id -> anc t' x a <-> anc t x a.
Proof.
  intros Hx Hne.
  assert (forall y, anc t x y -> bch2_snapshot_parent t' y = bch2_snapshot_parent t y) as Hsame.
  { intros y Hy. apply parent_replace; [|by eapply path_avoids].
    pose proof (anc_range t Ht _ _ Hy Hx). lia. }
  split; [by apply anc_ext_inv|by apply anc_ext].
Qed.

Lemma table_ok_replace :
  skip_ok t e ->
  (forall b, 0 <= b < IS_ANCESTOR_BITMAP ->
     bm_test (is_ancestor e) b = true <-> parent e <> 0 /\ anc t (parent e) (id + 1 + b)) ->
  table_ok t'.
Proof.
  intros Hskip Hbm.
  assert (forall n x, __snapshot_t t x = Some n -> 0 < x <= MAX 32 -> parent n <> 0 ->
    0 < parent n <= MAX 32 /\ parent n <> id) as Hother.
  { intros n x E Hx Hp. pose proof (to_parent t Ht x n Hx E). split; [lia|].
    specialize (Hch x Hx). unfold bch2_snapshot_parent in Hch. by rewrite E in Hch. }
  assert (forall n, skip_ok t n -> (parent n <> 0 -> 0 < parent n <= MAX 32 /\ parent n <> id) ->
    skip_ok t' n) as Hsk.
  { intros n Hs Hp. unfold skip_ok in *. destruct (skip n) as [[s0 s1] s2].
    destruct (Z.eqb_spec (parent n) 0) as [|Hne]; [done|]. destruct (Hp Hne) as [? ?].
    eapply Forall_impl; [|exact Hs]. intros x [? ?]. split; [done|]. by apply anc_replace. }
  split.
  - unfold t'. cbn [s nr]. rewrite length_insert. apply Ht.
  - intros x n Hx. rewrite lookup_replace by lia. destruct (Z.eqb_spec x id) as [->|]; [naive_solver|].
    by apply (to_parent t Ht).
  - intros x n Hx. rewrite lookup_replace by lia. destruct (Z.eqb_spec x id) as [->|].
    + intros [= <-]. apply Hsk; [done|]. intros Hne. lia.
    + intros E. apply Hsk; [by apply (to_skip t Ht x)|]. by apply (Hother n x).
  - intros x n b Hx. rewrite lookup_replace by lia. destruct (Z.eqb_spec x id) as [->|]; intros E Hb.
    + injection E as <-. rewrite Hbm by done.
      split; intros [? ?]; (split; [done|]); apply anc_replace; done || lia.
    + rewrite (to_bitmap t Ht x n b Hx E Hb).
      split; intros [Hp ?]; (split; [done|]); destruct (Hother n x E Hx Hp); by apply anc_replace.
Qed.

End Replace.

Lemma mark_snapshot_spec t id v : table_ok t -> 0 < id <= MAX 32 -> childless t id -> value_ok t id v ->
  exists t' fl, bch2_mark_snapshot t id (Some v) = Some (t', fl) /\ table_ok t' /\
    bch2_snapshot_parent t' id = v_parent v /\
    (forall x, 0 < x <= MAX 32 -> x <> id -> bch2_snapshot_parent t' x = bch2_snapshot_parent t x).
Proof.
  intros Ht Hid Hch [Hp Hskip]. unfold bch2_mark_snapshot.
  set (t1 := grow_table t (MAX 32 - id)).
  assert (table_ok t1) as Ht1 by (apply table_ok_grow; [done|lia]).
  destruct (grow_len t (MAX 32 - id) (to_len t Ht) ltac:(lia)) as (Hl1 & _ & Hin). fold t1 in Hl1, Hin.
  assert (forall x, x <= MAX 32 -> bch2_snapshot_parent t1 x = bch2_snapshot_parent t x) as Hpar
    by (intros; apply parent_grow; [apply Ht|lia|done]).
  assert (childless t1 id) as Hch1 by (intros x Hx; rewrite Hpar by lia; by apply Hch).
  destruct (mark_ancestors_spec t1 id (Z.to_nat IS_ANCESTOR_BITMAP) (v_parent v) (0, 0) Ht1 ltac:(lia) Hp)
    as (bm & Ebm & Hbm); [unfold IS_ANCESTOR_BITMAP; lia|]. rewrite Ebm. bind_simpl.
  destruct (lookup_lt_is_Some_2 (s t1) (Z.to_nat (MAX 32 - id))) as [n0 En0]; [lia|]. rewrite En0. bind_simpl.
  do 2 eexists. split; [reflexivity|]. set (e := mk_snapshot_t _ _ _ _ _ _ _ _).
  split; [|split].
  - apply table_ok_replace; try done.
    + unfold skip_ok. cbn [skip parent e]. destruct (if v_has_depth v then _ else _) as [[s0 s1] s2].
      destruct (Z.eqb_spec (v_parent v) 0); [done|]. eapply Forall_impl; [|exact Hskip].
      intros x [? Ha]. split; [done|]. revert Ha. apply anc_ext; [done|].
      intros y Hy. apply Hpar. pose proof (anc_range t Ht _ _ Hy ltac:(lia)). lia.
    + intros b Hb. cbn [is_ancestor parent e]. rewrite Hbm, default_entry_bitmap by done.
      split; [intros [H|H]; [discriminate H|exact H]|intros H; right; exact H].
  - unfold bch2_snapshot_parent. rewrite lookup_insert_table by (done || lia). by rewrite Z.eqb_refl.
  - intros x Hx Hne. unfold bch2_snapshot_parent. rewrite lookup_insert_table by (done || lia).
    destruct (Z.eqb_spec x id); [done|]. apply Hpar. lia.
Qed.

(** ** Loading the table

    [bch2_snapshots_read] feeds the snapshot keys through the mark path in
    descending order of their ids. *)
Fixpoint bch2_snapshots_read (t : snapshot_table) (keys : list (Z * bch_snapshot))
  : option snapshot_table :=
  match keys with
  | [] => Some t
  | (id, v) :: keys =>
      '(t, _) ← bch2_mark_snapshot t id (Some v);
      bch2_snapshots_read t keys
  end.

Definition empty_table : snapshot_table := mk_snapshot_table 0 [].

(** The keys on disk: descending ids, each value fits under the table that
    the keys before it build. *)
Fixpoint keys_ok (t : snapshot_table) (bound : Z) (keys : list (Z * bch_snapshot)) : Prop :=
  match keys with
  | [] => True
  | (id, v) :: keys =>
      0 < id < bound /\ value_ok t id v /\
      forall t' fl, bch2_mark_snapshot t id (Some v) = Some (t', fl) -> keys_ok t' id keys
  end.

(** Only ids from [bound] up have a parent. *)
Definition filled_from (t : snapshot_table) (bound : Z) : Prop :=
  forall x, 0 < x <= MAX 32 -> bch2_snapshot_parent t x <> 0 -> bound <= x.

Lemma snapshots_read_spec keys t bound : table_ok t -> filled_from t bound -> bound <= 2 ^ 32 ->
  keys_ok t bound keys -> exists t', bch2_snapshots_read t keys = Some t' /\ table_ok t'.
Proof.
  revert t bound. induction keys as [|[id v] keys IH]; intros t bound Ht Hfill Hb Hk; [by exists t|].
  destruct Hk as (Hid & Hv & Hk). cbn [bch2_snapshots_read].
  assert (0 < id <= MAX 32) as Hid' by (unfold MAX; lia).
  assert (childless t id) as Hch.
  { intros x Hx E. pose proof (parent_cases t Ht x Hx). specialize (Hfill x Hx). lia. }
  destruct (mark_snapshot_spec t id v Ht Hid' Hch Hv) as (t1 & fl & E & Ht1 & Hp & Hsame).
  rewrite E. bind_simpl. apply (IH t1 id Ht1); [|lia|by eapply Hk].
  intros x Hx Hpx. destruct (Z.eq_dec x id) as [->|Hne]; [lia|].
  rewrite Hsame in Hpx by done. specialize (Hfill x Hx Hpx). lia.
Qed.

Lemma empty_table_ok : table_ok empty_table.
Proof.
  assert (forall id, 0 < id <= MAX 32 -> __snapshot_t empty_table id = None) as E.
  { intros id Hid. unfold __snapshot_t, empty_table. cbn [nr s].
    destruct (Z.ltb_spec (MAX 32 - id) (Z.of_nat 0)); [lia|done]. }
  split; [done|..]; intros; exfalso;
    match goal with H : __snapshot_t _ _ = Some _ |- _ => by rewrite E in H by done end.
Qed.

(** Depths count the nodes above. *)
Definition depth_ok (t : snapshot_table) : Prop :=
  forall id n, 0 < id <= MAX 32 -> __snapshot_t t id = Some n ->
    if parent n =? 0 then depth n = 0
    else exists m, __snapshot_t t (parent n) = Some m /\ 0 <= depth m /\ depth n = depth m + 1.

Lemma skiplist_walk_spec t n id node : table_ok t -> depth_ok t -> 0 < id <= MAX 32 ->
  __snapshot_t t id = Some node -> Z.of_nat n <= depth node ->
  exists x, skiplist_walk t id n = Some x /\ anc t id x /\ 0 < x <= MAX 32.
Proof.
  intros Ht Hd. revert id node. induction n as [|n IH]; intros id node Hid E Hn; cbn [skiplist_walk].
  { exists id. split; [done|]. split; [constructor|done]. }
  rewrite E. bind_simpl. specialize (Hd id node Hid E) as Hdn.
  destruct (Z.eqb_spec (parent node) 0) as [Hp|Hp]; [lia|]. destruct Hdn as (m & Em & Hm & Hdm).
  destruct (to_parent t Ht id node Hid E) as [|Hpr]; [done|].
  assert (anc t id (parent node)) as Hup.
  { apply anc_up; unfold bch2_snapshot_parent; rewrite E; [done|constructor]. }
  destruct (IH (parent node) m) as (x & Ex & Ha & Hx); [lia|done|lia|].
  exists x. split; [done|]. split; [|done]. by eapply anc_trans.
Qed.

(** ** Properties *)

(** C38: On a well-formed table the fast ancestor query (skip list, then bitmap)
    never panics, terminates, and gives the answer of the plain walk along
    the parents: whether [a] is on the path from [id] to its root.  (A table
    with a node that [bch2_mark_snapshot] took from a short value, without a
    skip list, is not well-formed unless the node is a root.) *)
Theorem snapshot_is_ancestor_correct (t : snapshot_table) (id a : Z) :
  table_ok t -> 0 < id <= MAX 32 -> 0 < a <= MAX 32 ->
  exists b, bch2_snapshot_is_ancestor t id a = Some b /\
    bch2_snapshot_is_ancestor_early t id a = Some b /\ (b = true <-> anc t id a).
Proof.
  intros Ht Hid Ha. destruct (is_ancestor_spec t Ht id a Hid ltac:(lia)) as (b & E & Hb).
  destruct (early_walk_spec t Ht (S (nr t)) id a ltac:(lia) ltac:(lia)) as (b' & E' & Hb').
  { apply fuel_for_le; lia. }
  exists b. split; [done|]. split; [|done]. unfold bch2_snapshot_is_ancestor_early. rewrite E'. f_equal.
  destruct b, b'; try done; exfalso; [|]; destruct Hb, Hb'; naive_solver lia.
Qed.

(** Entering a snapshot that nothing descends from yet keeps the table well
    formed: in particular the new bitmap holds exactly the near ancestors. *)
Theorem mark_snapshot_preserves (t : snapshot_table) (id : Z) (v : bch_snapshot) :
  table_ok t -> 0 < id <= MAX 32 -> childless t id -> value_ok t id v ->
  exists t' fl, bch2_mark_snapshot t id (Some v) = Some (t', fl) /\ table_ok t' /\
    bch2_snapshot_parent t' id = v_parent v /\
    (forall x, 0 < x <= MAX 32 -> x <> id -> bch2_snapshot_parent t' x = bch2_snapshot_parent t x) /\
    (fl = true <-> Z.land (v_flags v) BCH_SNAPSHOT_WILL_DELETE <> 0).
Proof.
  intros Ht Hid Hch Hv. destruct (mark_snapshot_spec t id v Ht Hid Hch Hv) as (t' & fl & E & H1 & H2 & H3).
  exists t', fl. split; [done|]. split; [done|]. split; [done|]. split; [done|].
  unfold bch2_mark_snapshot in E.
  destruct (mark_ancestors _ _ _ _ _); [|done]. cbn [mbind option_bind] in E.
  destruct (s _ !! _); [|done]. cbn [mbind option_bind] in E. injection E as _ <-.
  destruct (Z.eqb_spec (Z.land (v_flags v) BCH_SNAPSHOT_WILL_DELETE) 0); naive_solver.
Qed.

(** Reading the snapshot keys in descending order builds a well-formed
    table, in which the fast query is correct for every pair of ids. *)
Theorem snapshots_read_builds (keys : list (Z * bch_snapshot)) :
  keys_ok empty_table (2 ^ 32) keys ->
  exists t, bch2_snapshots_read empty_table keys = Some t /\
    forall id a, 0 < id <= MAX 32 -> 0 < a <= MAX 32 ->
      exists b, bch2_snapshot_is_ancestor t id a = Some b /\ (b = true <-> anc t id a).
Proof.
  intros Hk. destruct (snapshots_read_spec keys empty_table (2 ^ 32) empty_table_ok) as (t & E & Ht); try done.
  { intros x Hx. unfold bch2_snapshot_parent, __snapshot_t, empty_table. cbn [nr s].
    destruct (Z.ltb_spec (MAX 32 - x) (Z.of_nat 0)); [lia|done]. }
  exists t. split; [done|]. intros id a Hid Ha. apply is_ancestor_spec; [done|done|lia].
Qed.

(** Whatever random number is drawn, the skip list entry chosen for the
    children of [id] is [id] itself or one of its ancestors. *)
Theorem skiplist_get_ancestor (t : snapshot_table) (random id : Z) (node : snapshot_t) :
  table_ok t -> depth_ok t -> 0 < id <= MAX 32 -> __snapshot_t t id = Some node -> 0 <= random ->
  exists x, bch2_snapshot_skiplist_get t random id = Some x /\ anc t id x /\ 0 < x <= MAX 32.
Proof.
  intros Ht Hd Hid E Hr. unfold bch2_snapshot_skiplist_get. destruct (Z.eqb_spec id 0); [lia|].
  rewrite E. bind_simpl. specialize (Hd id node Hid E) as Hdn.
  destruct (Z.eqb_spec (parent node) 0) as [Hp|Hp].
  { exists id. split; [done|]. split; [constructor|done]. }
  destruct Hdn as (m & _ & Hm & Hdm). destruct (Z.eqb_spec (depth node) 0); [lia|]. cbn [negb assert]. bind_simpl.
  apply (skiplist_walk_spec t _ id node); try done.
  pose proof (Z.mod_pos_bound random (depth node) ltac:(lia)). lia.
Qed.

(** ** A three-level tree *)

Definition ex_root : Z := 4294967295.
Definition ex_mid : Z := 4294967294.
Definition ex_leaf : Z := 4294967290.

Definition ex_value (p d : Z) (sk : Z * Z * Z) : bch_snapshot :=
  mk_bch_snapshot BCH_SNAPSHOT_SUBVOL p (0, 0) 1 1 d sk true.

Definition ex_keys : list (Z * bch_snapshot) :=
  [(ex_root, ex_value 0 0 (0, 0, 0)); (ex_mid, ex_value ex_root 1 (ex_root, ex_root, ex_root));
   (ex_leaf, ex_value ex_mid 2 (ex_mid, ex_mid, ex_root))].

Lemma ex_keys_ok : keys_ok empty_table (2 ^ 32) ex_keys.
Proof.
  cbn [keys_ok ex_keys]. split; [unfold ex_root; lia|]. split; [by split; [left|]|].
  intros t1 fl1 E1. vm_compute in E1. injection E1 as <- _.
  split; [unfold ex_mid, ex_root; lia|]. split.
  { split; [right; unfold ex_mid, ex_root, MAX; cbn; lia|]. cbn -[ex_root].
    repeat (apply Forall_cons_2; [split; [done|]|]); constructor. }
  intros t2 fl2 E2. vm_compute in E2. injection E2 as <- _.
  split; [unfold ex_mid, ex_leaf; lia|]. split.
  { split; [right; unfold ex_mid, ex_leaf, MAX; cbn; lia|]. cbn -[ex_root ex_mid].
    repeat (apply Forall_cons_2; [split; [done|]|]); [constructor..| |constructor].
    apply anc_up; vm_compute; [done|constructor]. }
  intros t3 fl3 E3. done.
Qed.

Lemma snapshots_read_builds_witness : exists t, bch2_snapshots_read empty_table ex_keys = Some t /\
  exists b, bch2_snapshot_is_ancestor t ex_leaf ex_root = Some b /\ (b = true <-> anc t ex_leaf ex_root).
Proof.
  destruct (snapshots_read_builds ex_keys ex_keys_ok) as (t & E & H). exists t. split; [exact E|].
  apply H; unfold ex_leaf, ex_root, MAX; cbn; lia.
Defined.

Lemma ex_table : exists t, bch2_snapshots_read empty_table ex_keys = Some t /\ table_ok t.
Proof.
  apply (snapshots_read_spec ex_keys empty_table (2 ^ 32) empty_table_ok); [|done|apply ex_keys_ok].
  intros x Hx. unfold bch2_snapshot_parent, __snapshot_t, empty_table. cbn [nr s].
  destruct (Z.ltb_spec (MAX 32 - x) (Z.of_nat 0)); [lia|done].
Qed.

Lemma snapshot_is_ancestor_correct_witness : exists t b, bch2_snapshots_read empty_table ex_keys = Some t /\
  bch2_snapshot_is_ancestor t ex_leaf ex_mid = Some b /\
  bch2_snapshot_is_ancestor_early t ex_leaf ex_mid = Some b.
Proof.
  destruct ex_table as (t & E & Ht).
  destruct (snapshot_is_ancestor_correct t ex_leaf ex_mid Ht) as (b & H1 & H2 & _);
    [unfold ex_leaf, MAX; cbn; lia|unfold ex_mid, MAX; cbn; lia|].
  exists t, b. split; [exact E|]. split; [exact H1|exact H2].
Defined.

Lemma mark_snapshot_preserves_witness : exists t' fl,
  bch2_mark_snapshot empty_table ex_root (Some (ex_value 0 0 (0, 0, 0))) = Some (t', fl) /\ table_ok t'.
Proof.
  destruct (mark_snapshot_preserves empty_table ex_root (ex_value 0 0 (0, 0, 0)) empty_table_ok)
    as (t' & fl & H1 & H2 & _).
  - unfold ex_root, MAX. cbn. lia.
  - intros x Hx. unfold bch2_snapshot_parent, __snapshot_t, empty_table. cbn [nr s].
    destruct (Z.ltb_spec (MAX 32 - x) (Z.of_nat 0)); [lia|done].
  - split; [left; reflexivity|]. repeat split.
  - exists t', fl. split; [exact H1|exact H2].
Defined.

Lemma ex_depth_ok t : bch2_snapshots_read empty_table ex_keys = Some t -> depth_ok t.
Proof.
  intros E. vm_compute in E. injection E as <-. intros id n Hid En. unfold __snapshot_t in En. cbn [nr s] in En.
  destruct (Z.ltb_spec (MAX 32 - id) (Z.of_nat 8)); [|done]. unfold MAX in *.
  assert (exists k, (k < 8)%nat /\ id = 2 ^ 32 - 1 - Z.of_nat k) as (k & Hk & ->)
    by (exists (Z.to_nat (2 ^ 32 - 1 - id)); lia).
  replace (2 ^ 32 - 1 - (2 ^ 32 - 1 - Z.of_nat k)) with (Z.of_nat k) in En by lia. rewrite Nat2Z.id in En.
  do 8 (destruct k as [|k]; [vm_compute in En; injection En as <-; vm_compute;
    first [reflexivity | eexists; split; [reflexivity|split; [discriminate|reflexivity]]]|]). lia.
Qed.

Lemma skiplist_get_ancestor_witness : exists t x, bch2_snapshots_read empty_table ex_keys = Some t /\
  bch2_snapshot_skiplist_get t 7 ex_leaf = Some x /\ anc t ex_leaf x.
Proof.
  destruct ex_table as (t & E & Ht).
  assert (is_Some (__snapshot_t t ex_leaf)) as [node En].
  { pose proof E as E'. vm_compute in E'. injection E' as <-. vm_compute. by eexists. }
  destruct (skiplist_get_ancestor t 7 ex_leaf node Ht (ex_depth_ok t E)) as (x & H1 & H2 & _).
  - unfold ex_leaf, MAX. cbn. lia.
  - exact En.
  - lia.
  - exists t, x. split; [exact E|]. split; [exact H1|exact H2].
Defined.

(** ** Id lists *)

Lemma has_id_spec l id : snapshot_list_has_id l id = true <-> id ∈ data l.
Proof.
  unfold snapshot_list_has_id. rewrite existsb_exists. split.
  - intros (x & Hx & E). apply Z.eqb_eq in E as ->. by apply list_elem_of_In.
  - intros H. exists id. split; [by apply list_elem_of_In|apply Z.eqb_refl].
Qed.

Definition id_list_ok (l : snapshot_id_list) : Prop :=
  NoDup (data l) /\ Z.of_nat (length (data l)) <= list_size l.

Lemma add_nodup_spec alloc l id : id_list_ok l -> Z.of_nat (length (data l)) + 1 < 2 ^ 64 ->
  let '(ret, l') := snapshot_list_add_nodup alloc l id in
  id_list_ok l' /\ (length (data l') <= S (length (data l)))%nat /\
  if ret =? 0 then forall x, x ∈ data l' <-> x ∈ data l \/ x = id else l' = l.
Proof.
  intros [Hnd Hsz] Hlen. unfold snapshot_list_add_nodup.
  destruct (snapshot_list_has_id l id) eqn:Eh.
  { apply has_id_spec in Eh. split; [done|]. split; [lia|]. cbn. naive_solver. }
  assert (id ∉ data l) as Hni by (rewrite <- has_id_spec; congruence).
  assert (NoDup (data l ++ [id])) as Hnd'.
  { apply list.NoDup_app. split; [done|]. split; [|apply NoDup_singleton].
    intros x Hx Hx'. apply list_elem_of_singleton in Hx' as ->. done. }
  assert (forall x, x ∈ data l ++ [id] <-> x ∈ data l \/ x = id) as Hel
    by (intros x; by rewrite elem_of_app, list_elem_of_singleton).
  rewrite wadd_small by (unfold in_range; lia).
  destruct (Z.ltb_spec (list_size l) (Z.of_nat (length (data l)) + 1)); [destruct (_ && _)|].
  - pose proof (next_power_of_two_ge (Z.of_nat (length (data l)) + 1) ltac:(lia)).
    unfold id_list_ok. cbn [data list_size Z.eqb]. rewrite length_app. cbn [length]. split; [split; [done|lia]|].
    split; [lia|done].
  - split; [done|]. split; [lia|done].
  - unfold id_list_ok. cbn [data list_size Z.eqb]. rewrite length_app. cbn [length]. split; [split; [done|lia]|].
    split; [lia|done].
Qed.

Lemma merge_spec alloc src l : id_list_ok l ->
  Z.of_nat (length (data l)) + Z.of_nat (length src) < 2 ^ 64 ->
  let '(ret, l') := snapshot_list_merge alloc l src in
  id_list_ok l' /\ (forall x, x ∈ data l -> x ∈ data l') /\
  (forall x, x ∈ data l' -> x ∈ data l \/ x ∈ src) /\ (ret = 0 -> forall x, x ∈ src -> x ∈ data l').
Proof.
  revert l. induction src as [|id src IH]; intros l Hl Hlen; cbn [snapshot_list_merge].
  { split; [done|]. split; [done|]. split; [tauto|]. intros _ x Hx. inversion Hx. }
  cbn [length] in Hlen. pose proof (add_nodup_spec alloc l id Hl ltac:(lia)) as Ha.
  destruct (snapshot_list_add_nodup alloc l id) as [ret l1]. destruct Ha as (Hl1 & Hle & Ha).
  destruct (Z.eqb_spec ret 0) as [->|Hne]; cbn [negb].
  - specialize (IH l1 Hl1 ltac:(lia)). destruct (snapshot_list_merge alloc l1 src) as [ret2 l2].
    destruct IH as (Hl2 & Hsub & Hsup & Hall). split; [done|]. split; [|split].
    + intros x Hx. apply Hsub, Ha. by left.
    + intros x Hx. rewrite elem_of_cons. apply Hsup in Hx as [Hx|Hx]; [|tauto]. apply Ha in Hx. tauto.
    + intros Hr x Hx. apply elem_of_cons in Hx as [->|Hx]; [|by apply Hall]. apply Hsub, Ha. by right.
  - subst l1. split; [done|]. split; [done|]. split; [tauto|]. done.
Qed.

(** Merging a list of ids into another keeps the ids distinct and within the
    allocated size; on success the result is the union, and on an allocation
    failure nothing is lost. *)
Theorem snapshot_list_merge_union (alloc : Z -> bool) (dst : snapshot_id_list) (src : list Z) :
  id_list_ok dst -> Z.of_nat (length (data dst)) + Z.of_nat (length src) < 2 ^ 64 ->
  let '(ret, dst') := snapshot_list_merge alloc dst src in
  id_list_ok dst' /\ (forall x, x ∈ data dst -> x ∈ data dst') /\
  (ret = 0 -> forall x, x ∈ data dst' <-> x ∈ data dst \/ x ∈ src).
Proof.
  intros Hd Hlen. pose proof (merge_spec alloc src dst Hd Hlen) as H.
  destruct (snapshot_list_merge alloc dst src) as [ret dst']. destruct H as (H1 & H2 & H3 & H4).
  split; [done|]. split; [done|]. intros Hr x. split; [apply H3|]. intros [|]; auto.
Qed.

Lemma snapshot_list_merge_union_witness :
  id_list_ok (snapshot_list_merge (fun _ => true) (mk_snapshot_id_list 0 []) [5; 3; 5]).2.
Proof.
  pose proof (snapshot_list_merge_union (fun _ => true) (mk_snapshot_id_list 0 []) [5; 3; 5]) as H.
  cbn in H. cbn. apply H; [split; [constructor|cbn; lia]|lia].
Defined.
