(* ===== verification/Rhashtable.v ===== *)
(** * The resizable hash table ([util/rhashtable.rs])

    A table is an array of chains of objects.  An object is its address; the
    chain through the [next] pointers of a bucket is the list of its
    objects, newest first.  Hash and comparison functions come from the
    user of the table and are parameters, with what the table relies on as
    hypotheses of the section.  Every operation runs under the table's gate
    and mutex, so each is one step; RCU only delays the reuse of old bucket
    arrays. *)

From stdpp Require Import base tactics list option sorting.
From Stdlib Require Import ZArith Lia.
From S2P Require Import Prelude.

Open Scope Z_scope.

Definition HASH_DEFAULT_SIZE : Z := 64.
Definition HASH_MIN_SIZE : Z := 4.
Definition RHT_ELASTICITY : nat := 16.

(** [key_len], the optional functions and the size limits. *)
Record rhashtable_params (K : Type) := mk_rhashtable_params {
  nelem_hint : Z;
  p_key_len : Z;
  max_size : Z;
  min_size : Z;
  automatic_shrinking : bool;
  hashfn : option (K -> Z -> Z -> Z);
  obj_hashfn : option (Z -> Z -> Z -> Z);
  obj_cmpfn : option (K -> Z -> Z)
}.
Arguments mk_rhashtable_params {K}.
Arguments nelem_hint {K}.
Arguments p_key_len {K}.
Arguments max_size {K}.
Arguments min_size {K}.
Arguments automatic_shrinking {K}.
Arguments hashfn {K}.
Arguments obj_hashfn {K}.
Arguments obj_cmpfn {K}.

Record bucket_table := mk_bucket_table {
  t_size : Z;
  hash_rnd : Z;
  buckets : list (list Z)
}.

(** [run_work] tells whether the deferred worker is scheduled. *)
Record rhashtable (K : Type) := mk_rhashtable {
  tbl : bucket_table;
  key_len : Z;
  max_elems : Z;
  p : rhashtable_params K;
  nelems : Z;
  run_work : bool
}.
Arguments mk_rhashtable {K}.
Arguments tbl {K}.
Arguments key_len {K}.
Arguments max_elems {K}.
Arguments p {K}.
Arguments nelems {K}.
Arguments run_work {K}.

(** The successor of the global seed, which is also the value returned. *)
Definition next_hash_seed (old : Z) : Z :=
  let next := Z.lxor old (Z.shiftl old 13 mod 2 ^ 32) in
  let next := Z.lxor next (Z.shiftr next 17) in
  Z.lxor next (Z.shiftl next 5 mod 2 ^ 32).

Definition roundup_pow2 (value : Z) : option Z :=
  if value <=? 1 then Some 1 else
  let value := value - 1 in
  let value := Z.lor value (Z.shiftr value 1) in
  let value := Z.lor value (Z.shiftr value 2) in
  let value := Z.lor value (Z.shiftr value 4) in
  let value := Z.lor value (Z.shiftr value 8) in
  let value := Z.lor value (Z.shiftr value 16) in
  let value := Z.lor value (Z.shiftr value 32) in
  uadd 64 value 1.

Definition rounded_hashtable_size {K} (params : rhashtable_params K) : option Z :=
  let hinted := if negb (nelem_hint params =? 0) then nelem_hint params * 4 / 3 else HASH_DEFAULT_SIZE in
  roundup_pow2 (Z.max (Z.max hinted (min_size params)) HASH_MIN_SIZE).

Definition bucket_table_alloc (size seed : Z) : bucket_table :=
  mk_bucket_table (size mod 2 ^ 32) (next_hash_seed seed) (replicate (Z.to_nat size) []).

Definition is_none {A} (o : option A) : bool := match o with None => true | Some _ => false end.

(** -22 is EINVAL.  [jhash2] and [jhash] read the key they are given. *)
Definition rhashtable_init {K} (jhash2 jhash : K -> Z -> Z -> Z) (params : rhashtable_params K) (seed : Z)
  : option (Z + rhashtable K) :=
  if ((p_key_len params =? 0) && is_none (obj_hashfn params))
     || (negb (is_none (obj_hashfn params)) && is_none (obj_cmpfn params))
  then Some (inl (-22)) else
  mn ← roundup_pow2 (min_size params);
  let mn := Z.max mn HASH_MIN_SIZE mod 2 ^ 16 in
  mx ← (if negb (max_size params =? 0) then
          _ ← assert (max_size params <=? 2 ^ 31);
          Some (Z.shiftr (2 ^ bitlen (max_size params - 1)) 1)
        else Some (max_size params));
  let me := if negb (max_size params =? 0) && (mx <? 2 ^ 31 / 2) then mx * 2 else 2 ^ 31 in
  let '(kl, hf) := match hashfn params with
                   | Some h => (p_key_len params, h)
                   | None => if Z.land (p_key_len params) 3 =? 0
                             then (p_key_len params / 4, jhash2) else (p_key_len params, jhash)
                   end in
  let q := mk_rhashtable_params (nelem_hint params) (p_key_len params) mx mn
             (automatic_shrinking params) (Some hf) (obj_hashfn params) (obj_cmpfn params) in
  size ← rounded_hashtable_size q;
  Some (inr (mk_rhashtable (bucket_table_alloc size seed) kl me q 0 false)).

(** ** [roundup_pow2]: smearing the top bit *)

(** The [m] bits at and below bit [k] are set and none above it. *)
Definition smeared (v k m : Z) : Prop :=
  0 <= v /\ (forall i, k < i -> Z.testbit v i = false) /\
  (forall i, 0 <= i -> k - m < i <= k -> Z.testbit v i = true).

Lemma smear_step v k m : 0 <= k -> 0 < m -> smeared v k m ->
  smeared (Z.lor v (Z.shiftr v m)) k (m + m).
Proof.
  intros Hk Hm (H0 & Hhi & Hlo). split; [|split].
  - apply Z.lor_nonneg. split; [done|]. by apply Z.shiftr_nonneg.
  - intros i Hi. rewrite Z.lor_spec, Z.shiftr_spec, !Hhi by lia. done.
  - intros i Hi0 Hi. rewrite Z.lor_spec, Z.shiftr_spec by lia.
    destruct (Z.lt_ge_cases (k - m) i) as [Hc|Hc]; [by rewrite Hlo by lia|].
    rewrite (Hlo (i + m)) by lia. apply orb_true_r.
Qed.

Lemma smeared_start v : 0 < v -> smeared v (Z.log2 v) 1.
Proof.
  intros Hv. split; [lia|]. split.
  - intros i Hi. apply Z.bits_above_log2; lia.
  - intros i _ Hi. replace i with (Z.log2 v) by lia. by apply Z.bit_log2.
Qed.

Lemma smeared_ones v k m : 0 <= k < m -> smeared v k m -> v = 2 ^ (k + 1) - 1.
Proof.
  intros Hk (H0 & Hhi & Hlo). transitivity (Z.ones (k + 1)); [|rewrite Z.ones_equiv; lia].
  apply Z.bits_inj'. intros i Hi. destruct (Z.le_gt_cases i k) as [Hc|Hc].
  - rewrite Hlo, Z.ones_spec_low by lia. done.
  - rewrite Hhi, Z.ones_spec_high by lia. done.
Qed.

Lemma roundup_pow2_ok v : v <= 2 ^ 63 ->
  roundup_pow2 v = Some (if v <=? 1 then 1 else 2 ^ (Z.log2 (v - 1) + 1)).
Proof.
  intros Hv. unfold roundup_pow2. destruct (Z.leb_spec v 1) as [|Hv1]; [done|].
  pose proof (Z.log2_nonneg (v - 1)).
  assert (Z.log2 (v - 1) < 63) by (apply Z.log2_lt_pow2; lia).
  pose proof (smeared_start (v - 1) ltac:(lia)) as H1. cbv zeta.
  do 6 (apply smear_step in H1; [|lia..]; match type of H1 with
        | smeared _ _ ?m => let m' := eval vm_compute in m in change m with m' in H1 end).
  apply smeared_ones in H1; [|lia]. rewrite H1, uadd_ok by (pose proof (pow2_le (Z.log2 (v - 1) + 1) 63); lia).
  f_equal. lia.
Qed.

Section Table.
Context {K : Type} (key_of : Z -> K) `{EqDecision K}.

Definition rht_key_hashfn (ht : rhashtable K) (t : bucket_table) (key : K) : option Z :=
  h ← hashfn (p ht);
  mask ← usub (t_size t) 1;
  Some (Z.land (h key (key_len ht) (hash_rnd t)) mask).

Definition rht_head_hashfn (ht : rhashtable K) (t : bucket_table) (head : Z) : option Z :=
  hash ← match obj_hashfn (p ht) with
         | Some h => Some (h head (p_key_len (p ht)) (hash_rnd t))
         | None => h ← hashfn (p ht); Some (h (key_of head) (key_len ht) (hash_rnd t))
         end;
  mask ← usub (t_size t) 1;
  Some (Z.land hash mask).

(** Without a comparison function the bytes of the keys are compared. *)
Definition objects_equal (ht : rhashtable K) (key : K) (object : Z) : bool :=
  match obj_cmpfn (p ht) with
  | Some compare => compare key object =? 0
  | None => bool_decide (key = key_of object)
  end.

(** At most [steps] objects of a chain are looked at; the rest of the chain
    is returned when no object matches. *)
Fixpoint chain_find (ht : rhashtable K) (key : K) (chain : list Z) (steps : nat) : Z + list Z :=
  match chain, steps with
  | o :: rest, S steps =>
      if objects_equal ht key o then inl o else chain_find ht key rest steps
  | _, _ => inr chain
  end.

Definition bucket_head (t : bucket_table) (index : Z) : option (list Z) :=
  buckets t !! Z.to_nat index.

Definition rhashtable_lookup_fast (ht : rhashtable K) (key : K) : option (option Z) :=
  let t := tbl ht in
  index ← rht_key_hashfn ht t key;
  chain ← bucket_head t index;
  Some (match chain_find ht key chain RHT_ELASTICITY with
        | inl o => Some o
        | inr _ => None
        end).

(** Push an object on the chain of its bucket. *)
Definition push (ht : rhashtable K) (t : bucket_table) (head : Z) : option bucket_table :=
  i ← rht_head_hashfn ht t head;
  chain ← bucket_head t i;
  Some (mk_bucket_table (t_size t) (hash_rnd t) (<[Z.to_nat i := head :: chain]> (buckets t))).

Fixpoint push_all (ht : rhashtable K) (t : bucket_table) (heads : list Z) : option bucket_table :=
  match heads with
  | [] => Some t
  | h :: heads => t ← push ht t h; push_all ht t heads
  end.

(** The objects are moved bucket by bucket, each chain from its head. *)
Definition rehash_locked (ht : rhashtable K) (new_size seed : Z) : option (rhashtable K) :=
  let old := tbl ht in
  if t_size old =? new_size then Some ht else
  new ← push_all ht (bucket_table_alloc new_size seed) (concat (buckets old));
  Some (mk_rhashtable new (key_len ht) (max_elems ht) (p ht) (nelems ht) (run_work ht)).

Definition grow_target (ht : rhashtable K) : Z :=
  Z.min (t_size (tbl ht) * 2) (if max_size (p ht) =? 0 then MAX 64 else max_size (p ht)).

Definition rht_deferred_worker (ht : rhashtable K) (seed : Z) : option (rhashtable K) :=
  let ht := mk_rhashtable (tbl ht) (key_len ht) (max_elems ht) (p ht) (nelems ht) false in
  let size := t_size (tbl ht) in
  let count := nelems ht in
  if size * 3 / 4 <? count then
    let next := grow_target ht in
    if size <? next then rehash_locked ht next seed else Some ht
  else if automatic_shrinking (p ht) && (min_size (p ht) <? size) && (count <? size * 3 / 10)
  then rehash_locked ht (Z.max (size / 2) (min_size (p ht))) seed
  else Some ht.

Definition schedule (ht : rhashtable K) : rhashtable K :=
  mk_rhashtable (tbl ht) (key_len ht) (max_elems ht) (p ht) (nelems ht) true.

(** -17 is EEXIST, -7 is E2BIG. *)
Definition rhashtable_lookup_insert_fast (ht : rhashtable K) (obj : Z) : option (Z * rhashtable K) :=
  let t := tbl ht in
  index ← rht_head_hashfn ht t obj;
  chain ← bucket_head t index;
  match chain_find ht (key_of obj) chain RHT_ELASTICITY with
  | inl _ => Some (-17, ht)
  | inr (_ :: _) => Some (-7, schedule ht)
  | inr [] =>
      t' ← push ht t obj;
      count ← uadd 64 (nelems ht) 1;
      let ht := mk_rhashtable t' (key_len ht) (max_elems ht) (p ht) count (run_work ht) in
      Some (0, if (t_size t * 3 / 4 <? count) && (t_size t <? grow_target ht) then schedule ht else ht)
  end.

(** Unlink the first occurrence of an address. *)
Fixpoint unlink (obj : Z) (chain : list Z) : option (list Z) :=
  match chain with
  | [] => None
  | h :: rest => if h =? obj then Some rest else rest' ← unlink obj rest; Some (h :: rest')
  end.

(** -2 is ENOENT. *)
Definition rhashtable_remove_fast (ht : rhashtable K) (obj : Z) : option (Z * rhashtable K) :=
  let t := tbl ht in
  index ← rht_head_hashfn ht t obj;
  chain ← bucket_head t index;
  match unlink obj chain with
  | None => Some (-2, ht)
  | Some chain' =>
      let t' := mk_bucket_table (t_size t) (hash_rnd t) (<[Z.to_nat index := chain']> (buckets t)) in
      count ← usub (nelems ht) 1;
      let ht := mk_rhashtable t' (key_len ht) (max_elems ht) (p ht) count (run_work ht) in
      Some (0, if automatic_shrinking (p ht) && (min_size (p ht) <? t_size t) && (count <? t_size t * 3 / 10)
               then schedule ht else ht)
  end.

(** ** The table as a set of objects *)

Definition elements (ht : rhashtable K) : list Z := concat (buckets (tbl ht)).

(** What the user's functions must do: hashing an object is hashing its key,
    and comparison returns 0 exactly on the object's key. *)
Record params_ok (ht : rhashtable K) : Prop := {
  po_some : is_none (hashfn (p ht)) = false;
  po_hash o h f seed : obj_hashfn (p ht) = Some h -> hashfn (p ht) = Some f ->
    h o (p_key_len (p ht)) seed = f (key_of o) (key_len ht) seed;
  po_cmp key o c : obj_cmpfn (p ht) = Some c -> c key o = 0 <-> key_of o = key
}.

(** The slot of a key. *)
Definition slot (ht : rhashtable K) (t : bucket_table) (key : K) : Z :=
  match hashfn (p ht) with
  | Some h => Z.land (h key (key_len ht) (hash_rnd t)) (t_size t - 1)
  | None => 0
  end.

Record table_inv (ht : rhashtable K) (t : bucket_table) : Prop := {
  ti_size : exists n, 0 <= n <= 31 /\ t_size t = 2 ^ n;
  ti_len : length (buckets t) = Z.to_nat (t_size t);
  ti_place i chain o : buckets t !! i = Some chain -> o ∈ chain -> slot ht t (key_of o) = Z.of_nat i
}.

Record ht_inv (ht : rhashtable K) : Prop := {
  hi_params : params_ok ht;
  hi_table : table_inv ht (tbl ht);
  hi_keys : NoDup (map key_of (elements ht));
  hi_count : nelems ht = Z.of_nat (length (elements ht))
}.

(** The invariants depend on the table's configuration and its buckets. *)
Definition same_config (ht ht' : rhashtable K) : Prop := p ht' = p ht /\ key_len ht' = key_len ht.

Lemma params_ok_config ht ht' : same_config ht ht' -> params_ok ht -> params_ok ht'.
Proof. intros [E1 E2] [H1 H2 H3]. split; rewrite ?E1, ?E2; done. Qed.

Lemma table_inv_config ht ht' t : same_config ht ht' -> table_inv ht t -> table_inv ht' t.
Proof.
  intros [E1 E2] [H1 H2 H3]. split; [done..|]. intros i chain o Hi Ho. rewrite <- (H3 i chain o) by done.
  unfold slot. by rewrite E1, E2.
Qed.

(** A state with the same configuration, buckets and count. *)
Lemma ht_inv_same ht ht' : same_config ht ht' -> tbl ht' = tbl ht -> nelems ht' = nelems ht ->
  ht_inv ht -> ht_inv ht'.
Proof.
  intros Hs Et En [H1 H2 H3 H4]. split.
  - by eapply params_ok_config.
  - rewrite Et. by eapply table_inv_config.
  - unfold elements. by rewrite Et.
  - unfold elements. by rewrite Et, En.
Qed.

Lemma objects_equal_spec ht key o : params_ok ht -> objects_equal ht key o = true <-> key_of o = key.
Proof.
  intros Hp. unfold objects_equal. destruct (obj_cmpfn (p ht)) as [c|] eqn:E.
  - rewrite Z.eqb_eq. by apply (po_cmp _ Hp).
  - rewrite bool_decide_eq_true. naive_solver.
Qed.

Lemma size_pos ht t : table_inv ht t -> 1 <= t_size t.
Proof. intros [(n & Hn & E) _ _]. pose proof (pow2_pos n). lia. Qed.

Lemma key_slot ht t key : params_ok ht -> table_inv ht t -> rht_key_hashfn ht t key = Some (slot ht t key).
Proof.
  intros [Hs _ _] Ht. unfold rht_key_hashfn, slot. destruct (hashfn (p ht)); [|done]. bind_simpl.
  by rewrite usub_ok by (by apply (size_pos ht)).
Qed.

Lemma head_slot ht t o : params_ok ht -> table_inv ht t ->
  rht_head_hashfn ht t o = Some (slot ht t (key_of o)).
Proof.
  intros [Hs Hh _] Ht. unfold rht_head_hashfn, slot. destruct (hashfn (p ht)) as [f|] eqn:Ef; [|done].
  rewrite usub_ok by (by apply (size_pos ht)).
  destruct (obj_hashfn (p ht)) as [h|] eqn:E; bind_simpl; [|done]. by rewrite (Hh o h f).
Qed.

Lemma land_mask_range x n : 0 <= n -> 0 <= Z.land x (2 ^ n - 1) < 2 ^ n.
Proof.
  intros Hn. replace (2 ^ n - 1) with (Z.ones n) by (rewrite Z.ones_equiv; lia).
  rewrite Z.land_ones by lia. apply Z.mod_pos_bound, pow2_pos. lia.
Qed.

Lemma index_range ht t key : table_inv ht t -> 0 <= slot ht t key < t_size t.
Proof.
  intros Ht. pose proof (size_pos ht t Ht). destruct Ht as [(n & Hn & E) _ _]. unfold slot.
  destruct (hashfn (p ht)); [|lia]. rewrite E. apply land_mask_range. lia.
Qed.

Lemma bucket_some ht t key : table_inv ht t -> exists chain, bucket_head t (slot ht t key) = Some chain.
Proof.
  intros Ht. pose proof (index_range ht t key Ht). apply lookup_lt_is_Some_2. rewrite (ti_len _ _ Ht). lia.
Qed.

Lemma chain_find_spec ht key chain steps : params_ok ht ->
  match chain_find ht key chain steps with
  | inl o => o ∈ chain /\ key_of o = key
  | inr rest => rest = drop steps chain /\ forall o, o ∈ take steps chain -> key_of o <> key
  end.
Proof.
  intros Hp. revert steps. induction chain as [|o chain IH]; intros [|steps]; cbn.
  1-3: split; [done|]; intros o' Ho'; inversion Ho'.
  destruct (objects_equal ht key o) eqn:E.
  - split; [left|by apply (objects_equal_spec ht)].
  - specialize (IH steps). destruct (chain_find ht key chain steps) as [o'|rest].
    + destruct IH. split; [by right|done].
    + destruct IH as [-> IH]. split; [done|]. intros o' Ho'. apply elem_of_cons in Ho' as [->|Ho']; [|auto].
      intros Ek. apply (objects_equal_spec ht) in Ek; [congruence|done].
Qed.

Lemma elem_concat (bs : list (list Z)) o : o ∈ concat bs <-> exists i chain, bs !! i = Some chain /\ o ∈ chain.
Proof.
  rewrite list_elem_of_In, in_concat. split.
  - intros (chain & Hc & Ho). apply list_elem_of_In, list_elem_of_lookup_1 in Hc as [i Hi].
    exists i, chain. split; [done|]. by apply list_elem_of_In.
  - intros (i & chain & Hi & Ho). exists chain. split; [|by apply list_elem_of_In].
    apply list_elem_of_In. by eapply list_elem_of_lookup_2.
Qed.

Lemma concat_insert (bs : list (list Z)) i chain chain' x :
  bs !! i = Some chain -> chain' ≡ₚ x :: chain -> concat (<[i := chain']> bs) ≡ₚ x :: concat bs.
Proof.
  revert i. induction bs as [|b bs IH]; intros [|i] E Hp; try done.
  - cbn in *. injection E as ->. rewrite Hp. done.
  - cbn in *. rewrite (IH i E Hp). by rewrite Permutation_middle.
Qed.

Lemma concat_insert_remove (bs : list (list Z)) i chain chain' x :
  bs !! i = Some chain -> chain ≡ₚ x :: chain' -> concat bs ≡ₚ x :: concat (<[i := chain']> bs).
Proof.
  revert i. induction bs as [|b bs IH]; intros [|i] E Hp; try done.
  - cbn in *. injection E as ->. by rewrite Hp.
  - cbn in *. rewrite (IH i E Hp). by rewrite Permutation_middle.
Qed.

(** Every object is in the bucket of its key. *)
Lemma element_bucket ht t o : table_inv ht t -> o ∈ concat (buckets t) ->
  exists chain, bucket_head t (slot ht t (key_of o)) = Some chain /\ o ∈ chain.
Proof.
  intros Ht Ho. apply elem_concat in Ho as (i & chain & Hi & Ho). exists chain. split; [|done].
  unfold bucket_head. rewrite (ti_place _ _ Ht i chain o Hi Ho), Nat2Z.id. done.
Qed.

Lemma bucket_element ht t key chain o : table_inv ht t ->
  bucket_head t (slot ht t key) = Some chain -> o ∈ chain -> o ∈ concat (buckets t).
Proof. intros Ht E Ho. apply elem_concat. eauto. Qed.

Lemma push_spec ht t o : params_ok ht -> table_inv ht t ->
  exists t', push ht t o = Some t' /\ table_inv ht t' /\ (t_size t' = t_size t /\ hash_rnd t' = hash_rnd t) /\
    concat (buckets t') ≡ₚ o :: concat (buckets t).
Proof.
  intros Hp Ht. unfold push. rewrite head_slot by done. bind_simpl.
  destruct (bucket_some ht t (key_of o) Ht) as [chain E]. rewrite E. bind_simpl.
  eexists. split; [reflexivity|]. pose proof (index_range ht t (key_of o) Ht) as Hi.
  split; [|split; [done|by eapply concat_insert]].
  destruct Ht as [H1 H2 H3]. split; cbn [t_size buckets]; [done|by rewrite length_insert|].
  intros i c x Hc Hx. apply list_lookup_insert_Some in Hc as [(<- & <- & _)|[_ Hc]].
  - apply elem_of_cons in Hx as [->|Hx]; [rewrite Z2Nat.id by lia; done|]. by apply (H3 _ chain).
  - by apply (H3 i c).
Qed.

Lemma push_all_spec ht os t : params_ok ht -> table_inv ht t ->
  exists t', push_all ht t os = Some t' /\ table_inv ht t' /\ (t_size t' = t_size t /\ hash_rnd t' = hash_rnd t) /\
    concat (buckets t') ≡ₚ os ++ concat (buckets t).
Proof.
  intros Hp. revert t. induction os as [|o os IH]; intros t Ht; [by exists t|].
  cbn [push_all]. destruct (push_spec ht t o Hp Ht) as (t1 & -> & Ht1 & Hs1 & Hc1). bind_simpl.
  destruct (IH t1 Ht1) as (t2 & -> & Ht2 & Hs2 & Hc2). exists t2.
  split; [done|]. split; [done|]. split; [destruct Hs1, Hs2; split; congruence|].
  by rewrite Hc2, Hc1, <- Permutation_middle.
Qed.

Lemma alloc_inv ht n seed : 0 <= n <= 31 -> table_inv ht (bucket_table_alloc (2 ^ n) seed) /\
  concat (buckets (bucket_table_alloc (2 ^ n) seed)) = [].
Proof.
  intros Hn. pose proof (pow2_le n 31 ltac:(lia)). pose proof (pow2_pos n ltac:(lia)).
  unfold bucket_table_alloc. rewrite Z.mod_small by lia.
  split; [split; cbn [t_size buckets]|].
  - by exists n.
  - by rewrite length_replicate.
  - intros i chain o Hi Ho. apply lookup_replicate in Hi as [-> _]. inversion Ho.
  - cbn [buckets]. induction (Z.to_nat (2 ^ n)); [done|]. by cbn.
Qed.

Lemma rehash_spec ht n seed : ht_inv ht -> 0 <= n <= 31 ->
  exists ht', rehash_locked ht (2 ^ n) seed = Some ht' /\ ht_inv ht' /\
    elements ht' ≡ₚ elements ht /\ (tbl ht' = tbl ht \/ t_size (tbl ht') = 2 ^ n /\ hash_rnd (tbl ht') = next_hash_seed seed) /\ same_config ht ht'.
Proof.
  intros [Hp Ht Hk Hc] Hn. unfold rehash_locked.
  destruct (Z.eqb_spec (t_size (tbl ht)) (2 ^ n)) as [E|E]; [exists ht; repeat (split; [done|]); split; [by left|done]|].
  destruct (alloc_inv ht n seed Hn) as [Ha Hae].
  destruct (push_all_spec ht (concat (buckets (tbl ht))) _ Hp Ha) as (t' & -> & Ht' & [Hs' Hr'] & Hc').
  bind_simpl. rewrite Hae, app_nil_r in Hc'. eexists. split; [reflexivity|].
  pose proof (pow2_le n 31 ltac:(lia)). pose proof (pow2_pos n ltac:(lia)).
  assert (t_size t' = 2 ^ n) as Hsz by (rewrite Hs'; cbn; by rewrite Z.mod_small by lia).
  split; [|split; [done|split; [by right|done]]]. split; unfold elements; cbn [tbl nelems]; rewrite ?Hc'; try done.
  - by apply (params_ok_config ht).
  - by apply (table_inv_config ht).
Qed.

Lemma unlink_spec o chain : match unlink o chain with
  | Some chain' => chain ≡ₚ o :: chain'
  | None => o ∉ chain
  end.
Proof.
  induction chain as [|h rest IH]; cbn; [by apply not_elem_of_nil|].
  destruct (Z.eqb_spec h o) as [->|Hne]; [done|]. destruct (unlink o rest) as [rest'|]; cbn.
  - rewrite IH. by rewrite Permutation_swap.
  - apply not_elem_of_cons. done.
Qed.

Lemma lookup_spec ht key : ht_inv ht -> exists r, rhashtable_lookup_fast ht key = Some r /\
  (forall o, r = Some o -> o ∈ elements ht /\ key_of o = key) /\
  (r = None -> forall chain, bucket_head (tbl ht) (slot ht (tbl ht) key) = Some chain -> (length chain <= RHT_ELASTICITY)%nat ->
     forall o, o ∈ elements ht -> key_of o <> key).
Proof.
  intros [Hp Ht Hk Hc]. unfold rhashtable_lookup_fast. rewrite key_slot by done. bind_simpl.
  destruct (bucket_some ht (tbl ht) key Ht) as [chain E]. rewrite E. bind_simpl. eexists. split; [reflexivity|].
  pose proof (chain_find_spec ht key chain RHT_ELASTICITY Hp) as Hf.
  destruct (chain_find ht key chain RHT_ELASTICITY) as [o|rest].
  - destruct Hf as [Ho Hko]. split; [|done]. intros ? [= <-]. split; [|done]. by eapply bucket_element.
  - destruct Hf as [_ Hf]. split; [done|]. intros _ ? [= <-] Hshort o Ho Ek.
    destruct (element_bucket ht (tbl ht) o Ht Ho) as (chain' & E' & Ho'). rewrite Ek, E in E'. injection E' as <-.
    apply (Hf o); [|done]. by rewrite take_ge.
Qed.

Lemma insert_spec ht o : ht_inv ht -> nelems ht + 1 < 2 ^ 64 ->
  exists r ht' chain, rhashtable_lookup_insert_fast ht o = Some (r, ht') /\ ht_inv ht' /\ same_config ht ht' /\
    (t_size (tbl ht') = t_size (tbl ht) /\ hash_rnd (tbl ht') = hash_rnd (tbl ht)) /\
    bucket_head (tbl ht) (slot ht (tbl ht) (key_of o)) = Some chain /\
    (r = 0 /\ elements ht' ≡ₚ o :: elements ht /\ (length chain <= RHT_ELASTICITY)%nat /\ (forall x, x ∈ elements ht -> key_of x <> key_of o) \/
     r = -17 /\ elements ht' = elements ht /\ (exists x, x ∈ elements ht /\ key_of x = key_of o) \/
     r = -7 /\ elements ht' = elements ht /\ (RHT_ELASTICITY < length chain)%nat).
Proof.
  intros Hi Hn. pose proof Hi as [Hp Ht Hk Hc]. unfold rhashtable_lookup_insert_fast. rewrite head_slot by done. bind_simpl.
  destruct (bucket_some ht (tbl ht) (key_of o) Ht) as [chain E]. rewrite E. bind_simpl.
  pose proof (chain_find_spec ht (key_of o) chain RHT_ELASTICITY Hp) as Hf.
  destruct (chain_find ht (key_of o) chain RHT_ELASTICITY) as [x|rest].
  { destruct Hf as [Hx Hkx]. exists (-17), ht, chain. repeat (split; [done|]). right. left. split; [done|]. split; [done|].
    exists x. split; [|done]. by eapply bucket_element. }
  destruct Hf as [Hrest Hf]. destruct rest as [|y ys].
  - destruct (push_spec ht (tbl ht) o Hp Ht) as (t' & -> & Ht' & [Hs' Hr'] & Hc'). bind_simpl.
    assert (length chain <= RHT_ELASTICITY)%nat as Hlen.
    { assert (length (drop RHT_ELASTICITY chain) = 0%nat) as Hl by by rewrite <- Hrest. rewrite length_drop in Hl. lia. }
    assert (forall x, x ∈ elements ht -> key_of x <> key_of o) as Hnew.
    { intros x Hx Ek. destruct (element_bucket ht (tbl ht) x Ht Hx) as (chain' & E' & Hx').
      rewrite Ek, E in E'. injection E' as <-. apply (Hf x); [|done]. rewrite <- (take_drop RHT_ELASTICITY chain) in Hx'.
      rewrite <- Hrest, app_nil_r in Hx'. done. }
    rewrite uadd_ok by done. bind_simpl. exists 0. eexists _, chain. split; [reflexivity|].
    set (ht1 := mk_rhashtable _ _ _ _ _ _). assert (ht_inv ht1) as Hi1.
    { split; [by apply (params_ok_config ht)|by apply (table_inv_config ht)|..];
        unfold elements, ht1; cbn [tbl nelems]; rewrite Hc'; cbn [map length].
      - apply NoDup_cons. split; [|done]. rewrite list_elem_of_In, in_map_iff. intros (x & Ex & Hx).
        apply list_elem_of_In in Hx. by apply (Hnew x).
      - rewrite Hc. unfold elements. lia. }
    destruct (_ && _); (split; [|split; [done|split; [done|split; [done|left; split; [done|split; [exact Hc'|done]]]]]]); [|done].
    by apply (ht_inv_same ht1).
  - exists (-7), (schedule ht), chain. split; [done|]. split; [by apply (ht_inv_same ht)|]. split; [done|]. split; [done|]. split; [done|].
    right. right. split; [done|]. split; [done|].
    assert (length (drop RHT_ELASTICITY chain) = length (y :: ys)) as Hl by by rewrite Hrest.
    rewrite length_drop in Hl. cbn [length] in Hl. lia.
Qed.

Lemma remove_spec ht o : ht_inv ht ->
  exists r ht', rhashtable_remove_fast ht o = Some (r, ht') /\ ht_inv ht' /\ same_config ht ht' /\
    (t_size (tbl ht') = t_size (tbl ht) /\ hash_rnd (tbl ht') = hash_rnd (tbl ht)) /\
    if r =? 0 then elements ht ≡ₚ o :: elements ht' else r = -2 /\ ht' = ht /\ o ∉ elements ht.
Proof.
  intros Hi. pose proof Hi as [Hp Ht Hk Hc]. unfold rhashtable_remove_fast. rewrite head_slot by done. bind_simpl.
  destruct (bucket_some ht (tbl ht) (key_of o) Ht) as [chain E]. rewrite E. bind_simpl.
  pose proof (unlink_spec o chain) as Hu. destruct (unlink o chain) as [chain'|].
  - set (t' := mk_bucket_table _ _ _).
    assert (elements ht ≡ₚ o :: concat (buckets t')) as Hperm
      by (unfold elements, t'; cbn; by eapply concat_insert_remove).
    assert (table_inv ht t') as Ht'.
    { destruct Ht as [H1 H2 H3]. split; cbn [t_size buckets t']; [done|by rewrite length_insert|].
      intros i c x Hcx Hx. apply list_lookup_insert_Some in Hcx as [(<- & <- & _)|[_ Hcx]].
      - apply (H3 _ chain); [done|]. rewrite Hu. by right.
      - by apply (H3 i c). }
    rewrite Hperm in Hc. cbn [length] in Hc. rewrite usub_ok by lia. bind_simpl.
    do 2 eexists. split; [reflexivity|]. set (ht1 := mk_rhashtable _ _ _ _ _ _). assert (ht_inv ht1) as Hi1.
    { split; [by apply (params_ok_config ht)|by apply (table_inv_config ht)|..].
      - rewrite Hperm in Hk. cbn in Hk. by apply NoDup_cons in Hk as [_ Hk].
      - unfold ht1, elements. cbn [nelems tbl]. lia. }
    destruct (_ && _); (split; [|by split]); [|done]. by apply (ht_inv_same ht1).
  - exists (-2), ht. repeat (split; [done|]).
    intros Ho. destruct (element_bucket ht (tbl ht) o Ht Ho) as (c & Ec & Hoc). congruence.
Qed.
(** ** The contract of a table *)

Inductive op :=
| Lookup (key : K)
| Insert (obj : Z)
| Remove (obj : Z)
| Work (seed : Z).

(** The result: an object, an error code or nothing. *)
Inductive res :=
| Found (o : option Z)
| Code (r : Z)
| Worked.

(** How the keys are spread over the buckets: the number of buckets and the
    seed of the hash function. *)
Definition layout : Type := Z * Z.

Definition place (hash : K -> Z -> Z) (l : layout) (key : K) : Z := Z.land (hash key l.2) (l.1 - 1).

(** The objects that share the bucket of a key. *)
Definition mates (hash : K -> Z -> Z) (l : layout) (S : list Z) (key : K) : nat :=
  length (filter (fun o => place hash l (key_of o) = place hash l key) S).

(** A table promises to hold a set of objects with different keys, except
    where more than [RHT_ELASTICITY] objects share a bucket: a lookup of a
    key of this bucket may miss its object, and an insertion into the bucket
    is refused, with E2BIG unless it meets an object of the key.  Only the
    worker moves objects to other buckets. *)
Inductive spec_step (hash : K -> Z -> Z) (l : layout) (S : list Z) : op -> res -> layout -> list Z -> Prop :=
| spec_found key o : o ∈ S -> key_of o = key -> spec_step hash l S (Lookup key) (Found (Some o)) l S
| spec_absent key : ((mates hash l S key <= RHT_ELASTICITY)%nat -> forall o, o ∈ S -> key_of o <> key) ->
    spec_step hash l S (Lookup key) (Found None) l S
| spec_insert obj : (mates hash l S (key_of obj) <= RHT_ELASTICITY)%nat -> (forall o, o ∈ S -> key_of o <> key_of obj) ->
    spec_step hash l S (Insert obj) (Code 0) l (obj :: S)
| spec_exists obj o : o ∈ S -> key_of o = key_of obj -> spec_step hash l S (Insert obj) (Code (-17)) l S
| spec_crowded obj : (RHT_ELASTICITY < mates hash l S (key_of obj))%nat -> spec_step hash l S (Insert obj) (Code (-7)) l S
| spec_remove obj S' : S ≡ₚ obj :: S' -> spec_step hash l S (Remove obj) (Code 0) l S'
| spec_noent obj : obj ∉ S -> spec_step hash l S (Remove obj) (Code (-2)) l S
| spec_work seed l' : l' = l \/ (exists n, 0 <= n <= 31 /\ l' = (2 ^ n, next_hash_seed seed)) -> spec_step hash l S (Work seed) Worked l' S.

Definition run_op (ht : rhashtable K) (o : op) : option (res * rhashtable K) :=
  match o with
  | Lookup key => r ← rhashtable_lookup_fast ht key; Some (Found r, ht)
  | Insert obj => '(r, ht) ← rhashtable_lookup_insert_fast ht obj; Some (Code r, ht)
  | Remove obj => '(r, ht) ← rhashtable_remove_fast ht obj; Some (Code r, ht)
  | Work seed => ht ← rht_deferred_worker ht seed; Some (Worked, ht)
  end.

Fixpoint run_ops (ht : rhashtable K) (os : list op) : option (list res * rhashtable K) :=
  match os with
  | [] => Some ([], ht)
  | o :: os => '(r, ht) ← run_op ht o; '(rs, ht) ← run_ops ht os; Some (r :: rs, ht)
  end.

Inductive spec_run (hash : K -> Z -> Z) : layout -> list Z -> list op -> list res -> list Z -> Prop :=
| run_nil l S : spec_run hash l S [] [] S
| run_cons l S o r l1 S1 os rs S2 : spec_step hash l S o r l1 S1 -> spec_run hash l1 S1 os rs S2 ->
    spec_run hash l S (o :: os) (r :: rs) S2.

(** The hash function and the layout of a table. *)
Definition hash_of (ht : rhashtable K) (key : K) (rnd : Z) : Z :=
  match hashfn (p ht) with Some h => h key (key_len ht) rnd | None => 0 end.

Definition layout_of (ht : rhashtable K) : layout := (t_size (tbl ht), hash_rnd (tbl ht)).

(** What [rhashtable_init] makes of the size limits. *)
Definition limits_ok (q : rhashtable_params K) : Prop :=
  (max_size q = 0 \/ exists n, 0 <= n <= 30 /\ max_size q = 2 ^ n) /\
  (min_size q = 0 \/ exists n, 0 <= n <= 15 /\ min_size q = 2 ^ n).

(** The table holds the objects of [S]. *)
Definition refines (ht : rhashtable K) (S : list Z) : Prop :=
  ht_inv ht /\ limits_ok (p ht) /\ elements ht ≡ₚ S.

Lemma slot_place ht key : is_none (hashfn (p ht)) = false -> slot ht (tbl ht) key = place (hash_of ht) (layout_of ht) key.
Proof. unfold slot, place, hash_of, layout_of. by destruct (hashfn (p ht)). Qed.

Lemma filter_every (P : Z -> Prop) `{!forall x, Decision (P x)} (l : list Z) : (forall x, x ∈ l -> P x) -> filter P l = l.
Proof.
  induction l as [|x l IH]; intros Hl; [done|]. rewrite filter_cons_True by (apply Hl; left). f_equal. apply IH. intros y Hy. apply Hl. by right.
Qed.

Lemma filter_no (P : Z -> Prop) `{!forall x, Decision (P x)} (l : list Z) : (forall x, x ∈ l -> ~ P x) -> filter P l = [].
Proof.
  induction l as [|x l IH]; intros Hl; [done|]. rewrite filter_cons_False by (apply Hl; left). apply IH. intros y Hy. apply Hl. by right.
Qed.

(** Lists of objects, each with the number of its list. *)
Lemma filter_concat (f : Z -> Z) bs : forall n j, (forall i chain o, bs !! i = Some chain -> o ∈ chain -> f o = Z.of_nat (n + i)) ->
  filter (fun o => f o = Z.of_nat (n + j)) (concat bs) = default [] (bs !! j).
Proof.
  induction bs as [|b bs IH]; intros n j Hb; [done|]. cbn [concat]. rewrite filter_app.
  assert (forall i chain o, bs !! i = Some chain -> o ∈ chain -> f o = Z.of_nat (S n + i)) as Hbs
    by (intros i chain o Hi Ho; rewrite (Hb (S i) chain o Hi Ho); lia).
  assert (forall o, o ∈ b -> f o = Z.of_nat n) as Hb0 by (intros o Ho; rewrite (Hb 0%nat b o eq_refl Ho); lia).
  destruct j as [|j].
  - rewrite (filter_every _ b) by (intros o Ho; rewrite (Hb0 o Ho); lia). rewrite filter_no; [apply app_nil_r|].
    intros o Ho. apply elem_concat in Ho as (i & chain & Hi & Ho). rewrite (Hbs i chain o Hi Ho). lia.
  - rewrite (filter_no _ b) by (intros o Ho; rewrite (Hb0 o Ho); lia). cbn [app]. change ((b :: bs) !! S j) with (bs !! j).
    rewrite <- (IH (S n) j Hbs). f_equal. by replace (n + S j)%nat with (S n + j)%nat by lia.
Qed.

(** The length of a chain. *)
Lemma chain_mates ht key chain : ht_inv ht -> bucket_head (tbl ht) (slot ht (tbl ht) key) = Some chain ->
  length chain = mates (hash_of ht) (layout_of ht) (elements ht) key.
Proof.
  intros [Hp Ht _ _] E. pose proof (index_range ht (tbl ht) key Ht) as Hi. destruct Hp as [Hs _ _]. unfold mates, elements.
  pose proof (filter_concat (fun o => slot ht (tbl ht) (key_of o)) (buckets (tbl ht)) 0 (Z.to_nat (slot ht (tbl ht) key)) (ti_place _ _ Ht)) as Hf.
  unfold bucket_head in E. rewrite E in Hf. cbn [default] in Hf. rewrite <- Hf at 1. f_equal.
  apply list_filter_iff. intros o. rewrite !slot_place by done. rewrite Nat.add_0_l, Z2Nat.id by (rewrite <- slot_place; lia || done). done.
Qed.

Lemma min_pow2 a b : 0 <= a -> 0 <= b -> Z.min (2 ^ a) (2 ^ b) = 2 ^ Z.min a b.
Proof.
  intros. destruct (Z.le_ge_cases a b); [rewrite !Z.min_l|rewrite !Z.min_r]; try lia;
    apply pow2_le; lia.
Qed.

Lemma max_pow2 a b : 0 <= a -> 0 <= b -> Z.max (2 ^ a) (2 ^ b) = 2 ^ Z.max a b.
Proof.
  intros. destruct (Z.le_ge_cases a b); [rewrite !Z.max_r|rewrite !Z.max_l]; try lia;
    apply pow2_le; lia.
Qed.

(** Sizes the worker asks for are powers of two. *)
Lemma grow_target_pow2 ht n : limits_ok (p ht) -> t_size (tbl ht) = 2 ^ n -> 0 <= n <= 30 ->
  exists m, 0 <= m <= 31 /\ grow_target ht = 2 ^ m.
Proof.
  intros [Hmax _] E Hn. unfold grow_target. rewrite E.
  replace (2 ^ n * 2) with (2 ^ (n + 1)) by (rewrite Z.pow_add_r; lia).
  destruct Hmax as [->|(k & Hk & ->)].
  - exists (n + 1). split; [lia|]. cbn [Z.eqb]. apply Z.min_l. pose proof (pow2_le (n + 1) 31).
    unfold MAX. lia.
  - destruct (Z.eqb_spec (2 ^ k) 0); [pose proof (pow2_pos k); lia|].
    exists (Z.min (n + 1) k). rewrite min_pow2 by lia. split; [lia|done].
Qed.

Lemma shrink_target_pow2 ht n : limits_ok (p ht) -> t_size (tbl ht) = 2 ^ n -> 1 <= n <= 31 ->
  exists m, 0 <= m <= 31 /\ Z.max (t_size (tbl ht) / 2) (min_size (p ht)) = 2 ^ m.
Proof.
  intros [_ Hmin] E Hn. rewrite E.
  replace (2 ^ n) with (2 ^ (n - 1) * 2) by (replace n with (n - 1 + 1) at 2 by lia; rewrite pow2_split; lia).
  rewrite Z.div_mul by lia. pose proof (pow2_pos (n - 1)). destruct Hmin as [->|(k & Hk & ->)].
  - exists (n - 1). split; [lia|]. lia.
  - exists (Z.max (n - 1) k). rewrite max_pow2 by lia. split; [lia|done].
Qed.

Lemma worker_spec ht seed : ht_inv ht -> limits_ok (p ht) -> nelems ht <= 2 ^ 30 ->
  exists ht', rht_deferred_worker ht seed = Some ht' /\ ht_inv ht' /\ same_config ht ht' /\
    elements ht' ≡ₚ elements ht /\ (layout_of ht' = layout_of ht \/ exists m, 0 <= m <= 31 /\ layout_of ht' = (2 ^ m, next_hash_seed seed)).
Proof.
  intros Hi Hlim Hn. pose proof Hi as [_ [(n & Hn31 & E) _ _] _ Hc]. unfold rht_deferred_worker.
  set (ht0 := mk_rhashtable _ _ _ _ _ _). assert (ht_inv ht0) as Hi0 by by apply (ht_inv_same ht).
  assert (forall m, 0 <= m <= 31 -> exists ht', rehash_locked ht0 (2 ^ m) seed = Some ht' /\ ht_inv ht' /\
    same_config ht ht' /\ elements ht' ≡ₚ elements ht /\ (layout_of ht' = layout_of ht \/ exists m, 0 <= m <= 31 /\ layout_of ht' = (2 ^ m, next_hash_seed seed))) as Hre.
  { intros m Hm. destruct (rehash_spec ht0 m seed Hi0 Hm) as (ht' & ? & ? & ? & Hl & ?). exists ht'. repeat (split; [done|]).
    unfold layout_of. destruct Hl as [->|[-> ->]]; [by left|right; by exists m]. }
  assert (exists ht', Some ht0 = Some ht' /\ ht_inv ht' /\ same_config ht ht' /\ elements ht' ≡ₚ elements ht /\
    (layout_of ht' = layout_of ht \/ exists m, 0 <= m <= 31 /\ layout_of ht' = (2 ^ m, next_hash_seed seed)))
    as Hid by (exists ht0; repeat (split; [done|]); by left).
  change (t_size (tbl ht0)) with (t_size (tbl ht)). change (nelems ht0) with (nelems ht). change (p ht0) with (p ht).
  destruct (Z.ltb_spec (t_size (tbl ht) * 3 / 4) (nelems ht)) as [Hg|Hg].
  - destruct (_ <? grow_target ht0); [|done].
    assert (n <> 31) by (intros ->; rewrite E in Hg; change (2 ^ 31 * 3 / 4) with 1610612736 in Hg; change (2 ^ 30) with 1073741824 in Hn; lia).
    destruct (grow_target_pow2 ht0 n Hlim E ltac:(lia)) as (m & Hm & ->). by apply Hre.
  - destruct (_ && _ && _) eqn:Hb; [|done]. apply andb_true_iff in Hb as [_ Hb]. apply Z.ltb_lt in Hb.
    assert (n <> 0) by (intros ->; rewrite E in Hb; change (2 ^ 0 * 3 / 10) with 0 in Hb; lia).
    destruct (shrink_target_pow2 ht n Hlim E ltac:(lia)) as (m & Hm & ->). by apply Hre.
Qed.

Lemma mates_perm hash l S S' key : S ≡ₚ S' -> mates hash l S key = mates hash l S' key.
Proof. unfold mates. intros HP. by rewrite HP. Qed.

Lemma spec_step_perm hash l S S' T o r l' : S ≡ₚ S' -> spec_step hash l S o r l' T -> exists T', spec_step hash l S' o r l' T' /\ T ≡ₚ T'.
Proof.
  intros HP. destruct 1 as [key x Hx Hk|key Hab|obj Hm Hno|obj x Hx Hk|obj Hl|obj T0 HT|obj Hno|seed l' Hl].
  - exists S'. rewrite HP in Hx. split; [by econstructor|done].
  - exists S'. split; [|done]. constructor. rewrite <- (mates_perm _ _ _ _ _ HP). intros Hm o Ho. rewrite <- HP in Ho. by apply Hab.
  - exists (obj :: S'). split; [|by rewrite HP]. constructor; [by rewrite <- (mates_perm _ _ _ _ _ HP)|]. intros o Ho. rewrite <- HP in Ho. by apply Hno.
  - exists S'. split; [|done]. rewrite HP in Hx. by econstructor.
  - exists S'. split; [|done]. constructor. by rewrite <- (mates_perm _ _ _ _ _ HP).
  - exists T0. split; [|done]. rewrite HP in HT. by constructor.
  - exists S'. split; [|done]. rewrite HP in Hno. by constructor.
  - exists S'. split; [|done]. by constructor.
Qed.

Lemma spec_step_length hash l S o r l' T : spec_step hash l S o r l' T -> (length T <= Datatypes.S (length S))%nat.
Proof. destruct 1 as [| | | | |obj S' HP| |]; try rewrite HP; cbn; lia. Qed.

(** One operation on a table, against the set of its own objects. *)
Lemma run_op_elements ht o : ht_inv ht -> limits_ok (p ht) -> nelems ht <= 2 ^ 30 ->
  exists r ht' T, run_op ht o = Some (r, ht') /\ ht_inv ht' /\ same_config ht ht' /\
    spec_step (hash_of ht) (layout_of ht) (elements ht) o r (layout_of ht') T /\ elements ht' ≡ₚ T.
Proof.
  intros Hi Hlim Hn. destruct o as [key|obj|obj|seed]; cbn [run_op].
  - destruct (lookup_spec ht key Hi) as (r & E & Hs & Hn'). rewrite E. bind_simpl.
    exists (Found r), ht, (elements ht). split; [done|]. split; [done|]. split; [done|]. split; [|done].
    destruct r as [x|]; [destruct (Hs x eq_refl); by constructor|].
    constructor. intros Hm. destruct (bucket_some ht (tbl ht) key (hi_table _ Hi)) as [chain Ech].
    apply (Hn' eq_refl chain Ech). by rewrite (chain_mates ht key chain).
  - destruct (insert_spec ht obj Hi ltac:(lia)) as (r & ht' & chain & -> & Hi' & Hc' & [El1 El2] & Ech & Hr). bind_simpl.
    assert (layout_of ht' = layout_of ht) as El by (unfold layout_of; congruence). rewrite (chain_mates ht _ chain Hi Ech) in Hr.
    destruct Hr as [(-> & Hp & Hm & Hno)|[(-> & He & x & Hx & Hk)|(-> & He & Hm)]].
    + exists (Code 0), ht', (obj :: elements ht). repeat (split; [done|]). rewrite El. split; [by constructor|done].
    + exists (Code (-17)), ht', (elements ht). repeat (split; [done|]). rewrite El. split; [by econstructor|by rewrite He].
    + exists (Code (-7)), ht', (elements ht). repeat (split; [done|]). rewrite El. split; [by constructor|by rewrite He].
  - destruct (remove_spec ht obj Hi) as (r & ht' & -> & Hi' & Hc' & [El1 El2] & Hr). bind_simpl.
    assert (layout_of ht' = layout_of ht) as El by (unfold layout_of; congruence).
    exists (Code r), ht'. destruct (Z.eqb_spec r 0) as [->|].
    + exists (elements ht'). repeat (split; [done|]). rewrite El. split; [by constructor|done].
    + destruct Hr as (-> & -> & Hno). exists (elements ht). repeat (split; [done|]). split; [by constructor|done].
  - destruct (worker_spec ht seed Hi Hlim Hn) as (ht' & -> & Hi' & Hc' & He & Hl). bind_simpl.
    exists Worked, ht', (elements ht). repeat (split; [done|]). split; [by constructor|done].
Qed.

Lemma run_op_refines ht S o : refines ht S -> (length S <= 2 ^ 30)%nat ->
  exists r ht' S', run_op ht o = Some (r, ht') /\ spec_step (hash_of ht) (layout_of ht) S o r (layout_of ht') S' /\
    refines ht' S' /\ same_config ht ht'.
Proof.
  intros (Hi & Hlim & HP) Hn.
  assert (nelems ht <= 2 ^ 30) as Hb.
  { rewrite (hi_count _ Hi), HP. apply Nat2Z.inj_le in Hn. rewrite Nat2Z.inj_pow in Hn. exact Hn. }
  destruct (run_op_elements ht o Hi Hlim Hb) as (r & ht' & T & E & Hi' & Hc' & Hst & HT).
  destruct (spec_step_perm _ _ _ S _ _ _ _ HP Hst) as (S' & Hst' & HS'). exists r, ht', S'.
  split; [done|]. split; [done|]. split; [|done]. split; [done|]. split; [by rewrite (proj1 Hc')|by rewrite HT].
Qed.

Lemma run_ops_refines os : forall ht S, refines ht S -> (length S + length os <= 2 ^ 30)%nat ->
  exists rs ht' S', run_ops ht os = Some (rs, ht') /\ spec_run (hash_of ht) (layout_of ht) S os rs S' /\ refines ht' S'.
Proof.
  induction os as [|o os IH]; intros ht S Hr Hn.
  - exists [], ht, S. split; [done|]. split; [constructor|done].
  - cbn [length] in Hn. destruct (run_op_refines ht S o Hr ltac:(lia)) as (r & ht1 & S1 & E1 & Hs1 & Hr1 & Hc1).
    pose proof (spec_step_length _ _ _ _ _ _ _ Hs1).
    destruct (IH ht1 S1 Hr1 ltac:(lia)) as (rs & ht2 & S2 & E2 & Hs2 & Hr2).
    exists (r :: rs), ht2, S2. cbn [run_ops]. rewrite E1. bind_simpl. rewrite E2. bind_simpl.
    split; [done|]. split; [|done]. econstructor; [done|]. assert (hash_of ht1 = hash_of ht) as <- by (unfold hash_of; by rewrite (proj1 Hc1), (proj2 Hc1)). done.
Qed.
End Table.

(** ** Initialisation *)

Lemma roundup_pow2_exp v : v <= 2 ^ 63 -> exists n, 0 <= n <= 63 /\ roundup_pow2 v = Some (2 ^ n) /\
  v <= 2 ^ n /\ (1 < v -> 2 ^ n < 2 * v) /\ (v <= 1 -> n = 0).
Proof.
  intros Hv. rewrite roundup_pow2_ok by done. destruct (Z.leb_spec v 1); [exists 0; repeat split; done || lia|].
  pose proof (Z.log2_spec (v - 1) ltac:(lia)) as [Hlo Hhi]. pose proof (Z.log2_nonneg (v - 1)).
  assert (Z.log2 (v - 1) < 63) by (apply Z.log2_lt_pow2; lia). rewrite <- Z.add_1_r in Hhi.
  exists (Z.log2 (v - 1) + 1). rewrite pow2_split in * by lia. repeat split; lia.
Qed.

Lemma pow2_exp_le n k : 0 <= n -> 0 <= k -> 2 ^ n < 2 ^ (k + 1) -> n <= k.
Proof. intros Hn Hk H. apply Z.pow_lt_mono_r_iff in H; lia. Qed.

(** The parameters fit their fields, and [next_power_of_two] does not overflow. *)
Definition params_range {K} (q : rhashtable_params K) : Prop :=
  0 <= nelem_hint q < 2 ^ 16 /\ 0 <= min_size q < 2 ^ 16 /\ 0 <= max_size q <= 2 ^ 31.

Lemma rounded_size_pow2 {K} (q : rhashtable_params K) : 0 <= nelem_hint q < 2 ^ 16 -> 0 <= min_size q < 2 ^ 16 ->
  exists n, 2 <= n <= 17 /\ rounded_hashtable_size q = Some (2 ^ n).
Proof.
  intros Hh Hm. unfold rounded_hashtable_size.
  assert (0 <= (if negb (nelem_hint q =? 0) then nelem_hint q * 4 / 3 else HASH_DEFAULT_SIZE) < 2 ^ 17) as Hh'.
  { destruct (negb _); [|unfold HASH_DEFAULT_SIZE; lia].
    split; [apply Z.div_pos; lia|]. apply Z.div_lt_upper_bound; lia. }
  set (v := Z.max (Z.max _ _) _). assert (4 <= v < 2 ^ 17) as Hv by (unfold v, HASH_MIN_SIZE; lia).
  destruct (roundup_pow2_exp v ltac:(lia)) as (n & Hn & -> & Hlo & Hhi & _).
  exists n. split; [|done]. split; [|apply pow2_exp_le; [lia..|]; change (2 ^ (17 + 1)) with (2 * 2 ^ 17); lia].
  destruct (Z.le_gt_cases 2 n); [done|]. pose proof (pow2_le n 1). lia.
Qed.

Lemma min_limit v : 0 <= v < 2 ^ 16 -> exists mn, roundup_pow2 v = Some mn /\
  let mn' := Z.max mn HASH_MIN_SIZE mod 2 ^ 16 in
  if v <=? 2 ^ 15 then v <= mn' /\ exists n, 2 <= n <= 15 /\ mn' = 2 ^ n else mn' = 0.
Proof.
  intros Hv. destruct (roundup_pow2_exp v ltac:(lia)) as (n & Hn & -> & Hlo & Hhi & Hone).
  exists (2 ^ n). split; [done|]. change HASH_MIN_SIZE with (2 ^ 2). rewrite max_pow2 by lia. cbv zeta.
  destruct (Z.leb_spec v (2 ^ 15)) as [Hs|Hs].
  - assert (n <= 15) by (destruct (Z.le_gt_cases v 1); [lia|]; apply pow2_exp_le; [lia..|];
                         change (2 ^ (15 + 1)) with (2 * 2 ^ 15); lia).
    pose proof (pow2_le (Z.max n 2) 15). pose proof (pow2_pos (Z.max n 2)). pose proof (pow2_le n (Z.max n 2)).
    rewrite Z.mod_small by lia. split; [lia|]. exists (Z.max n 2). split; [lia|done].
  - assert (n <= 16) by (apply pow2_exp_le; [lia..|]; change (2 ^ (16 + 1)) with (2 * 2 ^ 16); lia).
    assert (15 < n) by (apply (Z.pow_lt_mono_r_iff 2); lia).
    replace n with 16 by lia. done.
Qed.

Lemma max_limit v : 1 <= v <= 2 ^ 31 -> exists mx, Z.shiftr (2 ^ bitlen (v - 1)) 1 = mx /\
  (mx = 0 /\ v = 1 \/ exists n, 0 <= n <= 30 /\ mx = 2 ^ n /\ mx < v <= 2 * mx).
Proof.
  intros Hv. eexists. split; [reflexivity|]. unfold bitlen.
  destruct (Z.eqb_spec (v - 1) 0); [left; split; [done|lia]|right].
  pose proof (Z.log2_spec (v - 1) ltac:(lia)) as [Hlo Hhi]. pose proof (Z.log2_nonneg (v - 1)).
  assert (Z.log2 (v - 1) < 31) by (apply Z.log2_lt_pow2; lia). rewrite <- Z.add_1_r in Hhi.
  exists (Z.log2 (v - 1)). rewrite Z.shiftr_div_pow2, pow2_split in * by lia. rewrite Z.div_mul by lia. lia.
Qed.

Lemma init_spec {K} (j2 j : K -> Z -> Z -> Z) (params : rhashtable_params K) seed : params_range params ->
  (p_key_len params = 0 -> is_none (obj_hashfn params) = false) ->
  (is_none (obj_hashfn params) = false -> is_none (obj_cmpfn params) = false) ->
  exists ht, rhashtable_init j2 j params seed = Some (inr ht) /\ limits_ok (p ht) /\
    (exists n, 2 <= n <= 17 /\ tbl ht = bucket_table_alloc (2 ^ n) seed) /\ nelems ht = 0 /\
    (if min_size params <=? 2 ^ 15 then min_size params <= min_size (p ht) else min_size (p ht) = 0).
Proof.
  intros (Hh & Hm & Hx) Hk Hc. unfold rhashtable_init.
  replace (((p_key_len params =? 0) && _) || _) with false.
  2: { symmetry. apply orb_false_iff. split; apply andb_false_iff.
       - destruct (Z.eqb_spec (p_key_len params) 0); [right|left]; auto.
       - destruct (is_none (obj_hashfn params)); [by left|right; auto]. }
  destruct (min_limit (min_size params) Hm) as (mn & -> & Hmn). bind_simpl. set (mn' := _ mod 2 ^ 16) in *.
  set (mxo := if negb (max_size params =? 0) then _ else _).
  assert (exists mx, mxo = Some mx /\ (mx = 0 \/ exists n, 0 <= n <= 30 /\ mx = 2 ^ n)) as (mx & -> & Hmx).
  { unfold mxo. destruct (Z.eqb_spec (max_size params) 0) as [->|]; [eauto|]. cbn [negb].
    rewrite (proj2 (assert_true _)) by (apply Z.leb_le; lia). bind_simpl.
    destruct (max_limit (max_size params) ltac:(lia)) as (mx & -> & [[-> _]|(e & ? & ? & _)]);
      (eexists; split; [reflexivity|]); [by left|right; by exists e]. }
  bind_simpl. destruct (match hashfn params with Some h => _ | None => _ end) as [kl hf]. bind_simpl.
  assert (0 <= mn' < 2 ^ 16) by (apply Z.mod_pos_bound; lia).
  edestruct (rounded_size_pow2 (K := K)) as (n & Hn & ->); cycle 2.
  - bind_simpl. eexists. split; [reflexivity|]. cbn [p tbl nelems min_size].
    split; [split; cbn [max_size min_size]|].
    + done.
    + destruct (_ <=? 2 ^ 15); [right; destruct Hmn as [_ (k & ? & ?)]; exists k; split; [lia|done]|by left].
    + split; [by exists n|]. split; [done|]. destruct (_ <=? 2 ^ 15); [by destruct Hmn|done].
  - done.
  - cbn [min_size]. lia.
Qed.

Lemma init_refines {K} `{EqDecision K} (key_of : Z -> K) ht n seed : params_ok key_of ht -> limits_ok (p ht) ->
  2 <= n <= 17 -> tbl ht = bucket_table_alloc (2 ^ n) seed -> nelems ht = 0 -> refines key_of ht [].
Proof.
  intros Hp Hlim Hn Ht He. destruct (alloc_inv key_of ht n seed ltac:(lia)) as [Ha Hae].
  split; [|split; [done|unfold elements; by rewrite Ht, Hae]].
  split; [done|by rewrite Ht|..]; unfold elements; rewrite Ht, Hae; [constructor|done].
Qed.

(** ** Properties *)

(** [roundup_pow2] returns the least power of two that is not below its
    argument, and panics on overflow exactly when that power is [2^64]. *)
Theorem roundup_pow2_least v : 0 <= v < 2 ^ 64 ->
  match roundup_pow2 v with
  | Some r => (exists n, 0 <= n /\ r = 2 ^ n) /\ v <= r /\ forall m, 0 <= m -> v <= 2 ^ m -> r <= 2 ^ m
  | None => 2 ^ 63 < v
  end.
Proof.
  intros Hv. destruct (Z.le_gt_cases v (2 ^ 63)) as [Hle|Hgt].
  - destruct (roundup_pow2_exp v Hle) as (n & Hn & -> & Hlo & Hhi & Hone).
    split; [exists n; lia|]. split; [done|]. intros m Hm Hvm. apply pow2_le. split; [lia|].
    destruct (Z.le_gt_cases v 1); [lia|]. apply pow2_exp_le; [lia..|]. rewrite pow2_split by lia. lia.
  - destruct (roundup_pow2 v) as [r|] eqn:E; [exfalso|done]. revert E. unfold roundup_pow2.
    destruct (Z.leb_spec v 1); [lia|].
    pose proof (smeared_start (v - 1) ltac:(lia)) as H1. cbv zeta.
    assert (Z.log2 (v - 1) = 63) as Hl by (apply Z.log2_unique; lia). rewrite Hl in H1.
    do 6 (apply smear_step in H1; [|lia..]; match type of H1 with
          | smeared _ _ ?m => let m' := eval vm_compute in m in change m with m' in H1 end).
    apply smeared_ones in H1; [|lia]. rewrite H1. unfold uadd. destruct (Z.ltb_spec (2 ^ (63 + 1) - 1 + 1) (2 ^ 64)); lia || done.
Qed.

Lemma roundup_pow2_least_witness : roundup_pow2 37 = Some 64 /\
  match roundup_pow2 37 with
  | Some r => (exists n, 0 <= n /\ r = 2 ^ n) /\ 37 <= r /\ forall m, 0 <= m -> 37 <= 2 ^ m -> r <= 2 ^ m
  | None => 2 ^ 63 < 37
  end.
Proof. split; [vm_compute; reflexivity|]. apply (roundup_pow2_least 37). lia. Defined.

(** C36: From initialisation on, every sequence of lookups, insertions,
    removals and runs of the deferred worker returns without a panic and
    behaves as [spec_run] says.  While at most 16 objects are in the bucket
    of a key the table is a set of objects: a lookup finds the object of the
    key exactly if there is one, and an insertion is refused, with EEXIST,
    exactly if there is one.  For a key whose bucket holds more, a lookup may
    miss the object and every insertion is refused.  Removal always finds
    exactly the objects that are in, and the worker only changes the number of
    buckets and the seed, and with them which keys share a bucket. *)
Theorem rhashtable_refines_set {K} `{EqDecision K} (key_of : Z -> K) (j2 j : K -> Z -> Z -> Z)
    (params : rhashtable_params K) (seed : Z)
    (Hrange : params_range params)
    (Hkey : p_key_len params = 0 -> is_none (obj_hashfn params) = false)
    (Hcmp : is_none (obj_hashfn params) = false -> is_none (obj_cmpfn params) = false) :
  exists ht, rhashtable_init j2 j params seed = Some (inr ht) /\
    (params_ok key_of ht -> forall os, Z.of_nat (length os) <= 2 ^ 30 ->
     exists rs ht' S, run_ops key_of ht os = Some (rs, ht') /\ spec_run key_of (hash_of ht) (layout_of ht) [] os rs S /\
       elements ht' ≡ₚ S /\ nelems ht' = Z.of_nat (length S)).
Proof.
  destruct (init_spec j2 j params seed Hrange Hkey Hcmp) as (ht & E & Hlim & (n & Hn & Ht) & He & _).
  exists ht. split; [done|]. intros Hp os Hos.
  pose proof (init_refines key_of ht n seed Hp Hlim Hn Ht He) as Hr.
  assert (length os <= 2 ^ 30)%nat by (apply Nat2Z.inj_le; by rewrite Nat2Z.inj_pow).
  destruct (run_ops_refines key_of os ht [] Hr ltac:(done)) as (rs & ht' & S & E' & Hs & Hi & _ & HP).
  exists rs, ht', S. repeat (split; [done|]). rewrite (hi_count _ _ Hi), HP. done.
Qed.

(** A table of objects whose key is their address, hashed by itself. *)
Definition sample_params : rhashtable_params Z :=
  mk_rhashtable_params 0 8 0 0 true (Some (fun key _ rnd => Z.lxor key rnd)) None None.

Lemma rhashtable_refines_set_witness :
  exists ht, rhashtable_init (fun _ _ _ => 0) (fun _ _ _ => 0) sample_params 1 = Some (inr ht) /\
    exists rs ht' S, run_ops id ht [Insert 7; Insert 7; Work 3; Lookup 7; Remove 7; Remove 7] = Some (rs, ht') /\
      spec_run id (hash_of ht) (layout_of ht) [] [Insert 7; Insert 7; Work 3; Lookup 7; Remove 7; Remove 7] rs S /\
      elements ht' ≡ₚ S /\ nelems ht' = Z.of_nat (length S).
Proof.
  destruct (rhashtable_refines_set (K := Z) id (fun _ _ _ => 0) (fun _ _ _ => 0) sample_params 1)
    as (ht & E & H).
  - unfold params_range. cbn. lia.
  - discriminate.
  - discriminate.
  - exists ht. split; [exact E|]. apply H; [|cbn; lia]. vm_compute in E. injection E as <-.
    split; cbn; [reflexivity|discriminate|discriminate].
Defined.

(** What [rhashtable_init] makes of its parameters: EINVAL when a key
    can neither be hashed nor compared; otherwise an empty table of a power
    of two of buckets whose shrinking limit is at least the one asked for,
    unless that is above 32768: rounded up it does not fit its 16-bit field
    and the limit becomes 0. *)
Theorem rhashtable_init_limits {K} (j2 j : K -> Z -> Z -> Z) (params : rhashtable_params K) seed
    (Hrange : params_range params) :
  match rhashtable_init j2 j params seed with
  | Some (inl e) => e = -22 /\
      (p_key_len params = 0 /\ obj_hashfn params = None \/
       obj_hashfn params <> None /\ obj_cmpfn params = None)
  | Some (inr ht) => elements ht = [] /\ (exists n, 2 <= n <= 17 /\ t_size (tbl ht) = 2 ^ n) /\
      (if min_size params <=? 2 ^ 15 then min_size params <= min_size (p ht) else min_size (p ht) = 0)
  | None => False
  end.
Proof.
  destruct (((p_key_len params =? 0) && is_none (obj_hashfn params))
     || (negb (is_none (obj_hashfn params)) && is_none (obj_cmpfn params))) eqn:Eb.
  - unfold rhashtable_init. rewrite Eb. split; [done|].
    destruct (Z.eqb_spec (p_key_len params) 0), (obj_hashfn params), (obj_cmpfn params); cbn in Eb; auto; discriminate.
  - apply orb_false_iff in Eb as [E1 E2].
    destruct (init_spec j2 j params seed Hrange) as (ht & -> & _ & (n & Hn & Ht) & _ & Hm).
    + intros Hk. rewrite Hk in E1. done.
    + intros Hk. rewrite Hk in E2. done.
    + unfold elements. rewrite Ht. pose proof (pow2_le n 17). pose proof (pow2_pos n).
      split; [|split; [exists n|done]]; cbn [bucket_table_alloc buckets t_size].
      * induction (Z.to_nat (2 ^ n)); [done|]. by cbn.
      * split; [done|]. rewrite Z.mod_small by lia. done.
Qed.

Lemma rhashtable_init_limits_witness :
  match rhashtable_init (fun _ _ _ => 0) (fun _ _ _ => 0)
          (mk_rhashtable_params (K := Z) 0 8 0 40000 true None None None) 1 with
  | Some (inr ht) => min_size (p ht) = 0
  | _ => False
  end.
Proof.
  pose proof (rhashtable_init_limits (fun _ _ _ => 0) (fun _ _ _ => 0)
    (mk_rhashtable_params (K := Z) 0 8 0 40000 true None None None) 1) as H.
  cbn [min_size] in H. change (40000 <=? 2 ^ 15) with false in H.
  specialize (H ltac:(unfold params_range; cbn; lia)).
  destruct (rhashtable_init _ _ _ _) as [[e|ht]|]; [|apply H|exact H].
  destruct H as [_ [[H _]|[H _]]]; [discriminate H|destruct H; reflexivity].
Defined.

(** Objects whose keys all have the same hash. *)
Definition colliding : rhashtable_params Z :=
  mk_rhashtable_params 0 8 0 0 false (Some (fun _ _ _ => 5)) None None.

Definition is_code (r : Z) (x : res) : bool := match x with Code c => c =? r | _ => false end.

(** A chain takes a seventeenth object, since an insertion that has
    walked over sixteen objects only refuses when a seventeenth is already
    there, but a lookup stops after sixteen: all seventeen insertions
    succeed, the first object can no longer be looked up and it is still
    in the table. *)
Theorem rhashtable_seventeenth_hides :
  match rhashtable_init (fun _ _ _ => 0) (fun _ _ _ => 0) colliding 1 with
  | Some (inr ht) =>
      match run_ops id ht (map Insert (seqZ 1 17)) with
      | Some (rs, ht') => forallb (is_code 0) rs = true /\ run_work ht' = false /\
          In 1 (elements ht') /\ rhashtable_lookup_fast id ht' 1 = Some None /\
          rhashtable_lookup_fast id ht' 2 = Some (Some 2)
      | None => False
      end
  | _ => False
  end.
Proof. vm_compute. repeat split. tauto. Qed.
