(* ===== verification/Superblock.v ===== *)
(** * The superblock ([sb/mod.rs], [sb/io.rs])

    A superblock is a fixed header followed by a sequence of variable-length
    fields of 64-bit words; the first word of a field holds its length in
    words and its type.  The header is a record and the rest of the buffer a
    list of words, so that a pointer into the fields is a word offset from
    [start].  A read or a write outside the buffer is undefined and is a
    panic of the model ([None]). *)

From stdpp Require Import base tactics list option sorting.
From Stdlib Require Import ZArith Lia.
From S2P Require Import Prelude Checksum.

Open Scope Z_scope.

Definition BCH_SB_LABEL_SIZE : Z := 32.
Definition BCH_SB_SECTOR : Z := 8.
Definition BCH_SB_LAYOUT_SECTOR : Z := 7.
Definition BCH_SB_LAYOUT_SIZE_BITS_MAX : Z := 16.
Definition BCH_SB_MEMBERS_MAX : Z := 256.
Definition BCH_SB_MEMBER_INVALID : Z := 255.
Definition BCH_SB_MEMBER_DELETED_UUID : list Z :=
  [0xff; 0xff; 0xff; 0xff; 0xff; 0xff; 0xff; 0xff; 0xd9; 0x6a; 0x60; 0xcf; 0x80; 0x3d; 0xf7; 0xef].
Definition BCH_SB_FIELD_journal_v2 : Z := 9.
Definition BCH_SB_FIELD_members_v2 : Z := 11.
Definition BCHFS_MAGIC : list Z :=
  [0xc6; 0x85; 0x73; 0xf6; 0x66; 0xce; 0x90; 0xa9; 0xd9; 0x6a; 0x60; 0xcf; 0x80; 0x3d; 0xf7; 0xef].

Definition BCH_VERSION (major minor : Z) : Z := Z.lor (Z.shiftl major 10 mod 2 ^ 16) minor.
Definition BCH_VERSION_MAJOR (version : Z) : Z := Z.shiftr version 10.
Definition BCH_VERSION_MINOR (version : Z) : Z := Z.land version (2 ^ 10 - 1).
Definition bcachefs_metadata_version_current : Z := BCH_VERSION 1 38.

Record bch_sb_layout := mk_bch_sb_layout {
  l_magic : list Z;
  layout_type : Z;
  sb_max_size_bits : Z;
  nr_superblocks : Z;
  l_pad : list Z;
  sb_offset : list Z
}.

Definition bch_sb_layout_default : bch_sb_layout :=
  mk_bch_sb_layout (replicate 16 0) 0 0 0 (replicate 5 0) (replicate 61 0).

Record bch_sb_field := mk_bch_sb_field { f_u64s : Z; f_type : Z }.

Record bch_member := mk_bch_member {
  m_uuid : list Z;
  m_nbuckets : Z;
  m_first_bucket : Z;
  m_bucket_size : Z;
  m_btree_bitmap_shift : Z;
  m_pad : list Z;
  m_last_mount : Z;
  m_flags : Z;
  m_iops : list Z;
  m_errors : list Z;
  m_errors_at_reset : list Z;
  m_errors_reset_time : Z;
  m_seq : Z;
  m_btree_allocated_bitmap : Z;
  m_last_journal_bucket : Z;
  m_last_journal_bucket_offset : Z;
  m_device_name : list Z;
  m_device_model : list Z;
  m_flush_errors : Z;
  m_device_serial : list Z
}.

Definition bch_member_default : bch_member :=
  mk_bch_member (replicate 16 0) 0 0 0 0 (replicate 3 0) 0 0 (replicate 4 0) (replicate 3 0)
    (replicate 3 0) 0 0 0 0 0 (replicate 16 0) (replicate 64 0) 0 (replicate 64 0).

Record bch_member_cpu := mk_bch_member_cpu {
  nbuckets : Z;
  nbuckets_minus_first : Z;
  first_bucket : Z;
  bucket_size : Z;
  group : Z;
  mi_state : Z;
  discard : Z;
  data_allowed : Z;
  durability : Z;
  freespace_initialized : Z;
  initialized : Z;
  resize_on_mount : Z;
  rotational : Z;
  valid : Z;
  btree_bitmap_shift : Z;
  btree_allocated_bitmap : Z
}.

Definition bch2_member_alive (member : bch_member) : bool :=
  negb (bool_decide (m_uuid member = replicate 16 0))
  && negb (bool_decide (m_uuid member = BCH_SB_MEMBER_DELETED_UUID)).

Definition bch2_mi_to_cpu (member : bch_member) : bch_member_cpu :=
  let flags := m_flags member in
  let dur := Z.land (Z.shiftr flags 28) 0x3 in
  mk_bch_member_cpu (m_nbuckets member)
    (wsub 64 (m_nbuckets member) (m_first_bucket member))
    (m_first_bucket member)
    (m_bucket_size member)
    (Z.land (Z.shiftr flags 20) 0xff)
    (Z.land flags 0xf)
    (Z.land (Z.shiftr flags 14) 1)
    (Z.land (Z.shiftr flags 15) 0x1f)
    (if negb (dur =? 0) then dur - 1 else 1)
    (Z.land (Z.shiftr flags 30) 1)
    (Z.land (Z.shiftr flags 34) 0xf)
    (Z.land (Z.shiftr flags 31) 1)
    (Z.land (Z.shiftr flags 32) 1)
    (Z.b2z (bch2_member_alive member))
    (m_btree_bitmap_shift member)
    (m_btree_allocated_bitmap member).

(** The fields of a member list follow a 16-byte header. *)
Record bch_sb_field_members_v2 := mk_bch_sb_field_members_v2 { mv_field : bch_sb_field; member_bytes : Z }.

Record bch_sb_field_journal_v2_entry := mk_bch_sb_field_journal_v2_entry { start : Z; nr : Z }.

Record bch_sb := mk_bch_sb {
  csum : bch_csum;
  version : Z;
  version_min : Z;
  pad : list Z;
  magic : list Z;
  uuid : list Z;
  user_uuid : list Z;
  label : list Z;
  offset : Z;
  sb_seq : Z;
  block_size : Z;
  dev_idx : Z;
  nr_devices : Z;
  u64s : Z;
  time_base_lo : Z;
  time_base_hi : Z;
  time_precision : Z;
  flags : list Z;
  write_time : Z;
  features : list Z;
  compat : list Z;
  layout : bch_sb_layout
}.

Definition bch_sb_default : bch_sb :=
  mk_bch_sb (mk_bch_csum 0 0) 0 0 [0; 0] (replicate 16 0) (replicate 16 0) (replicate 16 0)
    (replicate 32 0) 0 0 0 0 0 0 0 0 0 (replicate 7 0) 0 [0; 0] [0; 0] bch_sb_layout_default.

Definition set_u64s (sb : bch_sb) (n : Z) : bch_sb :=
  mk_bch_sb (csum sb) (version sb) (version_min sb) (pad sb) (magic sb) (uuid sb) (user_uuid sb)
    (label sb) (offset sb) (sb_seq sb) (block_size sb) (dev_idx sb) (nr_devices sb) n
    (time_base_lo sb) (time_base_hi sb) (time_precision sb) (flags sb) (write_time sb)
    (features sb) (compat sb) (layout sb).

Definition set_flags (sb : bch_sb) (fl : list Z) : bch_sb :=
  mk_bch_sb (csum sb) (version sb) (version_min sb) (pad sb) (magic sb) (uuid sb) (user_uuid sb)
    (label sb) (offset sb) (sb_seq sb) (block_size sb) (dev_idx sb) (nr_devices sb) (u64s sb)
    (time_base_lo sb) (time_base_hi sb) (time_precision sb) fl (write_time sb)
    (features sb) (compat sb) (layout sb).

(** [sb] is [None] for the null pointer, else the header and the words of
    the buffer behind it.  The file, the name and the other pointers of the
    handle are opaque. *)
Record bch_sb_handle := mk_bch_sb_handle {
  sb : option (bch_sb * list Z);
  buffer_size : Z;
  h_flags : Z
}.

Definition bch_sb_handle_default : bch_sb_handle := mk_bch_sb_handle None 0 0.

Definition BCH_SB_HANDLE_HAVE_LAYOUT : Z := 2 ^ 0.
Definition BCH_SB_HANDLE_HAVE_BIO : Z := 2 ^ 1.
Definition BCH_SB_HANDLE_FS_SB : Z := 2 ^ 2.

Definition BCH_ERR_invalid_sb_layout : Z := -1.
Definition BCH_ERR_invalid_sb_layout_type : Z := -2.
Definition BCH_ERR_invalid_sb_layout_nr_superblocks : Z := -3.
Definition BCH_ERR_invalid_sb_layout_superblocks_overlap : Z := -4.
Definition BCH_ERR_invalid_sb_layout_sb_max_size_bits : Z := -5.
Definition BCH_ERR_invalid_sb_version : Z := -6.
Definition BCH_ERR_ENOSPC_sb : Z := -7.
Definition BCH_ERR_ENOMEM_sb_buf_realloc : Z := -8.
Definition BCH_ERR_invalid_sb_features : Z := -15.
Definition BCH_ERR_invalid_sb_uuid : Z := -16.
Definition BCH_ERR_invalid_sb_offset : Z := -17.
Definition BCH_ERR_invalid_sb_too_many_members : Z := -18.
Definition BCH_ERR_invalid_sb_dev_idx : Z := -19.
Definition BCH_ERR_invalid_sb_time_precision : Z := -20.
Definition BCH_ERR_invalid_sb_field_size : Z := -21.
Definition BCH_ERR_invalid_sb_members_missing : Z := -22.
Definition BCH_ERR_invalid_sb_members : Z := -23.
Definition BCH_ERR_invalid_sb_journal : Z := -24.
Definition BCH_ERR_invalid_sb_field_type : Z := -25.

(** ** Fields *)

(** [core::mem::size_of::<bch_sb>()], 94 words. *)
Definition sizeof_bch_sb : Z := 752.

Definition __vstruct_bytes (n : Z) : Z := sizeof_bch_sb + n * 8.

(** The two halves of the first word of a field. *)
Definition field_at (data : list Z) (k : nat) : option bch_sb_field :=
  w ← data !! k; Some (mk_bch_sb_field (w mod 2 ^ 32) (w / 2 ^ 32)).

Definition vstruct_last (s : bch_sb) : nat := Z.to_nat (u64s s).

Definition vstruct_next (data : list Z) (field : nat) : option nat :=
  f ← field_at data field; Some (field + Z.to_nat (f_u64s f))%nat.

(** One step per field; a field of length 0 is an endless loop. *)
Fixpoint get_id_loop (fuel : nat) (data : list Z) (last : nat) (type_ : Z) (field : nat)
  : option (option nat) :=
  if (field <? last)%nat then
    match fuel with
    | O => None
    | S fuel =>
        f ← field_at data field;
        if f_type f =? type_ then Some (Some field) else
        next ← vstruct_next data field;
        get_id_loop fuel data last type_ next
    end
  else Some None.

Definition bch2_sb_field_get_id (s : bch_sb) (data : list Z) (type_ : Z) : option (option nat) :=
  get_id_loop (vstruct_last s) data (vstruct_last s) type_ 0.

(** [write_bytes] with zeroes and [copy], in words. *)
Definition fill (data : list Z) (k n : nat) : option (list Z) :=
  if (k + n <=? length data)%nat then Some (take k data ++ replicate n 0 ++ drop (k + n) data) else None.

Definition copy (data : list Z) (src dst n : nat) : option (list Z) :=
  if (src + n <=? length data)%nat && (dst + n <=? length data)%nat
  then Some (take dst data ++ take n (drop src data) ++ drop (dst + n) data) else None.

(** Assignments to the halves of the first word of a field. *)
Definition set_field_u64s (data : list Z) (k : nat) (n : Z) : option (list Z) :=
  f ← field_at data k; Some (<[k := f_type f * 2 ^ 32 + n]> data).

Definition set_field_type (data : list Z) (k : nat) (t : Z) : option (list Z) :=
  f ← field_at data k; Some (<[k := t * 2 ^ 32 + f_u64s f]> data).

Definition field_u64s (data : list Z) (field : option nat) : option Z :=
  match field with
  | None => Some 0
  | Some k => f ← field_at data k; Some (f_u64s f)
  end.

(** A new field behind the last one. *)
Definition append_field (s : bch_sb) (data : list Z) (n : Z) : option (nat * list Z) :=
  let field := vstruct_last s in
  data ← fill data field (Z.to_nat n);
  data ← set_field_u64s data field n;
  data ← set_field_type data field 0;
  Some (field, data).

(** The fields behind the one that changes are moved. *)
Definition move_fields (s : bch_sb) (data : list Z) (field : nat) (old n : Z) : option (list Z) :=
  let src := (field + Z.to_nat old)%nat in
  data ← (if negb (n =? 0) then set_field_u64s data field n else Some data);
  let dst := (field + Z.to_nat n)%nat in
  let end_ := vstruct_last s in
  _ ← assert (src <=? end_)%nat;
  data ← copy data src dst (end_ - src);
  if (src <? dst)%nat then fill data src (dst - src) else Some data.

Definition __bch2_sb_field_resize (h : bch_sb_handle) (field : option nat) (n : Z)
  : option (option nat * bch_sb_handle) :=
  '(s, data) ← sb h;
  old_u64s ← field_u64s data field;
  sum ← uadd 32 (u64s s) n;
  sb_u64s ← usub sum old_u64s;
  _ ← assert (__vstruct_bytes sb_u64s <=? buffer_size h);
  '(field, data) ← match field with
                   | None =>
                       if n =? 0 then Some (None, data) else
                       '(k, data) ← append_field s data n; Some (Some k, data)
                   | Some k => data ← move_fields s data k old_u64s n; Some (Some k, data)
                   end;
  Some (if negb (n =? 0) then field else None,
        mk_bch_sb_handle (Some (set_u64s s sb_u64s, data)) (buffer_size h) (h_flags h)).

Definition bch2_free_super (h : bch_sb_handle) : bch_sb_handle := bch_sb_handle_default.

Definition next_power_of_two (x : Z) : Z := if x <=? 1 then 1 else 2 ^ bitlen (x - 1).

(** [alloc_ok] is whether the allocator has the memory. *)
Definition bch2_sb_realloc (alloc_ok : bool) (h : bch_sb_handle) (n : Z) : option (Z * bch_sb_handle) :=
  let new_bytes := __vstruct_bytes n in
  let new_buffer_size := next_power_of_two new_bytes in
  let have := match sb h with Some _ => true | None => false end in
  if have && (new_buffer_size <=? buffer_size h) then Some (0, h) else
  fits ← match sb h with
         | Some (s, _) =>
             if negb (Z.land (h_flags h) BCH_SB_HANDLE_HAVE_LAYOUT =? 0)
             then max_bytes ← ushl 64 512 (sb_max_size_bits (layout s)); Some (new_bytes <=? max_bytes)
             else Some true
         | None => Some true
         end;
  if negb fits then Some (BCH_ERR_ENOSPC_sb, h) else
  if negb alloc_ok then Some (BCH_ERR_ENOMEM_sb_buf_realloc, h) else
  let new_words := Z.to_nat (new_buffer_size / 8 - 94) in
  let new_sb := match sb h with
                | Some (s, data) => (s, resize new_words 0 data)
                | None => (bch_sb_default, replicate new_words 0)
                end in
  Some (0, mk_bch_sb_handle (Some new_sb) new_buffer_size (h_flags h)).

Definition bch2_sb_field_resize_id (alloc_ok : bool) (h : bch_sb_handle) (type_ n : Z)
  : option (option nat * bch_sb_handle) :=
  '(s, data) ← sb h;
  field ← bch2_sb_field_get_id s data type_;
  old_u64s ← field_u64s data field;
  let new_sb_u64s := (u64s s - old_u64s + n) mod 2 ^ 32 in
  '(ret, h) ← bch2_sb_realloc alloc_ok h new_sb_u64s;
  if negb (ret =? 0) then Some (None, h) else
  if negb (Z.land (h_flags h) BCH_SB_HANDLE_FS_SB =? 0) then Some (None, h) else
  '(s, data) ← sb h;
  field ← bch2_sb_field_get_id s data type_;
  '(field, h) ← __bch2_sb_field_resize h field n;
  match field with
  | None => Some (None, h)
  | Some k =>
      '(s, data) ← sb h;
      data ← set_field_type data k type_;
      Some (Some k, mk_bch_sb_handle (Some (s, data)) (buffer_size h) (h_flags h))
  end.

Definition bch2_sb_field_get_minsize_id (alloc_ok : bool) (h : bch_sb_handle) (type_ n : Z)
  : option (option nat * bch_sb_handle) :=
  '(s, data) ← sb h;
  field ← bch2_sb_field_get_id s data type_;
  old_u64s ← field_u64s data field;
  if match field with None => true | Some _ => old_u64s <? n end
  then bch2_sb_field_resize_id alloc_ok h type_ n
  else Some (field, h).

Definition bch2_sb_field_delete (h : bch_sb_handle) (type_ : Z) : option bch_sb_handle :=
  '(s, data) ← sb h;
  field ← bch2_sb_field_get_id s data type_;
  match field with
  | None => Some h
  | Some _ => '(_, h) ← __bch2_sb_field_resize h field 0; Some h
  end.

(** ** Validation *)

Fixpoint layout_overlaps (max_sectors prev_offset : Z) (offsets : list Z) : bool :=
  match offsets with
  | [] => false
  | offset :: rest =>
      if offset <? wadd 64 prev_offset max_sectors then true else layout_overlaps max_sectors offset rest
  end.

Definition validate_sb_layout (l : bch_sb_layout) : option Z :=
  if negb (bool_decide (l_magic l = BCHFS_MAGIC)) then Some BCH_ERR_invalid_sb_layout else
  if negb (layout_type l =? 0) then Some BCH_ERR_invalid_sb_layout_type else
  if nr_superblocks l =? 0 then Some BCH_ERR_invalid_sb_layout_nr_superblocks else
  if Z.of_nat (length (sb_offset l)) <? nr_superblocks l
  then Some BCH_ERR_invalid_sb_layout_nr_superblocks else
  if BCH_SB_LAYOUT_SIZE_BITS_MAX <? sb_max_size_bits l
  then Some BCH_ERR_invalid_sb_layout_sb_max_size_bits else
  max_sectors ← ushl 64 1 (sb_max_size_bits l);
  first ← sb_offset l !! O;
  if layout_overlaps max_sectors first (drop 1 (take (Z.to_nat (nr_superblocks l)) (sb_offset l)))
  then Some BCH_ERR_invalid_sb_layout_superblocks_overlap else Some 0.

Definition bch2_sb_compatible (s : bch_sb) : Z :=
  if negb (version s =? bcachefs_metadata_version_current)
     || negb (version_min s =? bcachefs_metadata_version_current)
  then BCH_ERR_invalid_sb_version else 0.

(** Bytes of the words, in little-endian order. *)
Definition byte_at (data : list Z) (i : nat) : option Z :=
  w ← data !! (i / 8)%nat; Some (Z.land (Z.shiftr w (8 * Z.of_nat (i mod 8))) 255).

Definition read_bytes (data : list Z) (off n : nat) : option (list Z) := mapM (byte_at data) (seq off n).

Definition le (bytes : list Z) : Z := foldr (fun b acc => b + 256 * acc) 0 bytes.
Definition le_at (bytes : list Z) (off n : nat) : Z := le (take n (drop off bytes)).
Definition les_at (bytes : list Z) (off n count : nat) : list Z :=
  map (fun i => le_at bytes (off + i * n) n) (seq 0 count).

Definition sizeof_bch_member : nat := 296.

(** The layout of [bch_member] in memory. *)
Definition member_of_bytes (b : list Z) : bch_member :=
  mk_bch_member (take 16 b) (le_at b 16 8) (le_at b 24 2) (le_at b 26 2) (le_at b 28 1)
    (take 3 (drop 29 b)) (le_at b 32 8) (le_at b 40 8) (les_at b 48 4 4) (les_at b 64 8 3)
    (les_at b 88 8 3) (le_at b 112 8) (le_at b 120 8) (le_at b 128 8) (le_at b 136 4) (le_at b 140 4)
    (take 16 (drop 144 b)) (take 64 (drop 160 b)) (le_at b 224 8) (take 64 (drop 232 b)).

Definition members_at (data : list Z) (k : nat) : option bch_sb_field_members_v2 :=
  f ← field_at data k;
  w ← data !! S k;
  Some (mk_bch_sb_field_members_v2 f (w mod 2 ^ 16)).

(** The byte offset of a member. *)
Definition __bch2_members_v2_get_mut (k : nat) (m : bch_sb_field_members_v2) (index : nat) : nat :=
  (8 * k + 16 + index * Z.to_nat (member_bytes m))%nat.

Definition bch2_members_v2_get (data : list Z) (members : option nat) (index : nat) : option bch_member :=
  match members with
  | None => Some bch_member_default
  | Some k =>
      m ← members_at data k;
      let n := Nat.min (Z.to_nat (member_bytes m)) sizeof_bch_member in
      bytes ← read_bytes data (__bch2_members_v2_get_mut k m index) n;
      Some (member_of_bytes (resize sizeof_bch_member 0 bytes))
  end.

Definition bch2_sb_member_get (s : bch_sb) (data : list Z) (index : nat) : option bch_member :=
  members ← bch2_sb_field_get_id s data BCH_SB_FIELD_members_v2;
  bch2_members_v2_get data members index.

(** [sb.flags[i]]; the array has seven words. *)
Definition flag_word (s : bch_sb) (i : nat) : Z := flags s !!! i.

Definition BCH_SB_BTREE_NODE_SIZE (s : bch_sb) : Z := Z.land (Z.shiftr (flag_word s 0) 12) 0xffff.
Definition BCH_SB_VERSION_INCOMPAT (s : bch_sb) : Z := Z.land (Z.shiftr (flag_word s 5) 32) 0xffff.
Definition BCH_SB_VERSION_INCOMPAT_ALLOWED (s : bch_sb) : Z := Z.land (Z.shiftr (flag_word s 5) 48) 0xffff.
Definition BCH_SB_CSUM_TYPE (s : bch_sb) : Z := Z.land (Z.shiftr (flag_word s 0) 2) 0x3f.

Definition SET_BCH_SB_VERSION_INCOMPAT_ALLOWED (s : bch_sb) (value : Z) : bch_sb :=
  set_flags s (<[5%nat := Z.lor (Z.ldiff (flag_word s 5) (Z.shiftl 0xffff 48)) (Z.shiftl value 48)]> (flags s)).

Definition validate_member (member : bch_member) (s : bch_sb) : Z :=
  let BCH_MEMBER_NBUCKETS_MAX := 2 ^ 31 - 1 - 64 in
  let BCH_MIN_NR_NBUCKETS := 2 ^ 9 in
  let BCH_MI_BTREE_BITMAP_SHIFT_MAX := 58 in
  if BCH_MEMBER_NBUCKETS_MAX <? m_nbuckets member then BCH_ERR_invalid_sb_members else
  if wsub 64 (m_nbuckets member) (m_first_bucket member) <? BCH_MIN_NR_NBUCKETS
  then BCH_ERR_invalid_sb_members else
  if m_bucket_size member <? block_size s then BCH_ERR_invalid_sb_members else
  if m_bucket_size member <? BCH_SB_BTREE_NODE_SIZE s then BCH_ERR_invalid_sb_members else
  if BCH_MI_BTREE_BITMAP_SHIFT_MAX <=? m_btree_bitmap_shift member then BCH_ERR_invalid_sb_members else
  if negb (Z.land (m_flags member) (2 ^ 30) =? 0) && negb (Z.land (features s !!! O) (2 ^ 21) =? 0)
  then BCH_ERR_invalid_sb_members else 0.

Fixpoint validate_members (s : bch_sb) (data : list Z) (k : nat) (indices : list nat) : option Z :=
  match indices with
  | [] => Some 0
  | index :: rest =>
      m ← bch2_members_v2_get data (Some k) index;
      let ret := validate_member m s in
      if negb (ret =? 0) then Some ret else validate_members s data k rest
  end.

Definition bch2_sb_members_v2_validate (s : bch_sb) (data : list Z) (field : nat) : option Z :=
  members ← members_at data field;
  let required := 16 + nr_devices s * member_bytes members in
  if f_u64s (mv_field members) * 8 <? required then Some BCH_ERR_invalid_sb_members else
  validate_members s data field (seq 0 (Z.to_nat (nr_devices s))).

Definition bch2_sb_field_journal_v2_nr_entries (f : bch_sb_field) : option Z :=
  n ← usub (f_u64s f) 1; Some (n / 2).

Definition journal_entry (data : list Z) (field i : nat) : option bch_sb_field_journal_v2_entry :=
  s ← data !! (field + 1 + 2 * i)%nat;
  n ← data !! (field + 2 + 2 * i)%nat;
  Some (mk_bch_sb_field_journal_v2_entry s n).

(** The ranges and their total length, [None] inside for an empty or
    wrapping range. *)
Fixpoint journal_ranges (entries : list bch_sb_field_journal_v2_entry) (sum : Z)
  : option (list (Z * Z) * Z) :=
  match entries with
  | [] => Some ([], sum)
  | e :: rest =>
      let end_ := wadd 64 (start e) (nr e) in
      if end_ <=? start e then None else
      '(ranges, sum) ← journal_ranges rest (wadd 64 sum (nr e));
      Some ((start e, end_) :: ranges, sum)
  end.

Definition range_le (a b : Z * Z) : Prop := a.1 <= b.1.
#[local] Instance range_le_dec a b : Decision (range_le a b) := decide (a.1 <= b.1).

Fixpoint ranges_overlap (ranges : list (Z * Z)) : bool :=
  match ranges with
  | a :: (b :: _) as rest => (b.1 <? a.2) || ranges_overlap rest
  | _ => false
  end.

(** The checks on the sorted ranges, on the member of this device. *)
Definition check_ranges (ranges : list (Z * Z)) (member : bch_member) (sum : Z) : option Z :=
  first ← ranges !! O;
  last ← last ranges;
  if first.1 =? 0 then Some BCH_ERR_invalid_sb_journal else
  if first.1 <? m_first_bucket member then Some BCH_ERR_invalid_sb_journal else
  if m_nbuckets member <? last.2 then Some BCH_ERR_invalid_sb_journal else
  if ranges_overlap ranges then Some BCH_ERR_invalid_sb_journal else
  if 2 ^ 32 - 1 <? sum then Some BCH_ERR_invalid_sb_journal else
  Some 0.

Definition bch2_sb_journal_v2_validate (s : bch_sb) (data : list Z) (field : nat) : option Z :=
  f ← field_at data field;
  member ← bch2_sb_member_get s data (Z.to_nat (dev_idx s));
  n ← bch2_sb_field_journal_v2_nr_entries f;
  if n =? 0 then Some 0 else
  entries ← mapM (journal_entry data field) (seq 0 (Z.to_nat n));
  match journal_ranges entries 0 with
  | None => Some BCH_ERR_invalid_sb_journal
  | Some (ranges, sum) => check_ranges (merge_sort range_le ranges) member sum
  end.

Definition bch2_sb_field_validate (s : bch_sb) (data : list Z) (field : nat) : option Z :=
  f ← field_at data field;
  if f_type f =? BCH_SB_FIELD_journal_v2 then bch2_sb_journal_v2_validate s data field else
  if f_type f =? BCH_SB_FIELD_members_v2 then bch2_sb_members_v2_validate s data field else
  Some BCH_ERR_invalid_sb_field_type.

(** The two walks over the fields. *)
Fixpoint sizes_loop (fuel : nat) (data : list Z) (last field : nat) : option Z :=
  if (field <? last)%nat then
    match fuel with
    | O => None
    | S fuel =>
        f ← field_at data field;
        next ← vstruct_next data field;
        if (f_u64s f =? 0) || (last <? next)%nat then Some BCH_ERR_invalid_sb_field_size
        else sizes_loop fuel data last next
    end
  else Some 0.

Fixpoint fields_loop (fuel : nat) (s : bch_sb) (data : list Z) (last field : nat) : option Z :=
  if (field <? last)%nat then
    match fuel with
    | O => None
    | S fuel =>
        ret ← bch2_sb_field_validate s data field;
        if negb (ret =? 0) then Some ret else
        next ← vstruct_next data field;
        fields_loop fuel s data last next
    end
  else Some 0.

Definition BCH_VALIDATE_WRITE : Z := 2 ^ 0.
Definition BCH_FEATURE_NR : Z := 24.

(** The first feature bit this version does not know, or 0. *)
Definition incompat_bit (s : bch_sb) : Z :=
  let incompat := Z.land (features s !!! O) (Z.shiftl (MAX 64) BCH_FEATURE_NR mod 2 ^ 64) in
  if negb (incompat =? 0) then trailing_zeros 64 incompat
  else if negb (features s !!! 1%nat =? 0) then 64 + trailing_zeros 64 (features s !!! 1%nat)
  else 0.

(** The checks of the header, before anything is changed. *)
Definition check_header (s : bch_sb) (no_version_check : bool) (read_offset fl : Z) : Z :=
  let ret := bch2_sb_compatible s in
  if negb (ret =? 0) then ret else
  if negb no_version_check &&
     (negb (incompat_bit s =? 0)
      || (BCH_VERSION_MAJOR bcachefs_metadata_version_current <? BCH_VERSION_MAJOR (version s))
      || (bcachefs_metadata_version_current <? BCH_SB_VERSION_INCOMPAT s))
  then BCH_ERR_invalid_sb_features else
  if forallb (fun b => b =? 0) (user_uuid s) || forallb (fun b => b =? 0) (uuid s)
  then BCH_ERR_invalid_sb_uuid else
  if (Z.land fl BCH_VALIDATE_WRITE =? 0) && negb (offset s =? read_offset)
  then BCH_ERR_invalid_sb_offset else
  if nr_devices s =? 0 then BCH_ERR_invalid_sb_too_many_members else
  if nr_devices s <=? dev_idx s then BCH_ERR_invalid_sb_dev_idx else
  if (time_precision s =? 0) || (1000000000 <? time_precision s)
  then BCH_ERR_invalid_sb_time_precision else 0.

(** The repairs of the version fields and the multi-device flag; the result
    is an error on write. *)
Definition repair_header (s : bch_sb) (fl : Z) : Z * bch_sb :=
  let s := if version s <? BCH_SB_VERSION_INCOMPAT_ALLOWED s
           then SET_BCH_SB_VERSION_INCOMPAT_ALLOWED s (version s) else s in
  let too_new := BCH_SB_VERSION_INCOMPAT_ALLOWED s <? BCH_SB_VERSION_INCOMPAT s in
  if too_new && negb (Z.land fl BCH_VALIDATE_WRITE =? 0) then (BCH_ERR_invalid_sb_version, s) else
  let s := if too_new then SET_BCH_SB_VERSION_INCOMPAT_ALLOWED s (BCH_SB_VERSION_INCOMPAT s) else s in
  (0, if 1 <? nr_devices s then set_flags s (<[3%nat := Z.lor (flag_word s 3) (2 ^ 63)]> (flags s)) else s).

(** Everything behind the header. *)
Definition validate_fields (s : bch_sb) (data : list Z) (fl : Z) : option Z :=
  let last := vstruct_last s in
  ret ← sizes_loop last data last 0;
  if negb (ret =? 0) then Some ret else
  members ← bch2_sb_field_get_id s data BCH_SB_FIELD_members_v2;
  match members with
  | None => Some BCH_ERR_invalid_sb_members_missing
  | Some k =>
      ret ← bch2_sb_field_validate s data k;
      if negb (ret =? 0) then Some ret else
      ret ← fields_loop last s data last 0;
      if negb (ret =? 0) then Some ret else
      if negb (Z.land fl BCH_VALIDATE_WRITE =? 0) then
        m ← bch2_sb_member_get s data (Z.to_nat (dev_idx s));
        Some (if negb (m_seq m =? sb_seq s) then BCH_ERR_invalid_sb_members_missing else 0)
      else Some 0
  end.

Definition bch2_sb_validate (s : bch_sb) (data : list Z) (no_version_check : bool) (read_offset fl : Z)
  : option (Z * bch_sb) :=
  let ret := check_header s no_version_check read_offset fl in
  if negb (ret =? 0) then Some (ret, s) else
  let '(ret, s) := repair_header s fl in
  if negb (ret =? 0) then Some (ret, s) else
  ret ← validate_sb_layout (layout s);
  if negb (ret =? 0) then Some (ret, s) else
  ret ← validate_fields s data fl;
  Some (ret, s).

(** ** The fields as a list

    [(t, payload)] is a field of type [t]. *)

Definition enc (f : Z * list Z) : list Z := (f.1 * 2 ^ 32 + (1 + Z.of_nat (length f.2))) :: f.2.
Definition encs (fs : list (Z * list Z)) : list Z := concat (map enc fs).

Definition field_ok (f : Z * list Z) : Prop := 0 <= f.1 /\ 1 + Z.of_nat (length f.2) < 2 ^ 32.

(** The words behind the header are the fields [fs] and unused space. *)
Definition rep (s : bch_sb) (data : list Z) (fs : list (Z * list Z)) : Prop :=
  Forall field_ok fs /\ u64s s = Z.of_nat (length (encs fs)) /\ exists slack, data = encs fs ++ slack.

(** The handle holds a buffer of [buffer_size] bytes with the fields [fs]. *)
Definition handle_rep (h : bch_sb_handle) (s : bch_sb) (data : list Z) (fs : list (Z * list Z)) : Prop :=
  sb h = Some (s, data) /\ buffer_size h = 8 * (94 + Z.of_nat (length data)) /\ rep s data fs.

(** What changing the length of a field means: the first field of the type
    is cut or extended with zeroes, removed when the length is 0, and added
    behind the others when there is none. *)
Fixpoint resize_field (t : Z) (n : nat) (fs : list (Z * list Z)) : list (Z * list Z) :=
  match fs with
  | [] => if (n =? 0)%nat then [] else [(t, replicate (n - 1) 0)]
  | f :: rest =>
      if f.1 =? t
      then (if (n =? 0)%nat then rest else (t, resize (n - 1) 0 f.2) :: rest)
      else f :: resize_field t n rest
  end.

(** The offset and the length of the first field of a type. *)
Fixpoint field_offset (t : Z) (fs : list (Z * list Z)) : option nat :=
  match fs with
  | [] => None
  | f :: rest => if f.1 =? t then Some O else k ← field_offset t rest; Some (length (enc f) + k)%nat
  end.

Lemma encs_cons f fs : encs (f :: fs) = enc f ++ encs fs.
Proof. done. Qed.

Lemma encs_app fs gs : encs (fs ++ gs) = encs fs ++ encs gs.
Proof. unfold encs. by rewrite map_app, concat_app. Qed.

Lemma length_enc f : length (enc f) = S (length f.2).
Proof. done. Qed.

Lemma length_encs_ge fs : (length fs <= length (encs fs))%nat.
Proof. induction fs as [|f fs IH]; [done|]. rewrite encs_cons, length_app, length_enc. cbn. lia. Qed.

(** The first word of a field in the buffer. *)
Lemma field_at_enc pre f rest : field_ok f ->
  field_at (pre ++ enc f ++ rest) (length pre) = Some (mk_bch_sb_field (Z.of_nat (length (enc f))) f.1).
Proof.
  intros [Ht Hl]. unfold field_at. unfold enc at 1. cbn [app]. rewrite list_lookup_middle by done. bind_simpl.
  rewrite length_enc. do 2 f_equal.
  - rewrite Z.add_comm, Z.mod_add by lia. rewrite Z.mod_small by lia. lia.
  - rewrite Z.add_comm, Z.div_add by lia. rewrite Z.div_small by lia. lia.
Qed.

Lemma vstruct_next_enc pre f rest : field_ok f ->
  vstruct_next (pre ++ enc f ++ rest) (length pre) = Some (length pre + length (enc f))%nat.
Proof. intros Hf. unfold vstruct_next. rewrite field_at_enc by done. bind_simpl. cbn [f_u64s]. by rewrite Nat2Z.id. Qed.

Lemma get_id_loop_spec t fs : Forall field_ok fs -> forall fuel pre rest, (length fs <= fuel)%nat ->
  get_id_loop fuel (pre ++ encs fs ++ rest) (length pre + length (encs fs)) t (length pre)
  = Some (Nat.add (length pre) <$> field_offset t fs).
Proof.
  induction 1 as [|f fs Hf _ IH]; intros fuel pre rest Hfuel.
  - cbn [encs map concat length field_offset fmap option_fmap option_map]. rewrite Nat.add_0_r.
    destruct fuel; cbn [get_id_loop]; by rewrite Nat.ltb_irrefl.
  - destruct fuel as [|fuel]; [cbn in Hfuel; lia|]. cbn [length] in Hfuel.
    rewrite encs_cons, length_app, <- app_assoc. cbn [get_id_loop].
    replace (length pre <? _)%nat with true by (symmetry; apply Nat.ltb_lt; rewrite length_enc; lia).
    rewrite field_at_enc, vstruct_next_enc by done. bind_simpl. cbn [f_type field_offset].
    destruct (f.1 =? t); [cbn; by rewrite Nat.add_0_r|].
    specialize (IH fuel (pre ++ enc f) rest ltac:(lia)). rewrite length_app, <- !app_assoc in IH.
    replace (length pre + length (enc f) + length (encs fs))%nat
      with (length pre + (length (enc f) + length (encs fs)))%nat in IH by lia.
    rewrite IH. destruct (field_offset t fs); cbn; [do 2 f_equal; lia|done].
Qed.

Lemma get_id_spec s data fs t : rep s data fs ->
  bch2_sb_field_get_id s data t = Some (field_offset t fs).
Proof.
  intros (Hf & Hu & slack & ->). unfold bch2_sb_field_get_id, vstruct_last. rewrite Hu, Nat2Z.id.
  pose proof (get_id_loop_spec t fs Hf (length (encs fs)) [] slack (length_encs_ge fs)) as H.
  cbn in H. rewrite H. by destruct (field_offset t fs).
Qed.

(** Either there is no field of the type, or the list splits at the first. *)
Lemma field_offset_split t fs :
  (field_offset t fs = None /\ forall n, resize_field t n fs =
     fs ++ (if (n =? 0)%nat then [] else [(t, replicate (n - 1) 0)])) \/
  exists A p B, fs = A ++ (t, p) :: B /\ field_offset t fs = Some (length (encs A)) /\
    forall n, resize_field t n fs = A ++ (if (n =? 0)%nat then B else (t, resize (n - 1) 0 p) :: B).
Proof.
  induction fs as [|[t' p] fs IH]; [by left|]. cbn [field_offset resize_field fst snd].
  destruct (Z.eqb_spec t' t) as [->|Hne]; [right; by exists [], p, fs|].
  destruct IH as [[E Hr]|(A & q & B & -> & E & Hr)].
  - left. rewrite E. split; [done|]. intros n. by rewrite Hr.
  - right. exists ((t', p) :: A), q, B. rewrite E. split; [done|]. split.
    + bind_simpl. by rewrite encs_cons, length_app.
    + intros n. by rewrite Hr.
Qed.

Lemma fill_app A B C n : length B = n -> fill (A ++ B ++ C) (length A) n = Some (A ++ replicate n 0 ++ C).
Proof.
  intros <-. unfold fill. rewrite !length_app, (proj2 (Nat.leb_le _ _)) by lia.
  rewrite take_app_length, (app_assoc A B C), <- length_app, drop_app_length. done.
Qed.

Lemma copy_app data A B C D src dst : data = A ++ B ++ C -> length A = src ->
  (dst + length B <= length data)%nat -> D = take dst data ->
  copy data src dst (length B) = Some (D ++ B ++ drop (dst + length B) data).
Proof.
  intros -> <- Hd ->. unfold copy. rewrite (proj2 (Nat.leb_le _ _)) by (rewrite !length_app; lia).
  rewrite (proj2 (Nat.leb_le _ _)) by done. cbn [andb]. by rewrite drop_app_length, take_app_length.
Qed.

Lemma set_u64s_enc A t p rest n : field_ok (t, p) ->
  set_field_u64s (A ++ enc (t, p) ++ rest) (length A) n = Some (A ++ (t * 2 ^ 32 + n) :: p ++ rest).
Proof.
  intros Hf. unfold set_field_u64s. rewrite field_at_enc by done. bind_simpl. cbn [f_type fst].
  rewrite insert_app_r_alt by lia. by rewrite Nat.sub_diag.
Qed.

(** Removing, shrinking and growing: [a] and [b] are the words before and
    behind the field. *)
Lemma move_remove s a e b slack : vstruct_last s = length (a ++ e ++ b) -> e <> [] ->
  exists slack', move_fields s (a ++ e ++ b ++ slack) (length a) (Z.of_nat (length e)) 0
    = Some (a ++ b ++ slack') /\ length (b ++ slack') = length (e ++ b ++ slack).
Proof.
  intros Hl He. unfold move_fields. rewrite Nat2Z.id, Hl. cbn [Z.eqb negb Z.to_nat]. bind_simpl.
  rewrite (proj2 (assert_true _)) by (apply Nat.leb_le; rewrite !length_app; lia). bind_simpl.
  replace (length (a ++ e ++ b) - (length a + length e))%nat with (length b) by (rewrite !length_app; lia).
  rewrite Nat.add_0_r.
  rewrite (copy_app _ (a ++ e) b slack a) by
    first [by rewrite <- app_assoc | by rewrite length_app | rewrite !length_app; lia | by rewrite take_app_length].
  bind_simpl. replace (_ <? _)%nat with false by (symmetry; apply Nat.ltb_ge; lia).
  eexists. split; [reflexivity|]. rewrite !length_app, length_drop, !length_app. lia.
Qed.

Lemma move_shrink s a t p b slack m : field_ok (t, p) -> vstruct_last s = length (a ++ enc (t, p) ++ b) ->
  (m <= length p)%nat -> exists slack',
  move_fields s (a ++ enc (t, p) ++ b ++ slack) (length a) (Z.of_nat (length (enc (t, p)))) (Z.of_nat (S m))
    = Some (a ++ ((t * 2 ^ 32 + Z.of_nat (S m)) :: take m p) ++ b ++ slack') /\
  (S m + length (b ++ slack') = length (enc (t, p) ++ b ++ slack))%nat.
Proof.
  intros Hf Hl Hm. unfold move_fields. rewrite !Nat2Z.id, Hl. cbn [Z.eqb negb].
  replace (Z.of_nat (S m) =? 0) with false by (symmetry; apply Z.eqb_neq; lia). cbn [negb].
  rewrite set_u64s_enc by done. bind_simpl. set (w := t * 2 ^ 32 + _).
  rewrite (proj2 (assert_true _)) by (apply Nat.leb_le; rewrite !length_app; lia). bind_simpl.
  replace (length (a ++ enc (t, p) ++ b) - (length a + length (enc (t, p))))%nat
    with (length b) by (rewrite !length_app; lia).
  rewrite (copy_app _ (a ++ w :: p) b slack (a ++ w :: take m p)).
  - bind_simpl. replace (_ <? _)%nat with false by (symmetry; apply Nat.ltb_ge; rewrite length_enc; cbn; lia).
    eexists. split; [by rewrite <- app_assoc|]. rewrite !length_app, length_drop, !length_app.
    cbn [length enc snd]. rewrite !length_app. lia.
  - rewrite <- app_assoc. done.
  - rewrite length_app. done.
  - rewrite !length_app. cbn [length]. rewrite !length_app. lia.
  - rewrite take_app_add. cbn [firstn]. by rewrite take_app_le.
Qed.

Lemma move_grow s a t p b slack m : field_ok (t, p) -> vstruct_last s = length (a ++ enc (t, p) ++ b) ->
  (length p < m)%nat -> (m <= length p + length slack)%nat -> exists slack',
  move_fields s (a ++ enc (t, p) ++ b ++ slack) (length a) (Z.of_nat (length (enc (t, p)))) (Z.of_nat (S m))
    = Some (a ++ ((t * 2 ^ 32 + Z.of_nat (S m)) :: p ++ replicate (m - length p) 0) ++ b ++ slack') /\
  (S m + length (b ++ slack') = length (enc (t, p) ++ b ++ slack))%nat.
Proof.
  intros Hf Hl Hm Hs. unfold move_fields. rewrite !Nat2Z.id, Hl.
  replace (Z.of_nat (S m) =? 0) with false by (symmetry; apply Z.eqb_neq; lia). cbn [negb].
  rewrite set_u64s_enc by done. bind_simpl. set (w := t * 2 ^ 32 + _).
  rewrite (proj2 (assert_true _)) by (apply Nat.leb_le; rewrite !length_app; lia). bind_simpl.
  replace (length (a ++ enc (t, p) ++ b) - (length a + length (enc (t, p))))%nat
    with (length b) by (rewrite !length_app; lia).
  set (gap := take (m - length p) (b ++ slack)).
  assert (length gap = m - length p)%nat as Hgap by (unfold gap; rewrite length_take, length_app; lia).
  rewrite (copy_app _ (a ++ w :: p) b slack ((a ++ w :: p) ++ gap)).
  - bind_simpl. replace (_ <? _)%nat with true by (symmetry; apply Nat.ltb_lt; rewrite length_enc; cbn; lia).
    set (tail := drop _ _). rewrite <- app_assoc.
    replace (length a + length (enc (t, p)))%nat with (length (a ++ w :: p)) by by rewrite length_app.
    rewrite fill_app by (rewrite Hgap, length_app; cbn [length]; lia).
    exists tail. split.
    + rewrite length_app. cbn [length]. replace (_ - _)%nat with (m - length p)%nat by lia.
      rewrite <- app_assoc. cbn [app]. by rewrite <- app_assoc.
    + unfold tail. rewrite !length_app, length_drop, length_app. cbn [length enc snd]. rewrite !length_app. lia.
  - rewrite <- app_assoc. done.
  - rewrite length_app. done.
  - rewrite !length_app. cbn [length]. rewrite !length_app. lia.
  - rewrite take_app_add. rewrite <- app_assoc. f_equal. cbn [firstn app]. f_equal.
    rewrite take_app_ge by lia. done.
Qed.

Lemma set_type_enc A t t' p rest : field_ok (t, p) ->
  set_field_type (A ++ enc (t, p) ++ rest) (length A) t' = Some (A ++ enc (t', p) ++ rest).
Proof.
  intros Hf. unfold set_field_type. rewrite field_at_enc by done. bind_simpl. cbn [f_u64s].
  rewrite insert_app_r_alt by lia. rewrite Nat.sub_diag, length_enc. cbn. repeat f_equal. lia.
Qed.

Lemma append_field_spec s a slack n : vstruct_last s = length a -> (S n <= length slack)%nat ->
  Z.of_nat (S n) < 2 ^ 32 ->
  append_field s (a ++ slack) (Z.of_nat (S n))
  = Some (length a, a ++ enc (0, replicate n 0) ++ drop (S n) slack).
Proof.
  intros Hl Hs Hn. unfold append_field. rewrite Hl, Nat2Z.id.
  rewrite <- (take_drop (S n) slack) at 1. rewrite fill_app by (rewrite length_take; lia). bind_simpl.
  unfold set_field_u64s, field_at. cbn [replicate app]. rewrite list_lookup_middle by done. bind_simpl.
  rewrite insert_app_r_alt, Nat.sub_diag by lia. cbn [insert list_insert f_type]. bind_simpl.
  assert (field_ok (0, replicate n 0)) as Hf by (split; cbn [fst snd]; rewrite ?length_replicate; lia).
  replace (0 / 2 ^ 32 * 2 ^ 32 + Z.of_nat (S n) :: replicate n 0 ++ drop (S n) slack)
    with (enc (0, replicate n 0) ++ drop (S n) slack).
  - by rewrite set_type_enc.
  - unfold enc. cbn [fst snd app]. rewrite length_replicate. f_equal. change (0 / 2 ^ 32) with 0. lia.
Qed.

Lemma length_encs_app_le A f B : (length (enc f) <= length (encs (A ++ f :: B)))%nat.
Proof. rewrite encs_app, encs_cons, !length_app. lia. Qed.

(** The checks common to both cases of [__bch2_sb_field_resize]. *)
Lemma resize_checks h s data fs old n : handle_rep h s data fs -> (old <= length (encs fs))%nat ->
  u64s s + Z.of_nat n < 2 ^ 32 -> (length (encs fs) + n <= length data + old)%nat ->
  uadd 32 (u64s s) (Z.of_nat n) = Some (u64s s + Z.of_nat n) /\
  usub (u64s s + Z.of_nat n) (Z.of_nat old) = Some (Z.of_nat (length (encs fs) + n - old)) /\
  assert (__vstruct_bytes (Z.of_nat (length (encs fs) + n - old)) <=? buffer_size h) = Some tt.
Proof.
  intros (_ & Hb & _ & Hu & _) Ho Hn Hc. rewrite uadd_ok, usub_ok by lia. split; [done|]. split; [f_equal; lia|].
  apply assert_true, Z.leb_le. unfold __vstruct_bytes, sizeof_bch_sb. lia.
Qed.

(** The fields after the length of the one between [A] and [B] changed. *)
Definition resized A t (p : list Z) B (n : nat) : list (Z * list Z) :=
  A ++ (if (n =? 0)%nat then B else (t, resize (n - 1) 0 p) :: B).

Lemma move_fields_spec s A t p B slack n : field_ok (t, p) ->
  vstruct_last s = length (encs (A ++ (t, p) :: B)) -> (n <= length (enc (t, p)) + length slack)%nat ->
  exists slack', move_fields s (encs (A ++ (t, p) :: B) ++ slack) (length (encs A))
      (Z.of_nat (length (enc (t, p)))) (Z.of_nat n) = Some (encs (resized A t p B n) ++ slack') /\
    length (encs (resized A t p B n) ++ slack') = length (encs (A ++ (t, p) :: B) ++ slack).
Proof.
  intros Hf Hl Hn. rewrite encs_app, encs_cons in *. rewrite <- !app_assoc. unfold resized.
  destruct n as [|m]; cbn [Nat.eqb].
  - destruct (move_remove s (encs A) (enc (t, p)) (encs B) slack Hl ltac:(done)) as (slack' & E & Hs').
    change (Z.of_nat 0) with 0. rewrite E. exists slack'. rewrite encs_app, <- app_assoc. split; [done|].
    by rewrite !(length_app (encs A)), Hs'.
  - rewrite encs_app, encs_cons. replace (S m - 1)%nat with m by lia. rewrite length_enc in Hn. cbn [snd] in Hn.
    destruct (le_lt_dec m (length p)) as [Hm|Hm].
    + destruct (move_shrink s (encs A) t p (encs B) slack m Hf Hl Hm) as (slack' & -> & Hs').
      exists slack'. rewrite <- !app_assoc, resize_le by done.
      replace (enc (t, take m p)) with ((t * 2 ^ 32 + Z.of_nat (S m)) :: take m p)
        by (unfold enc; cbn [fst snd]; rewrite length_take; repeat f_equal; lia).
      split; [done|]. rewrite !(length_app (encs A)), <- Hs'. cbn [length app].
      rewrite !length_app, length_take. lia.
    + destruct (move_grow s (encs A) t p (encs B) slack m Hf Hl Hm ltac:(lia)) as (slack' & -> & Hs').
      exists slack'. rewrite <- !app_assoc, resize_ge by lia.
      replace (enc (t, p ++ replicate (m - length p) 0))
        with ((t * 2 ^ 32 + Z.of_nat (S m)) :: p ++ replicate (m - length p) 0)
        by (unfold enc; cbn [fst snd]; rewrite length_app, length_replicate; repeat f_equal; lia).
      split; [done|]. rewrite !(length_app (encs A)), <- Hs'. cbn [length app].
      rewrite !length_app, length_replicate. lia.
Qed.

Lemma resized_ok A t p B n : Forall field_ok (A ++ (t, p) :: B) -> Z.of_nat n < 2 ^ 32 ->
  Forall field_ok (resized A t p B n).
Proof.
  intros [HA HB]%Forall_app Hn. apply Forall_cons_1 in HB as [Hf HB]. apply Forall_app. split; [done|].
  destruct n as [|m]; cbn [Nat.eqb]; [done|]. constructor; [|done].
  split; [apply Hf|]. cbn [snd]. rewrite length_resize. lia.
Qed.

Lemma length_resized A t p B n :
  length (encs (resized A t p B n)) = (length (encs (A ++ (t, p) :: B)) + n - length (enc (t, p)))%nat.
Proof.
  unfold resized. rewrite !encs_app, encs_cons, !length_app. destruct n as [|m]; cbn [Nat.eqb]; [lia|].
  rewrite encs_cons, length_app, !length_enc. cbn [snd]. rewrite length_resize. lia.
Qed.

Lemma resize_found h s data A t p B n : handle_rep h s data (A ++ (t, p) :: B) ->
  u64s s + Z.of_nat n < 2 ^ 32 ->
  (length (encs (A ++ (t, p) :: B)) + n <= length data + length (enc (t, p)))%nat ->
  exists data' h', __bch2_sb_field_resize h (Some (length (encs A))) (Z.of_nat n)
    = Some (if (n =? 0)%nat then None else Some (length (encs A)), h') /\ h_flags h' = h_flags h /\
    handle_rep h' (set_u64s s (Z.of_nat (length (encs (resized A t p B n))))) data' (resized A t p B n).
Proof.
  intros Hr Hn Hc. pose proof Hr as (Hsb & Hb & Hfs & Hu & slack & Hd).
  destruct (resize_checks h s _ _ (length (enc (t, p))) n Hr (length_encs_app_le _ _ _) Hn Hc) as (E1 & E2 & E3).
  assert (field_ok (t, p)) as Hf by (apply Forall_app in Hfs as [_ HB]; by inversion HB).
  unfold __bch2_sb_field_resize. rewrite Hsb. bind_simpl. unfold field_u64s. rewrite Hd in *.
  assert (field_at (encs (A ++ (t, p) :: B) ++ slack) (length (encs A))
          = Some (mk_bch_sb_field (Z.of_nat (length (enc (t, p)))) t)) as ->
    by (rewrite encs_app, encs_cons, <- !app_assoc; by apply (field_at_enc _ (t, p))).
  bind_simpl. cbn [f_u64s]. rewrite E1. bind_simpl. rewrite E2. bind_simpl. rewrite E3. bind_simpl.
  destruct (move_fields_spec s A t p B slack n Hf) as (slack' & -> & Hlen).
  { unfold vstruct_last. by rewrite Hu, Nat2Z.id. }
  { rewrite length_app in Hc. lia. }
  bind_simpl. do 2 eexists. split; [destruct n; done|]. split; [done|]. split; [|split; [|split; [|split]]].
  - cbn [sb]. by rewrite length_resized.
  - cbn [buffer_size]. by rewrite Hlen.
  - apply resized_ok; [done|lia].
  - done.
  - by exists slack'.
Qed.

Lemma resize_absent h s data fs n : handle_rep h s data fs -> u64s s + Z.of_nat (S n) < 2 ^ 32 ->
  (length (encs fs) + S n <= length data)%nat ->
  exists data' h', __bch2_sb_field_resize h None (Z.of_nat (S n)) = Some (Some (length (encs fs)), h') /\
    h_flags h' = h_flags h /\
    handle_rep h' (set_u64s s (Z.of_nat (length (encs (fs ++ [(0, replicate n 0)]))))) data'
      (fs ++ [(0, replicate n 0)]).
Proof.
  intros Hr Hn Hc. pose proof Hr as (Hsb & Hb & Hfs & Hu & slack & Hd).
  destruct (resize_checks h s _ _ 0%nat (S n) Hr ltac:(lia) Hn ltac:(lia)) as (E1 & E2 & E3).
  unfold __bch2_sb_field_resize. rewrite Hsb. bind_simpl. unfold field_u64s. bind_simpl.
  rewrite E1. bind_simpl. change (Z.of_nat 0) with 0 in E2. rewrite E2. bind_simpl. rewrite E3. bind_simpl.
  replace (Z.of_nat (S n) =? 0) with false by (symmetry; apply Z.eqb_neq; lia). cbn [negb].
  rewrite Hd in *. rewrite length_app in Hc.
  rewrite append_field_spec by (unfold vstruct_last; rewrite ?Hu, ?Nat2Z.id; lia || done). bind_simpl.
  assert (length (encs (fs ++ [(0, replicate n 0)])) = (length (encs fs) + S n)%nat) as Hl
    by (rewrite encs_app, encs_cons, !length_app, length_enc; cbn [snd encs map concat length];
        rewrite length_replicate; lia).
  do 2 eexists. split; [done|]. split; [done|]. split; [|split; [|split; [|split]]].
  - cbn [sb]. do 3 f_equal. lia.
  - cbn [buffer_size]. rewrite Hb, !length_app, length_drop, length_enc. cbn [snd]. rewrite length_replicate. lia.
  - apply Forall_app. split; [done|]. constructor; [|done]. split; cbn [fst snd]; rewrite ?length_replicate; lia.
  - done.
  - exists (drop (S n) slack). rewrite encs_app, <- app_assoc. by rewrite encs_cons, <- app_assoc.
Qed.

Lemma next_pow2_ge x : 752 <= x -> x <= next_power_of_two x /\ next_power_of_two x mod 8 = 0.
Proof.
  intros Hx. unfold next_power_of_two. destruct (Z.leb_spec x 1); [lia|].
  pose proof (bitlen_bound (x - 1) ltac:(lia)). split; [lia|].
  assert (9 < bitlen (x - 1)).
  { destruct (Z.lt_ge_cases 9 (bitlen (x - 1))) as [|Hb]; [done|].
    pose proof (bitlen_nonneg (x - 1)). pose proof (pow2_le (bitlen (x - 1)) 9). lia. }
  replace (bitlen (x - 1)) with ((bitlen (x - 1) - 3) + 3) by lia. rewrite pow2_split by lia.
  change (2 ^ 3) with 8. by rewrite Z.mod_mul by lia.
Qed.

(** The layout on disk has room for [n] words of fields. *)
Definition layout_fits (h : bch_sb_handle) (s : bch_sb) (n : Z) : Prop :=
  Z.land (h_flags h) BCH_SB_HANDLE_HAVE_LAYOUT <> 0 ->
  __vstruct_bytes n <= Z.shiftl 512 (sb_max_size_bits (layout s)) mod 2 ^ 64.

Lemma realloc_spec alloc h s data fs n : handle_rep h s data fs -> 0 <= n ->
  sb_max_size_bits (layout s) < 64 ->
  exists ret h', bch2_sb_realloc alloc h n = Some (ret, h') /\ h_flags h' = h_flags h /\
    (ret = 0 /\ (exists data', handle_rep h' s data' fs /\ n <= Z.of_nat (length data')) \/
     h' = h /\ (ret = BCH_ERR_ENOMEM_sb_buf_realloc /\ alloc = false \/
                ret = BCH_ERR_ENOSPC_sb /\ ~ layout_fits h s n)).
Proof.
  intros Hr Hn Hbits. pose proof Hr as (Hsb & Hb & Hrep). unfold bch2_sb_realloc. rewrite Hsb. cbn [andb].
  assert (752 <= __vstruct_bytes n) as Hv by (unfold __vstruct_bytes, sizeof_bch_sb; lia).
  destruct (next_pow2_ge _ Hv) as [Hge Hmod].
  destruct (Z.leb_spec (next_power_of_two (__vstruct_bytes n)) (buffer_size h)) as [Hle|Hlt].
  { exists 0, h. split; [done|]. split; [done|]. left. split; [done|]. exists data. split; [done|].
    unfold __vstruct_bytes, sizeof_bch_sb in *. lia. }
  set (fits := if negb (Z.land (h_flags h) _ =? 0) then _ else Some true).
  assert (exists b, fits = Some b /\ (b = false -> ~ layout_fits h s n)) as (b & -> & Hfit).
  { unfold fits, layout_fits. destruct (Z.eqb_spec (Z.land (h_flags h) BCH_SB_HANDLE_HAVE_LAYOUT) 0) as [|Hne]; cbn [negb].
    - by exists true.
    - rewrite ushl_ok by done. bind_simpl. eexists. split; [reflexivity|]. intros Hf Hall.
      specialize (Hall Hne). apply Z.leb_gt in Hf. lia. }
  bind_simpl. destruct b; cbn [negb].
  2: { exists BCH_ERR_ENOSPC_sb, h. split; [done|]. split; [done|]. right. split; [done|]. right. auto. }
  destruct alloc; cbn [negb].
  2: { exists BCH_ERR_ENOMEM_sb_buf_realloc, h. split; [done|]. split; [done|]. right. split; [done|]. by left. }
  do 2 eexists. split; [done|]. split; [done|]. left. split; [done|].
  destruct Hrep as (Hfs & Hu & slack & Hd).
  assert (next_power_of_two (__vstruct_bytes n) = 8 * (next_power_of_two (__vstruct_bytes n) / 8)) as H8
    by (apply Z.div_exact; lia).
  set (words := next_power_of_two (__vstruct_bytes n) / 8) in *.
  exists (resize (Z.to_nat (words - 94)) 0 data). unfold __vstruct_bytes, sizeof_bch_sb in *.
  rewrite length_resize. split; [|lia]. split; [done|]. split; [cbn [buffer_size]; rewrite length_resize; lia|].
  split; [done|]. split; [done|]. rewrite resize_ge by lia. rewrite Hd, <- app_assoc. eauto.
Qed.

Lemma field_offset_resized t n fs : n <> O -> field_offset t (resize_field t n fs) =
  Some (default (length (encs fs)) (field_offset t fs)).
Proof.
  intros Hn. induction fs as [|f fs IH]; cbn [resize_field field_offset].
  - rewrite (proj2 (Nat.eqb_neq n 0)) by done. cbn [field_offset fst]. by rewrite Z.eqb_refl.
  - destruct (Z.eqb_spec f.1 t) as [<-|Hne].
    + rewrite (proj2 (Nat.eqb_neq n 0)) by done. cbn [field_offset fst]. by rewrite Z.eqb_refl.
    + cbn [field_offset]. rewrite (proj2 (Z.eqb_neq f.1 t)) by done. rewrite IH. bind_simpl.
      destruct (field_offset t fs); cbn [default option_bind mbind]; [done|].
      by rewrite encs_cons, length_app.
Qed.

Lemma handle_rep_u64s h s data fs : handle_rep h s data fs ->
  set_u64s s (Z.of_nat (length (encs fs))) = s.
Proof. intros (_ & _ & _ & Hu & _). rewrite <- Hu. by destruct s. Qed.

(** [__bch2_sb_field_resize] and the type that its caller sets. *)
Definition resize_and_type (h : bch_sb_handle) (field : option nat) (t : Z) (n : nat)
  : option (option nat * bch_sb_handle) :=
  '(field, h) ← __bch2_sb_field_resize h field (Z.of_nat n);
  match field with
  | None => Some (None, h)
  | Some k =>
      '(s, data) ← sb h;
      data ← set_field_type data k t;
      Some (Some k, mk_bch_sb_handle (Some (s, data)) (buffer_size h) (h_flags h))
  end.

Lemma resize_none h s data fs : handle_rep h s data fs -> u64s s < 2 ^ 32 ->
  __bch2_sb_field_resize h None 0 = Some (None, h).
Proof.
  intros (Hsb & Hb & Hfs & Hu & slack & Hd) Hn. unfold __bch2_sb_field_resize, field_u64s.
  rewrite Hsb. bind_simpl. rewrite uadd_ok by lia. bind_simpl. rewrite usub_ok by lia. bind_simpl.
  rewrite (proj2 (assert_true _)).
  2: { apply Z.leb_le. unfold __vstruct_bytes, sizeof_bch_sb. rewrite Hb, Hd, length_app. lia. }
  bind_simpl. cbn [negb Z.eqb]. destruct h as [sb0 bs fl]. cbn in *. rewrite Hsb.
  replace (u64s s + 0 - 0) with (u64s s) by lia. by destruct s.
Qed.

Lemma resize_type_absent h s data fs t m : handle_rep h s data fs -> 0 <= t ->
  u64s s + Z.of_nat (S m) < 2 ^ 32 -> (length (encs fs) + S m <= length data)%nat ->
  let fs' := fs ++ [(t, replicate m 0)] in
  exists h' data', resize_and_type h None t (S m) = Some (Some (length (encs fs)), h') /\
    handle_rep h' (set_u64s s (Z.of_nat (length (encs fs')))) data' fs'.
Proof.
  intros Hr Ht Hn Hc. unfold resize_and_type.
  destruct (resize_absent h s data fs m Hr Hn Hc) as (data' & h' & -> & Hfl & Hr'). bind_simpl.
  pose proof Hr' as (-> & Hb' & Hfs' & Hu' & slack' & ->). bind_simpl.
  apply Forall_app in Hfs' as [Hfs Hlast]. apply Forall_cons_1 in Hlast as [Hlast _].
  rewrite encs_app, encs_cons, <- !app_assoc. rewrite set_type_enc by done. bind_simpl.
  assert (length (encs (fs ++ [(t, replicate m 0)])) = length (encs (fs ++ [(0, replicate m 0)]))) as Hl
    by (by rewrite !encs_app, !encs_cons, !length_app, !length_enc).
  do 2 eexists. split; [reflexivity|].
  split; [cbn [sb]; rewrite Hl, encs_app, encs_cons; reflexivity|]. split; [|split; [|split]].
  - cbn [buffer_size]. rewrite Hb', encs_app, encs_cons, !length_app, !length_enc. cbn [snd]. rewrite length_replicate. lia.
  - apply Forall_app. split; [done|]. constructor; [|done]. destruct Hlast. by split.
  - done.
  - exists slack'. by rewrite encs_app, encs_cons, <- !app_assoc.
Qed.

Lemma resize_type_found h s data A t p B n : handle_rep h s data (A ++ (t, p) :: B) ->
  u64s s + Z.of_nat n < 2 ^ 32 ->
  (length (encs (resized A t p B n)) <= length data)%nat ->
  exists h' data', resize_and_type h (Some (length (encs A))) t n
    = Some (if (n =? 0)%nat then None else Some (length (encs A)), h') /\
    handle_rep h' (set_u64s s (Z.of_nat (length (encs (resized A t p B n))))) data' (resized A t p B n).
Proof.
  intros Hr Hn Hc. unfold resize_and_type. rewrite length_resized in Hc.
  pose proof (length_encs_app_le A (t, p) B) as Hle.
  destruct (resize_found h s data A t p B n Hr Hn ltac:(lia)) as (data' & h' & -> & Hfl & Hr'). bind_simpl.
  destruct n as [|m]; cbn [Nat.eqb]; [by exists h', data'|].
  pose proof Hr' as (Es & Hb' & Hfs' & Hu' & slack' & ->). rewrite Es. bind_simpl.
  assert (encs (resized A t p B (S m)) ++ slack'
          = encs A ++ enc (t, resize m 0 p) ++ encs B ++ slack') as Hs.
  { unfold resized. cbn [Nat.eqb]. replace (S m - 1)%nat with m by lia.
    by rewrite encs_app, encs_cons, <- !app_assoc. }
  rewrite Hs, set_type_enc, <- Hs.
  2: { apply Forall_app in Hfs' as [_ HB]. cbn [Nat.eqb] in HB. replace (S m - 1)%nat with m in HB by lia.
       by apply Forall_cons_1 in HB as [HB _]. }
  bind_simpl. do 2 eexists. split; [reflexivity|]. split; [done|]. split; [exact Hb'|]. split; [done|]. split; [done|]. by exists slack'.
Qed.

(** Both cases at once. *)
Lemma resize_type_spec h s data fs t n : handle_rep h s data fs -> 0 <= t ->
  u64s s + Z.of_nat n < 2 ^ 32 -> (length (encs (resize_field t n fs)) <= length data)%nat ->
  exists h' data', resize_and_type h (field_offset t fs) t n
    = Some (if (n =? 0)%nat then None else field_offset t (resize_field t n fs), h') /\
    handle_rep h' (set_u64s s (Z.of_nat (length (encs (resize_field t n fs))))) data' (resize_field t n fs).
Proof.
  intros Hr Ht Hn Hc. pose proof (field_offset_resized t n fs) as Hoff.
  destruct (field_offset_split t fs) as [[E Hre]|(A & p & B & -> & E & Hre)]; rewrite E in Hoff |- *; rewrite Hre in *.
  - destruct n as [|m]; cbn [Nat.eqb] in *.
    + rewrite app_nil_r in *. exists h, data. rewrite (handle_rep_u64s h s data fs Hr). split; [|done].
      unfold resize_and_type. change (Z.of_nat 0) with 0. rewrite (resize_none h s data fs Hr) by lia. done.
    + replace (S m - 1)%nat with m in * by lia. rewrite Hoff by done. cbn [default].
      rewrite encs_app, encs_cons, !length_app, length_enc in Hc. cbn [snd] in Hc. rewrite length_replicate in Hc.
      apply (resize_type_absent h s data fs t m); [done..|lia].
  - destruct (resize_type_found h s data A t p B n Hr Hn Hc) as (h' & data' & E' & Hr').
    exists h', data'. split; [|done]. rewrite E'. destruct n as [|m]; cbn [Nat.eqb] in *; [done|].
    by rewrite Hoff.
Qed.

Lemma length_resize_field t n fs : field_offset t fs = None ->
  length (encs (resize_field t n fs)) = (length (encs fs) + n)%nat.
Proof.
  intros E. destruct (field_offset_split t fs) as [[_ Hre]|(A & p & B & _ & E' & _)]; [|congruence].
  rewrite Hre, encs_app, length_app. destruct n as [|m]; [done|]. cbn [Nat.eqb]. rewrite encs_cons, length_app, length_enc.
  cbn. rewrite length_replicate. lia.
Qed.

(** The size computed by [bch2_sb_field_resize_id]. *)
Lemma new_size_spec s data fs t n : rep s data fs -> u64s s + Z.of_nat n < 2 ^ 32 ->
  exists old, field_u64s data (field_offset t fs) = Some old /\
    (u64s s - old + Z.of_nat n) mod 2 ^ 32 = Z.of_nat (length (encs (resize_field t n fs))).
Proof.
  intros (Hfs & Hu & slack & Hd) Hn.
  destruct (field_offset_split t fs) as [[E Hre]|(A & p & B & -> & E & Hre)]; rewrite E; cbn [field_u64s].
  - exists 0. split; [done|]. rewrite length_resize_field by done. rewrite Z.mod_small by lia. lia.
  - rewrite Hd, encs_app, encs_cons, <- !app_assoc, field_at_enc.
    2: { apply Forall_app in Hfs as [_ HB]. by inversion HB. }
    bind_simpl. eexists. split; [reflexivity|]. rewrite Hre.
    change (A ++ (if (n =? 0)%nat then B else (t, resize (n - 1) 0 p) :: B)) with (resized A t p B n).
    rewrite length_resized. pose proof (length_encs_app_le A (t, p) B). cbn [f_u64s]. rewrite Z.mod_small; lia.
Qed.

Lemma resize_id_spec alloc h s data fs t n : handle_rep h s data fs -> 0 <= t ->
  u64s s + Z.of_nat n < 2 ^ 32 -> sb_max_size_bits (layout s) < 64 ->
  Z.land (h_flags h) BCH_SB_HANDLE_FS_SB = 0 ->
  let fs' := resize_field t n fs in
  exists r h', bch2_sb_field_resize_id alloc h t (Z.of_nat n) = Some (r, h') /\
    ((r = (if (n =? 0)%nat then None else field_offset t fs') /\
      exists data', handle_rep h' (set_u64s s (Z.of_nat (length (encs fs')))) data' fs') \/
     (r = None /\ h' = h /\ (alloc = false \/ ~ layout_fits h s (Z.of_nat (length (encs fs')))))).
Proof.
  intros Hr Ht Hn Hbits Hfl fs'. pose proof Hr as (Hsb & _ & Hrep). unfold bch2_sb_field_resize_id.
  rewrite Hsb. bind_simpl. rewrite (get_id_spec s data fs t Hrep). bind_simpl.
  destruct (new_size_spec s data fs t n Hrep Hn) as (old & -> & Esz). bind_simpl. rewrite Esz. fold fs'.
  destruct (realloc_spec alloc h s data fs (Z.of_nat (length (encs fs'))) Hr ltac:(lia) Hbits)
    as (ret & h1 & -> & Hfl1 & [(-> & data1 & Hr1 & Hlen)|(-> & Herr)]); bind_simpl.
  - cbn [Z.eqb negb]. rewrite Hfl1, Hfl. cbn [Z.eqb negb]. pose proof Hr1 as (Hsb1 & _ & Hrep1).
    rewrite Hsb1. bind_simpl. rewrite (get_id_spec s data1 fs t Hrep1). bind_simpl.
    destruct (resize_type_spec h1 s data1 fs t n Hr1 Ht Hn ltac:(unfold fs' in Hlen; lia)) as (h2 & data2 & E & Hr2).
    do 2 eexists. split; [exact E|]. left. split; [done|]. by exists data2.
  - exists None, h. split; [|right; split; [done|split; [done|]]].
    + destruct Herr as [[-> _]|[-> _]]; done.
    + destruct Herr as [[_ ->]|[_ Herr]]; auto.
Qed.

Lemma resize_field_0 t fs : field_offset t fs = None -> resize_field t 0 fs = fs.
Proof.
  intros E. destruct (field_offset_split t fs) as [[_ Hre]|(A & p & B & _ & E' & _)]; [|congruence].
  rewrite Hre. apply app_nil_r.
Qed.

Lemma delete_spec h s data fs t : handle_rep h s data fs -> u64s s < 2 ^ 32 ->
  exists h' data', bch2_sb_field_delete h t = Some h' /\
    handle_rep h' (set_u64s s (Z.of_nat (length (encs (resize_field t 0 fs))))) data' (resize_field t 0 fs).
Proof.
  intros Hr Hn. pose proof Hr as (Hsb & _ & Hrep). unfold bch2_sb_field_delete. rewrite Hsb. bind_simpl.
  rewrite (get_id_spec s data fs t Hrep). bind_simpl.
  destruct (field_offset_split t fs) as [[E Hre]|(A & p & B & -> & E & Hre)]; rewrite E.
  - exists h, data. split; [done|]. rewrite resize_field_0 by done. by rewrite (handle_rep_u64s h s data fs Hr).
  - rewrite Hre. destruct Hrep as (_ & Hu & slack & Hd).
    destruct (resize_found h s data A t p B 0 Hr) as (data' & h' & E' & _ & Hr').
    + lia.
    + rewrite Hd, length_app. lia.
    + change (Z.of_nat 0) with 0 in E'. rewrite E'. bind_simpl. by exists h', data'.
Qed.

(** On a superblock whose buffer holds the fields [fs],
    [bch2_sb_field_get_id] finds the first field of a type,
    [bch2_sb_field_resize_id] cuts or zero-extends exactly that field, adds
    it behind the others or removes it, and leaves every other field, the
    rest of the header and the buffer's size consistent; the only way to
    fail is a buffer that must grow and cannot, which changes nothing.
    [bch2_sb_field_delete] removes the field. *)
Theorem sb_fields_refine_list alloc h s data fs t n
    (Hrep : handle_rep h s data fs) (Ht : 0 <= t) (Hn : u64s s + Z.of_nat n < 2 ^ 32)
    (Hbits : sb_max_size_bits (layout s) < 64) (Hfs : Z.land (h_flags h) BCH_SB_HANDLE_FS_SB = 0) :
  bch2_sb_field_get_id s data t = Some (field_offset t fs) /\
  (exists r h', bch2_sb_field_resize_id alloc h t (Z.of_nat n) = Some (r, h') /\
    ((r = (if (n =? 0)%nat then None else field_offset t (resize_field t n fs)) /\
      exists data', handle_rep h' (set_u64s s (Z.of_nat (length (encs (resize_field t n fs))))) data'
        (resize_field t n fs)) \/
     (r = None /\ h' = h /\
      (alloc = false \/ ~ layout_fits h s (Z.of_nat (length (encs (resize_field t n fs)))))))) /\
  (exists h' data', bch2_sb_field_delete h t = Some h' /\
    handle_rep h' (set_u64s s (Z.of_nat (length (encs (resize_field t 0 fs))))) data' (resize_field t 0 fs)).
Proof.
  split; [apply get_id_spec; apply Hrep|]. split; [by apply (resize_id_spec alloc h s data)|].
  apply (delete_spec h s data fs); [done|lia].
Qed.

(** A superblock with a journal field and a member field. *)
Definition sample_fields : list (Z * list Z) := [(9, [5; 6]); (11, [7; 8; 9])].
Definition sample_handle : bch_sb_handle :=
  mk_bch_sb_handle (Some (set_u64s bch_sb_default 7, encs sample_fields ++ replicate 27 0)) 1024 0.

Lemma sb_fields_refine_list_witness :
  exists r h' data', bch2_sb_field_resize_id true sample_handle 9 5 = Some (r, h') /\ r = Some O /\
    handle_rep h' (set_u64s (set_u64s bch_sb_default 7) 9) data' [(9, [5; 6; 0; 0]); (11, [7; 8; 9])].
Proof.
  destruct (sb_fields_refine_list true sample_handle (set_u64s bch_sb_default 7)
    (encs sample_fields ++ replicate 27 0) sample_fields 9 5) as (_ & (r & h' & E & H) & _).
  - split; [reflexivity|]. split; [vm_compute; reflexivity|]. split; [|split].
    + repeat constructor; cbn; lia.
    + vm_compute. reflexivity.
    + eexists. reflexivity.
  - lia.
  - cbn. lia.
  - cbn. lia.
  - reflexivity.
  - destruct H as [(-> & data' & H)|(_ & _ & [H|H])].
    + do 3 eexists. split; [exact E|]. split; [vm_compute; reflexivity|]. exact H.
    + discriminate H.
    + exfalso. apply H. intros Hl. exfalso. apply Hl. vm_compute. reflexivity.
Defined.

(** ** The layout *)

(** Copies of [n] sectors at these offsets are in order and do not overlap. *)
Definition spaced (n : Z) (offsets : list Z) : Prop :=
  forall i j a b, (i < j)%nat -> offsets !! i = Some a -> offsets !! j = Some b -> a + n <= b.

Lemma spaced_cons2 n a b l : 0 <= n -> spaced n (a :: b :: l) <-> a + n <= b /\ spaced n (b :: l).
Proof.
  intros Hn. split.
  - intros H. split; [apply (H 0%nat 1%nat); [lia|done|done]|]. intros i j x y Hij Hx Hy.
    apply (H (S i) (S j)); [lia|done|done].
  - intros [Hab H] [|i] [|j] x y Hij Hx Hy; try lia.
    + injection Hx as <-. destruct j as [|j]; [cbn in Hy; injection Hy as <-; lia|].
      assert (b + n <= y) by (apply (H 0%nat (S j)); [lia|done|done]). lia.
    + apply (H i j); [lia|done|done].
Qed.

Lemma layout_overlaps_spec n l : 0 < n <= 2 ^ 16 -> forall a, Forall (fun x => 0 <= x <= 2 ^ 64 - 2 ^ 17) (a :: l) ->
  layout_overlaps n a l = false <-> spaced n (a :: l).
Proof.
  intros Hn. induction l as [|b l IH]; intros a Hl.
  - cbn [layout_overlaps]. split; [|done]. intros _ i j x y Hij Hx%lookup_lt_Some Hy%lookup_lt_Some. cbn in *. lia.
  - apply Forall_cons_1 in Hl as [Ha Hl]. cbn [layout_overlaps]. rewrite wadd_small by (unfold in_range; lia).
    rewrite spaced_cons2 by lia. destruct (Z.ltb_spec b (a + n)) as [Hlt|Hge].
    + split; [done|]. intros [? _]. lia.
    + rewrite (IH b Hl). intuition lia.
Qed.

(** A layout is accepted exactly when it has the magic number, type 0,
    between 1 and 61 superblocks of at most [2^16] sectors, and its copies
    lie in ascending order without overlap. *)
Theorem validate_sb_layout_iff l
    (Hlen : length (sb_offset l) = 61%nat) (Hnr : 0 <= nr_superblocks l) (Hbits : 0 <= sb_max_size_bits l)
    (Hoff : Forall (fun x => 0 <= x <= 2 ^ 64 - 2 ^ 17) (sb_offset l)) :
  validate_sb_layout l = Some 0 <->
  l_magic l = BCHFS_MAGIC /\ layout_type l = 0 /\ 1 <= nr_superblocks l <= 61 /\ sb_max_size_bits l <= 16 /\
  spaced (2 ^ sb_max_size_bits l) (take (Z.to_nat (nr_superblocks l)) (sb_offset l)).
Proof.
  unfold validate_sb_layout. rewrite Hlen. change (Z.of_nat 61) with 61.
  case_bool_decide as Hm; cbn [negb]; [|split; [done|by intros []]].
  destruct (Z.eqb_spec (layout_type l) 0) as [Ht|Ht]; cbn [negb]; [|split; [done|by intros (_ & ? & _)]].
  destruct (Z.eqb_spec (nr_superblocks l) 0) as [Hz|Hz]; [split; [done|intros (_ & _ & ? & _); lia]|].
  destruct (Z.ltb_spec 61 (nr_superblocks l)) as [Hb|Hb]; [split; [done|intros (_ & _ & ? & _); lia]|].
  unfold BCH_SB_LAYOUT_SIZE_BITS_MAX.
  destruct (Z.ltb_spec 16 (sb_max_size_bits l)) as [Hs|Hs]; [split; [done|intros (_ & _ & _ & ? & _); lia]|].
  pose proof (pow2_le (sb_max_size_bits l) 16). pose proof (pow2_pos (sb_max_size_bits l)).
  rewrite ushl_small by lia. bind_simpl. rewrite Z.mul_1_l.
  destruct (sb_offset l) as [|a offs] eqn:Eo; [done|]. bind_simpl.
  destruct (Z.to_nat (nr_superblocks l)) as [|k] eqn:Ek; [lia|]. cbn [firstn skipn lookup list_lookup]. bind_simpl.
  assert (Forall (fun x => 0 <= x <= 2 ^ 64 - 2 ^ 17) (a :: take k offs)) as Hoff'
    by (apply Forall_cons_1 in Hoff as [? ?]; constructor; [done|by apply Forall_take]).
  pose proof (layout_overlaps_spec (2 ^ sb_max_size_bits l) (take k offs) ltac:(lia) a Hoff') as Hov. rewrite drop_0.
  destruct (layout_overlaps _ _ _).
  - split; [done|]. intros (_ & _ & _ & _ & Hsp). by apply Hov in Hsp.
  - split; [|done]. intros _. repeat (split; [done || lia|]). by apply Hov.
Qed.

Lemma validate_sb_layout_iff_witness :
  let l := mk_bch_sb_layout BCHFS_MAGIC 0 11 2 (replicate 5 0) ([8; 2056] ++ replicate 59 0) in
  validate_sb_layout l = Some 0 /\ spaced (2 ^ 11) [8; 2056].
Proof.
  pose proof (validate_sb_layout_iff
    (mk_bch_sb_layout BCHFS_MAGIC 0 11 2 (replicate 5 0) ([8; 2056] ++ replicate 59 0))) as H.
  assert (validate_sb_layout
    (mk_bch_sb_layout BCHFS_MAGIC 0 11 2 (replicate 5 0) ([8; 2056] ++ replicate 59 0)) = Some 0) as E
    by (vm_compute; reflexivity).
  split; [exact E|]. apply H; [reflexivity|cbn; lia|cbn; lia| |exact E].
  cbn [sb_offset]. repeat constructor; lia.
Defined.

(** ** The journal's buckets *)

(** The entries are nonempty ranges of buckets of the device, behind its
    first bucket, and do not overlap. *)
Definition journal_ok (entries : list bch_sb_field_journal_v2_entry) (member : bch_member) : Prop :=
  (forall e, e ∈ entries -> 0 < start e /\ m_first_bucket member <= start e /\ 0 < nr e /\
     start e + nr e <= m_nbuckets member) /\
  (forall i j a b, i <> j -> entries !! i = Some a -> entries !! j = Some b ->
     start a + nr a <= start b \/ start b + nr b <= start a) /\
  foldr (fun e acc => nr e + acc) 0 entries < 2 ^ 32.

Definition range_of (e : bch_sb_field_journal_v2_entry) : Z * Z := (start e, start e + nr e).

Definition total (ranges : list (Z * Z)) : Z := foldr (fun r acc => r.2 - r.1 + acc) 0 ranges.

Definition disjoint_ranges (l : list (Z * Z)) : Prop :=
  forall i j a b, i <> j -> l !! i = Some a -> l !! j = Some b -> a.2 <= b.1 \/ b.2 <= a.1.

Lemma disjoint_perm l l' : l ≡ₚ l' -> disjoint_ranges l -> disjoint_ranges l'.
Proof.
  intros HP H i j a b Hij Ha Hb. symmetry in HP. apply Permutation_inj in HP as (_ & f & Hf & E).
  rewrite E in Ha, Hb. apply (H (f i) (f j)); [|done|done]. intros Hc. by apply Hf in Hc.
Qed.

Lemma total_perm l l' : l ≡ₚ l' -> total l = total l'.
Proof. unfold total. induction 1; cbn [foldr]; lia. Qed.

Lemma overlap_sorted l : Forall (fun r => r.1 < r.2) l -> Sorted range_le l ->
  ranges_overlap l = false <-> disjoint_ranges l.
Proof.
  intros Hne Hs. induction l as [|a l IH]; [split; [|done]; intros _ i j x y _ Hx; by rewrite lookup_nil in Hx|].
  apply Forall_cons_1 in Hne as [Ha Hne]. inversion Hs as [|? ? Hs' Hd]; subst. specialize (IH Hne Hs').
  destruct l as [|b l].
  - split; [|done]. intros _ i j x y Hij Hx%lookup_lt_Some Hy%lookup_lt_Some. cbn in *. lia.
  - cbn [ranges_overlap]. apply Forall_cons_1 in Hne as [Hb Hne]. inversion Hd as [|? ? Hab]; subst.
    unfold range_le in Hab. rewrite orb_false_iff, IH, Z.ltb_ge. split.
    + intros [Hle Hdis].
      assert (forall j y, (b :: l) !! j = Some y -> a.2 <= y.1) as Hall.
      { intros j y Hy. assert (b.1 <= y.1); [|lia].
        assert (StronglySorted range_le (b :: l)) as HS by (apply Sorted_StronglySorted; [intros ?????; unfold range_le in *; lia|done]).
        destruct j as [|j]; [cbn in Hy; injection Hy as <-; lia|].
        inversion HS as [|? ? _ Hf]; subst. by apply (Forall_lookup_1 _ _ _ _ Hf Hy). }
      intros [|i] [|j] x y Hij Hx Hy; cbn [lookup list_lookup] in Hx, Hy.
      * done.
      * injection Hx as <-. left. by apply (Hall j).
      * injection Hy as <-. right. by apply (Hall i).
      * apply (Hdis i j); [congruence|done|done].
    + intros Hdis. split; [|intros i j x y Hij Hx Hy; apply (Hdis (S i) (S j)); [congruence|done|done]].
      destruct (Hdis 0%nat 1%nat a b ltac:(done) eq_refl eq_refl); lia.
Qed.

(** Ranges in order without overlap: all of them end by the last one, and
    their lengths add up to no more than what lies between. *)
Lemma ranges_bounds l a z : Forall (fun r => r.1 < r.2) l -> ranges_overlap l = false ->
  l !! O = Some a -> last l = Some z ->
  Forall (fun r => a.1 <= r.1 /\ r.2 <= z.2) l /\ 0 <= total l <= z.2 - a.1.
Proof.
  intros Hne. revert a. induction l as [|b l IH]; intros a Hov Ha Hz; [done|].
  cbn in Ha. injection Ha as ->. apply Forall_cons_1 in Hne as [Hb Hne]. destruct l as [|c l].
  - cbn in Hz. injection Hz as ->. split; [constructor; [lia|done]|cbn; lia].
  - cbn [ranges_overlap] in Hov. apply orb_false_iff in Hov as [Hab Hov]. apply Z.ltb_ge in Hab.
    destruct (IH Hne c Hov eq_refl Hz) as [Hf Ht].
    pose proof (Forall_cons_1 _ _ _ Hf) as [Hc _]. pose proof (Forall_cons_1 _ _ _ Hne) as [Hc' _]. split.
    + constructor; [lia|]. eapply Forall_impl; [exact Hf|]. intros r Hr. cbn in *. lia.
    + cbn [total foldr] in *. fold (total l) in *. lia.
Qed.

Lemma journal_ranges_spec entries acc : Forall (fun e => in_range 64 (start e) /\ in_range 64 (nr e)) entries ->
  match journal_ranges entries acc with
  | Some (ranges, sum) => ranges = map range_of entries /\
      Forall (fun e => 0 < nr e /\ start e + nr e < 2 ^ 64) entries /\
      sum = (if bool_decide (entries = []) then acc else (acc + total (map range_of entries)) mod 2 ^ 64)
  | None => exists e, e ∈ entries /\ ~ (0 < nr e /\ start e + nr e < 2 ^ 64)
  end.
Proof.
  intros Hr. revert acc. induction Hr as [|e rest [Hs Hn] _ IH]; intros acc; [done|].
  cbn [journal_ranges]. unfold in_range in *.
  destruct (Z.lt_ge_cases (start e + nr e) (2 ^ 64)) as [Hsm|Hbig].
  2: { replace (wadd 64 (start e) (nr e)) with (start e + nr e - 2 ^ 64)
         by (unfold wadd; symmetry; rewrite <- (Z.mod_small (start e + nr e - 2 ^ 64) (2 ^ 64)) by lia;
             rewrite <- (Z.mod_add (start e + nr e - 2 ^ 64) 1) by lia; f_equal; lia).
       rewrite (proj2 (Z.leb_le _ _)) by lia. exists e. split; [left|lia]. }
  rewrite (wadd_small 64 (start e) (nr e)) by (unfold in_range; lia).
  destruct (Z.leb_spec (start e + nr e) (start e)) as [Hz|Hz].
  { exists e. split; [left|lia]. }
  specialize (IH (wadd 64 acc (nr e))). destruct (journal_ranges rest _) as [[ranges sum]|]; bind_simpl.
  - destruct IH as (-> & Hall & ->). split; [done|]. split; [constructor; [lia|done]|].
    rewrite (bool_decide_eq_false_2 (e :: rest = [])) by done. cbn [map total foldr]. fold (total (map range_of rest)).
    cbn [range_of fst snd]. unfold wadd. destruct rest as [|e' rest].
    + rewrite bool_decide_eq_true_2 by done. cbn [map total foldr]. f_equal. cbn [fold_right]. lia.
    + rewrite bool_decide_eq_false_2 by done. rewrite Z.add_mod_idemp_l by lia. f_equal. lia.
  - destruct IH as (x & Hx & Hbad). exists x. split; [by right|done].
Qed.

Lemma total_nr entries : total (map range_of entries) = foldr (fun e acc => nr e + acc) 0 entries.
Proof. induction entries as [|e l IH]; [done|]. cbn [map total foldr range_of fst snd]. fold (total (map range_of l)). lia. Qed.

Lemma disjoint_entries entries : disjoint_ranges (map range_of entries) <->
  forall i j a b, i <> j -> entries !! i = Some a -> entries !! j = Some b ->
    start a + nr a <= start b \/ start b + nr b <= start a.
Proof.
  split.
  - intros H i j a b Hij Ha Hb. apply (H i j (range_of a) (range_of b) Hij); by rewrite list_lookup_fmap, ?Ha, ?Hb.
  - intros H i j x y Hij Hx Hy. rewrite list_lookup_fmap in Hx, Hy.
    destruct (entries !! i) as [a|] eqn:Ea; [|done]. destruct (entries !! j) as [b|] eqn:Eb; [|done].
    injection Hx as <-. injection Hy as <-. by apply (H i j a b).
Qed.

#[local] Instance range_le_total : Total range_le.
Proof. intros a b. unfold range_le. lia. Qed.
#[local] Instance range_le_trans : Transitive range_le.
Proof. intros a b c. unfold range_le. lia. Qed.

Lemma sorted_first l a : StronglySorted range_le l -> l !! O = Some a -> Forall (fun r => a.1 <= r.1) l.
Proof.
  intros Hs Ha. destruct Hs as [|x l Hs Hf]; [done|]. cbn in Ha. injection Ha as ->.
  constructor; [lia|exact Hf].
Qed.

(** The sorted ranges pass the checks exactly when they are well placed. *)
Lemma check_ranges_spec ranges member : ranges <> [] -> Forall (fun r => r.1 < r.2) ranges ->
  Forall (fun r => 0 <= r.1) ranges -> m_nbuckets member < 2 ^ 64 ->
  check_ranges (merge_sort range_le ranges) member (total ranges mod 2 ^ 64) = Some 0 <->
  Forall (fun r => 0 < r.1 /\ m_first_bucket member <= r.1 /\ r.2 <= m_nbuckets member) ranges /\
  disjoint_ranges ranges /\ total ranges < 2 ^ 32.
Proof.
  intros Hne Hpos Hnn Hnb. pose proof (merge_sort_Permutation range_le ranges) as HP.
  pose proof (Sorted_merge_sort range_le ranges) as Hs. set (l := merge_sort range_le ranges) in *.
  assert (Forall (fun r => r.1 < r.2) l) as Hpos' by by rewrite HP.
  rewrite <- (total_perm _ _ HP).
  assert (disjoint_ranges ranges <-> disjoint_ranges l) as Hdis
    by (split; apply disjoint_perm; [by symmetry|done]).
  rewrite Hdis. rewrite <- HP. rewrite <- HP in Hnn.
  assert (l <> []) as Hl by (intros E; rewrite E in HP; by apply Permutation_nil_l in HP).
  clearbody l. clear HP Hdis Hpos Hne. unfold check_ranges.
  destruct l as [|a l]; [done|]. cbn [lookup list_lookup]. bind_simpl.
  destruct (last (a :: l)) as [z|] eqn:Ez; [|by apply last_None in Ez]. bind_simpl.
  pose proof (overlap_sorted _ Hpos' Hs) as Hov. apply Sorted_StronglySorted in Hs; [|apply _].
  pose proof (sorted_first _ a Hs eq_refl) as Hfirst.
  assert (z ∈ a :: l) as Hz by by apply last_Some_elem_of.
  split.
  - intros H. destruct (Z.eqb_spec a.1 0); [done|]. destruct (Z.ltb_spec a.1 (m_first_bucket member)); [done|].
    destruct (Z.ltb_spec (m_nbuckets member) z.2); [done|]. destruct (ranges_overlap (a :: l)) eqn:Eov; [done|].
    destruct (ranges_bounds (a :: l) a z Hpos' Eov eq_refl Ez) as [Hb Ht].
    pose proof (Forall_cons_1 _ _ _ Hnn) as [Ha0 _].
    rewrite Z.mod_small in H by lia. destruct (Z.ltb_spec (2 ^ 32 - 1) (total (a :: l))); [done|].
    split; [|split; [by apply Hov|lia]]. eapply Forall_impl; [exact Hb|]. intros r Hr. cbn in *. lia.
  - intros (Hall & Hd & Ht). pose proof (Forall_cons_1 _ _ _ Hall) as [Ha _].
    rewrite Forall_forall in Hall. pose proof (Hall z Hz) as Hzb. apply Hov in Hd.
    destruct (ranges_bounds (a :: l) a z Hpos' Hd eq_refl Ez) as [_ Ht0].
    rewrite (proj2 (Z.eqb_neq a.1 0)), (proj2 (Z.ltb_ge a.1 _)), (proj2 (Z.ltb_ge _ z.2)), Hd by lia.
    rewrite Z.mod_small, (proj2 (Z.ltb_ge _ _)) by lia. done.
Qed.

(** The entries read from the words of a field. *)
Fixpoint pairs (words : list Z) : list bch_sb_field_journal_v2_entry :=
  match words with
  | a :: b :: rest => mk_bch_sb_field_journal_v2_entry a b :: pairs rest
  | _ => []
  end.

Lemma read_entries data field n i : (field + 1 + 2 * (i + n) <= length data)%nat ->
  mapM (journal_entry data field) (seq i n) = Some (pairs (take (2 * n) (drop (field + 1 + 2 * i) data))).
Proof.
  revert i. induction n as [|n IH]; intros i Hl; [done|]. cbn [seq mapM].
  destruct (lookup_lt_is_Some_2 data (field + 1 + 2 * i)%nat ltac:(lia)) as [a Ha].
  destruct (lookup_lt_is_Some_2 data (field + 2 + 2 * i)%nat ltac:(lia)) as [b Hb].
  assert (journal_entry data field i = Some (mk_bch_sb_field_journal_v2_entry a b)) as ->
    by (unfold journal_entry; rewrite Ha; bind_simpl; by rewrite Hb).
  bind_simpl. rewrite IH by lia. bind_simpl.
  rewrite (drop_S data a (field + 1 + 2 * i)) by done. replace (S (field + 1 + 2 * i)) with (field + 2 + 2 * i)%nat by lia.
  rewrite (drop_S data b (field + 2 + 2 * i)) by done. replace (2 * S n)%nat with (S (S (2 * n))) by lia. cbn [firstn pairs].
  unfold mret, option_ret. do 5 f_equal. lia.
Qed.

Lemma pairs_range words : Forall (in_range 64) words ->
  Forall (fun e => in_range 64 (start e) /\ in_range 64 (nr e)) (pairs words).
Proof.
  assert (forall n l, (length l <= n)%nat -> Forall (in_range 64) l ->
    Forall (fun e => in_range 64 (start e) /\ in_range 64 (nr e)) (pairs l)) as H; [|by eapply H].
  induction n as [|n IH]; intros [|a [|b l]] Hl Hr; cbn in *; try done; try lia.
  apply Forall_cons_1 in Hr as [Ha Hr]. apply Forall_cons_1 in Hr as [Hb Hr].
  constructor; [done|]. apply IH; [lia|done].
Qed.

Lemma pairs_odd n l : pairs (take (2 * n + 1) l) = pairs (take (2 * n) l).
Proof.
  revert l. induction n as [|n IH]; intros l; [by destruct l as [|a [|b l]]|].
  replace (2 * S n + 1)%nat with (S (S (2 * n + 1))) by lia. replace (2 * S n)%nat with (S (S (2 * n))) by lia.
  destruct l as [|a [|b l]]; [done|done|]. cbn [firstn pairs]. by rewrite IH.
Qed.

Lemma pairs_half n l : pairs (take n l) = pairs (take (2 * (n / 2)) l).
Proof.
  pose proof (Nat.div_mod n 2 ltac:(lia)) as E. pose proof (Nat.mod_upper_bound n 2 ltac:(lia)).
  destruct (n mod 2)%nat as [|[|k]]; [..|lia].
  - rewrite E at 1. by rewrite Nat.add_0_r.
  - rewrite E at 1. apply pairs_odd.
Qed.

Lemma journal_ok_ranges entries member : Forall (fun e => 0 < nr e) entries ->
  journal_ok entries member <->
  Forall (fun r => 0 < r.1 /\ m_first_bucket member <= r.1 /\ r.2 <= m_nbuckets member) (map range_of entries) /\
  disjoint_ranges (map range_of entries) /\ total (map range_of entries) < 2 ^ 32.
Proof.
  intros Hn. unfold journal_ok. rewrite disjoint_entries, total_nr, Forall_map, Forall_forall.
  rewrite Forall_forall in Hn. cbn [range_of fst snd]. split; intros [H1 H2]; (split; [|exact H2]);
    intros e He; specialize (H1 e He); specialize (Hn e He); cbn in *; lia.
Qed.

(** The entries of the journal field at [field]. *)
Definition journal_entries (data : list Z) (field : nat) (f : bch_sb_field) : list bch_sb_field_journal_v2_entry :=
  pairs (take (Z.to_nat (f_u64s f) - 1) (drop (S field) data)).

Lemma journal_entries_read data field f : 1 <= f_u64s f ->
  (field + Z.to_nat (f_u64s f) <= length data)%nat ->
  mapM (journal_entry data field) (seq 0 (Z.to_nat ((f_u64s f - 1) / 2))) = Some (journal_entries data field f).
Proof.
  intros H1 Hl. unfold journal_entries. rewrite pairs_half.
  assert ((Z.to_nat (f_u64s f) - 1) / 2 = Z.to_nat ((f_u64s f - 1) / 2))%nat as ->
    by (rewrite Z2Nat.inj_div, Z2Nat.inj_sub by lia; done).
  set (n := Z.to_nat ((f_u64s f - 1) / 2)).
  assert (2 * n <= Z.to_nat (f_u64s f) - 1)%nat.
  { unfold n. pose proof (Z.mul_div_le (f_u64s f - 1) 2 ltac:(lia)). lia. }
  rewrite read_entries by lia. do 4 f_equal. lia.
Qed.

Lemma journal_checks entries member : entries <> [] ->
  Forall (fun e => in_range 64 (start e) /\ in_range 64 (nr e)) entries -> m_nbuckets member < 2 ^ 64 ->
  match journal_ranges entries 0 with
  | None => Some BCH_ERR_invalid_sb_journal
  | Some (ranges, sum) => check_ranges (merge_sort range_le ranges) member sum
  end = Some 0 <-> journal_ok entries member.
Proof.
  intros Hne Hr Hnb. pose proof (journal_ranges_spec entries 0 Hr) as Hspec.
  destruct (journal_ranges entries 0) as [[ranges sum]|].
  - destruct Hspec as (-> & Hpos & ->). rewrite bool_decide_eq_false_2, Z.add_0_l by done.
    rewrite check_ranges_spec.
    + symmetry. apply journal_ok_ranges. eapply Forall_impl; [exact Hpos|]. intros e [? _]. done.
    + by destruct entries.
    + apply Forall_map. eapply Forall_impl; [exact Hpos|]. intros e [? _]. cbn. lia.
    + apply Forall_map. eapply Forall_impl; [exact Hr|]. intros e [[? _] _]. done.
    + done.
  - split; [done|]. intros (Hok & _). destruct Hspec as (e & He & Hbad). destruct Hbad.
    specialize (Hok e He). lia.
Qed.

Lemma journal_v2_validate_iff' s data field f member
    (Hf : field_at data field = Some f) (H1 : 1 <= f_u64s f)
    (Hend : (field + Z.to_nat (f_u64s f) <= length data)%nat) (Hw : Forall (in_range 64) data)
    (Hm : bch2_sb_member_get s data (Z.to_nat (dev_idx s)) = Some member)
    (Hnb : m_nbuckets member < 2 ^ 64) :
  bch2_sb_journal_v2_validate s data field = Some 0 <-> journal_ok (journal_entries data field f) member.
Proof.
  unfold bch2_sb_journal_v2_validate. rewrite Hf. bind_simpl. rewrite Hm. bind_simpl.
  unfold bch2_sb_field_journal_v2_nr_entries. rewrite usub_ok by lia. bind_simpl.
  pose proof (journal_entries_read data field f H1 Hend) as Hread.
  destruct (Z.eqb_spec ((f_u64s f - 1) / 2) 0) as [Hz|Hz].
  - rewrite Hz in Hread. cbn in Hread. injection Hread as <-. split; [|done]. intros _.
    split; [|split; [|cbn; lia]]; intros ?; [intros Hin; inversion Hin|intros ???? Hx; by rewrite lookup_nil in Hx].
  - rewrite Hread. bind_simpl. apply journal_checks; [|by apply pairs_range, Forall_take, Forall_drop|done].
    intros E. rewrite E in Hread. apply length_mapM in Hread. rewrite length_seq in Hread.
    assert (0 <= (f_u64s f - 1) / 2) by (apply Z.div_pos; lia). cbn in Hread. lia.
Qed.

(** A journal field is accepted exactly when its entries are nonempty
    ranges of buckets of the device, none before the first usable bucket or
    past the last one, no two of them overlapping, with less than [2^32]
    buckets in all; wrapping sums cannot defeat the checks. *)
Theorem journal_v2_validate_iff s data field f member
    (Hf : field_at data field = Some f) (H1 : 1 <= f_u64s f)
    (Hend : (field + Z.to_nat (f_u64s f) <= length data)%nat) (Hw : Forall (in_range 64) data)
    (Hm : bch2_sb_member_get s data (Z.to_nat (dev_idx s)) = Some member)
    (Hnb : m_nbuckets member < 2 ^ 64) :
  bch2_sb_journal_v2_validate s data field = Some 0 <-> journal_ok (journal_entries data field f) member.
Proof. by apply journal_v2_validate_iff'. Qed.

(** ** What validation establishes *)

Lemma flag_word_insert s i j v : length (flags s) = 7%nat -> (i < 7)%nat ->
  flag_word (set_flags s (<[i := v]> (flags s))) j = if (i =? j)%nat then v else flag_word s j.
Proof.
  intros Hl Hi. unfold flag_word. cbn [flags set_flags]. destruct (Nat.eqb_spec i j) as [<-|Hne].
  - by rewrite list_lookup_total_insert_eq by lia.
  - by rewrite list_lookup_total_insert_ne by done.
Qed.

Lemma set_allowed_bits w v : in_range 16 v ->
  let w' := Z.lor (Z.ldiff w (Z.shiftl 0xffff 48)) (Z.shiftl v 48) in
  Z.land (Z.shiftr w' 48) 0xffff = v /\ Z.land (Z.shiftr w' 32) 0xffff = Z.land (Z.shiftr w 32) 0xffff.
Proof.
  intros Hv. cbv zeta. change 0xffff with (Z.ones 16). unfold in_range in Hv. split.
  - rewrite <- (Z.mod_small v (2 ^ 16) Hv) at 2. rewrite <- Z.land_ones by lia.
    apply Z.bits_inj'. intros i Hi. rewrite !Z.land_spec. destruct (Z.lt_ge_cases i 16) as [Hc|Hc].
    + rewrite Z.shiftr_spec, Z.lor_spec, Z.ldiff_spec, !Z.shiftl_spec by lia.
      rewrite (Z.ones_spec_low 16 (i + 48 - 48)) by lia. cbn [negb]. rewrite andb_false_r. cbn [orb].
      replace (i + 48 - 48) with i by lia. done.
    + by rewrite Z.ones_spec_high, !andb_false_r by lia.
  - apply Z.bits_inj'. intros i Hi. rewrite !Z.land_spec. destruct (Z.lt_ge_cases i 16) as [Hc|Hc].
    + rewrite !Z.shiftr_spec, Z.lor_spec, Z.ldiff_spec, !Z.shiftl_spec by lia.
      rewrite !(Z.testbit_neg_r _ (i + 32 - 48)) by lia. cbn [negb]. by rewrite andb_true_r, orb_false_r.
    + by rewrite !Z.ones_spec_high, !andb_false_r by lia.
Qed.

Lemma incompat_range s : in_range 16 (BCH_SB_VERSION_INCOMPAT s).
Proof.
  unfold BCH_SB_VERSION_INCOMPAT, in_range. change 0xffff with (Z.ones 16). rewrite Z.land_ones by lia.
  apply Z.mod_pos_bound. lia.
Qed.

Lemma set_allowed_spec s v : length (flags s) = 7%nat -> in_range 16 v ->
  let s' := SET_BCH_SB_VERSION_INCOMPAT_ALLOWED s v in
  BCH_SB_VERSION_INCOMPAT_ALLOWED s' = v /\ BCH_SB_VERSION_INCOMPAT s' = BCH_SB_VERSION_INCOMPAT s /\
  length (flags s') = 7%nat /\ s' = set_flags s (flags s').
Proof.
  intros Hl Hv. cbv zeta. unfold BCH_SB_VERSION_INCOMPAT_ALLOWED, BCH_SB_VERSION_INCOMPAT, SET_BCH_SB_VERSION_INCOMPAT_ALLOWED.
  rewrite !flag_word_insert by (done || lia). cbn [Nat.eqb].
  destruct (set_allowed_bits (flag_word s 5) v Hv) as [-> ->]. repeat (split; [done|]).
  split; [|done]. cbn [flags set_flags]. by rewrite length_insert.
Qed.

Lemma set_flags_set s a b : set_flags (set_flags s a) b = set_flags s b.
Proof. done. Qed.

Lemma multi_device_keeps s : length (flags s) = 7%nat ->
  let s' := if 1 <? nr_devices s then set_flags s (<[3%nat := Z.lor (flag_word s 3) (2 ^ 63)]> (flags s)) else s in
  BCH_SB_VERSION_INCOMPAT_ALLOWED s' = BCH_SB_VERSION_INCOMPAT_ALLOWED s /\
  BCH_SB_VERSION_INCOMPAT s' = BCH_SB_VERSION_INCOMPAT s /\ s' = set_flags s (flags s').
Proof.
  intros Hl. cbv zeta. destruct (1 <? nr_devices s).
  - unfold BCH_SB_VERSION_INCOMPAT_ALLOWED, BCH_SB_VERSION_INCOMPAT.
    rewrite !flag_word_insert by (done || lia). done.
  - repeat split. by destruct s.
Qed.

Lemma repair_header_spec s fl : length (flags s) = 7%nat -> in_range 16 (version s) ->
  let '(r, s') := repair_header s fl in
  s' = set_flags s (flags s') /\
  (r = 0 -> BCH_SB_VERSION_INCOMPAT s' = BCH_SB_VERSION_INCOMPAT s /\
            BCH_SB_VERSION_INCOMPAT s' <= BCH_SB_VERSION_INCOMPAT_ALLOWED s').
Proof.
  intros Hl Hv. unfold repair_header.
  set (s1 := if version s <? _ then _ else _).
  assert (BCH_SB_VERSION_INCOMPAT s1 = BCH_SB_VERSION_INCOMPAT s /\ length (flags s1) = 7%nat /\
          s1 = set_flags s (flags s1)) as (Hi1 & Hl1 & Hs1).
  { unfold s1. destruct (version s <? _); [|by destruct s].
    by destruct (set_allowed_spec s (version s) Hl Hv) as (_ & ? & ? & ?). }
  clearbody s1. set (s2 := if _ <? _ then SET_BCH_SB_VERSION_INCOMPAT_ALLOWED s1 _ else s1).
  assert (BCH_SB_VERSION_INCOMPAT s2 = BCH_SB_VERSION_INCOMPAT s /\ length (flags s2) = 7%nat /\
          s2 = set_flags s (flags s2) /\ BCH_SB_VERSION_INCOMPAT s2 <= BCH_SB_VERSION_INCOMPAT_ALLOWED s2)
    as (Hi2 & Hl2 & Hs2 & Hle).
  { unfold s2. destruct (Z.ltb_spec (BCH_SB_VERSION_INCOMPAT_ALLOWED s1) (BCH_SB_VERSION_INCOMPAT s1)); [|done].
    destruct (set_allowed_spec s1 (BCH_SB_VERSION_INCOMPAT s1) Hl1 (incompat_range s1)) as (E1 & E2 & E3 & E4).
    rewrite E1, E2. repeat (split; [done|]). split; [|lia]. rewrite E4, Hs1. done. }
  clearbody s2. destruct (_ && _); [by split|].
  destruct (multi_device_keeps s2 Hl2) as (E1 & E2 & E3). split; [rewrite E3, Hs2; done|]. intros _. lia.
Qed.

(** The first walk succeeds exactly on a sequence of fields. *)
Lemma sizes_loop_spec data last : Forall (in_range 64) data -> (last <= length data)%nat ->
  forall fuel k, (k <= last)%nat -> (last - k <= fuel)%nat ->
  exists r, sizes_loop fuel data last k = Some r /\
    (r = 0 -> exists fs, Forall field_ok fs /\ drop k (take last data) = encs fs).
Proof.
  intros Hw Hl. induction fuel as [|fuel IH]; intros k Hk Hf; cbn [sizes_loop].
  - rewrite (proj2 (Nat.ltb_ge _ _)) by lia. exists 0. split; [done|]. intros _. exists []. split; [done|].
    rewrite drop_ge; [done|]. rewrite length_take. lia.
  - destruct (Nat.ltb_spec k last) as [Hlt|Hge].
    2: { exists 0. split; [done|]. intros _. exists []. split; [done|]. rewrite drop_ge; [done|]. rewrite length_take. lia. }
    destruct (lookup_lt_is_Some_2 data k ltac:(lia)) as [w E]. unfold vstruct_next, field_at. rewrite E. bind_simpl.
    cbn [f_u64s f_type]. pose proof (Forall_lookup_1 _ _ _ _ Hw E) as Hr. unfold in_range in Hr.
    pose proof (Z.mod_pos_bound w (2 ^ 32) ltac:(lia)) as Hm.
    destruct (Z.eqb_spec (w mod 2 ^ 32) 0) as [|Hn0]; [cbn [orb]; eexists; split; [done|]; done|]. cbn [orb].
    destruct (Nat.ltb_spec last (k + Z.to_nat (w mod 2 ^ 32))) as [Hov|Hin]; [eexists; split; [done|]; done|].
    destruct (IH (k + Z.to_nat (w mod 2 ^ 32))%nat ltac:(lia) ltac:(lia)) as (r & -> & Hr').
    exists r. split; [done|]. intros Hz. destruct (Hr' Hz) as (fs & Hfs & Hd).
    set (n := Z.to_nat (w mod 2 ^ 32)) in *. set (p := take (n - 1) (drop (S k) (take last data))).
    assert (length p = n - 1)%nat as Hp by (unfold p; rewrite length_take, length_drop, length_take; lia).
    exists ((w / 2 ^ 32, p) :: fs). split.
    + constructor; [|done]. split; cbn [fst snd]; [apply Z.div_pos; lia|lia].
    + rewrite encs_cons, <- Hd, (drop_S _ w) by (rewrite lookup_take_lt by done; done).
      unfold enc. cbn [fst snd app]. f_equal.
      * rewrite Hp. pose proof (Z.div_mod w (2 ^ 32) ltac:(lia)). lia.
      * unfold p. rewrite <- (take_drop (n - 1) (drop (S k) (take last data))) at 1. f_equal.
        rewrite drop_drop. f_equal. lia.
Qed.

Lemma sizes_rep s data : Forall (in_range 64) data -> 0 <= u64s s <= Z.of_nat (length data) ->
  exists r, sizes_loop (vstruct_last s) data (vstruct_last s) 0 = Some r /\
    (r = 0 -> exists fs, rep s data fs).
Proof.
  intros Hw Hu. destruct (sizes_loop_spec data (vstruct_last s) Hw ltac:(unfold vstruct_last; lia)
    (vstruct_last s) 0 ltac:(lia) ltac:(lia)) as (r & E & Hr).
  exists r. split; [done|]. intros Hz. destruct (Hr Hz) as (fs & Hfs & Hd). exists fs. split; [done|].
  rewrite drop_0 in Hd. split.
  - rewrite <- Hd, length_take. unfold vstruct_last. lia.
  - exists (drop (vstruct_last s) data). by rewrite <- Hd, take_drop.
Qed.

(** Bytes inside the buffer can be read. *)
Lemma read_bytes_some data off n : (off + n <= 8 * length data)%nat -> exists b, read_bytes data off n = Some b.
Proof.
  unfold read_bytes. revert off. induction n as [|n IH]; intros off Hl; [by exists []|]. cbn [seq mapM].
  assert (off / 8 < length data)%nat as Hi by (apply Nat.Div0.div_lt_upper_bound; lia).
  destruct (lookup_lt_is_Some_2 data _ Hi) as [w E].
  assert (exists x, byte_at data off = Some x) as [x ->] by (unfold byte_at; rewrite E; bind_simpl; eauto).
  bind_simpl. destruct (IH (S off) ltac:(lia)) as [b ->]. bind_simpl. eauto.
Qed.

(** The members of the field at [k] lie inside the field. *)
Definition members_fit (s : bch_sb) (k : nat) (m : bch_sb_field_members_v2) : Prop :=
  16 + nr_devices s * member_bytes m <= f_u64s (mv_field m) * 8.

Lemma member_get_some s data k m index : members_at data k = Some m -> members_fit s k m ->
  0 <= member_bytes m -> (index < Z.to_nat (nr_devices s))%nat ->
  (k + Z.to_nat (f_u64s (mv_field m)) <= length data)%nat ->
  exists x, bch2_members_v2_get data (Some k) index = Some x.
Proof.
  intros E Hfit Hmb Hi Hl. unfold bch2_members_v2_get, __bch2_members_v2_get_mut. rewrite E. bind_simpl.
  unfold members_fit in Hfit. set (mb := Z.to_nat (member_bytes m)).
  assert (index * mb + mb <= Z.to_nat (nr_devices s) * mb)%nat by nia.
  assert (16 + Z.to_nat (nr_devices s) * mb <= 8 * Z.to_nat (f_u64s (mv_field m)))%nat by (unfold mb; nia).
  destruct (read_bytes_some data (8 * k + 16 + index * mb) (Nat.min mb sizeof_bch_member)) as [b ->]; [lia|].
  bind_simpl. eauto.
Qed.

Lemma validate_members_spec s data k indices :
  (forall i, i ∈ indices -> exists x, bch2_members_v2_get data (Some k) i = Some x) ->
  exists r, validate_members s data k indices = Some r /\
    (r = 0 -> forall i, i ∈ indices -> exists x, bch2_members_v2_get data (Some k) i = Some x /\ validate_member x s = 0).
Proof.
  induction indices as [|i rest IH]; intros H; cbn [validate_members].
  - exists 0. split; [done|]. intros _ i Hi. inversion Hi.
  - destruct (H i ltac:(left)) as [x E]. rewrite E. bind_simpl.
    destruct (Z.eqb_spec (validate_member x s) 0) as [Hz|Hz]; cbn [negb]; [|by exists (validate_member x s)].
    destruct IH as (r & -> & Hr); [intros j Hj; apply H; by right|]. exists r. split; [done|].
    intros Hr0 j Hj. apply elem_of_cons in Hj as [->|Hj]; [by exists x|by apply Hr].
Qed.

(** A member field that passed: all members are there and valid. *)
Definition members_ok (s : bch_sb) (data : list Z) (k : nat) : Prop :=
  exists m, members_at data k = Some m /\ members_fit s k m /\
  forall i, (i < Z.to_nat (nr_devices s))%nat ->
    exists x, bch2_members_v2_get data (Some k) i = Some x /\ validate_member x s = 0.

Lemma members_validate_spec s data k f : field_at data k = Some f -> 0 <= nr_devices s ->
  (S k < length data)%nat -> (k + Z.to_nat (f_u64s f) <= length data)%nat ->
  exists r, bch2_sb_members_v2_validate s data k = Some r /\ (r = 0 -> members_ok s data k).
Proof.
  intros Hf Hnr Hk Hl. unfold bch2_sb_members_v2_validate.
  destruct (lookup_lt_is_Some_2 data (S k) Hk) as [w Ew].
  assert (members_at data k = Some (mk_bch_sb_field_members_v2 f (w mod 2 ^ 16))) as Hm
    by (unfold members_at; rewrite Hf; bind_simpl; by rewrite Ew).
  rewrite Hm. bind_simpl. cbn [mv_field member_bytes]. pose proof (Z.mod_pos_bound w (2 ^ 16) ltac:(lia)).
  destruct (Z.ltb_spec (f_u64s f * 8) (16 + nr_devices s * (w mod 2 ^ 16))) as [Hbig|Hfit]; [by eexists|].
  destruct (validate_members_spec s data k (seq 0 (Z.to_nat (nr_devices s)))) as (r & -> & Hr).
  - intros i Hi. apply elem_of_seq in Hi.
    apply (member_get_some s data k _ i Hm); cbn [member_bytes mv_field]; [exact Hfit|lia..].
  - exists r. split; [done|]. intros Hz. exists (mk_bch_sb_field_members_v2 f (w mod 2 ^ 16)).
    split; [done|]. split; [exact Hfit|]. intros i Hi. apply (Hr Hz). apply elem_of_seq. lia.
Qed.

Definition is_byte (b : Z) : Prop := 0 <= b < 256.

Lemma le_bound l : Forall is_byte l -> 0 <= le l < 256 ^ Z.of_nat (length l).
Proof.
  unfold le. induction 1 as [|b l Hb _ IH]; cbn [foldr length]; [cbn; lia|].
  rewrite Nat2Z.inj_succ, Z.pow_succ_r by lia. unfold is_byte in Hb. nia.
Qed.

Lemma le_at_bound l off n : Forall is_byte l -> 0 <= le_at l off n < 256 ^ Z.of_nat n.
Proof.
  intros Hl. unfold le_at. pose proof (le_bound (take n (drop off l)) (Forall_take _ _ _ (Forall_drop _ _ _ Hl))) as H.
  assert (256 ^ Z.of_nat (length (take n (drop off l))) <= 256 ^ Z.of_nat n); [|lia].
  apply Z.pow_le_mono_r; [lia|]. rewrite length_take. lia.
Qed.

Lemma read_bytes_bytes data off n b : read_bytes data off n = Some b -> Forall is_byte b.
Proof.
  unfold read_bytes. intros H. apply mapM_Some_1 in H. eapply Forall2_Forall_r; [exact H|].
  apply Forall_forall. intros i _ x Hx. unfold byte_at in Hx. destruct (data !! _) as [w|]; [|done].
  bind_simpl. injection Hx as <-. unfold is_byte. change 255 with (Z.ones 8). rewrite Z.land_ones by lia.
  apply Z.mod_pos_bound. lia.
Qed.

Lemma member_nbuckets data members index x : bch2_members_v2_get data members index = Some x ->
  0 <= m_nbuckets x < 2 ^ 64.
Proof.
  unfold bch2_members_v2_get. destruct members as [k|]; [|intros [= <-]; cbn; lia].
  destruct (members_at data k) as [m|]; [|done]. bind_simpl.
  destruct (read_bytes _ _ _) as [b|] eqn:E; [|done]. bind_simpl. intros [= <-]. cbn [m_nbuckets member_of_bytes].
  change (2 ^ 64) with (256 ^ Z.of_nat 8). apply le_at_bound.
  apply read_bytes_bytes in E. apply Forall_resize; [unfold is_byte; lia|done].
Qed.

Lemma check_ranges_some l member sum : l <> [] -> exists r, check_ranges l member sum = Some r.
Proof.
  intros Hl. unfold check_ranges. destruct l as [|a l]; [done|]. cbn [lookup list_lookup]. bind_simpl.
  destruct (last (a :: l)) as [z|] eqn:Ez; [|by apply last_None in Ez]. bind_simpl.
  repeat match goal with |- context [if ?b then _ else _] => destruct b end; eauto.
Qed.

Lemma journal_validate_some s data k f member : field_at data k = Some f -> 1 <= f_u64s f ->
  (k + Z.to_nat (f_u64s f) <= length data)%nat ->
  bch2_sb_member_get s data (Z.to_nat (dev_idx s)) = Some member ->
  exists r, bch2_sb_journal_v2_validate s data k = Some r.
Proof.
  intros Hf H1 Hl Hm. unfold bch2_sb_journal_v2_validate. rewrite Hf. bind_simpl. rewrite Hm. bind_simpl.
  unfold bch2_sb_field_journal_v2_nr_entries. rewrite usub_ok by lia. bind_simpl.
  destruct (Z.eqb_spec ((f_u64s f - 1) / 2) 0) as [|Hz]; [eauto|].
  pose proof (journal_entries_read data k f H1 Hl) as Hread. rewrite Hread. bind_simpl.
  assert (journal_entries data k f <> []) as Hne.
  { intros E. rewrite E in Hread. apply length_mapM in Hread. rewrite length_seq in Hread.
    assert (0 <= (f_u64s f - 1) / 2) by (apply Z.div_pos; lia). cbn in Hread. lia. }
  destruct (journal_entries data k f) as [|e es]; [done|].
  destruct (journal_ranges (e :: es) 0) as [[ranges sum]|] eqn:Er; [|eauto].
  apply check_ranges_some. intros E. pose proof (merge_sort_Permutation range_le ranges) as HP. rewrite E in HP.
  apply Permutation_nil_l in HP. subst ranges. cbn in Er.
  destruct (_ <=? _); [done|]. destruct (journal_ranges es _) as [[? ?]|]; done.
Qed.

(** A field that passed. *)
Definition field_good (s : bch_sb) (data : list Z) (k : nat) (t : Z) : Prop :=
  t = BCH_SB_FIELD_members_v2 /\ members_ok s data k \/
  t = BCH_SB_FIELD_journal_v2 /\ exists f member, field_at data k = Some f /\
    bch2_sb_member_get s data (Z.to_nat (dev_idx s)) = Some member /\
    journal_ok (journal_entries data k f) member.

(** What the checks of single fields rely on: room behind the last field,
    and the member of this device. *)
Definition member_readable (s : bch_sb) (data : list Z) : Prop :=
  exists member, bch2_sb_member_get s data (Z.to_nat (dev_idx s)) = Some member /\ m_nbuckets member < 2 ^ 64.

Lemma field_validate_spec s data k f : Forall (in_range 64) data -> 0 <= nr_devices s ->
  field_at data k = Some f -> 1 <= f_u64s f -> (k + Z.to_nat (f_u64s f) <= length data)%nat ->
  (f_type f = BCH_SB_FIELD_members_v2 -> (S k < length data)%nat) ->
  (f_type f = BCH_SB_FIELD_journal_v2 -> member_readable s data) ->
  exists r, bch2_sb_field_validate s data k = Some r /\ (r = 0 -> field_good s data k (f_type f)).
Proof.
  intros Hw Hnr Hf H1 Hl Hsec Hmem. unfold bch2_sb_field_validate. rewrite Hf. bind_simpl.
  destruct (Z.eqb_spec (f_type f) BCH_SB_FIELD_journal_v2) as [Ej|_].
  - destruct (Hmem Ej) as (member & Hm & Hnb).
    destruct (journal_validate_some s data k f member Hf H1 ltac:(lia) Hm) as [r Er]. exists r. split; [done|].
    intros ->. right. split; [done|]. exists f, member. split; [done|]. split; [done|].
    by apply (journal_v2_validate_iff' s data k f member Hf H1 ltac:(lia) Hw Hm Hnb).
  - destruct (Z.eqb_spec (f_type f) BCH_SB_FIELD_members_v2) as [Em|_]; [|by eexists].
    destruct (members_validate_spec s data k f Hf Hnr (Hsec Em) Hl) as (r & -> & Hr).
    exists r. split; [done|]. intros Hz. left. auto.
Qed.

Lemma fields_loop_spec s data fs : Forall (in_range 64) data -> 0 <= nr_devices s -> member_readable s data ->
  Forall field_ok fs -> forall fuel pre rest, data = pre ++ encs fs ++ rest -> (rest = [] -> forall A, fs <> A ++ [(BCH_SB_FIELD_members_v2, [])]) -> (length fs <= fuel)%nat ->
  exists r, fields_loop fuel s data (length pre + length (encs fs)) (length pre) = Some r /\
    (r = 0 -> forall A t p B, fs = A ++ (t, p) :: B -> field_good s data (length (pre ++ encs A)) t).
Proof.
  intros Hw Hnr Hmem. induction 1 as [|f fs Hf _ IH]; intros fuel pre rest Hd Hrest Hfuel.
  - exists 0. split; [|intros _ A t p B HA; by destruct A].
    cbn [encs map concat length]. rewrite Nat.add_0_r. destruct fuel; cbn [fields_loop]; by rewrite Nat.ltb_irrefl.
  - destruct fuel as [|fuel]; [cbn in Hfuel; lia|]. cbn [length] in Hfuel.
    rewrite encs_cons, length_app. rewrite encs_cons, <- app_assoc in Hd. cbn [fields_loop].
    rewrite (proj2 (Nat.ltb_lt _ _)) by (rewrite length_enc; lia).
    assert (field_at data (length pre) = Some (mk_bch_sb_field (Z.of_nat (length (enc f))) f.1)) as Hfa
      by (rewrite Hd; by apply field_at_enc).
    destruct (field_validate_spec s data (length pre) _ Hw Hnr Hfa) as (r & -> & Hr); cbn [f_u64s f_type].
    { rewrite length_enc. lia. }
    { rewrite Nat2Z.id, Hd, !length_app. lia. }
    { intros Et. rewrite Hd, !length_app, length_enc. destruct rest; [|cbn [length]; lia]. destruct f as [t p]. cbn [fst snd] in *. destruct p; [|cbn [length]; lia].
      destruct fs as [|g fs]; [by destruct (Hrest eq_refl []); rewrite <- Et|]. rewrite encs_cons, length_app, length_enc. lia. }
    { done. }
    bind_simpl. destruct (Z.eqb_spec r 0) as [->|Hne]; cbn [negb]; [|exists r; split; [done|]; done].
    assert (vstruct_next data (length pre) = Some (length (pre ++ enc f))) as -> by
      (rewrite Hd, vstruct_next_enc by done; by rewrite length_app).
    bind_simpl. destruct (IH fuel (pre ++ enc f) rest) as (r & E & Hr'); [by rewrite <- app_assoc|intros Hz A ->; by apply (Hrest Hz (f :: A))|lia|].
    rewrite length_app in E |- *. rewrite Nat.add_assoc, E. exists r. split; [done|]. intros Hz A t p B HA.
    destruct A as [|g A]; cbn [app] in HA; injection HA as -> HA.
    + cbn [encs map concat]. rewrite app_nil_r. exact (Hr eq_refl).
    + rewrite encs_cons, app_assoc. by apply (Hr' Hz A t p B).
Qed.

Lemma field_offset_cut t fs k : field_offset t fs = Some k ->
  exists A p B, fs = A ++ (t, p) :: B /\ k = length (encs A).
Proof.
  intros E. destruct (field_offset_split t fs) as [[E' _]|(A & p & B & -> & E' & _)]; [congruence|].
  rewrite E in E'. injection E' as ->. by exists A, p, B.
Qed.

Lemma rep_field_at s data A t p B : rep s data (A ++ (t, p) :: B) ->
  field_at data (length (encs A)) = Some (mk_bch_sb_field (Z.of_nat (length (enc (t, p)))) t) /\
  (length (encs A) + length (enc (t, p)) <= length (encs (A ++ (t, p) :: B)))%nat.
Proof.
  intros (Hfs & _ & slack & ->). rewrite !encs_app, !encs_cons, <- !app_assoc. split; [|rewrite !length_app; lia].
  apply (field_at_enc _ (t, p)). apply Forall_app in Hfs as [_ HB]. by inversion HB.
Qed.

(** The validated member field makes the member of this device readable. *)
Lemma members_readable s data fs k : rep s data fs -> field_offset BCH_SB_FIELD_members_v2 fs = Some k ->
  members_ok s data k -> 0 <= dev_idx s < nr_devices s -> member_readable s data.
Proof.
  intros Hrep Ek (m & Hm & Hfit & Hall) Hd. destruct (Hall (Z.to_nat (dev_idx s)) ltac:(lia)) as (x & Ex & _).
  exists x. unfold bch2_sb_member_get. rewrite (get_id_spec s data fs _ Hrep), Ek. bind_simpl.
  split; [done|]. eapply member_nbuckets, Ex.
Qed.

(** Everything that [validate_fields] establishes. *)
Definition fields_good (s : bch_sb) (data : list Z) : Prop :=
  exists fs, rep s data fs /\
    (exists k, field_offset BCH_SB_FIELD_members_v2 fs = Some k /\ members_ok s data k) /\
    forall A t p B, fs = A ++ (t, p) :: B -> field_good s data (length (encs A)) t.

(** There is a word behind the fields, or the last of them is not a member
    field of a single word. *)
Definition room_behind (s : bch_sb) (data : list Z) : Prop :=
  u64s s = Z.of_nat (length data) -> forall fs, ~ rep s data (fs ++ [(BCH_SB_FIELD_members_v2, [])]).

Lemma validate_fields_spec s data fl : Forall (in_range 64) data -> 0 <= u64s s <= Z.of_nat (length data) -> room_behind s data ->
  0 <= dev_idx s < nr_devices s ->
  exists r, validate_fields s data fl = Some r /\ (r = 0 -> fields_good s data).
Proof.
  intros Hw Hu Hroom Hd. unfold validate_fields.
  destruct (sizes_rep s data Hw ltac:(lia)) as (r & -> & Hr). bind_simpl.
  destruct (Z.eqb_spec r 0) as [->|Hne]; cbn [negb]; [|exists r; split; [done|]; done].
  destruct (Hr eq_refl) as [fs Hrep]. rewrite (get_id_spec s data fs _ Hrep). bind_simpl.
  destruct (field_offset BCH_SB_FIELD_members_v2 fs) as [k|] eqn:Ek; [|by eexists].
  destruct (field_offset_cut _ _ _ Ek) as (A & p & B & Efs & ->). rewrite Efs in Hrep.
  destruct (rep_field_at _ _ _ _ _ _ Hrep) as [Hfa Hle]. rewrite <- Efs in Hrep, Hle.
  pose proof Hrep as (Hfs & Hul & slack & Hdata).
  assert (slack = [] -> forall A, fs <> A ++ [(BCH_SB_FIELD_members_v2, [])]) as Hslack.
  { intros -> A' ->. apply (Hroom ltac:(rewrite Hul, Hdata, app_nil_r; done) A' Hrep). }
  destruct (field_validate_spec s data (length (encs A)) _ Hw ltac:(lia) Hfa) as (r & -> & Hg);
    cbn [f_u64s f_type]; [rewrite length_enc; lia|rewrite Nat2Z.id, Hdata, length_app; lia|intros _|done|].
  { rewrite Hdata, Efs, encs_app, encs_cons, !length_app, length_enc. destruct slack; [|cbn [length]; lia]. cbn [snd]. destruct p; [|cbn [length]; lia].
    destruct B as [|g B]; [by destruct (Hslack eq_refl A)|]. rewrite encs_cons, length_app, length_enc. lia. }
  bind_simpl. destruct (Z.eqb_spec r 0) as [->|Hne]; cbn [negb]; [|exists r; split; [done|]; done].
  destruct (Hg eq_refl) as [[_ Hmok]|[Hbad _]]; [|done]. cbn [f_type] in *.
  pose proof (members_readable s data fs _ Hrep Ek Hmok Hd) as Hread.
  destruct (fields_loop_spec s data fs Hw ltac:(lia) Hread Hfs (vstruct_last s) [] slack Hdata Hslack) as (r & E & Hall).
  { unfold vstruct_last. rewrite Hul, Nat2Z.id. apply length_encs_ge. }
  cbn [length Nat.add] in E.
  assert (vstruct_last s = length (encs fs)) as El by (unfold vstruct_last; by rewrite Hul, Nat2Z.id).
  rewrite El in E |- *. rewrite E. bind_simpl.
  destruct (Z.eqb_spec r 0) as [->|Hne]; cbn [negb]; [|exists r; split; [done|]; done].
  assert (fields_good s data) as Hgood by (exists fs; split; [done|]; split; [by eexists|by apply Hall]).
  destruct Hread as (member & -> & _). bind_simpl. destruct (negb _); by eexists.
Qed.

Lemma validate_sb_layout_some l : sb_offset l <> [] -> exists r, validate_sb_layout l = Some r.
Proof.
  intros Hl. unfold validate_sb_layout. destruct (sb_offset l) as [|a offs]; [done|].
  repeat match goal with |- context [if negb ?b then _ else _] => destruct (negb b); [by eexists|] end.
  destruct (nr_superblocks l =? 0); [by eexists|]. destruct (_ <? nr_superblocks l); [by eexists|].
  destruct (Z.ltb_spec BCH_SB_LAYOUT_SIZE_BITS_MAX (sb_max_size_bits l)) as [|Hb]; [by eexists|].
  unfold BCH_SB_LAYOUT_SIZE_BITS_MAX in Hb. rewrite ushl_ok by lia. bind_simpl. cbn [lookup list_lookup]. bind_simpl.
  destruct (layout_overlaps _ _ _); by eexists.
Qed.

(** C39: Validation of a superblock terminates and changes nothing but the
    flag words.  It stays inside the buffer whatever the words hold, except
    where the fields fill the buffer and the last one is a member field of a
    single word, whose length is read behind it.  What it accepts has the
    current version, a device index below the number of devices, an accepted
    layout, version fields in order, and behind the header a sequence of
    fields in which the member of every device lies inside its field and
    passes [validate_member] (whose difference of bucket numbers wraps), and
    in which the ranges of a journal field are disjoint and lie between the
    first bucket and the end of this device. *)
Theorem sb_validate_sound s data no_version_check read_offset fl
    (Hw : Forall (in_range 64) data) (Hu : 0 <= u64s s <= Z.of_nat (length data)) (Hroom : room_behind s data)
    (Hdev : 0 <= dev_idx s) (Hflags : length (flags s) = 7%nat) (Hver : in_range 16 (version s))
    (Hoff : sb_offset (layout s) <> []) :
  exists r s', bch2_sb_validate s data no_version_check read_offset fl = Some (r, s') /\
    s' = set_flags s (flags s') /\
    (r = 0 -> version s' = bcachefs_metadata_version_current /\ dev_idx s' < nr_devices s' /\
       validate_sb_layout (layout s') = Some 0 /\
       BCH_SB_VERSION_INCOMPAT s' <= BCH_SB_VERSION_INCOMPAT_ALLOWED s' /\ fields_good s' data).
Proof.
  unfold bch2_sb_validate.
  destruct (Z.eqb_spec (check_header s no_version_check read_offset fl) 0) as [Hc|Hc]; cbn [negb].
  2: { do 2 eexists. split; [done|]. split; [by destruct s|done]. }
  assert (version s = bcachefs_metadata_version_current /\ dev_idx s < nr_devices s) as [Hv Hd].
  { unfold check_header, bch2_sb_compatible in Hc.
    destruct (Z.eqb_spec (version s) bcachefs_metadata_version_current); [|done].
    destruct (version_min s =? _); [|done]. cbn [negb orb Z.eqb] in Hc. destruct (_ && _); [done|].
    destruct (_ || _); [done|]. destruct (_ && _); [done|]. destruct (nr_devices s =? 0); [done|].
    destruct (Z.leb_spec (nr_devices s) (dev_idx s)); done. }
  pose proof (repair_header_spec s fl Hflags Hver) as Hrep. destruct (repair_header s fl) as [r s'].
  destruct Hrep as [Hs' Hle]. destruct (Z.eqb_spec r 0) as [->|Hne]; cbn [negb].
  2: { do 2 eexists. split; [done|]. split; [done|]. done. }
  destruct (Hle eq_refl) as [_ Hle']. rewrite Hs' in *. set (fw := flags s') in *. clearbody fw. clear Hs' Hle s'.
  destruct (validate_sb_layout_some (layout (set_flags s fw)) Hoff) as [r Er]. rewrite Er. bind_simpl.
  destruct (Z.eqb_spec r 0) as [->|Hne]; cbn [negb]; [|do 2 eexists; split; [done|]; split; [done|]; done].
  destruct (validate_fields_spec (set_flags s fw) data fl Hw Hu Hroom ltac:(cbn; lia)) as (r & -> & Hg). bind_simpl.
  do 2 eexists. split; [done|]. split; [done|]. intros Hz. repeat (split; [done|]). auto.
Qed.

(** A superblock of one device of 1024 buckets, with 20 journal buckets. *)
Definition sample_words : list Z :=
  encs [(11, [296; 1; 1; 1024; 1 + 512 * 2 ^ 16] ++ replicate 33 0); (9, [10; 20])] ++ [0].
Definition sample_sb : bch_sb :=
  mk_bch_sb (mk_bch_csum 0 0) 1062 1062 [0; 0] BCHFS_MAGIC (replicate 16 1) (replicate 16 2)
    (replicate 32 0) 8 0 8 0 1 42 0 0 1 (replicate 7 0) 0 [0; 0] [0; 0]
    (mk_bch_sb_layout BCHFS_MAGIC 0 11 2 (replicate 5 0) ([8; 2056] ++ replicate 59 0)).

Lemma sb_validate_sound_witness :
  bch2_sb_validate sample_sb sample_words false 8 0 = Some (0, sample_sb) /\ fields_good sample_sb sample_words.
Proof.
  assert (bch2_sb_validate sample_sb sample_words false 8 0 = Some (0, sample_sb)) as E
    by (vm_compute; reflexivity).
  split; [exact E|].
  destruct (sb_validate_sound sample_sb sample_words false 8 0) as (r & s' & E' & _ & H).
  - unfold sample_words. cbn. repeat constructor; cbn; lia.
  - cbn. lia.
  - intros H. vm_compute in H. discriminate H.
  - cbn. lia.
  - reflexivity.
  - cbn. unfold in_range. lia.
  - discriminate.
  - rewrite E in E'. injection E' as <- <-. apply H. reflexivity.
Defined.

Definition sample_member : bch_member := default bch_member_default (bch2_sb_member_get sample_sb sample_words 0).

Lemma journal_v2_validate_iff_witness :
  bch2_sb_journal_v2_validate sample_sb sample_words 39 = Some 0 /\
  journal_ok (journal_entries sample_words 39 (mk_bch_sb_field 3 9)) sample_member.
Proof.
  assert (bch2_sb_journal_v2_validate sample_sb sample_words 39 = Some 0) as E by (vm_compute; reflexivity).
  split; [exact E|].
  apply (journal_v2_validate_iff sample_sb sample_words 39 (mk_bch_sb_field 3 9) sample_member); [..|exact E].
  - vm_compute. reflexivity.
  - cbn. lia.
  - apply Nat.leb_le. vm_compute. reflexivity.
  - unfold sample_words. cbn. repeat constructor; cbn; lia.
  - vm_compute. reflexivity.
  - vm_compute. reflexivity.
Defined.

(** A member field of a single word at the end of a full buffer: its length
    is only compared with [member_bytes], which is the word after it, so
    validation reads past the 1024 bytes of the buffer. *)
Lemma sb_validate_reads_past_buffer :
  let data := encs [(9, replicate 32 0); (11, [])] in
  8 * (94 + Z.of_nat (length data)) = 1024 /\
  bch2_sb_validate (set_u64s sample_sb 34) data false 8 0 = None.
Proof. split; vm_compute; reflexivity. Qed.

(** The difference of [nbuckets] and [first_bucket] wraps: a device whose
    first bucket lies past its end is accepted. *)
Lemma validate_member_wraps :
  let m := member_of_bytes (resize sizeof_bch_member 0 (replicate 24 0 ++ [1; 0; 255; 255])) in
  m_nbuckets m < m_first_bucket m /\ validate_member m sample_sb = 0.
Proof. split; vm_compute; reflexivity. Qed.
