(* ===== verification/NodeIter.v ===== *)
(** * Iterating over a btree node ([btree/node_iter.rs], [btree/types.rs])

    A node holds up to three sorted sets of keys (bsets) in one array of
    64-bit words.  A pointer to a key is the offset of its first word.  An
    iterator is three ranges of offsets, one per set, kept in the order of
    their first keys, so that the next key of the node is always the first
    key of the first range. *)

From stdpp Require Import base tactics list option sorting.
From Stdlib Require Import ZArith Lia.
From S2P Require Import Prelude Bpos BkeyPack BkeyOrder.

Open Scope Z_scope.

Definition MAX_BSETS : nat := 3.
Definition BSET_NO_AUX_TREE_VAL : Z := MAX 16.
Definition BSET_RW_AUX_TREE_VAL : Z := MAX 16 - 1.
Definition BSET_CACHELINE : Z := 256.

Record bset_tree := mk_bset_tree {
  size : Z;
  extra : Z;
  data_offset : Z;
  aux_data_offset : Z;
  end_offset : Z
}.

Record btree_node_iter_set := mk_set { it_k : Z; it_end : Z }.

(** Always three of them. *)
Record btree_node_iter := mk_iter { it_data : list btree_node_iter_set }.

Definition btree_node_iter_default : btree_node_iter := mk_iter (replicate MAX_BSETS (mk_set 0 0)).

(** The parts of a node that iteration reads; the sets in use. *)
Record btree := mk_btree {
  b_format : bkey_format;
  b_nr_key_bits : Z;
  b_words : list Z;
  b_set : list bset_tree
}.

(** The memory a key pointer points to. *)
Definition key_mem (b : btree) (k : Z) : list Z := drop (Z.to_nat k) (b_words b).

Definition key_u64s (b : btree) (k : Z) : option Z :=
  _ ← assert (0 <=? k); w ← b_words b !! Z.to_nat k; Some (w mod 2 ^ 8).

(** Offsets are 16 bits wide. *)
Definition __btree_node_key_to_offset (k : Z) : option Z :=
  _ ← assert ((0 <=? k) && (k <? 2 ^ 16)); Some k.

Definition btree_bkey_first_offset (t : bset_tree) : option Z := uadd 16 (data_offset t) 3.
Definition btree_bkey_first (t : bset_tree) : option Z := btree_bkey_first_offset t.
Definition btree_bkey_last (t : bset_tree) : Z := end_offset t.

Definition bkey_p_next (b : btree) (k : Z) : option Z := n ← key_u64s b k; Some (k + n).

(** ** Order of keys *)

Definition bkey_iter_cmp (b : btree) (l r : Z) : option Z :=
  cmp ← bch2_bkey_cmp_packed (b_format b) (b_nr_key_bits b) (key_mem b l) (key_mem b r);
  if negb (cmp =? 0) then Some cmp else
  let deleted_cmp := Z.b2z (bkey_deleted (key_mem b r)) - Z.b2z (bkey_deleted (key_mem b l)) in
  if negb (deleted_cmp =? 0) then Some deleted_cmp else Some (cmp_sign (l ?= r)).

Definition bkey_cmp_left_packed (b : btree) (l : Z) (r : bpos) : option Z :=
  p ← bkey_unpack_pos (b_format b) (key_mem b l); Some (bpos_cmp p r).

Definition bkey_iter_pos_cmp (b : btree) (l : Z) (r : bpos) : option Z :=
  cmp ← bkey_cmp_left_packed b l r;
  Some (if negb (cmp =? 0) then cmp else - Z.b2z (bkey_deleted (key_mem b l))).

(** ** The ranges *)

Definition set_is_end (s : btree_node_iter_set) : bool := it_k s =? it_end s.

Definition __btree_node_iter_set_end (iter : btree_node_iter) (i : nat) : option bool :=
  s ← it_data iter !! i; Some (set_is_end s).

Definition bch2_btree_node_iter_end (iter : btree_node_iter) : option bool :=
  __btree_node_iter_set_end iter 0.

(** From the last range down to the first one that is not at its end. *)
Fixpoint used_loop (iter : btree_node_iter) (n : nat) : option nat :=
  match n with
  | O => Some O
  | S m => e ← __btree_node_iter_set_end iter m; if (e : bool) then used_loop iter m else Some n
  end.

Definition __btree_node_iter_used (iter : btree_node_iter) : option nat := used_loop iter MAX_BSETS.

(** The index of a range, [None] for the null pointer. *)
Fixpoint find_loop (sets : list btree_node_iter_set) (end_offset : Z) (i : nat) : option nat :=
  match sets with
  | [] => None
  | s :: rest =>
      if set_is_end s then None
      else if it_end s =? end_offset then Some i else find_loop rest end_offset (S i)
  end.

Definition btree_node_iter_set_find (iter : btree_node_iter) (end_offset : Z) : option nat :=
  find_loop (it_data iter) (end_offset mod 2 ^ 16) 0.

Definition bch2_btree_node_iter_set_drop (iter : btree_node_iter) (i : nat) : btree_node_iter :=
  mk_iter (take i (it_data iter) ++ drop (S i) (it_data iter) ++ [mk_set 0 0]).

Definition btree_node_iter_cmp (b : btree) (l r : btree_node_iter_set) : option Z :=
  bkey_iter_cmp b (it_k l) (it_k r).

Definition __bch2_btree_node_iter_push (iter : btree_node_iter) (k end_ : Z) : option btree_node_iter :=
  if negb (k =? end_) then
    pos ← __btree_node_iter_used iter;
    _ ← assert (pos <? MAX_BSETS)%nat;
    ko ← __btree_node_key_to_offset k;
    eo ← __btree_node_key_to_offset end_;
    Some (mk_iter (<[pos := mk_set ko eo]> (it_data iter)))
  else Some iter.

Definition btree_node_iter_sort_two (iter : btree_node_iter) (b : btree) (first : nat)
  : option (bool * btree_node_iter) :=
  l ← it_data iter !! first;
  r ← it_data iter !! S first;
  cmp ← btree_node_iter_cmp b l r;
  if 0 <? cmp then Some (true, mk_iter (<[first := r]> (<[S first := l]> (it_data iter))))
  else Some (false, iter).

Definition bch2_btree_node_iter_sort (iter : btree_node_iter) (b : btree) : option btree_node_iter :=
  e2 ← __btree_node_iter_set_end iter 2;
  iter ← (if negb e2 then
            '(_, iter) ← btree_node_iter_sort_two iter b 0;
            '(_, iter) ← btree_node_iter_sort_two iter b 1;
            Some iter
          else Some iter);
  e1 ← __btree_node_iter_set_end iter 1;
  if negb e1 then '(_, iter) ← btree_node_iter_sort_two iter b 0; Some iter else Some iter.

Definition bch2_btree_node_iter_push (iter : btree_node_iter) (b : btree) (k end_ : Z) : option btree_node_iter :=
  iter ← __bch2_btree_node_iter_push iter k end_;
  bch2_btree_node_iter_sort iter b.

Fixpoint push_sets (iter : btree_node_iter) (ts : list bset_tree) : option btree_node_iter :=
  match ts with
  | [] => Some iter
  | t :: ts =>
      first ← btree_bkey_first t;
      iter ← __bch2_btree_node_iter_push iter first (btree_bkey_last t);
      push_sets iter ts
  end.

Definition bch2_btree_node_iter_init_from_start (b : btree) : option btree_node_iter :=
  iter ← push_sets btree_node_iter_default (b_set b);
  bch2_btree_node_iter_sort iter b.

Definition __bch2_btree_node_iter_peek_all (iter : btree_node_iter) : option Z :=
  s ← it_data iter !! O; Some (it_k s).

(** [Some None] is the null pointer. *)
Definition bch2_btree_node_iter_peek_all (iter : btree_node_iter) : option (option Z) :=
  s ← it_data iter !! O;
  Some (if negb (it_k s =? it_end s) then Some (it_k s) else None).

Definition __bch2_btree_node_iter_advance (iter : btree_node_iter) (b : btree) : option btree_node_iter :=
  k ← __bch2_btree_node_iter_peek_all iter;
  n ← key_u64s b k;
  s ← it_data iter !! O;
  k ← uadd 16 (it_k s) n;
  _ ← assert (k <=? it_end s);
  let iter := mk_iter (<[O := mk_set k (it_end s)]> (it_data iter)) in
  e0 ← __btree_node_iter_set_end iter 0;
  if (e0 : bool) then
    s1 ← it_data iter !! 1%nat;
    s2 ← it_data iter !! 2%nat;
    Some (mk_iter (<[O := s1]> (<[1%nat := s2]> (<[2%nat := mk_set 0 0]> (it_data iter)))))
  else
  e1 ← __btree_node_iter_set_end iter 1;
  if (e1 : bool) then Some iter else
  '(swapped, iter) ← btree_node_iter_sort_two iter b 0;
  if negb swapped then Some iter else
  e2 ← __btree_node_iter_set_end iter 2;
  if (e2 : bool) then Some iter else
  '(_, iter) ← btree_node_iter_sort_two iter b 1;
  Some iter.

Definition bch2_btree_node_iter_advance (iter : btree_node_iter) (b : btree) : option btree_node_iter :=
  __bch2_btree_node_iter_advance iter b.

(** Every step moves an iterator on by a key; there are at most as many keys
    as words in each of the three ranges. *)
Definition iter_fuel (b : btree) : nat := S (3 * length (b_words b)).

Fixpoint peek_loop (fuel : nat) (iter : btree_node_iter) (b : btree) : option (option Z * btree_node_iter) :=
  k ← bch2_btree_node_iter_peek_all iter;
  match k with
  | None => Some (None, iter)
  | Some k =>
      if negb (bkey_deleted (key_mem b k)) then Some (Some k, iter) else
      match fuel with
      | O => None
      | S fuel => iter ← bch2_btree_node_iter_advance iter b; peek_loop fuel iter b
      end
  end.

Definition bch2_btree_node_iter_peek (iter : btree_node_iter) (b : btree) : option (option Z * btree_node_iter) :=
  peek_loop (iter_fuel b) iter b.

Definition bch2_btree_node_iter_next_all (iter : btree_node_iter) (b : btree)
  : option (option Z * btree_node_iter) :=
  ret ← bch2_btree_node_iter_peek_all iter;
  match ret with
  | None => Some (None, iter)
  | Some k => iter ← bch2_btree_node_iter_advance iter b; Some (Some k, iter)
  end.

Definition bch2_btree_node_iter_bset_pos (iter : btree_node_iter) (t : bset_tree) : option Z :=
  match btree_node_iter_set_find iter (end_offset t) with
  | Some i => s ← it_data iter !! i; Some (it_k s)
  | None => Some (btree_bkey_last t)
  end.

(** ** What iteration needs of the order of keys

    The clients of this interface only know that comparing two keys of a
    node compares two numbers. *)

Class IterOrder (b : btree) (is_key : Z -> Prop) (val : Z -> Z) : Prop := {
  io_cmp l r : is_key l -> is_key r -> exists c, bkey_iter_cmp b l r = Some c /\ (0 <? c) = (val r <? val l)
}.

Section Iter.
Context (b : btree) (is_key : Z -> Prop) (val : Z -> Z) `{!IterOrder b is_key val}.

(** The keys between two offsets, one behind the other. *)
Inductive chain : Z -> Z -> list Z -> Prop :=
| chain_nil e : chain e e []
| chain_cons k n e l : is_key k -> key_u64s b k = Some n -> 0 < n -> k + n <= e ->
    chain (k + n) e l -> chain k e (k :: l).

Definition val_le (x y : Z) : Prop := val x <= val y.

#[local] Instance val_le_trans : Transitive val_le.
Proof. intros x y z. unfold val_le. lia. Qed.

Record range_ok (s : btree_node_iter_set) (l : list Z) : Prop := {
  ro_end : it_end s < 2 ^ 16;
  ro_chain : chain (it_k s) (it_end s) l;
  ro_sorted : StronglySorted val_le l
}.

(** The first key of [A] is not behind the first key of [B]; an empty range
    is behind all others. *)
Definition before (A B : list Z) : Prop :=
  match B with
  | [] => True
  | y :: _ => match A with [] => False | x :: _ => val x <= val y end
  end.

(** Empty ranges are last. *)
Definition packed_sets (A B C : list Z) : Prop := (B <> [] -> A <> []) /\ (C <> [] -> B <> []).

Definition ranges (iter : btree_node_iter) (A B C : list Z) : Prop :=
  exists s0 s1 s2, it_data iter = [s0; s1; s2] /\ range_ok s0 A /\ range_ok s1 B /\ range_ok s2 C.

Definition iter_ok (iter : btree_node_iter) (A B C : list Z) : Prop :=
  ranges iter A B C /\ before A B /\ before B C.

Lemma chain_le k e l : chain k e l -> k <= e.
Proof. induction 1; lia. Qed.

Lemma range_end s l : range_ok s l -> set_is_end s = match l with [] => true | _ => false end.
Proof.
  intros [_ Hc _]. unfold set_is_end. destruct Hc as [e|k n e l _ _ Hn Hle Hc]; [apply Z.eqb_refl|].
  apply Z.eqb_neq. lia.
Qed.

Lemma range_head s x l : range_ok s (x :: l) -> it_k s = x /\ is_key x.
Proof. intros [_ Hc _]. by inversion Hc. Qed.

Lemma range_empty s : range_ok s [] <-> it_end s < 2 ^ 16 /\ it_k s = it_end s.
Proof.
  split.
  - intros [He Hc _]. inversion Hc; subst; split; [congruence|done].
  - intros [He E]. split; [done| |constructor]. rewrite E. constructor.
Qed.

Lemma empty_range : range_ok (mk_set 0 0) [].
Proof. apply range_empty. cbn. lia. Qed.

Lemma before_packed A B C : before A B -> before B C -> packed_sets A B C.
Proof. intros HAB HBC. split; intros Hne; [destruct B|destruct C]; try done; [by destruct A|by destruct B]. Qed.

Lemma before_refl_le A B : before A B \/ before B A.
Proof. destruct A as [|x A], B as [|y B]; cbn; auto. lia. Qed.

(** Comparing two nonempty ranges. *)
Lemma set_cmp s t x A y B : range_ok s (x :: A) -> range_ok t (y :: B) ->
  exists c, btree_node_iter_cmp b s t = Some c /\ (0 <? c) = (val y <? val x).
Proof.
  intros Hs Ht. destruct (range_head s x A Hs) as [<- Hx], (range_head t y B Ht) as [<- Hy].
  by apply io_cmp.
Qed.

(** Ordering the first two or the last two ranges. *)
Lemma sort_two_0 s0 s1 s2 A B : range_ok s0 A -> range_ok s1 B -> A <> [] -> B <> [] ->
  exists r, btree_node_iter_sort_two (mk_iter [s0; s1; s2]) b 0
    = Some (r, mk_iter (if (r : bool) then [s1; s0; s2] else [s0; s1; s2])) /\
    (if r then before B A else before A B) /\ (r = true -> ~ before A B).
Proof.
  intros H0 H1 HA HB. destruct A as [|x A]; [done|]. destruct B as [|y B]; [done|].
  destruct (set_cmp _ _ _ _ _ _ H0 H1) as (c & E & Ec). unfold btree_node_iter_sort_two.
  cbn [it_data lookup list_lookup]. bind_simpl. rewrite E. bind_simpl. rewrite Ec.
  destruct (Z.ltb_spec (val y) (val x)); [exists true|exists false]; cbn; (split; [done|]); split; try done; lia.
Qed.

Lemma sort_two_1 s0 s1 s2 B C : range_ok s1 B -> range_ok s2 C -> B <> [] -> C <> [] ->
  exists r, btree_node_iter_sort_two (mk_iter [s0; s1; s2]) b 1
    = Some (r, mk_iter (if (r : bool) then [s0; s2; s1] else [s0; s1; s2])) /\
    (if r then before C B else before B C) /\ (r = true -> ~ before B C).
Proof.
  intros H1 H2 HB HC. destruct B as [|x B]; [done|]. destruct C as [|y C]; [done|].
  destruct (set_cmp _ _ _ _ _ _ H1 H2) as (c & E & Ec). unfold btree_node_iter_sort_two.
  cbn [it_data lookup list_lookup]. bind_simpl. rewrite E. bind_simpl. rewrite Ec.
  destruct (Z.ltb_spec (val y) (val x)); [exists true|exists false]; cbn; (split; [done|]); split; try done; lia.
Qed.

Lemma set_end_spec d i s l : d !! i = Some s -> range_ok s l ->
  __btree_node_iter_set_end (mk_iter d) i = Some (match l with [] => true | _ => false end).
Proof. intros E Hs. unfold __btree_node_iter_set_end. cbn [it_data]. rewrite E. bind_simpl. by rewrite (range_end s l Hs). Qed.

Ltac perm3 :=
  first [ reflexivity | apply perm_swap | apply perm_skip, perm_swap
        | (etransitivity; [apply perm_swap|]; apply perm_skip, perm_swap)
        | (etransitivity; [apply perm_skip, perm_swap|]; apply perm_swap)
        | (etransitivity; [apply perm_swap|]; etransitivity; [apply perm_skip, perm_swap|]; apply perm_swap) ].

(** The three ranges are there, in this order. *)
Ltac sorted_ranges :=
  do 4 eexists; (split; [reflexivity|]); (split; [split; [do 3 eexists; eauto|]|perm3]); cbn in *; lia.

(** All ranges are put in order. *)
Lemma sort_spec iter A B C : ranges iter A B C -> packed_sets A B C ->
  exists iter' A' B' C', bch2_btree_node_iter_sort iter b = Some iter' /\ iter_ok iter' A' B' C' /\
    [A'; B'; C'] ≡ₚ [A; B; C].
Proof.
  intros (s0 & s1 & s2 & Ed & H0 & H1 & H2) [HBA HCB]. destruct iter as [d]. cbn in Ed. subst d.
  unfold bch2_btree_node_iter_sort. rewrite (set_end_spec _ 2 s2 C) by done. bind_simpl. destruct C as [|z C]; cbn [negb].
  - bind_simpl. rewrite (set_end_spec _ 1 s1 B) by done. bind_simpl. destruct B as [|y B]; cbn [negb].
    + do 4 eexists. split; [reflexivity|]. split; [|reflexivity]. split; [by exists s0, s1, s2|by destruct A].
    + destruct (sort_two_0 s0 s1 s2 A (y :: B) H0 H1 (HBA ltac:(done)) ltac:(done)) as (r & -> & Hr & _). bind_simpl.
      destruct r; do 4 eexists; (split; [reflexivity|]); (split; [split; [do 3 eexists; eauto|]|perm3]);
        (split; [exact Hr|done]).
  - specialize (HCB ltac:(done)). specialize (HBA HCB). destruct A as [|x A]; [done|]. destruct B as [|y B]; [done|].
    destruct (sort_two_0 s0 s1 s2 _ _ H0 H1 HBA HCB) as (r0 & -> & Hr0 & _). bind_simpl.
    destruct r0; cbn in Hr0.
    + destruct (sort_two_1 s1 s0 s2 _ _ H0 H2 ltac:(done) ltac:(done)) as (r1 & -> & Hr1 & _). bind_simpl.
      destruct r1.
      * erewrite (set_end_spec _ 1 s2); [|reflexivity|exact H2]. bind_simpl. cbn [negb].
        destruct (sort_two_0 s1 s2 s0 _ _ H1 H2 ltac:(done) ltac:(done)) as (r2 & -> & Hr2 & _). bind_simpl.
        destruct r2; sorted_ranges.
      * erewrite (set_end_spec _ 1 s0); [|reflexivity|exact H0]. bind_simpl. cbn [negb].
        destruct (sort_two_0 s1 s0 s2 _ _ H1 H0 ltac:(done) ltac:(done)) as (r2 & -> & Hr2 & _). bind_simpl.
        destruct r2; sorted_ranges.
    + destruct (sort_two_1 s0 s1 s2 _ _ H1 H2 ltac:(done) ltac:(done)) as (r1 & -> & Hr1 & _). bind_simpl.
      destruct r1.
      * erewrite (set_end_spec _ 1 s2); [|reflexivity|exact H2]. bind_simpl. cbn [negb].
        destruct (sort_two_0 s0 s2 s1 _ _ H0 H2 ltac:(done) ltac:(done)) as (r2 & -> & Hr2 & _). bind_simpl.
        destruct r2; sorted_ranges.
      * erewrite (set_end_spec _ 1 s1); [|reflexivity|exact H1]. bind_simpl. cbn [negb].
        destruct (sort_two_0 s0 s1 s2 _ _ H0 H1 ltac:(done) ltac:(done)) as (r2 & -> & Hr2 & _). bind_simpl.
        destruct r2; sorted_ranges.
Qed.

(** Dropping the first key of a range. *)
Lemma range_tail s x l : range_ok s (x :: l) -> exists n, key_u64s b x = Some n /\
  uadd 16 (it_k s) n = Some (it_k s + n) /\ it_k s + n <= it_end s /\ range_ok (mk_set (it_k s + n) (it_end s)) l.
Proof.
  intros [He Hc Hs]. inversion Hc as [|k n e l' Hk Hu Hn Hle Hc']; subst. exists n.
  split; [done|]. split; [apply uadd_ok; lia|]. split; [done|]. split; [done|done|].
  by inversion Hs.
Qed.

(** One step of the iterator: the first key is gone, the order is restored. *)
Lemma advance_spec iter x A B C : iter_ok iter (x :: A) B C ->
  exists iter' A' B' C', bch2_btree_node_iter_advance iter b = Some iter' /\ iter_ok iter' A' B' C' /\
    [A'; B'; C'] ≡ₚ [A; B; C].
Proof.
  intros ((s0 & s1 & s2 & Ed & H0 & H1 & H2) & HAB & HBC). destruct iter as [d]. cbn in Ed. subst d.
  unfold bch2_btree_node_iter_advance, __bch2_btree_node_iter_advance, __bch2_btree_node_iter_peek_all.
  cbn [it_data lookup list_lookup]. bind_simpl.
  destruct (range_tail s0 x A H0) as (n & Hu & Ea & Hle & H0').
  destruct (range_head s0 x A H0) as [E0 _]. rewrite E0, Hu. bind_simpl. rewrite <- E0, Ea. bind_simpl.
  rewrite (proj2 (assert_true _)) by (by apply Z.leb_le). bind_simpl.
  cbn [it_data insert list_insert]. set (s0' := mk_set _ _) in *.
  rewrite (set_end_spec _ 0 s0' A) by done. bind_simpl.
  destruct A as [|a A].
  { do 4 eexists. split; [reflexivity|]. split; [split; [exists s1, s2, (mk_set 0 0)|]|].
    - split; [done|]. split; [exact H1|]. split; [exact H2|apply empty_range].
    - split; [done|by destruct C].
    - etransitivity; [apply perm_skip, perm_swap|]. apply perm_swap. }
  rewrite (set_end_spec _ 1 s1 B) by done. bind_simpl. destruct B as [|y B].
  { do 4 eexists. split; [reflexivity|]. split; [split; [do 3 eexists; eauto|]|reflexivity]. split; [done|by destruct C]. }
  destruct (sort_two_0 s0' s1 s2 _ _ H0' H1 ltac:(done) ltac:(done)) as (r0 & -> & Hr0 & _). bind_simpl.
  destruct r0; cbn [negb].
  2: { do 4 eexists. split; [reflexivity|]. split; [split; [do 3 eexists; eauto|]|reflexivity]. by split. }
  rewrite (set_end_spec _ 2 s2 C) by done. bind_simpl. destruct C as [|z C].
  { do 4 eexists. split; [reflexivity|]. split; [split; [do 3 eexists; eauto|]|perm3]. by split. }
  destruct (sort_two_1 s1 s0' s2 _ _ H0' H2 ltac:(done) ltac:(done)) as (r1 & -> & Hr1 & _). bind_simpl.
  destruct r1; sorted_ranges.
Qed.

Lemma concat_perm (l l' : list (list Z)) : l ≡ₚ l' -> concat l ≡ₚ concat l'.
Proof.
  induction 1 as [|x l l' _ IH|x y l|l1 l2 l3 _ IH1 _ IH2]; cbn; [done|by rewrite IH| |by rewrite IH1].
  rewrite !app_assoc. by rewrite (Permutation_app_comm y x).
Qed.

(** The first key is the least of all. *)
Lemma iter_ok_least iter x A B C : iter_ok iter (x :: A) B C -> Forall (val_le x) (concat [A; B; C]).
Proof.
  intros ((s0 & s1 & s2 & _ & H0 & H1 & H2) & HAB & HBC). cbn [concat]. rewrite app_nil_r. unfold val_le.
  assert (forall s y l, range_ok s (y :: l) -> val x <= val y -> Forall (fun z => val x <= val z) (y :: l)) as Hall.
  { intros s y l [_ _ Hs] Hle. inversion Hs as [|? ? _ Hf]; subst. constructor; [done|].
    eapply Forall_impl; [exact Hf|]. intros z Hz. unfold val_le in Hz. cbn in *. lia. }
  apply Forall_app. split; [|apply Forall_app; split].
  - pose proof (Hall s0 x A H0 ltac:(lia)) as Hf. by inversion Hf.
  - destruct B as [|y B]; [done|]. by apply (Hall s1).
  - destruct C as [|z C]; [done|]. apply (Hall s2); [done|]. destruct B as [|y B]; [done|]. cbn in *. lia.
Qed.

(** All keys an iterator returns. *)
Fixpoint iter_all (fuel : nat) (iter : btree_node_iter) : option (list Z) :=
  match fuel with
  | O => None
  | S fuel =>
      '(r, iter) ← bch2_btree_node_iter_next_all iter b;
      match r with
      | None => Some []
      | Some k => ks ← iter_all fuel iter; Some (k :: ks)
      end
  end.

Lemma peek_all_spec iter A B C : ranges iter A B C ->
  bch2_btree_node_iter_peek_all iter = Some (head A).
Proof.
  intros (s0 & s1 & s2 & Ed & H0 & _). unfold bch2_btree_node_iter_peek_all. rewrite Ed. bind_simpl.
  pose proof (range_end s0 A H0) as He. unfold set_is_end in He. cbn [lookup list_lookup]. bind_simpl.
  rewrite He. destruct A as [|x A]; [done|]. cbn. by destruct (range_head s0 x A H0) as [-> _].
Qed.

Lemma iter_all_spec n : forall iter A B C, iter_ok iter A B C -> (length (concat [A; B; C]) < n)%nat ->
  exists ks, iter_all n iter = Some ks /\ StronglySorted val_le ks /\ ks ≡ₚ concat [A; B; C].
Proof.
  induction n as [|n IH]; intros iter A B C Hok Hn; [lia|]. cbn [iter_all].
  unfold bch2_btree_node_iter_next_all. rewrite (peek_all_spec iter A B C (proj1 Hok)). bind_simpl.
  destruct A as [|x A]; cbn [head].
  - bind_simpl. exists []. split; [done|]. split; [constructor|].
    destruct Hok as (_ & HAB & HBC). destruct B; [|done]. by destruct C.
  - destruct (advance_spec iter x A B C Hok) as (iter' & A' & B' & C' & -> & Hok' & HP). bind_simpl.
    apply concat_perm in HP. destruct (IH iter' A' B' C' Hok') as (ks & -> & Hs & HPk).
    { rewrite HP. cbn [concat app length] in Hn |- *. lia. }
    bind_simpl. exists (x :: ks). split; [done|]. rewrite HP in HPk. split.
    + constructor; [done|]. rewrite HPk. by eapply iter_ok_least.
    + rewrite HPk. done.
Qed.

(** Skipping deleted keys. *)
Lemma peek_loop_spec n : forall iter A B C, iter_ok iter A B C -> (length (concat [A; B; C]) <= n)%nat ->
  exists r iter' A' B' C', peek_loop n iter b = Some (r, iter') /\ iter_ok iter' A' B' C' /\ r = head A' /\
    exists skipped, skipped ++ concat [A'; B'; C'] ≡ₚ concat [A; B; C] /\
      Forall (fun k => bkey_deleted (key_mem b k) = true) skipped /\
      match r with
      | None => concat [A'; B'; C'] = []
      | Some k => bkey_deleted (key_mem b k) = false /\ Forall (val_le k) (concat [A'; B'; C'])
      end.
Proof.
  induction n as [|n IH]; intros iter A B C Hok Hn; cbn [peek_loop];
    rewrite (peek_all_spec iter A B C (proj1 Hok)); bind_simpl; destruct A as [|x A]; cbn [head].
  1, 3: do 5 eexists; split; [reflexivity|]; split; [exact Hok|]; split; [done|]; exists []; split; [done|];
    split; [done|]; destruct Hok as (_ & HAB & HBC); destruct B; [|done]; by destruct C.
  - cbn in Hn. lia.
  - destruct (bkey_deleted (key_mem b x)) eqn:Ex; cbn [negb].
    2: { do 5 eexists. split; [reflexivity|]. split; [exact Hok|]. split; [done|]. exists []. split; [done|].
         split; [done|]. split; [done|]. cbn [concat app]. constructor; [unfold val_le; lia|].
         by eapply (iter_ok_least iter). }
    destruct (advance_spec iter x A B C Hok) as (iter' & A' & B' & C' & -> & Hok' & HP). bind_simpl.
    apply concat_perm in HP. destruct (IH iter' A' B' C' Hok') as (r & it & A2 & B2 & C2 & -> & Hok2 & Hr & sk & HPs & Hdel & Hm).
    { rewrite HP. cbn [concat app length] in Hn |- *. lia. }
    do 5 eexists. split; [reflexivity|]. split; [exact Hok2|]. split; [done|]. exists (x :: sk).
    split; [|split; [by constructor|done]]. cbn [concat app] in *. by rewrite HPs, HP.
Qed.

(** The nonempty ranges [F] come first, the others are the default. *)
Definition filled (iter : btree_node_iter) (F : list (list Z)) : Prop :=
  exists ss, it_data iter = ss ++ replicate (3 - length F) (mk_set 0 0) /\ Forall2 range_ok ss F /\
    Forall (fun l => l <> []) F /\ (length F <= 3)%nat.

Lemma filled_default : filled btree_node_iter_default [].
Proof. exists []. split; [done|]. split; [constructor|]. split; [constructor|cbn; lia]. Qed.

Lemma filled_used iter F : filled iter F -> __btree_node_iter_used iter = Some (length F).
Proof.
  intros (ss & Ed & H2 & Hne & Hl). destruct iter as [d]. cbn in Ed. subst d.
  assert (forall d i s l, d !! i = Some s -> range_ok s l -> l <> [] ->
    __btree_node_iter_set_end (mk_iter d) i = Some false) as Hfull
    by (intros d i s l E Hs Hl'; rewrite (set_end_spec d i s l E Hs); by destruct l).
  assert (forall d i, d !! i = Some (mk_set 0 0) -> __btree_node_iter_set_end (mk_iter d) i = Some true) as Hend
    by (intros d i E; by rewrite (set_end_spec d i _ [] E empty_range)).
  unfold __btree_node_iter_used, MAX_BSETS. cbn [used_loop].
  destruct H2 as [|s0 A ss F H0 H2]; [done|]. apply Forall_cons_1 in Hne as [HA Hne].
  destruct H2 as [|s1 B ss F H1 H2].
  { rewrite (Hend _ 2%nat) by done. bind_simpl. rewrite (Hend _ 1%nat) by done. bind_simpl. by rewrite (Hfull _ 0%nat s0 A). }
  apply Forall_cons_1 in Hne as [HB Hne]. destruct H2 as [|s2 C ss F H2' H2].
  { rewrite (Hend _ 2%nat) by done. bind_simpl. by rewrite (Hfull _ 1%nat s1 B). }
  apply Forall_cons_1 in Hne as [HC Hne]. destruct H2; [|cbn in Hl; lia].
  by rewrite (Hfull _ 2%nat s2 C).
Qed.

Lemma iter_push_spec iter F k e L : filled iter F -> range_ok (mk_set k e) L -> 0 <= k -> (length F < 3)%nat ->
  exists iter', __bch2_btree_node_iter_push iter k e = Some iter' /\
    filled iter' (match L with [] => F | _ => F ++ [L] end).
Proof.
  intros HF HL Hk Hlt. unfold __bch2_btree_node_iter_push. pose proof (range_end _ _ HL) as He.
  unfold set_is_end in He. cbn in He. rewrite He. destruct L as [|x L]; cbn [negb]; [by exists iter|].
  rewrite (filled_used iter F HF). bind_simpl. unfold MAX_BSETS.
  rewrite (proj2 (assert_true _)) by (by apply Nat.ltb_lt). bind_simpl.
  pose proof (chain_le _ _ _ (ro_chain _ _ HL)) as Hke. pose proof (ro_end _ _ HL) as He16. cbn in Hke, He16.
  unfold __btree_node_key_to_offset. rewrite !(proj2 (assert_true _)) by (apply andb_true_iff; split; [apply Z.leb_le|apply Z.ltb_lt]; lia).
  bind_simpl. destruct HF as (ss & Ed & H2 & Hne & Hl). eexists. split; [reflexivity|]. cbn [it_data]. rewrite Ed.
  exists (ss ++ [mk_set k e]). pose proof (Forall2_length _ _ _ H2) as Hss. split; [|split; [|split]].
  - cbn [it_data]. rewrite length_app. cbn [length]. rewrite insert_app_r_alt by lia. rewrite Hss, Nat.sub_diag, <- app_assoc.
    f_equal. replace (3 - length F)%nat with (S (3 - (length F + 1))) by lia. done.
  - apply Forall2_app; [done|]. constructor; [done|constructor].
  - apply Forall_app. split; [done|]. by constructor.
  - rewrite length_app. cbn. lia.
Qed.

(** The range of a bset. *)
Definition set_range (t : bset_tree) (L : list Z) : Prop :=
  0 <= data_offset t /\ data_offset t + 3 < 2 ^ 16 /\ range_ok (mk_set (data_offset t + 3) (end_offset t)) L.

Lemma push_sets_spec ts Ls : Forall2 set_range ts Ls -> forall iter F, filled iter F ->
  (length F + length ts <= 3)%nat ->
  exists iter' F', push_sets iter ts = Some iter' /\ filled iter' F' /\ concat F' = concat F ++ concat Ls.
Proof.
  induction 1 as [|t L ts Ls (H0 & H16 & Hr) _ IH]; intros iter F HF Hl.
  - exists iter, F. split; [done|]. split; [done|]. by rewrite app_nil_r.
  - cbn [length] in Hl. cbn [push_sets]. unfold btree_bkey_first, btree_bkey_first_offset.
    rewrite uadd_ok by lia. bind_simpl.
    destruct (iter_push_spec iter F _ _ L HF Hr ltac:(lia) ltac:(lia)) as (iter1 & E & HF1). unfold btree_bkey_last.
    rewrite E. bind_simpl. destruct (IH iter1 _ HF1) as (iter' & F' & E' & HF' & Hc).
    { destruct L; [lia|]. rewrite length_app. cbn. lia. }
    exists iter', F'. split; [done|]. split; [done|]. rewrite Hc. cbn [concat].
    destruct L as [|x L]; [done|]. rewrite concat_app. cbn [concat]. by rewrite app_nil_r, <- app_assoc.
Qed.

Lemma filled_ranges iter F : filled iter F -> exists A B C, ranges iter A B C /\ packed_sets A B C /\
  concat [A; B; C] = concat F.
Proof.
  intros (ss & Ed & H2 & Hne & Hl). pose proof empty_range as He.
  destruct H2 as [|s0 A ss F H0 H2].
  { exists [], [], []. split; [by exists (mk_set 0 0), (mk_set 0 0), (mk_set 0 0)|]. by split. }
  apply Forall_cons_1 in Hne as [HA Hne]. destruct H2 as [|s1 B ss F H1 H2].
  { exists A, [], []. split; [by exists s0, (mk_set 0 0), (mk_set 0 0)|]. by split. }
  apply Forall_cons_1 in Hne as [HB Hne]. destruct H2 as [|s2 C ss F H2' H2].
  { exists A, B, []. split; [by exists s0, s1, (mk_set 0 0)|]. by split. }
  destruct H2; [|cbn in Hl; lia]. exists A, B, C. split; [by exists s0, s1, s2|]. by split.
Qed.

Lemma iter_start_spec Ls : Forall2 set_range (b_set b) Ls -> (length (b_set b) <= 3)%nat ->
  exists iter A B C, bch2_btree_node_iter_init_from_start b = Some iter /\ iter_ok iter A B C /\
    concat [A; B; C] ≡ₚ concat Ls.
Proof.
  intros Hs Hl. unfold bch2_btree_node_iter_init_from_start.
  destruct (push_sets_spec _ _ Hs _ _ filled_default ltac:(cbn; lia)) as (iter & F & -> & HF & Hc). bind_simpl.
  destruct (filled_ranges iter F HF) as (A & B & C & Hr & Hp & Hf).
  destruct (sort_spec iter A B C Hr Hp) as (iter' & A' & B' & C' & -> & Hok & HP).
  exists iter', A', B', C'. split; [done|]. split; [done|]. rewrite (concat_perm _ _ HP), Hf, Hc. done.
Qed.

(** Keys lie in the words of the node, so there are at most as many. *)
Lemma chain_length k e l : chain k e l -> (0 <= k) ->
  (length l <= length (b_words b))%nat.
Proof.
  intros Hc H0. assert (l = [] \/ Z.of_nat (length l) + k <= Z.of_nat (length (b_words b))) as [->|H];
    [|cbn; lia|lia].
  induction Hc as [e|k n e l Hk Hu Hn Hle Hc IH]; [by left|right].
  assert (k < Z.of_nat (length (b_words b))) as Hlt.
  { unfold key_u64s in Hu. rewrite (proj2 (assert_true _)) in Hu by (apply Z.leb_le; lia).
    destruct (b_words b !! Z.to_nat k) as [w|] eqn:E; [|done]. apply lookup_lt_Some in E. lia. }
  destruct (IH ltac:(lia)) as [->|H]; cbn [length]; lia.
Qed.
End Iter.

(** ** The order of the keys of a node *)

Record node_wf (b : btree) : Prop := {
  nw_format : format_wf (b_format b);
  nw_bits : b_nr_key_bits b = bits_sum (f_bits (b_format b)) 3
}.

(** There is a key at this offset. *)
Definition node_key (b : btree) (k : Z) : Prop :=
  in_range 16 k /\ exists key, holds_key (b_format b) (key_mem b k) key.

Definition key_pos (b : btree) (k : Z) : bpos :=
  default POS_MIN (bkey_unpack_pos (b_format b) (key_mem b k)).

(** Position, then deleted keys before live ones, then the address. *)
Definition key_val (b : btree) (k : Z) : Z :=
  (bpos_val (key_pos b k) * 2 ^ 1 + Z.b2z (negb (bkey_deleted (key_mem b k)))) * 2 ^ 16 + k.

Lemma unpack_pos_spec f m key : format_wf f -> holds_key f m key -> bkey_unpack_pos f m = Some (k_p key).
Proof.
  intros Hf [Hk [[Hh Hp]|[Hn Hu]]]; unfold bkey_unpack_pos.
  - rewrite (header_ok_packed f m Hh). apply __bkey_unpack_pos_spec; [done|done|apply Hk|].
    by apply packed_key_pos.
  - by rewrite Hn, Hu.
Qed.

#[export] Instance node_iter_order b (Hb : node_wf b) : IterOrder b (node_key b) (key_val b).
Proof.
  destruct Hb as [Hf Hn]. split. intros l r (Hl16 & kl & Hl) (Hr16 & kr & Hr).
  unfold bkey_iter_cmp, key_val, key_pos. rewrite Hn, (cmp_packed_spec _ _ _ kl kr Hf Hl Hr). bind_simpl.
  rewrite (unpack_pos_spec _ _ kl Hf Hl), (unpack_pos_spec _ _ kr Hf Hr). cbn [default from_option id].
  assert (bpos_wf (k_p kl) /\ bpos_wf (k_p kr)) as [Wl Wr] by (split; [apply Hl|apply Hr]).
  rewrite (bpos_cmp_val _ _ Wl Wr). set (x := bpos_val (k_p kl)). set (y := bpos_val (k_p kr)).
  unfold in_range in *. set (dl := bkey_deleted _). set (dr := bkey_deleted _).
  destruct (Z.compare_spec x y) as [Heq|Hlt|Hgt]; cbn [cmp_sign Z.eqb negb].
  - destruct dl, dr; cbn [Z.b2z negb Z.sub Z.opp Z.add Z.eqb Z.pos_sub]; eexists; (split; [reflexivity|]);
      try (destruct (Z.compare_spec l r)); cbn [cmp_sign Z.ltb Z.compare]; symmetry; apply Z.ltb_lt || apply Z.ltb_ge; lia.
  - eexists. split; [reflexivity|]. symmetry. apply Z.ltb_ge. destruct dl, dr; cbn [Z.b2z negb]; lia.
  - eexists. split; [reflexivity|]. symmetry. apply Z.ltb_lt. destruct dl, dr; cbn [Z.b2z negb]; lia.
Qed.

(** The keys of a node's sets, each set in order. *)
Definition node_ok (b : btree) (Ls : list (list Z)) : Prop :=
  node_wf b /\ (length (b_set b) <= 3)%nat /\ Forall2 (set_range b (node_key b) (key_val b)) (b_set b) Ls.

(** ** Properties *)

Lemma node_range_length b s l : node_wf b -> range_ok b (node_key b) (key_val b) s l ->
  (length l <= length (b_words b))%nat.
Proof.
  intros Hb [_ Hc _]. destruct l as [|x l]; [cbn; lia|]. eapply chain_length; [exact Hc|].
  inversion Hc as [|? ? ? ? [Hr _]]; subst. unfold in_range in Hr. lia.
Qed.

(** There is fuel for every key that is left. *)
Lemma order_fuel b (Hb : node_wf b) iter A B C : iter_ok b (node_key b) (key_val b) iter A B C ->
  (length (concat [A; B; C]) <= iter_fuel b)%nat.
Proof.
  intros ((s0 & s1 & s2 & _ & H0 & H1 & H2) & _). unfold iter_fuel. cbn [concat]. rewrite !length_app.
  pose proof (node_range_length b s0 A Hb H0). pose proof (node_range_length b s1 B Hb H1).
  pose proof (node_range_length b s2 C Hb H2). cbn. lia.
Qed.

(** C30: An iterator started at the beginning of a node returns every key of
    its sets exactly once, in the order of positions, a deleted key before a
    live one at the same position, and then ends. *)
Theorem node_iter_merges (b : btree) (Ls : list (list Z)) (Hnode : node_ok b Ls) :
  exists iter ks, bch2_btree_node_iter_init_from_start b = Some iter /\
    iter_all b (S (length (concat Ls))) iter = Some ks /\
    StronglySorted (val_le (key_val b)) ks /\ ks ≡ₚ concat Ls.
Proof.
  destruct Hnode as (Hb & Hl & Hs). pose proof (node_iter_order b Hb) as Hio.
  destruct (iter_start_spec b _ _ Ls Hs Hl) as (iter & A & B & C & E & Hok & HP).
  destruct (iter_all_spec b _ _ (S (length (concat Ls))) iter A B C Hok) as (ks & Ek & Hk & HPk).
  { rewrite HP. lia. }
  exists iter, ks. split; [done|]. split; [done|]. split; [done|]. by rewrite HPk.
Qed.

(** The first live key. *)
Lemma peek_live_spec (b : btree) (iter : btree_node_iter) (A B C : list Z)
    (Hb : node_wf b) (Hok : iter_ok b (node_key b) (key_val b) iter A B C) :
  exists r iter' A' B' C', bch2_btree_node_iter_peek iter b = Some (r, iter') /\
    iter_ok b (node_key b) (key_val b) iter' A' B' C' /\
    match r with
    | None => Forall (fun k => bkey_deleted (key_mem b k) = true) (concat [A; B; C])
    | Some k => k ∈ concat [A; B; C] /\ bkey_deleted (key_mem b k) = false /\
        forall y, y ∈ concat [A; B; C] -> bkey_deleted (key_mem b y) = false -> key_val b k <= key_val b y
    end.
Proof.
  pose proof (node_iter_order b Hb) as Hio.
  pose proof (order_fuel b Hb iter A B C Hok) as Hfuel.
  destruct (peek_loop_spec b _ _ _ iter A B C Hok Hfuel)
    as (r & iter' & A' & B' & C' & E & Hok' & Hr & sk & HP & Hdel & Hm).
  exists r, iter', A', B', C'. split; [exact E|]. split; [done|]. destruct r as [k|].
  - destruct Hm as [Hlive Hmin]. destruct A' as [|x A']; [done|]. injection Hr as ->. split; [|split; [done|]].
    + rewrite <- HP. apply elem_of_app. right. cbn. left.
    + intros y Hy Hly. rewrite <- HP in Hy. apply elem_of_app in Hy as [Hy|Hy].
      * rewrite Forall_forall in Hdel. rewrite (Hdel y Hy) in Hly. done.
      * rewrite Forall_forall in Hmin. by apply Hmin.
  - rewrite Hm, app_nil_r in HP. by rewrite <- HP.
Qed.

(** Peeking returns the least key of the remaining ones that is not
    deleted, or nothing when all of them are, and leaves an iterator in
    order; the loop over deleted keys ends. *)
Theorem node_iter_peek_live (b : btree) (iter : btree_node_iter) (A B C : list Z)
    (Hb : node_wf b) (Hok : iter_ok b (node_key b) (key_val b) iter A B C) :
  exists r iter' A' B' C', bch2_btree_node_iter_peek iter b = Some (r, iter') /\
    iter_ok b (node_key b) (key_val b) iter' A' B' C' /\
    match r with
    | None => Forall (fun k => bkey_deleted (key_mem b k) = true) (concat [A; B; C])
    | Some k => k ∈ concat [A; B; C] /\ bkey_deleted (key_mem b k) = false /\
        forall y, y ∈ concat [A; B; C] -> bkey_deleted (key_mem b y) = false -> key_val b k <= key_val b y
    end.
Proof. by apply peek_live_spec. Qed.

(** A node with two sets of unpacked keys; the second one deletes position
    30 of the first. *)
Definition sample_key (type_ offset : Z) : list Z := [5 + 2 ^ 8 + type_ * 2 ^ 16; 0; 0; offset; 1].
Definition sample_node : btree :=
  mk_btree BKEY_FORMAT_CURRENT 160
    ([0; 0; 0] ++ sample_key 1 10 ++ sample_key 1 30 ++ [0; 0; 0] ++ sample_key 1 20 ++ sample_key 0 30)
    [mk_bset_tree 0 BSET_NO_AUX_TREE_VAL 0 0 13; mk_bset_tree 0 BSET_NO_AUX_TREE_VAL 13 0 26].

Lemma sample_node_ok : node_ok sample_node [[3; 8]; [16; 21]].
Proof.
  assert (forall k t o, in_range 16 k -> key_mem sample_node k = sample_key t o ++ drop 5 (key_mem sample_node k) ->
    bkey_packed (key_mem sample_node k) = false -> unpacked_pos (key_mem sample_node k) = SPOS 1 o 0 ->
    in_range 64 o -> node_key sample_node k) as Hkey.
  { intros k t o Hk _ Hp Hu Ho. split; [done|]. exists (mk_bkey 5 1 1 ZERO_VERSION 0 (SPOS 1 o 0)).
    split; [|by right]. unfold bkey_wf, bversion_wf, bpos_wf, in_range in *. cbn. lia. }
  split; [split|split; [cbn; lia|]].
  - apply current_format_wf.
  - reflexivity.
  - assert (node_key sample_node 3 /\ node_key sample_node 8 /\ node_key sample_node 16 /\ node_key sample_node 21)
      as (H3 & H8 & H16 & H21).
    { split; [apply (Hkey 3 1 10)|split; [apply (Hkey 8 1 30)|split; [apply (Hkey 16 1 20)|apply (Hkey 21 0 30)]]];
        (vm_compute; done) || (unfold in_range; lia). }
    constructor; [|constructor; [|constructor]]; (split; [cbn; lia|]); (split; [cbn; lia|]); split; cbn [it_end it_k data_offset end_offset]; try lia.
    + apply (chain_cons _ _ 3 5); [done|done|lia|lia|]. apply (chain_cons _ _ 8 5); [done|done|lia|lia|]. constructor.
    + repeat constructor. unfold val_le. vm_compute. done.
    + apply (chain_cons _ _ 16 5); [done|done|lia|lia|]. apply (chain_cons _ _ 21 5); [done|done|lia|lia|]. constructor.
    + repeat constructor. unfold val_le. vm_compute. done.
Qed.

Lemma node_iter_merges_witness :
  exists iter, bch2_btree_node_iter_init_from_start sample_node = Some iter /\
    iter_all sample_node 5 iter = Some [3; 16; 21; 8].
Proof.
  destruct (node_iter_merges sample_node [[3; 8]; [16; 21]] sample_node_ok) as (iter & ks & E & Ek & _).
  exists iter. split; [exact E|]. vm_compute in E. injection E as <-. vm_compute. reflexivity.
Defined.

Lemma node_iter_peek_live_witness :
  exists r iter', bch2_btree_node_iter_peek (mk_iter [mk_set 21 26; mk_set 8 13; mk_set 0 0]) sample_node
    = Some (r, iter') /\ r = Some 8.
Proof.
  destruct sample_node_ok as (Hb & _ & Hs). inversion Hs as [|t0 L0 ts Ls Hr0 Hs1]; subst.
  inversion Hs1 as [|t1 L1 ts1 Ls1 Hr1 _]; subst.
  destruct Hr0 as (_ & _ & Hr0). destruct Hr1 as (_ & _ & Hr1).
  apply range_tail in Hr0 as (n0 & E0 & _ & _ & Hr0). apply range_tail in Hr1 as (n1 & E1 & _ & _ & Hr1).
  vm_compute in E0, E1. injection E0 as <-. injection E1 as <-.
  destruct (node_iter_peek_live sample_node (mk_iter [mk_set 21 26; mk_set 8 13; mk_set 0 0]) [21] [8] [])
    as (r & iter' & A' & B' & C' & E & _ & _).
  - exact Hb.
  - split; [|split; [vm_compute; discriminate|exact I]].
    exists (mk_set 21 26), (mk_set 8 13), (mk_set 0 0). split; [reflexivity|]. split; [exact Hr1|].
    split; [exact Hr0|apply empty_range].
  - exists r, iter'. split; [exact E|]. vm_compute in E. injection E as <- <-. reflexivity.
Defined.
