(* ===== verification/BsetSearch.v ===== *)
(** * Searching a bset ([btree/bset_search.rs])

    A search in a set of keys finds the first key that is not before the
    position searched for, in two parts: an auxiliary structure gives a key
    from which on the keys are then compared one by one.  The auxiliary data
    of a set (a sorted table of keys for a set that is being written, a tree
    of abbreviated keys in Eytzinger order for one that is not) is a list
    of entries here. *)

From stdpp Require Import base tactics list option sorting.
From Stdlib Require Import ZArith Lia.
From S2P Require Import Prelude Eytzinger Bpos BkeyPack BkeyOrder NodeIter.

Open Scope Z_scope.

Inductive bset_aux_type := BSET_NO_AUX_TREE | BSET_RO_AUX_TREE | BSET_RW_AUX_TREE.

Definition bset_aux_tree_type (t : bset_tree) : option bset_aux_type :=
  if extra t =? BSET_NO_AUX_TREE_VAL then _ ← assert (size t =? 0); Some BSET_NO_AUX_TREE
  else if extra t =? BSET_RW_AUX_TREE_VAL then _ ← assert (negb (size t =? 0)); Some BSET_RW_AUX_TREE
  else _ ← assert (negb (size t =? 0)); Some BSET_RO_AUX_TREE.

Record rw_aux_tree := mk_rw_aux_tree { rw_offset : Z; rw_k : bpos }.
Record bkey_float := mk_bkey_float { exponent : Z; key_offset : Z; mantissa : Z }.
Definition BFLOAT_FAILED : Z := MAX 8.

(** The auxiliary data of a set, and the address of the node's data, which
    decides where its cache lines begin. *)
Record aux := mk_aux { aux_rw : list rw_aux_tree; aux_ro : list bkey_float; aux_addr : Z }.

Definition is_ro (t : bset_tree) : option unit :=
  ty ← bset_aux_tree_type t;
  match ty with BSET_RO_AUX_TREE => Some tt | _ => None end.
Definition is_rw (t : bset_tree) : option unit :=
  ty ← bset_aux_tree_type t;
  match ty with BSET_RW_AUX_TREE => Some tt | _ => None end.

Definition ro_aux_tree_base (a : aux) (t : bset_tree) (j : Z) : option bkey_float :=
  _ ← is_ro t; aux_ro a !! Z.to_nat j.
Definition rw_aux_tree_base (a : aux) (t : bset_tree) (j : Z) : option rw_aux_tree :=
  _ ← is_rw t; aux_rw a !! Z.to_nat j.

(** Addresses of the lines; keys are offsets again. *)
Definition bset_cacheline (a : aux) (t : bset_tree) (cacheline : Z) : option Z :=
  first ← btree_bkey_first t;
  Some (Z.ldiff (aux_addr a + 8 * first) 63 + cacheline * BSET_CACHELINE).

Definition cacheline_to_bkey (a : aux) (t : bset_tree) (cacheline offset : Z) : option Z :=
  line ← bset_cacheline a t cacheline; Some ((line + offset * 8 - aux_addr a) / 8).

Definition bkey_to_cacheline (a : aux) (t : bset_tree) (k : Z) : option Z :=
  line ← bset_cacheline a t 0;
  d ← usub (aux_addr a + 8 * k) line;
  Some (d / BSET_CACHELINE mod 2 ^ 32).

Definition tree_to_bkey (a : aux) (t : bset_tree) (j : Z) : option Z :=
  f ← ro_aux_tree_base a t j;
  n ← usub (size t) 1;
  line ← __eytzinger1_to_inorder j n (extra t);
  cacheline_to_bkey a t line (key_offset f).

Definition rw_aux_to_bkey (a : aux) (t : bset_tree) (j : Z) : option Z :=
  e ← rw_aux_tree_base a t j; Some (rw_offset e).

(** The two scans from the guessed index. *)
Fixpoint bsearch_up (fuel : nat) (a : aux) (t : bset_tree) (offset idx : Z) : option Z :=
  if idx <? size t then
    e ← rw_aux_tree_base a t idx;
    if rw_offset e <? offset then
      match fuel with O => None | S fuel => bsearch_up fuel a t offset (idx + 1) end
    else Some idx
  else Some idx.

Fixpoint bsearch_down (fuel : nat) (a : aux) (t : bset_tree) (offset idx : Z) : option Z :=
  if negb (idx =? 0) then
    e ← rw_aux_tree_base a t (idx - 1);
    if offset <=? rw_offset e then
      match fuel with O => None | S fuel => bsearch_down fuel a t offset (idx - 1) end
    else Some idx
  else Some idx.

Definition rw_aux_tree_bsearch (a : aux) (t : bset_tree) (offset : Z) : option Z :=
  first ← btree_bkey_first_offset t;
  bset_offs ← usub offset first;
  bset_u64s ← usub (end_offset t) first;
  idx ← (if negb (bset_u64s =? 0) then p ← umul 32 bset_offs (size t); Some (p / bset_u64s) else Some 0);
  _ ← is_rw t;
  _ ← assert (idx <=? size t);
  let fuel := Z.to_nat (size t) in
  idx ← bsearch_up fuel a t (offset mod 2 ^ 16) idx;
  bsearch_down fuel a t (offset mod 2 ^ 16) idx.

(** Sixteen bits of a packed key from bit [exponent] on. *)
Definition bkey_mantissa (k : list Z) (f : bkey_float) : option Z :=
  _ ← assert (bkey_packed k);
  let p := Z.shiftr (exponent f) 3 in
  let word := wval k (length k) / 2 ^ (8 * p) mod 2 ^ 64 in
  Some (Z.shiftr word (Z.land (exponent f) 7) mod 2 ^ 16).

(** ** Comparison with the position searched for

    The packed form of the position is the memory of a key. *)

Definition bkey_cmp_p_or_unp (b : btree) (l : Z) (r_packed : option (list Z)) (r : bpos) : option Z :=
  if negb (bkey_packed (key_mem b l)) then Some (bpos_cmp (unpacked_pos (key_mem b l)) r) else
  match r_packed with
  | Some r_packed =>
      _ ← assert (bkey_packed r_packed);
      bch2_bkey_cmp_packed (b_format b) (b_nr_key_bits b) (key_mem b l) r_packed
  | None => p ← bkey_unpack_pos (b_format b) (key_mem b l); Some (bpos_cmp p r)
  end.

Definition bkey_iter_cmp_p_or_unp (b : btree) (l : Z) (r_packed : option (list Z)) (r : bpos) : option Z :=
  ret ← bkey_cmp_p_or_unp b l r_packed r;
  Some (if negb (ret =? 0) then ret else - Z.b2z (bkey_deleted (key_mem b l))).

(** [bkey_iter_pos_cmp] of [bset_search.rs]. *)
Definition search_iter_pos_cmp (b : btree) (l : Z) (r : bpos) : option Z :=
  p ← bkey_unpack_pos (b_format b) (key_mem b l);
  let ret := bpos_cmp p r in
  Some (if negb (ret =? 0) then ret else - Z.b2z (bkey_deleted (key_mem b l))).

(** ** The searches *)

Fixpoint write_set_loop (fuel : nat) (a : aux) (t : bset_tree) (search : bpos) (l r : Z) : option Z :=
  if negb (l + 1 =? r) then
    match fuel with
    | O => None
    | S fuel =>
        let m := Z.shiftr (l + r) 1 in
        e ← rw_aux_tree_base a t m;
        if bpos_cmp (rw_k e) search <? 0 then write_set_loop fuel a t search m r
        else write_set_loop fuel a t search l m
    end
  else Some l.

Definition bset_search_write_set (a : aux) (t : bset_tree) (search : bpos) : option Z :=
  l ← write_set_loop (Z.to_nat (size t)) a t search 0 (size t);
  rw_aux_to_bkey a t l.

Definition bkey_mantissa_bits_dropped (b : btree) (f : bkey_float) : option bool :=
  start ← usub (f_key_u64s (b_format b) * 64) (b_nr_key_bits b);
  Some (start <? exponent f).

(** The descent: a key found on the way, or the slot below a leaf. *)
Fixpoint search_tree_loop (fuel : nat) (b : btree) (a : aux) (t : bset_tree) (search : bpos)
    (packed_search : list Z) (n : Z) : option (Z + Z * bkey_float) :=
  match fuel with
  | O => None
  | S fuel =>
      f ← ro_aux_tree_base a t n;
      step ← (if exponent f <? BFLOAT_FAILED then
                r ← bkey_mantissa packed_search f;
                dropped ← bkey_mantissa_bits_dropped b f;
                Some (if negb (mantissa f =? r) || negb dropped then Some (mantissa f <? r) else None)
              else Some None);
      match step with
      | Some go_right =>
          let n := n * 2 + Z.b2z go_right in
          if n <? size t then search_tree_loop fuel b a t search packed_search n else Some (inr (n, f))
      | None =>
          k ← tree_to_bkey a t n;
          cmp ← bkey_cmp_p_or_unp b k (Some packed_search) search;
          if cmp =? 0 then Some (inl k) else
          let n := n * 2 + Z.b2z (cmp <? 0) in
          if size t <=? n then Some (inr (n, f)) else search_tree_loop fuel b a t search packed_search n
      end
  end.

Definition bset_search_tree (b : btree) (a : aux) (t : bset_tree) (search : bpos) (packed_search : list Z)
  : option Z :=
  r ← search_tree_loop (Z.to_nat (size t)) b a t search packed_search 1;
  match r with
  | inl k => Some k
  | inr (n, f) =>
      sz ← usub (size t) 1;
      inorder ← __eytzinger1_to_inorder (Z.shiftr n 1) sz (extra t);
      if Z.land n 1 =? 0 then
        inorder ← usub inorder 1;
        if inorder =? 0 then btree_bkey_first t else
        j ← eytzinger1_prev (Z.shiftr n 1) sz;
        f ← ro_aux_tree_base a t j;
        cacheline_to_bkey a t inorder (key_offset f)
      else cacheline_to_bkey a t inorder (key_offset f)
  end.

Definition __bch2_bset_search (b : btree) (a : aux) (t : bset_tree) (search : bpos)
    (lossy_packed_search : list Z) : option Z :=
  ty ← bset_aux_tree_type t;
  match ty with
  | BSET_NO_AUX_TREE => btree_bkey_first t
  | BSET_RW_AUX_TREE => bset_search_write_set a t search
  | BSET_RO_AUX_TREE => bset_search_tree b a t search lossy_packed_search
  end.

(** Keys are passed while [cmp] puts them before the position. *)
Fixpoint skip_loop (fuel : nat) (b : btree) (cmp : Z -> option Z) (end_ m : Z) : option Z :=
  if negb (m =? end_) then
    c ← cmp m;
    if c <? 0 then
      match fuel with
      | O => None
      | S fuel => m ← bkey_p_next b m; skip_loop fuel b cmp end_ m
      end
    else Some m
  else Some m.

(** [None] for [packed_search] is the Rust [None]; the lossy key is never
    null where this is called. *)
Definition bch2_bset_search_linear (b : btree) (t : bset_tree) (search : bpos)
    (packed_search : option (list Z)) (lossy_packed_search : option (list Z)) (m : Z) : option Z :=
  let end_ := btree_bkey_last t in
  let fuel := length (b_words b) in
  m ← match lossy_packed_search with
      | Some lossy => skip_loop fuel b (fun m => bkey_iter_cmp_p_or_unp b m (Some lossy) search) end_ m
      | None => Some m
      end;
  match packed_search with
  | None => skip_loop fuel b (fun m => search_iter_pos_cmp b m search) end_ m
  | Some _ => Some m
  end.

(** ** The previous key *)

Fixpoint prev_ro_loop (fuel : nat) (a : aux) (t : bset_tree) (first k j : Z) : option Z :=
  p ← (if negb (j =? 0) then
         sz ← usub (size t) 1;
         i ← __inorder_to_eytzinger1 j sz (extra t);
         tree_to_bkey a t i
       else Some first);
  if p <? k then Some p else
  match fuel with
  | O => None
  | S fuel => prev_ro_loop fuel a t first k (if j =? 0 then 0 else j - 1)
  end.

Definition __bkey_prev (a : aux) (t : bset_tree) (k : Z) : option (option Z) :=
  first ← btree_bkey_first t;
  _ ← assert ((first <=? k) && (k <=? btree_bkey_last t));
  if k =? first then Some None else
  ty ← bset_aux_tree_type t;
  match ty with
  | BSET_NO_AUX_TREE => Some (Some first)
  | BSET_RO_AUX_TREE =>
      sz ← usub (size t) 1;
      line ← bkey_to_cacheline a t k;
      p ← prev_ro_loop (Z.to_nat (size t)) a t first k (Z.min sz line);
      Some (Some p)
  | BSET_RW_AUX_TREE =>
      offset ← __btree_node_key_to_offset k;
      j ← rw_aux_tree_bsearch a t offset;
      if negb (j =? 0) then p ← rw_aux_to_bkey a t (j - 1); Some (Some p) else Some (Some first)
  end.

(** The last key of the wanted types between two keys. *)
Fixpoint scan_loop (fuel : nat) (b : btree) (min_key_type i k : Z) (ret : option Z) : option (option Z) :=
  if negb (i =? k) then
    let ret := if min_key_type <=? kp_type (key_mem b i) then Some i else ret in
    match fuel with
    | O => None
    | S fuel => i ← bkey_p_next b i; scan_loop fuel b min_key_type i k ret
    end
  else Some ret.

Fixpoint prev_filter_loop (fuel : nat) (b : btree) (a : aux) (t : bset_tree) (min_key_type k : Z)
    (ret : option Z) : option (option Z) :=
  p ← __bkey_prev a t k;
  match p, ret with
  | None, _ => Some ret
  | _, Some _ => Some ret
  | Some p, None =>
      ret ← scan_loop (length (b_words b)) b min_key_type p k None;
      match fuel with
      | O => None
      | S fuel => prev_filter_loop fuel b a t min_key_type p ret
      end
  end.

Definition bch2_bkey_prev_filter (b : btree) (a : aux) (t : bset_tree) (k min_key_type : Z) : option (option Z) :=
  prev_filter_loop (S (length (b_words b))) b a t min_key_type k None.

Definition bch2_bkey_prev_all (b : btree) (a : aux) (t : bset_tree) (k : Z) : option (option Z) :=
  bch2_bkey_prev_filter b a t k 0.

Definition prepare_search_key (b : btree) (search : bpos) (packed : list Z)
  : option (bkey_pack_pos_ret * list Z) :=
  bch2_bkey_pack_pos_lossy packed search (b_format b).

(** ** Keys before the position searched for *)

(** Deleted keys come before the position they are at. *)
Definition below (b : btree) (s : bpos) (k : Z) : bool :=
  (bpos_val (key_pos b k) <? bpos_val s)
  || ((bpos_val (key_pos b k) =? bpos_val s) && bkey_deleted (key_mem b k)).

Lemma below_cmp b s k c : (c = cmp_sign (bpos_val (key_pos b k) ?= bpos_val s)) ->
  ((if negb (c =? 0) then c else - Z.b2z (bkey_deleted (key_mem b k))) <? 0) = below b s k.
Proof.
  intros ->. unfold below. destruct (Z.compare_spec (bpos_val (key_pos b k)) (bpos_val s)) as [E|Hlt|Hgt].
  - rewrite E, Z.ltb_irrefl, (Z.eqb_refl (bpos_val s)). destruct (bkey_deleted _); reflexivity.
  - rewrite (proj2 (Z.ltb_lt _ _) Hlt). done.
  - rewrite (proj2 (Z.ltb_ge (bpos_val (key_pos b k)) (bpos_val s))) by lia.
    by rewrite (proj2 (Z.eqb_neq (bpos_val (key_pos b k)) (bpos_val s))) by lia.
Qed.

(** What is below is a prefix of a sorted set. *)
Lemma below_down b s x y : val_le (key_val b) x y -> in_range 16 x -> in_range 16 y ->
  below b s y = true -> below b s x = true.
Proof.
  unfold val_le, key_val, below, in_range. intros Hle Hx Hy Hb.
  apply orb_true_iff in Hb. apply orb_true_iff.
  destruct (bkey_deleted (key_mem b x)), (bkey_deleted (key_mem b y)); cbn [negb Z.b2z] in Hle;
    rewrite ?andb_true_r, ?andb_false_r in *; rewrite ?Z.ltb_lt, ?Z.eqb_eq in *; lia.
Qed.

Lemma search_cmp_spec b s k : node_wf b -> bpos_wf s -> node_key b k ->
  exists c, search_iter_pos_cmp b k s = Some c /\ (c <? 0) = below b s k.
Proof.
  intros [Hf _] Hs (_ & key & Hk). unfold search_iter_pos_cmp.
  rewrite (unpack_pos_spec _ _ key Hf Hk). bind_simpl. eexists. split; [reflexivity|]. apply below_cmp.
  unfold key_pos. rewrite (unpack_pos_spec _ _ key Hf Hk). cbn [default from_option id].
  apply bpos_cmp_val; [apply Hk|done].
Qed.

(** The packed form [m] of a position [q] that is at most [s]. *)
Record lossy_key (f : bkey_format) (s : bpos) (m : list Z) (q : bpos) : Prop := {
  lk_wf : bpos_wf q;
  lk_packed : packed_as f m [inode q; offset q; snapshot q];
  lk_format : kp_format m = KEY_FORMAT_LOCAL_BTREE;
  lk_le : bpos_val q <= bpos_val s
}.

(** The packed form of a position is the best there is. *)
Record search_key (f : bkey_format) (s : bpos) (m : list Z) (q : bpos) : Prop := {
  sk_lossy : lossy_key f s m q;
  sk_best p : packable f p -> bpos_val p <= bpos_val s -> bpos_val p <= bpos_val q
}.

Lemma lossy_cmp_spec b s m q k : node_wf b -> bpos_wf s -> node_key b k -> lossy_key (b_format b) s m q ->
  exists c, bkey_iter_cmp_p_or_unp b k (Some m) s = Some c /\ ((c <? 0) = true -> below b s k = true) /\
    (q = s -> (c <? 0) = below b s k).
Proof.
  intros [Hf Hn] Hs (_ & key & Hk) [Wq Hq Hm Hle]. unfold bkey_iter_cmp_p_or_unp, bkey_cmp_p_or_unp.
  assert (key_pos b k = k_p key) as Ekp by (unfold key_pos; by rewrite (unpack_pos_spec _ _ key Hf Hk)).
  pose proof Hk as [Wk [[Hh Hp]|[Hu Ep]]].
  - rewrite (header_ok_packed _ _ Hh). cbn [negb].
    assert (bkey_packed m = true) as Hmp by (unfold bkey_packed; by rewrite Hm).
    rewrite Hmp. cbn [assert]. bind_simpl. unfold bch2_bkey_cmp_packed. rewrite (header_ok_packed _ _ Hh), Hmp. cbn [andb].
    pose proof (packed_key_pos _ _ _ Hf Hp) as Pl.
    destruct (packed_pos_val _ _ _ Hf Pl) as (b0&b1&b2&?&?&?&->&Hbits&_). bind_simpl.
    rewrite Hn, Hbits, Z.eqb_refl. cbn [assert]. bind_simpl. rewrite <- Hbits, (cmp_packed_packed _ _ _ _ _ Hf Pl Hq).
    eexists. split; [reflexivity|]. rewrite (bpos_cmp_val (k_p key) q) by (apply Wk || done).
    assert (((if negb (cmp_sign (bpos_val (k_p key) ?= bpos_val q) =? 0)
             then cmp_sign (bpos_val (k_p key) ?= bpos_val q)
             else - Z.b2z (bkey_deleted (key_mem b k))) <? 0) = below b q k) as E
      by (apply below_cmp; by rewrite Ekp).
    rewrite E. split; [|by intros ->]. unfold below. rewrite !orb_true_iff, !andb_true_iff, !Z.ltb_lt, !Z.eqb_eq.
    rewrite Ekp. destruct (bkey_deleted (key_mem b k)); intuition (done || lia).
  - rewrite Hu. cbn [negb]. bind_simpl. eexists. split; [reflexivity|]. rewrite Ep.
    rewrite (below_cmp b s k); [done|]. rewrite Ekp. apply bpos_cmp_val; [apply Wk|done].
Qed.

Section Search.
Context (b : btree) (Hb : node_wf b) (s : bpos) (Hs : bpos_wf s).

Notation kchain := (chain b (node_key b)).

Lemma chain_keys k e l : kchain k e l -> Forall (node_key b) l.
Proof. induction 1; by constructor. Qed.

Lemma chain_app k e l1 l2 : kchain k e (l1 ++ l2) -> exists m, kchain k m l1 /\ kchain m e l2.
Proof.
  revert k. induction l1 as [|x l1 IH]; intros k Hc; [exists k; split; [constructor|done]|].
  inversion Hc as [|? n ? ? Hk Hu Hn Hle Hc']; subst. destruct (IH _ Hc') as (m & H1 & H2).
  exists m. split; [|done]. pose proof (chain_le _ _ _ _ _ H1). by apply (chain_cons _ _ x n).
Qed.

(** Passing keys one by one. *)
Lemma skip_loop_spec cmp (P : Z -> bool) e l : forall fuel m, kchain m e l ->
  (forall k, k ∈ l -> exists c, cmp k = Some c /\ (c <? 0) = P k) -> (length l <= fuel)%nat ->
  exists r pre post, skip_loop fuel b cmp e m = Some r /\ l = pre ++ post /\ kchain r e post /\
    Forall (fun k => P k = true) pre /\ match post with [] => True | k :: _ => P k = false end.
Proof.
  induction l as [|x l IH]; intros fuel m Hc Hcmp Hf.
  - inversion Hc; subst. exists e, [], []. split; [|done]. destruct fuel; cbn; by rewrite Z.eqb_refl.
  - inversion Hc as [|? n ? ? Hk Hu Hn Hle Hc']; subst. destruct fuel as [|fuel]; [cbn in Hf; lia|].
    pose proof (chain_le _ _ _ _ _ Hc'). cbn [skip_loop]. rewrite (proj2 (Z.eqb_neq x e)) by lia. cbn [negb].
    destruct (Hcmp x ltac:(left)) as (c & -> & Ec). bind_simpl. rewrite Ec. destruct (P x) eqn:EP.
    + unfold bkey_p_next. rewrite Hu. bind_simpl.
      destruct (IH fuel (x + n) Hc') as (r & pre & post & E & -> & Hr & Hpre & Hpost);
        [intros k Hin; apply Hcmp; by right|cbn in Hf; lia|].
      exists r, (x :: pre), post. split; [done|]. split; [done|]. split; [done|]. split; [by constructor|done].
    + exists x, [], (x :: l). by repeat split.
Qed.

Lemma chain_in k e l x : kchain k e l -> x ∈ l -> in_range 16 x.
Proof. intros Hc Hx. pose proof (chain_keys _ _ _ Hc) as H. rewrite Forall_forall in H. by apply H. Qed.

(** In a sorted set the first key that is not below ends the ones below. *)
Lemma not_below_all k e l : kchain k e l -> StronglySorted (val_le (key_val b)) l ->
  match l with [] => True | x :: _ => below b s x = false end -> Forall (fun x => below b s x = false) l.
Proof.
  intros Hc Hsorted Hh. destruct Hsorted as [|x l Hsl Hf]; [done|]. constructor; [done|].
  apply Forall_forall. intros y Hy. destruct (below b s y) eqn:Ey; [|done]. rewrite <- Hh. symmetry.
  apply (below_down b s x y); [by eapply Forall_forall in Hf|..|done].
  - eapply chain_in; [exact Hc|left].
  - eapply chain_in; [exact Hc|by right].
Qed.

(** The linear search from a key before which all keys are below. *)
Lemma linear_spec t L L1 L2 m lossy q packed_search :
  L = L1 ++ L2 -> kchain m (end_offset t) L2 -> 0 <= m -> StronglySorted (val_le (key_val b)) L ->
  Forall (fun k => below b s k = true) L1 -> lossy_key (b_format b) s lossy q ->
  (packed_search = None \/ q = s) ->
  exists r pre post, bch2_bset_search_linear b t s packed_search (Some lossy) m = Some r /\ L = pre ++ post /\
    kchain r (end_offset t) post /\ Forall (fun k => below b s k = true) pre /\
    Forall (fun k => below b s k = false) post.
Proof.
  intros -> Hc H0 Hsorted HL1 Hlk Hps. unfold bch2_bset_search_linear, btree_bkey_last.
  pose proof (chain_keys _ _ _ Hc) as Hkeys. rewrite Forall_forall in Hkeys.
  pose proof (chain_length _ _ _ _ _ Hc H0) as Hlen.
  assert (forall k, k ∈ L2 -> exists c, bkey_iter_cmp_p_or_unp b k (Some lossy) s = Some c /\
    (c <? 0) = (default 0 (bkey_iter_cmp_p_or_unp b k (Some lossy) s) <? 0)) as Hcmp.
  { intros k Hk. destruct (lossy_cmp_spec b s lossy q k Hb Hs (Hkeys k Hk) Hlk) as (c & -> & _). eauto. }
  destruct (skip_loop_spec _ _ _ L2 (length (b_words b)) m Hc Hcmp Hlen) as (r & pre & post & -> & -> & Hr & Hpre & Hpost).
  bind_simpl.
  assert (Forall (fun k => below b s k = true) pre) as Hpre'.
  { rewrite Forall_forall in Hpre |- *. intros k Hk. specialize (Hpre k Hk).
    destruct (lossy_cmp_spec b s lossy q k Hb Hs (Hkeys k ltac:(apply elem_of_app; by left)) Hlk) as (c & E & H & _).
    rewrite E in Hpre. by apply H. }
  assert (forall l1 l2, L1 ++ pre ++ post = l1 ++ l2 -> StronglySorted (val_le (key_val b)) l2) as Hsuf.
  { intros l1 l2 E. rewrite E in Hsorted. clear -Hsorted. induction l1; [done|]. inversion Hsorted. auto. }
  destruct packed_search as [ps|].
  - destruct Hps as [|Hq]; [done|]. exists r, (L1 ++ pre), post. split; [done|]. split; [by rewrite app_assoc|].
    split; [done|]. split; [by apply Forall_app|]. eapply not_below_all; [exact Hr|by apply (Hsuf (L1 ++ pre)); rewrite app_assoc|].
    destruct post as [|x post]; [done|].
    destruct (lossy_cmp_spec b s lossy q x Hb Hs (Hkeys x ltac:(apply elem_of_app; right; left)) Hlk) as (c & E & _ & H).
    rewrite E in Hpost. by rewrite <- (H Hq).
  - assert (forall k, k ∈ post -> exists c, search_iter_pos_cmp b k s = Some c /\ (c <? 0) = below b s k) as Hcmp2
      by (intros k Hk; apply search_cmp_spec; [done..|apply Hkeys, elem_of_app; by right]).
    destruct (skip_loop_spec _ _ _ post (length (b_words b)) r Hr Hcmp2) as (r2 & pre2 & post2 & -> & -> & Hr2 & Hpre2 & Hpost2).
    { rewrite length_app in Hlen. lia. }
    exists r2, (L1 ++ pre ++ pre2), post2. split; [done|]. split; [by rewrite <- !app_assoc|]. split; [done|].
    split; [by apply Forall_app; split; [|apply Forall_app]|].
    eapply not_below_all; [exact Hr2|apply (Hsuf (L1 ++ pre ++ pre2)); by rewrite <- !app_assoc|done].
Qed.

(** The table of a set that is being written: the first entry is the first
    key, every other entry is a key of the set with its position. *)
Record rw_ok (a : aux) (t : bset_tree) (L : list Z) : Prop := {
  rw_len : Z.of_nat (length (aux_rw a)) = size t;
  rw_first e : aux_rw a !! O = Some e -> rw_offset e = data_offset t + 3;
  rw_key j e : aux_rw a !! S j = Some e -> rw_offset e ∈ L /\ rw_k e = key_pos b (rw_offset e)
}.

(** The kinds of sets whose search is proved: without auxiliary data, or
    with a table. *)
Definition aux_ok (a : aux) (t : bset_tree) (L : list Z) : Prop :=
  bset_aux_tree_type t = Some BSET_NO_AUX_TREE \/
  bset_aux_tree_type t = Some BSET_RW_AUX_TREE /\ rw_ok a t L.

Lemma rw_base a t j e : bset_aux_tree_type t = Some BSET_RW_AUX_TREE -> aux_rw a !! Z.to_nat j = Some e ->
  rw_aux_tree_base a t j = Some e.
Proof. intros Ht E. unfold rw_aux_tree_base, is_rw. rewrite Ht. bind_simpl. done. Qed.

Lemma write_set_loop_spec a t : bset_aux_tree_type t = Some BSET_RW_AUX_TREE ->
  Z.of_nat (length (aux_rw a)) = size t -> forall fuel l r, 0 <= l < r -> r <= size t ->
  r - l <= Z.of_nat fuel + 1 ->
  (l = 0 \/ exists e, aux_rw a !! Z.to_nat l = Some e /\ bpos_cmp (rw_k e) s < 0) ->
  exists l', write_set_loop fuel a t s l r = Some l' /\ 0 <= l' < size t /\
    (l' = 0 \/ exists e, aux_rw a !! Z.to_nat l' = Some e /\ bpos_cmp (rw_k e) s < 0).
Proof.
  intros Ht Hlen. induction fuel as [|fuel IH]; intros l r Hlr Hr Hf Hl; cbn [write_set_loop];
    destruct (Z.eqb_spec (l + 1) r) as [E|E]; cbn [negb].
  1, 3: exists l; split; [done|]; split; [lia|done].
  - lia.
  - rewrite Z.shiftr_div_pow2 by lia. change (2 ^ 1) with 2.
    assert (l < (l + r) / 2 < r) as Hm.
    { split; [apply Z.lt_le_trans with (l + 1); [lia|]; apply Z.div_le_lower_bound; lia|].
      apply Z.div_lt_upper_bound; lia. }
    destruct (lookup_lt_is_Some_2 (aux_rw a) (Z.to_nat ((l + r) / 2)) ltac:(lia)) as [e Ee].
    rewrite (rw_base a t _ e Ht Ee). bind_simpl. destruct (Z.ltb_spec (bpos_cmp (rw_k e) s) 0).
    + apply IH; [lia|lia|lia|right; eauto].
    + apply IH; [lia|lia|lia|done].
Qed.

Lemma sorted_split (l1 l2 : list Z) x : StronglySorted (val_le (key_val b)) (l1 ++ x :: l2) ->
  Forall (fun y => val_le (key_val b) y x) l1.
Proof.
  induction l1 as [|y l1 IH]; intros H; [constructor|]. inversion H as [|? ? Hs' Hf]; subst.
  apply Forall_app in Hf as [_ Hf]. apply Forall_cons_1 in Hf as [Hf _]. by constructor; [|apply IH].
Qed.

Lemma val_le_pos x y : in_range 16 x -> in_range 16 y -> val_le (key_val b) x y ->
  bpos_val (key_pos b x) <= bpos_val (key_pos b y).
Proof.
  unfold val_le, key_val, in_range. intros Hx Hy.
  destruct (bkey_deleted (key_mem b x)), (bkey_deleted (key_mem b y)); cbn [negb Z.b2z]; lia.
Qed.

Lemma key_pos_wf k : node_key b k -> bpos_wf (key_pos b k).
Proof.
  intros (_ & key & Hk). unfold key_pos. rewrite (unpack_pos_spec _ _ key (nw_format _ Hb) Hk). apply Hk.
Qed.

(** Where the auxiliary data lets the linear search begin. *)
Lemma search_start a t L lossy : set_range b (node_key b) (key_val b) t L -> aux_ok a t L ->
  exists m L1 L2, __bch2_bset_search b a t s lossy = Some m /\ L = L1 ++ L2 /\
    kchain m (end_offset t) L2 /\ 0 <= m /\ Forall (fun k => below b s k = true) L1.
Proof.
  intros (H0 & H16 & [He Hc Hsorted]) Haux. cbn [it_k it_end] in *.
  assert (btree_bkey_first t = Some (data_offset t + 3)) as Hfirst by (by apply uadd_ok).
  unfold __bch2_bset_search. destruct Haux as [->|[Ht [Hlen Hrf Hrk]]]; [bind_simpl|rewrite Ht; bind_simpl].
  { exists (data_offset t + 3), [], L. split; [done|]. split; [done|]. split; [done|]. split; [lia|constructor]. }
  assert (0 < size t) as Hsz.
  { unfold bset_aux_tree_type in Ht. destruct (extra t =? BSET_NO_AUX_TREE_VAL), (extra t =? BSET_RW_AUX_TREE_VAL);
      destruct (Z.eqb_spec (size t) 0); try done; lia. }
  unfold bset_search_write_set.
  destruct (write_set_loop_spec a t Ht Hlen (Z.to_nat (size t)) 0 (size t)) as (l & -> & Hl & Hle); [lia..|by left|].
  bind_simpl. unfold rw_aux_to_bkey.
  destruct (lookup_lt_is_Some_2 (aux_rw a) (Z.to_nat l) ltac:(lia)) as [e Ee].
  rewrite (rw_base a t l e Ht Ee). bind_simpl.
  destruct (Z.to_nat l) as [|j] eqn:Ej.
  { rewrite (Hrf e Ee). exists (data_offset t + 3), [], L. split; [done|]. split; [done|]. split; [done|]. split; [lia|constructor]. }
  destruct Hle as [->|(e' & Ee' & Hcmp)]; [done|]. rewrite Ee in Ee'. injection Ee' as <-.
  destruct (Hrk j e Ee) as [Hin Hk]. set (x := rw_offset e) in *.
  apply list_elem_of_split in Hin as (L1 & L2 & ->). destruct (chain_app _ _ _ _ Hc) as (m & Hc1 & Hc2).
  pose proof (chain_keys _ _ _ Hc) as Hkeys. rewrite Forall_forall in Hkeys.
  assert (m = x) as -> by (by inversion Hc2). inversion Hc2 as [|? ? ? ? Hxk]. exists x, L1, (x :: L2).
  split; [done|]. split; [done|]. split; [done|]. split; [destruct Hxk as [[? _] _]; done|].
  apply sorted_split in Hsorted. rewrite Forall_forall in Hsorted. apply Forall_forall. intros y Hy.
  pose proof (Hkeys y ltac:(apply elem_of_app; by left)) as Hyk.
  pose proof (val_le_pos y x (proj1 Hyk) (proj1 Hxk) (Hsorted y Hy)) as Hyx.
  rewrite Hk, (bpos_cmp_val _ _ (key_pos_wf x Hxk) Hs) in Hcmp.
  unfold below. rewrite (proj2 (Z.ltb_lt _ _)); [done|].
  destruct (Z.compare_spec (bpos_val (key_pos b x)) (bpos_val s)); cbn in Hcmp; lia.
Qed.

(** The whole search in one set. *)
Lemma search_set_spec t L m L1 L2 lossy q packed_search :
  set_range b (node_key b) (key_val b) t L -> L = L1 ++ L2 -> kchain m (end_offset t) L2 -> 0 <= m ->
  Forall (fun k => below b s k = true) L1 -> lossy_key (b_format b) s lossy q ->
  (packed_search = None \/ q = s) ->
  exists r post, bch2_bset_search_linear b t s packed_search (Some lossy) m = Some r /\
    range_ok b (node_key b) (key_val b) (mk_set r (end_offset t)) post /\
    post = List.filter (fun k => negb (below b s k)) L.
Proof.
  intros (H0 & H16 & [He Hc Hsorted]) HL Hm Hm0 HL1 Hlk Hps.
  destruct (linear_spec t L L1 L2 m lossy q packed_search HL Hm Hm0 Hsorted HL1 Hlk Hps)
    as (r & pre & post & E & Hpp & Hr & Hpre & Hpost).
  exists r, post. split; [done|]. split.
  - split; [done|done|]. rewrite Hpp in Hsorted. clear -Hsorted. induction pre; [done|]. inversion Hsorted. auto.
  - rewrite Hpp, List.filter_app. assert (List.filter (fun k => negb (below b s k)) pre = []) as ->.
    { clear -Hpre. induction Hpre as [|k pre Hk _ IH]; [done|]. cbn. by rewrite Hk. }
    clear -Hpost. cbn. induction Hpost as [|k post Hk _ IH]; [done|]. cbn. rewrite Hk. cbn. by f_equal.
Qed.
End Search.

(** ** Starting an iterator at a position ([btree/node_iter.rs]) *)

(** The keys found in the sets become the ranges that are not at their end. *)
Fixpoint place_sets (b : btree) (search : bpos) (packed_search : option (list Z)) (packed : list Z)
    (sets : list (bset_tree * aux)) (keys : list Z) : option (list btree_node_iter_set) :=
  match sets, keys with
  | (t, _) :: sets, key :: keys =>
      let end_ := btree_bkey_last t in
      key ← bch2_bset_search_linear b t search packed_search (Some packed) key;
      rest ← place_sets b search packed_search packed sets keys;
      if negb (key =? end_) then
        ko ← __btree_node_key_to_offset key;
        eo ← __btree_node_key_to_offset end_;
        Some (mk_set ko eo :: rest)
      else Some rest
  | _, _ => Some []
  end.

(** When the position cannot be packed, from the start of the node. *)
Fixpoint init_fail_loop (fuel : nat) (iter : btree_node_iter) (b : btree) (search : bpos) : option btree_node_iter :=
  '(k, iter) ← bch2_btree_node_iter_peek iter b;
  match k with
  | None => Some iter
  | Some k =>
      c ← bkey_iter_pos_cmp b k search;
      if 0 <=? c then Some iter else
      match fuel with
      | O => None
      | S fuel => iter ← bch2_btree_node_iter_advance iter b; init_fail_loop fuel iter b search
      end
  end.

(** [auxs] is the auxiliary data of the sets, [min_key] and [max_key] the
    bounds of the node.  The debug output at the end is left out. *)
Definition bch2_btree_node_iter_init (b : btree) (auxs : list aux) (min_key max_key search : bpos)
  : option btree_node_iter :=
  _ ← assert (0 <=? bpos_cmp search min_key);
  _ ← assert (bpos_cmp search max_key <=? 0);
  '(ret, packed) ← prepare_search_key b search (replicate 5 0);
  let sets := zip (b_set b) auxs in
  let go packed_search :=
    keys ← mapM (fun ta => __bch2_bset_search b ta.2 ta.1 search packed) sets;
    placed ← place_sets b search packed_search packed sets keys;
    _ ← assert (length placed <=? MAX_BSETS)%nat;
    bch2_btree_node_iter_sort (mk_iter (placed ++ replicate (MAX_BSETS - length placed) (mk_set 0 0))) b in
  match ret with
  | BKEY_PACK_POS_EXACT => go (Some packed)
  | BKEY_PACK_POS_SMALLER => go None
  | BKEY_PACK_POS_FAIL =>
      iter ← bch2_btree_node_iter_init_from_start b;
      init_fail_loop (iter_fuel b) iter b search
  end.

(** [bkey_packed::default()], five words. *)
Lemma zero_buffer_wf f : format_wf f -> buffer_wf f (replicate 5 0).
Proof. intros Hf. pose proof (fw_u64s f Hf). split; [repeat constructor; unfold in_range; lia|cbn; lia]. Qed.

Section Init.
Context (b : btree) (Hb : node_wf b) (s : bpos) (Hs : bpos_wf s).

Notation kchain := (chain b (node_key b)).
Notation range := (range_ok b (node_key b) (key_val b)).
Notation in_order := (iter_ok b (node_key b) (key_val b)).

(** A set with its keys and its auxiliary data. *)
Definition set_ok (ta : bset_tree * aux) (L : list Z) : Prop :=
  set_range b (node_key b) (key_val b) ta.1 L /\ aux_ok b ta.2 ta.1 L.

(** Where a linear search may begin. *)
Definition start_ok (ta : bset_tree * aux) (L : list Z) (m : Z) : Prop :=
  set_range b (node_key b) (key_val b) ta.1 L /\
  exists L1 L2, L = L1 ++ L2 /\ kchain m (end_offset ta.1) L2 /\ 0 <= m /\
    Forall (fun k => below b s k = true) L1.

Lemma starts_spec sets Ls lossy : Forall2 set_ok sets Ls ->
  exists keys, mapM (fun ta => __bch2_bset_search b ta.2 ta.1 s lossy) sets = Some keys /\
    Forall3 start_ok sets Ls keys.
Proof.
  induction 1 as [|ta L sets Ls [Hr Ha] _ IH]; [exists []; split; [done|constructor]|].
  destruct (search_start b Hb s Hs ta.2 ta.1 L lossy Hr Ha) as (m & L1 & L2 & E & H).
  destruct IH as (keys & Ek & Hk). exists (m :: keys). cbn [mapM]. rewrite E. bind_simpl. rewrite Ek. bind_simpl.
  split; [done|]. constructor; [|done]. split; [done|]. by exists L1, L2.
Qed.

Lemma place_spec sets Ls keys lossy q packed_search : Forall3 start_ok sets Ls keys ->
  lossy_key (b_format b) s lossy q -> (packed_search = None \/ q = s) ->
  exists placed F, place_sets b s packed_search lossy sets keys = Some placed /\ Forall2 range placed F /\
    Forall (fun l => l <> []) F /\ concat F = List.filter (fun k => negb (below b s k)) (concat Ls) /\
    (length placed <= length sets)%nat.
Proof.
  intros H3 Hlk Hps. induction H3 as [|[t a] L m sets Ls keys [Hr (L1 & L2 & HL & Hc & Hm & Hbel)] _ IH].
  - exists [], []. split; [done|]. split; [constructor|]. split; [constructor|]. split; [done|]. cbn. lia.
  - cbn [fst] in *. destruct IH as (placed & F & Ep & HF & Hne & Hcat & Hlen).
    destruct (search_set_spec b Hb s Hs t L m L1 L2 lossy q packed_search Hr HL Hc Hm Hbel Hlk Hps)
      as (r & post & Er & Hpost & Hfil).
    cbn [place_sets]. rewrite Er. bind_simpl. rewrite Ep. bind_simpl. unfold btree_bkey_last.
    pose proof (range_end _ _ _ _ _ Hpost) as He. unfold set_is_end in He. cbn [it_k it_end] in He. rewrite He.
    cbn [concat]. rewrite List.filter_app, <- Hfil. destruct post as [|x post]; cbn [negb].
    + exists placed, F. repeat (split; [done|]). cbn. lia.
    + destruct (range_head _ _ _ _ _ _ Hpost) as [Ex [Hx16 _]]. cbn in Ex. subst r.
      pose proof (ro_end _ _ _ _ _ Hpost) as He16. pose proof (chain_le _ _ _ _ _ (ro_chain _ _ _ _ _ Hpost)) as Hle.
      cbn in He16, Hle. unfold in_range in Hx16. unfold __btree_node_key_to_offset.
      rewrite !(proj2 (assert_true _)) by (apply andb_true_iff; split; [apply Z.leb_le|apply Z.ltb_lt]; lia). bind_simpl.
      exists (mk_set x (end_offset t) :: placed), ((x :: post) :: F). split; [done|]. split; [by constructor|].
      split; [by constructor|]. split; [cbn [concat]; by rewrite Hcat|cbn; lia].
Qed.

Lemma iter_pos_cmp_spec k : node_key b k -> exists c, bkey_iter_pos_cmp b k s = Some c /\ (0 <=? c) = negb (below b s k).
Proof.
  intros (_ & key & Hk). unfold bkey_iter_pos_cmp, bkey_cmp_left_packed.
  rewrite (unpack_pos_spec _ _ key (nw_format _ Hb) Hk). bind_simpl. eexists. split; [reflexivity|].
  rewrite <- (below_cmp b s k (bpos_cmp (k_p key) s)); [by rewrite Z.leb_antisym|].
  unfold key_pos. rewrite (unpack_pos_spec _ _ key (nw_format _ Hb) Hk). cbn [default from_option id].
  apply bpos_cmp_val; [apply Hk|done].
Qed.

Lemma in_order_key iter A B C x : in_order iter A B C -> x ∈ concat [A; B; C] -> node_key b x.
Proof.
  intros ((s0 & s1 & s2 & _ & H0 & H1 & H2) & _) Hx. cbn [concat] in Hx. rewrite app_nil_r, !elem_of_app in Hx.
  assert (forall st l, range st l -> x ∈ l -> node_key b x) as H.
  { intros st l Hr Hl. pose proof (chain_keys b _ _ _ (ro_chain _ _ _ _ _ Hr)) as Hf. by eapply Forall_forall in Hf. }
  destruct Hx as [Hx|[Hx|Hx]]; eauto.
Qed.

(** Keys that starting an iterator leaves out. *)
Definition skippable (k : Z) : Prop := bkey_deleted (key_mem b k) = true \/ below b s k = true.

Lemma fail_loop_spec n : forall iter A B C, in_order iter A B C -> (length (concat [A; B; C]) <= n)%nat ->
  exists iter' A' B' C' skipped, init_fail_loop n iter b s = Some iter' /\ in_order iter' A' B' C' /\
    skipped ++ concat [A'; B'; C'] ≡ₚ concat [A; B; C] /\ Forall skippable skipped /\
    Forall (fun k => below b s k = false) (concat [A'; B'; C']).
Proof.
  pose proof (node_iter_order b Hb) as Hio. induction n as [|n IH]; intros iter A B C Hok Hn;
    (assert (length (concat [A; B; C]) <= iter_fuel b)%nat as Hfuel by (by apply (order_fuel b Hb iter)));
    cbn [init_fail_loop]; destruct (peek_loop_spec b _ _ _ iter A B C Hok Hfuel)
      as (r & iter1 & A1 & B1 & C1 & E & Hok1 & Hr & sk & HP & Hdel & Hm);
    unfold bch2_btree_node_iter_peek; rewrite E; bind_simpl.
  all: assert (Forall skippable sk) as Hsk by (eapply Forall_impl; [exact Hdel|]; intros k Hk; by left).
  all: destruct r as [k|]; [|exists iter1, A1, B1, C1, sk; split; [done|]; split; [done|]; split; [done|]; split; [done|];
    rewrite Hm; constructor].
  - exfalso. destruct A1 as [|x A1]; [done|]. apply Permutation_length in HP. rewrite length_app in HP. cbn in HP, Hn. lia.
  - destruct Hm as [Hlive Hmin]. destruct A1 as [|x A1]; [done|]. injection Hr as ->.
    assert (node_key b x) as Hx by (eapply in_order_key; [exact Hok1|left]).
    destruct (iter_pos_cmp_spec x Hx) as (c & -> & Ec). bind_simpl. rewrite Ec.
    destruct (below b s x) eqn:Ebx; cbn [negb].
    + destruct (advance_spec b _ _ iter1 x A1 B1 C1 Hok1) as (iter2 & A2 & B2 & C2 & -> & Hok2 & HP2). bind_simpl.
      apply concat_perm in HP2. pose proof (Permutation_length HP) as Hlen. rewrite length_app in Hlen.
      destruct (IH iter2 A2 B2 C2 Hok2) as (iter3 & A3 & B3 & C3 & sk3 & -> & Hok3 & HP3 & Hsk3 & Hnb).
      { rewrite HP2. cbn [concat app length] in *. lia. }
      exists iter3, A3, B3, C3, (sk ++ x :: sk3). split; [done|]. split; [done|].
      split; [|split; [apply Forall_app; split; [done|]; constructor; [by right|done]|done]].
      rewrite <- HP, <- app_assoc. f_equiv. cbn [concat app] in *. by rewrite HP3, HP2.
    + exists iter1, (x :: A1), B1, C1, sk. split; [done|]. split; [done|]. split; [done|]. split; [done|].
      rewrite Forall_forall in Hmin |- *. intros y Hy. destruct (below b s y) eqn:Eby; [|done].
      rewrite <- Ebx. symmetry. apply (below_down b s x y); [by apply Hmin|apply Hx| |done].
      by apply (in_order_key _ _ _ _ y Hok1).
Qed.

Lemma filter_split (L : list Z) (p : Z -> bool) :
  List.filter p L ++ List.filter (fun k => negb (p k)) L ≡ₚ L.
Proof.
  induction L as [|x L IH]; [done|]. cbn. destruct (p x); cbn [negb app]; [by rewrite IH|].
  rewrite <- Permutation_middle. by rewrite IH.
Qed.

(** What every way to start an iterator gives: the keys of the node but for
    some that are deleted or before the position. *)
Definition starts_at (Ls : list (list Z)) (iter : btree_node_iter) : Prop :=
  exists A B C skipped, in_order iter A B C /\ skipped ++ concat [A; B; C] ≡ₚ concat Ls /\
    Forall skippable skipped /\ Forall (fun k => below b s k = false) (concat [A; B; C]).

Lemma placed_starts (sets : list (bset_tree * aux)) Ls placed F iter : (length sets <= 3)%nat -> (length placed <= length sets)%nat ->
  Forall2 range placed F -> Forall (fun l => l <> []) F ->
  concat F = List.filter (fun k => negb (below b s k)) (concat Ls) ->
  iter = mk_iter (placed ++ replicate (MAX_BSETS - length placed) (mk_set 0 0)) ->
  exists iter', bch2_btree_node_iter_sort iter b = Some iter' /\ starts_at Ls iter'.
Proof.
  intros Hl Hp HF Hne Hcat Ei. pose proof (node_iter_order b Hb) as Hio.
  destruct (filled_ranges b (node_key b) (key_val b) iter F) as (A & B & C & Hr & Hpk & Hc).
  { exists placed. rewrite Ei. cbn [it_data]. rewrite (Forall2_length _ _ _ HF) in *. repeat (split; [done|]). lia. }
  destruct (sort_spec b _ _ iter A B C Hr Hpk) as (iter' & A' & B' & C' & E & Hok & HP).
  exists iter'. split; [done|]. exists A', B', C', (List.filter (below b s) (concat Ls)). split; [done|].
  pose proof (concat_perm _ _ HP) as HPc. rewrite Hc, Hcat in HPc. split; [|split].
  - rewrite HPc. apply filter_split.
  - apply List.Forall_forall. intros k Hk%filter_In. right. apply Hk.
  - rewrite HPc. apply List.Forall_forall. intros k [_ Hk]%filter_In. by apply negb_true_iff.
Qed.

Lemma packed_search_key : exists r m, prepare_search_key b s (replicate 5 0) = Some (r, m) /\
  match r with
  | BKEY_PACK_POS_FAIL => True
  | _ => exists q, search_key (b_format b) s m q /\ (r = BKEY_PACK_POS_EXACT -> q = s)
  end.
Proof.
  destruct Hb as [Hf _]. pose proof (zero_buffer_wf _ Hf) as Hbuf.
  destruct (bch2_bkey_pack_pos_lossy_spec _ _ s Hf Hbuf Hs) as (r & m & E & Hr). exists r, m. split; [exact E|].
  assert (forall p p', bpos_wf p -> bpos_wf p' -> lex_le p p' <-> bpos_val p <= bpos_val p') as Hlex.
  { intros p p' Hp Hp'. by rewrite <- bpos_le_lex, (bpos_le_val _ _ Hp Hp'), Z.leb_le. }
  destruct r; [| |done]; destruct Hr as (q & [Wq Hq] & Hpa & _ & Hfm & _ & [Hle Hmax] & He); exists q;
    (split; [|intros Hx; by apply He]); (split; [split; [done|done|done|by apply Hlex]|]);
    intros p Hp Hps; (apply Hlex; [apply Hp|done|]); (apply Hmax; [done|]); (apply Hlex; [apply Hp|done|done]).
Qed.

(** Whatever lets the searches in the sets begin right. *)
Definition searchable (auxs : list aux) (Ls : list (list Z)) : Prop := forall m q, search_key (b_format b) s m q ->
  exists keys, mapM (fun ta => __bch2_bset_search b ta.2 ta.1 s m) (zip (b_set b) auxs) = Some keys /\
    Forall3 start_ok (zip (b_set b) auxs) Ls keys.

Lemma sets_searchable auxs Ls : Forall2 set_ok (zip (b_set b) auxs) Ls -> searchable auxs Ls.
Proof. intros Hok m q _. by apply starts_spec. Qed.

Lemma iter_init_spec auxs Ls min_key max_key : (length (b_set b) <= 3)%nat -> length auxs = length (b_set b) ->
  Forall2 (set_range b (node_key b) (key_val b)) (b_set b) Ls -> searchable auxs Ls ->
  bpos_wf min_key -> bpos_wf max_key -> bpos_val min_key <= bpos_val s <= bpos_val max_key ->
  exists iter, bch2_btree_node_iter_init b auxs min_key max_key s = Some iter /\ starts_at Ls iter.
Proof.
  intros Hl Ha Hsr Hsearch Wmin Wmax Hmm. unfold bch2_btree_node_iter_init.
  rewrite !bpos_cmp_val by done.
  rewrite (proj2 (assert_true _)) by (destruct (Z.compare_spec (bpos_val s) (bpos_val max_key)); done || (exfalso; lia)). bind_simpl.
  rewrite (proj2 (assert_true _)) by (destruct (Z.compare_spec (bpos_val s) (bpos_val min_key)); done || (exfalso; lia)). bind_simpl.
  destruct packed_search_key as (r & m & -> & Hr). bind_simpl.
  assert (length (zip (b_set b) auxs) <= 3)%nat as Hlz by (rewrite length_zip_with; lia).
  assert (forall q ps, search_key (b_format b) s m q -> (ps = None \/ q = s) ->
    exists iter, (keys ← mapM (fun ta => __bch2_bset_search b ta.2 ta.1 s m) (zip (b_set b) auxs);
      placed ← place_sets b s ps m (zip (b_set b) auxs) keys;
      _ ← assert (length placed <=? MAX_BSETS)%nat;
      bch2_btree_node_iter_sort (mk_iter (placed ++ replicate (MAX_BSETS - length placed) (mk_set 0 0))) b) = Some iter
      /\ starts_at Ls iter) as Hgo.
  { intros q ps Hsk Hps. destruct (Hsearch m q Hsk) as (keys & -> & H3). bind_simpl.
    destruct (place_spec _ Ls keys m q ps H3 (sk_lossy _ _ _ _ Hsk) Hps) as (placed & F & -> & HF & Hne & Hcat & Hlen). bind_simpl.
    rewrite (proj2 (assert_true _)) by (apply Nat.leb_le; unfold MAX_BSETS; lia). bind_simpl.
    by eapply placed_starts. }
  destruct r.
  - destruct Hr as (q & Hlk & Hq). apply (Hgo q); [done|right; by apply Hq].
  - destruct Hr as (q & Hlk & _). apply (Hgo q); [done|by left].
  - pose proof (node_iter_order b Hb) as Hio.
    destruct (iter_start_spec b _ _ Ls Hsr Hl) as (iter & A & B & C & -> & Hio' & HP). bind_simpl.
    destruct (fail_loop_spec (iter_fuel b) iter A B C Hio') as (iter' & A' & B' & C' & sk & -> & Hok' & HP' & Hsk & Hnb).
    { by apply (order_fuel b Hb iter). }
    exists iter'. split; [done|]. exists A', B', C', sk. split; [done|]. split; [|by split]. by rewrite HP'.
Qed.

Lemma live_below k : bkey_deleted (key_mem b k) = false -> below b s k = (bpos_val (key_pos b k) <? bpos_val s).
Proof. intros E. unfold below. by rewrite E, andb_false_r, orb_false_r. Qed.
End Init.

(** ** Properties *)

(** What peeking at an iterator that was started at a position must give. *)
Definition finds (b : btree) (Ls : list (list Z)) (search : bpos) (r : option Z) : Prop :=
  match r with
  | None => forall y, y ∈ concat Ls -> bkey_deleted (key_mem b y) = false -> bpos_val (key_pos b y) < bpos_val search
  | Some k => k ∈ concat Ls /\ bkey_deleted (key_mem b k) = false /\ bpos_val search <= bpos_val (key_pos b k) /\
      forall y, y ∈ concat Ls -> bkey_deleted (key_mem b y) = false -> bpos_val search <= bpos_val (key_pos b y) ->
        key_val b k <= key_val b y
  end.

Lemma iter_init_finds (b : btree) (auxs : list aux) (Ls : list (list Z)) (min_key max_key search : bpos)
    (Hb : node_wf b) (Hl : (length (b_set b) <= 3)%nat) (Ha : length auxs = length (b_set b))
    (Hsets : Forall2 (set_range b (node_key b) (key_val b)) (b_set b) Ls) (Hsearch : searchable b search auxs Ls)
    (Hmin : bpos_wf min_key) (Hmax : bpos_wf max_key) (Hs : bpos_wf search)
    (Hin : bpos_val min_key <= bpos_val search <= bpos_val max_key) :
  exists iter r iter', bch2_btree_node_iter_init b auxs min_key max_key search = Some iter /\
    bch2_btree_node_iter_peek iter b = Some (r, iter') /\ finds b Ls search r.
Proof.
  destruct (iter_init_spec b Hb search Hs auxs Ls min_key max_key Hl Ha Hsets Hsearch Hmin Hmax Hin)
    as (iter & E & A & B & C & sk & Hok & HP & Hsk & Hnb).
  destruct (peek_live_spec b iter A B C Hb Hok) as (r & iter' & A' & B' & C' & Ep & _ & Hr).
  exists iter, r, iter'. split; [done|]. split; [done|].
  assert (forall y, y ∈ concat Ls -> bkey_deleted (key_mem b y) = false ->
    bpos_val (key_pos b y) < bpos_val search \/ y ∈ concat [A; B; C]) as Hor.
  { intros y Hy Hd. rewrite <- HP in Hy. apply elem_of_app in Hy as [Hy|Hy]; [left|by right].
    rewrite Forall_forall in Hsk. destruct (Hsk y Hy) as [Hd'|Hbl]; [congruence|].
    rewrite (live_below b search y Hd) in Hbl. by apply Z.ltb_lt. }
  rewrite Forall_forall in Hnb. destruct r as [k|].
  - destruct Hr as (Hk & Hd & Hmin'). split; [rewrite <- HP; apply elem_of_app; by right|]. split; [done|]. split.
    + specialize (Hnb k Hk). rewrite (live_below b search k Hd) in Hnb. by apply Z.ltb_ge.
    + intros y Hy Hdy Hge. destruct (Hor y Hy Hdy) as [Hlt|Hin']; [lia|by apply Hmin'].
  - intros y Hy Hd. destruct (Hor y Hy Hd) as [Hlt|Hin']; [done|]. rewrite Forall_forall in Hr.
    rewrite (Hr y Hin') in Hd. done.
Qed.

(** With tables or nothing for the sets. *)
Lemma set_ok_finds (b : btree) (auxs : list aux) (Ls : list (list Z)) (min_key max_key search : bpos)
    (Hb : node_wf b) (Hl : (length (b_set b) <= 3)%nat) (Ha : length auxs = length (b_set b))
    (Hsets : Forall2 (set_ok b) (zip (b_set b) auxs) Ls)
    (Hmin : bpos_wf min_key) (Hmax : bpos_wf max_key) (Hs : bpos_wf search)
    (Hin : bpos_val min_key <= bpos_val search <= bpos_val max_key) :
  exists iter r iter', bch2_btree_node_iter_init b auxs min_key max_key search = Some iter /\
    bch2_btree_node_iter_peek iter b = Some (r, iter') /\ finds b Ls search r.
Proof.
  apply iter_init_finds; try done; [|by apply sets_searchable].
  clear -Hsets Ha. revert auxs Ls Ha Hsets. generalize (b_set b). induction l as [|t l IH]; intros [|a auxs] Ls Ha Hok;
    cbn in *; try done; inversion Hok as [|? ? ? ? [H _]]; subst; constructor; [exact H|]. apply (IH auxs); [lia|done].
Qed.
