(* ===== verification/BsetMem.v ===== *)
(** * The memory of a btree node ([btree/types.rs], [btree/bset_update.rs])

    The keys of a set lie one behind the other in the words of the node.
    Here are the copies of words an update is made of, the header of a set,
    and the view of a set as a row of blocks, one block of words per key. *)

From stdpp Require Import base tactics list option sorting.
From Stdlib Require Import ZArith Lia.
From S2P Require Import Prelude Bpos BkeyPack BkeyOrder NodeIter BsetSearch.

Open Scope Z_scope.

Definition with_words (b : btree) (ws : list Z) : btree := mk_btree (b_format b) (b_nr_key_bits b) ws (b_set b).
Definition with_set (b : btree) (i : nat) (t : bset_tree) : btree :=
  mk_btree (b_format b) (b_nr_key_bits b) (b_words b) (<[i := t]> (b_set b)).

(** ** Memory *)

(** [core::ptr::copy] of [n] words inside the node, and of words from
    elsewhere into it; outside of the node's memory is undefined, here a
    panic. *)
Definition write_words (ws : list Z) (dst : Z) (src : list Z) : option (list Z) :=
  _ ← assert ((0 <=? dst) && (dst + Z.of_nat (length src) <=? Z.of_nat (length ws)));
  Some (copy_words ws (Z.to_nat dst) src).

Definition move_words (ws : list Z) (src dst n : Z) : option (list Z) :=
  _ ← assert ((0 <=? src) && (src + n <=? Z.of_nat (length ws)));
  write_words ws dst (take (Z.to_nat n) (drop (Z.to_nat src) ws)).

(** The [u64s] field of a set's header is the upper sixteen bits of its third word. *)
Definition bset_header_u64s (b : btree) (t : bset_tree) : option Z :=
  w ← b_words b !! Z.to_nat (data_offset t + 2); Some (w / 2 ^ 48).

Definition set_bset_header_u64s (b : btree) (t : bset_tree) (v : Z) : option btree :=
  w ← b_words b !! Z.to_nat (data_offset t + 2);
  Some (with_words b (<[Z.to_nat (data_offset t + 2) := v * 2 ^ 48 + w mod 2 ^ 48]> (b_words b))).

Definition set_btree_bset_end (b : btree) (t : bset_tree) : option bset_tree :=
  n ← bset_header_u64s b t;
  let last := data_offset t + (3 + n) in
  _ ← assert (last <? 2 ^ 16);
  Some (mk_bset_tree (size t) (extra t) (data_offset t) (aux_data_offset t) last).

(** The index of the last set. *)
Definition bset_tree_last (b : btree) : option nat :=
  _ ← assert (negb (length (b_set b) =? 0)%nat); Some (length (b_set b) - 1)%nat.

Definition bkeyp_key_u64s (f : bkey_format) (m : list Z) : Z :=
  if bkey_packed m then f_key_u64s f else BKEY_U64S.
Definition bkeyp_val_u64s (f : bkey_format) (m : list Z) : Z := wsub 32 (kp_u64s m) (bkeyp_key_u64s f m).

(** The memory of an unpacked key. *)
Definition bkey_words (k : bkey) : list Z :=
  [v_lo (k_version k) mod 2 ^ 32 * 2 ^ 32 + k_type k * 2 ^ 16 + k_format k * 2 ^ 8 + k_u64s k;
   v_hi (k_version k) * 2 ^ 32 + v_lo (k_version k) / 2 ^ 32;
   snapshot (k_p k) * 2 ^ 32 + k_size k;
   offset (k_p k);
   inode (k_p k)].

(** The words behind the change move, the header and the end follow. *)
Definition resize_set (b : btree) (i : nat) (where_ clobber_u64s new_u64s : Z) : option btree :=
  t ← b_set b !! i;
  n ← usub (btree_bkey_last t) (where_ + clobber_u64s);
  ws ← move_words (b_words b) (where_ + clobber_u64s) (where_ + new_u64s) n;
  let b := with_words b ws in
  u ← bset_header_u64s b t;
  let u := u + new_u64s - clobber_u64s in
  _ ← assert ((0 <=? u) && (u <=? MAX 16));
  b ← set_bset_header_u64s b t u;
  t ← set_btree_bset_end b t;
  Some (with_set b i t).

(** * Keys in memory as blocks of words *)

(** A block is the memory of one key with its value. *)
Record block_ok (f : bkey_format) (x : list Z) : Prop := {
  bo_wf : words_wf x;
  bo_u64s : kp_u64s x = Z.of_nat (length x);
  bo_min : (if bkey_packed x then 1 else 5) <= Z.of_nat (length x);
  bo_key : exists key, holds_key f x key
}.

Definition block_pos (f : bkey_format) (x : list Z) : bpos := default POS_MIN (bkey_unpack_pos f x).

(** Where the blocks that begin at [k] lie. *)
Fixpoint offs (k : Z) (bs : list (list Z)) : list Z :=
  match bs with
  | [] => []
  | x :: bs => k :: offs (k + Z.of_nat (length x)) bs
  end.

Lemma offs_app k xs ys : offs k (xs ++ ys) = offs k xs ++ offs (k + Z.of_nat (length (concat xs))) ys.
Proof.
  revert k. induction xs as [|x xs IH]; intros k; cbn [offs concat app]; [f_equal; cbn; lia|].
  rewrite IH, length_app. do 3 f_equal. lia.
Qed.

Lemma word_app_l x r i : (i < length x)%nat -> word (x ++ r) i = word x i.
Proof. intros H. unfold word. by apply app_nth1. Qed.

Lemma wval_app_l x r n : (n <= length x)%nat -> wval (x ++ r) n = wval x n.
Proof. induction n as [|n IH]; intros H; [done|]. cbn [wval]. by rewrite word_app_l, IH by lia. Qed.

(** Only the block itself decides what it holds. *)
Section Block.
Context (f : bkey_format) (x r : list Z) (Hx : block_ok f x) (Hr : words_wf r).

Lemma block_len : (1 <= length x)%nat.
Proof. pose proof (bo_min _ _ Hx). destruct (bkey_packed x); lia. Qed.

Lemma block_word0 : word (x ++ r) 0 = word x 0.
Proof. pose proof block_len. apply word_app_l. lia. Qed.

Lemma block_u64s : kp_u64s (x ++ r) = kp_u64s x.
Proof. unfold kp_u64s. by rewrite block_word0. Qed.
Lemma block_type : kp_type (x ++ r) = kp_type x.
Proof. unfold kp_type. by rewrite block_word0. Qed.
Lemma block_format : kp_format (x ++ r) = kp_format x.
Proof. unfold kp_format. by rewrite block_word0. Qed.
Lemma block_packed : bkey_packed (x ++ r) = bkey_packed x.
Proof. unfold bkey_packed. by rewrite block_format. Qed.
Lemma block_deleted : bkey_deleted (x ++ r) = bkey_deleted x.
Proof. unfold bkey_deleted. by rewrite block_type. Qed.

Lemma block_holds key : holds_key f x key -> holds_key f (x ++ r) key.
Proof.
  intros [Hk H]. split; [done|]. destruct H as [[(H1 & H2 & H3) [[Hw Hlen] Hfit Hval]]|[Hp Hu]].
  - left. split; [by unfold header_ok; rewrite block_u64s, block_format|]. split; [split|done|].
    + by apply Forall_app.
    + rewrite length_app. lia.
    + rewrite wval_app_l by lia. done.
  - right. split; [by rewrite block_packed|]. pose proof (bo_min _ _ Hx) as Hm. rewrite Hp in Hm.
    unfold unpacked_pos in *. by rewrite !word_app_l by lia.
Qed.

Lemma block_pos_app : format_wf f -> default POS_MIN (bkey_unpack_pos f (x ++ r)) = block_pos f x.
Proof.
  intros Hf. destruct (bo_key _ _ Hx) as [key Hk]. unfold block_pos.
  by rewrite (unpack_pos_spec f x key Hf Hk), (unpack_pos_spec f (x ++ r) key Hf (block_holds key Hk)).
Qed.
End Block.

Lemma key_mem_app b A x R k : b_words b = A ++ x ++ R -> Z.of_nat (length A) = k -> key_mem b k = x ++ R.
Proof. intros E <-. unfold key_mem. rewrite E, Nat2Z.id. apply drop_app_length. Qed.

(** What lies at an offset of a row of blocks. *)
Definition block_at (b : btree) (k : Z) (x : list Z) : Prop := exists R, words_wf R /\ key_mem b k = x ++ R.

Lemma blocks_at b A bs R k : words_wf (b_words b) -> b_words b = A ++ concat bs ++ R -> Z.of_nat (length A) = k ->
  Forall2 (block_at b) (offs k bs) bs.
Proof.
  revert A k. induction bs as [|x bs IH]; intros A k Hw E Hk; [constructor|]. cbn [offs concat] in *.
  rewrite <- app_assoc in E. constructor.
  - exists (concat bs ++ R). split; [|by apply (key_mem_app b A)]. rewrite E in Hw. unfold words_wf in *.
    rewrite !Forall_app in *. tauto.
  - apply (IH (A ++ x)); [done|by rewrite <- app_assoc|]. rewrite length_app. lia.
Qed.

Section Blocks.
Context (b : btree) (Hf : format_wf (b_format b)).

Lemma block_at_key k x : in_range 16 k -> block_ok (b_format b) x -> block_at b k x ->
  node_key b k /\ key_u64s b k = Some (Z.of_nat (length x)) /\
  key_pos b k = block_pos (b_format b) x /\ bkey_deleted (key_mem b k) = bkey_deleted x /\
  kp_u64s (key_mem b k) = Z.of_nat (length x) /\ bkey_packed (key_mem b k) = bkey_packed x.
Proof.
  intros Hk Hx (R & HR & E). pose proof (block_len _ _ Hx) as Hlen. unfold node_key, key_pos. rewrite E.
  split; [split; [done|]; destruct (bo_key _ _ Hx) as [key Hkey]; exists key; by apply block_holds|].
  split; [|split; [by apply block_pos_app|split; [by eapply block_deleted|
    split; [erewrite block_u64s by done; apply (bo_u64s _ _ Hx)|by eapply block_packed]]]].
  unfold key_u64s. unfold in_range in Hk. rewrite (proj2 (assert_true _)) by (apply Z.leb_le; lia). bind_simpl.
  unfold key_mem in E. destruct x as [|w x]; [cbn in Hlen; lia|].
  assert (b_words b !! Z.to_nat k = Some w) as ->.
  { rewrite <- (Nat.add_0_r (Z.to_nat k)), <- lookup_drop, E. done. }
  bind_simpl. f_equal. apply (bo_u64s _ _ Hx).
Qed.

Lemma blocks_chain bs : forall k, Forall2 (block_at b) (offs k bs) bs -> Forall (block_ok (b_format b)) bs ->
  0 <= k -> k + Z.of_nat (length (concat bs)) < 2 ^ 16 ->
  chain b (node_key b) k (k + Z.of_nat (length (concat bs))) (offs k bs).
Proof.
  induction bs as [|x bs IH]; intros k Hat Hok H0 Hend; cbn [offs concat] in *.
  - rewrite Z.add_0_r. constructor.
  - inversion Hat as [|? ? ? ? Hx Hrest]; subst. apply Forall_cons_1 in Hok as [Hxok Hok].
    rewrite length_app in *. pose proof (block_len _ _ Hxok).
    destruct (block_at_key k x) as (Hk & Hu & _); [unfold in_range; lia|done|done|].
    apply (chain_cons _ _ k (Z.of_nat (length x))); [done|done|lia|lia|].
    replace (k + Z.of_nat (length x + length (concat bs))) with (k + Z.of_nat (length x) + Z.of_nat (length (concat bs))) by lia.
    apply IH; [done|done|lia|lia].
Qed.
End Blocks.

(** Position, then deleted keys before live ones. *)
Definition block_val (f : bkey_format) (x : list Z) : Z :=
  bpos_val (block_pos f x) * 2 + Z.b2z (negb (bkey_deleted x)).
Definition block_le (f : bkey_format) (x y : list Z) : Prop := block_val f x <= block_val f y.

Lemma offs_lower bs k x : x ∈ offs k bs -> k <= x.
Proof.
  revert k. induction bs as [|y bs IH]; intros k Hx; cbn [offs] in Hx; [by apply elem_of_nil in Hx|].
  apply elem_of_cons in Hx as [->|Hx]; [lia|]. specialize (IH _ Hx). lia.
Qed.

Lemma offs_upper bs k x : Forall (fun y => (1 <= length y)%nat) bs -> x ∈ offs k bs -> x < k + Z.of_nat (length (concat bs)).
Proof.
  revert k. induction bs as [|y bs IH]; intros k Hl Hx; cbn [offs] in Hx; [by apply elem_of_nil in Hx|].
  apply Forall_cons_1 in Hl as [Hy Hl]. cbn [concat]. rewrite length_app.
  apply elem_of_cons in Hx as [->|Hx]; [lia|]. specialize (IH _ Hl Hx). lia.
Qed.

Lemma blocks_len f bs : Forall (block_ok f) bs -> Forall (fun y => (1 <= length y)%nat) bs.
Proof. intros H. eapply Forall_impl; [exact H|]. intros x Hx. by apply (block_len f). Qed.

(** The order of the blocks is that of their offsets. *)
Lemma offs_sorted b (Hf : format_wf (b_format b)) bs : forall k, Forall2 (block_at b) (offs k bs) bs ->
  Forall (block_ok (b_format b)) bs -> 0 <= k -> k + Z.of_nat (length (concat bs)) < 2 ^ 16 ->
  StronglySorted (block_le (b_format b)) bs -> StronglySorted (val_le (key_val b)) (offs k bs).
Proof.
  induction bs as [|x bs IH]; intros k Hat Hok H0 Hend Hs; cbn [offs concat] in *; [constructor|].
  inversion Hat as [|? ? ? ? Hx Hrest]; subst. apply Forall_cons_1 in Hok as [Hxok Hok].
  inversion Hs as [|? ? Hs' Hle]; subst. rewrite length_app in Hend. pose proof (block_len _ _ Hxok).
  constructor; [apply IH; [done|done|lia|lia|done]|].
  destruct (block_at_key b Hf k x) as (_ & _ & Ep & Ed & _); [unfold in_range; lia|done|done|].
  apply Forall_forall. intros o Ho. apply list_elem_of_lookup_1 in Ho as [i Hi].
  destruct (Forall2_lookup_l _ _ _ _ _ Hrest Hi) as (y & Hy & Hyat).
  pose proof (Forall_lookup_1 _ _ _ _ Hok Hy) as Hyok. pose proof (Forall_lookup_1 _ _ _ _ Hle Hy) as Hxy.
  apply list_elem_of_lookup_2 in Hi. pose proof (offs_lower _ _ _ Hi).
  pose proof (offs_upper _ _ _ (blocks_len _ _ Hok) Hi).
  destruct (block_at_key b Hf o y) as (_ & _ & Epy & Edy & _); [unfold in_range; lia|done|done|].
  unfold val_le, key_val. rewrite Ep, Ed, Epy, Edy. unfold block_le, block_val in Hxy. change (2 ^ 1) with 2. lia.
Qed.

(** ** The sets of a node as rows of blocks *)

Record set_holds (b : btree) (t : bset_tree) (bs : list (list Z)) : Prop := {
  sh_offset : 0 <= data_offset t;
  sh_end : end_offset t = data_offset t + 3 + Z.of_nat (length (concat bs));
  sh_range : end_offset t < 2 ^ 16;
  sh_header : bset_header_u64s b t = Some (Z.of_nat (length (concat bs)));
  sh_mem : exists A R, b_words b = A ++ concat bs ++ R /\ Z.of_nat (length A) = data_offset t + 3;
  sh_blocks : Forall (block_ok (b_format b)) bs;
  sh_sorted : StronglySorted (block_le (b_format b)) bs
}.

Definition first_offset (t : bset_tree) : Z := data_offset t + 3.

(** The sets lie one behind the other. *)
Definition in_memory_order (ts : list bset_tree) : Prop :=
  StronglySorted (fun t t' => end_offset t <= data_offset t') ts.

Record node_holds (b : btree) (Bs : list (list (list Z))) : Prop := {
  nh_wf : node_wf b;
  nh_words : words_wf (b_words b);
  nh_sets : Forall2 (set_holds b) (b_set b) Bs;
  nh_nsets : (length (b_set b) <= 3)%nat;
  nh_order : in_memory_order (b_set b)
}.

(** The offsets of the keys of the sets. *)
Definition set_offs (ts : list bset_tree) (Bs : list (list (list Z))) : list (list Z) :=
  zip_with (fun t bs => offs (first_offset t) bs) ts Bs.

Lemma set_holds_at b t bs : words_wf (b_words b) -> set_holds b t bs ->
  Forall2 (block_at b) (offs (first_offset t) bs) bs.
Proof. intros Hw [_ _ _ _ (A & R & E & HA) _ _]. by apply (blocks_at b A bs R). Qed.

Lemma set_holds_range b t bs : node_wf b -> words_wf (b_words b) -> set_holds b t bs ->
  set_range b (node_key b) (key_val b) t (offs (first_offset t) bs).
Proof.
  intros [Hf _] Hw Hs. pose proof (set_holds_at b t bs Hw Hs) as Hat. destruct Hs as [H0 He Hr _ _ Hok Hsorted].
  unfold first_offset in *. split; [done|]. split; [lia|]. split; cbn [it_end it_k]; [done| |].
  - rewrite He. apply blocks_chain; [done|done|done|lia|lia].
  - apply offs_sorted; [done|done|done|lia|lia|done].
Qed.

Lemma node_holds_ok b Bs : node_holds b Bs -> node_ok b (set_offs (b_set b) Bs).
Proof.
  intros [Hwf Hw Hs Hl _]. split; [done|]. split; [done|]. unfold set_offs.
  induction Hs as [|t bs ts Bs H Hs IH]; [constructor|]. cbn [zip_with]. constructor.
  - by apply set_holds_range.
  - apply IH. cbn in Hl. lia.
Qed.

(** ** Moving the words *)

Lemma copy_words_mid (P X R src : list Z) n : n = length P -> length X = length src ->
  copy_words (P ++ X ++ R) n src = P ++ src ++ R.
Proof.
  intros -> HX. unfold copy_words. rewrite take_app_length. do 2 f_equal.
  rewrite <- HX, app_assoc, <- length_app. apply drop_app_length.
Qed.

Lemma write_words_mid (P X R src : list Z) dst : dst = Z.of_nat (length P) -> length X = length src ->
  write_words (P ++ X ++ R) dst src = Some (P ++ src ++ R).
Proof.
  intros -> HX. unfold write_words. rewrite (proj2 (assert_true _)).
  - bind_simpl. f_equal. apply copy_words_mid; [lia|done].
  - rewrite !length_app. apply andb_true_iff. split; apply Z.leb_le; lia.
Qed.

(** Words that begin with a given number of them. *)
Lemma split_at (l : list Z) n : (n <= length l)%nat -> exists G R, l = G ++ R /\ length G = n.
Proof. intros H. exists (take n l), (drop n l). split; [symmetry; apply take_drop|]. rewrite length_take. lia. Qed.

Lemma move_words_spec (P O Q R : list Z) src dst m : src = Z.of_nat (length P) + Z.of_nat (length O) ->
  dst = Z.of_nat (length P) + Z.of_nat m ->
  (m + length Q <= length O + length Q + length R)%nat ->
  exists G R', move_words (P ++ O ++ Q ++ R) src dst (Z.of_nat (length Q)) = Some (P ++ G ++ Q ++ R') /\
    length G = m /\ Forall (fun w => w ∈ O ++ Q ++ R) (G ++ R') /\
    length (P ++ G ++ Q ++ R') = length (P ++ O ++ Q ++ R).
Proof.
  intros Hs Hd Hroom. destruct (split_at (O ++ Q ++ R) m) as (G & R1 & E & HG); [rewrite !length_app; lia|].
  destruct (split_at R1 (length Q)) as (X & R' & E1 & HX).
  { apply (f_equal (@length Z)) in E. rewrite !length_app in E. lia. }
  exists G, R'. split; [|split; [done|split]].
  - unfold move_words. rewrite (proj2 (assert_true _)).
    2:{ rewrite !length_app. apply andb_true_iff. split; apply Z.leb_le; lia. }
    bind_simpl. replace (Z.to_nat src) with (length (P ++ O)) by (rewrite length_app; lia).
    rewrite (app_assoc P O (Q ++ R)), drop_app_length, Nat2Z.id, take_app_length, <- app_assoc, E, E1.
    rewrite (app_assoc P G (X ++ R')). rewrite (write_words_mid (P ++ G) X R' Q); [by rewrite <- app_assoc|rewrite length_app; lia|done].
  - rewrite E, E1. apply Forall_forall. intros w Hw. rewrite !elem_of_app in *. tauto.
  - rewrite E, E1, !length_app. lia.
Qed.

Lemma header_range w v : in_range 64 w -> in_range 16 v -> in_range 64 (v * 2 ^ 48 + w mod 2 ^ 48).
Proof. unfold in_range. intros Hw Hv. pose proof (Z.mod_pos_bound w (2 ^ 48) ltac:(lia)). lia. Qed.

Definition with_end (t : bset_tree) (e : Z) : bset_tree :=
  mk_bset_tree (size t) (extra t) (data_offset t) (aux_data_offset t) e.

(** The memory after room for [m] words has been made. *)
Lemma resize_set_spec b i t pre old post where_ clobber_u64s m :
  words_wf (b_words b) -> b_set b !! i = Some t -> set_holds b t (pre ++ old ++ post) ->
  where_ = first_offset t + Z.of_nat (length (concat pre)) -> clobber_u64s = Z.of_nat (length (concat old)) ->
  where_ + Z.of_nat m + Z.of_nat (length (concat post)) <= Z.of_nat (length (b_words b)) ->
  where_ + Z.of_nat m + Z.of_nat (length (concat post)) < 2 ^ 16 ->
  exists A G R, resize_set b i where_ clobber_u64s (Z.of_nat m) =
      Some (with_set (with_words b (A ++ concat pre ++ G ++ concat post ++ R)) i
              (with_end t (where_ + Z.of_nat m + Z.of_nat (length (concat post))))) /\
    Z.of_nat (length A) = first_offset t /\ length G = m /\ words_wf (A ++ concat pre ++ G ++ concat post ++ R) /\
    length (A ++ concat pre ++ G ++ concat post ++ R) = length (b_words b) /\
    take (Z.to_nat (data_offset t + 2)) A = take (Z.to_nat (data_offset t + 2)) (b_words b) /\
    exists w, A !! Z.to_nat (data_offset t + 2) = Some w /\
      w / 2 ^ 48 = Z.of_nat (length (concat pre) + m + length (concat post)).
Proof.
  intros Hw Hi [H0 He Hr Hh (A & R & E & HA) Hok Hs] Hwh Hcl Hroom H16. unfold first_offset in *.
  rewrite !concat_app, !length_app in *. rewrite <- !app_assoc in E. unfold resize_set. rewrite Hi. bind_simpl.
  unfold btree_bkey_last. rewrite usub_ok by lia. bind_simpl.
  replace (end_offset t - (where_ + clobber_u64s)) with (Z.of_nat (length (concat post))) by lia.
  destruct (move_words_spec (A ++ concat pre) (concat old) (concat post) R (where_ + clobber_u64s) (where_ + Z.of_nat m) m)
    as (G & R' & Em & HG & Hsub & Hlw).
  { rewrite length_app. lia. } { rewrite length_app. lia. } { rewrite E, !length_app in Hroom. lia. }
  rewrite <- !app_assoc in Hlw. rewrite <- !app_assoc, <- E in Em. rewrite Em. bind_simpl.
  set (d := Z.to_nat (data_offset t + 2)) in *. assert (d < length A)%nat as Hd by lia.
  destruct (lookup_lt_is_Some_2 A d Hd) as [w Ew].
  assert (forall X, (A ++ X) !! d = Some w) as Ew' by (intros X; by rewrite lookup_app_l).
  unfold bset_header_u64s in Hh |- *. fold d in Hh |- *. cbn [b_words with_words]. rewrite E, Ew' in Hh. bind_simpl.
  cbn [mbind option_bind] in Hh. injection Hh as Hh. rewrite Ew'. bind_simpl.
  assert (words_wf A /\ words_wf (concat pre) /\ words_wf (concat old) /\ words_wf (concat post) /\ words_wf R)
    as (WA & Wp & Wo & Wq & WR) by (rewrite E in Hw; unfold words_wf in *; by rewrite !Forall_app in Hw).
  assert (in_range 64 w) as Ww by (by apply (Forall_lookup_1 _ _ _ _ WA Ew)).
  set (v := Z.of_nat (length (concat pre) + m + length (concat post))).
  rewrite Hh. replace (Z.of_nat (length (concat pre) + (length (concat old) + length (concat post))) + Z.of_nat m - clobber_u64s)
    with v by lia. rewrite (proj2 (assert_true _)) by (apply andb_true_iff; unfold MAX; split; apply Z.leb_le; lia). bind_simpl.
  unfold set_bset_header_u64s. cbn [b_words with_words]. fold d. rewrite Ew'. bind_simpl.
  set (w' := v * 2 ^ 48 + w mod 2 ^ 48). assert (w' / 2 ^ 48 = v) as Ew2.
  { unfold w'. pose proof (Z.mod_pos_bound w (2 ^ 48) ltac:(lia)). rewrite Z.div_add_l by lia. rewrite Z.div_small by lia. lia. }
  exists (<[d := w']> A), G, R'. rewrite insert_app_l by done.
  unfold set_btree_bset_end, bset_header_u64s. cbn [b_words with_words data_offset]. fold d.
  rewrite lookup_app_l by (by rewrite length_insert). rewrite (list_lookup_insert_eq A d w') by done. bind_simpl. rewrite Ew2.
  rewrite (proj2 (assert_true _)) by (apply Z.ltb_lt; lia). bind_simpl. split.
  { do 2 f_equal. unfold with_end. f_equal. lia. }
  split; [by rewrite length_insert|]. split; [done|]. split; [|split; [|split]].
  - assert (Forall (in_range 64) (concat old ++ concat post ++ R)) as Hall by (unfold words_wf in *; by rewrite !Forall_app).
    assert (words_wf (G ++ R')) as WGR.
    { eapply Forall_impl; [exact Hsub|]. intros z Hz. rewrite Forall_forall in Hall. by apply Hall. }
    unfold words_wf in *. rewrite !Forall_app in *. destruct WGR. repeat split; try done.
    apply Forall_insert; [done|]. apply header_range; [done|]. unfold in_range. lia.
  - rewrite E, <- Hlw, !length_app, length_insert. done.
  - rewrite take_insert_ge by lia. rewrite E. rewrite take_app_le by lia. done.
  - exists w'. done.
Qed.

(** A set depends on the words up to its end only. *)
Lemma set_holds_prefix b b' t bs n : b_format b' = b_format b ->
  take n (b_words b') = take n (b_words b) -> end_offset t <= Z.of_nat n ->
  set_holds b t bs -> set_holds b' t bs.
Proof.
  intros Ef Et Hn [H0 He Hr Hh (A & R & E & HA) Hok Hs]. split; try done; [| |by rewrite Ef|by rewrite Ef].
  - unfold bset_header_u64s in *. rewrite <- Hh. f_equal.
    rewrite <- (lookup_take_lt _ n), <- (lookup_take_lt (b_words b) n), Et by lia. done.
  - exists A, (drop (length (A ++ concat bs)) (b_words b')). split; [|done]. rewrite app_assoc.
    assert (A ++ concat bs = take (length (A ++ concat bs)) (b_words b')) as E'.
    { rewrite <- (take_app_length (A ++ concat bs) R) at 1. rewrite <- app_assoc, <- E.
      replace (length (A ++ concat bs)) with (Nat.min (length (A ++ concat bs)) n) by (rewrite length_app; lia).
      by rewrite <- !take_take, Et. }
    rewrite E' at 1. by rewrite take_drop.
Qed.

(** The rows of blocks before the last one stay as they are. *)
Lemma other_sets_hold b b' ts t Bs : b_format b' = b_format b -> in_memory_order (ts ++ [t]) ->
  take (Z.to_nat (data_offset t + 2)) (b_words b') = take (Z.to_nat (data_offset t + 2)) (b_words b) ->
  Forall2 (set_holds b) ts Bs -> 0 <= data_offset t -> Forall2 (set_holds b') ts Bs.
Proof.
  intros Ef Ho Et Hs H0. induction Hs as [|t' bs ts Bs Ht' Hs IH]; [constructor|]. cbn in Ho.
  inversion Ho as [|? ? Ho' Hle]; subst. constructor; [|by apply IH].
  apply Forall_app in Hle as [_ Hle]. apply Forall_cons_1 in Hle as [Hle _].
  eapply set_holds_prefix; [done|exact Et|lia|done].
Qed.

Lemma in_memory_order_last ts t t' : data_offset t' = data_offset t -> in_memory_order (ts ++ [t]) -> in_memory_order (ts ++ [t']).
Proof.
  intros E. unfold in_memory_order. induction ts as [|x ts IH]; cbn; intros H; [repeat constructor|].
  inversion H as [|? ? H' Hf]; subst. constructor; [by apply IH|]. apply Forall_app in Hf as [Hf Hl].
  apply Forall_app. split; [done|]. apply Forall_cons_1 in Hl as [Hl _]. constructor; [lia|constructor].
Qed.

(** The last set with new contents. *)
Lemma last_set_holds b ts t Bs bs ws t' bs' A R : node_holds b (Bs ++ [bs]) -> b_set b = ts ++ [t] ->
  data_offset t' = data_offset t -> end_offset t' = first_offset t + Z.of_nat (length (concat bs')) -> end_offset t' < 2 ^ 16 ->
  ws = A ++ concat bs' ++ R -> words_wf ws -> Z.of_nat (length A) = first_offset t ->
  take (Z.to_nat (data_offset t + 2)) A = take (Z.to_nat (data_offset t + 2)) (b_words b) ->
  (exists w, A !! Z.to_nat (data_offset t + 2) = Some w /\ w / 2 ^ 48 = Z.of_nat (length (concat bs'))) ->
  Forall (block_ok (b_format b)) bs' -> StronglySorted (block_le (b_format b)) bs' ->
  node_holds (mk_btree (b_format b) (b_nr_key_bits b) ws (ts ++ [t'])) (Bs ++ [bs']).
Proof.
  intros [Hwf Hw Hs Hl Ho] Eb Ed Ee H16 Ews Wws HA Htake (w & Ew & Hhd) Hok Hsorted. rewrite Eb in *. unfold first_offset in *.
  apply Forall2_app_inv in Hs as [Hs Ht]; [|apply Forall2_length in Hs; rewrite !length_app in Hs; cbn in Hs; lia].
  inversion Ht as [|? ? ? ? Hlast _]; subst. pose proof (sh_offset _ _ _ Hlast) as H0.
  split; cbn [b_words b_set b_format]; [by destruct Hwf; split|done| |rewrite length_app in *; cbn in *; lia|by eapply in_memory_order_last].
  apply Forall2_app.
  - eapply other_sets_hold; [| | |exact Hs|done]; [done|done|]. cbn [b_words]. rewrite take_app_le by lia. done.
  - constructor; [|constructor]. split; cbn [b_words b_format]; try done; try lia.
    + unfold bset_header_u64s. cbn [b_words]. rewrite Ed, lookup_app_l by lia. rewrite Ew. bind_simpl. by rewrite Hhd.
    + exists A, R. split; [done|]. lia.
Qed.
