(* ===== verification/BsetTable.v ===== *)
(** * The table of keys of a set that is being written ([btree/bset_update.rs])

    A search in such a set begins with a table of some of its keys, at least
    a cache line apart.  The table follows every change of the set. *)

From stdpp Require Import base tactics list option sorting.
From Stdlib Require Import ZArith Lia.
From S2P Require Import Prelude Bpos BkeyPack BkeyOrder NodeIter BsetSearch BsetMem.

Open Scope Z_scope.

Definition L1_CACHE_BYTES : Z := 64.

(** ** The table of a set that is being written *)

Definition __btree_aux_data_bytes (byte_order : Z) : Z := 2 ^ byte_order / BSET_CACHELINE * 8.

(** [size_of::<rw_aux_tree>() = 24]. *)
Definition bset_rw_tree_capacity (byte_order : Z) (t : bset_tree) : option Z :=
  n ← usub (__btree_aux_data_bytes byte_order) (aux_data_offset t * 8); Some (n / 24).

Definition with_size (t : bset_tree) (n : Z) : bset_tree :=
  mk_bset_tree n (extra t) (data_offset t) (aux_data_offset t) (end_offset t).
Definition with_rw (a : aux) (l : list rw_aux_tree) : aux := mk_aux l (aux_ro a) (aux_addr a).

(** The entry that [rw_aux_tree_set] stores. *)
Definition rw_aux_tree_set (b : btree) (t : bset_tree) (k : Z) : option rw_aux_tree :=
  _ ← assert (k <? btree_bkey_last t);
  o ← __btree_node_key_to_offset k;
  p ← bkey_unpack_pos (b_format b) (key_mem b k);
  Some (mk_rw_aux_tree o p).

(** The first key a cache line or more behind [start]. *)
Fixpoint entry_loop (fuel : nat) (b : btree) (start end_ k : Z) : option (option Z) :=
  k ← bkey_p_next b k;
  if k =? end_ then Some None else
  if L1_CACHE_BYTES <=? (k - start) * 8 then Some (Some k) else
  match fuel with
  | O => None
  | S fuel => entry_loop fuel b start end_ k
  end.

Definition rw_aux_tree_insert_entry (b : btree) (byte_order : Z) (a : aux) (t : bset_tree) (idx : Z)
  : option (aux * bset_tree) :=
  _ ← assert (negb (idx =? 0) && (idx <=? size t));
  start ← rw_aux_to_bkey a t (idx - 1);
  end_ ← (if idx <? size t then rw_aux_to_bkey a t idx else Some (btree_bkey_last t));
  cap ← bset_rw_tree_capacity byte_order t;
  d ← (if size t <? cap then usub end_ start else Some 0);
  if L1_CACHE_BYTES <? d * 8 then
    r ← entry_loop (length (b_words b)) b start end_ start;
    match r with
    | None => Some (a, t)
    | Some k =>
        n ← uadd 16 (size t) 1;
        let t := with_size t n in
        e ← rw_aux_tree_set b t k;
        Some (with_rw a (take (Z.to_nat idx) (aux_rw a) ++ e :: drop (Z.to_nat idx) (aux_rw a)), t)
    end
  else Some (a, t).

Definition rw_shift (shift : Z) (e : rw_aux_tree) : rw_aux_tree :=
  mk_rw_aux_tree ((rw_offset e + shift) mod 2 ^ 16) (rw_k e).

(** What the entry at the changed key becomes: the table and the index of
    the first entry behind the key, or the end of the work. *)
Definition fix_entry_at (b : btree) (byte_order : Z) (a : aux) (t : bset_tree) (where_ idx : Z)
  : option (aux * Z + aux * bset_tree) :=
  e ← rw_aux_tree_base a t idx;
  if rw_offset e =? where_ then
    if idx =? 0 then Some (inl (a, idx + 1))
    else if where_ <? end_offset t then
      e ← rw_aux_tree_set b t where_;
      Some (inl (with_rw a (<[Z.to_nat idx := e]> (aux_rw a)), idx + 1))
    else
      _ ← assert (where_ =? end_offset t);
      n ← usub (size t) 1;
      r ← rw_aux_tree_insert_entry b byte_order (with_rw a (take (Z.to_nat n) (aux_rw a))) (with_size t n) n;
      Some (inr r)
  else Some (inl (a, idx)).

(** The entries behind the changed key: one that now coincides with the entry
    before it goes, the others move, and a new one may be added. *)
Definition fix_behind (b : btree) (byte_order where_ shift : Z) (a : aux) (t : bset_tree) (idx : Z)
  : option (aux * bset_tree) :=
  drop_it ← (if idx <? size t then
               e ← rw_aux_tree_base a t idx;
               _ ← assert (where_ <? rw_offset e);
               p ← rw_aux_tree_base a t (idx - 1);
               Some (rw_offset e + shift =? rw_offset p)
             else Some false);
  let i := Z.to_nat idx in
  '(a, t) ← (if (drop_it : bool) then
               n ← usub (size t) 1;
               Some (with_rw a (take i (aux_rw a) ++ drop (S i) (aux_rw a)), with_size t n)
             else Some (a, t));
  let a := with_rw a (take i (aux_rw a) ++ map (rw_shift shift) (drop i (aux_rw a))) in
  rw_aux_tree_insert_entry b byte_order a t idx.

Definition __bch2_bset_fix_lookup_table (b : btree) (byte_order : Z) (a : aux) (t : bset_tree)
    (where_ clobber_u64s new_u64s : Z) : option (aux * bset_tree) :=
  let shift := new_u64s - clobber_u64s in
  where_offset ← __btree_node_key_to_offset where_;
  last ← usub (size t) 1;
  e ← rw_aux_tree_base a t last;
  if rw_offset e <? where_offset then rw_aux_tree_insert_entry b byte_order a t (size t) else
  idx ← rw_aux_tree_bsearch a t where_offset;
  r ← fix_entry_at b byte_order a t where_offset idx;
  match r with
  | inr r => Some r
  | inl (a, idx) => fix_behind b byte_order where_offset shift a t idx
  end.

Definition bch2_bset_fix_lookup_table (b : btree) (byte_order : Z) (a : aux) (t : bset_tree)
    (where_ clobber_u64s new_u64s : Z) : option (aux * bset_tree) :=
  ty ← bset_aux_tree_type t;
  match ty with
  | BSET_RW_AUX_TREE => __bch2_bset_fix_lookup_table b byte_order a t where_ clobber_u64s new_u64s
  | _ => Some (a, t)
  end.

(** ** The table of keys *)

Definition entry_ok (b : btree) (L : list Z) (e : rw_aux_tree) : Prop :=
  rw_offset e ∈ L /\ rw_k e = key_pos b (rw_offset e).
Definition entry_lt (e e' : rw_aux_tree) : Prop := rw_offset e < rw_offset e'.

(** The first entry is the beginning of the set, the others are keys. *)
Definition table_ok (b : btree) (first : Z) (L : list Z) (T : list rw_aux_tree) : Prop :=
  match T with
  | [] => False
  | e :: T' => rw_offset e = first /\ Forall (entry_ok b L) T' /\ StronglySorted entry_lt T
  end.

Record rw_good (b : btree) (a : aux) (t : bset_tree) (L : list Z) : Prop := {
  rg_type : bset_aux_tree_type t = Some BSET_RW_AUX_TREE;
  rg_size : Z.of_nat (length (aux_rw a)) = size t;
  rg_table : table_ok b (first_offset t) L (aux_rw a)
}.

Lemma rw_good_ok b a t L : rw_good b a t L -> rw_ok b a t L.
Proof.
  intros [Ht Hs HT]. destruct (aux_rw a) as [|e0 T] eqn:E; [done|]. destruct HT as (H0 & HT & _). split; rewrite E; [done| |].
  - intros e Ee. by injection Ee as <-.
  - intros j e Ee. by apply (Forall_lookup_1 _ _ _ _ HT Ee).
Qed.

Lemma chain_bounds b k e l z : chain b (node_key b) k e l -> z ∈ l -> k <= z < e.
Proof.
  intros Hc Hz. induction Hc as [e|k n e l Hk Hu Hn Hle Hc IH]; [by apply elem_of_nil in Hz|].
  apply elem_of_cons in Hz as [->|Hz]; [lia|]. specialize (IH Hz). lia.
Qed.

(** The keys between two of them. *)
Lemma chain_between b k e L x y : chain b (node_key b) k e L -> x ∈ L -> x < y -> (y ∈ L \/ y = e) ->
  exists l, chain b (node_key b) x y (x :: l) /\ forall z, z ∈ l -> z ∈ L.
Proof.
  intros Hc Hx Hxy Hy. apply list_elem_of_split in Hx as (L1 & L2 & ->).
  destruct (chain_app b _ _ _ _ Hc) as (m & H1 & H2). assert (m = x) as -> by (by inversion H2).
  destruct Hy as [Hy| ->]; [|exists L2; split; [done|]; intros z Hz; rewrite elem_of_app, elem_of_cons; tauto].
  rewrite elem_of_app, elem_of_cons in Hy. destruct Hy as [Hy|[->|Hy]]; [|lia|].
  - pose proof (chain_bounds _ _ _ _ _ H1 Hy). lia.
  - apply list_elem_of_split in Hy as (l & L3 & ->). change (x :: l ++ y :: L3) with ((x :: l) ++ y :: L3) in H2.
    destruct (chain_app b _ _ _ _ H2) as (m & H3 & H4). assert (m = y) as -> by (by inversion H4).
    exists l. split; [done|]. intros z Hz. rewrite !elem_of_app, elem_of_cons, elem_of_app. tauto.
Qed.

Lemma entry_loop_spec b start e l : forall fuel k, chain b (node_key b) k e (k :: l) -> (length l <= fuel)%nat ->
  exists r, entry_loop fuel b start e k = Some r /\ match r with None => True | Some z => z ∈ l /\ start + 8 <= z end.
Proof.
  induction l as [|y l IH]; intros fuel k Hc Hf; inversion Hc as [|? n ? ? Hk Hu Hn Hle Hc']; subst.
  - assert (k + n = e) as Ee by (by inversion Hc'). exists None. split; [|done].
    destruct fuel; cbn [entry_loop]; unfold bkey_p_next; rewrite Hu; bind_simpl; by rewrite Ee, Z.eqb_refl.
  - assert (k + n = y) as Ey by (by inversion Hc'). pose proof (chain_bounds _ _ _ _ y Hc' ltac:(left)) as Hy. rewrite Ey in *.
    destruct fuel as [|fuel]; [cbn in Hf; lia|]. cbn [entry_loop]. unfold bkey_p_next. rewrite Hu. bind_simpl. rewrite Ey.
    rewrite (proj2 (Z.eqb_neq y e)) by lia. unfold L1_CACHE_BYTES. destruct (Z.leb_spec 64 ((y - start) * 8)).
    + exists (Some y). split; [done|]. split; [left|lia].
    + destruct (IH fuel y Hc') as (r & Er & Hr); [cbn in Hf; lia|]. exists r. split; [done|].
      destruct r as [z|]; [|done]. split; [right; apply Hr|apply Hr].
Qed.

(** *** Entries before and from an offset on *)

Section Bsearch.
Context (a : aux) (t : bset_tree) (T1 T2 : list rw_aux_tree) (W : Z).
Context (Ht : bset_aux_tree_type t = Some BSET_RW_AUX_TREE) (ET : aux_rw a = T1 ++ T2).
Context (Hlen : Z.of_nat (length (T1 ++ T2)) = size t).
Context (H1 : Forall (fun e => rw_offset e < W) T1) (H2 : Forall (fun e => W <= rw_offset e) T2).

Lemma entry_before j : (j < length T1)%nat -> exists e, rw_aux_tree_base a t (Z.of_nat j) = Some e /\ rw_offset e < W.
Proof.
  intros Hj. destruct (lookup_lt_is_Some_2 T1 j Hj) as [e Ee]. exists e. split; [|by apply (Forall_lookup_1 _ _ _ _ H1 Ee)].
  apply rw_base; [done|]. rewrite ET, Nat2Z.id, lookup_app_l by done. done.
Qed.

Lemma entry_from j : (length T1 <= j < length (T1 ++ T2))%nat ->
  exists e, rw_aux_tree_base a t (Z.of_nat j) = Some e /\ W <= rw_offset e.
Proof.
  intros Hj. rewrite length_app in Hj. destruct (lookup_lt_is_Some_2 T2 (j - length T1)) as [e Ee]; [lia|].
  exists e. split; [|by apply (Forall_lookup_1 _ _ _ _ H2 Ee)].
  apply rw_base; [done|]. rewrite ET, Nat2Z.id, lookup_app_r by lia. done.
Qed.

Lemma bsearch_up_spec : forall fuel j, (j <= length (T1 ++ T2))%nat -> (length T1 - j <= fuel)%nat ->
  bsearch_up fuel a t W (Z.of_nat j) = Some (Z.of_nat (Nat.max j (length T1))).
Proof.
  assert (length T1 <= length (T1 ++ T2))%nat as Hle by (rewrite length_app; lia).
  induction fuel as [|fuel IH]; intros j Hj Hf; cbn [bsearch_up];
    (destruct (Z.ltb_spec (Z.of_nat j) (size t)); [|do 2 f_equal; lia]).
  - destruct (entry_from j ltac:(lia)) as (e & -> & He). bind_simpl.
    rewrite (proj2 (Z.ltb_ge _ _)) by lia. do 2 f_equal. lia.
  - destruct (decide (j < length T1)%nat) as [Hlt|Hge].
    + destruct (entry_before j Hlt) as (e & -> & He). bind_simpl. rewrite (proj2 (Z.ltb_lt _ _)) by lia.
      replace (Z.of_nat j + 1) with (Z.of_nat (S j)) by lia. rewrite IH by lia. do 2 f_equal. lia.
    + destruct (entry_from j ltac:(lia)) as (e & -> & He). bind_simpl.
      rewrite (proj2 (Z.ltb_ge _ _)) by lia. do 2 f_equal. lia.
Qed.

Lemma bsearch_down_spec : forall fuel j, (length T1 <= j <= length (T1 ++ T2))%nat -> (j - length T1 <= fuel)%nat ->
  bsearch_down fuel a t W (Z.of_nat j) = Some (Z.of_nat (length T1)).
Proof.
  induction fuel as [|fuel IH]; intros j Hj Hf; cbn [bsearch_down];
    (destruct (Z.eqb_spec (Z.of_nat j) 0); cbn [negb]; [do 2 f_equal; lia|]);
    replace (Z.of_nat j - 1) with (Z.of_nat (j - 1)) by lia;
    (destruct (decide (j = length T1)) as [->|Hne];
      [destruct (entry_before (length T1 - 1) ltac:(lia)) as (e & -> & He); bind_simpl; by rewrite (proj2 (Z.leb_gt _ _)) by lia|]);
    destruct (entry_from (j - 1) ltac:(lia)) as (e & -> & He); bind_simpl; rewrite (proj2 (Z.leb_le _ _)) by lia.
  - lia.
  - apply IH; lia.
Qed.

(** The index of the first entry from an offset on, whatever the guess. *)
Lemma rw_aux_tree_bsearch_spec : 0 <= data_offset t -> first_offset t <= W <= end_offset t -> end_offset t < 2 ^ 16 ->
  size t < 2 ^ 16 ->
  rw_aux_tree_bsearch a t W = Some (Z.of_nat (length T1)).
Proof.
  intros H0 HW He Hsz. unfold rw_aux_tree_bsearch, btree_bkey_first_offset, first_offset in *.
  rewrite uadd_ok by lia. bind_simpl. rewrite !usub_ok by lia. bind_simpl.
  set (u := end_offset t - (data_offset t + 3)). set (o := W - (data_offset t + 3)).
  assert (exists g, (if negb (u =? 0) then p ← umul 32 o (size t); Some (p / u) else Some 0) = Some g /\ 0 <= g <= size t)
    as (g & -> & Hg).
  { destruct (Z.eqb_spec u 0) as [E|E]; cbn [negb]; [exists 0; split; [done|lia]|]. unfold umul.
    assert (o * size t < 2 ^ 16 * 2 ^ 16) by nia. rewrite (proj2 (Z.ltb_lt _ _)) by lia. bind_simpl.
    eexists. split; [reflexivity|]. split; [apply Z.div_pos; nia|]. apply Z.div_le_upper_bound; nia. }
  bind_simpl. unfold is_rw. rewrite Ht. bind_simpl. rewrite (proj2 (assert_true _)) by (apply Z.leb_le; lia). bind_simpl.
  rewrite Z.mod_small by lia. replace g with (Z.of_nat (Z.to_nat g)) by lia.
  assert (length T1 <= length (T1 ++ T2))%nat as Hle by (rewrite length_app; lia).
  rewrite bsearch_up_spec by lia. bind_simpl. apply bsearch_down_spec; lia.
Qed.
End Bsearch.

(** *** New entries *)

(** Where the auxiliary data of a set may lie. *)
Record aux_room (byte_order : Z) (t : bset_tree) : Prop := {
  ar_order : 0 <= byte_order <= 24;
  ar_offset : 0 <= aux_data_offset t /\ aux_data_offset t * 8 <= __btree_aux_data_bytes byte_order
}.

Lemma capacity_spec byte_order t : aux_room byte_order t ->
  exists c, bset_rw_tree_capacity byte_order t = Some c /\ c < 2 ^ 16.
Proof.
  intros [Ho Ha]. unfold bset_rw_tree_capacity, __btree_aux_data_bytes, BSET_CACHELINE in *. rewrite usub_ok by lia. bind_simpl.
  eexists. split; [reflexivity|]. pose proof (pow2_le byte_order 24 ltac:(lia)).
  assert (2 ^ byte_order / 256 <= 2 ^ 24 / 256) by (apply Z.div_le_mono; lia). change (2 ^ 24 / 256) with (2 ^ 16) in *.
  apply Z.div_lt_upper_bound; lia.
Qed.

Lemma rw_type_size t n : bset_aux_tree_type t = Some BSET_RW_AUX_TREE -> n <> 0 ->
  bset_aux_tree_type (with_size t n) = Some BSET_RW_AUX_TREE.
Proof.
  unfold bset_aux_tree_type. cbn [extra size with_size]. intros Ht Hn.
  destruct (extra t =? BSET_NO_AUX_TREE_VAL); [by destruct (size t =? 0)|].
  destruct (extra t =? BSET_RW_AUX_TREE_VAL); [|by destruct (size t =? 0)].
  by rewrite (proj2 (Z.eqb_neq n 0)).
Qed.

Section Table.
Context (b : btree) (byte_order : Z) (L : list Z) (first end_ : Z).
Context (Hwf : node_wf b) (H0 : 0 <= first) (He : end_ < 2 ^ 16) (Hc : chain b (node_key b) first end_ L).

(** The set whose table is changed. *)
Record rw_set (t : bset_tree) : Prop := {
  rs_type : bset_aux_tree_type t = Some BSET_RW_AUX_TREE;
  rs_first : first_offset t = first;
  rs_end : end_offset t = end_;
  rs_room : aux_room byte_order t
}.

Lemma set_entry_spec t k : rw_set t -> k ∈ L ->
  exists e, rw_aux_tree_set b t k = Some e /\ rw_offset e = k /\ entry_ok b L e.
Proof.
  intros [_ _ Ee _] Hk. pose proof (chain_bounds _ _ _ _ _ Hc Hk) as Hb.
  pose proof (chain_keys b _ _ _ Hc) as Hkeys. rewrite Forall_forall in Hkeys. destruct (Hkeys k Hk) as (Hr & key & Hkey).
  unfold rw_aux_tree_set, btree_bkey_last. rewrite (proj2 (assert_true _)) by (apply Z.ltb_lt; lia). bind_simpl.
  unfold __btree_node_key_to_offset. rewrite (proj2 (assert_true _)) by (apply andb_true_iff; split; [apply Z.leb_le|apply Z.ltb_lt]; lia).
  bind_simpl. unfold entry_ok, key_pos. rewrite (unpack_pos_spec _ _ key (nw_format _ Hwf) Hkey). bind_simpl.
  eexists. split; [reflexivity|]. split; [done|]. split; [done|]. cbn [rw_offset rw_k].
  by rewrite (unpack_pos_spec _ _ key (nw_format _ Hwf) Hkey).
Qed.

(** An entry for a key is put between two parts of the table. *)
Lemma table_insert T1 T2 e : T1 <> [] -> table_ok b first L (T1 ++ T2) -> entry_ok b L e ->
  (forall x, x ∈ T1 -> entry_lt x e) -> (forall x, x ∈ T2 -> entry_lt e x) -> table_ok b first L (T1 ++ e :: T2).
Proof.
  intros Hne HT Hok Hl Hr. destruct T1 as [|e0 T1]; [done|]. destruct HT as (E0 & HT & Hs).
  change ((e0 :: T1) ++ T2) with (e0 :: T1 ++ T2) in Hs. change (e0 :: T1 ++ T2) with ((e0 :: T1) ++ T2) in Hs.
  apply Forall_app in HT as [HT1 HT2]. split; [done|]. split; [apply Forall_app; split; [done|]; by constructor|].
  apply StronglySorted_app in Hs as (Hx & Hs1 & Hs2). apply (StronglySorted_app_2 entry_lt (e0 :: T1)); [|done|].
  - intros x y Hx1 Hy. apply elem_of_cons in Hy as [->|Hy]; [by apply Hl|by apply Hx].
  - constructor; [done|]. by apply Forall_forall.
Qed.

(** Every entry of a table is at most the last one, at least the first. *)
Lemma table_last T1 e x : StronglySorted entry_lt (T1 ++ [e]) -> x ∈ T1 ++ [e] -> rw_offset x <= rw_offset e.
Proof.
  intros Hs Hx. apply elem_of_app in Hx as [Hx|Hx%list_elem_of_singleton]; [|subst; lia].
  pose proof (StronglySorted_app_1_elem_of _ _ _ x e Hs Hx ltac:(left)) as H. unfold entry_lt in H. lia.
Qed.

Lemma insert_entry_spec a t T1 T2 : rw_set t -> aux_rw a = T1 ++ T2 -> T1 <> [] ->
  Z.of_nat (length (T1 ++ T2)) = size t -> table_ok b first L (T1 ++ T2) ->
  exists a' t', rw_aux_tree_insert_entry b byte_order a t (Z.of_nat (length T1)) = Some (a', t') /\
    rw_good b a' t' L /\ rw_set t' /\ aux_ro a' = aux_ro a /\ aux_addr a' = aux_addr a /\ data_offset t' = data_offset t.
Proof.
  intros Hrs ET Hne Hlen HT. pose proof Hrs as [Ht Ef Ee Hroom].
  destruct (exists_last Hne) as (T0 & el & ET1). assert (T1 ++ T2 = T0 ++ el :: T2) as ET' by (rewrite ET1, <- app_assoc; done).
  assert (length T1 = length T0 + 1)%nat as HT0 by (rewrite ET1, length_app; done).
  assert (rw_good b a t L) as Hgood by (split; [done|by rewrite ET|by rewrite ET, Ef]).
  unfold rw_aux_tree_insert_entry. rewrite (proj2 (assert_true _)).
  2:{ rewrite length_app in Hlen. apply andb_true_iff. split; [apply negb_true_iff, Z.eqb_neq; lia|apply Z.leb_le; lia]. }
  bind_simpl. replace (Z.of_nat (length T1) - 1) with (Z.of_nat (length T0)) by lia.
  assert (forall l e l', aux_rw a = l ++ e :: l' -> rw_aux_to_bkey a t (Z.of_nat (length l)) = Some (rw_offset e)) as Hto.
  { intros l e l' E. unfold rw_aux_to_bkey. rewrite (rw_base a t _ e Ht); [done|]. rewrite E, Nat2Z.id. by apply list_lookup_middle. }
  rewrite (Hto T0 el T2) by congruence. bind_simpl.
  set (en := match T2 with [] => end_ | e :: _ => rw_offset e end).
  assert ((if Z.of_nat (length T1) <? size t then rw_aux_to_bkey a t (Z.of_nat (length T1)) else Some (btree_bkey_last t)) = Some en) as ->.
  { unfold en. rewrite length_app in Hlen. destruct T2 as [|e2 T2]; cbn [length] in Hlen.
    - rewrite (proj2 (Z.ltb_ge _ _)) by lia. unfold btree_bkey_last. by rewrite Ee.
    - rewrite (proj2 (Z.ltb_lt _ _)) by lia. by apply (Hto T1 e2 T2). }
  bind_simpl. destruct (capacity_spec byte_order t Hroom) as (cap & -> & Hcap). bind_simpl.
  assert (rw_offset el = first \/ rw_offset el ∈ L) as Hel.
  { rewrite ET' in HT. destruct T0 as [|e0 T0]; destruct HT as (E0 & HT & _); [by left|right].
    apply Forall_app in HT as [_ HT]. apply Forall_cons_1 in HT as [[Hin _] _]. done. }
  assert (forall x, x ∈ T2 -> rw_offset x ∈ L) as HT2.
  { intros x Hx. destruct T1 as [|e1 T1]; [done|]. destruct HT as (_ & HT & _). apply Forall_app in HT as [_ HT].
    rewrite Forall_forall in HT. by apply HT. }
  pose proof (chain_le _ _ _ _ _ Hc) as Hfe.
  assert (StronglySorted entry_lt (T1 ++ T2)) as Hsort by (destruct T1; [done|apply HT]).
  assert (rw_offset el <= en) as Hle.
  { unfold en. destruct T2 as [|e2 T2].
    - destruct Hel as [->|Hin]; [done|]. pose proof (chain_bounds _ _ _ _ _ Hc Hin). lia.
    - pose proof (StronglySorted_app_1_elem_of _ _ _ el e2 Hsort) as Hlt. unfold entry_lt in Hlt.
      rewrite ET1 in Hlt. specialize (Hlt ltac:(apply elem_of_app; right; left) ltac:(left)). lia. }
  assert (exists d, (if size t <? cap then usub en (rw_offset el) else Some 0) = Some d /\
    (L1_CACHE_BYTES < d * 8 -> size t < cap /\ rw_offset el < en)) as (d & -> & Hd).
  { destruct (Z.ltb_spec (size t) cap); [rewrite usub_ok by lia|]; eexists; (split; [reflexivity|]); unfold L1_CACHE_BYTES; lia. }
  bind_simpl. destruct (Z.ltb_spec L1_CACHE_BYTES (d * 8)) as [Hbig|_]; [|by exists a, t]. destruct (Hd Hbig) as [Hsz Hlt].
  assert (rw_offset el ∈ L) as Hin.
  { destruct Hel as [Hel|]; [|done]. rewrite Hel in *.
    destruct Hc as [e|k n e l Hk Hu Hn Hke Hc']; [|left]. unfold en in Hlt. destruct T2 as [|e2 T2]; [lia|].
    specialize (HT2 e2 ltac:(left)). by apply elem_of_nil in HT2. }
  destruct (chain_between b first end_ L (rw_offset el) en Hc Hin Hlt) as (l & Hcl & Hsub).
  { unfold en. destruct T2 as [|e2 T2]; [by right|left]. apply HT2. left. }
  destruct (entry_loop_spec b (rw_offset el) en l (length (b_words b)) (rw_offset el) Hcl) as (r & -> & Hr).
  { apply chain_length in Hcl; [cbn in Hcl; lia|]. pose proof (chain_bounds _ _ _ _ _ Hc Hin). lia. }
  bind_simpl. destruct r as [k|]; [|by exists a, t]. destruct Hr as [Hkl Hk8].
  rewrite uadd_ok by lia. bind_simpl.
  assert (rw_set (with_size t (size t + 1))) as Hrs' by (split; [by apply rw_type_size; [|lia]|done|done|by destruct Hroom]).
  destruct (set_entry_spec _ k Hrs' (Hsub k Hkl)) as (e & -> & Eek & Hok). bind_simpl.
  rewrite ET, Nat2Z.id, take_app_length, drop_app_length.
  eexists _, _. split; [reflexivity|]. split; [|done]. split; cbn [size with_size aux_rw with_rw]; [by apply rw_type_size; [|lia]| |].
  - rewrite length_app in *. cbn. lia.
  - change (first_offset (with_size t (size t + 1))) with (first_offset t). rewrite Ef.
    assert (k < en) as Hken. { inversion Hcl as [|? n ? ? _ _ _ _ Hcl']; subst. pose proof (chain_bounds _ _ _ _ _ Hcl' Hkl). lia. }
    apply table_insert; [done|done|done| |].
    + intros x Hx. unfold entry_lt. rewrite ET1 in Hx, Hsort. apply StronglySorted_app_1_l in Hsort.
      pose proof (table_last T0 el x Hsort Hx). lia.
    + intros x Hx. unfold entry_lt, en in *. destruct T2 as [|e2 T2]; [by apply elem_of_nil in Hx|].
      apply StronglySorted_app_1_r in Hsort. inversion Hsort as [|? ? _ Hf]; subst.
      apply elem_of_cons in Hx as [->|Hx]; [lia|]. rewrite Forall_forall in Hf. specialize (Hf x Hx). unfold entry_lt in Hf. lia.
Qed.
End Table.

(** *** Adjusting the table after the keys have moved *)

Section Fix.
Context (b0 b : btree) (byte_order : Z) (Lold L : list Z) (first end_ W clobber_u64s new_u64s : Z).
Context (Hwf : node_wf b) (H0 : 3 <= first) (He : end_ < 2 ^ 16) (Hc : chain b (node_key b) first end_ L).
Context (HW : first <= W <= end_) (Hnew : 0 <= new_u64s).
Notation shift := (new_u64s - clobber_u64s).

(** Keys before the changed one are where they were, those behind it have moved. *)
Context (Hbefore : forall o, o ∈ Lold -> o < W -> o ∈ L /\ key_pos b o = key_pos b0 o).
Context (Hbehind : forall o, o ∈ Lold -> W < o ->
  W + clobber_u64s <= o /\ o + shift ∈ L /\ key_pos b (o + shift) = key_pos b0 o).
Context (Hhere : W < end_ -> W ∈ L).

Notation rws := (rw_set byte_order first end_).

Lemma shift_entries R : Forall (fun e => entry_ok b0 Lold e /\ W < rw_offset e) R -> StronglySorted entry_lt R ->
  Forall (entry_ok b L) (map (rw_shift shift) R) /\ StronglySorted entry_lt (map (rw_shift shift) R) /\
  Forall (fun e => rw_offset (rw_shift shift e) = rw_offset e + shift /\ W <= rw_offset e + shift) R.
Proof.
  intros HR. assert (Forall (fun e => rw_offset (rw_shift shift e) = rw_offset e + shift /\ W <= rw_offset e + shift) R) as Hoff.
  { eapply Forall_impl; [exact HR|]. intros e [[Hin _] Hlt]. destruct (Hbehind _ Hin Hlt) as (Hge & HinL & _).
    pose proof (chain_bounds _ _ _ _ _ Hc HinL). cbn [rw_offset rw_shift]. rewrite Z.mod_small; lia. }
  intros Hs. split; [|split; [|done]].
  - rewrite Forall_map. eapply Forall_impl; [apply Forall_and; split; [exact HR|exact Hoff]|].
    intros e [[[Hin Hk] Hlt] [Eo _]]. destruct (Hbehind _ Hin Hlt) as (_ & HinL & Hp). unfold entry_ok, compose. rewrite Eo.
    split; [done|]. cbn [rw_k rw_shift]. congruence.
  - clear HR. induction Hs as [|e R Hs IH Hf]; [constructor|]. apply Forall_cons_1 in Hoff as [[Eo _] Hoff]. cbn [map].
    constructor; [by apply IH|]. rewrite Forall_map. eapply Forall_impl; [apply Forall_and; split; [exact Hf|exact Hoff]|].
    intros x [Hlt [Ex _]]. unfold entry_lt, compose in *. lia.
Qed.

(** The entries up to the changed key, then the moved ones. *)
Lemma table_shift A el R : table_ok b first L (A ++ [el]) -> rw_offset el <= W ->
  Forall (fun e => entry_ok b0 Lold e /\ W < rw_offset e) R -> StronglySorted entry_lt R ->
  match R with [] => True | r :: _ => rw_offset r + shift <> rw_offset el end ->
  table_ok b first L ((A ++ [el]) ++ map (rw_shift shift) R).
Proof.
  intros HT Hel HR Hs Hhd. destruct (shift_entries R HR Hs) as (Hok & Hs' & Hoff).
  assert (StronglySorted entry_lt (A ++ [el])) as HsA by (destruct A; apply HT).
  assert (forall x, x ∈ map (rw_shift shift) R -> entry_lt el x) as Hgt.
  { intros x Hx. apply list_elem_of_fmap in Hx as (r & -> & Hr). unfold entry_lt. destruct R as [|r0 R]; [by apply elem_of_nil in Hr|].
    apply Forall_cons_1 in Hoff as [[E0 Hge] Hoff]. inversion Hs as [|? ? _ Hf]; subst.
    apply elem_of_cons in Hr as [->|Hr]; [rewrite E0; lia|]. rewrite Forall_forall in Hoff, Hf.
    destruct (Hoff r Hr) as [Er _]. specialize (Hf r Hr). unfold entry_lt in Hf. lia. }
  assert (StronglySorted entry_lt ((A ++ [el]) ++ map (rw_shift shift) R)) as Hall.
  { apply StronglySorted_app_2; [|done|done]. intros x y Hx Hy. specialize (Hgt y Hy).
    pose proof (table_last A el x HsA Hx). unfold entry_lt in *. lia. }
  destruct A as [|e0 A]; destruct HT as (E0 & HT & _); (split; [done|]); (split; [|exact Hall]).
  - done.
  - cbn [app] in *. by apply Forall_app.
Qed.

Lemma fix_behind_spec a t A el R : rws t -> aux_rw a = (A ++ [el]) ++ R -> Z.of_nat (length (aux_rw a)) = size t ->
  table_ok b first L (A ++ [el]) -> rw_offset el <= W ->
  Forall (fun e => entry_ok b0 Lold e /\ W < rw_offset e) R -> StronglySorted entry_lt R ->
  exists a' t', fix_behind b byte_order W shift a t (Z.of_nat (length (A ++ [el]))) = Some (a', t') /\
    rw_good b a' t' L /\ rws t' /\ data_offset t' = data_offset t.
Proof.
  intros Hrs Ea Hlen HT Hel HR Hs. pose proof Hrs as [Ht Ef Ee Hroom]. unfold fix_behind. rewrite Nat2Z.id.
  assert (A ++ [el] <> []) as Hne by (by destruct A).
  assert (forall R' t', rws t' -> Z.of_nat (length ((A ++ [el]) ++ R')) = size t' -> data_offset t' = data_offset t ->
    Forall (fun e => entry_ok b0 Lold e /\ W < rw_offset e) R' -> StronglySorted entry_lt R' ->
    match R' with [] => True | r :: _ => rw_offset r + shift <> rw_offset el end -> forall a1, aux_rw a1 = (A ++ [el]) ++ R' ->
    exists a' t'', rw_aux_tree_insert_entry b byte_order
      (with_rw a1 (take (length (A ++ [el])) (aux_rw a1) ++ map (rw_shift shift) (drop (length (A ++ [el])) (aux_rw a1)))) t'
      (Z.of_nat (length (A ++ [el]))) = Some (a', t'') /\ rw_good b a' t'' L /\ rws t'' /\ data_offset t'' = data_offset t) as Hend.
  { intros R' t' Hrs' Hl Hd HR' Hs' Hhd a1 Ea1. rewrite Ea1, take_app_length, drop_app_length.
    destruct (insert_entry_spec b byte_order L first end_ Hwf ltac:(lia) He Hc
      (with_rw a1 ((A ++ [el]) ++ map (rw_shift shift) R')) t' (A ++ [el]) (map (rw_shift shift) R') Hrs' eq_refl Hne)
      as (a' & t'' & E & Hg & Hr & _ & _ & Hdo).
    - rewrite length_app, length_map, <- length_app. done.
    - by apply table_shift.
    - exists a', t''. split; [done|]. split; [done|]. split; [done|congruence]. }
  destruct R as [|r R].
  - rewrite app_nil_r in Ea. rewrite (proj2 (Z.ltb_ge _ _)) by (rewrite <- Hlen, Ea; lia). bind_simpl.
    apply (Hend []); try done; [by rewrite app_nil_r, <- Ea|by rewrite app_nil_r].
  - apply Forall_cons_1 in HR as [[Hr HrW] HR].
    rewrite (proj2 (Z.ltb_lt _ _)) by (rewrite <- Hlen, Ea, !length_app; cbn [length]; lia).
    rewrite (rw_base a t (Z.of_nat (length (A ++ [el]))) r Ht) by (rewrite Ea, Nat2Z.id; by apply list_lookup_middle). bind_simpl.
    rewrite (proj2 (assert_true _)) by (apply Z.ltb_lt; lia). bind_simpl.
    replace (Z.of_nat (length (A ++ [el])) - 1) with (Z.of_nat (length A)) by (rewrite length_app; cbn [length]; lia).
    rewrite (rw_base a t (Z.of_nat (length A)) el Ht) by (rewrite Ea, <- app_assoc, Nat2Z.id; by apply list_lookup_middle). bind_simpl.
    inversion Hs as [|? ? HsR Hf]; subst. destruct (Z.eqb_spec (rw_offset r + shift) (rw_offset el)) as [Eq|Ne].
    + rewrite usub_ok by (rewrite <- Hlen, Ea, !length_app; cbn [length]; lia). bind_simpl.
      apply (Hend R); cbn [aux_rw with_rw size with_size]; try done.
      * split; [apply rw_type_size; [done|rewrite <- Hlen, Ea, !length_app; cbn [length]; lia]|done|done|by destruct Hroom].
      * rewrite <- Hlen, Ea, !length_app. cbn [length]. lia.
      * destruct R as [|r1 R]; [done|]. apply Forall_cons_1 in Hf as [Hlt _]. unfold entry_lt in Hlt. lia.
      * rewrite Ea, take_app_length. f_equal. rewrite drop_app_ge by lia.
        replace (S (length (A ++ [el])) - length (A ++ [el]))%nat with 1%nat by lia. done.
    + bind_simpl. apply (Hend (r :: R)); try done; [by rewrite <- Ea|by constructor].
Qed.

Lemma sorted_partition T : StronglySorted entry_lt T -> exists T1 T2, T = T1 ++ T2 /\
  Forall (fun e => rw_offset e < W) T1 /\ Forall (fun e => W <= rw_offset e) T2.
Proof.
  induction 1 as [|e T Hs IH Hf]; [exists [], []; by repeat constructor|]. destruct (Z.ltb_spec (rw_offset e) W).
  - destruct IH as (T1 & T2 & -> & H1 & H2). exists (e :: T1), T2. split; [done|]. split; [by constructor|done].
  - exists [], (e :: T). split; [done|]. split; [constructor|]. constructor; [done|].
    eapply Forall_impl; [exact Hf|]. unfold entry_lt. cbn. lia.
Qed.

(** Entries before the changed key are still right. *)
Lemma table_before e0 T1 : Forall (fun e => rw_offset e < W) (e0 :: T1) -> rw_offset e0 = first ->
  Forall (entry_ok b0 Lold) T1 -> StronglySorted entry_lt (e0 :: T1) -> table_ok b first L (e0 :: T1).
Proof.
  intros Hlt E0 Hok Hs. split; [done|]. split; [|done]. apply Forall_cons_1 in Hlt as [_ Hlt].
  eapply Forall_impl; [apply Forall_and; split; [exact Hok|exact Hlt]|]. intros e [[Hin Hk] Hlt'].
  destruct (Hbefore _ Hin Hlt') as [HinL Hp]. split; [done|congruence].
Qed.

Lemma fix_lookup_table_spec a t : rws t -> size t < 2 ^ 16 -> Z.of_nat (length (aux_rw a)) = size t ->
  table_ok b0 first Lold (aux_rw a) ->
  exists a' t', __bch2_bset_fix_lookup_table b byte_order a t W clobber_u64s new_u64s = Some (a', t') /\
    rw_good b a' t' L /\ rws t' /\ data_offset t' = data_offset t.
Proof.
  intros Hrs Hsz Hlen HT. pose proof Hrs as [Ht Ef Ee Hroom]. unfold __bch2_bset_fix_lookup_table, __btree_node_key_to_offset.
  rewrite (proj2 (assert_true _)) by (apply andb_true_iff; split; [apply Z.leb_le|apply Z.ltb_lt]; lia). bind_simpl.
  destruct (aux_rw a) as [|e0 T] eqn:Ea; [done|]. destruct HT as (E0 & Hok & Hs).
  assert (0 < size t) as Hpos by (rewrite <- Hlen; cbn [length]; lia).
  rewrite usub_ok by lia. bind_simpl. destruct (sorted_partition _ Hs) as (T1 & T2 & ET & H1 & H2). rewrite ET in Ea, Hlen.
  assert (Forall (fun e => rw_offset e < W -> e ∈ T1) (e0 :: T)) as Hmem.
  { rewrite ET. apply Forall_app. split; apply Forall_forall; intros e Hin Hlt; [done|].
    rewrite Forall_forall in H2. specialize (H2 e Hin). lia. }
  destruct T2 as [|e2 T2].
  - (* all entries are before the changed key *)
    rewrite app_nil_r in Ea, Hlen, ET. rewrite <- ET in Ea, Hlen, H1. destruct (exists_last (l := e0 :: T) ltac:(done)) as (T0 & el & EL).
    rewrite (rw_base a t (size t - 1) el Ht).
    2:{ rewrite Ea, EL. rewrite EL, length_app in Hlen. cbn [length] in Hlen. apply list_lookup_middle. lia. }
    bind_simpl. assert (rw_offset el < W) as Hel by (rewrite Forall_forall in H1; apply H1; rewrite EL; apply elem_of_app; right; left).
    rewrite (proj2 (Z.ltb_lt _ _)) by lia. rewrite <- Hlen.
    destruct (insert_entry_spec b byte_order L first end_ Hwf ltac:(lia) He Hc a t (e0 :: T) [] Hrs) as (a' & t' & E & Hg & Hr & _ & _ & Hdo);
      rewrite ?app_nil_r; try done; [by apply table_before|].
    exists a', t'. by split_and!.
  - (* the last entry is at the changed key or behind it *)
    destruct (exists_last (l := e2 :: T2) ltac:(done)) as (T0 & el & EL).
    rewrite (rw_base a t (size t - 1) el Ht).
    2:{ rewrite Ea, EL, app_assoc. rewrite EL, app_assoc, length_app in Hlen. cbn [length] in Hlen. apply list_lookup_middle. lia. }
    bind_simpl. assert (W <= rw_offset el) as Hel.
    { rewrite Forall_forall in H2. apply H2. rewrite EL. apply elem_of_app. right. left. }
    rewrite (proj2 (Z.ltb_ge _ _)) by lia. unfold first_offset in Ef.
    rewrite (rw_aux_tree_bsearch_spec a t T1 (e2 :: T2) W Ht Ea Hlen H1 H2) by (unfold first_offset; lia). bind_simpl.
    unfold fix_entry_at. rewrite (rw_base a t (Z.of_nat (length T1)) e2 Ht) by (rewrite Ea, Nat2Z.id; by apply list_lookup_middle).
    bind_simpl. apply Forall_cons_1 in H2 as [He2 H2]. pose proof Hs as Hs'. rewrite ET in Hs'.
    apply StronglySorted_app in Hs' as (Hcross & HsT1 & HsT2).
    apply StronglySorted_inv in HsT2 as [HsT2' Hf2].
    assert (Forall (fun e => entry_ok b0 Lold e /\ W < rw_offset e) T2) as HT2.
    { apply Forall_and. split.
      - destruct T1 as [|e1 T1]; injection ET as -> ->; [done|]. apply Forall_app in Hok as [_ Hok]. by apply Forall_cons_1 in Hok as [_ Hok].
      - eapply Forall_impl; [exact Hf2|]. unfold entry_lt. cbn. lia. }
    destruct (Z.eqb_spec (rw_offset e2) W) as [Eq|Ne].
    + destruct T1 as [|e1 T1].
      * (* the first entry stays *)
        cbn [length]. change (Z.of_nat 0 =? 0) with true. cbn iota. bind_simpl. injection ET as -> ->.
        apply (fix_behind_spec a t [] e2 T2); try done; [cbn [app]; by rewrite Ea, <- Hlen|split; [done|by repeat constructor]|lia].
      * rewrite (proj2 (Z.eqb_neq _ _)) by (cbn [length]; lia). injection ET as -> ->.
        apply Forall_app in Hok as [Hok1 Hok2]. rewrite Ee. destruct (Z.ltb_spec W end_) as [HWe|HWe].
        -- destruct (set_entry_spec b byte_order L first end_ Hwf ltac:(lia) He Hc t W Hrs (Hhere HWe)) as (e & -> & Eew & Heok). bind_simpl.
           replace (Z.of_nat (length (e1 :: T1)) + 1) with (Z.of_nat (length ((e1 :: T1) ++ [e]))) by (rewrite length_app; cbn [length]; lia).
           apply (fix_behind_spec _ t (e1 :: T1) e T2); cbn [aux_rw with_rw]; try done.
           ++ rewrite Ea, Nat2Z.id, insert_app_r_alt by lia. rewrite Nat.sub_diag, <- app_assoc. done.
           ++ by rewrite length_insert, Ea.
           ++ apply table_insert; [done|rewrite app_nil_r; by apply table_before|done| |intros x Hx; by apply elem_of_nil in Hx].
              intros x Hx. rewrite Forall_forall in H1. unfold entry_lt. rewrite Eew. by apply H1.
           ++ lia.
        -- (* the entry of a key that was the last one *)
           rewrite (proj2 (assert_true _)) by (apply Z.eqb_eq; lia). bind_simpl. rewrite usub_ok by lia. bind_simpl.
           assert (T2 = []) as ->.
           { destruct T2 as [|r T2]; [done|]. apply Forall_cons_1 in HT2 as [[[Hin _] Hlt] _].
             destruct (Hbehind _ Hin Hlt) as (? & HinL & _). pose proof (chain_bounds _ _ _ _ _ Hc HinL). lia. }
           rewrite length_app in Hlen. cbn [length] in Hlen. replace (size t - 1) with (Z.of_nat (length (e1 :: T1))) by (cbn [length]; lia).
           destruct (insert_entry_spec b byte_order L first end_ Hwf ltac:(lia) He Hc
             (with_rw a (take (Z.to_nat (Z.of_nat (length (e1 :: T1)))) (aux_rw a))) (with_size t (Z.of_nat (length (e1 :: T1)))) (e1 :: T1) [])
             as (a' & t' & -> & Hg & Hr & _ & _ & Hdo); rewrite ?app_nil_r; try done.
           ++ split; [by apply rw_type_size; [|cbn [length]; lia]|done|done|by destruct Hroom].
           ++ cbn [aux_rw with_rw]. by rewrite Ea, Nat2Z.id, take_app_length.
           ++ by apply table_before.
           ++ bind_simpl. exists a', t'. by split_and!.
    + (* no entry at the changed key *)
      bind_simpl. destruct T1 as [|e1 T1].
      { injection ET as -> ->. exfalso. lia. }
      destruct (exists_last (l := e1 :: T1) ltac:(done)) as (A & ea & EA). rewrite EA in *.
      assert (rw_offset ea < W) as Hea by (apply Forall_app in H1 as [_ H1]; by apply Forall_cons_1 in H1 as [H1 _]).
      apply (fix_behind_spec a t A ea (e2 :: T2)); try done; [by rewrite Ea| |lia| |by constructor].
      * rewrite <- EA in *. cbn [app] in ET. injection ET as -> ->. apply Forall_app in Hok as [Hok1 _]. by apply table_before.
      * constructor; [|done]. split; [|lia]. rewrite <- EA in *. cbn [app] in ET. injection ET as -> ->. apply Forall_app in Hok as [_ Hok2].
        by apply Forall_cons_1 in Hok2 as [Hok2 _].
Qed.
End Fix.
