(* ===== verification/BsetUpdate.v ===== *)
(** * Insertion into and deletion from a bset ([btree/bset_update.rs])

    Only the last set of a node is changed.  Its keys lie one behind the
    other, so an insertion or a deletion moves the words behind it, rewrites
    the length in the set's header, and then adjusts the table of keys that
    searches in the set begin with. *)

From stdpp Require Import base tactics list option sorting.
From Stdlib Require Import ZArith Lia.
From S2P Require Import Prelude Bpos BkeyPack BkeyOrder NodeIter BsetSearch BsetMem BsetTable.

Open Scope Z_scope.

Record btree_nr_keys := mk_nr_keys {
  live_u64s : Z;
  nr_bset_u64s : list Z;
  packed_keys : Z;
  unpacked_keys : Z
}.

Definition nr_keys_default : btree_nr_keys := mk_nr_keys 0 (replicate MAX_BSETS 0) 0 0.

(** A node with the parts that updates change; [n_aux] holds the auxiliary
    data of each set. *)
Record bnode := mk_bnode {
  n_b : btree;
  n_aux : list aux;
  n_nr : btree_nr_keys;
  n_byte_order : Z
}.

(** ** Accounting *)

Definition btree_keys_account_key (nr : btree_nr_keys) (bset_idx : nat) (m : list Z) (sign : Z)
  : option btree_nr_keys :=
  let delta := kp_u64s m * sign in
  u ← nr_bset_u64s nr !! bset_idx;
  let p := bkey_packed m in
  Some (mk_nr_keys ((live_u64s nr + delta) mod 2 ^ 16)
          (<[bset_idx := (u + delta) mod 2 ^ 16]> (nr_bset_u64s nr))
          (if p then (packed_keys nr + sign) mod 2 ^ 16 else packed_keys nr)
          (if p then unpacked_keys nr else (unpacked_keys nr + sign) mod 2 ^ 16)).

Fixpoint count_set_loop (fuel : nat) (b : btree) (idx : nat) (end_ key : Z) (nr : btree_nr_keys)
  : option btree_nr_keys :=
  if key =? end_ then Some nr else
  match fuel with
  | O => None
  | S fuel =>
      nr ← (if negb (bkey_deleted (key_mem b key)) then btree_keys_account_key nr idx (key_mem b key) 1 else Some nr);
      key ← bkey_p_next b key;
      count_set_loop fuel b idx end_ key nr
  end.

Fixpoint count_sets (b : btree) (idx : nat) (ts : list bset_tree) (nr : btree_nr_keys) : option btree_nr_keys :=
  match ts with
  | [] => Some nr
  | t :: ts =>
      first ← btree_bkey_first t;
      nr ← count_set_loop (length (b_words b)) b idx (btree_bkey_last t) first nr;
      count_sets b (S idx) ts nr
  end.

Definition bch2_btree_node_count_keys (b : btree) : option btree_nr_keys :=
  count_sets b 0 (b_set b) nr_keys_default.

(** ** Insertion and deletion *)

(** The memory of the key to store: packed if it can be. *)
Definition insert_src (f : bkey_format) (insert : bkey) (val : list Z) : option (list Z) :=
  r ← bch2_bkey_pack_key (replicate 5 0) insert f;
  Some (default (bkey_words insert ++ val) r).

(** The key [insert] with the value [val]; [where_] is a pointer into the
    last set, the keys of [clobber_u64s] words there are replaced.  The
    debug output and the walk over the keys that only reports are left out. *)
Definition bch2_bset_insert (n : bnode) (where_ : Z) (insert : bkey) (val : list Z) (clobber_u64s : Z)
  : option bnode :=
  let b := n_b n in
  i ← bset_tree_last b;
  t ← b_set b !! i;
  src ← insert_src (b_format b) insert val;
  first ← btree_bkey_first t;
  _ ← assert ((first <=? where_) && (where_ <=? btree_bkey_last t));
  nr ← (if negb (k_type insert =? 0) then btree_keys_account_key (n_nr n) i src 1 else Some (n_nr n));
  let u64s := kp_u64s src in
  b ← (if negb (u64s =? clobber_u64s) then resize_set b i where_ clobber_u64s u64s else Some b);
  let key_u64s := bkeyp_key_u64s (b_format b) src in
  ws ← write_words (b_words b) where_ (take (Z.to_nat key_u64s) src);
  ws ← write_words ws (where_ + key_u64s) (take (Z.to_nat (bkeyp_val_u64s (b_format b) src)) val);
  let b := with_words b ws in
  t ← b_set b !! i;
  a ← n_aux n !! i;
  '(a, t) ← (if negb (u64s =? clobber_u64s)
             then bch2_bset_fix_lookup_table b (n_byte_order n) a t where_ clobber_u64s u64s else Some (a, t));
  Some (mk_bnode (with_set b i t) (<[i := a]> (n_aux n)) nr (n_byte_order n)).

Definition bch2_bset_delete (n : bnode) (where_ clobber_u64s : Z) : option bnode :=
  let b := n_b n in
  i ← bset_tree_last b;
  b ← resize_set b i where_ clobber_u64s 0;
  t ← b_set b !! i;
  a ← n_aux n !! i;
  '(a, t) ← bch2_bset_fix_lookup_table b (n_byte_order n) a t where_ clobber_u64s 0;
  Some (mk_bnode (with_set b i t) (<[i := a]> (n_aux n)) (n_nr n) (n_byte_order n)).

(** ** The block of the inserted key *)

(** [x] stores the key [k] with the value [val]. *)
Record block_of (f : bkey_format) (x : list Z) (k : bkey) (val : list Z) : Prop := {
  bk_ok : block_ok f x;
  bk_holds : holds_key f x k;
  bk_type : kp_type x = k_type k;
  bk_val : drop (Z.to_nat (bkeyp_key_u64s f x)) x = val
}.

(** A key that can be inserted: unpacked, as long as its value says. *)
Record insertable (k : bkey) (val : list Z) : Prop := {
  in_key : bkey_wf k;
  in_format : Z.land (k_format k) 127 = KEY_FORMAT_CURRENT;
  in_u64s : k_u64s k = BKEY_U64S + Z.of_nat (length val);
  in_val : words_wf val
}.

Lemma wval_take m n : (n <= length m)%nat -> wval (take n m) n = wval m n.
Proof. intros H. rewrite <- (take_drop n m) at 2. rewrite wval_app_l; [done|]. rewrite length_take. lia. Qed.

Lemma word0_bkey_words k : bkey_wf k ->
  kp_u64s (bkey_words k) = k_u64s k /\ kp_format (bkey_words k) = k_format k /\ kp_type (bkey_words k) = k_type k /\
  unpacked_pos (bkey_words k) = k_p k /\ words_wf (bkey_words k).
Proof.
  intros (Hu & Hfm & Ht & [Hvh Hvl] & Hsz & Hi & Ho & Hs). unfold kp_u64s, kp_format, kp_type, unpacked_pos, word, words_wf. cbn [nth bkey_words].
  unfold in_range in *. set (lo := v_lo (k_version k)) in *. pose proof (Z.mod_pos_bound lo (2 ^ 32) ltac:(lia)).
  assert (0 <= lo / 2 ^ 32 < 2 ^ 32) by (split; [apply Z.div_pos; lia|apply Z.div_lt_upper_bound; lia]).
  assert (forall a c, 0 <= c < 2 ^ 8 -> (a * 2 ^ 8 + c) mod 2 ^ 8 = c /\ (a * 2 ^ 8 + c) / 2 ^ 8 = a) as Hb.
  { intros a c Hc. split; [rewrite Z.add_comm, Z.mod_add, Z.mod_small; lia|rewrite Z.div_add_l, Z.div_small; lia]. }
  set (h := lo mod 2 ^ 32) in *.
  replace (h * 2 ^ 32 + k_type k * 2 ^ 16 + k_format k * 2 ^ 8 + k_u64s k)
    with (((h * 2 ^ 16 + k_type k) * 2 ^ 8 + k_format k) * 2 ^ 8 + k_u64s k) by lia.
  assert (forall z, z / 2 ^ 16 = z / 2 ^ 8 / 2 ^ 8) as Hd by (intros z; rewrite Z.div_div by lia; done). rewrite Hd.
  destruct (Hb ((h * 2 ^ 16 + k_type k) * 2 ^ 8 + k_format k) (k_u64s k) Hu) as [-> ->].
  destruct (Hb (h * 2 ^ 16 + k_type k) (k_format k) Hfm) as [-> ->].
  split; [done|]. split; [done|]. split; [change (2 ^ 16) with (2 ^ 8 * 2 ^ 8); rewrite Z.mul_assoc; apply (Hb _); lia|].
  split; [|repeat (apply List.Forall_cons; [cbn; fold lo; fold h; lia|]); constructor].
  rewrite Z.div_add_l, Z.div_small by lia. rewrite Z.add_0_r. by destruct (k_p k).
Qed.

Lemma insert_src_spec f k val : format_wf f -> insertable k val ->
  exists src x, insert_src f k val = Some src /\ block_of f x k val /\ kp_u64s src = Z.of_nat (length x) /\
    x = take (Z.to_nat (bkeyp_key_u64s f src)) src ++ take (Z.to_nat (bkeyp_val_u64s f src)) val /\
    bkeyp_key_u64s f src = Z.of_nat (length (take (Z.to_nat (bkeyp_key_u64s f src)) src)) /\
    kp_u64s x = kp_u64s src /\ bkey_packed x = bkey_packed src /\ Z.of_nat (length x) <= k_u64s k.
Proof.
  intros Hf [Hk Hfm Hu Hv]. pose proof (fw_u64s f Hf) as HU. pose proof Hk as (Hku & _).
  pose proof (zero_buffer_wf f Hf) as Hbuf.
  pose proof (bch2_bkey_pack_key_spec f (replicate 5 0) k Hf Hbuf Hk Hfm ltac:(lia)) as Hp. unfold insert_src.
  unfold BKEY_U64S, in_range in *. destruct (key_fits f k).
  - destruct Hp as (m & -> & Hpa & Hl & Hmu & Hmf & Hmt). bind_simpl. cbn [default from_option id].
    assert (bkey_packed m = true) as Hpk.
    { unfold bkey_packed. rewrite Hmf, <- Z.land_assoc. change (Z.land 128 127) with 0. by rewrite Z.land_0_r. }
    assert (bkeyp_key_u64s f m = f_key_u64s f) as Eku by (unfold bkeyp_key_u64s; by rewrite Hpk).
    assert (Z.to_nat (bkeyp_val_u64s f m) = length val) as Evu.
    { unfold bkeyp_val_u64s. rewrite Eku, wsub_small by (unfold in_range; lia). lia. }
    set (u := Z.to_nat (f_key_u64s f)). change (length (replicate 5 0)) with 5%nat in Hl.
    set (x := take u m ++ val).
    assert (length (take u m) = u) as Htl by (rewrite length_take; lia).
    assert (word x 0 = word m 0) as Hw0.
    { unfold x. rewrite word_app_l by lia. unfold word. rewrite <- (take_drop u m) at 2. rewrite app_nth1 by lia. done. }
    assert (kp_u64s x = kp_u64s m) as Exu by (unfold kp_u64s; by rewrite Hw0).
    assert (bkey_packed x = true) as Exp by (rewrite <- Hpk; unfold bkey_packed, kp_format; by rewrite Hw0).
    assert (Z.of_nat (length x) = f_key_u64s f + Z.of_nat (length val)) as Exl by (unfold x; rewrite length_app; lia).
    pose proof (pa_wf _ _ _ Hpa) as [Wm _].
    assert (words_wf x) as Wx by (apply Forall_app; split; [by apply Forall_take|done]).
    assert (holds_key f x k) as Hhold.
    { split; [done|]. left. split; [|split; [split; [done|lia]|apply Hpa|]].
      - unfold header_ok, BKEY_U64S. rewrite Exu, Hmu. split; [lia|]. split; [lia|].
        unfold kp_format. rewrite Hw0. fold (kp_format m). rewrite Hmf, <- Z.land_assoc. change (Z.land 128 127) with 0. apply Z.land_0_r.
      - unfold x. fold u. rewrite wval_app_l by lia. rewrite wval_take by lia. apply Hpa. }
    exists m, x. rewrite Eku, Evu, firstn_all. fold u. split; [done|].
    split; [|split; [lia|split; [done|split; [lia|split; [done|split; [congruence|lia]]]]]].
    split; [split; [done|lia|rewrite Exp; lia|by exists k]|done|unfold kp_type; rewrite Hw0; apply Hmt|].
    unfold bkeyp_key_u64s. rewrite Exp. fold u. unfold x. rewrite <- Htl at 1. apply drop_app_length.
  - rewrite Hp. bind_simpl. cbn [default from_option id]. destruct (word0_bkey_words k Hk) as (Eu & Ef & Et & Ep & Wk).
    set (x := bkey_words k ++ val). assert (length x = 5 + length val)%nat as Exl by (unfold x; by rewrite length_app).
    assert (word x 0 = word (bkey_words k) 0) as Hw0 by (unfold x; rewrite word_app_l; [done|cbn; lia]).
    assert (kp_u64s x = k_u64s k) as Exu by (rewrite <- Eu; unfold kp_u64s; by rewrite Hw0).
    assert (bkey_packed x = false) as Exp.
    { unfold bkey_packed, kp_format. rewrite Hw0. fold (kp_format (bkey_words k)). by rewrite Ef, Hfm. }
    assert (unpacked_pos x = k_p k) as Exq by (rewrite <- Ep; unfold unpacked_pos, x; rewrite !word_app_l by (cbn; lia); done).
    exists x, x. split; [done|]. split.
    { split; [split; [by apply Forall_app|rewrite Exu; lia|rewrite Exp; lia|exists k; split; [done|by right]]|split; [done|by right]| |].
      - rewrite <- Et. unfold kp_type. by rewrite Hw0.
      - unfold bkeyp_key_u64s. rewrite Exp. done. }
    unfold bkeyp_val_u64s, bkeyp_key_u64s. rewrite Exp. unfold BKEY_U64S. rewrite wsub_small by (unfold in_range; lia).
    split; [lia|]. split; [|split; [rewrite length_take; lia|split; [done|split; [done|lia]]]].
    rewrite (take_ge val) by lia. unfold x. change (Z.to_nat 5) with (length (bkey_words k)). by rewrite take_app_length.
Qed.

(** ** Where the keys of a changed row are *)

Lemma offs_shift k d bs : offs (k + d) bs = map (fun o => o + d) (offs k bs).
Proof.
  revert k. induction bs as [|x bs IH]; intros k; [done|]. cbn [offs map]. f_equal. rewrite <- IH. f_equal. lia.
Qed.

Lemma length_offs k bs : length (offs k bs) = length bs.
Proof. revert k. induction bs; intros k; cbn; congruence. Qed.

(** Equal blocks are at equal positions, wherever they lie. *)
Lemma same_block_pos b b' k k' bs i o o' : format_wf (b_format b) -> b_format b' = b_format b ->
  Forall2 (block_at b) (offs k bs) bs -> Forall2 (block_at b') (offs k' bs) bs -> Forall (block_ok (b_format b)) bs ->
  offs k bs !! i = Some o -> offs k' bs !! i = Some o' -> in_range 16 o -> in_range 16 o' ->
  key_pos b' o' = key_pos b o.
Proof.
  intros Hf Ef Hat Hat' Hok Ho Ho' Hr Hr'. destruct (Forall2_lookup_l _ _ _ _ _ Hat Ho) as (x & Hx & Hxat).
  destruct (Forall2_lookup_l _ _ _ _ _ Hat' Ho') as (x' & Hx' & Hxat'). assert (x' = x) as -> by congruence.
  pose proof (Forall_lookup_1 _ _ _ _ Hok Hx) as Hxok.
  destruct (block_at_key b Hf o x Hr Hxok Hxat) as (_ & _ & -> & _).
  destruct (block_at_key b' ltac:(by rewrite Ef) o' x Hr' ltac:(by rewrite Ef) Hxat') as (_ & _ & -> & _). by rewrite Ef.
Qed.

Lemma moved_here first pre l : let len x := Z.of_nat (length (concat x)) in
  first + len pre < first + len (pre ++ l) -> first + len pre ∈ offs first (pre ++ l).
Proof.
  intros len Hlt. rewrite offs_app. apply elem_of_app. right. unfold len in Hlt. rewrite concat_app, length_app in Hlt.
  destruct l as [|x l]; [cbn in Hlt; lia|left].
Qed.

Lemma row_parts bb bs1 bs2 k : Forall2 (block_at bb) (offs k (bs1 ++ bs2)) (bs1 ++ bs2) ->
  Forall2 (block_at bb) (offs k bs1) bs1 /\ Forall2 (block_at bb) (offs (k + Z.of_nat (length (concat bs1))) bs2) bs2.
Proof.
  rewrite offs_app. intros H. apply Forall2_app_inv in H; [done|]. apply length_offs.
Qed.

Lemma row_range f bs k o : 0 <= k -> k + Z.of_nat (length (concat bs)) < 2 ^ 16 -> Forall (block_ok f) bs -> o ∈ offs k bs -> in_range 16 o.
Proof.
  intros Hk Hb Hbs Ho. pose proof (offs_lower _ _ _ Ho). pose proof (offs_upper _ _ _ (blocks_len _ _ Hbs) Ho).
  unfold in_range. lia.
Qed.

Section Moved.
Context (b0 b : btree) (first : Z) (pre old new post : list (list Z)).
Notation f := (b_format b0).
Notation len x := (Z.of_nat (length (concat x))).
Notation W := (first + len pre).
Context (Hf : format_wf f) (Ef : b_format b = f) (H0 : 0 <= first).
Context (Hold : (length old <= 1)%nat).
Context (Hr0 : first + len (pre ++ old ++ post) < 2 ^ 16) (Hr : first + len (pre ++ new ++ post) < 2 ^ 16).
Context (Hat0 : Forall2 (block_at b0) (offs first (pre ++ old ++ post)) (pre ++ old ++ post)).
Context (Hat : Forall2 (block_at b) (offs first (pre ++ new ++ post)) (pre ++ new ++ post)).
Context (Hok0 : Forall (block_ok f) (pre ++ old ++ post)) (Hok : Forall (block_ok f) (pre ++ new ++ post)).

Lemma moved_before o : o ∈ offs first (pre ++ old ++ post) -> o < W ->
  o ∈ offs first (pre ++ new ++ post) /\ key_pos b o = key_pos b0 o.
Proof.
  rewrite !offs_app. intros Ho Hlt. apply elem_of_app in Ho as [Ho|Ho].
  - split; [apply elem_of_app; by left|]. apply row_parts in Hat0 as [Hp0 _]. apply row_parts in Hat as [Hp _].
    apply Forall_app in Hok0 as [Hokp _]. rewrite concat_app, length_app in Hr0.
    pose proof (row_range f pre first o H0 ltac:(lia) Hokp Ho). apply list_elem_of_lookup_1 in Ho as [i Hi].
    by eapply (same_block_pos b0 b first first pre i o o).
  - rewrite <- offs_app in Ho. apply offs_lower in Ho. lia.
Qed.

Lemma moved_behind o : o ∈ offs first (pre ++ old ++ post) -> W < o ->
  W + len old <= o /\ o + (len new - len old) ∈ offs first (pre ++ new ++ post) /\
  key_pos b (o + (len new - len old)) = key_pos b0 o.
Proof.
  rewrite !offs_app. intros Ho Hlt. apply elem_of_app in Ho as [Ho|Ho].
  { apply Forall_app in Hok0 as [Hokp _]. pose proof (offs_upper _ _ _ (blocks_len _ _ Hokp) Ho). lia. }
  apply elem_of_app in Ho as [Ho|Ho].
  { destruct old as [|x [|]]; cbn [offs length] in *; [by apply elem_of_nil in Ho|apply list_elem_of_singleton in Ho; lia|lia]. }
  apply row_parts in Hat0 as [_ Hp0]. apply row_parts in Hp0 as [_ Hp0]. apply row_parts in Hat as [_ Hp]. apply row_parts in Hp as [_ Hp].
  apply Forall_app in Hok0 as [_ Hokp]. apply Forall_app in Hokp as [_ Hokp]. rewrite !concat_app, !length_app in *.
  pose proof (row_range f post (W + len old) o ltac:(lia) ltac:(lia) Hokp Ho) as Hro.
  pose proof (offs_lower _ _ _ Ho). set (d := len new - len old).
  assert (o + d ∈ offs (W + len new) post) as Ho'.
  { replace (W + len new) with (W + len old + d) by lia. rewrite offs_shift. apply list_elem_of_fmap. by exists o. }
  split; [done|]. split; [rewrite !elem_of_app; tauto|].
  pose proof (row_range f post (W + len new) (o + d) ltac:(lia) ltac:(lia) Hokp Ho') as Hro'.
  apply list_elem_of_lookup_1 in Ho as [i Hi].
  eapply (same_block_pos b0 b (W + len old) (W + len new) post i o (o + d)); try done.
  replace (W + len new) with (W + len old + d) by lia. rewrite offs_shift. rewrite list_lookup_fmap, Hi. done.
Qed.

End Moved.

(** Entries at different offsets: the size of a table fits. *)
Lemma sorted_length T lo hi : StronglySorted entry_lt T -> Forall (fun e => lo <= rw_offset e < hi) T -> lo <= hi ->
  Z.of_nat (length T) <= hi - lo.
Proof.
  intros Hs. revert lo. induction Hs as [|e T Hs IH Hf]; intros lo HT Hle; [cbn; lia|].
  apply Forall_cons_1 in HT as [He HT]. cbn [length].
  cut (Z.of_nat (length T) <= hi - (rw_offset e + 1)); [lia|]. apply IH; [|lia].
  eapply Forall_impl; [apply Forall_and; split; [exact Hf|exact HT]|]. unfold entry_lt. cbn. lia.
Qed.

Lemma table_length b first end_ L T : chain b (node_key b) first end_ L -> table_ok b first L T ->
  Z.of_nat (length T) <= end_ + 1 - first.
Proof.
  intros Hc HT. pose proof (chain_le _ _ _ _ _ Hc). destruct T as [|e T]; [done|]. destruct HT as (E0 & Hok & Hs).
  apply sorted_length; [done| |lia]. constructor; [lia|]. eapply Forall_impl; [exact Hok|]. intros x [Hin _].
  pose proof (chain_bounds _ _ _ _ _ Hc Hin). lia.
Qed.

(** ** Nodes whose auxiliary data is right *)

Record set_aux (b : btree) (byte_order : Z) (t : bset_tree) (a : aux) (bs : list (list Z)) : Prop := {
  sa_ok : aux_ok b a t (offs (first_offset t) bs);
  sa_rw : bset_aux_tree_type t = Some BSET_RW_AUX_TREE ->
    rw_good b a t (offs (first_offset t) bs) /\ aux_room byte_order t /\ size t < 2 ^ 16
}.

Record bnode_ok (n : bnode) (Bs : list (list (list Z))) : Prop := {
  bn_holds : node_holds (n_b n) Bs;
  bn_aux : Forall3 (set_aux (n_b n) (n_byte_order n)) (b_set (n_b n)) (n_aux n) Bs;
  bn_nr : length (nr_bset_u64s (n_nr n)) = MAX_BSETS
}.

(** A set that may be changed has no tree of abbreviated keys. *)
Definition writeable (t : bset_tree) : Prop := bset_aux_tree_type t <> Some BSET_RO_AUX_TREE.

Lemma set_holds_ext b t t' bs : data_offset t' = data_offset t -> end_offset t' = end_offset t ->
  set_holds b t bs -> set_holds b t' bs.
Proof.
  intros Ed Ee [H1 H2 H3 H4 H5 H6 H7]. split; unfold bset_header_u64s in *; rewrite ?Ed, ?Ee; done.
Qed.

Lemma with_end_type t e : bset_aux_tree_type (with_end t e) = bset_aux_tree_type t.
Proof. done. Qed.

Section FixLast.
Context (b0 b : btree) (byte_order : Z) (t : bset_tree) (pre old new post : list (list Z)).
Notation len x := (Z.of_nat (length (concat x))).
Notation W := (first_offset t + len pre).
Notation t' := (with_end t (first_offset t + len (pre ++ new ++ post))).
Context (Hwf0 : node_wf b0) (Hw0 : words_wf (b_words b0)) (Hold : (length old <= 1)%nat).
Context (Hwf : node_wf b) (Hw : words_wf (b_words b)) (Ef : b_format b = b_format b0).
Context (Hset0 : set_holds b0 t (pre ++ old ++ post)) (Hset : set_holds b t' (pre ++ new ++ post)).

(** Positions before and behind the changed key. *)
Lemma fix_last_table a : writeable t -> set_aux b0 byte_order t a (pre ++ old ++ post) ->
  exists a' t'', bch2_bset_fix_lookup_table b byte_order a t' W (len old) (len new) = Some (a', t'') /\
    set_aux b byte_order t'' a' (pre ++ new ++ post) /\ data_offset t'' = data_offset t /\ end_offset t'' = end_offset t' /\
    bset_aux_tree_type t'' = bset_aux_tree_type t.
Proof.
  intros Hwr [Haux Hrw]. unfold bch2_bset_fix_lookup_table. rewrite with_end_type.
  destruct Haux as [Eno|[Erw _]].
  { rewrite Eno. bind_simpl. exists a, t'. split; [done|]. split; [|done]. split; [by left|]. rewrite with_end_type, Eno. done. }
  rewrite Erw. bind_simpl. destruct (Hrw Erw) as ([_ Hsz HT] & Hroom & H16).
  pose proof (sh_offset _ _ _ Hset0) as Hd0. cbn [data_offset with_end] in *.
  pose proof (sh_range _ _ _ Hset) as Hend. cbn [end_offset with_end] in Hend.
  pose proof (sh_range _ _ _ Hset0) as Hend0. rewrite (sh_end _ _ _ Hset0) in Hend0.
  pose proof (set_holds_at _ _ _ Hw0 Hset0) as Hat0. pose proof (set_holds_at _ _ _ Hw Hset) as Hat.
  change (first_offset t') with (first_offset t) in Hat.
  pose proof (sh_blocks _ _ _ Hset0) as Hok0. pose proof (sh_blocks _ _ _ Hset) as Hok. rewrite Ef in Hok.
  pose proof (set_holds_range _ _ _ Hwf Hw Hset) as (_ & _ & [_ Hchain _]). cbn [it_k it_end data_offset end_offset with_end] in Hchain.
  fold (first_offset t) in Hchain. change (first_offset t') with (first_offset t) in Hchain.
  assert (0 <= first_offset t) by (unfold first_offset; lia).
  destruct (fix_lookup_table_spec b0 b byte_order (offs (first_offset t) (pre ++ old ++ post)) (offs (first_offset t) (pre ++ new ++ post))
    (first_offset t) (first_offset t + len (pre ++ new ++ post)) W (len old) (len new)) with (a := a) (t := t')
    as (a' & t'' & E & Hg & [Ht'' Ef'' Ee'' Hroom''] & Hdo); try done; try lia.
  - unfold first_offset. lia.
  - rewrite !concat_app, !length_app. lia.
  - intros o. apply (moved_before b0 b (first_offset t) pre old new post); try done; apply Hwf0.
  - intros o. apply (moved_behind b0 b (first_offset t) pre old new post); try done; apply Hwf0.
  - apply moved_here.
  - split; [done|done|done|by destruct Hroom].
  - exists a', t''. split; [exact E|]. unfold first_offset in Ef''.
    assert (first_offset t'' = first_offset t) as E1 by done.
    split; [|split; [done|split; [done|congruence]]]. split; rewrite E1.
    + right. split; [done|]. by apply rw_good_ok.
    + intros _. split; [done|]. split; [done|]. destruct Hg as [_ Hsz' HT'']. rewrite E1 in HT''.
      pose proof (table_length _ _ _ _ _ Hchain HT''). unfold first_offset in *. lia.
Qed.
End FixLast.

(** ** The other sets *)

Lemma same_keys b0 b t bs : node_wf b0 -> words_wf (b_words b0) -> words_wf (b_words b) -> b_format b = b_format b0 ->
  set_holds b0 t bs -> set_holds b t bs -> forall o, o ∈ offs (first_offset t) bs -> key_pos b o = key_pos b0 o.
Proof.
  intros [Hf _] Hw0 Hw Ef H0 H o Ho. pose proof (sh_offset _ _ _ H0). pose proof (sh_range _ _ _ H0) as Hr.
  rewrite (sh_end _ _ _ H0) in Hr.
  assert (in_range 16 o) by (eapply (row_range (b_format b0) bs (first_offset t)); [unfold first_offset; lia|done|apply H0|done]).
  apply list_elem_of_lookup_1 in Ho as [i Hi].
  eapply (same_block_pos b0 b (first_offset t) (first_offset t) bs i o o); try done; [by apply set_holds_at..|apply H0].
Qed.

Lemma set_aux_ext b0 b byte_order t a bs : (forall o, o ∈ offs (first_offset t) bs -> key_pos b o = key_pos b0 o) ->
  set_aux b0 byte_order t a bs -> set_aux b byte_order t a bs.
Proof.
  intros Hk [Hok Hrw]. split.
  - destruct Hok as [|[Ht [H1 H2 H3]]]; [by left|right]. split; [done|]. split; [done|done|]. intros j e Ee.
    destruct (H3 j e Ee) as [Hin E]. split; [done|]. by rewrite Hk.
  - intros Ht. destruct (Hrw Ht) as ([H1 H2 H3] & Hroom & Hsz). split; [|done]. split; [done|done|].
    destruct (aux_rw a) as [|e0 T]; [done|]. destruct H3 as (E0 & HT & Hs). split; [done|]. split; [|done].
    eapply Forall_impl; [exact HT|]. intros e [Hin E]. split; [done|]. by rewrite Hk.
Qed.

Lemma other_sets_aux b0 b byte_order ts auxs Bs : node_wf b0 -> words_wf (b_words b0) -> words_wf (b_words b) ->
  b_format b = b_format b0 -> Forall2 (set_holds b0) ts Bs -> Forall2 (set_holds b) ts Bs ->
  Forall3 (set_aux b0 byte_order) ts auxs Bs -> Forall3 (set_aux b byte_order) ts auxs Bs.
Proof.
  intros Hwf Hw0 Hw Ef H0 H H3. induction H3 as [|t a bs ts auxs Bs Ha H3 IH]; [constructor|].
  inversion H0; subst. inversion H; subst. constructor; [|by apply IH].
  eapply set_aux_ext; [|exact Ha]. by apply same_keys.
Qed.

Lemma Forall3_snoc_inv {A B C} (P : A -> B -> C -> Prop) l x k m z : Forall3 P (l ++ [x]) k (m ++ [z]) ->
  exists k' y, k = k' ++ [y] /\ Forall3 P l k' m /\ P x y z.
Proof.
  intros H. pose proof (Forall3_length_lm _ _ _ _ H) as Hl. pose proof (Forall3_length_lr _ _ _ _ H) as Hr.
  destruct k as [|y0 k0 _] using rev_ind; [rewrite length_app in Hl; cbn in Hl; lia|].
  rewrite !length_app in *. cbn in Hl, Hr. exists k0, y0. split; [done|].
  apply Forall3_app_inv_m in H as (l1 & l2 & m1 & m2 & El & Em & H1 & H2). inversion H2 as [|? ? ? ? ? ? Hp Hn]; subst. inversion Hn; subst.
  apply app_inj_tail in El as [-> ->]. apply app_inj_tail in Em as [-> ->]. done.
Qed.

(** ** Insertion *)

Lemma with_end_same t : with_end t (end_offset t) = t.
Proof. by destruct t. Qed.

Lemma with_set_same b i t : b_set b !! i = Some t -> with_set b i t = b.
Proof. intros H. destruct b. unfold with_set. cbn in *. by rewrite list_insert_id. Qed.

Section Insert.
Context (b : btree) (ts : list bset_tree) (t : bset_tree) (Bs : list (list (list Z))) (pre old post : list (list Z)).
Notation len x := (Z.of_nat (length (concat x))).
Notation W := (first_offset t + len pre).
Context (Hnode : node_holds b (Bs ++ [pre ++ old ++ post])) (Eb : b_set b = ts ++ [t]).

Lemma last_lookup (t' : bset_tree) : (ts ++ [t']) !! length ts = Some t'.
Proof. by apply list_lookup_middle. Qed.

Lemma last_holds : set_holds b t (pre ++ old ++ post) /\ Forall2 (set_holds b) ts Bs.
Proof.
  pose proof (nh_sets _ _ Hnode) as Hs. rewrite Eb in Hs. apply Forall2_app_inv in Hs as [Hs Ht].
  - by inversion Ht.
  - apply Forall2_length in Hs. rewrite !length_app in Hs. cbn in Hs. lia.
Qed.

(** Room for [m] words in the place of the old key. *)
Lemma room_made m : W + Z.of_nat m + len post <= Z.of_nat (length (b_words b)) -> W + Z.of_nat m + len post < 2 ^ 16 ->
  exists A G R, (if negb (Z.of_nat m =? len old) then resize_set b (length ts) W (len old) (Z.of_nat m) else Some b) =
      Some (with_set (with_words b (A ++ concat pre ++ G ++ concat post ++ R)) (length ts)
              (with_end t (W + Z.of_nat m + len post))) /\
    Z.of_nat (length A) = first_offset t /\ length G = m /\ words_wf (A ++ concat pre ++ G ++ concat post ++ R) /\
    length (A ++ concat pre ++ G ++ concat post ++ R) = length (b_words b) /\
    take (Z.to_nat (data_offset t + 2)) A = take (Z.to_nat (data_offset t + 2)) (b_words b) /\
    exists w, A !! Z.to_nat (data_offset t + 2) = Some w /\ w / 2 ^ 48 = Z.of_nat (length (concat pre) + m + length (concat post)).
Proof.
  intros Hroom H16. destruct last_holds as [Hlast _]. pose proof (nh_words _ _ Hnode) as Hw.
  assert (b_set b !! length ts = Some t) as Hi by (rewrite Eb; apply last_lookup).
  destruct (Z.eqb_spec (Z.of_nat m) (len old)) as [E|E]; cbn [negb].
  2:{ by apply (resize_set_spec b (length ts) t pre old post W (len old) m Hw Hi Hlast). }
  destruct Hlast as [H0 He Hr Hh (A & R & Ew & HA) _ _]. unfold first_offset in *. rewrite !concat_app, <- !app_assoc in Ew.
  rewrite !concat_app, !length_app in *.
  exists A, (concat old), R. rewrite <- Ew. split.
  { assert (data_offset t + 3 + len pre + Z.of_nat m + len post = end_offset t) as -> by lia.
    assert (with_words b (b_words b) = b) as -> by (by destruct b). by rewrite with_end_same, with_set_same. }
  split; [done|]. split; [lia|]. split; [done|]. split; [done|]. split; [rewrite Ew, take_app_le by lia; done|].
  unfold bset_header_u64s in Hh. rewrite Ew, lookup_app_l in Hh by lia. destruct (A !! Z.to_nat (data_offset t + 2)) as [w|]; [|done].
  cbn [mbind option_bind] in Hh. injection Hh as Hh. exists w. split; [done|]. lia.
Qed.

(** The memory and the sets after a change of the last set. *)
Lemma row_changed new A R : len new + W + len post < 2 ^ 16 ->
  Z.of_nat (length A) = first_offset t -> words_wf (A ++ concat (pre ++ new ++ post) ++ R) ->
  take (Z.to_nat (data_offset t + 2)) A = take (Z.to_nat (data_offset t + 2)) (b_words b) ->
  (exists w, A !! Z.to_nat (data_offset t + 2) = Some w /\ w / 2 ^ 48 = len (pre ++ new ++ post)) ->
  Forall (block_ok (b_format b)) new ->
  (forall x y, x ∈ pre -> y ∈ new -> block_le (b_format b) x y) ->
  (forall x y, x ∈ new -> y ∈ post -> block_le (b_format b) x y) ->
  StronglySorted (block_le (b_format b)) new ->
  let t' := with_end t (first_offset t + len (pre ++ new ++ post)) in
  node_holds (mk_btree (b_format b) (b_nr_key_bits b) (A ++ concat (pre ++ new ++ post) ++ R) (ts ++ [t'])) (Bs ++ [pre ++ new ++ post]).
Proof.
  intros H16 HA Hw Htake Hhd Hok Hl Hr Hs t'. destruct last_holds as [Hlast _].
  pose proof (sh_blocks _ _ _ Hlast) as Hok0. pose proof (sh_sorted _ _ _ Hlast) as Hs0.
  eapply (last_set_holds b ts t); try done.
  - subst t'. cbn [end_offset with_end]. unfold first_offset in *. rewrite !concat_app, !length_app in *. lia.
  - rewrite !Forall_app in *. tauto.
  - apply StronglySorted_app in Hs0 as (Hc & Hs1 & Hs23). apply StronglySorted_app in Hs23 as (_ & _ & Hs3).
    apply StronglySorted_app_2; [|done|apply StronglySorted_app_2; [done|done|done]].
    intros x y Hx Hy. apply elem_of_app in Hy as [Hy|Hy]; [by apply Hl|]. apply Hc; [done|]. apply elem_of_app. by right.
Qed.
End Insert.

(** The last set with another table. *)
Lemma node_holds_last f nr ws ts t t' Bs bs : data_offset t' = data_offset t -> end_offset t' = end_offset t ->
  node_holds (mk_btree f nr ws (ts ++ [t])) (Bs ++ [bs]) -> node_holds (mk_btree f nr ws (ts ++ [t'])) (Bs ++ [bs]).
Proof.
  intros Ed Ee [Hwf Hw Hs Hl Ho]. cbn [b_set b_words] in *. split; cbn [b_set b_words]; [by destruct Hwf; split|done| | |].
  - apply Forall2_app_inv in Hs as [Hs Ht]; [|apply Forall2_length in Hs; rewrite !length_app in Hs; cbn in Hs; lia].
    inversion Ht as [|? ? ? ? Hlast _]. apply Forall2_app.
    + eapply Forall2_impl; [exact Hs|]. intros x0 y0 Hxy. destruct Hxy. by split.
    + constructor; [|constructor]. eapply (set_holds_ext _ t); [done|done|]. by destruct Hlast; split.
  - rewrite length_app in *. cbn in *. lia.
  - by eapply in_memory_order_last.
Qed.

(** A node after its last set has changed. *)
Lemma bnode_changed n ts t Bs bs ws t' a' bs' nr : bnode_ok n (Bs ++ [bs]) -> b_set (n_b n) = ts ++ [t] ->
  let b := mk_btree (b_format (n_b n)) (b_nr_key_bits (n_b n)) ws (ts ++ [t']) in
  node_holds b (Bs ++ [bs']) -> set_aux b (n_byte_order n) t' a' bs' -> length (nr_bset_u64s nr) = MAX_BSETS ->
  bnode_ok (mk_bnode b (<[length ts := a']> (n_aux n)) nr (n_byte_order n)) (Bs ++ [bs']).
Proof.
  intros [Hn Ha Hnr] Eb b Hb Hlast Hnr'. rewrite Eb in Ha. destruct (Forall3_snoc_inv _ _ _ _ _ _ Ha) as (auxs & a & Ea & Ha' & _).
  split; cbn [n_b n_aux n_nr n_byte_order]; [done| |done]. rewrite Ea. subst b. cbn [b_set].
  pose proof (Forall3_length_lm _ _ _ _ Ha') as Hlen. rewrite Hlen, insert_app_r_alt by lia. rewrite Nat.sub_diag. cbn [list_insert insert].
  apply Forall3_app; [|constructor; [done|constructor]].
  pose proof (nh_sets _ _ Hn) as Hs0. pose proof (nh_sets _ _ Hb) as Hs. cbn [b_set] in Hs. rewrite Eb in Hs0.
  assert (length ts = length Bs) as HB by (by eapply Forall3_length_lr).
  apply Forall2_app_inv in Hs0 as [Hs0 _]; [|done]. apply Forall2_app_inv in Hs as [Hs _]; [|done].
  eapply other_sets_aux; [| | | |exact Hs0|exact Hs|exact Ha']; [apply Hn|apply Hn|apply Hb|done].
Qed.

(** Position, then whether it is live: where a key belongs. *)
Definition key_order (k : bkey) : Z := bpos_val (k_p k) * 2 + Z.b2z (negb (k_type k =? 0)).

Lemma block_of_val f x k val : format_wf f -> block_of f x k val -> block_val f x = key_order k.
Proof.
  intros Hf [_ Hh Ht _]. unfold block_val, key_order, block_pos, bkey_deleted. by rewrite (unpack_pos_spec f x k Hf Hh), Ht.
Qed.

Lemma block_of_pos f x k val : format_wf f -> block_of f x k val -> block_pos f x = k_p k.
Proof. intros Hf [_ Hh _ _]. unfold block_pos. by rewrite (unpack_pos_spec f x k Hf Hh). Qed.

Lemma account_length nr i m s nr' : btree_keys_account_key nr i m s = Some nr' -> length (nr_bset_u64s nr') = length (nr_bset_u64s nr).
Proof. unfold btree_keys_account_key. destruct (nr_bset_u64s nr !! i); [|done]. intros E. injection E as <-. cbn. apply length_insert. Qed.

Lemma account_some nr i m s : (i < length (nr_bset_u64s nr))%nat -> is_Some (btree_keys_account_key nr i m s).
Proof. intros Hi. unfold btree_keys_account_key. destruct (lookup_lt_is_Some_2 _ _ Hi) as [u ->]. by eexists. Qed.

Lemma account_same nr i m m' s : kp_u64s m = kp_u64s m' -> bkey_packed m = bkey_packed m' ->
  btree_keys_account_key nr i m s = btree_keys_account_key nr i m' s.
Proof. intros E1 E2. unfold btree_keys_account_key. by rewrite E1, E2. Qed.

(** The two parts of the key go into the room made for them. *)
Lemma write_parts (P G R x1 x2 : list Z) w u : length G = length (x1 ++ x2) -> w = Z.of_nat (length P) -> u = Z.of_nat (length x1) ->
  (ws ← write_words (P ++ G ++ R) w x1; write_words ws (w + u) x2) = Some (P ++ (x1 ++ x2) ++ R).
Proof.
  intros HG -> ->. destruct (split_at G (length x1)) as (G1 & G2 & -> & H1); [rewrite HG, length_app; lia|].
  rewrite !length_app in HG. rewrite <- app_assoc, (write_words_mid P G1 (G2 ++ R) x1) by (done || lia). bind_simpl.
  rewrite (app_assoc P x1), (write_words_mid (P ++ x1) G2 R x2) by (rewrite ?length_app; lia).
  by rewrite <- !app_assoc.
Qed.

(** A row in which a key has been replaced by one of the same size at the same position. *)
Lemma replaced_keys b b' k l l' : format_wf (b_format b) -> b_format b' = b_format b -> offs k l' = offs k l ->
  Forall2 (block_at b) (offs k l) l -> Forall2 (block_at b') (offs k l') l' ->
  Forall (block_ok (b_format b)) l -> Forall (block_ok (b_format b)) l' ->
  Forall2 (fun x y => block_pos (b_format b) x = block_pos (b_format b) y) l l' ->
  0 <= k -> k + Z.of_nat (length (concat l)) < 2 ^ 16 ->
  forall o, o ∈ offs k l -> key_pos b' o = key_pos b o.
Proof.
  intros Hf Ef Eo Hat Hat' Hok Hok' Hpos Hk Hr o Ho. pose proof (row_range _ l k o Hk Hr Hok Ho) as Hro.
  apply list_elem_of_lookup_1 in Ho as [i Hi]. rewrite Eo in Hat'.
  destruct (Forall2_lookup_l _ _ _ _ _ Hat Hi) as (x & Hx & Hxat). destruct (Forall2_lookup_l _ _ _ _ _ Hat' Hi) as (y & Hy & Hyat).
  destruct (block_at_key b Hf o x Hro) as (_ & _ & -> & _); [by apply (Forall_lookup_1 _ _ _ _ Hok Hx)|done|].
  destruct (block_at_key b' ltac:(by rewrite Ef) o y Hro) as (_ & _ & -> & _);
    [rewrite Ef; by apply (Forall_lookup_1 _ _ _ _ Hok' Hy)|done|]. rewrite Ef.
  symmetry. by apply (Forall2_lookup_lr _ _ _ _ _ _ Hpos Hx Hy).
Qed.

Lemma offs_replaced k (pre old new post : list (list Z)) : map length old = map length new ->
  offs k (pre ++ new ++ post) = offs k (pre ++ old ++ post).
Proof.
  intros E. rewrite !offs_app. assert (forall k, offs k new = offs k old /\ length (concat new) = length (concat old)) as H.
  { clear -E. revert new E. induction old as [|x old IH]; intros [|y new] E k; try done. cbn in E. injection E as Ex E. cbn [offs concat].
    rewrite !length_app, Ex. destruct (IH new E (k + Z.of_nat (length y))) as [-> ->]. done. }
  by destruct (H (k + Z.of_nat (length (concat pre)))) as [-> ->].
Qed.

Section InsertSpec.
Context (n : bnode) (ts : list bset_tree) (t : bset_tree) (Bs : list (list (list Z))) (pre old post : list (list Z)).
Notation b := (n_b n).
Notation f := (b_format (n_b n)).
Notation len x := (Z.of_nat (length (concat x))).
Notation W := (first_offset t + len pre).
Context (Hn : bnode_ok n (Bs ++ [pre ++ old ++ post])) (Eb : b_set b = ts ++ [t]) (Hwr : writeable t) (Hold : (length old <= 1)%nat).

Lemma last_index : bset_tree_last b = Some (length ts).
Proof.
  unfold bset_tree_last. rewrite Eb, length_app. cbn [length]. rewrite (proj2 (assert_true _)).
  - bind_simpl. f_equal. lia.
  - apply negb_true_iff, Nat.eqb_neq. lia.
Qed.

Lemma last_aux : exists auxs a, n_aux n = auxs ++ [a] /\ length auxs = length ts /\ set_aux b (n_byte_order n) t a (pre ++ old ++ post).
Proof.
  pose proof (bn_aux _ _ Hn) as Ha. rewrite Eb in Ha. destruct (Forall3_snoc_inv _ _ _ _ _ _ Ha) as (auxs & a & E & H3 & Hl).
  exists auxs, a. split; [done|]. split; [symmetry; by eapply Forall3_length_lm|done].
Qed.

Lemma nsets_bound : (length ts < 3)%nat.
Proof. pose proof (nh_nsets _ _ (bn_holds _ _ Hn)) as H. rewrite Eb, length_app in H. cbn in H. lia. Qed.

(** The end of every update: the table follows the new row of blocks. *)
Lemma table_follows new ws nr a auxs :
  let t' := with_end t (first_offset t + len (pre ++ new ++ post)) in
  let b' := mk_btree f (b_nr_key_bits b) ws (ts ++ [t']) in
  node_holds b' (Bs ++ [pre ++ new ++ post]) -> n_aux n = auxs ++ [a] -> length (nr_bset_u64s nr) = MAX_BSETS ->
  (len new = len old -> forall x y, x ∈ old -> y ∈ new -> block_pos f x = block_pos f y) -> (length new <= 1)%nat ->
  exists n', (('(a, t) ← (if negb (len new =? len old)
       then bch2_bset_fix_lookup_table b' (n_byte_order n) a t' W (len old) (len new) else Some (a, t'));
     Some (mk_bnode (with_set b' (length ts) t) (<[length ts := a]> (n_aux n)) nr (n_byte_order n))) : option bnode) = Some n' /\
    bnode_ok n' (Bs ++ [pre ++ new ++ post]) /\ b_format (n_b n') = f /\ n_nr n' = nr /\ n_byte_order n' = n_byte_order n /\
    b_nr_key_bits (n_b n') = b_nr_key_bits b /\ length (b_words (n_b n')) = length ws /\
    exists t'', b_set (n_b n') = ts ++ [t''] /\ data_offset t'' = data_offset t /\ writeable t''.
Proof.
  intros t' b' Hb' Ea Hnr Hsame Hnew. destruct last_aux as (auxs' & a' & Ea' & _ & Haux). rewrite Ea in Ea'.
  apply app_inj_tail in Ea' as [-> ->]. pose proof (bn_holds _ _ Hn) as Hb.
  destruct (last_holds b ts t Bs pre old post Hb Eb) as [Hset0 _].
  assert (set_holds b' t' (pre ++ new ++ post)) as Hset.
  { pose proof (nh_sets _ _ Hb') as Hs. cbn [b_set b'] in Hs. apply Forall2_app_inv_l in Hs as (B1 & B2 & _ & H2 & E).
    inversion H2 as [|? ? ? ? H [ ]]; subst. apply app_inj_tail in E as [_ ->]. done. }
  assert (exists a'' t'', (if negb (len new =? len old)
       then bch2_bset_fix_lookup_table b' (n_byte_order n) a' t' W (len old) (len new) else Some (a', t')) = Some (a'', t'') /\
     set_aux b' (n_byte_order n) t'' a'' (pre ++ new ++ post) /\ data_offset t'' = data_offset t /\ end_offset t'' = end_offset t' /\
     bset_aux_tree_type t'' = bset_aux_tree_type t) as (a'' & t'' & -> & Haux' & Hd & He & Hty).
  { destruct (Z.eqb_spec (len new) (len old)) as [E|E]; cbn [negb].
    2:{ apply (fix_last_table b b'); try done; [apply Hb|apply Hb|apply Hb'|apply Hb']. }
    exists a', t'. split; [done|]. split; [|done].
    pose proof (sh_blocks _ _ _ Hset0) as Hok0. pose proof (sh_blocks _ _ _ Hset) as Hok. cbn [b_format b'] in Hok.
    assert (map length old = map length new /\ Forall2 (fun x y => block_pos f x = block_pos f y) old new) as [Elen Hpos].
    { pose proof (blocks_len _ _ Hok0) as L0. pose proof (blocks_len _ _ Hok) as L1. rewrite !Forall_app in L0, L1.
      destruct L0 as (_ & L0 & _), L1 as (_ & L1 & _). specialize (Hsame E).
      destruct old as [|x [|]], new as [|y [|]]; cbn [length concat] in *; rewrite ?app_nil_r, ?Forall_singleton in *; try lia; [done|].
      split; [cbn; f_equal; lia|]. constructor; [|constructor]. apply Hsame; left. }
    assert (t' = t) as Et.
    { rewrite <- (with_end_same t). unfold t'. f_equal. rewrite (sh_end _ _ _ Hset0). unfold first_offset. rewrite !concat_app, !length_app. lia. }
    rewrite Et in Hset |- *. eapply set_aux_ext in Haux.
    - destruct Haux as [H1 H2]. split; rewrite (offs_replaced _ pre old new post Elen); done.
    - apply (replaced_keys b b' _ (pre ++ old ++ post) (pre ++ new ++ post)); try done.
      + apply Hb.
      + by apply offs_replaced.
      + apply set_holds_at; [apply Hb|done].
      + apply set_holds_at; [apply Hb'|done].
      + assert (forall l : list (list Z), Forall2 (fun x y => block_pos f x = block_pos f y) l l) as Hrefl
          by (intros l; induction l; by constructor).
        by repeat apply Forall2_app.
      + pose proof (sh_offset _ _ _ Hset0). unfold first_offset. lia.
      + pose proof (sh_range _ _ _ Hset0) as Hr. rewrite (sh_end _ _ _ Hset0) in Hr. done. }
  bind_simpl. eexists. split; [reflexivity|]. unfold with_set. cbn [b_set b']. rewrite insert_app_r_alt, Nat.sub_diag by lia. cbn [list_insert insert].
  split; [|cbn [n_b n_nr n_byte_order b_format b_nr_key_bits b_words b_set]; repeat (split; [done|]); exists t''; split; [done|]; split; [done|]; unfold writeable; by rewrite Hty].
  eapply bnode_changed; [exact Hn|exact Eb| | |done].
  - eapply node_holds_last; [| |exact Hb']; [by rewrite Hd|done].
  - eapply set_aux_ext; [|exact Haux']. done.
Qed.

(** What an update leaves as it was. *)
Definition same_node (n' : bnode) : Prop :=
  b_format (n_b n') = f /\ n_byte_order n' = n_byte_order n /\ b_nr_key_bits (n_b n') = b_nr_key_bits b /\
  length (b_words (n_b n')) = length (b_words b) /\
  exists t', b_set (n_b n') = ts ++ [t'] /\ data_offset t' = data_offset t /\ writeable t'.

Lemma bset_insert_spec k val : insertable k val ->
  (forall x, x ∈ pre -> block_val f x <= key_order k) -> (forall y, y ∈ post -> key_order k <= block_val f y) ->
  (forall x, x ∈ old -> block_pos f x = k_p k) ->
  W + k_u64s k + len post <= Z.of_nat (length (b_words b)) -> W + k_u64s k + len post < 2 ^ 16 ->
  exists n' x, bch2_bset_insert n W k val (len old) = Some n' /\ block_of f x k val /\
    bnode_ok n' (Bs ++ [pre ++ [x] ++ post]) /\ same_node n' /\
    Some (n_nr n') = (if negb (k_type k =? 0) then btree_keys_account_key (n_nr n) (length ts) x 1 else Some (n_nr n)).
Proof.
  intros Hins Hpre Hpost Hrep Hroom H16. pose proof (bn_holds _ _ Hn) as Hb. pose proof (nw_format _ (nh_wf _ _ Hb)) as Hf.
  destruct (insert_src_spec f k val Hf Hins) as (src & x & Esrc & Hx & Eu & Ex & Eku & Exu & Exp & Hxl).
  destruct (last_holds b ts t Bs pre old post Hb Eb) as [Hset0 _]. pose proof (sh_offset _ _ _ Hset0) as H0.
  pose proof (sh_end _ _ _ Hset0) as Hend. pose proof (sh_range _ _ _ Hset0) as Hr.
  destruct last_aux as (auxs & a & Ea & Hla & _). pose proof nsets_bound as Hts.
  unfold bch2_bset_insert. rewrite last_index. bind_simpl. rewrite Eb, last_lookup. bind_simpl. rewrite Esrc. bind_simpl.
  unfold btree_bkey_first, btree_bkey_first_offset. rewrite uadd_ok by lia. bind_simpl. unfold btree_bkey_last.
  rewrite (proj2 (assert_true _)).
  2:{ unfold first_offset. rewrite !concat_app, !length_app in Hend. apply andb_true_iff. split; apply Z.leb_le; lia. }
  bind_simpl.
  assert (exists nr, (if negb (k_type k =? 0) then btree_keys_account_key (n_nr n) (length ts) src 1 else Some (n_nr n)) = Some nr /\
    length (nr_bset_u64s nr) = MAX_BSETS) as (nr & Enr & Hnr).
  { pose proof (bn_nr _ _ Hn) as Hl. destruct (k_type k =? 0); cbn [negb]; [by exists (n_nr n)|].
    destruct (account_some (n_nr n) (length ts) src 1) as [nr Enr]; [rewrite Hl; unfold MAX_BSETS; lia|].
    exists nr. split; [done|]. by rewrite (account_length _ _ _ _ _ Enr). }
  rewrite Enr. bind_simpl. rewrite Eu.
  destruct (room_made b ts t Bs pre old post Hb Eb (length x)) as (A & G & R & -> & HA & HG & Hw & Hlw & Htake & w & Ew & Hhd); [lia|lia|].
  bind_simpl. unfold with_set, with_words. cbn [b_format b_words b_set b_nr_key_bits].
  set (x1 := take (Z.to_nat (bkeyp_key_u64s f src)) src) in *. set (x2 := take (Z.to_nat (bkeyp_val_u64s f src)) val) in *.
  pose proof (write_parts (A ++ concat pre) G (concat post ++ R) x1 x2 W (bkeyp_key_u64s f src)
    ltac:(rewrite <- Ex; done) ltac:(rewrite length_app; lia) Eku) as Ewr. rewrite <- Ex, <- !app_assoc in Ewr.
  destruct (write_words (A ++ concat pre ++ G ++ concat post ++ R) W x1) as [ws1|] eqn:Ew1; [|done]. cbn [mbind option_bind] in Ewr |- *.
  rewrite Ewr. bind_simpl. rewrite Eb, insert_app_r_alt, Nat.sub_diag by lia. cbn [list_insert insert]. rewrite last_lookup. bind_simpl.
  assert (n_aux n !! length ts = Some a) as -> by (rewrite Ea; by apply list_lookup_middle). bind_simpl.
  assert (len [x] = Z.of_nat (length x)) as El1 by (cbn [concat]; by rewrite app_nil_r).
  assert (W + Z.of_nat (length x) + len post = first_offset t + len (pre ++ [x] ++ post)) as Ee
    by (rewrite !concat_app, !length_app, <- El1; lia). rewrite Ee, <- El1.
  set (ws := A ++ concat pre ++ x ++ concat post ++ R).
  assert (ws = A ++ concat (pre ++ [x] ++ post) ++ R) as Ews.
  { unfold ws. rewrite !concat_app. cbn [concat]. by rewrite app_nil_r, <- !app_assoc. }
  destruct (table_follows [x] ws nr a auxs) as (n' & En' & Hn' & Ef' & Enr' & Ebo & Ekb & Elw & Hset'); try done.
  - rewrite Ews. apply (row_changed b ts t Bs pre old post Hb Eb [x] A R); rewrite ?El1; try done; try lia.
    + rewrite <- Ews. unfold ws. unfold words_wf in *. rewrite !Forall_app in *. pose proof (bo_wf _ _ (bk_ok _ _ _ _ Hx)). unfold words_wf in *. tauto.
    + exists w. split; [done|]. rewrite Hhd, !concat_app, !length_app. cbn [concat length]. rewrite app_nil_r. lia.
    + constructor; [apply Hx|constructor].
    + intros y z Hy ->%list_elem_of_singleton. unfold block_le. rewrite (block_of_val f x k val Hf Hx). by apply Hpre.
    + intros z y ->%list_elem_of_singleton Hy. unfold block_le. rewrite (block_of_val f x k val Hf Hx). by apply Hpost.
    + repeat constructor.
  - intros _ y z Hy ->%list_elem_of_singleton. rewrite (block_of_pos f x k val Hf Hx). by apply Hrep.
  - exists n', x. split; [exact En'|]. split; [done|]. split; [done|]. split.
    + split; [done|]. split; [done|]. split; [done|]. split; [|done]. rewrite Elw, <- Hlw.
      unfold ws. rewrite !length_app, HG. done.
    + rewrite Enr', <- Enr. destruct (negb _); [|done]. apply account_same; congruence.
Qed.

Lemma bset_delete_spec : (length old = 1)%nat ->
  exists n', bch2_bset_delete n W (len old) = Some n' /\ bnode_ok n' (Bs ++ [pre ++ post]) /\ same_node n' /\ n_nr n' = n_nr n.
Proof.
  intros H1. pose proof (bn_holds _ _ Hn) as Hb.
  destruct (last_holds b ts t Bs pre old post Hb Eb) as [Hset0 _]. pose proof (sh_offset _ _ _ Hset0) as H0.
  pose proof (sh_end _ _ _ Hset0) as Hend. pose proof (sh_range _ _ _ Hset0) as Hr. pose proof (sh_mem _ _ _ Hset0) as (A0 & R0 & Ew0 & HA0).
  destruct last_aux as (auxs & a & Ea & Hla & _). rewrite !concat_app, !length_app in Hend.
  assert (0 < len old) as Hpos.
  { pose proof (blocks_len _ _ (sh_blocks _ _ _ Hset0)) as Hl. rewrite !Forall_app in Hl. destruct Hl as (_ & Hl & _).
    destruct old as [|x []]; try done. apply Forall_cons_1 in Hl as [Hl _]. cbn [concat]. rewrite app_nil_r. lia. }
  unfold bch2_bset_delete. rewrite last_index. bind_simpl.
  destruct (room_made b ts t Bs pre old post Hb Eb 0) as (A & G & R & E & HA & HG & Hw & Hlw & Htake & w & Ew & Hhd).
  { rewrite Ew0, !length_app, !concat_app, !length_app. unfold first_offset. lia. } { unfold first_offset. lia. }
  destruct (Z.eqb_spec (Z.of_nat 0) (len old)) as [Ez|_]; [lia|]. cbn [negb] in E. change (Z.of_nat 0) with 0 in E. rewrite E. bind_simpl.
  destruct G; [|done]. cbn [app] in *. unfold with_set, with_words. cbn [b_format b_words b_set b_nr_key_bits].
  rewrite Eb, insert_app_r_alt, Nat.sub_diag by lia. cbn [list_insert insert]. rewrite last_lookup. bind_simpl.
  assert (n_aux n !! length ts = Some a) as -> by (rewrite Ea; by apply list_lookup_middle). bind_simpl.
  assert (W + 0 + len post = first_offset t + len (pre ++ [] ++ post)) as Ee by (rewrite !concat_app, !length_app; cbn; lia).
  rewrite Ee. set (ws := A ++ concat pre ++ concat post ++ R).
  assert (ws = A ++ concat (pre ++ [] ++ post) ++ R) as Ews by (unfold ws; rewrite !concat_app; cbn [concat app]; by rewrite <- !app_assoc).
  destruct (table_follows [] ws (n_nr n) a auxs) as (n' & En' & Hn' & Ef' & Enr' & Ebo & Ekb & Elw & Hset'); try done; try (cbn; lia).
  - rewrite Ews. apply (row_changed b ts t Bs pre old post Hb Eb [] A R); try done; try (cbn; lia).
    + cbn [concat length]. unfold first_offset. lia.
    + by rewrite <- Ews.
    + exists w. split; [done|]. rewrite Hhd, !concat_app, !length_app. cbn [concat length]. lia.
    + intros x y _ Hy. by apply elem_of_nil in Hy.
    + intros x y Hx. by apply elem_of_nil in Hx.
    + constructor.
  - by apply (bn_nr _ _ Hn).
  - exists n'. change (len []) with 0 in En'. rewrite (proj2 (Z.eqb_neq 0 (len old))) in En' by lia. split; [exact En'|].
    split; [done|]. split; [|done]. split; [done|]. split; [done|]. split; [done|]. split; [|done]. by rewrite Elw, <- Hlw.
Qed.
End InsertSpec.

(** ** Counting the live keys *)

Definition live_blocks (bs : list (list Z)) : list (list Z) := List.filter (fun x => negb (bkey_deleted x)) bs.
Definition sum_len (bs : list (list Z)) : Z := Z.of_nat (length (concat (live_blocks bs))).
Definition count_packed (p : bool) (bs : list (list Z)) : Z :=
  Z.of_nat (length (List.filter (fun x => Bool.eqb (bkey_packed x) p) (live_blocks bs))).

(** The counters that belong to rows of blocks. *)
Definition nr_of (Bs : list (list (list Z))) : btree_nr_keys :=
  mk_nr_keys (sum_len (concat Bs) mod 2 ^ 16)
    (map (fun bs => sum_len bs mod 2 ^ 16) Bs ++ replicate (MAX_BSETS - length Bs) 0)
    (count_packed true (concat Bs) mod 2 ^ 16) (count_packed false (concat Bs) mod 2 ^ 16).

Lemma live_blocks_app l l' : live_blocks (l ++ l') = live_blocks l ++ live_blocks l'.
Proof. apply List.filter_app. Qed.

Lemma sum_len_app l l' : sum_len (l ++ l') = sum_len l + sum_len l'.
Proof. unfold sum_len. rewrite live_blocks_app, concat_app, length_app. lia. Qed.

Lemma count_packed_app p l l' : count_packed p (l ++ l') = count_packed p l + count_packed p l'.
Proof. unfold count_packed. rewrite live_blocks_app, List.filter_app, length_app. lia. Qed.

Lemma live_blocks_perm l l' : l ≡ₚ l' -> live_blocks l ≡ₚ live_blocks l'.
Proof. intros HP. unfold live_blocks. induction HP; cbn; try done; repeat destruct (negb _); try (by constructor); [done|..]; by etransitivity. Qed.

(** The counts depend on which blocks are live only. *)
Lemma live_counts l l' : live_blocks l ≡ₚ live_blocks l' -> sum_len l = sum_len l' /\ forall p, count_packed p l = count_packed p l'.
Proof.
  intros HL. split; [unfold sum_len; by rewrite HL|]. intros p. unfold count_packed. f_equal.
  induction HL; cbn; repeat destruct (Bool.eqb _ _); cbn; congruence.
Qed.

(** One more live block of the last row. *)
Lemma nr_of_account f Bs bs bs' x s : (length Bs < 3)%nat -> block_ok f x -> bkey_deleted x = false ->
  (s = 1 /\ bs' ≡ₚ x :: bs) \/ (s = -1 /\ bs ≡ₚ x :: bs') ->
  btree_keys_account_key (nr_of (Bs ++ [bs])) (length Bs) x s = Some (nr_of (Bs ++ [bs'])).
Proof.
  intros HB Hx Hd Hs.
  assert (forall l l', l ≡ₚ l' -> sum_len l = sum_len l' /\ forall p, count_packed p l = count_packed p l') as Hperm
    by (intros l l' HP; by apply live_counts, live_blocks_perm).
  assert (sum_len [x] = kp_u64s x) as E1.
  { unfold sum_len, live_blocks. cbn. rewrite Hd. cbn. rewrite app_nil_r. symmetry. apply (bo_u64s _ _ Hx). }
  assert (forall p, count_packed p [x] = Z.b2z (Bool.eqb (bkey_packed x) p)) as E2.
  { intros p. unfold count_packed, live_blocks. cbn. rewrite Hd. cbn. by destruct (Bool.eqb _ _). }
  assert (sum_len bs' = sum_len bs + s * kp_u64s x /\ forall p, count_packed p bs' = count_packed p bs + s * Z.b2z (Bool.eqb (bkey_packed x) p))
    as [F1 F2].
  { destruct Hs as [[-> HP]|[-> HP]]; destruct (Hperm _ _ HP) as [G1 G2]; change (x :: ?l) with ([x] ++ l) in G1;
      rewrite sum_len_app, E1 in G1; (split; [lia|]); intros p; specialize (G2 p); change (x :: ?l) with ([x] ++ l) in G2;
      rewrite count_packed_app, E2 in G2; lia. }
  unfold btree_keys_account_key, nr_of. cbn [nr_bset_u64s live_u64s packed_keys unpacked_keys].
  rewrite !map_app, !length_app. cbn [map length]. rewrite <- !app_assoc. cbn [app].
  rewrite <- (length_map (fun bs => sum_len bs mod 2 ^ 16) Bs). rewrite list_lookup_middle by done. bind_simpl.
  rewrite insert_app_r_alt, Nat.sub_diag by lia. cbn [list_insert insert].
  rewrite !concat_app. cbn [concat]. rewrite !app_nil_r, !sum_len_app, !count_packed_app, F1, !F2, !Zplus_mod_idemp_l.
  do 2 f_equal.
  - f_equal. lia.
  - do 3 f_equal. lia.
  - destruct (bkey_packed x); cbn [Bool.eqb Z.b2z]; f_equal; lia.
  - destruct (bkey_packed x); cbn [Bool.eqb Z.b2z]; f_equal; lia.
Qed.

Lemma nr_of_deleted Bs bs x : bkey_deleted x = true -> nr_of (Bs ++ [bs ++ [x]]) = nr_of (Bs ++ [bs]).
Proof.
  intros Hd. assert (live_blocks (bs ++ [x]) = live_blocks bs) as E.
  { rewrite live_blocks_app. unfold live_blocks at 2. cbn. rewrite Hd. cbn. by rewrite app_nil_r. }
  unfold nr_of. rewrite !concat_app, !map_app. cbn [concat map]. rewrite !app_nil_r, !sum_len_app, !count_packed_app.
  rewrite !length_app. cbn [length]. assert (sum_len (bs ++ [x]) = sum_len bs) as Es by (unfold sum_len; by rewrite E).
  rewrite sum_len_app in Es. rewrite (proj2 (Z.add_cancel_l (sum_len [x]) 0 (sum_len bs))) by lia.
  assert (forall p, count_packed p [x] = 0) as Ec by (intros p; unfold count_packed, live_blocks; cbn; by rewrite Hd).
  rewrite !Ec, !Z.add_0_r. done.
Qed.

Lemma nr_of_nil Bs : (length Bs < 3)%nat -> nr_of (Bs ++ [[]]) = nr_of Bs.
Proof.
  intros H. unfold nr_of. rewrite concat_app, map_app, length_app. cbn [concat map length]. rewrite app_nil_r, <- app_assoc. do 2 f_equal.
  change (sum_len [] mod 2 ^ 16) with 0. unfold MAX_BSETS. replace (3 - length Bs)%nat with (S (3 - (length Bs + 1))) by lia. done.
Qed.

Section Count.
Context (b : btree) (Hf : format_wf (b_format b)).

Lemma count_set_loop_spec Bs bs : (length Bs < 3)%nat -> forall fuel k done_ e, Forall2 (block_at b) (offs k bs) bs ->
  Forall (block_ok (b_format b)) bs -> 0 <= k -> e = k + Z.of_nat (length (concat bs)) -> e < 2 ^ 16 -> (length bs <= fuel)%nat ->
  count_set_loop fuel b (length Bs) e k (nr_of (Bs ++ [done_])) = Some (nr_of (Bs ++ [done_ ++ bs])).
Proof.
  intros HB. induction bs as [|x bs IH]; intros fuel k done_ e Hat Hok H0 -> H16 Hfuel; cbn [offs concat] in *.
  - rewrite app_nil_r. destruct fuel; cbn [count_set_loop length]; by rewrite Z.add_0_r, Z.eqb_refl.
  - inversion Hat as [|? ? ? ? Hx Hat']; subst. apply Forall_cons_1 in Hok as [Hxok Hok]. pose proof (block_len _ _ Hxok) as Hlen.
    rewrite length_app in *. destruct fuel as [|fuel]; [cbn in Hfuel; lia|]. cbn [count_set_loop].
    rewrite (proj2 (Z.eqb_neq _ _)) by lia.
    destruct (block_at_key b Hf k x ltac:(unfold in_range; lia) Hxok Hx) as (_ & Hu & _ & Hd & Hku & Hkp). rewrite Hd.
    replace (done_ ++ x :: bs) with ((done_ ++ [x]) ++ bs) by (by rewrite <- app_assoc).
    unfold bkey_p_next. rewrite Hu.
    assert ((if negb (bkey_deleted x) then btree_keys_account_key (nr_of (Bs ++ [done_])) (length Bs) (key_mem b k) 1
             else Some (nr_of (Bs ++ [done_]))) = Some (nr_of (Bs ++ [done_ ++ [x]]))) as ->.
    { destruct (bkey_deleted x) eqn:Ed; cbn [negb]; [by rewrite nr_of_deleted|].
      rewrite (account_same _ _ _ x) by (rewrite ?Hku, ?Hkp; try done; symmetry; apply (bo_u64s _ _ Hxok)).
      apply (nr_of_account (b_format b)); try done. left. split; [done|]. rewrite (Permutation_app_comm done_ [x]). done. }
    bind_simpl. apply IH; try done; try lia. cbn in Hfuel. lia.
Qed.

Lemma count_sets_spec ts : forall Bs Bs0, Forall2 (set_holds b) ts Bs -> words_wf (b_words b) -> (length Bs0 + length ts <= 3)%nat ->
  count_sets b (length Bs0) ts (nr_of Bs0) = Some (nr_of (Bs0 ++ Bs)).
Proof.
  induction ts as [|t ts IH]; intros Bs Bs0 Hs Hw Hl; inversion Hs as [|? bs ? Bs' Ht Hs']; subst; cbn [count_sets]; [by rewrite app_nil_r|].
  cbn [length] in Hl. unfold btree_bkey_first, btree_bkey_first_offset.
  pose proof (sh_offset _ _ _ Ht). pose proof (sh_end _ _ _ Ht) as He. pose proof (sh_range _ _ _ Ht) as Hr.
  rewrite uadd_ok by lia. bind_simpl. rewrite <- nr_of_nil by lia. unfold btree_bkey_last.
  pose proof (set_holds_at _ _ _ Hw Ht) as Hat. unfold first_offset in Hat.
  rewrite (count_set_loop_spec Bs0 bs ltac:(lia) _ _ [] (end_offset t) Hat (sh_blocks _ _ _ Ht)); try lia.
  - bind_simpl. cbn [app]. replace (S (length Bs0)) with (length (Bs0 ++ [bs])) by (rewrite length_app; cbn; lia).
    rewrite IH with (Bs := Bs'); [by rewrite <- app_assoc|done|done|rewrite length_app; cbn; lia].
  - pose proof (chain_length _ _ _ _ _ (blocks_chain b Hf bs (data_offset t + 3) Hat (sh_blocks _ _ _ Ht) ltac:(lia) ltac:(lia)) ltac:(lia)) as Hlen.
    by rewrite length_offs in Hlen.
Qed.
End Count.

Lemma count_keys_spec b Bs : node_holds b Bs -> bch2_btree_node_count_keys b = Some (nr_of Bs).
Proof.
  intros [Hwf Hw Hs Hl _]. unfold bch2_btree_node_count_keys.
  change nr_keys_default with (nr_of []). apply (count_sets_spec b (nw_format _ Hwf) (b_set b) Bs [] Hs Hw). cbn. lia.
Qed.

(** ** Properties *)

(** What an update promises of the node it returns: the rows of blocks, the
    auxiliary data and the counters. *)
Definition updated (n n' : bnode) (Bs : list (list (list Z))) : Prop :=
  bnode_ok n' Bs /\ n_nr n' = nr_of Bs /\ bch2_btree_node_count_keys (n_b n') = Some (n_nr n') /\
  b_format (n_b n') = b_format (n_b n).

(** Where an update of the last set happens: [pre] are the blocks of the set
    before it, [old] the one that is replaced, if any. *)
Record update_at (n : bnode) (t : bset_tree) (Bs : list (list (list Z))) (pre old post : list (list Z)) : Prop := {
  ua_node : bnode_ok n (Bs ++ [pre ++ old ++ post]);
  ua_last : last (b_set (n_b n)) = Some t;
  ua_writeable : writeable t;
  ua_old : (length old <= 1)%nat;
  ua_nr : n_nr n = nr_of (Bs ++ [pre ++ post])
}.

(** Where a live key belongs between the keys of the last set, and the room
    that it needs. *)
Record insert_at (n : bnode) (t : bset_tree) (pre old post : list (list Z)) (k : bkey) (val : list Z) : Prop := {
  ia_key : insertable k val;
  ia_live : k_type k <> 0;
  ia_pre x : x ∈ pre -> block_val (b_format (n_b n)) x <= key_order k;
  ia_post y : y ∈ post -> key_order k <= block_val (b_format (n_b n)) y;
  ia_old x : x ∈ old -> block_pos (b_format (n_b n)) x = k_p k;
  ia_room : first_offset t + Z.of_nat (length (concat pre)) + k_u64s k + Z.of_nat (length (concat post))
    <= Z.of_nat (length (b_words (n_b n)));
  ia_width : first_offset t + Z.of_nat (length (concat pre)) + k_u64s k + Z.of_nat (length (concat post)) < 2 ^ 16
}.

Lemma last_split {A} (l : list A) x : last l = Some x -> exists l', l = l' ++ [x].
Proof. intros H. apply last_Some in H as [l' ->]. by exists l'. Qed.

Lemma insert_updates n t Bs pre old post k val : update_at n t Bs pre old post -> insert_at n t pre old post k val ->
  exists n' x t', bch2_bset_insert n (first_offset t + Z.of_nat (length (concat pre))) k val (Z.of_nat (length (concat old))) = Some n' /\
    block_of (b_format (n_b n)) x k val /\ updated n n' (Bs ++ [pre ++ [x] ++ post]) /\
    last (b_set (n_b n')) = Some t' /\ data_offset t' = data_offset t /\ length (b_words (n_b n')) = length (b_words (n_b n)).
Proof.
  intros [Hn Hlast Hwr Hold Hnr] [Hk Hlive Hpre Hpost Hrep Hroom H16]. destruct (last_split _ _ Hlast) as [ts Eb].
  destruct (bset_insert_spec n ts t Bs pre old post Hn Eb Hwr Hold k val Hk Hpre Hpost Hrep Hroom H16)
    as (n' & x & E & Hx & Hn' & (Ef & _ & _ & Elw & t' & Et' & Hd & _) & Enr).
  exists n', x, t'. split; [done|]. split; [done|]. split; [|split; [rewrite Et'; apply last_snoc|done]].
  assert (n_nr n' = nr_of (Bs ++ [pre ++ [x] ++ post])) as Enr'.
  { rewrite (proj2 (Z.eqb_neq _ _) Hlive) in Enr. cbn [negb] in Enr. rewrite Hnr in Enr.
    pose proof (nsets_bound n ts t Bs pre old post Hn Eb Hold) as Hb.
    assert (length ts = length Bs) as El.
    { pose proof (nh_sets _ _ (bn_holds _ _ Hn)) as Hs. apply Forall2_length in Hs. rewrite Eb, !length_app in Hs. cbn in Hs. lia. }
    rewrite El in Enr, Hb. rewrite (nr_of_account (b_format (n_b n)) Bs (pre ++ post) (pre ++ [x] ++ post) x 1 Hb) in Enr; [by injection Enr|apply Hx| |].
    - unfold bkey_deleted. rewrite (bk_type _ _ _ _ Hx). by apply Z.eqb_neq.
    - left. split; [done|]. cbn [app]. by rewrite Permutation_middle. }
  split; [done|]. split; [done|]. split; [|done]. rewrite Enr'. by apply count_keys_spec, Hn'.
Qed.

(** C25: Inserting a live key into the last set of a node where it belongs
    replaces the old key there, if any, by a block that stores the key and
    its value, packed if it can be; all other keys of the node are kept, the
    table of keys stays right, and the counters count the live keys. *)
Theorem bset_insert_refines (n : bnode) (t : bset_tree) (Bs : list (list (list Z))) (pre old post : list (list Z))
    (k : bkey) (val : list Z) (Hat : update_at n t Bs pre old post) (Hins : insert_at n t pre old post k val) :
  exists n' x, bch2_bset_insert n (first_offset t + Z.of_nat (length (concat pre))) k val
      (Z.of_nat (length (concat old))) = Some n' /\
    block_of (b_format (n_b n)) x k val /\ updated n n' (Bs ++ [pre ++ [x] ++ post]).
Proof. destruct (insert_updates n t Bs pre old post k val Hat Hins) as (n' & x & t' & E & Hx & Hu & _). by exists n', x. Qed.

(** C26: Deleting a key from the last set of a node removes its block and
    keeps all other keys, the table of keys and the counters right. *)
Theorem bset_delete_refines (n : bnode) (t : bset_tree) (Bs : list (list (list Z))) (pre post : list (list Z)) (x : list Z)
    (Hat : update_at n t Bs pre [x] post) :
  exists n', bch2_bset_delete n (first_offset t + Z.of_nat (length (concat pre))) (Z.of_nat (length x)) = Some n' /\
    updated n n' (Bs ++ [pre ++ post]).
Proof.
  destruct Hat as [Hn Hlast Hwr Hold Hnr]. destruct (last_split _ _ Hlast) as [ts Eb].
  destruct (bset_delete_spec n ts t Bs pre [x] post Hn Eb Hwr Hold eq_refl) as (n' & E & Hn' & (Ef & _) & Enr).
  cbn [concat] in E. rewrite app_nil_r in E. exists n'. split; [done|]. split; [done|]. rewrite Enr, Hnr.
  split; [done|]. split; [|done]. by apply count_keys_spec, Hn'.
Qed.

Lemma bnode_set_ok n Bs : bnode_ok n Bs ->
  Forall2 (set_ok (n_b n)) (zip (b_set (n_b n)) (n_aux n)) (set_offs (b_set (n_b n)) Bs) /\
  length (n_aux n) = length (b_set (n_b n)).
Proof.
  intros [Hb Ha _]. split; [|symmetry; by eapply Forall3_length_lm]. pose proof (nh_sets _ _ Hb) as Hs.
  unfold set_offs. pose proof (nh_wf _ _ Hb) as Hwf. pose proof (nh_words _ _ Hb) as Hw. clear Hb.
  induction Ha as [|t a bs ts auxs Bs Ha _ IH]; [constructor|]. inversion Hs as [|? ? ? ? Ht Hs']; subst. cbn [zip_with].
  constructor; [|by apply IH]. split; [by apply set_holds_range|apply Ha].
Qed.

(** Offsets and blocks of a node correspond. *)
Lemma offset_block b Bs o : node_holds b Bs -> o ∈ concat (set_offs (b_set b) Bs) ->
  exists x, x ∈ concat Bs /\ in_range 16 o /\ block_ok (b_format b) x /\ block_at b o x.
Proof.
  intros [_ Hw Hs _ _] Ho. unfold set_offs in Ho. induction Hs as [|t bs ts Bs Ht Hs IH]; cbn [zip_with concat] in *; [by apply elem_of_nil in Ho|].
  apply elem_of_app in Ho as [Ho|Ho].
  - pose proof (sh_offset _ _ _ Ht). pose proof (sh_range _ _ _ Ht) as Hr. rewrite (sh_end _ _ _ Ht) in Hr.
    pose proof (row_range _ bs (first_offset t) o ltac:(unfold first_offset; lia) Hr (sh_blocks _ _ _ Ht) Ho) as Hro.
    apply list_elem_of_lookup_1 in Ho as [i Hi]. destruct (Forall2_lookup_l _ _ _ _ _ (set_holds_at _ _ _ Hw Ht) Hi) as (x & Hx & Hxat).
    exists x. split; [apply elem_of_app; left; by eapply list_elem_of_lookup_2|]. split; [done|]. split; [|done].
    by apply (Forall_lookup_1 _ _ _ _ (sh_blocks _ _ _ Ht) Hx).
  - destruct (IH Ho) as (x & Hx & H). exists x. split; [apply elem_of_app; by right|done].
Qed.

Lemma block_offset b Bs x : node_holds b Bs -> x ∈ concat Bs -> exists o, o ∈ concat (set_offs (b_set b) Bs) /\ block_at b o x.
Proof.
  intros [_ Hw Hs _ _] Hx. unfold set_offs. induction Hs as [|t bs ts Bs Ht Hs IH]; cbn [zip_with concat] in *; [by apply elem_of_nil in Hx|].
  apply elem_of_app in Hx as [Hx|Hx].
  - apply list_elem_of_lookup_1 in Hx as [i Hi]. destruct (Forall2_lookup_r _ _ _ _ _ (set_holds_at _ _ _ Hw Ht) Hi) as (o & Ho & Hat).
    exists o. split; [apply elem_of_app; left; by eapply list_elem_of_lookup_2|done].
  - destruct (IH Hx) as (o & Ho & H). exists o. split; [apply elem_of_app; by right|done].
Qed.

(** A key that has been inserted is found: if no other key of the node is
    live at its position, an iterator started there peeks at the block that
    stores the key and its value. *)
Theorem bset_insert_lookup (n : bnode) (t : bset_tree) (Bs : list (list (list Z))) (pre old post : list (list Z))
    (k : bkey) (val : list Z) (min_key max_key : bpos)
    (Hat : update_at n t Bs pre old post) (Hins : insert_at n t pre old post k val)
    (Hmin : bpos_wf min_key) (Hmax : bpos_wf max_key) (Hin : bpos_val min_key <= bpos_val (k_p k) <= bpos_val max_key)
    (Hnone : Forall (fun x => bkey_deleted x = true \/ block_pos (b_format (n_b n)) x <> k_p k) (concat (Bs ++ [pre ++ post]))) :
  exists n' iter iter' r x R,
    bch2_bset_insert n (first_offset t + Z.of_nat (length (concat pre))) k val (Z.of_nat (length (concat old))) = Some n' /\
    bch2_btree_node_iter_init (n_b n') (n_aux n') min_key max_key (k_p k) = Some iter /\
    bch2_btree_node_iter_peek iter (n_b n') = Some (Some r, iter') /\
    key_mem (n_b n') r = x ++ R /\ block_of (b_format (n_b n)) x k val.
Proof.
  destruct (insert_updates n t Bs pre old post k val Hat Hins) as (n' & x & t' & E & Hx & (Hn' & _ & _ & Ef) & Hlast & Hd & _).
  pose proof (bn_holds _ _ Hn') as Hb'. pose proof (nh_wf _ _ Hb') as Hwf'. destruct (last_split _ _ Hlast) as [ts Eb'].
  destruct (bnode_set_ok n' _ Hn') as [Hsets Hla]. assert (bpos_wf (k_p k)) as Wk by apply (in_key _ _ (ia_key _ _ _ _ _ _ _ Hins)).
  set (b' := n_b n') in *. set (Bs' := Bs ++ [pre ++ [x] ++ post]) in *. pose proof (nw_format _ Hwf') as Hf'.
  assert (block_pos (b_format b') x = k_p k) as Hxp by (rewrite Ef; apply (block_of_pos _ x k val); [by rewrite <- Ef|done]).
  assert (bkey_deleted x = false) as Hxl.
  { unfold bkey_deleted. rewrite (bk_type _ _ _ _ Hx). apply Z.eqb_neq, (ia_live _ _ _ _ _ _ _ Hins). }
  destruct (set_ok_finds b' (n_aux n') (set_offs (b_set b') Bs') min_key max_key (k_p k)) as (iter & r & iter' & Ei & Ep & Hr); try done.
  { apply Hb'. }
  destruct (block_offset b' Bs' x Hb') as (o & Ho & Hat').
  { unfold Bs'. rewrite concat_app. cbn [concat]. rewrite !elem_of_app. right. left. right. left. by apply list_elem_of_singleton. }
  destruct (offset_block b' Bs' o Hb' Ho) as (x0 & _ & Hro & Hx0ok & Hx0).
  destruct (block_at_key b' Hf' o x Hro) as (_ & _ & Hop & Hod & _); [by rewrite Ef; apply Hx|done|].
  destruct r as [r|]; [|specialize (Hr o Ho); rewrite Hod, Hop, Hxp in Hr; specialize (Hr Hxl); lia].
  destruct Hr as (Hrin & Hrl & Hrp & Hrmin). destruct (offset_block b' Bs' r Hb' Hrin) as (y & Hy & Hrr & Hyok & Hyat).
  destruct (block_at_key b' Hf' r y Hrr Hyok Hyat) as (Hrk & _ & Hyp & Hyd & _).
  specialize (Hrmin o Ho). rewrite Hod, Hop, Hxp in Hrmin. specialize (Hrmin Hxl ltac:(lia)).
  assert (block_pos (b_format b') y = k_p k) as Hyk.
  { apply bpos_val_inj; [rewrite <- Hyp; by apply key_pos_wf|done|]. rewrite Hyp in *.
    unfold key_val in Hrmin. rewrite Hyp, Hop, Hxp in Hrmin. unfold in_range in *.
    destruct (bkey_deleted (key_mem b' r)), (bkey_deleted (key_mem b' o)); cbn [negb Z.b2z] in Hrmin; lia. }
  assert (y = x) as ->.
  { rewrite Forall_forall in Hnone. rewrite Hyd in Hrl. unfold Bs' in Hy. rewrite concat_app in Hy, Hnone. cbn [concat] in Hy, Hnone.
    rewrite app_nil_r in Hy, Hnone. rewrite !elem_of_app, list_elem_of_singleton in Hy. destruct (decide (y = x)) as [|Hne]; [done|].
    destruct (Hnone y) as [Hd'|Hp']; [rewrite !elem_of_app; tauto|congruence|]. by rewrite <- Ef in Hp'. }
  destruct Hyat as (R & _ & HR). exists n', iter, iter', r, x, R. by split_and!.
Qed.

(** A node with one set that is being written, which holds one or two keys. *)
Definition sample_rows (os : list Z) : list (list Z) := map (sample_key 1) os.
Definition sample_bnode (os : list Z) : bnode :=
  let u := Z.of_nat (length (concat (sample_rows os))) in
  mk_bnode (mk_btree BKEY_FORMAT_CURRENT 160 ([0; 0; u * 2 ^ 48] ++ concat (sample_rows os) ++ replicate 20 0)
              [mk_bset_tree 1 BSET_RW_AUX_TREE_VAL 0 0 (3 + u)])
    [mk_aux [mk_rw_aux_tree 3 POS_MIN] [] 0] (nr_of [sample_rows os]) 12.

Lemma sample_block_ok o : in_range 64 o -> block_ok BKEY_FORMAT_CURRENT (sample_key 1 o).
Proof.
  intros Ho. split; [|done|by vm_compute|].
  { unfold words_wf, sample_key, in_range in *. repeat (apply Forall_cons; split; [lia|]). by apply Forall_nil. }
  exists (mk_bkey 5 1 1 ZERO_VERSION 0 (SPOS 1 o 0)). split; [|by right].
  unfold bkey_wf, bversion_wf, bpos_wf, in_range in *. cbn. lia.
Qed.

Lemma sample_bnode_ok os : Forall (in_range 64) os -> (length os <= 2)%nat ->
  StronglySorted (block_le BKEY_FORMAT_CURRENT) (sample_rows os) -> bnode_ok (sample_bnode os) [sample_rows os].
Proof.
  intros Hos Hl Hs. assert (Forall (block_ok BKEY_FORMAT_CURRENT) (sample_rows os)) as Hok.
  { unfold sample_rows. rewrite Forall_map. eapply Forall_impl; [exact Hos|]. intros o Ho. by apply sample_block_ok. }
  assert (length (concat (sample_rows os)) = 5 * length os)%nat as Hlen.
  { clear. unfold sample_rows. induction os as [|o os IH]; [done|]. cbn [map concat]. rewrite length_app, IH. cbn [length sample_key]. lia. }
  assert (words_wf (concat (sample_rows os))) as Hw by (clear -Hok; induction Hok; [constructor|]; cbn; apply Forall_app; split; [apply H|done]).
  split; [split|..]; cbn [n_b b_words b_set n_aux n_byte_order n_nr sample_bnode b_format].
  - split; [apply current_format_wf|reflexivity].
  - unfold words_wf in *. rewrite !Forall_app. split; [|split; [done|by apply Forall_replicate]].
    repeat (apply List.Forall_cons; [unfold in_range; lia|]). constructor.
  - constructor; [|constructor]. split; cbn [data_offset end_offset b_format b_words]; try done; try lia.
    + unfold bset_header_u64s. cbn [b_words data_offset]. change (Z.to_nat (0 + 2)) with 2%nat. cbn [app lookup list_lookup].
      bind_simpl. f_equal. by apply Z.div_mul.
    + eexists [0; 0; _], (replicate 20 0). split; [reflexivity|done].
  - cbn. lia.
  - repeat constructor.
  - constructor; [|constructor]. split.
    + right. split; [done|]. split; [done|intros e E; by injection E as <-|intros j e E; by destruct j].
    + intros _. split; [split; [done|done|by repeat constructor]|]. split; [split; repeat split; by vm_compute|by vm_compute].
  - done.
Qed.

Definition sample_insert : bkey := mk_bkey 6 1 1 ZERO_VERSION 0 (SPOS 1 20 0).

Lemma sample_update_at os : os = [10] \/ os = [10; 30] -> forall pre old post, sample_rows os = pre ++ old ++ post -> (length old <= 1)%nat ->
  forall n, n = mk_bnode (n_b (sample_bnode os)) (n_aux (sample_bnode os)) (nr_of ([] ++ [pre ++ post])) 12 ->
  update_at n (mk_bset_tree 1 BSET_RW_AUX_TREE_VAL 0 0 (3 + Z.of_nat (length (concat (sample_rows os))))) [] pre old post.
Proof.
  intros Hos pre old post E Hold n ->. assert (bnode_ok (sample_bnode os) [sample_rows os]) as [H1 H2 H3].
  { apply sample_bnode_ok; destruct Hos as [-> | ->]; try (cbn; lia); repeat (apply List.Forall_cons; [unfold in_range; lia|]); try constructor;
      repeat constructor; vm_compute; discriminate. }
  split; [|reflexivity|discriminate|done|reflexivity]. cbn [app]. rewrite <- E. split; [done|done|reflexivity].
Qed.

Lemma sample_insert_at n t post : b_format (n_b n) = BKEY_FORMAT_CURRENT -> t = mk_bset_tree 1 BSET_RW_AUX_TREE_VAL 0 0 (end_offset t) ->
  (length (b_words (n_b n)) >= 28)%nat -> post = [] \/ post = [sample_key 1 30] ->
  insert_at n t [sample_key 1 10] [] post sample_insert [7].
Proof.
  intros Ef -> Hw Hp. split; rewrite ?Ef.
  - split; [|reflexivity|reflexivity|by repeat constructor]. unfold bkey_wf, bversion_wf, bpos_wf, in_range. cbn. lia.
  - discriminate.
  - intros x ->%list_elem_of_singleton. vm_compute. discriminate.
  - intros y Hy. destruct Hp as [-> | ->]; [by apply elem_of_nil in Hy|]. apply list_elem_of_singleton in Hy as ->. vm_compute. discriminate.
  - intros x Hx. by apply elem_of_nil in Hx.
  - unfold first_offset. destruct Hp as [-> | ->]; cbn [data_offset concat sample_key app length k_u64s sample_insert]; lia.
  - unfold first_offset. destruct Hp as [-> | ->]; cbn [data_offset concat sample_key app length k_u64s sample_insert]; lia.
Qed.

Lemma bset_insert_refines_witness : exists n' x, bch2_bset_insert (sample_bnode [10; 30]) 8 sample_insert [7] 0 = Some n' /\
  block_of BKEY_FORMAT_CURRENT x sample_insert [7] /\ updated (sample_bnode [10; 30]) n' [[sample_key 1 10; x; sample_key 1 30]].
Proof.
  apply (bset_insert_refines (sample_bnode [10; 30]) (mk_bset_tree 1 BSET_RW_AUX_TREE_VAL 0 0 13) [] [sample_key 1 10] [] [sample_key 1 30] sample_insert [7]).
  - apply (sample_update_at [10; 30] (or_intror eq_refl)); [reflexivity|cbn; lia|reflexivity].
  - apply sample_insert_at; [reflexivity|reflexivity|cbn; lia|by right].
Defined.

Lemma bset_delete_refines_witness : exists n', bch2_bset_delete
    (mk_bnode (n_b (sample_bnode [10; 30])) (n_aux (sample_bnode [10; 30])) (nr_of [[sample_key 1 30]]) 12) 3 5 = Some n' /\
  bnode_ok n' [[sample_key 1 30]].
Proof.
  destruct (bset_delete_refines (mk_bnode (n_b (sample_bnode [10; 30])) (n_aux (sample_bnode [10; 30])) (nr_of [[sample_key 1 30]]) 12)
    (mk_bset_tree 1 BSET_RW_AUX_TREE_VAL 0 0 13) [] [] [sample_key 1 30] (sample_key 1 10)) as (n' & E & Hn' & _).
  - apply (sample_update_at [10; 30] (or_intror eq_refl) [] [sample_key 1 10] [sample_key 1 30]); [reflexivity|cbn; lia|reflexivity].
  - exists n'. split; [exact E|exact Hn'].
Defined.

Lemma bset_insert_lookup_witness : exists n' iter iter' r, bch2_bset_insert (sample_bnode [10]) 8 sample_insert [7] 0 = Some n' /\
  bch2_btree_node_iter_init (n_b n') (n_aux n') POS_MIN SPOS_MAX (SPOS 1 20 0) = Some iter /\
  bch2_btree_node_iter_peek iter (n_b n') = Some (Some r, iter') /\ r = 8.
Proof.
  destruct (bset_insert_lookup (sample_bnode [10]) (mk_bset_tree 1 BSET_RW_AUX_TREE_VAL 0 0 8) [] [sample_key 1 10] [] [] sample_insert [7] POS_MIN SPOS_MAX)
    as (n' & iter & iter' & r & x & R & E & Ei & Ep & _).
  - apply (sample_update_at [10] (or_introl eq_refl)); [reflexivity|cbn; lia|reflexivity].
  - apply sample_insert_at; [reflexivity|reflexivity|cbn; lia|by left].
  - repeat split; vm_compute; (discriminate || reflexivity).
  - repeat split; vm_compute; (discriminate || reflexivity).
  - vm_compute. split; discriminate.
  - cbn [app concat]. apply List.Forall_cons; [right; vm_compute; discriminate|constructor].
  - exists n', iter, iter', r. split; [exact E|]. split; [exact Ei|]. split; [exact Ep|].
    vm_compute in E. injection E as <-. vm_compute in Ei. injection Ei as <-. vm_compute in Ep. injection Ep as <- <-. reflexivity.
Defined.
