(* ===== verification/JournalRes.v ===== *)
(** * Journal reservations

    The open journal entry of [src/crates/subvol/src/journal.rs]: the 64-bit
    reservation word (22 bits of offset, 2 bits naming the open buffer of the
    ring, four 10-bit reference counts), [journal_res_get_fast],
    [bch2_journal_add_entry], [bch2_journal_res_put], and the part of
    [bch2_journal_flush] that closes the open buffer and opens the next one.

    The theorems read the open buffer as a row of pieces, each an entry that
    has been written or the room of a reservation still held, and show that
    every operation keeps the row, so that a closed buffer is exactly a row of
    entries. *)

From S2P Require Import Prelude.
From S2P Require Import BkeyPack.
From stdpp Require Import base tactics list numbers option relations.
From Stdlib Require Import ZArith Lia.

Open Scope Z_scope.

(** ** Constants *)

Definition JOURNAL_SEQ_MAX : Z := 2 ^ 56 - 1.
Definition JOURNAL_STATE_BUF_BITS : Z := 2.
Definition JOURNAL_STATE_BUF_NR : Z := 4.
Definition JOURNAL_STATE_BUF_MASK : Z := 3.
Definition JOURNAL_ENTRY_SIZE_MAX : Z := 2 ^ 20.
Definition JOURNAL_ENTRY_OFFSET_MAX : Z := 2 ^ 22 - 1.
Definition JSET_MAGIC : Z := 0x245235c1a3625032.
Definition JSET_HEADER_U64S : Z := 7.
Definition BCH_JSET_ENTRY_btree_keys : Z := 0.
Definition BCH_JSET_ENTRY_btree_root : Z := 1.
Definition BCH_WATERMARK_MASK : Z := 7.

(** Words of one buffer of the ring. *)
Definition BUF_U64S : Z := JOURNAL_ENTRY_SIZE_MAX / 8.

(** ** The reservation word *)

Definition journal_state_offset (v : Z) : Z := Z.land v (Z.ones 22).
Definition journal_state_idx (v : Z) : Z := Z.land (Z.shiftr v 22) JOURNAL_STATE_BUF_MASK.
Definition journal_state_count (v idx : Z) : Z := Z.land (Z.shiftr v (24 + idx * 10)) 0x3ff.
Definition journal_state_set_offset (v offset : Z) : Z := Z.lor (Z.ldiff v (Z.ones 22)) offset.
Definition journal_state_set_idx (v idx : Z) : Z :=
  Z.lor (Z.ldiff v (Z.shiftl JOURNAL_STATE_BUF_MASK 22)) (Z.shiftl idx 22).

(** [None] when the count is full; the inner [option] is the overflow panic. *)
Definition journal_state_inc (v idx : Z) : option (option Z) :=
  if journal_state_count v idx =? 0x3ff then Some None
  else v' ← uadd 64 v (Z.shiftl 1 (24 + idx * 10)); Some (Some v').

Definition journal_state_dec (v idx : Z) : option Z :=
  _ ← assert (negb (journal_state_count v idx =? 0));
  usub v (Z.shiftl 1 (24 + idx * 10)).

(** ** Buffers, reservations and the reservation part of the journal *)

Record journal_buf := mk_buf { data : list Z; buf_seq : Z; has_overwrites : bool }.

Record journal_res := mk_res {
  ref_ : bool;
  res_has_overwrites : bool;
  res_u64s : Z;
  res_offset : Z;
  res_seq : Z;
}.

Definition res_default : journal_res := mk_res false false 0 0 0.

(** The fields of [struct journal] that reservations read and write. *)
Record jcore := mk_core {
  reservations : Z;
  seq : Z;
  cur_entry_u64s : Z;
  ring : list journal_buf;
}.

Definition set_reservations (v : Z) (j : jcore) : jcore := mk_core v (seq j) (cur_entry_u64s j) (ring j).
Definition set_ring (r : list journal_buf) (j : jcore) : jcore :=
  mk_core (reservations j) (seq j) (cur_entry_u64s j) r.
Definition set_cur_entry_u64s (v : Z) (j : jcore) : jcore := mk_core (reservations j) (seq j) v (ring j).

Definition zero_data : list Z := replicate (Z.to_nat BUF_U64S) 0.

(** The word of an empty open buffer. *)
Definition fresh_state (s : Z) : Z :=
  let idx := Z.land s JOURNAL_STATE_BUF_MASK in
  Z.lor (Z.shiftl idx 22) (Z.shiftl 1 (24 + idx * 10)).

(** The ring in which only the buffer of sequence number [s] is open. *)
Definition fresh_ring (s : Z) : list journal_buf :=
  let idx := Z.land s JOURNAL_STATE_BUF_MASK in
  map (fun i => mk_buf zero_data (if Z.of_nat i =? idx then s else 0) false) [0%nat; 1%nat; 2%nat; 3%nat].

Definition core_default : jcore :=
  mk_core (fresh_state 1) 1 (BUF_U64S - JSET_HEADER_U64S) (fresh_ring 1).

(** ** Entries

    A [jset_entry] is one word: [u64s] in the low 16 bits, then [btree_id],
    [level], [type_] and three bytes of padding. *)

Definition entry_word (type_ id level u64s : Z) : Z :=
  u64s + id * 2 ^ 16 + level * 2 ^ 24 + type_ * 2 ^ 32.
Definition entry_u64s (w : Z) : Z := w mod 2 ^ 16.
Definition entry_btree_id (w : Z) : Z := (w / 2 ^ 16) mod 2 ^ 8.
Definition entry_level (w : Z) : Z := (w / 2 ^ 24) mod 2 ^ 8.
Definition entry_type (w : Z) : Z := (w / 2 ^ 32) mod 2 ^ 8.

Definition jset_u64s (payload_u64s : Z) : Z := 1 + payload_u64s.

(** Writes through a pointer into a buffer: outside of it there is no
    behaviour to describe. *)
Definition put_words (ws : list Z) (at_ : Z) (src : list Z) : option (list Z) :=
  if (0 <=? at_) && (at_ + Z.of_nat (length src) <=? Z.of_nat (length ws))
  then Some (take (Z.to_nat at_) ws ++ src ++ drop (Z.to_nat at_ + length src) ws)
  else None.

Definition journal_entry_init (ws : list Z) (entry type_ id level u64s : Z) : option (Z * list Z) :=
  ws' ← put_words ws entry [entry_word type_ id level u64s];
  actual ← uadd 16 u64s 1;
  Some (actual, ws').

Definition journal_entry_set (ws : list Z) (entry type_ id level : Z) (src : list Z) : option (Z * list Z) :=
  '(ret, ws') ← journal_entry_init ws entry type_ id level (Z.of_nat (length src));
  ws'' ← put_words ws' (entry + 1) src;
  Some (ret, ws'').

(** ** Taking a reservation *)

(** One turn of the loop of [journal_res_get_fast]: [old] is the value of the
    word loaded before, the compare-and-exchange sees the word as it is now. *)
Inductive attempt :=
  | Refused
  | Taken (res : journal_res) (j : jcore)
  | Again (v : Z).

Definition res_get_attempt (old watermark flags : Z) (res : journal_res) (j : jcore) : option attempt :=
  let idx := journal_state_idx old in
  let offset := journal_state_offset old in
  want ← uadd 32 offset (res_u64s res);
  if cur_entry_u64s j <? want then Some Refused else
  _ ← assert (negb (journal_state_count old idx =? 0));
  if Z.land flags BCH_WATERMARK_MASK <? watermark then Some Refused else
  inc ← journal_state_inc old idx;
  match inc with
  | None => Some Refused
  | Some new =>
      let new := journal_state_set_offset new want in
      if reservations j =? old then
        d ← usub (seq j) idx;
        let s := seq j - Z.land d JOURNAL_STATE_BUF_MASK in
        buf ← ring j !! Z.to_nat idx;
        _ ← assert (buf_seq buf =? s);
        Some (Taken (mk_res true (has_overwrites buf) (res_u64s res) offset s) (set_reservations new j))
      else Some (Again (reservations j))
  end.

(** Without interference the word is the one just loaded. *)
Definition journal_res_get_fast (watermark flags : Z) (res : journal_res) (j : jcore)
    : option (bool * journal_res * jcore) :=
  a ← res_get_attempt (reservations j) watermark flags res j;
  Some match a with
       | Taken res' j' => (true, res', j')
       | _ => (false, res, j)
       end.

(** ** Filling and releasing a reservation *)

Definition buf_idx (res : journal_res) : nat := Z.to_nat (Z.land (res_seq res) JOURNAL_STATE_BUF_MASK).

(** [journal_res_entry] followed by an update of the words it points into. *)
Definition with_res_data {A} (j : jcore) (res : journal_res)
    (f : list Z -> option (A * list Z)) : option (A * jcore) :=
  _ ← assert (ref_ res);
  buf ← ring j !! buf_idx res;
  '(x, ws) ← f (data buf);
  Some (x, set_ring (<[buf_idx res := mk_buf ws (buf_seq buf) (has_overwrites buf)]> (ring j)) j).

(** The result is where the entry is, the shrunken reservation and the
    journal. *)
Definition bch2_journal_add_entry (j : jcore) (res : journal_res) (type_ id level u64s : Z)
    : option (Z * journal_res * jcore) :=
  '(actual, j') ← with_res_data j res
                   (fun ws => journal_entry_init ws (res_offset res) type_ id level u64s);
  _ ← assert (actual <=? res_u64s res);
  offset' ← uadd 32 (res_offset res) actual;
  Some (res_offset res,
        mk_res (ref_ res) (res_has_overwrites res) (res_u64s res - actual) offset' (res_seq res), j').

(** How the transaction commit uses it: the payload is copied behind the
    entry's header. *)
Definition journal_add_keys (j : jcore) (res : journal_res) (type_ id level : Z) (src : list Z)
    : option (journal_res * jcore) :=
  '(entry, res', j') ← bch2_journal_add_entry j res type_ id level (Z.of_nat (length src));
  '(_, j'') ← with_res_data j' res (fun ws => ws' ← put_words ws (entry + 1) src; Some (tt, ws'));
  Some (res', j'').

(** The loop of [bch2_journal_res_put] that pads what is left with empty
    entries; one word per turn. *)
Fixpoint res_pad (fuel : nat) (j : jcore) (res : journal_res) : option (journal_res * jcore) :=
  match fuel with
  | O => Some (res, j)
  | S fuel =>
      if res_u64s res =? 0 then Some (res, j)
      else '(_, res', j') ← bch2_journal_add_entry j res BCH_JSET_ENTRY_btree_keys 0 0 0;
           res_pad fuel j' res'
  end.

Definition bch2_journal_res_put (j : jcore) (res : journal_res) : option (journal_res * jcore) :=
  if ref_ res then
    '(res', j') ← res_pad (Z.to_nat (res_u64s res)) j res;
    v ← journal_state_dec (reservations j') (Z.of_nat (buf_idx res'));
    Some (mk_res false (res_has_overwrites res') (res_u64s res') (res_offset res') (res_seq res'),
          set_reservations v j')
  else Some (res, j).

(** ** Closing the open buffer *)

(** The guard of [bch2_journal_flush] on the word it loaded. *)
Definition flush_guard (old_state : Z) : bool :=
  journal_state_count old_state (journal_state_idx old_state) =? 1.

(** The record it builds: seven header words and the used words of the
    buffer. *)
Definition flush_record (old_state last_seq : Z) (j : jcore) : option (list Z) :=
  let used := journal_state_offset old_state in
  buf ← ring j !! Z.to_nat (journal_state_idx old_state);
  _ ← assert (buf_seq buf =? seq j);
  _ ← assert (used <=? Z.of_nat (length (data buf)));
  Some ([0; 0; JSET_MAGIC; seq j; 0; used; last_seq] ++ take (Z.to_nat used) (data buf)).

(** Opening the next buffer: an error code, or the journal with the word
    computed from the one that was loaded. *)
Definition switch_buf (old_state : Z) (j : jcore) : option (Z + jcore) :=
  let old_idx := journal_state_idx old_state in
  let new_seq := seq j + 1 in
  if JOURNAL_SEQ_MAX <? new_seq then Some (inl (-2)) else
  let new_idx := Z.land new_seq JOURNAL_STATE_BUF_MASK in
  if negb (journal_state_count old_state new_idx =? 0) then Some (inl (-3)) else
  buf ← ring j !! Z.to_nat new_idx;
  let ring' := <[Z.to_nat new_idx := mk_buf (replicate (length (data buf)) 0) new_seq (has_overwrites buf)]>
                 (ring j) in
  new_state ← journal_state_dec old_state old_idx;
  let new_state := journal_state_set_idx new_state new_idx in
  let new_state := journal_state_set_offset new_state 0 in
  inc ← journal_state_inc new_state new_idx;
  new_state ← inc;
  Some (inr (mk_core new_state new_seq (cur_entry_u64s j) ring')).

(** The scan of [journal_entry_empty] over the entries of a record whose
    payload ends at [end_]. *)
Fixpoint entries_no_keys (fuel : nat) (r : list Z) (entry end_ : Z) : bool :=
  match fuel with
  | O => true
  | S fuel =>
      if entry <? end_ then
        let w := word r (Z.to_nat entry) in
        if (entry_type w =? BCH_JSET_ENTRY_btree_keys) && negb (entry_u64s w =? 0) then false
        else entries_no_keys fuel r (entry + jset_u64s (entry_u64s w)) end_
      else true
  end.

Definition journal_entry_empty (r : list Z) : bool :=
  if negb (word r 3 =? word r 6) then false
  else let end_ := JSET_HEADER_U64S + word r 5 mod 2 ^ 32 in
       entries_no_keys (Z.to_nat end_) r JSET_HEADER_U64S end_.

(** ** The word as its fields *)

Definition word_of (o i : Z) (c : Z -> Z) : Z :=
  o + i * 2 ^ 22 + c 0 * 2 ^ 24 + c 1 * 2 ^ 34 + c 2 * 2 ^ 44 + c 3 * 2 ^ 54.

Definition fields_ok (o i : Z) (c : Z -> Z) : Prop :=
  0 <= o < 2 ^ 22 /\ 0 <= i < 4 /\ forall k, 0 <= k < 4 -> 0 <= c k < 2 ^ 10.

(** [c] with the count of [k] changed. *)
Definition upd (c : Z -> Z) (k v : Z) : Z -> Z := fun k' => if k' =? k then v else c k'.

Ltac word_tac :=
  change (2 ^ 10) with 1024 in *; change (2 ^ 22) with 4194304 in *; change (2 ^ 24) with 16777216 in *;
  change (2 ^ 34) with 17179869184 in *; change (2 ^ 44) with 17592186044416 in *;
  change (2 ^ 54) with 18014398509481984 in *; change (2 ^ 64) with 18446744073709551616 in *;
  change (2 ^ 2) with 4 in *.

Section Word.
Context (o i : Z) (c : Z -> Z) (Hf : fields_ok o i c).

Lemma fields_counts : 0 <= c 0 < 2 ^ 10 /\ 0 <= c 1 < 2 ^ 10 /\ 0 <= c 2 < 2 ^ 10 /\ 0 <= c 3 < 2 ^ 10.
Proof. destruct Hf as (_ & _ & H). split_and!; apply H; lia. Qed.

Lemma word_offset : journal_state_offset (word_of o i c) = o.
Proof.
  pose proof fields_counts. destruct Hf as (Ho & Hi & _).
  unfold journal_state_offset, word_of. rewrite Z.land_ones by lia. word_tac.
  Z.to_euclidean_division_equations. lia.
Qed.

Lemma word_idx : journal_state_idx (word_of o i c) = i.
Proof.
  pose proof fields_counts. destruct Hf as (Ho & Hi & _).
  unfold journal_state_idx, word_of, JOURNAL_STATE_BUF_MASK. change 3 with (Z.ones 2) at 2.
  rewrite Z.land_ones, Z.shiftr_div_pow2 by lia. word_tac.
  Z.to_euclidean_division_equations. lia.
Qed.

Lemma idx_cases k : 0 <= k < 4 -> k = 0 \/ k = 1 \/ k = 2 \/ k = 3.
Proof. lia. Qed.

Lemma word_count k : 0 <= k < 4 -> journal_state_count (word_of o i c) k = c k.
Proof.
  intros Hk. pose proof fields_counts. destruct Hf as (Ho & Hi & _).
  unfold journal_state_count, word_of. change 0x3ff with (Z.ones 10).
  rewrite Z.land_ones, Z.shiftr_div_pow2 by lia.
  destruct (idx_cases k Hk) as [-> | [-> | [-> | ->]]];
    match goal with |- context [2 ^ (24 + ?x)] => let y := eval vm_compute in (24 + x) in change (24 + x) with y end;
    word_tac; Z.to_euclidean_division_equations; lia.
Qed.

Lemma word_range64 : 0 <= word_of o i c < 2 ^ 64.
Proof. pose proof fields_counts. destruct Hf as (Ho & Hi & _). unfold word_of. word_tac. lia. Qed.

Lemma word_set_offset o' : 0 <= o' < 2 ^ 22 ->
  journal_state_set_offset (word_of o i c) o' = word_of o' i c.
Proof.
  intros Ho'. unfold journal_state_set_offset.
  rewrite <- (Z.shiftl_0_r (Z.ones 22)), <- (Z.shiftl_0_r o'), set_field by lia.
  rewrite Z.shiftl_0_r, Z.pow_0_r, Z.div_1_r.
  pose proof word_offset as E. unfold journal_state_offset in E. rewrite Z.land_ones in E by lia.
  rewrite E. unfold word_of. lia.
Qed.

Lemma word_set_idx i' : 0 <= i' < 4 -> journal_state_set_idx (word_of o i c) i' = word_of o i' c.
Proof.
  intros Hi'. unfold journal_state_set_idx, JOURNAL_STATE_BUF_MASK. change 3 with (Z.ones 2).
  rewrite set_field by (word_tac; lia).
  pose proof word_idx as E. unfold journal_state_idx, JOURNAL_STATE_BUF_MASK in E. change 3 with (Z.ones 2) in E.
  rewrite Z.land_ones, Z.shiftr_div_pow2 in E by lia. rewrite E. unfold word_of. lia.
Qed.

Lemma word_upd k v : 0 <= k < 4 ->
  word_of o i (upd c k v) = word_of o i c + (v - c k) * 2 ^ (24 + k * 10).
Proof.
  intros Hk. unfold word_of, upd.
  destruct (idx_cases k Hk) as [-> | [-> | [-> | ->]]]; cbn [Z.eqb Pos.eqb];
    match goal with |- context [2 ^ (24 + ?x)] => let y := eval vm_compute in (24 + x) in change (24 + x) with y end;
    word_tac; lia.
Qed.

Lemma fields_upd k v : 0 <= v < 2 ^ 10 -> fields_ok o i (upd c k v).
Proof.
  intros Hv. destruct Hf as (Ho & Hi & Hc). split_and!; [lia..|].
  intros k' Hk'. unfold upd. destruct (k' =? k); [lia|by apply Hc].
Qed.

End Word.

Lemma fields_offset o o' i c : fields_ok o i c -> 0 <= o' < 2 ^ 22 -> fields_ok o' i c.
Proof. by intros (? & ? & ?) ?. Qed.
Lemma fields_idx o i i' c : fields_ok o i c -> 0 <= i' < 4 -> fields_ok o i' c.
Proof. by intros (? & ? & ?) ?. Qed.

Lemma word_inc o i c k : fields_ok o i c -> 0 <= k < 4 ->
  journal_state_inc (word_of o i c) k =
  Some (if c k =? 0x3ff then None else Some (word_of o i (upd c k (c k + 1)))).
Proof.
  intros Hf Hk. unfold journal_state_inc. rewrite word_count by done.
  destruct (Z.eqb_spec (c k) 0x3ff) as [|Hne]; [done|].
  pose proof (word_upd o i c k (c k + 1) Hk) as E.
  replace (c k + 1 - c k) with 1 in E by lia.
  assert (0 <= c k < 2 ^ 10) as Hck by (destruct Hf as (_ & _ & H); by apply H).
  pose proof (word_range64 o i _ (fields_upd o i c Hf k (c k + 1) ltac:(word_tac; lia))) as Hr.
  rewrite uadd_ok; rewrite Z.shiftl_mul_pow2 by lia; [|lia]. bind_simpl. by rewrite E.
Qed.

Lemma word_dec o i c k : fields_ok o i c -> 0 <= k < 4 -> 0 < c k ->
  journal_state_dec (word_of o i c) k = Some (word_of o i (upd c k (c k - 1))).
Proof.
  intros Hf Hk Hpos. unfold journal_state_dec. rewrite word_count by done.
  rewrite (proj2 (Z.eqb_neq _ _)) by lia. cbn.
  pose proof (word_upd o i c k (c k - 1) Hk) as E.
  replace (c k - 1 - c k) with (-1) in E by lia.
  assert (0 <= c k < 2 ^ 10) as Hck by (destruct Hf as (_ & _ & H); by apply H).
  pose proof (word_range64 o i _ (fields_upd o i c Hf k (c k - 1) ltac:(lia))) as Hr.
  cbn. rewrite usub_ok; rewrite Z.shiftl_mul_pow2 by lia; [f_equal|]; lia.
Qed.

Lemma word_of_ext o i c c' : (forall k, 0 <= k < 4 -> c k = c' k) -> word_of o i c = word_of o i c'.
Proof. intros H. unfold word_of. by rewrite !H by lia. Qed.

(** ** Entries as values *)

Record entry := mk_entry { e_type : Z; e_id : Z; e_level : Z; e_payload : list Z }.

Definition entry_header (e : entry) : Z :=
  entry_word (e_type e) (e_id e) (e_level e) (Z.of_nat (length (e_payload e))).
Definition entry_words (e : entry) : list Z := entry_header e :: e_payload e.

Definition entry_ok (e : entry) : Prop :=
  in_range 8 (e_type e) /\ in_range 8 (e_id e) /\ in_range 8 (e_level e) /\
  Z.of_nat (length (e_payload e)) + 1 < 2 ^ 16.

(** What [bch2_journal_res_put] pads with. *)
Definition pad : entry := mk_entry BCH_JSET_ENTRY_btree_keys 0 0 [].

Lemma pad_ok : entry_ok pad.
Proof. by split_and!. Qed.

Lemma entry_header_u64s e : entry_ok e -> entry_u64s (entry_header e) = Z.of_nat (length (e_payload e)).
Proof.
  intros (_ & _ & _ & Hn). unfold entry_u64s, entry_header, entry_word.
  change (2 ^ 16) with 65536 in *. Z.to_euclidean_division_equations. lia.
Qed.

Lemma entry_header_type e : entry_ok e -> entry_type (entry_header e) = e_type e.
Proof.
  intros (Ht & Hi & Hl & Hn). unfold entry_type, entry_header, entry_word, in_range in *.
  change (2 ^ 8) with 256 in *. change (2 ^ 16) with 65536 in *.
  Z.to_euclidean_division_equations. lia.
Qed.

Lemma entry_header_id e : entry_ok e -> entry_btree_id (entry_header e) = e_id e.
Proof.
  intros (Ht & Hi & Hl & Hn). unfold entry_btree_id, entry_header, entry_word, in_range in *.
  change (2 ^ 8) with 256 in *. change (2 ^ 16) with 65536 in *.
  Z.to_euclidean_division_equations. lia.
Qed.

Lemma entry_header_level e : entry_ok e -> entry_level (entry_header e) = e_level e.
Proof.
  intros (Ht & Hi & Hl & Hn). unfold entry_level, entry_header, entry_word, in_range in *.
  change (2 ^ 8) with 256 in *. change (2 ^ 16) with 65536 in *.
  Z.to_euclidean_division_equations. lia.
Qed.

(** The reader's view of a row of words: the entries one after the other. *)
Fixpoint parse_entries (fuel : nat) (ws : list Z) : option (list entry) :=
  match fuel, ws with
  | _, [] => Some []
  | O, _ => None
  | S fuel, w :: rest =>
      let n := Z.to_nat (entry_u64s w) in
      if (length rest <? n)%nat then None
      else es ← parse_entries fuel (drop n rest);
           Some (mk_entry (entry_type w) (entry_btree_id w) (entry_level w) (take n rest) :: es)
  end.

Definition rows (es : list entry) : list Z := es ≫= entry_words.

Lemma parse_rows es fuel : Forall entry_ok es -> (length es <= fuel)%nat ->
  parse_entries fuel (rows es) = Some es.
Proof.
  revert fuel. induction es as [|e es IH]; intros fuel Hok Hfuel; [by destruct fuel|].
  apply Forall_cons_1 in Hok as [He Hok]. destruct fuel as [|fuel]; [cbn in Hfuel; lia|].
  change (rows (e :: es)) with (entry_header e :: (e_payload e ++ rows es)).
  cbn [parse_entries]. rewrite entry_header_u64s, Nat2Z.id by done.
  rewrite length_app. rewrite (proj2 (Nat.ltb_ge _ _)) by lia.
  rewrite drop_app_length, take_app_length, IH by (done || cbn in Hfuel; lia). cbn.
  rewrite entry_header_type, entry_header_id, entry_header_level by done. by destruct e.
Qed.

(** ** The open buffer as a row of pieces *)

Inductive piece :=
  | Done (e : entry)
  | Held (h : journal_res) (junk : list Z).

Definition piece_words (p : piece) : list Z :=
  match p with Done e => entry_words e | Held _ junk => junk end.
Definition all_words (ps : list piece) : list Z := ps ≫= piece_words.

Definition held (ps : list piece) : list journal_res :=
  omap (fun p => match p with Held h _ => Some h | _ => None end) ps.
Definition done_ (ps : list piece) : list entry :=
  omap (fun p => match p with Done e => Some e | _ => None end) ps.

(** A reservation's room is at its offset, as long as it says, and in the
    buffer of its sequence number. *)
Fixpoint placed (s : Z) (lo : Z) (ps : list piece) : Prop :=
  match ps with
  | [] => True
  | p :: ps =>
      match p with
      | Done e => entry_ok e
      | Held h junk => res_offset h = lo /\ res_u64s h = Z.of_nat (length junk) /\ ref_ h = true /\ res_seq h = s
      end /\ placed s (lo + Z.of_nat (length (piece_words p))) ps
  end.

Definition used (ps : list piece) : Z := Z.of_nat (length (all_words ps)).

Lemma all_words_app ps qs : all_words (ps ++ qs) = all_words ps ++ all_words qs.
Proof. apply bind_app. Qed.
Lemma used_app ps qs : used (ps ++ qs) = used ps + used qs.
Proof. unfold used. rewrite all_words_app, length_app. lia. Qed.
Lemma used_cons p ps : used (p :: ps) = Z.of_nat (length (piece_words p)) + used ps.
Proof. unfold used, all_words. cbn. rewrite length_app. lia. Qed.
Lemma used_nil : used [] = 0.
Proof. done. Qed.
Lemma used_nonneg ps : 0 <= used ps.
Proof. unfold used. lia. Qed.
Lemma held_app ps qs : held (ps ++ qs) = held ps ++ held qs.
Proof. apply omap_app. Qed.
Lemma done_app ps qs : done_ (ps ++ qs) = done_ ps ++ done_ qs.
Proof. apply omap_app. Qed.

Lemma placed_app s lo ps qs : placed s lo (ps ++ qs) <-> placed s lo ps /\ placed s (lo + used ps) qs.
Proof.
  revert lo. induction ps as [|p ps IH]; intros lo; cbn [placed app].
  - rewrite used_nil, Z.add_0_r. tauto.
  - rewrite IH, used_cons, Z.add_assoc. tauto.
Qed.

Lemma placed_map_done s lo es : Forall entry_ok es -> placed s lo (map Done es).
Proof. intros H. revert lo. induction H; intros lo; cbn; auto. Qed.

Lemma all_words_done ps : held ps = [] -> all_words ps = rows (done_ ps).
Proof.
  induction ps as [|[e|h junk] ps IH]; [done|..|done]. cbn. intros H.
  unfold all_words, rows in IH. by rewrite IH.
Qed.

Lemma done_ok s lo ps : placed s lo ps -> Forall entry_ok (done_ ps).
Proof.
  revert lo. induction ps as [|[e|h junk] ps IH]; intros lo; cbn; [by constructor|..]; intros [H1 H2]; eauto.
Qed.

Lemma held_map_done es : held (map Done es) = [].
Proof. by induction es. Qed.
Lemma done_map_done es : done_ (map Done es) = es.
Proof. induction es as [|e es IH]; [done|]. cbn. f_equal. apply IH. Qed.

(** ** The invariant of the open buffer *)

Definition open_idx (j : jcore) : Z := seq j mod 4.

(** All counts zero but the one of [i]. *)
Definition one_count (i n : Z) : Z -> Z := fun k => if k =? i then n else 0.

Record res_inv (j : jcore) (ps : list piece) : Prop := {
  ri_seq : 1 <= seq j <= JOURNAL_SEQ_MAX;
  ri_word : reservations j =
    word_of (used ps) (open_idx j) (one_count (open_idx j) (1 + Z.of_nat (length (held ps))));
  ri_count : Z.of_nat (length (held ps)) < 0x3ff;
  ri_used : used ps <= BUF_U64S;
  ri_cap : 0 <= cur_entry_u64s j <= BUF_U64S;
  ri_ring : length (ring j) = 4%nat;
  ri_data : Forall (fun b => Z.of_nat (length (data b)) = BUF_U64S) (ring j);
  ri_open : exists b tail, ring j !! Z.to_nat (open_idx j) = Some b /\ buf_seq b = seq j /\
    data b = all_words ps ++ tail;
  ri_placed : placed (seq j) 0 ps;
}.

Lemma land_mask s : Z.land s JOURNAL_STATE_BUF_MASK = s mod 4.
Proof. unfold JOURNAL_STATE_BUF_MASK. change 3 with (Z.ones 2). by rewrite Z.land_ones by lia. Qed.

Lemma mod4_range s : 0 <= s mod 4 < 4.
Proof. apply Z.mod_pos_bound. lia. Qed.

Lemma open_idx_range j : 0 <= open_idx j < 4.
Proof. apply mod4_range. Qed.

Lemma one_count_self i n : one_count i n i = n.
Proof. unfold one_count. by rewrite Z.eqb_refl. Qed.

Lemma one_count_upd o i n n' : word_of o i (upd (one_count i n) i n') = word_of o i (one_count i n').
Proof. apply word_of_ext. intros k Hk. unfold upd, one_count. by destruct (k =? i). Qed.

Lemma buf_u64s_val : BUF_U64S = 131072.
Proof. reflexivity. Qed.

Lemma one_count_fields o i n : 0 <= o <= BUF_U64S -> 0 <= i < 4 -> 0 <= n <= 0x3ff ->
  fields_ok o i (one_count i n).
Proof.
  rewrite buf_u64s_val. intros. split_and!; [word_tac; lia..|]. intros k Hk. unfold one_count.
  word_tac. destruct (k =? i); lia.
Qed.

Section Inv.
Context (j : jcore) (ps : list piece) (Hinv : res_inv j ps).

Lemma inv_fields : fields_ok (used ps) (open_idx j) (one_count (open_idx j) (1 + Z.of_nat (length (held ps)))).
Proof.
  destruct Hinv. apply one_count_fields; [|apply open_idx_range|lia]. pose proof (used_nonneg ps). lia.
Qed.

Lemma inv_offset : journal_state_offset (reservations j) = used ps.
Proof. rewrite (ri_word _ _ Hinv). apply word_offset, inv_fields. Qed.
Lemma inv_idx : journal_state_idx (reservations j) = open_idx j.
Proof. rewrite (ri_word _ _ Hinv). apply word_idx, inv_fields. Qed.
Lemma inv_count : journal_state_count (reservations j) (open_idx j) = 1 + Z.of_nat (length (held ps)).
Proof.
  rewrite (ri_word _ _ Hinv). rewrite word_count by (apply inv_fields || apply open_idx_range). apply one_count_self.
Qed.
Lemma inv_inc : journal_state_inc (reservations j) (open_idx j) =
  Some (if 1 + Z.of_nat (length (held ps)) =? 0x3ff then None
        else Some (word_of (used ps) (open_idx j) (one_count (open_idx j) (2 + Z.of_nat (length (held ps)))))).
Proof.
  rewrite (ri_word _ _ Hinv). rewrite word_inc by (apply inv_fields || apply open_idx_range).
  rewrite one_count_self, one_count_upd.
  replace (1 + Z.of_nat (length (held ps)) + 1) with (2 + Z.of_nat (length (held ps))) by lia. done.
Qed.

Lemma inv_seq_idx : usub (seq j) (open_idx j) = Some (seq j - open_idx j) /\
  seq j - Z.land (seq j - open_idx j) JOURNAL_STATE_BUF_MASK = seq j.
Proof.
  pose proof (ri_seq _ _ Hinv) as Hs. unfold open_idx. split.
  - apply usub_ok. apply Z.mod_le; lia.
  - rewrite land_mask. rewrite Zminus_mod_idemp_r, Z.sub_diag. change (0 mod 4) with 0. lia.
Qed.

(** What a reservation of [u64s] words needs. *)
Definition may_take (watermark flags u64s : Z) : bool :=
  (used ps + u64s <=? cur_entry_u64s j) && (watermark <=? Z.land flags BCH_WATERMARK_MASK) &&
  (1 + Z.of_nat (length (held ps)) <? 0x3ff).

Lemma attempt_spec watermark flags res : 0 <= res_u64s res < 2 ^ 16 ->
  exists b, ring j !! Z.to_nat (open_idx j) = Some b /\
  res_get_attempt (reservations j) watermark flags res j =
  Some (if may_take watermark flags (res_u64s res)
        then Taken (mk_res true (has_overwrites b) (res_u64s res) (used ps) (seq j))
               (set_reservations (word_of (used ps + res_u64s res) (open_idx j)
                  (one_count (open_idx j) (2 + Z.of_nat (length (held ps))))) j)
        else Refused).
Proof.
  intros Hu. destruct (ri_open _ _ Hinv) as (b & tail & Hb & Hbs & _). exists b. split; [done|].
  pose proof (used_nonneg ps). pose proof (ri_used _ _ Hinv) as Hub. pose proof (ri_cap _ _ Hinv) as Hcap.
  rewrite buf_u64s_val in *. pose proof (ri_count _ _ Hinv) as Hn.
  unfold res_get_attempt, may_take. rewrite inv_offset, inv_idx, inv_count.
  change (2 ^ 16) with 65536 in Hu.
  rewrite uadd_ok by (change (2 ^ 32) with 4294967296; lia). bind_simpl.
  destruct (Z.ltb_spec (cur_entry_u64s j) (used ps + res_u64s res)).
  { by rewrite (proj2 (Z.leb_gt _ _)) by lia. }
  rewrite (proj2 (Z.leb_le (used ps + _) _)) by lia. cbn [andb].
  rewrite (proj2 (Z.eqb_neq (1 + _) 0)) by lia. cbn [negb assert]. bind_simpl.
  destruct (Z.ltb_spec (Z.land flags BCH_WATERMARK_MASK) watermark).
  { by rewrite (proj2 (Z.leb_gt _ _)) by lia. }
  rewrite (proj2 (Z.leb_le watermark _)) by lia. cbn [andb]. rewrite inv_inc. bind_simpl.
  destruct (Z.eqb_spec (1 + Z.of_nat (length (held ps))) 0x3ff) as [E|].
  { by rewrite (proj2 (Z.ltb_ge _ _)) by lia. }
  rewrite (proj2 (Z.ltb_lt (1 + _) _)) by lia. rewrite Z.eqb_refl.
  destruct inv_seq_idx as [E1 E2]. rewrite E1. bind_simpl. rewrite E2, Hb. bind_simpl. rewrite Hbs, Z.eqb_refl. cbn [assert].
  bind_simpl. rewrite word_set_offset; [done| |word_tac; lia].
  apply one_count_fields; [rewrite buf_u64s_val; lia|apply open_idx_range|lia].
Qed.

(** Taking a reservation appends its room to the row. *)
Lemma take_inv b u64s : 0 <= u64s < 2 ^ 16 -> used ps + u64s <= cur_entry_u64s j ->
  1 + Z.of_nat (length (held ps)) < 0x3ff ->
  exists junk, res_inv (set_reservations (word_of (used ps + u64s) (open_idx j)
                  (one_count (open_idx j) (2 + Z.of_nat (length (held ps))))) j)
               (ps ++ [Held (mk_res true b u64s (used ps) (seq j)) junk]).
Proof.
  intros Hu Hfit Hcnt. destruct (ri_open _ _ Hinv) as (buf & tail & Hb & Hbs & Hd).
  pose proof (ri_cap _ _ Hinv) as Hcap.
  assert (Z.of_nat (length (data buf)) = BUF_U64S) as Hlen
    by apply (Forall_lookup_1 _ _ _ _ (ri_data _ _ Hinv) Hb).
  rewrite Hd, length_app in Hlen. fold (used ps) in Hlen.
  exists (take (Z.to_nat u64s) tail).
  assert (Z.of_nat (length (take (Z.to_nat u64s) tail)) = u64s) as Ht.
  { rewrite length_take. unfold used in *. lia. }
  assert (used (ps ++ [Held (mk_res true b u64s (used ps) (seq j)) (take (Z.to_nat u64s) tail)]) = used ps + u64s) as Hused.
  { rewrite used_app, used_cons, used_nil. cbn [piece_words]. lia. }
  assert (length (held (ps ++ [Held (mk_res true b u64s (used ps) (seq j)) (take (Z.to_nat u64s) tail)])) = S (length (held ps))) as Hh.
  { rewrite held_app, length_app. cbn. lia. }
  destruct Hinv. constructor; cbn; try done.
  - rewrite Hused. unfold open_idx. cbn. apply word_of_ext. intros k Hk. unfold one_count. rewrite Hh.
    destruct (k =? _); lia.
  - rewrite Hh. lia.
  - lia.
  - exists buf, (drop (Z.to_nat u64s) tail). split_and!; [done..|].
    rewrite all_words_app. cbn. rewrite app_nil_r, <- app_assoc, take_drop. done.
  - apply placed_app. split; [done|]. cbn. split_and!; [lia|by rewrite Ht|done..].
Qed.

End Inv.

(** ** Writing into the open buffer *)

Lemma put_words_mid (a b c b' : list Z) : length b' = length b ->
  put_words (a ++ b ++ c) (Z.of_nat (length a)) b' = Some (a ++ b' ++ c).
Proof.
  intros Hb. unfold put_words. rewrite !length_app.
  rewrite (proj2 (Z.leb_le 0 _)), (proj2 (Z.leb_le _ _)) by lia. cbn [andb].
  rewrite Nat2Z.id, take_app_length, Hb, drop_app_add', drop_app_length by done. done.
Qed.

(** The open buffer with the words [ws]. *)
Definition open_with (j : jcore) (b : journal_buf) (ws : list Z) : jcore :=
  set_ring (<[Z.to_nat (open_idx j) := mk_buf ws (buf_seq b) (has_overwrites b)]> (ring j)) j.

Lemma with_res_data_spec {A} j b h (f : list Z -> option (A * list Z)) :
  ref_ h = true -> res_seq h = seq j -> ring j !! Z.to_nat (open_idx j) = Some b ->
  with_res_data j h f = '(x, ws) ← f (data b); Some (x, open_with j b ws).
Proof.
  intros Href Hseq Hb. unfold with_res_data, buf_idx. rewrite Href, Hseq, land_mask.
  change (seq j mod 4) with (open_idx j). rewrite Hb. done.
Qed.

(** One piece of the row exchanged for others of the same size. *)
Lemma edit_inv j l p r q b tail :
  res_inv j (l ++ p :: r) -> length (all_words q) = length (piece_words p) ->
  length (held q) = length (held [p]) -> placed (seq j) (used l) q ->
  ring j !! Z.to_nat (open_idx j) = Some b -> data b = all_words (l ++ p :: r) ++ tail ->
  res_inv (open_with j b (all_words (l ++ q ++ r) ++ tail)) (l ++ q ++ r).
Proof.
  intros Hinv Hlen Hheld Hq Hb Hd.
  assert (used (l ++ q ++ r) = used (l ++ p :: r)) as Hu.
  { rewrite !used_app, used_cons. unfold used. lia. }
  assert (length (held (l ++ q ++ r)) = length (held (l ++ p :: r))) as Hh.
  { change (p :: r) with ([p] ++ r). rewrite !held_app, !length_app. lia. }
  assert (length (all_words (l ++ q ++ r)) = length (all_words (l ++ p :: r))) as Hl by (unfold used in Hu; lia).
  destruct Hinv as [Hs Hw Hc Hus Hcap Hring Hdata (b' & tail' & Hb' & Hbs & Hd') Hp].
  assert (b' = b) as -> by congruence.
  constructor; cbn; try done.
  - by rewrite Hu, Hh.
  - by rewrite Hh.
  - by rewrite Hu.
  - by rewrite length_insert.
  - apply Forall_insert; [done|]. cbn.
    rewrite <- (Forall_lookup_1 _ _ _ _ Hdata Hb), Hd, !length_app, Hl. done.
  - exists (mk_buf (all_words (l ++ q ++ r) ++ tail) (buf_seq b) (has_overwrites b)), tail.
    split_and!; [|done..]. apply list_lookup_insert_eq. rewrite Hring. pose proof (open_idx_range j). lia.
  - apply placed_app in Hp as [Hpl Hpr]. apply placed_app. split; [done|].
    apply placed_app. split; [by rewrite Z.add_0_l|]. cbn in Hpr. destruct Hpr as [_ Hpr].
    by replace (used q) with (Z.of_nat (length (piece_words p))) by (unfold used; lia).
Qed.

(** The reservation [h] after an entry of [n] words. *)
Definition shrink (h : journal_res) (n : Z) : journal_res :=
  mk_res (ref_ h) (res_has_overwrites h) (res_u64s h - n) (res_offset h + n) (res_seq h).

Lemma inv_held j l h junk r : res_inv j (l ++ Held h junk :: r) ->
  ref_ h = true /\ res_seq h = seq j /\ res_offset h = used l /\ res_u64s h = Z.of_nat (length junk).
Proof.
  intros Hinv. pose proof (ri_placed _ _ Hinv) as Hp. apply placed_app in Hp as [_ [Hp _]].
  rewrite Z.add_0_l in Hp. tauto.
Qed.

Lemma inv_room j l h junk r : res_inv j (l ++ Held h junk :: r) -> used l + Z.of_nat (length junk) <= BUF_U64S.
Proof.
  intros Hinv. pose proof (ri_used _ _ Hinv) as Hu. rewrite used_app, used_cons in Hu.
  pose proof (used_nonneg r). cbn in Hu. lia.
Qed.

Lemma add_entry_inv j l h hd junk1 junk2 r ty id lv n :
  res_inv j (l ++ Held h (hd :: junk1 ++ junk2) :: r) -> n = Z.of_nat (length junk1) ->
  entry_ok (mk_entry ty id lv junk1) ->
  exists j', bch2_journal_add_entry j h ty id lv n = Some (used l, shrink h (n + 1), j') /\
    res_inv j' (l ++ [Done (mk_entry ty id lv junk1); Held (shrink h (n + 1)) junk2] ++ r) /\ seq j' = seq j /\
    reservations j' = reservations j.
Proof.
  intros Hinv Hn Hok. destruct (inv_held _ _ _ _ _ Hinv) as (Href & Hseq & Hoff & Hlen).
  pose proof (inv_room _ _ _ _ _ Hinv) as Hroom. rewrite buf_u64s_val in Hroom.
  destruct (ri_open _ _ Hinv) as (b & tail & Hb & Hbs & Hd).
  unfold bch2_journal_add_entry. rewrite (with_res_data_spec j b) by done.
  assert (n + 1 < 2 ^ 16) as Hn16 by (destruct Hok as (_ & _ & _ & H); cbn in H; lia).
  assert (journal_entry_init (data b) (res_offset h) ty id lv n = Some (n + 1,
    all_words (l ++ [Done (mk_entry ty id lv junk1); Held (shrink h (n + 1)) junk2] ++ r) ++ tail)) as Hi.
  { unfold journal_entry_init. rewrite Hoff. unfold used. rewrite Hd, !all_words_app, <- !app_assoc.
    change (all_words (Held h (hd :: junk1 ++ junk2) :: r)) with ([hd] ++ (junk1 ++ junk2) ++ all_words r).
    rewrite <- (app_assoc [hd]), put_words_mid by done. bind_simpl. rewrite uadd_ok by lia. bind_simpl.
    cbn. rewrite app_nil_r, <- !app_assoc. rewrite Hn. done. }
  rewrite Hi. bind_simpl. cbn in Hlen. rewrite length_app in Hlen.
  rewrite (proj2 (Z.leb_le (n + 1) _)) by lia. cbn [assert]. bind_simpl.
  rewrite uadd_ok by (change (2 ^ 32) with 4294967296; cbn in Hroom; rewrite length_app in Hroom; lia).
  bind_simpl. eexists. split; [rewrite Hoff at 1; reflexivity|]. split; [|done].
  apply (edit_inv j l (Held h (hd :: junk1 ++ junk2)) r); try done.
  - cbn. by rewrite app_nil_r.
  - cbn. unfold shrink. split_and!; cbn; [done|lia..|done|done|done].
Qed.

(** Copying a payload of the announced length behind the header. *)
Lemma fill_inv j l ty id lv old src r h :
  res_inv j (l ++ Done (mk_entry ty id lv old) :: r) -> length src = length old ->
  ref_ h = true -> res_seq h = seq j ->
  exists j', with_res_data j h (fun ws => ws' ← put_words ws (used l + 1) src; Some (tt, ws')) = Some (tt, j') /\
    res_inv j' (l ++ Done (mk_entry ty id lv src) :: r) /\ seq j' = seq j /\ reservations j' = reservations j.
Proof.
  intros Hinv Hlen Href Hseq. destruct (ri_open _ _ Hinv) as (b & tail & Hb & Hbs & Hd).
  rewrite (with_res_data_spec j b) by done.
  pose proof (ri_placed _ _ Hinv) as Hp. apply placed_app in Hp as [_ [Hok _]].
  assert (put_words (data b) (used l + 1) src =
          Some (all_words (l ++ Done (mk_entry ty id lv src) :: r) ++ tail)) as E.
  { rewrite Hd, !all_words_app, <- !app_assoc.
    set (w := entry_header (mk_entry ty id lv old)).
    change (all_words (Done (mk_entry ty id lv old) :: r)) with (([w] ++ old) ++ all_words r).
    rewrite <- !app_assoc, (app_assoc (all_words l) [w]).
    replace (used l + 1) with (Z.of_nat (length (all_words l ++ [w]))) by (rewrite length_app; unfold used; cbn; lia).
    rewrite put_words_mid by done. unfold w, entry_header. cbn. rewrite ?Hlen, <- ?app_assoc. cbn. rewrite ?Hlen. unfold entry_header. cbn. by rewrite Hlen. }
  rewrite E. bind_simpl. eexists. split; [done|]. split; [|done].
  apply (edit_inv j l (Done (mk_entry ty id lv old)) r [Done (mk_entry ty id lv src)]); try done.
  - cbn. rewrite app_nil_r. by f_equal.
  - cbn. split; [|done]. destruct Hok as (? & ? & ? & ?). split_and!; try done. cbn in *. lia.
Qed.

(** An entry that fits in what is left of a reservation is written, and the
    reservation shrinks by it. *)
Lemma add_keys_inv j l h junk r e :
  res_inv j (l ++ Held h junk :: r) -> entry_ok e ->
  Z.of_nat (length (entry_words e)) <= res_u64s h ->
  exists j' h' junk', journal_add_keys j h (e_type e) (e_id e) (e_level e) (e_payload e) = Some (h', j') /\
    h' = shrink h (Z.of_nat (length (entry_words e))) /\
    res_inv j' (l ++ Done e :: Held h' junk' :: r) /\ seq j' = seq j.
Proof.
  intros Hinv He Hfit. destruct (inv_held _ _ _ _ _ Hinv) as (Href & Hseq & Hoff & Hlen).
  destruct junk as [|hd junk]; [cbn in Hlen, Hfit; lia|].
  rewrite <- (take_drop (length (e_payload e)) junk) in Hinv.
  set (junk1 := take (length (e_payload e)) junk) in *. set (junk2 := drop (length (e_payload e)) junk) in *.
  cbn in Hfit, Hlen.
  assert (length junk1 = length (e_payload e)) as H1 by (apply length_take_le; lia).
  destruct (add_entry_inv j l h hd junk1 junk2 r (e_type e) (e_id e) (e_level e) (Z.of_nat (length (e_payload e))) Hinv)
    as (j1 & E1 & Hinv1 & Hs1 & Hr1); [by rewrite H1|..].
  { destruct He as (? & ? & ? & ?). split_and!; try done. cbn. by rewrite H1. }
  unfold journal_add_keys. rewrite E1. bind_simpl.
  destruct (fill_inv j1 l (e_type e) (e_id e) (e_level e) junk1 (e_payload e)
              (Held (shrink h (Z.of_nat (length (e_payload e)) + 1)) junk2 :: r) h Hinv1)
    as (j2 & E2 & Hinv2 & Hs2 & Hr2); [done|done|by rewrite Hs1|].
  rewrite E2. bind_simpl. eexists _, _, _. split; [done|].
  replace (Z.of_nat (length (entry_words e))) with (Z.of_nat (length (e_payload e)) + 1) by (cbn; lia).
  split; [done|]. split; [by destruct e|congruence].
Qed.

(** The padding loop fills the rest of a reservation with empty entries. *)
Lemma res_pad_inv fuel j l h junk r :
  res_inv j (l ++ Held h junk :: r) -> fuel = length junk ->
  exists j' h', res_pad fuel j h = Some (h', j') /\
    ref_ h' = true /\ res_u64s h' = 0 /\ res_seq h' = res_seq h /\
    res_inv j' (l ++ map Done (replicate (length junk) pad) ++ Held h' [] :: r) /\
    seq j' = seq j /\ reservations j' = reservations j.
Proof.
  revert j l h junk. induction fuel as [|fuel IH]; intros j l h junk Hinv Hfuel;
    destruct (inv_held _ _ _ _ _ Hinv) as (Href & Hseq & Hoff & Hlen).
  { destruct junk; [|done]. exists j, h. cbn. by rewrite Hlen. }
  destruct junk as [|hd junk]; [done|]. cbn [res_pad]. cbn in Hlen.
  rewrite (proj2 (Z.eqb_neq _ _)) by lia.
  destruct (add_entry_inv j l h hd [] junk r BCH_JSET_ENTRY_btree_keys 0 0 0 Hinv) as (j1 & E1 & Hinv1 & Hs1 & Hr1);
    [done|apply pad_ok|].
  rewrite E1. bind_simpl.
  destruct (IH j1 (l ++ [Done pad]) (shrink h (0 + 1)) junk) as (j2 & h2 & E2 & Hr2' & Hu2 & Hq2 & Hinv2 & Hs2 & Hr2);
    [by rewrite <- app_assoc|by injection Hfuel|].
  exists j2, h2. rewrite E2. split_and!; try done; try congruence. by rewrite <- app_assoc in Hinv2.
Qed.

(** Releasing the reference of an exhausted reservation. *)
Lemma drop_inv j l h r v :
  res_inv j (l ++ Held h [] :: r) -> journal_state_dec (reservations j) (open_idx j) = Some v ->
  res_inv (set_reservations v j) (l ++ r).
Proof.
  intros Hinv Hv.
  assert (used (l ++ Held h [] :: r) = used (l ++ r)) as Hu by (rewrite !used_app, used_cons; cbn; lia).
  assert (length (held (l ++ Held h [] :: r)) = S (length (held (l ++ r)))) as Hh.
  { rewrite !held_app, !length_app. change (held (Held h [] :: r)) with (h :: held r). cbn [length]. lia. }
  rewrite (ri_word _ _ Hinv), word_dec in Hv; [|by apply inv_fields|apply open_idx_range|rewrite one_count_self; lia].
  injection Hv as <-. rewrite one_count_self, one_count_upd.
  destruct Hinv as [Hs Hw Hc Hus Hcap Hring Hdata Hopen Hp]. constructor; cbn; try done.
  - rewrite Hu, Hh. apply word_of_ext. intros k Hk. unfold one_count, open_idx. cbn. destruct (k =? _); lia.
  - lia.
  - by rewrite <- Hu.
  - destruct Hopen as (b & tail & Hb & Hbs & Hd). exists b, tail. split_and!; [done..|].
    rewrite Hd, !all_words_app. done.
  - apply placed_app in Hp as [Hl Hr]. apply placed_app. split; [done|]. cbn in Hr. destruct Hr as [_ Hr].
    by rewrite Z.add_0_r in Hr.
Qed.

(** Releasing a reservation never panics: what is left of its room becomes
    empty entries and its reference is given back. *)
Lemma res_put_inv j l h junk r :
  res_inv j (l ++ Held h junk :: r) ->
  exists h' j', bch2_journal_res_put j h = Some (h', j') /\ ref_ h' = false /\
    res_inv j' (l ++ map Done (replicate (length junk) pad) ++ r) /\ seq j' = seq j.
Proof.
  intros Hinv. destruct (inv_held _ _ _ _ _ Hinv) as (Href & Hseq & Hoff & Hlen).
  unfold bch2_journal_res_put. rewrite Href.
  destruct (res_pad_inv (Z.to_nat (res_u64s h)) j l h junk r Hinv) as (j1 & h1 & E1 & Hr1 & Hu1 & Hq1 & Hinv1 & Hs1 & Hw1);
    [rewrite Hlen; lia|].
  rewrite E1. bind_simpl.
  assert (Z.of_nat (buf_idx h1) = open_idx j1) as ->.
  { unfold buf_idx. rewrite land_mask, Hq1, Hseq. unfold open_idx. rewrite Hs1.
    pose proof (mod4_range (seq j)). lia. }
  rewrite app_assoc in Hinv1.
  destruct (journal_state_dec (reservations j1) (open_idx j1)) as [v|] eqn:Ev.
  - bind_simpl. eexists _, _. split; [done|]. split; [done|]. rewrite app_assoc. split; [by eapply drop_inv|done].
  - exfalso. rewrite (ri_word _ _ Hinv1), word_dec in Ev; [done|by apply inv_fields|apply open_idx_range|].
    rewrite one_count_self. lia.
Qed.

(** ** Closing the buffer *)

Lemma flush_guard_spec j ps : res_inv j ps -> flush_guard (reservations j) = true <-> held ps = [].
Proof.
  intros Hinv. unfold flush_guard. rewrite (inv_idx _ _ Hinv), (inv_count _ _ Hinv), Z.eqb_eq.
  destruct (held ps); cbn; [|split; [lia|done]]. split; [done|lia].
Qed.

(** The seven words in front of the payload. *)
Definition record_header (s u64s last_seq : Z) : list Z := [0; 0; JSET_MAGIC; s; 0; u64s; last_seq].

Lemma flush_record_spec j ps last_seq : res_inv j ps ->
  flush_record (reservations j) last_seq j =
  Some (record_header (seq j) (used ps) last_seq ++ all_words ps).
Proof.
  intros Hinv. unfold flush_record. rewrite (inv_idx _ _ Hinv), (inv_offset _ _ Hinv).
  destruct (ri_open _ _ Hinv) as (b & tail & Hb & Hbs & Hd). rewrite Hb. bind_simpl.
  rewrite Hbs, Z.eqb_refl. cbn [assert]. bind_simpl. rewrite Hd, length_app. unfold used.
  rewrite (proj2 (Z.leb_le _ _)) by lia. cbn [assert]. bind_simpl.
  by rewrite Nat2Z.id, take_app_length.
Qed.

(** Opening the next buffer, when nothing is held in the open one. *)
Lemma switch_buf_spec j ps : res_inv j ps -> held ps = [] ->
  exists r, switch_buf (reservations j) j = Some r /\
  match r with
  | inl err => err = -2 /\ seq j = JOURNAL_SEQ_MAX
  | inr j' => seq j' = seq j + 1 /\ cur_entry_u64s j' = cur_entry_u64s j /\ res_inv j' []
  end.
Proof.
  intros Hinv Hheld. pose proof (ri_seq _ _ Hinv) as Hs. pose proof (inv_fields _ _ Hinv) as Hf.
  rewrite Hheld in Hf. cbn [length Z.of_nat] in Hf. rewrite Z.add_0_r in Hf.
  assert (reservations j = word_of (used ps) (open_idx j) (one_count (open_idx j) 1)) as Hw.
  { by rewrite (ri_word _ _ Hinv), Hheld. }
  unfold switch_buf. rewrite (inv_idx _ _ Hinv), land_mask.
  destruct (Z.ltb_spec JOURNAL_SEQ_MAX (seq j + 1)); [exists (inl (-2)); split_and!; [done..|lia]|].
  pose proof (open_idx_range j) as Hi. pose proof (mod4_range (seq j + 1)) as Hn.
  set (n := (seq j + 1) mod 4) in *.
  assert (n <> open_idx j) as Hne by (unfold n, open_idx; Z.to_euclidean_division_equations; lia).
  rewrite Hw, word_count by done. unfold one_count at 1. rewrite (proj2 (Z.eqb_neq n _)) by done. cbn [negb Z.eqb].
  destruct (lookup_lt_is_Some_2 (ring j) (Z.to_nat n)) as [b Hb]; [rewrite (ri_ring _ _ Hinv); lia|].
  rewrite Hb. bind_simpl. rewrite word_dec by (done || rewrite one_count_self; lia). bind_simpl.
  rewrite one_count_self, one_count_upd. change (1 - 1) with 0.
  assert (fields_ok (used ps) (open_idx j) (one_count (open_idx j) 0)) as Hf0.
  { apply one_count_fields; [|done|lia]. pose proof (used_nonneg ps). pose proof (ri_used _ _ Hinv). lia. }
  rewrite word_set_idx, word_set_offset by (done || (word_tac; lia) || by apply (fields_idx _ (open_idx j))).
  assert (fields_ok 0 n (one_count n 0)) as Hfn by (apply one_count_fields; [rewrite buf_u64s_val|..]; lia).
  rewrite (word_of_ext _ _ (one_count (open_idx j) 0) (one_count n 0))
    by (intros k _; unfold one_count; by destruct (k =? _), (k =? _)).
  rewrite word_inc by done. rewrite one_count_self, one_count_upd. cbn [mbind option_bind Z.eqb].
  eexists. split; [done|]. cbn [seq cur_entry_u64s]. split_and!; [done..|].
  constructor; cbn; try done; try lia.
  - by apply (ri_cap _ _ Hinv).
  - rewrite length_insert. apply (ri_ring _ _ Hinv).
  - apply Forall_insert; [apply (ri_data _ _ Hinv)|]. cbn. rewrite length_replicate.
    apply (Forall_lookup_1 _ _ _ _ (ri_data _ _ Hinv) Hb).
  - eexists _, _. split_and!; [apply list_lookup_insert_eq; rewrite (ri_ring _ _ Hinv); unfold open_idx; cbn; lia|done|done].
Qed.

Lemma zero_data_length : Z.of_nat (length zero_data) = BUF_U64S.
Proof. unfold zero_data. rewrite length_replicate, buf_u64s_val. lia. Qed.

Lemma fresh_ring_data s : Forall (fun b => Z.of_nat (length (data b)) = BUF_U64S) (fresh_ring s).
Proof.
  unfold fresh_ring. apply List.Forall_map. cbn [data]. apply List.Forall_forall. intros i _. apply zero_data_length.
Qed.

Lemma fresh_state_word s : fresh_state s = word_of 0 (s mod 4) (one_count (s mod 4) 1).
Proof.
  unfold fresh_state. rewrite land_mask. pose proof (mod4_range s) as H.
  destruct (idx_cases _ H) as [-> | [-> | [-> | ->]]]; reflexivity.
Qed.

#[global] Opaque zero_data BUF_U64S.

(** The state that a new journal, a journal read from disk and a restored one
    start in. *)
Lemma fresh_inv s cap : 1 <= s <= JOURNAL_SEQ_MAX -> 0 <= cap <= BUF_U64S ->
  res_inv (mk_core (fresh_state s) s cap (fresh_ring s)) [].
Proof.
  intros Hs Hcap. constructor.
  - done.
  - unfold open_idx. cbn [seq reservations]. apply fresh_state_word.
  - cbn. lia.
  - change (used []) with 0. rewrite buf_u64s_val. lia.
  - done.
  - done.
  - apply fresh_ring_data.
  - pose proof (mod4_range s) as Hm. unfold open_idx. cbn [seq ring].
    exists (mk_buf zero_data s false), zero_data. split; [|done].
    unfold fresh_ring. rewrite land_mask.
    destruct (idx_cases _ Hm) as [-> | [-> | [-> | ->]]]; reflexivity.
  - done.
Qed.

Lemma core_default_inv : res_inv core_default [].
Proof.
  apply fresh_inv; [split; vm_compute; congruence|]. rewrite buf_u64s_val. unfold JSET_HEADER_U64S. lia.
Qed.

(** ** [journal_entry_empty] on a row of entries *)

Definition no_keys (e : entry) : bool :=
  negb ((e_type e =? BCH_JSET_ENTRY_btree_keys) && negb (Z.of_nat (length (e_payload e)) =? 0)).

Lemma entries_no_keys_rows es fuel pre : Forall entry_ok es -> (length es < fuel)%nat ->
  entries_no_keys fuel (pre ++ rows es) (Z.of_nat (length pre)) (Z.of_nat (length pre + length (rows es))) =
  forallb no_keys es.
Proof.
  revert fuel pre. induction es as [|e es IH]; intros fuel pre Hok Hfuel; (destruct fuel as [|fuel]; [lia|]);
    cbn [entries_no_keys].
  { by rewrite (proj2 (Z.ltb_ge _ _)) by (cbn; lia). }
  apply Forall_cons_1 in Hok as [He Hok]. cbn [length] in Hfuel.
  assert (rows (e :: es) = entry_words e ++ rows es) as -> by done.
  rewrite (proj2 (Z.ltb_lt _ _)) by (rewrite length_app; cbn; lia).
  rewrite Nat2Z.id. unfold word. rewrite app_nth2, Nat.sub_diag by lia. cbn [nth app entry_words].
  rewrite entry_header_type, entry_header_u64s by done. cbn [forallb]. unfold no_keys at 1.
  destruct ((e_type e =? BCH_JSET_ENTRY_btree_keys) && negb (Z.of_nat (length (e_payload e)) =? 0)); [done|].
  cbn [negb andb]. rewrite <- (IH fuel (pre ++ entry_words e)) by (done || lia).
  rewrite <- app_assoc. unfold jset_u64s. rewrite !length_app. cbn [length entry_words app].
  f_equal; [|rewrite length_app]; lia.
Qed.

Lemma rows_length es : (length es <= length (rows es))%nat.
Proof. induction es as [|e es IH]; [done|]. cbn. unfold rows in IH. rewrite length_app. lia. Qed.

Lemma entry_empty_record s last_seq es : Forall entry_ok es -> Z.of_nat (length (rows es)) < 2 ^ 32 ->
  journal_entry_empty (record_header s (Z.of_nat (length (rows es))) last_seq ++ rows es) =
  (s =? last_seq) && forallb no_keys es.
Proof.
  intros Hok Hlen. unfold journal_entry_empty. unfold word. cbn [record_header nth app].
  destruct (s =? last_seq); [|done]. cbn [negb andb]. rewrite Z.mod_small by lia.
  set (hdr := record_header s (Z.of_nat (length (rows es))) last_seq).
  change (_ :: _ :: _ :: _ :: _ :: _ :: _ :: rows es) with (hdr ++ rows es).
  replace (JSET_HEADER_U64S + Z.of_nat (length (rows es))) with (Z.of_nat (length hdr + length (rows es)))
    by (unfold hdr, JSET_HEADER_U64S; cbn [record_header length]; lia).
  change JSET_HEADER_U64S with (Z.of_nat (length hdr)).
  apply entries_no_keys_rows; [done|]. rewrite Nat2Z.id. pose proof (rows_length es). cbn. lia.
Qed.

(** ** The reservation protocol as a transition system

    Holders of reservations, the entries they have added to the open buffer
    and the records closed so far, each with the entries added to it.  A flush
    is not atomic: it loads the word, copies the words in use and later stores
    a word computed from the one it loaded, while reservations are taken,
    filled and released without [cycle_lock], which only keeps a second flush
    out.  [s_flush] is the word that a flush under way has loaded and the
    record it has copied.  [s_raced] is not in the program: it says that some
    flush stored, or closed its record, over a word that had changed since it
    was loaded. *)

Record jsys := mk_sys {
  s_core : jcore;
  s_holders : list journal_res;
  s_log : list entry;
  s_closed : list (list Z * list entry);
  s_flush : option (Z * option (list Z));
  s_raced : bool;
}.

Definition sys_init : jsys := mk_sys core_default [] [] [] None false.

Definition changed (j : jcore) (old : Z) : bool := negb (reservations j =? old).

Inductive jstep : jsys -> jsys -> Prop :=
  | step_get j hs log cl fl rc watermark flags u64s h j' :
      0 <= u64s < 2 ^ 16 ->
      journal_res_get_fast watermark flags (mk_res false false u64s 0 0) j = Some (true, h, j') ->
      jstep (mk_sys j hs log cl fl rc) (mk_sys j' (h :: hs) log cl fl rc)
  | step_add j hs log cl fl rc h hs' e h' j' :
      hs ≡ₚ h :: hs' -> entry_ok e ->
      journal_add_keys j h (e_type e) (e_id e) (e_level e) (e_payload e) = Some (h', j') ->
      jstep (mk_sys j hs log cl fl rc) (mk_sys j' (h' :: hs') (e :: log) cl fl rc)
  | step_put j hs log cl fl rc h hs' h' j' :
      hs ≡ₚ h :: hs' -> bch2_journal_res_put j h = Some (h', j') ->
      jstep (mk_sys j hs log cl fl rc) (mk_sys j' hs' log cl fl rc)
  | step_cap j hs log cl fl rc cap : 0 <= cap <= BUF_U64S ->
      jstep (mk_sys j hs log cl fl rc) (mk_sys (set_cur_entry_u64s cap j) hs log cl fl rc)
  | step_flush_load j hs log cl rc :
      flush_guard (reservations j) = true ->
      jstep (mk_sys j hs log cl None rc) (mk_sys j hs log cl (Some (reservations j, None)) rc)
  | step_flush_copy j hs log cl rc old last_seq r :
      flush_record old last_seq j = Some r ->
      jstep (mk_sys j hs log cl (Some (old, None)) rc) (mk_sys j hs log cl (Some (old, Some r)) rc)
  | step_flush_fail j hs log cl rc x :
      jstep (mk_sys j hs log cl (Some x) rc) (mk_sys j hs log cl None rc)
  | step_flush_full j hs log cl rc old r err :
      switch_buf old j = Some (inl err) ->
      jstep (mk_sys j hs log cl (Some (old, Some r)) rc) (mk_sys j hs log ((r, log) :: cl) None (rc || changed j old))
  | step_flush_store j hs log cl rc old r j' :
      switch_buf old j = Some (inr j') ->
      jstep (mk_sys j hs log cl (Some (old, Some r)) rc) (mk_sys j' hs [] ((r, log) :: cl) None (rc || changed j old)).

(** The entries a closed record holds: those added to it, and padding. *)
Definition record_of (r : list Z) (log : list entry) : Prop :=
  exists s last_seq es n, es ≡ₚ log ++ replicate n pad /\ Forall entry_ok es /\
    r = record_header s (Z.of_nat (length (rows es))) last_seq ++ rows es.

(** A flush under way has loaded the word of the pieces [ps0], in which nothing
    is held, and copied their words. *)
Definition flush_ok (j : jcore) (ps0 : list piece) (fl : option (Z * option (list Z))) : Prop :=
  match fl with
  | None => True
  | Some (old, rec) =>
      old = word_of (used ps0) (open_idx j) (one_count (open_idx j) 1) /\
      match rec with
      | None => True
      | Some r => exists last_seq, r = record_header (seq j) (used ps0) last_seq ++ all_words ps0
      end
  end.

Lemma flush_ok_seq j j' ps0 fl : seq j' = seq j -> flush_ok j ps0 fl -> flush_ok j' ps0 fl.
Proof. intros E. destruct fl as [[old rec]|]; [|done]. unfold flush_ok, open_idx. by rewrite E. Qed.

Definition sys_inv (s : jsys) : Prop :=
  (exists ps0 ps n, res_inv (s_core s) (ps0 ++ ps) /\ held ps0 = [] /\ held ps ≡ₚ s_holders s /\
     done_ (ps0 ++ ps) ≡ₚ s_log s ++ replicate n pad /\ flush_ok (s_core s) ps0 (s_flush s)) /\
  Forall (fun rl => record_of rl.1 rl.2) (s_closed s).

Lemma held_split ps h hs : held ps ≡ₚ h :: hs ->
  exists l junk r, ps = l ++ Held h junk :: r /\ held (l ++ r) ≡ₚ hs.
Proof.
  intros Hp. assert (h ∈ held ps) as Hin by (rewrite Hp; apply list_elem_of_here).
  apply list_elem_of_omap in Hin as ([e|h' junk] & Hin & E); [done|]. injection E as ->.
  apply list_elem_of_split in Hin as (l & r & ->). exists l, junk, r. split; [done|].
  rewrite held_app in Hp. change (held (Held h junk :: r)) with (h :: held r) in Hp.
  rewrite <- Permutation_middle, <- held_app in Hp. by apply Permutation_cons_inv in Hp.
Qed.

Lemma set_cap_inv j ps cap : res_inv j ps -> 0 <= cap <= BUF_U64S -> res_inv (set_cur_entry_u64s cap j) ps.
Proof. intros [] ?. by constructor. Qed.

Lemma add_keys_fits j l h junk r e h' j' : res_inv j (l ++ Held h junk :: r) ->
  journal_add_keys j h (e_type e) (e_id e) (e_level e) (e_payload e) = Some (h', j') ->
  Z.of_nat (length (entry_words e)) <= res_u64s h.
Proof.
  intros Hinv. unfold journal_add_keys, bch2_journal_add_entry.
  destruct (with_res_data j h _) as [[actual j1]|] eqn:E; [|done]. bind_simpl.
  unfold with_res_data in E. destruct (assert (ref_ h)); [|done]. cbn in E.
  destruct (ring j !! buf_idx h) as [b|]; [|done]. cbn in E.
  unfold journal_entry_init in E. destruct (put_words _ _ _); [|done]. cbn in E.
  destruct (uadd 16 _ 1) as [a|] eqn:Ea; [|done]. injection E as <- <-. apply uadd_Some in Ea as [_ ->].
  destruct (Z.leb_spec (Z.of_nat (length (e_payload e)) + 1) (res_u64s h)); [cbn; lia|done].
Qed.

(** Until the word changes, the pieces in front of it are all there are. *)
Lemma unchanged_nothing_new j ps0 ps : res_inv j (ps0 ++ ps) -> held ps0 = [] ->
  reservations j = word_of (used ps0) (open_idx j) (one_count (open_idx j) 1) -> ps = [].
Proof.
  intros Hinv H0 Hw. pose proof (used_nonneg ps0). pose proof (ri_used _ _ Hinv) as Hu. rewrite used_app in Hu.
  pose proof (used_nonneg ps).
  assert (fields_ok (used ps0) (open_idx j) (one_count (open_idx j) 1)) as Hf0
    by (apply one_count_fields; [lia|apply open_idx_range|lia]).
  pose proof (inv_offset _ _ Hinv) as Eo. rewrite Hw, (word_offset _ _ _ Hf0), used_app in Eo.
  pose proof (inv_count _ _ Hinv) as Ec. rewrite Hw, (word_count _ _ _ Hf0) in Ec by apply open_idx_range.
  rewrite one_count_self, held_app, H0 in Ec. cbn [app] in Ec.
  destruct ps as [|[e|h junk] ps]; [done|exfalso..].
  - rewrite used_cons in Eo. cbn [piece_words entry_words length] in Eo. pose proof (used_nonneg ps). lia.
  - change (held (Held h junk :: ps)) with (h :: held ps) in Ec. cbn [length] in Ec. lia.
Qed.

Lemma flush_copy_spec j ps0 ps last_seq : res_inv j (ps0 ++ ps) ->
  flush_record (word_of (used ps0) (open_idx j) (one_count (open_idx j) 1)) last_seq j =
  Some (record_header (seq j) (used ps0) last_seq ++ all_words ps0).
Proof.
  intros Hinv. pose proof (used_nonneg ps0). pose proof (ri_used _ _ Hinv) as Hu. rewrite used_app in Hu.
  pose proof (used_nonneg ps).
  assert (fields_ok (used ps0) (open_idx j) (one_count (open_idx j) 1)) as Hf0
    by (apply one_count_fields; [lia|apply open_idx_range|lia]).
  unfold flush_record. rewrite (word_idx _ _ _ Hf0), (word_offset _ _ _ Hf0).
  destruct (ri_open _ _ Hinv) as (b & tail & Hb & Hbs & Hd). rewrite Hb. bind_simpl.
  rewrite Hbs, Z.eqb_refl. cbn [assert]. bind_simpl. rewrite Hd, all_words_app, !length_app. unfold used.
  rewrite (proj2 (Z.leb_le _ _)) by lia. cbn [assert]. bind_simpl.
  by rewrite Nat2Z.id, <- app_assoc, take_app_length.
Qed.

(** A record closed over an unchanged word holds what was added. *)
Lemma closed_record_of j ps0 ps n log old r : res_inv j (ps0 ++ ps) -> held ps0 = [] ->
  done_ (ps0 ++ ps) ≡ₚ log ++ replicate n pad -> flush_ok j ps0 (Some (old, Some r)) -> changed j old = false ->
  ps = [] /\ reservations j = old /\ record_of r log.
Proof.
  intros Hinv H0 Hd [Hold [last_seq ->]] Hch. unfold changed in Hch. apply negb_false_iff, Z.eqb_eq in Hch.
  assert (ps = []) as -> by (apply (unchanged_nothing_new j ps0 ps Hinv H0); congruence).
  split; [done|]. split; [done|]. rewrite app_nil_r in *.
  unfold used. rewrite (all_words_done _ H0). exists (seq j), last_seq, (done_ ps0), n.
  split_and!; [done|by eapply done_ok, ri_placed|done].
Qed.

Lemma jstep_inv s s' : jstep s s' -> (s_raced s = false -> sys_inv s) -> s_raced s' = false -> sys_inv s'.
Proof.
  intros Hstep Hsys Hrc. destruct Hstep; cbn [s_core s_holders s_log s_closed s_flush s_raced] in *;
    try (apply orb_false_iff in Hrc as [Hrc Hch]); destruct (Hsys Hrc) as [(ps0 & ps & n & Hinv & Hz & Hh & Hd & Hfl) Hcl];
    cbn [s_core s_holders s_log s_closed s_flush s_raced] in *.
  - split; [|done]. destruct (attempt_spec j _ Hinv watermark flags (mk_res false false u64s 0 0)) as (b & _ & E); [done|].
    match goal with H : journal_res_get_fast _ _ _ _ = _ |- _ => unfold journal_res_get_fast in H; rewrite E in H; cbn in H;
      destruct (may_take j (ps0 ++ ps) watermark flags u64s) eqn:Em; [|done]; injection H as <- <- end.
    unfold may_take in Em. apply andb_prop in Em as [[E1 E2]%andb_prop E3].
    destruct (take_inv j _ Hinv (has_overwrites b) u64s) as [junk Hj]; [lia..|]. rewrite <- app_assoc in Hj.
    eexists ps0, _, n. split; [exact Hj|]. split; [done|].
    rewrite app_assoc, held_app, (done_app (ps0 ++ ps)), Hh, app_nil_r. split; [|done]. by rewrite Permutation_app_comm.
  - split; [|done]. match goal with H : hs ≡ₚ _ |- _ => rewrite H in Hh end.
    destruct (held_split _ _ _ Hh) as (l & junk & r & -> & Hh'). rewrite app_assoc in Hinv.
    match goal with H : journal_add_keys _ _ _ _ _ _ = _, He : entry_ok e |- _ =>
      pose proof (add_keys_fits _ _ _ _ _ _ _ _ Hinv H) as Hfit;
      destruct (add_keys_inv j _ h junk r e Hinv He Hfit) as (j2 & h2 & junk2 & E2 & Hh2 & Hinv2 & Hs2);
      rewrite E2 in H; injection H as -> -> end.
    rewrite <- app_assoc in Hinv2. exists ps0, (l ++ Done e :: Held h' junk2 :: r), n. split; [done|]. split; [done|].
    rewrite held_app in Hh' |- *. rewrite !done_app in *.
    change (held (Done e :: Held h' junk2 :: r)) with (h' :: held r).
    change (done_ (Done e :: Held h' junk2 :: r)) with (e :: done_ r).
    change (done_ (Held h junk :: r)) with (done_ r) in Hd.
    split; [by rewrite <- Permutation_middle, Hh'|]. split; [by rewrite <- !Permutation_middle, Hd|].
    by apply (flush_ok_seq j).
  - split; [|done]. match goal with H : hs ≡ₚ _ |- _ => rewrite H in Hh end.
    destruct (held_split _ _ _ Hh) as (l & junk & r & -> & Hh'). rewrite app_assoc in Hinv.
    destruct (res_put_inv j _ h junk r Hinv) as (h2 & j2 & E2 & _ & Hinv2 & Hs2).
    match goal with H : bch2_journal_res_put _ _ = _ |- _ => rewrite E2 in H; injection H as -> -> end.
    rewrite <- app_assoc in Hinv2.
    exists ps0, (l ++ map Done (replicate (length junk) pad) ++ r), (n + length junk)%nat. split; [done|]. split; [done|].
    rewrite !held_app, !done_app, held_map_done, done_map_done. rewrite held_app in Hh'. rewrite !done_app in Hd.
    change (done_ (Held h junk :: r)) with (done_ r) in Hd. split; [done|]. split.
    + rewrite replicate_add, (app_assoc log), <- Hd, <- !app_assoc.
      do 2 apply Permutation_app_head. apply Permutation_app_comm.
    + by apply (flush_ok_seq j).
  - split; [|done]. exists ps0, ps, n. split; [by apply set_cap_inv|done].
  - split; [|done]. match goal with H : flush_guard _ = true |- _ => apply (flush_guard_spec _ _ Hinv) in H as Hhe end.
    pose proof Hhe as Hhe'. rewrite held_app, Hz in Hhe'. cbn [app] in Hhe'.
    exists (ps0 ++ ps), [], n. rewrite !app_nil_r. split_and!; [done|done|cbn; by rewrite <- Hh, Hhe'|done|].
    split; [|done]. cbn [s_core]. by rewrite (ri_word _ _ Hinv), Hhe.
  - split; [|done]. exists ps0, ps, n. do 4 (split; [done|]). destruct Hfl as [-> _]. split; [done|].
    match goal with H : flush_record _ _ _ = _ |- _ => rewrite (flush_copy_spec _ _ _ _ Hinv) in H; injection H as <- end.
    by eexists.
  - split; [|done]. by exists ps0, ps, n.
  - destruct (closed_record_of _ _ _ _ _ _ _ Hinv Hz Hd Hfl Hch) as (-> & _ & Hrec).
    split; [by exists ps0, [], n|by apply Forall_cons_2].
  - destruct (closed_record_of _ _ _ _ _ _ _ Hinv Hz Hd Hfl Hch) as (-> & <- & Hrec).
    rewrite app_nil_r in Hinv. split; [|by apply Forall_cons_2].
    destruct (switch_buf_spec _ _ Hinv Hz) as (x & E & Hx).
    match goal with H : switch_buf _ _ = _ |- _ => rewrite E in H; injection H as -> end.
    destruct Hx as (_ & _ & Hinv'). by exists [], [], 0%nat.
Qed.

Lemma sys_reachable_inv s : rtc jstep sys_init s -> s_raced s = false -> sys_inv s.
Proof.
  intros H. assert (s_raced sys_init = false -> sys_inv sys_init) as Hi.
  { intros _. split; [|by constructor]. exists [], [], 0%nat. split; [apply core_default_inv|done]. }
  induction H; eauto using jstep_inv.
Qed.

(** A closed record of a reachable state parses into exactly the entries that
    were added to it, and padding: the words of every holder are in the record
    and nothing else is. *)
Lemma closed_record_parses s r log : sys_inv s -> (r, log) ∈ s_closed s ->
  exists n es, parse_entries (length r) (drop (Z.to_nat JSET_HEADER_U64S) r) = Some es /\
    es ≡ₚ log ++ replicate n pad.
Proof.
  intros [_ Hcl] Hin.
  apply list_elem_of_lookup_1 in Hin as [i Hi].
  destruct (Forall_lookup_1 _ _ _ _ Hcl Hi) as (sq & last_seq & es & n & Hp & Hok & E). cbn [fst snd] in E, Hp.
  exists n, es. split; [|done]. rewrite E.
  change (Z.to_nat JSET_HEADER_U64S) with (length (record_header sq (Z.of_nat (length (rows es))) last_seq)).
  rewrite drop_app_length. apply parse_rows; [done|]. rewrite length_app. pose proof (rows_length es). lia.
Qed.

Lemma held_above ps lo s k h : placed s lo ps -> held ps !! k = Some h -> lo <= res_offset h.
Proof.
  revert lo k. induction ps as [|[e|h' junk] ps IH]; intros lo k; [done|..]; cbn [placed]; intros [Hp Hps] H.
  - specialize (IH _ _ Hps H). lia.
  - destruct k as [|k]; [injection H as ->; lia|]. specialize (IH _ _ Hps H). lia.
Qed.

(** Two rooms of the row do not overlap. *)
Lemma held_disjoint ps lo s i k h1 h2 : placed s lo ps -> (i < k)%nat ->
  held ps !! i = Some h1 -> held ps !! k = Some h2 ->
  lo <= res_offset h1 /\ res_offset h1 + res_u64s h1 <= res_offset h2.
Proof.
  revert lo i k. induction ps as [|[e|h junk] ps IH]; intros lo i k; [done|..]; cbn [placed]; intros [Hp Hps] Hik.
  - change (held (Done e :: ps)) with (held ps). intros H1 H2. destruct (IH _ _ _ Hps Hik H1 H2). cbn in *. lia.
  - change (held (Held h junk :: ps)) with (h :: held ps). destruct k as [|k]; [lia|]. destruct i as [|i]; cbn.
    + intros [= ->] H2. destruct Hp as (Ho & Hl & _ & _). rewrite Ho. split; [lia|].
      rewrite Hl. by apply (held_above _ _ _ _ _ Hps H2).
    + intros H1 H2. destruct (IH _ i k Hps ltac:(lia) H1 H2). cbn in *. lia.
Qed.

Lemma held_below ps lo s h : placed s lo ps -> h ∈ held ps -> res_offset h + res_u64s h <= lo + used ps.
Proof.
  revert lo. induction ps as [|[e|h' junk] ps IH]; intros lo; [by intros _ ?%not_elem_of_nil|..];
    cbn [placed]; intros [Hp Hps] H; rewrite used_cons.
  - specialize (IH _ Hps H). lia.
  - change (held (Held h' junk :: ps)) with (h' :: held ps) in H. apply elem_of_cons in H as [->|H].
    + pose proof (used_nonneg ps). cbn. lia.
    + specialize (IH _ Hps H). lia.
Qed.

(** ** A reservation taken while a flush is under way *)

Lemma with_res_data_reservations {A} j h (f : list Z -> option (A * list Z)) x j' :
  with_res_data j h f = Some (x, j') -> reservations j' = reservations j.
Proof.
  unfold with_res_data. destruct (assert (ref_ h)); [|done]. cbn.
  destruct (ring j !! buf_idx h); [|done]. cbn. destruct (f _) as [[y ws]|]; [|done]. cbn. by intros [= <- <-].
Qed.

Lemma res_pad_keeps fuel j h h' j' : res_pad fuel j h = Some (h', j') ->
  reservations j' = reservations j /\ res_seq h' = res_seq h.
Proof.
  revert j h. induction fuel as [|fuel IH]; intros j h; cbn [res_pad]; [by intros [= <- <-]|].
  destruct (res_u64s h =? 0); [by intros [= <- <-]|].
  unfold bch2_journal_add_entry.
  destruct (with_res_data j h _) as [[actual j1]|] eqn:E; [|done]. cbn.
  apply with_res_data_reservations in E.
  destruct (assert _); [|done]. cbn. destruct (uadd 32 _ _); [|done]. cbn.
  intros [-> ->]%IH. done.
Qed.

Lemma switch_buf_word v w j : switch_buf v (set_reservations w j) = switch_buf v j.
Proof. done. Qed.

(** The front pieces alone, with the word that a flush has loaded. *)
Lemma prefix_inv j ps0 ps : res_inv j (ps0 ++ ps) -> held ps0 = [] ->
  res_inv (set_reservations (word_of (used ps0) (open_idx j) (one_count (open_idx j) 1)) j) ps0.
Proof.
  intros [Hs Hw Hc Hu Hcap Hring Hdata (b & tail & Hb & Hbs & Hd) Hp] H0.
  rewrite used_app in Hu. pose proof (used_nonneg ps). constructor; cbn [seq reservations cur_entry_u64s ring set_reservations]; try done.
  - by rewrite H0.
  - by rewrite H0.
  - lia.
  - exists b, (all_words ps ++ tail). split_and!; [done..|]. by rewrite Hd, all_words_app, app_assoc.
  - by apply placed_app in Hp as [Hp _].
Qed.

(** Once its buffer has been closed under it, releasing a reservation panics. *)
Lemma put_after_close_panics j2 h : res_inv j2 [] -> ref_ h = true -> res_seq h + 1 = seq j2 ->
  bch2_journal_res_put j2 h = None.
Proof.
  intros Hinv2 Href Hs2. unfold bch2_journal_res_put. rewrite Href.
  destruct (res_pad _ j2 _) as [[h' j']|] eqn:Ep; [|done]. cbn [mbind option_bind].
  apply res_pad_keeps in Ep as [Ev Eh]. unfold buf_idx. rewrite Eh, Ev.
  rewrite land_mask. pose proof (mod4_range (res_seq h)) as Hm. rewrite Z2Nat.id by lia.
  unfold journal_state_dec. rewrite (ri_word _ _ Hinv2), word_count; [|by apply inv_fields|done].
  unfold one_count. rewrite (proj2 (Z.eqb_neq (res_seq h mod 4) (open_idx j2))); [done|].
  unfold open_idx. rewrite <- Hs2. Z.to_euclidean_division_equations. lia.
Qed.

Lemma race_panics j ps0 ps old r j2 h : res_inv j (ps0 ++ ps) -> held ps0 = [] -> flush_ok j ps0 (Some (old, r)) ->
  switch_buf old j = Some (inr j2) -> h ∈ held ps -> bch2_journal_res_put j2 h = None.
Proof.
  intros Hinv H0 [-> _] Hsw Hin. pose proof (prefix_inv j ps0 ps Hinv H0) as Hinv0.
  destruct (switch_buf_spec _ _ Hinv0 H0) as (x & Hx & Hx2). cbn [reservations set_reservations] in Hx.
  rewrite switch_buf_word, Hsw in Hx. injection Hx as <-. destruct Hx2 as (Hs2 & _ & Hinv2).
  cbn [seq set_reservations] in Hs2.
  apply elem_of_Permutation in Hin as [hs' Hhs]. destruct (held_split _ _ _ Hhs) as (l & junk & rest & -> & _).
  rewrite app_assoc in Hinv. destruct (inv_held _ _ _ _ _ Hinv) as (Href & Hseq & _).
  apply put_after_close_panics; [done|done|lia].
Qed.

(** C5: in every state that reservations, entries, releases and flushes of
    several threads can reach, as long as no flush has stored its word over one
    that had changed since it loaded it: the word counts one reference for the
    open buffer and one per reservation held; the rooms of the reservations lie
    below the word's offset, inside the buffer (entries being limited to the
    size of a ring buffer), and do not overlap; and releasing any of them does
    not panic.  A flush that stores now, with the word it loaded earlier, makes
    the release of every reservation held panic: those are exactly the ones
    taken since it loaded the word. *)
Theorem journal_reservations_safe s : rtc jstep sys_init s -> s_raced s = false ->
  let v := reservations (s_core s) in
  journal_state_count v (journal_state_idx v) = 1 + Z.of_nat (length (s_holders s)) /\
  journal_state_offset v <= BUF_U64S /\
  (exists hs, hs ≡ₚ s_holders s /\ forall i k h1 h2, (i < k)%nat -> hs !! i = Some h1 -> hs !! k = Some h2 ->
     res_offset h1 + res_u64s h1 <= res_offset h2) /\
  (forall h, h ∈ s_holders s ->
    0 <= res_offset h /\ res_offset h + res_u64s h <= journal_state_offset v /\
    is_Some (bch2_journal_res_put (s_core s) h)) /\
  (forall old r j2 h, s_flush s = Some (old, r) -> switch_buf old (s_core s) = Some (inr j2) ->
    h ∈ s_holders s -> bch2_journal_res_put j2 h = None).
Proof.
  intros Hr Hrc v. destruct (sys_reachable_inv s Hr Hrc) as [(ps0 & ps & n & Hinv & Hz & Hh & _ & Hfl) _].
  assert (held (ps0 ++ ps) ≡ₚ s_holders s) as Hh0 by (by rewrite held_app, Hz).
  unfold v. rewrite (inv_idx _ _ Hinv), (inv_count _ _ Hinv), (inv_offset _ _ Hinv), Hh0.
  pose proof (ri_placed _ _ Hinv) as Hp. split; [done|]. split; [apply (ri_used _ _ Hinv)|]. split; [|split].
  - exists (held (ps0 ++ ps)). split; [done|]. intros i k h1 h2 Hik H1 H2. by apply (held_disjoint _ _ _ _ _ _ _ Hp Hik H1 H2).
  - intros h Hin. rewrite <- Hh0 in Hin. split_and!.
    + apply list_elem_of_lookup_1 in Hin as [i Hi]. by apply (held_above _ _ _ _ _ Hp Hi).
    + by apply (held_below _ _ _ _ Hp).
    + apply elem_of_Permutation in Hin as [hs' Hhs].
      destruct (held_split _ _ _ Hhs) as (l & junk & r & E & _). rewrite E in Hinv.
      destruct (res_put_inv _ _ _ _ _ Hinv) as (h' & j' & E' & _). by rewrite E'.
  - intros old r j2 h Efl Hsw Hin. rewrite Efl in Hfl. rewrite <- Hh in Hin.
    by apply (race_panics _ _ _ _ _ _ _ Hinv Hz Hfl Hsw Hin).
Qed.

Lemma get_default : exists h j', journal_res_get_fast 0 0 (mk_res false false 4 0 0) core_default = Some (true, h, j') /\
  exists junk, res_inv j' [Held h junk] /\ res_u64s h = 4 /\ seq j' = 1.
Proof.
  pose proof core_default_inv as Hinv.
  destruct (attempt_spec _ _ Hinv 0 0 (mk_res false false 4 0 0)) as (b & _ & E); [cbn; lia|].
  unfold journal_res_get_fast. rewrite E. cbn [res_u64s].
  assert (may_take core_default [] 0 0 4 = true) as ->.
  { unfold may_take. change (used []) with 0. unfold core_default. cbn [cur_entry_u64s].
    rewrite buf_u64s_val. reflexivity. }
  eexists _, _. split; [reflexivity|].
  destruct (take_inv core_default [] Hinv (has_overwrites b) 4) as [junk Hj];
    [lia|unfold core_default; cbn [cur_entry_u64s]; change (used []) with 0; rewrite buf_u64s_val; unfold JSET_HEADER_U64S; lia|cbn; lia|].
  cbn [app] in Hj. exists junk. split; [exact Hj|split; reflexivity].
Qed.

(** A flush loads the word of the empty journal, and a reservation is taken
    before it stores. *)
Lemma journal_reservations_safe_witness : exists s h j2, rtc jstep sys_init s /\ s_raced s = false /\ s_holders s = [h] /\
  journal_state_count (reservations (s_core s)) (journal_state_idx (reservations (s_core s))) = 2 /\
  is_Some (bch2_journal_res_put (s_core s) h) /\
  switch_buf (reservations core_default) (s_core s) = Some (inr j2) /\ bch2_journal_res_put j2 h = None.
Proof.
  destruct get_default as (h & j' & E & junk & Hj & _).
  set (s := mk_sys j' [h] [] [] (Some (reservations core_default, None)) false).
  assert (rtc jstep sys_init s) as Hr.
  { eapply rtc_l; [apply step_flush_load; by apply (flush_guard_spec _ _ core_default_inv)|].
    apply rtc_once. apply step_get with 0 0 4; [lia|exact E]. }
  destruct (journal_reservations_safe s Hr eq_refl) as (Hc & _ & _ & Hput & Hrace).
  destruct (switch_buf_spec _ _ core_default_inv) as ([err|j2] & Esw & Hx); [done|by destruct Hx|].
  assert (switch_buf (reservations core_default) j' = Some (inr j2)) as Esw'.
  { assert (exists w, j' = set_reservations w core_default) as [w ->].
    { unfold journal_res_get_fast, res_get_attempt in E. clear -E. unfold mbind, option_bind in E.
      repeat (case_match; try done); simplify_eq; eauto. }
    by rewrite switch_buf_word. }
  assert (h ∈ [h]) as Hin by apply list_elem_of_here.
  exists s, h, j2. split; [exact Hr|]. do 2 (split; [done|]). split; [exact Hc|].
  split; [by apply Hput|]. split; [exact Esw'|]. exact (Hrace _ _ _ h eq_refl Esw' Hin).
Defined.

(** C4: as long as no flush has stored its word, or closed its record, over a
    word that had changed since it loaded it, a record that a flush closed
    parses into exactly the entries that were added to the buffer while it was
    open, and empty padding: nothing of a released reservation is lost and no
    word of it is left uninitialised. *)
Theorem journal_closed_record_entries s r log : rtc jstep sys_init s -> s_raced s = false -> (r, log) ∈ s_closed s ->
  exists n es, parse_entries (length r) (drop (Z.to_nat JSET_HEADER_U64S) r) = Some es /\
    es ≡ₚ log ++ replicate n pad.
Proof. intros Hr Hrc. apply closed_record_parses. by apply sys_reachable_inv. Qed.

(** One entry of two words in a reservation of four: the flush closes a record
    with it and one empty entry for each word left. *)
Definition one_entry : entry := mk_entry BCH_JSET_ENTRY_btree_keys 3 0 [42].

Lemma one_entry_run : exists s r, rtc jstep sys_init s /\ s_raced s = false /\ (r, [one_entry]) ∈ s_closed s.
Proof.
  destruct get_default as (h & j1 & E1 & junk & Hj1 & Hu & Hs1).
  assert (entry_ok one_entry) as Hok by (by split_and!).
  destruct (add_keys_inv j1 [] h junk [] one_entry Hj1 Hok) as (j2 & h2 & junk2 & E2 & _ & Hj2 & Hs2); [rewrite Hu; cbn; lia|].
  destruct (res_put_inv j2 [Done one_entry] h2 junk2 [] Hj2) as (h3 & j3 & E3 & _ & Hj3 & Hs3).
  rewrite app_nil_r in Hj3. set (ps := [Done one_entry] ++ _) in Hj3.
  assert (held ps = []) as Hheld by (unfold ps; rewrite held_app, held_map_done; done).
  destruct (switch_buf_spec _ _ Hj3 Hheld) as ([err|j4] & E4 & Hx).
  { destruct Hx as [_ Hx]. rewrite Hs3, Hs2, Hs1 in Hx. vm_compute in Hx. done. }
  eexists (mk_sys j4 [] [] [(_, [one_entry])] None (false || changed j3 (reservations j3))), _.
  split; [|split; [unfold changed; cbn [s_raced]; by rewrite Z.eqb_refl|apply list_elem_of_here]].
  eapply rtc_l; [apply (step_get core_default [] [] [] None false 0 0 4 h j1); [lia|exact E1]|].
  eapply rtc_l; [exact (step_add j1 [h] [] [] None false h [] one_entry h2 j2 (Permutation_refl _) Hok E2)|].
  eapply rtc_l; [exact (step_put j2 [h2] [one_entry] [] None false h2 [] h3 j3 (Permutation_refl _) E3)|].
  eapply rtc_l; [apply (step_flush_load j3 [] [one_entry] [] false); by apply (flush_guard_spec _ _ Hj3)|].
  eapply rtc_l; [exact (step_flush_copy j3 [] [one_entry] [] false _ 1 _ (flush_record_spec _ _ 1 Hj3))|].
  apply rtc_once. exact (step_flush_store j3 [] [one_entry] [] false _ _ j4 E4).
Qed.

Lemma journal_closed_record_entries_witness : exists s r, rtc jstep sys_init s /\ (r, [one_entry]) ∈ s_closed s /\
  exists n es, parse_entries (length r) (drop (Z.to_nat JSET_HEADER_U64S) r) = Some es /\
    es ≡ₚ [one_entry] ++ replicate n pad.
Proof.
  destruct one_entry_run as (s & r & Hr & Hrc & Hin). exists s, r. split; [exact Hr|]. split; [exact Hin|].
  exact (journal_closed_record_entries s r [one_entry] Hr Hrc Hin).
Defined.

(** [journal_entry_empty] on a record made of a row of entries: it is true
    just when the record's sequence number is its [last_seq] and no entry
    carries btree keys. *)
Theorem journal_entry_empty_spec s last_seq es :
  Forall entry_ok es -> Z.of_nat (length (rows es)) < 2 ^ 32 ->
  journal_entry_empty (record_header s (Z.of_nat (length (rows es))) last_seq ++ rows es) =
  (s =? last_seq) && forallb no_keys es.
Proof. by apply entry_empty_record. Qed.

Lemma journal_entry_empty_spec_witness :
  journal_entry_empty (record_header 5 4 5 ++ rows [mk_entry 1 0 0 [7; 8]; pad]) = true.
Proof.
  refine (eq_trans (journal_entry_empty_spec 5 5 [mk_entry 1 0 0 [7; 8]; pad] _ _) _).
  - apply Forall_cons_2; [by split_and!|]. apply Forall_cons_2; [apply pad_ok|by constructor].
  - reflexivity.
  - reflexivity.
Defined.
