(* ===== verification/JournalSpace.v ===== *)
(** * Journal space

    The buckets of the journal device form a ring
    ([src/crates/subvol/src/journal.rs]): [discard_idx], [dirty_idx_ondisk],
    [dirty_idx] and [cur_idx] follow each other around it.  This file models the
    space accounting ([bch2_journal_dev_buckets_available],
    [bch2_journal_space_available], [bch2_journal_do_discards],
    [bch2_journal_set_watermark], [journal_entry_u64s_for_sectors]) and the
    step of [bch2_journal_flush] that moves to the next bucket, and shows that
    the ring order is kept and that the bucket moved to holds no record that a
    recovery still needs. *)

From S2P Require Import Prelude.
From S2P Require Import JournalRes.
From stdpp Require Import base tactics list numbers option relations.
From Stdlib Require Import ZArith Lia.

Open Scope Z_scope.

(** ** Data *)

Inductive journal_space_from :=
  | journal_space_discarded
  | journal_space_clean_ondisk
  | journal_space_clean
  | journal_space_total.

Record journal_space := mk_space { next_entry : Z; total : Z }.
Definition no_space : journal_space := mk_space 0 0.

Record journal_device := mk_dev {
  bucket_seq : list Z;
  sectors_free : Z;
  discard_idx : Z;
  dirty_idx_ondisk : Z;
  dirty_idx : Z;
  cur_idx : Z;
  nr : Z;
  buckets : list Z;
  highest_seq_found : Z;
}.

Definition dev_default : journal_device := mk_dev [] 0 0 0 0 0 0 [] 0.

Definition set_discard (v : Z) (d : journal_device) : journal_device :=
  mk_dev (bucket_seq d) (sectors_free d) v (dirty_idx_ondisk d) (dirty_idx d) (cur_idx d) (nr d) (buckets d) (highest_seq_found d).
Definition set_ondisk (v : Z) (d : journal_device) : journal_device :=
  mk_dev (bucket_seq d) (sectors_free d) (discard_idx d) v (dirty_idx d) (cur_idx d) (nr d) (buckets d) (highest_seq_found d).
Definition set_dirty (v : Z) (d : journal_device) : journal_device :=
  mk_dev (bucket_seq d) (sectors_free d) (discard_idx d) (dirty_idx_ondisk d) v (cur_idx d) (nr d) (buckets d) (highest_seq_found d).
Definition set_cur (v free : Z) (bs : list Z) (d : journal_device) : journal_device :=
  mk_dev bs free (discard_idx d) (dirty_idx_ondisk d) (dirty_idx d) v (nr d) (buckets d) (highest_seq_found d).
Definition set_written (free : Z) (bs : list Z) (h : Z) (d : journal_device) : journal_device :=
  mk_dev bs free (discard_idx d) (dirty_idx_ondisk d) (dirty_idx d) (cur_idx d) (nr d) (buckets d) h.

(** The fields of [struct journal] that the accounting reads and writes. *)
Record jspace := mk_jspace {
  device : journal_device;
  last_seq : Z;
  last_seq_ondisk : Z;
  spaces : list journal_space;
  flags : Z;
  watermark : Z;
  cur_entry_sectors : Z;
  cur_entry_error : Z;
  reclaim_kicked : bool;
}.

Definition set_device (d : journal_device) (s : jspace) : jspace :=
  mk_jspace d (last_seq s) (last_seq_ondisk s) (spaces s) (flags s) (watermark s) (cur_entry_sectors s)
    (cur_entry_error s) (reclaim_kicked s).

(** Where the geometry comes from: nothing when no superblock is attached. *)
Record geometry := mk_geom { g_bucket_size : Z; g_block_size : Z }.
Definition geometry_of (g : option geometry) : Z * Z :=
  match g with
  | None => (0, 1)
  | Some g => (g_bucket_size g, Z.max (g_block_size g) 1)
  end.

(** ** Constants *)

Definition JOURNAL_may_skip_flush : Z := 3.
Definition JOURNAL_med_on_space : Z := 5.
Definition JOURNAL_low_on_space : Z := 6.
Definition JOURNAL_low_on_pin : Z := 7.
Definition JOURNAL_PIN : Z := 32 * 1024.
Definition BCH_WATERMARK_stripe : Z := 0.
Definition BCH_WATERMARK_reclaim : Z := 5.

(** ** Saturating arithmetic of [u32] *)

Definition sat_add (a b : Z) : Z := Z.min (a + b) (MAX 32).
Definition sat_mul (a b : Z) : Z := Z.min (a * b) (MAX 32).
Definition sat_sub (a b : Z) : Z := Z.max (a - b) 0.

(** ** Sizes *)

Definition journal_entry_u64s_for_sectors (sectors : Z) : Z :=
  Z.min (sat_sub (sectors * 512 / 8) JSET_HEADER_U64S) JOURNAL_ENTRY_OFFSET_MAX.

Definition space_from (ja : journal_device) (from : journal_space_from) : option Z :=
  match from with
  | journal_space_discarded => Some (discard_idx ja)
  | journal_space_clean_ondisk => Some (dirty_idx_ondisk ja)
  | journal_space_clean => Some (dirty_idx ja)
  | journal_space_total => None
  end.

Definition bch2_journal_dev_buckets_available (ja : journal_device) (from : journal_space_from) : option Z :=
  if nr ja =? 0 then Some 0 else
  f ← space_from ja from;
  a ← uadd 32 f (nr ja);
  b ← usub a (cur_idx ja);
  c ← usub b 1;
  let available := c mod nr ja in
  Some (if negb (available =? 0) && (dirty_idx_ondisk ja =? dirty_idx ja) then available - 1 else available).

(** ** Watermarks *)

Definition set_flag (fl bit : Z) (value : bool) : Z :=
  if value then Z.lor fl (Z.shiftl 1 bit) else Z.ldiff fl (Z.shiftl 1 bit).

Definition bch2_journal_set_watermark (npins : Z) (s : jspace) : jspace :=
  let clean := total (nth 2 (spaces s) no_space) in
  let tot := total (nth 3 (spaces s) no_space) in
  let med_on_space := negb (tot =? 0) && (clean * 4 <=? tot * 3) in
  let low_on_space := negb (tot =? 0) && (clean * 4 <=? tot) in
  let low_on_pin := sat_sub JOURNAL_PIN npins <? JOURNAL_PIN / 4 in
  let fl := set_flag (flags s) JOURNAL_med_on_space med_on_space in
  let fl := set_flag fl JOURNAL_low_on_space low_on_space in
  let fl := set_flag fl JOURNAL_low_on_pin low_on_pin in
  mk_jspace (device s) (last_seq s) (last_seq_ondisk s) (spaces s) fl
    (if low_on_space || low_on_pin then BCH_WATERMARK_reclaim else BCH_WATERMARK_stripe)
    (cur_entry_sectors s) (cur_entry_error s) (reclaim_kicked s || med_on_space).

Definition journal_med_on_space (s : jspace) : bool :=
  negb (Z.land (flags s) (Z.shiftl 1 JOURNAL_med_on_space) =? 0).
Definition journal_low_on_space (s : jspace) : bool :=
  negb (Z.land (flags s) (Z.lor (Z.shiftl 1 JOURNAL_low_on_space) (Z.shiftl 1 JOURNAL_low_on_pin)) =? 0).

(** ** The ring loops

    A loop that moves an index forward around the ring while it is not at
    [stop] and the bucket it is at is older than [bound]; at most [nr] turns. *)

Fixpoint ring_advance (fuel : nat) (bs : list Z) (n stop bound idx : Z) : option Z :=
  if idx =? stop then Some idx else
  s ← bs !! Z.to_nat idx;
  if s <? bound then
    match fuel with
    | O => None
    | S fuel => i ← uadd 32 idx 1; ring_advance fuel bs n stop bound (i mod n)
    end
  else Some idx.

(** The first two loops of [bch2_journal_space_available]. *)
Definition advance_dirty (last_seq last_seq_ondisk : Z) (ja : journal_device) : option journal_device :=
  d ← ring_advance (Z.to_nat (nr ja)) (bucket_seq ja) (nr ja) (cur_idx ja) last_seq (dirty_idx ja);
  o ← ring_advance (Z.to_nat (nr ja)) (bucket_seq ja) (nr ja) d last_seq_ondisk (dirty_idx_ondisk ja);
  Some (set_ondisk o (set_dirty d ja)).

(** The space counted from one of the indices. *)
Definition space_of (ja : journal_device) (bucket_size aligned block_sectors : Z) (from : journal_space_from)
    : option journal_space :=
  b ← bch2_journal_dev_buckets_available ja from;
  let sectors := sectors_free ja / block_sectors * block_sectors in
  let '(b, sectors) := if (sectors <? bucket_size) && negb (b =? 0) then (b - 1, aligned) else (b, sectors) in
  Some (mk_space sectors (sat_add sectors (sat_mul b aligned))).

Definition bch2_journal_space_available (g : option geometry) (npins : Z) (s : jspace) : option jspace :=
  let ja := device s in
  if nr ja =? 0 then
    Some (bch2_journal_set_watermark npins
      (mk_jspace ja (last_seq s) (last_seq_ondisk s) (replicate 4 no_space) (flags s) (watermark s) 0 0
         (reclaim_kicked s)))
  else
    ja ← advance_dirty (last_seq s) (last_seq_ondisk s) ja;
    let '(bucket_size, block_sectors) := geometry_of g in
    let aligned := bucket_size / block_sectors * block_sectors in
    sp ← (if aligned =? 0 then Some (replicate 4 no_space) else
            sd ← space_of ja bucket_size aligned block_sectors journal_space_discarded;
            so ← space_of ja bucket_size aligned block_sectors journal_space_clean_ondisk;
            sc ← space_of ja bucket_size aligned block_sectors journal_space_clean;
            Some [sd; so; sc; mk_space aligned (sat_mul aligned (nr ja))]);
    let clean := total (nth 2 sp no_space) in
    let clean_ondisk := nth 1 sp no_space in
    let tot := total (nth 3 sp no_space) in
    let may_skip_flush :=
      (next_entry clean_ondisk <? total clean_ondisk) &&
      (sat_sub clean (total clean_ondisk) <=? tot / 8) && (clean <? sat_mul (total clean_ondisk) 2) in
    let discarded := nth 0 sp no_space in
    Some (bch2_journal_set_watermark npins
      (mk_jspace ja (last_seq s) (last_seq_ondisk s) sp (set_flag (flags s) JOURNAL_may_skip_flush may_skip_flush)
         (watermark s) (next_entry discarded) (if negb (next_entry discarded =? 0) then 0 else -9)
         (reclaim_kicked s))).

(** ** Discards *)

Fixpoint discard_loop (fuel : nat) (n stop idx : Z) : option Z :=
  if idx =? stop then Some idx else
  match fuel with
  | O => None
  | S fuel => i ← uadd 32 idx 1; _ ← assert (negb (n =? 0)); discard_loop fuel n stop (i mod n)
  end.

Definition bch2_journal_do_discards (s : jspace) : option jspace :=
  let ja := device s in
  i ← discard_loop (Z.to_nat (nr ja)) (nr ja) (dirty_idx_ondisk ja) (discard_idx ja);
  Some (set_device (set_discard i ja) s).

(** ** Moving to the next bucket

    The part of [bch2_journal_flush] that finds room for [sectors] sectors: the
    device, and whether it moved to a new bucket; [None] inside is the return
    of [-9]. *)
Definition journal_advance_bucket (bucket_size sectors seq : Z) (ja : journal_device)
    : option (option (journal_device * bool)) :=
  r ← (if (sectors_free ja <? sectors) && (sectors <=? bucket_size) then
         a ← bch2_journal_dev_buckets_available ja journal_space_discarded;
         if a =? 0 then Some (ja, false) else
         i ← uadd 32 (cur_idx ja) 1;
         let cur := i mod nr ja in
         _ ← assert (Z.to_nat cur <? length (bucket_seq ja))%nat;
         Some (set_cur cur bucket_size (<[Z.to_nat cur := seq]> (bucket_seq ja)) ja, true)
       else Some (ja, false));
  Some (if sectors_free (r.1) <? sectors then None else Some r).

(** What a finished write of [sectors] sectors changes. *)
Definition journal_written (sectors seq : Z) (ja : journal_device) : option journal_device :=
  f ← usub (sectors_free ja) sectors;
  _ ← assert (Z.to_nat (cur_idx ja) <? length (bucket_seq ja))%nat;
  Some (set_written f (<[Z.to_nat (cur_idx ja) := seq]> (bucket_seq ja)) seq ja).

(** ** The device after a scan of the disk

    The last part of [bch2_journal_read]: [highest] is the newest record found,
    with its bucket and the sectors used there. *)
Definition live_from (last_seq cur_seq : Z) : Z := if negb (last_seq =? 0) then last_seq else cur_seq.

Definition journal_read_device (bucket_size : Z) (bs bks : list Z) (highest : option (Z * Z * Z))
    (last_seq cur_seq : Z) : option journal_device :=
  let n := Z.of_nat (length bs) in
  '(cur, free, high) ← match highest with
                       | Some (s, bucket, used) => f ← usub bucket_size used; Some (bucket, f, s)
                       | None => Some (0, bucket_size, 0)
                       end;
  i ← uadd 32 cur 1;
  d ← ring_advance (length bs) bs n cur (live_from last_seq cur_seq) (i mod n);
  Some (mk_dev bs free d d d cur n bks high).

(** ** Distances around the ring *)

Definition dist (n a b : Z) : Z := (b - a) mod n.

Section Ring.
Context (n : Z) (Hn : 0 < n).

Lemma dist_range a b : 0 <= dist n a b < n.
Proof. by apply Z.mod_pos_bound. Qed.

Lemma dist_zero a b : 0 <= a < n -> 0 <= b < n -> dist n a b = 0 <-> a = b.
Proof.
  intros Ha Hb. unfold dist. split; [|intros ->; by rewrite Z.sub_diag, Z.mod_0_l by lia].
  intros H. apply Z.mod_divide in H as [k Hk]; [|lia].
  assert (k < 1 /\ -1 < k) by (split; nia). assert (k = 0) by lia. subst. lia.
Qed.

Lemma next_range i : 0 <= (i + 1) mod n < n.
Proof. by apply Z.mod_pos_bound. Qed.

Lemma dist_cases a b : 0 <= a < n -> 0 <= b < n -> dist n a b = if a <=? b then b - a else b - a + n.
Proof.
  intros Ha Hb. unfold dist. destruct (Z.leb_spec a b); [by rewrite Z.mod_small by lia|].
  rewrite <- (Z.mod_add _ 1) by lia. rewrite Z.mul_1_l. apply Z.mod_small. lia.
Qed.

Lemma next_cases i : 0 <= i < n -> (i + 1) mod n = if i + 1 =? n then 0 else i + 1.
Proof.
  intros Hi. destruct (Z.eqb_spec (i + 1) n) as [->|]; [by apply Z.mod_same; lia|]. apply Z.mod_small. lia.
Qed.

(** One step towards [b] brings [a] nearer. *)
Lemma dist_next_l a b : 0 <= a < n -> 0 <= b < n -> a <> b -> dist n ((a + 1) mod n) b = dist n a b - 1.
Proof.
  intros Ha Hb Hne. rewrite next_cases by done. destruct (Z.eqb_spec (a + 1) n);
    rewrite !dist_cases by lia; repeat (match goal with |- context [?x <=? ?y] => destruct (Z.leb_spec x y) end); lia.
Qed.

Lemma dist_next_r a b : 0 <= a < n -> 0 <= b < n -> dist n a b < n - 1 -> dist n a ((b + 1) mod n) = dist n a b + 1.
Proof.
  intros Ha Hb. rewrite next_cases by done. destruct (Z.eqb_spec (b + 1) n);
    rewrite !dist_cases by lia; repeat (match goal with |- context [?x <=? ?y] => destruct (Z.leb_spec x y) end); lia.
Qed.

(** [a], [b], [c] follow each other around the ring. *)
Definition ring_order (a b c : Z) : Prop := dist n a b + dist n b c = dist n a c.

Lemma ring_order_refl a b : 0 <= a < n -> ring_order a a b.
Proof. intros Ha. unfold ring_order. by rewrite (proj2 (dist_zero a a Ha Ha)). Qed.

(** The advancing loop ends, stays on the way to [stop], and passes only
    buckets older than the bound. *)
Lemma ring_advance_spec bs stop bound fuel idx :
  n < 2 ^ 32 -> Z.of_nat (length bs) = n -> 0 <= idx < n -> 0 <= stop < n -> dist n idx stop <= Z.of_nat fuel ->
  exists i, ring_advance fuel bs n stop bound idx = Some i /\ 0 <= i < n /\ ring_order idx i stop /\
    (i = stop \/ exists s, bs !! Z.to_nat i = Some s /\ bound <= s) /\
    (forall k, 0 <= k < n -> dist n idx k < dist n idx i -> exists s, bs !! Z.to_nat k = Some s /\ s < bound).
Proof.
  intros Hn32 Hlen. revert idx. induction fuel as [|fuel IH]; intros idx Hi Hs Hd; cbn [ring_advance].
  - assert (idx = stop) as ->.
    { apply dist_zero; [done..|]. pose proof (dist_range idx stop). lia. }
    rewrite Z.eqb_refl. exists stop. split_and!; [done|lia|lia|by apply ring_order_refl|by left|].
    intros k Hk. rewrite (proj2 (dist_zero stop stop Hs Hs)) by done. pose proof (dist_range stop k). lia.
  - destruct (Z.eqb_spec idx stop) as [->|Hne].
    { exists stop. split_and!; [done|lia|lia|by apply ring_order_refl|by left|].
      intros k Hk. rewrite (proj2 (dist_zero stop stop Hs Hs)) by done. pose proof (dist_range stop k). lia. }
    destruct (lookup_lt_is_Some_2 bs (Z.to_nat idx)) as [s Hsq]; [lia|]. rewrite Hsq. bind_simpl.
    destruct (Z.ltb_spec s bound) as [Hlt|Hge].
    + rewrite uadd_ok by lia. bind_simpl.
      pose proof (dist_next_l idx stop Hi Hs Hne) as Hnext.
      destruct (IH ((idx + 1) mod n)) as (i & E & Hir & Ho & Hend & Hpass); [apply next_range|done|lia|].
      assert (dist n idx i = dist n ((idx + 1) mod n) i + 1) as Hdi.
      { destruct (decide (idx = i)) as [<-|Hii].
        - unfold ring_order in Ho. pose proof (dist_range ((idx + 1) mod n) idx). lia.
        - rewrite (dist_next_l idx i) by done. lia. }
      exists i. split_and!; [done|lia|lia| |done|].
      { unfold ring_order in *. lia. }
      intros k Hk Hdk. destruct (decide (idx = k)) as [<-|Hkk]; [eauto|].
      apply Hpass; [done|]. rewrite (dist_next_l idx k) by done. lia.
    + exists idx. split_and!; [done|lia|lia|by apply ring_order_refl|eauto|].
      intros k Hk. rewrite (proj2 (dist_zero idx idx Hi Hi)) by done. pose proof (dist_range idx k). lia.
Qed.

Lemma discard_loop_spec stop fuel idx :
  n < 2 ^ 32 -> 0 <= idx < n -> 0 <= stop < n -> dist n idx stop <= Z.of_nat fuel ->
  discard_loop fuel n stop idx = Some stop.
Proof.
  intros Hn32. revert idx. induction fuel as [|fuel IH]; intros idx Hi Hs Hd; cbn [discard_loop];
    destruct (Z.eqb_spec idx stop) as [->|Hne]; try done.
  - exfalso. apply Hne, dist_zero; [done..|]. pose proof (dist_range idx stop). lia.
  - rewrite uadd_ok by lia. bind_simpl. rewrite (proj2 (Z.eqb_neq n 0)) by lia. cbn.
    apply IH; [apply next_range|done|]. rewrite dist_next_l by done. lia.
Qed.

End Ring.

Lemma dist_sum n a b c : 0 < n -> dist n a b + dist n b c < n -> dist n a c = dist n a b + dist n b c.
Proof.
  intros Hn H. pose proof (dist_range n Hn a b). pose proof (dist_range n Hn b c).
  rewrite <- (Z.mod_small (dist n a b + dist n b c) n) by lia.
  unfold dist. rewrite <- Z.add_mod by lia. f_equal. lia.
Qed.

Lemma dist_split n a b c : 0 < n -> dist n a b <= dist n a c -> dist n a c = dist n a b + dist n b c.
Proof.
  intros Hn H. pose proof (dist_range n Hn a b). pose proof (dist_range n Hn a c).
  assert (dist n b c = dist n a c - dist n a b); [|lia].
  rewrite <- (Z.mod_small (dist n a c - dist n a b) n) by lia.
  unfold dist. rewrite <- Zminus_mod. f_equal. lia.
Qed.

(** ** The invariant of the device

    [L] is [last_seq_ondisk]: a recovery needs no record before it. *)

Record ring_ok (ja : journal_device) (L : Z) : Prop := {
  ro_nr : 0 < nr ja < 2 ^ 31;
  ro_discard : 0 <= discard_idx ja < nr ja;
  ro_ondisk : 0 <= dirty_idx_ondisk ja < nr ja;
  ro_dirty : 0 <= dirty_idx ja < nr ja;
  ro_cur : 0 <= cur_idx ja < nr ja;
  ro_len : Z.of_nat (length (bucket_seq ja)) = nr ja;
  ro_order : dist (nr ja) (discard_idx ja) (dirty_idx_ondisk ja) +
             dist (nr ja) (dirty_idx_ondisk ja) (dirty_idx ja) +
             dist (nr ja) (dirty_idx ja) (cur_idx ja) < nr ja;
  ro_old : forall k, 0 <= k < nr ja ->
    dist (nr ja) (dirty_idx_ondisk ja) (cur_idx ja) < dist (nr ja) (dirty_idx_ondisk ja) k ->
    exists s, bucket_seq ja !! Z.to_nat k = Some s /\ s < L;
  ro_buckets : Forall (fun b => 0 <= b < 2 ^ 40) (buckets ja);
}.

Lemma ring_ok_mono ja L L' : L <= L' -> ring_ok ja L -> ring_ok ja L'.
Proof.
  intros HL [? ? ? ? ? ? ? Hold ?]. constructor; try done.
  intros k Hk Hd. destruct (Hold k Hk Hd) as (s & Hs & ?). exists s. split; [done|lia].
Qed.

Section Device.
Context (ja : journal_device) (L : Z) (Hok : ring_ok ja L).

Lemma ro_nr32 : 0 < nr ja /\ nr ja < 2 ^ 32.
Proof. pose proof (ro_nr _ _ Hok). change (2 ^ 31) with 2147483648 in *. change (2 ^ 32) with 4294967296. lia. Qed.

(** The distances from the four indices to [cur_idx]. *)
Lemma ro_dists :
  dist (nr ja) (dirty_idx_ondisk ja) (cur_idx ja) =
    dist (nr ja) (dirty_idx_ondisk ja) (dirty_idx ja) + dist (nr ja) (dirty_idx ja) (cur_idx ja) /\
  dist (nr ja) (discard_idx ja) (cur_idx ja) =
    dist (nr ja) (discard_idx ja) (dirty_idx_ondisk ja) + dist (nr ja) (dirty_idx_ondisk ja) (cur_idx ja).
Proof.
  destruct ro_nr32 as [Hn _]. pose proof (ro_order _ _ Hok) as Ho.
  pose proof (dist_range _ Hn (discard_idx ja) (dirty_idx_ondisk ja)).
  assert (dist (nr ja) (dirty_idx_ondisk ja) (cur_idx ja) =
    dist (nr ja) (dirty_idx_ondisk ja) (dirty_idx ja) + dist (nr ja) (dirty_idx ja) (cur_idx ja)) as E
    by (apply dist_sum; lia).
  split; [done|]. apply dist_sum; lia.
Qed.

Definition from_idx (from : journal_space_from) : Z :=
  match from with
  | journal_space_discarded => discard_idx ja
  | journal_space_clean_ondisk => dirty_idx_ondisk ja
  | _ => dirty_idx ja
  end.

(** The buckets between an index and [cur_idx], less the one kept back when
    nothing is dirty only in memory. *)
Lemma available_spec from : from <> journal_space_total ->
  exists a, bch2_journal_dev_buckets_available ja from = Some a /\ 0 <= a /\
    let d := nr ja - 1 - dist (nr ja) (from_idx from) (cur_idx ja) in
    a = (if negb (d =? 0) && (dirty_idx_ondisk ja =? dirty_idx ja) then d - 1 else d).
Proof.
  intros Hf. destruct ro_nr32 as [Hn Hn32]. pose proof (ro_nr _ _ Hok) as Hnr. pose proof (ro_cur _ _ Hok).
  assert (0 <= from_idx from < nr ja) as Hi.
  { destruct from; cbn; [apply (ro_discard _ _ Hok)|apply (ro_ondisk _ _ Hok)|apply (ro_dirty _ _ Hok)|done]. }
  unfold bch2_journal_dev_buckets_available. rewrite (proj2 (Z.eqb_neq _ _)) by lia.
  assert (space_from ja from = Some (from_idx from)) as -> by (by destruct from).
  bind_simpl. change (2 ^ 31) with 2147483648 in *.
  rewrite uadd_ok by (change (2 ^ 32) with 4294967296; lia). bind_simpl.
  rewrite usub_ok by lia. bind_simpl. rewrite usub_ok by lia. bind_simpl.
  assert ((from_idx from + nr ja - cur_idx ja - 1) mod nr ja = nr ja - 1 - dist (nr ja) (from_idx from) (cur_idx ja)) as ->.
  { rewrite dist_cases by done. destruct (Z.leb_spec (from_idx from) (cur_idx ja)).
    - rewrite Z.mod_small; lia.
    - rewrite <- (Z.mod_add _ (-1)) by lia. rewrite Z.mod_small; lia. }
  eexists. split; [done|]. cbn zeta. split; [|done].
  pose proof (dist_range _ Hn (from_idx from) (cur_idx ja)).
  destruct (Z.eqb_spec (nr ja - 1 - dist (nr ja) (from_idx from) (cur_idx ja)) 0); cbn [negb andb]; [lia|].
  destruct (_ =? _); lia.
Qed.

Lemma advance_dirty_ok last : exists ja', advance_dirty last L ja = Some ja' /\ ring_ok ja' L /\
  ja' = set_ondisk (dirty_idx_ondisk ja') (set_dirty (dirty_idx ja') ja) /\
  dist (nr ja) (dirty_idx_ondisk ja') (cur_idx ja) <= dist (nr ja) (dirty_idx_ondisk ja) (cur_idx ja).
Proof.
  destruct ro_nr32 as [Hn Hn32]. destruct ro_dists as [Hd1 Hd2].
  pose proof (ro_order _ _ Hok) as Ho.
  pose proof (dist_range _ Hn (discard_idx ja) (dirty_idx_ondisk ja)).
  pose proof (dist_range _ Hn (dirty_idx_ondisk ja) (dirty_idx ja)).
  unfold advance_dirty.
  destruct (ring_advance_spec _ Hn (bucket_seq ja) (cur_idx ja) last (Z.to_nat (nr ja)) (dirty_idx ja) Hn32)
    as (d & Ed & Hdr & Hdo & _); [apply (ro_len _ _ Hok)|apply (ro_dirty _ _ Hok)|apply (ro_cur _ _ Hok)| |].
  { pose proof (dist_range _ Hn (dirty_idx ja) (cur_idx ja)). lia. }
  rewrite Ed. bind_simpl. unfold ring_order in Hdo.
  pose proof (dist_range _ Hn d (cur_idx ja)). pose proof (dist_range _ Hn (dirty_idx ja) d).
  assert (dist (nr ja) (dirty_idx_ondisk ja) d = dist (nr ja) (dirty_idx_ondisk ja) (dirty_idx ja) + dist (nr ja) (dirty_idx ja) d)
    as Hod by (apply dist_sum; lia).
  destruct (ring_advance_spec _ Hn (bucket_seq ja) d L (Z.to_nat (nr ja)) (dirty_idx_ondisk ja) Hn32)
    as (o & Eo & Hor & Hoo & _ & Hpass); [apply (ro_len _ _ Hok)|apply (ro_ondisk _ _ Hok)|done| |].
  { lia. }
  rewrite Eo. bind_simpl. unfold ring_order in Hoo.
  pose proof (dist_range _ Hn (dirty_idx_ondisk ja) o). pose proof (dist_range _ Hn o d).
  assert (dist (nr ja) (discard_idx ja) o = dist (nr ja) (discard_idx ja) (dirty_idx_ondisk ja) + dist (nr ja) (dirty_idx_ondisk ja) o)
    as Hdo' by (apply dist_sum; lia).
  assert (dist (nr ja) o (cur_idx ja) = dist (nr ja) o d + dist (nr ja) d (cur_idx ja)) as Hoc by (apply dist_sum; lia).
  eexists. split; [done|]. split; [|split; [done|cbn; lia]].
  constructor; cbn; try apply Hok; try done; [lia|].
  intros k Hk Hkd. pose proof (dist_range _ Hn o k).
  destruct (Z.lt_ge_cases (dist (nr ja) (dirty_idx_ondisk ja) k) (dist (nr ja) (dirty_idx_ondisk ja) o)) as [Hlt|Hge].
  { by apply Hpass. }
  apply (ro_old _ _ Hok); [done|].
  assert (dist (nr ja) (dirty_idx_ondisk ja) k = dist (nr ja) (dirty_idx_ondisk ja) o + dist (nr ja) o k) as ->; [|lia].
  by apply dist_split.
Qed.

End Device.

Lemma do_discards_ok s L : ring_ok (device s) L ->
  bch2_journal_do_discards s = Some (set_device (set_discard (dirty_idx_ondisk (device s)) (device s)) s) /\
  ring_ok (set_discard (dirty_idx_ondisk (device s)) (device s)) L.
Proof.
  intros Hok. destruct (ro_nr32 _ _ Hok) as [Hn Hn32]. unfold bch2_journal_do_discards.
  rewrite discard_loop_spec; try done; [|apply (ro_discard _ _ Hok)|apply (ro_ondisk _ _ Hok)|].
  - split; [done|]. pose proof (ro_order _ _ Hok) as Ho. constructor; cbn; try apply Hok.
    rewrite (proj2 (dist_zero _ Hn _ _ (ro_ondisk _ _ Hok) (ro_ondisk _ _ Hok))) by done.
    pose proof (dist_range _ Hn (discard_idx (device s)) (dirty_idx_ondisk (device s))). lia.
  - pose proof (dist_range _ Hn (discard_idx (device s)) (dirty_idx_ondisk (device s))). lia.
Qed.

(** Moving to the next bucket keeps the order, and the bucket moved to holds
    nothing that a recovery needs. *)
Lemma advance_bucket_ok ja L bucket_size sectors seq : ring_ok ja L ->
  exists r, journal_advance_bucket bucket_size sectors seq ja = Some r /\
  match r with
  | None => sectors_free ja < sectors
  | Some (ja', adv) =>
      ring_ok ja' L /\ sectors <= sectors_free ja' /\
      if adv then
        cur_idx ja' = (cur_idx ja + 1) mod nr ja /\ nr ja' = nr ja /\
        bucket_seq ja' = <[Z.to_nat (cur_idx ja') := seq]> (bucket_seq ja) /\
        exists s, bucket_seq ja !! Z.to_nat (cur_idx ja') = Some s /\ s < L
      else ja' = ja
  end.
Proof.
  intros Hok. destruct (ro_nr32 _ _ Hok) as [Hn Hn32]. unfold journal_advance_bucket.
  destruct (Z.ltb_spec (sectors_free ja) sectors) as [Hlt|Hge]; cbn [andb]; last first.
  { bind_simpl. cbn [fst]. rewrite (proj2 (Z.ltb_ge _ _)) by lia. by eexists. }
  destruct (Z.leb_spec sectors bucket_size) as [Hle|Hgt]; cbn [andb]; last first.
  { bind_simpl. cbn [fst]. rewrite (proj2 (Z.ltb_lt _ _)) by lia. by eexists. }
  destruct (available_spec ja L Hok journal_space_discarded) as (a & Ea & Ha & Hav); [done|]. cbn zeta in Hav.
  rewrite Ea. bind_simpl. destruct (Z.eqb_spec a 0) as [|Hne].
  { bind_simpl. cbn [fst]. rewrite (proj2 (Z.ltb_lt _ _)) by lia. by eexists. }
  cbn [from_idx] in Hav. pose proof (ro_cur _ _ Hok) as Hc. rewrite uadd_ok by lia. bind_simpl.
  pose proof (next_range _ Hn (cur_idx ja)) as Hc'. pose proof (ro_len _ _ Hok) as Hlen.
  rewrite (proj2 (Nat.ltb_lt _ _)) by lia. cbn [assert]. bind_simpl. cbn [fst set_cur sectors_free].
  rewrite (proj2 (Z.ltb_ge _ _)) by lia. eexists. split; [done|].
  assert (dist (nr ja) (discard_idx ja) (cur_idx ja) < nr ja - 1) as Hroom.
  { revert Hav. pose proof (dist_range _ Hn (discard_idx ja) (cur_idx ja)).
    destruct (Z.eqb_spec (nr ja - 1 - dist (nr ja) (discard_idx ja) (cur_idx ja)) 0); cbn [negb andb]; lia. }
  destruct (ro_dists _ _ Hok) as [Hd1 Hd2].
  pose proof (dist_range _ Hn (discard_idx ja) (dirty_idx_ondisk ja)).
  pose proof (dist_range _ Hn (dirty_idx_ondisk ja) (dirty_idx ja)).
  assert (dist (nr ja) (dirty_idx ja) ((cur_idx ja + 1) mod nr ja) = dist (nr ja) (dirty_idx ja) (cur_idx ja) + 1) as Hn1
    by (apply dist_next_r; [done|apply (ro_dirty _ _ Hok)|done|lia]).
  assert (dist (nr ja) (dirty_idx_ondisk ja) ((cur_idx ja + 1) mod nr ja) = dist (nr ja) (dirty_idx_ondisk ja) (cur_idx ja) + 1) as Hn2
    by (apply dist_next_r; [done|apply (ro_ondisk _ _ Hok)|done|lia]).
  split_and!; [|done|done|done|done|]; cbn.
  - constructor; cbn; try apply Hok; try done; [by rewrite length_insert|lia|].
    intros k Hk Hkd. rewrite Hn2 in Hkd. rewrite list_lookup_insert_ne; [apply (ro_old _ _ Hok); [done|lia]|].
    intros E. assert (k = (cur_idx ja + 1) mod nr ja) as -> by lia. lia.
  - apply (ro_old _ _ Hok); [done|lia].
Qed.

Lemma written_ok ja L sectors seq : ring_ok ja L -> sectors <= sectors_free ja ->
  exists ja', journal_written sectors seq ja = Some ja' /\ ring_ok ja' L /\ cur_idx ja' = cur_idx ja /\
    nr ja' = nr ja /\ bucket_seq ja' = <[Z.to_nat (cur_idx ja) := seq]> (bucket_seq ja).
Proof.
  intros Hok Hfit. destruct (ro_nr32 _ _ Hok) as [Hn Hn32]. unfold journal_written.
  pose proof (ro_cur _ _ Hok) as Hc. pose proof (ro_len _ _ Hok) as Hlen.
  rewrite usub_ok by done. bind_simpl. rewrite (proj2 (Nat.ltb_lt _ _)) by lia. cbn [assert]. bind_simpl.
  eexists. split; [done|]. split; [|done]. constructor; cbn; try apply Hok; [by rewrite length_insert|].
  intros k Hk Hkd. rewrite list_lookup_insert_ne; [by apply (ro_old _ _ Hok)|].
  intros E. assert (k = cur_idx ja) as -> by lia. lia.
Qed.

(** ** The device that a scan leaves *)

Lemma read_device_ok bucket_size bs bks highest last cur_seq ja :
  0 < Z.of_nat (length bs) < 2 ^ 31 ->
  Forall (fun b => 0 <= b < 2 ^ 40) bks -> (forall s b u, highest = Some (s, b, u) -> 0 <= b < Z.of_nat (length bs)) ->
  journal_read_device bucket_size bs bks highest last cur_seq = Some ja ->
  ring_ok ja (live_from last cur_seq) /\ bucket_seq ja = bs.
Proof.
  intros Hn Hbk Hb. change (2 ^ 31) with 2147483648 in Hn. unfold journal_read_device.
  set (hd := match highest with Some _ => _ | None => _ end).
  destruct hd as [[[cur free] high]|] eqn:Eh; [|done]. bind_simpl.
  assert (0 <= cur < Z.of_nat (length bs)) as Hc.
  { destruct highest as [[[s b] u]|]; unfold hd in Eh; [|by injection Eh as <- <- <-; lia].
    destruct (usub bucket_size u); [|done]. injection Eh as <- <- <-. by eapply Hb. }
  rewrite uadd_ok by (change (2 ^ 32) with 4294967296; lia). bind_simpl.
  set (n := Z.of_nat (length bs)) in *. assert (0 < n) as Hn0 by lia.
  pose proof (next_range n Hn0 cur) as Hnext.
  destruct (ring_advance_spec n Hn0 bs cur (live_from last cur_seq) (length bs) ((cur + 1) mod n))
    as (d & Ed & Hd & Ho & _ & Hpass); [change (2 ^ 32) with 4294967296; lia|done|done|done| |].
  { pose proof (dist_range n Hn0 ((cur + 1) mod n) cur). lia. }
  rewrite Ed. bind_simpl. intros [= <-]. split; [|done].
  assert (forall x, 0 <= x < n -> dist n x x = 0) as Hzz by (intros x Hx; by apply dist_zero).
  pose proof (dist_range n Hn0 d cur). unfold ring_order in Ho.
  constructor; cbn; try done; [rewrite !Hzz by done; lia|].
  intros k Hk Hkd. apply Hpass; [done|].
  (* walking on from [cur] *)
  assert (dist n d k = dist n d cur + dist n cur k) as Hdk by (apply dist_split; lia).
  assert (k <> cur) as Hkc by (intros ->; lia).
  assert (dist n cur k <> 0) as Hck by (by rewrite dist_zero).
  assert (dist n ((cur + 1) mod n) k = dist n cur k - 1) as E1 by (apply dist_next_l; done || congruence).
  pose proof (dist_range n Hn0 d k). pose proof (dist_range n Hn0 ((cur + 1) mod n) d).
  destruct (decide (cur = d)) as [<-|Hcd].
  { assert (dist n ((cur + 1) mod n) cur = n - 1) as ->; [|pose proof (dist_range n Hn0 cur k); lia].
    rewrite next_cases by done. destruct (Z.eqb_spec (cur + 1) n); rewrite dist_cases by lia.
    - destruct (Z.leb_spec 0 cur); lia.
    - destruct (Z.leb_spec (cur + 1) cur); lia. }
  assert (dist n ((cur + 1) mod n) d = dist n cur d - 1) as E2 by (apply dist_next_l; done).
  assert (dist n cur d + dist n d cur = n) as E3.
  { rewrite !dist_cases by done. destruct (Z.leb_spec cur d), (Z.leb_spec d cur); lia. }
  lia.
Qed.

(** Four buckets, records 5 and 6 in the second and third. *)
Definition sample_dev : journal_device :=
  mk_dev [0; 5; 6; 0] 5 1 1 1 2 4 [10; 11; 12; 13] 6.

(** ** The space counted *)


(** Sectors counted from an index with [b] buckets ahead of the current one. *)
Definition raw_total (sec bucket_size aligned b : Z) : Z :=
  if (sec <? bucket_size) && negb (b =? 0) then b * aligned else sec + b * aligned.

Lemma sat_total x y : 0 <= x -> 0 <= y -> sat_add x (Z.min y (MAX 32)) = Z.min (x + y) (MAX 32).
Proof. intros. unfold sat_add, MAX. change (2 ^ 32) with 4294967296. lia. Qed.

Lemma raw_total_mono sec bs al b b' : 0 <= sec <= al -> 0 <= b <= b' ->
  raw_total sec bs al b <= raw_total sec bs al b'.
Proof.
  intros Hs Hb. unfold raw_total. destruct (Z.ltb_spec sec bs); cbn [andb]; [|nia].
  destruct (Z.eqb_spec b 0) as [->|], (Z.eqb_spec b' 0) as [->|]; cbn [negb]; nia.
Qed.

Lemma raw_total_bound sec bs al b n : 0 <= sec <= al -> 0 <= b <= n - 1 -> 0 <= raw_total sec bs al b <= al * n.
Proof. intros Hs Hb. unfold raw_total. destruct ((sec <? bs) && negb (b =? 0)); nia. Qed.

Lemma align_le a b k : 0 < k -> 0 <= a <= b -> 0 <= a / k * k <= b / k * k.
Proof.
  intros Hk Hab. pose proof (Z.div_le_mono a b k Hk ltac:(lia)). pose proof (Z.div_pos a k). nia.
Qed.

(** Counted from an index further back there is no more space. *)
Lemma available_mono ja L : ring_ok ja L ->
  exists bd bo bc, bch2_journal_dev_buckets_available ja journal_space_discarded = Some bd /\
    bch2_journal_dev_buckets_available ja journal_space_clean_ondisk = Some bo /\
    bch2_journal_dev_buckets_available ja journal_space_clean = Some bc /\ 0 <= bd <= bo /\ bo <= bc.
Proof.
  intros Hok. destruct (available_spec ja L Hok journal_space_discarded) as (bd & Ed & Hd & Hdv); [done|].
  destruct (available_spec ja L Hok journal_space_clean_ondisk) as (bo & Eo & Ho & Hov); [done|].
  destruct (available_spec ja L Hok journal_space_clean) as (bc & Ec & Hc & Hcv); [done|].
  cbn zeta in *. cbn [from_idx] in *. destruct (ro_dists _ _ Hok) as [H1 H2]. destruct (ro_nr32 _ _ Hok) as [Hn _].
  pose proof (dist_range _ Hn (discard_idx ja) (dirty_idx_ondisk ja)).
  pose proof (dist_range _ Hn (dirty_idx_ondisk ja) (dirty_idx ja)).
  pose proof (dist_range _ Hn (discard_idx ja) (cur_idx ja)).
  exists bd, bo, bc. split_and!; try done; subst bd bo bc;
    repeat (match goal with |- context [Z.eqb ?x 0] => destruct (Z.eqb_spec x 0) end); cbn [negb andb];
    destruct (dirty_idx_ondisk ja =? dirty_idx ja); lia.
Qed.

Section Count.
Context (ja : journal_device) (L bucket_size block : Z).
Context (Hok : ring_ok ja L) (Hblock : 0 < block) (Hfree : 0 <= sectors_free ja <= bucket_size).

Let al := bucket_size / block * block.
Let sec := sectors_free ja / block * block.

Lemma space_of_spec from : from <> journal_space_total ->
  exists sp b, space_of ja bucket_size al block from = Some sp /\
    bch2_journal_dev_buckets_available ja from = Some b /\ 0 <= b <= nr ja - 1 /\
    total sp = Z.min (raw_total sec bucket_size al b) (MAX 32) /\ 0 <= next_entry sp <= al.
Proof.
  intros Hf. destruct (available_spec ja L Hok from Hf) as (b & Eb & Hb & Hbd). cbn zeta in Hbd.
  destruct (ro_nr32 _ _ Hok) as [Hn _]. pose proof (dist_range _ Hn (from_idx ja from) (cur_idx ja)).
  assert (b <= nr ja - 1) as Hb1 by (revert Hbd; case_match; lia).
  pose proof (align_le _ _ _ Hblock Hfree) as Hs. fold al sec in Hs.
  unfold space_of. rewrite Eb. bind_simpl. fold sec.
  assert (forall x, 0 <= x -> sat_mul x al = Z.min (x * al) (MAX 32)) as Hm by done.
  unfold raw_total. destruct ((sec <? bucket_size) && negb (b =? 0)) eqn:E0.
  - pose proof E0 as [_ E]%andb_prop. apply negb_true_iff, Z.eqb_neq in E.
    eexists _, b. split_and!; [done..|lia|lia| |cbn; lia|cbn; lia].
    cbn [total]. rewrite E0, Hm, sat_total by nia. f_equal. ring.
  - eexists _, b. split_and!; [done..|lia|lia| |cbn; lia|cbn; lia].
    cbn [total]. by rewrite E0, Hm, sat_total by nia.
Qed.

End Count.

Lemma set_watermark_keeps npins s :
  let s' := bch2_journal_set_watermark npins s in
  device s' = device s /\ spaces s' = spaces s /\ cur_entry_sectors s' = cur_entry_sectors s /\
  cur_entry_error s' = cur_entry_error s /\ last_seq s' = last_seq s /\ last_seq_ondisk s' = last_seq_ondisk s.
Proof. done. Qed.

Lemma space_counts ja L bucket_size block : ring_ok ja L -> 0 < block ->
  0 <= sectors_free ja <= bucket_size ->
  let al := bucket_size / block * block in
  exists d o c, space_of ja bucket_size al block journal_space_discarded = Some d /\
    space_of ja bucket_size al block journal_space_clean_ondisk = Some o /\
    space_of ja bucket_size al block journal_space_clean = Some c /\
    0 <= total d <= total o /\ total o <= total c <= sat_mul al (nr ja) /\ 0 <= next_entry d <= al.
Proof.
  intros Hok Hblock Hfree al.
  destruct (available_mono ja L Hok) as (bd & bo & bc & Ed & Eo & Ec & Hdo & Hoc).
  destruct (space_of_spec ja L bucket_size block Hok Hblock Hfree journal_space_discarded) as (d & bd' & Esd & Ebd & Hbd & Htd & Hnd); [done|].
  destruct (space_of_spec ja L bucket_size block Hok Hblock Hfree journal_space_clean_ondisk) as (o & bo' & Eso & Ebo & Hbo & Hto & _); [done|].
  destruct (space_of_spec ja L bucket_size block Hok Hblock Hfree journal_space_clean) as (c & bc' & Esc & Ebc & Hbc & Htc & _); [done|].
  assert (bd' = bd) as -> by congruence. assert (bo' = bo) as -> by congruence. assert (bc' = bc) as -> by congruence.
  pose proof (align_le _ _ _ Hblock Hfree) as Hs. fold al in Hs, Htd, Hto, Htc.
  exists d, o, c. split_and!; try done; rewrite ?Htd, ?Hto, ?Htc.
  - pose proof (raw_total_bound _ bucket_size _ bd (nr ja) Hs ltac:(lia)).
    unfold MAX. change (2 ^ 32) with 4294967296. lia.
  - pose proof (raw_total_mono _ bucket_size _ bd bo Hs ltac:(lia)). lia.
  - pose proof (raw_total_mono _ bucket_size _ bo bc Hs ltac:(lia)). lia.
  - pose proof (raw_total_bound _ bucket_size _ bc (nr ja) Hs ltac:(lia)). unfold sat_mul. lia.
  - lia.
  - lia.
Qed.

Lemma space_available_ok g npins s :
  ring_ok (device s) (last_seq_ondisk s) -> 0 <= sectors_free (device s) <= g_bucket_size g ->
  exists s', bch2_journal_space_available (Some g) npins s = Some s' /\
    ring_ok (device s') (last_seq_ondisk s) /\ last_seq s' = last_seq s /\ last_seq_ondisk s' = last_seq_ondisk s /\
    exists d o c t, spaces s' = [d; o; c; t] /\
      0 <= total d <= total o /\ total o <= total c <= total t /\
      cur_entry_sectors s' = next_entry d /\ 0 <= next_entry d <= g_bucket_size g /\
      (cur_entry_error s' = 0 <-> 0 < cur_entry_sectors s').
Proof.
  intros Hok Hfree. unfold bch2_journal_space_available.
  destruct (ro_nr32 _ _ Hok) as [Hn _]. rewrite (proj2 (Z.eqb_neq _ _)) by lia.
  destruct (advance_dirty_ok _ _ Hok (last_seq s)) as (ja & Ej & Hok' & Eja & _). rewrite Ej. bind_simpl.
  cbn [geometry_of]. set (block := Z.max (g_block_size g) 1). assert (0 < block) as Hblock by lia.
  assert (sectors_free ja = sectors_free (device s)) as Ef by (rewrite Eja; done). rewrite <- Ef in Hfree.
  set (al := g_bucket_size g / block * block).
  assert (0 <= al <= g_bucket_size g) as Hal.
  { pose proof (align_le _ _ _ Hblock Hfree). unfold al. split; [lia|].
    rewrite Z.mul_comm. apply Z.mul_div_le. done. }
  destruct (Z.eqb_spec al 0) as [Ez|Enz].
  - bind_simpl. eexists. split; [reflexivity|]. cbn. split_and!; [done..|].
    exists no_space, no_space, no_space, no_space. cbn. split_and!; try done; lia.
  - destruct (space_counts ja _ _ _ Hok' Hblock Hfree) as (d & o & c & Ed & Eo & Ec & H1 & H2 & H3).
    fold al in Ed, Eo, Ec, H2, H3. rewrite Ed, Eo, Ec. bind_simpl. eexists. split; [reflexivity|].
    split_and!; [done..|]. exists d, o, c, (mk_space al (sat_mul al (nr ja))).
    cbn [nth bch2_journal_set_watermark spaces cur_entry_sectors cur_entry_error total].
    split_and!; try done; try lia.
    destruct (Z.eqb_spec (next_entry d) 0); cbn [negb]; lia.
Qed.

(** on a device whose ring is in order the accounting does not panic, keeps
    the ring in order, and the space counted after discards is at most the
    space clean on disk, that at most the space clean in memory, and that at
    most the whole journal; an entry may be opened just when room for one
    sector is left. *)
Theorem journal_space_ordered g npins s :
  ring_ok (device s) (last_seq_ondisk s) -> 0 <= sectors_free (device s) <= g_bucket_size g ->
  exists s', bch2_journal_space_available (Some g) npins s = Some s' /\
    ring_ok (device s') (last_seq_ondisk s) /\ last_seq s' = last_seq s /\ last_seq_ondisk s' = last_seq_ondisk s /\
    exists d o c t, spaces s' = [d; o; c; t] /\
      0 <= total d <= total o /\ total o <= total c <= total t /\
      cur_entry_sectors s' = next_entry d /\ 0 <= next_entry d <= g_bucket_size g /\
      (cur_entry_error s' = 0 <-> 0 < cur_entry_sectors s').
Proof. apply space_available_ok. Qed.

Definition sample_space : jspace := mk_jspace sample_dev 6 5 (replicate 4 no_space) 0 0 0 0 false.

Lemma sample_ring : ring_ok sample_dev 5.
Proof.
  apply (read_device_ok 8 [0; 5; 6; 0] [10; 11; 12; 13] (Some (6, 2, 3)) 5 7); [done| | |reflexivity]; [by repeat (apply Forall_cons_2; [lia|])|].
  intros s b u [= <- <- <-]. cbn. lia.
Qed.

Lemma journal_space_ordered_witness :
  exists s', bch2_journal_space_available (Some (mk_geom 8 1)) 1 sample_space = Some s' /\
    ring_ok (device s') 5.
Proof.
  destruct (journal_space_ordered (mk_geom 8 1) 1 sample_space sample_ring) as (s' & E & Hr & _); [cbn; lia|].
  exists s'. split; [exact E|exact Hr].
Defined.

Lemma journal_cap_le sectors : 0 <= sectors ->
  sectors <= 2048 -> journal_entry_u64s_for_sectors sectors + JSET_HEADER_U64S <= BUF_U64S.
Proof.
  intros Hs. unfold journal_entry_u64s_for_sectors, sat_sub, JSET_HEADER_U64S, JOURNAL_ENTRY_OFFSET_MAX.
  rewrite buf_u64s_val. change (2 ^ 22) with 4194304.
  replace (sectors * 512) with (sectors * 64 * 8) by lia. rewrite Z.div_mul by lia. lia.
Qed.

(** the largest reservation offset that [journal_entry_u64s_for_sectors]
    allows stays inside a buffer of the ring just when the entry has at most
    2048 sectors. *)
Theorem journal_entry_cap sectors : 0 <= sectors ->
  journal_entry_u64s_for_sectors sectors + JSET_HEADER_U64S <= BUF_U64S <-> sectors <= 2048.
Proof.
  intros Hs. unfold journal_entry_u64s_for_sectors, sat_sub, JSET_HEADER_U64S, JOURNAL_ENTRY_OFFSET_MAX.
  rewrite buf_u64s_val. change (2 ^ 22) with 4194304.
  replace (sectors * 512) with (sectors * 64 * 8) by lia. rewrite Z.div_mul by lia. lia.
Qed.

Lemma journal_entry_cap_witness : BUF_U64S < journal_entry_u64s_for_sectors 4096 + JSET_HEADER_U64S.
Proof.
  apply Z.nle_gt. intros H. apply (proj1 (journal_entry_cap 4096 ltac:(lia))) in H. lia.
Defined.
