(* ===== verification/JournalPins.v ===== *)
(** * Journal pins

    A pin keeps a journal entry from being reclaimed until the data it
    describes has been written ([src/crates/subvol/src/journal.rs]).  One list
    per sequence number from [front] to the open entry counts what still needs
    the entry: its pins, the open entry's own reference and, after a restart,
    the reference of an entry not replayed yet.

    Addresses of pins are integers and the pins themselves a finite map, as
    they are embedded in the nodes of the btree.  The theorems show that the
    counts are exact, that [last_seq] never passes an entry that is pinned,
    open or not replayed, and that the operations do not panic. *)

From S2P Require Import Prelude.
From S2P Require Import JournalSpace.
From stdpp Require Import base tactics list numbers option gmap relations.
From Stdlib Require Import ZArith Lia.

Open Scope Z_scope.

(** ** Data *)

Inductive journal_pin_type :=
  | JOURNAL_PIN_TYPE_btree3
  | JOURNAL_PIN_TYPE_btree2
  | JOURNAL_PIN_TYPE_btree1
  | JOURNAL_PIN_TYPE_btree0
  | JOURNAL_PIN_TYPE_key_cache
  | JOURNAL_PIN_TYPE_other.

Definition JOURNAL_PIN_TYPE_NR : nat := 6.

Definition pin_type_idx (t : journal_pin_type) : nat :=
  match t with
  | JOURNAL_PIN_TYPE_btree3 => 0
  | JOURNAL_PIN_TYPE_btree2 => 1
  | JOURNAL_PIN_TYPE_btree1 => 2
  | JOURNAL_PIN_TYPE_btree0 => 3
  | JOURNAL_PIN_TYPE_key_cache => 4
  | JOURNAL_PIN_TYPE_other => 5
  end.

(** The flush callbacks are told apart by their addresses: the two of a btree
    node's write slots, and others. *)
Inductive flush_fn := bch2_btree_node_flush0 | bch2_btree_node_flush1 | flush_other (id : nat).

Record journal_entry_pin := mk_pin { pin_seq : Z; pin_flush : option flush_fn }.

Record journal_entry_pin_list := mk_list {
  count : Z;
  unflushed : list (list Z);
  flushed : list Z;
  unreplayed : bool;
}.

Definition journal_pin_list_init (n : Z) : journal_entry_pin_list := mk_list n (replicate 6 []) [] false.

(** The fields of [struct journal] behind the pin lock, with the pins. *)
Record jpins := mk_pins {
  front : Z;
  lists : list journal_entry_pin_list;
  pins : gmap Z journal_entry_pin;
  flush_in_progress : Z;
  flush_in_progress_dropped : bool;
}.

Definition set_lists (l : list journal_entry_pin_list) (p : jpins) : jpins :=
  mk_pins (front p) l (pins p) (flush_in_progress p) (flush_in_progress_dropped p).
Definition set_pins (m : gmap Z journal_entry_pin) (p : jpins) : jpins :=
  mk_pins (front p) (lists p) m (flush_in_progress p) (flush_in_progress_dropped p).
Definition set_dropped (b : bool) (p : jpins) : jpins :=
  mk_pins (front p) (lists p) (pins p) (flush_in_progress p) b.
Definition set_in_progress (a : Z) (b : bool) (p : jpins) : jpins :=
  mk_pins (front p) (lists p) (pins p) a b.

Definition journal_pin_active (p : journal_entry_pin) : bool := negb (pin_seq p =? 0).

(** A pin of a node's write slot is filed under the node's level; [level] is
    the level of the node that embeds the pin at an address. *)
Definition journal_pin_type_of (level : Z -> Z) (pin : Z) (f : flush_fn) : journal_pin_type :=
  match f with
  | flush_other _ => JOURNAL_PIN_TYPE_other
  | _ => if level pin =? 0 then JOURNAL_PIN_TYPE_btree0
         else if level pin =? 1 then JOURNAL_PIN_TYPE_btree1
         else if level pin =? 2 then JOURNAL_PIN_TYPE_btree2
         else JOURNAL_PIN_TYPE_btree3
  end.

(** ** Lists *)

Definition retain_not (pin : Z) (l : list Z) : list Z := filter (fun c => c <> pin) l.

(** A pin taken out of its list. *)
Definition list_drop_pin (pin : Z) (l : journal_entry_pin_list) : option journal_entry_pin_list :=
  _ ← assert (negb (count l =? 0));
  Some (mk_list (count l - 1) (map (retain_not pin) (unflushed l)) (retain_not pin (flushed l)) (unreplayed l)).

Definition list_add_pin (t : nat) (pin : Z) (l : journal_entry_pin_list) : option journal_entry_pin_list :=
  c ← uadd 32 (count l) 1;
  Some (mk_list c (alter (fun ps => ps ++ [pin]) t (unflushed l)) (flushed l) (unreplayed l)).

(** The list of a sequence number, replaced by [f] of it; a number outside of
    the window panics. *)
Definition at_seq (s : Z) (f : journal_entry_pin_list -> option journal_entry_pin_list) (p : jpins) : option jpins :=
  _ ← assert (front p <=? s);
  let i := Z.to_nat (s - front p) in
  l ← lists p !! i;
  l' ← f l;
  Some (set_lists (<[i := l']> (lists p)) p).

(** ** Pinning *)

Definition pin_set_lists (level : Z -> Z) (new_seq pin : Z) (f : flush_fn) (p : jpins) : option jpins :=
  q ← pins p !! pin;
  let p := if journal_pin_active q && (flush_in_progress p =? pin) then set_dropped true p else p in
  p ← (if journal_pin_active q then at_seq (pin_seq q) (list_drop_pin pin) p else Some p);
  p ← at_seq new_seq (list_add_pin (pin_type_idx (journal_pin_type_of level pin f)) pin) p;
  Some (set_pins (<[pin := mk_pin new_seq (Some f)]> (pins p)) p).

(** [bch2_journal_pin_drop] of an active pin, up to the update of
    [last_seq]. *)
Definition pin_drop_lists (pin : Z) (p : jpins) : option jpins :=
  q ← pins p !! pin;
  p ← at_seq (pin_seq q) (list_drop_pin pin) p;
  let p := if flush_in_progress p =? pin then set_dropped true p else p in
  Some (set_pins (<[pin := mk_pin 0 (pin_flush q)]> (pins p)) p).

(** ** Advancing [last_seq] *)

Fixpoint pop_done (seq_ondisk s : Z) (l : list journal_entry_pin_list) : Z * list journal_entry_pin_list :=
  match l with
  | [] => (s, l)
  | x :: l' => if (s <=? seq_ondisk) && (count x =? 0) then pop_done seq_ondisk (s + 1) l' else (s, l)
  end.

(** The pins together with the space accounting they drive. *)
Record jmeta := mk_meta { jp : jpins; js : jspace; seq_ondisk : Z }.

Definition npins (p : jpins) : Z := Z.of_nat (length (lists p)).

Definition set_last_seq (v : Z) (s : jspace) : jspace :=
  mk_jspace (device s) v (last_seq_ondisk s) (spaces s) (flags s) (watermark s) (cur_entry_sectors s)
    (cur_entry_error s) (reclaim_kicked s).
Definition set_last_seq_ondisk (v : Z) (s : jspace) : jspace :=
  mk_jspace (device s) (last_seq s) v (spaces s) (flags s) (watermark s) (cur_entry_sectors s)
    (cur_entry_error s) (reclaim_kicked s).

(** The accounting that follows a change of [last_seq] or of
    [last_seq_ondisk]. *)
Definition recount (g : option geometry) (n : Z) (s : jspace) : option jspace :=
  s ← bch2_journal_space_available g n s; bch2_journal_do_discards s.

Definition bch2_journal_update_last_seq (g : option geometry) (m : jmeta) : option jmeta :=
  let '(s, l) := pop_done (seq_ondisk m) (front (jp m)) (lists (jp m)) in
  let p := mk_pins s l (pins (jp m)) (flush_in_progress (jp m)) (flush_in_progress_dropped (jp m)) in
  let changed := negb (last_seq (js m) =? s) in
  js' ← (if changed then recount g (npins p) (set_last_seq s (js m)) else Some (set_last_seq s (js m)));
  Some (mk_meta p js' (seq_ondisk m)).

Definition bch2_journal_update_last_seq_ondisk (g : option geometry) (seq v : Z) (m : jmeta) : option (Z * jmeta) :=
  if (seq <? v) || (last_seq (js m) <? v) then Some (-1, m)
  else if last_seq_ondisk (js m) <? v then
    js' ← recount g (npins (jp m)) (set_last_seq_ondisk v (js m));
    Some (0, mk_meta (jp m) js' (seq_ondisk m))
  else Some (0, m).

Definition bch2_journal_pin_set (g : option geometry) (level : Z -> Z) (new_seq pin : Z) (f : flush_fn) (m : jmeta)
    : option jmeta :=
  q ← pins (jp m) !! pin;
  p ← pin_set_lists level new_seq pin f (jp m);
  let m := mk_meta p (js m) (seq_ondisk m) in
  if journal_pin_active q then bch2_journal_update_last_seq g m else Some m.

Definition bch2_journal_pin_add (g : option geometry) (level : Z -> Z) (seq pin : Z) (f : flush_fn) (m : jmeta)
    : option jmeta :=
  q ← pins (jp m) !! pin;
  if negb (journal_pin_active q) || (seq <? pin_seq q) then bch2_journal_pin_set g level seq pin f m else Some m.

Definition bch2_journal_pin_update (g : option geometry) (level : Z -> Z) (seq pin : Z) (f : flush_fn) (m : jmeta)
    : option jmeta :=
  q ← pins (jp m) !! pin;
  if negb (journal_pin_active q) || (pin_seq q <? seq) then bch2_journal_pin_set g level seq pin f m else Some m.

Definition bch2_journal_pin_drop (g : option geometry) (pin : Z) (m : jmeta) : option jmeta :=
  q ← pins (jp m) !! pin;
  if pin_seq q =? 0 then Some m else
  p ← pin_drop_lists pin (jp m);
  bch2_journal_update_last_seq g (mk_meta p (js m) (seq_ondisk m)).

(** ** Replayed entries *)

Definition replay_put_list (l : journal_entry_pin_list) : option journal_entry_pin_list :=
  if unreplayed l then
    _ ← assert (negb (count l =? 0));
    Some (mk_list (count l - 1) (unflushed l) (flushed l) false)
  else Some l.

(** The lists of the sequence numbers below [end_], from [s] on. *)
Fixpoint replay_put (end_ s : Z) (l : list journal_entry_pin_list) : option (list journal_entry_pin_list) :=
  match l with
  | [] => Some []
  | x :: l' =>
      if s <? end_ then x' ← replay_put_list x; l'' ← replay_put end_ (s + 1) l'; Some (x' :: l'')
      else Some l
  end.

Definition bch2_journal_replay_pins_put (g : option geometry) (seq_ end_ : Z) (m : jmeta) : option jmeta :=
  let e := Z.min end_ seq_ in
  l ← replay_put e (front (jp m)) (lists (jp m));
  bch2_journal_update_last_seq g (mk_meta (set_lists l (jp m)) (js m) (seq_ondisk m)).

(** ** Flushing pins

    The flush callbacks are code of the btree: [cb f pin seq m] is the result of
    calling [f], with the journal it leaves. *)

Definition callback : Type := flush_fn -> Z -> Z -> jmeta -> option (Z * jmeta).

Definition type_allowed (below above target s : Z) (t : nat) : bool :=
  (Z.testbit below (Z.of_nat t) && (s <=? target)) || Z.testbit above (Z.of_nat t).

(** The first allowed type with an unflushed pin. *)
Fixpoint first_pin (below above target s : Z) (t : nat) (u : list (list Z)) : option Z :=
  match u with
  | [] => None
  | ps :: u' =>
      match ps with
      | pin :: _ => if type_allowed below above target s t then Some pin
                    else first_pin below above target s (S t) u'
      | [] => first_pin below above target s (S t) u'
      end
  end.

Fixpoint next_pin (below above target s : Z) (l : list journal_entry_pin_list) : option (Z * Z) :=
  match l with
  | [] => None
  | x :: l' =>
      if unreplayed x then None
      else if (target <? s) && (above =? 0) then None
      else match first_pin below above target s 0 (unflushed x) with
           | Some pin => Some (pin, s)
           | None => next_pin below above target (s + 1) l'
           end
  end.

Definition journal_get_next_pin (target below above : Z) (p : jpins)
    : option (option (Z * Z * flush_fn * jpins)) :=
  match next_pin below above target (front p) (lists p) with
  | None => Some None
  | Some (pin, s) =>
      q ← pins p !! pin;
      f ← pin_flush q;
      _ ← assert (flush_in_progress p =? 0);
      Some (Some (pin, s, f, set_in_progress pin false p))
  end.

(** A pin whose callback succeeded and that still pins the entry moves to the
    flushed ones. *)
Definition mark_flushed (pin s : Z) (p : jpins) : jpins :=
  if front p <=? s then
    let i := Z.to_nat (s - front p) in
    set_lists (alter (fun x =>
      mk_list (count x) (map (retain_not pin) (unflushed x))
        (if bool_decide (pin ∈ flushed x) then flushed x else flushed x ++ [pin]) (unreplayed x)) i (lists p)) p
  else p.

Definition set_jp (p : jpins) (m : jmeta) : jmeta := mk_meta p (js m) (seq_ondisk m).

Fixpoint journal_flush_pins (fuel : nat) (cb : callback) (target below above min_any nr_flushed : Z) (m : jmeta)
    : option (Z * jmeta) :=
  match fuel with
  | O => None
  | S fuel =>
      let below' := if min_any =? 0 then below else MAX 32 in
      let above' := if min_any =? 0 then above else MAX 32 in
      r ← journal_get_next_pin target below' above' (jp m);
      match r with
      | None => Some (nr_flushed, m)
      | Some (pin, s, f, p) =>
          let min_any' := if min_any =? 0 then 0 else min_any - 1 in
          '(ret, m1) ← cb f pin s (set_jp p m);
          q ← pins (jp m1) !! pin;
          let p1 := if (ret =? 0) && negb (flush_in_progress_dropped (jp m1)) && (pin_seq q =? s)
                    then mark_flushed pin s (jp m1) else jp m1 in
          let m2 := set_jp (set_in_progress 0 false p1) m1 in
          if negb (ret =? 0) then Some (nr_flushed, m2)
          else journal_flush_pins fuel cb target below above min_any' (nr_flushed + 1) m2
      end
  end.

(** One pass per pin type, the last type first. *)
Fixpoint flush_types (fuel : nat) (cb : callback) (target : Z) (types : list nat) (did_work : bool) (m : jmeta)
    : option (bool * jmeta) :=
  match types with
  | [] => Some (did_work, m)
  | t :: ts =>
      '(n, m') ← journal_flush_pins fuel cb target (Z.shiftl 1 (Z.of_nat t)) 0 0 0 m;
      flush_types fuel cb target ts (did_work || negb (n =? 0)) m'
  end.

Definition bch2_journal_flush_pins (fuel : nat) (cb : callback) (target : Z) (m : jmeta) : option (bool * jmeta) :=
  flush_types fuel cb target [5%nat; 4%nat; 3%nat; 2%nat; 1%nat; 0%nat] false m.

Definition journal_seq_to_flush (ja : journal_device) : option Z :=
  if nr ja =? 0 then Some 0 else
  i ← uadd 32 (cur_idx ja) (nr ja / 2);
  bucket_seq ja !! Z.to_nat (i mod nr ja).

(** The loop of [__bch2_journal_reclaim]: the number of pins flushed, which the
    code adds to one of two counters. *)
Fixpoint journal_reclaim_loop (fuel : nat) (cb : callback) (direct kicked : bool) (nr_reclaimed : Z) (m : jmeta)
    : option (Z * jmeta) :=
  match fuel with
  | O => None
  | S fuel' =>
      target ← journal_seq_to_flush (device (js m));
      let min_nr := if kicked || journal_med_on_space (js m) then 1 else 0 in
      '(n, m') ← journal_flush_pins fuel cb target (MAX 32) 0 min_nr 0 m;
      if direct || (min_nr =? 0) || (n =? 0) then Some (nr_reclaimed + n, m')
      else journal_reclaim_loop fuel' cb direct false (nr_reclaimed + n) m'
  end.

Definition bch2_journal_reclaim (fuel : nat) (cb : callback) (m : jmeta) : option (Z * jmeta) :=
  journal_reclaim_loop fuel cb true true 0 m.

(** ** The invariant of the pin lists *)

Definition members (l : journal_entry_pin_list) : list Z := mjoin (unflushed l) ++ flushed l.
Definition b2z (b : bool) : Z := if b then 1 else 0.

(** The list of sequence number [s], when the open entry is [open]. *)
Record list_ok (m : gmap Z journal_entry_pin) (open s : Z) (l : journal_entry_pin_list) : Prop := {
  lo_types : length (unflushed l) = JOURNAL_PIN_TYPE_NR;
  lo_nodup : NoDup (members l);
  lo_mem : forall a, a ∈ members l <-> exists q, m !! a = Some q /\ pin_seq q = s;
  lo_count : count l = Z.of_nat (length (members l)) + b2z (s =? open) + b2z (unreplayed l);
}.

Record pins_ok (p : jpins) (open : Z) : Prop := {
  po_front : 1 <= front p <= open;
  po_window : front p + Z.of_nat (length (lists p)) = open + 1;
  po_lists : forall i l, lists p !! i = Some l -> list_ok (pins p) open (front p + Z.of_nat i) l;
  po_pins : forall a q, pins p !! a = Some q -> pin_seq q = 0 \/ front p <= pin_seq q <= open;
  po_size : Z.of_nat (size (pins p)) < 2 ^ 31;
  po_flush : forall a q, pins p !! a = Some q -> pin_seq q <> 0 -> is_Some (pin_flush q);
}.

Lemma mjoin_cons (u : list Z) us : mjoin (u :: us) = u ++ mjoin us.
Proof. done. Qed.

Lemma retain_id pin (k : list Z) : pin ∉ k -> retain_not pin k = k.
Proof.
  intros Hk. unfold retain_not. induction k as [|x k IH]; [done|]. apply not_elem_of_cons in Hk as [Hx Hk].
  rewrite filter_cons_True by done. by rewrite IH.
Qed.

Lemma mjoin_retain pin (us : list (list Z)) : mjoin (map (retain_not pin) us) = retain_not pin (mjoin us).
Proof.
  unfold retain_not. induction us as [|u us IH]; [done|]. cbn [map]. by rewrite !mjoin_cons, filter_app, IH.
Qed.

Lemma members_drop pin l n r :
  members (mk_list n (map (retain_not pin) (unflushed l)) (retain_not pin (flushed l)) r) = retain_not pin (members l).
Proof.
  unfold members. cbn [unflushed flushed]. rewrite mjoin_retain. unfold retain_not. by rewrite filter_app.
Qed.

Lemma retain_length pin l : NoDup l -> pin ∈ l -> length l = S (length (retain_not pin l)).
Proof.
  intros Hnd Hin. apply list_elem_of_split in Hin as (l1 & l2 & ->).
  apply NoDup_app in Hnd as (H1 & Hd & H2). apply NoDup_cons in H2 as [Hn2 H2].
  unfold retain_not. rewrite filter_app, filter_cons_False by auto. fold (retain_not pin l1) (retain_not pin l2).
  rewrite !retain_id, !length_app; [cbn; lia|done|]. intros H. apply (Hd _ H). apply list_elem_of_here.
Qed.

Lemma members_add t pin l n r : (t < length (unflushed l))%nat ->
  members (mk_list n (alter (fun ps => ps ++ [pin]) t (unflushed l)) (flushed l) r) ≡ₚ pin :: members l.
Proof.
  intros Ht. unfold members. cbn [unflushed flushed].
  assert (mjoin (alter (fun ps => ps ++ [pin]) t (unflushed l)) ≡ₚ pin :: mjoin (unflushed l)) as ->; [|done].
  revert t Ht. induction (unflushed l) as [|u us IH]; intros t Ht; [cbn in Ht; lia|].
  destruct t as [|t].
  - change (alter _ 0%nat (u :: us)) with ((u ++ [pin]) :: us). rewrite !mjoin_cons, <- app_assoc. cbn [app].
    by rewrite <- Permutation_middle.
  - change (alter ?f (S t) (u :: us)) with (u :: alter f t us). cbn in Ht. rewrite !mjoin_cons, (IH t) by lia.
    by rewrite <- Permutation_middle.
Qed.

Lemma list_ok_other m open s l pin q q' : list_ok m open s l -> m !! pin = Some q ->
  pin_seq q <> s -> pin_seq q' <> s -> list_ok (<[pin := q']> m) open s l.
Proof.
  intros [Ht Hnd Hm Hc] Hq Hne Hne'. constructor; try done. intros a. rewrite Hm.
  destruct (decide (a = pin)) as [->|Ha]; [|by rewrite lookup_insert_ne by done].
  rewrite lookup_insert_eq. split.
  - intros (q0 & E & Hs). congruence.
  - intros (q0 & E & Hs). congruence.
Qed.

Lemma list_drop_ok m open s l pin q q' : list_ok m open s l -> m !! pin = Some q ->
  pin_seq q = s -> pin_seq q' <> s ->
  exists l', list_drop_pin pin l = Some l' /\ list_ok (<[pin := q']> m) open s l'.
Proof.
  intros [Ht Hnd Hm Hc] Hq Hs Hne'. unfold list_drop_pin.
  assert (pin ∈ members l) as Hin by (apply Hm; eauto).
  pose proof (retain_length _ _ Hnd Hin) as Hlen.
  rewrite (proj2 (Z.eqb_neq (count l) 0)) by (unfold b2z in *; repeat case_match; lia). cbn.
  eexists. split; [done|]. constructor; cbn [unflushed count flushed unreplayed].
  - by rewrite length_map.
  - rewrite members_drop. by apply NoDup_filter.
  - intros a. rewrite members_drop. unfold retain_not. rewrite list_elem_of_filter, Hm.
    destruct (decide (a = pin)) as [->|Ha].
    + rewrite lookup_insert_eq. split; [by intros [? _]|]. intros (q0 & E & ?). congruence.
    + rewrite lookup_insert_ne by done. split; [by intros [_ ?]|by split].
  - rewrite members_drop. lia.
Qed.

Lemma list_add_ok m open s l t pin q q' : list_ok m open s l -> m !! pin = Some q ->
  pin_seq q <> s -> pin_seq q' = s -> (t < JOURNAL_PIN_TYPE_NR)%nat -> count l + 1 < 2 ^ 32 ->
  exists l', list_add_pin t pin l = Some l' /\ list_ok (<[pin := q']> m) open s l'.
Proof.
  intros [Ht Hnd Hm Hc] Hq Hne Hs' Ht' Hcount. unfold list_add_pin. rewrite uadd_ok by done. bind_simpl.
  assert (pin ∉ members l) as Hnin by (rewrite Hm; intros (q0 & E & ?); congruence).
  pose proof (members_add t pin l (count l + 1) (unreplayed l) ltac:(by rewrite Ht)) as Hp.
  eexists. split; [done|]. constructor; cbn [unflushed count flushed unreplayed].
  - by rewrite length_alter.
  - rewrite Hp. by constructor.
  - intros a. rewrite Hp, elem_of_cons, Hm. destruct (decide (a = pin)) as [->|Ha].
    + rewrite lookup_insert_eq. split; [eauto|by left].
    + rewrite lookup_insert_ne by done. split; [by intros [?|?]|by right].
  - rewrite Hp. cbn. lia.
Qed.

Lemma members_size m open s l : list_ok m open s l -> (length (members l) <= size m)%nat.
Proof.
  intros Hl. rewrite <- (size_list_to_set (C := gset Z)) by apply (lo_nodup _ _ _ _ Hl).
  rewrite <- size_dom. apply subseteq_size. intros a. rewrite elem_of_list_to_set, elem_of_dom.
  intros (q & Hq & _)%(lo_mem _ _ _ _ Hl). by exists q.
Qed.

Lemma count_bound m open s l : list_ok m open s l -> Z.of_nat (size m) < 2 ^ 31 -> count l + 1 < 2 ^ 32.
Proof.
  intros Hl Hs. pose proof (members_size _ _ _ _ Hl). rewrite (lo_count _ _ _ _ Hl).
  change (2 ^ 31) with 2147483648 in Hs. change (2 ^ 32) with 4294967296.
  unfold b2z. destruct (s =? open), (unreplayed l); lia.
Qed.

(** The list of a sequence number inside the window. *)
Lemma at_seq_spec p open s f : pins_ok p open -> front p <= s <= open ->
  exists l, lists p !! Z.to_nat (s - front p) = Some l /\ list_ok (pins p) open s l /\
    at_seq s f p = l' ← f l; Some (set_lists (<[Z.to_nat (s - front p) := l']> (lists p)) p).
Proof.
  intros Hp Hs. pose proof (po_window _ _ Hp).
  destruct (lookup_lt_is_Some_2 (lists p) (Z.to_nat (s - front p))) as [l Hl]; [lia|].
  exists l. split; [done|]. split.
  - replace s with (front p + Z.of_nat (Z.to_nat (s - front p))) by lia. by apply (po_lists _ _ Hp).
  - unfold at_seq. rewrite (proj2 (Z.leb_le _ _)) by lia. cbn [assert]. bind_simpl. by rewrite Hl.
Qed.

Lemma size_insert_same (m : gmap Z journal_entry_pin) pin q q' : m !! pin = Some q -> size (<[pin := q']> m) = size m.
Proof. intros H. apply map_size_insert_Some. by exists q. Qed.

(** One pin's sequence number changes from that of one list to that of no
    list, or from that of no list to that of one. *)
Lemma pins_ok_move p open pin q q' s l' :
  pins_ok p open -> pins p !! pin = Some q -> front p <= s <= open ->
  pin_seq q' = 0 \/ front p <= pin_seq q' <= open ->
  (forall s', s' <> s -> front p <= s' -> pin_seq q <> s' /\ pin_seq q' <> s') ->
  list_ok (<[pin := q']> (pins p)) open s l' -> (pin_seq q' <> 0 -> is_Some (pin_flush q')) ->
  pins_ok (set_pins (<[pin := q']> (pins p)) (set_lists (<[Z.to_nat (s - front p) := l']> (lists p)) p)) open.
Proof.
  intros Hp Hq Hs Hq' Hother Hl' Hfl. destruct Hp as [Hf Hw Hl Hpins Hsz Hfn]. constructor; cbn.
  - done.
  - by rewrite length_insert.
  - intros i l Hi. apply list_lookup_insert_Some in Hi as [(<- & <- & _)|[Hne Hi]].
    + by replace (front p + Z.of_nat (Z.to_nat (s - front p))) with s by lia.
    + apply list_ok_other with q; [by apply Hl|done|..]; apply Hother; lia.
  - intros a q0. destruct (decide (a = pin)) as [->|Ha].
    + rewrite lookup_insert_eq. by intros [= <-].
    + rewrite lookup_insert_ne by done. apply Hpins.
  - by rewrite (size_insert_same _ _ _ _ Hq).
  - intros a q0. destruct (decide (a = pin)) as [->|Ha].
    + rewrite lookup_insert_eq. by intros [= <-].
    + rewrite lookup_insert_ne by done. apply Hfn.
Qed.

(** A pin out of its list, with [seq] set to zero. *)
Lemma drop_pins_ok p open pin q f : pins_ok p open -> pins p !! pin = Some q -> pin_seq q <> 0 ->
  exists p', at_seq (pin_seq q) (list_drop_pin pin) p = Some p' /\ pins p' = pins p /\ front p' = front p /\
    pins_ok (set_pins (<[pin := mk_pin 0 f]> (pins p)) p') open /\
    flush_in_progress p' = flush_in_progress p /\ flush_in_progress_dropped p' = flush_in_progress_dropped p.
Proof.
  intros Hp Hq Hact. destruct (po_pins _ _ Hp _ _ Hq) as [|Hs]; [done|]. pose proof (po_front _ _ Hp).
  destruct (at_seq_spec p open (pin_seq q) (list_drop_pin pin) Hp Hs) as (l & Hl & Hlok & ->).
  destruct (list_drop_ok _ _ _ _ pin q (mk_pin 0 f) Hlok Hq) as (l' & -> & Hl'); [done|cbn; lia|].
  bind_simpl. eexists. split; [done|]. split_and!; [done..| |done|done].
  apply (pins_ok_move p open pin q (mk_pin 0 f) (pin_seq q) l' Hp Hq Hs); [by left|cbn; lia|done|by cbn].
Qed.

Lemma pin_type_bound t : (pin_type_idx t < JOURNAL_PIN_TYPE_NR)%nat.
Proof. destruct t; unfold JOURNAL_PIN_TYPE_NR; cbn; lia. Qed.

(** An inactive pin into the list of [s]. *)
Lemma add_pins_ok p m open pin q s t f0 : pins_ok (set_pins m p) open -> m !! pin = Some q -> pin_seq q = 0 ->
  front p <= s <= open ->
  exists p', at_seq s (list_add_pin (pin_type_idx t) pin) p = Some p' /\ pins p' = pins p /\ front p' = front p /\
    pins_ok (set_pins (<[pin := mk_pin s (Some f0)]> m) p') open /\
    flush_in_progress p' = flush_in_progress p /\ flush_in_progress_dropped p' = flush_in_progress_dropped p.
Proof.
  intros Hp Hq Hz Hs. pose proof (po_front _ _ Hp) as Hf. cbn in Hf.
  destruct (at_seq_spec (set_pins m p) open s (list_add_pin (pin_type_idx t) pin) Hp Hs) as (l & Hl & Hlok & _). cbn in Hl, Hlok.
  destruct (list_add_ok _ _ _ _ (pin_type_idx t) pin q (mk_pin s (Some f0)) Hlok Hq) as (l' & El & Hl');
    [lia|done|apply pin_type_bound|by apply (count_bound _ _ _ _ Hlok), (po_size _ _ Hp)|].
  assert (at_seq s (list_add_pin (pin_type_idx t) pin) p = Some (set_lists (<[Z.to_nat (s - front p) := l']> (lists p)) p)) as ->.
  { unfold at_seq. rewrite (proj2 (Z.leb_le _ _)) by lia. cbn [assert]. bind_simpl. rewrite Hl. bind_simpl. by rewrite El. }
  eexists. split; [done|]. split_and!; [done..| |done|done].
  apply (pins_ok_move (set_pins m p) open pin q (mk_pin s (Some f0)) s l' Hp Hq Hs); [by right|cbn; lia|done|cbn; eauto].
Qed.

(** [flush_in_progress_dropped] and [flush_in_progress] do not matter. *)
Lemma pins_ok_flags p open a b : pins_ok p open -> pins_ok (set_in_progress a b p) open.
Proof. intros []. by constructor. Qed.
Lemma pins_ok_dropped p open b : pins_ok p open -> pins_ok (set_dropped b p) open.
Proof. intros []. by constructor. Qed.

Lemma pin_set_lists_ok level p open pin q new_seq f :
  pins_ok p open -> pins p !! pin = Some q -> front p <= new_seq <= open ->
  exists p', pin_set_lists level new_seq pin f p = Some p' /\ pins_ok p' open /\
    pins p' = <[pin := mk_pin new_seq (Some f)]> (pins p) /\ front p' = front p.
Proof.
  intros Hp Hq Hs. unfold pin_set_lists. rewrite Hq. bind_simpl.
  set (p1 := if journal_pin_active q && (flush_in_progress p =? pin) then set_dropped true p else p).
  assert (pins_ok p1 open /\ pins p1 = pins p /\ front p1 = front p) as (Hp1 & E1 & F1).
  { unfold p1. case_match; [|done]. split; [by apply pins_ok_dropped|done]. }
  set (t := journal_pin_type_of level pin f).
  unfold journal_pin_active. destruct (Z.eqb_spec (pin_seq q) 0) as [Hz|Hnz]; cbn [negb].
  - bind_simpl. destruct (add_pins_ok p1 (pins p1) open pin q new_seq t f) as (p' & E & Ep & Ef & Hok & _);
      [by destruct p1|congruence|done|lia|].
    rewrite E. bind_simpl. eexists. split; [done|]. rewrite Ep. split_and!; [done|cbn; by rewrite E1|cbn; congruence].
  - destruct (drop_pins_ok p1 open pin q (Some f)) as (p2 & E2 & Ep2 & Ef2 & Hok2 & _); [done|congruence|done|].
    rewrite E2. bind_simpl.
    destruct (add_pins_ok p2 (<[pin := mk_pin 0 (Some f)]> (pins p1)) open pin (mk_pin 0 (Some f)) new_seq t f)
      as (p' & E & Ep & Ef & Hok & _); [done|apply lookup_insert_eq|done|lia|].
    rewrite E. bind_simpl. eexists. split; [done|]. rewrite insert_insert_eq in Hok. rewrite Ep, Ep2.
    split_and!; [done|cbn; by rewrite E1|cbn; congruence].
Qed.

Lemma pin_drop_lists_ok p open pin q : pins_ok p open -> pins p !! pin = Some q -> pin_seq q <> 0 ->
  exists p', pin_drop_lists pin p = Some p' /\ pins_ok p' open /\
    pins p' = <[pin := mk_pin 0 (pin_flush q)]> (pins p) /\ front p' = front p.
Proof.
  intros Hp Hq Hact. unfold pin_drop_lists. rewrite Hq. bind_simpl.
  destruct (drop_pins_ok p open pin q (pin_flush q) Hp Hq Hact) as (p1 & E1 & Ep & Ef & Hok & Hfi & Hfd).
  rewrite E1. bind_simpl. eexists. split; [done|].
  destruct (flush_in_progress p1 =? pin); cbn; rewrite Ep; (split_and!; [|done|done]); [|done].
  by apply (pins_ok_dropped (set_pins _ p1)).
Qed.

(** ** Popping the lists that are done *)

Lemma pop_done_spec ond s l s' l' : pop_done ond s l = (s', l') ->
  exists gone, l = gone ++ l' /\ s' = s + Z.of_nat (length gone) /\
    (forall i x, gone !! i = Some x -> count x = 0 /\ s + Z.of_nat i <= ond) /\
    (forall x, head l' = Some x -> count x <> 0 \/ ond < s').
Proof.
  revert s. induction l as [|x l IH]; intros s; cbn [pop_done].
  - intros [= <- <-]. exists []. split_and!; [done|cbn; lia|done|done].
  - destruct (Z.leb_spec s ond); cbn [andb].
    + destruct (Z.eqb_spec (count x) 0) as [Hc|Hc].
      * intros (gone & -> & -> & Hg & Hh)%IH. exists (x :: gone).
        split_and!; [done|cbn; lia| |done]. intros [|i] y; cbn.
        -- intros [= <-]. split; [done|lia].
        -- intros Hy. destruct (Hg i y Hy). split; [done|lia].
      * intros [= <- <-]. exists []. split_and!; [done|cbn; lia|done|]. intros y [= <-]. by left.
    + intros [= <- <-]. exists []. split_and!; [done|cbn; lia|done|]. intros y _. right. lia.
Qed.

(** A list whose count is zero is not the open one and has no pins. *)
Lemma list_done m open s l : list_ok m open s l -> count l = 0 ->
  s <> open /\ unreplayed l = false /\ forall a q, m !! a = Some q -> pin_seq q <> s.
Proof.
  intros Hl Hc. rewrite (lo_count _ _ _ _ Hl) in Hc. unfold b2z in Hc.
  destruct (Z.eqb_spec s open), (unreplayed l); try lia. split_and!; [done..|].
  intros a q Hq Hs. assert (a ∈ members l) as Hin by (apply (lo_mem _ _ _ _ Hl); eauto).
  destruct (members l); [by apply not_elem_of_nil in Hin|cbn in Hc; lia].
Qed.

Lemma pop_pins_ok p open ond s l : pins_ok p open -> pop_done ond (front p) (lists p) = (s, l) ->
  pins_ok (mk_pins s l (pins p) (flush_in_progress p) (flush_in_progress_dropped p)) open /\
  front p <= s <= open /\ forall x, head l = Some x -> count x <> 0 \/ ond < s.
Proof.
  intros [Hf Hw Hl Hp Hs Hfn] E. destruct (pop_done_spec _ _ _ _ _ E) as (gone & El & -> & Hg & Hh).
  assert (forall i, (i < length gone)%nat -> front p + Z.of_nat i <> open /\
            forall a q, pins p !! a = Some q -> pin_seq q <> front p + Z.of_nat i) as Hgone.
  { intros i Hi. destruct (lookup_lt_is_Some_2 gone i Hi) as [x Hx].
    assert (lists p !! i = Some x) as Hx' by (rewrite El; by apply lookup_app_l_Some).
    destruct (list_done _ _ _ _ (Hl _ _ Hx') (proj1 (Hg _ _ Hx))) as (H1 & _ & H2). done. }
  assert (length (lists p) = length gone + length l)%nat as Hlen by (rewrite El; apply length_app).
  assert (l <> []) as Hne.
  { intros ->. cbn in Hlen. destruct (Hgone (length gone - 1)%nat); lia. }
  assert (0 < length l)%nat by (destruct l; cbn; [done|lia]).
  split_and!; [|lia|lia|done]. constructor; cbn; try done; try lia.
  - intros i x Hi. replace (front p + Z.of_nat (length gone) + Z.of_nat i) with (front p + Z.of_nat (length gone + i)) by lia.
    apply Hl. rewrite El, lookup_app_r by lia. by replace (length gone + i - length gone)%nat with i by lia.
  - intros a q Hq. destruct (Hp a q Hq) as [|[H1 H2]]; [by left|right]. split; [|done].
    destruct (Z.le_gt_cases (front p + Z.of_nat (length gone)) (pin_seq q)) as [|Hlt]; [done|exfalso].
    destruct (Hgone (Z.to_nat (pin_seq q - front p))) as [_ Hno]; [lia|].
    apply (Hno a q Hq). lia.
Qed.

(** ** The device behind the pins *)

Definition dev_ok (g : option geometry) (d : journal_device) (L : Z) : Prop :=
  (nr d = 0 /\ discard_idx d = dirty_idx_ondisk d /\ sectors_free d = 0) \/
  (ring_ok d L /\ exists g', g = Some g' /\ 0 <= sectors_free d <= g_bucket_size g').

Lemma dev_ok_mono g d L L' : L <= L' -> dev_ok g d L -> dev_ok g d L'.
Proof. intros HL [H|[H1 H2]]; [by left|right]. split; [by eapply ring_ok_mono|done]. Qed.

Lemma space_free_kept g n s s' : bch2_journal_space_available g n s = Some s' ->
  sectors_free (device s') = sectors_free (device s).
Proof.
  unfold bch2_journal_space_available. destruct (nr (device s) =? 0); [by intros [= <-]|].
  unfold advance_dirty. destruct (ring_advance _ _ _ _ _ (dirty_idx _)); [|done]. cbn.
  destruct (ring_advance _ _ _ _ _ (dirty_idx_ondisk _)); [|done]. cbn.
  destruct (geometry_of g) as [bs blk]. match goal with |- context [mbind _ ?x] => destruct x end; [|done].
  cbn. by intros [= <-].
Qed.

(** The most sectors an entry can be given. *)
Definition max_sectors (g : option geometry) : Z :=
  match g with Some g => Z.max 0 (g_bucket_size g) | None => 0 end.

Lemma space_available_dev g n s : dev_ok g (device s) (last_seq_ondisk s) ->
  exists s', bch2_journal_space_available g n s = Some s' /\ dev_ok g (device s') (last_seq_ondisk s') /\
    last_seq s' = last_seq s /\ last_seq_ondisk s' = last_seq_ondisk s /\ 0 <= cur_entry_sectors s' <= max_sectors g.
Proof.
  intros [(Hn & Hd & Hz)|[Hr (g' & -> & Hfree)]].
  - unfold bch2_journal_space_available. rewrite Hn, Z.eqb_refl. eexists. split; [done|].
    split_and!; [by left|done|done|cbn; lia|]. cbn. destruct g; cbn; lia.
  - destruct (space_available_ok g' n s Hr Hfree) as (s' & E & Hr' & E1 & E2 & d & o & c & t & _ & _ & _ & Ec & Hc & _).
    exists s'. split; [done|]. rewrite E1, E2, Ec. split_and!; [right|done|done|lia|cbn; lia]. split; [done|]. exists g'.
    split; [done|]. by rewrite (space_free_kept _ _ _ _ E).
Qed.

Lemma do_discards_dev g s : dev_ok g (device s) (last_seq_ondisk s) ->
  exists s', bch2_journal_do_discards s = Some s' /\ dev_ok g (device s') (last_seq_ondisk s') /\
    last_seq s' = last_seq s /\ last_seq_ondisk s' = last_seq_ondisk s /\ cur_entry_sectors s' = cur_entry_sectors s.
Proof.
  intros [(Hn & Hd & Hz)|[Hr (g' & -> & Hfree)]].
  - unfold bch2_journal_do_discards. rewrite Hn, Hd. change (Z.to_nat 0) with 0%nat. cbn [discard_loop]. rewrite Z.eqb_refl. bind_simpl.
    eexists. split; [done|]. split; [by left|done].
  - destruct (do_discards_ok s _ Hr) as [E Hr']. eexists. split; [done|]. cbn. split; [right|done].
    split; [done|]. by exists g'.
Qed.

Lemma recount_ok g n s : dev_ok g (device s) (last_seq_ondisk s) ->
  exists s', recount g n s = Some s' /\ dev_ok g (device s') (last_seq_ondisk s') /\
    last_seq s' = last_seq s /\ last_seq_ondisk s' = last_seq_ondisk s /\ 0 <= cur_entry_sectors s' <= max_sectors g.
Proof.
  intros H. unfold recount. destruct (space_available_dev g n s H) as (s1 & -> & H1 & E1 & E2 & Hc). bind_simpl.
  destruct (do_discards_dev g s1 H1) as (s2 & -> & H2 & E3 & E4 & E5). exists s2. rewrite E5.
  split_and!; [done|done|congruence..|lia|lia].
Qed.

(** ** The invariant of pins and space together *)

Record meta_ok (g : option geometry) (m : jmeta) (open : Z) : Prop := {
  mo_pins : pins_ok (jp m) open;
  mo_dev : dev_ok g (device (js m)) (last_seq_ondisk (js m));
  mo_last : last_seq (js m) = front (jp m);
}.

Lemma update_last_seq_ok g m open : pins_ok (jp m) open -> dev_ok g (device (js m)) (last_seq_ondisk (js m)) ->
  exists m', bch2_journal_update_last_seq g m = Some m' /\ meta_ok g m' open /\
    pins (jp m') = pins (jp m) /\ front (jp m) <= front (jp m') <= open /\ seq_ondisk m' = seq_ondisk m /\
    last_seq_ondisk (js m') = last_seq_ondisk (js m) /\
    forall x, head (lists (jp m')) = Some x -> count x <> 0 \/ seq_ondisk m < last_seq (js m').
Proof.
  intros Hp Hd. unfold bch2_journal_update_last_seq.
  destruct (pop_done _ _ _) as [s l] eqn:E. destruct (pop_pins_ok _ _ _ _ _ Hp E) as (Hp' & Hs & Hh).
  destruct (negb (last_seq (js m) =? s)).
  - destruct (recount_ok g (npins (mk_pins s l (pins (jp m)) (flush_in_progress (jp m)) (flush_in_progress_dropped (jp m))))
      (set_last_seq s (js m)) Hd) as (j' & -> & Hd' & E1 & E2 & _).
    bind_simpl. eexists. split; [done|]. cbn in *. split_and!; try done; try lia.
    by rewrite E1.
  - bind_simpl. eexists. split; [done|]. cbn in *. split_and!; try done; lia.
Qed.

Lemma pin_set_ok g level m open pin q s f : meta_ok g m open -> pins (jp m) !! pin = Some q ->
  front (jp m) <= s <= open ->
  exists m', bch2_journal_pin_set g level s pin f m = Some m' /\ meta_ok g m' open /\
    pins (jp m') = <[pin := mk_pin s (Some f)]> (pins (jp m)).
Proof.
  intros [Hp Hd Hl] Hq Hs. unfold bch2_journal_pin_set. rewrite Hq. bind_simpl.
  destruct (pin_set_lists_ok level _ _ _ _ s f Hp Hq Hs) as (p' & -> & Hp' & Ep & Ef). bind_simpl.
  destruct (journal_pin_active q).
  - destruct (update_last_seq_ok g (mk_meta p' (js m) (seq_ondisk m)) open Hp' Hd) as (m' & -> & Hm' & Epp & _).
    exists m'. split_and!; [done..|]. by rewrite Epp.
  - eexists. split; [done|]. split; [|done]. constructor; cbn; [done|done|congruence].
Qed.

Lemma pin_add_ok g level m open pin q s f : meta_ok g m open -> pins (jp m) !! pin = Some q ->
  front (jp m) <= s <= open ->
  exists m' q', bch2_journal_pin_add g level s pin f m = Some m' /\ meta_ok g m' open /\
    pins (jp m') !! pin = Some q' /\ pin_seq q' = (if pin_seq q =? 0 then s else Z.min (pin_seq q) s).
Proof.
  intros Hm Hq Hs. unfold bch2_journal_pin_add, journal_pin_active. rewrite Hq. bind_simpl. rewrite negb_involutive.
  destruct (pin_set_ok g level m open pin q s f Hm Hq Hs) as (m' & E & Hm' & Ep).
  destruct (Z.eqb_spec (pin_seq q) 0); cbn [orb].
  - rewrite E. exists m', (mk_pin s (Some f)). split_and!; [done..| |done]. rewrite Ep. apply lookup_insert_eq.
  - destruct (Z.ltb_spec s (pin_seq q)).
    + rewrite E. exists m', (mk_pin s (Some f)). split_and!; [done..| |cbn; lia]. rewrite Ep. apply lookup_insert_eq.
    + exists m, q. split_and!; [done..|lia].
Qed.

Lemma pin_update_ok g level m open pin q s f : meta_ok g m open -> pins (jp m) !! pin = Some q ->
  front (jp m) <= s <= open ->
  exists m' q', bch2_journal_pin_update g level s pin f m = Some m' /\ meta_ok g m' open /\
    pins (jp m') !! pin = Some q' /\ pin_seq q' = Z.max (pin_seq q) s.
Proof.
  intros Hm Hq Hs. pose proof (po_front _ _ (mo_pins _ _ _ Hm)).
  unfold bch2_journal_pin_update, journal_pin_active. rewrite Hq. bind_simpl. rewrite negb_involutive.
  destruct (pin_set_ok g level m open pin q s f Hm Hq Hs) as (m' & E & Hm' & Ep).
  destruct (Z.eqb_spec (pin_seq q) 0); cbn [orb].
  - rewrite E. exists m', (mk_pin s (Some f)). split_and!; [done..| |cbn; lia]. rewrite Ep. apply lookup_insert_eq.
  - destruct (Z.ltb_spec (pin_seq q) s).
    + rewrite E. exists m', (mk_pin s (Some f)). split_and!; [done..| |cbn; lia]. rewrite Ep. apply lookup_insert_eq.
    + exists m, q. split_and!; [done..|lia].
Qed.

Lemma pin_drop_ok g m open pin q : meta_ok g m open -> pins (jp m) !! pin = Some q ->
  exists m' q', bch2_journal_pin_drop g pin m = Some m' /\ meta_ok g m' open /\
    pins (jp m') !! pin = Some q' /\ pin_seq q' = 0.
Proof.
  intros [Hp Hd Hl] Hq. unfold bch2_journal_pin_drop. rewrite Hq. bind_simpl.
  destruct (Z.eqb_spec (pin_seq q) 0) as [|Hnz]; [by exists m, q|].
  destruct (pin_drop_lists_ok _ _ _ _ Hp Hq Hnz) as (p' & -> & Hp' & Ep & Ef). bind_simpl.
  destruct (update_last_seq_ok g (mk_meta p' (js m) (seq_ondisk m)) open Hp' Hd) as (m' & -> & Hm' & Epp & _).
  exists m', (mk_pin 0 (pin_flush q)). split_and!; [done..| |done]. rewrite Epp. cbn. rewrite Ep. apply lookup_insert_eq.
Qed.

Lemma replay_put_list_ok m open s l : list_ok m open s l ->
  exists l', replay_put_list l = Some l' /\ list_ok m open s l' /\ unreplayed l' = false.
Proof.
  intros Hlok. unfold replay_put_list. destruct (unreplayed l) eqn:E; [|by exists l].
  destruct Hlok as [Ht Hnd Hm Hc]. rewrite E in Hc.
  unfold b2z in Hc. assert (0 < count l) as Hpos by (destruct (s =? open); lia).
  rewrite (proj2 (Z.eqb_neq (count l) 0)) by lia. cbn. eexists. split; [done|]. split; [|done].
  constructor; try done. change (members (mk_list (count l - 1) (unflushed l) (flushed l) false)) with (members l).
  cbn [count unreplayed]. unfold b2z. destruct (s =? open); lia.
Qed.

Lemma replay_put_ok m open e s l : (forall i x, l !! i = Some x -> list_ok m open (s + Z.of_nat i) x) ->
  exists l', replay_put e s l = Some l' /\ length l' = length l /\
    (forall i x, l' !! i = Some x -> list_ok m open (s + Z.of_nat i) x) /\
    (forall i x, l' !! i = Some x -> s + Z.of_nat i < e -> unreplayed x = false).
Proof.
  revert s. induction l as [|x l IH]; intros s Hl; cbn [replay_put]; [by exists []|].
  destruct (Z.ltb_spec s e) as [Hlt|Hge].
  - destruct (replay_put_list_ok m open s x) as (x' & -> & Hx' & Hu); [by specialize (Hl 0%nat x eq_refl); rewrite Z.add_0_r in Hl|].
    bind_simpl. destruct (IH (s + 1)) as (l' & -> & Hlen & Hl' & Hu').
    { intros i y Hy. replace (s + 1 + Z.of_nat i) with (s + Z.of_nat (S i)) by lia. by apply Hl. }
    bind_simpl. exists (x' :: l'). split_and!; [done|cbn; lia|..].
    + intros [|i] y; cbn; [intros [= <-]; by rewrite Z.add_0_r|]. intros Hy.
      replace (s + Z.of_nat (S i)) with (s + 1 + Z.of_nat i) by lia. by apply Hl'.
    + intros [|i] y; cbn; [by intros [= <-]|]. intros Hy Hi. apply (Hu' i y Hy). lia.
  - exists (x :: l). split_and!; [done..|]. intros i y _ Hi. lia.
Qed.

Lemma replay_pins_put_ok g m open sq e : meta_ok g m open ->
  exists m', bch2_journal_replay_pins_put g sq e m = Some m' /\ meta_ok g m' open /\ pins (jp m') = pins (jp m).
Proof.
  intros [Hp Hd Hl]. unfold bch2_journal_replay_pins_put.
  destruct (replay_put_ok (pins (jp m)) open (Z.min e sq) (front (jp m)) (lists (jp m)) (po_lists _ _ Hp)) as (l' & -> & Hlen & Hl' & _).
  bind_simpl. destruct (update_last_seq_ok g (mk_meta (set_lists l' (jp m)) (js m) (seq_ondisk m)) open) as (m' & -> & Hm' & Ep & _).
  - destruct Hp. constructor; cbn; try done. by rewrite Hlen.
  - done.
  - exists m'. done.
Qed.

(** ** Opening the next entry: what a flush does to the pins *)

Definition pins_open_next (old_seq : Z) (p : jpins) : option jpins :=
  _ ← assert (front p + Z.of_nat (length (lists p)) =? old_seq + 1);
  let l := lists p ++ [journal_pin_list_init 1] in
  i ← usub old_seq (front p);
  x ← l !! Z.to_nat i;
  _ ← assert (negb (count x =? 0));
  Some (set_lists (<[Z.to_nat i := mk_list (count x - 1) (unflushed x) (flushed x) (unreplayed x)]> l) p).

(** The rest of a successful [bch2_journal_flush] once the record is written
    and the next buffer open. *)
Definition flush_finish (g : option geometry) (old_seq last_seq_wrote : Z) (empty : bool) (m : jmeta) : option jmeta :=
  p ← pins_open_next old_seq (jp m);
  let s := set_last_seq_ondisk (Z.max (last_seq_ondisk (js m)) (last_seq_wrote + b2z empty)) (js m) in
  m ← bch2_journal_update_last_seq g (mk_meta p s old_seq);
  s ← recount g (npins (jp m)) (js m);
  Some (mk_meta (jp m) s old_seq).

Lemma list_ok_open m open s l : list_ok m open s l -> s <> open -> s <> open + 1 -> list_ok m (open + 1) s l.
Proof.
  intros [Ht Hnd Hm Hc] H1 H2. constructor; try done. rewrite Hc.
  rewrite (proj2 (Z.eqb_neq _ _) H1), (proj2 (Z.eqb_neq _ _) H2). done.
Qed.

Lemma pins_open_next_ok p open : pins_ok p open ->
  exists p', pins_open_next open p = Some p' /\ pins_ok p' (open + 1) /\ pins p' = pins p /\ front p' = front p.
Proof.
  intros [Hf Hw Hl Hp Hs Hfn]. unfold pins_open_next. rewrite Hw, Z.eqb_refl. cbn [assert]. bind_simpl.
  rewrite usub_ok by lia. bind_simpl. set (i := Z.to_nat (open - front p)).
  destruct (lookup_lt_is_Some_2 (lists p) i) as [x Hx]; [lia|].
  rewrite lookup_app_l, Hx by lia. bind_simpl.
  assert (list_ok (pins p) open open x) as Hok.
  { replace open with (front p + Z.of_nat i) at 2 by lia. by apply Hl. }
  pose proof (lo_count _ _ _ _ Hok) as Hc. rewrite Z.eqb_refl in Hc. cbn [b2z] in Hc.
  assert (0 <= b2z (unreplayed x)) as Hb by (unfold b2z; case_match; lia).
  rewrite (proj2 (Z.eqb_neq (count x) 0)) by lia. cbn [negb assert]. bind_simpl.
  eexists. split; [done|]. split; [|done]. constructor; cbn.
  - lia.
  - rewrite length_insert, length_app. cbn. lia.
  - intros k y Hk. apply list_lookup_insert_Some in Hk as [(<- & <- & _)|[Hne Hk]].
    + replace (front p + Z.of_nat i) with open by lia. destruct Hok as [Ht Hnd Hm _]. constructor; try done.
      cbn [count]. rewrite (proj2 (Z.eqb_neq _ _)) by lia. cbn [unreplayed b2z].
      change (members (mk_list (count x - 1) _ _ _)) with (members x). lia.
    + apply lookup_app_Some in Hk as [Hk|[Hge Hk]].
      * apply list_ok_open; [by apply Hl|lia|]. apply lookup_lt_Some in Hk. lia.
      * destruct (k - length (lists p))%nat as [|n] eqn:En; [|by destruct n]. injection Hk as <-.
        replace (front p + Z.of_nat k) with (open + 1) by lia. constructor; cbn.
        -- done.
        -- constructor.
        -- intros a. split; [by intros ?%not_elem_of_nil|]. intros (q & Hq & Hqs).
           destruct (Hp a q Hq); lia.
        -- rewrite Z.eqb_refl. done.
  - intros a q Hq. destruct (Hp a q Hq); [by left|right]. lia.
  - done.
  - done.
Qed.

Lemma flush_finish_ok g m open wrote empty : meta_ok g m open ->
  exists m', flush_finish g open wrote empty m = Some m' /\ meta_ok g m' (open + 1) /\ pins (jp m') = pins (jp m) /\
    seq_ondisk m' = open /\ last_seq_ondisk (js m) <= last_seq_ondisk (js m') /\
    0 <= cur_entry_sectors (js m') <= max_sectors g /\
    forall x, head (lists (jp m')) = Some x -> count x <> 0 \/ open < last_seq (js m').
Proof.
  intros [Hp Hd Hl]. unfold flush_finish.
  destruct (pins_open_next_ok _ _ Hp) as (p' & -> & Hp' & Ep & Ef). bind_simpl.
  set (L := Z.max _ _).
  destruct (update_last_seq_ok g (mk_meta p' (set_last_seq_ondisk L (js m)) open) (open + 1))
    as (m' & -> & Hm' & Epp & _ & Es & EL & Hh); [done|apply (dev_ok_mono _ _ (last_seq_ondisk (js m)) L); [unfold L; lia|done]|].
  bind_simpl. destruct Hm' as [Hp2 Hd2 Hl2].
  destruct (recount_ok g (npins (jp m')) (js m') Hd2) as (s' & -> & Hd3 & E1 & E2 & Hc). bind_simpl.
  eexists. split; [done|]. cbn in *. split_and!; [|congruence|done| |lia|lia|].
  - constructor; cbn; [done|done|congruence].
  - rewrite E2, EL. unfold L. lia.
  - rewrite E1. exact Hh.
Qed.

(** ** Flushing pins: what is found, and that the loop ends *)

Definition unflushed_of (x : journal_entry_pin_list) : list Z := mjoin (unflushed x).
Definition nunflushed (p : jpins) : nat := length (mjoin (map unflushed_of (lists p))).

Lemma first_pin_elem below above target s t u a : first_pin below above target s t u = Some a -> a ∈ mjoin u.
Proof.
  revert t. induction u as [|ps u IH]; intros t; cbn [first_pin]; [done|]. rewrite mjoin_cons, elem_of_app.
  destruct ps as [|x ps]; [intros H; right; eauto|].
  case_match; [intros [= ->]; left; apply list_elem_of_here|]. intros H1. right. eauto.
Qed.

Lemma first_pin_none below above target s t u k ps : first_pin below above target s t u = None ->
  u !! k = Some ps -> Z.testbit below (Z.of_nat (t + k)) = true -> s <= target -> ps = [].
Proof.
  revert t k. induction u as [|qs u IH]; intros t k; cbn [first_pin]; [done|]. intros H Hk Hb Hs.
  destruct k as [|k].
  - injection Hk as ->. rewrite Nat.add_0_r in Hb. destruct ps as [|x ps]; [done|].
    unfold type_allowed in H. rewrite Hb, (proj2 (Z.leb_le _ _)) in H by lia. done.
  - rewrite Nat.add_succ_r in Hb. destruct qs; [by apply (IH (S t) k)|]. case_match; [done|by apply (IH (S t) k)].
Qed.

Lemma next_pin_some below above target s l a s' : next_pin below above target s l = Some (a, s') ->
  exists i x, l !! i = Some x /\ s' = s + Z.of_nat i /\ a ∈ unflushed_of x.
Proof.
  revert s. induction l as [|x l IH]; intros s; cbn [next_pin]; [done|].
  destruct (unreplayed x); [done|]. destruct (_ && _); [done|].
  destruct (first_pin _ _ _ _ _ _) as [pin|] eqn:E.
  - intros [= -> ->]. exists 0%nat, x. split_and!; [done|lia|]. by eapply first_pin_elem.
  - intros (i & y & Hi & -> & Ha)%IH. exists (S i), y. split_and!; [done|lia|done].
Qed.

Lemma next_pin_none below above target s l i x t ps : next_pin below above target s l = None ->
  l !! i = Some x -> (forall k y, (k <= i)%nat -> l !! k = Some y -> unreplayed y = false) ->
  s + Z.of_nat i <= target -> Z.testbit below (Z.of_nat t) = true -> unflushed x !! t = Some ps -> ps = [].
Proof.
  revert s i. induction l as [|y l IH]; intros s i; cbn [next_pin]; [done|]. intros H Hi Hr Hs Hb Ht.
  rewrite (Hr 0%nat y) in H by (done || lia). rewrite (proj2 (Z.ltb_ge target s)) in H by lia. cbn [andb] in H.
  destruct (first_pin _ _ _ _ _ _) as [pin|] eqn:E; [done|]. destruct i as [|i].
  - injection Hi as ->. eapply (first_pin_none _ _ _ _ 0); [exact E|exact Ht|done|lia].
  - apply (IH (s + 1) i); try done; [|lia]. intros k z Hk Hz. apply (Hr (S k) z); [lia|done].
Qed.

Lemma mark_members pin x l' :
  l' = mk_list (count x) (map (retain_not pin) (unflushed x))
         (if bool_decide (pin ∈ flushed x) then flushed x else flushed x ++ [pin]) (unreplayed x) ->
  NoDup (members x) -> pin ∈ members x -> members l' ≡ₚ members x /\
  (pin ∈ unflushed_of x -> length (unflushed_of x) = S (length (unflushed_of l'))) /\
  (length (unflushed_of l') <= length (unflushed_of x))%nat.
Proof.
  intros -> Hnd Hin. unfold members, unflushed_of in *. cbn [unflushed flushed].
  rewrite mjoin_retain.
  apply NoDup_app in Hnd as (H1 & Hd & H2). split_and!.
  - apply elem_of_app in Hin as [Hu|Hf].
    + rewrite bool_decide_eq_false_2 by (by apply Hd).
      apply list_elem_of_split in Hu as (l1 & l2 & E). rewrite E in *.
      apply NoDup_app in H1 as (N1 & D1 & N2). apply NoDup_cons in N2 as [N2 N3].
      unfold retain_not. rewrite filter_app, filter_cons_False by auto. fold (retain_not pin l1) (retain_not pin l2).
      rewrite !retain_id; [|done|intros H; apply (D1 _ H), list_elem_of_here].
      rewrite <- !app_assoc. apply Permutation_app_head. cbn. rewrite app_assoc. by rewrite <- Permutation_cons_append.
    + rewrite bool_decide_eq_true_2, retain_id by (done || by intros H; apply (Hd _ H)). done.
  - intros Hu. by apply retain_length.
  - unfold retain_not. apply length_filter.
Qed.

Lemma nunflushed_insert p i x x' : lists p !! i = Some x ->
  (nunflushed (set_lists (<[i := x']> (lists p)) p) + length (unflushed_of x) =
   nunflushed p + length (unflushed_of x'))%nat.
Proof.
  unfold nunflushed. cbn. generalize (lists p). intros l. revert i. induction l as [|y l IH]; intros i; [done|].
  destruct i as [|i]; cbn [lookup list_lookup].
  - intros [= ->]. change (<[0%nat := x']> (x :: l)) with (x' :: l). cbn [map]. rewrite !mjoin_cons, !length_app. lia.
  - intros Hi. specialize (IH i Hi). change (<[S i := x']> (y :: l)) with (y :: <[i := x']> l). cbn [map].
    rewrite !mjoin_cons, !length_app. lia.
Qed.

Lemma alter_lookup_insert {A} (f : A -> A) (l : list A) i x : l !! i = Some x -> alter f i l = <[i := f x]> l.
Proof.
  intros Hx. apply list_eq. intros k. destruct (decide (k = i)) as [->|].
  - rewrite list_lookup_alter_eq, Hx, list_lookup_insert_eq; [done|by eapply lookup_lt_Some].
  - by rewrite list_lookup_alter_ne, list_lookup_insert_ne.
Qed.

Lemma mark_flushed_ok p open a q : pins_ok p open -> pins p !! a = Some q -> pin_seq q <> 0 ->
  pins_ok (mark_flushed a (pin_seq q) p) open /\ (nunflushed (mark_flushed a (pin_seq q) p) <= nunflushed p)%nat /\
  (forall x, lists p !! Z.to_nat (pin_seq q - front p) = Some x -> a ∈ unflushed_of x ->
     (nunflushed (mark_flushed a (pin_seq q) p) < nunflushed p)%nat).
Proof.
  intros Hp Hq Hact. destruct (po_pins _ _ Hp _ _ Hq) as [|Hs]; [done|].
  destruct (at_seq_spec p open (pin_seq q) Some Hp Hs) as (x & Hx & Hlok & _).
  unfold mark_flushed. rewrite (proj2 (Z.leb_le _ _)) by lia. set (i := Z.to_nat (pin_seq q - front p)) in *.
  set (f := fun x => mk_list (count x) _ _ _). rewrite (alter_lookup_insert _ _ _ x Hx).
  destruct (mark_members a x (f x) eq_refl (lo_nodup _ _ _ _ Hlok)) as (Hm & Hlt & Hle); [apply (lo_mem _ _ _ _ Hlok); eauto|].
  pose proof (nunflushed_insert p i x (f x) Hx) as Hn. split_and!.
  - destruct Hp as [Hf Hw Hl Hpins Hsz Hfn]. constructor; cbn; try done; [by rewrite length_insert|].
    intros k y Hk. apply list_lookup_insert_Some in Hk as [(<- & <- & _)|[Hne Hk]]; [|by apply Hl].
    destruct (Hl _ _ Hx) as [Ht Hnd Hmem Hc]. constructor.
    + unfold f. cbn. by rewrite length_map.
    + by rewrite Hm.
    + intros b. by rewrite Hm.
    + rewrite Hm. done.
  - lia.
  - intros y Hy Ha. assert (y = x) as -> by congruence. specialize (Hlt Ha). lia.
Qed.

(** What the journal relies on from a flush callback: it keeps the pins in
    order and the pin it was called for in memory; when it succeeds it either
    gives up at least one unflushed pin or leaves all of them, and its own, as
    they were. *)
Class FlushCallback (g : option geometry) (open : Z) (cb : callback) : Prop := {
  callback_spec f a s m x : meta_ok g m open ->
    lists (jp m) !! Z.to_nat (s - front (jp m)) = Some x -> a ∈ unflushed_of x ->
    front (jp m) <= s ->
    exists ret m1 q1, cb f a s m = Some (ret, m1) /\ meta_ok g m1 open /\ pins (jp m1) !! a = Some q1 /\
      (nunflushed (jp m1) <= nunflushed (jp m))%nat /\
      (ret = 0 ->
         (nunflushed (jp m1) < nunflushed (jp m))%nat \/
         (nunflushed (jp m1) = nunflushed (jp m) /\ flush_in_progress_dropped (jp m1) = false /\ pin_seq q1 = s /\
          exists x1, lists (jp m1) !! Z.to_nat (s - front (jp m1)) = Some x1 /\ a ∈ unflushed_of x1));
}.

Lemma meta_ok_jp g m open p : meta_ok g m open -> pins_ok p open -> front p = front (jp m) -> meta_ok g (set_jp p m) open.
Proof. intros [Hp Hd Hl] Hp' Hf. constructor; cbn; [done|done|congruence]. Qed.

Lemma mark_flushed_front a s p : front (mark_flushed a s p) = front p.
Proof. unfold mark_flushed. by case_match. Qed.

Lemma flush_pins_nonneg fuel cb target below above min_any n m n' m' : 0 <= n ->
  journal_flush_pins fuel cb target below above min_any n m = Some (n', m') -> 0 <= n'.
Proof.
  revert min_any n m. induction fuel as [|fuel IH]; intros min_any n m Hn; cbn [journal_flush_pins]; [done|].
  destruct (journal_get_next_pin _ _ _ _) as [[[[[pin s] f] p]|]|]; cbn [mbind option_bind]; [|by intros [= <- _]|done].
  destruct (cb f pin s _) as [[ret m1]|]; cbn [mbind option_bind]; [|done].
  destruct (pins (jp m1) !! pin); cbn [mbind option_bind]; [|done].
  destruct (negb (ret =? 0)); [by intros [= <- _]|]. apply IH. lia.
Qed.

Section Flush.
Context (g : option geometry) (open : Z) (cb : callback) {Hcb : FlushCallback g open cb}.

(** The loop ends, with the invariant kept; and when all the callbacks
    succeed, nothing that may be flushed is left. *)
Lemma flush_pins_loop fuel target below above min_any n m :
  meta_ok g m open -> flush_in_progress (jp m) = 0 -> (nunflushed (jp m) < fuel)%nat -> 0 <= min_any ->
  exists n' m', journal_flush_pins fuel cb target below above min_any n m = Some (n', m') /\
    meta_ok g m' open /\ flush_in_progress (jp m') = 0 /\
    Z.of_nat (nunflushed (jp m')) + n' <= Z.of_nat (nunflushed (jp m)) + n /\
    ((forall f a s m0 ret m1, cb f a s m0 = Some (ret, m1) -> ret = 0) ->
     exists b a', (min_any = 0 -> b = below /\ a' = above) /\
       next_pin b a' target (front (jp m')) (lists (jp m')) = None).
Proof.
  revert min_any n m. induction fuel as [|fuel IH]; intros min_any n m Hm Hfp Hfuel Hmin; [lia|].
  cbn [journal_flush_pins]. set (b' := if min_any =? 0 then below else MAX 32).
  set (a' := if min_any =? 0 then above else MAX 32). unfold journal_get_next_pin.
  destruct (next_pin b' a' target (front (jp m)) (lists (jp m))) as [[pin s]|] eqn:E; last first.
  { cbn. exists n, m. split_and!; [done..|lia|]. intros _. exists b', a'. split; [|done]. intros ->. done. }
  destruct (next_pin_some _ _ _ _ _ _ _ E) as (i & x & Hi & Es & Hin).
  pose proof (mo_pins _ _ _ Hm) as Hp. pose proof (po_front _ _ Hp) as Hf.
  assert (exists q, pins (jp m) !! pin = Some q /\ pin_seq q = s) as (q & Hq & Hqs).
  { destruct (proj1 (lo_mem _ _ _ _ (po_lists _ _ Hp i x Hi) pin)) as (q & Hq & Hqs).
    - unfold members. apply elem_of_app. by left.
    - exists q. split; [done|lia]. }
  destruct (po_flush _ _ Hp _ _ Hq) as [f Hfl]; [lia|].
  rewrite Hq. bind_simpl. rewrite Hfl. bind_simpl. rewrite Hfp. cbn [Z.eqb assert]. bind_simpl.
  set (m0 := set_jp (set_in_progress pin false (jp m)) m).
  assert (meta_ok g m0 open) as Hm0 by (apply meta_ok_jp; [done|by apply pins_ok_flags|done]).
  destruct (callback_spec f pin s m0 x Hm0) as (ret & m1 & q1 & Ecb & Hm1 & Hq1 & Hle1 & Hret).
  { cbn. by replace (Z.to_nat (s - front (jp m))) with i by lia. }
  { done. }
  { cbn. lia. }
  rewrite Ecb. bind_simpl. rewrite Hq1. bind_simpl.
  set (p1 := if (ret =? 0) && negb (flush_in_progress_dropped (jp m1)) && (pin_seq q1 =? s) then mark_flushed pin s (jp m1) else jp m1).
  assert (pins_ok p1 open /\ front p1 = front (jp m1) /\ (ret = 0 -> (nunflushed p1 < nunflushed (jp m))%nat) /\
    (nunflushed p1 <= nunflushed (jp m1))%nat) as (Hp1 & Hf1 & Hn1 & Hn1').
  { unfold p1. pose proof (mo_pins _ _ _ Hm1) as Hpm1.
    change (nunflushed (jp m0)) with (nunflushed (jp m)) in Hret.
    destruct (Z.eqb_spec ret 0) as [->|Hr]; cbn [andb]; [|split_and!; [done|done|lia|lia]].
    specialize (Hret eq_refl). destruct (flush_in_progress_dropped (jp m1)) eqn:Ed; cbn [negb andb].
    { split_and!; [done|done| |done]. intros _. destruct Hret as [|(_ & ? & _)]; [done|congruence]. }
    destruct (Z.eqb_spec (pin_seq q1) s) as [Hqs1|Hqs1].
    - destruct (mark_flushed_ok (jp m1) open pin q1) as (Hok & Hle & Hlt); [done|done|lia|]. rewrite Hqs1 in *.
      split_and!; [done|apply mark_flushed_front| |done]. intros _.
      destruct Hret as [|(Heq & _ & _ & x1 & Hx1 & Hin1)]; [lia|]. specialize (Hlt _ Hx1 Hin1). lia.
    - split_and!; [done|done| |done]. intros _. destruct Hret as [|(_ & _ & ? & _)]; [done|congruence]. }
  set (m2 := set_jp (set_in_progress 0 false p1) m1).
  assert (meta_ok g m2 open) as Hm2 by (apply meta_ok_jp; [done|by apply pins_ok_flags|done]).
  destruct (Z.eqb_spec ret 0) as [Hr|Hr]; cbn [negb].
  - destruct (IH (if min_any =? 0 then 0 else min_any - 1) (n + 1) m2) as (n' & m' & EI & H1 & H2 & H2' & H3); [done|done| | |].
    + specialize (Hn1 Hr). change (nunflushed (jp m2)) with (nunflushed p1). lia.
    + destruct (Z.eqb_spec min_any 0); lia.
    + exists n', m'. split_and!; try done.
      { specialize (Hn1 Hr). change (nunflushed (jp m2)) with (nunflushed p1) in H2'. lia. }
      intros Hall. destruct (H3 Hall) as (b & a & Hb & Hnone).
      exists b, a. split; [|done]. intros ->. by apply Hb.
  - exists n, m2. split_and!; try done.
    { change (nunflushed (jp m2)) with (nunflushed p1). change (nunflushed (jp m0)) with (nunflushed (jp m)) in *. lia. }
    intros Hall. by specialize (Hall _ _ _ _ _ _ Ecb).
Qed.

Lemma seq_to_flush_ok d L : dev_ok g d L -> exists s, journal_seq_to_flush d = Some s.
Proof.
  intros [[Hn _]|[Hr _]]; unfold journal_seq_to_flush.
  - rewrite Hn. by exists 0.
  - destruct (ro_nr32 _ _ Hr) as [Hn Hn32]. pose proof (ro_cur _ _ Hr). pose proof (ro_nr _ _ Hr) as Hnr.
    pose proof (ro_len _ _ Hr). change (2 ^ 31) with 2147483648 in Hnr.
    rewrite (proj2 (Z.eqb_neq _ _)) by lia.
    assert (nr (d) / 2 < 2147483648) by (apply Z.div_lt_upper_bound; lia).
    rewrite uadd_ok by (change (2 ^ 32) with 4294967296; lia). bind_simpl.
    pose proof (Z.mod_pos_bound (cur_idx d + nr d / 2) (nr d) Hn).
    apply lookup_lt_is_Some_2. lia.
Qed.

(** Reclaim ends: every turn but the last flushes a pin. *)
Lemma reclaim_loop_ok fuel direct kicked n m :
  meta_ok g m open -> flush_in_progress (jp m) = 0 -> (nunflushed (jp m) < fuel)%nat ->
  exists n' m', journal_reclaim_loop fuel cb direct kicked n m = Some (n', m') /\
    meta_ok g m' open /\ flush_in_progress (jp m') = 0.
Proof.
  revert kicked n m. induction fuel as [|fuel IH]; intros kicked n m Hm Hf Hfuel; [lia|].
  cbn [journal_reclaim_loop]. destruct (seq_to_flush_ok _ _ (mo_dev _ _ _ Hm)) as [target ->]. bind_simpl.
  set (min_nr := if kicked || journal_med_on_space (js m) then 1 else 0).
  destruct (flush_pins_loop (S fuel) target (MAX 32) 0 min_nr 0 m Hm Hf Hfuel) as (k & m' & E & Hm' & Hf' & Hle & _).
  { unfold min_nr. case_match; lia. }
  rewrite E. cbn [mbind option_bind].
  destruct (direct || (min_nr =? 0) || (k =? 0)) eqn:Estop; [by eexists _, _|].
  apply orb_false_iff in Estop as [_ Hk%Z.eqb_neq].
  apply IH; [done|done|].
  assert (0 <= k) by (by eapply flush_pins_nonneg; [|exact E]).
  lia.
Qed.

End Flush.

(** ** A callback that writes the data out and drops the pin *)

Lemma pop_nunflushed ond s l s' l' : pop_done ond s l = (s', l') ->
  (length (mjoin (map unflushed_of l')) <= length (mjoin (map unflushed_of l)))%nat.
Proof.
  intros (gone & -> & _)%pop_done_spec. rewrite map_app. clear. induction gone as [|x gone IH]; [done|].
  cbn [map app]. rewrite mjoin_cons, length_app. lia.
Qed.

Lemma update_last_seq_nunflushed g m m' : bch2_journal_update_last_seq g m = Some m' ->
  (nunflushed (jp m') <= nunflushed (jp m))%nat.
Proof.
  unfold bch2_journal_update_last_seq. destruct (pop_done _ _ _) as [s l] eqn:E.
  apply pop_nunflushed in E. destruct (negb _); [|by intros [= <-]].
  destruct (recount _ _ _); [|done]. by intros [= <-].
Qed.

Lemma pin_drop_nunflushed p open pin q x p' : pins_ok p open -> pins p !! pin = Some q -> pin_seq q <> 0 ->
  lists p !! Z.to_nat (pin_seq q - front p) = Some x -> pin ∈ unflushed_of x -> pin_drop_lists pin p = Some p' ->
  (nunflushed p' < nunflushed p)%nat.
Proof.
  intros Hp Hq Hact Hx Hin. unfold pin_drop_lists. rewrite Hq. bind_simpl.
  destruct (po_pins _ _ Hp _ _ Hq) as [|Hs]; [done|].
  destruct (at_seq_spec p open (pin_seq q) (list_drop_pin pin) Hp Hs) as (x' & Hx' & Hlok & ->).
  assert (x' = x) as -> by congruence. unfold list_drop_pin. destruct (assert _); [|done]. bind_simpl.
  pose proof (lo_nodup _ _ _ _ Hlok) as (Hnd & _ & _)%NoDup_app.
  pose proof (retain_length _ _ Hnd Hin) as Hlen. rewrite <- mjoin_retain in Hlen.
  set (x2 := mk_list _ _ _ _). pose proof (nunflushed_insert p _ x x2 Hx) as Hn.
  unfold unflushed_of in Hn at 2. cbn [unflushed x2] in Hn.
  change (length (unflushed_of x)) with (length (mjoin (unflushed x))) in Hn.
  intros [= <-]. destruct (flush_in_progress _ =? pin); unfold nunflushed in *; cbn in *; lia.
Qed.

Definition flush_by_drop (g : option geometry) : callback :=
  fun _ pin _ m => m' ← bch2_journal_pin_drop g pin m; Some (0, m').

#[global] Instance flush_by_drop_callback g open : FlushCallback g open (flush_by_drop g).
Proof.
  constructor. intros f a s m x Hm Hx Hin Hs. pose proof (mo_pins _ _ _ Hm) as Hp. pose proof (po_front _ _ Hp) as Hf.
  destruct (proj1 (lo_mem _ _ _ _ (po_lists _ _ Hp _ x Hx) a)) as (q & Hq & Hqs).
  { unfold members. apply elem_of_app. by left. }
  assert (pin_seq q = s) as Hqs' by lia.
  destruct (pin_drop_ok g m open a q Hm Hq) as (m' & q' & E & Hm' & Hq' & Hz).
  exists 0, m', q'. unfold flush_by_drop. rewrite E.
  assert (nunflushed (jp m') < nunflushed (jp m))%nat as Hlt; [|split_and!; try done; [lia|by left]].
  unfold bch2_journal_pin_drop in E. rewrite Hq in E. cbn [mbind option_bind] in E.
  rewrite (proj2 (Z.eqb_neq _ _)) in E by lia.
  destruct (pin_drop_lists a (jp m)) as [p1|] eqn:Ep; [|done]. cbn [mbind option_bind] in E.
  apply update_last_seq_nunflushed in E. cbn in E.
  pose proof (pin_drop_nunflushed _ _ _ _ x _ Hp Hq ltac:(lia) ltac:(by rewrite Hqs') Hin Ep). lia.
Qed.

(** ** The pins and the space as a transition system *)

Definition meta_default : jmeta :=
  mk_meta (mk_pins 1 [journal_pin_list_init 1] ∅ 0 false)
    (mk_jspace dev_default 1 1 (replicate 4 no_space) 0 BCH_WATERMARK_stripe 0 0 false) 0.

Lemma meta_default_ok g : meta_ok g meta_default 1.
Proof.
  constructor; cbn.
  - constructor; cbn; try done.
    intros [|i] l; [|by destruct i]. intros [= <-]. constructor; cbn; [done|constructor| |done].
    intros a. split; [by intros ?%not_elem_of_nil|]. by intros (q & ?%lookup_empty_Some & _).
  - by left.
  - done.
Qed.

Section System.
Context (g : option geometry) (level : Z -> Z).

(** A pin comes into being inactive with the node that embeds it, and goes
    away inactive.  Entries are pinned by sequence numbers between the oldest
    one kept and the open one. *)
Inductive mstep : jmeta * Z -> jmeta * Z -> Prop :=
  | mstep_new m open a : pins (jp m) !! a = None -> Z.of_nat (size (pins (jp m))) + 1 < 2 ^ 31 ->
      mstep (m, open) (set_jp (set_pins (<[a := mk_pin 0 None]> (pins (jp m))) (jp m)) m, open)
  | mstep_free m open a q : pins (jp m) !! a = Some q -> pin_seq q = 0 ->
      mstep (m, open) (set_jp (set_pins (delete a (pins (jp m))) (jp m)) m, open)
  | mstep_add m open s a f m' : last_seq (js m) <= s <= open ->
      bch2_journal_pin_add g level s a f m = Some m' -> mstep (m, open) (m', open)
  | mstep_update m open s a f m' : last_seq (js m) <= s <= open ->
      bch2_journal_pin_update g level s a f m = Some m' -> mstep (m, open) (m', open)
  | mstep_drop m open a m' : bch2_journal_pin_drop g a m = Some m' -> mstep (m, open) (m', open)
  | mstep_replayed m open s e m' : bch2_journal_replay_pins_put g s e m = Some m' -> mstep (m, open) (m', open)
  | mstep_ondisk m open v ret m' :
      bch2_journal_update_last_seq_ondisk g open v m = Some (ret, m') -> mstep (m, open) (m', open)
  | mstep_flush m open wrote empty m' :
      flush_finish g open wrote empty m = Some m' -> mstep (m, open) (m', open + 1).

Lemma new_pins_ok p open a : pins_ok p open -> pins p !! a = None -> Z.of_nat (size (pins p)) + 1 < 2 ^ 31 ->
  pins_ok (set_pins (<[a := mk_pin 0 None]> (pins p)) p) open.
Proof.
  intros [Hf Hw Hl Hp Hs Hfn] Ha Hsz. constructor; cbn; try done.
  - intros i l Hi. destruct (Hl i l Hi) as [Ht Hnd Hm Hc]. constructor; try done. intros b. rewrite Hm.
    destruct (decide (b = a)) as [->|]; [|by rewrite lookup_insert_ne].
    rewrite lookup_insert_eq, Ha. split; [by intros (? & ? & _)|]. intros (q & [= <-] & Hz). cbn in Hz. lia.
  - intros b q. destruct (decide (b = a)) as [->|]; [|rewrite lookup_insert_ne by done; apply Hp].
    rewrite lookup_insert_eq. intros [= <-]. by left.
  - rewrite map_size_insert_None by done. lia.
  - intros b q. destruct (decide (b = a)) as [->|]; [|rewrite lookup_insert_ne by done; apply Hfn].
    rewrite lookup_insert_eq. by intros [= <-].
Qed.

Lemma free_pins_ok p open a q : pins_ok p open -> pins p !! a = Some q -> pin_seq q = 0 ->
  pins_ok (set_pins (delete a (pins p)) p) open.
Proof.
  intros [Hf Hw Hl Hp Hs Hfn] Ha Hz. constructor; cbn; try done.
  - intros i l Hi. destruct (Hl i l Hi) as [Ht Hnd Hm Hc]. constructor; try done. intros b. rewrite Hm.
    destruct (decide (b = a)) as [->|]; [|by rewrite lookup_delete_ne].
    rewrite lookup_delete_eq. split; [|by intros (? & ? & _)]. intros (q0 & Hq0 & Hq0s).
    assert (q0 = q) as -> by congruence. lia.
  - intros b q0. rewrite lookup_delete_Some. intros [_ H]. by eapply Hp.
  - rewrite (map_size_delete_Some _ _ (ex_intro _ q Ha)). lia.
  - intros b q0. rewrite lookup_delete_Some. intros [_ H]. by eapply Hfn.
Qed.

Lemma ondisk_ok m open sq v ret m' : meta_ok g m open ->
  bch2_journal_update_last_seq_ondisk g sq v m = Some (ret, m') -> meta_ok g m' open.
Proof.
  intros [Hp Hd Hl]. unfold bch2_journal_update_last_seq_ondisk.
  destruct (_ || _); [by intros [= <- <-]|]. destruct (Z.ltb_spec (last_seq_ondisk (js m)) v); [|by intros [= <- <-]].
  destruct (recount_ok g (npins (jp m)) (set_last_seq_ondisk v (js m))) as (s' & -> & Hd' & E1 & E2 & _).
  { cbn. apply (dev_ok_mono _ _ (last_seq_ondisk (js m))); [lia|done]. }
  intros [= <- <-]. constructor; cbn; [done|done|]. by rewrite E1.
Qed.

Lemma mstep_ok s s' : mstep s s' -> meta_ok g s.1 s.2 -> meta_ok g s'.1 s'.2.
Proof.
  intros Hstep. destruct Hstep as [m open a Ha Hsz|m open a q Ha Hz|m open s a f m' Hs E|m open s a f m' Hs E
    |m open a m' E|m open s e m' E|m open v ret m' E|m open wrote empty m' E]; cbn [fst snd]; intros Hm.
  - apply meta_ok_jp; [done|by apply new_pins_ok; [apply Hm|..]|done].
  - apply meta_ok_jp; [done|by eapply free_pins_ok; [apply Hm|..]|done].
  - rewrite (mo_last _ _ _ Hm) in Hs. pose proof E as E'. unfold bch2_journal_pin_add in E'.
    destruct (pins (jp m) !! a) as [q|] eqn:Hq; [|done].
    destruct (pin_add_ok g level m open a q s f Hm Hq Hs) as (m2 & q2 & E2 & Hm2 & _). congruence.
  - rewrite (mo_last _ _ _ Hm) in Hs. pose proof E as E'. unfold bch2_journal_pin_update in E'.
    destruct (pins (jp m) !! a) as [q|] eqn:Hq; [|done].
    destruct (pin_update_ok g level m open a q s f Hm Hq Hs) as (m2 & q2 & E2 & Hm2 & _). congruence.
  - pose proof E as E'. unfold bch2_journal_pin_drop in E'. destruct (pins (jp m) !! a) as [q|] eqn:Hq; [|done].
    destruct (pin_drop_ok g m open a q Hm Hq) as (m2 & q2 & E2 & Hm2 & _). congruence.
  - destruct (replay_pins_put_ok g m open s e Hm) as (m2 & E2 & Hm2 & _). congruence.
  - by eapply ondisk_ok.
  - destruct (flush_finish_ok g m open wrote empty Hm) as (m2 & E2 & Hm2 & _). congruence.
Qed.

Lemma meta_reachable m open : rtc mstep (meta_default, 1) (m, open) -> meta_ok g m open.
Proof.
  intros H. assert (forall s s', rtc mstep s s' -> meta_ok g s.1 s.2 -> meta_ok g s'.1 s'.2) as Hind.
  { induction 1; eauto using mstep_ok. }
  apply (Hind _ _ H). apply meta_default_ok.
Qed.

End System.

(** The pins in memory that hold the entry of sequence number [s]. *)
Definition pins_at (s : Z) (p : jpins) : gmap Z journal_entry_pin := filter (fun x => pin_seq x.2 = s) (pins p).

Lemma pins_at_members p open s l : list_ok (pins p) open s l -> length (members l) = size (pins_at s p).
Proof.
  intros Hl. rewrite <- (size_list_to_set (C := gset Z)) by apply (lo_nodup _ _ _ _ Hl).
  rewrite <- size_dom. f_equal. apply set_eq. intros a.
  rewrite elem_of_list_to_set, elem_of_dom, (lo_mem _ _ _ _ Hl). unfold pins_at, is_Some.
  split; intros (q & Hq); exists q.
  - by apply map_lookup_filter_Some.
  - by apply map_lookup_filter_Some in Hq.
Qed.

(** C6: in every reachable state [last_seq] is the oldest sequence number kept,
    no pin in memory holds an entry before it, and the count of every entry
    from [last_seq] to the open one is exactly the number of pins in memory that
    hold it, plus one for the open entry and one for an entry not replayed. *)
Theorem journal_pin_counts_exact g level m open :
  rtc (mstep g level) (meta_default, 1) (m, open) ->
  front (jp m) = last_seq (js m) /\ 1 <= last_seq (js m) <= open /\
  (forall a q, pins (jp m) !! a = Some q -> pin_seq q <> 0 -> last_seq (js m) <= pin_seq q <= open) /\
  (forall s, last_seq (js m) <= s <= open -> exists l, lists (jp m) !! Z.to_nat (s - last_seq (js m)) = Some l /\
     count l = Z.of_nat (size (pins_at s (jp m))) + b2z (s =? open) + b2z (unreplayed l)).
Proof.
  intros Hm%meta_reachable. destruct Hm as [Hp Hd Hl]. rewrite Hl. pose proof (po_front _ _ Hp).
  split_and!; [done|lia|lia|..].
  - intros a q Hq Hact. by destruct (po_pins _ _ Hp a q Hq).
  - intros s Hs. destruct (at_seq_spec _ _ s Some Hp Hs) as (l & Hx & Hlok & _). exists l. split; [done|].
    rewrite (lo_count _ _ _ _ Hlok). by rewrite (pins_at_members _ _ _ _ Hlok).
Qed.

Lemma journal_pin_counts_exact_witness :
  exists m, rtc (mstep None (fun _ => 0)) (meta_default, 1) (m, 1) /\ size (pins_at 1 (jp m)) = 1%nat /\
    exists l, lists (jp m) !! 0%nat = Some l /\ count l = 2.
Proof.
  set (m1 := set_jp (set_pins (<[7 := mk_pin 0 None]> ∅) (jp meta_default)) meta_default).
  set (m2 := set_jp (mk_pins 1 [mk_list 2 [[]; []; []; [7]; []; []] [] false]
               (<[7 := mk_pin 1 (Some bch2_btree_node_flush0)]> ∅) 0 false) meta_default).
  assert (rtc (mstep None (fun _ => 0)) (meta_default, 1) (m2, 1)) as Hr.
  { apply rtc_l with (m1, 1); [by apply mstep_new|]. apply rtc_once.
    apply (mstep_add None (fun _ => 0) m1 1 1 7 bch2_btree_node_flush0); [cbn; lia|reflexivity]. }
  exists m2. split; [done|]. split; [reflexivity|].
  destruct (journal_pin_counts_exact _ _ _ _ Hr) as (_ & _ & _ & Hc).
  destruct (Hc 1) as (l & Hl & E); [cbn; lia|]. exists l. split; [exact Hl|]. rewrite E.
  injection Hl as <-. reflexivity.
Defined.

(** pinning, repinning and dropping a pin of a reachable state do not
    panic, for any sequence number between [last_seq] and the open one: adding
    keeps the older of two numbers, updating the newer, dropping leaves none. *)
Theorem journal_pin_ops_total g level m open a q s f :
  rtc (mstep g level) (meta_default, 1) (m, open) -> pins (jp m) !! a = Some q -> last_seq (js m) <= s <= open ->
  (exists m' q', bch2_journal_pin_add g level s a f m = Some m' /\ pins (jp m') !! a = Some q' /\
     pin_seq q' = (if pin_seq q =? 0 then s else Z.min (pin_seq q) s)) /\
  (exists m' q', bch2_journal_pin_update g level s a f m = Some m' /\ pins (jp m') !! a = Some q' /\
     pin_seq q' = Z.max (pin_seq q) s) /\
  (exists m' q', bch2_journal_pin_drop g a m = Some m' /\ pins (jp m') !! a = Some q' /\ pin_seq q' = 0).
Proof.
  intros Hm%meta_reachable Hq Hs. rewrite (mo_last _ _ _ Hm) in Hs. split_and!.
  - destruct (pin_add_ok g level m open a q s f Hm Hq Hs) as (m' & q' & H1 & _ & H2 & H3). eauto 6.
  - destruct (pin_update_ok g level m open a q s f Hm Hq Hs) as (m' & q' & H1 & _ & H2 & H3). eauto 6.
  - destruct (pin_drop_ok g m open a q Hm Hq) as (m' & q' & H1 & _ & H2 & H3). eauto 6.
Qed.

Lemma journal_pin_ops_total_witness :
  exists m m' q', pins (jp m) !! 7 = Some (mk_pin 0 None) /\
    bch2_journal_pin_add None (fun _ => 0) 1 7 bch2_btree_node_flush0 m = Some m' /\
    pins (jp m') !! 7 = Some q' /\ pin_seq q' = 1.
Proof.
  set (m1 := set_jp (set_pins (<[7 := mk_pin 0 None]> ∅) (jp meta_default)) meta_default).
  assert (rtc (mstep None (fun _ => 0)) (meta_default, 1) (m1, 1)) as Hr
    by (apply rtc_once; by apply mstep_new).
  destruct (journal_pin_ops_total None (fun _ => 0) m1 1 7 (mk_pin 0 None) 1 bch2_btree_node_flush0 Hr)
    as ((m' & q' & H1 & H2 & H3) & _ & _); [reflexivity|cbn; lia|].
  exists m1, m', q'. split_and!; [reflexivity|exact H1|exact H2|exact H3].
Defined.

(** given callbacks that keep their promise, flushing pins ends after at
    most one call per unflushed pin, keeps the invariant, and when every
    callback succeeds leaves no unflushed pin of an allowed type on any entry up
    to the target, before the first entry not replayed. *)
Theorem journal_flush_pins_complete g open cb target below m :
  FlushCallback g open cb -> meta_ok g m open -> flush_in_progress (jp m) = 0 ->
  (forall f a s m0 ret m1, cb f a s m0 = Some (ret, m1) -> ret = 0) ->
  exists n m', journal_flush_pins (S (nunflushed (jp m))) cb target below 0 0 0 m = Some (n, m') /\
    meta_ok g m' open /\
    forall i x t ps, lists (jp m') !! i = Some x ->
      (forall k y, (k <= i)%nat -> lists (jp m') !! k = Some y -> unreplayed y = false) ->
      last_seq (js m') + Z.of_nat i <= target -> Z.testbit below (Z.of_nat t) = true ->
      unflushed x !! t = Some ps -> ps = [].
Proof.
  intros Hcb Hm Hf Hall.
  destruct (flush_pins_loop g open cb (S (nunflushed (jp m))) target below 0 0 0 m Hm Hf) as (n & m' & E & Hm' & _ & _ & Hn); [lia..|].
  exists n, m'. split_and!; [done..|]. destruct (Hn Hall) as (b & a & Hb & Hnone). destruct (Hb eq_refl) as [-> ->].
  intros i x t ps Hx Hr Ht Hbit Hps. rewrite (mo_last _ _ _ Hm') in Ht.
  by eapply (next_pin_none below 0 target (front (jp m')) (lists (jp m'))).
Qed.

Lemma journal_flush_pins_complete_witness : exists n m',
  journal_flush_pins 1 (flush_by_drop None) 5 (MAX 32) 0 0 0 meta_default = Some (n, m') /\ meta_ok None m' 1.
Proof.
  destruct (journal_flush_pins_complete None 1 (flush_by_drop None) 5 (MAX 32) meta_default
              (flush_by_drop_callback None 1) (meta_default_ok None) eq_refl) as (n & m' & E & Hm & _).
  - intros f a s m0 ret m1. unfold flush_by_drop. destruct (bch2_journal_pin_drop None a m0); [|done]. by intros [= <- _].
  - exists n, m'. split; [exact E|exact Hm].
Defined.

Lemma update_last_seq_in_progress g m m' : bch2_journal_update_last_seq g m = Some m' ->
  flush_in_progress (jp m') = flush_in_progress (jp m).
Proof.
  unfold bch2_journal_update_last_seq. destruct (pop_done _ _ _) as [s l].
  destruct (negb _); [|by intros [= <-]]. destruct (recount _ _ _); [|done]. by intros [= <-].
Qed.

(** A flush leaves the unflushed pins and the reclaim state alone. *)
Lemma flush_finish_keeps g old wrote empty m m' : flush_finish g old wrote empty m = Some m' ->
  (nunflushed (jp m') <= nunflushed (jp m))%nat /\ flush_in_progress (jp m') = flush_in_progress (jp m).
Proof.
  unfold flush_finish. destruct (pins_open_next old (jp m)) as [p|] eqn:Ep; cbn [mbind option_bind]; [|done].
  destruct (bch2_journal_update_last_seq g _) as [m1|] eqn:E1; cbn [mbind option_bind]; [|done].
  destruct (recount _ _ _) as [s|]; cbn [mbind option_bind]; [|done]. intros [= <-]. cbn [jp].
  pose proof (update_last_seq_in_progress _ _ _ E1) as Hi. apply update_last_seq_nunflushed in E1. cbn [jp] in *.
  assert (nunflushed p = nunflushed (jp m) /\ flush_in_progress p = flush_in_progress (jp m)) as [<- <-]; [|done].
  unfold pins_open_next in Ep. destruct (assert _); [|done]. cbn [mbind option_bind] in Ep.
  destruct (usub _ _) as [i|]; [|done]. cbn [mbind option_bind] in Ep.
  destruct (_ !! Z.to_nat i) as [x|] eqn:Ex; [|done]. cbn [mbind option_bind] in Ep.
  destruct (assert _); [|done]. cbn [mbind option_bind] in Ep. injection Ep as <-. split; [|done].
  pose proof (nunflushed_insert (set_lists (lists (jp m) ++ [journal_pin_list_init 1]) (jp m)) _ x
    (mk_list (count x - 1) (unflushed x) (flushed x) (unreplayed x)) Ex) as Hn. cbn in Hn.
  change (unflushed_of (mk_list _ (unflushed x) _ _)) with (unflushed_of x) in Hn.
  assert (nunflushed (set_lists (lists (jp m) ++ [journal_pin_list_init 1]) (jp m)) = nunflushed (jp m)) as E0.
  { unfold nunflushed. cbn [lists set_lists]. generalize (lists (jp m)). intros l. induction l as [|y l IH]; [done|].
    cbn [map app]. rewrite !mjoin_cons, !length_app, IH. done. }
  unfold nunflushed, unflushed_of in *. cbn in Hn, E0 |- *. lia.
Qed.

Lemma flush_finish_lists g old wrote empty m m' : flush_finish g old wrote empty m = Some m' ->
  exists p, pins_open_next old (jp m) = Some p /\ pop_done old (front p) (lists p) = (front (jp m'), lists (jp m')).
Proof.
  unfold flush_finish. destruct (pins_open_next old (jp m)) as [p|]; cbn [mbind option_bind]; [|done].
  unfold bch2_journal_update_last_seq. cbn [jp js seq_ondisk].
  destruct (pop_done old (front p) (lists p)) as [s l] eqn:E. intros H. exists p. split; [done|]. rewrite E.
  destruct (negb _); cbn [mbind option_bind] in H.
  - destruct (recount g _ _) as [s1|]; cbn [mbind option_bind] in H; [|done].
    destruct (recount g _ _) as [s2|]; cbn [mbind option_bind] in H; [|done]. by injection H as <-.
  - destruct (recount g _ _) as [s2|]; cbn [mbind option_bind] in H; [|done]. by injection H as <-.
Qed.

Lemma pins_open_next_front old p p' : pins_open_next old p = Some p' ->
  front p' = front p /\ forall x, head (lists p') = Some x -> forall y, head (lists p) = Some y -> unreplayed x = unreplayed y.
Proof.
  unfold pins_open_next. destruct (assert _); [|done]. cbn [mbind option_bind].
  destruct (usub _ _) as [i|]; [|done]. cbn [mbind option_bind].
  destruct (_ !! Z.to_nat i) as [x|] eqn:Ex; [|done]. cbn [mbind option_bind].
  destruct (assert _); [|done]. cbn [mbind option_bind]. intros [= <-]. split; [done|]. cbn.
  destruct (lists p) as [|y l]; [done|]. cbn in Ex |- *. destruct (Z.to_nat i); cbn in *.
  - injection Ex as ->. by intros z [= <-] y0 [= <-].
  - by intros z [= <-] y0 [= <-].
Qed.

Lemma flush_finish_front g old wrote empty m m' : flush_finish g old wrote empty m = Some m' ->
  front (jp m) <= front (jp m').
Proof.
  intros (p & Ep & E)%flush_finish_lists. apply pins_open_next_front in Ep as [<- _].
  apply pop_done_spec in E as (gone & _ & -> & _). lia.
Qed.

(** When nothing is popped the head is the same entry. *)
Lemma flush_finish_head g old wrote empty m m' x : flush_finish g old wrote empty m = Some m' ->
  (forall y, head (lists (jp m)) = Some y -> unreplayed y = false) -> lists (jp m) <> [] ->
  front (jp m') = front (jp m) -> head (lists (jp m')) = Some x -> unreplayed x = false.
Proof.
  intros (p & Ep & E)%flush_finish_lists Hu Hne Hf Hx. apply pins_open_next_front in Ep as [Hfp Hhead].
  apply pop_done_spec in E as (gone & El & Ef & _). assert (gone = []) as ->.
  { destruct gone; [done|]. cbn in Ef. lia. }
  cbn in El. rewrite El in Hhead. destruct (lists (jp m)) as [|y l] eqn:E; [done|].
  rewrite (Hhead x Hx y eq_refl). by apply Hu.
Qed.
