(* ===== verification/JournalDisk.v ===== *)
(** * Journal records on disk

    How [bch2_journal_flush] lays a record out on the device and how
    [bch2_journal_read] scans the buckets, checks the records, chooses the
    window to replay and installs the state a journal starts with
    ([src/crates/subvol/src/journal.rs]).  Sizes are counted in 64-bit words:
    every size in the code is a multiple of eight bytes. *)

From S2P Require Import Prelude.
From S2P Require Import BkeyPack.
From S2P Require Import Checksum.
From S2P Require Import Superblock.
From S2P Require Import JournalRes.
From S2P Require Import JournalSpace.
From S2P Require Import JournalPins.
From stdpp Require Import base tactics list numbers option gmap sorting.
From Stdlib Require Import ZArith Lia.

Open Scope Z_scope.

(** ** Words and bytes *)

Definition le_bytes64 (w : Z) : list Z :=
  map (fun i => w / 2 ^ (8 * i) mod 2 ^ 8) [0; 1; 2; 3; 4; 5; 6; 7].
Definition bytes_of (ws : list Z) : list Z := ws ≫= le_bytes64.

(** ** Writing *)

(** [n.next_multiple_of(k)]. *)
Definition next_multiple_of (n k : Z) : Z := if n mod k =? 0 then n else n + (k - n mod k).

(** The version, and above it the flags: the checksum type. *)
Definition record_version_flags : Z :=
  Z.lor bcachefs_metadata_version_current (Z.shiftl BCH_CSUM_xxhash 32).

(** The words written for a record: checksum, the magic number of the file
    system, version and flags, and zeros up to a whole block. *)
Definition encode_record (uuid_lo block_words : Z) (r : list Z) : option (list Z) :=
  let write_words := next_multiple_of (Z.of_nat (length r)) block_words in
  let r := <[4%nat := record_version_flags]> (<[2%nat := Z.lxor uuid_lo JSET_MAGIC]> r) in
  csum ← bch2_checksum BCH_CSUM_xxhash (bytes_of (drop 2 r));
  let r := <[1%nat := hi csum]> (<[0%nat := lo csum]> r) in
  Some (r ++ replicate (Z.to_nat write_words - length r) 0).

(** ** Scanning one bucket *)

(** A record found: its sequence number, its bucket, the sectors of the bucket
    used up to its end, and its words. *)
Record found := mk_found { f_seq : Z; f_bucket : Z; f_used : Z; f_record : list Z }.

(** The loop over the records of a bucket, from word [offset]; [inl] is the
    error returned. *)
Fixpoint scan_bucket (fuel : nat) (magic block_words bucket : Z) (data : list Z) (offset max_seq : Z)
    (acc : list found) : option (Z + (list found * Z)) :=
  match fuel with
  | O => None
  | S fuel =>
      let len := Z.of_nat (length data) in
      if len <? offset + JSET_HEADER_U64S then Some (inr (acc, max_seq)) else
      let disk := drop (Z.to_nat offset) data in
      if negb (word disk 2 =? magic) then Some (inr (acc, max_seq)) else
      let seq := word disk 3 in
      let version := word disk 4 mod 2 ^ 32 in
      let flags := word disk 4 / 2 ^ 32 in
      let payload_u64s := word disk 5 mod 2 ^ 32 in
      let record_words := JSET_HEADER_U64S + payload_u64s in
      if (seq =? 0) || (JOURNAL_SEQ_MAX <? seq) || negb (version =? bcachefs_metadata_version_current)
         || negb (Z.land flags 0xf =? BCH_CSUM_xxhash) || negb (Z.land flags (2 ^ 4) =? 0)
         || (len - offset <? record_words)
      then Some (inl (-5)) else
      if seq <? max_seq then Some (inr (acc, max_seq)) else
      let sectors_words := next_multiple_of record_words block_words in
      if len - offset <? sectors_words then Some (inl (-5)) else
      let record := take (Z.to_nat record_words) disk in
      checksum ← bch2_checksum BCH_CSUM_xxhash (bytes_of (drop 2 record));
      if negb (word disk 0 =? lo checksum) || negb (word disk 1 =? hi checksum) then Some (inl (-6)) else
      scan_bucket fuel magic block_words bucket data (offset + sectors_words) seq
        (acc ++ [mk_found seq bucket ((offset + sectors_words) * 8 / 512) (<[2%nat := JSET_MAGIC]> record)])
  end.

(** All the buckets, in the order of the superblock's ranges; the last sequence
    number of each is kept. *)
Fixpoint scan_buckets (magic block_words bucket : Z) (datas : list (list Z)) (acc : list found) (seqs : list Z)
    : option (Z + (list found * list Z)) :=
  match datas with
  | [] => Some (inr (acc, seqs))
  | data :: rest =>
      r ← scan_bucket (S (length data)) magic block_words bucket data 0 0 acc;
      match r with
      | inl err => Some (inl err)
      | inr (acc', max_seq) => scan_buckets magic block_words (bucket + 1) rest acc' (seqs ++ [max_seq])
      end
  end.

(** ** Choosing what to replay *)

(** [sort_by_key] is stable. *)
Fixpoint insert_found (x : found) (l : list found) : list found :=
  match l with
  | [] => [x]
  | y :: l' => if f_seq y <=? f_seq x then y :: insert_found x l' else x :: l
  end.
Definition sort_found (l : list found) : list found := fold_left (fun acc x => insert_found x acc) l [].

Fixpoint conflicting (l : list found) : bool :=
  match l with
  | x :: ((y :: _) as l') =>
      ((f_seq x =? f_seq y) && negb (bool_decide (f_record x = f_record y))) || conflicting l'
  | _ => false
  end.

Fixpoint dedup_found (l : list found) : list found :=
  match l with
  | x :: l' => match dedup_found l' with
               | y :: r => if f_seq x =? f_seq y then x :: r else x :: y :: r
               | [] => [x]
               end
  | [] => []
  end.

Definition JSET_NO_FLUSH (r : list Z) : Z := Z.land (Z.shiftr (word r 4 / 2 ^ 32) 5) 1.

(** The scan for keys of the newest flushed record; it takes all 64 bits of
    the word that holds [u64s]. *)
Fixpoint scan_empty (fuel : nat) (r : list Z) (offset end_ : Z) : option bool :=
  if end_ <=? offset then Some true else
  match fuel with
  | O => None
  | S fuel =>
      w ← r !! Z.to_nat offset;
      if (entry_type w =? BCH_JSET_ENTRY_btree_keys) && negb (entry_u64s w =? 0) then Some false
      else scan_empty fuel r (offset + jset_u64s (entry_u64s w)) end_
  end.

Record journal_start_info := mk_info { i_last_seq : Z; i_replay_end : Z; i_cur_seq : Z; i_clean : bool }.

Definition choose_window (l : list found) : option (Z * Z * bool) :=
  match List.find (fun e => JSET_NO_FLUSH (f_record e) =? 0) (rev l) with
  | Some e =>
      let seq := f_seq e in
      let last := Z.min (word (f_record e) 6) seq in
      clean ← (if seq =? last
               then scan_empty (length (f_record e)) (f_record e) JSET_HEADER_U64S (JSET_HEADER_U64S + word (f_record e) 5)
               else Some false);
      Some (last, seq, clean)
  | None => Some (0, 0, false)
  end.

(** The records from [expected] on follow each other; the number after the
    last, or nothing. *)
Fixpoint contiguous (last replay_end expected : Z) (l : list found) : option Z :=
  match l with
  | [] => Some expected
  | e :: l' =>
      if (f_seq e <? last) || (replay_end <? f_seq e) then contiguous last replay_end expected l'
      else if negb (f_seq e =? expected) then None
      else contiguous last replay_end (expected + 1) l'
  end.

(** ** The state a journal starts with *)

Definition unreplayed_list : journal_entry_pin_list := mk_list 1 (replicate 6 []) [] true.

Definition start_pins (first cur_seq : Z) (p : jpins) : jpins :=
  mk_pins first (replicate (Z.to_nat (cur_seq - first)) unreplayed_list ++ [journal_pin_list_init 1])
    (pins p) (flush_in_progress p) (flush_in_progress_dropped p).

Record read_result := mk_read {
  rr_records : list (list Z);
  rr_info : journal_start_info;
  rr_core : jcore;
  rr_meta : jmeta;
}.

(** [bch2_journal_read] on the contents of the journal's buckets: the bucket
    numbers and the words of each bucket, in the order of the superblock.  The
    errors before the scan ([-1] to [-4]) are about a missing device or
    superblock field. *)
Definition bch2_journal_read (g : geometry) (uuid_lo : Z) (bks : list Z) (datas : list (list Z)) (core : jcore) (m : jmeta)
    : option (Z + read_result) :=
  let block_words := Z.max (g_block_size g) 1 * 64 in
  let magic := Z.lxor uuid_lo JSET_MAGIC in
  scan ← scan_buckets magic block_words 0 datas [] [];
  match scan with
  | inl err => Some (inl err)
  | inr (fs, bucket_seqs) =>
      let fs := sort_found fs in
      if conflicting fs then Some (inl (-7)) else
      let fs := dedup_found fs in
      let highest := match last fs with Some e => Some (f_seq e, f_bucket e, f_used e) | None => None end in
      let cur_seq := match last fs with Some e => f_seq e + 1 | None => 1 end in
      '(last_seq, replay_end, clean) ← choose_window fs;
      let ok := if replay_end =? 0 then true
                else bool_decide (contiguous last_seq replay_end last_seq fs = Some (replay_end + 1)) in
      if negb ok then Some (inl (-8)) else
      let records := map f_record (List.filter (fun e => (last_seq <=? f_seq e) && (f_seq e <=? replay_end)) fs) in
      let pin_front := live_from last_seq cur_seq in
      ja ← journal_read_device (g_bucket_size g) bucket_seqs bks highest last_seq cur_seq;
      let p := start_pins pin_front cur_seq (jp m) in
      let s := js m in
      let s := mk_jspace ja pin_front pin_front (spaces s) (flags s) (watermark s) (cur_entry_sectors s)
                 (cur_entry_error s) (reclaim_kicked s) in
      s ← bch2_journal_space_available (Some g) (npins p) s;
      let cap := if cur_entry_sectors s =? 0 then cur_entry_u64s core
                 else journal_entry_u64s_for_sectors (cur_entry_sectors s) in
      Some (inr (mk_read records (mk_info last_seq replay_end cur_seq clean)
        (mk_core (fresh_state cur_seq) cur_seq cap (fresh_ring cur_seq))
        (mk_meta p s (cur_seq - 1))))
  end.

(** ** Restoring a captured sequence of records *)

Fixpoint check_records (cur_seq previous first : Z) (rs : list (list Z)) : Z + (Z * Z) :=
  match rs with
  | [] => inr (previous, first)
  | r :: rs' =>
      if (length r <? Z.to_nat JSET_HEADER_U64S)%nat || negb (word r 2 =? JSET_MAGIC) || (word r 3 =? 0)
         || (cur_seq <=? word r 3) || (Z.of_nat (length r) - JSET_HEADER_U64S <? word r 5 mod 2 ^ 32)
      then inl (-1) else
      let seq := word r 3 in
      if negb (previous =? 0) && negb (seq =? Z.min (previous + 1) (MAX 64)) then inl (-8)
      else check_records cur_seq seq (if previous =? 0 then seq else first) rs'
  end.

Definition bch2_journal_restore_for_replay (rs : list (list Z)) (cur_seq : Z) (core : jcore) (m : jmeta)
    : Z + (jcore * jmeta * list (list Z)) :=
  if (cur_seq =? 0) || (JOURNAL_SEQ_MAX <? cur_seq) then inl (-1) else
  match check_records cur_seq 0 cur_seq rs with
  | inl err => inl err
  | inr (previous, first) =>
      if negb (previous =? 0) && negb (previous + 1 =? cur_seq) then inl (-8) else
      let s := js m in
      inr (mk_core (fresh_state cur_seq) cur_seq (cur_entry_u64s core) (fresh_ring cur_seq),
           mk_meta (start_pins first cur_seq (jp m))
             (mk_jspace (device s) first first (spaces s) (Z.ldiff (flags s) (Z.shiftl 1 1)) (watermark s)
                (cur_entry_sectors s) (cur_entry_error s) (reclaim_kicked s)) (cur_seq - 1),
           rs)
  end.

(** ** Round trip: what is written is found again *)

(** A record as [bch2_journal_flush] builds it. *)
Record record_ok (r : list Z) : Prop := {
  rk_len : (7 <= length r)%nat;
  rk_size : word r 5 mod 2 ^ 32 = Z.of_nat (length r) - 7;
  rk_magic : word r 2 = JSET_MAGIC;
  rk_seq : 1 <= word r 3 <= JOURNAL_SEQ_MAX;
}.

Lemma word_insert_eq (r : list Z) i x : (i < length r)%nat -> word (<[i := x]> r) i = x.
Proof. intros Hi. unfold word. by rewrite nth_lookup, list_lookup_insert_eq. Qed.
Lemma word_insert_ne (r : list Z) i k x : i <> k -> word (<[i := x]> r) k = word r k.
Proof. intros Hi. unfold word. by rewrite !nth_lookup, list_lookup_insert_ne. Qed.
Lemma word_app_lt (a b : list Z) k : (k < length a)%nat -> word (a ++ b) k = word a k.
Proof. intros Hk. unfold word. by rewrite app_nth1. Qed.

Lemma next_multiple_spec n k : 0 < k -> 0 <= n -> n <= next_multiple_of n k < n + k /\ next_multiple_of n k mod k = 0.
Proof.
  intros Hk Hn. unfold next_multiple_of. pose proof (Z.mod_pos_bound n k Hk).
  destruct (Z.eqb_spec (n mod k) 0); [lia|]. split; [lia|].
  replace (n + (k - n mod k)) with ((n - n mod k) + 1 * k) by lia. rewrite Z.mod_add by lia.
  rewrite Zminus_mod_idemp_r, Z.sub_diag. by apply Z.mod_0_l; lia.
Qed.

Lemma version_flags_fields : record_version_flags mod 2 ^ 32 = bcachefs_metadata_version_current /\
  Z.land (record_version_flags / 2 ^ 32) 0xf = BCH_CSUM_xxhash /\ Z.land (record_version_flags / 2 ^ 32) (2 ^ 4) = 0 /\
  Z.land (Z.shiftr (record_version_flags / 2 ^ 32) 5) 1 = 0.
Proof. by vm_compute. Qed.

(** The record part of what is written. *)
Definition sealed (uuid_lo : Z) (r er : list Z) : Prop :=
  exists csum, bch2_checksum BCH_CSUM_xxhash (bytes_of (drop 2 er)) = Some csum /\
    length er = length r /\ word er 0 = lo csum /\ word er 1 = hi csum /\ word er 2 = Z.lxor uuid_lo JSET_MAGIC /\
    word er 4 = record_version_flags /\
    forall i, i <> 0%nat -> i <> 1%nat -> i <> 2%nat -> i <> 4%nat -> word er i = word r i.

Lemma encode_record_spec uuid_lo block_words r e : record_ok r -> 0 < block_words ->
  encode_record uuid_lo block_words r = Some e ->
  exists er k, e = er ++ replicate k 0 /\ sealed uuid_lo r er /\
    Z.of_nat (length e) = next_multiple_of (Z.of_nat (length r)) block_words.
Proof.
  intros Hr Hb. pose proof (rk_len _ Hr) as Hlen. unfold encode_record.
  set (r1 := <[4%nat := record_version_flags]> (<[2%nat := Z.lxor uuid_lo JSET_MAGIC]> r)).
  destruct (bch2_checksum _ _) as [csum|] eqn:Ec; [|done]. bind_simpl.
  set (er := <[1%nat := hi csum]> (<[0%nat := lo csum]> r1)). intros [= <-].
  assert (length er = length r) as Hl by (unfold er, r1; by rewrite !length_insert).
  eexists er, _. split; [done|]. split.
  - exists csum. assert (drop 2 er = drop 2 r1) as ->.
    { unfold er. rewrite !drop_insert_lt by lia. done. }
    split_and!; [done|done|..]; unfold er, r1.
    + rewrite word_insert_ne by lia. apply word_insert_eq. rewrite !length_insert. lia.
    + apply word_insert_eq. rewrite !length_insert. lia.
    + rewrite !word_insert_ne by lia. apply word_insert_eq. lia.
    + rewrite !word_insert_ne by lia. apply word_insert_eq. rewrite length_insert. lia.
    + intros i H0 H1 H2 H4. by rewrite !word_insert_ne by congruence.
  - destruct (next_multiple_spec (Z.of_nat (length r)) block_words Hb ltac:(lia)) as [Hn _].
    rewrite length_app, length_replicate, Hl. lia.
Qed.


(** What the scan reports for a record. *)
Definition found_as (r : list Z) (f : found) : Prop :=
  f_seq f = word r 3 /\ length (f_record f) = length r /\ JSET_NO_FLUSH (f_record f) = 0 /\
  forall i, i <> 0%nat -> i <> 1%nat -> i <> 4%nat -> word (f_record f) i = word r i.

(** One turn of the scan, on a record written at its offset. *)
Lemma scan_step fuel uuid_lo block_words bucket pre r e post max_seq acc :
  record_ok r -> 0 < block_words -> encode_record uuid_lo block_words r = Some e -> max_seq <= word r 3 ->
  exists f, found_as r f /\ f_bucket f = bucket /\
    scan_bucket (S fuel) (Z.lxor uuid_lo JSET_MAGIC) block_words bucket (pre ++ e ++ post) (Z.of_nat (length pre)) max_seq acc =
    scan_bucket fuel (Z.lxor uuid_lo JSET_MAGIC) block_words bucket (pre ++ e ++ post)
      (Z.of_nat (length pre + length e)) (word r 3) (acc ++ [f]).
Proof.
  intros Hr Hb He Hseq. destruct (encode_record_spec _ _ _ _ Hr Hb He) as (er & k & Ee & Hs & Hle).
  destruct Hs as (csum & Hc & Hlen & H0 & H1 & H2 & H4 & Hi). pose proof (rk_len _ Hr) as H7.
  assert (length er <= length e)%nat as Hee by (rewrite Ee, length_app; lia).
  destruct version_flags_fields as (V1 & V2 & V3 & V4).
  assert (forall i, (i < length er)%nat -> word (e ++ post) i = word er i) as Hw.
  { intros i Hil. rewrite word_app_lt by lia. rewrite Ee. by apply word_app_lt. }
  cbn [scan_bucket]. rewrite !length_app. unfold JSET_HEADER_U64S.
  rewrite (proj2 (Z.ltb_ge _ _)) by lia. rewrite Nat2Z.id, drop_app_length.
  rewrite !Hw by lia. rewrite H2, Z.eqb_refl. cbn [negb].
  rewrite (Hi 3%nat), (Hi 5%nat), H4, V1, V2, V3, (rk_size _ Hr) by done. rewrite !Z.eqb_refl. cbn [negb].
  destruct (rk_seq _ Hr) as [Hs1 Hs2].
  rewrite (proj2 (Z.eqb_neq (word r 3) 0)), (proj2 (Z.ltb_ge JOURNAL_SEQ_MAX _)) by lia.
  replace (7 + (Z.of_nat (length r) - 7)) with (Z.of_nat (length r)) by lia.
  rewrite (proj2 (Z.ltb_ge _ (Z.of_nat (length r)))) by lia. cbn [orb].
  rewrite (proj2 (Z.ltb_ge (word r 3) _)) by lia. rewrite <- Hle.
  rewrite (proj2 (Z.ltb_ge _ (Z.of_nat (length e)))) by lia.
  rewrite Nat2Z.id, <- Hlen. assert (take (length er) (e ++ post) = er) as ->.
  { rewrite Ee, <- app_assoc. apply take_app_length. }
  rewrite Hc. bind_simpl. rewrite H0, H1, !Z.eqb_refl. cbn [negb orb].
  rewrite <- Nat2Z.inj_add. eexists. split; [|split; [|reflexivity]]; [|done].
  split_and!; cbn.
  - done.
  - by rewrite length_insert.
  - unfold JSET_NO_FLUSH. rewrite word_insert_ne, H4 by lia. done.
  - intros i N0 N1 N4. destruct (decide (i = 2%nat)) as [->|].
    + rewrite word_insert_eq by lia. symmetry. apply (rk_magic _ Hr).
    + rewrite word_insert_ne by congruence. by apply Hi.
Qed.

Fixpoint seqs_from (lo : Z) (rs : list (list Z)) : Prop :=
  match rs with
  | [] => True
  | r :: rs' => lo <= word r 3 /\ seqs_from (word r 3) rs'
  end.
Definition last_of (lo : Z) (rs : list (list Z)) : Z := fold_left (fun _ r => word r 3) rs lo.

Lemma scan_end fuel magic block_words bucket pre k max_seq acc : magic <> 0 ->
  scan_bucket (S fuel) magic block_words bucket (pre ++ replicate k 0) (Z.of_nat (length pre)) max_seq acc =
  Some (inr (acc, max_seq)).
Proof.
  intros Hm. cbn [scan_bucket]. destruct (_ <? _); [done|]. rewrite Nat2Z.id, drop_app_length.
  assert (word (replicate k 0) 2 = 0) as ->.
  { unfold word. destruct (nth_in_or_default 2 (replicate k 0) 0) as [H|H]; [|done]. by apply list_elem_of_In, elem_of_replicate in H as [-> _]. }
  rewrite (proj2 (Z.eqb_neq _ _)) by done. done.
Qed.

Lemma encode_nonempty uuid_lo block_words r e : record_ok r -> 0 < block_words ->
  encode_record uuid_lo block_words r = Some e -> (0 < length e)%nat.
Proof.
  intros Hr Hb He. destruct (encode_record_spec _ _ _ _ Hr Hb He) as (er & k & -> & (c & _ & Hl & _) & _).
  rewrite length_app. pose proof (rk_len _ Hr). lia.
Qed.

Lemma scan_records uuid_lo block_words bucket k rs : Z.lxor uuid_lo JSET_MAGIC <> 0 -> 0 < block_words ->
  Forall record_ok rs -> forall es pre fuel max_seq acc,
  Forall2 (fun r e => encode_record uuid_lo block_words r = Some e) rs es ->
  seqs_from max_seq rs -> (length rs < fuel)%nat ->
  exists fs, Forall2 found_as rs fs /\ Forall (fun f => f_bucket f = bucket) fs /\
    scan_bucket fuel (Z.lxor uuid_lo JSET_MAGIC) block_words bucket (pre ++ mjoin es ++ replicate k 0)
      (Z.of_nat (length pre)) max_seq acc = Some (inr (acc ++ fs, last_of max_seq rs)).
Proof.
  intros Hm Hb Hrs. induction Hrs as [|r rs Hr Hrs IH]; intros es pre fuel max_seq acc Hes Hseq Hfuel;
    (destruct fuel as [|fuel]; [cbn in Hfuel; lia|]).
  - apply Forall2_nil_inv_l in Hes as ->. exists []. split; [constructor|]. split; [constructor|].
    rewrite app_nil_r. by apply (scan_end fuel).
  - apply Forall2_cons_inv_l in Hes as (e & es' & He & Hes & ->). destruct Hseq as [Hle Hseq]. cbn in Hfuel.
    change (mjoin (e :: es')) with (e ++ mjoin es'). rewrite <- app_assoc.
    destruct (scan_step fuel uuid_lo block_words bucket pre r e (mjoin es' ++ replicate k 0) max_seq acc Hr Hb He Hle)
      as (f & Hf & Hfb & E).
    rewrite E. destruct (IH es' (pre ++ e) fuel (word r 3) (acc ++ [f]) Hes Hseq ltac:(lia)) as (fs & Hfs & Hbs & E').
    exists (f :: fs). split; [by constructor|]. split; [by constructor|].
    rewrite <- !app_assoc, length_app in E'. exact E'.
Qed.

(** C7: a bucket that was filled with zeros and then with records whose
    sequence numbers do not decrease is scanned back into those records: the
    same sequence numbers, sizes and words, but for the checksum and the version
    that only the disk has. *)
Theorem journal_bucket_roundtrip uuid_lo block_words bucket rs es k :
  Z.lxor uuid_lo JSET_MAGIC <> 0 -> 0 < block_words -> Forall record_ok rs -> seqs_from 0 rs ->
  Forall2 (fun r e => encode_record uuid_lo block_words r = Some e) rs es ->
  let data := mjoin es ++ replicate k 0 in
  exists fs, Forall2 found_as rs fs /\
    scan_bucket (S (length data)) (Z.lxor uuid_lo JSET_MAGIC) block_words bucket data 0 0 [] =
    Some (inr (fs, last_of 0 rs)).
Proof.
  intros Hm Hb Hrs Hseq Hes data.
  destruct (scan_records uuid_lo block_words bucket k rs Hm Hb Hrs es [] (S (length data)) 0 [] Hes Hseq) as (fs & Hfs & _ & E).
  - apply Nat.lt_succ_r. unfold data. rewrite length_app. transitivity (length (mjoin es)); [|lia]. clear Hseq data.
    revert es Hes. induction Hrs as [|r rs Hr Hrs IH]; intros es Hes; [cbn; lia|].
    apply Forall2_cons_inv_l in Hes as (e & es' & He & Hes & ->).
    change (mjoin (e :: es')) with (e ++ mjoin es'). rewrite length_app.
    pose proof (encode_nonempty _ _ _ _ Hr Hb He). specialize (IH es' Hes). cbn. lia.
  - exists fs. split; [done|]. exact E.
Qed.

(** Two small records. *)
Definition sample_records : list (list Z) :=
  [record_header 5 2 4 ++ rows [mk_entry 1 0 0 [9]]; record_header 6 1 5 ++ rows [pad]].

Lemma sample_records_ok : Forall record_ok sample_records.
Proof. repeat (apply Forall_cons_2; [constructor; vm_compute; try split; (done || congruence || lia)|]). by constructor. Qed.

Lemma journal_bucket_roundtrip_witness : exists fs e1 e2,
  map f_seq fs = [5; 6] /\
  scan_bucket 193 (Z.lxor 77 JSET_MAGIC) 64 3 (e1 ++ e2 ++ replicate 64 0) 0 0 [] = Some (inr (fs, 6)).
Proof.
  destruct (encode_record 77 64 (record_header 5 2 4 ++ rows [mk_entry 1 0 0 [9]])) as [e1|] eqn:E1; [|by vm_compute in E1].
  destruct (encode_record 77 64 (record_header 6 1 5 ++ rows [pad])) as [e2|] eqn:E2; [|by vm_compute in E2].
  assert (length e1 = 64%nat) as L1 by (vm_compute in E1; by injection E1 as <-).
  assert (length e2 = 64%nat) as L2 by (vm_compute in E2; by injection E2 as <-).
  destruct (journal_bucket_roundtrip 77 64 3 sample_records [e1; e2] 64) as (fs & Hfs & E).
  - by vm_compute.
  - lia.
  - apply sample_records_ok.
  - vm_compute. split; [congruence|]. split; [congruence|done].
  - constructor; [exact E1|]. constructor; [exact E2|constructor].
  - exists fs, e1, e2. cbn [mjoin list_join app] in E. rewrite app_nil_r, !length_app, length_replicate, L1, L2 in E.
    change (S (64 + 64 + 64)) with 193%nat in E. rewrite <- app_assoc in E. split; [|exact E].
    apply Forall2_cons_inv_l in Hfs as (f1 & fs1 & [H1 _] & Hfs & ->).
    apply Forall2_cons_inv_l in Hfs as (f2 & fs2 & [H2 _] & Hfs & ->).
    apply Forall2_nil_inv_l in Hfs as ->. cbn. by rewrite H1, H2.
Defined.

(** ** What an accepted scan guarantees *)

Definition found_wf (n : Z) (f : found) : Prop :=
  1 <= f_seq f <= JOURNAL_SEQ_MAX /\ 0 <= f_bucket f < n /\ 0 <= f_used f /\ word (f_record f) 3 = f_seq f.

Lemma scan_bucket_wf fuel magic bw bucket data offset ms acc acc' ms' n :
  scan_bucket fuel magic bw bucket data offset ms acc = Some (inr (acc', ms')) ->
  0 < bw -> 0 <= offset -> 0 <= ms -> 0 <= bucket < n -> Forall (found_wf n) acc -> Forall (found_wf n) acc'.
Proof.
  intros H Hb Ho Hms Hbk. revert offset ms acc Ho Hms H.
  induction fuel as [|fuel IH]; intros offset ms acc Ho Hms; cbn [scan_bucket]; [done|].
  destruct (_ <? offset + _); [by intros [= <- <-]|]. set (disk := drop (Z.to_nat offset) data).
  destruct (negb (word disk 2 =? magic)); [by intros [= <- <-]|].
  destruct (Z.eqb_spec (word disk 3) 0) as [|Hnz]; cbn [orb]; [done|].
  destruct (Z.ltb_spec JOURNAL_SEQ_MAX (word disk 3)); cbn [orb]; [done|].
  destruct (negb _ || _ || _ || _); [done|].
  destruct (Z.ltb_spec (word disk 3) ms) as [|Hms']; [by intros [= <- <-]|].
  set (sw := next_multiple_of _ _).
  assert (0 <= sw) as Hsw.
  { pose proof (Z.mod_pos_bound (word disk 5) (2 ^ 32) ltac:(done)).
    destruct (next_multiple_spec (JSET_HEADER_U64S + word disk 5 mod 2 ^ 32) bw Hb); unfold JSET_HEADER_U64S in *; lia. }
  destruct (_ <? sw); [done|]. destruct (bch2_checksum _ _); [|done]. cbn [mbind option_bind].
  destruct (negb _ || negb _); [done|]. intros Hrec Hacc.
  eapply IH; [| |exact Hrec|]; [lia..|]. apply Forall_app. split; [done|].
  apply Forall_cons_2; [|by constructor]. unfold found_wf. cbn [f_seq f_bucket f_used f_record]. split_and!; try lia.
  - apply Z.div_pos; lia.
  - pose proof (Z.mod_pos_bound (word disk 5) (2 ^ 32) ltac:(done)).
    assert (3 < Z.to_nat (JSET_HEADER_U64S + word disk 5 mod 2 ^ 32))%nat as H3 by (unfold JSET_HEADER_U64S; lia).
    rewrite word_insert_ne by done. unfold word at 1 3. by rewrite !nth_lookup, lookup_take_lt.
Qed.

Lemma found_wf_mono n n' l : n <= n' -> Forall (found_wf n) l -> Forall (found_wf n') l.
Proof. intros Hn H. eapply Forall_impl; [exact H|]. intros f (H1 & H2 & H3 & H4). split_and!; try done; lia. Qed.

Lemma scan_buckets_wf magic bw datas : 0 < bw -> forall bucket acc seqs fs seqs',
  scan_buckets magic bw bucket datas acc seqs = Some (inr (fs, seqs')) -> 0 <= bucket ->
  Forall (found_wf bucket) acc ->
  Forall (found_wf (bucket + Z.of_nat (length datas))) fs /\ length seqs' = (length seqs + length datas)%nat.
Proof.
  intros Hb. induction datas as [|data datas IH]; intros bucket acc seqs fs seqs'; cbn [scan_buckets].
  - intros [= <- <-] H0 Hacc. cbn [length Z.of_nat]. by rewrite Z.add_0_r, Nat.add_0_r.
  - destruct (scan_bucket _ _ _ _ _ _ _ _) as [[err|[acc' ms]]|] eqn:E; cbn [mbind option_bind]; [done| |done].
    intros H H0 Hacc. apply scan_bucket_wf with (n := bucket + 1) in E;
      [|done|lia|lia|lia|by apply (found_wf_mono bucket); [lia|]].
    apply IH in H as [H1 H2]; [|lia|done]. rewrite length_app in H2. cbn [length] in *. split; [|lia].
    by replace (bucket + Z.of_nat (S (length datas))) with (bucket + 1 + Z.of_nat (length datas)) by lia.
Qed.

Lemma insert_found_perm x l : insert_found x l ≡ₚ x :: l.
Proof.
  induction l as [|y l IH]; [done|]. cbn. destruct (_ <=? _); [|done]. rewrite IH. apply Permutation_swap.
Qed.

Lemma sort_found_perm l : sort_found l ≡ₚ l.
Proof.
  unfold sort_found. assert (forall acc, fold_left (fun acc x => insert_found x acc) l acc ≡ₚ l ++ acc) as H.
  { induction l as [|x l IH]; intros acc; [done|]. cbn. rewrite IH, insert_found_perm. by rewrite Permutation_middle. }
  by rewrite H, app_nil_r.
Qed.

Definition seq_le (x y : found) : Prop := f_seq x <= f_seq y.

Lemma insert_found_sorted x l : StronglySorted seq_le l -> StronglySorted seq_le (insert_found x l).
Proof.
  induction 1 as [|y l Hl IH Hy]; cbn; [by repeat constructor|].
  destruct (Z.leb_spec (f_seq y) (f_seq x)).
  - constructor; [done|]. rewrite insert_found_perm. by constructor.
  - constructor; [by constructor|]. constructor; [unfold seq_le; lia|].
    eapply Forall_impl; [exact Hy|]. unfold seq_le. intros z Hz. lia.
Qed.

Lemma sort_found_sorted l : StronglySorted seq_le (sort_found l).
Proof.
  unfold sort_found. assert (forall acc, StronglySorted seq_le acc ->
    StronglySorted seq_le (fold_left (fun acc x => insert_found x acc) l acc)) as H.
  { induction l as [|x l IH]; intros acc Hacc; [done|]. cbn. apply IH, insert_found_sorted, Hacc. }
  apply H. constructor.
Qed.

Lemma dedup_found_sublist l : dedup_found l `sublist_of` l.
Proof.
  induction l as [|x l IH]; [done|]. cbn [dedup_found]. destruct (dedup_found l) as [|y r].
  - apply sublist_skip, sublist_nil_l.
  - destruct (_ =? _); [|by apply sublist_skip]. apply sublist_skip. etransitivity; [|exact IH]. by apply sublist_cons.
Qed.

Lemma sublist_sorted (l k : list found) : l `sublist_of` k -> StronglySorted seq_le k -> StronglySorted seq_le l.
Proof.
  induction 1 as [|x l k Hs IH|x l k Hs IH]; [done|..]; intros [Hk Hx]%StronglySorted_inv; [|by apply IH].
  constructor; [by apply IH|]. rewrite Forall_forall in Hx |- *. intros y Hy. apply Hx. by eapply sublist_subseteq.
Qed.

Lemma last_max l e : StronglySorted seq_le l -> last l = Some e -> Forall (fun x => f_seq x <= f_seq e) l.
Proof.
  intros Hs He. apply last_Some in He as [l' ->]. apply Forall_app. split; [|by repeat constructor].
  apply Forall_forall. intros x Hx. apply (StronglySorted_app_1_elem_of seq_le l' [e] x e Hs Hx). apply list_elem_of_here.
Qed.

(** The window that [contiguous] accepts is without gaps. *)
Lemma contiguous_spec last_ end_ l expected r : contiguous last_ end_ expected l = Some r ->
  expected <= r /\
  map f_seq (List.filter (fun e => (last_ <=? f_seq e) && (f_seq e <=? end_)) l) = seqZ expected (r - expected).
Proof.
  revert expected. induction l as [|e l IH]; intros expected; cbn [contiguous List.filter].
  - intros [= <-]. by rewrite Z.sub_diag.
  - destruct (Z.ltb_spec (f_seq e) last_), (Z.ltb_spec end_ (f_seq e)), (Z.leb_spec last_ (f_seq e)),
      (Z.leb_spec (f_seq e) end_); try lia; cbn [orb andb]; try by intros ?%IH.
    destruct (Z.eqb_spec (f_seq e) expected) as [<-|]; cbn [negb]; [|done].
    intros [Hle E]%IH. cbn [map]. split; [lia|].
    rewrite (seqZ_cons (f_seq e)) by lia. f_equal. rewrite E. f_equal; lia.
Qed.

Lemma read_device_free bucket_size bs bks highest last cur_seq ja :
  (forall s b u, highest = Some (s, b, u) -> 0 <= u) -> 0 <= bucket_size ->
  journal_read_device bucket_size bs bks highest last cur_seq = Some ja -> 0 <= sectors_free ja <= bucket_size.
Proof.
  intros Hu Hbs. unfold journal_read_device. destruct highest as [[[s b] u]|].
  - specialize (Hu _ _ _ eq_refl). destruct (usub bucket_size u) as [f|] eqn:E; [|done]. apply usub_Some in E as [? ->].
    cbn. destruct (uadd _ _ _); [|done]. cbn. destruct (ring_advance _ _ _ _ _ _); [|done]. cbn. intros [= <-]. cbn. lia.
  - cbn [mbind option_bind]. destruct (uadd _ _ _); [|done]. cbn [mbind option_bind].
    match goal with |- context [ring_advance ?a ?b ?c ?d ?e ?f] => destruct (ring_advance a b c d e f) end; [|done].
    intros [= <-]. cbn. lia.
Qed.

(** The pin lists of a journal that starts: unreplayed entries, and the open
    one. *)
Lemma empty_list_ok m open s n r : (forall a q, m !! a = Some q -> pin_seq q = 0) -> 1 <= s ->
  n = b2z (s =? open) + b2z r -> list_ok m open s (mk_list n (replicate 6 []) [] r).
Proof.
  intros Hp Hs Hn. constructor; cbn.
  - done.
  - constructor.
  - intros a. split; [by intros ?%not_elem_of_nil|]. intros (q & Hq & E). specialize (Hp a q Hq). lia.
  - lia.
Qed.

Lemma start_pins_ok first cur p : 1 <= first <= cur -> (forall a q, pins p !! a = Some q -> pin_seq q = 0) ->
  Z.of_nat (size (pins p)) < 2 ^ 31 -> pins_ok (start_pins first cur p) cur.
Proof.
  intros Hf Hp Hs. constructor; cbn; try done.
  - rewrite length_app, length_replicate. cbn. lia.
  - intros i l [Hi|[Hge Hi]]%lookup_app_Some.
    + apply lookup_replicate in Hi as [-> Hi]. apply empty_list_ok; [done|lia|].
      by rewrite (proj2 (Z.eqb_neq _ _)) by lia.
    + rewrite length_replicate in Hge, Hi. destruct (i - _)%nat as [|n] eqn:En; [|by destruct n]. injection Hi as <-.
      apply empty_list_ok; [done|lia|]. replace (first + Z.of_nat i) with cur by lia. by rewrite Z.eqb_refl.
  - intros a q Hq. left. by apply (Hp a).
  - intros a q Hq Hne. by specialize (Hp a q Hq).
Qed.

Lemma conflicting_sorted_fs fs n : Forall (found_wf n) fs ->
  Forall (found_wf n) (dedup_found (sort_found fs)) /\ StronglySorted seq_le (dedup_found (sort_found fs)).
Proof.
  intros H. pose proof (dedup_found_sublist (sort_found fs)) as Hs. split.
  - rewrite Forall_forall in H |- *. intros x Hx. apply H. rewrite <- (sort_found_perm fs).
    by eapply elem_of_sublist.
  - by eapply sublist_sorted, sort_found_sorted.
Qed.

Lemma choose_window_spec l last_ end_ clean n : choose_window l = Some (last_, end_, clean) -> Forall (found_wf n) l ->
  (end_ = 0 /\ last_ = 0) \/ (exists e, e ∈ l /\ f_seq e = end_ /\ last_ <= end_ /\ 1 <= end_).
Proof.
  unfold choose_window. destruct (List.find _ _) as [e|] eqn:E; [|by intros [= <- <- _]; left].
  apply List.find_some in E as [Hin _]. intros H Hwf. right. exists e.
  assert (e ∈ l) as Hel by (apply list_elem_of_In; by apply in_rev).
  rewrite Forall_forall in Hwf. destruct (Hwf e Hel) as (Hs & _).
  destruct (if f_seq e =? _ then _ else _) as [c|]; [|done]. cbn in H. injection H as <- <- _.
  split_and!; [done|done|lia|lia].
Qed.

Section Read.
Context (g : geometry) (uuid_lo : Z) (bks : list Z) (datas : list (list Z)) (core : jcore) (m : jmeta).
Context (Hg : 0 < g_bucket_size g <= 2048) (Hn : 0 < Z.of_nat (length datas) < 2 ^ 31).
Context (Hcap : 0 <= cur_entry_u64s core <= BUF_U64S) (Hbks : Forall (fun b => 0 <= b < 2 ^ 40) bks).
Context (Hpins : forall a q, pins (jp m) !! a = Some q -> pin_seq q = 0) (Hsize : Z.of_nat (size (pins (jp m))) < 2 ^ 31).

Lemma read_ok rr : bch2_journal_read g uuid_lo bks datas core m = Some (inr rr) ->
  JournalRes.seq (rr_core rr) <= JOURNAL_SEQ_MAX ->
  let i := rr_info rr in
  i_cur_seq i = JournalRes.seq (rr_core rr) /\
  map (fun r => word r 3) (rr_records rr) = seqZ (i_last_seq i) (if i_replay_end i =? 0 then 0 else i_replay_end i - i_last_seq i + 1) /\
  (i_replay_end i <> 0 -> 1 <= i_last_seq i <= i_replay_end i /\ i_replay_end i < i_cur_seq i) /\
  res_inv (rr_core rr) [] /\ meta_ok (Some g) (rr_meta rr) (i_cur_seq i) /\
  last_seq (js (rr_meta rr)) = live_from (i_last_seq i) (i_cur_seq i).
Proof.
  unfold bch2_journal_read. set (bw := Z.max (g_block_size g) 1 * 64). assert (0 < bw) as Hbw by lia.
  destruct (scan_buckets _ _ _ _ _ _) as [[err|[fs0 seqs]]|] eqn:Es; cbn [mbind option_bind]; [done| |done].
  apply scan_buckets_wf in Es as [Hwf0 Hlen]; [|done|done|by constructor]. cbn [length] in Hlen. rewrite Z.add_0_l, Nat.add_0_l in *.
  destruct (conflicting _); [done|]. destruct (conflicting_sorted_fs _ _ Hwf0) as [Hwf Hsorted].
  set (fs := dedup_found (sort_found fs0)) in *. clearbody fs. clear fs0 Hwf0.
  set (cur_seq := match last fs with Some e => f_seq e + 1 | None => 1 end).
  set (highest := match last fs with Some e => Some (f_seq e, f_bucket e, f_used e) | None => None end).
  assert (Forall (fun x => f_seq x < cur_seq) fs /\ 1 <= cur_seq) as [Hmax Hcur1].
  { unfold cur_seq. destruct (last fs) as [e|] eqn:El.
    - pose proof (last_max _ _ Hsorted El) as Hm. split; [eapply Forall_impl; [exact Hm|]; cbn; lia|].
      apply last_Some in El as [l' ->]. apply Forall_app in Hwf as [_ He]. apply Forall_cons_1 in He as [(? & _) _]. lia.
    - apply last_None in El as ->. split; [by constructor|lia]. }
  assert (forall s b u, highest = Some (s, b, u) -> 0 <= b < Z.of_nat (length seqs) /\ 0 <= u) as Hhigh.
  { intros s b u. unfold highest. destruct (last fs) as [e|] eqn:El; [|done]. intros [= <- <- <-].
    apply last_Some in El as [l' ->]. apply Forall_app in Hwf as [_ He]. apply Forall_cons_1 in He as [(? & ? & ? & _) _].
    rewrite Hlen. lia. }
  destruct (choose_window fs) as [[[last_ end_] clean]|] eqn:Ew; cbn [mbind option_bind]; [|done].
  destruct (negb (if end_ =? 0 then true else _)) eqn:Eok; [done|]. apply negb_false_iff in Eok.
  destruct (journal_read_device _ _ _ _ _ _) as [ja|] eqn:Ed; cbn [mbind option_bind]; [|done].
  set (first := live_from last_ cur_seq) in *.
  assert (map (fun r => word r 3) (map f_record (List.filter (fun e => (last_ <=? f_seq e) && (f_seq e <=? end_)) fs)) =
    seqZ last_ (if end_ =? 0 then 0 else end_ - last_ + 1) /\
    (end_ <> 0 -> 1 <= last_ <= end_ /\ end_ < cur_seq) /\ 1 <= first <= cur_seq) as (Hwin & Hend & Hfirst).
  { assert (map (fun r => word r 3) (map f_record (List.filter (fun e => (last_ <=? f_seq e) && (f_seq e <=? end_)) fs)) =
      map f_seq (List.filter (fun e => (last_ <=? f_seq e) && (f_seq e <=? end_)) fs)) as ->.
    { rewrite map_map. apply map_ext_in. intros x Hx. apply List.filter_In in Hx as [Hx _].
      rewrite Forall_forall in Hwf. apply list_elem_of_In in Hx. by destruct (Hwf x Hx) as (_ & _ & _ & ?). }
    destruct (choose_window_spec _ _ _ _ _ Ew Hwf) as [[-> ->]|(e & He & Hes & Hle & Hpos)].
    - cbn [Z.eqb]. split_and!; [|done|unfold first, live_from; cbn; lia..].
      assert (List.filter (fun e => (0 <=? f_seq e) && (f_seq e <=? 0)) fs = []) as ->; [|done].
      clear -Hwf. induction Hwf as [|x l (Hx & _) _ IH]; [done|]. cbn.
      rewrite (proj2 (Z.leb_gt (f_seq x) 0)), andb_false_r by lia. done.
    - rewrite (proj2 (Z.eqb_neq end_ 0)) in * by lia. apply bool_decide_eq_true in Eok.
      apply contiguous_spec in Eok as [Hr Eq]. rewrite Eq. replace (end_ + 1 - last_) with (end_ - last_ + 1) by lia.
      assert (last_ ∈ map f_seq (List.filter (fun e => (last_ <=? f_seq e) && (f_seq e <=? end_)) fs)) as Hlin.
      { rewrite Eq. apply elem_of_seqZ. lia. }
      apply list_elem_of_In, List.in_map_iff in Hlin as (x & Hx & Hxin). apply List.filter_In in Hxin as [Hxin _].
      rewrite Forall_forall in Hwf, Hmax. apply list_elem_of_In in Hxin. destruct (Hwf x Hxin) as (Hx1 & _).
      specialize (Hmax e He). split_and!; [done|intros _; lia|..];
        unfold first, live_from; rewrite (proj2 (Z.eqb_neq last_ 0)) by lia; cbn [negb]; lia. }
  destruct (read_device_ok _ _ _ _ _ _ _ ltac:(rewrite Hlen; exact Hn) Hbks (fun s b u H => proj1 (Hhigh s b u H)) Ed) as [Hring _].
  assert (0 <= sectors_free ja <= g_bucket_size g) as Hfree
    by (eapply read_device_free; [intros s b u H; apply (Hhigh s b u H)|lia|exact Ed]).
  set (s0 := mk_jspace ja first first (spaces (js m)) (flags (js m)) (watermark (js m)) (cur_entry_sectors (js m))
       (cur_entry_error (js m)) (reclaim_kicked (js m))).
  destruct (space_available_dev (Some g) (npins (start_pins first cur_seq (jp m))) s0) as (s' & E & Hdev & El & Elo & Hsec).
  { right. split; [exact Hring|]. by exists g. }
  rewrite E. cbn [mbind option_bind]. intros [= <-]. cbn [rr_core rr_info rr_records rr_meta JournalRes.seq i_cur_seq i_last_seq i_replay_end].
  intros Hseq. split_and!; try done.
  - apply fresh_inv; [lia|]. destruct (Z.eqb (cur_entry_sectors s') 0); [exact Hcap|].
    assert (cur_entry_sectors s' <= 2048 /\ 0 <= cur_entry_sectors s') as [Hc Hc0] by (cbn in Hsec; lia).
    apply journal_cap_le in Hc; [|done]. unfold JSET_HEADER_U64S in Hc. split; [|lia].
    unfold journal_entry_u64s_for_sectors, sat_sub. unfold JOURNAL_ENTRY_OFFSET_MAX. change (2 ^ 22) with 4194304. lia.
  - constructor; cbn [jp js]; [by apply start_pins_ok|exact Hdev|done].
Qed.

End Read.

(** C8: when [bch2_journal_read] accepts a journal, the records it hands to the
    replay have exactly the sequence numbers from [last_seq] to [replay_end],
    none missing and none twice, and the journal it installs is in order: an
    empty open entry after every record found, exact pin counts that keep the
    unreplayed entries, and a ring of buckets in order. *)
Theorem journal_read_starts g uuid_lo bks datas core m rr :
  0 < g_bucket_size g <= 2048 -> 0 < Z.of_nat (length datas) < 2 ^ 31 -> 0 <= cur_entry_u64s core <= BUF_U64S ->
  Forall (fun b => 0 <= b < 2 ^ 40) bks -> (forall a q, pins (jp m) !! a = Some q -> pin_seq q = 0) -> Z.of_nat (size (pins (jp m))) < 2 ^ 31 ->
  bch2_journal_read g uuid_lo bks datas core m = Some (inr rr) -> JournalRes.seq (rr_core rr) <= JOURNAL_SEQ_MAX ->
  let i := rr_info rr in
  i_cur_seq i = JournalRes.seq (rr_core rr) /\
  map (fun r => word r 3) (rr_records rr) = seqZ (i_last_seq i) (if i_replay_end i =? 0 then 0 else i_replay_end i - i_last_seq i + 1) /\
  (i_replay_end i <> 0 -> 1 <= i_last_seq i <= i_replay_end i /\ i_replay_end i < i_cur_seq i) /\
  res_inv (rr_core rr) [] /\ meta_ok (Some g) (rr_meta rr) (i_cur_seq i) /\
  last_seq (js (rr_meta rr)) = live_from (i_last_seq i) (i_cur_seq i).
Proof. intros Hg Hn Hcap Hbks Hpins Hsize. by apply read_ok. Qed.

(** Two buckets of one record each, as written with the number 77. *)
Definition sample_bucket (r : list Z) : list Z :=
  match encode_record 77 64 r with Some e => e ++ replicate 64 0 | None => [] end.

Definition sample_buckets : list (list Z) :=
  [sample_bucket (record_header 5 2 5 ++ rows [mk_entry 1 0 0 [9]]);
   sample_bucket (record_header 6 1 5 ++ rows [pad])].

Lemma sample_read : exists rr, bch2_journal_read (mk_geom 2 1) 77 [20; 21] sample_buckets core_default meta_default = Some (inr rr) /\
  i_last_seq (rr_info rr) = 5 /\ i_replay_end (rr_info rr) = 6 /\ JournalRes.seq (rr_core rr) = 7.
Proof.
  unfold bch2_journal_read. 
  assert (exists f1 f2, scan_buckets (Z.lxor 77 JSET_MAGIC) (Z.max (g_block_size (mk_geom 2 1)) 1 * 64) 0 sample_buckets [] [] =
    Some (inr ([f1; f2], [5; 6])) /\ f_seq f1 = 5 /\ f_seq f2 = 6 /\ f_bucket f2 = 1 /\ f_used f2 = 1 /\
    conflicting (sort_found [f1; f2]) = false /\ dedup_found (sort_found [f1; f2]) = [f1; f2] /\
    choose_window [f1; f2] = Some (5, 6, false)) as (f1 & f2 & E & H1 & H2 & H3 & H4 & H5 & H6 & H7).
  { eexists _, _. split; [vm_compute; reflexivity|]. by vm_compute. }
  rewrite E. cbn [mbind option_bind]. rewrite H5, H6, H7. cbn [mbind option_bind last negb].
  rewrite H2, H3, H4. cbn [contiguous]. rewrite H1, H2.
  match goal with |- context [negb ?b] => change (negb b) with false end. cbn iota.
  match goal with |- context [journal_read_device ?a ?b ?c ?d ?e ?f] =>
    let r := eval vm_compute in (journal_read_device a b c d e f) in
    change (journal_read_device a b c d e f) with r end. cbn [mbind option_bind].
  match goal with |- context [bch2_journal_space_available ?a ?b ?c] =>
    let r := eval vm_compute in (bch2_journal_space_available a b c) in
    change (bch2_journal_space_available a b c) with r end. cbn [mbind option_bind].
  eexists. split; [reflexivity|]. split_and!; reflexivity.
Qed.

Lemma journal_read_starts_witness : exists rr,
  bch2_journal_read (mk_geom 2 1) 77 [20; 21] sample_buckets core_default meta_default = Some (inr rr) /\
  map (fun r => word r 3) (rr_records rr) = [5; 6] /\ res_inv (rr_core rr) [] /\ meta_ok (Some (mk_geom 2 1)) (rr_meta rr) 7.
Proof.
  assert (0 < g_bucket_size (mk_geom 2 1) <= 2048) as A1 by (cbn; lia).
  assert (0 < Z.of_nat (length sample_buckets) < 2 ^ 31) as A2 by (split; vm_compute; reflexivity).
  assert (0 <= cur_entry_u64s core_default <= BUF_U64S) as A3.
  { unfold core_default. cbn [cur_entry_u64s]. rewrite buf_u64s_val. unfold JSET_HEADER_U64S. lia. }
  assert (Forall (fun b => 0 <= b < 2 ^ 40) [20; 21]) as A7 by (by repeat (apply Forall_cons_2; [lia|])).
  assert (forall a q, pins (jp meta_default) !! a = Some q -> pin_seq q = 0) as A4 by (intros a q; cbn [meta_default jp pins]; rewrite lookup_empty; discriminate).
  assert (Z.of_nat (size (pins (jp meta_default))) < 2 ^ 31) as A5 by (vm_compute; reflexivity).
  assert (7 <= JOURNAL_SEQ_MAX) as A6 by (vm_compute; congruence).
  destruct sample_read as (rr & E & H1 & H2 & H3). exists rr. split; [exact E|]. rewrite <- H3 in A6.
  destruct (journal_read_starts _ _ _ _ _ _ rr A1 A2 A3 A7 A4 A5 E A6) as (C1 & C2 & _ & C3 & C4 & _).
  rewrite H1, H2 in C2. rewrite C1, H3 in C4. split; [exact C2|]. split; [exact C3|exact C4].
Defined.
