(* ===== verification/Journal.v ===== *)
(** * The journal flush

    [bch2_journal_flush] of [src/crates/subvol/src/journal.rs] as a whole: the
    open buffer becomes a record with the btree roots appended, the record goes
    to the device, the next buffer is opened, the pins move on and the space is
    counted again.  It is composed from the parts modelled in [JournalRes],
    [JournalSpace], [JournalPins] and [JournalDisk].

    The file behind the device is not part of the program: its type and its
    operations are parameters, with what the documentation of positioned writes
    promises as hypotheses of the theorems that need it. *)

From S2P Require Import Prelude.
From S2P Require Import Bpos.
From S2P Require Import BkeyPack.
From S2P Require Import Checksum.
From S2P Require Import Superblock.
From S2P Require Import JournalRes.
From S2P Require Import JournalSpace.
From S2P Require Import JournalPins.
From S2P Require Import JournalDisk.
From stdpp Require Import base tactics list numbers option gmap.
From Stdlib Require Import ZArith Lia.

Open Scope Z_scope.

(** ** The roots of the btrees

    A live root has a level and a key; the index in the list is the btree. *)

Record btree_root := mk_root { root_level : Z; root_key : list Z }.

Definition BTREE_ID_NR : nat := 9.
Definition BKEY_WORDS : nat := Eval cbv in Z.to_nat BKEY_U64S.
Definition BKEY_BTREE_PTR_VAL_U64S_MAX : nat := 15.

Fixpoint root_entries (id : Z) (roots : list (option btree_root)) : list entry :=
  match roots with
  | [] => []
  | Some r :: rs => mk_entry BCH_JSET_ENTRY_btree_root id (root_level r) (root_key r) :: root_entries (id + 1) rs
  | None :: rs => root_entries (id + 1) rs
  end.

(** The loop of [bch2_btree_roots_to_journal_entries], writing at word [end_]
    of [ws]; the result is where the entries end. *)
Fixpoint roots_to_journal_entries (ws : list Z) (end_ id : Z) (roots : list (option btree_root)) : option (Z * list Z) :=
  match roots with
  | [] => Some (end_, ws)
  | None :: rs => roots_to_journal_entries ws end_ (id + 1) rs
  | Some r :: rs =>
      '(actual, ws') ← journal_entry_set ws end_ BCH_JSET_ENTRY_btree_root id (root_level r) (root_key r);
      roots_to_journal_entries ws' (end_ + actual) (id + 1) rs
  end.

(** Room for the worst case is reserved behind the payload, filled, and what
    was not used is cut off; [u64s] of the record grows by what was added. *)
Definition append_roots (roots : list (option btree_root)) (r : list Z) : option (list Z) :=
  let reserved := (BTREE_ID_NR * (1 + BKEY_WORDS + BKEY_BTREE_PTR_VAL_U64S_MAX))%nat in
  let roots_start := Z.of_nat (length r) in
  '(end_, ws) ← roots_to_journal_entries (r ++ replicate reserved 0) roots_start 0 roots;
  let appended := end_ - roots_start in
  _ ← assert (appended <=? Z.of_nat reserved);
  let ws := take (Z.to_nat (roots_start + appended)) ws in
  Some (if appended =? 0 then ws else <[5%nat := Z.min (word ws 5 + appended) (MAX 64)]> ws).

Section Journal.
Context {F : Type} (file_len : F -> Z) (write_at : F -> Z -> list Z -> bool * F) (sync_data : F -> bool * F).

(** What a superblock with a journal says about the device; [d_fields] is
    whether the members and journal fields and the file are there. *)
Record jdisk := mk_disk {
  d_fields : bool;
  d_geom : geometry;
  d_total_buckets : Z;
  d_uuid_lo : Z;
  d_file : F;
}.

Definition set_file (f : F) (d : jdisk) : jdisk :=
  mk_disk (d_fields d) (d_geom d) (d_total_buckets d) (d_uuid_lo d) f.

Record journal := mk_journal {
  j_core : jcore;
  j_meta : jmeta;
  j_closed : list (list Z);
  j_disk : option jdisk;
  j_fault : Z;
  j_nr_background : Z;
}.

Definition geom_of (j : journal) : option geometry :=
  match j_disk j with Some d => Some (d_geom d) | None => None end.

(** ** Writing the record

    The return code, the device and the file.  Byte offsets are multiples of
    512. *)
Definition journal_write (d : jdisk) (ja : journal_device) (seq : Z) (record : list Z)
    : option (Z * journal_device * F) :=
  let f := d_file d in
  if negb (d_fields d) then Some (-4, ja, f) else
  let bucket_size := g_bucket_size (d_geom d) in
  let block_words := Z.max (g_block_size (d_geom d)) 1 * 64 in
  let write_words := next_multiple_of (Z.of_nat (length record)) block_words in
  let sectors := write_words / 64 in
  if (bucket_size =? 0) || (d_total_buckets d =? 0) || (bucket_size <? sectors) then Some (-4, ja, f) else
  if negb (nr ja =? d_total_buckets d mod 2 ^ 32) || negb (Z.of_nat (length (buckets ja)) =? nr ja)
     || negb (Z.of_nat (length (bucket_seq ja)) =? nr ja)
  then Some (-4, ja, f) else
  journal_advance_bucket bucket_size sectors seq ja ≫= fun room : option (journal_device * bool) =>
  match room with
  | None => Some (-9, ja, f)
  | Some (ja, advanced) =>
      bucket ← buckets ja !! Z.to_nat (cur_idx ja);
      bucket_sector ← umul 64 bucket bucket_size;
      let '(ok, f) := if advanced then write_at f (bucket_sector * 512) (replicate (Z.to_nat (bucket_size * 64)) 0)
                      else (true, f) in
      if negb ok then Some (-5, ja, f) else
      free ← usub bucket_size (sectors_free ja);
      sector ← uadd 64 bucket_sector free;
      bytes ← encode_record (d_uuid_lo d) block_words record;
      if file_len f <? sector * 512 + write_words * 8 then Some (-5, ja, f) else
      let '(ok, f) := write_at f (sector * 512) bytes in
      if negb ok then Some (-5, ja, f) else
      let '(ok, f) := sync_data f in
      if negb ok then Some (-5, ja, f) else
      ja ← journal_written sectors seq ja;
      Some (0, ja, f)
  end.

Definition with_device (ja : journal_device) (m : jmeta) : jmeta := mk_meta (jp m) (set_device ja (js m)) (seq_ondisk m).

(** ** The flush

    [roots] are the live roots at the time; the callback and whether the
    reclaim lock was free are for the reclaim that a flush may start, with
    [fuel] for its loops. *)
Definition kick (fuel : nat) (cb : callback) (reclaim_free : bool) (j : journal) : option journal :=
  let s := js (j_meta j) in
  if reclaim_kicked s && reclaim_free then
    let s' := mk_jspace (device s) (last_seq s) (last_seq_ondisk s) (spaces s) (flags s) (watermark s)
                (cur_entry_sectors s) (cur_entry_error s) false in
    '(n, m) ← journal_reclaim_loop fuel cb false true 0 (mk_meta (jp (j_meta j)) s' (seq_ondisk (j_meta j)));
    Some (mk_journal (j_core j) m (j_closed j) (j_disk j) (j_fault j) (j_nr_background j + n))
  else Some j.

(** What follows a successful write. *)
Definition flush_after_write (fuel : nat) (cb : callback) (reclaim_free : bool) (old_state : Z) (record : list Z)
    (j : journal) : option (Z * journal) :=
  let old_seq := JournalRes.seq (j_core j) in
  let empty := journal_entry_empty record in
  let j := mk_journal (j_core j) (j_meta j) (j_closed j ++ [record]) (j_disk j) (j_fault j) (j_nr_background j) in
  sw ← switch_buf old_state (j_core j);
  match sw with
  | inl err => Some (err, j)
  | inr core =>
      m ← flush_finish (geom_of j) old_seq (word record 6) empty (j_meta j);
      let next := cur_entry_sectors (js m) in
      let core := if next =? 0 then core else set_cur_entry_u64s (journal_entry_u64s_for_sectors next) core in
      j ← kick fuel cb reclaim_free (mk_journal core m (j_closed j) (j_disk j) (j_fault j) (j_nr_background j));
      Some (0, j)
  end.

Definition bch2_journal_flush (fuel : nat) (cb : callback) (reclaim_free : bool) (roots : list (option btree_root))
    (j : journal) : option (Z * journal) :=
  let old_state := reservations (j_core j) in
  if negb (flush_guard old_state) then Some (-1, j) else
  buf ← ring (j_core j) !! Z.to_nat (journal_state_idx old_state);
  _ ← assert (buf_seq buf =? JournalRes.seq (j_core j));
  if 0 <? j_fault j
  then Some (-5, mk_journal (j_core j) (j_meta j) (j_closed j) (j_disk j) (j_fault j - 1) (j_nr_background j)) else
  record ← flush_record old_state (last_seq (js (j_meta j))) (j_core j);
  match j_disk j with
  | None => flush_after_write fuel cb reclaim_free old_state record j
  | Some d =>
      record ← append_roots roots record;
      '(ret, ja, f) ← journal_write d (device (js (j_meta j))) (JournalRes.seq (j_core j)) record;
      let j := mk_journal (j_core j) (with_device ja (j_meta j)) (j_closed j) (Some (set_file f d)) (j_fault j)
                 (j_nr_background j) in
      if negb (ret =? 0) then Some (ret, j)
      else flush_after_write fuel cb reclaim_free old_state record j
  end.

End Journal.

(** ** The roots appended to a record *)

Lemma journal_entry_set_spec pre z e : entry_ok e -> (length (entry_words e) <= length z)%nat ->
  journal_entry_set (pre ++ z) (Z.of_nat (length pre)) (e_type e) (e_id e) (e_level e) (e_payload e) =
  Some (Z.of_nat (length (entry_words e)), pre ++ entry_words e ++ drop (length (entry_words e)) z).
Proof.
  intros (_ & _ & _ & Hn) Hlen. cbn in Hlen. unfold journal_entry_set, journal_entry_init.
  destruct z as [|z0 z]; [cbn in Hlen; lia|]. cbn in Hlen.
  change (z0 :: z) with ([z0] ++ z). rewrite put_words_mid by done. bind_simpl.
  rewrite uadd_ok by done. bind_simpl. cbn [mbind option_bind].
  rewrite <- (take_drop (length (e_payload e)) z) at 1. rewrite (app_assoc pre).
  replace (Z.of_nat (length pre) + 1) with (Z.of_nat (length (pre ++ [entry_word (e_type e) (e_id e) (e_level e) (Z.of_nat (length (e_payload e)))])))
    by (rewrite length_app; cbn; lia).
  rewrite put_words_mid by (rewrite length_take; lia). bind_simpl. rewrite <- app_assoc. cbn. do 2 f_equal. lia.
Qed.

Lemma roots_to_journal_spec roots id pre z : Forall entry_ok (root_entries id roots) ->
  (length (rows (root_entries id roots)) <= length z)%nat ->
  roots_to_journal_entries (pre ++ z) (Z.of_nat (length pre)) id roots =
  Some (Z.of_nat (length pre + length (rows (root_entries id roots))),
        pre ++ rows (root_entries id roots) ++ drop (length (rows (root_entries id roots))) z).
Proof.
  revert id pre z. induction roots as [|[r|] roots IH]; intros id pre z; cbn [root_entries roots_to_journal_entries].
  - intros _ _. cbn [rows mbind list_bind length app]. by rewrite Nat.add_0_r, drop_0.
  - set (e := mk_entry BCH_JSET_ENTRY_btree_root id (root_level r) (root_key r)). intros [He Hes]%Forall_cons_1.
    assert (rows (e :: root_entries (id + 1) roots) = entry_words e ++ rows (root_entries (id + 1) roots)) as -> by done.
    rewrite length_app. intros Hlen. pose proof (journal_entry_set_spec pre z e He ltac:(lia)) as E.
    cbn [e_type e_id e_level e_payload e] in E. rewrite E. cbn [mbind option_bind].
    rewrite app_assoc. replace (Z.of_nat (length pre) + Z.of_nat (length (entry_words e)))
      with (Z.of_nat (length (pre ++ entry_words e))) by (rewrite length_app; lia).
    rewrite IH by (done || rewrite length_drop; lia). rewrite length_app, drop_drop, <- !app_assoc. do 2 f_equal. lia.
  - apply IH.
Qed.

(** Roots the record has room for: at most nine, with keys of a btree
    pointer's size. *)
Definition roots_ok (roots : list (option btree_root)) : Prop :=
  (length roots <= BTREE_ID_NR)%nat /\
  Forall (fun o => match o with
                   | Some r => in_range 8 (root_level r) /\
                       (length (root_key r) <= BKEY_WORDS + BKEY_BTREE_PTR_VAL_U64S_MAX)%nat
                   | None => True
                   end) roots.

Lemma roots_ok_entries roots : roots_ok roots ->
  Forall entry_ok (root_entries 0 roots) /\
  (length (rows (root_entries 0 roots)) <= BTREE_ID_NR * (1 + BKEY_WORDS + BKEY_BTREE_PTR_VAL_U64S_MAX))%nat.
Proof.
  intros [Hlen Hall]. assert (forall id, 0 <= id -> id + Z.of_nat (length roots) <= 9 ->
    Forall entry_ok (root_entries id roots) /\
    (length (rows (root_entries id roots)) <= length roots * (1 + BKEY_WORDS + BKEY_BTREE_PTR_VAL_U64S_MAX))%nat) as H.
  { clear Hlen. induction Hall as [|[r|] roots Hr Hall IH]; intros id Hid Hb; cbn [root_entries length] in *.
    - split; [by constructor|cbn; lia].
    - destruct Hr as [Hl Hk]. destruct (IH (id + 1)) as [H1 H2]; [lia..|]. split.
      + apply Forall_cons_2; [|done]. unfold BKEY_WORDS, BKEY_BTREE_PTR_VAL_U64S_MAX in Hk.
        split_and!; cbn [e_type e_id e_level e_payload]; [done| |done|change (2 ^ 16) with 65536; lia].
        unfold in_range. change (2 ^ 8) with 256. lia.
      + unfold rows in *. cbn [mbind list_bind]. rewrite length_app. cbn [entry_words length e_payload]. lia.
    - destruct (IH (id + 1)) as [H1 H2]; [lia..|]. split; [done|lia]. }
  destruct (H 0) as [H1 H2]; [lia|unfold BTREE_ID_NR in Hlen; lia|]. split; [done|].
  eapply Nat.le_trans; [exact H2|]. by apply Nat.mul_le_mono_r.
Qed.

Lemma append_roots_spec roots s last_seq es : roots_ok roots ->
  Z.of_nat (length (rows es)) <= BUF_U64S ->
  append_roots roots (record_header s (Z.of_nat (length (rows es))) last_seq ++ rows es) =
  Some (record_header s (Z.of_nat (length (rows (es ++ root_entries 0 roots)))) last_seq ++ rows (es ++ root_entries 0 roots)).
Proof.
  intros Hr Hlen. destruct (roots_ok_entries _ Hr) as [Hok Hroom]. unfold append_roots.
  set (r := record_header _ _ _ ++ rows es). set (rs := root_entries 0 roots) in *.
  assert (rows (es ++ rs) = rows es ++ rows rs) as Erows by apply bind_app.
  rewrite roots_to_journal_spec by (done || rewrite length_replicate; done). cbn [mbind option_bind]. fold rs.
  replace (Z.of_nat (length r + length (rows rs)) - Z.of_nat (length r)) with (Z.of_nat (length (rows rs))) by lia.
  rewrite (proj2 (Z.leb_le _ _)) by (apply Nat2Z.inj_le; exact Hroom). cbn [assert]. bind_simpl.
  replace (Z.to_nat (Z.of_nat (length r) + Z.of_nat (length (rows rs)))) with (length (r ++ rows rs)) by (rewrite length_app; lia).
  rewrite app_assoc, take_app_length, Erows, length_app. f_equal. unfold r.
  destruct (Z.eqb_spec (Z.of_nat (length (rows rs))) 0) as [Hz|Hnz].
  - rewrite Nat2Z.inj_add, Hz, Z.add_0_r. by rewrite <- app_assoc.
  - assert (word ((record_header s (Z.of_nat (length (rows es))) last_seq ++ rows es) ++ rows rs) 5 = Z.of_nat (length (rows es))) as -> by done.
    rewrite Z.min_l.
    + cbn. by rewrite Nat2Z.inj_add.
    + rewrite buf_u64s_val in Hlen. unfold MAX. change (2 ^ 64) with 18446744073709551616.
      apply Nat2Z.inj_le in Hroom. change (Z.of_nat (BTREE_ID_NR * (1 + BKEY_WORDS + BKEY_BTREE_PTR_VAL_U64S_MAX))) with 189 in Hroom. lia.
Qed.

Lemma checksum_some d : exists c, bch2_checksum BCH_CSUM_xxhash d = Some c.
Proof.
  unfold bch2_checksum. destruct (xxh64_total d 0) as (h & Hh & _).
  change (BCH_CSUM_xxhash =? BCH_CSUM_none) with false. cbn iota.
  change (BCH_CSUM_xxhash =? BCH_CSUM_crc32c_nonzero) with false. cbn iota.
  change (BCH_CSUM_xxhash =? BCH_CSUM_crc64_nonzero) with false. cbn iota.
  change (BCH_CSUM_xxhash =? BCH_CSUM_crc32c) with false. cbn iota.
  change (BCH_CSUM_xxhash =? BCH_CSUM_crc64) with false. cbn iota.
  change (BCH_CSUM_xxhash =? BCH_CSUM_xxhash) with true. cbn iota.
  rewrite Hh. cbn [mbind option_bind]. eauto.
Qed.

Lemma encode_some uuid_lo bw r : exists e, encode_record uuid_lo bw r = Some e.
Proof.
  unfold encode_record. match goal with |- context [bch2_checksum _ ?d] => destruct (checksum_some d) as [c ->] end.
  cbn [mbind option_bind]. eauto.
Qed.

Section Theorems.
Context {F : Type} (file_len : F -> Z) (write_at : F -> Z -> list Z -> bool * F) (sync_data : F -> bool * F).
Notation flush := (bch2_journal_flush file_len write_at sync_data).

Lemma advance_bucket_keeps bucket_size sectors q ja ja' adv :
  journal_advance_bucket bucket_size sectors q ja = Some (Some (ja', adv)) ->
  buckets ja' = buckets ja /\ (sectors_free ja' = sectors_free ja \/ sectors_free ja' = bucket_size) /\
  length (bucket_seq ja') = length (bucket_seq ja).
Proof.
  unfold journal_advance_bucket. destruct (_ && _).
  - destruct (bch2_journal_dev_buckets_available _ _) as [a|]; cbn [mbind option_bind]; [|done].
    destruct (a =? 0); cbn [mbind option_bind fst];
      [case_match; [done|]; intros [= <- <-]; split_and!; [done|by left|done]|].
    destruct (uadd _ _ _); cbn [mbind option_bind]; [|done]. destruct (assert _); cbn [mbind option_bind fst]; [|done].
    case_match; [done|]. intros [= <- <-]. cbn. split_and!; [done|by right|apply length_insert].
  - cbn [mbind option_bind fst]. case_match; [done|]. intros [= <- <-]. split_and!; [done|by left|done].
Qed.

Lemma sectors_pos (record : list Z) g : 7 <= Z.of_nat (length record) ->
  0 < next_multiple_of (Z.of_nat (length record)) (Z.max (g_block_size g) 1 * 64) / 64.
Proof.
  intros H. set (k := Z.max (g_block_size g) 1). assert (0 < k) by lia.
  destruct (next_multiple_spec (Z.of_nat (length record)) (k * 64)) as [H1 H2]; [lia..|].
  apply Z.mod_divide in H2 as [q Hq]; [|lia]. rewrite Hq in *. replace (q * (k * 64)) with (q * k * 64) by lia.
  rewrite Z.div_mul by lia. nia.
Qed.

(** Writing a record never panics and keeps the device in order, whatever the
    file does. *)
Lemma journal_write_ok (d : @jdisk F) ja L q record :
  dev_ok (Some (d_geom d)) ja L -> 7 <= Z.of_nat (length record) -> g_bucket_size (d_geom d) < 2 ^ 16 ->
  exists ret ja' f', journal_write file_len write_at sync_data d ja q record = Some (ret, ja', f') /\
    dev_ok (Some (d_geom d)) ja' L.
Proof.
  intros Hdev Hlen Hu16. unfold journal_write.
  assert (forall (ret : Z) (f' : F), exists (ret0 : Z) ja' f0, Some (ret, ja, f') = Some (ret0, ja', f0) /\
    dev_ok (Some (d_geom d)) ja' L) as Hsame by (intros ret f'; exists ret, ja, f'; done).
  destruct (negb (d_fields d)); [apply Hsame|]. set (bs := g_bucket_size (d_geom d)) in *.
  pose proof (sectors_pos record (d_geom d) Hlen) as Hpos.
  set (bw := Z.max (g_block_size (d_geom d)) 1 * 64) in *.
  set (ww := next_multiple_of (Z.of_nat (length record)) bw) in *.
  destruct (_ || _ || (bs <? ww / 64)); [apply Hsame|].
  destruct (negb (nr ja =? d_total_buckets d mod 2 ^ 32)); cbn [orb]; [apply Hsame|].
  destruct (Z.eqb_spec (Z.of_nat (length (buckets ja))) (nr ja)) as [Hbl|]; cbn [negb orb]; [|apply Hsame].
  destruct (negb (Z.of_nat (length (bucket_seq ja)) =? nr ja)); [apply Hsame|].
  destruct Hdev as [(Hn0 & Hd0 & Hz0)|[Hr (g' & [= <-] & Hf)]].
  { unfold journal_advance_bucket, bch2_journal_dev_buckets_available. rewrite Hz0, Hn0, Z.eqb_refl.
    rewrite (proj2 (Z.ltb_lt 0 _) Hpos). destruct (_ <=? bs); cbn [andb mbind option_bind fst Z.eqb];
      rewrite Hz0, (proj2 (Z.ltb_lt 0 _) Hpos); apply Hsame. }
  fold bs in Hf.
  destruct (advance_bucket_ok ja L bs (ww / 64) q Hr) as (room & Ea & Hroom). rewrite Ea. cbn [mbind option_bind].
  destruct room as [[ja1 adv]|]; [|apply Hsame]. destruct Hroom as (Hr1 & Hfit & Hadv).
  destruct (advance_bucket_keeps _ _ _ _ _ _ Ea) as (Hb1 & Hfr & Hl1).
  assert (0 <= sectors_free ja1 <= bs) as Hf1 by (destruct Hfr as [-> | ->]; lia).
  assert (forall (ret : Z) (f' : F), exists (ret0 : Z) ja' f0, Some (ret, ja1, f') = Some (ret0, ja', f0) /\
    dev_ok (Some (d_geom d)) ja' L) as Hsame1.
  { intros ret f'; exists ret, ja1, f'. split; [done|]. right. split; [done|]. by exists (d_geom d). }
  destruct (lookup_lt_is_Some_2 (buckets ja1) (Z.to_nat (cur_idx ja1))) as [bucket Hbk].
  { rewrite Hb1. pose proof (ro_cur _ _ Hr1). pose proof (ro_len _ _ Hr1). pose proof (ro_len _ _ Hr). lia. }
  rewrite Hbk. cbn [mbind option_bind].
  assert (0 <= bucket < 2 ^ 40) as Hbr by apply (Forall_lookup_1 _ _ _ _ (ro_buckets _ _ Hr1) Hbk).
  change (2 ^ 40) with 1099511627776 in Hbr.
  change (2 ^ 16) with 65536 in Hu16.
  assert (umul 64 bucket bs = Some (bucket * bs)) as ->.
  { unfold umul. rewrite (proj2 (Z.ltb_lt _ _)); [done|]. change (2 ^ 64) with 18446744073709551616. nia. }
  cbn [mbind option_bind].
  destruct (if adv then _ else _) as [ok f1]. destruct (negb ok); [apply Hsame1|].
  rewrite usub_ok by lia. cbn [mbind option_bind].
  rewrite uadd_ok by (change (2 ^ 64) with 18446744073709551616; nia). cbn [mbind option_bind].
  destruct (encode_some (d_uuid_lo d) bw record) as [bytes ->]. cbn [mbind option_bind].
  destruct (_ <? _ + _); [apply Hsame1|]. destruct (write_at _ _ bytes) as [ok2 f2]. destruct (negb ok2); [apply Hsame1|].
  destruct (sync_data f2) as [ok3 f3]. destruct (negb ok3); [apply Hsame1|].
  destruct (written_ok ja1 L (ww / 64) q Hr1 Hfit) as (ja2 & E2 & Hr2 & Hc2 & Hn2 & Hbs2). rewrite E2. cbn [mbind option_bind].
  exists 0, ja2, f3. split; [done|]. right. split; [done|]. exists (d_geom d). split; [done|]. fold bs.
  unfold journal_written in E2. rewrite usub_ok in E2 by done. cbn [mbind option_bind] in E2.
  destruct (assert _); [|done]. cbn [mbind option_bind] in E2. injection E2 as <-. cbn. lia.
Qed.

(** ** The flush as a whole *)

Record journal_ok (j : @journal F) (ps : list piece) : Prop := {
  jo_res : res_inv (j_core j) ps;
  jo_meta : meta_ok (geom_of j) (j_meta j) (JournalRes.seq (j_core j));
  jo_idle : flush_in_progress (jp (j_meta j)) = 0;
  jo_size : forall d, j_disk j = Some d -> 0 < g_bucket_size (d_geom d) <= 2048;
}.

Lemma journal_ok_closed (j : @journal F) ps c fl n : journal_ok j ps ->
  journal_ok (mk_journal (j_core j) (j_meta j) c (j_disk j) fl n) ps.
Proof. intros []. by constructor. Qed.

Lemma kick_ok g open fuel cb rf (j : @journal F) : FlushCallback g open cb ->
  meta_ok g (j_meta j) open -> flush_in_progress (jp (j_meta j)) = 0 -> (nunflushed (jp (j_meta j)) < fuel)%nat ->
  exists j', kick fuel cb rf j = Some j' /\ meta_ok g (j_meta j') open /\ flush_in_progress (jp (j_meta j')) = 0 /\
    j_core j' = j_core j /\ j_closed j' = j_closed j /\ j_disk j' = j_disk j.
Proof.
  intros Hcb Hm Hidle Hfuel. unfold kick. destruct (_ && rf); [|by exists j].
  match goal with |- context [journal_reclaim_loop _ _ _ _ _ ?m] => set (m0 := m) end.
  assert (meta_ok g m0 open) as Hm0 by (destruct Hm as [Hp Hd Hl]; by constructor).
  destruct (reclaim_loop_ok g open cb fuel false true 0 m0 Hm0 Hidle Hfuel) as (n & m' & -> & Hm' & Hi).
  cbn [mbind option_bind]. eexists. split; [done|]. done.
Qed.

Lemma max_sectors_bound (j : @journal F) ps : journal_ok j ps -> max_sectors (geom_of j) <= 2048.
Proof.
  intros Hj. unfold geom_of, max_sectors. destruct (j_disk j) as [d|] eqn:E; [|done].
  pose proof (jo_size _ _ Hj d E). lia.
Qed.

(** What a flush leaves when the record was written: the record is closed, the
    next entry is open and empty, and the journal is in order. *)
Definition flushed (j j' : @journal F) (record : list Z) : Prop :=
  j_closed j' = j_closed j ++ [record] /\ JournalRes.seq (j_core j') = JournalRes.seq (j_core j) + 1 /\
  journal_ok j' [].

Lemma after_write_ok fuel cb rf (j : @journal F) ps record :
  journal_ok j ps -> held ps = [] -> FlushCallback (geom_of j) (JournalRes.seq (j_core j) + 1) cb ->
  (nunflushed (jp (j_meta j)) < fuel)%nat ->
  exists ret j', flush_after_write fuel cb rf (reservations (j_core j)) record j = Some (ret, j') /\
    ((ret = 0 /\ flushed j j' record /\ j_disk j' = j_disk j) \/
     (ret = -2 /\ JournalRes.seq (j_core j) = JOURNAL_SEQ_MAX /\
      j' = mk_journal (j_core j) (j_meta j) (j_closed j ++ [record]) (j_disk j) (j_fault j) (j_nr_background j))).
Proof.
  intros Hj Hheld Hcb Hfuel. pose proof (max_sectors_bound _ _ Hj) as Hmax. destruct Hj as [Hr Hm Hidle Hsize].
  unfold flush_after_write. cbn [j_core j_meta j_closed j_disk j_fault j_nr_background].
  destruct (switch_buf_spec _ _ Hr Hheld) as (sw & -> & Hsw). cbn [mbind option_bind].
  destruct sw as [err|core].
  { destruct Hsw as [-> Hmaxseq]. eexists _, _. split; [done|]. by right. }
  destruct Hsw as (Hseq & Hcap & Hr'). change (geom_of (mk_journal _ _ _ _ _ _)) with (geom_of j).
  destruct (flush_finish_ok _ _ _ (word record 6) (journal_entry_empty record) Hm) as (m' & E & Hm' & Hp' & _ & _ & Hsec & _).
  rewrite E. cbn [mbind option_bind]. destruct (flush_finish_keeps _ _ _ _ _ _ E) as [Hnu Hip].
  set (core' := if cur_entry_sectors (js m') =? 0 then core else _).
  assert (res_inv core' [] /\ JournalRes.seq core' = JournalRes.seq (j_core j) + 1) as [Hr2 Hs2].
  { unfold core'. destruct (Z.eqb_spec (cur_entry_sectors (js m')) 0); [done|]. split; [|done].
    apply set_cap_inv; [done|]. pose proof (journal_cap_le (cur_entry_sectors (js m')) ltac:(lia) ltac:(lia)) as Hc.
    unfold JSET_HEADER_U64S in Hc. split; [|lia].
    unfold journal_entry_u64s_for_sectors, sat_sub, JOURNAL_ENTRY_OFFSET_MAX. change (2 ^ 22) with 4194304. lia. }
  clearbody core'.
  destruct (kick_ok (geom_of j) (JournalRes.seq (j_core j) + 1) fuel cb rf
    (mk_journal core' m' (j_closed j ++ [record]) (j_disk j) (j_fault j) (j_nr_background j)) Hcb Hm')
    as (j' & Ek & Hmk & Hik & Ec & Ecl & Ed); [cbn; congruence|cbn; lia|].
  rewrite Ek. cbn [mbind option_bind]. eexists _, _. split; [done|]. left. cbn in Ec, Ecl, Ed.
  split_and!; [done|split_and!; [done|by rewrite Ec|]|done]. constructor.
  - by rewrite Ec.
  - unfold geom_of in *. rewrite Ed, Ec, Hs2. done.
  - done.
  - intros d. rewrite Ed. apply Hsize.
Qed.

(** The record of a flush: the entries of the open buffer, and the roots when a
    device is attached. *)
Definition record_for (j : @journal F) (ps : list piece) (roots : list (option btree_root)) : list Z :=
  let es := done_ ps ++ match j_disk j with Some _ => root_entries 0 roots | None => [] end in
  record_header (JournalRes.seq (j_core j)) (Z.of_nat (length (rows es))) (last_seq (js (j_meta j))) ++ rows es.

Lemma flush_ok fuel cb rf roots (j : @journal F) ps :
  journal_ok j ps -> roots_ok roots -> FlushCallback (geom_of j) (JournalRes.seq (j_core j) + 1) cb ->
  (nunflushed (jp (j_meta j)) < fuel)%nat ->
  exists ret j', flush fuel cb rf roots j = Some (ret, j') /\
    ((ret = 0 /\ held ps = [] /\ flushed j j' (record_for j ps roots)) \/
     (ret <> 0 /\ j_core j' = j_core j /\ jp (j_meta j') = jp (j_meta j) /\ journal_ok j' ps)).
Proof.
  intros Hj Hroots Hcb Hfuel. pose proof Hj as [Hr Hm Hidle Hsize]. unfold bch2_journal_flush.
  pose proof (flush_guard_spec _ _ Hr) as Hguard.
  destruct (flush_guard (reservations (j_core j))); cbn [negb]; last first.
  { eexists _, _. split; [done|]. right. split_and!; done. }
  pose proof (proj1 Hguard eq_refl) as Hheld. clear Hguard.
  rewrite (inv_idx _ _ Hr). destruct (ri_open _ _ Hr) as (b & tail & Hb & Hbs & Hd). rewrite Hb. cbn [mbind option_bind].
  rewrite Hbs, Z.eqb_refl. cbn [assert mbind option_bind].
  destruct (0 <? j_fault j).
  { eexists _, _. split; [done|]. right. split_and!; [done..|]. by constructor. }
  rewrite (flush_record_spec _ _ _ Hr). cbn [mbind option_bind].
  pose proof (ri_used _ _ Hr) as Hused. unfold used in *. rewrite (all_words_done _ Hheld) in *.
  unfold record_for. destruct (j_disk j) as [d|] eqn:Ed.
  - rewrite append_roots_spec by done. cbn [mbind option_bind].
    set (record := record_header _ _ _ ++ rows (done_ ps ++ root_entries 0 roots)).
    pose proof (mo_dev _ _ _ Hm) as Hdev. unfold geom_of in Hdev. rewrite Ed in Hdev.
    destruct (journal_write_ok d (device (js (j_meta j))) (last_seq_ondisk (js (j_meta j))) (JournalRes.seq (j_core j)) record Hdev)
      as (ret & ja & f & Ew & Hdev'); [unfold record; rewrite length_app; cbn; lia|
        pose proof (Hsize d eq_refl); change (2 ^ 16) with 65536; lia|].
    rewrite Ew. cbn [mbind option_bind].
    set (j1 := mk_journal (j_core j) (with_device ja (j_meta j)) (j_closed j) (Some (set_file f d)) (j_fault j) (j_nr_background j)).
    assert (geom_of j1 = geom_of j) as Hg by (unfold geom_of, j1; cbn; by rewrite Ed).
    assert (journal_ok j1 ps) as Hj1.
    { constructor; [done| |done|].
      - rewrite Hg. destruct Hm as [Hp _ Hl]. constructor; [done| |done]. unfold geom_of. rewrite Ed. exact Hdev'.
      - intros d' [= <-]. cbn. by apply Hsize. }
    destruct (Z.eqb_spec ret 0) as [->|Hne]; cbn [negb].
    + destruct (after_write_ok fuel cb rf j1 ps record Hj1 Hheld) as (ret & j' & E & Hcase); [by rewrite Hg|done|].
      exists ret, j'. split; [exact E|]. destruct Hcase as [(-> & Hf & _)|(-> & _ & ->)].
      * left. split_and!; done.
      * right. split_and!; [done..|]. by apply journal_ok_closed.
    + eexists _, _. split; [done|]. right. split_and!; done.
  - rewrite app_nil_r.
    set (record := record_header _ _ _ ++ rows (done_ ps)).
    destruct (after_write_ok fuel cb rf j ps record Hj Hheld) as (ret & j' & E & Hcase); [done|done|].
    exists ret, j'. split; [exact E|]. destruct Hcase as [(-> & Hf & _)|(-> & _ & ->)].
    + left. split_and!; done.
    + right. split_and!; [done..|]. by apply journal_ok_closed.
Qed.

(** With nothing held, a successful write makes a successful flush. *)
Lemma flush_zero fuel cb rf roots (j : @journal F) ps d ja f :
  journal_ok j ps -> roots_ok roots -> FlushCallback (geom_of j) (JournalRes.seq (j_core j) + 1) cb ->
  (nunflushed (jp (j_meta j)) < fuel)%nat -> held ps = [] -> j_fault j <= 0 -> j_disk j = Some d ->
  JournalRes.seq (j_core j) < JOURNAL_SEQ_MAX ->
  journal_write file_len write_at sync_data d (device (js (j_meta j))) (JournalRes.seq (j_core j)) (record_for j ps roots) =
    Some (0, ja, f) ->
  exists j', flush fuel cb rf roots j = Some (0, j').
Proof.
  intros Hj Hroots Hcb Hfuel Hheld Hfault Ed Hmax Ew. pose proof Hj as [Hr Hm Hidle Hsize]. unfold bch2_journal_flush.
  rewrite (proj2 (flush_guard_spec _ _ Hr) Hheld). cbn [negb].
  rewrite (inv_idx _ _ Hr). destruct (ri_open _ _ Hr) as (b & tail & Hb & Hbs & Hd). rewrite Hb. cbn [mbind option_bind].
  rewrite Hbs, Z.eqb_refl. cbn [assert mbind option_bind]. rewrite (proj2 (Z.ltb_ge 0 _)) by lia.
  rewrite (flush_record_spec _ _ _ Hr). cbn [mbind option_bind].
  pose proof (ri_used _ _ Hr) as Hused. unfold used in *. rewrite (all_words_done _ Hheld) in *.
  rewrite Ed, append_roots_spec by done. cbn [mbind option_bind].
  unfold record_for in Ew. rewrite Ed in Ew. rewrite Ew. cbn [mbind option_bind Z.eqb negb].
  set (record := record_header _ _ _ ++ _) in *.
  pose proof (mo_dev _ _ _ Hm) as Hdev. unfold geom_of in Hdev. rewrite Ed in Hdev.
  destruct (journal_write_ok d (device (js (j_meta j))) (last_seq_ondisk (js (j_meta j))) (JournalRes.seq (j_core j)) record Hdev)
    as (ret2 & ja2 & f2 & Ew2 & Hdev'); [unfold record; rewrite length_app; cbn; lia|
      pose proof (Hsize d Ed); change (2 ^ 16) with 65536; lia|].
  rewrite Ew in Ew2. injection Ew2 as <- <- <-.
  match goal with |- context [flush_after_write _ _ _ _ _ ?x] => set (j1 := x) end.
  assert (geom_of j1 = geom_of j) as Hg by (unfold geom_of, j1; cbn; by rewrite Ed).
  assert (journal_ok j1 ps) as Hj1.
  { constructor; [done| |done|].
    - rewrite Hg. destruct Hm as [Hp _ Hl]. constructor; [done| |done]. unfold geom_of. rewrite Ed. exact Hdev'.
    - intros d' [= <-]. cbn. by apply Hsize. }
  destruct (after_write_ok fuel cb rf j1 ps record Hj1 Hheld) as (ret & j' & E & [(-> & _)|(_ & Hs & _)]);
    [by rewrite Hg|done|by exists j'|]. change (JournalRes.seq (j_core j1)) with (JournalRes.seq (j_core j)) in Hs. lia.
Qed.

(** C1: from a journal in order a flush never panics, whatever the device does.
    It returns 0 only when no reservation is held; then it has closed the record
    made of the entries of the buffer and the roots, opened the next entry, empty,
    and left the journal in order.  On any other return the open entry with its
    reservations and the pins are as they were. *)
Theorem journal_flush_correct fuel cb rf roots (j : @journal F) ps :
  journal_ok j ps -> roots_ok roots -> FlushCallback (geom_of j) (JournalRes.seq (j_core j) + 1) cb ->
  (nunflushed (jp (j_meta j)) < fuel)%nat ->
  exists ret j', flush fuel cb rf roots j = Some (ret, j') /\
    ((ret = 0 /\ held ps = [] /\ flushed j j' (record_for j ps roots)) \/
     (ret <> 0 /\ j_core j' = j_core j /\ jp (j_meta j') = jp (j_meta j) /\ journal_ok j' ps)).
Proof. apply flush_ok. Qed.

(** ** Durability *)

(** What the file promises: a successful write is read back, no write, not
    even one that fails, touches other bytes, and a sync changes nothing that
    is read.  Offsets are in bytes, a word has eight. *)
Class FileLaws (read_at : F -> Z -> nat -> list Z) : Prop := {
  write_read f off ws f' : 0 <= off -> write_at f off ws = (true, f') -> read_at f' off (length ws) = ws;
  write_frame f off ws ok f' off' n : 0 <= off -> write_at f off ws = (ok, f') ->
    0 <= off' -> off' + 8 * Z.of_nat n <= off \/ off + 8 * Z.of_nat (length ws) <= off' ->
    read_at f' off' n = read_at f off' n;
  sync_reads f ok f' off n : sync_data f = (ok, f') -> read_at f' off n = read_at f off n;
}.

(** The sectors that a record takes. *)
Definition record_sectors (g : geometry) (record : list Z) : Z :=
  next_multiple_of (Z.of_nat (length record)) (Z.max (g_block_size g) 1 * 64) / 64.

(** Where a record of [sectors] sectors belongs: behind what is used of the
    current bucket, or at the start of the next one when it does not fit.  The
    bucket and the sector in it. *)
Definition record_place (bucket_size sectors : Z) (ja : journal_device) : option (Z * Z) :=
  if sectors <=? sectors_free ja
  then b ← buckets ja !! Z.to_nat (cur_idx ja); Some (b, bucket_size - sectors_free ja)
  else b ← buckets ja !! Z.to_nat ((cur_idx ja + 1) mod nr ja); Some (b, 0).

Lemma record_sectors_spec g (record : list Z) : 7 <= Z.of_nat (length record) ->
  0 < record_sectors g record /\
  next_multiple_of (Z.of_nat (length record)) (Z.max (g_block_size g) 1 * 64) = record_sectors g record * 64 /\
  Z.of_nat (length record) <= record_sectors g record * 64.
Proof.
  intros H. pose proof (sectors_pos record g H) as Hpos. unfold record_sectors.
  set (k := Z.max (g_block_size g) 1) in *. assert (0 < k) by lia.
  destruct (next_multiple_spec (Z.of_nat (length record)) (k * 64)) as [H1 H2]; [lia..|].
  apply Z.mod_divide in H2 as [q Hq]; [|lia]. rewrite Hq in *. replace (q * (k * 64)) with (q * k * 64) in * by lia.
  rewrite Z.div_mul in * by lia. lia.
Qed.

Lemma encode_length uuid_lo g r e : 7 <= Z.of_nat (length r) ->
  encode_record uuid_lo (Z.max (g_block_size g) 1 * 64) r = Some e -> Z.of_nat (length e) = record_sectors g r * 64.
Proof.
  intros Hlen E. destruct (record_sectors_spec g r Hlen) as (_ & Hm & Hle). unfold encode_record in E.
  destruct (bch2_checksum _ _); cbn [mbind option_bind] in E; [|done]. injection E as <-.
  rewrite length_app, length_replicate, !length_insert, Hm. lia.
Qed.

(** Moving to a bucket leaves the current index where the record belongs. *)
Lemma advance_place bucket_size sectors q ja L ja1 adv bucket : ring_ok ja L -> sectors <= bucket_size ->
  journal_advance_bucket bucket_size sectors q ja = Some (Some (ja1, adv)) ->
  buckets ja1 !! Z.to_nat (cur_idx ja1) = Some bucket ->
  record_place bucket_size sectors ja = Some (bucket, bucket_size - sectors_free ja1) /\
  (adv = true -> sectors_free ja1 = bucket_size).
Proof.
  intros Hr Hle E Hb. unfold journal_advance_bucket in E. unfold record_place.
  destruct (Z.ltb_spec (sectors_free ja) sectors) as [Hlt|Hge]; cbn [andb] in E.
  - rewrite (proj2 (Z.leb_le _ _) Hle) in E. rewrite (proj2 (Z.leb_gt _ _)) by lia.
    destruct (bch2_journal_dev_buckets_available _ _) as [a|]; cbn [mbind option_bind] in E; [|done].
    destruct (a =? 0); cbn [mbind option_bind fst] in E; [rewrite (proj2 (Z.ltb_lt _ _)) in E by lia; done|].
    destruct (ro_nr32 _ _ Hr) as [Hn Hn32]. pose proof (ro_cur _ _ Hr). rewrite uadd_ok in E by lia. cbn [mbind option_bind] in E.
    destruct (assert _); cbn [mbind option_bind fst] in E; [|done]. case_match; [done|]. injection E as <- <-.
    cbn [buckets cur_idx set_cur sectors_free] in *. rewrite Hb. cbn [mbind option_bind]. by rewrite Z.sub_diag.
  - rewrite (proj2 (Z.leb_le _ _)) by lia. cbn [mbind option_bind fst] in E.
    rewrite (proj2 (Z.ltb_ge _ _)) in E by lia. injection E as <- <-. by rewrite Hb.
Qed.

(** What a call of [journal_write] does to the file, when it gets as far as
    the device: nothing outside the place of the record, the whole bucket when
    it moved to a new one; and a successful one leaves the record there. *)
Lemma journal_write_effect read_at (HF : FileLaws read_at) (d : @jdisk F) ja L q record ret ja' f' :
  let bs := g_bucket_size (d_geom d) in
  let sectors := record_sectors (d_geom d) record in
  ring_ok ja L -> 0 <= sectors_free ja <= bs -> 7 <= Z.of_nat (length record) ->
  journal_write file_len write_at sync_data d ja q record = Some (ret, ja', f') ->
  (ret <> 0 /\ ja' = ja /\ f' = d_file d) \/
  exists ja1 adv bucket, journal_advance_bucket bs sectors q ja = Some (Some (ja1, adv)) /\
    sectors <= bs /\ 0 <= bucket /\ buckets ja1 !! Z.to_nat (cur_idx ja1) = Some bucket /\
    let start := (bucket * bs + (bs - sectors_free ja1)) * 512 in
    (forall off n, 0 <= off ->
       off + 8 * Z.of_nat n <= (if adv then bucket * bs * 512 else start) \/
       (if adv then (bucket + 1) * bs * 512 else start + sectors * 512) <= off ->
       read_at f' off n = read_at (d_file d) off n) /\
    ((ret <> 0 /\ ja' = ja1) \/
     (ret = 0 /\ journal_written sectors q ja1 = Some ja' /\
      exists bytes, encode_record (d_uuid_lo d) (Z.max (g_block_size (d_geom d)) 1 * 64) record = Some bytes /\
        read_at f' start (length bytes) = bytes)).
Proof.
  intros bs sectors Hr Hf Hlen. destruct (record_sectors_spec (d_geom d) record Hlen) as (Hpos & Hww & _). fold sectors in Hpos, Hww.
  unfold journal_write. fold bs. rewrite Hww. replace (sectors * 64 / 64) with sectors by (by rewrite Z.div_mul).
  destruct (negb (d_fields d)); [intros [= <- <- <-]; by left|].
  destruct (Z.eqb_spec bs 0) as [|_]; cbn [orb]; [intros [= <- <- <-]; by left|].
  destruct (d_total_buckets d =? 0); cbn [orb]; [intros [= <- <- <-]; by left|].
  destruct (Z.ltb_spec bs sectors) as [|Hsb]; [intros [= <- <- <-]; by left|].
  destruct (negb _ || negb _ || negb _); [intros [= <- <- <-]; by left|].
  destruct (advance_bucket_ok ja L bs sectors q Hr) as (room & Ea & Hroom). rewrite Ea. cbn [mbind option_bind].
  destruct room as [[ja1 adv]|]; [|intros [= <- <- <-]; by left]. destruct Hroom as (Hr1 & Hfit & Hadv).
  assert (0 <= sectors_free ja1 <= bs) as Hf1 by (destruct (advance_bucket_keeps _ _ _ _ _ _ Ea) as (_ & [-> | ->] & _); lia).
  destruct (buckets ja1 !! Z.to_nat (cur_idx ja1)) as [bucket|] eqn:Hbk; cbn [mbind option_bind]; [|done].
  pose proof (Forall_lookup_1 _ _ _ _ (ro_buckets _ _ Hr1) Hbk) as Hb. cbn in Hb.
  destruct (umul 64 bucket bs) as [sect|] eqn:Eu; cbn [mbind option_bind]; [|done].
  assert (sect = bucket * bs) as -> by (unfold umul in Eu; by case_match; simplify_eq).
  assert (adv = true -> sectors_free ja1 = bs) as Hfull by apply (advance_place _ _ _ _ _ _ _ _ Hr Hsb Ea Hbk).
  set (start := (bucket * bs + (bs - sectors_free ja1)) * 512).
  assert (0 <= start) as Hstart by (unfold start; nia).
  destruct (if adv then write_at (d_file d) (bucket * bs * 512) _ else _) as [ok1 f1] eqn:E1.
  assert (forall off n, 0 <= off ->
       off + 8 * Z.of_nat n <= (if adv then bucket * bs * 512 else start) \/
       (if adv then (bucket + 1) * bs * 512 else start + sectors * 512) <= off ->
       read_at f1 off n = read_at (d_file d) off n) as Hframe1.
  { intros off n Ho Hd. destruct adv; [|by injection E1 as _ <-].
    assert (0 <= bucket * bs * 512) as H0 by nia. apply (write_frame _ _ _ _ _ _ _ H0 E1 Ho).
    rewrite length_replicate, Z2Nat.id by nia. lia. }
  intros E. right. exists ja1, adv, bucket. do 2 (split; [done|]). split; [lia|]. split; [done|]. cbv zeta. fold start.
  destruct (negb ok1); [injection E as <- <- <-; split; [exact Hframe1|by left]|].
  destruct (usub bs (sectors_free ja1)) as [free|] eqn:Efr; cbn [mbind option_bind] in E; [|done]; apply usub_Some in Efr as [_ ->].
  destruct (uadd 64 _ _) as [sector|] eqn:Es; cbn [mbind option_bind] in E; [|done]; apply uadd_Some in Es as [_ ->]. fold start in E.
  destruct (encode_record _ _ record) as [bytes|] eqn:Ee; cbn [mbind option_bind] in E; [|done].
  pose proof (encode_length _ _ _ _ Hlen Ee) as Hbl. fold sectors in Hbl.
  destruct (_ <? _ + _); [injection E as <- <- <-; split; [exact Hframe1|by left]|].
  destruct (write_at f1 start bytes) as [ok2 f2] eqn:Ew.
  assert (forall off n, 0 <= off ->
       off + 8 * Z.of_nat n <= (if adv then bucket * bs * 512 else start) \/
       (if adv then (bucket + 1) * bs * 512 else start + sectors * 512) <= off ->
       read_at f2 off n = read_at (d_file d) off n) as Hframe2.
  { intros off n Ho Hd. rewrite <- (Hframe1 off n Ho Hd). apply (write_frame _ _ _ _ _ _ _ Hstart Ew Ho).
    rewrite Hbl. destruct adv; [specialize (Hfull eq_refl); unfold start; nia|unfold start in *; lia]. }
  destruct (negb ok2) eqn:Eok2; [injection E as <- <- <-; split; [exact Hframe2|by left]|].
  destruct (sync_data f2) as [ok3 f3] eqn:Esy.
  assert (forall off n, read_at f3 off n = read_at f2 off n) as Hsync by (intros off n; by apply (sync_reads _ _ _ _ _ Esy)).
  destruct (negb ok3); [injection E as <- <- <-; split; [intros off n Ho Hd; rewrite Hsync; by apply Hframe2|by left]|].
  destruct (journal_written _ _ _) as [ja2|] eqn:Ewr; cbn [mbind option_bind] in E; [|done]; injection E as <- <- <-.
  split; [intros off n Ho Hd; rewrite Hsync; by apply Hframe2|].
  right. split; [done|]. split; [done|]. exists bytes. split; [done|]. rewrite Hsync.
  apply negb_false_iff in Eok2 as ->. by apply (write_read f1).
Qed.

(** C2: when a flush of a journal with a device returns 0, the encoding of the
    record it closed (checksum, magic number, sequence number, entries and
    roots) is what the file holds at the place the device had for it: behind
    the used sectors of the current bucket, or at the start of the next bucket
    when it does not fit there, and inside that bucket. *)
Theorem journal_flush_durable read_at fuel cb rf roots (j j' : @journal F) ps d :
  FileLaws read_at -> journal_ok j ps -> roots_ok roots ->
  FlushCallback (geom_of j) (JournalRes.seq (j_core j) + 1) cb -> (nunflushed (jp (j_meta j)) < fuel)%nat ->
  j_disk j = Some d -> 0 < nr (device (js (j_meta j))) ->
  flush fuel cb rf roots j = Some (0, j') ->
  let bs := g_bucket_size (d_geom d) in
  let sectors := record_sectors (d_geom d) (record_for j ps roots) in
  exists d' bucket used bytes, j_disk j' = Some d' /\
    record_place bs sectors (device (js (j_meta j))) = Some (bucket, used) /\ 0 <= used /\ used + sectors <= bs /\
    encode_record (d_uuid_lo d) (Z.max (g_block_size (d_geom d)) 1 * 64) (record_for j ps roots) = Some bytes /\
    Z.of_nat (length bytes) = sectors * 64 /\
    read_at (d_file d') ((bucket * bs + used) * 512) (length bytes) = bytes.
Proof.
  intros HF Hj Hroots Hcb Hfuel Ed Hnr E. cbv zeta. pose proof Hj as [Hr Hm Hidle Hsize]. unfold bch2_journal_flush in E.
  pose proof (flush_guard_spec _ _ Hr) as Hguard.
  destruct (flush_guard (reservations (j_core j))); cbn [negb] in E; [|done].
  pose proof (proj1 Hguard eq_refl) as Hheld. clear Hguard.
  rewrite (inv_idx _ _ Hr) in E. destruct (ri_open _ _ Hr) as (b & tail & Hb & Hbs & Hd). rewrite Hb in E.
  cbn [mbind option_bind] in E. rewrite Hbs, Z.eqb_refl in E. cbn [assert mbind option_bind] in E.
  destruct (0 <? j_fault j); [done|]. rewrite (flush_record_spec _ _ _ Hr) in E. cbn [mbind option_bind] in E.
  pose proof (ri_used _ _ Hr) as Hused. unfold used in *. rewrite (all_words_done _ Hheld) in *.
  rewrite Ed in E. rewrite append_roots_spec in E by done. cbn [mbind option_bind] in E.
  unfold record_for. rewrite Ed. set (record := record_header _ _ _ ++ _) in *.
  set (bs := g_bucket_size (d_geom d)). set (sectors := record_sectors (d_geom d) record).
  destruct (journal_write _ _ _ _ _ _ _) as [[[ret ja] f]|] eqn:Ew; cbn [mbind option_bind] in E; [|done].
  destruct (Z.eqb_spec ret 0) as [->|Hne]; cbn [negb] in E; [|by injection E].
  pose proof (mo_dev _ _ _ Hm) as Hdev. unfold geom_of in Hdev. rewrite Ed in Hdev.
  destruct Hdev as [(? & _)|[Hring (g' & [= <-] & Hfree)]]; [lia|].
  assert (7 <= Z.of_nat (length record)) as Hlen by (unfold record; rewrite length_app; cbn; lia).
  destruct (journal_write_effect read_at HF d _ _ _ record _ _ _ Hring Hfree Hlen Ew) as
    [(? & _)|(ja1 & adv & bucket & Ea & Hsb & Hb0 & Hbk & _ & [(? & _)|(_ & _ & bytes & He & Hread)])]; [done|done|].
  fold bs sectors in Ea, Hsb, Hread. destruct (advance_place _ _ _ _ _ _ _ _ Hring Hsb Ea Hbk) as [Hplace _].
  exists (set_file f d), bucket, (bs - sectors_free ja1), bytes.
  destruct (advance_bucket_ok _ _ bs sectors (JournalRes.seq (j_core j)) Hring) as (r & Er & Hroom).
  rewrite Ea in Er. injection Er as <-. destruct Hroom as (_ & Hfit & _). destruct (advance_bucket_keeps _ _ _ _ _ _ Ea) as (_ & Hfr & _).
  split_and!; [|done|destruct Hfr as [-> | ->]; unfold bs; lia|lia|done|by apply (encode_length _ _ _ _ Hlen He)|exact Hread].
  unfold flush_after_write in E. destruct (switch_buf _ _) as [sw|]; cbn [mbind option_bind] in E; [|done].
  destruct sw as [err|core]; cbn [j_core j_meta j_closed j_disk j_fault j_nr_background] in E; [by injection E as _ <-|].
  destruct (flush_finish _ _ _ _ _) as [m'|]; cbn [mbind option_bind] in E; [|done].
  unfold kick in E. destruct (_ && rf); cbn [mbind option_bind] in E; [|by injection E as <-].
  destruct (journal_reclaim_loop _ _ _ _ _ _) as [[n m2]|]; cbn [mbind option_bind] in E; [|done]. by injection E as <-.
Qed.

End Theorems.

(** ** A pin taken after its entry was reclaimed

    The transaction commit ([src/crates/subvol/src/btree/update.rs]) releases
    its reservation before it inserts its keys, and only the insertion pins the
    journal entry.  A flush of another thread in between finds the entry
    without a pin. *)

(** when nothing else pins the open entry, a flush between the release of
    the last reservation and the pin reclaims the entry, and pinning it
    panics. *)
Theorem journal_pin_after_flush_panics g level m open wrote empty m' a q f :
  meta_ok g m open -> front (jp m) = open ->
  (forall b p, pins (jp m) !! b = Some p -> pin_seq p <> open) ->
  (forall x, head (lists (jp m)) = Some x -> unreplayed x = false) ->
  flush_finish g open wrote empty m = Some m' ->
  pins (jp m) !! a = Some q -> pin_seq q = 0 ->
  bch2_journal_pin_add g level open a f m' = None.
Proof.
  intros Hm Hfront Hnone Hunr E Hq Hz.
  destruct (flush_finish_ok g m open wrote empty Hm) as (m2 & E2 & Hm2 & Hp2 & _ & _ & _ & Hh).
  rewrite E in E2. injection E2 as <-.
  unfold bch2_journal_pin_add, journal_pin_active. rewrite Hp2, Hq. cbn [mbind option_bind].
  rewrite Hz. cbn [Z.eqb negb orb]. unfold bch2_journal_pin_set. rewrite Hp2, Hq. cbn [mbind option_bind].
  unfold pin_set_lists. rewrite Hp2, Hq. cbn [mbind option_bind].
  unfold journal_pin_active. rewrite Hz. cbn [Z.eqb negb andb mbind option_bind].
  unfold at_seq. destruct (Z.leb_spec (front (jp m')) open) as [Hle|]; [|done]. exfalso.
  pose proof (mo_pins _ _ _ Hm2) as Hpo. pose proof (po_front _ _ Hpo) as Hpf.
  pose proof (po_front _ _ (mo_pins _ _ _ Hm)) as Hf0.
  assert (front (jp m') = open) as Hf'.
  { pose proof (flush_finish_front _ _ _ _ _ _ E). lia. }
  destruct (lists (jp m')) as [|x l] eqn:El.
  { pose proof (po_window _ _ Hpo) as Hw. rewrite El in Hw. cbn in Hw. lia. }
  destruct (Hh x) as [Hc|Hlt]; [done| |rewrite (mo_last _ _ _ Hm2) in Hlt; lia].
  pose proof (po_lists _ _ Hpo 0%nat x) as Hl. rewrite El in Hl. specialize (Hl eq_refl).
  rewrite Z.add_0_r, Hf' in Hl. rewrite (lo_count _ _ _ _ Hl) in Hc.
  rewrite (proj2 (Z.eqb_neq open (open + 1))) in Hc by lia.
  assert (unreplayed x = false) as Hux.
  { apply (flush_finish_head _ _ _ _ _ _ _ E Hunr); [|lia|by rewrite El].
    intros H0. pose proof (po_window _ _ (mo_pins _ _ _ Hm)) as Hw. rewrite H0 in Hw. cbn in Hw. lia. }
  rewrite Hux in Hc. assert (members x = []) as Hmem.
  { destruct (members x) as [|b bs] eqn:Eb; [done|exfalso].
    destruct (proj1 (lo_mem _ _ _ _ Hl b)) as (p & Hp & Hps); [rewrite Eb; apply list_elem_of_here|].
    rewrite Hp2 in Hp. by apply (Hnone b p). }
  rewrite Hmem in Hc. cbn in Hc. lia.
Qed.

Lemma one_pin_meta_ok : meta_ok None
  (set_jp (set_pins (<[7 := mk_pin 0 None]> (pins (jp meta_default))) (jp meta_default)) meta_default) 1.
Proof.
  apply meta_ok_jp; [apply meta_default_ok| |done].
  apply new_pins_ok; [apply (mo_pins _ _ _ (meta_default_ok None))|done|done].
Qed.

Lemma journal_pin_after_flush_panics_witness : exists m m',
  flush_finish None 1 1 false m = Some m' /\
  bch2_journal_pin_add None (fun _ => 0) 1 7 bch2_btree_node_flush0 m' = None.
Proof.
  set (m := set_jp (set_pins (<[7 := mk_pin 0 None]> (pins (jp meta_default))) (jp meta_default)) meta_default).
  destruct (flush_finish_ok None m 1 1 false one_pin_meta_ok) as (m' & E & _).
  exists m, m'. split; [done|].
  apply (journal_pin_after_flush_panics None (fun _ => 0) m 1 1 false m' 7 (mk_pin 0 None) _ one_pin_meta_ok).
  - reflexivity.
  - intros b p. cbn [m set_jp set_pins jp pins meta_default]. intros [[<- <-]|[_ H]]%lookup_insert_Some; [done|].
    by rewrite lookup_empty in H.
  - intros x [= <-]. reflexivity.
  - exact E.
  - reflexivity.
  - reflexivity.
Defined.

(** ** A concrete journal on a concrete file

    The file is a function from word indices. *)

Definition wfile : Type := Z -> Z.
Definition wf_len (f : wfile) : Z := 2 ^ 30.
Definition wf_write (f : wfile) (off : Z) (ws : list Z) : bool * wfile :=
  (true, fun i => let k := i - off / 8 in if (0 <=? k) && (k <? Z.of_nat (length ws)) then word ws (Z.to_nat k) else f i).
Definition wf_sync (f : wfile) : bool * wfile := (true, f).
Definition wf_read (f : wfile) (off : Z) (n : nat) : list Z :=
  map (fun k => f (off / 8 + Z.of_nat k)) (List.seq 0 n).

#[global] Instance wfile_laws : FileLaws wf_write wf_sync wf_read.
Proof.
  constructor.
  - intros f off ws f' Hoff [= <-]. unfold wf_read. apply list_eq. intros i. rewrite list_lookup_fmap.
    destruct (Nat.lt_ge_cases i (length ws)) as [Hi|Hi].
    + rewrite lookup_seq_lt by done. cbn [fmap option_fmap option_map].
      replace (off / 8 + Z.of_nat (0 + i) - off / 8) with (Z.of_nat i) by lia.
      rewrite (proj2 (Z.leb_le _ _)), (proj2 (Z.ltb_lt _ _)) by lia. cbn [andb]. rewrite Nat2Z.id.
      unfold word. rewrite nth_lookup. destruct (lookup_lt_is_Some_2 ws i Hi) as [w Hw]. by rewrite Hw.
    + rewrite lookup_seq_ge, lookup_ge_None_2 by done. done.
  - intros f off ws ok f' off' n Hoff [= _ <-] Ho' Hd. unfold wf_read. apply map_ext_in. intros k Hk%in_seq.
    replace ((0 <=? off' / 8 + Z.of_nat k - off / 8) && (off' / 8 + Z.of_nat k - off / 8 <? Z.of_nat (length ws))) with false; [done|].
    symmetry. apply andb_false_iff. rewrite Z.leb_gt, Z.ltb_ge.
    pose proof (Z.div_mod off 8 ltac:(done)). pose proof (Z.mod_pos_bound off 8 ltac:(done)).
    pose proof (Z.div_mod off' 8 ltac:(done)). pose proof (Z.mod_pos_bound off' 8 ltac:(done)). lia.
  - intros f ok f' off n [= <- <-]. done.
Qed.

Definition sample_geom : geometry := mk_geom 8 1.
Definition sample_jdisk : @jdisk wfile := mk_disk true sample_geom 4 77 (fun _ => 0).
Definition sample_meta : jmeta :=
  mk_meta (start_pins 5 7 (jp meta_default)) (mk_jspace sample_dev 5 5 (replicate 4 no_space) 0 0 0 0 false) 6.
Definition sample_core : jcore := mk_core (fresh_state 7) 7 100 (fresh_ring 7).
Definition sample_journal : @journal wfile := mk_journal sample_core sample_meta [] (Some sample_jdisk) 0 0.

Lemma sample_core_ok : res_inv sample_core [].
Proof. apply fresh_inv; [split; vm_compute; congruence|]. rewrite buf_u64s_val. lia. Qed.

Lemma sample_journal_ok : journal_ok sample_journal [].
Proof.
  constructor.
  - apply sample_core_ok.
  - change (JournalRes.seq (j_core sample_journal)) with 7. constructor; [|right|done].
    + apply start_pins_ok; [lia| |vm_compute; congruence]. intros a q. cbn. by rewrite lookup_empty.
    + split; [apply sample_ring|]. exists sample_geom. split; [done|]. cbn. lia.
  - reflexivity.
  - intros d [= <-]. cbn. lia.
Qed.

Definition sample_roots : list (option btree_root) := [None; Some (mk_root 1 [10; 11; 12; 13; 14])].

Lemma sample_roots_ok : roots_ok sample_roots.
Proof.
  split; [cbn; unfold BTREE_ID_NR; lia|]. apply Forall_cons_2; [done|]. apply Forall_cons_2; [|by constructor].
  split; [done|]. cbn. unfold BKEY_WORDS, BKEY_BTREE_PTR_VAL_U64S_MAX. lia.
Qed.

Definition sample_flush : option (Z * @journal wfile) :=
  bch2_journal_flush wf_len wf_write wf_sync 9 (flush_by_drop (Some sample_geom)) true sample_roots sample_journal.

Lemma sample_write : exists ja f, journal_write wf_len wf_write wf_sync sample_jdisk sample_dev 7
  (record_for sample_journal [] sample_roots) = Some (0, ja, f).
Proof. eexists _, _. vm_compute. reflexivity. Qed.

Lemma sample_flush_ok : exists j', sample_flush = Some (0, j').
Proof.
  destruct sample_write as (ja & f & Ew).
  apply (flush_zero wf_len wf_write wf_sync 9 (flush_by_drop (Some sample_geom)) true sample_roots sample_journal [] sample_jdisk ja f
    sample_journal_ok sample_roots_ok (flush_by_drop_callback _ _)); try done; vm_compute; lia.
Qed.

Lemma journal_flush_correct_witness : exists j', sample_flush = Some (0, j') /\
  flushed sample_journal j' (record_for sample_journal [] sample_roots).
Proof.
  destruct sample_flush_ok as [j' E].
  assert (nunflushed (jp (j_meta sample_journal)) < 9)%nat as Hfuel by (vm_compute; lia).
  destruct (journal_flush_correct wf_len wf_write wf_sync 9 (flush_by_drop (Some sample_geom)) true sample_roots
              sample_journal [] sample_journal_ok sample_roots_ok (flush_by_drop_callback _ _) Hfuel) as (ret & j2 & E2 & Hc).
  exists j'. split; [exact E|]. assert (Some (ret, j2) = Some (0, j')) as H by (transitivity sample_flush; [symmetry; exact E2|exact E]).
  injection H as -> ->. destruct Hc as [(_ & _ & Hf)|(Hne & _)]; [exact Hf|]. by destruct (Hne eq_refl).
Defined.

Lemma journal_flush_durable_witness : exists j' d' bytes, sample_flush = Some (0, j') /\ j_disk j' = Some d' /\
  encode_record 77 64 (record_for sample_journal [] sample_roots) = Some bytes /\
  wf_read (d_file d') ((12 * 8 + 3) * 512) (length bytes) = bytes.
Proof.
  destruct sample_flush_ok as [j' E].
  assert (nunflushed (jp (j_meta sample_journal)) < 9)%nat as Hfuel by (vm_compute; lia).
  destruct (journal_flush_durable wf_len wf_write wf_sync wf_read 9 (flush_by_drop (Some sample_geom)) true sample_roots
              sample_journal j' [] sample_jdisk wfile_laws sample_journal_ok sample_roots_ok (flush_by_drop_callback _ _) Hfuel eq_refl
              ltac:(cbn; lia) E) as (d' & bucket & used & bytes & Hd & Hp & _ & _ & H1 & _ & H2).
  assert (Some (12, 3) = Some (bucket, used)) as Hpl by (transitivity
    (record_place 8 (record_sectors sample_geom (record_for sample_journal [] sample_roots)) sample_dev);
    [vm_compute; reflexivity|exact Hp]).
  injection Hpl as <- <-. exists j', d', bytes. split; [exact E|]. split; [exact Hd|]. split; [exact H1|exact H2].
Defined.
