(* ===== verification/JournalKept.v ===== *)
(** * The records on the device

    The writes of [bch2_journal_flush] ([src/crates/subvol/src/journal.rs])
    and the space accounting between them, on the bytes of the device: a log
    remembers where each record was put, and the theorem shows that every
    record from [last_seq_ondisk] on can still be read back there. *)

From S2P Require Import Prelude.
From S2P Require Import JournalRes.
From S2P Require Import JournalSpace.
From S2P Require Import JournalPins.
From S2P Require Import JournalDisk.
From S2P Require Import Journal.
From stdpp Require Import base tactics list numbers option relations.
From Stdlib Require Import ZArith Lia.

Open Scope Z_scope.

(** A record on the device: its sequence number, the byte where it begins and
    its words. *)
Record disk_record := mk_disk_record { p_seq : Z; p_off : Z; p_words : list Z }.

Section Kept.
Context {F : Type} (file_len : F -> Z) (write_at : F -> Z -> list Z -> bool * F) (sync_data : F -> bool * F).

(** The device and its file, the accounting, the sequence number of the open
    entry, and the records written or found so far. *)
Record psys := mk_psys {
  ps_disk : @jdisk F;
  ps_space : jspace;
  ps_seq : Z;
  ps_log : list disk_record;
}.

(** What happens to the device: a write of the open entry, which fails or
    gives a new log entry at the place the device has for it; the accounting;
    the discards; the pins move [last_seq]; a record that was written moves
    [last_seq_ondisk]. *)
Inductive pstep : psys -> psys -> Prop :=
  | pstep_write d s q log record ja' f' bucket used bytes :
      journal_write file_len write_at sync_data d (device s) q record = Some (0, ja', f') ->
      7 <= Z.of_nat (length record) ->
      record_place (g_bucket_size (d_geom d)) (record_sectors (d_geom d) record) (device s) = Some (bucket, used) ->
      encode_record (d_uuid_lo d) (Z.max (g_block_size (d_geom d)) 1 * 64) record = Some bytes ->
      pstep (mk_psys d s q log)
        (mk_psys (set_file f' d) (set_device ja' s) (q + 1)
           (mk_disk_record q ((bucket * g_bucket_size (d_geom d) + used) * 512) bytes :: log))
  | pstep_failed d s q log record ret ja' f' :
      journal_write file_len write_at sync_data d (device s) q record = Some (ret, ja', f') -> ret <> 0 ->
      7 <= Z.of_nat (length record) ->
      pstep (mk_psys d s q log) (mk_psys (set_file f' d) (set_device ja' s) q log)
  | pstep_space d s q log n s' :
      bch2_journal_space_available (Some (d_geom d)) n s = Some s' ->
      pstep (mk_psys d s q log) (mk_psys d s' q log)
  | pstep_discard d s q log s' :
      bch2_journal_do_discards s = Some s' ->
      pstep (mk_psys d s q log) (mk_psys d s' q log)
  | pstep_last d s q log v :
      pstep (mk_psys d s q log) (mk_psys d (set_last_seq v s) q log)
  | pstep_ondisk d s q log v : last_seq_ondisk s <= v ->
      pstep (mk_psys d s q log) (mk_psys d (set_last_seq_ondisk v s) q log).

Context (read_at : F -> Z -> nat -> list Z) (HF : FileLaws write_at sync_data read_at).

(** A record lies inside the bucket with index [k], in front of what is free
    there, and is not younger than that bucket says. *)
Definition inside (bs : Z) (ja : journal_device) (p : disk_record) : Prop :=
  exists k b s u, 0 <= k /\ buckets ja !! Z.to_nat k = Some b /\ bucket_seq ja !! Z.to_nat k = Some s /\
    p_seq p <= s /\ 0 <= u /\ p_off p = (b * bs + u) * 512 /\ u * 64 + Z.of_nat (length (p_words p)) <= bs * 64 /\
    (k = cur_idx ja -> u * 64 + Z.of_nat (length (p_words p)) <= (bs - sectors_free ja) * 64).

Definition readable (d : @jdisk F) (p : disk_record) : Prop :=
  read_at (d_file d) (p_off p) (length (p_words p)) = p_words p.

Record psys_ok (s : psys) : Prop := {
  po_ring : ring_ok (device (ps_space s)) (last_seq_ondisk (ps_space s));
  po_free : 0 <= sectors_free (device (ps_space s)) <= g_bucket_size (d_geom (ps_disk s));
  po_distinct : NoDup (buckets (device (ps_space s)));
  po_seqs : Forall (fun b => b <= ps_seq s) (bucket_seq (device (ps_space s)));
  po_log : forall p, p ∈ ps_log s -> last_seq_ondisk (ps_space s) <= p_seq p ->
    inside (g_bucket_size (d_geom (ps_disk s))) (device (ps_space s)) p /\ readable (ps_disk s) p;
}.

(** Finding room keeps the places of the records still needed, and the bytes
    about to be written are not theirs. *)
Lemma write_misses bs sectors q ja L ja1 adv bucket p :
  ring_ok ja L -> 0 <= bs -> 0 <= sectors_free ja <= bs -> NoDup (buckets ja) -> 0 <= bucket ->
  journal_advance_bucket bs sectors q ja = Some (Some (ja1, adv)) ->
  buckets ja1 !! Z.to_nat (cur_idx ja1) = Some bucket ->
  L <= p_seq p -> inside bs ja p ->
  inside bs ja1 p /\
  let start := (bucket * bs + (bs - sectors_free ja1)) * 512 in
  (p_off p + 8 * Z.of_nat (length (p_words p)) <= (if adv then bucket * bs * 512 else start) \/
   (if adv then (bucket + 1) * bs * 512 else start + sectors * 512) <= p_off p).
Proof.
  intros Hr Hbs Hfree Hnd Hb0 Ea Hbk HL (k & b & sq & u & Hk0 & Hb & Hs & Hle & Hu & Hoff & Hend & Hcur).
  destruct (advance_bucket_ok ja L bs sectors q Hr) as (r & Er & Hroom). rewrite Ea in Er. injection Er as <-.
  destruct Hroom as (Hr1 & Hfit & Hadv). destruct (advance_bucket_keeps _ _ _ _ _ _ Ea) as (Hbb & Hfr & _).
  assert (0 <= sectors_free ja1 <= bs) as Hf1 by (destruct Hfr as [-> | ->]; lia).
  pose proof (ro_cur _ _ Hr1) as Hc1. cbv zeta.
  assert (k <> cur_idx ja1 -> b <> bucket) as Hne.
  { intros Hkc ->. apply Hkc. rewrite Hbb in Hbk. pose proof (NoDup_lookup _ _ _ _ Hnd Hb Hbk). lia. }
  assert (k <> cur_idx ja1 -> p_off p + 8 * Z.of_nat (length (p_words p)) <= bucket * bs * 512 \/
    (bucket + 1) * bs * 512 <= p_off p) as Hout.
  { intros Hkc%Hne. rewrite Hoff. destruct (Z.lt_total b bucket) as [H|[H|H]]; [left; nia|done|right; nia]. }
  destruct adv.
  - destruct Hadv as (Hcur1 & Hnr1 & Hseq1 & old & Hold & HoldL).
    assert (k <> cur_idx ja1) as Hkc by (intros ->; rewrite Hold in Hs; injection Hs as <-; lia).
    split; [|by apply Hout]. exists k, b, sq, u. rewrite Hbb, Hseq1.
    rewrite list_lookup_insert_ne by lia. by split_and!.
  - subst ja1. split; [by exists k, b, sq, u|]. destruct (Z.eq_dec k (cur_idx ja)) as [->|Hkc].
    + left. specialize (Hcur eq_refl). rewrite Hb in Hbk. injection Hbk as ->. rewrite Hoff. lia.
    + destruct (Hout Hkc); [left; nia|right; nia].
Qed.

(** The write of a record, successful or not. *)
Lemma write_ok d s q log record ret ja' f' :
  psys_ok (mk_psys d s q log) -> 7 <= Z.of_nat (length record) ->
  journal_write file_len write_at sync_data d (device s) q record = Some (ret, ja', f') ->
  psys_ok (mk_psys (set_file f' d) (set_device ja' s) q log) /\
  (ret = 0 -> psys_ok (mk_psys (set_file f' d) (set_device ja' s) (q + 1) log) /\
   forall bucket used bytes,
     record_place (g_bucket_size (d_geom d)) (record_sectors (d_geom d) record) (device s) = Some (bucket, used) ->
     encode_record (d_uuid_lo d) (Z.max (g_block_size (d_geom d)) 1 * 64) record = Some bytes ->
     let p := mk_disk_record q ((bucket * g_bucket_size (d_geom d) + used) * 512) bytes in
     inside (g_bucket_size (d_geom d)) ja' p /\ readable (set_file f' d) p).
Proof.
  intros [Hr Hf Hnd Hq Hlog] Hlen E. cbn [ps_disk ps_space ps_seq ps_log] in *.
  set (bs := g_bucket_size (d_geom d)) in *. set (sectors := record_sectors (d_geom d) record) in *.
  destruct (journal_write_effect file_len write_at sync_data read_at HF d _ _ _ record _ _ _ Hr Hf Hlen E) as
    [(Hret & -> & ->)|(ja1 & adv & bucket & Ea & Hsb & Hb0 & Hbk & Hframe & Hcase)].
  { split; [|done]. constructor; done. }
  fold bs sectors in Ea, Hsb, Hframe, Hcase. cbv zeta in Hframe.
  destruct (advance_bucket_ok _ _ bs sectors q Hr) as (r & Er & Hroom). rewrite Ea in Er. injection Er as <-.
  destruct Hroom as (Hr1 & Hfit & Hadv). destruct (advance_bucket_keeps _ _ _ _ _ _ Ea) as (Hbb & Hfr & _).
  assert (0 <= sectors_free ja1 <= bs) as Hf1 by (destruct Hfr as [-> | ->]; lia).
  destruct (record_sectors_spec (d_geom d) record Hlen) as (Hpos & _ & _). fold sectors in Hpos.
  assert (Forall (fun b => b <= q) (bucket_seq ja1)) as Hq1.
  { destruct adv; [|by subst]. destruct Hadv as (_ & _ & -> & _). apply Forall_insert; [done|lia]. }
  assert (forall p, p ∈ log -> last_seq_ondisk s <= p_seq p -> inside bs ja1 p /\ readable (set_file f' d) p) as Hlog1.
  { intros p Hp HL. destruct (Hlog p Hp HL) as [Hin Hrd].
    destruct (write_misses bs sectors q _ _ ja1 adv bucket p Hr ltac:(lia) Hf Hnd Hb0 Ea Hbk HL Hin) as [Hin1 Hmiss].
    split; [done|]. unfold readable in *. cbn [set_file d_file]. rewrite Hframe; [done| |done].
    destruct Hin as (k & b & sq & u & _ & Hb & _ & _ & Hu & -> & _).
    pose proof (Forall_lookup_1 _ _ _ _ (ro_buckets _ _ Hr) Hb) as H. cbn in H. nia. }
  destruct Hcase as [(Hret & ->)|(-> & Ewr & bytes & He & Hread)].
  { split; [|done]. constructor; cbn [ps_disk ps_space ps_seq ps_log set_device device]; try done. by rewrite Hbb. }
  destruct (written_ok ja1 _ sectors q Hr1 Hfit) as (ja2 & E2 & Hr2 & Hc2 & Hn2 & Hs2). rewrite E2 in Ewr. injection Ewr as ->.
  assert (buckets ja' = buckets ja1 /\ sectors_free ja' = sectors_free ja1 - sectors) as [Hb2 Hf2].
  { unfold journal_written in E2. rewrite usub_ok in E2 by done. cbn [mbind option_bind] in E2.
    destruct (assert _); [|done]. cbn [mbind option_bind] in E2. by injection E2 as <-. }
  pose proof (ro_cur _ _ Hr1) as Hc1. pose proof (ro_len _ _ Hr1) as Hl1.
  assert (forall p, p ∈ log -> last_seq_ondisk s <= p_seq p -> inside bs ja' p) as Hlog2.
  { intros p Hp HL. destruct (Hlog1 p Hp HL) as [(k & b & sq & u & Hk0 & Hb & Hs & Hle & Hu & Hoff & Hend & Hcur) _].
    destruct (Z.eq_dec k (cur_idx ja1)) as [->|Hkc].
    - exists (cur_idx ja1), b, q, u. rewrite Hb2, Hs2, Hc2, Hf2, list_lookup_insert_eq by lia.
      pose proof (Forall_lookup_1 _ _ _ _ Hq1 Hs) as H. cbn in H. specialize (Hcur eq_refl). split_and!; try done; lia.
    - exists k, b, sq, u. rewrite Hb2, Hs2, Hc2, list_lookup_insert_ne by lia. by split_and!. }
  assert (forall q', q <= q' -> psys_ok (mk_psys (set_file f' d) (set_device ja' s) q' log)) as Hok.
  { intros q' Hq'. constructor; cbn [ps_disk ps_space ps_seq ps_log set_device device last_seq_ondisk set_file d_geom].
    - done.
    - fold bs. lia.
    - by rewrite Hb2, Hbb.
    - rewrite Hs2. apply Forall_insert; [|done]. eapply Forall_impl; [exact Hq1|]. cbn. lia.
    - intros p Hp HL. split; [by apply Hlog2|by apply Hlog1]. }
  split; [apply Hok; lia|]. intros _. split; [apply Hok; lia|]. intros bucket' used bytes' Hplace He'.
  rewrite He in He'. injection He' as <-. destruct (advance_place _ _ _ _ _ _ _ _ Hr Hsb Ea Hbk) as [Hpl _].
  rewrite Hpl in Hplace. injection Hplace as <- <-. cbv zeta. split; [|exact Hread].
  pose proof (encode_length _ _ _ _ Hlen He) as Hbl. fold sectors in Hbl.
  exists (cur_idx ja1), bucket, q, (bs - sectors_free ja1). cbn [p_seq p_off p_words].
  rewrite Hb2, Hs2, Hc2, Hf2, list_lookup_insert_eq by lia. split_and!; try done; lia.
Qed.

Lemma space_device g n s s' : bch2_journal_space_available (Some g) n s = Some s' ->
  ring_ok (device s) (last_seq_ondisk s) ->
  ring_ok (device s') (last_seq_ondisk s') /\ last_seq_ondisk s' = last_seq_ondisk s /\
  device s' = set_ondisk (dirty_idx_ondisk (device s')) (set_dirty (dirty_idx (device s')) (device s)).
Proof.
  intros E Hr. unfold bch2_journal_space_available in E.
  destruct (ro_nr32 _ _ Hr) as [Hn _]. rewrite (proj2 (Z.eqb_neq _ _)) in E by lia.
  destruct (advance_dirty_ok _ _ Hr (last_seq s)) as (ja & Ej & Hr' & Eja & _). rewrite Ej in E. cbn [mbind option_bind geometry_of] in E.
  match type of E with context [mbind _ ?x] => destruct x end; [|done]. cbn [mbind option_bind] in E.
  injection E as <-. cbn. split_and!; [done|done|]. rewrite Eja at 1. done.
Qed.

Lemma inside_same bs ja ja' p : buckets ja' = buckets ja -> bucket_seq ja' = bucket_seq ja -> cur_idx ja' = cur_idx ja ->
  sectors_free ja' = sectors_free ja -> inside bs ja p -> inside bs ja' p.
Proof. unfold inside. by intros -> -> -> ->. Qed.

Lemma pstep_ok s s' : pstep s s' -> psys_ok s -> psys_ok s'.
Proof.
  intros Hstep Hok. destruct Hstep as [d s q log record ja' f' bucket used bytes E Hlen Hp He
    |d s q log record ret ja' f' E Hne Hlen|d s q log n s' E|d s q log s' E|d s q log v|d s q log v Hv].
  - destruct (write_ok _ _ _ _ _ _ _ _ Hok Hlen E) as [_ H]. destruct (H eq_refl) as [[Hr Hf Hnd Hq Hlog] Hnew].
    cbn [ps_disk ps_space ps_seq ps_log] in *. constructor; cbn [ps_disk ps_space ps_seq ps_log]; try done.
    intros p [->|Hin]%elem_of_cons HL; [by apply Hnew|by apply Hlog].
  - by destruct (write_ok _ _ _ _ _ _ _ _ Hok Hlen E).
  - destruct Hok as [Hr Hf Hnd Hq Hlog]. cbn [ps_disk ps_space ps_seq ps_log] in *.
    destruct (space_device _ _ _ _ E Hr) as (Hr' & HL & Eq).
    constructor; cbn [ps_disk ps_space ps_seq ps_log]; [done|by rewrite Eq..|].
    rewrite HL. intros p Hp Hle. destruct (Hlog p Hp Hle) as [Hin Hrd]. split; [|done].
    eapply inside_same; [..|exact Hin]; by rewrite Eq.
  - destruct Hok as [Hr Hf Hnd Hq Hlog]. cbn [ps_disk ps_space ps_seq ps_log] in *.
    destruct (do_discards_ok s _ Hr) as [E' Hr']. rewrite E' in E. injection E as <-. constructor; done.
  - destruct Hok as [Hr Hf Hnd Hq Hlog]. constructor; done.
  - destruct Hok as [Hr Hf Hnd Hq Hlog]. cbn [ps_disk ps_space ps_seq ps_log] in *.
    constructor; cbn [ps_disk ps_space ps_seq ps_log set_last_seq_ondisk device last_seq_ondisk]; try done.
    + by eapply ring_ok_mono.
    + intros p Hp Hle. apply Hlog; [done|lia].
Qed.

(** A record that a scan found: it lies in one of the buckets, is not younger
    than the newest record of that bucket, and in the bucket of the newest
    record of all ([highest]) it ends before that one does. *)
Definition scanned (bs : Z) (seqs bks : list Z) (highest : option (Z * Z * Z)) (d : @jdisk F) (p : disk_record) : Prop :=
  exists k b s u, 0 <= k /\ bks !! Z.to_nat k = Some b /\ seqs !! Z.to_nat k = Some s /\ p_seq p <= s /\ 0 <= u /\
    p_off p = (b * bs + u) * 512 /\ u * 64 + Z.of_nat (length (p_words p)) <= bs * 64 /\
    (exists hs hb used, highest = Some (hs, hb, used) /\
       (k = hb -> u * 64 + Z.of_nat (length (p_words p)) <= used * 64)) /\
    readable d p.

Lemma scan_ok d s0 seqs bks highest last cur_seq ja log :
  let bs := g_bucket_size (d_geom d) in
  0 < Z.of_nat (length seqs) < 2 ^ 31 -> 0 <= bs -> NoDup bks -> Forall (fun b => 0 <= b < 2 ^ 40) bks ->
  (forall s b u, highest = Some (s, b, u) -> 0 <= b < Z.of_nat (length seqs) /\ 0 <= u) ->
  Forall (fun b => b <= cur_seq) seqs -> Forall (scanned bs seqs bks highest d) log ->
  journal_read_device bs seqs bks highest last cur_seq = Some ja ->
  psys_ok (mk_psys d (set_last_seq_ondisk (live_from last cur_seq) (set_device ja s0)) cur_seq log).
Proof.
  intros bs Hn Hbs Hnd Hbks Hhigh Hseqs Hlog E.
  destruct (read_device_ok _ _ _ _ _ _ _ Hn Hbks (fun s b u H => proj1 (Hhigh s b u H)) E) as [Hring Hs].
  pose proof (read_device_free _ _ _ _ _ _ _ (fun s b u H => proj2 (Hhigh s b u H)) Hbs E) as Hfree.
  assert (buckets ja = bks /\ forall hs hb used, highest = Some (hs, hb, used) ->
    cur_idx ja = hb /\ sectors_free ja = bs - used) as [Hb Hh].
  { unfold journal_read_device in E. destruct highest as [[[hs hb] hu]|].
    - destruct (usub bs hu) as [f|] eqn:Eu; cbn [mbind option_bind] in E; [|done]. apply usub_Some in Eu as [_ ->].
      destruct (uadd _ _ _); cbn [mbind option_bind] in E; [|done].
      destruct (ring_advance _ _ _ _ _ _); cbn [mbind option_bind] in E; [|done]. injection E as <-.
      split; [done|]. by intros ? ? ? [= <- <- <-].
    - cbn [mbind option_bind] in E. destruct (uadd _ _ _); cbn [mbind option_bind] in E; [|done].
      match type of E with context [ring_advance ?a ?b ?c ?d ?e ?f] => destruct (ring_advance a b c d e f) end;
        cbn [mbind option_bind] in E; [|done]. injection E as <-. done. }
  constructor; cbn [ps_disk ps_space ps_seq ps_log set_last_seq_ondisk set_device device last_seq_ondisk]; try done.
  - by rewrite Hb.
  - by rewrite Hs.
  - intros p Hp _. rewrite Forall_forall in Hlog.
    destruct (Hlog p Hp) as (k & b & s & u & Hk & Hkb & Hks & Hle & Hu & Hoff & Hend & (hs & hb & hu & Eh & Hlast) & Hrd).
    split; [|done]. destruct (Hh _ _ _ Eh) as [Hcur Hfr]. exists k, b, s, u. rewrite Hb, Hs, Hcur, Hfr.
    split_and!; try done. intros Hkc. specialize (Hlast Hkc). fold bs. lia.
Qed.

(** C3: however writes, failed writes, accounting, discards and advances of
    [last_seq] and [last_seq_ondisk] are interleaved after a scan of the
    disk, every record from [last_seq_ondisk] on that was found or written is
    still on the device, word for word at the place it was written to: the
    journal never overwrites a record that a recovery needs. *)
Theorem journal_needed_records_kept d s0 seqs bks highest last cur_seq ja log s :
  let bs := g_bucket_size (d_geom d) in
  0 < Z.of_nat (length seqs) < 2 ^ 31 -> 0 <= bs -> NoDup bks -> Forall (fun b => 0 <= b < 2 ^ 40) bks ->
  (forall s b u, highest = Some (s, b, u) -> 0 <= b < Z.of_nat (length seqs) /\ 0 <= u) ->
  Forall (fun b => b <= cur_seq) seqs -> Forall (scanned bs seqs bks highest d) log ->
  journal_read_device bs seqs bks highest last cur_seq = Some ja ->
  rtc pstep (mk_psys d (set_last_seq_ondisk (live_from last cur_seq) (set_device ja s0)) cur_seq log) s ->
  forall p, p ∈ ps_log s -> last_seq_ondisk (ps_space s) <= p_seq p ->
    read_at (d_file (ps_disk s)) (p_off p) (length (p_words p)) = p_words p.
Proof.
  intros bs Hn Hbs Hnd Hbks Hhigh Hseqs Hlog E Hsteps.
  assert (psys_ok s) as Hok; [|intros p Hp HL; by apply (po_log _ Hok)].
  pose proof (scan_ok _ s0 _ _ _ _ _ _ _ Hn Hbs Hnd Hbks Hhigh Hseqs Hlog E) as H0.
  induction Hsteps; eauto using pstep_ok.
Qed.

End Kept.

(** ** Two records written behind one that a scan found *)

Definition kept_old : disk_record := mk_disk_record 6 (12 * 8 * 512) (replicate 192 0).
Definition kept_recs : list Z * list Z := (replicate 70 1, replicate 300 2).
Definition kept_start : @psys wfile :=
  mk_psys sample_jdisk (set_last_seq_ondisk 5 (set_device sample_dev sample_space)) 7 [kept_old].

Lemma kept_scanned : scanned wf_read 8 [0; 5; 6; 0] [10; 11; 12; 13] (Some (6, 2, 3)) sample_jdisk kept_old.
Proof.
  exists 2, 12, 6, 0. split_and!; [lia|done|done|cbn; lia|lia|done|cbn; lia| |].
  - exists 6, 2, 3. split; [done|]. cbn. lia.
  - vm_compute. reflexivity.
Qed.

(** The writes: the first fits behind the old record, the second goes to the
    next bucket. *)
Lemma kept_write1 : exists f e,
  journal_write wf_len wf_write wf_sync sample_jdisk sample_dev 7 (replicate 70 1) =
    Some (0, mk_dev [0; 5; 7; 0] 3 1 1 1 2 4 [10; 11; 12; 13] 7, f) /\
  encode_record 77 64 (replicate 70 1) = Some e.
Proof. eexists _, _. split; vm_compute; reflexivity. Qed.

Lemma kept_write2 f1 : exists f e,
  journal_write wf_len wf_write wf_sync (set_file f1 sample_jdisk) (mk_dev [0; 5; 7; 0] 3 1 1 1 2 4 [10; 11; 12; 13] 7)
    8 (replicate 300 2) = Some (0, mk_dev [0; 5; 7; 8] 3 1 1 1 3 4 [10; 11; 12; 13] 8, f) /\
  encode_record 77 64 (replicate 300 2) = Some e.
Proof. eexists _, _. split; vm_compute; reflexivity. Qed.

Lemma kept_run : exists s e1 e2, rtc (pstep wf_len wf_write wf_sync) kept_start s /\
  ps_log s = [mk_disk_record 8 (13 * 8 * 512) e2; mk_disk_record 7 ((12 * 8 + 3) * 512) e1; kept_old] /\
  last_seq_ondisk (ps_space s) = 5.
Proof.
  destruct kept_write1 as (f1 & e1 & W1 & E1). destruct (kept_write2 f1) as (f2 & e2 & W2 & E2).
  eexists _, e1, e2. split; [|split].
  - eapply rtc_l.
    { refine (pstep_write wf_len wf_write wf_sync sample_jdisk (ps_space kept_start) 7 _ (replicate 70 1) _ _ 12 3 e1 W1 _ _ _);
        [cbn; lia|vm_compute; reflexivity|exact E1]. }
    eapply rtc_l; [|apply rtc_refl].
    refine (pstep_write wf_len wf_write wf_sync (set_file f1 sample_jdisk)
      (set_device (mk_dev [0; 5; 7; 0] 3 1 1 1 2 4 [10; 11; 12; 13] 7) (ps_space kept_start)) 8 _
      (replicate 300 2) _ _ 13 0 e2 W2 _ _ _); [cbn; lia|vm_compute; reflexivity|exact E2].
  - reflexivity.
  - reflexivity.
Qed.

Lemma journal_needed_records_kept_witness : exists s e1 e2, rtc (pstep wf_len wf_write wf_sync) kept_start s /\
  wf_read (d_file (ps_disk s)) (13 * 8 * 512) (length e2) = e2 /\
  wf_read (d_file (ps_disk s)) ((12 * 8 + 3) * 512) (length e1) = e1 /\
  wf_read (d_file (ps_disk s)) (12 * 8 * 512) 192 = replicate 192 0.
Proof.
  destruct kept_run as (s & e1 & e2 & Hrun & Hlog & HL). exists s, e1, e2. split; [exact Hrun|].
  assert (forall p, p ∈ ps_log s -> last_seq_ondisk (ps_space s) <= p_seq p ->
    wf_read (d_file (ps_disk s)) (p_off p) (length (p_words p)) = p_words p) as H.
  { apply (journal_needed_records_kept wf_len wf_write wf_sync wf_read wfile_laws sample_jdisk sample_space [0; 5; 6; 0] [10; 11; 12; 13]
      (Some (6, 2, 3)) 5 7 sample_dev [kept_old] s).
    - cbn. lia.
    - cbn. lia.
    - by apply (bool_decide_unpack _).
    - by repeat (apply Forall_cons_2; [lia|]).
    - intros s0 b u [= <- <- <-]. cbn. lia.
    - by repeat (apply Forall_cons_2; [lia|]).
    - apply Forall_cons_2; [apply kept_scanned|by apply Forall_nil_2].
    - reflexivity.
    - exact Hrun. }
  rewrite Hlog, HL in H. split_and!.
  - apply (H (mk_disk_record 8 (13 * 8 * 512) e2)); [apply list_elem_of_here|cbn; lia].
  - apply (H (mk_disk_record 7 ((12 * 8 + 3) * 512) e1)); [apply list_elem_of_further, list_elem_of_here|cbn; lia].
  - apply (H kept_old); [do 2 apply list_elem_of_further; apply list_elem_of_here|cbn; lia].
Defined.
