(* ===== verification/JournalKeys.v ===== *)
(** * The overlay of keys read from the journal

    [journal_keys] of [src/crates/subvol/src/journal.rs] (and
    [btree/types.rs]): while the journal is replayed, the keys of its records
    stand in a sorted array in front of the btrees.  A key that replay has
    written to its btree is marked as overwritten, and runs of such keys are
    kept as ranges, so that lookups skip them.

    The theorems read the array as a map from btree, level and position to a
    key, and show what every operation does to the map. *)

From S2P Require Import Prelude.
From S2P Require Import Bpos.
From S2P Require Import BkeyPack.
From stdpp Require Import base tactics list numbers option sorting.
From Stdlib Require Import ZArith Lia.

Open Scope Z_scope.

(** ** Data *)

Record journal_key_range_overwritten := mk_range { start : nat; end_ : nat }.

(** One key: [jk_k] is the memory of its copy, header and value.  The fields
    [journal_seq_offset], [journal_offset] and [rewind] are never set; every
    copy is owned by the array. *)
Record journal_key := mk_jk {
  jk_btree_id : Z;
  jk_level : Z;
  jk_overwritten : bool;
  jk_overwritten_range : Z;
  jk_k : list Z
}.

(** [gap] and [size] are kept as the code keeps them; nothing is ever put
    into [pre_sort]. *)
Record journal_keys := mk_keys {
  keys_nr : nat;
  keys_size : nat;
  keys_gap : nat;
  keys_data : list journal_key;
  keys_overwrites : list journal_key_range_overwritten
}.

Definition journal_keys_default : journal_keys := mk_keys 0 0 0 [] [].

Definition jk_pos (x : journal_key) : bpos := unpacked_pos (jk_k x).

Definition set_jk_range (r : Z) (x : journal_key) : journal_key :=
  mk_jk (jk_btree_id x) (jk_level x) (jk_overwritten x) r (jk_k x).

Definition set_jk_overwritten (x : journal_key) : journal_key :=
  mk_jk (jk_btree_id x) (jk_level x) true (jk_overwritten_range x) (jk_k x).

(** ** Sorting *)

(** The comparison given to [sort_by]. *)
Definition journal_key_cmp (l r : journal_key) : comparison :=
  match jk_btree_id l ?= jk_btree_id r with
  | Eq => match jk_level l ?= jk_level r with
          | Eq => bpos_cmp (jk_pos l) (jk_pos r) ?= 0
          | c => c
          end
  | c => c
  end.

(** [sort_by] is stable. *)
Fixpoint insert_jk (x : journal_key) (l : list journal_key) : list journal_key :=
  match l with
  | [] => [x]
  | y :: l' => match journal_key_cmp y x with
               | Gt => x :: l
               | _ => y :: insert_jk x l'
               end
  end.
Definition sort_jk (l : list journal_key) : list journal_key :=
  fold_left (fun acc x => insert_jk x acc) l [].

(** The end of a run of overwritten keys that goes on at [n] with [l]. *)
Fixpoint run_end (btree_id level : Z) (n : nat) (l : list journal_key) : nat :=
  match l with
  | x :: l' =>
      if jk_overwritten x && (jk_btree_id x =? btree_id) && (jk_level x =? level)
      then run_end btree_id level (S n) l' else n
  | [] => n
  end.

(** [for item in s..e { data[item].overwritten_range = r }]; an index out of
    the array panics. *)
Fixpoint set_ranges (r : Z) (s n : nat) (data : list journal_key) : option (list journal_key) :=
  match n with
  | O => Some data
  | S n => x ← data !! s; set_ranges r (S s) n (<[s := set_jk_range r x]> data)
  end.

(** Index 0 of the ranges stands for no range. *)
Definition push_range (s e : nat) (ov : list journal_key_range_overwritten)
    : Z * list journal_key_range_overwritten :=
  let ov := match ov with [] => [mk_range 0 0] | _ => ov end in
  (Z.of_nat (length ov) mod 2 ^ 32, ov ++ [mk_range s e]).

Fixpoint ranges_loop (fuel idx : nat) (data : list journal_key) (ov : list journal_key_range_overwritten)
    : option (list journal_key * list journal_key_range_overwritten) :=
  if (length data <=? idx)%nat then Some (data, ov) else
  match fuel with
  | O => None
  | S fuel =>
      x ← data !! idx;
      let data := <[idx := set_jk_range 0 x]> data in
      if negb (jk_overwritten x) then ranges_loop fuel (S idx) data ov else
      let e := run_end (jk_btree_id x) (jk_level x) (S idx) (drop (S idx) data) in
      let '(range, ov) := push_range idx e ov in
      data ← set_ranges range idx (e - idx) data;
      ranges_loop fuel e data ov
  end.

Definition __journal_keys_sort (ks : journal_keys) : option journal_keys :=
  let data := sort_jk (keys_data ks) in
  '(data, ov) ← ranges_loop (length data) 0 data [];
  Some (mk_keys (keys_nr ks) (keys_size ks) (keys_gap ks) data ov).

(** ** Operations *)

Definition bch2_journal_keys_clear (ks : journal_keys) : journal_keys := journal_keys_default.

Definition keyed (btree_id level : Z) (p : bpos) (x : journal_key) : Prop :=
  jk_btree_id x = btree_id /\ jk_level x = level /\ jk_pos x = p.
#[export] Instance keyed_dec btree_id level p x : Decision (keyed btree_id level p x).
Proof. unfold keyed. apply _. Defined.

(** [key] is the memory behind the argument; its length is what may be read.
    An allocation that fails ([-12]) is left out. *)
Definition bch2_journal_key_insert (ks : journal_keys) (btree_id level : Z) (key : list Z)
    : option (Z * journal_keys) :=
  if kp_u64s key * 8 <? BKEY_U64S * 8 then Some (-22, ks) else
  _ ← assert (Z.to_nat (kp_u64s key) <=? length key)%nat;
  let copied := take (Z.to_nat (kp_u64s key)) key in
  match list_find (keyed btree_id level (unpacked_pos key)) (keys_data ks) with
  | Some (i, existing) =>
      ks ← __journal_keys_sort
             (mk_keys (keys_nr ks) (keys_size ks) (keys_gap ks)
                (<[i := mk_jk (jk_btree_id existing) (jk_level existing) false 0 copied]> (keys_data ks))
                (keys_overwrites ks));
      Some (0, ks)
  | None =>
      let data := keys_data ks ++ [mk_jk btree_id level false 0 copied] in
      ks ← __journal_keys_sort (mk_keys (length data) (length data) (keys_gap ks) data (keys_overwrites ks));
      Some (0, ks)
  end.

(** The range of an overwritten key, if its index is one. *)
Definition range_of (ov : list journal_key_range_overwritten) (x : journal_key)
    : option (nat * journal_key_range_overwritten) :=
  let i := Z.to_nat (jk_overwritten_range x) in
  if negb (i =? 0)%nat && (i <? length ov)%nat then r ← ov !! i; Some (i, r) else None.

Definition in_bounds (btree_id level : Z) (lo hi : bpos) (x : journal_key) : bool :=
  (jk_btree_id x =? btree_id) && (jk_level x =? level)
  && (0 <=? bpos_cmp (jk_pos x) lo) && (bpos_cmp (jk_pos x) hi <=? 0).

Fixpoint peek_max_loop (fuel : nat) (ks : journal_keys) (btree_id level : Z) (pos end_pos : bpos) (idx : nat)
    : option (option (list Z) * nat) :=
  if (length (keys_data ks) <=? idx)%nat then Some (None, idx) else
  match fuel with
  | O => None
  | S fuel =>
      key ← keys_data ks !! idx;
      if in_bounds btree_id level pos end_pos key then
        if jk_overwritten key then
          peek_max_loop fuel ks btree_id level pos end_pos
            (match range_of (keys_overwrites ks) key with Some (_, r) => end_ r | None => S idx end)
        else Some (Some (jk_k key), idx)
      else peek_max_loop fuel ks btree_id level pos end_pos (S idx)
  end.

(** The result, and the new value of [*idx]. *)
Definition bch2_journal_keys_peek_max (ks : journal_keys) (btree_id level : Z) (pos end_pos : bpos) (idx : nat)
    : option (option (list Z) * nat) :=
  _ ← assert (idx <=? length (keys_data ks))%nat;
  peek_max_loop (length (keys_data ks)) ks btree_id level pos end_pos idx.

Definition bch2_journal_keys_peek_slot (ks : journal_keys) (btree_id level : Z) (pos : bpos)
    : option (option (list Z)) :=
  '(key, _) ← bch2_journal_keys_peek_max ks btree_id level pos pos 0;
  Some (match key with
        | Some k => if decide (unpacked_pos k = pos) then Some k else None
        | None => None
        end).

Fixpoint peek_prev_loop (fuel : nat) (ks : journal_keys) (btree_id level : Z) (pos end_pos : bpos) (cursor : nat)
    : option (option (list Z) * nat) :=
  match cursor with
  | O => Some (None, 0%nat)
  | S cursor =>
      match fuel with
      | O => None
      | S fuel =>
          key ← keys_data ks !! cursor;
          if in_bounds btree_id level end_pos pos key then
            if jk_overwritten key then
              let cursor := match range_of (keys_overwrites ks) key with Some (_, r) => start r | None => cursor end in
              peek_prev_loop fuel ks btree_id level pos end_pos cursor
            else Some (Some (jk_k key), cursor)
          else peek_prev_loop fuel ks btree_id level pos end_pos cursor
      end
  end.

Definition bch2_journal_keys_peek_prev_min (ks : journal_keys) (btree_id level : Z) (pos end_pos : bpos) (idx : nat)
    : option (option (list Z) * nat) :=
  let len := length (keys_data ks) in
  _ ← assert (idx <=? len)%nat;
  let cursor := if (idx =? 0)%nat then len else Nat.min (S idx) len in
  peek_prev_loop len ks btree_id level pos end_pos cursor.

Definition KEY_TYPE_deleted : Z := 0.

Definition bch2_key_deleted_in_journal (journal_replay_not_finished : bool) (ks : journal_keys)
    (btree_id level : Z) (pos : bpos) : option bool :=
  if negb journal_replay_not_finished then Some false else
  key ← bch2_journal_keys_peek_slot ks btree_id level pos;
  Some (match key with Some k => kp_type k =? KEY_TYPE_deleted | None => false end).

(** ** Marking a key as overwritten *)

(** The neighbour at [i] if it is in the same btree and level, and
    overwritten. *)
Definition run_neighbour (data : list journal_key) (btree_id level : Z) (i : nat) : option nat :=
  x ← data !! i;
  if (jk_btree_id x =? btree_id) && (jk_level x =? level) && jk_overwritten x then Some i else None.

Definition neighbour_range (data : list journal_key) (ov : list journal_key_range_overwritten) (i : option nat)
    : option (nat * journal_key_range_overwritten) :=
  i ← i; x ← data !! i; range_of ov x.

(** [for item in s..s+n { if item < data.len() { .. } }] *)
Fixpoint set_ranges_in (r : Z) (s n : nat) (data : list journal_key) : list journal_key :=
  match n with
  | O => data
  | S n => set_ranges_in r (S s) n (alter (set_jk_range r) s data)
  end.

Definition __bch2_journal_key_overwritten (ks : journal_keys) (idx : nat) : option journal_keys :=
  x ← keys_data ks !! idx;
  let data := <[idx := set_jk_overwritten x]> (keys_data ks) in
  let ov := keys_overwrites ks in
  let prev_idx := match idx with O => None | S i => run_neighbour data (jk_btree_id x) (jk_level x) i end in
  let next_idx := run_neighbour data (jk_btree_id x) (jk_level x) (S idx) in
  let set_idx r := alter (set_jk_range (Z.of_nat r mod 2 ^ 32)) idx data in
  let '(data, ov) :=
    match neighbour_range data ov prev_idx, neighbour_range data ov next_idx with
    | Some (prev, p), Some (next, n) =>
        (set_ranges_in (Z.of_nat prev mod 2 ^ 32) (start n) (end_ n - start n) (set_idx prev),
         <[prev := mk_range (start p) (end_ n)]> ov)
    | Some (prev, p), None => (set_idx prev, <[prev := mk_range (start p) (Nat.max (end_ p) (S idx))]> ov)
    | None, Some (next, n) => (set_idx next, <[next := mk_range (Nat.min (start n) idx) (end_ n)]> ov)
    | None, None =>
        let '(range, ov) := push_range (default idx prev_idx) (match next_idx with Some i => S i | None => S idx end) ov in
        let mark i data := match i with Some i => alter (set_jk_range range) i data | None => data end in
        (mark next_idx (mark prev_idx (alter (set_jk_range range) idx data)), ov)
    end in
  Some (mk_keys (keys_nr ks) (keys_size ks) (keys_gap ks) data ov).

(** It always returns 0. *)
Definition bch2_journal_key_check_or_overwrite (ks : journal_keys) (btree_id level : Z) (pos : bpos) (check : bool)
    : option journal_keys :=
  match list_find (keyed btree_id level pos) (keys_data ks) with
  | None => Some ks
  | Some (idx, x) =>
      if jk_overwritten x then Some ks
      else if check then Some ks
      else __bch2_journal_key_overwritten ks idx
  end.

(** ** Order of the array *)

Record jk_wf (x : journal_key) : Prop := {
  jw_btree : in_range 8 (jk_btree_id x);
  jw_level : in_range 8 (jk_level x);
  jw_k : words_wf (jk_k x)
}.

Definition group_val (btree_id level : Z) : Z := btree_id * 2 ^ 8 + level.
Definition jk_ord (x : journal_key) : Z := group_val (jk_btree_id x) (jk_level x) * 2 ^ 160 + bpos_val (jk_pos x).

Definition unrange (x : journal_key) : journal_key := set_jk_range 0 x.

Lemma unpacked_pos_ok m : words_wf m -> bpos_wf (unpacked_pos m).
Proof.
  intros H. unfold unpacked_pos, bpos_wf. cbn. split_and!; try by apply word_range.
  pose proof (word_range m 2 H) as Hw. unfold in_range in *. split; [apply Z.div_pos; lia|].
  apply Z.div_lt_upper_bound; [lia|]. change (2 ^ 64) with (2 ^ 32 * 2 ^ 32) in Hw. lia.
Qed.

Lemma jk_pos_ok x : jk_wf x -> in_range 160 (bpos_val (jk_pos x)).
Proof. intros H. by apply bpos_val_range, unpacked_pos_ok, H. Qed.

Lemma jk_cmp_ord x y : jk_wf x -> jk_wf y -> journal_key_cmp x y = (jk_ord x ?= jk_ord y).
Proof.
  intros Hx Hy. unfold journal_key_cmp, jk_ord, group_val.
  pose proof (jk_pos_ok x Hx) as Px. pose proof (jk_pos_ok y Hy) as Py.
  rewrite compare_high_low by (lia || assumption).
  rewrite compare_high_low by (lia || apply Hx || apply Hy).
  destruct (_ ?= _); [|done..]. destruct (jk_level x ?= jk_level y); [|done..].
  rewrite bpos_cmp_val by (apply unpacked_pos_ok; apply Hx || apply Hy). by destruct (bpos_val (jk_pos x) ?= _).
Qed.

Lemma keyed_ord x y : jk_wf x -> jk_wf y ->
  jk_ord x = jk_ord y <-> keyed (jk_btree_id y) (jk_level y) (jk_pos y) x.
Proof.
  intros Hx Hy. split; [|by unfold keyed, jk_ord; intros (-> & -> & ->)].
  intros E. assert (journal_key_cmp x y = Eq) as H by (rewrite jk_cmp_ord, E by done; apply Z.compare_refl).
  unfold journal_key_cmp in H.
  destruct (Z.compare_spec (jk_btree_id x) (jk_btree_id y)) as [Eb|?|?]; [|done..].
  destruct (Z.compare_spec (jk_level x) (jk_level y)) as [El|?|?]; [|done..].
  split_and!; [done..|]. apply bpos_val_inj; [apply unpacked_pos_ok, Hx|apply unpacked_pos_ok, Hy|].
  unfold jk_ord in E. rewrite Eb, El in E. lia.
Qed.

Definition sorted_jk : list journal_key -> Prop := StronglySorted (fun x y => jk_ord x < jk_ord y).

Lemma insert_jk_spec x l : jk_wf x -> Forall jk_wf l -> sorted_jk l -> jk_ord x ∉ (jk_ord <$> l) ->
  sorted_jk (insert_jk x l) /\ insert_jk x l ≡ₚ x :: l.
Proof.
  intros Hx Hl Hs Hn. induction Hs as [|y l Hs IH Hy]; cbn [insert_jk].
  - split; [by repeat constructor|done].
  - apply Forall_cons_1 in Hl as [Hwy Hl]. rewrite fmap_cons, not_elem_of_cons in Hn. destruct Hn as [Hne Hn].
    rewrite jk_cmp_ord by done. destruct (IH Hl Hn) as [IH1 IH2].
    destruct (Z.compare_spec (jk_ord y) (jk_ord x)) as [E|E|E]; [by rewrite E in Hne| |].
    + split; [|by rewrite IH2; constructor]. constructor; [done|]. rewrite IH2. by constructor.
    + split; [|done]. constructor; [by constructor|]. constructor; [done|].
      eapply Forall_impl; [exact Hy|]. cbn. intros; lia.
Qed.

Lemma sort_jk_from l acc : Forall jk_wf l -> Forall jk_wf acc -> sorted_jk acc -> NoDup (jk_ord <$> acc ++ l) ->
  let r := fold_left (fun acc x => insert_jk x acc) l acc in sorted_jk r /\ r ≡ₚ acc ++ l.
Proof.
  revert acc. induction l as [|x l IH]; intros acc Hl Ha Hs Hn; cbn [fold_left].
  - by rewrite app_nil_r.
  - apply Forall_cons_1 in Hl as [Hx Hl].
    assert (acc ++ x :: l ≡ₚ (x :: acc) ++ l) as Hp by (cbn; by rewrite Permutation_middle).
    rewrite Hp in Hn. cbn in Hn. apply NoDup_cons in Hn as Hn'. destruct Hn' as [Hnx _].
    rewrite fmap_app, not_elem_of_app in Hnx.
    destruct (insert_jk_spec x acc) as [H1 H2]; [done..|tauto|].
    destruct (IH (insert_jk x acc)) as [H3 H4]; [done|rewrite H2; by constructor|done|by rewrite H2|].
    split; [done|]. by rewrite H4, H2, Hp.
Qed.

Lemma sort_jk_spec l : Forall jk_wf l -> NoDup (jk_ord <$> l) -> sorted_jk (sort_jk l) /\ sort_jk l ≡ₚ l.
Proof. intros Hl Hn. apply (sort_jk_from l []); [done..|constructor|done]. Qed.

Lemma sorted_lookup l i j x y : sorted_jk l -> l !! i = Some x -> l !! j = Some y -> (i < j)%nat -> jk_ord x < jk_ord y.
Proof.
  intros Hs. revert i j. induction Hs as [|z l Hs IH Hz]; intros i j Hi Hj Hij; [done|].
  destruct j as [|j]; [lia|]. destruct i as [|i]; cbn in *.
  - injection Hi as <-. rewrite Forall_lookup in Hz. by apply (Hz j).
  - apply (IH i j); [done..|lia].
Qed.

Lemma sorted_nodup l : sorted_jk l -> NoDup (jk_ord <$> l).
Proof.
  induction 1 as [|x l Hs IH Hx]; [constructor|]. cbn. constructor; [|done].
  intros (y & E & Hy)%list_elem_of_fmap. rewrite Forall_forall in Hx. specialize (Hx y Hy). lia.
Qed.

(** ** Ranges of overwritten keys *)

Definition is_run (data : list journal_key) (r : Z) (s e : nat) : Prop :=
  forall j, (s <= j < e)%nat -> exists y, data !! j = Some y /\ jk_overwritten y = true /\ jk_overwritten_range y = r.

(** The range of the key at [i] is a run of overwritten keys around it, all
    with this range. *)
Definition marked (data : list journal_key) (ov : list journal_key_range_overwritten) (i : nat) : Prop :=
  forall x, data !! i = Some x -> jk_overwritten x = true ->
  exists r s e, jk_overwritten_range x = Z.of_nat r /\ (0 < r)%nat /\ ov !! r = Some (mk_range s e) /\
    (s <= i < e)%nat /\ is_run data (Z.of_nat r) s e.

Definition ow_count (data : list journal_key) : nat := length (filter (fun x => jk_overwritten x = true) data).

Record keys_ok (ks : journal_keys) : Prop := {
  ko_sorted : sorted_jk (keys_data ks);
  ko_wf : Forall jk_wf (keys_data ks);
  ko_marks : forall i, marked (keys_data ks) (keys_overwrites ks) i;
  ko_ranges : (length (keys_overwrites ks) <= S (ow_count (keys_data ks)))%nat;
  ko_nr : keys_nr ks = length (keys_data ks);
  ko_small : Z.of_nat (length (keys_data ks)) + 2 <= 2 ^ 32
}.

Lemma set_ranges_spec r s n data : (s + n <= length data)%nat ->
  exists data', set_ranges r s n data = Some data' /\ (unrange <$> data') = (unrange <$> data) /\
    forall j, data' !! j = (if decide (s <= j < s + n)%nat then set_jk_range r <$> data !! j else data !! j).
Proof.
  revert s data. induction n as [|n IH]; intros s data Hl; cbn [set_ranges].
  { exists data. split_and!; [done..|]. intros j. by rewrite decide_False by lia. }
  destruct (lookup_lt_is_Some_2 data s) as [x Hx]; [lia|]. rewrite Hx. cbn [mbind option_bind].
  destruct (IH (S s) (<[s:=set_jk_range r x]> data)) as (d & E & Eu & Ed); [rewrite length_insert; lia|].
  exists d. split_and!; [done| |].
  - rewrite Eu, list_fmap_insert. apply list_insert_id. by rewrite list_lookup_fmap, Hx.
  - intros j. rewrite Ed. destruct (decide (j = s)) as [->|Hj].
    + rewrite decide_False, decide_True, list_lookup_insert_eq by lia. by rewrite Hx.
    + rewrite list_lookup_insert_ne by done. repeat case_decide; done || lia.
Qed.

Lemma set_ranges_in_lookup r s n data j :
  set_ranges_in r s n data !! j = (if decide (s <= j < s + n)%nat then set_jk_range r <$> data !! j else data !! j).
Proof.
  revert s data. induction n as [|n IH]; intros s data; cbn [set_ranges_in].
  - by rewrite decide_False by lia.
  - rewrite IH. destruct (decide (j = s)) as [->|Hj].
    + by rewrite decide_False, decide_True, list_lookup_alter_eq by lia.
    + rewrite list_lookup_alter_ne by done. repeat case_decide; done || lia.
Qed.

Lemma set_ranges_in_unrange r s n data : (unrange <$> set_ranges_in r s n data) = (unrange <$> data).
Proof.
  apply list_eq. intros j. rewrite !list_lookup_fmap, set_ranges_in_lookup. case_decide; [|done].
  by destruct (data !! j).
Qed.

Lemma run_end_spec b l n rest : let e := run_end b l n rest in (n <= e <= n + length rest)%nat /\
  forall j x, (n <= j < e)%nat -> rest !! (j - n)%nat = Some x -> jk_overwritten x = true.
Proof.
  revert n. induction rest as [|x rest IH]; intros n; cbn [run_end length]; [split; [lia|intros; lia]|].
  destruct (jk_overwritten x) eqn:Eo; cbn [andb]; [|split; [lia|intros; lia]].
  destruct (jk_btree_id x =? b); cbn [andb]; [|split; [lia|intros; lia]].
  destruct (jk_level x =? l); [|split; [lia|intros; lia]].
  destruct (IH (S n)) as [H1 H2]. split; [lia|]. intros j y Hj Hy.
  destruct (decide (j = n)) as [->|Hne].
  - rewrite Nat.sub_diag in Hy. by injection Hy as <-.
  - apply (H2 j); [lia|]. by replace (j - n)%nat with (S (j - S n)) in Hy by lia.
Qed.

Lemma marked_mono data ov data' ov' i : marked data ov i -> (i < length data)%nat ->
  (forall j, (j < length data)%nat -> data' !! j = data !! j) -> (forall r x, ov !! r = Some x -> ov' !! r = Some x) ->
  marked data' ov' i.
Proof.
  intros Hm Hi Hd Ho x Hx Hox. rewrite Hd in Hx by done. destruct (Hm x Hx Hox) as (r & s & e & ? & ? & Hr & Hi' & Hrun).
  exists r, s, e. split_and!; [done|done|by apply Ho|lia|lia|].
  intros j Hj. destruct (Hrun j Hj) as (y & Hy & ?). exists y.
  rewrite Hd by by eapply lookup_lt_Some. done.
Qed.

Lemma ow_count_app a b : ow_count (a ++ b) = (ow_count a + ow_count b)%nat.
Proof. unfold ow_count. by rewrite filter_app, length_app. Qed.

Lemma ow_count_cons x l : ow_count (x :: l) = ((if jk_overwritten x then 1 else 0) + ow_count l)%nat.
Proof. unfold ow_count. rewrite filter_cons. destruct (jk_overwritten x); by repeat case_decide. Qed.

Lemma ow_count_le data : (ow_count data <= length data)%nat.
Proof. apply length_filter. Qed.

Lemma ow_count_unrange a b : (unrange <$> a) = (unrange <$> b) -> ow_count a = ow_count b.
Proof.
  revert b. induction a as [|x a IH]; intros [|y b] E; [done..|]. cbn in E. injection E as E1 E2 E3 E4 E5.
  rewrite !ow_count_cons, (IH b) by done. by rewrite E3.
Qed.

Lemma push_range_spec s e ov : Z.of_nat (length ov) + 2 <= 2 ^ 32 ->
  exists r ov', push_range s e ov = (Z.of_nat r, ov') /\ (0 < r)%nat /\ ov' !! r = Some (mk_range s e) /\
    (forall i x, ov !! i = Some x -> ov' !! i = Some x) /\ (length ov' <= S (Nat.max 1 (length ov)))%nat /\
    (length ov <= r)%nat.
Proof.
  intros Hl. unfold push_range. set (ov0 := match ov with [] => [mk_range 0 0] | _ => ov end).
  assert ((0 < length ov0)%nat /\ length ov0 = Nat.max 1 (length ov) /\
          forall i x, ov !! i = Some x -> ov0 !! i = Some x) as (H0 & H1 & H2).
  { subst ov0. destruct ov; [split_and!; cbn; [lia..|done]|split_and!; cbn; [lia..|done]]. }
  exists (length ov0), (ov0 ++ [mk_range s e]). rewrite Z.mod_small by lia. split_and!; [done..| | | |].
  - by rewrite lookup_app_r, Nat.sub_diag.
  - intros i x Hx. apply lookup_app_l_Some. by apply H2.
  - rewrite length_app. cbn. lia.
  - lia.
Qed.

Lemma ranges_loop_spec fuel pre rest ov : (length rest <= fuel)%nat ->
  (forall i, (i < length pre)%nat -> marked pre ov i) -> (length ov <= S (ow_count pre))%nat ->
  Z.of_nat (length (pre ++ rest)) + 2 <= 2 ^ 32 ->
  exists data' ov', ranges_loop fuel (length pre) (pre ++ rest) ov = Some (data', ov') /\
    (unrange <$> data') = (unrange <$> pre ++ rest) /\ (forall i, marked data' ov' i) /\
    (length ov' <= S (ow_count data'))%nat.
Proof.
  revert pre rest ov. induction fuel as [|fuel IH]; intros pre rest ov Hf Hm Hc Hs.
  all: unfold ranges_loop; fold ranges_loop; destruct (Nat.leb_spec (length (pre ++ rest)) (length pre)) as [Hle|Hgt].
  1, 3: rewrite length_app in Hle; assert (rest = []) as -> by (destruct rest; cbn in *; [done|lia]);
    rewrite app_nil_r; exists pre, ov; split_and!; [done..| |done]; intros i x Hx; apply Hm; [by eapply lookup_lt_Some|done].
  { rewrite length_app in Hgt. lia. }
  destruct rest as [|x rest]; [rewrite app_nil_r in Hgt; lia|]. cbn [length] in Hf. clear Hgt.
  rewrite lookup_app_r, Nat.sub_diag by lia. cbn [mbind option_bind lookup list_lookup].
  rewrite insert_app_r_alt, Nat.sub_diag by lia. cbn [insert list_insert].
  destruct (jk_overwritten x) eqn:Eo; cbn [negb].
  - rewrite (drop_app_ge _ _ (S (length pre))) by lia. replace (S (length pre) - length pre)%nat with 1%nat by lia. cbn [drop].
    destruct (run_end_spec (jk_btree_id x) (jk_level x) (S (length pre)) rest) as [He Hrun].
    set (e := run_end _ _ _ _) in *. rewrite length_app in Hs. cbn [length] in Hs.
    pose proof (ow_count_le pre) as Hcl.
    destruct (push_range_spec (length pre) e ov) as (r & ov' & -> & Hr0 & Hr & Hext & Hlen & _); [lia|].
    destruct (set_ranges_spec (Z.of_nat r) (length pre) (e - length pre) (pre ++ set_jk_range 0 x :: rest))
      as (d & -> & Hu & Hd); [rewrite length_app; cbn [length]; lia|]. cbn [mbind option_bind].
    assert (length d = length (pre ++ x :: rest)) as Hld.
    { apply (f_equal length) in Hu. rewrite !length_fmap, !length_app in Hu. by rewrite length_app. }
    rewrite length_app in Hld. cbn [length] in Hld.
    assert (Hpre : forall j, (j < length pre)%nat -> take e d !! j = pre !! j).
    { intros j Hj. rewrite lookup_take_lt, Hd, decide_False, lookup_app_l by lia. done. }
    assert (Hin : forall j, (length pre <= j < e)%nat -> exists y, take e d !! j = Some y /\ jk_overwritten y = true /\
                  jk_overwritten_range y = Z.of_nat r).
    { intros j Hj. rewrite lookup_take_lt, Hd, decide_True, lookup_app_r by lia.
      destruct (j - length pre)%nat as [|k] eqn:Ek; [by eexists|].
      change ((set_jk_range 0 x :: rest) !! S k) with (rest !! k).
      destruct (lookup_lt_is_Some_2 rest k) as [y Hy]; [lia|]. rewrite Hy. exists (set_jk_range (Z.of_nat r) y).
      split_and!; [done| |done]. apply (Hrun j y); [lia|]. by replace (j - S (length pre))%nat with k by lia. }
    assert (length (take e d) = e) as Hte by (rewrite length_take; lia).
    destruct (IH (take e d) (drop e d) ov') as (d' & ov'' & E & Hu' & Hm' & Hc').
    + rewrite length_drop. lia.
    + intros i Hi. rewrite Hte in Hi. destruct (decide (i < length pre)%nat) as [Hip|Hip].
      * by apply (marked_mono pre ov); [apply Hm|done..].
      * intros y Hy _. destruct (Hin i) as (y' & Hy' & _ & Hry); [lia|]. rewrite Hy in Hy'. injection Hy' as <-.
        exists r, (length pre), e. split_and!; done || lia || idtac.
    + enough (S (ow_count pre) <= ow_count (take e d))%nat by (destruct ov; cbn [length] in *; lia).
      assert (take (length pre) (take e d) = pre) as Ep.
      { apply list_eq. intros j. destruct (decide (j < length pre)%nat); [by rewrite lookup_take_lt, Hpre by lia|].
        rewrite lookup_take_ge by lia. symmetry. apply lookup_ge_None_2. lia. }
      rewrite <- (take_drop (length pre) (take e d)), Ep, ow_count_app.
      destruct (Hin (length pre)) as (y & Hy & Hoy & _); [lia|]. rewrite (drop_S _ _ _ Hy), ow_count_cons, Hoy. lia.
    + rewrite take_drop. rewrite Hld. lia.
    + rewrite Hte in E. rewrite take_drop in E, Hu'. exists d', ov''. split_and!; [done| |done..].
      rewrite Hu', Hu. by rewrite !fmap_app.
  - replace (pre ++ set_jk_range 0 x :: rest) with ((pre ++ [set_jk_range 0 x]) ++ rest) by by rewrite <- app_assoc.
    replace (S (length pre)) with (length (pre ++ [set_jk_range 0 x])) by (rewrite length_app; cbn; lia).
    destruct (IH (pre ++ [set_jk_range 0 x]) rest ov) as (d' & ov'' & E & Hu' & Hm' & Hc').
    + lia.
    + intros i Hi. rewrite length_app in Hi. cbn [length] in Hi. destruct (decide (i = length pre)) as [->|Hne].
      * intros y Hy Hoy. rewrite lookup_app_r, Nat.sub_diag in Hy by lia. injection Hy as <-. by cbn in Hoy; rewrite Eo in Hoy.
      * apply (marked_mono pre ov); [apply Hm; lia|lia| |done]. intros j Hj. by rewrite lookup_app_l.
    + rewrite ow_count_app. lia.
    + rewrite !length_app in *. cbn [length] in *. lia.
    + exists d', ov''. split_and!; [done| |done..]. rewrite Hu'. by rewrite !fmap_app, <- app_assoc.
Qed.

Lemma journal_keys_sort_spec ks : Forall jk_wf (keys_data ks) -> NoDup (jk_ord <$> keys_data ks) ->
  Z.of_nat (length (keys_data ks)) + 2 <= 2 ^ 32 -> keys_nr ks = length (keys_data ks) ->
  exists ks', __journal_keys_sort ks = Some ks' /\ keys_ok ks' /\
    (unrange <$> keys_data ks') ≡ₚ (unrange <$> keys_data ks).
Proof.
  intros Hw Hn Hs Hnr. unfold __journal_keys_sort. destruct (sort_jk_spec _ Hw Hn) as [Hsort Hperm].
  destruct (ranges_loop_spec (length (sort_jk (keys_data ks))) [] (sort_jk (keys_data ks)) [])
    as (d & ov & E & Hu & Hm & Hc); [done|cbn; lia|cbn; lia|cbn [app]; by rewrite Hperm|].
  cbn [length app] in E. rewrite E. cbn [mbind option_bind]. eexists. split; [done|]. cbn [app] in Hu.
  assert (length d = length (keys_data ks)) as Hl by (apply (f_equal length) in Hu; by rewrite !length_fmap, Hperm in Hu).
  assert (Hlook : forall i y, d !! i = Some y -> exists x, sort_jk (keys_data ks) !! i = Some x /\ unrange y = unrange x).
  { intros i y Hy. apply (f_equal (.!! i)) in Hu. rewrite !list_lookup_fmap, Hy in Hu.
    destruct (sort_jk (keys_data ks) !! i) as [x|]; [|done]. injection Hu. intros. eexists. split; [done|]. unfold unrange, set_jk_range. congruence. }
  split; [split; cbn [keys_data keys_overwrites keys_nr]|]; [| |done|done|congruence|by rewrite Hl|].
  - assert (jk_ord <$> d = jk_ord <$> sort_jk (keys_data ks)) as Ho.
    { assert (forall l, jk_ord <$> (unrange <$> l) = jk_ord <$> l) as Hou by (intros l; rewrite <- list_fmap_compose; by apply list_fmap_ext).
      by rewrite <- (Hou d), Hu, Hou. }
    unfold sorted_jk in *. clear -Ho Hsort. revert d Ho.
    induction Hsort as [|x l Hs IH Hx]; intros [|y d] Ho; try done; [constructor|].
    cbn in Ho. injection Ho as E1 E2. constructor; [by apply IH|]. rewrite Forall_forall in *. intros z Hz.
    assert (jk_ord z ∈ (jk_ord <$> d)) as Hz' by (by apply list_elem_of_fmap_2). rewrite E2 in Hz'.
    apply list_elem_of_fmap in Hz' as (z' & -> & Hz'). rewrite E1. by apply Hx.
  - rewrite Forall_lookup. intros i y Hy. destruct (Hlook i y Hy) as (x & Hx & E1). rewrite <- Hperm in Hw.
    rewrite Forall_lookup in Hw. specialize (Hw i x Hx). destruct Hw as [H1 H2 H3].
    unfold unrange, set_jk_range in E1. injection E1 as F1 F2 F3 F4. split; congruence.
  - cbn [keys_data]. by rewrite Hu, Hperm.
Qed.

(** ** The map that the array stands for *)

(** The key of a btree, level and position, and whether it is overwritten. *)
Definition overlay (ks : journal_keys) (btree_id level : Z) (p : bpos) : option (list Z * bool) :=
  match list_find (keyed btree_id level p) (keys_data ks) with
  | Some (_, x) => Some (jk_k x, jk_overwritten x)
  | None => None
  end.

Lemma elem_unrange y (data : list journal_key) : y ∈ (unrange <$> data) -> exists i x, data !! i = Some x /\ y = unrange x.
Proof. intros (x & -> & (i & Hx)%list_elem_of_lookup)%list_elem_of_fmap. eauto. Qed.

Lemma elem_unrange_2 i x (data : list journal_key) : data !! i = Some x -> unrange x ∈ (unrange <$> data).
Proof. intros H. apply list_elem_of_fmap_2, list_elem_of_lookup. eauto. Qed.

Lemma keys_unique ks i j x y : keys_ok ks -> keys_data ks !! i = Some x -> keys_data ks !! j = Some y ->
  keyed (jk_btree_id y) (jk_level y) (jk_pos y) x -> i = j.
Proof.
  intros Hok Hx Hy Hk. pose proof (ko_wf _ Hok) as Hw. rewrite Forall_lookup in Hw.
  apply keyed_ord in Hk; [|by eapply Hw..]. pose proof (ko_sorted _ Hok) as Hs.
  destruct (lt_eq_lt_dec i j) as [[H|H]|H]; [|done|].
  - pose proof (sorted_lookup _ _ _ _ _ Hs Hx Hy H). lia.
  - pose proof (sorted_lookup _ _ _ _ _ Hs Hy Hx H). lia.
Qed.

Lemma overlay_elem ks b l p y : keys_ok ks -> y ∈ (unrange <$> keys_data ks) -> keyed b l p y ->
  overlay ks b l p = Some (jk_k y, jk_overwritten y).
Proof.
  intros Hok Hy Hk. apply elem_unrange in Hy as (i & x & Hx & ->). unfold overlay.
  destruct (list_find _ _) as [[j z]|] eqn:E.
  - apply list_find_Some in E as (Hz & (<- & <- & <-) & _). by rewrite (keys_unique ks i j x z Hok Hx Hz Hk), Hz in Hx; injection Hx as ->.
  - exfalso. apply list_find_None in E. rewrite Forall_lookup in E. by apply (E i x).
Qed.

Lemma overlay_none ks b l p : (forall y, y ∈ (unrange <$> keys_data ks) -> ~ keyed b l p y) -> overlay ks b l p = None.
Proof.
  intros H. unfold overlay. destruct (list_find _ _) as [[j z]|] eqn:E; [|done].
  apply list_find_Some in E as (Hz & Hk & _). by destruct (H (unrange z) (elem_unrange_2 _ _ _ Hz)).
Qed.

(** The map is the same where the keys are. *)
Lemma overlay_ext ks ks' b l p : keys_ok ks -> keys_ok ks' ->
  (forall y, keyed b l p y -> y ∈ (unrange <$> keys_data ks') <-> y ∈ (unrange <$> keys_data ks)) ->
  overlay ks' b l p = overlay ks b l p.
Proof.
  intros Hok Hok' H. destruct (overlay ks' b l p) as [[k o]|] eqn:E.
  - unfold overlay in E. destruct (list_find _ _) as [[j z]|] eqn:Ez; [|done]. injection E as <- <-.
    apply list_find_Some in Ez as (Hz & Hk & _). symmetry. apply (overlay_elem ks b l p (unrange z)); [done| |done].
    apply H; [done|]. by eapply elem_unrange_2.
  - symmetry. apply overlay_none. intros y Hy Hk. apply H in Hy; [|done].
    by rewrite (overlay_elem ks' b l p y Hok' Hy Hk) in E.
Qed.

Lemma overlay_lookup ks b l p k o : overlay ks b l p = Some (k, o) ->
  exists i x, keys_data ks !! i = Some x /\ keyed b l p x /\ jk_k x = k /\ jk_overwritten x = o.
Proof.
  unfold overlay. destruct (list_find _ _) as [[j z]|] eqn:E; [|done]. intros [= <- <-].
  apply list_find_Some in E as (Hz & Hk & _). eauto 10.
Qed.

(** ** Insertion *)

Definition insertable_key (key : list Z) : Prop :=
  words_wf key /\ BKEY_U64S <= kp_u64s key <= Z.of_nat (length key).

Definition key_copy (key : list Z) : list Z := take (Z.to_nat (kp_u64s key)) key.

Lemma key_copy_pos key : insertable_key key -> unpacked_pos (key_copy key) = unpacked_pos key.
Proof.
  intros [_ [H _]]. unfold key_copy, unpacked_pos, word. unfold BKEY_U64S in H.
  f_equal; [| |f_equal]; rewrite !nth_lookup, lookup_take_lt by lia; done.
Qed.

Lemma journal_key_insert_spec ks b l key : keys_ok ks -> in_range 8 b -> in_range 8 l -> insertable_key key ->
  Z.of_nat (length (keys_data ks)) + 3 <= 2 ^ 32 ->
  exists ks', bch2_journal_key_insert ks b l key = Some (0, ks') /\ keys_ok ks' /\
    (length (keys_data ks') <= S (length (keys_data ks)))%nat /\
    forall b' l' p, overlay ks' b' l' p =
      if decide (b' = b /\ l' = l /\ p = unpacked_pos key) then Some (key_copy key, false) else overlay ks b' l' p.
Proof.
  intros Hok Hb Hl Hkey Hs. pose proof Hkey as [Hw Hu]. unfold bch2_journal_key_insert.
  destruct (Z.ltb_spec (kp_u64s key * 8) (BKEY_U64S * 8)) as [?|_]; [lia|].
  rewrite (proj2 (Nat.leb_le (Z.to_nat (kp_u64s key)) (length key))) by lia. cbn [assert mbind option_bind]. fold (key_copy key).
  set (new := mk_jk b l false 0 (key_copy key)).
  assert (Hnew : jk_wf new) by (split; [done..|by apply Forall_take]).
  assert (Hkn : keyed b l (unpacked_pos key) new) by (split_and!; [done..|by apply key_copy_pos]).
  (* the array before it is sorted has the new key, and the old ones at other places *)
  assert (forall data, Forall jk_wf data -> NoDup (jk_ord <$> data) -> (length data <= S (length (keys_data ks)))%nat ->
    (forall y, y ∈ (unrange <$> data) <-> y = new \/ (y ∈ (unrange <$> keys_data ks) /\ ~ keyed b l (unpacked_pos key) y)) ->
    forall nr size gap ov, nr = length data ->
    exists ks', __journal_keys_sort (mk_keys nr size gap data ov) = Some ks' /\ keys_ok ks' /\
    (length (keys_data ks') <= S (length (keys_data ks)))%nat /\
    forall b' l' p, overlay ks' b' l' p =
      if decide (b' = b /\ l' = l /\ p = unpacked_pos key) then Some (key_copy key, false) else overlay ks b' l' p) as Hfin.
  { intros data Hdw Hnd Hlen He nr size gap ov Hnr.
    destruct (journal_keys_sort_spec (mk_keys nr size gap data ov)) as (ks' & E & Hok' & Hp); [cbn; lia || done..|].
    cbn [keys_data] in Hp. exists ks'. split_and!; [done..| |].
    - apply Permutation_length in Hp. rewrite !length_fmap in Hp. lia.
    - intros b' l' p. case_decide as Hd.
      + destruct Hd as (-> & -> & ->). apply (overlay_elem ks' b l _ new); [done| |done]. rewrite Hp. apply He. by left.
      + apply overlay_ext; [done..|]. intros y Hy. rewrite Hp, He. split; [|intros; right; split; [done|]].
        * intros [->|[? _]]; [|done]. destruct Hd. destruct Hy as (<- & <- & <-). by destruct Hkn as (-> & -> & ->).
        * intros Hk. destruct Hd. by destruct Hy as (<- & <- & <-), Hk as (-> & -> & ->). }
  pose proof (ko_wf _ Hok) as Hwf. pose proof (sorted_nodup _ (ko_sorted _ Hok)) as Hnd.
  destruct (list_find _ _) as [[i x]|] eqn:Ef.
  - apply list_find_Some in Ef as (Hx & Hk & _). destruct Hk as (E1 & E2 & E3). rewrite E1, E2. fold new.
    pose proof (lookup_lt_Some _ _ _ Hx) as Hi.
    assert (keyed (jk_btree_id x) (jk_level x) (jk_pos x) new) as Hkx by (by rewrite E1, E2, E3).
    destruct (Hfin (<[i:=new]> (keys_data ks))) with (nr := keys_nr ks) (size := keys_size ks) (gap := keys_gap ks) (ov := keys_overwrites ks)
      as (ks' & -> & ?).
    + by apply Forall_insert.
    + rewrite list_fmap_insert, list_insert_id; [done|]. rewrite list_lookup_fmap, Hx. cbn. f_equal. symmetry.
      apply keyed_ord; [done| |done]. rewrite Forall_lookup in Hwf. by eapply Hwf.
    + rewrite length_insert. lia.
    + intros y. split.
      * intros (j & z & Hz & ->)%elem_unrange. apply list_lookup_insert_Some in Hz as [(<- & <- & _)|[Hne Hz]]; [by left|].
        right. split; [by eapply elem_unrange_2|]. intros Hkz. destruct Hne.
        symmetry. apply (keys_unique ks j i z x Hok Hz Hx). by rewrite E1, E2, E3.
      * intros [->|[Hy Hny]].
        -- change new with (unrange new). apply (elem_unrange_2 i). by rewrite list_lookup_insert_eq.
        -- apply elem_unrange in Hy as (j & z & Hz & ->). apply (elem_unrange_2 j). rewrite list_lookup_insert_ne; [done|].
           intros <-. rewrite Hx in Hz. injection Hz as <-. by destruct Hny.
    + rewrite length_insert. apply Hok.
    + cbn [mbind option_bind]. eauto.
  - apply list_find_None in Ef. rewrite Forall_lookup in Ef.
    destruct (Hfin (keys_data ks ++ [new])) with (nr := length (keys_data ks ++ [new])) (size := length (keys_data ks ++ [new])) (gap := keys_gap ks) (ov := keys_overwrites ks)
      as (ks' & -> & ?).
    + apply Forall_app_2; [done|]. by constructor.
    + rewrite fmap_app. apply NoDup_app. split_and!; [done| |apply NoDup_singleton].
      intros o (z & -> & (j & Hz)%list_elem_of_lookup)%list_elem_of_fmap Ho%list_elem_of_singleton.
      apply (Ef j z Hz). rewrite Forall_lookup in Hwf. apply (keyed_ord z new) in Ho; [|by eapply Hwf|done].
      destruct Ho as (H1 & H2 & H3), Hkn as (K1 & K2 & K3). split_and!; congruence.
    + rewrite length_app. cbn. lia.
    + intros y. rewrite fmap_app, elem_of_app. change (unrange <$> [new]) with [new]. rewrite list_elem_of_singleton. split; [|tauto].
      intros [Hy|Hy]; [|by left]. right. split; [done|]. apply elem_unrange in Hy as (j & z & Hz & ->).
      by apply (Ef j z).
    + done.
    + cbn [mbind option_bind]. eauto.
Qed.

(** ** Marking as overwritten *)

Lemma range_of_marked data ov i x : marked data ov i -> data !! i = Some x -> jk_overwritten x = true ->
  exists r s e, range_of ov x = Some (r, mk_range s e) /\ ov !! r = Some (mk_range s e) /\ (0 < r)%nat /\ (s <= i < e)%nat /\
    jk_overwritten_range x = Z.of_nat r /\ is_run data (Z.of_nat r) s e.
Proof.
  intros Hm Hx Ho. destruct (Hm x Hx Ho) as (r & s & e & Er & Hr0 & Hr & Hi & Hrun).
  exists r, s, e. split_and!; try done || lia. unfold range_of. rewrite Er, Nat2Z.id.
  pose proof (lookup_lt_Some _ _ _ Hr). rewrite (proj2 (Nat.eqb_neq r 0)), (proj2 (Nat.ltb_lt _ _)) by lia. by rewrite Hr.
Qed.

(** The keys [S..E) become one run with the range [R]. *)
Lemma marked_merge data ov data' ov' idx R S E :
  (forall i, marked data ov i) -> (forall x, data !! idx = Some x -> jk_overwritten x = false) -> (0 < R)%nat ->
  (S <= idx < E)%nat -> is_run data' (Z.of_nat R) S E ->
  (forall j, ~ (S <= j < E)%nat -> data' !! j = data !! j) ->
  ov' !! R = Some (mk_range S E) -> (forall r x, r <> R -> ov !! r = Some x -> ov' !! r = Some x) ->
  (forall s e, ov !! R = Some (mk_range s e) -> (S <= s)%nat /\ (e <= E)%nat) ->
  (forall j x r s e, (S <= j < E)%nat -> j <> idx -> data !! j = Some x -> jk_overwritten_range x = Z.of_nat r ->
    ov !! r = Some (mk_range s e) -> (S <= s)%nat /\ (e <= E)%nat) ->
  forall i, marked data' ov' i.
Proof.
  intros Hm Hidx HR HS Hrun Hout HO Hoth Hold Hins i x Hx Ho.
  destruct (decide (S <= i < E)%nat) as [Hi|Hi].
  { destruct (Hrun i Hi) as (y & Hy & _ & Hry). rewrite Hx in Hy. injection Hy as <-. by exists R, S, E. }
  rewrite Hout in Hx by done. destruct (Hm i x Hx Ho) as (r & s & e & Er & Hr0 & Hr & Hi' & Hrun').
  assert (r <> R) as Hne by (intros ->; destruct (Hold s e Hr); lia).
  exists r, s, e. split_and!; [done..|by apply Hoth|lia|lia|]. intros j Hj. destruct (Hrun' j Hj) as (y & Hy & Hoy & Hry).
  exists y. rewrite Hout; [done|]. intros Hin. destruct (decide (j = idx)) as [->|Hji].
  - by rewrite (Hidx y Hy) in Hoy.
  - destruct (Hins j y r s e Hin Hji Hy Hry Hr). lia.
Qed.

Lemma run_neighbour_Some data b l i j : run_neighbour data b l i = Some j ->
  j = i /\ exists x, data !! i = Some x /\ jk_overwritten x = true.
Proof.
  unfold run_neighbour. destruct (data !! i) as [x|]; cbn [mbind option_bind]; [|done].
  destruct (_ && jk_overwritten x) eqn:E; [|done]. intros [= <-]. apply andb_true_iff in E as [_ E]. eauto.
Qed.

Lemma ow_count_mark data idx x : data !! idx = Some x -> jk_overwritten x = false ->
  ow_count (<[idx := set_jk_overwritten x]> data) = S (ow_count data).
Proof.
  intros Hx Ho. pose proof (lookup_lt_Some _ _ _ Hx). rewrite insert_take_drop by done.
  rewrite <- (take_drop_middle _ _ _ Hx) at 3. rewrite !ow_count_app, !ow_count_cons, Ho. cbn. lia.
Qed.

Lemma mark_lookup R idx x (data : list journal_key) j : data !! idx = Some x ->
  alter (set_jk_range R) idx (<[idx := set_jk_overwritten x]> data) !! j =
  if decide (j = idx) then Some (set_jk_range R (set_jk_overwritten x)) else data !! j.
Proof.
  intros Hx. case_decide as Hj.
  - subst j. rewrite list_lookup_alter_eq, list_lookup_insert_eq by by eapply lookup_lt_Some. done.
  - by rewrite list_lookup_alter_ne, list_lookup_insert_ne.
Qed.

Lemma mark_unrange R idx (data : list journal_key) : (unrange <$> alter (set_jk_range R) idx data) = (unrange <$> data).
Proof. apply list_eq. intros j. rewrite !list_lookup_fmap, list_lookup_alter. case_decide; [|done]. subst. by destruct (data !! j). Qed.

(** What the code reads about an overwritten neighbour. *)
Lemma neighbour_spec ks idx x data j y : keys_ok ks -> keys_data ks !! idx = Some x -> jk_overwritten x = false ->
  data !! j = Some y -> keys_data ks !! j = Some y -> jk_overwritten y = true ->
  exists r s e, neighbour_range data (keys_overwrites ks) (Some j) = Some (r, mk_range s e) /\
    keys_overwrites ks !! r = Some (mk_range s e) /\ (0 < r)%nat /\ (s <= j < e)%nat /\
    is_run (keys_data ks) (Z.of_nat r) s e /\ Z.of_nat r mod 2 ^ 32 = Z.of_nat r /\ (e <= idx \/ idx < s)%nat.
Proof.
  intros Hok Hx Hox Hy' Hy Hoy. destruct (range_of_marked _ _ _ _ (ko_marks _ Hok j) Hy Hoy) as (r & s & e & Er & Hr & H0 & Hj & _ & Hrun).
  exists r, s, e. split_and!; try done || lia.
  - unfold neighbour_range. cbn [mbind option_bind]. by rewrite Hy'.
  - pose proof (lookup_lt_Some _ _ _ Hr). pose proof (ko_ranges _ Hok). pose proof (ko_small _ Hok).
    pose proof (ow_count_le (keys_data ks)). apply Z.mod_small. lia.
  - destruct (decide (idx < s)%nat); [by right|left]. destruct (decide (e <= idx)%nat); [done|exfalso].
    destruct (Hrun idx) as (z & Hz & Hoz & _); [lia|]. rewrite Hx in Hz. injection Hz as <-. congruence.
Qed.

Lemma keys_ok_marked ks idx x data ov : keys_ok ks -> keys_data ks !! idx = Some x -> jk_overwritten x = false ->
  (unrange <$> data) = (unrange <$> <[idx := set_jk_overwritten x]> (keys_data ks)) -> (forall i, marked data ov i) ->
  (length ov <= S (length (keys_overwrites ks)) \/ length ov <= 2)%nat ->
  keys_ok (mk_keys (keys_nr ks) (keys_size ks) (keys_gap ks) data ov).
Proof.
  intros Hok Hx Hox Hu Hm Hl. pose proof (lookup_lt_Some _ _ _ Hx) as Hi.
  assert (length data = length (keys_data ks)) as Hld by (apply (f_equal length) in Hu; by rewrite !length_fmap, length_insert in Hu).
  assert (jk_ord <$> data = jk_ord <$> keys_data ks) as Ho.
  { assert (forall l, jk_ord <$> (unrange <$> l) = jk_ord <$> l) as Hou by (intros l; rewrite <- list_fmap_compose; by apply list_fmap_ext).
    rewrite <- (Hou data), Hu, Hou, list_fmap_insert. apply list_insert_id. by rewrite list_lookup_fmap, Hx. }
  split; cbn [keys_data keys_overwrites keys_nr]; [| |done| |rewrite Hld; apply Hok|rewrite Hld; apply Hok].
  - pose proof (ko_sorted _ Hok) as Hs. clear -Ho Hs. unfold sorted_jk in *. revert data Ho.
    induction Hs as [|y l Hs IH Hy]; intros [|z d] Ho; try done; [constructor|].
    cbn in Ho. injection Ho as E1 E2. constructor; [by apply IH|]. rewrite Forall_forall in *. intros v Hv.
    assert (jk_ord v ∈ (jk_ord <$> d)) as Hv' by (by apply list_elem_of_fmap_2). rewrite E2 in Hv'.
    apply list_elem_of_fmap in Hv' as (v' & -> & Hv'). rewrite E1. by apply Hy.
  - pose proof (ko_wf _ Hok) as Hw. rewrite Forall_lookup in Hw |- *. intros i y Hy.
    apply (f_equal (.!! i)) in Hu. rewrite !list_lookup_fmap, Hy in Hu.
    destruct (decide (i = idx)) as [->|Hne].
    + rewrite list_lookup_insert_eq in Hu by done. injection Hu as F1 F2 F3 F4. destruct (Hw _ _ Hx). split; congruence.
    + rewrite list_lookup_insert_ne in Hu by done. destruct (keys_data ks !! i) as [z|] eqn:Ez; [|done].
      injection Hu as F1 F2 F3 F4. destruct (Hw _ _ Ez). split; congruence.
  - rewrite (ow_count_unrange _ _ Hu), (ow_count_mark _ _ _ Hx Hox). pose proof (ko_ranges _ Hok). lia.
Qed.

Lemma journal_key_overwritten_spec ks idx x : keys_ok ks -> keys_data ks !! idx = Some x -> jk_overwritten x = false ->
  exists ks', __bch2_journal_key_overwritten ks idx = Some ks' /\ keys_ok ks' /\
    (unrange <$> keys_data ks') = (unrange <$> <[idx := set_jk_overwritten x]> (keys_data ks)).
Proof.
  intros Hok Hx Hox. unfold __bch2_journal_key_overwritten. rewrite Hx. cbn [mbind option_bind].
  set (D1 := <[idx := set_jk_overwritten x]> (keys_data ks)). set (ov := keys_overwrites ks).
  assert (HD1 : forall j, j <> idx -> D1 !! j = keys_data ks !! j) by (intros; by apply list_lookup_insert_ne).
  assert (Hmx : forall z, keys_data ks !! idx = Some z -> jk_overwritten z = false) by (intros z Hz; rewrite Hx in Hz; by injection Hz as <-).
  assert (Hns : forall j y, j <> idx -> D1 !! j = Some y -> jk_overwritten y = true -> _) by
    (intros j y Hj Hy Hoy; exact (neighbour_spec ks idx x D1 j y Hok Hx Hox Hy (eq_trans (eq_sym (HD1 j Hj)) Hy) Hoy)).
  set (prev := match idx with O => None | S i => _ end). set (next := run_neighbour D1 _ _ (S idx)).
  assert (Hprev : prev = None \/ exists r s, neighbour_range D1 ov prev = Some (r, mk_range s idx) /\ ov !! r = Some (mk_range s idx) /\
            (0 < r)%nat /\ (s < idx)%nat /\ is_run (keys_data ks) (Z.of_nat r) s idx /\ Z.of_nat r mod 2 ^ 32 = Z.of_nat r).
  { subst prev. destruct idx as [|i]; [by left|]. destruct (run_neighbour _ _ _ i) as [j|] eqn:E; [|by left]. right.
    apply run_neighbour_Some in E as (-> & y & Hy & Hoy). destruct (Hns i y) as (r & s & e & ? & ? & ? & ? & ? & ? & ?); [lia|done..|].
    assert (e = S i) as -> by lia. exists r, s. split_and!; done || lia. }
  assert (Hnext : next = None \/ exists r e, neighbour_range D1 ov next = Some (r, mk_range (S idx) e) /\ ov !! r = Some (mk_range (S idx) e) /\
            (0 < r)%nat /\ (S idx < e)%nat /\ is_run (keys_data ks) (Z.of_nat r) (S idx) e /\ Z.of_nat r mod 2 ^ 32 = Z.of_nat r).
  { subst next. destruct (run_neighbour _ _ _ (S idx)) as [j|] eqn:E; [|by left]. right.
    apply run_neighbour_Some in E as (-> & y & Hy & Hoy). destruct (Hns (S idx) y) as (r & s & e & ? & ? & ? & ? & ? & ? & ?); [lia|done..|].
    assert (s = S idx) as -> by lia. exists r, e. split_and!; done || lia. }
  clear Hns. clearbody prev next.
  assert (Hmark : forall R j, alter (set_jk_range R) idx D1 !! j =
            if decide (j = idx) then Some (set_jk_range R (set_jk_overwritten x)) else keys_data ks !! j) by (intros; by apply mark_lookup).
  assert (Hout : forall R, (unrange <$> alter (set_jk_range R) idx D1) = (unrange <$> D1)) by (intros; apply mark_unrange).
  assert (Hrange : forall j y r s e (R S E : nat), is_run (keys_data ks) (Z.of_nat R) S E -> (S <= j < E)%nat -> keys_data ks !! j = Some y ->
            jk_overwritten_range y = Z.of_nat r -> ov !! R = Some (mk_range S E) -> ov !! r = Some (mk_range s e) -> s = S /\ e = E).
  { intros j y r s e R S E Hrun Hj Hy Hry HR Hr. destruct (Hrun j Hj) as (y' & Hy' & _ & Hry'). rewrite Hy in Hy'. injection Hy' as <-.
    rewrite Hry in Hry'. apply Nat2Z.inj in Hry' as ->. rewrite Hr in HR. by injection HR. }
  destruct Hprev as [->|(p & s1 & Np & Hp & Hp0 & Hs1 & Hrp & Mp)], Hnext as [->|(n & e2 & Nn & Hn & Hn0 & He2 & Hrn & Mn)].
  - cbn [neighbour_range mbind option_bind default]. cbn [from_option].
    pose proof (ko_ranges _ Hok). pose proof (ko_small _ Hok). pose proof (ow_count_le (<[idx := set_jk_overwritten x]> (keys_data ks))) as Hc.
    rewrite (ow_count_mark _ _ _ Hx Hox), length_insert in Hc.
    destruct (push_range_spec idx (S idx) ov) as (r & ov' & -> & Hr0 & Hr & Hext & Hlen & Hfr); [unfold ov; lia|].
    eexists. split; [done|]. split; [|by cbn [keys_data]].
    eapply keys_ok_marked; [done..| |fold ov; lia].
    eapply (marked_merge (keys_data ks) ov _ ov' idx r idx (S idx)); [apply Hok|done|done|lia| | |done| | |].
    + intros j Hj. assert (j = idx) as -> by lia. rewrite Hmark. rewrite decide_True by done. by eexists.
    + intros j Hj. rewrite Hmark. rewrite decide_False by lia. done.
    + intros r' v _ Hv. by apply Hext.
    + intros s e He. apply lookup_lt_Some in He. lia.
    + lia.
  - rewrite Nn. cbn [neighbour_range mbind option_bind]. eexists. split; [done|]. split; [|by cbn [keys_data]].
    cbn [start end_]. rewrite Nat.min_r, Mn by lia.
    eapply keys_ok_marked; [done..| |rewrite length_insert; fold ov; lia].
    eapply (marked_merge (keys_data ks) ov _ _ idx n idx e2); [apply Hok|done|done|lia| | | | | |].
    + intros j Hj. rewrite Hmark. case_decide; [by eexists|]. apply Hrn. lia.
    + intros j Hj. rewrite Hmark. rewrite decide_False by lia. done.
    + apply list_lookup_insert_eq. by eapply lookup_lt_Some.
    + intros r v Hne Hv. by rewrite list_lookup_insert_ne.
    + intros s e He. rewrite Hn in He. injection He. lia.
    + intros j y r s e Hj Hji Hy Hry Hr. destruct (Hrange j y r s e n (S idx) e2) as [-> ->]; [done|lia|done..|]. lia.
  - rewrite Np. cbn [neighbour_range mbind option_bind]. eexists. split; [done|]. split; [|by cbn [keys_data]].
    cbn [start end_]. rewrite Nat.max_r, Mp by lia.
    eapply keys_ok_marked; [done..| |rewrite length_insert; fold ov; lia].
    eapply (marked_merge (keys_data ks) ov _ _ idx p s1 (S idx)); [apply Hok|done|done|lia| | | | | |].
    + intros j Hj. rewrite Hmark. case_decide; [by eexists|]. apply Hrp. lia.
    + intros j Hj. rewrite Hmark. rewrite decide_False by lia. done.
    + apply list_lookup_insert_eq. by eapply lookup_lt_Some.
    + intros r v Hne Hv. by rewrite list_lookup_insert_ne.
    + intros s e He. rewrite Hp in He. injection He. lia.
    + intros j y r s e Hj Hji Hy Hry Hr. destruct (Hrange j y r s e p s1 idx) as [-> ->]; [done|lia|done..|]. lia.
  - rewrite Np, Nn. eexists. split; [done|]. split; [|cbn [keys_data]; by rewrite set_ranges_in_unrange].
    cbn [start end_]. rewrite Mp. replace (S idx + (e2 - S idx))%nat with e2 by lia.
    eapply keys_ok_marked; [done..|by rewrite set_ranges_in_unrange| |rewrite length_insert; fold ov; lia].
    eapply (marked_merge (keys_data ks) ov _ _ idx p s1 e2); [apply Hok|done|done|lia| | | | | |].
    + intros j Hj. rewrite set_ranges_in_lookup, Hmark. case_decide as Hin.
      * rewrite decide_False by lia. destruct (Hrn j) as (y & Hy & Hoy & _); [lia|]. rewrite Hy. by eexists.
      * case_decide; [by eexists|]. apply Hrp. lia.
    + intros j Hj. rewrite set_ranges_in_lookup, Hmark. rewrite !decide_False by lia. done.
    + apply list_lookup_insert_eq. by eapply lookup_lt_Some.
    + intros r v Hne Hv. by rewrite list_lookup_insert_ne.
    + intros s e He. rewrite Hp in He. injection He. lia.
    + intros j y r s e Hj Hji Hy Hry Hr. destruct (decide (j < idx)%nat).
      * destruct (Hrange j y r s e p s1 idx) as [-> ->]; [done|lia|done..|]. lia.
      * destruct (Hrange j y r s e n (S idx) e2) as [-> ->]; [done|lia|done..|]. lia.
Qed.

(** ** Lookups *)

Definition live_at (ks : journal_keys) (b l : Z) (lo hi : bpos) (j : nat) (x : journal_key) : Prop :=
  keys_data ks !! j = Some x /\ in_bounds b l lo hi x = true /\ jk_overwritten x = false.

Lemma skip_run ks j x : keys_ok ks -> keys_data ks !! j = Some x -> jk_overwritten x = true ->
  exists r s e, range_of (keys_overwrites ks) x = Some (r, mk_range s e) /\ (s <= j < e)%nat /\ (e <= length (keys_data ks))%nat /\
    forall i y, (s <= i < e)%nat -> keys_data ks !! i = Some y -> jk_overwritten y = true.
Proof.
  intros Hok Hx Ho. destruct (range_of_marked _ _ _ _ (ko_marks _ Hok j) Hx Ho) as (r & s & e & Er & _ & _ & Hj & _ & Hrun).
  exists r, s, e. split_and!; try done || lia.
  - destruct (Hrun (e - 1)%nat) as (y & Hy & _); [lia|]. apply lookup_lt_Some in Hy. lia.
  - intros i y Hi Hy. destruct (Hrun i Hi) as (y' & Hy' & Hoy & _). rewrite Hy in Hy'. by injection Hy' as <-.
Qed.

Lemma peek_max_loop_spec ks b l lo hi fuel idx : keys_ok ks -> (length (keys_data ks) <= idx + fuel)%nat ->
  exists r i, peek_max_loop fuel ks b l lo hi idx = Some (r, i) /\
    match r with
    | Some k => exists x, live_at ks b l lo hi i x /\ jk_k x = k /\ (idx <= i)%nat /\
                          forall j y, (idx <= j < i)%nat -> ~ live_at ks b l lo hi j y
    | None => forall j y, (idx <= j)%nat -> ~ live_at ks b l lo hi j y
    end.
Proof.
  intros Hok. revert idx. induction fuel as [|fuel IH]; intros idx Hf.
  all: unfold peek_max_loop; fold peek_max_loop; destruct (Nat.leb_spec (length (keys_data ks)) idx) as [Hle|Hgt].
  1, 3: exists None, idx; split; [done|]; intros j y Hj (Hy & _); apply lookup_lt_Some in Hy; lia.
  { lia. }
  destruct (lookup_lt_is_Some_2 (keys_data ks) idx Hgt) as [x Hx]. rewrite Hx. cbn [mbind option_bind].
  assert (Hnext : forall idx', (idx < idx')%nat -> (forall j y, (idx <= j < idx')%nat -> ~ live_at ks b l lo hi j y) ->
    exists r i, peek_max_loop fuel ks b l lo hi idx' = Some (r, i) /\
    match r with
    | Some k => exists x, live_at ks b l lo hi i x /\ jk_k x = k /\ (idx <= i)%nat /\
                          forall j y, (idx <= j < i)%nat -> ~ live_at ks b l lo hi j y
    | None => forall j y, (idx <= j)%nat -> ~ live_at ks b l lo hi j y
    end).
  { intros idx' Hi Hskip. destruct (IH idx') as (r & i & E & Hr); [lia|]. exists r, i. split; [done|].
    destruct r as [k|].
    - destruct Hr as (y & Hy & Hk & Hle & Hno). exists y. split_and!; [done..|lia|]. intros j z Hj.
      destruct (decide (j < idx')%nat); [apply Hskip; lia|apply Hno; lia].
    - intros j z Hj. destruct (decide (j < idx')%nat); [apply Hskip; lia|apply Hr; lia]. }
  destruct (in_bounds b l lo hi x) eqn:Eb; [destruct (jk_overwritten x) eqn:Eo|].
  - destruct (skip_run ks idx x Hok Hx Eo) as (r & s & e & -> & Hj & _ & Hrun). cbn [end_]. apply Hnext; [lia|].
    intros j y Hj' (Hy & _ & Hoy). rewrite (Hrun j y) in Hoy; [done|lia|done].
  - exists (Some (jk_k x)), idx. split; [done|]. exists x. split_and!; [done..|]. intros; lia.
  - apply Hnext; [lia|]. intros j y Hj (Hy & Hby & _). assert (j = idx) as -> by lia. rewrite Hx in Hy. injection Hy as <-. congruence.
Qed.

Lemma peek_prev_loop_spec ks b l lo hi fuel cursor : keys_ok ks -> (cursor <= fuel)%nat ->
  (cursor <= length (keys_data ks))%nat ->
  exists r i, peek_prev_loop fuel ks b l hi lo cursor = Some (r, i) /\
    match r with
    | Some k => exists x, live_at ks b l lo hi i x /\ jk_k x = k /\ (i < cursor)%nat /\
                          forall j y, (i < j < cursor)%nat -> ~ live_at ks b l lo hi j y
    | None => i = 0%nat /\ forall j y, (j < cursor)%nat -> ~ live_at ks b l lo hi j y
    end.
Proof.
  intros Hok. revert cursor. induction fuel as [|fuel IH]; intros cursor Hf Hlen.
  { assert (cursor = 0)%nat as -> by lia. exists None, 0%nat. split_and!; [done..|]. intros; lia. }
  destruct cursor as [|cursor]; unfold peek_prev_loop; fold peek_prev_loop.
  { exists None, 0%nat. split_and!; [done..|]. intros; lia. }
  destruct (lookup_lt_is_Some_2 (keys_data ks) cursor Hlen) as [x Hx]. rewrite Hx. cbn [mbind option_bind].
  assert (Hnext : forall c, (c <= cursor)%nat -> (forall j y, (c <= j <= cursor)%nat -> ~ live_at ks b l lo hi j y) ->
    exists r i, peek_prev_loop fuel ks b l hi lo c = Some (r, i) /\
    match r with
    | Some k => exists x, live_at ks b l lo hi i x /\ jk_k x = k /\ (i < S cursor)%nat /\
                          forall j y, (i < j < S cursor)%nat -> ~ live_at ks b l lo hi j y
    | None => i = 0%nat /\ forall j y, (j < S cursor)%nat -> ~ live_at ks b l lo hi j y
    end).
  { intros c Hc Hskip. destruct (IH c) as (r & i & E & Hr); [lia..|]. exists r, i. split; [done|].
    destruct r as [k|].
    - destruct Hr as (y & Hy & Hk & Hle & Hno). exists y. split_and!; [done..|lia|]. intros j z Hj.
      destruct (decide (j < c)%nat); [apply Hno; lia|apply Hskip; lia].
    - destruct Hr as [-> Hr]. split; [done|]. intros j z Hj. destruct (decide (j < c)%nat); [apply Hr; lia|apply Hskip; lia]. }
  destruct (in_bounds b l lo hi x) eqn:Eb; [destruct (jk_overwritten x) eqn:Eo|].
  - destruct (skip_run ks cursor x Hok Hx Eo) as (r & s & e & -> & Hj & _ & Hrun). cbn [start]. apply Hnext; [lia|].
    intros j y Hj' (Hy & _ & Hoy). rewrite (Hrun j y) in Hoy; [done|lia|done].
  - exists (Some (jk_k x)), cursor. split; [done|]. exists x. split_and!; [done..|lia|]. intros; lia.
  - apply Hnext; [lia|]. intros j y Hj (Hy & Hby & _). assert (j = cursor) as -> by lia. rewrite Hx in Hy. injection Hy as <-. congruence.
Qed.

(** A live key with its position in bounds, as the map has it. *)
Definition overlay_in (ks : journal_keys) (b l : Z) (lo hi p : bpos) (k : list Z) : Prop :=
  overlay ks b l p = Some (k, false) /\ bpos_le lo p = true /\ bpos_le p hi = true.

Lemma in_bounds_spec b l lo hi x : jk_wf x -> bpos_wf lo -> bpos_wf hi ->
  in_bounds b l lo hi x = true <->
  jk_btree_id x = b /\ jk_level x = l /\ bpos_le lo (jk_pos x) = true /\ bpos_le (jk_pos x) hi = true.
Proof.
  intros Hx Hlo Hhi. pose proof (unpacked_pos_ok _ (jw_k _ Hx)) as Hp. fold (jk_pos x) in Hp. unfold in_bounds.
  rewrite !bpos_cmp_val, !bpos_le_val by done. rewrite !andb_true_iff, !Z.eqb_eq, !Z.leb_le.
  assert (0 <= cmp_sign (bpos_val (jk_pos x) ?= bpos_val lo) <-> bpos_val lo <= bpos_val (jk_pos x)) as ->
    by (destruct (Z.compare_spec (bpos_val (jk_pos x)) (bpos_val lo)); cbn; lia).
  assert (cmp_sign (bpos_val (jk_pos x) ?= bpos_val hi) <= 0 <-> bpos_val (jk_pos x) <= bpos_val hi) as ->
    by (destruct (Z.compare_spec (bpos_val (jk_pos x)) (bpos_val hi)); cbn; lia).
  tauto.
Qed.

Lemma live_overlay ks b l lo hi j x : keys_ok ks -> bpos_wf lo -> bpos_wf hi -> live_at ks b l lo hi j x ->
  overlay_in ks b l lo hi (jk_pos x) (jk_k x) /\ jk_btree_id x = b /\ jk_level x = l.
Proof.
  intros Hok Hlo Hhi (Hx & Hb & Ho). pose proof (ko_wf _ Hok) as Hw. rewrite Forall_lookup in Hw.
  apply in_bounds_spec in Hb as (Eb & El & H1 & H2); [|by eapply Hw|done..]. split_and!; [split_and!|done..]; [|done..].
  rewrite <- Ho. apply (overlay_elem ks b l _ (unrange x)); [done|by eapply elem_unrange_2|done].
Qed.

Lemma overlay_live ks b l lo hi p k : keys_ok ks -> bpos_wf lo -> bpos_wf hi -> overlay_in ks b l lo hi p k ->
  exists j x, live_at ks b l lo hi j x /\ jk_pos x = p /\ jk_k x = k.
Proof.
  intros Hok Hlo Hhi (E & H1 & H2). apply overlay_lookup in E as (j & x & Hx & (Eb & El & Ep) & Ek & Eo).
  exists j, x. split_and!; [|done..]. split_and!; [done| |done]. pose proof (ko_wf _ Hok) as Hw. rewrite Forall_lookup in Hw.
  apply in_bounds_spec; [by eapply Hw|done..|]. by rewrite Ep.
Qed.

Lemma live_order ks b l lo hi i j x y : keys_ok ks -> bpos_wf lo -> bpos_wf hi -> live_at ks b l lo hi i x -> live_at ks b l lo hi j y ->
  (i <= j)%nat -> bpos_le (jk_pos x) (jk_pos y) = true.
Proof.
  intros Hok Hlo Hhi Hx Hy Hij. destruct (live_overlay _ _ _ _ _ _ _ Hok Hlo Hhi Hx) as (_ & B1 & L1).
  destruct (live_overlay _ _ _ _ _ _ _ Hok Hlo Hhi Hy) as (_ & B2 & L2). destruct Hx as [Hx _], Hy as [Hy _].
  pose proof (ko_wf _ Hok) as Hw. rewrite Forall_lookup in Hw.
  rewrite bpos_le_val by (eapply unpacked_pos_ok, jw_k, Hw; done). apply Z.leb_le.
  destruct (decide (i = j)) as [->|Hne]; [rewrite Hx in Hy; injection Hy as <-; lia|].
  pose proof (sorted_lookup _ _ _ _ _ (ko_sorted _ Hok) Hx Hy ltac:(lia)) as Ho. unfold jk_ord in Ho. rewrite B1, B2, L1, L2 in Ho. lia.
Qed.

Lemma peek_max_overlay ks b l lo hi idx : keys_ok ks -> bpos_wf lo -> bpos_wf hi -> (idx <= length (keys_data ks))%nat ->
  (forall j x, live_at ks b l lo hi j x -> (idx <= j)%nat) ->
  exists r i, bch2_journal_keys_peek_max ks b l lo hi idx = Some (r, i) /\
    match r with
    | Some k => overlay_in ks b l lo hi (unpacked_pos k) k /\
                forall p k', overlay_in ks b l lo hi p k' -> bpos_le (unpacked_pos k) p = true
    | None => forall p k, ~ overlay_in ks b l lo hi p k
    end.
Proof.
  intros Hok Hlo Hhi Hidx Hbefore. unfold bch2_journal_keys_peek_max. rewrite (proj2 (Nat.leb_le _ _) Hidx). cbn [assert mbind option_bind].
  destruct (peek_max_loop_spec ks b l lo hi (length (keys_data ks)) idx Hok ltac:(lia)) as (r & i & E & Hr).
  exists r, i. split; [done|]. destruct r as [k|].
  - destruct Hr as (x & Hx & <- & Hi & Hno). split; [by apply (live_overlay ks b l lo hi i x)|].
    intros p k' Hp. destruct (overlay_live ks b l lo hi p k' Hok Hlo Hhi Hp) as (j & y & Hy & <- & _).
    apply (live_order ks b l lo hi i j x y); [done..|]. destruct (decide (i <= j)%nat); [done|].
    destruct (Hno j y); [|done]. pose proof (Hbefore j y Hy). lia.
  - intros p k Hp. destruct (overlay_live ks b l lo hi p k Hok Hlo Hhi Hp) as (j & y & Hy & _). by apply (Hr j y (Hbefore j y Hy)).
Qed.

Lemma peek_prev_overlay ks b l lo hi idx : keys_ok ks -> bpos_wf lo -> bpos_wf hi -> (idx <= length (keys_data ks))%nat ->
  (idx = 0%nat \/ forall j x, live_at ks b l lo hi j x -> (j <= idx)%nat) ->
  exists r i, bch2_journal_keys_peek_prev_min ks b l hi lo idx = Some (r, i) /\
    match r with
    | Some k => overlay_in ks b l lo hi (unpacked_pos k) k /\
                forall p k', overlay_in ks b l lo hi p k' -> bpos_le p (unpacked_pos k) = true
    | None => i = 0%nat /\ forall p k, ~ overlay_in ks b l lo hi p k
    end.
Proof.
  intros Hok Hlo Hhi Hidx Hafter. unfold bch2_journal_keys_peek_prev_min. rewrite (proj2 (Nat.leb_le _ _) Hidx). cbn [assert mbind option_bind].
  set (c := if (idx =? 0)%nat then _ else _).
  assert (c <= length (keys_data ks))%nat as Hc by (unfold c; destruct (idx =? 0)%nat; lia).
  assert (Hcov : forall j x, live_at ks b l lo hi j x -> (j < c)%nat).
  { intros j x Hx. pose proof (lookup_lt_Some _ _ _ (proj1 Hx)). unfold c. destruct (Nat.eqb_spec idx 0); [lia|].
    destruct Hafter as [?|Ha]; [done|]. specialize (Ha j x Hx). lia. }
  destruct (peek_prev_loop_spec ks b l lo hi (length (keys_data ks)) c Hok Hc Hc) as (r & i & E & Hr).
  exists r, i. split; [done|]. destruct r as [k|].
  - destruct Hr as (x & Hx & <- & Hi & Hno). split; [by apply (live_overlay ks b l lo hi i x)|].
    intros p k' Hp. destruct (overlay_live ks b l lo hi p k' Hok Hlo Hhi Hp) as (j & y & Hy & <- & _).
    apply (live_order ks b l lo hi j i y x); [done..|]. destruct (decide (j <= i)%nat); [done|].
    destruct (Hno j y); [|done]. pose proof (Hcov j y Hy). lia.
  - destruct Hr as [-> Hr]. split; [done|]. intros p k Hp. destruct (overlay_live ks b l lo hi p k Hok Hlo Hhi Hp) as (j & y & Hy & _).
    by apply (Hr j y (Hcov j y Hy)).
Qed.

Lemma bpos_le_antisym p q : bpos_wf p -> bpos_wf q -> bpos_le p q = true -> bpos_le q p = true -> p = q.
Proof.
  intros Hp Hq. rewrite !bpos_le_val, !Z.leb_le by done. intros. apply bpos_val_inj; [done..|lia].
Qed.

Lemma peek_slot_overlay ks b l p : keys_ok ks -> bpos_wf p ->
  bch2_journal_keys_peek_slot ks b l p = Some (match overlay ks b l p with Some (k, false) => Some k | _ => None end).
Proof.
  intros Hok Hp. unfold bch2_journal_keys_peek_slot.
  assert (Hpp : bpos_le p p = true) by (rewrite bpos_le_val by done; by apply Z.leb_le).
  destruct (peek_max_overlay ks b l p p 0) as (r & i & -> & Hr); [done..|lia|intros; lia|]. cbn [mbind option_bind]. f_equal.
  assert (Hat : forall q k, overlay_in ks b l p p q k -> q = p).
  { intros q k Hq. destruct (overlay_live ks b l p p q k Hok Hp Hp Hq) as (j & x & (Hx & _) & <- & _).
    pose proof (ko_wf _ Hok) as Hw. rewrite Forall_lookup in Hw. destruct Hq as (_ & H1 & H2).
    apply bpos_le_antisym; [by eapply unpacked_pos_ok, jw_k, Hw|done..]. }
  destruct r as [k|].
  - destruct Hr as [Hk _]. pose proof (Hat _ _ Hk) as E. rewrite E in *. rewrite decide_True by done. by destruct Hk as (-> & _).
  - destruct (overlay ks b l p) as [[k [|]]|] eqn:E; [done| |done]. by destruct (Hr p k).
Qed.

(** The overlay answers lookups like the map it stands for: forwards it gives
    the first key in the range that is not overwritten, backwards the last
    one, and at a position the key there.  The searches end, and never leave
    the array; an index may be passed on from one search to the next as long
    as no key of the range lies on its other side. *)
Theorem journal_keys_peek ks b l lo hi idx : keys_ok ks -> bpos_wf lo -> bpos_wf hi -> (idx <= length (keys_data ks))%nat ->
  ((forall j x, live_at ks b l lo hi j x -> (idx <= j)%nat) ->
   exists r i, bch2_journal_keys_peek_max ks b l lo hi idx = Some (r, i) /\
    match r with
    | Some k => overlay_in ks b l lo hi (unpacked_pos k) k /\
                forall p k', overlay_in ks b l lo hi p k' -> bpos_le (unpacked_pos k) p = true
    | None => forall p k, ~ overlay_in ks b l lo hi p k
    end) /\
  ((idx = 0%nat \/ forall j x, live_at ks b l lo hi j x -> (j <= idx)%nat) ->
   exists r i, bch2_journal_keys_peek_prev_min ks b l hi lo idx = Some (r, i) /\
    match r with
    | Some k => overlay_in ks b l lo hi (unpacked_pos k) k /\
                forall p k', overlay_in ks b l lo hi p k' -> bpos_le p (unpacked_pos k) = true
    | None => i = 0%nat /\ forall p k, ~ overlay_in ks b l lo hi p k
    end) /\
  bch2_journal_keys_peek_slot ks b l lo = Some (match overlay ks b l lo with Some (k, false) => Some k | _ => None end) /\
  bch2_key_deleted_in_journal true ks b l lo =
    Some (match overlay ks b l lo with Some (k, false) => kp_type k =? KEY_TYPE_deleted | _ => false end).
Proof.
  intros Hok Hlo Hhi Hidx. split_and!.
  - by apply peek_max_overlay.
  - by apply peek_prev_overlay.
  - by apply peek_slot_overlay.
  - unfold bch2_key_deleted_in_journal. cbn [negb]. rewrite peek_slot_overlay by done. cbn [mbind option_bind].
    by destruct (overlay ks b l lo) as [[k [|]]|].
Qed.

(** ** Every sequence of operations *)

Inductive jk_op :=
  | JK_insert (btree_id level : Z) (key : list Z)
  | JK_overwrite (btree_id level : Z) (pos : bpos)
  | JK_check (btree_id level : Z) (pos : bpos)
  | JK_clear.

Definition jk_apply (o : jk_op) (ks : journal_keys) : option journal_keys :=
  match o with
  | JK_insert b l key => '(_, ks) ← bch2_journal_key_insert ks b l key; Some ks
  | JK_overwrite b l p => bch2_journal_key_check_or_overwrite ks b l p false
  | JK_check b l p => bch2_journal_key_check_or_overwrite ks b l p true
  | JK_clear => Some (bch2_journal_keys_clear ks)
  end.

Fixpoint jk_run (os : list jk_op) (ks : journal_keys) : option journal_keys :=
  match os with
  | [] => Some ks
  | o :: os => ks ← jk_apply o ks; jk_run os ks
  end.

Definition jk_map := Z -> Z -> bpos -> option (list Z * bool).

(** What an operation means for the map. *)
Definition jk_apply_map (o : jk_op) (m : jk_map) : jk_map :=
  match o with
  | JK_insert b l key => fun b' l' p =>
      if decide (b' = b /\ l' = l /\ p = unpacked_pos key) then Some (key_copy key, false) else m b' l' p
  | JK_overwrite b l q => fun b' l' p =>
      if decide (b' = b /\ l' = l /\ p = q) then (fun kv => (kv.1, true)) <$> m b' l' p else m b' l' p
  | JK_check _ _ _ => m
  | JK_clear => fun _ _ _ => None
  end.

Definition jk_op_ok (o : jk_op) : Prop :=
  match o with JK_insert b l key => in_range 8 b /\ in_range 8 l /\ insertable_key key | _ => True end.

Lemma keys_ok_default : keys_ok journal_keys_default.
Proof. split; cbn; [constructor|constructor|intros i x Hx; done|lia|done|lia]. Qed.

Lemma check_or_overwrite_spec ks b l q : keys_ok ks ->
  exists ks', bch2_journal_key_check_or_overwrite ks b l q false = Some ks' /\ keys_ok ks' /\
    length (keys_data ks') = length (keys_data ks) /\
    forall b' l' p, overlay ks' b' l' p = jk_apply_map (JK_overwrite b l q) (overlay ks) b' l' p.
Proof.
  intros Hok. unfold bch2_journal_key_check_or_overwrite. cbn [jk_apply_map].
  destruct (list_find _ _) as [[i x]|] eqn:Ef.
  - assert (overlay ks b l q = Some (jk_k x, jk_overwritten x)) as Eo by (unfold overlay; by rewrite Ef).
    apply list_find_Some in Ef as (Hx & Hk & _). destruct (jk_overwritten x) eqn:Ho.
    + exists ks. split_and!; [done..|]. intros b' l' p. case_decide as Hd; [|done]. destruct Hd as (-> & -> & ->). by rewrite Eo.
    + destruct (journal_key_overwritten_spec ks i x Hok Hx Ho) as (ks' & -> & Hok' & Hu). exists ks'. split_and!; [done..| |].
      { apply (f_equal length) in Hu. by rewrite !length_fmap, length_insert in Hu. }
      pose proof (lookup_lt_Some _ _ _ Hx) as Hi. intros b' l' p. case_decide as Hd.
      * destruct Hd as (-> & -> & ->). rewrite Eo. cbn.
        apply (overlay_elem ks' b l q (unrange (set_jk_overwritten x))); [done| |done].
        rewrite Hu. apply (elem_unrange_2 i). by rewrite list_lookup_insert_eq.
      * apply overlay_ext; [done..|]. intros y Hy. rewrite Hu. split.
        -- intros (j & z & Hz & ->)%elem_unrange. apply list_lookup_insert_Some in Hz as [(<- & <- & _)|[Hne Hz]].
           ++ destruct Hd, Hy as (<- & <- & <-), Hk as (<- & <- & <-). done.
           ++ by eapply elem_unrange_2.
        -- intros (j & z & Hz & ->)%elem_unrange. apply (elem_unrange_2 j). rewrite list_lookup_insert_ne; [done|].
           intros <-. rewrite Hx in Hz. injection Hz as <-. destruct Hd, Hy as (<- & <- & <-), Hk as (<- & <- & <-). done.
  - exists ks. split_and!; [done..|]. intros b' l' p. case_decide as Hd; [|done]. destruct Hd as (-> & -> & ->).
    unfold overlay. by rewrite Ef.
Qed.

Lemma jk_apply_spec o ks : keys_ok ks -> jk_op_ok o -> Z.of_nat (length (keys_data ks)) + 3 <= 2 ^ 32 ->
  exists ks', jk_apply o ks = Some ks' /\ keys_ok ks' /\ (length (keys_data ks') <= S (length (keys_data ks)))%nat /\
    forall b l p, overlay ks' b l p = jk_apply_map o (overlay ks) b l p.
Proof.
  intros Hok Ho Hs. destruct o as [b l key|b l q|b l q|]; cbn [jk_apply].
  - destruct Ho as (Hb & Hl & Hkey). destruct (journal_key_insert_spec ks b l key) as (ks' & -> & ?); [done..|]. eauto.
  - destruct (check_or_overwrite_spec ks b l q Hok) as (ks' & -> & Hok' & Hlen & ?). exists ks'. split_and!; [done..|lia|done].
  - exists ks. split_and!; [|done|lia|done]. unfold bch2_journal_key_check_or_overwrite.
    destruct (list_find _ _) as [[i x]|]; [|done]. by destruct (jk_overwritten x).
  - exists journal_keys_default. split_and!; [done|apply keys_ok_default|cbn; lia|done].
Qed.

Lemma jk_run_spec os ks (m : jk_map) : Forall jk_op_ok os -> keys_ok ks ->
  Z.of_nat (length (keys_data ks) + length os) + 3 <= 2 ^ 32 -> (forall b l p, overlay ks b l p = m b l p) ->
  exists ks', jk_run os ks = Some ks' /\ keys_ok ks' /\
    forall b l p, overlay ks' b l p = fold_left (fun m o => jk_apply_map o m) os m b l p.
Proof.
  intros Hos. revert ks m. induction Hos as [|o os Ho Hos IH]; intros ks m Hok Hs Hm; cbn [jk_run fold_left]; [by exists ks|].
  cbn [length] in Hs. destruct (jk_apply_spec o ks Hok Ho) as (ks1 & -> & Hok1 & Hl1 & Hm1); [lia|]. cbn [mbind option_bind].
  apply IH; [done|lia|]. intros b l p. rewrite Hm1. destruct o; cbn [jk_apply_map]; rewrite ?Hm; done.
Qed.

(** C9: The overlay refines a map: from the empty overlay on, every sequence of
    inserting keys, marking positions as overwritten, checking and clearing
    runs without a panic, keeps the array sorted with its ranges in order, and
    holds exactly the last key inserted for every btree, level and position,
    with its mark. *)
Theorem journal_keys_refine_map os : Forall jk_op_ok os -> Z.of_nat (length os) + 3 <= 2 ^ 32 ->
  exists ks, jk_run os journal_keys_default = Some ks /\ keys_ok ks /\
    forall b l p, overlay ks b l p = fold_left (fun m o => jk_apply_map o m) os (fun _ _ _ => None) b l p.
Proof.
  intros Hos Hlen. apply jk_run_spec; [done|apply keys_ok_default|cbn; lia|done].
Qed.

Definition sample_jk (o v : Z) : list Z := [6 + 2 ^ 8; 0; 2 ^ 32; o; 4096; v].
Definition sample_jk_ops : list jk_op :=
  [JK_insert 1 0 (sample_jk 24 7); JK_insert 1 0 (sample_jk 8 5); JK_insert 0 0 (sample_jk 9 1); JK_overwrite 1 0 (SPOS 4096 8 1);
   JK_insert 1 0 (sample_jk 16 6); JK_overwrite 1 0 (SPOS 4096 16 1)].

Lemma sample_jk_ok o v : in_range 64 o -> in_range 64 v -> insertable_key (sample_jk o v).
Proof.
  intros Ho Hv. split; [|split; vm_compute; congruence]. unfold sample_jk, words_wf.
  repeat (apply Forall_cons_2; [done || (split; vm_compute; congruence)|]). constructor.
Qed.

Lemma sample_jk_ops_ok : Forall jk_op_ok sample_jk_ops.
Proof.
  unfold sample_jk_ops. repeat (apply Forall_cons_2; [first [done | split_and!; [done..|by apply sample_jk_ok]]|]). constructor.
Qed.

Definition sample_jks : journal_keys := default journal_keys_default (jk_run sample_jk_ops journal_keys_default).

Lemma sample_jks_ok : keys_ok sample_jks.
Proof.
  destruct (jk_run_spec sample_jk_ops journal_keys_default (fun _ _ _ => None)) as (ks & E & Hok & _);
    [apply sample_jk_ops_ok|apply keys_ok_default|cbn; lia|done|].
  unfold sample_jks. by rewrite E.
Qed.

Lemma journal_keys_refine_map_witness : exists ks, jk_run sample_jk_ops journal_keys_default = Some ks /\
  overlay ks 1 0 (SPOS 4096 16 1) = Some (sample_jk 16 6, true) /\ overlay ks 1 0 (SPOS 4096 24 1) = Some (sample_jk 24 7, false) /\
  overlay ks 1 0 (SPOS 4096 9 1) = None.
Proof.
  destruct (journal_keys_refine_map sample_jk_ops) as (ks & E & _ & H); [apply sample_jk_ops_ok|cbn; lia|].
  exists ks. split; [exact E|]. rewrite !H. split_and!; vm_compute; reflexivity.
Defined.

Lemma journal_keys_peek_witness : exists i, bch2_journal_keys_peek_max sample_jks 1 0 POS_MIN SPOS_MAX 0 = Some (Some (sample_jk 24 7), i).
Proof.
  destruct (journal_keys_peek sample_jks 1 0 POS_MIN SPOS_MAX 0) as [H _];
    [apply sample_jks_ok|split_and!; cbn; done|split_and!; cbn; done|lia|].
  destruct H as (r & i & E & _); [intros; lia|]. exists i. rewrite E. vm_compute in E. injection E as <- <-. reflexivity.
Defined.
