(* ===== verification/JournalReplay.v ===== *)
(** * Replaying the journal: from records to the overlay

    The first two passes of [bch2_journal_replay] in
    [src/crates/subvol/src/journal.rs]: the records are sorted and the window
    that the newest flushed record asks for is chosen, their entries are
    checked and repaired in place, the btree roots they name are installed,
    and their keys are put into the overlay of [JournalKeys].

    The last pass, which writes every key to its btree in a transaction, and
    the reading of the root nodes are not part of this file. *)

From S2P Require Import Prelude.
From S2P Require Import Bpos.
From S2P Require Import BkeyPack.
From S2P Require Import JournalRes.
From S2P Require Import JournalDisk.
From S2P Require Import JournalKeys.
From S2P Require Import Journal.
From stdpp Require Import base tactics list numbers option sorting.
From Stdlib Require Import ZArith Lia.

Open Scope Z_scope.

(** ** Checking one entry *)

Definition zero_words (from to : nat) (ws : list Z) : list Z :=
  take from ws ++ replicate (to - from) 0 ++ drop (Nat.max from to) ws.

(** [journal_entry_null_range]: one empty entry per word. *)
Definition journal_entry_null_range (from to : nat) (payload : list Z) : list Z := zero_words from to payload.

(** The loop of [journal_entry_btree_keys_validate] at the key [key] of the
    payload of an entry with [u64s] words left; the new length and the
    payload. *)
Fixpoint keys_validate_loop (fuel u64s key : nat) (payload : list Z) : option (nat * list Z) :=
  if (u64s <=? key)%nat then Some (u64s, payload) else
  match fuel with
  | O => None
  | S fuel =>
      if (u64s - key <? Z.to_nat BKEY_U64S)%nat then Some (key, journal_entry_null_range key u64s payload) else
      let key_u64s := Z.to_nat (kp_u64s (drop key payload)) in
      if (key_u64s =? 0)%nat || (u64s <? key + key_u64s)%nat then Some (key, journal_entry_null_range key u64s payload) else
      if negb (kp_format (drop key payload) =? KEY_FORMAT_CURRENT) then
        let payload := take key payload ++ take (u64s - (key + key_u64s)) (drop (key + key_u64s) payload)
                       ++ drop (u64s - key_u64s) payload in
        let u64s' := (u64s - key_u64s)%nat in
        keys_validate_loop fuel u64s' key (journal_entry_null_range u64s' u64s payload)
      else keys_validate_loop fuel u64s (key + key_u64s) payload
  end.

Definition journal_entry_btree_keys_validate (payload : list Z) : option (nat * list Z) :=
  keys_validate_loop (length payload) (length payload) 0 payload.

Definition BTREE_MAX_DEPTH : Z := 4.
Definition KEY_TYPE_btree_ptr_v2 : Z := 18.

(** The code returned, the new length and the payload. *)
Definition journal_entry_btree_root_validate (w : Z) (payload : list Z) : Z * nat * list Z :=
  let u64s := length payload in
  if (u64s =? 0)%nat || negb (Z.of_nat u64s =? kp_u64s payload) then (0, 0%nat, replicate u64s 0) else
  if Z.of_nat BTREE_ID_NR <=? entry_btree_id w then (-4, u64s, payload) else
  if BTREE_MAX_DEPTH <=? entry_level w then (-5, u64s, payload) else
  if negb (kp_format payload =? KEY_FORMAT_CURRENT) then (-6, u64s, payload) else
  if negb (kp_type payload =? KEY_TYPE_btree_ptr_v2) then (-7, u64s, payload) else
  if (BKEY_WORDS + BKEY_BTREE_PTR_VAL_U64S_MAX <? Z.to_nat (kp_u64s payload))%nat then (-8, u64s, payload) else
  (0, u64s, payload).

(** ** Installing a root

    [mem_ptr] is the first word of the value; it is only written for a key
    that is a btree pointer. *)
Definition bch2_journal_entry_to_btree_root (roots : list (option btree_root)) (w : Z) (payload : list Z)
    : option (list (option btree_root)) :=
  _ ← assert (entry_btree_id w <? Z.of_nat BTREE_ID_NR);
  let key := take (Z.to_nat (kp_u64s payload)) payload in
  let key := if kp_type payload =? KEY_TYPE_btree_ptr_v2 then <[BKEY_WORDS := 0]> key else key in
  Some (<[Z.to_nat (entry_btree_id w) := Some (mk_root (entry_level w) key)]> roots).

(** ** Choosing the records *)

Definition replay_record_valid (r : list Z) : bool :=
  negb ((Z.of_nat (length r) <? JSET_HEADER_U64S) || negb (word r 2 =? JSET_MAGIC) || (word r 3 =? 0)
        || (JOURNAL_SEQ_MAX <? word r 3) || (Z.of_nat (length r) - JSET_HEADER_U64S <? word r 5 mod 2 ^ 32)).

(** The loop that pushes [(seq, record)]. *)
Fixpoint replay_check (records : list (list Z)) : option (list (Z * list Z)) :=
  match records with
  | [] => Some []
  | r :: rs => if negb (replay_record_valid r) then None else l ← replay_check rs; Some ((word r 3, r) :: l)
  end.

(** [sort_by_key] is stable. *)
Fixpoint insert_by_seq (x : Z * list Z) (l : list (Z * list Z)) : list (Z * list Z) :=
  match l with
  | [] => [x]
  | y :: l' => if y.1 <=? x.1 then y :: insert_by_seq x l' else x :: l
  end.
Definition sort_by_seq (l : list (Z * list Z)) : list (Z * list Z) :=
  fold_left (fun acc x => insert_by_seq x acc) l [].

(** [last] is the last record kept; [None] is the error [-7]. *)
Fixpoint replay_unique (last : option (Z * list Z)) (l : list (Z * list Z)) : option (list (Z * list Z)) :=
  match l with
  | [] => Some []
  | x :: l' =>
      match last with
      | Some y => if y.1 =? x.1 then if bool_decide (y.2 = x.2) then replay_unique last l' else None
                  else r ← replay_unique (Some x) l'; Some (x :: r)
      | None => r ← replay_unique (Some x) l'; Some (x :: r)
      end
  end.

Fixpoint replay_contiguous (expected : Z) (l : list (Z * list Z)) : option Z :=
  match l with
  | [] => Some expected
  | (seq, _) :: l' =>
      if negb (seq =? expected) then None
      else if 2 ^ 64 <=? expected + 1 then None
      else replay_contiguous (expected + 1) l'
  end.

(** The code to return, or the records of the window. *)
Definition replay_select (records : list (list Z)) : Z + list (Z * list Z) :=
  match replay_check records with
  | None => inl (-1)
  | Some l =>
      match replay_unique None (sort_by_seq l) with
      | None => inl (-7)
      | Some unique =>
          match List.find (fun x => JSET_NO_FLUSH x.2 =? 0) (rev unique) with
          | None => inl 0
          | Some (replay_end, record) =>
              let replay_start := Z.min (word record 6) replay_end in
              let selected := List.filter (fun x => (replay_start <=? x.1) && (x.1 <=? replay_end)) unique in
              let expected := match selected with (first, _) :: _ => first | [] => replay_start end in
              match replay_contiguous expected selected with
              | None => inl (-8)
              | Some expected => if negb (expected =? Z.min (replay_end + 1) (MAX 64)) then inl (-8) else inr selected
              end
          end
      end
  end.

(** ** The entries of a record *)

Definition entry_at (r : list Z) (offset : nat) : option (Z * list Z) :=
  w ← r !! offset; Some (w, take (Z.to_nat (entry_u64s w)) (drop (S offset) r)).

(** The header of an entry with another length. *)
Definition with_u64s (w : Z) (u64s : nat) : Z := w / 2 ^ 16 * 2 ^ 16 + Z.of_nat u64s.

(** An entry written back in place. *)
Definition put_entry (r : list Z) (offset : nat) (w : Z) (u64s : nat) (payload : list Z) : option (list Z) :=
  put_words r (Z.of_nat offset) (with_u64s w u64s :: payload).

(** The first pass over one record: the code, the record and the roots. *)
Fixpoint check_entries (fuel : nat) (r : list Z) (offset end_ : nat) (roots : list (option btree_root))
    : option (Z * list Z * list (option btree_root)) :=
  if (end_ <=? offset)%nat then Some (0, r, roots) else
  match fuel with
  | O => None
  | S fuel =>
      '(w, payload) ← entry_at r offset;
      let actual := Z.to_nat (jset_u64s (entry_u64s w)) in
      if (actual =? 0)%nat || (end_ <? offset + actual)%nat then Some (-2, r, roots) else
      if entry_type w =? BCH_JSET_ENTRY_btree_keys then
        '(u64s, payload) ← journal_entry_btree_keys_validate payload;
        r ← put_entry r offset w u64s payload;
        check_entries fuel r (offset + actual) end_ roots
      else if entry_type w =? BCH_JSET_ENTRY_btree_root then
        let '(ret, u64s, payload) := journal_entry_btree_root_validate w payload in
        r ← put_entry r offset w u64s payload;
        if negb (ret =? 0) then Some (ret, r, roots) else
        if (u64s =? 0)%nat then check_entries fuel r (offset + actual) end_ roots else
        roots ← bch2_journal_entry_to_btree_root roots w payload;
        check_entries fuel r (offset + actual) end_ roots
      else check_entries fuel r (offset + actual) end_ roots
  end.

Definition record_end (r : list Z) : nat := Z.to_nat (JSET_HEADER_U64S + word r 5 mod 2 ^ 32).

Fixpoint check_selected (l : list (Z * list Z)) (roots : list (option btree_root))
    : option (Z * list (Z * list Z) * list (option btree_root)) :=
  match l with
  | [] => Some (0, [], roots)
  | (seq, r) :: l' =>
      '(ret, r, roots) ← check_entries (length r) r (Z.to_nat JSET_HEADER_U64S) (record_end r) roots;
      if negb (ret =? 0) then Some (ret, (seq, r) :: l', roots) else
      '(ret, l', roots) ← check_selected l' roots;
      Some (ret, (seq, r) :: l', roots)
  end.

(** The second pass: every key of the entry at [offset] goes into the overlay. *)
Fixpoint overlay_keys (fuel : nat) (w : Z) (payload : list Z) (key_offset : nat) (ks : journal_keys)
    : option (Z * journal_keys) :=
  let u64s := Z.to_nat (entry_u64s w) in
  if (u64s <=? key_offset)%nat then Some (0, ks) else
  match fuel with
  | O => None
  | S fuel =>
      let remaining := (u64s - key_offset)%nat in
      if (remaining <? Z.to_nat BKEY_U64S)%nat then Some (-3, ks) else
      let key := drop key_offset payload in
      let key_u64s := Z.to_nat (kp_u64s key) in
      if (key_u64s <? Z.to_nat BKEY_U64S)%nat || (remaining <? key_u64s)%nat then Some (-3, ks) else
      '(ret, ks) ← bch2_journal_key_insert ks (entry_btree_id w) (entry_level w) key;
      if negb (ret =? 0) then Some (ret, ks) else
      overlay_keys fuel w payload (key_offset + key_u64s) ks
  end.

Fixpoint overlay_entries (fuel : nat) (r : list Z) (offset end_ : nat) (ks : journal_keys) : option (Z * journal_keys) :=
  if (end_ <=? offset)%nat then Some (0, ks) else
  match fuel with
  | O => None
  | S fuel =>
      '(w, _) ← entry_at r offset;
      let actual := Z.to_nat (jset_u64s (entry_u64s w)) in
      if (actual =? 0)%nat || (end_ <? offset + actual)%nat then Some (-2, ks) else
      if entry_type w =? BCH_JSET_ENTRY_btree_keys then
        '(ret, ks) ← overlay_keys (Z.to_nat (entry_u64s w)) w (drop (S offset) r) 0 ks;
        if negb (ret =? 0) then Some (ret, ks) else overlay_entries fuel r (offset + actual) end_ ks
      else overlay_entries fuel r (offset + actual) end_ ks
  end.

Fixpoint overlay_records (l : list (Z * list Z)) (ks : journal_keys) : option (Z * journal_keys) :=
  match l with
  | [] => Some (0, ks)
  | (_, r) :: l' =>
      '(ret, ks) ← overlay_entries (length r) r (Z.to_nat JSET_HEADER_U64S) (record_end r) ks;
      if negb (ret =? 0) then Some (ret, ks) else overlay_records l' ks
  end.

(** [bch2_journal_replay] up to its last pass: the code to return, or the
    window, the roots and the overlay. *)
Definition replay_prepare (records : list (list Z)) (roots : list (option btree_root)) (ks : journal_keys)
    : option (Z + (list (Z * list Z) * list (option btree_root) * journal_keys)) :=
  let ks := bch2_journal_keys_clear ks in
  match replay_select records with
  | inl ret => Some (inl ret)
  | inr selected =>
      '(ret, selected, roots) ← check_selected selected roots;
      if negb (ret =? 0) then Some (inl ret) else
      '(ret, ks) ← overlay_records selected ks;
      if negb (ret =? 0) then Some (inl ret) else Some (inr (selected, roots, ks))
  end.

(** ** The keys of an entry *)

(** The keys in front of the first one that is not a whole key, and the rest. *)
Fixpoint split_keys (fuel : nat) (ws : list Z) : list (list Z) * list Z :=
  match fuel with
  | O => ([], ws)
  | S fuel =>
      let n := Z.to_nat (kp_u64s ws) in
      if (length ws <? 5)%nat || (n =? 0)%nat || (length ws <? n)%nat then ([], ws)
      else let '(ks, rest) := split_keys fuel (drop n ws) in (take n ws :: ks, rest)
  end.

Definition current (k : list Z) : Prop := kp_format k = KEY_FORMAT_CURRENT.

(** The keys that the check keeps. *)
Definition kept_keys (ws : list Z) : list (list Z) := filter current (split_keys (length ws) ws).1.

Lemma split_keys_S k l : (length l <= k)%nat -> split_keys k l = split_keys (S k) l.
Proof.
  revert l. induction k as [|k IH]; intros l Hk; [by destruct l; [|cbn in Hk; lia]|].
  cbn [split_keys]. set (n := Z.to_nat _). destruct (_ || (_ <? n)%nat) eqn:E; [done|].
  rewrite !orb_false_iff in E. destruct E as [[_ En] _]. apply Nat.eqb_neq in En.
  rewrite (IH (drop n l)) by (rewrite length_drop; lia). done.
Qed.

Lemma split_keys_fuel k l : (length l <= k)%nat -> split_keys k l = split_keys (length l) l.
Proof. induction 1 as [|k Hk IHk]; [done|]. by rewrite <- split_keys_S. Qed.

(** One step of the split. *)
Lemma split_keys_step ws : split_keys (length ws) ws =
  let n := Z.to_nat (kp_u64s ws) in
  if (length ws <? 5)%nat || (n =? 0)%nat || (length ws <? n)%nat then ([], ws)
  else let r := split_keys (length (drop n ws)) (drop n ws) in (take n ws :: r.1, r.2).
Proof.
  rewrite split_keys_S by done. cbn [split_keys]. set (n := Z.to_nat _).
  destruct (_ || (_ <? n)%nat) eqn:E; [done|]. rewrite split_keys_fuel by (rewrite length_drop; lia). by destruct (split_keys _ _).
Qed.

Lemma kp_u64s_app a b : a <> [] -> kp_u64s (a ++ b) = kp_u64s a.
Proof. by destruct a. Qed.
Lemma kp_format_app a b : a <> [] -> kp_format (a ++ b) = kp_format a.
Proof. by destruct a. Qed.

Lemma kept_length ws : (length (concat (kept_keys ws)) <= length ws)%nat.
Proof.
  remember (length ws) as m eqn:Em. revert ws Em. induction m as [m IH] using lt_wf_ind. intros ws ->.
  unfold kept_keys. rewrite split_keys_step. cbn zeta.
  set (k := Z.to_nat _). destruct (_ || (_ <? k)%nat) eqn:E; [cbn; lia|]. rewrite !orb_false_iff in E.
  destruct E as [[_ Ek] El]. apply Nat.eqb_neq in Ek. apply Nat.ltb_ge in El. cbn [fst].
  assert (length (concat (kept_keys (drop k ws))) <= length (drop k ws))%nat as H by (apply (IH (length (drop k ws))); [rewrite length_drop; lia|done]).
  rewrite filter_cons. fold (kept_keys (drop k ws)). rewrite length_drop in H. case_decide; [|lia].
  cbn [concat]. rewrite length_app, length_take. lia.
Qed.

Lemma zero_words_app a b n : zero_words (length a) (length a + length b) (a ++ b ++ replicate n 0) = a ++ replicate (length b + n) 0.
Proof.
  unfold zero_words. rewrite take_app_length, Nat.max_r by lia. replace (length a + length b - length a)%nat with (length b) by lia.
  f_equal. rewrite app_assoc, drop_app_length' by by rewrite length_app. by rewrite replicate_add.
Qed.

Lemma keys_validate_loop_spec fuel pre ws n : (length ws <= fuel)%nat ->
  keys_validate_loop fuel (length pre + length ws) (length pre) (pre ++ ws ++ replicate n 0) =
  let kept := concat (kept_keys ws) in
  Some ((length pre + length kept)%nat, pre ++ kept ++ replicate (length ws - length kept + n) 0).
Proof.
  revert pre ws n. induction fuel as [|fuel IH]; intros pre ws n Hf.
  all: unfold keys_validate_loop; fold keys_validate_loop; destruct (Nat.leb_spec (length pre + length ws) (length pre)) as [Hle|Hgt].
  1, 3: assert (ws = []) as -> by (destruct ws; cbn in *; [done|lia]); cbn; by rewrite !Nat.add_0_r.
  { lia. }
  assert (ws <> []) as Hne by (destruct ws; [cbn in Hgt; lia|done]).
  rewrite drop_app_length, kp_u64s_app, kp_format_app by done.
  replace (length pre + length ws - length pre)%nat with (length ws) by lia. change (Z.to_nat BKEY_U64S) with 5%nat.
  unfold kept_keys. rewrite split_keys_step. cbn zeta. set (k := Z.to_nat (kp_u64s ws)).
  assert (Hstop : Some (length pre, journal_entry_null_range (length pre) (length pre + length ws) (pre ++ ws ++ replicate n 0)) =
    Some ((length pre + length (concat (filter current ([] : list (list Z)))))%nat,
          pre ++ concat (filter current []) ++ replicate (length ws - length (concat (filter current ([] : list (list Z)))) + n) 0)).
  { cbn. rewrite Nat.add_0_r, Nat.sub_0_r. unfold journal_entry_null_range. by rewrite zero_words_app. }
  destruct (Nat.ltb_spec (length ws) 5); cbn [orb fst]; [apply Hstop|].
  destruct (Nat.eqb_spec k 0); cbn [orb fst]; [apply Hstop|].
  destruct (Nat.ltb_spec (length pre + length ws) (length pre + k)), (Nat.ltb_spec (length ws) k); try lia; cbn [orb fst]; [apply Hstop|].
  clear Hstop. rewrite filter_cons.
  assert (kp_format (take k ws) = kp_format ws) as Ef by (destruct ws; [done|]; by destruct k).
  fold (kept_keys (drop k ws)).
  destruct (Z.eqb_spec (kp_format ws) KEY_FORMAT_CURRENT) as [Ec|Ec]; cbn [negb].
  - rewrite decide_True by (unfold current; congruence).
    rewrite <- (take_drop k ws) at 1 2. rewrite length_app, <- app_assoc, (app_assoc pre), Nat.add_assoc.
    rewrite <- (length_app pre). replace (length pre + k)%nat with (length (pre ++ take k ws)) by (rewrite length_app, length_take; lia).
    rewrite IH by (rewrite length_drop; lia). cbn zeta. cbn [concat]. rewrite !length_app, length_drop, !length_take.
    f_equal. f_equal; [lia|]. rewrite <- !app_assoc. do 3 f_equal. f_equal. lia.
  - rewrite decide_False by (unfold current; congruence).
    assert (journal_entry_null_range (length pre + length ws - k) (length pre + length ws)
      (take (length pre) (pre ++ ws ++ replicate n 0) ++
       take (length pre + length ws - (length pre + k)) (drop (length pre + k) (pre ++ ws ++ replicate n 0)) ++
       drop (length pre + length ws - k) (pre ++ ws ++ replicate n 0)) = pre ++ drop k ws ++ replicate (k + n) 0) as ->.
    { rewrite take_app_length. assert (drop (length pre + k) (pre ++ ws ++ replicate n 0) = drop k ws ++ replicate n 0) as ->.
      { rewrite drop_app_ge by lia. replace (length pre + k - length pre)%nat with k by lia. by rewrite drop_app_le by lia. }
      rewrite take_app_length' by (rewrite length_drop; lia).
      set (tl := drop (length pre + length ws - k) _). unfold journal_entry_null_range, zero_words.
      rewrite (app_assoc pre _ tl), take_app_length' by (rewrite length_app, length_drop; lia).
      rewrite Nat.max_r by lia. replace (length pre + length ws - (length pre + length ws - k))%nat with k by lia.
      rewrite (drop_app_ge _ tl) by (rewrite length_app, length_drop; lia). unfold tl. rewrite drop_drop, length_app, length_drop.
      rewrite (app_assoc pre ws), drop_app_ge by (rewrite length_app; lia). rewrite length_app.
      replace (_ - (length pre + length ws))%nat with 0%nat by lia. cbn [drop]. rewrite replicate_add, <- !app_assoc. done. }
    replace (length pre + length ws - k)%nat with (length pre + length (drop k ws))%nat by (rewrite length_drop; lia).
    rewrite IH by (rewrite length_drop; lia). cbn zeta. do 4 f_equal. rewrite length_drop. f_equal.
    pose proof (kept_length (drop k ws)) as Hl. rewrite length_drop in Hl. lia.
Qed.

Lemma keys_validate_spec payload :
  journal_entry_btree_keys_validate payload =
  let kept := concat (kept_keys payload) in
  Some (length kept, kept ++ replicate (length payload - length kept) 0).
Proof.
  pose proof (keys_validate_loop_spec (length payload) [] payload 0 (le_n _)) as H. cbn zeta in *. cbn [length app replicate Nat.add] in H.
  rewrite app_nil_r, Nat.add_0_r in H. exact H.
Qed.

(** A whole key in the current format. *)
Definition key_chunk (k : list Z) : Prop := insertable_key k /\ kp_u64s k = Z.of_nat (length k) /\ current k.

Lemma split_chunks ks : Forall key_chunk ks -> split_keys (length (concat ks)) (concat ks) = (ks, []).
Proof.
  induction 1 as [|k ks Hk Hks IH]; [done|]. destruct Hk as ((_ & Hlen) & Hku & _). unfold BKEY_U64S in Hlen.
  rewrite split_keys_step. cbn [concat]. assert (k <> []) as Hne by (intros ->; cbn in Hlen; lia).
  rewrite kp_u64s_app, Hku, Nat2Z.id by done. cbn zeta.
  destruct (Nat.ltb_spec (length (k ++ concat ks)) 5); [rewrite length_app in *; lia|].
  destruct (Nat.eqb_spec (length k) 0); [lia|].
  destruct (Nat.ltb_spec (length (k ++ concat ks)) (length k)); [rewrite length_app in *; lia|]. cbn [orb].
  by rewrite take_app_length, drop_app_length, IH.
Qed.

Lemma kept_chunks ks : Forall key_chunk ks -> kept_keys (concat ks) = ks.
Proof.
  intros H. unfold kept_keys. rewrite split_chunks by done. cbn [fst].
  induction H as [|k ks Hk _ IH]; [done|]. rewrite filter_cons, decide_True by apply Hk. by f_equal.
Qed.

(** ** Records made of entries *)

Record rrecord := mk_rrecord { rr_words : list Z; rr_seq : Z; rr_last : Z; rr_entries : list entry }.

Definition entry_keys (e : entry) : list (Z * Z * list Z) :=
  if e_type e =? BCH_JSET_ENTRY_btree_keys then (fun k => (e_id e, e_level e, k)) <$> kept_keys (e_payload e) else [].

(** A root entry that the check accepts. *)
Definition root_entry_ok (e : entry) : Prop :=
  kp_u64s (e_payload e) = Z.of_nat (length (e_payload e)) /\ (0 < length (e_payload e))%nat /\ e_id e < Z.of_nat BTREE_ID_NR /\
  e_level e < BTREE_MAX_DEPTH /\ kp_format (e_payload e) = KEY_FORMAT_CURRENT /\ kp_type (e_payload e) = KEY_TYPE_btree_ptr_v2 /\
  (length (e_payload e) <= BKEY_WORDS + BKEY_BTREE_PTR_VAL_U64S_MAX)%nat.

Definition replay_entry_ok (e : entry) : Prop :=
  entry_ok e /\
  (e_type e = BCH_JSET_ENTRY_btree_keys -> exists ks, e_payload e = concat ks /\ Forall key_chunk ks) /\
  (e_type e = BCH_JSET_ENTRY_btree_root -> root_entry_ok e).

Definition entry_root (roots : list (option btree_root)) (e : entry) : list (option btree_root) :=
  if e_type e =? BCH_JSET_ENTRY_btree_root
  then <[Z.to_nat (e_id e) := Some (mk_root (e_level e) (<[BKEY_WORDS := 0]> (e_payload e)))]> roots else roots.

(** A record as it is read back: flushed, with its entries. *)
Record rrecord_ok (x : rrecord) : Prop := {
  ro_magic : word (rr_words x) 2 = JSET_MAGIC;
  ro_seq : word (rr_words x) 3 = rr_seq x;
  ro_flush : JSET_NO_FLUSH (rr_words x) = 0;
  ro_u64s : word (rr_words x) 5 = Z.of_nat (length (rows (rr_entries x)));
  ro_small : Z.of_nat (length (rows (rr_entries x))) < 2 ^ 32;
  ro_last : word (rr_words x) 6 = rr_last x;
  ro_len : length (rr_words x) = (7 + length (rows (rr_entries x)))%nat;
  ro_rows : drop 7 (rr_words x) = rows (rr_entries x);
  ro_entries : Forall replay_entry_ok (rr_entries x)
}.

Lemma rrecord_end x : rrecord_ok x -> record_end (rr_words x) = length (rr_words x).
Proof.
  intros Hx. unfold record_end, JSET_HEADER_U64S. rewrite (ro_u64s _ Hx), (ro_len _ Hx).
  rewrite Z.mod_small by (pose proof (ro_small _ Hx); lia). lia.
Qed.

Lemma entry_at_app pre e rest : entry_ok e ->
  entry_at (pre ++ entry_words e ++ rest) (length pre) = Some (entry_header e, e_payload e).
Proof.
  intros He. unfold entry_at. cbn [entry_words app]. rewrite list_lookup_middle by done. cbn [mbind option_bind].
  rewrite entry_header_u64s, Nat2Z.id, cons_middle, app_assoc by done.
  rewrite drop_app_length' by (rewrite length_app; cbn; lia). by rewrite take_app_length.
Qed.

Lemma put_entry_same pre e rest : entry_ok e ->
  put_entry (pre ++ entry_words e ++ rest) (length pre) (entry_header e) (length (e_payload e)) (e_payload e) =
  Some (pre ++ entry_words e ++ rest).
Proof.
  intros He. unfold put_entry. assert (with_u64s (entry_header e) (length (e_payload e)) = entry_header e) as ->.
  { unfold with_u64s. rewrite <- (entry_header_u64s e He). unfold entry_u64s.
    pose proof (Z.div_mod (entry_header e) (2 ^ 16)). lia. }
  fold (entry_words e). unfold put_words.
  rewrite (proj2 (Z.leb_le 0 _)) by lia. rewrite (proj2 (Z.leb_le _ _)) by (rewrite !length_app; lia). cbn [andb].
  rewrite Nat2Z.id, take_app_length. do 3 f_equal. rewrite app_assoc, drop_app_length' by (by rewrite length_app). done.
Qed.

Lemma check_entries_rows fuel pre es roots : Forall replay_entry_ok es -> (length es <= fuel)%nat -> length roots = BTREE_ID_NR ->
  check_entries fuel (pre ++ rows es) (length pre) (length (pre ++ rows es)) roots =
  Some (0, pre ++ rows es, fold_left entry_root es roots).
Proof.
  intros Hes. revert fuel pre roots. induction Hes as [|e es He Hes IH]; intros fuel pre roots Hf Hr.
  { cbn [rows]. rewrite app_nil_r. destruct fuel; cbn [check_entries]; by rewrite Nat.leb_refl. }
  destruct fuel as [|fuel]; [cbn in Hf; lia|]. cbn [length] in Hf. destruct He as (He & Hkeys & Hroot).
  change (rows (e :: es)) with (entry_words e ++ rows es). cbn [check_entries fold_left].
  destruct (Nat.leb_spec (length (pre ++ entry_words e ++ rows es)) (length pre)) as [Hle|_].
  { rewrite !length_app in Hle. cbn in Hle. lia. }
  rewrite entry_at_app by done. cbn [mbind option_bind].
  rewrite entry_header_type, entry_header_u64s by done. unfold jset_u64s.
  set (actual := Z.to_nat (1 + _)). assert (actual = length (entry_words e)) as Ea by (unfold actual; cbn; lia).
  rewrite Ea. cbn [length entry_words]. rewrite (proj2 (Nat.eqb_neq _ 0)) by lia. cbn [orb]. clear actual Ea.
  destruct (Nat.ltb_spec (length (pre ++ entry_words e ++ rows es)) (length pre + S (length (e_payload e)))) as [Hlt|_].
  { rewrite !length_app in Hlt. cbn in Hlt. lia. }
  assert (Hnext : forall roots', length roots' = BTREE_ID_NR ->
    check_entries fuel (pre ++ entry_words e ++ rows es) (length pre + S (length (e_payload e))) (length (pre ++ entry_words e ++ rows es)) roots' =
    Some (0, pre ++ entry_words e ++ rows es, fold_left entry_root es roots')).
  { intros roots' Hr'. specialize (IH fuel (pre ++ entry_words e) roots' ltac:(lia) Hr'). rewrite length_app in IH. cbn [length entry_words] in IH.
    rewrite <- !app_assoc in IH. exact IH. }
  unfold entry_root at 2. destruct (Z.eqb_spec (e_type e) BCH_JSET_ENTRY_btree_keys) as [Ek|Ek].
  - destruct (Hkeys Ek) as (ks & Ep & Hks). rewrite keys_validate_spec. cbn zeta. rewrite Ep, kept_chunks, Nat.sub_diag by done.
    rewrite app_nil_r, <- Ep. cbn [mbind option_bind]. rewrite put_entry_same by done. cbn [mbind option_bind].
    rewrite Hnext by done. rewrite Ek. change (BCH_JSET_ENTRY_btree_keys =? BCH_JSET_ENTRY_btree_root) with false. done.
  - destruct (Z.eqb_spec (e_type e) BCH_JSET_ENTRY_btree_root) as [Er|Er]; [|by apply Hnext].
    destruct (Hroot Er) as (H1 & H2 & H3 & H4 & H5 & H6 & H7). unfold journal_entry_btree_root_validate.
    rewrite H1, Z.eqb_refl, entry_header_id, entry_header_level, H5, H6, Nat2Z.id by done.
    rewrite !Z.eqb_refl. rewrite (proj2 (Nat.eqb_neq _ 0)) by lia. cbn [orb negb].
    destruct (Z.leb_spec (Z.of_nat BTREE_ID_NR) (e_id e)); [lia|]. destruct (Z.leb_spec BTREE_MAX_DEPTH (e_level e)); [lia|].
    destruct (Nat.ltb_spec (BKEY_WORDS + BKEY_BTREE_PTR_VAL_U64S_MAX) (length (e_payload e))); [lia|].
    rewrite put_entry_same by done. cbn [mbind option_bind]. change (negb (0 =? 0)) with false. cbn iota.
    rewrite (proj2 (Nat.eqb_neq _ 0)) by lia. unfold bch2_journal_entry_to_btree_root.
    rewrite entry_header_id, entry_header_level, H6, H1, Nat2Z.id, Z.eqb_refl by done.
    rewrite (proj2 (Z.ltb_lt _ _)) by done. cbn [assert mbind option_bind]. rewrite take_ge by done.
    apply Hnext. by rewrite length_insert.
Qed.

(** ** Keys into the overlay *)

Lemma insert_app ks b l k rest : insertable_key k ->
  bch2_journal_key_insert ks b l (k ++ rest) = bch2_journal_key_insert ks b l k.
Proof.
  intros [_ Hu]. unfold BKEY_U64S in Hu. assert (k <> []) as Hne by (intros ->; cbn in Hu; lia).
  assert (unpacked_pos (k ++ rest) = unpacked_pos k) as Ep.
  { unfold unpacked_pos, word. f_equal; [| |f_equal]; apply app_nth1; lia. }
  unfold bch2_journal_key_insert. rewrite kp_u64s_app, Ep by done. rewrite take_app_le by lia.
  rewrite (proj2 (Nat.leb_le (Z.to_nat (kp_u64s k)) (length k))) by lia.
  by rewrite (proj2 (Nat.leb_le (Z.to_nat (kp_u64s k)) (length (k ++ rest)))) by (rewrite length_app; lia).
Qed.

Definition key_op (x : Z * Z * list Z) : jk_op := JK_insert x.1.1 x.1.2 x.2.

Lemma jk_insert_run ks b l k ks' : keys_ok ks -> in_range 8 b -> in_range 8 l -> insertable_key k ->
  Z.of_nat (length (keys_data ks)) + 3 <= 2 ^ 32 ->
  jk_apply (JK_insert b l k) ks = Some ks' <-> bch2_journal_key_insert ks b l k = Some (0, ks').
Proof.
  intros Hok Hb Hl Hk Hs. cbn [jk_apply].
  destruct (journal_key_insert_spec ks b l k Hok Hb Hl Hk Hs) as (ks1 & -> & _). cbn [mbind option_bind].
  split; congruence.
Qed.

(** Running the insertions of [xs] takes [ks] to [ks']. *)
Definition inserts (xs : list (Z * Z * list Z)) (ks ks' : journal_keys) : Prop :=
  jk_run (key_op <$> xs) ks = Some ks' /\ keys_ok ks' /\
  (length (keys_data ks') <= length (keys_data ks) + length xs)%nat.

Lemma inserts_nil ks : keys_ok ks -> inserts [] ks ks.
Proof. intros H. split_and!; [done..|lia]. Qed.

Lemma jk_run_app a b ks : jk_run (a ++ b) ks = (ks' ← jk_run a ks; jk_run b ks').
Proof.
  revert ks. induction a as [|o a IH]; intros ks; [done|]. cbn [app jk_run]. destruct (jk_apply o ks); cbn [mbind option_bind]; [|done]. apply IH.
Qed.

Lemma inserts_app xs ys ks ks1 ks2 : inserts xs ks ks1 -> inserts ys ks1 ks2 -> inserts (xs ++ ys) ks ks2.
Proof.
  intros (E1 & _ & L1) (E2 & H2 & L2). split_and!; [|done|rewrite length_app; lia].
  rewrite fmap_app, jk_run_app, E1. done.
Qed.

Definition room (n : nat) (ks : journal_keys) : Prop := Z.of_nat (length (keys_data ks) + n) + 3 <= 2 ^ 32.

Lemma overlay_keys_spec fuel w b l cs pre rest ks : Forall key_chunk cs -> entry_btree_id w = b -> entry_level w = l ->
  in_range 8 b -> in_range 8 l -> entry_u64s w = Z.of_nat (length pre + length (concat cs)) -> (length cs <= fuel)%nat -> keys_ok ks ->
  room (length cs) ks ->
  exists ks', overlay_keys fuel w (pre ++ concat cs ++ rest) (length pre) ks = Some (0, ks') /\
    inserts ((fun k => (b, l, k)) <$> cs) ks ks'.
Proof.
  intros Hcs Eb El Hb Hl. revert fuel pre ks. induction Hcs as [|c cs Hc Hcs IH]; intros fuel pre ks Ew Hf Hok Hroom.
  { exists ks. split; [|by apply inserts_nil]. cbn [concat length] in Ew.
    destruct fuel; cbn [overlay_keys]; rewrite Ew, Nat2Z.id; by rewrite (proj2 (Nat.leb_le _ _)) by lia. }
  destruct fuel as [|fuel]; [cbn in Hf; lia|]. cbn [length] in Hf. destruct Hc as (Hins & Hku & Hcur).
  pose proof Hins as [_ Hlen]. unfold BKEY_U64S in Hlen. rewrite Hku in Hlen.
  assert (c <> []) as Hne by (intros ->; cbn in Hlen; lia).
  cbn [concat] in Ew |- *. rewrite length_app in Ew. cbn [overlay_keys]. rewrite Ew, Nat2Z.id.
  destruct (Nat.leb_spec (length pre + (length c + length (concat cs))) (length pre)); [lia|].
  rewrite <- app_assoc, drop_app_length, kp_u64s_app, Hku, Nat2Z.id by done. change (Z.to_nat BKEY_U64S) with 5%nat.
  rewrite !(proj2 (Nat.ltb_ge _ _)) by lia. cbn [orb]. rewrite insert_app, Eb, El by done.
  unfold room in Hroom. cbn [length] in Hroom.
  destruct (journal_key_insert_spec ks b l c Hok Hb Hl Hins) as (ks1 & E & Hok1 & Hl1 & _); [lia|].
  rewrite E. cbn [mbind option_bind]. change (negb (0 =? 0)) with false. cbn iota.
  destruct (IH fuel (pre ++ c) ks1) as (ks2 & E2 & H2); [rewrite length_app, Ew; lia|lia|done|unfold room; lia|].
  exists ks2. split; [rewrite <- E2, length_app, <- !app_assoc; done|].
  change ((fun k => (b, l, k)) <$> c :: cs) with ([(b, l, c)] ++ ((fun k => (b, l, k)) <$> cs)).
  apply (inserts_app _ _ _ ks1); [|done]. split_and!; [|done|cbn; lia].
  cbn [fmap list_fmap key_op jk_run jk_apply fst snd]. by rewrite E.
Qed.

Definition entries_keys (es : list entry) : list (Z * Z * list Z) := es ≫= entry_keys.

Lemma entry_keys_chunks e ks : e_type e = BCH_JSET_ENTRY_btree_keys -> e_payload e = concat ks -> Forall key_chunk ks ->
  entry_keys e = (fun k => (e_id e, e_level e, k)) <$> ks.
Proof. intros Et Ep Hks. unfold entry_keys. by rewrite Et, Z.eqb_refl, Ep, kept_chunks. Qed.

Lemma chunks_length ks : Forall key_chunk ks -> (length ks <= length (concat ks))%nat.
Proof.
  induction 1 as [|k ks ((_ & H) & _) _ IH]; [done|]. cbn [concat length]. rewrite length_app. unfold BKEY_U64S in H. lia.
Qed.

Lemma overlay_entries_rows fuel pre es ks : Forall replay_entry_ok es -> (length es <= fuel)%nat -> keys_ok ks ->
  room (length (entries_keys es)) ks ->
  exists ks', overlay_entries fuel (pre ++ rows es) (length pre) (length (pre ++ rows es)) ks = Some (0, ks') /\
    inserts (entries_keys es) ks ks'.
Proof.
  intros Hes. revert fuel pre ks. induction Hes as [|e es He Hes IH]; intros fuel pre ks Hf Hok Hroom.
  { exists ks. split; [|by apply inserts_nil]. cbn [rows]. rewrite app_nil_r. destruct fuel; cbn [overlay_entries]; by rewrite Nat.leb_refl. }
  destruct fuel as [|fuel]; [cbn in Hf; lia|]. cbn [length] in Hf. destruct He as (He & Hkeys & _).
  change (rows (e :: es)) with (entry_words e ++ rows es). cbn [overlay_entries].
  change (entries_keys (e :: es)) with (entry_keys e ++ entries_keys es) in Hroom |- *.
  destruct (Nat.leb_spec (length (pre ++ entry_words e ++ rows es)) (length pre)) as [Hle|_].
  { rewrite !length_app in Hle. cbn in Hle. lia. }
  rewrite entry_at_app by done. cbn [mbind option_bind].
  rewrite entry_header_type, entry_header_u64s by done. unfold jset_u64s.
  replace (Z.to_nat (1 + Z.of_nat (length (e_payload e)))) with (S (length (e_payload e))) by lia.
  rewrite (proj2 (Nat.eqb_neq _ 0)) by lia. cbn [orb].
  destruct (Nat.ltb_spec (length (pre ++ entry_words e ++ rows es)) (length pre + S (length (e_payload e)))) as [Hlt|_].
  { rewrite !length_app in Hlt. cbn in Hlt. lia. }
  unfold room in Hroom. rewrite length_app in Hroom.
  assert (Hnext : forall ks1, inserts (entry_keys e) ks ks1 -> exists ks',
    overlay_entries fuel (pre ++ entry_words e ++ rows es) (length pre + S (length (e_payload e))) (length (pre ++ entry_words e ++ rows es)) ks1 = Some (0, ks') /\
    inserts (entry_keys e ++ entries_keys es) ks ks').
  { intros ks1 H1. pose proof H1 as (_ & Hok1 & Hl1).
    destruct (IH fuel (pre ++ entry_words e) ks1) as (ks2 & E2 & H2); [lia|done|unfold room; lia|].
    exists ks2. split; [|by apply (inserts_app _ _ _ ks1)]. rewrite length_app in E2. cbn [length entry_words] in E2.
    rewrite <- !app_assoc in E2. exact E2. }
  destruct (Z.eqb_spec (e_type e) BCH_JSET_ENTRY_btree_keys) as [Ek|Ek].
  - destruct (Hkeys Ek) as (cs & Ep & Hcs). pose proof (entry_keys_chunks e cs Ek Ep Hcs) as Eek.
    rewrite Eek, length_fmap in Hroom. pose proof He as (_ & Hid & Hlv & _).
    destruct (overlay_keys_spec (Z.to_nat (Z.of_nat (length (e_payload e)))) (entry_header e) (e_id e) (e_level e) cs [] (rows es) ks) as (ks1 & E1 & H1).
    + done.
    + by apply entry_header_id.
    + by apply entry_header_level.
    + done.
    + done.
    + rewrite entry_header_u64s by done. by rewrite Ep.
    + rewrite Nat2Z.id, Ep. by apply chunks_length.
    + done.
    + unfold room. lia.
    + cbn [length app] in E1. rewrite <- Ep in E1.
      assert (drop (S (length pre)) (pre ++ entry_words e ++ rows es) = e_payload e ++ rows es) as ->.
      { cbn [entry_words app]. rewrite cons_middle, app_assoc. apply drop_app_length'. rewrite length_app. cbn. lia. }
      rewrite E1. cbn [mbind option_bind]. change (negb (0 =? 0)) with false. cbn iota. apply Hnext. by rewrite Eek.
  - assert (entry_keys e = []) as Ee by (unfold entry_keys; by rewrite (proj2 (Z.eqb_neq _ _) Ek)).
    apply Hnext. rewrite Ee. by apply inserts_nil.
Qed.

Lemma rows_len_ge es : (length es <= length (rows es))%nat.
Proof. induction es as [|e es IH]; [done|]. change (rows (e :: es)) with (entry_words e ++ rows es). rewrite length_app. cbn. lia. Qed.

Definition rr_pair (x : rrecord) : Z * list Z := (rr_seq x, rr_words x).

Lemma rr_words_split x : rrecord_ok x -> rr_words x = take 7 (rr_words x) ++ rows (rr_entries x) /\ length (take 7 (rr_words x)) = 7%nat.
Proof. intros Hx. rewrite <- (ro_rows _ Hx), take_drop. split; [done|]. rewrite length_take, (ro_len _ Hx). lia. Qed.

Definition replay_roots (l : list rrecord) (roots : list (option btree_root)) : list (option btree_root) :=
  fold_left (fun roots x => fold_left entry_root (rr_entries x) roots) l roots.

Definition replay_keys (l : list rrecord) : list (Z * Z * list Z) := l ≫= fun x => entries_keys (rr_entries x).

Lemma entry_root_length es roots : length (fold_left entry_root es roots) = length roots.
Proof.
  revert roots. induction es as [|e es IH]; intros roots; [done|]. cbn [fold_left]. rewrite IH. unfold entry_root.
  destruct (_ =? _); [by rewrite length_insert|done].
Qed.

Lemma check_selected_spec l roots : Forall rrecord_ok l -> length roots = BTREE_ID_NR ->
  check_selected (rr_pair <$> l) roots = Some (0, rr_pair <$> l, replay_roots l roots).
Proof.
  intros Hl. revert roots. induction Hl as [|x l Hx Hl IH]; intros roots Hr; [done|].
  destruct (rr_words_split x Hx) as [Ew E7]. cbn [fmap list_fmap check_selected rr_pair replay_roots fold_left].
  rewrite rrecord_end by done. change (Z.to_nat JSET_HEADER_U64S) with 7%nat.
  assert (check_entries (length (rr_words x)) (rr_words x) 7 (length (rr_words x)) roots =
          Some (0, rr_words x, fold_left entry_root (rr_entries x) roots)) as ->.
  { rewrite Ew at 2 3 4. rewrite <- E7 at 2. apply check_entries_rows; [apply Hx| |done].
    rewrite (ro_len _ Hx). pose proof (rows_len_ge (rr_entries x)). lia. }
  cbn [mbind option_bind]. change (negb (0 =? 0)) with false. cbn iota. fold (rr_pair <$> l).
  change (list_fmap _ _ rr_pair l) with (rr_pair <$> l). rewrite IH by by rewrite entry_root_length. done.
Qed.

Lemma overlay_records_spec l ks : Forall rrecord_ok l -> keys_ok ks -> room (length (replay_keys l)) ks ->
  exists ks', overlay_records (rr_pair <$> l) ks = Some (0, ks') /\ inserts (replay_keys l) ks ks'.
Proof.
  intros Hl. revert ks. induction Hl as [|x l Hx Hl IH]; intros ks Hok Hroom.
  { exists ks. split; [done|by apply inserts_nil]. }
  destruct (rr_words_split x Hx) as [Ew E7]. change (replay_keys (x :: l)) with (entries_keys (rr_entries x) ++ replay_keys l) in *.
  unfold room in Hroom. rewrite length_app in Hroom.
  destruct (overlay_entries_rows (length (rr_words x)) (take 7 (rr_words x)) (rr_entries x) ks) as (ks1 & E1 & H1).
  { apply Hx. } { rewrite (ro_len _ Hx). pose proof (rows_len_ge (rr_entries x)). lia. } { done. } { unfold room. lia. }
  rewrite <- Ew, E7 in E1. pose proof H1 as (_ & Hok1 & Hl1).
  destruct (IH ks1) as (ks2 & E2 & H2); [done|unfold room; lia|]. exists ks2. split; [|by apply (inserts_app _ _ _ ks1)].
  cbn [fmap list_fmap overlay_records rr_pair]. rewrite rrecord_end by done. change (Z.to_nat JSET_HEADER_U64S) with 7%nat.
  rewrite E1. cbn [mbind option_bind]. change (negb (0 =? 0)) with false. cbn iota.
  change (list_fmap _ _ rr_pair l) with (rr_pair <$> l). done.
Qed.

(** ** The window *)

(** Records with consecutive numbers from [s]. *)
Fixpoint consecutive (s : Z) (l : list rrecord) : Prop :=
  match l with [] => True | x :: l' => rr_seq x = s /\ consecutive (s + 1) l' end.

Lemma consecutive_bounds s l x : consecutive s l -> x ∈ l -> s <= rr_seq x < s + Z.of_nat (length l).
Proof.
  revert s. induction l as [|y l IH]; intros s; cbn [consecutive length]; [by intros _ ?%not_elem_of_nil|].
  intros [<- Hl] [->|Hx]%elem_of_cons; [lia|]. specialize (IH _ Hl Hx). lia.
Qed.

Lemma consecutive_drop s l n : consecutive s l -> consecutive (s + Z.of_nat n) (drop n l).
Proof.
  revert s n. induction l as [|y l IH]; intros s n; [by rewrite drop_nil|]. intros [Hy Hl]. destruct n as [|n].
  - rewrite Z.add_0_r. cbn [drop]. by split.
  - cbn [drop]. replace (s + Z.of_nat (S n)) with (s + 1 + Z.of_nat n) by lia. by apply IH.
Qed.

Lemma insert_by_seq_end x l : (forall y, y ∈ l -> y.1 <= x.1) -> insert_by_seq x l = l ++ [x].
Proof.
  induction l as [|y l IH]; intros H; [done|]. cbn [insert_by_seq app]. rewrite (proj2 (Z.leb_le _ _)) by (apply H; by left).
  rewrite IH; [done|]. intros z Hz. apply H. by right.
Qed.

Lemma sort_by_seq_sorted s l acc : consecutive s l -> (forall y, y ∈ acc -> y.1 < s) ->
  fold_left (fun acc x => insert_by_seq x acc) (rr_pair <$> l) acc = acc ++ (rr_pair <$> l).
Proof.
  revert s acc. induction l as [|x l IH]; intros s acc; [by rewrite app_nil_r|]. intros [Hx Hl] Ha. cbn [fmap list_fmap fold_left].
  change (list_fmap _ _ rr_pair l) with (rr_pair <$> l).
  rewrite insert_by_seq_end by (intros y Hy; specialize (Ha y Hy); cbn; lia). rewrite (IH (s + 1)), <- app_assoc; [done|done|].
  intros y [Hy|Hy%list_elem_of_singleton]%elem_of_app; [specialize (Ha y Hy); lia|]. subst y. cbn. lia.
Qed.

Lemma unique_sorted s l last : consecutive s l -> (forall y, last = Some y -> y.1 < s) ->
  replay_unique last (rr_pair <$> l) = Some (rr_pair <$> l).
Proof.
  revert s last. induction l as [|x l IH]; intros s last; [done|]. intros [Hx Hl] Ha. cbn [fmap list_fmap replay_unique].
  change (list_fmap _ _ rr_pair l) with (rr_pair <$> l).
  assert (replay_unique (Some (rr_pair x)) (rr_pair <$> l) = Some (rr_pair <$> l)) as E.
  { apply (IH (s + 1)); [done|]. intros y [= <-]. cbn. lia. }
  destruct last as [y|]; rewrite E; [|done]. specialize (Ha y eq_refl). cbn [rr_pair fst]. by rewrite (proj2 (Z.eqb_neq _ _)) by lia.
Qed.

Lemma window_drop s l lo hi : consecutive s l -> s + Z.of_nat (length l) <= hi + 1 ->
  List.filter (fun x => (lo <=? x.1) && (x.1 <=? hi)) (rr_pair <$> l) = rr_pair <$> drop (Z.to_nat (lo - s)) l.
Proof.
  revert s. induction l as [|x l IH]; intros s; [by rewrite drop_nil|]. intros [Hx Hl] Hb. cbn [length] in Hb.
  cbn [fmap list_fmap List.filter]. change (list_fmap _ _ rr_pair l) with (rr_pair <$> l). rewrite (IH (s + 1)) by (done || lia). cbn [rr_pair fst].
  rewrite (proj2 (Z.leb_le (rr_seq x) hi)), andb_true_r by lia. destruct (Z.leb_spec lo (rr_seq x)).
  - replace (Z.to_nat (lo - s)) with 0%nat by lia. by replace (Z.to_nat (lo - (s + 1))) with 0%nat by lia.
  - replace (Z.to_nat (lo - s)) with (S (Z.to_nat (lo - (s + 1)))) by lia. done.
Qed.

Lemma replay_contiguous_spec s l : consecutive s l -> s + Z.of_nat (length l) < 2 ^ 64 ->
  replay_contiguous s (rr_pair <$> l) = Some (s + Z.of_nat (length l)).
Proof.
  revert s. induction l as [|x l IH]; intros s; [intros; cbn; f_equal; lia|]. intros [Hx Hl] Hb. cbn [length] in Hb |- *.
  cbn [fmap list_fmap replay_contiguous rr_pair]. change (list_fmap _ _ rr_pair l) with (rr_pair <$> l).
  rewrite Hx, Z.eqb_refl. cbn [negb]. rewrite (proj2 (Z.leb_gt _ _)) by lia. rewrite IH by (done || lia). f_equal. lia.
Qed.

Lemma replay_check_spec l : Forall rrecord_ok l -> (forall x, x ∈ l -> 0 < rr_seq x <= JOURNAL_SEQ_MAX) ->
  replay_check (rr_words <$> l) = Some (rr_pair <$> l).
Proof.
  intros Hl. induction Hl as [|x l Hx Hl IH]; intros Hs; [done|]. cbn [fmap list_fmap replay_check].
  change (list_fmap _ _ rr_words l) with (rr_words <$> l). rewrite IH by (intros y Hy; apply Hs; by right).
  destruct (Hs x ltac:(by left)) as [H1 H2]. unfold replay_record_valid.
  rewrite (ro_magic _ Hx), (ro_seq _ Hx), (ro_u64s _ Hx), (ro_len _ Hx), Z.eqb_refl.
  rewrite Z.mod_small by (pose proof (ro_small _ Hx); lia). unfold JSET_HEADER_U64S.
  rewrite (proj2 (Z.ltb_ge _ _)), (proj2 (Z.eqb_neq _ _)), (proj2 (Z.ltb_ge _ _)), (proj2 (Z.ltb_ge _ _)) by lia. cbn [negb orb mbind option_bind].
  change (list_fmap _ _ rr_pair l) with (rr_pair <$> l). done.
Qed.

(** The records from the [last_seq] of the newest one on. *)
Definition replay_window (s : Z) (front : list rrecord) (z : rrecord) : list rrecord :=
  drop (Z.to_nat (Z.min (rr_last z) (rr_seq z) - s)) (front ++ [z]).

Lemma replay_select_spec s front z : Forall rrecord_ok (front ++ [z]) -> consecutive s (front ++ [z]) -> 0 < s ->
  s + Z.of_nat (length front) <= JOURNAL_SEQ_MAX ->
  replay_select (rr_words <$> front ++ [z]) = inr (rr_pair <$> replay_window s front z).
Proof.
  intros Hok Hc Hs Hmax. unfold replay_select. set (l := front ++ [z]) in *.
  assert (length l = S (length front)) as Hl by (unfold l; rewrite length_app; cbn; lia).
  rewrite replay_check_spec; [|done|intros x Hx; pose proof (consecutive_bounds s l x Hc Hx); lia].
  unfold sort_by_seq. rewrite (sort_by_seq_sorted s l []) by (done || (intros y Hy; by apply not_elem_of_nil in Hy)). cbn [app].
  rewrite (unique_sorted s l None) by done.
  assert (rr_seq z = s + Z.of_nat (length front)) as Ez.
  { pose proof (consecutive_drop s l (length front) Hc) as Hd. unfold l in Hd. rewrite drop_app_length in Hd. by destruct Hd. }
  assert (rrecord_ok z) as Hz by (rewrite Forall_forall in Hok; apply Hok; unfold l; apply elem_of_app; right; by left).
  assert (rev (rr_pair <$> l) = rr_pair z :: rev (rr_pair <$> front)) as -> by (unfold l; by rewrite fmap_app, rev_app_distr).
  cbn [List.find rr_pair snd]. rewrite (ro_flush _ Hz), Z.eqb_refl. cbn iota.
  unfold rr_pair at 1. cbn iota beta. rewrite (ro_last _ Hz).
  rewrite (window_drop s) by (done || lia). set (m := Z.min (rr_last z) (rr_seq z)). unfold replay_window. fold l m.
  set (k := Z.to_nat (m - s)). pose proof (consecutive_drop s l k Hc) as Hd.
  pose proof (length_drop l k) as Hld. assert (k <= length front)%nat as Hk by (unfold k, m; lia).
  destruct (drop k l) as [|x r] eqn:Edrop; [cbn in Hld; lia|]. cbn [fmap list_fmap]. change (list_fmap _ _ rr_pair r) with (rr_pair <$> r).
  unfold rr_pair at 1. destruct Hd as [Hx Hr]. rewrite Hx. change (rr_pair x :: (rr_pair <$> r)) with (rr_pair <$> x :: r).
  unfold JOURNAL_SEQ_MAX in Hmax.
  rewrite replay_contiguous_spec by (by split || lia). rewrite Hld.
  replace (s + Z.of_nat k + Z.of_nat (length l - k)) with (rr_seq z + 1) by lia.
  rewrite Z.min_l by (unfold MAX; lia). by rewrite Z.eqb_refl.
Qed.

Lemma fold_inserts xs (m : jk_map) b l p :
  fold_left (fun m o => jk_apply_map o m) (key_op <$> xs) m b l p =
  match last (filter (fun x : Z * Z * list Z => b = x.1.1 /\ l = x.1.2 /\ p = unpacked_pos x.2) xs) with
  | Some x => Some (key_copy x.2, false)
  | None => m b l p
  end.
Proof.
  induction xs as [|x xs IH] using rev_ind; [done|]. rewrite fmap_app, fold_left_app, filter_app. cbn [fmap list_fmap fold_left].
  cbn [key_op jk_apply_map]. rewrite filter_cons, filter_nil. case_decide as Hd; [by rewrite last_snoc|by rewrite app_nil_r].
Qed.

Lemma replay_keys_ok l : Forall rrecord_ok l -> Forall jk_op_ok (key_op <$> replay_keys l).
Proof.
  intros Hl. apply Forall_fmap, Forall_forall. intros y (x & Hy & Hx)%list_elem_of_bind.
  rewrite Forall_forall in Hl. pose proof (ro_entries _ (Hl x Hx)) as Hes. rewrite Forall_forall in Hes.
  apply list_elem_of_bind in Hy as (e & Hy & He). destruct (Hes e He) as (Heok & Hkeys & _). unfold entry_keys in Hy.
  destruct (Z.eqb_spec (e_type e) BCH_JSET_ENTRY_btree_keys) as [Et|_]; [|by apply not_elem_of_nil in Hy].
  destruct (Hkeys Et) as (cs & Ep & Hcs). rewrite Ep, kept_chunks in Hy by done.
  apply list_elem_of_fmap in Hy as (c & -> & Hc). rewrite Forall_forall in Hcs. split_and!; apply Heok || by apply Hcs.
Qed.

(** C10: Replay puts the last key of every position into the overlay: from records
    with consecutive numbers, as the journal was read, the window starts at
    the [last_seq] of the newest record; its entries are left as they are,
    the last root of every btree is installed, and a lookup in the overlay
    gives the key that the newest record, and there the last entry, holds
    for the position. *)
Theorem journal_replay_overlay s front z roots ks0 : Forall rrecord_ok (front ++ [z]) -> consecutive s (front ++ [z]) -> 0 < s ->
  s + Z.of_nat (length front) <= JOURNAL_SEQ_MAX -> length roots = BTREE_ID_NR ->
  let window := replay_window s front z in
  Z.of_nat (length (replay_keys window)) + 3 <= 2 ^ 32 ->
  exists ks, replay_prepare (rr_words <$> front ++ [z]) roots ks0 =
               Some (inr (rr_pair <$> window, replay_roots window roots, ks)) /\ keys_ok ks /\
    forall b l p, overlay ks b l p =
      (fun x => (key_copy x.2, false)) <$>
        last (filter (fun x : Z * Z * list Z => b = x.1.1 /\ l = x.1.2 /\ p = unpacked_pos x.2) (replay_keys window)).
Proof.
  intros Hok Hc Hs Hmax Hr window Hroom. unfold replay_prepare. rewrite (replay_select_spec s) by done. fold window.
  assert (Forall rrecord_ok window) as Hw by (by apply Forall_drop). rewrite check_selected_spec by done. cbn [mbind option_bind].
  change (negb (0 =? 0)) with false. cbn iota.
  destruct (overlay_records_spec window journal_keys_default) as (ks & E & Hins); [done|apply keys_ok_default|unfold room; cbn; lia|].
  change (bch2_journal_keys_clear ks0) with journal_keys_default. rewrite E. cbn [mbind option_bind]. change (negb (0 =? 0)) with false. cbn iota.
  exists ks. split; [done|]. destruct Hins as (Erun & Hkok & _). split; [done|]. intros b l p.
  destruct (jk_run_spec (key_op <$> replay_keys window) journal_keys_default (fun _ _ _ => None)) as (ks' & E' & _ & Hov);
    [by apply replay_keys_ok|apply keys_ok_default|rewrite length_fmap; cbn; lia|done|].
  rewrite Erun in E'. injection E' as <-. rewrite Hov, fold_inserts. by destruct (last _).
Qed.

(** Checking a keys entry ends for every content: the keys in the current
    format that stand in front of the first malformed one are kept, in order,
    moved together at the start; what is behind them becomes empty entries. *)
Theorem journal_keys_validate_repairs payload :
  let kept := concat (kept_keys payload) in
  journal_entry_btree_keys_validate payload = Some (length kept, kept ++ replicate (length payload - length kept) 0) /\
  Forall (fun k => current k /\ (1 <= length k)%nat /\ kp_u64s k = Z.of_nat (length k)) (kept_keys payload) /\
  (length kept <= length payload)%nat /\
  (forall ks, payload = concat ks -> Forall key_chunk ks -> journal_entry_btree_keys_validate payload = Some (length payload, payload)).
Proof.
  cbn zeta. split_and!; [apply keys_validate_spec| |apply kept_length|].
  - unfold kept_keys. remember (length payload) as m eqn:Em. revert payload Em. induction m as [m IH] using lt_wf_ind. intros ws ->.
    rewrite split_keys_step. cbn zeta. set (k := Z.to_nat _). destruct (_ || (_ <? k)%nat) eqn:E; [constructor|].
    rewrite !orb_false_iff in E. destruct E as [[_ Ek] El]. apply Nat.eqb_neq in Ek. apply Nat.ltb_ge in El. cbn [fst].
    assert (Forall (fun k => current k /\ (1 <= length k)%nat /\ kp_u64s k = Z.of_nat (length k))
              (filter current (split_keys (length (drop k ws)) (drop k ws)).1)) as Hrec
      by (apply (IH (length (drop k ws))); [rewrite length_drop; lia|done]).
    rewrite filter_cons. case_decide as Hc; [|done]. apply Forall_cons_2; [|done]. rewrite length_take. split_and!; [done|lia|].
    replace (kp_u64s (take k ws)) with (kp_u64s ws) by (destruct ws; [done|]; by destruct k).
    pose proof (Z.mod_pos_bound (word ws 0) (2 ^ 8) ltac:(lia)) as Hp. unfold k, kp_u64s in *. lia.
  - intros ks -> Hks. rewrite keys_validate_spec. cbn zeta. rewrite kept_chunks, Nat.sub_diag by done. by rewrite app_nil_r.
Qed.

Lemma journal_keys_validate_repairs_witness :
  journal_entry_btree_keys_validate (sample_jk 8 1 ++ [6; 0; 0; 0; 0; 0] ++ sample_jk 16 2 ++ [0; 0; 0; 0; 0; 0]) =
    Some (12%nat, sample_jk 8 1 ++ sample_jk 16 2 ++ replicate 12 0) /\
  journal_entry_btree_keys_validate (concat [sample_jk 8 1; sample_jk 16 2]) = Some (12%nat, concat [sample_jk 8 1; sample_jk 16 2]).
Proof.
  split; [exact (proj1 (journal_keys_validate_repairs _))|].
  apply (proj2 (proj2 (proj2 (journal_keys_validate_repairs (concat [sample_jk 8 1; sample_jk 16 2])))) [sample_jk 8 1; sample_jk 16 2]); [reflexivity|].
  repeat (apply Forall_cons_2; [split; [by apply sample_jk_ok|split; reflexivity]|]). constructor.
Defined.

Definition sample_replay_record (s last o v : Z) : rrecord :=
  let es := [mk_entry 0 1 0 (sample_jk o v ++ sample_jk 99 v)] in
  mk_rrecord (record_header s (Z.of_nat (length (rows es))) last ++ rows es) s last es.

Lemma sample_replay_record_ok s last o v : in_range 64 o -> in_range 64 v -> rrecord_ok (sample_replay_record s last o v).
Proof.
  intros Ho Hv. split; try (by cbn); try reflexivity.
  apply Forall_cons_2; [|constructor]. split_and!; [done| |done]. intros _.
  exists [sample_jk o v; sample_jk 99 v]. split; [reflexivity|].
  repeat (apply Forall_cons_2; [split; [by apply sample_jk_ok|split; reflexivity]|]). constructor.
Qed.

Lemma journal_replay_overlay_witness : exists ks,
  replay_prepare (rr_words <$> [sample_replay_record 5 3 8 1; sample_replay_record 6 6 8 2; sample_replay_record 7 6 16 3]) (replicate 9 None) journal_keys_default =
    Some (inr (rr_pair <$> [sample_replay_record 6 6 8 2; sample_replay_record 7 6 16 3], replicate 9 None, ks)) /\
  overlay ks 1 0 (SPOS 4096 8 1) = Some (sample_jk 8 2, false) /\ overlay ks 1 0 (SPOS 4096 99 1) = Some (sample_jk 99 3, false).
Proof.
  destruct (journal_replay_overlay 5 [sample_replay_record 5 3 8 1; sample_replay_record 6 6 8 2] (sample_replay_record 7 6 16 3)
              (replicate 9 None) journal_keys_default) as (ks & E & _ & Hov).
  - repeat (apply Forall_cons_2; [by apply sample_replay_record_ok|]). constructor.
  - cbn. tauto.
  - lia.
  - vm_compute. congruence.
  - reflexivity.
  - vm_compute. congruence.
  - exists ks. split; [exact E|]. rewrite !Hov. split; vm_compute; reflexivity.
Defined.
