(* ===== verification/BsetSort.v ===== *)
(** * Merging bsets ([btree/bset_build.rs])

    A [sort_iter] merges the keys of up to four ranges of a node's memory: it
    keeps the ranges in the order of their first keys.  On top of it, the
    functions that write the merged keys to another buffer: all live keys
    ([bch2_sort_keys]), the newest key of every position when a node is read
    ([bch2_key_sort_fix_overlapping]), and the whiteouts that are still needed
    when it is written ([bch2_sort_keys_keep_unwritten_whiteouts]).

    A pointer to a key is the offset of its first word, as in [NodeIter].  The
    functions return the words they write; the buffer is another allocation. *)

From stdpp Require Import base tactics list option sorting.
From Stdlib Require Import ZArith Lia.
From S2P Require Import Prelude Bpos BkeyPack BkeyOrder NodeIter BsetSearch BsetMem BsetTable BsetUpdate.

Open Scope Z_scope.

(** ** The iterator *)

Record sort_iter_set := mk_sort_set { si_k : Z; si_end : Z }.

(** [si_data] holds the sets in use; [si_size] is the room. *)
Record sort_iter := mk_sort_iter { si_size : nat; si_data : list sort_iter_set }.

Definition sort_iter_init (size : nat) : sort_iter := mk_sort_iter size [].
Definition sort_iter_stack_init : sort_iter := sort_iter_init (MAX_BSETS + 1).

Definition sort_iter_add (iter : sort_iter) (k end_ : Z) : option sort_iter :=
  _ ← assert (length (si_data iter) <? si_size iter)%nat;
  Some (if negb (k =? end_) then mk_sort_iter (si_size iter) (si_data iter ++ [mk_sort_set k end_]) else iter).

(** What [copy_nonoverlapping(k, out, k.u64s)] copies. *)
Definition key_words (b : btree) (k : Z) : list Z := take (Z.to_nat (kp_u64s (key_mem b k))) (key_mem b k).

Section SortIter.
Context (b : btree) (cmp : Z -> Z -> option Z).

(** Move the first set behind the ones that come before it. *)
Fixpoint sift (x : sort_iter_set) (rest : list sort_iter_set) : option (list sort_iter_set) :=
  match rest with
  | [] => Some [x]
  | y :: rest' =>
      c ← cmp (si_k x) (si_k y);
      if 0 <? c then r ← sift x rest'; Some (y :: r) else Some (x :: rest)
  end.

Definition sort_iter_sift (data : list sort_iter_set) (from : nat) : option (list sort_iter_set) :=
  match drop from data with
  | [] => Some data
  | x :: rest => r ← sift x rest; Some (take from data ++ r)
  end.

Fixpoint sort_loop (i : nat) (data : list sort_iter_set) : option (list sort_iter_set) :=
  match i with
  | O => Some data
  | S i => data ← sort_iter_sift data i; sort_loop i data
  end.

Definition sort_iter_sort (data : list sort_iter_set) : option (list sort_iter_set) := sort_loop (length data) data.

Definition sort_iter_peek (data : list sort_iter_set) : option Z :=
  match data with s :: _ => Some (si_k s) | [] => None end.

Definition sort_iter_advance (data : list sort_iter_set) : option (list sort_iter_set) :=
  match data with
  | [] => None
  | s :: rest =>
      k ← bkey_p_next b (si_k s);
      _ ← assert (k <=? si_end s);
      if k =? si_end s then Some rest else sort_iter_sift (mk_sort_set k (si_end s) :: rest) 0
  end.

Definition sort_iter_next (data : list sort_iter_set) : option (option Z * list sort_iter_set) :=
  match sort_iter_peek data with
  | None => Some (None, data)
  | Some k => data ← sort_iter_advance data; Some (Some k, data)
  end.
End SortIter.

(** Fuel for every key of the memory. *)
Definition sort_fuel (b : btree) : nat := S (4 * length (b_words b)).

(** ** The orders *)

(** [bch2_bkey_cmp_packed(b, l, r)]. *)
Definition cmp_keys (b : btree) (l r : Z) : option Z :=
  bch2_bkey_cmp_packed (b_format b) (b_nr_key_bits b) (key_mem b l) (key_mem b r).

Definition cmp_addr (l r : Z) : Z := if l <? r then -1 else if r <? l then 1 else 0.

Definition key_sort_fix_overlapping_cmp (b : btree) (l r : Z) : option Z :=
  ret ← cmp_keys b l r;
  Some (if negb (ret =? 0) then ret else cmp_addr l r).

Definition keep_unwritten_whiteouts_cmp (b : btree) (l r : Z) : option Z :=
  ret ← cmp_keys b l r;
  if negb (ret =? 0) then Some ret else
  let deleted := Z.b2z (bkey_deleted (key_mem b r)) - Z.b2z (bkey_deleted (key_mem b l)) in
  Some (if negb (deleted =? 0) then deleted else cmp_addr l r).

(** ** Writing merged keys *)

Fixpoint sort_keys_loop (fuel : nat) (b : btree) (data : list sort_iter_set) (out : list Z) : option (list Z) :=
  '(input, data) ← sort_iter_next b (cmp_keys b) data;
  match input with
  | None => Some out
  | Some k =>
      match fuel with
      | O => None
      | S fuel =>
          sort_keys_loop fuel b data (if bkey_deleted (key_mem b k) then out else out ++ key_words b k)
      end
  end.

Definition bch2_sort_keys (b : btree) (iter : sort_iter) : option (list Z) :=
  data ← sort_iter_sort (cmp_keys b) (si_data iter);
  sort_keys_loop (sort_fuel b) b data [].

(** The next key is a newer one for the same position. *)
Definition should_drop_next_key (b : btree) (data : list sort_iter_set) : option bool :=
  match data with
  | x :: y :: _ => c ← cmp_keys b (si_k x) (si_k y); Some (c =? 0)
  | _ => Some false
  end.

Fixpoint fix_overlapping_loop (fuel : nat) (b : btree) (data : list sort_iter_set) (out : list Z) (nr : btree_nr_keys)
    : option (list Z * btree_nr_keys) :=
  match sort_iter_peek data with
  | None => Some (out, nr)
  | Some k =>
      match fuel with
      | O => None
      | S fuel =>
          dropped ← (if bkey_deleted (key_mem b k) then Some true else should_drop_next_key b data);
          '(out, nr) ← (if dropped : bool then Some (out, nr)
                        else nr ← btree_keys_account_key nr 0 (key_words b k) 1; Some (out ++ key_words b k, nr));
          data ← sort_iter_advance b (key_sort_fix_overlapping_cmp b) data;
          fix_overlapping_loop fuel b data out nr
      end
  end.

(** The words of the bset written, and their accounting. *)
Definition bch2_key_sort_fix_overlapping (b : btree) (iter : sort_iter) : option (list Z * btree_nr_keys) :=
  data ← sort_iter_sort (key_sort_fix_overlapping_cmp b) (si_data iter);
  fix_overlapping_loop (sort_fuel b) b data [] nr_keys_default.

(** [unwritten] is [unwritten_whiteouts_start]. *)
Fixpoint keep_whiteouts_loop (fuel : nat) (b : btree) (unwritten : Z) (data : list sort_iter_set) (out : list Z)
    : option (list Z) :=
  '(input, data) ← sort_iter_next b (keep_unwritten_whiteouts_cmp b) data;
  match input with
  | None => Some out
  | Some k =>
      match fuel with
      | O => None
      | S fuel =>
          if bkey_deleted (key_mem b k) && (k <? unwritten) then keep_whiteouts_loop fuel b unwritten data out else
          same ← match sort_iter_peek data with
                 | Some next => c ← cmp_keys b k next; Some (c =? 0)
                 | None => Some false
                 end;
          keep_whiteouts_loop fuel b unwritten data (if same : bool then out else out ++ key_words b k)
      end
  end.

Definition bch2_sort_keys_keep_unwritten_whiteouts (b : btree) (unwritten : Z) (iter : sort_iter) : option (list Z) :=
  data ← sort_iter_sort (keep_unwritten_whiteouts_cmp b) (si_data iter);
  keep_whiteouts_loop (sort_fuel b) b unwritten data [].

(** ** Merging, for any order of keys *)

(** What merging needs of a comparison: on keys it compares numbers. *)
Class SortOrder (cmp : Z -> Z -> option Z) (is_key : Z -> Prop) (val : Z -> Z) : Prop := {
  so_cmp l r : is_key l -> is_key r -> exists c, cmp l r = Some c /\ (0 <? c) = (val r <? val l)
}.

Section Merge.
Context (b : btree) (cmp : Z -> Z -> option Z) (is_key : Z -> Prop) (val : Z -> Z) `{!SortOrder cmp is_key val}.

(** A set that is not empty, with its keys. *)
Record source_ok (p : sort_iter_set * list Z) : Prop := {
  so_ne : p.2 <> [];
  so_chain : chain b is_key (si_k p.1) (si_end p.1) p.2;
  so_sorted : StronglySorted (fun x y => val x <= val y) p.2
}.

Definition hd_val (p : sort_iter_set * list Z) : Z := match p.2 with x :: _ => val x | [] => 0 end.
Definition heads_sorted : list (sort_iter_set * list Z) -> Prop := StronglySorted (fun p q => hd_val p <= hd_val q).
Definition all_keys (D : list (sort_iter_set * list Z)) : list Z := concat D.*2.

Lemma source_head p : source_ok p -> exists x l, p.2 = x :: l /\ si_k p.1 = x /\ is_key x /\ hd_val p = val x.
Proof.
  intros [Hne Hc _]. unfold hd_val. destruct p as [s [|x l]]; [done|]. cbn [fst snd] in *. exists x, l.
  inversion Hc; subst. done.
Qed.

Lemma source_cmp p q : source_ok p -> source_ok q -> exists c, cmp (si_k p.1) (si_k q.1) = Some c /\ (0 <? c) = (hd_val q <? hd_val p).
Proof.
  intros Hp Hq. destruct (source_head p Hp) as (x & l & _ & -> & Hx & ->), (source_head q Hq) as (y & m & _ & -> & Hy & ->).
  by apply so_cmp.
Qed.

Lemma sift_spec p R : source_ok p -> Forall source_ok R -> heads_sorted R ->
  exists D, sift cmp p.1 R.*1 = Some D.*1 /\ D ≡ₚ p :: R /\ heads_sorted D.
Proof.
  intros Hp HR Hs. induction Hs as [|q R Hs IH Hq]; cbn [fmap list_fmap sift].
  { exists [p]. split_and!; [done..|by repeat constructor]. }
  apply Forall_cons_1 in HR as [Hqok HR]. destruct (source_cmp p q Hp Hqok) as (c & -> & Hc). cbn [mbind option_bind]. rewrite Hc.
  change (list_fmap _ _ fst R) with (R.*1).
  destruct (Z.ltb_spec (hd_val q) (hd_val p)) as [Hlt|Hge].
  - destruct (IH HR) as (D & -> & HD & HDs). cbn [mbind option_bind]. exists (q :: D). split_and!; [done|rewrite HD; constructor|].
    constructor; [done|]. rewrite HD. apply Forall_cons_2; [lia|done].
  - exists (p :: q :: R). split_and!; [done..|]. constructor; [by constructor|]. apply Forall_cons_2; [done|].
    eapply Forall_impl; [exact Hq|]. cbn. intros r Hr. lia.
Qed.

Lemma sort_iter_sort_spec D : Forall source_ok D ->
  exists D', sort_iter_sort cmp D.*1 = Some D'.*1 /\ D' ≡ₚ D /\ heads_sorted D'.
Proof.
  intros HD. unfold sort_iter_sort. rewrite length_fmap.
  assert (forall i S, (i <= length D)%nat -> S ≡ₚ drop i D -> heads_sorted S ->
    exists D', sort_loop cmp i (take i D ++ S).*1 = Some D'.*1 /\ D' ≡ₚ D /\ heads_sorted D') as H.
  2: { destruct (H (length D) []) as (D' & E & HP & Hs); [done|by rewrite drop_ge|constructor|].
       exists D'. rewrite take_ge, app_nil_r in E by done. done. }
  induction i as [|i IH]; intros S Hi HS Hsort; cbn [sort_loop].
  { exists S. cbn. split_and!; [done| |done]. by rewrite HS. }
  destruct (lookup_lt_is_Some_2 D i Hi) as [p Hp].
  assert (Forall source_ok S) as HSok by (rewrite HS; by apply Forall_drop).
  destruct (sift_spec p S) as (D1 & E1 & HP1 & Hs1); [exact (Forall_lookup_1 _ _ _ _ HD Hp)|done|done|].
  unfold sort_iter_sift. rewrite (take_S_r _ _ _ Hp), <- app_assoc, !fmap_app.
  rewrite drop_app_length' by (rewrite length_fmap, length_take; lia). cbn [fmap list_fmap app].
  change (list_fmap _ _ fst S) with (S.*1). rewrite E1. cbn [mbind option_bind].
  rewrite take_app_length' by (change (list_fmap _ _ fst (take i D)) with ((take i D).*1); rewrite length_fmap, length_take; lia).
  change (list_fmap _ _ fst (take i D)) with ((take i D).*1). rewrite <- fmap_app. apply IH; [lia| |done].
  by rewrite HP1, HS, (drop_S _ _ _ Hp).
Qed.

Lemma all_keys_perm D D' : D ≡ₚ D' -> all_keys D ≡ₚ all_keys D'.
Proof. intros H. unfold all_keys. apply concat_perm. by rewrite H. Qed.

(** The first key is the least, and advancing removes it. *)
Lemma advance_source s x l R : source_ok (s, x :: l) -> Forall source_ok R -> heads_sorted ((s, x :: l) :: R) ->
  exists D, sort_iter_advance b cmp (s :: R.*1) = Some D.*1 /\ Forall source_ok D /\ heads_sorted D /\
    all_keys D ≡ₚ l ++ all_keys R /\
    forall P : list Z -> Prop, P l -> Forall (fun p => P p.2) R -> Forall (fun p => P p.2) D.
Proof.
  intros Hp HR Hs. apply StronglySorted_inv in Hs as [Hs _]. destruct Hp as [_ Hc Hsort]. cbn [fst snd] in *.
  inversion Hc as [|? n e ? Hx Hu Hn Hle Hrest]; subst. unfold sort_iter_advance, bkey_p_next. rewrite Hu. cbn [mbind option_bind].
  rewrite (proj2 (Z.leb_le _ _)) by lia. cbn [assert mbind option_bind]. apply StronglySorted_inv in Hsort as [Hsort _].
  destruct (Z.eqb_spec (si_k s + n) (si_end s)) as [Heq|Hne].
  - rewrite Heq in Hrest. exists R. split; [done|]. split; [done|]. split; [done|]. split; [|done]. inversion Hrest as [|k n' ? ? ? ? ? Hle']; subst; [done|]. lia.
  - assert (source_ok (mk_sort_set (si_k s + n) (si_end s), l)) as Hq.
    { split; cbn [fst snd si_k si_end]; [|done..]. intros ->. inversion Hrest. lia. }
    destruct (sift_spec _ R Hq HR Hs) as (D & E & HP & HDs). unfold sort_iter_sift. cbn [drop]. cbn [fst] in E. rewrite E.
    cbn [mbind option_bind take app]. exists D. split; [done|]. split; [|split; [done|split]].
    + rewrite HP. by constructor.
    + by rewrite (all_keys_perm _ _ HP).
    + intros P Hl Hall. rewrite HP. by constructor.
Qed.

Lemma head_least p R : source_ok p -> Forall source_ok R -> heads_sorted (p :: R) -> Forall (fun y => hd_val p <= val y) (all_keys (p :: R)).
Proof.
  intros Hp HR Hs. apply StronglySorted_inv in Hs as [_ Hle].
  assert (forall q, source_ok q -> hd_val p <= hd_val q -> Forall (fun y => hd_val p <= val y) q.2) as Hone.
  { intros q Hq Hl. destruct (source_head q Hq) as (y & l & E & _ & _ & Ev). pose proof (so_sorted _ Hq) as Hsq. rewrite E in Hsq |- *.
    apply StronglySorted_inv in Hsq as [_ Hall]. apply Forall_cons_2; [lia|]. eapply Forall_impl; [exact Hall|]. cbn. intros; lia. }
  unfold all_keys. cbn [fmap list_fmap concat]. apply Forall_app_2; [apply Hone; [done|lia]|].
  clear Hp. induction Hle as [|q R Hq Hle IH]; [constructor|]. apply Forall_cons_1 in HR as [Hqok HR].
  cbn [fmap list_fmap concat]. apply Forall_app_2; [by apply Hone|by apply IH].
Qed.

(** The keys in the order in which they are taken. *)
Fixpoint sort_seq (fuel : nat) (data : list sort_iter_set) : option (list Z) :=
  '(input, data) ← sort_iter_next b cmp data;
  match input with
  | None => Some []
  | Some k => match fuel with O => None | S fuel => ks ← sort_seq fuel data; Some (k :: ks) end
  end.

Lemma sort_seq_spec fuel D : Forall source_ok D -> heads_sorted D -> (length (all_keys D) <= fuel)%nat ->
  exists ks, sort_seq fuel D.*1 = Some ks /\ StronglySorted (fun x y => val x <= val y) ks /\ ks ≡ₚ all_keys D.
Proof.
  revert D. induction fuel as [|fuel IH]; intros D HD Hs Hf; (destruct D as [|p R]; [by exists []; repeat constructor|]);
    pose proof HD as HD'; apply Forall_cons_1 in HD as [Hp HR]; destruct (source_head p Hp) as (x & l & El & Ek & Hx & Hv);
    destruct p as [s ks0]; cbn [fst snd] in *; subst ks0.
  { unfold all_keys in Hf. cbn in Hf. lia. }
  cbn [fmap list_fmap sort_seq fst]. change (list_fmap _ _ fst R) with (R.*1). unfold sort_iter_next. cbn [sort_iter_peek]. rewrite Ek.
  destruct (advance_source s x l R Hp HR Hs) as (D & E & HDok & HDs & HP & _). rewrite E. cbn [mbind option_bind].
  assert (all_keys ((s, x :: l) :: R) = x :: (l ++ all_keys R)) as Eall by done.
  destruct (IH D HDok HDs) as (ks & E2 & Hsort & HP2).
  { rewrite Eall in Hf. cbn [length] in Hf. apply Permutation_length in HP. rewrite HP. lia. }
  rewrite E2. cbn [mbind option_bind]. exists (x :: ks). split_and!; [done| |by rewrite HP2, HP].
  constructor; [done|]. rewrite HP2, HP. pose proof (head_least _ R Hp HR Hs) as Hle. rewrite Eall, Hv in Hle.
  by apply Forall_cons_1 in Hle as [_ Hle].
Qed.

(** Sorting and then taking every key. *)
Lemma merge_sources_spec fuel D : Forall source_ok D -> (length (all_keys D) <= fuel)%nat ->
  exists data ks, sort_iter_sort cmp D.*1 = Some data /\ sort_seq fuel data = Some ks /\
    StronglySorted (fun x y => val x <= val y) ks /\ ks ≡ₚ all_keys D.
Proof.
  intros HD Hf. destruct (sort_iter_sort_spec D HD) as (D' & E & HP & Hs).
  destruct (sort_seq_spec fuel D') as (ks & E2 & Hsort & HP2); [by rewrite HP|done|by rewrite (all_keys_perm _ _ HP)|].
  exists (D'.*1), ks. split_and!; [done..|]. by rewrite HP2, (all_keys_perm _ _ HP).
Qed.
End Merge.

(** ** The three orders *)

Definition pos_val (b : btree) (k : Z) : Z := bpos_val (key_pos b k).
Definition addr_val (b : btree) (k : Z) : Z := pos_val b k * 2 ^ 16 + k.

Lemma cmp_keys_spec b l r : node_wf b -> node_key b l -> node_key b r ->
  cmp_keys b l r = Some (cmp_sign (pos_val b l ?= pos_val b r)).
Proof.
  intros [Hf Hn] (_ & kl & Hl) (_ & kr & Hr). unfold cmp_keys, pos_val, key_pos. rewrite Hn, (cmp_packed_spec _ _ _ kl kr Hf Hl Hr).
  rewrite (unpack_pos_spec _ _ kl Hf Hl), (unpack_pos_spec _ _ kr Hf Hr). cbn [default from_option id].
  rewrite bpos_cmp_val; [done|apply Hl|apply Hr].
Qed.

Lemma cmp_addr_spec l r : (0 <? cmp_addr l r) = (r <? l).
Proof. unfold cmp_addr. destruct (Z.ltb_spec l r), (Z.ltb_spec r l); try done; lia. Qed.

#[export] Instance sort_keys_order b (Hb : node_wf b) : SortOrder (cmp_keys b) (node_key b) (pos_val b).
Proof.
  split. intros l r Hl Hr. eexists. split; [by apply cmp_keys_spec|].
  destruct (Z.compare_spec (pos_val b l) (pos_val b r)); cbn [cmp_sign]; symmetry; apply Z.ltb_lt || apply Z.ltb_ge; lia.
Qed.

#[export] Instance fix_overlapping_order b (Hb : node_wf b) : SortOrder (key_sort_fix_overlapping_cmp b) (node_key b) (addr_val b).
Proof.
  split. intros l r Hl Hr. unfold key_sort_fix_overlapping_cmp. rewrite cmp_keys_spec by done. cbn [mbind option_bind].
  eexists. split; [done|]. unfold addr_val. destruct Hl as [Hl _], Hr as [Hr _]. unfold in_range in *.
  destruct (Z.compare_spec (pos_val b l) (pos_val b r)) as [E|E|E]; cbn [cmp_sign Z.eqb negb].
  - rewrite cmp_addr_spec, E. destruct (Z.ltb_spec r l); symmetry; apply Z.ltb_lt || apply Z.ltb_ge; lia.
  - symmetry. apply Z.ltb_ge. lia.
  - symmetry. apply Z.ltb_lt. lia.
Qed.

#[export] Instance keep_whiteouts_order b (Hb : node_wf b) : SortOrder (keep_unwritten_whiteouts_cmp b) (node_key b) (key_val b).
Proof.
  split. intros l r Hl Hr. unfold keep_unwritten_whiteouts_cmp. rewrite cmp_keys_spec by done. cbn [mbind option_bind].
  unfold key_val. fold (pos_val b l) (pos_val b r). destruct Hl as [Hl _], Hr as [Hr _]. unfold in_range in *.
  set (dl := bkey_deleted (key_mem b l)). set (dr := bkey_deleted (key_mem b r)).
  destruct (Z.compare_spec (pos_val b l) (pos_val b r)) as [E|E|E]; cbn [cmp_sign Z.eqb negb].
  - rewrite E. cbn zeta. replace (Z.b2z dr - Z.b2z dl) with (if dl then if dr then 0 else -1 else if dr then 1 else 0) by by destruct dl, dr.
    destruct dl, dr; cbn [Z.b2z negb Z.eqb]; eexists; (split; [done|]);
      rewrite ?cmp_addr_spec; try destruct (Z.ltb_spec r l); symmetry; apply Z.ltb_lt || apply Z.ltb_ge; lia.
  - eexists. split; [done|]. symmetry. apply Z.ltb_ge. destruct dl, dr; cbn [Z.b2z negb]; lia.
  - eexists. split; [done|]. symmetry. apply Z.ltb_lt. destruct dl, dr; cbn [Z.b2z negb]; lia.
Qed.

(** ** The loops over the merged keys *)

Definition live_key (b : btree) (k : Z) : bool := negb (bkey_deleted (key_mem b k)).
Definition keys_words (b : btree) (ks : list Z) : list Z := concat (key_words b <$> ks).

Lemma keys_words_cons b k ks : keys_words b (k :: ks) = key_words b k ++ keys_words b ks.
Proof. done. Qed.

Lemma sort_keys_seq b fuel data ks out : sort_seq b (cmp_keys b) fuel data = Some ks ->
  sort_keys_loop fuel b data out = Some (out ++ keys_words b (List.filter (live_key b) ks)).
Proof.
  revert data ks out. induction fuel as [|fuel IH]; intros data ks out; cbn [sort_seq sort_keys_loop];
    (destruct (sort_iter_next _ _ _) as [[[k|] data']|]; cbn [mbind option_bind]; [|intros [= <-]; by rewrite app_nil_r|done]); [done|].
  destruct (sort_seq _ _ _ _) as [ks'|] eqn:E; cbn [mbind option_bind]; [|done]. intros [= <-].
  rewrite (IH _ _ _ E). cbn [List.filter]. unfold live_key at 2. destruct (bkey_deleted (key_mem b k)); cbn [negb]; [done|].
  by rewrite keys_words_cons, <- app_assoc.
Qed.

(** The keys that are not followed by another key of their position. *)
Fixpoint lasts (b : btree) (ks : list Z) : list Z :=
  match ks with
  | [] => []
  | k :: rest => match rest with
                 | n :: _ => if pos_val b k =? pos_val b n then lasts b rest else k :: lasts b rest
                 | [] => [k]
                 end
  end.

Lemma sort_seq_head b cmp fuel data ks : sort_seq b cmp fuel data = Some ks -> sort_iter_peek data = head ks.
Proof.
  destruct fuel; cbn [sort_seq]; unfold sort_iter_next; destruct (sort_iter_peek data) as [k|]; cbn [mbind option_bind].
  - by destruct (sort_iter_advance _ _ _).
  - by intros [= <-].
  - destruct (sort_iter_advance _ _ _); cbn [mbind option_bind]; [|done]. destruct (sort_seq _ _ _ _); cbn [mbind option_bind]; [|done]. by intros [= <-].
  - by intros [= <-].
Qed.

(** [needed] says that a whiteout is not written yet. *)
Definition needed (b : btree) (unwritten k : Z) : bool := negb (bkey_deleted (key_mem b k) && (k <? unwritten)).

Lemma keep_whiteouts_seq b unwritten fuel data ks out : node_wf b -> Forall (node_key b) ks ->
  sort_seq b (keep_unwritten_whiteouts_cmp b) fuel data = Some ks ->
  keep_whiteouts_loop fuel b unwritten data out = Some (out ++ keys_words b (List.filter (needed b unwritten) (lasts b ks))).
Proof.
  intros Hb. revert data ks out. induction fuel as [|fuel IH]; intros data ks out Hks; cbn [sort_seq keep_whiteouts_loop];
    (destruct (sort_iter_next _ _ _) as [[[k|] data']|]; cbn [mbind option_bind]; [|intros [= <-]; by rewrite app_nil_r|done]); [done|].
  destruct (sort_seq _ _ _ _) as [ks'|] eqn:E; cbn [mbind option_bind]; [|done]. intros [= <-]. apply Forall_cons_1 in Hks as [Hk Hks].
  rewrite (sort_seq_head _ _ _ _ _ E).
  assert (needed b unwritten k = negb (bkey_deleted (key_mem b k) && (k <? unwritten))) as Hneed by done.
  destruct (bkey_deleted (key_mem b k) && (k <? unwritten)) eqn:Ed; cbn [negb] in Hneed.
  - rewrite (IH _ _ _ Hks E). destruct ks' as [|n ks']; cbn [lasts List.filter]; [by rewrite Hneed|].
    destruct (_ =? _); [done|]. cbn [List.filter]. by rewrite Hneed.
  - destruct ks' as [|n ks']; cbn [head mbind option_bind].
    + rewrite (IH _ _ _ Hks E). cbn [lasts List.filter]. by rewrite Hneed, keys_words_cons, <- app_assoc.
    + apply Forall_cons_1 in Hks as [Hn Hks']. rewrite cmp_keys_spec by done. cbn [mbind option_bind].
      rewrite (IH _ (n :: ks') _ ltac:(by apply Forall_cons_2) E). cbn [lasts].
      destruct (Z.compare_spec (pos_val b k) (pos_val b n)) as [Hp|Hp|Hp]; cbn [cmp_sign Z.eqb].
      * by rewrite (proj2 (Z.eqb_eq _ _) Hp).
      * rewrite (proj2 (Z.eqb_neq _ _)) by lia. cbn [List.filter]. by rewrite Hneed, keys_words_cons, <- app_assoc.
      * rewrite (proj2 (Z.eqb_neq _ _)) by lia. cbn [List.filter]. by rewrite Hneed, keys_words_cons, <- app_assoc.
Qed.

Lemma lasts_spec b (v : Z -> Z) ks : (forall x y, x ∈ ks -> y ∈ ks -> v x <= v y -> pos_val b x <= pos_val b y) ->
  (forall x y, x ∈ ks -> y ∈ ks -> v x = v y -> x = y) -> StronglySorted (fun x y => v x <= v y) ks ->
  (forall x, x ∈ lasts b ks <-> x ∈ ks /\ forall y, y ∈ ks -> pos_val b y = pos_val b x -> v y <= v x) /\
  StronglySorted (fun x y => pos_val b x < pos_val b y) (lasts b ks).
Proof.
  induction ks as [|k ks IH]; intros Hv Hinj Hs.
  { split; [|constructor]. intros x. split; [by intros ?%not_elem_of_nil|by intros [?%not_elem_of_nil _]]. }
  apply StronglySorted_inv in Hs as [Hs Hle]. rewrite Forall_forall in Hle.
  destruct IH as [IH1 IH2]; [intros x y Hx Hy; apply Hv; by right|intros x y Hx Hy; apply Hinj; by right|done|].
  assert (Hone : (forall n, n ∈ ks -> pos_val b k <> pos_val b n) -> lasts b (k :: ks) = k :: lasts b ks ->
    (forall x, x ∈ lasts b (k :: ks) <-> x ∈ k :: ks /\ forall y, y ∈ k :: ks -> pos_val b y = pos_val b x -> v y <= v x) /\
    StronglySorted (fun x y => pos_val b x < pos_val b y) (lasts b (k :: ks))).
  { intros Hno ->. split.
    - intros x. rewrite !elem_of_cons, IH1. split.
      + intros [->|[Hx Hmax]].
        * split; [by left|]. intros y [->|Hy]%elem_of_cons Hp; [lia|]. by destruct (Hno y Hy).
        * split; [by right|]. intros y [->|Hy]%elem_of_cons Hp; [by destruct (Hno x Hx)|by apply Hmax].
      + intros [[->|Hx] Hmax]; [by left|right]. split; [done|]. intros y Hy. apply Hmax. by right.
    - constructor; [done|]. rewrite Forall_forall. intros y Hy. apply IH1 in Hy as [Hy _].
      specialize (Hle y Hy). apply Hv in Hle; [|by left|by right]. specialize (Hno y Hy). lia. }
  destruct ks as [|n ks]; [apply Hone; [by intros n ?%not_elem_of_nil|done]|].
  cbn [lasts] in *. destruct (Z.eqb_spec (pos_val b k) (pos_val b n)) as [E|E].
  - split; [|done]. intros x. rewrite IH1, (elem_of_cons (n :: ks) x k). split.
    + intros [Hx Hmax]. split; [by right|]. intros y [->|Hy]%elem_of_cons Hp; [by apply Hle|by apply Hmax].
    + intros [[->|Hx] Hmax]; [|split; [done|]; intros y Hy; apply Hmax; by right].
      assert (k = n) as <-; [|split; [by left|]; intros y Hy; apply Hmax; by right].
      apply Hinj; [by left|right; by left|]. specialize (Hle n ltac:(by left)). specialize (Hmax n ltac:(right; by left) (eq_sym E)). lia.
  - apply Hone; [|done]. intros y [->|Hy]%elem_of_cons Hp; [done|].
    apply StronglySorted_inv in Hs as [_ Hn]. rewrite Forall_forall in Hn. specialize (Hn y Hy). apply Hv in Hn; [|right; by left|right; by right].
    specialize (Hle n ltac:(by left)). apply Hv in Hle; [lia|by left|right; by left].
Qed.

Fixpoint account_keys (b : btree) (nr : btree_nr_keys) (ks : list Z) : option btree_nr_keys :=
  match ks with
  | [] => Some nr
  | k :: ks => nr ← btree_keys_account_key nr 0 (key_words b k) 1; account_keys b nr ks
  end.

Section FixOverlapping.
Context (b : btree) (Hb : node_wf b).
#[local] Existing Instance fix_overlapping_order.

Definition strict_source (p : sort_iter_set * list Z) : Prop := StronglySorted (fun x y => pos_val b x < pos_val b y) p.2.

Lemma addr_pos x y : node_key b x -> node_key b y -> addr_val b x <= addr_val b y -> pos_val b x <= pos_val b y.
Proof. intros [Hx _] [Hy _]. unfold addr_val, in_range in *. lia. Qed.

Lemma chain_keys_all k e l : chain b (node_key b) k e l -> Forall (node_key b) l.
Proof. induction 1; by constructor. Qed.

Lemma sources_keys D : Forall (source_ok b (node_key b) (addr_val b)) D -> Forall (node_key b) (all_keys D).
Proof.
  intros HD. unfold all_keys. induction HD as [|p D Hp _ IH]; [constructor|]. cbn [fmap list_fmap concat].
  apply Forall_app_2; [|done]. by eapply chain_keys_all, so_chain.
Qed.

(** The keys taken are sorted strictly in every source that is left. *)
Lemma fix_overlapping_seq fuel D ks out nr : Forall (source_ok b (node_key b) (addr_val b)) D -> Forall strict_source D ->
  heads_sorted (addr_val b) D -> (length (all_keys D) <= fuel)%nat ->
  sort_seq b (key_sort_fix_overlapping_cmp b) fuel D.*1 = Some ks ->
  fix_overlapping_loop fuel b D.*1 out nr =
    (nr' ← account_keys b nr (List.filter (live_key b) (lasts b ks));
     Some (out ++ keys_words b (List.filter (live_key b) (lasts b ks)), nr')).
Proof.
  pose proof (fix_overlapping_order b Hb) as Hord.
  revert D ks out nr. induction fuel as [|fuel IH]; intros D ks out nr HD Hst Hs Hf;
    (destruct D as [|p R]; [cbn; intros [= <-]; cbn; by rewrite app_nil_r|]);
    pose proof HD as HD'; apply Forall_cons_1 in HD as [Hp HR]; destruct (source_head b _ _ p Hp) as (x & l & El & Ek & Hx & Hv);
    destruct p as [s ks0]; cbn [fst snd] in *; subst ks0; [unfold all_keys in Hf; cbn in Hf; lia|].
  cbn [fmap list_fmap sort_seq fix_overlapping_loop fst]. change (list_fmap _ _ fst R) with (R.*1).
  unfold sort_iter_next. cbn [sort_iter_peek]. rewrite Ek.
  destruct (advance_source b (key_sort_fix_overlapping_cmp b) (node_key b) (addr_val b) s x l R Hp HR Hs) as (D' & E & HDok & HDs & HP & HPl).
  rewrite E. cbn [mbind option_bind].
  pose proof (sources_keys D' HDok) as HkD.
  destruct (sort_seq _ _ _ _) as [ks'|] eqn:Eseq; cbn [mbind option_bind]; [|done]. intros [= <-].
  assert (length (all_keys D') <= fuel)%nat as Hf'.
  { apply Permutation_length in HP. rewrite HP. unfold all_keys in Hf. cbn in Hf. change (list_fmap _ _ snd R) with (R.*2) in Hf. unfold all_keys. lia. }
  assert (StronglySorted (fun x y => addr_val b x <= addr_val b y) ks' /\ ks' ≡ₚ all_keys D') as [Hks' HPks].
  { destruct (sort_seq_spec b (key_sort_fix_overlapping_cmp b) (node_key b) (addr_val b) fuel D' HDok HDs Hf') as (ks2 & E2 & ?).
    rewrite Eseq in E2. by injection E2 as <-. }
  apply Forall_cons_1 in Hst as [Hsx HstR]. pose proof HstR as HstR'. unfold strict_source in Hsx. cbn [snd] in Hsx.
  apply StronglySorted_inv in Hsx as [Hsl Hlx]. rewrite Forall_forall in Hlx.
  (* the head of what is left has the position of [x] just if the next set has *)
  assert (Hdrop : exists d, should_drop_next_key b (s :: R.*1) = Some d /\
    lasts b (x :: ks') = if d then lasts b ks' else x :: lasts b ks').
  { assert (Hno : (forall n, n ∈ all_keys R -> pos_val b x < pos_val b n) -> lasts b (x :: ks') = x :: lasts b ks').
    { intros H. destruct ks' as [|n ks']; [done|]. cbn [lasts].
      assert (n ∈ l ++ all_keys R) as Hn by (rewrite <- HP, <- HPks; by left).
      assert (pos_val b x < pos_val b n) by (apply elem_of_app in Hn as [Hn|Hn]; auto). by rewrite (proj2 (Z.eqb_neq _ _)) by lia. }
    destruct R as [|q R']; [exists false; split; [done|]; apply Hno; by intros n ?%not_elem_of_nil|].
    apply Forall_cons_1 in HR as [Hq HR']. destruct (source_head b _ _ q Hq) as (y & m & Ey & Eky & Hy & Hvy).
    cbn [fmap list_fmap should_drop_next_key fst]. rewrite Ek, Eky, cmp_keys_spec by done. cbn [mbind option_bind].
    eexists. split; [done|].
    assert (y ∈ all_keys (q :: R')) as Hyin by (unfold all_keys; cbn [fmap list_fmap concat]; rewrite Ey; apply elem_of_app; left; by left).
    apply StronglySorted_inv in Hs as [HsR Hle]. apply Forall_cons_1 in Hle as [Hle _]. rewrite Hvy in Hle.
    unfold hd_val in Hle. cbn [snd] in Hle. pose proof (addr_pos x y Hx Hy Hle) as Hxy.
    pose proof (head_least b (node_key b) (addr_val b) q R' Hq HR' HsR) as Hleast. rewrite Forall_forall, Hvy in Hleast.
    assert (Forall (node_key b) (all_keys (q :: R'))) as HkR by (apply sources_keys; by apply Forall_cons_2). rewrite Forall_forall in HkR.
    destruct (Z.compare_spec (pos_val b x) (pos_val b y)) as [Ep|Ep|Ep]; cbn [cmp_sign Z.eqb]; [| |lia].
    - assert (y ∈ ks') as Hyk by (rewrite HPks, HP; apply elem_of_app; by right).
      destruct ks' as [|n ks']; [by apply not_elem_of_nil in Hyk|]. cbn [lasts].
      assert (addr_val b n <= addr_val b y) as Hny.
      { apply StronglySorted_inv in Hks' as [_ Hall]. rewrite Forall_forall in Hall. apply elem_of_cons in Hyk as [->|Hyk]; [lia|by apply Hall]. }
      assert (n ∈ l ++ all_keys (q :: R')) as Hn by (rewrite <- HP, <- HPks; by left).
      assert (node_key b n) as Hnk by (rewrite Forall_forall in HkD; apply HkD; rewrite <- HPks; by left).
      pose proof (addr_pos n y Hnk Hy Hny) as Hpn.
      assert (pos_val b x <= pos_val b n).
      { apply elem_of_app in Hn as [Hn|Hn]; [specialize (Hlx n Hn); lia|]. pose proof (addr_pos y n Hy Hnk (Hleast n Hn)). lia. }
      by rewrite (proj2 (Z.eqb_eq _ _)) by lia.
    - apply Hno. intros n Hn. pose proof (addr_pos y n Hy (HkR n Hn) (Hleast n Hn)). lia. }
  destruct Hdrop as (d & Ed & El).
  assert (Forall strict_source D') as HstD by (by apply (HPl (StronglySorted (fun x y => pos_val b x < pos_val b y)))).
  assert (Hnext : forall out nr, fix_overlapping_loop fuel b D'.*1 out nr =
    (nr' ← account_keys b nr (List.filter (live_key b) (lasts b ks'));
     Some (out ++ keys_words b (List.filter (live_key b) (lasts b ks')), nr'))) by (intros; by apply IH).
  rewrite El. destruct (bkey_deleted (key_mem b x)) eqn:Edel; cbn [mbind option_bind].
  { rewrite Hnext. assert (live_key b x = false) as Hlive by (unfold live_key; by rewrite Edel).
    destruct d; [done|]. cbn [List.filter]. by rewrite Hlive. }
  assert (live_key b x = true) as Hlive by (unfold live_key; by rewrite Edel).
  rewrite Ed. cbn [mbind option_bind]. destruct d; cbn [mbind option_bind]; [by rewrite Hnext|].
  cbn [List.filter]. rewrite Hlive. cbn [account_keys].
  destruct (btree_keys_account_key nr 0 (key_words b x) 1) as [nr1|]; cbn [mbind option_bind]; [|done].
  rewrite Hnext. by rewrite keys_words_cons, <- app_assoc.
Qed.
End FixOverlapping.

(** ** The sets of a node as sources *)

(** The callers add the sets one by one. *)
Fixpoint add_sets (iter : sort_iter) (ts : list bset_tree) : option sort_iter :=
  match ts with
  | [] => Some iter
  | t :: ts =>
      first ← btree_bkey_first t;
      iter ← sort_iter_add iter first (btree_bkey_last t);
      add_sets iter ts
  end.

Definition source_of (t : bset_tree) (bs : list (list Z)) : list (sort_iter_set * list Z) :=
  match bs with [] => [] | _ => [(mk_sort_set (first_offset t) (end_offset t), offs (first_offset t) bs)] end.

Fixpoint sources (ts : list bset_tree) (Bs : list (list (list Z))) : list (sort_iter_set * list Z) :=
  match ts, Bs with t :: ts, bs :: Bs => source_of t bs ++ sources ts Bs | _, _ => [] end.

Lemma add_sets_spec b ts Bs iter : Forall2 (set_holds b) ts Bs -> (length (si_data iter) + length ts <= si_size iter)%nat ->
  add_sets iter ts = Some (mk_sort_iter (si_size iter) (si_data iter ++ (sources ts Bs).*1)).
Proof.
  intros Hs. revert iter. induction Hs as [|t bs ts Bs Ht Hs IH]; intros iter Hl; cbn [add_sets sources length] in *.
  { rewrite app_nil_r. by destruct iter. }
  pose proof (sh_offset _ _ _ Ht). pose proof (sh_end _ _ _ Ht) as He. pose proof (sh_range _ _ _ Ht).
  unfold btree_bkey_first, btree_bkey_first_offset. rewrite uadd_ok by lia. cbn [mbind option_bind]. unfold sort_iter_add.
  rewrite (proj2 (Nat.ltb_lt _ _)) by lia. cbn [assert mbind option_bind]. unfold btree_bkey_last.
  destruct (Z.eqb_spec (data_offset t + 3) (end_offset t)) as [E|E]; cbn [negb].
  - rewrite IH by lia. destruct bs as [|x bs]; [done|].
    pose proof (blocks_len _ _ (sh_blocks _ _ _ Ht)) as Hbl. apply Forall_cons_1 in Hbl as [Hx _]. rewrite He in E. cbn [concat] in E. rewrite length_app in E. lia.
  - rewrite IH by (cbn [si_data si_size]; rewrite length_app; cbn; lia). cbn [si_data si_size]. rewrite <- app_assoc. do 2 f_equal.
    destruct bs as [|x bs]; [rewrite He in E; cbn in E; lia|done].
Qed.

Lemma sources_keys_offs ts Bs : all_keys (sources ts Bs) = concat (set_offs ts Bs).
Proof.
  unfold all_keys, set_offs. revert Bs. induction ts as [|t ts IH]; intros [|bs Bs]; [done..|]. cbn [sources zip_with concat].
  rewrite fmap_app, concat_app, IH. f_equal. destruct bs; cbn; [done|]. by rewrite app_nil_r.
Qed.

(** The offsets of a row increase. *)
Lemma offs_increasing k bs : Forall (fun y => (1 <= length y)%nat) bs -> StronglySorted Z.lt (offs k bs).
Proof.
  revert k. induction bs as [|x bs IH]; intros k Hl; cbn [offs]; [constructor|]. apply Forall_cons_1 in Hl as [Hx Hl].
  constructor; [by apply IH|]. rewrite Forall_forall. intros y Hy. apply offs_lower in Hy. lia.
Qed.

Lemma set_offs_sorted b t bs : node_wf b -> words_wf (b_words b) -> set_holds b t bs -> let L := offs (first_offset t) bs in
  StronglySorted (fun x y => key_val b x <= key_val b y) L /\ StronglySorted (fun x y => pos_val b x <= pos_val b y) L /\
  StronglySorted (fun x y => addr_val b x <= addr_val b y) L /\ chain b (node_key b) (first_offset t) (end_offset t) L.
Proof.
  intros Hb Hw Ht L. destruct (set_holds_range b t bs Hb Hw Ht) as (_ & _ & [_ Hc Hs]). cbn [it_k it_end] in Hc. fold L in Hc, Hs.
  assert (Forall (node_key b) L) as Hk by (by eapply chain_keys_all).
  assert (StronglySorted (fun x y => pos_val b x <= pos_val b y) L) as Hp.
  { clear -Hs Hk. induction Hs as [|x l Hs IH Hx]; [constructor|]. apply Forall_cons_1 in Hk as [Hkx Hk]. constructor; [by apply IH|].
    rewrite Forall_forall in *. intros y Hy. specialize (Hx y Hy). specialize (Hk y Hy). unfold val_le, key_val in Hx. fold (pos_val b x) (pos_val b y) in Hx.
    destruct Hkx as [Hkx _], Hk as [Hk _]. unfold in_range in *. destruct (negb (bkey_deleted (key_mem b x))), (negb (bkey_deleted (key_mem b y))); cbn [Z.b2z] in Hx; lia. }
  split_and!; [exact Hs|done| |done].
  pose proof (offs_increasing (first_offset t) bs (blocks_len _ _ (sh_blocks _ _ _ Ht))) as Hi. fold L in Hi. clearbody L.
  clear -Hp Hi. induction Hi as [|x l Hi IH Hx]; [constructor|]. apply StronglySorted_inv in Hp as [Hp Hpx]. constructor; [by apply IH|].
  rewrite Forall_forall in *. intros y Hy. specialize (Hx y Hy). specialize (Hpx y Hy). unfold addr_val. lia.
Qed.

(** Sources for an order under which every set is sorted. *)
Lemma sources_ok b ts Bs (val : Z -> Z) : node_wf b -> words_wf (b_words b) -> Forall2 (set_holds b) ts Bs ->
  (forall t bs, set_holds b t bs -> StronglySorted (fun x y => val x <= val y) (offs (first_offset t) bs)) ->
  Forall (source_ok b (node_key b) val) (sources ts Bs).
Proof.
  intros Hb Hw Hs Hv. induction Hs as [|t bs ts Bs Ht Hs IH]; cbn [sources]; [constructor|]. apply Forall_app_2; [|done].
  unfold source_of. destruct bs as [|x bs]; [constructor|]. constructor; [|constructor].
  destruct (set_offs_sorted b t _ Hb Hw Ht) as (_ & _ & _ & Hc). split; cbn [fst snd si_k si_end]; [done|done|by apply Hv].
Qed.

(** The block at a key. *)
Lemma key_words_block b k x : format_wf (b_format b) -> block_ok (b_format b) x -> block_at b k x -> in_range 16 k ->
  key_words b k = x /\ key_pos b k = block_pos (b_format b) x /\ bkey_deleted (key_mem b k) = bkey_deleted x.
Proof.
  intros Hf Hx Hat Hk. destruct (block_at_key b Hf k x Hk Hx Hat) as (_ & _ & Hp & Hd & Hu & _). split_and!; [|done..].
  unfold key_words. rewrite Hu, Nat2Z.id. destruct Hat as (R & _ & ->). by rewrite take_app_length.
Qed.

(** Some sets of a node. *)
Record sets_hold (b : btree) (ts : list bset_tree) (Bs : list (list (list Z))) : Prop := {
  ss_wf : node_wf b;
  ss_words : words_wf (b_words b);
  ss_sets : Forall2 (set_holds b) ts Bs;
  ss_nsets : (length ts <= S MAX_BSETS)%nat;
  ss_order : in_memory_order ts
}.

Lemma sorted_sub {A} (R : A -> A -> Prop) (l : list A) i n : StronglySorted R l -> StronglySorted R (take n (drop i l)).
Proof.
  intros Hs. assert (forall l, StronglySorted R l -> StronglySorted R (drop i l)) as Hd.
  { clear. revert i. induction i as [|i IH]; intros l Hs; [by rewrite drop_0|]. destruct Hs; cbn [drop]; [constructor|by apply IH]. }
  apply Hd in Hs. revert Hs. generalize (drop i l). clear. induction n as [|n IH]; intros l Hs; [constructor|].
  destruct Hs as [|x l Hs Hx]; cbn [take]; [constructor|]. constructor; [by apply IH|by apply Forall_take].
Qed.

Lemma node_sub b Bs i n : node_holds b Bs -> sets_hold b (take n (drop i (b_set b))) (take n (drop i Bs)).
Proof.
  intros [Hb Hw Hs Hl Ho]. split; [done|done| | |by apply sorted_sub].
  - by apply Forall2_take, Forall2_drop.
  - rewrite length_take, length_drop. unfold MAX_BSETS. lia.
Qed.

Lemma node_all b Bs : node_holds b Bs -> sets_hold b (b_set b) Bs.
Proof. intros [Hb Hw Hs Hl Ho]. split; try done. unfold MAX_BSETS. lia. Qed.

Lemma node_words b ts Bs : sets_hold b ts Bs ->
  (key_words b <$> concat (set_offs ts Bs)) = concat Bs /\
  Forall (fun k => block_pos (b_format b) (key_words b k) = key_pos b k /\ bkey_deleted (key_words b k) = bkey_deleted (key_mem b k) /\
                   block_ok (b_format b) (key_words b k)) (concat (set_offs ts Bs)).
Proof.
  intros [[Hf _] Hw Hs _ _]. unfold set_offs. induction Hs as [|t bs ts Bs Ht Hs [IH1 IH2]]; [by split|]. cbn [zip_with concat].
  rewrite fmap_app, IH1. pose proof (set_holds_at b t bs Hw Ht) as Hat. pose proof (sh_blocks _ _ _ Ht) as Hok.
  assert (Forall (in_range 16) (offs (first_offset t) bs)) as Hr.
  { rewrite Forall_forall. intros o Ho. apply (row_range (b_format b) bs (first_offset t)); [|unfold first_offset|done|done].
    - pose proof (sh_offset _ _ _ Ht). unfold first_offset. lia.
    - pose proof (sh_end _ _ _ Ht). pose proof (sh_range _ _ _ Ht). lia. }
  cut ((key_words b <$> offs (first_offset t) bs) = bs /\ Forall (fun k => block_pos (b_format b) (key_words b k) = key_pos b k /\
         bkey_deleted (key_words b k) = bkey_deleted (key_mem b k) /\ block_ok (b_format b) (key_words b k)) (offs (first_offset t) bs)).
  { intros [E1 E2]. split; [by rewrite E1|by apply Forall_app_2]. }
  clear -Hf Hat Hok Hr. revert Hat Hok Hr. generalize (first_offset t) as k. induction bs as [|x bs IH]; intros k Hat Hok Hr; [by split|].
  cbn [offs] in *. inversion Hat as [|? ? ? ? Hx Hat']; subst. apply Forall_cons_1 in Hok as [Hxok Hok]. apply Forall_cons_1 in Hr as [Hkr Hr].
  destruct (IH _ Hat' Hok Hr) as [E1 E2]. destruct (key_words_block b k x Hf Hxok Hx Hkr) as (Ew & Ep & Ed).
  cbn [fmap list_fmap]. rewrite Ew. split; [f_equal; exact E1|]. apply Forall_cons_2; [|done]. by rewrite Ew.
Qed.

Lemma sort_fuel_enough b ts Bs : sets_hold b ts Bs -> (length (concat (set_offs ts Bs)) <= sort_fuel b)%nat.
Proof.
  intros [Hwf Hw Hs Hl _]. unfold sort_fuel, MAX_BSETS in *.
  assert (length (concat (set_offs ts Bs)) <= length ts * length (b_words b))%nat; [|nia].
  unfold set_offs. clear Hl. induction Hs as [|t bs ts Bs Ht _ IH]; [cbn; lia|].
  cbn [zip_with concat length]. rewrite length_app. destruct (set_holds_range b t bs Hwf Hw Ht) as (_ & _ & Hr).
  pose proof (node_range_length b _ _ Hwf Hr). lia.
Qed.

(** ** All live keys *)

(** Position order of blocks. *)
Definition block_pos_val (f : bkey_format) (x : list Z) : Z := bpos_val (block_pos f x).

Lemma live_words b ks : Forall (fun k => bkey_deleted (key_words b k) = bkey_deleted (key_mem b k)) ks ->
  (key_words b <$> List.filter (live_key b) ks) = live_blocks (key_words b <$> ks).
Proof.
  induction 1 as [|k ks Hk _ IH]; [done|]. cbn [List.filter fmap list_fmap live_blocks]. unfold live_key at 1. rewrite Hk.
  change (list_fmap _ _ (key_words b) ks) with (key_words b <$> ks). fold (live_blocks (key_words b <$> ks)). rewrite <- IH.
  by destruct (bkey_deleted (key_mem b k)).
Qed.

Lemma sorted_filter {A} (R : A -> A -> Prop) (P : A -> bool) l : StronglySorted R l -> StronglySorted R (List.filter P l).
Proof.
  induction 1 as [|x l Hs IH Hx]; cbn [List.filter]; [constructor|]. destruct (P x); [|done]. constructor; [done|].
  rewrite Forall_forall in *. intros y Hy. apply Hx. apply list_elem_of_In, List.filter_In in Hy as [Hy _]. by apply list_elem_of_In.
Qed.

Lemma sorted_fmap {A B} (g : A -> B) (R : A -> A -> Prop) (S : B -> B -> Prop) l :
  (forall x y, x ∈ l -> y ∈ l -> R x y -> S (g x) (g y)) -> StronglySorted R l -> StronglySorted S (g <$> l).
Proof.
  intros H Hs. induction Hs as [|x l Hs IH Hx]; cbn [fmap list_fmap]; [constructor|]. constructor.
  - apply IH. intros y z Hy Hz. apply H; by right.
  - rewrite Forall_forall. intros y (z & -> & Hz)%list_elem_of_fmap. apply H; [by left|by right|].
    exact (proj1 (Forall_forall _ _) Hx z Hz).
Qed.

Lemma sort_keys_spec b ts Bs : sets_hold b ts Bs -> exists iter ys,
  add_sets sort_iter_stack_init ts = Some iter /\ bch2_sort_keys b iter = Some (concat ys) /\
  ys ≡ₚ live_blocks (concat Bs) /\ StronglySorted (fun x y => block_pos_val (b_format b) x <= block_pos_val (b_format b) y) ys.
Proof.
  intros Hss. pose proof Hss as [Hwf Hw Hs Hl Ho]. destruct (node_words b ts Bs Hss) as [Ew Hblk].
  pose proof (sort_keys_order b Hwf) as Hord.
  destruct (merge_sources_spec b (cmp_keys b) (node_key b) (pos_val b) (sort_fuel b) (sources ts Bs)) as (data & ks & E1 & E2 & Hsort & HP).
  { apply sources_ok; [done..|]. intros t bs Ht. by apply (set_offs_sorted b t bs Hwf Hw Ht). }
  { rewrite sources_keys_offs. by apply sort_fuel_enough. }
  rewrite sources_keys_offs in HP.
  assert (Hall : Forall (fun k => block_pos (b_format b) (key_words b k) = key_pos b k /\ bkey_deleted (key_words b k) = bkey_deleted (key_mem b k) /\
                    block_ok (b_format b) (key_words b k)) ks) by by rewrite HP.
  exists (mk_sort_iter 4 (sources ts Bs).*1), (live_blocks (key_words b <$> ks)). split; [|split; [|split]].
  - rewrite (add_sets_spec b ts Bs) by (done || (cbn; lia)). done.
  - unfold bch2_sort_keys. cbn [si_data]. rewrite E1. cbn [mbind option_bind]. rewrite (sort_keys_seq _ _ _ _ _ E2). cbn [app].
    unfold keys_words. rewrite live_words; [done|]. eapply Forall_impl; [exact Hall|]. naive_solver.
  - apply live_blocks_perm. by rewrite HP, Ew.
  - unfold live_blocks. apply sorted_filter. apply (sorted_fmap _ (fun x y => pos_val b x <= pos_val b y)); [|done].
    rewrite Forall_forall in Hall. intros x y Hx Hy Hxy. unfold block_pos_val.
    destruct (Hall x Hx) as (-> & _), (Hall y Hy) as (-> & _). exact Hxy.
Qed.

(** ** The newest keys *)

Lemma offs_of_set ts Bs k : k ∈ concat (set_offs ts Bs) <->
  exists i t bs, ts !! i = Some t /\ Bs !! i = Some bs /\ k ∈ offs (first_offset t) bs.
Proof.
  unfold set_offs. revert Bs. induction ts as [|t ts IH]; intros [|bs Bs]; cbn [zip_with concat];
    try (split; [by intros ?%not_elem_of_nil|by intros (i & ? & ? & ? & ? & _)]).
  rewrite elem_of_app, IH. split.
  - intros [H|(i & t' & bs' & ? & ? & ?)]; [by exists 0%nat, t, bs|by exists (S i), t', bs'].
  - intros ([|i] & t' & bs' & Ht & Hbs & H); [injection Ht as ->; injection Hbs as ->; by left|right]. by exists i, t', bs'.
Qed.

Section Newest.
Context (b : btree) (ts : list bset_tree) (Bs : list (list (list Z))) (Hss : sets_hold b ts Bs).

(** [x] is in the [i]th set, and no later set has a key at its position. *)
Definition newest (x : list Z) : Prop := exists i bs, Bs !! i = Some bs /\ x ∈ bs /\
  forall j bs' y, (i < j)%nat -> Bs !! j = Some bs' -> y ∈ bs' -> block_pos (b_format b) y <> block_pos (b_format b) x.

Lemma set_words i t bs : ts !! i = Some t -> Bs !! i = Some bs -> (key_words b <$> offs (first_offset t) bs) = bs /\
  Forall (fun k => block_pos (b_format b) (key_words b k) = key_pos b k /\ first_offset t <= k < end_offset t /\ node_key b k)
    (offs (first_offset t) bs).
Proof.
  intros Ht Hbs. pose proof Hss as [Hwf Hw Hs Hl Ho]. pose proof (Forall2_lookup_lr _ _ _ _ _ _ Hs Ht Hbs) as Hset.
  assert (sets_hold b [t] [bs]) as H1.
  { split; [done|done|constructor; [done|constructor]|cbn; lia|]. apply SSorted_cons; constructor. }
  destruct (node_words b [t] [bs] H1) as [E HF]. cbn in E, HF. rewrite !app_nil_r in *. split; [exact E|].
  rewrite Forall_forall in *. intros k Hk. destruct (HF k Hk) as (Hp & _). split; [done|].
  destruct (set_offs_sorted b t bs Hwf Hw Hset) as (_ & _ & _ & Hc). pose proof (chain_keys_all b _ _ _ Hc) as Hnk. rewrite Forall_forall in Hnk.
  split; [|by apply Hnk]. split; [by apply (offs_lower bs)|].
  pose proof (offs_upper bs _ k (blocks_len _ _ (sh_blocks _ _ _ Hset)) Hk). pose proof (sh_end _ _ _ Hset). unfold first_offset in *. lia.
Qed.

Lemma block_in_set i t bs x : ts !! i = Some t -> Bs !! i = Some bs -> x ∈ bs -> exists k, k ∈ offs (first_offset t) bs /\ key_words b k = x.
Proof.
  intros Ht Hbs Hx. destruct (set_words i t bs Ht Hbs) as [E _]. rewrite <- E in Hx. apply list_elem_of_fmap in Hx as (k & -> & Hk). eauto.
Qed.

Lemma key_in_set i t bs k : ts !! i = Some t -> Bs !! i = Some bs -> k ∈ offs (first_offset t) bs ->
  key_words b k ∈ bs /\ block_pos (b_format b) (key_words b k) = key_pos b k /\ first_offset t <= k < end_offset t /\ node_key b k.
Proof.
  intros Ht Hbs Hk. destruct (set_words i t bs Ht Hbs) as [E HF]. rewrite Forall_forall in HF. destruct (HF k Hk) as (Hp & Hb1 & Hnk).
  split; [|done]. assert (key_words b k ∈ (key_words b <$> offs (first_offset t) bs)) as H by by apply list_elem_of_fmap_2.
  by rewrite E in H.
Qed.

(** Later sets lie behind. *)
Lemma later_sets_behind i j t t' : (i < j)%nat -> ts !! i = Some t -> ts !! j = Some t' -> end_offset t < first_offset t'.
Proof.
  intros Hij Ht Ht'. pose proof (ss_order _ _ _ Hss) as Ho. unfold in_memory_order in Ho. unfold first_offset.
  cut (end_offset t <= data_offset t'); [lia|]. clear -Ho Hij Ht Ht'. revert i j Hij Ht Ht'.
  induction Ho as [|x l Hs IH Hx]; intros i j Hij Ht Ht'; [done|]. destruct j as [|j]; [lia|]. destruct i as [|i]; cbn in *.
  - injection Ht as ->. rewrite Forall_lookup in Hx. by apply (Hx j).
  - apply (IH i j); [lia|done..].
Qed.

Definition strict_sets : Prop := Forall (StronglySorted (fun x y => block_pos_val (b_format b) x < block_pos_val (b_format b) y)) Bs.

Lemma set_strict i t bs : strict_sets -> ts !! i = Some t -> Bs !! i = Some bs ->
  StronglySorted (fun x y => pos_val b x < pos_val b y) (offs (first_offset t) bs).
Proof.
  intros Hst Ht Hbs. unfold strict_sets in Hst. pose proof (Forall_lookup_1 _ _ _ _ Hst Hbs) as Hsb. destruct (set_words i t bs Ht Hbs) as [E HF].
  rewrite <- E in Hsb. clear -Hsb HF. induction (offs (first_offset t) bs) as [|k l IH]; [constructor|].
  cbn [fmap list_fmap] in Hsb. apply StronglySorted_inv in Hsb as [Hsb Hk]. apply Forall_cons_1 in HF as [(Hp & _) HF]. constructor; [by apply IH|].
  rewrite Forall_forall. intros y Hy. pose proof (proj1 (Forall_forall _ _) Hk (key_words b y) ltac:(by apply list_elem_of_fmap_2)) as Hky.
  destruct (proj1 (Forall_forall _ _) HF y Hy) as (Hpy & _). unfold block_pos_val in Hky. rewrite Hp, Hpy in Hky. exact Hky.
Qed.

Lemma strict_same l x y : StronglySorted (fun x y => pos_val b x < pos_val b y) l -> x ∈ l -> y ∈ l -> pos_val b x = pos_val b y -> x = y.
Proof.
  induction 1 as [|z l Hs IH Hz]; intros Hx Hy E; [by apply not_elem_of_nil in Hx|]. rewrite Forall_forall in Hz.
  apply elem_of_cons in Hx as [->|Hx], Hy as [->|Hy]; [done| | |by apply IH].
  - specialize (Hz y Hy). lia.
  - specialize (Hz x Hx). lia.
Qed.

Lemma pos_val_eq k k' : node_key b k -> node_key b k' -> pos_val b k = pos_val b k' -> key_pos b k = key_pos b k'.
Proof.
  intros Hk Hk' E. pose proof (ss_wf _ _ _ Hss) as Hwf. apply bpos_val_inj; [by apply key_pos_wf|by apply key_pos_wf|exact E].
Qed.

(** The keys that are last at their position are the newest ones. *)
Lemma lasts_newest ks x : strict_sets -> StronglySorted (fun x y => addr_val b x <= addr_val b y) ks -> ks ≡ₚ concat (set_offs ts Bs) ->
  x ∈ (key_words b <$> lasts b ks) <-> newest x.
Proof.
  intros Hst Hsort HP.
  assert (Hks : forall k, k ∈ ks <-> exists i t bs, ts !! i = Some t /\ Bs !! i = Some bs /\ k ∈ offs (first_offset t) bs)
    by (intros k; by rewrite HP, offs_of_set).
  assert (Hnk : forall k, k ∈ ks -> node_key b k) by (intros k (i & t & bs & Ht & Hbs & Hk)%Hks; by apply (key_in_set i t bs)).
  assert (Hsame : forall k k', k ∈ ks -> k' ∈ ks -> pos_val b k = pos_val b k' -> addr_val b k <= addr_val b k' <-> k <= k').
  { intros k k' _ _ E. unfold addr_val. rewrite E. lia. }
  destruct (lasts_spec b (addr_val b) ks) as [Hl _]; [| |done|].
  { intros y z Hy Hz. apply addr_pos; by apply Hnk. }
  { intros y z Hy Hz E. destruct (Hnk y Hy) as [Ry _], (Hnk z Hz) as [Rz _]. unfold addr_val, in_range in *. lia. }
  rewrite list_elem_of_fmap. split.
  - intros (k & -> & Hk). apply Hl in Hk as [Hk Hmax]. pose proof Hk as (i & t & bs & Ht & Hbs & Hin)%Hks.
    destruct (key_in_set i t bs k Ht Hbs Hin) as (Hx & Hp & Hb1 & Hkn). exists i, bs. split; [done|]. split; [done|].
    intros j bs' y Hij Hbs' Hy Heq. destruct (lookup_lt_is_Some_2 ts j) as [t' Ht'].
    { rewrite (Forall2_length _ _ _ (ss_sets _ _ _ Hss)). by eapply lookup_lt_Some. }
    destruct (block_in_set j t' bs' y Ht' Hbs' Hy) as (k' & Hk' & <-). destruct (key_in_set j t' bs' k' Ht' Hbs' Hk') as (_ & Hp' & Hb2 & _).
    pose proof (later_sets_behind i j t t' Hij Ht Ht').
    assert (k' ∈ ks) as Hk'in by (apply Hks; eauto 10).
    assert (pos_val b k' = pos_val b k) as Epv by (unfold pos_val; rewrite <- Hp, <- Hp', Heq; done).
    specialize (Hmax k' Hk'in Epv). apply (proj1 (Hsame k' k Hk'in Hk Epv)) in Hmax. lia.
  - intros (i & bs & Hbs & Hx & Hnew). destruct (lookup_lt_is_Some_2 ts i) as [t Ht].
    { rewrite (Forall2_length _ _ _ (ss_sets _ _ _ Hss)). by eapply lookup_lt_Some. }
    destruct (block_in_set i t bs x Ht Hbs Hx) as (k & Hk & <-). exists k. split; [done|]. apply Hl.
    assert (k ∈ ks) as Hkin by (apply Hks; eauto 10). split; [done|]. intros k' Hk'in E. apply Hsame; [done..|].
    pose proof Hk'in as (j & t' & bs' & Ht' & Hbs' & Hk')%Hks. destruct (key_in_set j t' bs' k' Ht' Hbs' Hk') as (Hy & Hp' & Hb2 & Hkn').
    destruct (key_in_set i t bs k Ht Hbs Hk) as (_ & Hp & Hb1 & Hkn).
    destruct (lt_eq_lt_dec i j) as [[Hij| ->]|Hij].
    + exfalso. apply (Hnew j bs' (key_words b k') Hij Hbs' Hy). rewrite Hp, Hp'. by apply pos_val_eq.
    + rewrite Ht in Ht'. injection Ht' as <-. rewrite Hbs in Hbs'. injection Hbs' as <-.
      rewrite (strict_same _ k' k (set_strict j t bs Hst Ht Hbs) Hk' Hk E). lia.
    + pose proof (later_sets_behind j i t' t Hij Ht' Ht). lia.
Qed.
End Newest.

Section FixOverlappingSpec.
Context (b : btree) (ts : list bset_tree) (Bs : list (list (list Z))) (Hss : sets_hold b ts Bs).

(** Accounting of live keys, one by one. *)
Lemma account_keys_spec ks done_ : Forall (fun k => block_ok (b_format b) (key_words b k) /\ bkey_deleted (key_words b k) = false) ks ->
  account_keys b (nr_of [done_]) ks = Some (nr_of [done_ ++ (key_words b <$> ks)]).
Proof.
  intros Hks. revert done_. induction Hks as [|k ks [Hok Hd] _ IH]; intros done_; cbn [account_keys fmap list_fmap]; [by rewrite app_nil_r|].
  pose proof (nr_of_account (b_format b) [] done_ (done_ ++ [key_words b k]) (key_words b k) 1) as Hacc.
  cbn [app length] in Hacc. rewrite Hacc; [|cbn; lia|done|done|left; split; [done|by rewrite (Permutation_app_comm done_)]].
  cbn [mbind option_bind app]. rewrite (IH (done_ ++ [key_words b k])). by rewrite <- app_assoc.
Qed.

Lemma strict_sources : strict_sets b Bs -> Forall (strict_source b) (sources ts Bs).
Proof.
  intros Hst. pose proof (ss_sets _ _ _ Hss) as Hs. apply Forall_forall. intros p Hp.
  assert (exists i t bs, ts !! i = Some t /\ Bs !! i = Some bs /\ p.2 = offs (first_offset t) bs) as (i & t & bs & Ht & Hbs & E).
  { clear -Hp. revert Bs Hp. induction ts as [|t ts' IH]; intros [|bs Bs] Hp; cbn [sources] in Hp; try by apply not_elem_of_nil in Hp.
    apply elem_of_app in Hp as [Hp|Hp].
    - exists 0%nat, t, bs. split; [done|]. split; [done|]. unfold source_of in Hp. destruct bs; [by apply not_elem_of_nil in Hp|].
      by apply list_elem_of_singleton in Hp as ->.
    - destruct (IH Bs Hp) as (i & t' & bs' & ? & ? & ?). by exists (S i), t', bs'. }
  unfold strict_source. rewrite E. by apply (set_strict b ts Bs Hss i).
Qed.

Lemma fix_overlapping_spec : strict_sets b Bs -> exists iter ys,
  add_sets sort_iter_stack_init ts = Some iter /\ bch2_key_sort_fix_overlapping b iter = Some (concat ys, nr_of [ys]) /\
  (forall x, x ∈ ys <-> newest b Bs x /\ bkey_deleted x = false) /\
  StronglySorted (fun x y => block_pos_val (b_format b) x < block_pos_val (b_format b) y) ys.
Proof.
  intros Hst. pose proof Hss as [Hwf Hw Hs Hl Ho]. destruct (node_words b ts Bs Hss) as [Ew Hblk].
  pose proof (fix_overlapping_order b Hwf) as Hord.
  assert (Hsrc : Forall (source_ok b (node_key b) (addr_val b)) (sources ts Bs)).
  { apply sources_ok; [done..|]. intros t bs Ht. by apply (set_offs_sorted b t bs Hwf Hw Ht). }
  assert (Hfuel : (length (all_keys (sources ts Bs)) <= sort_fuel b)%nat) by (rewrite sources_keys_offs; by apply sort_fuel_enough).
  destruct (sort_iter_sort_spec b (key_sort_fix_overlapping_cmp b) (node_key b) (addr_val b) (sources ts Bs) Hsrc) as (D & E1 & HPD & HDs).
  assert (HD : Forall (source_ok b (node_key b) (addr_val b)) D) by by rewrite HPD.
  assert (HDst : Forall (strict_source b) D) by (rewrite HPD; by apply strict_sources).
  pose proof (all_keys_perm _ _ HPD) as HPk.
  assert (HDf : (length (all_keys D) <= sort_fuel b)%nat) by by rewrite HPk.
  destruct (sort_seq_spec b (key_sort_fix_overlapping_cmp b) (node_key b) (addr_val b) (sort_fuel b) D HD HDs HDf) as (ks & E2 & Hsort & HP).
  rewrite HPk, sources_keys_offs in HP.
  assert (Hall : Forall (fun k => block_pos (b_format b) (key_words b k) = key_pos b k /\ bkey_deleted (key_words b k) = bkey_deleted (key_mem b k) /\
                    block_ok (b_format b) (key_words b k)) ks) by by rewrite HP.
  assert (Hnk : Forall (node_key b) ks) by (rewrite HP, <- sources_keys_offs, <- HPk; by apply sources_keys).
  destruct (lasts_spec b (addr_val b) ks) as [Hlin Hlsort]; [| |exact Hsort|].
  { rewrite Forall_forall in Hnk. intros y z Hy Hz. apply addr_pos; by apply Hnk. }
  { rewrite Forall_forall in Hnk. intros y z Hy Hz E. destruct (Hnk y Hy) as [Ry _], (Hnk z Hz) as [Rz _]. unfold addr_val, in_range in *. lia. }
  assert (Hlall : Forall (fun k => block_pos (b_format b) (key_words b k) = key_pos b k /\ bkey_deleted (key_words b k) = bkey_deleted (key_mem b k) /\
                    block_ok (b_format b) (key_words b k)) (lasts b ks)).
  { rewrite Forall_forall in *. intros k Hk. apply Hall. by apply Hlin in Hk as [Hk _]. }
  assert (Elive : (key_words b <$> List.filter (live_key b) (lasts b ks)) = live_blocks (key_words b <$> lasts b ks)).
  { apply live_words. eapply Forall_impl; [exact Hlall|]. naive_solver. }
  exists (mk_sort_iter 4 (sources ts Bs).*1), (live_blocks (key_words b <$> lasts b ks)). split_and!.
  - rewrite (add_sets_spec b ts Bs) by (done || (cbn; lia)). done.
  - unfold bch2_key_sort_fix_overlapping. cbn [si_data]. rewrite E1. cbn [mbind option_bind].
    rewrite (fix_overlapping_seq b Hwf (sort_fuel b) D ks) by done.
    change nr_keys_default with (nr_of [[]]). rewrite account_keys_spec; [cbn [mbind option_bind app]; unfold keys_words; by rewrite Elive|].
    rewrite Forall_forall in *. intros k Hk. apply list_elem_of_In, List.filter_In in Hk as [Hk Hkl]. apply list_elem_of_In in Hk.
    destruct (Hlall k Hk) as (_ & Hd & Hok). split; [done|]. rewrite Hd. unfold live_key in Hkl. by apply negb_true_iff.
  - intros x. unfold live_blocks. rewrite list_elem_of_In, List.filter_In, <- list_elem_of_In, negb_true_iff.
    by rewrite (lasts_newest b ts Bs Hss ks x Hst Hsort HP).
  - unfold live_blocks. apply sorted_filter. apply (sorted_fmap _ (fun x y => pos_val b x < pos_val b y)); [|done].
    rewrite Forall_forall in Hlall. intros x y Hx Hy Hxy. unfold block_pos_val.
    destruct (Hlall x Hx) as (-> & _), (Hlall y Hy) as (-> & _). exact Hxy.
Qed.
End FixOverlappingSpec.

(** ** Whiteouts that are still needed *)

(** Among keys of one position, a live one is kept rather than a whiteout,
    and of equals the last in memory. *)
Definition outranks (b : btree) (k y : Z) : Prop :=
  (live_key b y = true -> live_key b k = true) /\ (live_key b y = live_key b k -> y <= k).

Lemma key_val_outranks b x y : in_range 16 x -> in_range 16 y -> pos_val b y = pos_val b x -> key_val b y <= key_val b x <-> outranks b x y.
Proof.
  intros Hx Hy E. unfold pos_val in E. unfold key_val, outranks, live_key, in_range in *. rewrite E.
  destruct (bkey_deleted (key_mem b x)), (bkey_deleted (key_mem b y)); cbn [negb Z.b2z]; (split; [intros; split; (done || (intros; lia))|intros [H1 H2]]);
    try (specialize (H2 eq_refl); lia); try (by specialize (H1 eq_refl)); lia.
Qed.

Lemma key_val_inj b x y : in_range 16 x -> in_range 16 y -> key_val b x = key_val b y -> x = y.
Proof.
  unfold key_val, in_range. intros Hx Hy E.
  set (p := bpos_val (key_pos b x) * 2 ^ 1 + Z.b2z (negb (bkey_deleted (key_mem b x)))) in *.
  set (q := bpos_val (key_pos b y) * 2 ^ 1 + Z.b2z (negb (bkey_deleted (key_mem b y)))) in *. lia.
Qed.

Lemma key_val_pos b x y : in_range 16 x -> in_range 16 y -> key_val b x <= key_val b y -> pos_val b x <= pos_val b y.
Proof.
  unfold key_val, pos_val, in_range. intros Hx Hy. destruct (bkey_deleted (key_mem b x)), (bkey_deleted (key_mem b y)); cbn [negb Z.b2z]; lia.
Qed.

(** Writing a node merges its unwritten sets and whiteouts into one bset
    whose keys have increasing positions; for each position, it takes the
    live key, if there is one, and otherwise a whiteout that has not been
    written before. *)
Theorem keep_whiteouts_correct (b : btree) (unwritten : Z) (size : nat) (D : list (sort_iter_set * list Z))
    (Hb : node_wf b) (HD : Forall (source_ok b (node_key b) (key_val b)) D) (Hf : (length (all_keys D) <= sort_fuel b)%nat) :
  exists ks, bch2_sort_keys_keep_unwritten_whiteouts b unwritten (mk_sort_iter size D.*1) = Some (keys_words b ks) /\
    StronglySorted (fun x y => pos_val b x < pos_val b y) ks /\
    forall k, k ∈ ks <-> k ∈ all_keys D /\ (live_key b k = true \/ unwritten <= k) /\
      forall y, y ∈ all_keys D -> pos_val b y = pos_val b k -> outranks b k y.
Proof.
  pose proof (keep_whiteouts_order b Hb) as Hord.
  destruct (merge_sources_spec b (keep_unwritten_whiteouts_cmp b) (node_key b) (key_val b) (sort_fuel b) D HD Hf) as (data & ks & E1 & E2 & Hsort & HP).
  assert (Hnk : forall k, k ∈ ks -> node_key b k).
  { intros k Hk. rewrite HP in Hk. clear -HD Hk. unfold all_keys in Hk. induction HD as [|p D Hp _ IH]; [by apply not_elem_of_nil in Hk|].
    cbn [fmap list_fmap concat] in Hk. apply elem_of_app in Hk as [Hk|Hk]; [|by apply IH].
    pose proof (chain_keys_all b _ _ _ (so_chain _ _ _ _ Hp)) as H. rewrite Forall_forall in H. by apply H. }
  assert (Hr : forall k, k ∈ ks -> in_range 16 k) by (intros k Hk; by apply Hnk).
  destruct (lasts_spec b (key_val b) ks) as [Hlin Hlsort]; [| |exact Hsort|].
  { intros x y Hx Hy. apply key_val_pos; by apply Hr. }
  { intros x y Hx Hy. apply key_val_inj; by apply Hr. }
  exists (List.filter (needed b unwritten) (lasts b ks)). split_and!.
  - unfold bch2_sort_keys_keep_unwritten_whiteouts. cbn [si_data]. rewrite E1. cbn [mbind option_bind].
    rewrite (keep_whiteouts_seq b unwritten _ _ ks); [done|done|by rewrite Forall_forall|done].
  - by apply sorted_filter.
  - intros k. rewrite list_elem_of_In, List.filter_In, <- list_elem_of_In, Hlin.
    assert (needed b unwritten k = true <-> live_key b k = true \/ unwritten <= k) as ->.
    { unfold needed, live_key. destruct (bkey_deleted _); cbn [negb andb]; [|by split; [left|]].
      rewrite negb_true_iff, Z.ltb_ge. split; [by right|by intros [|]]. }
    setoid_rewrite <- HP. split.
    + intros [[Hk Hmax] Hneed]. split; [done|]. split; [done|]. intros y Hy E. apply key_val_outranks; [by apply Hr..|done|]. by apply Hmax.
    + intros (Hk & Hneed & Hmax). split; [|done]. split; [done|]. intros y Hy E. apply key_val_outranks; [by apply Hr..|done|]. by apply Hmax.
Qed.

(** Sorting sets together writes exactly their live keys, in the order of
    their positions. *)
Theorem sort_keys_merges (b : btree) (ts : list bset_tree) (Bs : list (list (list Z))) (Hss : sets_hold b ts Bs) :
  exists iter ys, add_sets sort_iter_stack_init ts = Some iter /\ bch2_sort_keys b iter = Some (concat ys) /\
    ys ≡ₚ live_blocks (concat Bs) /\
    StronglySorted (fun x y => block_pos_val (b_format b) x <= block_pos_val (b_format b) y) ys.
Proof. by apply sort_keys_spec. Qed.

(** When a node's sets are merged after reading them, a key survives just
    if it is live and no later set has a key at its position; the keys written
    have strictly increasing positions, and the counters returned count them. *)
Theorem fix_overlapping_newest (b : btree) (ts : list bset_tree) (Bs : list (list (list Z)))
    (Hss : sets_hold b ts Bs) (Hst : strict_sets b Bs) :
  exists iter ys, add_sets sort_iter_stack_init ts = Some iter /\
    bch2_key_sort_fix_overlapping b iter = Some (concat ys, nr_of [ys]) /\
    (forall x, x ∈ ys <-> newest b Bs x /\ bkey_deleted x = false) /\
    StronglySorted (fun x y => block_pos_val (b_format b) x < block_pos_val (b_format b) y) ys.
Proof. by apply (fix_overlapping_spec b ts). Qed.

(** A node with two sets; the second one overwrites position 30 of the first,
    and deletes position 10. *)
Definition sample_sets : btree :=
  mk_btree BKEY_FORMAT_CURRENT 160
    ([0; 0; 10 * 2 ^ 48] ++ sample_key 1 10 ++ sample_key 1 30 ++ [0; 0; 10 * 2 ^ 48] ++ sample_key 0 10 ++ sample_key 2 30)
    [mk_bset_tree 0 BSET_NO_AUX_TREE_VAL 0 0 13; mk_bset_tree 0 BSET_NO_AUX_TREE_VAL 13 0 26].
Definition sample_set_blocks : list (list (list Z)) := [[sample_key 1 10; sample_key 1 30]; [sample_key 0 10; sample_key 2 30]].

Lemma sample_key_block t o : (t = 0 \/ t = 1 \/ t = 2) -> (o = 10 \/ o = 20 \/ o = 30) -> block_ok BKEY_FORMAT_CURRENT (sample_key t o).
Proof.
  intros Ht Ho. assert (kp_u64s (sample_key t o) = 5 /\ bkey_packed (sample_key t o) = false) as [Hu Hp]
    by (by destruct Ht as [->|[->| ->]], Ho as [->|[->| ->]]).
  split; [|done|by rewrite Hp|].
  - unfold words_wf, sample_key, in_range in *. repeat (apply Forall_cons; split; [lia|]). by apply Forall_nil.
  - exists (mk_bkey 5 1 1 ZERO_VERSION 0 (SPOS 1 o 0)). split; [|by right]. unfold bkey_wf, bversion_wf, bpos_wf, in_range in *. cbn. lia.
Qed.

Lemma sample_sets_hold : sets_hold sample_sets (b_set sample_sets) sample_set_blocks.
Proof.
  pose proof sample_key_block as Hs.
  split; cbn [b_words sample_sets b_set].
  - split; [apply current_format_wf|reflexivity].
  - unfold words_wf, sample_key. cbn [app]. repeat (apply List.Forall_cons; [unfold in_range; lia|]). apply List.Forall_nil.
  - constructor; [|constructor; [|constructor]]; (split; cbn [data_offset end_offset]; [lia|done|lia|by vm_compute|..]).
    + by eexists [_; _; _], _.
    + apply Forall_cons_2; [apply Hs; auto|]. apply Forall_cons_2; [apply Hs; auto|constructor].
    + repeat constructor. vm_compute. discriminate.
    + by eexists (_ :: _ :: _ :: _ :: _ :: _ :: _ :: _ :: _ :: _ :: _ :: _ :: _ :: _ :: _ :: [_]), [].
    + apply Forall_cons_2; [apply Hs; auto|]. apply Forall_cons_2; [apply Hs; auto|constructor].
    + repeat constructor. vm_compute. discriminate.
  - cbn. unfold MAX_BSETS. lia.
  - repeat constructor. cbn. lia.
Qed.

Lemma sort_keys_merges_witness : exists iter, add_sets sort_iter_stack_init (b_set sample_sets) = Some iter /\
  bch2_sort_keys sample_sets iter = Some (sample_key 1 10 ++ sample_key 2 30 ++ sample_key 1 30).
Proof.
  destruct (sort_keys_merges sample_sets _ _ sample_sets_hold) as (iter & ys & E & Es & _). exists iter. split; [exact E|].
  vm_compute in E. injection E as <-. reflexivity.
Defined.

Lemma fix_overlapping_newest_witness : exists iter, add_sets sort_iter_stack_init (b_set sample_sets) = Some iter /\
  bch2_key_sort_fix_overlapping sample_sets iter = Some (sample_key 2 30, nr_of [[sample_key 2 30]]).
Proof.
  destruct (fix_overlapping_newest sample_sets _ _ sample_sets_hold) as (iter & ys & E & Es & _).
  - repeat constructor; vm_compute; reflexivity.
  - exists iter. split; [exact E|]. vm_compute in E. injection E as <-. vm_compute. reflexivity.
Defined.

(** The second set of the node has not been written yet. *)
Lemma keep_whiteouts_correct_witness : exists ws,
  bch2_sort_keys_keep_unwritten_whiteouts sample_sets 16 (mk_sort_iter 4 (sources (drop 1 (b_set sample_sets)) (drop 1 sample_set_blocks)).*1) = Some ws /\ ws = sample_key 0 10 ++ sample_key 2 30.
Proof.
  pose proof sample_sets_hold as [Hwf Hw Hs Hl Ho].
  destruct (keep_whiteouts_correct sample_sets 16 4 (sources (drop 1 (b_set sample_sets)) (drop 1 sample_set_blocks))) as (ks & E & _).
  - exact Hwf.
  - apply sources_ok; [exact Hwf|exact Hw|by apply Forall2_drop|]. intros t bs Ht. by apply set_holds_range.
  - vm_compute. lia.
  - exists (keys_words sample_sets ks). split; [exact E|].
    match type of E with ?l = _ => assert (l = Some (sample_key 0 10 ++ sample_key 2 30)) as E' by (vm_compute; reflexivity) end.
    rewrite E in E'. by injection E'.
Defined.
