(* ===== verification/NodeSort.v ===== *)
(** * Compacting a node in memory ([btree/bset_build.rs])

    Sorting some adjacent sets of a node into one set, in place, with the
    header, the ends of the sets and the counters ([bch2_btree_node_sort]), and
    the choice of the sets that are sorted ([bch2_btree_node_compact]). *)

From stdpp Require Import base tactics list option sorting.
From Stdlib Require Import ZArith Lia.
From S2P Require Import Prelude Bpos BkeyPack BkeyOrder NodeIter BsetSearch BsetMem BsetTable BsetUpdate BsetSort.

Open Scope Z_scope.

#[export] Instance btree_nr_keys_eq_dec : EqDecision btree_nr_keys.
Proof. solve_decision. Defined.

(** ** Operations *)

(** The words of a [btree_node] before its keys, and with the header of its first set. *)
Definition btree_node_keys : Z := 17.
Definition btree_node_bytes : Z := 160.

Definition btree_buf_bytes (n : bnode) : Z := 2 ^ n_byte_order n.

Definition no_aux (t : bset_tree) : bset_tree :=
  mk_bset_tree 0 BSET_NO_AUX_TREE_VAL (data_offset t) (MAX 16) (end_offset t).

(** From the [i]th set on. *)
Definition bch2_bset_set_no_aux_tree (ts : list bset_tree) (i : nat) : list bset_tree := take i ts ++ (no_aux <$> drop i ts).

(** The second word of a set's header. *)
Definition bset_journal_seq (b : btree) (t : bset_tree) : option Z := b_words b !! Z.to_nat (data_offset t + 1).

Definition set_bset_journal_seq (b : btree) (t : bset_tree) (v : Z) : option btree :=
  _ ← bset_journal_seq b t;
  Some (with_words b (<[Z.to_nat (data_offset t + 1) := v]> (b_words b))).

Fixpoint sum_input_u64s (b : btree) (ts : list bset_tree) : option Z :=
  match ts with
  | [] => Some 0
  | t :: ts => u ← bset_header_u64s b t; r ← sum_input_u64s b ts; Some (u + r)
  end.

Fixpoint max_journal_seq (b : btree) (ts : list bset_tree) (journal_seq : Z) : option Z :=
  match ts with
  | [] => Some journal_seq
  | t :: ts => s ← bset_journal_seq b t; max_journal_seq b ts (Z.max journal_seq s)
  end.

(** The counts of the sets that are merged, added up in the first one. *)
Fixpoint sum_bset_u64s (us : list Z) (acc : Z) : option Z :=
  match us with
  | [] => Some acc
  | u :: us => acc ← uadd 16 acc u; sum_bset_u64s us acc
  end.

(** The array entries from [start + 1] to [end] are dropped. *)
Definition shift_entries {A} (start end_ : nat) (l : list A) : list A := take (S start) l ++ drop end_ l.

Definition bch2_btree_node_sort (n : bnode) (start_idx end_idx : nat) : option bnode :=
  let b := n_b n in
  _ ← assert ((start_idx <? end_idx)%nat && (end_idx <=? length (b_set b))%nat);
  t ← b_set b !! start_idx;
  let sorting_entire_node := ((start_idx =? 0)%nat && (end_idx =? length (b_set b))%nat) in
  let ts := take (end_idx - start_idx) (drop start_idx (b_set b)) in
  iter ← add_sets sort_iter_stack_init ts;
  input_u64s ← sum_input_u64s b ts;
  let bytes := if sorting_entire_node then btree_buf_bytes n else btree_node_bytes + input_u64s * 8 in
  out ← bch2_sort_keys b iter;
  (* the keys are written to a buffer of this size *)
  _ ← assert (btree_node_bytes + Z.of_nat (length out) * 8 <=? bytes);
  let u64s := Z.of_nat (length out) mod 2 ^ 16 in
  journal_seq ← max_journal_seq b ts 0;
  b ← set_bset_journal_seq b t journal_seq;
  b ← set_bset_header_u64s b t u64s;
  ws ← write_words (b_words b) (data_offset t + 3) (take (Z.to_nat u64s) out);
  let b := with_words b ws in
  let us := nr_bset_u64s (n_nr n) in
  u ← us !! start_idx;
  u ← sum_bset_u64s (take (end_idx - start_idx - 1) (drop (S start_idx) us)) u;
  let nsets := (length (b_set b) - (end_idx - start_idx - 1))%nat in
  let us := take nsets (shift_entries start_idx end_idx (<[start_idx := u]> us)) ++ replicate (MAX_BSETS - nsets) 0 in
  let nr := mk_nr_keys (live_u64s (n_nr n)) us (packed_keys (n_nr n)) (unpacked_keys (n_nr n)) in
  t ← set_btree_bset_end b t;
  let sets := bch2_bset_set_no_aux_tree (<[start_idx := t]> (shift_entries start_idx end_idx (b_set b))) start_idx in
  let b := mk_btree (b_format b) (b_nr_key_bits b) (b_words b) sets in
  count ← bch2_btree_node_count_keys b;
  _ ← assert (bool_decide (count = nr));
  Some (mk_bnode b (shift_entries start_idx end_idx (n_aux n)) nr (n_byte_order n)).

(** [written] is in blocks of 512 bytes. *)
Definition bset_written (written : Z) (t : bset_tree) : bool := data_offset t * 8 <? written * 512.

Fixpoint unwritten_sets (written : Z) (ts : list bset_tree) (i : nat) : nat :=
  match ts with
  | [] => i
  | t :: ts => if bset_written written t then unwritten_sets written ts (S i) else i
  end.

Definition bch2_btree_node_compact (written : Z) (n : bnode) : option (bool * bnode) :=
  let nsets := length (b_set (n_b n)) in
  let unwritten_idx := unwritten_sets written (b_set (n_b n)) 0 in
  '(ret, n) ← (if (1 <? nsets - unwritten_idx)%nat then n ← bch2_btree_node_sort n unwritten_idx nsets; Some (true, n)
               else Some (false, n));
  if (1 <? unwritten_idx)%nat then n ← bch2_btree_node_sort n 0 unwritten_idx; Some (true, n) else Some (ret, n).

Definition bset_u64s (t : bset_tree) : option Z := u ← usub (end_offset t) (data_offset t); usub u 3.
Definition bset_dead_u64s (n : bnode) (i : nat) : option Z :=
  t ← b_set (n_b n) !! i; u ← bset_u64s t; nr ← nr_bset_u64s (n_nr n) !! i; usub u nr.

(** ** Memory *)

(** A set depends on the words from its header to its end only. *)
Lemma set_holds_window b b' t bs : b_format b' = b_format b ->
  (forall i, (Z.to_nat (data_offset t) <= i < Z.to_nat (end_offset t))%nat -> b_words b' !! i = b_words b !! i) ->
  set_holds b t bs -> set_holds b' t bs.
Proof.
  intros Ef Hw [H0 He Hr Hh (A & R & E & HA) Hok Hs]. split; try done; [| |by rewrite Ef|by rewrite Ef].
  - unfold bset_header_u64s in *. rewrite <- Hh. f_equal. apply Hw. lia.
  - set (n := length A) in *. set (m := length (concat bs)) in *.
    assert (n + m <= length (b_words b'))%nat as Hl.
    { assert (is_Some (b_words b' !! (n + m - 1)%nat)) as Hs1; [|apply lookup_lt_is_Some_1 in Hs1; lia].
      rewrite Hw by lia. apply lookup_lt_is_Some_2. rewrite E, !length_app. lia. }
    exists (take n (b_words b')), (drop (n + m) (b_words b')). split; [|rewrite length_take; lia].
    assert (concat bs = take m (drop n (b_words b'))) as Em.
    { apply list_eq. intros i. destruct (decide (i < m)%nat) as [Hi|Hi].
      - rewrite lookup_take_lt, lookup_drop by done. rewrite Hw by lia. rewrite E, lookup_app_r by lia.
        rewrite lookup_app_l by lia. f_equal. lia.
      - rewrite lookup_ge_None_2 by lia. symmetry. apply lookup_ge_None_2. rewrite length_take. lia. }
    rewrite Em, <- drop_drop, take_drop. by rewrite take_drop.
Qed.

Lemma copy_words_lookup_out (ws src : list Z) n i : (n + length src <= length ws)%nat -> (i < n)%nat \/ (n + length src <= i)%nat ->
  copy_words ws n src !! i = ws !! i.
Proof.
  intros Hl Hi. unfold copy_words. assert (length (take n ws) = n) as Ht by (rewrite length_take; lia).
  destruct Hi as [Hi|Hi]; [rewrite lookup_app_l by lia; by apply lookup_take_lt|].
  rewrite !lookup_app_r by lia. rewrite lookup_drop. f_equal. lia.
Qed.

(** The steps that put a sorted set where [t] was. *)
Definition sorted_words (ws : list Z) (t : bset_tree) (seq : Z) (out : list Z) : list Z :=
  let h := Z.to_nat (data_offset t + 2) in
  copy_words (<[h := Z.of_nat (length out) * 2 ^ 48 + word ws h mod 2 ^ 48]> (<[Z.to_nat (data_offset t + 1) := seq]> ws))
    (Z.to_nat (first_offset t)) out.

Lemma sorted_words_same ws t seq out i : 0 <= data_offset t -> first_offset t + Z.of_nat (length out) <= Z.of_nat (length ws) ->
  Z.of_nat i <= data_offset t \/ first_offset t + Z.of_nat (length out) <= Z.of_nat i ->
  sorted_words ws t seq out !! i = ws !! i.
Proof.
  intros H0 Hl Hi. unfold sorted_words, first_offset in *.
  rewrite copy_words_lookup_out; [|rewrite !length_insert; lia|lia]. by rewrite !list_lookup_insert_ne by lia.
Qed.

Lemma sorted_words_wf ws t seq out : words_wf ws -> words_wf out -> in_range 64 seq -> Z.of_nat (length out) < 2 ^ 16 ->
  words_wf (sorted_words ws t seq out).
Proof.
  intros Hw Ho Hs Hl. unfold sorted_words, copy_words, words_wf in *.
  assert (in_range 64 (word ws (Z.to_nat (data_offset t + 2)))) as Hh.
  { unfold word. destruct (nth_in_or_default (Z.to_nat (data_offset t + 2)) ws 0) as [Hin|E]; [|rewrite E; unfold in_range; lia].
    rewrite Forall_forall in Hw. apply Hw. by apply list_elem_of_In. }
  set (ws2 := <[Z.to_nat (data_offset t + 2) := _]> _).
  assert (Forall (in_range 64) ws2) as Hw2.
  { apply Forall_insert; [by apply Forall_insert|]. apply header_range; [done|]. unfold in_range. lia. }
  rewrite !Forall_app. split; [by apply Forall_take|]. split; [done|by apply Forall_drop].
Qed.

Lemma sorted_words_holds b t seq ys : node_wf b -> 0 <= data_offset t -> in_range 64 seq ->
  let e := first_offset t + Z.of_nat (length (concat ys)) in
  e <= Z.of_nat (length (b_words b)) -> e < 2 ^ 16 ->
  Forall (block_ok (b_format b)) ys -> StronglySorted (block_le (b_format b)) ys ->
  forall b' t', b_format b' = b_format b -> b_words b' = sorted_words (b_words b) t seq (concat ys) -> data_offset t' = data_offset t ->
  end_offset t' = e -> set_holds b' t' ys.
Proof.
  intros Hwf H0 Hseq e He H16 Hok Hs b' t' Ef Ew Ed Ee. subst e. unfold first_offset in *.
  split; try done; [by rewrite Ed|lia|lia| | |by rewrite Ef|by rewrite Ef].
  - unfold bset_header_u64s. rewrite Ed, Ew. unfold sorted_words. rewrite copy_words_lookup_out;
      [|rewrite !length_insert; unfold first_offset; lia|unfold first_offset; lia].
    rewrite list_lookup_insert_eq by (rewrite length_insert; lia). bind_simpl. f_equal.
    set (w := word _ _). pose proof (Z.mod_pos_bound w (2 ^ 48) ltac:(lia)).
    rewrite Z.div_add_l by lia. rewrite Z.div_small by lia. lia.
  - rewrite Ew. unfold sorted_words, copy_words. eexists (take _ _), _. split; [reflexivity|].
    rewrite length_take, !length_insert. unfold first_offset. lia.
Qed.

(** The header, its sequence number, and the keys are written. *)
Lemma write_sorted b t seq out : 0 <= data_offset t -> first_offset t + Z.of_nat (length out) <= Z.of_nat (length (b_words b)) ->
  Z.of_nat (length out) < 2 ^ 16 -> exists b1 b2,
  set_bset_journal_seq b t seq = Some b1 /\ set_bset_header_u64s b1 t (Z.of_nat (length out)) = Some b2 /\
  write_words (b_words b2) (data_offset t + 3) out = Some (sorted_words (b_words b) t seq out) /\
  b_format b2 = b_format b /\ b_nr_key_bits b2 = b_nr_key_bits b /\ b_set b2 = b_set b.
Proof.
  intros H0 Hl H16. unfold first_offset in *. unfold set_bset_journal_seq, bset_journal_seq.
  destruct (lookup_lt_is_Some_2 (b_words b) (Z.to_nat (data_offset t + 1)) ltac:(lia)) as [w1 E1]. rewrite E1. bind_simpl.
  destruct (lookup_lt_is_Some_2 (b_words b) (Z.to_nat (data_offset t + 2)) ltac:(lia)) as [w2 E2].
  eexists _, _. split; [done|]. unfold set_bset_header_u64s. cbn [b_words with_words].
  rewrite list_lookup_insert_ne by lia.
  rewrite E2. bind_simpl.
  split; [done|]. cbn [b_words with_words b_format b_nr_key_bits b_set]. split; [|done].
  unfold write_words. rewrite (proj2 (assert_true _)).
  2: { rewrite !length_insert. apply andb_true_iff. split; apply Z.leb_le; lia. }
  bind_simpl. unfold sorted_words. unfold word. by rewrite (nth_lookup_Some _ _ _ _ E2).
Qed.

(** ** Counters *)

Lemma sum_len_live l : sum_len (live_blocks l) = sum_len l.
Proof.
  unfold sum_len, live_blocks. do 3 f_equal. induction l as [|x l IH]; [done|]. cbn. destruct (negb _) eqn:E; cbn; [rewrite E; by f_equal|done].
Qed.
Lemma live_blocks_idem l : live_blocks (live_blocks l) = live_blocks l.
Proof. unfold live_blocks. induction l as [|x l IH]; [done|]. cbn. destruct (negb _) eqn:E; cbn; [rewrite E; by f_equal|done]. Qed.

Lemma sum_len_le l : 0 <= sum_len l <= Z.of_nat (length (concat l)).
Proof.
  unfold sum_len, live_blocks. split; [lia|]. apply Nat2Z.inj_le.
  induction l as [|x l IH]; [done|]. cbn. destruct (negb _); cbn; rewrite ?length_app; lia.
Qed.

Lemma sum_bset_u64s_spec Bs acc : 0 <= acc -> acc + sum_len (concat Bs) < 2 ^ 16 ->
  sum_bset_u64s (map (fun bs => sum_len bs mod 2 ^ 16) Bs) acc = Some (acc + sum_len (concat Bs)).
Proof.
  revert acc. induction Bs as [|bs Bs IH]; intros acc H0 H; cbn [map sum_bset_u64s concat] in *.
  { f_equal. change (sum_len []) with 0. lia. }
  rewrite sum_len_app in *. pose proof (sum_len_le bs). pose proof (sum_len_le (concat Bs)).
  rewrite Z.mod_small by lia. rewrite uadd_ok by lia. bind_simpl. rewrite IH by lia. f_equal. lia.
Qed.

(** The counters of a node are those of the sorted one. *)
Lemma nr_sorted B0 bs BM B1 ys : (length (B0 ++ (bs :: BM) ++ B1) <= MAX_BSETS)%nat -> ys ≡ₚ live_blocks (concat (bs :: BM)) ->
  sum_len (concat (bs :: BM)) < 2 ^ 16 ->
  let nr := nr_of (B0 ++ (bs :: BM) ++ B1) in
  let us := nr_bset_u64s nr in
  let start := length B0 in
  let end_ := (length B0 + S (length BM))%nat in
  let nsets := (length (B0 ++ (bs :: BM) ++ B1) - (end_ - start - 1))%nat in
  exists u0 u, us !! start = Some u0 /\ sum_bset_u64s (take (end_ - start - 1) (drop (S start) us)) u0 = Some u /\
    mk_nr_keys (live_u64s nr) (take nsets (shift_entries start end_ (<[start := u]> us)) ++ replicate (MAX_BSETS - nsets) 0)
      (packed_keys nr) (unpacked_keys nr) = nr_of (B0 ++ [ys] ++ B1).
Proof.
  intros Hl HP H16 nr us start end_ nsets.
  pose (c := fun bs : list (list Z) => sum_len bs mod 2 ^ 16).
  set (rest := replicate (MAX_BSETS - length (B0 ++ (bs :: BM) ++ B1)) 0).
  assert (us = map c B0 ++ c bs :: map c BM ++ (map c B1 ++ rest)) as Eus.
  { unfold us, nr, nr_of. cbn [nr_bset_u64s]. rewrite !map_app. cbn [map app]. fold rest. rewrite <- app_assoc. cbn [app]. by rewrite <- app_assoc. }
  rewrite !length_app in *. cbn [length] in *.
  assert (length (map c B0) = start) as L0 by apply length_map. assert (length (map c BM) = length BM) as LM by apply length_map.
  assert (length (map c B1) = length B1) as L1 by (apply length_map).
  destruct (live_counts ys (concat (bs :: BM))) as [Hsum Hcnt]; [by rewrite <- (live_blocks_idem (concat _)); apply live_blocks_perm|].
  cbn [concat] in Hsum, H16. pose proof (sum_len_le bs). pose proof (sum_len_le (concat BM)). rewrite sum_len_app in H16.
  exists (c bs), (c bs + sum_len (concat BM)). split; [|split].
  - rewrite Eus. by apply list_lookup_middle.
  - rewrite Eus, (cons_middle (c bs)), (app_assoc (map c B0)).
    replace (S start) with (length (map c B0 ++ [c bs])) by (rewrite length_app; cbn; lia). rewrite drop_app_length.
    replace (end_ - start - 1)%nat with (length (map c BM)) by (unfold end_; lia). rewrite take_app_length.
    apply sum_bset_u64s_spec; unfold c; rewrite Z.mod_small by lia; lia.
  - set (u := c bs + sum_len (concat BM)).
    assert (u = c ys) as Eu.
    { unfold u, c. rewrite Hsum, sum_len_app. rewrite !Z.mod_small by lia. done. }
    assert (<[start := u]> us = map c B0 ++ u :: map c BM ++ (map c B1 ++ rest)) as ->.
    { rewrite Eus, <- L0, insert_app_r_alt by lia. by rewrite Nat.sub_diag. }
    assert (shift_entries start end_ (map c B0 ++ u :: map c BM ++ (map c B1 ++ rest)) = map c (B0 ++ [ys] ++ B1) ++ rest) as ->.
    { unfold shift_entries. rewrite Eu. rewrite !map_app. cbn [map app].
      rewrite (cons_middle (c ys)), (app_assoc (map c B0)).
      replace (S start) with (length (map c B0 ++ [c ys])) by (rewrite length_app; cbn; lia). rewrite take_app_length.
      replace end_ with (length ((map c B0 ++ [c ys]) ++ map c BM)) by (rewrite !length_app; unfold end_; cbn; lia).
      rewrite (app_assoc (_ ++ _)), drop_app_length. cbn [app]. by rewrite <- !app_assoc. }
    replace nsets with (length (map c (B0 ++ [ys] ++ B1))) by (unfold nsets, end_, start; rewrite length_map, !length_app; cbn [length]; lia).
    rewrite take_app_length. unfold nr, nr_of. cbn [live_u64s packed_keys unpacked_keys]. rewrite length_map.
    rewrite !concat_app, !sum_len_app, !count_packed_app. change (concat [ys]) with (ys ++ []). rewrite app_nil_r, !Hcnt.
    change (sum_len (bs ++ concat BM)) with (sum_len (concat (bs :: BM))) in Hsum. by rewrite Hsum.
Qed.

(** ** The sets that are merged *)

Lemma sets_extent b ts Bs : Forall2 (set_holds b) ts Bs -> forall t bs M, set_holds b t bs -> in_memory_order (t :: ts) ->
  Forall (fun t => end_offset t <= M) (t :: ts) -> first_offset t + Z.of_nat (length (concat (concat (bs :: Bs)))) <= M.
Proof.
  induction 1 as [|t' bs' ts Bs Ht' Hs IH]; intros t bs M Ht Ho HM; apply Forall_cons_1 in HM as [HM HMs].
  - cbn [concat]. rewrite app_nil_r. pose proof (sh_end _ _ _ Ht). unfold first_offset. lia.
  - inversion Ho as [|? ? Ho' Hle]; subst. apply Forall_cons_1 in Hle as [Hle _]. specialize (IH t' bs' M Ht' Ho' HMs).
    cbn [concat] in *. rewrite !concat_app, !length_app in *. pose proof (sh_end _ _ _ Ht). unfold first_offset in *. lia.
Qed.

Lemma sum_input_spec b ts Bs : Forall2 (set_holds b) ts Bs -> sum_input_u64s b ts = Some (Z.of_nat (length (concat (concat Bs)))).
Proof.
  induction 1 as [|t bs ts Bs Ht _ IH]; [done|]. cbn [sum_input_u64s]. rewrite (sh_header _ _ _ Ht), IH. bind_simpl.
  cbn [concat]. rewrite concat_app, length_app. f_equal. lia.
Qed.

Lemma max_journal_seq_spec b ts Bs : words_wf (b_words b) -> Forall2 (set_holds b) ts Bs -> forall s, in_range 64 s ->
  exists m, max_journal_seq b ts s = Some m /\ in_range 64 m /\ s <= m /\
    (forall t x, t ∈ ts -> bset_journal_seq b t = Some x -> x <= m) /\
    (m = s \/ exists t, t ∈ ts /\ bset_journal_seq b t = Some m).
Proof.
  intros Hw. induction 1 as [|t bs ts Bs Ht _ IH]; intros s Hs; cbn [max_journal_seq].
  { exists s. split; [done|]. split; [done|]. split; [lia|]. split; [by intros t x ?%not_elem_of_nil|by left]. }
  destruct (sh_mem _ _ _ Ht) as (A & R & E & HA). pose proof (sh_offset _ _ _ Ht).
  destruct (lookup_lt_is_Some_2 (b_words b) (Z.to_nat (data_offset t + 1)) ltac:(rewrite E, length_app; lia)) as [x Ex].
  assert (bset_journal_seq b t = Some x) as Ejs by done. rewrite Ejs. bind_simpl.
  pose proof (Forall_lookup_1 _ _ _ _ Hw Ex) as Hx. cbn in Hx.
  destruct (IH (Z.max s x)) as (m & Em & Hm & Hsm & Hall & Hone); [unfold in_range in *; lia|]. exists m. split; [done|]. split; [done|].
  split; [lia|]. split.
  - intros t' y [->|Ht']%elem_of_cons Hy; [|by eapply Hall]. assert (y = x) as -> by congruence. lia.
  - destruct Hone as [->|(t' & Ht' & E')]; [|right; exists t'; split; [by right|done]].
    destruct (Z.max_spec s x) as [[_ ->]|[_ ->]]; [right; exists t; split; [by left|done]|by left].
Qed.

(** ** Sorting *)

(** The buffer of a node, and its first set. *)
Record node_buffer (n : bnode) : Prop := {
  nb_size : Z.of_nat (length (b_words (n_b n))) * 8 = btree_buf_bytes n;
  nb_first t : head (b_set (n_b n)) = Some t -> data_offset t = btree_node_keys
}.

Lemma shift_entries_app {A} (l0 : list A) x m l1 : shift_entries (length l0) (length l0 + S (length m)) (l0 ++ (x :: m) ++ l1) = l0 ++ [x] ++ l1.
Proof.
  unfold shift_entries. cbn [app].
  assert (take (S (length l0)) (l0 ++ x :: m ++ l1) = l0 ++ [x]) as ->.
  { rewrite cons_middle, app_assoc. replace (S (length l0)) with (length (l0 ++ [x])) by (rewrite length_app; cbn; lia). apply take_app_length. }
  replace (length l0 + S (length m))%nat with (length (l0 ++ x :: m)) by (rewrite length_app; cbn; lia).
  change (l0 ++ x :: m ++ l1) with (l0 ++ (x :: m) ++ l1). rewrite app_assoc, drop_app_length. by rewrite <- app_assoc.
Qed.

Lemma order_parts ts0 t tsr ts1 : in_memory_order (ts0 ++ (t :: tsr) ++ ts1) ->
  Forall (fun x => end_offset x <= data_offset t) ts0 /\ in_memory_order (t :: tsr) /\
  Forall (fun x => Forall (fun y => end_offset x <= data_offset y) ts1) (t :: tsr) /\ in_memory_order ts0 /\ in_memory_order ts1 /\
  Forall (fun x => Forall (fun y => end_offset x <= data_offset y) ts1) ts0.
Proof.
  unfold in_memory_order. intros H. apply StronglySorted_app in H as (H1 & H2 & H3). apply StronglySorted_app in H3 as (H4 & H5 & H6).
  setoid_rewrite Forall_forall. setoid_rewrite Forall_forall. split; [|split; [done|split; [|split; [done|split; [done|]]]]].
  - intros x Hx. apply H1; [done|]. apply elem_of_app. left. by left.
  - intros x Hx y Hy. by apply H4.
  - intros x Hx y Hy. apply H1; [done|]. apply elem_of_app. by right.
Qed.

Section Sorted.
Context (n : bnode) (ts0 : list bset_tree) (t : bset_tree) (tsr ts1 : list bset_tree).
Context (B0 : list (list (list Z))) (bs : list (list Z)) (BM B1 : list (list (list Z))).
Context (Hn : bnode_ok n (B0 ++ (bs :: BM) ++ B1)) (Ets : b_set (n_b n) = ts0 ++ (t :: tsr) ++ ts1).
Context (L0 : length B0 = length ts0) (LM : length BM = length tsr).
Notation b := (n_b n).

Lemma sets_parts : Forall2 (set_holds b) ts0 B0 /\ Forall2 (set_holds b) (t :: tsr) (bs :: BM) /\ Forall2 (set_holds b) ts1 B1 /\
  (length ts0 + S (length tsr) + length ts1 <= 3)%nat.
Proof.
  destruct Hn as [[_ _ Hs Hl _] _ _]. rewrite Ets in Hs, Hl. apply Forall2_app_inv in Hs as [H0 Hs]; [|done].
  apply Forall2_app_inv in Hs as [HM H1]; [|cbn; lia]. rewrite !length_app in Hl. cbn [length] in Hl. split; [done|]. split; [done|]. split; [done|lia].
Qed.

Lemma room_for_sorted : exists M, first_offset t + Z.of_nat (length (concat (concat (bs :: BM)))) <= M /\ M < 2 ^ 16 /\
  M <= Z.of_nat (length (b_words b)) /\ Forall (fun y => M <= data_offset y) ts1 /\ Forall (fun x => end_offset x <= data_offset t) ts0.
Proof.
  destruct sets_parts as (H0 & HM & H1 & Hl). pose proof (bn_holds _ _ Hn) as [_ _ _ _ Ho]. rewrite Ets in Ho.
  destruct (order_parts _ _ _ _ Ho) as (O0 & OM & O1 & _).
  set (M := foldr Z.max 0 (end_offset <$> t :: tsr)).
  assert (forall l x, x ∈ l -> x <= foldr Z.max 0 l) as Hge.
  { induction l as [|y l IH]; intros x Hx; [by apply not_elem_of_nil in Hx|]. cbn. apply elem_of_cons in Hx as [->|Hx]; [lia|]. specialize (IH x Hx). lia. }
  assert (forall l, l <> [] -> Forall (fun z => 0 <= z) l -> foldr Z.max 0 l ∈ l) as Hin.
  { induction l as [|y l IH]; intros Hl0 Hpos; [done|]. apply Forall_cons_1 in Hpos as [Hy Hpos]. cbn. destruct l as [|z l].
    - cbn. rewrite Z.max_l by done. by left.
    - specialize (IH ltac:(done) Hpos). destruct (Z.max_spec y (foldr Z.max 0 (z :: l))) as [[_ ->]|[_ ->]]; [by right|by left]. }
  assert (Forall (fun x => 0 <= end_offset x /\ end_offset x < 2 ^ 16 /\ end_offset x <= Z.of_nat (length (b_words b))) (t :: tsr)) as HE.
  { clear -HM. induction HM as [|x y l k Hx _ IH]; [constructor|]. apply Forall_cons_2; [|done].
    pose proof (sh_offset _ _ _ Hx). pose proof (sh_end _ _ _ Hx). pose proof (sh_range _ _ _ Hx). destruct (sh_mem _ _ _ Hx) as (A & R & E & HA).
    rewrite E, !length_app. lia. }
  assert (exists x, x ∈ t :: tsr /\ M = end_offset x) as (x & Hx & EM).
  { assert (M ∈ (end_offset <$> t :: tsr)) as HMin; [|by apply list_elem_of_fmap in HMin as (x & ? & ?); exists x].
    apply Hin; [done|]. apply Forall_fmap. eapply Forall_impl; [exact HE|]. by intros x [Hx _]. }
  exists M. rewrite Forall_forall in HE. destruct (HE x Hx) as (_ & Hx1 & Hx2). split; [|split; [lia|split; [lia|split; [|done]]]].
  - inversion HM as [|? ? ? ? Ht Hr]; subst. eapply (sets_extent b tsr BM Hr t bs M Ht OM).
    rewrite Forall_forall. intros y Hy. apply Hge. by apply list_elem_of_fmap_2.
  - rewrite EM. rewrite Forall_forall in O1. by apply O1.
Qed.

(** The node that sorting leaves. *)
Definition sorted_set (ys : list (list Z)) : bset_tree :=
  mk_bset_tree 0 BSET_NO_AUX_TREE_VAL (data_offset t) (MAX 16) (first_offset t + Z.of_nat (length (concat ys))).

Definition sorted_btree (seq : Z) (ys : list (list Z)) : btree :=
  mk_btree (b_format b) (b_nr_key_bits b) (sorted_words (b_words b) t seq (concat ys)) (ts0 ++ sorted_set ys :: (no_aux <$> ts1)).

Lemma sorted_btree_holds seq ys : in_range 64 seq -> ys ≡ₚ live_blocks (concat (bs :: BM)) ->
  StronglySorted (fun x y => block_pos_val (b_format b) x <= block_pos_val (b_format b) y) ys ->
  node_holds (sorted_btree seq ys) (B0 ++ [ys] ++ B1).
Proof.
  intros Hseq HP Hs. destruct sets_parts as (H0 & HM & H1 & Hl). destruct room_for_sorted as (M & HM1 & HM16 & HMl & HMr & HM0).
  pose proof (bn_holds _ _ Hn) as [Hwf Hw _ _ Ho]. rewrite Ets in Ho. destruct (order_parts _ _ _ _ Ho) as (_ & _ & _ & Oi0 & Oi1 & O01).
  assert (Z.of_nat (length (concat ys)) <= Z.of_nat (length (concat (concat (bs :: BM))))) as Hlen.
  { rewrite HP. pose proof (sum_len_le (concat (bs :: BM))) as H. unfold sum_len in H. lia. }
  inversion HM as [|? ? ? ? Ht _]; subst. pose proof (sh_offset _ _ _ Ht) as Ht0.
  assert (Forall (fun y => block_ok (b_format b) y /\ bkey_deleted y = false) ys) as Hys.
  { rewrite HP, Forall_forall. intros y Hy. apply list_elem_of_In, List.filter_In in Hy as [Hy Hd]. split; [|by apply negb_true_iff].
    apply list_elem_of_In in Hy. clear -HM Hy. induction HM as [|x z l k Hx _ IH]; [by apply not_elem_of_nil in Hy|].
    cbn [concat] in Hy. apply elem_of_app in Hy as [Hy|Hy]; [|by apply IH]. pose proof (sh_blocks _ _ _ Hx) as Hb. rewrite Forall_forall in Hb. by apply Hb. }
  assert (words_wf (concat ys)) as Hyw.
  { clear -Hys. induction Hys as [|y ys [Hy _] _ IH]; [constructor|]. cbn. apply Forall_app. split; [apply Hy|done]. }
  split; cbn [sorted_btree b_words b_set].
  - by destruct Hwf; split.
  - unfold first_offset in *. apply sorted_words_wf; [done|done|done|lia].
  - apply Forall2_app; [|constructor].
    + rewrite Forall_forall in HM0. eapply (Forall2_impl (fun x y => set_holds b x y /\ end_offset x <= data_offset t)).
      2: { intros x y [Hx He]. apply (set_holds_window b); [done| |done]. intros i Hi.
           apply sorted_words_same; [done|lia|left; lia]. }
      clear -H0 HM0. induction H0 as [|x y l k Hx _ IH]; [constructor|]. constructor; [split; [done|apply HM0; by left]|]. apply IH. intros z Hz. apply HM0. by right.
    + apply (sorted_words_holds b t seq ys); try done; unfold first_offset in *; try lia.
      * eapply Forall_impl; [exact Hys|]. by intros y [Hy _].
      * assert (Forall (fun y => bkey_deleted y = false) ys) as Hd by (eapply Forall_impl; [exact Hys|]; by intros y [_ Hy]).
        clear -Hs Hd. induction Hs as [|y ys Hs IH Hy]; [constructor|]. apply Forall_cons_1 in Hd as [Hdy Hd]. constructor; [by apply IH|].
        rewrite Forall_forall in *. intros z Hz. specialize (Hy z Hz). unfold block_le, block_val, block_pos_val in *. rewrite Hdy, (Hd z Hz). lia.
    + apply Forall2_fmap_l. rewrite Forall_forall in HMr.
      assert (forall x y, x ∈ ts1 -> set_holds b x y -> set_holds (sorted_btree seq ys) (no_aux x) y) as Himp.
      { intros x y Hx Hxy. specialize (HMr x Hx). apply (set_holds_ext _ x (no_aux x)); [done|done|]. apply (set_holds_window b); [done| |done].
        intros i Hi. apply sorted_words_same; [done|lia|right; lia]. }
      clear -H1 Himp. induction H1 as [|x y l k Hx _ IH]; [constructor|]. constructor; [apply Himp; [by left|done]|]. apply IH. intros; apply Himp; [by right|done].
  - rewrite length_app. cbn [length]. rewrite length_fmap. lia.
  - unfold in_memory_order. apply StronglySorted_app. rewrite Forall_forall in HM0, HMr. setoid_rewrite Forall_forall in O01.
    split; [|split; [done|]].
    + intros x y Hx Hy. apply elem_of_cons in Hy as [->|Hy]; [by apply HM0|]. apply list_elem_of_fmap in Hy as (z & -> & Hz). cbn. by apply (proj1 (Forall_forall _ _) (O01 x Hx)).
    + constructor.
      * by apply (sorted_fmap no_aux (fun t t' => end_offset t <= data_offset t')).
      * rewrite Forall_forall. intros y Hy. apply list_elem_of_fmap in Hy as (z & -> & Hz). cbn. specialize (HMr z Hz). lia.
Qed.

(** Sorting a part of the node. *)
Lemma node_sort_spec : n_nr n = nr_of (B0 ++ (bs :: BM) ++ B1) -> node_buffer n -> exists n' ys seq,
  bch2_btree_node_sort n (length ts0) (length ts0 + S (length tsr)) = Some n' /\
  ys ≡ₚ live_blocks (concat (bs :: BM)) /\ updated n n' (B0 ++ [ys] ++ B1) /\
  max_journal_seq b (t :: tsr) 0 = Some seq /\ n_b n' = sorted_btree seq ys /\ n_byte_order n' = n_byte_order n.
Proof.
  intros Hnr Hbuf. destruct sets_parts as (H0 & HM & H1 & Hl). destruct room_for_sorted as (M & HM1 & HM16 & HMl & HMr & HM0).
  pose proof (bn_holds _ _ Hn) as Hnode. pose proof Hnode as [Hwf Hw _ _ Ho]. rewrite Ets in Ho.
  destruct (order_parts _ _ _ _ Ho) as (_ & OM & _).
  assert (sets_hold b (t :: tsr) (bs :: BM)) as Hss by (split; [done|done|done|cbn; (unfold MAX_BSETS; lia)|done]).
  destruct (sort_keys_spec b (t :: tsr) (bs :: BM) Hss) as (iter & ys & Eit & Eout & HP & Hs).
  destruct (max_journal_seq_spec b _ _ Hw HM 0) as (seq & Eseq & Hseq & _); [unfold in_range; lia|].
  assert (Z.of_nat (length (concat ys)) <= Z.of_nat (length (concat (concat (bs :: BM))))) as Hlen.
  { rewrite HP. pose proof (sum_len_le (concat (bs :: BM))) as H. unfold sum_len in H. lia. }
  pose proof (sorted_btree_holds seq ys Hseq HP Hs) as Hnode'.
  inversion HM as [|? ? ? ? Ht _]; subst. pose proof (sh_offset _ _ _ Ht) as Ht0.
  destruct (write_sorted b t seq (concat ys)) as (b1 & b2 & E1 & E2 & E3 & Ef & Ek & Es); [done|lia|unfold first_offset in *; lia|].
  assert (length B1 = length ts1) as L1 by (symmetry; by eapply Forall2_length).
  destruct (nr_sorted B0 bs BM B1 ys) as (u0 & u & Eu0 & Eu & Enr).
  { rewrite !length_app. cbn [length]. unfold MAX_BSETS. lia. } { done. }
  { pose proof (sum_len_le (concat (bs :: BM))). unfold first_offset in *. lia. }
  cbn zeta in Eu0, Eu, Enr. rewrite L0 in Eu0. rewrite L0, LM in Eu. rewrite !length_app, L0 in Enr. cbn [length] in Enr. rewrite LM in Enr.
  assert (Hb : length (b_set b) = (length ts0 + S (length tsr) + length ts1)%nat) by (rewrite Ets, !length_app; cbn [length]; lia).
  set (t' := mk_bset_tree (size t) (extra t) (data_offset t) (aux_data_offset t) (first_offset t + Z.of_nat (length (concat ys)))).
  assert (Et' : forall b3, b_words b3 = sorted_words (b_words b) t seq (concat ys) -> set_btree_bset_end b3 t = Some t').
  { intros b3 E. unfold set_btree_bset_end.
    assert (bset_header_u64s b3 t = Some (Z.of_nat (length (concat ys)))) as ->.
    { destruct Hnode' as [_ _ Hs' _ _]. cbn [b_set sorted_btree] in Hs'. apply Forall2_app_inv in Hs' as [_ Hs']; [|done].
      inversion Hs' as [|? ? ? ? Hx _]; subst. pose proof (sh_header _ _ _ Hx) as Hh. unfold bset_header_u64s in *. rewrite E. exact Hh. }
    bind_simpl. rewrite (proj2 (assert_true _)) by (unfold first_offset in *; apply Z.ltb_lt; lia). bind_simpl. unfold t', first_offset. do 2 f_equal. lia. }
  assert (exists nr, nr = nr_of (B0 ++ [ys] ++ B1) /\
    bch2_btree_node_sort n (length ts0) (length ts0 + S (length tsr)) =
    Some (mk_bnode (sorted_btree seq ys) (shift_entries (length ts0) (length ts0 + S (length tsr)) (n_aux n)) nr (n_byte_order n)))
    as (nr & -> & E).
  { exists (nr_of (B0 ++ [ys] ++ B1)). split; [done|]. unfold bch2_btree_node_sort.
    rewrite (proj2 (assert_true _)) by (apply andb_true_iff; split; [apply Nat.ltb_lt|apply Nat.leb_le]; lia). bind_simpl.
    assert (b_set b !! length ts0 = Some t) as -> by (rewrite Ets; by apply list_lookup_middle). bind_simpl.
    replace (length ts0 + S (length tsr) - length ts0)%nat with (S (length tsr)) by lia.
    assert (take (S (length tsr)) (drop (length ts0) (b_set b)) = t :: tsr) as ->.
    { rewrite Ets, drop_app_length. cbn [app take]. by rewrite take_app_length. }
    rewrite Eit. bind_simpl. rewrite (sum_input_spec b _ _ HM). bind_simpl. rewrite Eout. bind_simpl.
    rewrite (proj2 (assert_true _)); [bind_simpl|].
    2: { apply Z.leb_le. destruct (_ && _) eqn:Eall; [|unfold btree_node_bytes; lia].
         apply andb_true_iff in Eall as [E0 _]. apply Nat.eqb_eq in E0. destruct ts0 as [|]; [|done]. destruct Hbuf as [Hsz Hfirst].
         rewrite Ets in Hfirst. specialize (Hfirst t eq_refl). unfold first_offset, btree_node_keys, btree_node_bytes in *. lia. }
    rewrite Eseq. bind_simpl. rewrite E1. bind_simpl.
    rewrite Z.mod_small by (unfold first_offset in *; lia). rewrite E2. bind_simpl. rewrite Nat2Z.id, firstn_all, E3. bind_simpl.
    rewrite Hnr. replace (S (length tsr) - 1)%nat with (length ts0 + S (length tsr) - length ts0 - 1)%nat by lia.
    rewrite Eu0. bind_simpl. rewrite Eu. bind_simpl. rewrite (Et' (with_words b2 _) ltac:(done)). bind_simpl.
    cbn [b_set b_format b_nr_key_bits b_words with_words]. rewrite Es, Ef, Ek, Ets.
    rewrite shift_entries_app. rewrite insert_app_r_alt by lia. rewrite Nat.sub_diag. cbn [app insert list_insert].
    unfold bch2_bset_set_no_aux_tree. rewrite take_app_length, drop_app_length. cbn [fmap list_fmap].
    assert (no_aux t' = sorted_set ys) as -> by done.
    fold (sorted_btree seq ys). rewrite (count_keys_spec _ _ Hnode'). bind_simpl.
    replace (length (ts0 ++ t :: tsr ++ ts1)) with (length ts0 + (S (length tsr) + length ts1))%nat by (rewrite length_app; cbn [length]; rewrite length_app; lia).
    rewrite L1 in Enr. cbn [app] in Enr |- *. rewrite Enr. rewrite (proj2 (assert_true _)) by by apply bool_decide_eq_true. by bind_simpl. }
  eexists _, ys, seq. split; [exact E|]. split; [done|]. split; [|done]. split; [|split; [done|split; [by apply count_keys_spec|done]]].
  split; cbn [n_b n_aux n_nr n_byte_order]; [exact Hnode'| |].
  - pose proof (bn_aux _ _ Hn) as Ha. rewrite Ets in Ha. apply Forall3_app_inv_l in Ha as (a0 & a1 & Bx & By & Ea & Eb & Ha0 & Ha1).
    pose proof (Forall3_length_lr _ _ _ _ Ha0) as Hl0. apply app_inj_1 in Eb as [<- <-]; [|lia].
    apply Forall3_app_inv_l in Ha1 as (am & a2 & Bx & By & -> & Eb & Ham & Ha2). pose proof (Forall3_length_lr _ _ _ _ Ham) as Hlm.
    apply app_inj_1 in Eb as [<- <-]; [|cbn [length] in *; lia]. inversion Ham as [|? a ? ? am' ? Hat Ham' ]; subst.
    pose proof (Forall3_length_lm _ _ _ _ Ha0) as La0. pose proof (Forall3_length_lm _ _ _ _ Ham') as Lam.
    rewrite Ea, La0, Lam, shift_entries_app. cbn [b_set sorted_btree].
    assert (forall x y z, bset_aux_tree_type x = Some BSET_NO_AUX_TREE -> set_aux (sorted_btree seq ys) (n_byte_order n) x y z) as Hno.
    { intros x y z Hx. split; [by left|]. intros Hx'. rewrite Hx in Hx'. done. }
    apply Forall3_app; [|constructor; [by apply Hno|]].
    + pose proof (nh_sets _ _ Hnode') as Hs'. cbn [b_set sorted_btree] in Hs'. apply Forall2_app_inv in Hs' as [Hs' _]; [|done].
      eapply other_sets_aux; [exact Hwf|exact Hw|apply Hnode'| |exact H0|exact Hs'|exact Ha0]. reflexivity.
    + clear -Ha2 Hno. induction Ha2 as [|? ? ? ? ? ? _ _ IH]; [constructor|]. constructor; [by apply Hno|exact (IH Hno)].
  - unfold nr_of. cbn [nr_bset_u64s]. rewrite length_app, length_map, length_replicate, !length_app. cbn [length]. unfold MAX_BSETS. lia.
Qed.
End Sorted.

Lemma range_parts {A} (l : list A) s e : (s < e <= length l)%nat -> exists x m,
  l = take s l ++ (x :: m) ++ drop e l /\ take (e - s) (drop s l) = x :: m /\ length (take s l) = s /\ S (length m) = (e - s)%nat.
Proof.
  intros H. assert (length (take (e - s) (drop s l)) = (e - s)%nat) as Hl by (rewrite length_take, length_drop; lia).
  destruct (take (e - s) (drop s l)) as [|x m] eqn:E; cbn [length] in Hl; [lia|]. exists x, m. split; [|split; [done|split; [rewrite length_take; lia|done]]].
  rewrite <- E. replace (drop e l) with (drop (e - s) (drop s l)) by (rewrite drop_drop; f_equal; lia). by rewrite take_drop, take_drop.
Qed.

Lemma node_sort_range n Bs s e : bnode_ok n Bs -> n_nr n = nr_of Bs -> node_buffer n -> (s < e <= length Bs)%nat ->
  exists n' ys, bch2_btree_node_sort n s e = Some n' /\ ys ≡ₚ live_blocks (concat (take (e - s) (drop s Bs))) /\
    updated n n' (take s Bs ++ [ys] ++ drop e Bs) /\ node_buffer n' /\
    map data_offset (b_set (n_b n')) = map data_offset (take (S s) (b_set (n_b n)) ++ drop e (b_set (n_b n))) /\
    exists t seq, b_set (n_b n) !! s = Some t /\ max_journal_seq (n_b n) (take (e - s) (drop s (b_set (n_b n)))) 0 = Some seq /\
      bset_journal_seq (n_b n') t = Some seq.
Proof.
  intros Hn Hnr Hbuf Hse. pose proof (Forall2_length _ _ _ (nh_sets _ _ (bn_holds _ _ Hn))) as Hlen.
  destruct (range_parts Bs s e Hse) as (bs & BM & EB & EM & Hs0 & HsM).
  destruct (range_parts (b_set (n_b n)) s e ltac:(lia)) as (t & tsr & Et & Etm & Ht0 & HtM).
  rewrite EB in Hn, Hnr.
  destruct (node_sort_spec n (take s (b_set (n_b n))) t tsr (drop e (b_set (n_b n))) (take s Bs) bs BM (drop e Bs) Hn Et ltac:(lia) ltac:(lia) Hnr Hbuf)
    as (n' & ys & seq & E & HP & Hu & Eseq & Eb & Eo).
  rewrite Ht0 in E. replace (s + S (length tsr))%nat with e in E by lia. exists n', ys. split; [done|]. rewrite EM. split; [done|]. split; [done|].
  assert (Hle : 0 <= data_offset t /\ first_offset t + Z.of_nat (length (concat ys)) <= Z.of_nat (length (b_words (n_b n)))).
  { pose proof (bn_holds _ _ (proj1 Hu)) as [_ _ Hs' _ _]. rewrite Eb in Hs'. cbn [b_set sorted_btree] in Hs'.
    apply Forall2_app_inv in Hs' as [_ Hs']; [|lia]. inversion Hs' as [|? ? ? ? Hx _]; subst. pose proof (sh_offset _ _ _ Hx) as Hx0. cbn in Hx0. split; [done|].
    destruct (room_for_sorted n _ t tsr _ _ bs BM _ Hn Et ltac:(lia) ltac:(lia)) as (M & HM1 & _ & HM2 & _).
    assert (Z.of_nat (length (concat ys)) <= Z.of_nat (length (concat (concat (bs :: BM))))); [|lia].
    rewrite HP. pose proof (sum_len_le (concat (bs :: BM))) as H. unfold sum_len in H. lia. }
  destruct Hle as [Hle0 Hle].
  assert (b_set (n_b n) !! s = Some t) as Hts by (rewrite Et, <- Ht0 at 1; rewrite Ht0; apply list_lookup_middle; by rewrite Ht0).
  split; [split|split].
  - unfold btree_buf_bytes. rewrite Eo, Eb. cbn [b_words sorted_btree]. unfold sorted_words, copy_words. unfold first_offset in *.
    rewrite !length_app, length_take, length_drop, !length_insert. pose proof (nb_size _ Hbuf) as Hsz. unfold btree_buf_bytes in Hsz. rewrite <- Hsz. lia.
  - intros t0. rewrite Eb. cbn [b_set sorted_btree]. pose proof (nb_first _ Hbuf) as Hf. rewrite Et in Hf.
    destruct (take s (b_set (n_b n))) as [|t1 l]; intros H; injection H as <-; [by apply (Hf t)|by apply (Hf t1)].
  - rewrite Eb. cbn [b_set sorted_btree].
    assert (take (S s) (b_set (n_b n)) = take s (b_set (n_b n)) ++ [t]) as ->.
    { apply take_S_r, Hts. }
    rewrite !map_app, <- app_assoc. cbn [map app]. f_equal. f_equal. by rewrite map_map.
  - exists t, seq. rewrite Etm. split; [done|]. split; [done|].
    rewrite Eb. unfold bset_journal_seq. cbn [b_words sorted_btree]. unfold sorted_words. unfold first_offset in *.
    rewrite copy_words_lookup_out; [|rewrite !length_insert; lia|left; lia]. rewrite list_lookup_insert_ne by lia. apply list_lookup_insert_eq. lia.
Qed.

(** Sorting adjacent sets of a node together replaces them by one set with
    exactly their live keys in order; the other sets, the counters and the
    search structures stay right, and the set has the newest journal sequence
    number of those it replaces. *)
Theorem node_sort_refines (n : bnode) (Bs : list (list (list Z))) (start_idx end_idx : nat) (Hn : bnode_ok n Bs)
    (Hnr : n_nr n = nr_of Bs) (Hbuf : node_buffer n) (Hidx : (start_idx < end_idx <= length Bs)%nat) :
  exists n' ys t seq, bch2_btree_node_sort n start_idx end_idx = Some n' /\
    ys ≡ₚ live_blocks (concat (take (end_idx - start_idx) (drop start_idx Bs))) /\
    updated n n' (take start_idx Bs ++ [ys] ++ drop end_idx Bs) /\
    b_set (n_b n) !! start_idx = Some t /\ bset_journal_seq (n_b n') t = Some seq /\
    max_journal_seq (n_b n) (take (end_idx - start_idx) (drop start_idx (b_set (n_b n)))) 0 = Some seq.
Proof.
  destruct (node_sort_range n Bs start_idx end_idx Hn Hnr Hbuf Hidx) as (n' & ys & E & HP & Hu & _ & _ & t & seq & Et & Em & Es).
  by exists n', ys, t, seq.
Qed.

(** The loop stops behind the leading sets that begin in the part of the node
    already written. *)
Lemma unwritten_sets_spec written ts w i : (w <= length ts)%nat ->
  (forall k t, (k < w)%nat -> ts !! k = Some t -> data_offset t * 8 < written * 512) ->
  (forall t, ts !! w = Some t -> written * 512 <= data_offset t * 8) -> unwritten_sets written ts i = (i + w)%nat.
Proof.
  revert w i. induction ts as [|t ts IH]; intros w i Hw Hlt Hge; cbn [unwritten_sets].
  - cbn in Hw. lia.
  - unfold bset_written. destruct w as [|w].
    + rewrite (proj2 (Z.ltb_ge _ _)) by (by apply Hge). lia.
    + rewrite (proj2 (Z.ltb_lt _ _)) by (by apply (Hlt 0%nat); [lia|]).
      rewrite (IH w (S i)); [lia|cbn in Hw; lia|intros k x Hk; apply (Hlt (S k)); lia|apply Hge].
Qed.

Lemma live_parts (Bs : list (list (list Z))) s e ys : (s <= e)%nat -> ys ≡ₚ live_blocks (concat (take (e - s) (drop s Bs))) ->
  live_blocks (concat (take s Bs ++ [ys] ++ drop e Bs)) ≡ₚ live_blocks (concat Bs).
Proof.
  intros Hse HP. rewrite !concat_app. change (concat [ys]) with (ys ++ []). rewrite app_nil_r, !live_blocks_app.
  rewrite (live_blocks_perm _ _ HP), live_blocks_idem.
  rewrite <- (take_drop s Bs) at 4. rewrite <- (take_drop (e - s) (drop s Bs)) at 2. rewrite drop_drop. replace (s + (e - s))%nat with e by lia.
  by rewrite !concat_app, !live_blocks_app.
Qed.

(** Several sets sorted into one; one or none are left alone. *)
Definition merged (Bs' Bs : list (list (list Z))) : Prop :=
  if (1 <? length Bs)%nat then exists ys, Bs' = [ys] /\ ys ≡ₚ live_blocks (concat Bs) else Bs' = Bs.

Lemma take_1_id {A} (l : list A) : (length l <= 1)%nat -> take 1 l = l.
Proof. intros H. by rewrite take_ge by lia. Qed.

(** C27: Compacting a node sorts the leading sets, those that begin in the part
    already written, into one set that begins where the first of them did, and
    the others, not yet written, into one that begins where the first of those
    did: each with exactly the live keys of the sets it replaces, the counters
    and search structures right.  A single set of either kind is left alone, and
    the result says whether anything was sorted. *)
Theorem node_compact_refines (written : Z) (n : bnode) (Bs : list (list (list Z))) (w : nat) (Hn : bnode_ok n Bs)
    (Hnr : n_nr n = nr_of Bs) (Hbuf : node_buffer n) (Hlen : (w <= length Bs)%nat)
    (Hw : forall k t, (k < w)%nat -> b_set (n_b n) !! k = Some t -> data_offset t * 8 < written * 512)
    (Hu : forall t, b_set (n_b n) !! w = Some t -> written * 512 <= data_offset t * 8) :
  exists n' Bw Bu, bch2_btree_node_compact written n = Some ((1 <? length Bs - w)%nat || (1 <? w)%nat, n') /\
    bnode_ok n' (Bw ++ Bu) /\ n_nr n' = nr_of (Bw ++ Bu) /\ merged Bw (take w Bs) /\ merged Bu (drop w Bs) /\
    map data_offset (b_set (n_b n')) = map data_offset (take 1 (take w (b_set (n_b n))) ++ take 1 (drop w (b_set (n_b n)))) /\
    live_blocks (concat (Bw ++ Bu)) ≡ₚ live_blocks (concat Bs) /\
    ((length Bs - w <= 1)%nat -> (w <= 1)%nat -> n' = n).
Proof.
  pose proof (Forall2_length _ _ _ (nh_sets _ _ (bn_holds _ _ Hn))) as Hl.
  set (ts := b_set (n_b n)) in *. unfold bch2_btree_node_compact. fold ts.
  rewrite (unwritten_sets_spec written ts w 0), Nat.add_0_l, Hl by (done || lia).
  assert (exists n1 Bu, (if (1 <? length Bs - w)%nat then n ← bch2_btree_node_sort n w (length Bs); Some (true, n) else Some (false, n)) =
      Some ((1 <? length Bs - w)%nat, n1) /\ bnode_ok n1 (take w Bs ++ Bu) /\ n_nr n1 = nr_of (take w Bs ++ Bu) /\ node_buffer n1 /\
      merged Bu (drop w Bs) /\ map data_offset (b_set (n_b n1)) = map data_offset (take w ts ++ take 1 (drop w ts)) /\
      live_blocks (concat (take w Bs ++ Bu)) ≡ₚ live_blocks (concat Bs) /\ ((length Bs - w <= 1)%nat -> n1 = n))
    as (n1 & Bu & -> & Hn1 & Hnr1 & Hbuf1 & Hm1 & Ho1 & HP1 & Hsame1).
  { unfold merged. rewrite length_drop. destruct (Nat.ltb_spec 1 (length Bs - w)) as [Hlt|Hge].
    - destruct (node_sort_range n Bs w (length Bs) Hn Hnr Hbuf ltac:(lia)) as (n' & ys & E & HP & (Hn' & Hnr' & _) & Hbuf' & Hof & _).
      rewrite E. bind_simpl. rewrite drop_all, app_nil_r in Hn', Hnr'. rewrite take_ge in HP by (rewrite length_drop; lia).
      exists n', [ys]. split; [done|]. split; [done|]. split; [done|]. split; [done|]. split; [by exists ys|]. split; [|split; [|lia]].
      + rewrite Hof. fold ts. rewrite (drop_ge ts) by lia. rewrite app_nil_r. f_equal. by rewrite take_take_drop, Nat.add_1_r.
      + pose proof (live_parts Bs w (length Bs) ys ltac:(lia)) as H. rewrite drop_all, app_nil_r in H. apply H.
        by rewrite take_ge by (rewrite length_drop; lia).
    - exists n, (drop w Bs). rewrite take_drop. do 5 (split; [done|]). split; [|done].
      rewrite (take_1_id (drop w ts)) by (rewrite length_drop; lia). by rewrite take_drop. }
  bind_simpl. assert (length (take w Bs) = w) as Htw by (rewrite length_take; lia).
  unfold merged at 1. rewrite Htw. destruct (Nat.ltb_spec 1 w) as [Hlt|Hge].
  - destruct (node_sort_range n1 (take w Bs ++ Bu) 0 w Hn1 Hnr1 Hbuf1 ltac:(rewrite length_app; lia))
      as (n' & ys & E & HP & (Hn' & Hnr' & _) & _ & Hof & _).
    rewrite Nat.sub_0_r, drop_0 in HP. rewrite E. bind_simpl. rewrite orb_true_r.
    rewrite drop_app_length' in Hn', Hnr' by done. rewrite take_app_length' in HP by done.
    exists n', [ys], Bu. split; [done|]. split; [exact Hn'|]. split; [done|]. split; [by exists ys|]. split; [done|]. split; [|split; [|lia]].
    + rewrite Hof, map_app, <- firstn_map, <- skipn_map, Ho1, map_app.
      assert (length (map data_offset (take w ts)) = w) as Hlw by (rewrite length_map, length_take; fold ts in Hl; lia).
      rewrite drop_app_length' by done. rewrite take_app_le by lia. by rewrite map_app, firstn_map.
    + rewrite <- HP1. pose proof (live_parts (take w Bs ++ Bu) 0 w ys ltac:(lia)) as H.
      rewrite Nat.sub_0_r, drop_0, take_0, drop_app_length', take_app_length' in H by done. by apply H.
  - rewrite orb_false_r. exists n1, (take w Bs), Bu. split; [done|]. do 4 (split; [done|]). split; [|by split; [|intros H _; apply Hsame1]].
    by rewrite (take_1_id (take w ts)) by (rewrite length_take; lia).
Qed.

(** A node with two sets that have not been written; position 30 is deleted. *)
Definition sample_compact : bnode :=
  mk_bnode (mk_btree BKEY_FORMAT_CURRENT 160
    (replicate 17 0 ++ [0; 5; 10 * 2 ^ 48] ++ sample_key 1 10 ++ sample_key 0 30 ++ [0; 7; 5 * 2 ^ 48] ++ sample_key 1 20 ++ replicate 26 0)
    [mk_bset_tree 0 BSET_NO_AUX_TREE_VAL 17 0 30; mk_bset_tree 0 BSET_NO_AUX_TREE_VAL 30 0 38])
  [mk_aux [] [] 0; mk_aux [] [] 0] (nr_of [[sample_key 1 10; sample_key 0 30]; [sample_key 1 20]]) 9.

Lemma sample_compact_ok : bnode_ok sample_compact [[sample_key 1 10; sample_key 0 30]; [sample_key 1 20]].
Proof.
  pose proof sample_key_block as Hs.
  split; [split|..]; cbn [n_b n_aux n_nr sample_compact b_words b_set].
  - split; [apply current_format_wf|reflexivity].
  - unfold words_wf, sample_key. rewrite !Forall_app. split; [by apply Forall_replicate|].
    split; [|split; [|split; [|split; [|split; [|by apply Forall_replicate]]]]]; repeat (apply List.Forall_cons; [unfold in_range; lia|]); apply List.Forall_nil.
  - constructor; [|constructor; [|constructor]]; (split; cbn [data_offset end_offset]; [lia|done|lia|by vm_compute|..]).
    + by eexists (replicate 17 0 ++ [_; _; _]), _.
    + apply Forall_cons_2; [apply Hs; auto|]. apply Forall_cons_2; [apply Hs; auto|constructor].
    + repeat constructor. vm_compute. discriminate.
    + by eexists (replicate 17 0 ++ [_; _; _] ++ sample_key 1 10 ++ sample_key 0 30 ++ [_; _; _]), _.
    + apply Forall_cons_2; [apply Hs; auto|constructor].
    + repeat constructor.
  - cbn. lia.
  - repeat constructor. cbn. lia.
  - constructor; [|constructor; [|constructor]]; (split; [by left|done]).
  - reflexivity.
Qed.

Lemma sample_compact_buffer : node_buffer sample_compact.
Proof. split; [reflexivity|]. intros t H. by injection H as <-. Qed.

Lemma node_sort_refines_witness : exists n', bch2_btree_node_sort sample_compact 0 2 = Some n' /\
  b_set (n_b n') = [mk_bset_tree 0 BSET_NO_AUX_TREE_VAL 17 (MAX 16) 30] /\ n_nr n' = nr_of [[sample_key 1 10; sample_key 1 20]].
Proof.
  destruct (node_sort_refines sample_compact _ 0 2 sample_compact_ok eq_refl sample_compact_buffer) as (n' & ys & t & seq & E & _); [cbn; lia|].
  exists n'. split; [exact E|]. vm_compute in E. injection E as <-. split; reflexivity.
Defined.

(** Neither of the two sets has been written: they become one. *)
Lemma node_compact_refines_witness : exists n', bch2_btree_node_compact 0 sample_compact = Some (true, n') /\
  map data_offset (b_set (n_b n')) = [17] /\ (exists ys, merged [ys] [[sample_key 1 10; sample_key 0 30]; [sample_key 1 20]]).
Proof.
  destruct (node_compact_refines 0 sample_compact _ 0 sample_compact_ok eq_refl sample_compact_buffer) as
    (n' & Bw & Bu & E & _ & _ & _ & Hm & Ho & _).
  - cbn. lia.
  - intros k t Hk. lia.
  - intros t H. injection H as <-. cbn. lia.
  - exists n'. split; [exact E|]. split; [exact Ho|]. pose proof Hm as (ys & -> & _). exists ys. exact Hm.
Defined.
