(* ===== verification/BsetTree.v ===== *)
(** * Building the search structures of a node ([btree/bset_build.rs])

    The set of a node that may still be written to gets a table of keys,
    every other set a tree of abbreviated keys in Eytzinger order: for each
    line of 256 bytes but the first the first key in it or behind it, of
    which sixteen bits are kept that tell it from the keys above it in the
    tree.  [bset_search.rs] compares these bits and falls back to comparing
    keys. *)

From stdpp Require Import base tactics list option sorting.
From Stdlib Require Import ZArith Lia.
From S2P Require Import Prelude Eytzinger Bpos BkeyPack BkeyOrder NodeIter BsetSearch BsetMem BsetTable BsetUpdate BsetSort NodeSort.

Open Scope Z_scope.

(** ** Where the auxiliary data of a set lies

    Offsets in words of the buffer that follows the keys of a node. *)

Definition SMP_CACHE_BYTES : Z := 64.

(** [size_of::<bkey_float>() = 4] and [size_of::<rw_aux_tree>() = 24]. *)
Definition bset_aux_tree_buf_end (t : bset_tree) : option Z :=
  ty ← bset_aux_tree_type t;
  Some match ty with
       | BSET_NO_AUX_TREE => aux_data_offset t
       | BSET_RO_AUX_TREE => aux_data_offset t + (size t * 4 + 7) / 8
       | BSET_RW_AUX_TREE => aux_data_offset t + (24 * size t + 7) / 8
       end.

(** [unpack_fn_len] is always 0. *)
Definition bset_aux_tree_buf_start (ts : list bset_tree) (i : nat) : option Z :=
  match i with O => Some 0 | S i => t ← ts !! i; bset_aux_tree_buf_end t end.

Definition bset_alloc_tree (ts : list bset_tree) (i : nat) : option (list bset_tree) :=
  let ts := bch2_bset_set_no_aux_tree ts i in
  start ← bset_aux_tree_buf_start ts i;
  t ← ts !! i;
  o ← umul 16 ((start + 7) / 8 mod 2 ^ 16) (SMP_CACHE_BYTES / 8);
  Some (<[i := mk_bset_tree (size t) (extra t) (data_offset t) o (end_offset t)]> ts).

Definition bset_tree_capacity_bytes (byte_order : Z) (t : bset_tree) : option Z :=
  usub (__btree_aux_data_bytes byte_order) (aux_data_offset t * 8).
Definition bset_ro_tree_capacity (byte_order : Z) (t : bset_tree) : option Z :=
  n ← bset_tree_capacity_bytes byte_order t; Some (n / 4).

Definition bkey_to_cacheline_offset (a : aux) (t : bset_tree) (cacheline k : Z) : option Z :=
  line ← bset_cacheline a t cacheline;
  d ← usub (aux_addr a + 8 * k) line;
  _ ← assert (d / 8 <=? MAX 8); Some (d / 8).

(** ** The table of a set that may be written to *)

Fixpoint build_rw_loop (fuel : nat) (b : btree) (byte_order : Z) (k : Z) (a : aux) (t : bset_tree) : option (aux * bset_tree) :=
  if negb (k =? btree_bkey_last t) then
    cap ← bset_rw_tree_capacity byte_order t;
    if size t =? cap then Some (a, t) else
    last ← rw_aux_to_bkey a t (size t - 1);
    d ← usub k last;
    '(a, t) ← (if L1_CACHE_BYTES <? d * 8 then
                 n ← uadd 16 (size t) 1;
                 let t := with_size t n in
                 e ← rw_aux_tree_set b t k;
                 Some (with_rw a (aux_rw a ++ [e]), t)
               else Some (a, t));
    k ← bkey_p_next b k;
    match fuel with O => None | S fuel => build_rw_loop fuel b byte_order k a t end
  else Some (a, t).

(** Only the offset of the first entry is stored; nothing reads its position. *)
Definition build_rw_aux_tree (b : btree) (byte_order : Z) (a : aux) (t : bset_tree) : option (aux * bset_tree) :=
  let t := mk_bset_tree 1 BSET_RW_AUX_TREE_VAL (data_offset t) (aux_data_offset t) (end_offset t) in
  first ← btree_bkey_first t;
  o ← __btree_node_key_to_offset first;
  build_rw_loop (length (b_words b)) b byte_order first (with_rw a [mk_rw_aux_tree o POS_MIN]) t.

(** ** Abbreviated keys *)

Definition BKEY_MANTISSA_BITS : Z := 16.
Definition BFLOAT_FAILED_UNPACKED : Z := MAX 8.

(** Word by word from [high] downwards; bits count from the lowest of the position. *)
Fixpoint differing_bit (fuel : nat) (l r : list Z) (high nr : Z) : Z :=
  match fuel with
  | O => 0
  | S fuel =>
      if nr =? 0 then 0 else
      let lv := word l (Z.to_nat high) in
      let rv := word r (Z.to_nat high) in
      let '(lv, rv, nr) := if nr <? 64 then (Z.shiftr lv (64 - nr), Z.shiftr rv (64 - nr), 0) else (lv, rv, nr - 64) in
      if negb (lv =? rv) then 63 - leading_zeros 64 (Z.lxor lv rv) + nr else differing_bit fuel l r (high - 1) nr
  end.

Definition greatest_differing_bit (b : btree) (l r : list Z) : Z :=
  differing_bit 6 l r (f_key_u64s (b_format b) - 1) (b_nr_key_bits b).

(** A key has at most five words of position. *)
Definition key_mantissa (k : list Z) (exponent : Z) : Z :=
  Z.shiftr (wval k 5 / 2 ^ (8 * Z.shiftr exponent 3) mod 2 ^ 64) (Z.land exponent 7) mod 2 ^ 16.

Definition is_power_of_two (j : Z) : bool := (0 <? j) && (j =? 2 ^ Z.log2 j).

(** The entry [f] for a key [m] between the keys [l] and [r]. *)
Definition bfloat_of (b : btree) (f : bkey_float) (l r m : list Z) : option bkey_float :=
  if negb (bkey_packed l) || negb (bkey_packed r) || negb (bkey_packed m) || (b_nr_key_bits b =? 0)
  then Some (mk_bkey_float BFLOAT_FAILED_UNPACKED (key_offset f) (mantissa f)) else
  let high_bit := Z.max (greatest_differing_bit b l r) (Z.min BKEY_MANTISSA_BITS (b_nr_key_bits b) - 1) in
  let exponent := high_bit - (BKEY_MANTISSA_BITS - 1) in
  let key_bits := f_key_u64s (b_format b) * 64 in
  let shift := key_bits - b_nr_key_bits b + exponent in
  _ ← assert ((0 <=? shift) && (shift + BKEY_MANTISSA_BITS <=? key_bits));
  if BFLOAT_FAILED <=? shift then Some (mk_bkey_float BFLOAT_FAILED (key_offset f) (mantissa f)) else
  let mant := key_mantissa m shift in
  let mant := if exponent <? 0 then Z.lor mant (2 ^ (- exponent) - 1) else mant in
  Some (mk_bkey_float shift (key_offset f) (mant mod 2 ^ 16)).

(** The entry of slot [j]; its key offset is there already. *)
Definition make_bfloat (b : btree) (a : aux) (t : bset_tree) (j : Z) (min_key max_key : list Z) : option bkey_float :=
  f ← ro_aux_tree_base a t j;
  m ← tree_to_bkey a t j;
  l ← (if is_power_of_two j then Some min_key
       else k ← tree_to_bkey a t (Z.shiftr j (trailing_zeros 64 j + 1)); Some (key_mem b k));
  r ← (if is_power_of_two (j + 1) then Some max_key
       else k ← tree_to_bkey a t (Z.shiftr j (trailing_ones j + 1)); Some (key_mem b k));
  bfloat_of b f l r (key_mem b m).

(** ** The tree *)

Definition with_ro (a : aux) (l : list bkey_float) : aux := mk_aux (aux_rw a) l (aux_addr a).
Definition with_extra (t : bset_tree) (n e : Z) : bset_tree :=
  mk_bset_tree n e (data_offset t) (aux_data_offset t) (end_offset t).

Fixpoint line_loop (fuel : nat) (b : btree) (a : aux) (t : bset_tree) (cacheline k : Z) : option Z :=
  line ← bkey_to_cacheline a t k;
  if line <? cacheline then
    k ← bkey_p_next b k;
    match fuel with O => None | S fuel => line_loop fuel b a t cacheline k end
  else Some k.

(** The slots in order, up to a line without a key; whether there was none. *)
Fixpoint place_loop (fuel : nat) (b : btree) (t : bset_tree) (cacheline k j : Z) (a : aux) : option (aux * bool) :=
  if negb (j =? 0) then
    match fuel with
    | O => None
    | S fuel =>
        k ← line_loop (length (b_words b)) b a t cacheline k;
        if btree_bkey_last t <=? k then Some (a, false) else
        o ← bkey_to_cacheline_offset a t cacheline k;
        f ← ro_aux_tree_base a t j;
        let a := with_ro a (<[Z.to_nat j := mk_bkey_float (exponent f) o (mantissa f)]> (aux_ro a)) in
        n ← usub (size t) 1;
        j ← eytzinger1_next j n;
        place_loop fuel b t (cacheline + 1) k j a
    end
  else Some (a, true).

(** A tree with a slot less for every line at the end that has no key. *)
Fixpoint size_loop (fuel : nat) (b : btree) (a : aux) (t : bset_tree) : option (aux * bset_tree) :=
  if size t <? 2 then Some (a, with_extra t 0 BSET_NO_AUX_TREE_VAL) else
  e ← eytzinger1_extra (size t - 1);
  let t := with_extra t (size t) (e mod 2 ^ 16) in
  j ← eytzinger1_first (size t - 1);
  k ← btree_bkey_first t;
  '(a, complete) ← place_loop (Z.to_nat (size t)) b t 1 k j a;
  if complete : bool then Some (a, t) else
  match fuel with O => None | S fuel => size_loop fuel b a (with_size t (size t - 1)) end.

Fixpoint bfloat_loop (fuel : nat) (b : btree) (t : bset_tree) (min_key max_key : list Z) (j : Z) (a : aux) : option aux :=
  if negb (j =? 0) then
    match fuel with
    | O => None
    | S fuel =>
        f ← make_bfloat b a t j min_key max_key;
        let a := with_ro a (<[Z.to_nat j := f]> (aux_ro a)) in
        n ← usub (size t) 1;
        j ← eytzinger1_next j n;
        bfloat_loop fuel b t min_key max_key j a
    end
  else Some a.

(** The key at a bound of the node: packed, if it can be. *)
Definition bound_key (b : btree) (p : bpos) : option (list Z) :=
  r ← __bch2_bkey_pack_pos_exact (replicate 5 0) p (b_format b);
  Some (default (bkey_words (mk_bkey BKEY_U64S KEY_FORMAT_CURRENT 0 ZERO_VERSION 0 p)) r).

(** The entries are cleared first, for there is nothing that they must keep. *)
Definition build_ro_aux_tree (b : btree) (byte_order : Z) (min_key max_key : bpos) (a : aux) (t : bset_tree)
    : option (aux * bset_tree) :=
  lines ← bkey_to_cacheline a t (btree_bkey_last t);
  cap ← bset_ro_tree_capacity byte_order t;
  let n := Z.min lines cap mod 2 ^ 16 in
  '(a, t) ← size_loop (Z.to_nat n) b (with_ro a (replicate (Z.to_nat n) (mk_bkey_float 0 0 0))) (with_size t n);
  if size t =? 0 then Some (a, t) else
  min_key ← bound_key b min_key;
  max_key ← bound_key b max_key;
  j ← eytzinger1_first (size t - 1);
  a ← bfloat_loop (Z.to_nat (size t)) b t min_key max_key j a;
  Some (a, t).

(** ** All sets of a node *)

Definition has_type (t : bset_tree) (writeable : bool) : option bool :=
  ty ← bset_aux_tree_type t;
  Some match ty with BSET_RO_AUX_TREE => negb writeable | BSET_RW_AUX_TREE => writeable | BSET_NO_AUX_TREE => false end.

(** The buffer has [byte_order] for its size; [min_key] and [max_key] are the bounds of the node. *)
Definition bch2_bset_build_aux_tree (b : btree) (auxs : list aux) (byte_order : Z) (min_key max_key : bpos) (i : nat) (writeable : bool)
    : option (btree * list aux) :=
  t ← b_set b !! i;
  has ← has_type t writeable;
  if has : bool then Some (b, auxs) else
  ts ← bset_alloc_tree (b_set b) i;
  let b := mk_btree (b_format b) (b_nr_key_bits b) (b_words b) ts in
  t ← ts !! i;
  bytes ← bset_tree_capacity_bytes byte_order t;
  if bytes =? 0 then Some (b, auxs) else
  a ← auxs !! i;
  '(a, t) ← (if writeable then build_rw_aux_tree b byte_order a t else build_ro_aux_tree b byte_order min_key max_key a t);
  Some (with_set b i t, <[i := a]> auxs).

Fixpoint build_aux_loop (n : nat) (written byte_order : Z) (min_key max_key : bpos) (idx : nat) (b : btree) (auxs : list aux)
    : option (btree * list aux) :=
  match n with
  | O => Some (b, auxs)
  | S n =>
      t ← b_set b !! idx;
      let writeable := negb (bset_written written t) && (S idx =? length (b_set b))%nat in
      '(b, auxs) ← bch2_bset_build_aux_tree b auxs byte_order min_key max_key idx writeable;
      build_aux_loop n written byte_order min_key max_key (S idx) b auxs
  end.

Definition bch2_btree_build_aux_trees (written : Z) (min_key max_key : bpos) (n : bnode) : option bnode :=
  '(b, auxs) ← build_aux_loop (length (b_set (n_b n))) written (n_byte_order n) min_key max_key 0 (n_b n) (n_aux n);
  Some (mk_bnode b auxs (n_nr n) (n_byte_order n)).

(** ** The bits of packed keys *)

Lemma wval_mod m n w : words_wf m -> (n <= w)%nat -> wval m w mod 2 ^ (64 * Z.of_nat n) = wval m n.
Proof.
  intros Hm. induction w as [|w IH]; intros Hle.
  { replace n with 0%nat by lia. done. }
  destruct (Nat.eq_dec n (S w)) as [->|Hne].
  { apply Z.mod_small. apply (wval_range m (S w) Hm). }
  pose proof (pow2_pos (64 * Z.of_nat n) ltac:(lia)). cbn [wval]. replace (64 * Z.of_nat w) with ((64 * Z.of_nat w - 64 * Z.of_nat n) + 64 * Z.of_nat n) by lia.
  rewrite pow2_split, Z.mul_assoc, Z.add_comm, Z.mod_add by lia. apply IH. lia.
Qed.

(** Sixteen bits from bit [e] on, read as an unaligned word. *)
Lemma mantissa_bits m n w e : words_wf m -> (n <= w)%nat -> 0 <= e -> e + 16 <= 64 * Z.of_nat n ->
  Z.shiftr (wval m w / 2 ^ (8 * Z.shiftr e 3) mod 2 ^ 64) (Z.land e 7) mod 2 ^ 16 = wval m n / 2 ^ e mod 2 ^ 16.
Proof.
  intros Hm Hw He Hen. rewrite <- (wval_mod m n w Hm Hw).
  rewrite (Z.shiftr_div_pow2 e 3) by lia. change 7 with (Z.ones 3). rewrite Z.land_ones by lia. change (2 ^ 3) with 8.
  pose proof (Z.div_mod e 8 ltac:(lia)) as E. pose proof (Z.mod_pos_bound e 8 ltac:(lia)). assert (0 <= e / 8) by (apply Z.div_pos; lia).
  apply Z.bits_inj'. intros i Hi. destruct (Z.lt_ge_cases i 16) as [Hlt|Hge].
  - rewrite !Z.mod_pow2_bits_low by lia. rewrite Z.shiftr_spec by lia. rewrite Z.mod_pow2_bits_low by lia.
    rewrite !Z.div_pow2_bits by lia. rewrite Z.mod_pow2_bits_low by lia. f_equal. lia.
  - rewrite !Z.mod_pow2_bits_high by lia. done.
Qed.

Lemma prefix_bits f : format_wf f -> 0 <= bits_sum (f_bits f) 3 /\ bits_sum (f_bits f) 3 + 24 <= 64 * f_key_u64s f.
Proof.
  intros Hf. pose proof (bits_sum_le (f_bits f) 3 6 (format_wf_nonneg f Hf) ltac:(lia)). pose proof (fw_fit f Hf).
  split; [apply bits_sum_nonneg, format_wf_nonneg, Hf|unfold KEY_PACKED_BITS_START in *; lia].
Qed.

(** The number that the position bits of a packed key are. *)
Definition pos_num (f : bkey_format) (m : list Z) : Z :=
  wval m (Z.to_nat (f_key_u64s f)) / 2 ^ (64 * f_key_u64s f - bits_sum (f_bits f) 3).

Lemma pos_num_order f l r lp rp : format_wf f -> bpos_wf lp -> bpos_wf rp ->
  packed_as f l [inode lp; offset lp; snapshot lp] -> packed_as f r [inode rp; offset rp; snapshot rp] ->
  (pos_num f l ?= pos_num f r) = (bpos_val lp ?= bpos_val rp).
Proof.
  intros Hf Wl Wr Hl Hr. pose proof (cmp_packed_packed f l r lp rp Hf Hl Hr) as E. rewrite bpos_cmp_val in E by done.
  pose proof (fw_u64s f Hf). pose proof (prefix_fits f _ Hf (pa_fit _ _ _ Hl)) as [Hn Hroom]. cbn [length] in *.
  replace (f_key_u64s f - 1) with (Z.of_nat (Z.to_nat (f_key_u64s f)) - 1) in E by lia.
  rewrite __bkey_cmp_bits_spec in E by (apply Hl || apply Hr || lia). rewrite Z2Nat.id in E by lia. fold (pos_num f l) (pos_num f r) in E.
  destruct (pos_num f l ?= pos_num f r), (bpos_val lp ?= bpos_val rp); done.
Qed.

Lemma log2_below x n : 0 <= n -> 0 <= x < 2 ^ n -> x = 0 \/ Z.log2 x < n.
Proof. intros Hn Hx. destruct (Z.eq_dec x 0) as [->|]; [by left|right]. apply Z.log2_lt_pow2; lia. Qed.

(** The highest bit in which two words differ. *)
Lemma lxor_top_bit x y : in_range 64 x -> in_range 64 y -> x <> y -> let g := 63 - leading_zeros 64 (Z.lxor x y) in
  0 <= g < 64 /\ x / 2 ^ (g + 1) = y / 2 ^ (g + 1) /\ (forall n, 0 <= n -> x < 2 ^ n -> y < 2 ^ n -> g < n).
Proof.
  unfold in_range. intros Hx Hy Hne. assert (0 < Z.lxor x y) as Hpos.
  { assert (0 <= Z.lxor x y) by (apply Z.lxor_nonneg; lia). assert (Z.lxor x y <> 0) by (by rewrite Z.lxor_eq_0_iff). lia. }
  unfold leading_zeros, bitlen. rewrite (proj2 (Z.eqb_neq _ _)) by lia. pose proof (Z.log2_nonneg (Z.lxor x y)) as Hg.
  set (g := Z.log2 (Z.lxor x y)) in *. replace (63 - (64 - (g + 1))) with g by lia. cbn zeta.
  assert (forall n, 0 <= n -> x < 2 ^ n -> y < 2 ^ n -> g < n) as Hlt.
  { intros k Hk Hxk Hyk. pose proof (Z.log2_lxor x y ltac:(lia) ltac:(lia)) as Hm. fold g in Hm.
    destruct (log2_below x k Hk ltac:(lia)) as [->|], (log2_below y k Hk ltac:(lia)) as [->|]; change (Z.log2 0) with 0 in *; [done|..];
      unfold g in *; rewrite ?Z.lxor_0_l, ?Z.lxor_0_r in *; lia. }
  split; [split; [lia|apply Hlt; lia]|]. split; [|done].
  apply Z.bits_inj'. intros i Hi. rewrite !Z.div_pow2_bits by lia.
  pose proof (Z.bits_above_log2 (Z.lxor x y) (i + (g + 1)) ltac:(lia) ltac:(fold g; lia)) as Hb. rewrite Z.lxor_spec in Hb.
  by destruct (Z.testbit x _), (Z.testbit y _).
Qed.

Lemma differing_bit_done fuel l r high : differing_bit fuel l r high 0 = 0.
Proof. by destruct fuel. Qed.

Lemma differing_bit_spec l r : words_wf l -> words_wf r ->
  forall fuel k n, 0 <= n <= 64 * Z.of_nat k -> n < 64 * Z.of_nat fuel ->
  let num m := wval m k / 2 ^ (64 * Z.of_nat k - n) in
  let g := differing_bit fuel l r (Z.of_nat k - 1) n in
  0 <= g /\ (g < n \/ g = 0) /\ num l / 2 ^ (g + 1) = num r / 2 ^ (g + 1).
Proof.
  intros Hl Hr. induction fuel as [|fuel IH]; intros k n Hn Hfuel; [lia|].
  cbn [differing_bit]. destruct (Z.eqb_spec n 0) as [->|Hn0].
  { split; [lia|]. split; [by right|]. rewrite Z.sub_0_r.
    by rewrite !(Z.div_small (wval _ k)) by (apply wval_range; done). }
  destruct k as [|k]; [lia|]. replace (Z.to_nat (Z.of_nat (S k) - 1)) with k by lia.
  pose proof (wval_range l k Hl) as Rl. pose proof (wval_range r k Hr) as Rr.
  pose proof (word_range l k Hl) as Wl. pose proof (word_range r k Hr) as Wr. unfold in_range in *.
  cbn [wval]. destruct (Z.ltb_spec n 64) as [Hlt|Hge].
  - assert (forall w x, 0 <= x < 2 ^ (64 * Z.of_nat k) ->
      (w * 2 ^ (64 * Z.of_nat k) + x) / 2 ^ (64 * Z.of_nat (S k) - n) = w / 2 ^ (64 - n)) as Hd.
    { intros w x Hx. replace (64 * Z.of_nat (S k) - n) with (64 * Z.of_nat k + (64 - n)) by lia.
      rewrite div_pow2_split, div_high by lia. done. }
    rewrite !Z.shiftr_div_pow2 by lia.
    assert (forall w, 0 <= w < 2 ^ 64 -> 0 <= w / 2 ^ (64 - n) < 2 ^ n) as Hsm.
    { intros w Hw. apply div_pow2_range; [lia|lia|]. replace (64 - n + n) with 64 by lia. done. }
    pose proof (Hsm _ Wl). pose proof (Hsm _ Wr). assert (2 ^ n < 2 ^ 64) by (apply Z.pow_lt_mono_r; lia).
    cbn [negb]. destruct (Z.eqb_spec (word l k / 2 ^ (64 - n)) (word r k / 2 ^ (64 - n))) as [E|E]; cbn [negb].
    + rewrite differing_bit_done. split; [lia|]. split; [by right|]. rewrite !Hd by lia. by rewrite E.
    + destruct (lxor_top_bit (word l k / 2 ^ (64 - n)) (word r k / 2 ^ (64 - n))) as (Hg & Heq & Hless); [unfold in_range; lia..|done|]. rewrite Z.add_0_r.
      split; [lia|]. split; [left; apply Hless; lia|]. rewrite !Hd by lia. exact Heq.
  - set (e := 64 * Z.of_nat (S k) - n).
    assert (forall w x, (w * 2 ^ (64 * Z.of_nat k) + x) / 2 ^ e = w * 2 ^ (n - 64) + x / 2 ^ e) as Hd.
    { intros w x. replace (64 * Z.of_nat k) with ((n - 64) + e) by lia.
      rewrite pow2_split, Z.mul_assoc by lia. apply Z.div_add_l, Z.pow_nonzero; lia. }
    assert (forall x, 0 <= x < 2 ^ (64 * Z.of_nat k) -> 0 <= x / 2 ^ e < 2 ^ (n - 64)) as Hlow.
    { intros x Hx. apply div_pow2_range; [lia|lia|]. replace (e + (n - 64)) with (64 * Z.of_nat k) by lia. done. }
    rewrite !Hd. destruct (Z.eqb_spec (word l k) (word r k)) as [E|E]; cbn [negb].
    + replace (Z.of_nat (S k) - 1 - 1) with (Z.of_nat k - 1) by lia.
      destruct (IH k (n - 64) ltac:(lia) ltac:(lia)) as (Hg & Hgn & Heq). cbn zeta in *.
      replace (64 * Z.of_nat k - (n - 64)) with e in Heq by lia. set (g := differing_bit fuel l r (Z.of_nat k - 1) (n - 64)) in *.
      split; [lia|]. split; [lia|]. rewrite E. destruct (Z.le_gt_cases (n - 64) (g + 1)) as [Hle|Hgt].
      * (* the low parts vanish *)
        assert (forall x, 0 <= x < 2 ^ (64 * Z.of_nat k) -> (word r k * 2 ^ (n - 64) + x / 2 ^ e) / 2 ^ (g + 1) = word r k / 2 ^ (g + 1 - (n - 64))) as Hz.
        { intros x Hx. replace (g + 1) with ((n - 64) + (g + 1 - (n - 64))) at 1 by lia.
          rewrite div_pow2_split, div_high by (lia || by apply Hlow). done. }
        by rewrite !Hz.
      * assert (forall y, (word r k * 2 ^ (n - 64) + y) / 2 ^ (g + 1) = word r k * 2 ^ (n - 64 - (g + 1)) + y / 2 ^ (g + 1)) as Hz.
        { intros y. replace (n - 64) with ((n - 64 - (g + 1)) + (g + 1)) at 1 by lia.
          rewrite pow2_split, Z.mul_assoc by lia. apply Z.div_add_l, Z.pow_nonzero; lia. }
        rewrite !Hz. by rewrite Heq.
    + destruct (lxor_top_bit _ _ Wl Wr E) as (Hg & Heq & _). set (g := 63 - leading_zeros 64 (Z.lxor (word l k) (word r k))) in *.
      split; [lia|]. split; [left; lia|].
      assert (forall w x, 0 <= x < 2 ^ (64 * Z.of_nat k) -> (w * 2 ^ (n - 64) + x / 2 ^ e) / 2 ^ (g + (n - 64) + 1) = w / 2 ^ (g + 1)) as Hz.
      { intros w x Hx. replace (g + (n - 64) + 1) with ((n - 64) + (g + 1)) by lia.
        rewrite div_pow2_split, div_high by (lia || by apply Hlow). done. }
      rewrite !Hz by done. exact Heq.
Qed.

(** Sixteen bits tell two numbers apart that agree above them. *)
Lemma mantissa_high (Pm Pq h : Z) : 15 <= h -> 0 <= Pm -> 0 <= Pq -> Pm / 2 ^ (h + 1) = Pq / 2 ^ (h + 1) ->
  let T x := x / 2 ^ (h - 15) in
  (T Pm mod 2 ^ 16 <> T Pq mod 2 ^ 16 \/ h = 15) ->
  if T Pm mod 2 ^ 16 <? T Pq mod 2 ^ 16 then Pm < Pq else Pq <= Pm.
Proof.
  intros Hh Hm Hq E T Hd. assert (forall x, T x / 2 ^ 16 = x / 2 ^ (h + 1)) as HT.
  { intros x. unfold T. replace (h + 1) with (h - 15 + 16) by lia. by rewrite div_pow2_split by lia. }
  pose proof (Z.div_mod (T Pm) (2 ^ 16) ltac:(lia)) as Em. pose proof (Z.div_mod (T Pq) (2 ^ 16) ltac:(lia)) as Eq.
  rewrite HT in Em, Eq. rewrite E in Em.
  assert (forall x y, T x < T y -> x < y) as Hlt.
  { intros x y Hxy. destruct (Z.lt_ge_cases x y) as [|Hge]; [done|].
    assert (T y <= T x) by (apply Z.div_le_mono; [apply pow2_pos|]; lia). lia. }
  destruct (Z.ltb_spec (T Pm mod 2 ^ 16) (T Pq mod 2 ^ 16)) as [H|H]; [apply Hlt; lia|].
  destruct Hd as [Hne| ->].
  - assert (Pq < Pm) by (apply Hlt; lia). lia.
  - unfold T in *. change (15 - 15) with 0 in *. rewrite !Z.div_1_r in *. lia.
Qed.

(** With less than sixteen bits the others are set. *)
Lemma mantissa_low (Vm Vq e d : Z) : 0 <= d <= 16 -> 0 <= e -> 0 <= Vm < 2 ^ (e + 16) -> 0 <= Vq < 2 ^ (e + 16) ->
  let T x := x / 2 ^ e mod 2 ^ 16 in let P x := x / 2 ^ (e + d) in
  if Z.lor (T Vm) (2 ^ d - 1) mod 2 ^ 16 <? T Vq then P Vm < P Vq else P Vq <= P Vm.
Proof.
  intros Hd He Hm Hq T P. assert (forall x, 0 <= x < 2 ^ (e + 16) -> 0 <= T x < 2 ^ 16 /\ T x / 2 ^ d = P x) as HT.
  { intros x Hx. assert (0 <= x / 2 ^ e < 2 ^ 16) by (apply div_pow2_range; lia). unfold T, P. rewrite Z.mod_small by lia.
    split; [lia|]. by rewrite div_pow2_split by lia. }
  destruct (HT Vm Hm) as [Rm Em], (HT Vq Hq) as [Rq Eq]. pose proof (pow2_pos d ltac:(lia)).
  assert (Z.lor (T Vm) (2 ^ d - 1) = P Vm * 2 ^ d + (2 ^ d - 1)) as ->.
  { rewrite <- Em. pose proof (Z.ones_equiv d) as Eo. rewrite <- Z.sub_1_r in Eo. rewrite <- Eo.
    apply Z.bits_inj'. intros i Hi. rewrite Z.lor_spec. destruct (Z.lt_ge_cases i d).
    - rewrite (Z.ones_spec_low d i), orb_true_r by lia. symmetry.
      rewrite <- (Z.mod_pow2_bits_low _ d i), Z.add_comm, Z.mod_add, Z.mod_pow2_bits_low, Z.ones_spec_low by lia. done.
    - rewrite (Z.ones_spec_high d i), orb_false_r by lia. replace i with (i - d + d) by lia.
      rewrite <- !Z.div_pow2_bits by lia. rewrite Z.div_add_l, (Z.div_small (Z.ones d)), Z.add_0_r by (rewrite ?Z.ones_equiv; lia). done. }
  assert (0 <= P Vm < 2 ^ (16 - d)) as HP.
  { apply div_pow2_range; [lia|lia|]. replace (e + d + (16 - d)) with (e + 16) by lia. done. }
  assert (2 ^ 16 = 2 ^ (16 - d) * 2 ^ d) as E16 by (rewrite <- pow2_split by lia; f_equal; lia).
  rewrite Z.mod_small by nia. pose proof (Z.div_mod (T Vq) (2 ^ d) ltac:(lia)) as Dq. rewrite Eq in Dq.
  pose proof (Z.mod_pos_bound (T Vq) (2 ^ d) ltac:(lia)).
  destruct (Z.ltb_spec (P Vm * 2 ^ d + (2 ^ d - 1)) (T Vq)); nia.
Qed.

(** The bits of a search key that an entry is compared with. *)
Definition num_bits (f : bkey_format) (m : list Z) (e : Z) : Z := wval m (Z.to_nat (f_key_u64s f)) / 2 ^ e mod 2 ^ 16.

(** What the entry of the key [m] between [l] and [r] is good for: it tells on
    which side of [m] a search key between [l] and [r] is. *)
Definition float_ok (b : btree) (l r m : list Z) (f : bkey_float) : Prop :=
  BFLOAT_FAILED <= exponent f \/
  (bkey_packed l = true /\ bkey_packed r = true /\ bkey_packed m = true /\
   0 <= exponent f /\ exponent f + 16 <= 64 * f_key_u64s (b_format b) /\
   forall q, words_wf q -> pos_num (b_format b) l <= pos_num (b_format b) q <= pos_num (b_format b) r ->
     let mq := num_bits (b_format b) q (exponent f) in
     (mantissa f <> mq \/ ~ 64 * f_key_u64s (b_format b) - b_nr_key_bits b < exponent f) ->
     if mantissa f <? mq then pos_num (b_format b) m < pos_num (b_format b) q
     else pos_num (b_format b) q <= pos_num (b_format b) m).

Lemma agree_between l r x n : 0 <= n -> l <= x <= r -> l / 2 ^ n = r / 2 ^ n -> x / 2 ^ n = l / 2 ^ n.
Proof.
  intros Hn Hx E. pose proof (pow2_pos n Hn). pose proof (Z.div_le_mono l x (2 ^ n) ltac:(lia) ltac:(lia)).
  pose proof (Z.div_le_mono x r (2 ^ n) ltac:(lia) ltac:(lia)). lia.
Qed.

Lemma bfloat_of_spec b f l r m : node_wf b -> words_wf l -> words_wf r -> words_wf m ->
  (bkey_packed l = true -> bkey_packed m = true -> pos_num (b_format b) l <= pos_num (b_format b) m) ->
  (bkey_packed m = true -> bkey_packed r = true -> pos_num (b_format b) m <= pos_num (b_format b) r) ->
  exists f', bfloat_of b f l r m = Some f' /\ key_offset f' = key_offset f /\ float_ok b l r m f'.
Proof.
  intros [Hf Hn] Hl Hr Hm Hlm Hmr. unfold bfloat_of. pose proof (fw_u64s _ Hf) as Hu. pose proof (prefix_bits _ Hf) as Hroom. rewrite <- Hn in Hroom.
  destruct (bkey_packed l) eqn:El; cbn [negb orb]; [|by eexists; split; [reflexivity|]; split; [done|left]].
  destruct (bkey_packed r) eqn:Er; cbn [negb orb]; [|by eexists; split; [reflexivity|]; split; [done|left]].
  destruct (bkey_packed m) eqn:Em; cbn [negb orb]; [|by eexists; split; [reflexivity|]; split; [done|left]].
  destruct (Z.eqb_spec (b_nr_key_bits b) 0) as [|Hn0]; [by eexists; split; [reflexivity|]; split; [done|left]|].
  set (nr := b_nr_key_bits b) in *. set (ku := f_key_u64s (b_format b)) in *.
  destruct (differing_bit_spec l r Hl Hr 6 (Z.to_nat ku) nr) as (Hg & Hgn & Eg); [lia..|].
  rewrite Z2Nat.id in * by lia. unfold greatest_differing_bit. fold ku nr. cbn zeta in Eg. set (g := differing_bit 6 l r (ku - 1) nr) in *.
  assert (forall x, wval x (Z.to_nat ku) / 2 ^ (64 * ku - nr) = pos_num (b_format b) x) as HP by (intros x; unfold pos_num; by rewrite <- Hn).
  rewrite !HP in Eg. unfold BKEY_MANTISSA_BITS. set (h := Z.max g (Z.min 16 nr - 1)).
  assert (0 <= h < nr) as Hh by lia. assert (Hh15 : h < 15 -> h = nr - 1) by lia.
  replace (ku * 64 - nr + (h - (16 - 1))) with (64 * ku - nr + h - 15) by lia. set (e := 64 * ku - nr + h - 15).
  rewrite (proj2 (assert_true _)) by (apply andb_true_iff; split; apply Z.leb_le; lia). bind_simpl.
  destruct (Z.leb_spec BFLOAT_FAILED e) as [|He]; [by eexists; split; [reflexivity|]; split; [done|left]|].
  eexists. split; [reflexivity|]. split; [done|]. right. cbn [exponent mantissa]. repeat (split; [done || lia|]).
  intros q Hq Hlq Hd. pose proof (Hlm eq_refl eq_refl) as Hlm'. pose proof (Hmr eq_refl eq_refl) as Hmr'.
  assert (forall x, words_wf x -> 0 <= wval x (Z.to_nat ku) < 2 ^ (64 * ku)) as HV.
  { intros x Hx. pose proof (wval_range x (Z.to_nat ku) Hx) as H1. rewrite Z2Nat.id in H1 by lia. exact H1. }
  assert (key_mantissa m e = wval m (Z.to_nat ku) / 2 ^ e mod 2 ^ 16) as Ekm by (apply mantissa_bits; [done|lia..]). rewrite Ekm in *.
  unfold num_bits in *. fold ku in Hd |- *. rewrite <- !HP in *.
  destruct (Z.ltb_spec (h - (16 - 1)) 0) as [Hlow|Hhigh].
  - replace (- (h - (16 - 1))) with (15 - h) in * by lia.
    pose proof (mantissa_low (wval m (Z.to_nat ku)) (wval q (Z.to_nat ku)) e (15 - h)) as HL. cbn zeta in HL.
    replace (e + (15 - h)) with (64 * ku - nr) in HL by lia. apply HL; [lia|lia|..]; replace (e + 16) with (64 * ku) by lia; by apply HV.
  - rewrite (Z.mod_small (_ mod _)) in * by (apply Z.mod_pos_bound; lia).
    pose proof (mantissa_high (wval m (Z.to_nat ku) / 2 ^ (64 * ku - nr)) (wval q (Z.to_nat ku) / 2 ^ (64 * ku - nr)) h) as HH. cbn zeta in HH.
    rewrite <- !div_pow2_split in HH by lia. replace (64 * ku - nr + (h - 15)) with e in HH by lia. apply HH.
    + lia.
    + apply Z.div_pos; [apply HV|apply pow2_pos]; (done || lia).
    + apply Z.div_pos; [apply HV|apply pow2_pos]; (done || lia).
    + rewrite !(div_pow2_split _ (64 * ku - nr)) by lia.
      assert (wval l (Z.to_nat ku) / 2 ^ (64 * ku - nr) / 2 ^ (h + 1) = wval r (Z.to_nat ku) / 2 ^ (64 * ku - nr) / 2 ^ (h + 1)) as Elr.
      { rewrite !HP in *. replace (h + 1) with (g + 1 + (h - g)) by lia. rewrite !(div_pow2_split _ (g + 1)) by lia. by rewrite Eg. }
      rewrite (agree_between _ _ (wval m _ / _) (h + 1) ltac:(lia) (conj Hlm' Hmr') Elr). symmetry. eapply agree_between; [lia|exact Hlq|exact Elr].
    + destruct Hd as [Hd|Hd]; [by left|right; lia].
Qed.

(** ** The slots above a slot

    [lower_slot] is the slot above that comes last before a slot in order,
    [upper_slot] the one that comes first behind it; 0 is none. *)

Fixpoint pos_lower (p : positive) : Z := match p with xI q => Zpos q | xO q => pos_lower q | xH => 0 end.
Fixpoint pos_upper (p : positive) : Z := match p with xO q => Zpos q | xI q => pos_upper q | xH => 0 end.
Definition lower_slot (n : Z) : Z := match n with Zpos p => pos_lower p | _ => 0 end.
Definition upper_slot (n : Z) : Z := match n with Zpos p => pos_upper p | _ => 0 end.

Lemma child_slots n : 0 < n ->
  lower_slot (2 * n) = lower_slot n /\ upper_slot (2 * n) = n /\ lower_slot (2 * n + 1) = n /\ upper_slot (2 * n + 1) = upper_slot n.
Proof. by destruct n. Qed.

Lemma lower_slot_spec n w : 0 < n -> exists t, trailing_zeros w n = t /\ 0 <= t /\ 0 <= lower_slot n /\ n = (2 * lower_slot n + 1) * 2 ^ t.
Proof.
  destruct n as [|p|p]; try lia. intros _. cbn [trailing_zeros lower_slot]. induction p as [p _|p IH|]; cbn [pos_ctz pos_lower].
  - exists 0. change (2 ^ 0) with 1. lia.
  - destruct IH as (t & -> & Ht & Hl & E). exists (1 + t). rewrite pow2_split by lia. change (2 ^ 1) with 2. lia.
  - exists 0. change (2 ^ 0) with 1. lia.
Qed.

Lemma upper_slot_spec n : 0 < n -> exists t, trailing_ones n = t /\ 0 <= t /\ 0 <= upper_slot n /\ n = (2 * upper_slot n + 1) * 2 ^ t - 1.
Proof.
  destruct n as [|p|p]; try lia. intros _. cbn [trailing_ones upper_slot]. induction p as [p IH|p _|]; cbn [pos_cto pos_upper].
  - destruct IH as (t & -> & Ht & Hl & E). exists (1 + t). rewrite pow2_split by lia. change (2 ^ 1) with 2. lia.
  - exists 0. change (2 ^ 0) with 1. lia.
  - exists 1. change (2 ^ 1) with 2. lia.
Qed.

Lemma power_of_two_odd q t : 0 <= q -> 0 <= t -> is_power_of_two ((2 * q + 1) * 2 ^ t) = (q =? 0).
Proof.
  intros Hq Ht. pose proof (pow2_pos t Ht). unfold is_power_of_two. rewrite (proj2 (Z.ltb_lt _ _)) by nia. cbn [andb].
  rewrite Z.log2_mul_pow2, pow2_split by (try lia; apply Z.log2_nonneg).
  destruct (Z.eqb_spec q 0) as [->|Hne]; [apply Z.eqb_eq; change (2 * 0 + 1) with 1; change (2 ^ Z.log2 1) with 1; lia|]. apply Z.eqb_neq. intros E.
  assert (2 * q + 1 = 2 ^ Z.log2 (2 * q + 1)) as E' by nia.
  assert (1 <= Z.log2 (2 * q + 1)) as Hl by (apply Z.log2_le_pow2; lia).
  replace (Z.log2 (2 * q + 1)) with (1 + (Z.log2 (2 * q + 1) - 1)) in E' by lia. rewrite pow2_split in E' by lia. change (2 ^ 1) with 2 in E'. lia.
Qed.

Lemma shift_odd q r t : 0 <= t -> 0 <= r < 2 ^ (t + 1) -> Z.shiftr (q * 2 ^ (t + 1) + r) (t + 1) = q.
Proof. intros Ht Hr. rewrite Z.shiftr_div_pow2 by lia. apply div_high; lia. Qed.

(** The expressions of [make_bfloat] for them. *)
Lemma lower_slot_code n w : 0 < n -> Z.shiftr n (trailing_zeros w n + 1) = lower_slot n /\ is_power_of_two n = (lower_slot n =? 0).
Proof.
  intros Hn. destruct (lower_slot_spec n w Hn) as (t & -> & Ht & Hl & E). pose proof (pow2_pos t Ht). split.
  - rewrite E at 1. replace ((2 * lower_slot n + 1) * 2 ^ t) with (lower_slot n * 2 ^ (t + 1) + 2 ^ t) by (rewrite pow2_split by lia; change (2 ^ 1) with 2; lia).
    apply shift_odd; [lia|]. rewrite pow2_split by lia. change (2 ^ 1) with 2. lia.
  - rewrite E at 1. by apply power_of_two_odd.
Qed.

Lemma upper_slot_code n : 0 < n -> Z.shiftr n (trailing_ones n + 1) = upper_slot n /\ is_power_of_two (n + 1) = (upper_slot n =? 0).
Proof.
  intros Hn. destruct (upper_slot_spec n Hn) as (t & -> & Ht & Hl & E). pose proof (pow2_pos t Ht). split.
  - rewrite E at 1. replace ((2 * upper_slot n + 1) * 2 ^ t - 1) with (upper_slot n * 2 ^ (t + 1) + (2 ^ t - 1)) by (rewrite pow2_split by lia; change (2 ^ 1) with 2; lia).
    apply shift_odd; [lia|]. rewrite pow2_split by lia. change (2 ^ 1) with 2. lia.
  - rewrite E at 1. replace ((2 * upper_slot n + 1) * 2 ^ t - 1 + 1) with ((2 * upper_slot n + 1) * 2 ^ t) by lia. by apply power_of_two_odd.
Qed.

Section Slots.
Context (size : Z) (Hsize : size_ok size).

Lemma squeeze_mono e x y : x <= y -> squeeze e x <= squeeze e y.
Proof.
  intros Hxy. unfold squeeze. destruct (Z.ltb_spec e x), (Z.ltb_spec e y); try lia.
  - apply Z.div_le_mono; lia.
  - apply Z.div_le_lower_bound; lia.
Qed.

Lemma lower_slot_order n : slot_ok size n -> lower_slot n <> 0 -> slot_ok size (lower_slot n) /\ inorder size (lower_slot n) <= inorder size n.
Proof.
  intros Hn Hne. pose proof Hn as [Hn0 _]. destruct (lower_slot_spec n 32 Hn0) as (t & Et & Ht & Hl & E). pose proof (pow2_pos t Ht).
  destruct (ancestor_pos size n (lower_slot n) t Hn ltac:(lia) Ht) as [Hok Hp].
  { rewrite <- Z.shiftr_div_pow2 by lia. rewrite <- Et. by apply lower_slot_code. }
  split; [done|]. unfold inorder. apply squeeze_mono. rewrite Hp. destruct (level_bounds size n Hn) as (Hb & _ & _ & Hp2).
  rewrite full_pos_alt by lia. rewrite E at 3. nia.
Qed.

Lemma upper_slot_order n : slot_ok size n -> upper_slot n <> 0 -> slot_ok size (upper_slot n) /\ inorder size n <= inorder size (upper_slot n).
Proof.
  intros Hn Hne. pose proof Hn as [Hn0 _]. destruct (upper_slot_spec n Hn0) as (t & Et & Ht & Hl & E). pose proof (pow2_pos t Ht).
  destruct (ancestor_pos size n (upper_slot n) t Hn ltac:(lia) Ht) as [Hok Hp].
  { rewrite <- Z.shiftr_div_pow2 by lia. rewrite <- Et. by apply upper_slot_code. }
  split; [done|]. unfold inorder. apply squeeze_mono. rewrite Hp. destruct (level_bounds size n Hn) as (Hb & _ & _ & Hp2).
  rewrite full_pos_alt by lia. rewrite E at 1. nia.
Qed.

Lemma to_inorder_code e n : eytzinger1_extra size = Some e -> slot_ok size n -> __eytzinger1_to_inorder n size e = Some (inorder size n).
Proof. intros He Hn. rewrite (extra_spec size Hsize) in He. injection He as <-. by apply to_inorder_spec. Qed.

(** Left of a slot without a left child. *)
Lemma prev_lower n : slot_ok size n -> size < 2 * n -> eytzinger1_prev n size = Some (lower_slot n).
Proof.
  intros Hn Hlt. pose proof Hn as [Hn0 Hns]. unfold size_ok in Hsize. unfold eytzinger1_prev.
  rewrite (proj2 (assert_true _)) by (apply andb_true_iff; split; [apply negb_true_iff, Z.eqb_neq|apply Z.leb_le]; lia). bind_simpl.
  unfold eytzinger1_left_child, eytzinger1_child. cbn [Z.leb Z.compare assert]. bind_simpl.
  rewrite ushl_small by lia. bind_simpl. change (2 ^ 1) with 2. rewrite (uadd_ok 32 _ 0) by lia. bind_simpl.
  rewrite (proj2 (Z.leb_gt _ _)) by lia. destruct (lower_slot_code n 32 Hn0) as [<- _].
  destruct (lower_slot_spec n 32 Hn0) as (t & -> & Ht & Hl & E). apply ushr_ok.
  assert (2 ^ t < 2 ^ 31) by nia. assert (t < 31) by (apply (Z.pow_lt_mono_r_iff 2); lia). lia.
Qed.
End Slots.

(** ** The keys of lines *)

Lemma chain_start b k k' e l : chain b (node_key b) k e l -> chain b (node_key b) k' e l -> k = k'.
Proof. intros H H'. destruct l; inversion H; inversion H'; congruence. Qed.

Section Lines.
Context (b : btree) (t : bset_tree) (L : list Z) (addr : Z).
Context (H0 : 0 <= data_offset t) (H16 : end_offset t < 2 ^ 16) (Haddr : 0 <= addr) (Halign : addr mod 8 = 0).
Context (Hc : chain b (node_key b) (first_offset t) (end_offset t) L).

(** Where the lines begin, and how far behind it a key is. *)
Definition lines_base : Z := Z.ldiff (addr + 8 * first_offset t) 63.
Definition line_off (k : Z) : Z := addr + 8 * k - lines_base.
Definition line_of (k : Z) : Z := line_off k / 256.

Lemma lines_base_spec : 0 <= lines_base /\ lines_base mod 8 = 0 /\ 0 <= line_off (first_offset t) < 64.
Proof.
  unfold line_off, lines_base, first_offset. set (x := addr + 8 * (data_offset t + 3)). assert (0 <= x) by lia.
  change 63 with (Z.ones 6). rewrite Z.ldiff_ones_r, Z.shiftr_div_pow2, Z.shiftl_mul_pow2 by lia. change (2 ^ 6) with 64.
  pose proof (Z.div_mod x 64 ltac:(lia)) as E. pose proof (Z.mod_pos_bound x 64 ltac:(lia)). assert (0 <= x / 64) by (apply Z.div_pos; lia).
  split; [lia|]. split; [|lia]. replace (x / 64 * 64) with (x / 64 * 8 * 8) by lia. apply Z.mod_mul. lia.
Qed.

Lemma line_off_8 k : line_off k mod 8 = 0.
Proof.
  destruct lines_base_spec as (_ & Hb & _). unfold line_off.
  pose proof (Z.div_mod addr 8 ltac:(lia)). pose proof (Z.div_mod lines_base 8 ltac:(lia)).
  replace (addr + 8 * k - lines_base) with ((addr / 8 + k - lines_base / 8) * 8) by lia. by apply Z.mod_mul.
Qed.

Lemma line_of_mono k k' : k <= k' -> line_of k <= line_of k'.
Proof. intros H. apply Z.div_le_mono; unfold line_off; lia. Qed.

Lemma line_of_first : line_of (first_offset t) = 0.
Proof. destruct lines_base_spec as (_ & _ & H). apply Z.div_small. lia. Qed.

Lemma line_of_bound k : k <= end_offset t -> line_of k < 2 ^ 12.
Proof.
  intros Hk. destruct lines_base_spec as (_ & _ & H). apply Z.div_lt_upper_bound; [lia|]. unfold line_off, first_offset in *. lia.
Qed.

Lemma first_ok : btree_bkey_first t = Some (first_offset t).
Proof. pose proof (chain_le _ _ _ _ _ Hc). unfold first_offset in *. apply uadd_ok. lia. Qed.

Lemma cacheline_ok a line : aux_addr a = addr -> bset_cacheline a t line = Some (lines_base + line * 256).
Proof. intros Ha. unfold bset_cacheline. by rewrite first_ok, Ha. Qed.

Lemma to_cacheline_ok a k : aux_addr a = addr -> first_offset t <= k <= end_offset t -> bkey_to_cacheline a t k = Some (line_of k).
Proof.
  intros Ha Hk. unfold bkey_to_cacheline. rewrite cacheline_ok by done. bind_simpl. destruct lines_base_spec as (_ & _ & H).
  pose proof (line_of_mono _ _ (proj1 Hk)) as Hm. rewrite line_of_first in Hm. pose proof (line_of_bound k (proj2 Hk)) as Hb2.
  rewrite Ha, usub_ok by (unfold line_off in *; lia). bind_simpl. unfold BSET_CACHELINE. rewrite Z.mul_0_l, Z.add_0_r. fold (line_off k) (line_of k).
  rewrite Z.mod_small by lia. done.
Qed.

(** A place in the row: the keys before it are in lines before [r]. *)
Definition at_line (r k : Z) : Prop := exists L1 L2, L = L1 ++ L2 /\ chain b (node_key b) k (end_offset t) L2 /\
  Forall (fun y => line_of y < r) L1 /\ match L2 with [] => True | y :: _ => y = k end.

Lemma at_line_bounds r k : at_line r k -> first_offset t <= k <= end_offset t.
Proof.
  intros (L1 & L2 & E & Hk & _). rewrite E in Hc. destruct (chain_app b _ _ _ _ Hc) as (m & H1 & H2).
  pose proof (chain_le _ _ _ _ _ H1). pose proof (chain_le _ _ _ _ _ Hk).
  assert (m = k) as -> by (eapply chain_start; [exact H2|exact Hk]). lia.
Qed.

Lemma line_loop_spec a r : aux_addr a = addr -> r <= line_of (end_offset t) -> forall fuel k L1 L2, L = L1 ++ L2 ->
  chain b (node_key b) k (end_offset t) L2 -> Forall (fun y => line_of y < r) L1 -> first_offset t <= k -> (length L2 <= fuel)%nat ->
  exists k', line_loop fuel b a t r k = Some k' /\ at_line r k' /\ r <= line_of k'.
Proof.
  intros Ha Hr fuel k L1 L2. revert fuel k L1. induction L2 as [|x L2 IH]; intros fuel k L1 E Hk HL1 Hfk Hf.
  - inversion Hk; subst k. exists (end_offset t). assert (line_loop fuel b a t r (end_offset t) = Some (end_offset t)) as ->.
    { destruct fuel; cbn [line_loop]; rewrite to_cacheline_ok by (done || lia); bind_simpl; by rewrite (proj2 (Z.ltb_ge _ _)) by lia. }
    split; [done|]. split; [|done]. exists L1, []. split; [done|]. split; [constructor|]. by split.
  - inversion Hk as [|? n ? ? Hkey Hu Hn Hle Hk']; subst. pose proof (chain_le _ _ _ _ _ Hk'). destruct fuel as [|fuel]; [cbn in Hf; lia|].
    cbn [line_loop]. rewrite to_cacheline_ok by (done || lia). bind_simpl. destruct (Z.ltb_spec (line_of x) r) as [Hlt|Hge].
    + unfold bkey_p_next. rewrite Hu. bind_simpl. apply (IH fuel (x + n) (L1 ++ [x])); [by rewrite <- app_assoc|done| |lia|cbn in Hf; lia].
      apply Forall_app_2; [done|]. by apply Forall_singleton.
    + exists x. split; [done|]. split; [|done]. exists L1, (x :: L2). split; [done|]. by split.
Qed.

(** Behind a key of a line before [r], the key found is near the line. *)
Lemma line_key_near r k : 0 < r -> at_line r k -> k < end_offset t -> r <= line_of k -> 0 <= line_off k - 256 * r < 256 * 8.
Proof.
  intros Hr (L1 & L2 & E & Hk & HL1 & Hh) Hlt Hge. unfold line_of in Hge. pose proof (Z.div_mod (line_off k) 256 ltac:(lia)) as D.
  pose proof (Z.mod_pos_bound (line_off k) 256 ltac:(lia)). split; [lia|].
  destruct L1 as [|p L0 _] using rev_ind.
  - exfalso. rewrite E in Hc. assert (k = first_offset t) as -> by (eapply chain_start; [exact Hk|exact Hc]).
    fold (line_of (first_offset t)) in Hge. rewrite line_of_first in Hge. lia.
  - rewrite E, <- app_assoc in Hc. destruct (chain_app b _ _ _ _ Hc) as (m & _ & H2). inversion H2 as [|? n ? ? Hp Hu Hn Hle H3]; subst.
    assert (k = p + n) as -> by (eapply chain_start; [exact Hk|exact H3]).
    assert (n < 2 ^ 8) as Hn8.
    { unfold key_u64s in Hu. destruct (assert (0 <=? p)); [|done]. cbn [mbind option_bind] in Hu. destruct (b_words b !! Z.to_nat p); [|done].
      injection Hu as <-. apply Z.mod_pos_bound. lia. }
    apply Forall_app in HL1 as [_ HL1]. apply Forall_cons_1 in HL1 as [Hpl _]. unfold line_of in Hpl.
    pose proof (Z.div_mod (line_off p) 256 ltac:(lia)). pose proof (Z.mod_pos_bound (line_off p) 256 ltac:(lia)). pose proof (line_off_8 p) as H8.
    assert (line_off p <= 256 * r - 8) as Hpo.
    { pose proof (Z.div_mod (line_off p) 8 ltac:(lia)). assert (line_off p < 256 * r) by lia. lia. }
    unfold line_off in *. lia.
Qed.

Lemma cacheline_offset_ok a r k : aux_addr a = addr -> 0 < r -> at_line r k -> k < end_offset t -> r <= line_of k ->
  exists o, bkey_to_cacheline_offset a t r k = Some o /\ cacheline_to_bkey a t r o = Some k.
Proof.
  intros Ha Hr Hat Hlt Hge. pose proof (line_key_near r k Hr Hat Hlt Hge) as Hn. pose proof (line_off_8 k) as H8.
  set (d := line_off k - 256 * r) in *. assert (d mod 8 = 0) as Hd8.
  { unfold d. pose proof (Z.div_mod (line_off k) 8 ltac:(lia)). replace (line_off k - 256 * r) with ((line_off k / 8 - 32 * r) * 8) by lia. by apply Z.mod_mul. }
  pose proof (Z.div_mod d 8 ltac:(lia)) as Dd. assert (0 <= d / 8 <= 255) by lia.
  exists (d / 8). unfold bkey_to_cacheline_offset, cacheline_to_bkey. rewrite !cacheline_ok by done. bind_simpl.
  assert (aux_addr a + 8 * k - (lines_base + r * 256) = d) as E by (unfold d, line_off; lia).
  rewrite usub_ok by lia. bind_simpl. rewrite E. rewrite (proj2 (assert_true _)) by (apply Z.leb_le; unfold MAX; lia). bind_simpl. split; [done|].
  f_equal. replace (lines_base + r * 256 + d / 8 * 8 - aux_addr a) with (k * 8) by lia. apply Z.div_mul. lia.
Qed.
End Lines.

(** ** Placing the keys *)

Lemma at_line_mono b t L addr r r' k : r <= r' -> at_line b t L addr r k -> at_line b t L addr r' k.
Proof.
  intros Hr (L1 & L2 & E & Hk & HL1 & Hh). exists L1, L2. split; [done|]. split; [done|]. split; [|done].
  eapply Forall_impl; [exact HL1|]. cbn. lia.
Qed.

(** [a'] differs from [a] in the entries of the tree only. *)
Record same_room (a a' : aux) : Prop := {
  sr_addr : aux_addr a' = aux_addr a;
  sr_rw : aux_rw a' = aux_rw a;
  sr_len : length (aux_ro a') = length (aux_ro a)
}.

(** The key of a slot is there: the first one of its line or behind it. *)
Record slot_placed (b : btree) (t : bset_tree) (L : list Z) (a : aux) (i k : Z) (f : bkey_float) : Prop := {
  sp_entry : aux_ro a !! Z.to_nat i = Some f;
  sp_key : cacheline_to_bkey a t (inorder (size t - 1) i) (key_offset f) = Some k;
  sp_at : at_line b t L (aux_addr a) (inorder (size t - 1) i) k;
  sp_end : k < end_offset t;
  sp_line : inorder (size t - 1) i <= line_of t (aux_addr a) k
}.

Definition all_placed (b : btree) (t : bset_tree) (L : list Z) (a : aux) (below : Z) : Prop :=
  forall i, slot_ok (size t - 1) i -> inorder (size t - 1) i < below -> exists k f, slot_placed b t L a i k f.

Lemma cacheline_addr a a' t line o : aux_addr a' = aux_addr a -> cacheline_to_bkey a' t line o = cacheline_to_bkey a t line o.
Proof. intros E. unfold cacheline_to_bkey, bset_cacheline. by rewrite E. Qed.

(** Another entry is written, or the same with the same key. *)
Lemma slot_placed_set b t L a i j k f f' : slot_placed b t L a i k f -> 0 <= i -> 0 <= j -> i <> j ->
  slot_placed b t L (with_ro a (<[Z.to_nat j := f']> (aux_ro a))) i k f.
Proof.
  intros [H1 H2 H3 H4 H5] Hi Hj Hne. split; cbn [aux_ro aux_addr with_ro]; try done. rewrite list_lookup_insert_ne by lia. done.
Qed.

Section Place.
Context (b : btree) (t : bset_tree) (L : list Z) (addr : Z).
Context (H0 : 0 <= data_offset t) (H16 : end_offset t < 2 ^ 16) (Haddr : 0 <= addr) (Halign : addr mod 8 = 0).
Context (Hc : chain b (node_key b) (first_offset t) (end_offset t) L).
Context (Ht : bset_aux_tree_type t = Some BSET_RO_AUX_TREE) (HN : size_ok (size t - 1)).
Context (Hlines : size t - 1 <= line_of t addr (end_offset t)).
Notation N := (size t - 1).

Lemma ro_base a j : 0 <= j -> ro_aux_tree_base a t j = aux_ro a !! Z.to_nat j.
Proof. intros _. unfold ro_aux_tree_base, is_ro. rewrite Ht. done. Qed.

Lemma place_loop_spec : forall fuel r k j a, aux_addr a = addr -> size t <= Z.of_nat (length (aux_ro a)) -> slot_ok N j -> inorder N j = r ->
  at_line b t L addr r k -> all_placed b t L a r -> N - r + 1 <= Z.of_nat fuel ->
  exists a' complete, place_loop fuel b t r k j a = Some (a', complete) /\ same_room a a' /\
    if complete : bool then all_placed b t L a' (size t) else Forall (fun y => line_of t addr y < N) L.
Proof.
  induction fuel as [|fuel IH]; intros r k j a Ha Hlen Hj Hr Hat Hall Hf; pose proof Hj as [Hj0 HjN];
    destruct (to_inorder_ok N HN j Hj) as [_ Hrr]; rewrite Hr in Hrr; pose proof Hrr as [Hr0 HrN]; [lia|].
  cbn [place_loop]. rewrite (proj2 (Z.eqb_neq j 0)) by lia. cbn [negb].
  pose proof Hat as (L1 & L2 & EL & Hk & HL1 & _).
  destruct (line_loop_spec b t L addr H0 H16 Haddr Hc a r Ha ltac:(lia) (length (b_words b)) k L1 L2 EL Hk HL1) as (k' & -> & Hat' & Hline).
  { by apply (at_line_bounds b t L addr Hc r k). }
  { pose proof (at_line_bounds b t L addr Hc r k Hat). unfold first_offset in *. by apply (chain_length b (node_key b) k (end_offset t)); [done|lia]. }
  bind_simpl. unfold btree_bkey_last. destruct (Z.leb_spec (end_offset t) k') as [Hge|Hlt]; [|].
  { exists a, false. split; [done|]. split; [done|]. pose proof Hat' as (L1' & L2' & E & Hk' & HL' & _).
    inversion Hk' as [|? ? ? ? _ _ Hn Hle Hrest]; subst L2'.
    - rewrite E, app_nil_r. eapply Forall_impl; [exact HL'|]. cbn. lia.
    - pose proof (chain_le _ _ _ _ _ Hrest). lia. }
  destruct (cacheline_offset_ok b t L addr H0 H16 Haddr Halign Hc a r k' Ha ltac:(lia) Hat' Hlt Hline) as (o & -> & Eo). bind_simpl.
  rewrite ro_base by lia. destruct (lookup_lt_is_Some_2 (aux_ro a) (Z.to_nat j) ltac:(lia)) as [f Ef]. rewrite Ef. bind_simpl.
  rewrite usub_ok by (unfold size_ok in *; lia). bind_simpl.
  destruct (next_spec N HN j Hj) as (j' & -> & Hnext). bind_simpl.
  set (f' := mk_bkey_float (exponent f) o (mantissa f)). set (a1 := with_ro a (<[Z.to_nat j := f']> (aux_ro a))).
  assert (Hroom : same_room a a1) by (split; [done|done|]; cbn; by rewrite length_insert).
  assert (Hall1 : all_placed b t L a1 (r + 1)).
  { intros i Hi Hir. destruct (Z.eq_dec i j) as [->|Hne].
    - exists k', f'. split; cbn [aux_ro aux_addr with_ro a1]; rewrite ?Hr, ?Ha; try done.
      apply list_lookup_insert_eq. lia.
    - destruct (Hall i Hi) as (ki & fi & Hp).
      { assert (inorder N i <> r); [|lia]. intros E. apply Hne. by apply (inorder_inj N HN); [..|congruence]. }
      exists ki, fi. apply slot_placed_set; [done|destruct Hi; lia|lia|done]. }
  destruct Hnext as [[Hlast ->]|[Hj' Hr']].
  - exists a1, true. split; [by destruct fuel|]. split; [done|]. intros i Hi _. apply Hall1; [done|].
    pose proof (to_inorder_ok N HN i Hi) as [_ [_ Hle]]. lia.
  - destruct (IH (r + 1) k' j' a1) as (a' & c & -> & [E1 E2 E3] & Hall').
    + done.
    + cbn. by rewrite length_insert.
    + done.
    + by rewrite Hr', Hr.
    + eapply at_line_mono; [|exact Hat']. lia.
    + done.
    + lia.
    + exists a', c. split; [done|]. split; [|done]. destruct Hroom as [R1 R2 R3]. split; congruence.
Qed.
End Place.

Lemma type_with_extra t n e : n <> 0 -> e < BSET_RW_AUX_TREE_VAL -> bset_aux_tree_type (with_extra t n e) = Some BSET_RO_AUX_TREE.
Proof.
  intros Hn He. unfold bset_aux_tree_type, BSET_NO_AUX_TREE_VAL, BSET_RW_AUX_TREE_VAL, MAX in *. cbn [extra size with_extra].
  rewrite !(proj2 (Z.eqb_neq _ _)) by lia. done.
Qed.

(** What a tree of keys is, its abbreviations aside. *)
Record tree_placed (b : btree) (t : bset_tree) (L : list Z) (a : aux) : Prop := {
  tp_type : bset_aux_tree_type t = Some BSET_RO_AUX_TREE;
  tp_size : size_ok (size t - 1);
  tp_extra : eytzinger1_extra (size t - 1) = Some (extra t);
  tp_len : size t <= Z.of_nat (length (aux_ro a));
  tp_keys : all_placed b t L a (size t)
}.

(** Where [t'] and [t] agree. *)
Definition same_place (t t' : bset_tree) : Prop :=
  data_offset t' = data_offset t /\ aux_data_offset t' = aux_data_offset t /\ end_offset t' = end_offset t.

Lemma size_loop_spec b L : forall fuel t a, 0 <= data_offset t -> end_offset t < 2 ^ 16 -> 0 <= aux_addr a -> aux_addr a mod 8 = 0 ->
  chain b (node_key b) (first_offset t) (end_offset t) L -> 0 <= size t -> size t <= line_of t (aux_addr a) (end_offset t) -> size t <= Z.of_nat fuel ->
  size t <= Z.of_nat (length (aux_ro a)) ->
  exists a' t', size_loop fuel b a t = Some (a', t') /\ same_place t t' /\ aux_addr a' = aux_addr a /\ aux_rw a' = aux_rw a /\ size t' <= size t /\
    (size t' = 0 /\ extra t' = BSET_NO_AUX_TREE_VAL /\ (2 <= size t -> Forall (fun y => line_of t (aux_addr a) y < 1) L) \/ tree_placed b t' L a').
Proof.
  induction fuel as [|fuel IH]; intros t a H0 H16 Haddr Halign Hc Hs0 Hlines Hf Hlen; cbn [size_loop].
  { rewrite (proj2 (Z.ltb_lt _ _)) by lia. exists a, (with_extra t 0 BSET_NO_AUX_TREE_VAL). split_and!; [done..|cbn; lia|left; split_and!; (done || lia)]. }
  destruct (Z.ltb_spec (size t) 2) as [Hlt|Hge].
  { exists a, (with_extra t 0 BSET_NO_AUX_TREE_VAL). split_and!; [done..|cbn; lia|left; split_and!; (done || lia)]. }
  pose proof (line_of_bound t (aux_addr a) H0 H16 Haddr (end_offset t) ltac:(lia)) as Hlb.
  assert (HN : size_ok (size t - 1)) by (unfold size_ok; lia).
  rewrite (extra_spec _ HN). bind_simpl. set (e := 2 * (size t - 1 + 1 - 2 ^ Z.log2 (size t - 1))).
  assert (0 <= e < 2 ^ 14) as He.
  { pose proof (Z.log2_spec (size t - 1) ltac:(lia)) as Hl. pose proof (pow2_pos (Z.log2 (size t - 1)) (Z.log2_nonneg _)). unfold e. lia. }
  rewrite Z.mod_small by lia. set (t' := with_extra t (size t) e).
  change (size t' - 1) with (size t - 1). destruct (first_spec _ HN) as (j & -> & Hj & Hji). bind_simpl. rewrite (first_ok b t' L H16 Hc). bind_simpl.
  assert (Ht : bset_aux_tree_type t' = Some BSET_RO_AUX_TREE) by (apply type_with_extra; unfold BSET_RW_AUX_TREE_VAL, MAX; lia).
  destruct (place_loop_spec b t' L (aux_addr a) H0 H16 Haddr Halign Hc Ht HN ltac:(change (size t - 1 <= line_of t (aux_addr a) (end_offset t)); lia) (Z.to_nat (size t')) 1 (first_offset t') j a)
    as (a' & c & -> & [R1 R2 R3] & Hall).
  - done.
  - done.
  - done.
  - done.
  - exists [], L. split; [done|]. split; [done|]. split; [constructor|]. destruct L; [done|]. by inversion Hc.
  - intros i Hi Hlt. destruct (to_inorder_ok _ HN i Hi) as [_ [Hi0 _]]. change (size t' - 1) with (size t - 1) in *. lia.
  - change (size t') with (size t). lia.
  - bind_simpl. destruct c.
    + exists a', t'. split_and!; [done..|change (size t') with (size t); lia|]. right. split; [done|done|by apply (extra_spec _ HN)| |exact Hall]. change (size t') with (size t). lia.
    + destruct (IH (with_size t' (size t' - 1)) a') as (a2 & t2 & E & (S1 & S2 & S3) & E1 & E2 & Hs2 & Hres).
      * done.
      * done.
      * by rewrite R1.
      * by rewrite R1.
      * done.
      * change (0 <= size t - 1). lia.
      * rewrite R1. change (size t - 1 <= line_of t (aux_addr a) (end_offset t)). lia.
      * change (size t - 1 <= Z.of_nat fuel). lia.
      * rewrite R3. change (size t - 1 <= Z.of_nat (length (aux_ro a))). lia.
      * change (size (with_size t' (size t' - 1))) with (size t - 1) in Hs2.
        exists a2, t2. split; [exact E|]. split; [by split|]. split; [congruence|]. split; [congruence|]. split; [lia|].
        destruct Hres as [(Hz & Hx & Hl2)|Hres]; [left; split; [done|]; split; [done|]; intros _|by right].
        destruct (Z.eq_dec (size t) 2) as [E2'|Hne].
        -- eapply Forall_impl; [exact Hall|]. cbn. intros y Hy. change (line_of t (aux_addr a) y < size t - 1) in Hy. lia.
        -- change (size (with_size t' (size t' - 1))) with (size t - 1) in Hl2. rewrite R1 in Hl2. apply Hl2. lia.
Qed.
