(* ===== verification/BsetTreeFacts.v ===== *)
(** * The search structures of a node are right ([btree/bset_build.rs])

    The keys of the slots of a tree and the bits kept of them, the search in
    a tree built so, and the two results about nodes: building the structures
    of a node ends with one that searches can use for every set, and a search
    with such structures finds the first live key at or behind a position. *)

From stdpp Require Import base tactics list option sorting.
From Stdlib Require Import ZArith Lia.
From S2P Require Import Prelude Eytzinger Bpos BkeyPack BkeyOrder NodeIter BsetSearch BsetMem BsetTable BsetUpdate BsetSort NodeSort BsetTree.

Open Scope Z_scope.

(** ** The keys of the slots *)

(** Keys of a row are in order as their offsets are. *)
Lemma row_order b (R : Z -> Z -> Prop) k e L x y : chain b (node_key b) k e L -> StronglySorted R L -> x ∈ L -> y ∈ L -> x <= y -> x = y \/ R x y.
Proof.
  intros Hc Hs Hx Hy Hxy. destruct (Z.eq_dec x y) as [|Hne]; [by left|right].
  apply list_elem_of_split in Hx as (L1 & L2 & ->). destruct (chain_app b _ _ _ _ Hc) as (m & H1 & H2). assert (m = x) as -> by (by inversion H2).
  rewrite elem_of_app, elem_of_cons in Hy. destruct Hy as [Hy|[->|Hy]]; [|lia|].
  - pose proof (chain_bounds _ _ _ _ _ H1 Hy). lia.
  - clear -Hs Hy. induction L1 as [|z L1 IH]; [|apply IH; by inversion Hs]. apply StronglySorted_inv in Hs as [_ Hs].
    rewrite Forall_forall in Hs. by apply Hs.
Qed.

(** The row from a place on. *)
Lemma at_line_key b t L addr r k : at_line b t L addr r k -> k < end_offset t -> k ∈ L.
Proof.
  intros (L1 & L2 & -> & Hk & _) Hlt. apply elem_of_app. right. inversion Hk; subst; [lia|left].
Qed.

Lemma at_line_first b t L addr r k k' : at_line b t L addr r k -> k' ∈ L -> r <= line_of t addr k' -> k <= k'.
Proof.
  intros (L1 & L2 & -> & Hk & HL1 & _) Hk' Hr. apply elem_of_app in Hk' as [Hk'|Hk'].
  - rewrite Forall_forall in HL1. specialize (HL1 _ Hk'). lia.
  - by apply (chain_bounds _ _ _ _ _ Hk).
Qed.

(** The memory of the keys around the tree and in it: [K i] is the key of slot [i]. *)
Definition lower_mem (b : btree) (K : Z -> Z) (minm : list Z) (i : Z) : list Z :=
  if lower_slot i =? 0 then minm else key_mem b (K (lower_slot i)).
Definition upper_mem (b : btree) (K : Z -> Z) (maxm : list Z) (i : Z) : list Z :=
  if upper_slot i =? 0 then maxm else key_mem b (K (upper_slot i)).

(** A tree whose slots have these keys. *)
Record tree_keys (t : bset_tree) (L : list Z) (K : Z -> Z) (a : aux) : Prop := {
  tk_type : bset_aux_tree_type t = Some BSET_RO_AUX_TREE;
  tk_size : size_ok (size t - 1);
  tk_extra : eytzinger1_extra (size t - 1) = Some (extra t);
  tk_slot i : slot_ok (size t - 1) i -> K i ∈ L /\
    exists f, aux_ro a !! Z.to_nat i = Some f /\ cacheline_to_bkey a t (inorder (size t - 1) i) (key_offset f) = Some (K i);
  tk_order i i' : slot_ok (size t - 1) i -> slot_ok (size t - 1) i' -> inorder (size t - 1) i <= inorder (size t - 1) i' -> K i <= K i'
}.

Lemma tree_key t L K a i : tree_keys t L K a -> slot_ok (size t - 1) i -> tree_to_bkey a t i = Some (K i).
Proof.
  intros [Ht HN He Hs _] Hi. destruct (Hs i Hi) as (_ & f & Ef & Ek). unfold tree_to_bkey. destruct Hi as [Hi0 HiN].
  rewrite (ro_base t Ht) by lia. rewrite Ef. bind_simpl. rewrite usub_ok by (unfold size_ok in HN; lia). bind_simpl.
  rewrite (to_inorder_code _ HN) by done. bind_simpl. exact Ek.
Qed.

Lemma placed_keys b t L a : chain b (node_key b) (first_offset t) (end_offset t) L -> tree_placed b t L a ->
  exists K, tree_keys t L K a.
Proof.
  intros Hc [Ht HN He Hl Hp]. exists (fun i => default 0 (f ← aux_ro a !! Z.to_nat i; cacheline_to_bkey a t (inorder (size t - 1) i) (key_offset f))).
  assert (Hall : forall i, slot_ok (size t - 1) i -> exists k f, slot_placed b t L a i k f).
  { intros i Hi. apply Hp; [done|]. pose proof (to_inorder_ok _ HN i Hi) as [_ [_ Hr]]. lia. }
  split; [done..| |].
  - intros i Hi. destruct (Hall i Hi) as (k & f & [E1 E2 E3 E4 E5]). rewrite E1. bind_simpl. rewrite E2. cbn [default from_option id].
    split; [by eapply at_line_key|]. by exists f.
  - intros i i' Hi Hi' Hle. destruct (Hall i Hi) as (k & f & [E1 E2 E3 E4 E5]), (Hall i' Hi') as (k' & f' & [F1 F2 F3 F4 F5]).
    rewrite E1, F1. bind_simpl. rewrite E2, F2. cbn [default from_option id].
    eapply at_line_first; [exact E3|by eapply at_line_key|lia].
Qed.

(** Writing an entry with the same key offset keeps the keys. *)
Lemma tree_keys_set t L K a j f f' : tree_keys t L K a -> 0 <= j -> aux_ro a !! Z.to_nat j = Some f -> key_offset f' = key_offset f ->
  tree_keys t L K (with_ro a (<[Z.to_nat j := f']> (aux_ro a))).
Proof.
  intros [Ht HN He Hs Ho] Hj Ef Eo. split; [done..| |done]. intros i Hi. destruct (Hs i Hi) as (Hin & fi & Efi & Ek). split; [done|].
  cbn [aux_ro with_ro]. destruct (Z.eq_dec i j) as [->|Hne].
  - exists f'. rewrite list_lookup_insert_eq by (by eapply lookup_lt_Some). split; [done|]. rewrite Eo. assert (fi = f) as <- by congruence. exact Ek.
  - exists fi. rewrite list_lookup_insert_ne by (destruct Hi; lia). done.
Qed.

(** ** The numbers of keys and bounds *)

Lemma node_key_packed b k : node_wf b -> node_key b k -> bkey_packed (key_mem b k) = true ->
  packed_as (b_format b) (key_mem b k) [inode (key_pos b k); offset (key_pos b k); snapshot (key_pos b k)].
Proof.
  intros [Hf _] (_ & key & Hk) Hp. unfold key_pos. rewrite (unpack_pos_spec _ _ key Hf Hk). cbn [default from_option id].
  destruct Hk as [_ [[_ Hpa]|[Hn _]]]; [by apply packed_key_pos|congruence].
Qed.

(** The memory of a position, packed or not; if not, no number is asked of it. *)
Definition num_at (f : bkey_format) (m : list Z) (p : bpos) : Prop :=
  bpos_wf p /\ words_wf m /\ (bkey_packed m = true -> packed_as f m [inode p; offset p; snapshot p]).

Lemma num_at_key b k : node_wf b -> words_wf (b_words b) -> node_key b k -> num_at (b_format b) (key_mem b k) (key_pos b k).
Proof.
  intros Hb Hw Hk. split; [by apply key_pos_wf|]. split; [by apply Forall_drop|]. by apply node_key_packed.
Qed.

Lemma num_le f m m' p p' : format_wf f -> num_at f m p -> num_at f m' p' -> bkey_packed m = true -> bkey_packed m' = true ->
  pos_num f m <= pos_num f m' <-> bpos_val p <= bpos_val p'.
Proof.
  intros Hf (Wp & _ & Hm) (Wp' & _ & Hm') E E'. pose proof (pos_num_order f m m' p p' Hf Wp Wp' (Hm E) (Hm' E')) as Hc.
  revert Hc. destruct (Z.compare_spec (pos_num f m) (pos_num f m')), (Z.compare_spec (bpos_val p) (bpos_val p')); intros Hc; (discriminate || lia).
Qed.

Lemma num_lt f m m' p p' : format_wf f -> num_at f m p -> num_at f m' p' -> bkey_packed m = true -> bkey_packed m' = true ->
  pos_num f m < pos_num f m' <-> bpos_val p < bpos_val p'.
Proof. intros. pose proof (num_le f m' m p' p) as Hle. rewrite !Z.lt_nge. tauto. Qed.

Lemma bound_key_spec b p : node_wf b -> bpos_wf p -> exists m, bound_key b p = Some m /\ num_at (b_format b) m p /\
  (bkey_packed m = true -> packable (b_format b) p).
Proof.
  intros [Hf _] Hp. pose proof (fw_u64s _ Hf) as HU. unfold bound_key, __bch2_bkey_pack_pos_exact.
  set (um := bkey_words (mk_bkey BKEY_U64S KEY_FORMAT_CURRENT 0 ZERO_VERSION 0 p)).
  assert (num_at (b_format b) um p /\ (bkey_packed um = true -> packable (b_format b) p)) as Hum.
  { destruct (word0_bkey_words (mk_bkey BKEY_U64S KEY_FORMAT_CURRENT 0 ZERO_VERSION 0 p)) as (_ & Ef & _ & _ & Hw).
    { destruct Hp as (Wi & Wo & Ws). unfold bkey_wf, bversion_wf, bpos_wf, in_range in *. cbn -[Z.pow]. repeat split; (done || lia). }
    assert (bkey_packed um = false) as E by (unfold bkey_packed; fold um in Ef; rewrite Ef; done).
    split; [split; [done|]; split; [done|]|]; congruence. }
  destruct (pack_all_spec (b_format b) (replicate 5 0) [inode p; offset p; snapshot p] (f_key_u64s (b_format b)) KEY_FORMAT_LOCAL_BTREE 0)
    as (st & -> & Hfit); [done|by apply zero_buffer_wf|cbn; lia|unfold in_range, KEY_FORMAT_LOCAL_BTREE; lia..|]. bind_simpl.
  destruct (format_wf_destruct _ Hf) as (b0&b1&b2&bs&o0&o1&o2&os&Eb&Eo&B0&B1&B2&O0&O0'&O1&O1'&O2&O2').
  assert (field_off (b_format b) BKEY_FIELD_SNAPSHOT = Some o2 /\ field_off (b_format b) BKEY_FIELD_OFFSET = Some o1 /\
          field_off (b_format b) BKEY_FIELD_INODE = Some o0) as (-> & -> & ->) by (unfold field_off; rewrite Eo; done). bind_simpl.
  destruct ((snapshot p <? o2) || (offset p <? o1) || (inode p <? o0)); [bind_simpl; cbn [default from_option id]; by exists um|].
  destruct (fields_fit _ _ _) eqn:Efit.
  - destruct Hfit as (st' & m' & -> & Hfin & _ & Hpa). bind_simpl. rewrite Hfin. bind_simpl. cbn [default from_option id].
    eexists. split; [reflexivity|]. split; [split; [done|]; split; [apply Hpa|done]|]. intros _. by split.
  - rewrite Hfit. bind_simpl. cbn [default from_option id]. by exists um.
Qed.

(** ** The abbreviations *)

Section Bfloats.
Context (b : btree) (Hb : node_wf b) (Hw : words_wf (b_words b)) (t : bset_tree) (L : list Z) (K : Z -> Z).
Context (Hc : chain b (node_key b) (first_offset t) (end_offset t) L) (Hs : StronglySorted (val_le (key_val b)) L).
Context (min_key max_key : bpos) (Hin : Forall (fun k => bpos_val min_key <= bpos_val (key_pos b k) <= bpos_val max_key) L).
Context (minm maxm : list Z) (Hmin : num_at (b_format b) minm min_key) (Hmax : num_at (b_format b) maxm max_key).
Notation N := (size t - 1).

Lemma row_key k : k ∈ L -> node_key b k.
Proof. intros Hk. pose proof (chain_keys b _ _ _ Hc) as H. rewrite Forall_forall in H. by apply H. Qed.

Lemma row_pos x y : x ∈ L -> y ∈ L -> x <= y -> bpos_val (key_pos b x) <= bpos_val (key_pos b y).
Proof.
  intros Hx Hy Hxy. destruct (row_order b _ _ _ L x y Hc Hs Hx Hy Hxy) as [->|Hle]; [done|].
  apply val_le_pos; [by apply (row_key x)|by apply (row_key y)|done].
Qed.

(** The positions around a slot. *)
Lemma lower_mem_spec a i : tree_keys t L K a -> slot_ok N i -> exists p, num_at (b_format b) (lower_mem b K minm i) p /\
  bpos_val p <= bpos_val (key_pos b (K i)).
Proof.
  intros Hk Hi. pose proof Hk as [_ HN _ Hsl Ho]. unfold lower_mem. destruct (Hsl i Hi) as [Hki _]. destruct (Z.eqb_spec (lower_slot i) 0) as [|Hne].
  - exists min_key. split; [done|]. rewrite Forall_forall in Hin. by apply Hin.
  - destruct (lower_slot_order N i Hi Hne) as [Hl Hle]. destruct (Hsl _ Hl) as [Hkl _].
    exists (key_pos b (K (lower_slot i))). split; [apply num_at_key; [done..|by apply row_key]|]. apply row_pos; [done..|]. by apply Ho.
Qed.

Lemma upper_mem_spec a i : tree_keys t L K a -> slot_ok N i -> exists p, num_at (b_format b) (upper_mem b K maxm i) p /\
  bpos_val (key_pos b (K i)) <= bpos_val p.
Proof.
  intros Hk Hi. pose proof Hk as [_ HN _ Hsl Ho]. unfold upper_mem. destruct (Hsl i Hi) as [Hki _]. destruct (Z.eqb_spec (upper_slot i) 0) as [|Hne].
  - exists max_key. split; [done|]. rewrite Forall_forall in Hin. by apply Hin.
  - destruct (upper_slot_order N i Hi Hne) as [Hl Hle]. destruct (Hsl _ Hl) as [Hkl _].
    exists (key_pos b (K (upper_slot i))). split; [apply num_at_key; [done..|by apply row_key]|]. apply row_pos; [done..|]. by apply Ho.
Qed.

Definition slot_float (a : aux) (i : Z) : Prop := exists f, aux_ro a !! Z.to_nat i = Some f /\
  float_ok b (lower_mem b K minm i) (upper_mem b K maxm i) (key_mem b (K i)) f.

Lemma make_bfloat_spec a i f : tree_keys t L K a -> slot_ok N i -> aux_ro a !! Z.to_nat i = Some f ->
  exists f', make_bfloat b a t i minm maxm = Some f' /\ key_offset f' = key_offset f /\
    float_ok b (lower_mem b K minm i) (upper_mem b K maxm i) (key_mem b (K i)) f'.
Proof.
  intros Hk Hi Ef. pose proof Hk as [Ht HN _ Hsl _]. pose proof Hi as [Hi0 HiN]. unfold make_bfloat. rewrite (ro_base t Ht) by lia. rewrite Ef. bind_simpl.
  rewrite (tree_key t L K a i Hk Hi). bind_simpl.
  assert ((if is_power_of_two i then Some minm else k ← tree_to_bkey a t (Z.shiftr i (trailing_zeros 64 i + 1)); Some (key_mem b k)) =
    Some (lower_mem b K minm i)) as ->.
  { destruct (lower_slot_code i 64 Hi0) as [-> ->]. unfold lower_mem. destruct (Z.eqb_spec (lower_slot i) 0) as [|Hne]; [done|].
    destruct (lower_slot_order N i Hi Hne) as [Hl _]. by rewrite (tree_key t L K a _ Hk Hl). }
  bind_simpl.
  assert ((if is_power_of_two (i + 1) then Some maxm else k ← tree_to_bkey a t (Z.shiftr i (trailing_ones i + 1)); Some (key_mem b k)) =
    Some (upper_mem b K maxm i)) as ->.
  { destruct (upper_slot_code i Hi0) as [-> ->]. unfold upper_mem. destruct (Z.eqb_spec (upper_slot i) 0) as [|Hne]; [done|].
    destruct (upper_slot_order N i Hi Hne) as [Hl _]. by rewrite (tree_key t L K a _ Hk Hl). }
  bind_simpl. destruct (Hsl i Hi) as [Hki _]. pose proof (num_at_key b (K i) Hb Hw (row_key _ Hki)) as Hm.
  destruct (lower_mem_spec a i Hk Hi) as (p & Hl & Hp), (upper_mem_spec a i Hk Hi) as (p' & Hu & Hp'). pose proof (nw_format _ Hb) as Hf.
  apply bfloat_of_spec; [done|by destruct Hl as (_ & ? & _)|by destruct Hu as (_ & ? & _)|by destruct Hm as (_ & ? & _)|..]; intros E1 E2.
  - by eapply num_le.
  - by eapply num_le.
Qed.

Lemma bfloat_loop_spec : forall fuel r j a, tree_keys t L K a -> slot_ok N j -> inorder N j = r ->
  (forall i, slot_ok N i -> inorder N i < r -> slot_float a i) -> N - r + 1 <= Z.of_nat fuel ->
  exists a', bfloat_loop fuel b t minm maxm j a = Some a' /\ aux_addr a' = aux_addr a /\ aux_rw a' = aux_rw a /\ tree_keys t L K a' /\
    forall i, slot_ok N i -> slot_float a' i.
Proof.
  induction fuel as [|fuel IH]; intros r j a Hk Hj Hr Hall Hf; pose proof Hk as [Ht HN _ Hsl _]; pose proof Hj as [Hj0 HjN];
    destruct (to_inorder_ok N HN j Hj) as [_ Hrr]; rewrite Hr in Hrr; pose proof Hrr as [Hr0 HrN]; [lia|].
  cbn [bfloat_loop]. rewrite (proj2 (Z.eqb_neq j 0)) by lia. cbn [negb].
  destruct (Hsl j Hj) as (_ & f & Ef & _). destruct (make_bfloat_spec a j f Hk Hj Ef) as (f' & -> & Eo & Hfl). bind_simpl.
  rewrite usub_ok by (unfold size_ok in *; lia). bind_simpl. destruct (next_spec N HN j Hj) as (j' & -> & Hnext). bind_simpl.
  set (a1 := with_ro a (<[Z.to_nat j := f']> (aux_ro a))).
  assert (Hk1 : tree_keys t L K a1) by (eapply tree_keys_set; [done|lia|exact Ef|done]).
  assert (Hall1 : forall i, slot_ok N i -> inorder N i < r + 1 -> slot_float a1 i).
  { intros i Hi Hir. destruct (Z.eq_dec i j) as [->|Hne].
    - exists f'. split; [|done]. cbn [aux_ro with_ro a1]. apply list_lookup_insert_eq. by eapply lookup_lt_Some.
    - destruct (Hall i Hi) as (fi & Efi & Hfi).
      { assert (inorder N i <> r); [|lia]. intros E. apply Hne. by apply (inorder_inj N HN); [..|congruence]. }
      exists fi. split; [|done]. cbn [aux_ro with_ro a1]. rewrite list_lookup_insert_ne by (destruct Hi; lia). done. }
  destruct Hnext as [[Hlast ->]|[Hj' Hr']].
  - exists a1. split; [by destruct fuel|]. split_and!; [done..|]. intros i Hi. apply Hall1; [done|].
    pose proof (to_inorder_ok N HN i Hi) as [_ [_ Hle]]. lia.
  - destruct (IH (r + 1) j' a1 Hk1 Hj' ltac:(lia) Hall1 ltac:(lia)) as (a' & -> & E1 & E2 & Hk' & Hall'). by exists a'.
Qed.
End Bfloats.

(** ** Searching in the tree *)

(** Of keys at one position in a set, only the last may be live. *)
Definition live_last (b : btree) (L : list Z) : Prop :=
  StronglySorted (fun x y => bpos_val (key_pos b x) = bpos_val (key_pos b y) -> bkey_deleted (key_mem b x) = true) L.

Lemma cmp_p_or_unp_spec b s m q k : node_wf b -> bpos_wf s -> node_key b k -> lossy_key (b_format b) s m q ->
  bkey_cmp_p_or_unp b k (Some m) s =
  Some (cmp_sign (bpos_val (key_pos b k) ?= bpos_val (if bkey_packed (key_mem b k) then q else s))).
Proof.
  intros [Hf Hn] Hs (_ & key & Hk) [Wq Hq Hm Hle]. unfold bkey_cmp_p_or_unp.
  assert (key_pos b k = k_p key) as Ekp by (unfold key_pos; by rewrite (unpack_pos_spec _ _ key Hf Hk)). rewrite Ekp.
  pose proof Hk as [Wk [[Hh Hp]|[Hu Ep]]].
  - rewrite (header_ok_packed _ _ Hh). cbn [negb].
    assert (bkey_packed m = true) as Hmp by (unfold bkey_packed; by rewrite Hm).
    rewrite Hmp. cbn [assert]. bind_simpl. unfold bch2_bkey_cmp_packed. rewrite (header_ok_packed _ _ Hh), Hmp. cbn [andb].
    pose proof (packed_key_pos _ _ _ Hf Hp) as Pl.
    destruct (packed_pos_val _ _ _ Hf Pl) as (b0&b1&b2&?&?&?&->&Hbits&_). bind_simpl.
    rewrite Hn, Hbits, Z.eqb_refl. cbn [assert]. bind_simpl. rewrite <- Hbits, (cmp_packed_packed _ _ _ _ _ Hf Pl Hq).
    by rewrite (bpos_cmp_val (k_p key) q) by (apply Wk || done).
  - rewrite Hu. cbn [negb]. rewrite Ep. by rewrite bpos_cmp_val by (apply Wk || done).
Qed.

Section Search.
Context (b : btree) (Hb : node_wf b) (Hw : words_wf (b_words b)) (t : bset_tree) (L : list Z) (K : Z -> Z) (a : aux).
Context (H16 : end_offset t < 2 ^ 16) (H0 : 0 <= data_offset t).
Context (Hc : chain b (node_key b) (first_offset t) (end_offset t) L) (Hs : StronglySorted (val_le (key_val b)) L) (Hlive : live_last b L).
Context (min_key max_key : bpos) (Hin : Forall (fun k => bpos_val min_key <= bpos_val (key_pos b k) <= bpos_val max_key) L).
Context (minm maxm : list Z) (Hmin : num_at (b_format b) minm min_key) (Hmax : num_at (b_format b) maxm max_key).
Context (Hminp : bkey_packed minm = true -> packable (b_format b) min_key).
Context (Hk : tree_keys t L K a) (Hfl : forall i, slot_ok (size t - 1) i -> slot_float b K minm maxm a i).
Context (s : bpos) (Wsr : bpos_wf s) (Hsr : bpos_val min_key <= bpos_val s <= bpos_val max_key) (m : list Z) (q : bpos).
Context (Hm : search_key (b_format b) s m q).
Notation N := (size t - 1).
Notation pos k := (bpos_val (key_pos b k)).
Notation packed k := (bkey_packed (key_mem b k) = true).

(** All keys before [k] are before the position. *)
Definition passed (k : Z) : Prop := forall y, y ∈ L -> y < k -> below b s y = true.

Lemma passed_less k : k ∈ L -> pos k < bpos_val s -> passed k.
Proof.
  intros Hin' Hlt y Hy Hyk. pose proof (row_pos b t L Hc Hs y k Hy Hin' ltac:(lia)). unfold below. by rewrite (proj2 (Z.ltb_lt _ _)) by lia.
Qed.

Lemma passed_equal k : k ∈ L -> pos k <= bpos_val s -> passed k.
Proof.
  intros Hin' Hle y Hy Hyk. pose proof (row_pos b t L Hc Hs y k Hy Hin' ltac:(lia)). unfold below.
  destruct (Z.ltb_spec (pos y) (bpos_val s)) as [|Hge]; [done|]. cbn [orb].
  rewrite (proj2 (Z.eqb_eq _ _)) by lia. cbn [andb].
  destruct (row_order b _ _ _ L y k Hc Hlive Hy Hin' ltac:(lia)) as [->|Hd]; [lia|]. apply Hd. lia.
Qed.

(** What is known of the slots around [n]. *)
Definition low_ok (n : Z) : Prop := lower_slot n = 0 \/
  slot_ok N (lower_slot n) /\ passed (K (lower_slot n)) /\ (packed (K (lower_slot n)) -> pos (K (lower_slot n)) <= bpos_val q).
Definition up_ok (n : Z) : Prop := upper_slot n = 0 \/
  slot_ok N (upper_slot n) /\ (packed (K (upper_slot n)) -> bpos_val q <= pos (K (upper_slot n))).

Lemma q_num : num_at (b_format b) m q /\ bkey_packed m = true /\ bpos_val q <= bpos_val s.
Proof.
  destruct Hm as [[Wq Hq Hmf Hle] _]. split; [split; [done|]; split; [apply Hq|done]|]. split; [|done].
  unfold bkey_packed. by rewrite Hmf.
Qed.

Lemma slot_in i : slot_ok N i -> K i ∈ L.
Proof. intros Hi. by apply (tk_slot _ _ _ _ Hk). Qed.

Lemma low_num n : low_ok n -> bkey_packed (lower_mem b K minm n) = true -> pos_num (b_format b) (lower_mem b K minm n) <= pos_num (b_format b) m.
Proof.
  intros Hlow. destruct q_num as (Hq & Hqp & Hqs). pose proof (nw_format _ Hb) as Hf. unfold lower_mem. destruct Hlow as [->|(Hi & _ & Hle)].
  - cbn [Z.eqb]. intros Hp. eapply num_le; [done|exact Hmin|exact Hq|done..|]. apply Hm; [by apply Hminp|lia].
  - rewrite (proj2 (Z.eqb_neq _ _)) by (destruct Hi; lia). intros Hp.
    eapply num_le; [done|by apply num_at_key; [..|by eapply row_key; [|apply slot_in]]|exact Hq|done..|]. by apply Hle.
Qed.

Lemma up_num n : up_ok n -> bkey_packed (upper_mem b K maxm n) = true -> pos_num (b_format b) m <= pos_num (b_format b) (upper_mem b K maxm n).
Proof.
  intros Hup. destruct q_num as (Hq & Hqp & Hqs). pose proof (nw_format _ Hb) as Hf. unfold upper_mem. destruct Hup as [->|(Hi & Hle)].
  - cbn [Z.eqb]. intros Hp. eapply num_le; [done|exact Hq|exact Hmax|done..|]. lia.
  - rewrite (proj2 (Z.eqb_neq _ _)) by (destruct Hi; lia). intros Hp.
    eapply num_le; [done|exact Hq|by apply num_at_key; [..|by eapply row_key; [|apply slot_in]]|done..|]. by apply Hle.
Qed.

(** Where a step goes. *)
Lemma go_right_ok n : slot_ok N n -> up_ok n -> passed (K n) -> (packed (K n) -> pos (K n) <= bpos_val q) -> low_ok (2 * n + 1) /\ up_ok (2 * n + 1).
Proof.
  intros Hn Hup Hp Hq. destruct (child_slots n ltac:(destruct Hn; lia)) as (_ & _ & E1 & E2). unfold low_ok, up_ok. rewrite E1, E2. split; [|done]. by right.
Qed.

Lemma go_left_ok n : slot_ok N n -> low_ok n -> (packed (K n) -> bpos_val q <= pos (K n)) -> low_ok (2 * n) /\ up_ok (2 * n).
Proof.
  intros Hn Hlow Hq. destruct (child_slots n ltac:(destruct Hn; lia)) as (E1 & E2 & _ & _). unfold low_ok, up_ok. rewrite E1, E2. split; [done|]. by right.
Qed.

(** The bits of the search key. *)
Lemma search_mantissa f : 0 <= exponent f -> exponent f + 16 <= 64 * f_key_u64s (b_format b) -> bkey_mantissa m f = Some (num_bits (b_format b) m (exponent f)).
Proof.
  intros He1 He2. destruct q_num as ((_ & Hwm & Hpa) & Hp & _). unfold bkey_mantissa. rewrite Hp. cbn [assert]. bind_simpl. unfold num_bits. f_equal.
  pose proof (fw_u64s _ (nw_format _ Hb)). apply mantissa_bits; [done| |done|lia]. destruct (pa_wf _ _ _ (Hpa Hp)) as [_ Hl]. lia.
Qed.

(** One step of the descent: a key, or a slot below for which the bounds hold. *)
Lemma search_step n f : slot_ok N n -> low_ok n -> up_ok n -> aux_ro a !! Z.to_nat n = Some f ->
  float_ok b (lower_mem b K minm n) (upper_mem b K maxm n) (key_mem b (K n)) f ->
  exists step, (if exponent f <? BFLOAT_FAILED then
      r ← bkey_mantissa m f;
      dropped ← bkey_mantissa_bits_dropped b f;
      Some (if negb (mantissa f =? r) || negb dropped then Some (mantissa f <? r) else None)
    else Some None) = Some step /\
    match step with
    | Some dir => low_ok (n * 2 + Z.b2z dir) /\ up_ok (n * 2 + Z.b2z dir)
    | None => True
    end.
Proof.
  intros Hn Hlow Hup Ef Hfo. destruct (Z.ltb_spec (exponent f) BFLOAT_FAILED) as [Hlt|]; [|by exists None].
  destruct Hfo as [|(Pl & Pu & Pm & He0 & He1 & Hord)]; [lia|]. rewrite search_mantissa by done. bind_simpl.
  pose proof (prefix_bits _ (nw_format _ Hb)) as Hpb. rewrite <- (nw_bits _ Hb) in Hpb. unfold bkey_mantissa_bits_dropped. rewrite usub_ok by lia. bind_simpl.
  eexists. split; [reflexivity|]. set (mq := num_bits (b_format b) m (exponent f)) in *.
  destruct (negb (mantissa f =? mq) || negb (f_key_u64s (b_format b) * 64 - b_nr_key_bits b <? exponent f)) eqn:Ed; [|done].
  destruct q_num as (Hqn & Hqp & Hqs). pose proof (nw_format _ Hb) as Hf.
  assert (Hkn : num_at (b_format b) (key_mem b (K n)) (key_pos b (K n))) by (apply num_at_key; [done..|]; eapply row_key; [exact Hc|by apply slot_in]).
  specialize (Hord m (proj1 (proj2 Hqn)) (conj (low_num n Hlow Pl) (up_num n Hup Pu))). fold mq in Hord. cbn zeta in Hord.
  replace (n * 2) with (2 * n) by lia. destruct (mantissa f <? mq) eqn:Emq; cbn [Z.b2z].
  - assert (pos (K n) < bpos_val q) as Hlq.
    { eapply num_lt; [exact Hf|exact Hkn|exact Hqn|done..|]. apply Hord. apply orb_true_iff in Ed as [Ed|Ed]; [left; by apply negb_true_iff, Z.eqb_neq in Ed|right].
      apply negb_true_iff, Z.ltb_ge in Ed. lia. }
    apply go_right_ok; [done..|apply passed_less; [by apply slot_in|lia]|lia].
  - rewrite Z.add_0_r. apply go_left_ok; [done..|]. intros _. eapply num_le; [exact Hf|exact Hqn|exact Hkn|done..|].
    apply Hord. apply orb_true_iff in Ed as [Ed|Ed]; [left; by apply negb_true_iff, Z.eqb_neq in Ed|right]. apply negb_true_iff, Z.ltb_ge in Ed. lia.
Qed.

Lemma search_tree_loop_spec : forall fuel n, slot_ok N n -> low_ok n -> up_ok n -> size t - n <= Z.of_nat fuel ->
  exists r, search_tree_loop fuel b a t s m n = Some r /\
    match r with
    | inl k => k ∈ L /\ passed k
    | inr (n', f) => exists p d, slot_ok N p /\ n' = 2 * p + Z.b2z d /\ N < n' /\ aux_ro a !! Z.to_nat p = Some f /\ low_ok n'
    end.
Proof.
  pose proof Hk as [Ht HN _ Hsl _]. induction fuel as [|fuel IH]; intros n Hn Hlow Hup Hf; pose proof Hn as [Hn0 HnN]; [lia|].
  cbn [search_tree_loop]. rewrite (ro_base t Ht) by lia. destruct (Hfl n Hn) as (f & Ef & Hfo). rewrite Ef. bind_simpl.
  destruct (search_step n f Hn Hlow Hup Ef Hfo) as (step & -> & Hstep). bind_simpl. destruct step as [dir|].
  - destruct Hstep as [Hl' Hu']. destruct (Z.ltb_spec (n * 2 + Z.b2z dir) (size t)) as [Hlt|Hge].
    + apply IH; [split; [destruct dir; cbn [Z.b2z]; lia|lia]|done|done|]. destruct dir; cbn [Z.b2z]; lia.
    + eexists. split; [reflexivity|]. exists n, dir. split; [done|]. split; [lia|]. split; [lia|]. by split.
  - rewrite (tree_key t L K a n Hk Hn). bind_simpl. pose proof (slot_in n Hn) as HKn. pose proof (row_key b t L Hc (K n) HKn) as Hnk.
    destruct q_num as (_ & _ & Hqs).
    rewrite (cmp_p_or_unp_spec b s m q (K n) Hb Wsr Hnk (sk_lossy _ _ _ _ Hm)). bind_simpl. replace (n * 2) with (2 * n) by lia.
    set (x := bpos_val (if bkey_packed (key_mem b (K n)) then q else s)). assert (x <= bpos_val s) as Hx by (unfold x; destruct (bkey_packed (key_mem b (K n))); lia).
    assert (Hxq : packed (K n) -> x = bpos_val q) by (unfold x; by intros ->).
    destruct (Z.compare_spec (pos (K n)) x) as [E|Hlt|Hgt]; cbn [cmp_sign Z.eqb Z.ltb Z.compare Z.b2z].
    + eexists. split; [reflexivity|]. split; [done|]. apply passed_equal; [done|lia].
    + destruct (go_right_ok n Hn Hup) as [Hl' Hu']; [apply passed_less; [done|lia]|intros Hp; rewrite <- Hxq by done; lia|].
      destruct (Z.leb_spec (size t) (2 * n + 1)) as [Hge|Hlt'].
      * eexists. split; [reflexivity|]. exists n, true. cbn [Z.b2z]. split_and!; (done || lia).
      * apply IH; [split; lia|done|done|lia].
    + destruct (go_left_ok n Hn Hlow) as [Hl' Hu']; [intros Hp; rewrite <- Hxq by done; lia|]. rewrite Z.add_0_r.
      destruct (Z.leb_spec (size t) (2 * n)) as [Hge|Hlt'].
      * eexists. split; [reflexivity|]. exists n, false. cbn [Z.b2z]. split_and!; (done || lia).
      * apply IH; [split; lia|done|done|lia].
Qed.

Lemma search_tree_spec : exists k, bset_search_tree b a t s m = Some k /\ (k = first_offset t \/ k ∈ L /\ passed k).
Proof.
  pose proof Hk as [Ht HN He Hsl _]. unfold bset_search_tree.
  destruct (search_tree_loop_spec (Z.to_nat (size t)) 1) as (r & -> & Hr); [unfold size_ok in HN; split; lia|by left|by left|lia|]. bind_simpl.
  destruct r as [k|[n f]]; [exists k; split; [done|by right]|]. destruct Hr as (p & d & Hp & -> & Hgt & Ef & Hlow). pose proof Hp as [Hp0 HpN].
  rewrite usub_ok by (unfold size_ok in HN; lia). bind_simpl.
  replace (Z.shiftr (2 * p + Z.b2z d) 1) with p.
  2: { rewrite Z.shiftr_div_pow2 by lia. change (2 ^ 1) with 2. apply (Z.div_unique _ _ p (Z.b2z d)); destruct d; cbn [Z.b2z]; lia. }
  rewrite (to_inorder_code N HN (extra t) p He Hp). bind_simpl.
  assert (Z.land (2 * p + Z.b2z d) 1 = Z.b2z d) as ->.
  { change 1 with (Z.ones 1). rewrite Z.land_ones by lia. change (2 ^ 1) with 2. rewrite Z.add_comm, Z.mul_comm, Z.mod_add by lia. by destruct d. }
  destruct (to_inorder_ok N HN p Hp) as [_ [Hi0 HiN]]. destruct (child_slots p Hp0) as (E1 & _ & E2 & _). unfold low_ok in Hlow.
  destruct d; cbn [Z.b2z Z.eqb] in *.
  - rewrite E2 in Hlow. destruct Hlow as [|(_ & Hps & _)]; [lia|]. destruct (Hsl p Hp) as (Hin' & f' & Ef' & Ek). assert (f' = f) as -> by congruence.
    exists (K p). split; [exact Ek|]. by right.
  - rewrite Z.add_0_r in *. rewrite E1 in Hlow. rewrite usub_ok by lia. bind_simpl.
    destruct (Z.eqb_spec (inorder N p - 1) 0) as [E|Hne]; [exists (first_offset t); split; [by eapply first_ok|by left]|].
    destruct (prev_spec N HN p Hp) as (j & Ej & Hj). rewrite (prev_lower N HN p Hp ltac:(lia)) in *. injection Ej as <-. bind_simpl.
    destruct Hj as [[Hj1 _]|[Hj Hjo]]; [lia|]. destruct Hlow as [E|(_ & Hps & _)]; [destruct Hj; lia|].
    rewrite (ro_base t Ht) by (destruct Hj; lia). destruct (Hsl _ Hj) as (Hin' & f' & Ef' & Ek). rewrite Ef'. bind_simpl.
    replace (inorder N p - 1) with (inorder N (lower_slot p)) by lia. exists (K (lower_slot p)). split; [exact Ek|]. by right.
Qed.
End Search.

(** ** Trees and tables are right *)

(** The tree of a set whose keys are [L]. *)
Definition ro_good (b : btree) (min_key max_key : bpos) (t : bset_tree) (a : aux) (L : list Z) : Prop :=
  exists K minm maxm, tree_keys t L K a /\ num_at (b_format b) minm min_key /\ num_at (b_format b) maxm max_key /\
    (bkey_packed minm = true -> packable (b_format b) min_key) /\ forall i, slot_ok (size t - 1) i -> slot_float b K minm maxm a i.

(** The address of a node is that of words. *)
Definition aligned (a : aux) : Prop := 0 <= aux_addr a /\ aux_addr a mod 8 = 0.

Definition no_tree (t : bset_tree) : Prop := size t = 0 /\ extra t = BSET_NO_AUX_TREE_VAL.

(** No key lies behind the second line: a tree would have nothing to tell apart. *)
Definition few_lines (t : bset_tree) (a : aux) (L : list Z) : Prop := Forall (fun y => line_of t (aux_addr a) y <= 1) L.

Section BuildSet.
Context (b : btree) (Hb : node_wf b) (Hw : words_wf (b_words b)) (L : list Z) (byte_order : Z).
Context (min_key max_key : bpos) (Wmin : bpos_wf min_key) (Wmax : bpos_wf max_key).
Context (Hin : Forall (fun k => bpos_val min_key <= bpos_val (key_pos b k) <= bpos_val max_key) L).
Context (Hs : StronglySorted (val_le (key_val b)) L).

Lemma build_ro_spec a t cap : 0 <= data_offset t -> end_offset t < 2 ^ 16 -> chain b (node_key b) (first_offset t) (end_offset t) L ->
  aligned a -> bset_ro_tree_capacity byte_order t = Some cap -> 0 <= cap ->
  exists a' t', build_ro_aux_tree b byte_order min_key max_key a t = Some (a', t') /\ same_place t t' /\ aux_addr a' = aux_addr a /\
    (no_tree t' /\ (2 <= cap -> few_lines t' a' L) \/ ro_good b min_key max_key t' a' L) /\ 0 <= size t' <= cap.
Proof.
  intros H0 H16 Hc [Haddr Halign] Hcap Hcap0. unfold build_ro_aux_tree, btree_bkey_last. pose proof (chain_le _ _ _ _ _ Hc) as Hle.
  rewrite (to_cacheline_ok b t L (aux_addr a)) by (done || lia). bind_simpl. rewrite Hcap. bind_simpl.
  pose proof (line_of_bound t (aux_addr a) H0 H16 Haddr (end_offset t) ltac:(lia)) as Hlb.
  pose proof (line_of_mono t (aux_addr a) (first_offset t) (end_offset t) Hle) as Hl0. rewrite line_of_first in Hl0 by done.
  set (lines := line_of t (aux_addr a) (end_offset t)) in *. rewrite Z.mod_small by lia. set (n := Z.min lines cap).
  destruct (size_loop_spec b L (Z.to_nat n) (with_size t n) (with_ro a (replicate (Z.to_nat n) (mk_bkey_float 0 0 0))))
    as (a1 & t1 & -> & Hp & Ea & _ & Hsz & Hres).
  - done.
  - done.
  - done.
  - done.
  - done.
  - change (0 <= n). lia.
  - change (n <= lines). lia.
  - change (n <= Z.of_nat (Z.to_nat n)). lia.
  - cbn [aux_ro with_ro]. rewrite length_replicate. change (n <= Z.of_nat (Z.to_nat n)). lia.
  - change (size (with_size t n)) with n in Hsz. bind_simpl. destruct Hres as [(Hz & He & Hl)|Htree].
    + rewrite Hz, Z.eqb_refl. exists a1, t1. split; [done|]. split; [done|]. split; [done|]. split; [|lia]. left. split; [by split|]. intros Hcap2.
      destruct Hp as (P1 & P2 & P3). unfold few_lines. rewrite Ea. cbn [aux_addr with_ro].
      assert (forall y, line_of t1 (aux_addr a) y = line_of t (aux_addr a) y) as El by (intros y; unfold line_of, line_off, lines_base, first_offset; by rewrite P1).
      destruct (Z.le_gt_cases 2 n) as [H2|H2].
      * eapply Forall_impl; [exact (Hl H2)|]. cbn. intros y Hy. rewrite El. change (line_of t (aux_addr a) y < 1) in Hy. lia.
      * apply Forall_forall. intros y Hy. rewrite El. pose proof (chain_bounds _ _ _ _ _ Hc Hy).
        pose proof (line_of_mono t (aux_addr a) y (end_offset t) ltac:(lia)). unfold lines in *. lia.
    + pose proof Htree as [Ht HN _ _ _]. rewrite (proj2 (Z.eqb_neq _ _)) by (unfold size_ok in HN; lia).
      destruct (bound_key_spec b min_key Hb Wmin) as (minm & -> & Hmin & Hminp). bind_simpl.
      destruct (bound_key_spec b max_key Hb Wmax) as (maxm & -> & Hmax & _). bind_simpl.
      destruct (first_spec _ HN) as (j & -> & Hj & Hji). bind_simpl. destruct Hp as (P1 & P2 & P3).
      assert (Hc1 : chain b (node_key b) (first_offset t1) (end_offset t1) L) by (unfold first_offset; rewrite P1, P3; exact Hc).
      destruct (placed_keys b t1 L a1 Hc1 Htree) as (K & HK).
      destruct (bfloat_loop_spec b Hb Hw t1 L K Hc1 Hs min_key max_key Hin minm maxm Hmin Hmax (Z.to_nat (size t1)) 1 j a1 HK Hj Hji) as (a2 & -> & E1 & E2 & HK2 & Hfl).
      { intros i Hi Hlt. destruct (to_inorder_ok _ HN i Hi) as [_ [Hi0 _]]. lia. }
      { unfold size_ok in HN. lia. }
      bind_simpl. exists a2, t1. split; [done|]. split; [by split|]. split; [by rewrite E1|]. split; [|unfold size_ok in HN; lia].
      right. exists K, minm, maxm. by split_and!.
Qed.
End BuildSet.

(** ** Searching with whatever is there *)

Definition aux_good (b : btree) (min_key max_key : bpos) (t : bset_tree) (a : aux) (L : list Z) : Prop :=
  aux_ok b a t L \/ ro_good b min_key max_key t a L.

Section Finds.
Context (b : btree) (Hb : node_wf b) (Hw : words_wf (b_words b)) (s : bpos) (Hs : bpos_wf s).
Context (min_key max_key : bpos) (Wmin : bpos_wf min_key) (Wmax : bpos_wf max_key).
Context (Hsr : bpos_val min_key <= bpos_val s <= bpos_val max_key).

(** A set that can be searched: its keys, in the bounds, and its auxiliary data. *)
Record set_good (ta : bset_tree * aux) (L : list Z) : Prop := {
  sg_range : set_range b (node_key b) (key_val b) ta.1 L;
  sg_live : live_last b L;
  sg_bounds : Forall (fun k => bpos_val min_key <= bpos_val (key_pos b k) <= bpos_val max_key) L;
  sg_aux : aux_good b min_key max_key ta.1 ta.2 L
}.

Lemma ro_search_start t a L m q : set_range b (node_key b) (key_val b) t L -> live_last b L ->
  Forall (fun k => bpos_val min_key <= bpos_val (key_pos b k) <= bpos_val max_key) L -> ro_good b min_key max_key t a L ->
  search_key (b_format b) s m q ->
  exists k, __bch2_bset_search b a t s m = Some k /\ start_ok b s (t, a) L k.
Proof.
  intros Hr Hlive Hin (K & minm & maxm & HK & Hmin & Hmax & Hminp & Hfl) Hm. pose proof Hr as (H0 & H3 & [H16 Hc Hsort]). cbn [it_k it_end] in *.
  destruct (search_tree_spec b Hb Hw t L K a H16 Hc Hsort Hlive min_key max_key minm maxm Hmin Hmax Hminp HK Hfl s Hs Hsr m q Hm) as (k & E & Hk).
  exists k. split; [unfold __bch2_bset_search; by rewrite (tk_type _ _ _ _ HK)|]. split; [done|]. cbn [fst snd].
  destruct Hk as [->|[Hk Hp]].
  - exists [], L. split; [done|]. split; [exact Hc|]. split; [unfold first_offset; lia|constructor].
  - apply list_elem_of_split in Hk as (L1 & L2 & ->). destruct (chain_app b _ _ _ _ Hc) as (k' & H1 & H2). assert (k' = k) as -> by (by inversion H2).
    exists L1, (k :: L2). split; [done|]. split; [done|]. pose proof (chain_le _ _ _ _ _ H1). split; [lia|].
    apply Forall_forall. intros y Hy. apply Hp; [apply elem_of_app; by left|]. by apply (chain_bounds _ _ _ _ _ H1).
Qed.

Lemma good_searchable auxs Ls : Forall2 set_good (zip (b_set b) auxs) Ls -> searchable b s auxs Ls.
Proof.
  intros Hg m q Hm. induction Hg as [|[t a] L sets Ls [Hr Hlive Hin Ha] _ IH]; [exists []; split; [done|constructor]|]. cbn [fst snd] in *.
  assert (exists k, __bch2_bset_search b a t s m = Some k /\ start_ok b s (t, a) L k) as (k & E & Hk).
  { destruct Ha as [Ha|Ha]; [|by apply (ro_search_start t a L m q)].
    destruct (search_start b Hb s Hs a t L m Hr Ha) as (k & L1 & L2 & E & H). exists k. split; [done|]. split; [done|]. by exists L1, L2. }
  destruct IH as (keys & Ek & Hks). exists (k :: keys). cbn [mapM fst snd]. rewrite E. bind_simpl. rewrite Ek. bind_simpl. split; [done|]. by constructor.
Qed.
End Finds.

(** ** Building a table *)

Lemma same_place_refl t : same_place t t.
Proof. done. Qed.

Lemma same_place_trans t t' t'' : same_place t t' -> same_place t' t'' -> same_place t t''.
Proof. intros (?&?&?) (?&?&?). split_and!; congruence. Qed.

Section BuildTable.
Context (b : btree) (Hb : node_wf b) (L : list Z) (byte_order : Z) (first end_ : Z).
Context (Hf0 : 0 <= first) (H16 : end_ < 2 ^ 16) (Hc : chain b (node_key b) first end_ L).

(** The last entry of the table is not behind [k]. *)
Definition table_upto (a : aux) (k : Z) : Prop := exists T el, aux_rw a = T ++ [el] /\ rw_offset el <= k.

Lemma build_rw_loop_spec cap : forall fuel k a t L1 L2, rw_set byte_order first end_ t -> bset_rw_tree_capacity byte_order t = Some cap -> cap < 2 ^ 16 ->
  L = L1 ++ L2 -> chain b (node_key b) k end_ L2 -> rw_good b a t L -> table_upto a k -> size t <= cap -> (length L2 <= fuel)%nat ->
  exists a' t', build_rw_loop fuel b byte_order k a t = Some (a', t') /\ same_place t t' /\ aux_addr a' = aux_addr a /\
    rw_set byte_order first end_ t' /\ rw_good b a' t' L /\ size t' <= cap.
Proof.
  intros fuel k a t L1 L2 Hrs Hcap Hcap16. revert k a t L1 Hrs Hcap. revert fuel. induction L2 as [|x L2 IH]; intros fuel k a t L1 Hrs Hcap EL Hk Hgood Hup Hsz Hf;
    pose proof Hrs as [Ht Efirst Eend Hroom].
  { assert (k = end_) as -> by (by inversion Hk). exists a, t. split; [|by split_and!]. destruct fuel; cbn [build_rw_loop]; unfold btree_bkey_last; by rewrite Eend, Z.eqb_refl. }
  assert (k = x) as -> by (by inversion Hk). inversion Hk as [|? n ? ? Hkey Hu Hn Hle Hk']. pose proof (chain_le _ _ _ _ _ Hk') as Hxe. destruct fuel as [|fuel]; [cbn in Hf; lia|].
  cbn [build_rw_loop]. unfold btree_bkey_last. rewrite Eend, (proj2 (Z.eqb_neq x end_)) by lia. cbn [negb]. rewrite Hcap. bind_simpl.
  destruct (Z.eqb_spec (size t) cap) as [|Hne]; [by exists a, t; split_and!|].
  destruct Hup as (T & el & ET & Hel). pose proof Hgood as [_ Hlen Htab]. rewrite ET, length_app in Hlen. cbn [length] in Hlen.
  assert (Hxin : x ∈ L) by (rewrite EL; apply elem_of_app; right; left).
  assert (rw_aux_to_bkey a t (size t - 1) = Some (rw_offset el)) as ->.
  { unfold rw_aux_to_bkey. rewrite (rw_base a t _ el Ht); [done|]. rewrite ET. replace (Z.to_nat (size t - 1)) with (length T) by lia.
    rewrite lookup_app_r by lia. by rewrite Nat.sub_diag. }
  bind_simpl. rewrite usub_ok by lia. bind_simpl.
  assert (Hnext : forall a1 t1, rw_set byte_order first end_ t1 -> same_place t t1 -> aux_addr a1 = aux_addr a -> rw_good b a1 t1 L -> table_upto a1 x -> size t1 <= cap ->
    exists a' t', (k ← bkey_p_next b x; build_rw_loop fuel b byte_order k a1 t1) = Some (a', t') /\ same_place t t' /\ aux_addr a' = aux_addr a /\
      rw_set byte_order first end_ t' /\ rw_good b a' t' L /\ size t' <= cap).
  { intros a1 t1 Hrs1 Hp1 Ea1 Hg1 (T1 & el1 & ET1 & Hel1) Hs1. unfold bkey_p_next. rewrite Hu. bind_simpl.
    destruct (IH fuel (x + n) a1 t1 (L1 ++ [x])) as (a' & t' & -> & Hp' & Ea' & Hrs' & Hg' & Hs').
    - done.
    - destruct Hp1 as (P1 & P2 & P3). unfold bset_rw_tree_capacity in *. by rewrite P2.
    - by rewrite <- app_assoc.
    - done.
    - done.
    - exists T1, el1. split; [done|lia].
    - done.
    - cbn in Hf. lia.
    - exists a', t'. split; [done|]. split; [by eapply same_place_trans|]. split; [congruence|]. done. }
  destruct (Z.ltb_spec L1_CACHE_BYTES ((x - rw_offset el) * 8)) as [Hgap|Hgap].
  - unfold L1_CACHE_BYTES in Hgap. rewrite uadd_ok by lia. bind_simpl.
    assert (Hrs1 : rw_set byte_order first end_ (with_size t (size t + 1))) by (split; [apply rw_type_size; [done|lia]|done|done|destruct Hroom; by split]).
    destruct (set_entry_spec b byte_order L first end_ Hb Hf0 H16 Hc (with_size t (size t + 1)) x Hrs1 Hxin) as (en & -> & Een & Hok). bind_simpl.
    apply Hnext; [done|done|done| |by exists (aux_rw a), en; split; [done|lia]|cbn; lia].
    split; [apply Hrs1|cbn [aux_rw with_rw size with_size]; rewrite length_app, ET, length_app; cbn [length]; lia|].
    change (first_offset (with_size t (size t + 1))) with (first_offset t). cbn [aux_rw with_rw].
    destruct (aux_rw a) as [|e0 T0] eqn:ET0; [by destruct T|]. cbn [app table_ok] in *. destruct Htab as (E0 & Hall & Hsort). split; [done|].
    split; [by apply Forall_app_2; [|constructor]|].
    assert (StronglySorted entry_lt ((e0 :: T0) ++ [en])) as Hss; [|exact Hss].
    rewrite ET in Hsort |- *. apply StronglySorted_app. split_and!; [|done|by repeat constructor].
    intros y z Hy Hz. apply list_elem_of_singleton in Hz as ->. unfold entry_lt. rewrite Een. pose proof (table_last T el y Hsort Hy). lia.
  - apply Hnext; [done|done|done|done|by exists T, el|done].
Qed.

Lemma build_rw_spec a t cap : 0 <= data_offset t -> first_offset t = first -> end_offset t = end_ -> aux_room byte_order t ->
  bset_rw_tree_capacity byte_order t = Some cap -> 1 <= cap < 2 ^ 16 ->
  exists a' t', build_rw_aux_tree b byte_order a t = Some (a', t') /\ same_place t t' /\ aux_addr a' = aux_addr a /\
    rw_set byte_order first end_ t' /\ rw_good b a' t' L /\ size t' <= cap.
Proof.
  intros H0 Ef Ee Hroom Hcap Hcap1. unfold build_rw_aux_tree. pose proof (chain_le _ _ _ _ _ Hc) as Hle. unfold first_offset in Ef.
  set (t1 := mk_bset_tree 1 BSET_RW_AUX_TREE_VAL (data_offset t) (aux_data_offset t) (end_offset t)).
  assert (btree_bkey_first t1 = Some first) as -> by (unfold btree_bkey_first, btree_bkey_first_offset; cbn [data_offset t1]; rewrite uadd_ok by lia; by rewrite Ef).
  bind_simpl. unfold __btree_node_key_to_offset. rewrite (proj2 (assert_true _)) by (apply andb_true_iff; split; [apply Z.leb_le|apply Z.ltb_lt]; lia). bind_simpl.
  destruct (build_rw_loop_spec cap (length (b_words b)) first (with_rw a [mk_rw_aux_tree first POS_MIN]) t1 [] L) as (a' & t' & -> & Hp & Ea & Hr1 & Hr2 & Hr3).
  - split; [done|exact Ef|exact Ee|destruct Hroom; by split].
  - exact Hcap.
  - lia.
  - done.
  - done.
  - split; [done|done|]. cbn [table_ok aux_rw with_rw]. split; [by unfold first_offset|]. split; [constructor|by repeat constructor].
  - exists [], (mk_rw_aux_tree first POS_MIN). split; [done|cbn; lia].
  - cbn. lia.
  - by apply (chain_length b (node_key b) first end_ L).
  - exists a', t'. by split_and!.
Qed.
End BuildTable.

(** ** Only the words of a node matter to them *)

Definition same_mem (b b' : btree) : Prop :=
  b_format b' = b_format b /\ b_nr_key_bits b' = b_nr_key_bits b /\ b_words b' = b_words b.

Lemma chain_same b b' k e L : same_mem b b' -> chain b (node_key b) k e L -> chain b' (node_key b') k e L.
Proof.
  destruct b as [f nb ws ts], b' as [f' nb' ws' ts']. intros (E1 & E2 & E3) Hc. cbn [b_format b_nr_key_bits b_words] in *. subst.
  induction Hc as [|k n e l Hk Hu Hn Hle _ IH]; [constructor|]. by apply (chain_cons _ _ k n).
Qed.

Lemma rw_good_same b b' a t L : same_mem b b' -> rw_good b a t L -> rw_good b' a t L.
Proof. destruct b as [f nb ws ts], b' as [f' nb' ws' ts']. intros (E1 & E2 & E3) [H1 H2 H3]. cbn [b_format b_nr_key_bits b_words] in *. subst. by split. Qed.

Lemma ro_good_same b b' p q t a L : same_mem b b' -> ro_good b p q t a L -> ro_good b' p q t a L.
Proof. destruct b as [f nb ws ts], b' as [f' nb' ws' ts']. intros (E1 & E2 & E3) H. cbn [b_format b_nr_key_bits b_words] in *. subst. exact H. Qed.

Lemma key_pos_same b b' k : same_mem b b' -> key_pos b' k = key_pos b k /\ key_val b' k = key_val b k.
Proof. destruct b as [f nb ws ts], b' as [f' nb' ws' ts']. intros (E1 & E2 & E3). cbn [b_format b_nr_key_bits b_words] in *. by subst. Qed.

Lemma node_wf_same b b' : same_mem b b' -> node_wf b -> node_wf b'.
Proof. intros (E1 & E2 & E3) [H1 H2]. split; congruence. Qed.

Lemma same_mem_sym b b' : same_mem b b' -> same_mem b' b.
Proof. intros (E1 & E2 & E3). by split_and!. Qed.

(** ** The sets of a node *)

(** The words of the buffer of auxiliary data. *)
Definition aux_words (byte_order : Z) : Z := 2 ^ byte_order / 256.

(** A set has the structure it should have, or none if there is no room or no use for it. *)
Definition kind_ok (byte_order : Z) (writeable : bool) (t : bset_tree) (a : aux) (L : list Z) : Prop :=
  has_type t writeable = Some true \/
  no_tree t /\ (aux_data_offset t = aux_words byte_order \/ writeable = false /\ few_lines t a L).

Record set_built (b : btree) (byte_order : Z) (min_key max_key : bpos) (t : bset_tree) (a : aux) (L : list Z) : Prop := {
  sb_kind : no_tree t \/ (rw_good b a t L /\ aux_room byte_order t /\ size t < 2 ^ 16) \/ ro_good b min_key max_key t a L;
  sb_room : exists e, bset_aux_tree_buf_end t = Some e /\ 0 <= e <= aux_words byte_order
}.

(** A row of keys in its place, in order and in the bounds. *)
Record row_ok (b : btree) (min_key max_key : bpos) (t : bset_tree) (L : list Z) : Prop := {
  ro_data : 0 <= data_offset t;
  ro_range : end_offset t < 2 ^ 16;
  ro_row : chain b (node_key b) (first_offset t) (end_offset t) L;
  ro_sorted : StronglySorted (val_le (key_val b)) L;
  ro_bounds : Forall (fun k => bpos_val min_key <= bpos_val (key_pos b k) <= bpos_val max_key) L
}.

Definition same_loc (t t' : bset_tree) : Prop := data_offset t' = data_offset t /\ end_offset t' = end_offset t.

Lemma sorted_impl {A} (R S : A -> A -> Prop) l : (forall x y, R x y -> S x y) -> StronglySorted R l -> StronglySorted S l.
Proof. intros H. induction 1 as [|x l _ IH Hx]; constructor; [done|]. eapply Forall_impl; [exact Hx|]. intros y. apply H. Qed.

Lemma row_ok_same b b' p q t t' L : same_mem b b' -> same_loc t t' -> row_ok b p q t L -> row_ok b' p q t' L.
Proof.
  intros Hm [E1 E2] [H1 H2 H3 H4 H5]. split; unfold first_offset in *; rewrite ?E1, ?E2; try done; [by eapply chain_same| |].
  - eapply sorted_impl; [|exact H4]. intros x y. unfold val_le. by rewrite !(proj2 (key_pos_same b b' _ Hm)).
  - eapply Forall_impl; [exact H5|]. intros k. cbn. by rewrite (proj1 (key_pos_same b b' k Hm)).
Qed.

Lemma set_built_same b b' bo p q t a L : same_mem b b' -> set_built b bo p q t a L -> set_built b' bo p q t a L.
Proof.
  intros Hm [Hk Hr]. split; [|done]. destruct Hk as [Hk|[(Hg & Hrm & Hsz)|Hg]]; [by left|right; left|right; right].
  - split; [by eapply rw_good_same|done].
  - by eapply ro_good_same.
Qed.

Lemma no_tree_type t : no_tree t -> bset_aux_tree_type t = Some BSET_NO_AUX_TREE.
Proof. intros [E1 E2]. unfold bset_aux_tree_type. by rewrite E1, E2. Qed.

Section BuildNode.
Context (byte_order : Z) (Hbo : 11 <= byte_order <= 23) (min_key max_key : bpos) (Wmin : bpos_wf min_key) (Wmax : bpos_wf max_key).
Notation W := (aux_words byte_order).

Lemma aux_words_spec : W mod 8 = 0 /\ 8 <= W < 2 ^ 16 /\ __btree_aux_data_bytes byte_order = W * 8.
Proof.
  unfold aux_words, __btree_aux_data_bytes, BSET_CACHELINE. change 256 with (2 ^ 8).
  replace byte_order with ((byte_order - 8) + 8) by lia. rewrite pow2_split, Z.div_mul by (try lia; apply Z.pow_nonzero; lia).
  pose proof (pow2_le 3 (byte_order - 8) ltac:(lia)). pose proof (pow2_le (byte_order - 8) 15 ltac:(lia)). split; [|lia].
  replace (byte_order - 8) with ((byte_order - 11) + 3) by lia. rewrite pow2_split by lia. apply Z.mod_mul. lia.
Qed.

Lemma alloc_spec ts i t e : ts !! i = Some t -> bset_aux_tree_buf_start (bch2_bset_set_no_aux_tree ts i) i = Some e -> 0 <= e <= W ->
  exists o, bset_alloc_tree ts i = Some (take i ts ++ mk_bset_tree 0 BSET_NO_AUX_TREE_VAL (data_offset t) o (end_offset t) :: (no_aux <$> drop (S i) ts)) /\
    0 <= o <= W /\ o mod 8 = 0.
Proof.
  intros Hi He Hb. destruct aux_words_spec as (HW8 & HW & _). unfold bset_alloc_tree. rewrite He. bind_simpl.
  pose proof (lookup_lt_Some _ _ _ Hi) as Hl. unfold bch2_bset_set_no_aux_tree. rewrite (drop_S _ _ _ Hi). cbn [fmap list_fmap].
  rewrite lookup_app_r, length_take, Nat.min_l, Nat.sub_diag by (rewrite ?length_take; lia). cbn [lookup list_lookup]. bind_simpl.
  pose proof (Z.div_mod (e + 7) 8 ltac:(lia)). pose proof (Z.mod_pos_bound (e + 7) 8 ltac:(lia)). pose proof (Z.div_mod W 8 ltac:(lia)).
  assert (0 <= (e + 7) / 8 * 8 <= W) by lia. rewrite Z.mod_small by lia. change (SMP_CACHE_BYTES / 8) with 8. unfold umul. rewrite (proj2 (Z.ltb_lt _ _)) by lia. bind_simpl.
  exists ((e + 7) / 8 * 8). split; [|split; [lia|apply Z.mod_mul; lia]]. f_equal.
  rewrite insert_app_r_alt by (rewrite length_take; lia). rewrite length_take, Nat.min_l, Nat.sub_diag by lia. done.
Qed.

Lemma capacity_bytes t : 0 <= aux_data_offset t <= W -> bset_tree_capacity_bytes byte_order t = Some ((W - aux_data_offset t) * 8).
Proof. intros Ho. destruct aux_words_spec as (_ & _ & Eb). unfold bset_tree_capacity_bytes. rewrite Eb, usub_ok by lia. f_equal. lia. Qed.

(** What building the structures of one set gives. *)
Lemma build_set_spec b t a L ts o (writeable : bool) : node_wf b -> words_wf (b_words b) -> aligned a -> row_ok b min_key max_key t L ->
  0 <= o <= W -> o mod 8 = 0 -> (W - o) * 8 <> 0 ->
  let b' := mk_btree (b_format b) (b_nr_key_bits b) (b_words b) ts in
  let t1 := mk_bset_tree 0 BSET_NO_AUX_TREE_VAL (data_offset t) o (end_offset t) in
  exists a' t', (if writeable then build_rw_aux_tree b' byte_order a t1 else build_ro_aux_tree b' byte_order min_key max_key a t1) = Some (a', t') /\
    same_loc t t' /\ aux_addr a' = aux_addr a /\ set_built b byte_order min_key max_key t' a' L /\ kind_ok byte_order writeable t' a' L.
Proof.
  intros Hb Hw Ha Hrow Ho Ho8 Hne b' t1. destruct aux_words_spec as (HW8 & HW & Eb).
  assert (Hm : same_mem b b') by done. pose proof (node_wf_same b b' Hm Hb) as Hb'.
  assert (Hrow' : row_ok b' min_key max_key t1 L) by (eapply row_ok_same; [exact Hm| |exact Hrow]; done).
  destruct Hrow' as [R1 R2 R3 R4 R5]. pose proof (Z.div_mod W 8 ltac:(lia)). pose proof (Z.div_mod o 8 ltac:(lia)).
  assert (8 <= W - o) as Hroom by lia.
  pose proof (capacity_bytes t1 Ho) as Hcap. cbn [aux_data_offset t1] in Hcap. destruct writeable.
  - assert (bset_rw_tree_capacity byte_order t1 = Some ((W - o) * 8 / 24)) as Hc.
    { unfold bset_rw_tree_capacity. unfold bset_tree_capacity_bytes in Hcap. rewrite Hcap. done. }
    pose proof (Z.div_mod ((W - o) * 8) 24 ltac:(lia)). pose proof (Z.mod_pos_bound ((W - o) * 8) 24 ltac:(lia)).
    destruct (build_rw_spec b' Hb' L byte_order (first_offset t1) (end_offset t1)) with (a := a) (t := t1) (cap := (W - o) * 8 / 24)
      as (a' & t' & E & (P1 & P2 & P3) & Ea & Hrs & Hg & Hsz).
    { unfold first_offset. lia. }
    { done. }
    { done. }
    { done. }
    { done. }
    { done. }
    { split; [lia|]. rewrite Eb. cbn [aux_data_offset t1]. lia. }
    { exact Hc. }
    { lia. }
    exists a', t'. split; [exact E|]. split; [by split|]. split; [done|].
    pose proof Hrs as [Ht _ _ Hrm]. pose proof Hg as [_ Hlen Htab]. split; [|left; unfold has_type; by rewrite Ht]. split.
    + right. left. split; [by apply (rw_good_same b')|]. split; [done|lia].
    + unfold bset_aux_tree_buf_end. rewrite Ht. bind_simpl. rewrite P2. cbn [aux_data_offset t1]. eexists. split; [reflexivity|].
      pose proof (Z.div_mod (24 * size t' + 7) 8 ltac:(lia)). pose proof (Z.mod_pos_bound (24 * size t' + 7) 8 ltac:(lia)). lia.
  - assert (bset_ro_tree_capacity byte_order t1 = Some ((W - o) * 8 / 4)) as Hc by (unfold bset_ro_tree_capacity; by rewrite Hcap).
    destruct (build_ro_spec b' Hb' Hw L byte_order min_key max_key Wmin Wmax R5 R4 a t1 ((W - o) * 8 / 4) R1 R2 R3 Ha Hc) as (a' & t' & E & (P1 & P2 & P3) & Ea & Hk & Hsz).
    { apply Z.div_pos; lia. }
    assert (2 <= (W - o) * 8 / 4) as Hcap2 by (apply Z.div_le_lower_bound; lia).
    exists a', t'. split; [exact E|]. split; [by split|]. split; [done|]. split; [split|].
    + destruct Hk as [[Hk _]|Hk]; [by left|right; right]. by apply (ro_good_same b').
    + unfold bset_aux_tree_buf_end. pose proof (Z.div_mod ((W - o) * 8) 4 ltac:(lia)). pose proof (Z.mod_pos_bound ((W - o) * 8) 4 ltac:(lia)).
      pose proof (Z.div_mod (size t' * 4 + 7) 8 ltac:(lia)). pose proof (Z.mod_pos_bound (size t' * 4 + 7) 8 ltac:(lia)).
      destruct Hk as [[Hk _]|(K & ? & ? & HK & _)].
      * rewrite (no_tree_type _ Hk). bind_simpl. rewrite P2. eexists. split; [reflexivity|]. cbn [aux_data_offset t1]. lia.
      * rewrite (tk_type _ _ _ _ HK). bind_simpl. rewrite P2. eexists. split; [reflexivity|]. cbn [aux_data_offset t1]. lia.
    + destruct Hk as [[Hk Hl]|(K & ? & ? & HK & _)]; [right|left; unfold has_type; by rewrite (tk_type _ _ _ _ HK)].
      split; [done|]. right. split; [done|]. by apply Hl.
Qed.

(** The state of the loop: the sets below [idx] are done, the others may have old structures. *)
Record loop_inv (b0 : btree) (Ls : list (list Z)) (ws : nat -> bool) (idx : nat) (b : btree) (auxs : list aux) : Prop := {
  li_mem : same_mem b0 b;
  li_locs : Forall2 same_loc (b_set b0) (b_set b);
  li_auxs : length auxs = length (b_set b);
  li_aligned : Forall aligned auxs;
  li_done j t a L : b_set b !! j = Some t -> auxs !! j = Some a -> Ls !! j = Some L ->
    set_built b0 byte_order min_key max_key t a L \/ (idx <= j)%nat /\ no_tree t;
  li_kinds j t a L : (j < idx)%nat -> b_set b !! j = Some t -> auxs !! j = Some a -> Ls !! j = Some L -> kind_ok byte_order (ws j) t a L
}.

Lemma same_loc_trans t t' t'' : same_loc t t' -> same_loc t' t'' -> same_loc t t''.
Proof. intros [??] [??]. split; congruence. Qed.

Lemma has_type_built b t a L w : set_built b byte_order min_key max_key t a L \/ no_tree t ->
  exists h, has_type t w = Some h /\ (h = true -> ~ no_tree t).
Proof.
  intros H. assert (exists ty, bset_aux_tree_type t = Some ty /\ (ty <> BSET_NO_AUX_TREE -> ~ no_tree t)) as (ty & Ety & Hn).
  { assert (forall ty, bset_aux_tree_type t = Some ty -> ty <> BSET_NO_AUX_TREE -> ~ no_tree t) as Hty.
    { intros ty E Hne Hno. rewrite (no_tree_type _ Hno) in E. congruence. }
    destruct H as [[[Hk|[(Hg & _)|(K & ? & ? & HK & _)]] _]|Hk].
    - rewrite (no_tree_type _ Hk). by eexists.
    - pose proof (rg_type _ _ _ _ Hg) as E. eexists. split; [exact E|]. by apply Hty.
    - pose proof (tk_type _ _ _ _ HK) as E. eexists. split; [exact E|]. by apply Hty.
    - rewrite (no_tree_type _ Hk). by eexists. }
  unfold has_type. rewrite Ety. bind_simpl. eexists. split; [reflexivity|]. destruct ty, w; cbn; try done; intros _; by apply Hn.
Qed.

Lemma build_step b0 Ls ws idx b auxs : node_wf b0 -> words_wf (b_words b0) -> Forall2 (row_ok b0 min_key max_key) (b_set b0) Ls ->
  (idx < length (b_set b))%nat -> loop_inv b0 Ls ws idx b auxs ->
  exists b' auxs', bch2_bset_build_aux_tree b auxs byte_order min_key max_key idx (ws idx) = Some (b', auxs') /\ loop_inv b0 Ls ws (S idx) b' auxs' /\
    length (b_set b') = length (b_set b).
Proof.
  intros Hb0 Hw0 Hrows Hidx [Hm Hlocs Hla Hal Hdone Hkinds]. set (w := ws idx). pose proof aux_words_spec as (HW8 & HW & Eb).
  destruct (lookup_lt_is_Some_2 (b_set b) idx Hidx) as [t Et].
  destruct (lookup_lt_is_Some_2 auxs idx ltac:(lia)) as [a Ea].
  pose proof (Forall2_length _ _ _ Hlocs) as Hl0. pose proof (Forall2_length _ _ _ Hrows) as HlL.
  destruct (lookup_lt_is_Some_2 Ls idx ltac:(lia)) as [L EL].
  destruct (lookup_lt_is_Some_2 (b_set b0) idx ltac:(lia)) as [t0 Et0].
  pose proof (Forall2_lookup_lr _ _ _ _ _ _ Hrows Et0 EL) as Hrow0. pose proof (Forall2_lookup_lr _ _ _ _ _ _ Hlocs Et0 Et) as Hloc.
  unfold bch2_bset_build_aux_tree. rewrite Et. bind_simpl.
  destruct (has_type_built b0 t a L w) as (h & Eh & Hh); [destruct (Hdone idx t a L Et Ea EL) as [?|[_ ?]]; tauto|]. rewrite Eh. bind_simpl. destruct h.
  { exists b, auxs. split; [done|]. split; [|done]. split; try done; intros j t' a' L'.
    - intros Ht Ha HL. destruct (Hdone j t' a' L' Ht Ha HL) as [|[Hle Hno]]; [by left|]. destruct (decide (j = idx)) as [->|]; [|right; split; [lia|done]].
      assert (t' = t) as -> by congruence. by destruct (Hh eq_refl).
    - intros Hj Ht Ha HL. destruct (decide (j = idx)) as [->|]; [|apply Hkinds; (done || lia)]. assert (t' = t) as -> by congruence. by left. }
  assert (exists e, bset_aux_tree_buf_start (bch2_bset_set_no_aux_tree (b_set b) idx) idx = Some e /\ 0 <= e <= W) as (e & He & Heb).
  { destruct idx as [|i]; [exists 0; split; [done|lia]|]. cbn [bset_aux_tree_buf_start]. unfold bch2_bset_set_no_aux_tree.
    rewrite lookup_app_l, lookup_take by (rewrite ?length_take; lia). destruct (lookup_lt_is_Some_2 (b_set b) i ltac:(lia)) as [ti Eti]. rewrite decide_True by lia. rewrite Eti. bind_simpl.
    destruct (lookup_lt_is_Some_2 auxs i ltac:(lia)) as [ai Eai]. destruct (lookup_lt_is_Some_2 Ls i ltac:(lia)) as [Li ELi].
    destruct (Hdone i ti ai Li Eti Eai ELi) as [[_ Hr]|[Hle _]]; [exact Hr|lia]. }
  destruct (alloc_spec (b_set b) idx t e Et He Heb) as (o & -> & Ho & Ho8). bind_simpl.
  set (t1 := mk_bset_tree 0 BSET_NO_AUX_TREE_VAL (data_offset t) o (end_offset t)).
  set (ts := take idx (b_set b) ++ t1 :: (no_aux <$> drop (S idx) (b_set b))).
  assert (Hts : length ts = length (b_set b)).
  { unfold ts. rewrite length_app, length_cons, length_fmap, length_take, length_drop. lia. }
  assert (Etsi : ts !! idx = Some t1).
  { unfold ts. rewrite lookup_app_r, length_take, Nat.min_l, Nat.sub_diag by (rewrite ?length_take; lia). done. }
  assert (Htsj : forall j, j <> idx -> ts !! j = if decide (j < idx)%nat then b_set b !! j else no_aux <$> b_set b !! j).
  { intros j Hj. unfold ts. destruct (decide (j < idx)%nat).
    - rewrite lookup_app_l by (rewrite length_take; lia). rewrite lookup_take, decide_True by lia. done.
    - rewrite lookup_app_r by (rewrite length_take; lia). rewrite length_take, Nat.min_l by lia.
      replace (j - idx)%nat with (S (j - idx - 1)) by lia.
      change ((t1 :: (no_aux <$> drop (S idx) (b_set b))) !! S (j - idx - 1)) with ((no_aux <$> drop (S idx) (b_set b)) !! (j - idx - 1)%nat).
      rewrite list_lookup_fmap, lookup_drop. do 2 f_equal. lia. }
  rewrite Etsi. bind_simpl. rewrite (capacity_bytes t1 Ho). bind_simpl. cbn [aux_data_offset t1].
  (* whatever becomes of the set *)
  assert (Hgen : forall a' t', same_loc t t' -> aux_addr a' = aux_addr a -> set_built b0 byte_order min_key max_key t' a' L -> kind_ok byte_order w t' a' L -> forall ts', ts' = <[idx := t']> ts ->
    loop_inv b0 Ls ws (S idx) (mk_btree (b_format b) (b_nr_key_bits b) (b_words b) ts') (<[idx := a']> auxs) /\ length ts' = length (b_set b)).
  { intros a' t' Hloc' Ea' Hbuilt Hkind ts' ->. split; [|by rewrite length_insert]. split; cbn [b_set].
    - exact Hm.
    - apply Forall2_same_length_lookup_2; [rewrite length_insert; lia|]. intros j x y Hx Hy. pose proof (Forall2_lookup_l _ _ _ _ _ Hlocs Hx) as (z & Hz & Hxz).
      destruct (decide (j = idx)) as [->|Hj].
      + rewrite list_lookup_insert_eq in Hy by lia. injection Hy as <-. assert (z = t) as -> by congruence. by eapply same_loc_trans.
      + rewrite list_lookup_insert_ne, Htsj in Hy by done. destruct (decide (j < idx)%nat); [by assert (z = y) as -> by congruence|].
        rewrite Hz in Hy. injection Hy as <-. exact Hxz.
    - rewrite !length_insert. lia.
    - apply Forall_insert; [done|]. unfold aligned. rewrite Ea'. exact (Forall_lookup_1 _ _ _ _ Hal Ea).
    - intros j t2 a2 L2 Ht2 Ha2 HL2. destruct (decide (j = idx)) as [->|Hj].
      + left. rewrite list_lookup_insert_eq in Ht2 by lia. rewrite list_lookup_insert_eq in Ha2 by lia. injection Ht2 as <-. injection Ha2 as <-. by assert (L2 = L) as -> by congruence.
      + rewrite list_lookup_insert_ne in Ht2 by done. rewrite list_lookup_insert_ne in Ha2 by done. rewrite Htsj in Ht2 by done. destruct (decide (j < idx)%nat).
        * destruct (Hdone j t2 a2 L2 Ht2 Ha2 HL2) as [|[? _]]; [by left|lia].
        * right. split; [lia|]. destruct (b_set b !! j); [|done]. injection Ht2 as <-. done.
    - intros j t2 a2 L2 Hj2 Ht2 Ha2 HL2. destruct (decide (j = idx)) as [->|Hj].
      + rewrite list_lookup_insert_eq in Ht2 by lia. rewrite list_lookup_insert_eq in Ha2 by lia. injection Ht2 as <-. injection Ha2 as <-. by assert (L2 = L) as -> by congruence.
      + rewrite list_lookup_insert_ne in Ht2 by done. rewrite list_lookup_insert_ne in Ha2 by done. rewrite Htsj, decide_True in Ht2 by (done || lia).
        apply Hkinds; (done || lia). }
  destruct (Z.eqb_spec ((W - o) * 8) 0) as [E0|Hne].
  - eexists _, _. split; [reflexivity|]. destruct (Hgen a t1) with (ts' := ts) as [Hinv Hlen].
    + done.
    + done.
    + split; [by left|]. exists o. split; [unfold bset_aux_tree_buf_end; by rewrite (no_tree_type t1)|lia].
    + right. split; [done|]. left. cbn [aux_data_offset t1]. lia.
    + by rewrite list_insert_id.
    + rewrite (list_insert_id auxs idx a Ea) in Hinv. by split.
  - rewrite Ea. bind_simpl. destruct Hm as (M1 & M2 & M3).
    assert (Hrow : row_ok b min_key max_key t L) by (eapply row_ok_same; [|exact Hloc|exact Hrow0]; by split_and!).
    destruct (build_set_spec b t a L ts o w) as (a' & t' & E & Hl' & Ea' & Hbuilt & Hkind); [by apply (node_wf_same b0); [split_and!|]|by rewrite M3|by apply (Forall_lookup_1 _ _ _ _ Hal Ea)|done..|].
    fold t1 in E. rewrite E. bind_simpl. eexists _, _. split; [reflexivity|]. apply (Hgen a' t'); [done|done| |done|done].
    apply (set_built_same b); [by split_and!|done].
Qed.

(** Which set is to have a table. *)
Definition writeable_set (written : Z) (ts : list bset_tree) (j : nat) : bool :=
  match ts !! j with Some t => negb (bset_written written t) && (S j =? length ts)%nat | None => false end.

Lemma build_loop_spec b0 Ls written n : node_wf b0 -> words_wf (b_words b0) -> Forall2 (row_ok b0 min_key max_key) (b_set b0) Ls ->
  forall idx b auxs, (idx + n = length (b_set b))%nat -> loop_inv b0 Ls (writeable_set written (b_set b0)) idx b auxs ->
  exists b' auxs', build_aux_loop n written byte_order min_key max_key idx b auxs = Some (b', auxs') /\
    loop_inv b0 Ls (writeable_set written (b_set b0)) (length (b_set b')) b' auxs'.
Proof.
  intros Hb0 Hw0 Hrows. induction n as [|n IH]; intros idx b auxs Hn Hinv.
  { exists b, auxs. split; [done|]. by replace (length (b_set b)) with idx by lia. }
  cbn [build_aux_loop]. destruct (lookup_lt_is_Some_2 (b_set b) idx ltac:(lia)) as [t Et]. rewrite Et. bind_simpl.
  assert (negb (bset_written written t) && (S idx =? length (b_set b))%nat = writeable_set written (b_set b0) idx) as ->.
  { pose proof (li_locs _ _ _ _ _ _ Hinv) as Hl. destruct (Forall2_lookup_r _ _ _ _ _ Hl Et) as (t0 & Et0 & [Ed _]). unfold writeable_set.
    rewrite Et0, (Forall2_length _ _ _ Hl). unfold bset_written. by rewrite Ed. }
  destruct (build_step b0 Ls _ idx b auxs Hb0 Hw0 Hrows ltac:(lia) Hinv) as (b' & auxs' & -> & Hinv' & Hl).
  bind_simpl. apply IH; [lia|done].
Qed.
End BuildNode.

(** ** Properties *)

(** What is asked of the rows of a node: bounds, and nothing live before a key at its position. *)
Record rows_ok (f : bkey_format) (min_key max_key : bpos) (bs : list (list Z)) : Prop := {
  rk_bounds : Forall (fun x => bpos_val min_key <= block_pos_val f x <= bpos_val max_key) bs;
  rk_live : StronglySorted (fun x y => block_pos_val f x = block_pos_val f y -> bkey_deleted x = true) bs
}.

Lemma sorted_fmap_inv {A B} (g : A -> B) (R : B -> B -> Prop) l : StronglySorted R (g <$> l) -> StronglySorted (fun x y => R (g x) (g y)) l.
Proof.
  induction l as [|x l IH]; intros H; [constructor|]. rewrite fmap_cons in H. apply StronglySorted_inv in H as [H Hx]. constructor; [by apply IH|].
  rewrite Forall_fmap in Hx. exact Hx.
Qed.

Lemma sorted_impl_in {A} (R S : A -> A -> Prop) l : (forall x y, x ∈ l -> y ∈ l -> R x y -> S x y) -> StronglySorted R l -> StronglySorted S l.
Proof.
  induction l as [|x l IH]; intros HRS H; [constructor|]. apply StronglySorted_inv in H as [H Hx]. constructor.
  - apply IH; [|done]. intros y z Hy Hz. apply HRS; by right.
  - rewrite Forall_forall in Hx |- *. intros y Hy. apply HRS; [left|by right|by apply Hx].
Qed.

Lemma set_row_words b t bs : node_wf b -> words_wf (b_words b) -> set_holds b t bs -> let L := offs (first_offset t) bs in
  (key_words b <$> L) = bs /\ Forall (fun k => block_pos (b_format b) (key_words b k) = key_pos b k /\ bkey_deleted (key_words b k) = bkey_deleted (key_mem b k)) L.
Proof.
  intros Hb Hw Hs L. destruct (node_words b [t] [bs]) as [E1 E2]; [split; [done|done|by constructor|cbn; lia|repeat constructor]|].
  cbn [set_offs zip_with concat] in E1, E2. rewrite !app_nil_r in *. split; [exact E1|]. eapply Forall_impl; [exact E2|]. naive_solver.
Qed.

Lemma rows_live_last b p q t bs : node_wf b -> words_wf (b_words b) -> set_holds b t bs -> rows_ok (b_format b) p q bs ->
  let L := offs (first_offset t) bs in live_last b L /\ row_ok b p q t L.
Proof.
  intros Hb Hw Hs [Hbd Hlv] L. destruct (set_row_words b t bs Hb Hw Hs) as [E Hk]. fold L in E, Hk. rewrite <- E in Hbd, Hlv. rewrite Forall_fmap in Hbd.
  apply sorted_fmap_inv in Hlv. rewrite Forall_forall in Hk. destruct (set_holds_range b t bs Hb Hw Hs) as (H0 & H3 & [H16 Hc Hsort]). split.
  - unfold live_last. eapply sorted_impl_in; [|exact Hlv]. cbn. intros x y Hx Hy Hd E1. destruct (Hk x Hx) as [Px Dx], (Hk y Hy) as [Py _].
    unfold block_pos_val in Hd. rewrite Px, Py, Dx in Hd. by apply Hd.
  - split; [done|done|exact Hc|exact Hsort|]. rewrite Forall_forall in Hbd |- *. intros k Hk'. specialize (Hbd k Hk'). cbn in Hbd.
    unfold block_pos_val in Hbd. by rewrite (proj1 (Hk k Hk')) in Hbd.
Qed.

(** The structures of the sets of a node. *)
Definition structures_ok (n : bnode) (min_key max_key : bpos) (Bs : list (list (list Z))) : Prop :=
  Forall3 (fun t a bs => set_built (n_b n) (n_byte_order n) min_key max_key t a (offs (first_offset t) bs)) (b_set (n_b n)) (n_aux n) Bs.

(** The kinds of structures of the sets of a node: a table for the last set if it is not written. *)
Definition kinds_ok (written : Z) (n : bnode) (Bs : list (list (list Z))) : Prop :=
  forall i t a bs, b_set (n_b n) !! i = Some t -> n_aux n !! i = Some a -> Bs !! i = Some bs ->
    kind_ok (n_byte_order n) (writeable_set written (b_set (n_b n)) i) t a (offs (first_offset t) bs).

Lemma built_searchable n min_key max_key Bs s : node_holds (n_b n) Bs -> structures_ok n min_key max_key Bs ->
  Forall (rows_ok (b_format (n_b n)) min_key max_key) Bs -> bpos_wf min_key -> bpos_wf max_key -> bpos_wf s ->
  bpos_val min_key <= bpos_val s <= bpos_val max_key ->
  searchable (n_b n) s (n_aux n) (set_offs (b_set (n_b n)) Bs).
Proof.
  intros [Hb Hw Hsets Hl Ho] H3 Hrows Wmin Wmax Ws Hs. apply (good_searchable _ Hb Hw s Ws min_key max_key Hs).
  unfold structures_ok in H3. clear Hl Ho. revert Hsets Hrows. induction H3 as [|t a bs ts auxs Bs Ha H3 IH]; intros Hsets Hrows; [constructor|].
  inversion Hsets as [|? ? ? ? Ht Hsets']; subst. apply Forall_cons_1 in Hrows as [Hr Hrows]. cbn [zip_with zip set_offs].
  constructor; [|by apply IH]. destruct (rows_live_last _ _ _ _ _ Hb Hw Ht Hr) as [Hlv Hro]. split; cbn [fst snd]; [by apply set_holds_range|done|apply Hro|].
  destruct Ha as [[Hk|[(Hg & _)|Hg]] _]; [left; left; by apply no_tree_type|left|by right].
  right. split; [apply (rg_type _ _ _ _ Hg)|by apply rw_good_ok].
Qed.

(** C28: Starting an iterator at a position inside a node succeeds, whatever way
    the position packs and whatever structures its sets have, and peeking at
    it returns the first live key of the node at or behind the position, or
    nothing when there is none. *)
Theorem node_iter_init_finds (n : bnode) (Bs : list (list (list Z))) (min_key max_key search : bpos)
    (Hn : node_holds (n_b n) Bs) (Haux : structures_ok n min_key max_key Bs)
    (Hrows : Forall (rows_ok (b_format (n_b n)) min_key max_key) Bs)
    (Hmin : bpos_wf min_key) (Hmax : bpos_wf max_key) (Hs : bpos_wf search)
    (Hin : bpos_val min_key <= bpos_val search <= bpos_val max_key) :
  exists iter r iter', bch2_btree_node_iter_init (n_b n) (n_aux n) min_key max_key search = Some iter /\
    bch2_btree_node_iter_peek iter (n_b n) = Some (r, iter') /\ finds (n_b n) (set_offs (b_set (n_b n)) Bs) search r.
Proof.
  apply iter_init_finds; try done; [apply Hn|apply Hn|..|by eapply built_searchable].
  - symmetry. by eapply Forall3_length_lm.
  - destruct Hn as [Hb Hw Hsets _ _]. clear -Hb Hw Hsets. unfold set_offs. induction Hsets; cbn [zip_with]; constructor; [by apply set_holds_range|done].
Qed.

Lemma Forall3_from_lookup {A B C} (P : A -> B -> C -> Prop) l k m : length l = length k -> length k = length m ->
  (forall i x y z, l !! i = Some x -> k !! i = Some y -> m !! i = Some z -> P x y z) -> Forall3 P l k m.
Proof.
  revert k m. induction l as [|x l IH]; intros [|y k] [|z m] Hk Hm H; try done; constructor; [by apply (H 0%nat)|].
  apply IH; [by injection Hk|by injection Hm|]. intros i. apply (H (S i)).
Qed.

Lemma same_loc_order ts ts' : Forall2 same_loc ts ts' -> in_memory_order ts -> in_memory_order ts'.
Proof.
  induction 1 as [|t t' ts ts' [E1 E2] Hl IH]; intros Ho; [constructor|]. apply StronglySorted_inv in Ho as [Ho Ht]. constructor; [by apply IH|].
  rewrite Forall_forall in Ht |- *. intros x Hx. apply list_elem_of_lookup_1 in Hx as [i Hi]. destruct (Forall2_lookup_r _ _ _ _ _ Hl Hi) as (y & Hy & [F1 F2]).
  rewrite E2, F1. apply Ht. by eapply list_elem_of_lookup_2.
Qed.

Lemma same_loc_holds b b' ts ts' Bs : same_mem b b' -> Forall2 same_loc ts ts' -> Forall2 (set_holds b) ts Bs -> Forall2 (set_holds b') ts' Bs.
Proof.
  intros Hm Hl. revert Bs. induction Hl as [|t t' ts ts' [E1 E2] Hl IH]; intros Bs Hs; inversion Hs as [|? bs ? Bs' Ht Hs']; subst; constructor; [|by apply IH].
  apply (set_holds_ext b' t t'); [done..|]. destruct Hm as (M1 & M2 & M3). destruct Ht as [H1 H2 H3 H4 H5 H6 H7].
  split; unfold bset_header_u64s in *; rewrite ?M1, ?M3; done.
Qed.

Lemma writeable_same written ts ts' i : Forall2 same_loc ts ts' -> writeable_set written ts i = writeable_set written ts' i.
Proof.
  intros Hl. unfold writeable_set. rewrite (Forall2_length _ _ _ Hl). destruct (ts' !! i) as [t'|] eqn:E.
  - destruct (Forall2_lookup_r _ _ _ _ _ Hl E) as (t & -> & [Ed _]). unfold bset_written. by rewrite Ed.
  - apply lookup_ge_None in E. by rewrite lookup_ge_None_2 by (rewrite (Forall2_length _ _ _ Hl); lia).
Qed.

Section BuildAll.
Context (n : bnode) (Bs : list (list (list Z))) (min_key max_key : bpos) (Hn : node_holds (n_b n) Bs).
Notation Ls := (set_offs (b_set (n_b n)) Bs).

Lemma node_rows i t bs : b_set (n_b n) !! i = Some t -> Bs !! i = Some bs -> Ls !! i = Some (offs (first_offset t) bs).
Proof. intros Ht Hbs. unfold set_offs. by rewrite lookup_zip_with, Ht, Hbs. Qed.

(** The loop ends with every set done. *)
Lemma build_all_inv written : 11 <= n_byte_order n <= 23 -> bpos_wf min_key -> bpos_wf max_key ->
  Forall (rows_ok (b_format (n_b n)) min_key max_key) Bs -> Forall aligned (n_aux n) ->
  Forall3 (fun t a bs => no_tree t \/ set_built (n_b n) (n_byte_order n) min_key max_key t a (offs (first_offset t) bs)) (b_set (n_b n)) (n_aux n) Bs ->
  exists n', bch2_btree_build_aux_trees written min_key max_key n = Some n' /\ n_nr n' = n_nr n /\ n_byte_order n' = n_byte_order n /\
    loop_inv (n_byte_order n) min_key max_key (n_b n) Ls (writeable_set written (b_set (n_b n))) (length (b_set (n_b n'))) (n_b n') (n_aux n').
Proof.
  intros Hbo Hmin Hmax Hrows Hal Haux. pose proof Hn as [Hb Hw Hsets Hl Ho]. pose proof (Forall2_length _ _ _ Hsets) as HlB.
  assert (Hro : Forall2 (row_ok (n_b n) min_key max_key) (b_set (n_b n)) Ls).
  { clear Haux Hal Hl Ho HlB Hn. unfold set_offs. induction Hsets as [|t bs ts Bs Ht _ IH]; cbn [zip_with]; [constructor|].
    apply Forall_cons_1 in Hrows as [Hr Hrows]. constructor; [by apply rows_live_last|by apply IH]. }
  destruct (build_loop_spec (n_byte_order n) Hbo min_key max_key Hmin Hmax (n_b n) Ls written (length (b_set (n_b n))) Hb Hw Hro 0 (n_b n) (n_aux n)) as (b' & auxs' & E & Hinv).
  - done.
  - split; [done| | |done| |intros; lia].
    + clear. induction (b_set (n_b n)); by constructor.
    + symmetry. by eapply Forall3_length_lm.
    + intros j t a L Ht Ha HL. destruct (lookup_lt_is_Some_2 Bs j) as [bs Hbs]; [rewrite <- HlB; by eapply lookup_lt_Some|].
      rewrite (node_rows j t bs Ht Hbs) in HL. injection HL as <-. destruct (Forall3_lookup_lmr _ _ _ _ _ _ _ _ Haux Ht Ha Hbs) as [|]; [right; split; [lia|done]|by left].
  - unfold bch2_btree_build_aux_trees. rewrite E. bind_simpl. eexists. by split_and!.
Qed.

Context (n' : bnode) (ws : nat -> bool) (Hbo : n_byte_order n' = n_byte_order n).
Context (Hinv : loop_inv (n_byte_order n) min_key max_key (n_b n) Ls ws (length (b_set (n_b n'))) (n_b n') (n_aux n')).

Lemma all_row i t a bs : b_set (n_b n') !! i = Some t -> n_aux n' !! i = Some a -> Bs !! i = Some bs ->
  kind_ok (n_byte_order n') (ws i) t a (offs (first_offset t) bs) /\ set_built (n_b n') (n_byte_order n') min_key max_key t a (offs (first_offset t) bs).
Proof.
  intros Ht Ha Hbs. destruct Hinv as [Hm Hlocs _ _ Hdone Hkinds]. destruct (Forall2_lookup_r _ _ _ _ _ Hlocs Ht) as (t0 & Ht0 & Hloc).
  pose proof (lookup_lt_Some _ _ _ Ht) as Hlt. rewrite Hbo. replace (first_offset t) with (first_offset t0) by (unfold first_offset; by rewrite (proj1 Hloc)).
  split; [apply Hkinds; [done..|by apply node_rows]|].
  destruct (Hdone i t a _ Ht Ha (node_rows i t0 bs Ht0 Hbs)) as [Hbuilt|[Hge _]]; [by eapply set_built_same|lia].
Qed.

Lemma all_structures : node_holds (n_b n') Bs /\ structures_ok n' min_key max_key Bs.
Proof.
  pose proof Hn as [Hb Hw Hsets Hl Ho]. pose proof Hinv as [Hm Hlocs Hla _ _ _]. split.
  - split; [by eapply node_wf_same|by destruct Hm as (_ & _ & ->)|by eapply same_loc_holds|by rewrite <- (Forall2_length _ _ _ Hlocs)|by eapply same_loc_order].
  - apply Forall3_from_lookup; [by symmetry| |intros i t a bs Ht Ha Hbs; exact (proj2 (all_row i t a bs Ht Ha Hbs))].
    rewrite Hla, <- (Forall2_length _ _ _ Hlocs). by eapply Forall2_length.
Qed.
End BuildAll.

(** C29: Building the search structures of a node succeeds, whatever structures its
    sets have; the keys stay as they are, and afterwards every set has a
    structure that is right, in its part of the buffer: a table for the last
    set if it is not written, a tree for every other set, and none only where
    the buffer is full or no key lies behind the second line. *)
Theorem build_aux_trees_ok (n : bnode) (Bs : list (list (list Z))) (written : Z) (min_key max_key : bpos)
    (Hn : node_holds (n_b n) Bs) (Hbo : 11 <= n_byte_order n <= 23) (Hmin : bpos_wf min_key) (Hmax : bpos_wf max_key)
    (Hrows : Forall (rows_ok (b_format (n_b n)) min_key max_key) Bs) (Hal : Forall aligned (n_aux n))
    (Haux : Forall3 (fun t a bs => no_tree t \/ set_built (n_b n) (n_byte_order n) min_key max_key t a (offs (first_offset t) bs)) (b_set (n_b n)) (n_aux n) Bs) :
  exists n', bch2_btree_build_aux_trees written min_key max_key n = Some n' /\ node_holds (n_b n') Bs /\ structures_ok n' min_key max_key Bs /\
    kinds_ok written n' Bs /\ same_mem (n_b n) (n_b n') /\ Forall2 same_loc (b_set (n_b n)) (b_set (n_b n')) /\
    n_nr n' = n_nr n /\ n_byte_order n' = n_byte_order n.
Proof.
  destruct (build_all_inv n Bs min_key max_key Hn written Hbo Hmin Hmax Hrows Hal Haux) as (n' & E & Enr & Ebo & Hinv).
  destruct (all_structures n Bs min_key max_key Hn n' _ Ebo Hinv) as [Hh Hst]. pose proof Hinv as [Hm Hlocs _ _ _ _].
  exists n'. split_and!; try done. intros i t a bs Ht Ha Hbs. rewrite <- (writeable_same written _ _ i Hlocs).
  exact (proj1 (all_row n Bs min_key max_key n' _ Ebo Hinv i t a bs Ht Ha Hbs)).
Qed.

(** ** A node with a tree and a table *)

Definition long_row (n : nat) (o : Z) : list (list Z) := (fun i => sample_key 1 (o + 10 * Z.of_nat i)) <$> seq 0 n.

Definition sample_sets_node : bnode :=
  mk_bnode (mk_btree BKEY_FORMAT_CURRENT 160
      ([0; 0; 120 * 2 ^ 48] ++ concat (long_row 24 10) ++ [0; 0; 60 * 2 ^ 48] ++ concat (long_row 12 15))
      [mk_bset_tree 0 BSET_NO_AUX_TREE_VAL 0 0 123; mk_bset_tree 0 BSET_NO_AUX_TREE_VAL 123 0 186])
    [mk_aux [] [] 0; mk_aux [] [] 0] (nr_of [long_row 24 10; long_row 12 15]) 13.

Definition sample_rows : list (list (list Z)) := [long_row 24 10; long_row 12 15].

Lemma sample_key_ok o : in_range 64 o -> block_ok BKEY_FORMAT_CURRENT (sample_key 1 o).
Proof.
  intros Ho. assert (kp_u64s (sample_key 1 o) = 5 /\ bkey_packed (sample_key 1 o) = false) as [Hu Hp] by done.
  split; [|done|by rewrite Hp|].
  - unfold words_wf, sample_key, in_range in *. repeat (apply Forall_cons; split; [lia|]). by apply Forall_nil.
  - exists (mk_bkey 5 1 1 ZERO_VERSION 0 (SPOS 1 o 0)). split; [|by right]. unfold bkey_wf, bversion_wf, bpos_wf, in_range in *. cbn. lia.
Qed.

Lemma long_row_pos o : block_pos_val BKEY_FORMAT_CURRENT (sample_key 1 o) = bpos_val (SPOS 1 o 0).
Proof. done. Qed.

Lemma long_row_sorted n m o (R : list Z -> list Z -> Prop) : (forall i j, (i < j)%nat -> R (sample_key 1 (o + 10 * Z.of_nat i)) (sample_key 1 (o + 10 * Z.of_nat j))) ->
  StronglySorted R ((fun i => sample_key 1 (o + 10 * Z.of_nat i)) <$> seq m n).
Proof.
  intros HR. revert m. induction n as [|n IH]; intros m; cbn [seq fmap list_fmap]; [constructor|]. constructor; [apply IH|].
  apply Forall_forall. intros x Hx. apply list_elem_of_fmap in Hx as (j & -> & Hj). apply elem_of_seq in Hj. apply HR. lia.
Qed.

Lemma long_row_rows_ok n o : 0 <= o -> o + 10 * Z.of_nat n < 2 ^ 64 -> rows_ok BKEY_FORMAT_CURRENT POS_MIN SPOS_MAX (long_row n o).
Proof.
  intros Ho Hn. split.
  - apply Forall_forall. intros x Hx. apply list_elem_of_fmap in Hx as (j & -> & Hj). apply elem_of_seq in Hj. rewrite long_row_pos.
    unfold bpos_val, bkey_val, POS_MIN, SPOS_MAX, KEY_INODE_MAX, KEY_OFFSET_MAX, KEY_SNAPSHOT_MAX, MAX. cbn [inode offset snapshot]. lia.
  - apply long_row_sorted. intros i j Hij E. rewrite !long_row_pos in E. unfold bpos_val, bkey_val in E. cbn [inode offset snapshot] in E. lia.
Qed.

Lemma long_row_holds b t n o : b_format b = BKEY_FORMAT_CURRENT -> 0 <= data_offset t -> end_offset t = data_offset t + 3 + Z.of_nat (length (concat (long_row n o))) ->
  end_offset t < 2 ^ 16 -> bset_header_u64s b t = Some (Z.of_nat (length (concat (long_row n o)))) ->
  (exists A R, b_words b = A ++ concat (long_row n o) ++ R /\ Z.of_nat (length A) = data_offset t + 3) -> 0 <= o -> o + 10 * Z.of_nat n < 2 ^ 64 ->
  set_holds b t (long_row n o).
Proof.
  intros Ef H0 He Hr Hh Hm Ho Hn. split; try done; rewrite Ef.
  - apply Forall_forall. intros x Hx. apply list_elem_of_fmap in Hx as (j & -> & Hj). apply elem_of_seq in Hj. apply sample_key_ok. unfold in_range. lia.
  - apply long_row_sorted. intros i j Hij. unfold block_le, block_val. change (bkey_deleted (sample_key 1 _)) with false.
    fold (block_pos_val BKEY_FORMAT_CURRENT (sample_key 1 (o + 10 * Z.of_nat i))) (block_pos_val BKEY_FORMAT_CURRENT (sample_key 1 (o + 10 * Z.of_nat j))).
    rewrite !long_row_pos. unfold bpos_val, bkey_val. cbn [inode offset snapshot]. lia.
Qed.

Lemma sample_sets_node_holds : node_holds (n_b sample_sets_node) sample_rows.
Proof.
  split.
  - split; [apply current_format_wf|reflexivity].
  - cbn [n_b b_words sample_sets_node]. repeat apply Forall_app_2; try (repeat (apply List.Forall_cons; [unfold in_range; lia|]); apply List.Forall_nil);
      apply Forall_concat, Forall_forall; intros x Hx; apply list_elem_of_fmap in Hx as (j & -> & Hj); apply elem_of_seq in Hj; apply sample_key_ok; unfold in_range; lia.
  - constructor; [|constructor; [|constructor]]; (apply long_row_holds; [done|cbn; lia|by vm_compute|by vm_compute|by vm_compute| |lia|lia]).
    + by exists [0; 0; 120 * 2 ^ 48], ([0; 0; 60 * 2 ^ 48] ++ concat (long_row 12 15)).
    + exists ([0; 0; 120 * 2 ^ 48] ++ concat (long_row 24 10) ++ [0; 0; 60 * 2 ^ 48]), []. split; [|by vm_compute].
      cbn [n_b b_words sample_sets_node]. by rewrite <- !app_assoc, app_nil_r.
  - cbn. lia.
  - repeat constructor. cbn. lia.
Qed.

Lemma sample_bounds : bpos_wf POS_MIN /\ bpos_wf SPOS_MAX.
Proof. split; repeat split; vm_compute; (discriminate || reflexivity). Qed.

Definition sample_built : bnode := default sample_sets_node (bch2_btree_build_aux_trees 1 POS_MIN SPOS_MAX sample_sets_node).

Lemma sample_rows_ok : Forall (rows_ok (b_format (n_b sample_sets_node)) POS_MIN SPOS_MAX) sample_rows.
Proof. repeat (apply Forall_cons_2; [apply long_row_rows_ok; lia|]). constructor. Qed.

Lemma sample_aux_ok : Forall aligned (n_aux sample_sets_node) /\
  Forall3 (fun t a bs => no_tree t \/ set_built (n_b sample_sets_node) (n_byte_order sample_sets_node) POS_MIN SPOS_MAX t a (offs (first_offset t) bs))
    (b_set (n_b sample_sets_node)) (n_aux sample_sets_node) sample_rows.
Proof.
  split; [repeat constructor; cbn; lia|]. constructor; [left; by split|constructor; [left; by split|constructor]].
Qed.

Lemma sample_built_ok : node_holds (n_b sample_built) sample_rows /\ structures_ok sample_built POS_MIN SPOS_MAX sample_rows.
Proof.
  destruct sample_bounds as [Wmin Wmax]. destruct sample_aux_ok as [Hal Haux].
  destruct (build_all_inv sample_sets_node sample_rows POS_MIN SPOS_MAX sample_sets_node_holds 1) as (n' & E & _ & Ebo & Hinv);
    [cbn; lia|exact Wmin|exact Wmax|exact sample_rows_ok|exact Hal|exact Haux|].
  assert (n' = sample_built) as -> by (unfold sample_built; by rewrite E).
  exact (all_structures _ _ _ _ sample_sets_node_holds _ _ Ebo Hinv).
Qed.

Lemma build_aux_trees_ok_witness : exists n', bch2_btree_build_aux_trees 1 POS_MIN SPOS_MAX sample_sets_node = Some n' /\
  structures_ok n' POS_MIN SPOS_MAX sample_rows /\ bset_aux_tree_type <$> b_set (n_b n') = [Some BSET_RO_AUX_TREE; Some BSET_RW_AUX_TREE].
Proof.
  destruct sample_bounds as [Wmin Wmax]. destruct sample_aux_ok as [Hal Haux].
  destruct (build_aux_trees_ok sample_sets_node sample_rows 1 POS_MIN SPOS_MAX sample_sets_node_holds) as (n' & E & _ & Hst & _);
    [cbn; lia|exact Wmin|exact Wmax|exact sample_rows_ok|exact Hal|exact Haux|].
  exists n'. split; [exact E|]. split; [exact Hst|].
  assert (n' = sample_built) as -> by (unfold sample_built; by rewrite E). vm_compute. reflexivity.
Defined.

(** A position between two keys of the first set that is the position of a key of the second. *)
Lemma node_iter_init_finds_witness : exists iter r iter',
  bch2_btree_node_iter_init (n_b sample_built) (n_aux sample_built) POS_MIN SPOS_MAX (SPOS 1 75 0) = Some iter /\
  bch2_btree_node_iter_peek iter (n_b sample_built) = Some (r, iter') /\ finds (n_b sample_built) (set_offs (b_set (n_b sample_built)) sample_rows) (SPOS 1 75 0) r.
Proof.
  destruct sample_bounds as [Wmin Wmax]. destruct sample_built_ok as [Hh Hst].
  apply (node_iter_init_finds sample_built sample_rows POS_MIN SPOS_MAX (SPOS 1 75 0)); [exact Hh|exact Hst| |exact Wmin|exact Wmax| |].
  - assert (b_format (n_b sample_built) = b_format (n_b sample_sets_node)) as -> by (vm_compute; reflexivity). exact sample_rows_ok.
  - repeat split; vm_compute; (discriminate || reflexivity).
  - split; vm_compute; discriminate.
Defined.
