(* ===== verification/Extents.v ===== *)
(** * Extents: pointers and checksums ([btree/bset.rs])

    The value of an extent is a row of entries: pointers, the checksums that
    cover the pointers behind them, and others.  Modelled here: the bit fields
    of pointers and checksums, the kinds and lengths of entries, packing and
    unpacking of checksums.  The operations on whole values are in
    [ExtentKeys].

    An entry is the words from its first word on; a pointer into a value is the
    index of a word of its memory. *)

From stdpp Require Import base tactics list option.
From Stdlib Require Import ZArith Lia.
From S2P Require Import Prelude Bpos BkeyPack BkeyOrder Checksum.

Open Scope Z_scope.

(** ** Bit fields *)

(** [v >> off & (1 << n) - 1], and the corresponding assignment. *)
Definition get_bits (off n v : Z) : Z := Z.land (Z.shiftr v off) (Z.ones n).
Definition put_bits (off n v x : Z) : Z :=
  Z.lor (Z.ldiff v (Z.shiftl (Z.ones n) off)) (Z.shiftl (Z.land x (Z.ones n)) off).

(** *** Pointers: the one word of a [bch_extent_ptr] *)

Definition BCH_EXTENT_PTR_TYPE (ptr : Z) : Z := Z.land ptr 1.
Definition SET_BCH_EXTENT_PTR_TYPE (ptr value : Z) : Z := put_bits 0 1 ptr value.
Definition BCH_EXTENT_PTR_CACHED (ptr : Z) : Z := get_bits 1 1 ptr.
Definition SET_BCH_EXTENT_PTR_CACHED (ptr value : Z) : Z := put_bits 1 1 ptr value.
Definition BCH_EXTENT_PTR_UNUSED (ptr : Z) : Z := get_bits 2 1 ptr.
Definition SET_BCH_EXTENT_PTR_UNUSED (ptr value : Z) : Z := put_bits 2 1 ptr value.
Definition BCH_EXTENT_PTR_UNWRITTEN (ptr : Z) : Z := get_bits 3 1 ptr.
Definition SET_BCH_EXTENT_PTR_UNWRITTEN (ptr value : Z) : Z := put_bits 3 1 ptr value.
Definition BCH_EXTENT_PTR_OFFSET (ptr : Z) : Z := get_bits 4 44 ptr.
Definition SET_BCH_EXTENT_PTR_OFFSET (ptr value : Z) : Z := put_bits 4 44 ptr value.
Definition BCH_EXTENT_PTR_DEV (ptr : Z) : Z := get_bits 48 8 ptr.
Definition SET_BCH_EXTENT_PTR_DEV (ptr value : Z) : Z := put_bits 48 8 ptr value.
Definition BCH_EXTENT_PTR_GEN (ptr : Z) : Z := Z.shiftr ptr 56.
Definition SET_BCH_EXTENT_PTR_GEN (ptr value : Z) : Z := put_bits 56 8 ptr value.

(** ** Entries *)

Definition BCH_EXTENT_ENTRY_ptr : Z := 0.
Definition BCH_EXTENT_ENTRY_crc32 : Z := 1.
Definition BCH_EXTENT_ENTRY_crc64 : Z := 2.
Definition BCH_EXTENT_ENTRY_crc128 : Z := 3.
Definition BCH_EXTENT_ENTRY_stripe_ptr : Z := 4.
Definition BCH_EXTENT_ENTRY_MAX : Z := 9.

Definition extent_entry_u64s_known (type_ : Z) : Z :=
  if type_ =? BCH_EXTENT_ENTRY_crc64 then 2
  else if type_ =? BCH_EXTENT_ENTRY_crc128 then 3
  else if (0 <=? type_) && (type_ <? BCH_EXTENT_ENTRY_MAX) then 1
  else 0.

(** The kind of an entry is its lowest bit set. *)
Definition extent_entry_type (entry : list Z) : Z :=
  let type_ := word entry 0 in if type_ =? 0 then MAX 32 else trailing_zeros 64 type_.

Definition extent_entry_is_ptr (entry : list Z) : bool := extent_entry_type entry =? BCH_EXTENT_ENTRY_ptr.
Definition extent_entry_is_stripe_ptr (entry : list Z) : bool := extent_entry_type entry =? BCH_EXTENT_ENTRY_stripe_ptr.
Definition extent_entry_is_crc (entry : list Z) : bool :=
  let t := extent_entry_type entry in (t =? BCH_EXTENT_ENTRY_crc32) || (t =? BCH_EXTENT_ENTRY_crc64) || (t =? BCH_EXTENT_ENTRY_crc128).

Definition extent_entry_u64s (entry : list Z) : option Z :=
  let type_ := extent_entry_type entry in
  _ ← assert (type_ <? BCH_EXTENT_ENTRY_MAX);
  Some (extent_entry_u64s_known type_).

(** The entry behind the one at word [entry] of the memory [v]. *)
Definition extent_entry_next (v : list Z) (entry : nat) : option nat :=
  u ← extent_entry_u64s (drop entry v); Some (entry + Z.to_nat u)%nat.

(** Behind an entry of an unknown kind is the end. *)
Definition extent_entry_next_safe (v : list Z) (entry end_ : nat) : option nat :=
  if extent_entry_type (drop entry v) <? BCH_EXTENT_ENTRY_MAX then extent_entry_next v entry else Some end_.

(** ** Checksums *)

Record bch_extent_crc_unpacked := mk_crc {
  compressed_size : Z;
  uncompressed_size : Z;
  live_size : Z;
  csum_type : Z;
  compression_type : Z;
  crc_offset : Z;
  crc_nonce : Z;
  crc_csum : bch_csum
}.

Definition BCH_COMPRESSION_TYPE_none : Z := 0.
Definition BCH_COMPRESSION_TYPE_incompressible : Z := 5.
Definition CRC32_SIZE_MAX : Z := 2 ^ 7.
Definition CRC64_SIZE_MAX : Z := 2 ^ 9.
Definition CRC128_SIZE_MAX : Z := 2 ^ 13.
Definition CRC32_NONCE_MAX : Z := 0.
Definition CRC64_NONCE_MAX : Z := 2 ^ 10 - 1.
Definition CRC128_NONCE_MAX : Z := 2 ^ 13 - 1.
Definition bch_crc_bytes : list Z := [0; 4; 8; 10; 16; 4; 8; 8].

Definition crc_is_compressed (crc : bch_extent_crc_unpacked) : bool :=
  negb (compression_type crc =? BCH_COMPRESSION_TYPE_none) && negb (compression_type crc =? BCH_COMPRESSION_TYPE_incompressible).
Definition crc_is_encoded (crc : bch_extent_crc_unpacked) : bool := negb (csum_type crc =? 0) || crc_is_compressed crc.

(** The key without an entry for its checksum. *)
Definition crc_none (size : Z) : bch_extent_crc_unpacked := mk_crc size size size 0 0 0 0 (mk_bch_csum 0 0).

(** [crc] is [None] for a null pointer. *)
Definition bch2_extent_crc_unpack (size : Z) (crc : option (list Z)) : option bch_extent_crc_unpacked :=
  match crc with
  | None => Some (crc_none size)
  | Some entry =>
      let w := word entry 0 in
      let t := extent_entry_type entry in
      if t =? BCH_EXTENT_ENTRY_crc32 then
        Some (mk_crc (get_bits 2 7 w + 1) (get_bits 9 7 w + 1) size (get_bits 24 4 w) (get_bits 28 4 w) (get_bits 16 7 w) 0
                (mk_bch_csum (get_bits 32 32 w) 0))
      else if t =? BCH_EXTENT_ENTRY_crc64 then
        Some (mk_crc (get_bits 3 9 w + 1) (get_bits 12 9 w + 1) size (get_bits 40 4 w) (get_bits 44 4 w) (get_bits 21 9 w) (get_bits 30 10 w)
                (mk_bch_csum (word entry 1) (get_bits 48 16 w)))
      else if t =? BCH_EXTENT_ENTRY_crc128 then
        Some (mk_crc (get_bits 4 13 w + 1) (get_bits 17 13 w + 1) size (get_bits 56 4 w) (get_bits 60 4 w) (get_bits 30 13 w) (get_bits 43 13 w)
                (mk_bch_csum (word entry 1) (word entry 2)))
      else None
  end.

(** The first word of an entry: its kind and its fields. *)
Definition crc_fields (type_ : Z) (l : list (Z * Z * Z)) : Z :=
  fold_left (fun w '(off, n, x) => Z.lor w (Z.shiftl (Z.land x (Z.ones n)) off)) l (Z.shiftl 1 type_).

(** The words of the entry. *)
Definition bch2_extent_crc_pack (src : bch_extent_crc_unpacked) (type_ : Z) : option (list Z) :=
  _ ← assert (negb (compressed_size src =? 0) && negb (uncompressed_size src =? 0));
  let c := compressed_size src - 1 in
  let u := uncompressed_size src - 1 in
  let fields := crc_fields type_ in
  if type_ =? BCH_EXTENT_ENTRY_crc32 then
    Some [fields [(2, 7, c); (9, 7, u); (16, 7, crc_offset src); (24, 4, csum_type src); (28, 4, compression_type src);
                  (32, 32, lo (crc_csum src))]]
  else if type_ =? BCH_EXTENT_ENTRY_crc64 then
    Some [fields [(3, 9, c); (12, 9, u); (21, 9, crc_offset src); (30, 10, crc_nonce src); (40, 4, csum_type src);
                  (44, 4, compression_type src); (48, 16, hi (crc_csum src))]; lo (crc_csum src)]
  else if type_ =? BCH_EXTENT_ENTRY_crc128 then
    Some [fields [(4, 13, c); (17, 13, u); (30, 13, crc_offset src); (43, 13, crc_nonce src); (56, 4, csum_type src);
                  (60, 4, compression_type src)]; lo (crc_csum src); hi (crc_csum src)]
  else None.

(** The smallest kind of entry that fits. *)
Definition crc_entry_type (new : bch_extent_crc_unpacked) : option Z :=
  bytes ← bch_crc_bytes !! Z.to_nat (csum_type new);
  if (bytes <=? 4) && (uncompressed_size new <=? CRC32_SIZE_MAX) && (crc_nonce new <=? CRC32_NONCE_MAX) then Some BCH_EXTENT_ENTRY_crc32
  else if (bytes <=? 10) && (uncompressed_size new <=? CRC64_SIZE_MAX) && (crc_nonce new <=? CRC64_NONCE_MAX) then Some BCH_EXTENT_ENTRY_crc64
  else if (bytes <=? 16) && (uncompressed_size new <=? CRC128_SIZE_MAX) && (crc_nonce new <=? CRC128_NONCE_MAX) then Some BCH_EXTENT_ENTRY_crc128
  else None.

Definition bch2_crc_unpacked_cmp (l r : bch_extent_crc_unpacked) : bool :=
  negb (csum_type l =? csum_type r) || negb (compression_type l =? compression_type r) || negb (compressed_size l =? compressed_size r) ||
  negb (uncompressed_size l =? uncompressed_size r) || negb (crc_offset l =? crc_offset r) || negb (live_size l =? live_size r) ||
  negb (crc_nonce l =? crc_nonce r) ||
  negb (Z.lor (Z.lxor (lo (crc_csum l)) (lo (crc_csum r))) (Z.lxor (hi (crc_csum l)) (hi (crc_csum r))) =? 0).

(** *** Facts of bit fields *)

Ltac bits_eq := apply Z.bits_inj'; intros i ?Hi.

Lemma get_bits_range off n v : 0 <= n -> 0 <= get_bits off n v < 2 ^ n.
Proof. intros Hn. unfold get_bits. rewrite Z.land_ones by lia. apply Z.mod_pos_bound. lia. Qed.

Lemma testbit_get off n v i : 0 <= off -> 0 <= n -> 0 <= i -> Z.testbit (get_bits off n v) i = Z.testbit v (off + i) && (i <? n).
Proof.
  intros Ho Hn Hi. unfold get_bits. rewrite Z.land_spec, Z.shiftr_spec, Z.testbit_ones by lia.
  rewrite (proj2 (Z.leb_le 0 i)) by lia. cbn [andb]. do 2 f_equal; lia.
Qed.

Lemma testbit_field off n x i : 0 <= off -> 0 <= n -> 0 <= i ->
  Z.testbit (Z.shiftl (Z.land x (Z.ones n)) off) i = (off <=? i) && Z.testbit x (i - off) && (i - off <? n).
Proof.
  intros Ho Hn Hi. rewrite Z.shiftl_spec by lia. destruct (Z.leb_spec off i); cbn [andb].
  - rewrite Z.land_spec, Z.testbit_ones by lia. rewrite (proj2 (Z.leb_le 0 (i - off))) by lia. done.
  - apply Z.testbit_neg_r. lia.
Qed.

Lemma testbit_put off n v x i : 0 <= off -> 0 <= n -> 0 <= i ->
  Z.testbit (put_bits off n v x) i = if (off <=? i) && (i <? off + n) then Z.testbit x (i - off) else Z.testbit v i.
Proof.
  intros Ho Hn Hi. unfold put_bits. rewrite Z.lor_spec, Z.ldiff_spec, testbit_field by lia.
  rewrite Z.shiftl_spec by lia. destruct (Z.leb_spec off i); cbn [andb].
  - rewrite Z.testbit_ones by lia. rewrite (proj2 (Z.leb_le 0 (i - off))) by lia. cbn [andb].
    destruct (Z.ltb_spec (i - off) n), (Z.ltb_spec i (off + n)); try lia; cbn [negb]; rewrite ?andb_false_r, ?andb_true_r, ?orb_false_r; done.
  - rewrite (Z.testbit_neg_r (Z.ones n)) by lia. cbn [negb]. by rewrite andb_true_r, orb_false_r.
Qed.

Lemma get_put off n v x : 0 <= off -> 0 <= n -> get_bits off n (put_bits off n v x) = x mod 2 ^ n.
Proof.
  intros Ho Hn. rewrite <- Z.land_ones by lia. bits_eq. rewrite testbit_get, testbit_put by lia.
  rewrite Z.land_spec, Z.testbit_ones by lia. rewrite (proj2 (Z.leb_le 0 i)) by lia. cbn [andb].
  destruct (Z.ltb_spec i n); [|by rewrite !andb_false_r]. rewrite (proj2 (Z.leb_le off (off + i))) by lia.
  rewrite (proj2 (Z.ltb_lt (off + i) (off + n))) by lia. cbn [andb]. rewrite !andb_true_r. f_equal. lia.
Qed.

Lemma get_put_other off n off' n' v x : 0 <= off -> 0 <= n -> 0 <= off' -> 0 <= n' -> off + n <= off' \/ off' + n' <= off ->
  get_bits off n (put_bits off' n' v x) = get_bits off n v.
Proof.
  intros Ho Hn Ho' Hn' Hd. bits_eq. rewrite !testbit_get, testbit_put by lia. destruct (Z.ltb_spec i n); [|by rewrite !andb_false_r].
  destruct (Z.leb_spec off' (off + i)), (Z.ltb_spec (off + i) (off' + n')); cbn [andb]; try done. lia.
Qed.

Lemma put_range w off n v x : 0 <= off -> 0 <= n -> off + n <= w -> in_range w v -> in_range w (put_bits off n v x).
Proof.
  unfold in_range. intros Ho Hn Hw Hv. assert (0 <= put_bits off n v x) as H0.
  { unfold put_bits. rewrite Z.land_ones by lia. pose proof (Z.mod_pos_bound x (2 ^ n) ltac:(lia)). apply Z.lor_nonneg. split.
    - apply Z.ldiff_nonneg. left. lia.
    - apply Z.shiftl_nonneg. lia. }
  split; [done|]. destruct (Z.eq_dec (put_bits off n v x) 0) as [->|Hne]; [lia|]. apply Z.log2_lt_pow2; [lia|].
  apply Z.nle_gt. intros Hle. assert (Z.testbit (put_bits off n v x) (Z.log2 (put_bits off n v x)) = true) as Hb by (apply Z.bit_log2; lia).
  rewrite testbit_put in Hb by lia. rewrite (proj2 (Z.ltb_ge (Z.log2 _) (off + n))), andb_false_r in Hb by lia.
  assert (Z.testbit v (Z.log2 (put_bits off n v x)) = false) as Hf; [|congruence].
  destruct (Z.eq_dec v 0) as [->|]; [apply Z.bits_0|]. apply Z.bits_above_log2; [lia|].
  apply Z.lt_le_trans with w; [|done]. apply Z.log2_lt_pow2; lia.
Qed.

Lemma get_lor off n a b : 0 <= off -> 0 <= n -> get_bits off n (Z.lor a b) = Z.lor (get_bits off n a) (get_bits off n b).
Proof. intros Ho Hn. unfold get_bits. by rewrite Z.shiftr_lor, Z.land_lor_distr_l. Qed.

Lemma get_field off n x : 0 <= off -> 0 <= n -> get_bits off n (Z.shiftl (Z.land x (Z.ones n)) off) = x mod 2 ^ n.
Proof.
  intros Ho Hn. rewrite <- Z.land_ones by lia. bits_eq. rewrite testbit_get, testbit_field, Z.land_spec, Z.testbit_ones by lia.
  rewrite !(proj2 (Z.leb_le _ _)) by lia. replace (off + i - off) with i by lia. cbn [andb]. destruct (i <? n); by rewrite ?andb_false_r, ?andb_true_r.
Qed.

Lemma get_field_other off n off' n' x : 0 <= off -> 0 <= n -> 0 <= off' -> 0 <= n' -> off + n <= off' \/ off' + n' <= off ->
  get_bits off n (Z.shiftl (Z.land x (Z.ones n')) off') = 0.
Proof.
  intros Ho Hn Ho' Hn' Hd. bits_eq. rewrite testbit_get, testbit_field, Z.bits_0 by lia. destruct (Z.ltb_spec i n); [|by rewrite andb_false_r].
  destruct (Z.leb_spec off' (off + i)); [|done]. destruct (Z.ltb_spec (off + i - off') n'); [lia|]. by rewrite andb_false_r.
Qed.

Lemma get_one off n t : 0 <= off -> 0 <= n -> 0 <= t -> get_bits off n (Z.shiftl 1 t) = if (off <=? t) && (t <? off + n) then 2 ^ (t - off) else 0.
Proof.
  intros Ho Hn Ht. rewrite Z.shiftl_1_l. bits_eq. rewrite testbit_get, Z.pow2_bits_eqb by lia.
  destruct (Z.leb_spec off t); cbn [andb]; [destruct (Z.ltb_spec t (off + n))|]; rewrite ?Z.pow2_bits_eqb, ?Z.bits_0 by lia;
    destruct (Z.eqb_spec t (off + i)); cbn [andb]; try lia; done.
Qed.

Lemma trailing_zeros_field w t : 0 <= t -> get_bits 0 (t + 1) w = 2 ^ t -> 0 <= w -> w <> 0 /\ trailing_zeros 64 w = t.
Proof.
  intros Ht Hg Hw. unfold get_bits in Hg. rewrite Z.shiftr_0_r, Z.land_ones in Hg by lia.
  destruct w as [|p|p]; [|split; [done|]|lia]. { pose proof (pow2_pos t Ht). rewrite Z.mod_0_l in Hg; lia. }
  cbn [trailing_zeros]. revert p Hg Hw.
  apply (natlike_ind (fun t => forall p, Z.pos p mod 2 ^ (t + 1) = 2 ^ t -> 0 <= Z.pos p -> pos_ctz p = t)); [..|done].
  - intros p Hp _. change (2 ^ (0 + 1)) with 2 in Hp. change (2 ^ 0) with 1 in Hp. destruct p; [done| |done].
    rewrite Pos2Z.inj_xO, Z.mul_comm, Z.mod_mul in Hp by lia. lia.
  - intros k Hk IH p Hp _. rewrite Z.pow_add_r, Z.pow_succ_r in Hp by lia. change (2 ^ 1) with 2 in Hp.
    assert (0 < 2 ^ k) by lia. pose proof (Z.div_mod (Z.pos p) (2 * 2 ^ k * 2) ltac:(lia)) as Hdm. rewrite Hp in Hdm.
    destruct p as [p|p|]; cbn [pos_ctz].
    + rewrite Pos2Z.inj_xI in Hdm. lia.
    + rewrite Pos2Z.inj_xO in Hdm. rewrite (IH p); [lia| |lia]. rewrite Z.pow_add_r by lia. change (2 ^ 1) with 2.
      symmetry. apply Z.mod_unique with (q := Z.pos p~0 / (2 * 2 ^ k * 2)); lia.
    + pose proof (Z.mod_small 1 (2 * 2 ^ k * 2) ltac:(lia)). lia.
Qed.

Lemma lor_range w a b : 0 <= w -> in_range w a -> in_range w b -> in_range w (Z.lor a b).
Proof.
  unfold in_range. intros Hw Ha Hb. split; [apply Z.lor_nonneg; lia|]. destruct (Z.eq_dec (Z.lor a b) 0) as [->|Hne]; [lia|].
  assert (forall x, 0 <= x < 2 ^ w -> Z.log2 x <= Z.max 0 (w - 1)) as Hl.
  { intros x Hx. destruct (Z.eq_dec x 0) as [->|]; [rewrite Z.log2_nonpos; lia|].
    pose proof (proj1 (Z.log2_lt_pow2 x w ltac:(lia)) (proj2 Hx)). lia. }
  assert (0 <= Z.lor a b) by (apply Z.lor_nonneg; lia). pose proof (Hl a Ha). pose proof (Hl b Hb).
  destruct (Z.eq_dec w 0) as [->|]; [change (2 ^ 0) with 1 in *; replace a with 0 in * by lia; replace b with 0 in * by lia; done|].
  apply Z.log2_lt_pow2; [lia|]. rewrite Z.log2_lor by lia. lia.
Qed.

Lemma field_range w off n x : 0 <= off -> 0 <= n -> off + n <= w -> in_range w (Z.shiftl (Z.land x (Z.ones n)) off).
Proof.
  intros Ho Hn Hw. rewrite Z.shiftl_mul_pow2, Z.land_ones by lia. pose proof (Z.mod_pos_bound x (2 ^ n) ltac:(lia)).
  pose proof (pow2_pos off Ho). assert (2 ^ n * 2 ^ off <= 2 ^ w) by (rewrite <- Z.pow_add_r by lia; apply Z.pow_le_mono_r; lia).
  unfold in_range. nia.
Qed.

(** *** The word of [crc_fields] *)

(** The fields follow each other and the kind, with gaps. *)
Fixpoint fields_from (at_ : Z) (l : list (Z * Z * Z)) : Prop :=
  match l with
  | [] => at_ <= 64
  | (off, n, _) :: l => at_ <= off /\ 0 <= n /\ fields_from (off + n) l
  end.

Lemma fields_step l : forall at_ w, 0 <= at_ -> fields_from at_ l -> in_range 64 w ->
  let w' := fold_left (fun w '(off, n, x) => Z.lor w (Z.shiftl (Z.land x (Z.ones n)) off)) l w in
  in_range 64 w' /\ (forall off n, 0 <= off -> 0 <= n -> off + n <= at_ -> get_bits off n w' = get_bits off n w) /\
  ((forall i, at_ <= i -> Z.testbit w i = false) -> forall off n x, (off, n, x) ∈ l -> get_bits off n w' = x mod 2 ^ n).
Proof.
  induction l as [|[[off n] x] l IH]; intros at_ w Hat Hl Hw; cbn [fold_left].
  { split; [done|]. split; [done|]. intros _ off n x Hin. by apply not_elem_of_nil in Hin. }
  cbn [fields_from] in Hl. destruct Hl as (H1 & H2 & Hl).
  assert (off + n <= 64) as Hend. { clear -H2 Hl. revert off n H2 Hl. induction l as [|[[o m] y] l IH]; intros off n H2 Hl; cbn in Hl; [lia|]. destruct Hl as (?&?&Hl). apply IH in Hl; lia. }
  destruct (IH (off + n) (Z.lor w (Z.shiftl (Z.land x (Z.ones n)) off))) as (Hr & Hlow & Hfld); [lia|done| |].
  { apply lor_range; [lia|done|]. apply field_range; lia. }
  split; [done|]. split.
  - intros o m Ho Hm Hle. rewrite Hlow by lia. rewrite get_lor, get_field_other, Z.lor_0_r by lia. done.
  - intros Hz o m y [Heq|Hin]%elem_of_cons.
    + injection Heq as -> -> ->. rewrite Hlow by lia. rewrite get_lor, get_field by lia. replace (get_bits off n w) with 0; [apply Z.lor_0_l|].
      symmetry. bits_eq. rewrite testbit_get, Z.bits_0 by lia. by rewrite Hz by lia.
    + apply (Hfld) in Hin; [done|]. intros i Hi. rewrite Z.lor_spec, Hz, testbit_field by lia. cbn [orb].
      rewrite (proj2 (Z.ltb_ge _ _)) by lia. apply andb_false_r.
Qed.

Lemma crc_fields_ok t l rest : 0 <= t < 9 -> fields_from (t + 1) l ->
  in_range 64 (crc_fields t l) /\ extent_entry_type (crc_fields t l :: rest) = t /\
  (forall off n x, (off, n, x) ∈ l -> get_bits off n (crc_fields t l) = x mod 2 ^ n).
Proof.
  intros Ht Hl. destruct (fields_step l (t + 1) (Z.shiftl 1 t)) as (Hr & Hlow & Hf); [lia|done| |].
  { rewrite Z.shiftl_1_l. unfold in_range. split; [lia|]. apply Z.pow_lt_mono_r; lia. }
  split; [done|]. split.
  - destruct (trailing_zeros_field (crc_fields t l) t) as [Hne E]; [lia| |by destruct Hr|].
    { unfold crc_fields. rewrite Hlow, get_one by lia. rewrite (proj2 (Z.leb_le 0 t)), (proj2 (Z.ltb_lt t (0 + (t + 1)))) by lia. cbn [andb]. f_equal. lia. }
    unfold extent_entry_type. change (word (crc_fields t l :: rest) 0) with (crc_fields t l). cbv zeta. by rewrite (proj2 (Z.eqb_neq _ _) Hne).
  - apply Hf. intros i Hi. rewrite Z.shiftl_1_l, Z.pow2_bits_eqb by lia. apply Z.eqb_neq. lia.
Qed.

(** ** Packing a checksum and reading it back *)

(** The checksum has the width of its kind, and the offset is inside of the
    data it covers. *)
Definition crc_fits (crc : bch_extent_crc_unpacked) : Prop :=
  0 < compressed_size crc <= uncompressed_size crc /\ 0 <= crc_offset crc < uncompressed_size crc /\
  0 <= csum_type crc < 8 /\ 0 <= compression_type crc < 16 /\ 0 <= crc_nonce crc /\
  in_range 64 (lo (crc_csum crc)) /\ in_range 64 (hi (crc_csum crc)) /\
  match bch_crc_bytes !! Z.to_nat (csum_type crc) with
  | Some bytes => (bytes <= 4 -> lo (crc_csum crc) < 2 ^ 32 /\ hi (crc_csum crc) = 0) /\ (bytes <= 10 -> hi (crc_csum crc) < 2 ^ 16)
  | None => False
  end.

Ltac in_list := repeat first [apply list_elem_of_here | apply list_elem_of_further].

(** Opens the first word of the packed checksum of kind [t]. *)
Ltac crc_word t :=
  let HF := fresh "HF" in let Ht := fresh "Ht" in let Hr := fresh "Hr" in let Hf := fresh "Hf" in
  match goal with |- context [crc_fields ?t0 ?F] => change t0 with t end;
  match goal with |- context [crc_fields t ?F] =>
    assert (fields_from (t + 1) F) as HF by (cbn [fields_from]; lia);
    eexists; split; [reflexivity|]; destruct (crc_fields_ok t F [] ltac:(lia) HF) as (Hr & _ & Hf);
    split; [repeat apply Forall_cons_2; try assumption; apply Forall_nil_2|]; split; [reflexivity|]; intros rest;
    match goal with |- context [[crc_fields t F] ++ rest] => pose proof (crc_fields_ok t F rest ltac:(lia) HF) as (_ & Ht & _)
    | |- context [(crc_fields t F :: ?tl) ++ rest] => pose proof (crc_fields_ok t F (tl ++ rest) ltac:(lia) HF) as (_ & Ht & _) end;
    split; [exact Ht|]; unfold bch2_extent_crc_unpack; cbn [app] in Ht |- *; rewrite Ht; cbv zeta; cbn [Z.eqb Pos.eqb BCH_EXTENT_ENTRY_crc32 BCH_EXTENT_ENTRY_crc64 BCH_EXTENT_ENTRY_crc128];
    change (word (crc_fields t F :: _) 0) with (crc_fields t F) end.

Lemma crc_pack_ok crc t : crc_fits crc -> crc_entry_type crc = Some t ->
  exists ws, bch2_extent_crc_pack crc t = Some ws /\ Forall (in_range 64) ws /\ length ws = Z.to_nat (extent_entry_u64s_known t) /\
    forall rest, extent_entry_type (ws ++ rest) = t /\ bch2_extent_crc_unpack (live_size crc) (Some (ws ++ rest)) = Some crc.
Proof.
  destruct crc as [c u l ct cpt o nn [clo chi]]. unfold crc_fits, crc_entry_type. cbn [compressed_size uncompressed_size live_size csum_type compression_type crc_offset crc_nonce crc_csum lo hi].
  intros (Hc & Ho & Hct & Hcpt & Hnn & Hlo & Hhi & Hb) Et. unfold in_range in Hlo, Hhi. destruct (bch_crc_bytes !! Z.to_nat ct) as [bytes|]; [|done]. cbn [mbind option_bind] in Et.
  destruct Hb as [Hb1 Hb2]. unfold bch2_extent_crc_pack. cbn [compressed_size uncompressed_size live_size csum_type compression_type crc_offset crc_nonce crc_csum lo hi].
  rewrite (proj2 (assert_true _)) by lia. cbn [mbind option_bind].
  unfold CRC32_SIZE_MAX, CRC32_NONCE_MAX, CRC64_SIZE_MAX, CRC64_NONCE_MAX, CRC128_SIZE_MAX, CRC128_NONCE_MAX in Et.
  destruct ((bytes <=? 4) && (u <=? 2 ^ 7) && (nn <=? 0)) eqn:E1;
    [|destruct ((bytes <=? 10) && (u <=? 2 ^ 9) && (nn <=? 2 ^ 10 - 1)) eqn:E2; [|destruct ((bytes <=? 16) && (u <=? 2 ^ 13) && (nn <=? 2 ^ 13 - 1)) eqn:E3; [|done]]];
    injection Et as <-; cbv zeta.
  - change (BCH_EXTENT_ENTRY_crc32 =? BCH_EXTENT_ENTRY_crc32) with true. cbv iota. crc_word 1.
    rewrite (Hf 2 7 (c - 1)), (Hf 9 7 (u - 1)), (Hf 16 7 o), (Hf 24 4 ct), (Hf 28 4 cpt), (Hf 32 32 clo) by in_list.
    rewrite !Z.mod_small by lia. f_equal. f_equal; [lia..|f_equal; lia].
  - change (BCH_EXTENT_ENTRY_crc64 =? BCH_EXTENT_ENTRY_crc32) with false. change (BCH_EXTENT_ENTRY_crc64 =? BCH_EXTENT_ENTRY_crc64) with true.
    cbv iota. crc_word 2. change (word _ 1) with clo.
    rewrite (Hf 3 9 (c - 1)), (Hf 12 9 (u - 1)), (Hf 21 9 o), (Hf 30 10 nn), (Hf 40 4 ct), (Hf 44 4 cpt), (Hf 48 16 chi) by in_list.
    rewrite !Z.mod_small by lia. f_equal. f_equal; [lia..|f_equal; lia].
  - change (BCH_EXTENT_ENTRY_crc128 =? BCH_EXTENT_ENTRY_crc32) with false. change (BCH_EXTENT_ENTRY_crc128 =? BCH_EXTENT_ENTRY_crc64) with false.
    change (BCH_EXTENT_ENTRY_crc128 =? BCH_EXTENT_ENTRY_crc128) with true. cbv iota. crc_word 3. change (word _ 1) with clo. change (word _ 2) with chi.
    rewrite (Hf 4 13 (c - 1)), (Hf 17 13 (u - 1)), (Hf 30 13 o), (Hf 43 13 nn), (Hf 56 4 ct), (Hf 60 4 cpt) by in_list.
    rewrite !Z.mod_small by lia. f_equal. f_equal; [lia..|f_equal; lia].
Qed.

Lemma crc_cmp_refl crc : bch2_crc_unpacked_cmp crc crc = false.
Proof. unfold bch2_crc_unpacked_cmp. by rewrite !Z.eqb_refl, !Z.lxor_nilpotent. Qed.

Lemma crc_cmp_eq l r : bch2_crc_unpacked_cmp l r = false <-> l = r.
Proof.
  split; [|intros ->; apply crc_cmp_refl]. unfold bch2_crc_unpacked_cmp. rewrite !orb_false_iff, !negb_false_iff, !Z.eqb_eq.
  intros (((((((H1 & H2) & H3) & H4) & H5) & H6) & H7) & H8). apply Z.lor_eq_0_iff in H8 as [H8 H9].
  apply Z.lxor_eq in H8, H9. destruct l as [? ? ? ? ? ? ? []], r as [? ? ? ? ? ? ? []]. cbn in *. by subst.
Qed.

(** C: A checksum that is packed with the kind chosen for it (as appended to a
    key) fills exactly the words of that kind, and unpacks to itself, whatever
    follows it; two checksums compare as different exactly if they are. *)
Theorem crc_roundtrip crc t : crc_fits crc -> crc_entry_type crc = Some t ->
  exists ws, bch2_extent_crc_pack crc t = Some ws /\ Z.of_nat (length ws) = extent_entry_u64s_known t /\
    (forall rest, extent_entry_u64s (ws ++ rest) = Some (extent_entry_u64s_known t) /\
       bch2_extent_crc_unpack (live_size crc) (Some (ws ++ rest)) = Some crc) /\
    forall crc', bch2_crc_unpacked_cmp crc crc' = false <-> crc = crc'.
Proof.
  intros Hf Ht. destruct (crc_pack_ok crc t Hf Ht) as (ws & Hp & _ & Hl & Hr). exists ws. split; [done|].
  assert (t = 1 \/ t = 2 \/ t = 3) as Hcase.
  { unfold crc_entry_type in Ht. destruct (bch_crc_bytes !! _); [|done]. cbn [mbind option_bind] in Ht.
    repeat match type of Ht with (if ?b then _ else _) = _ => destruct b end; try done; injection Ht as <-; tauto. }
  assert (0 <= extent_entry_u64s_known t) by (destruct Hcase as [->|[->| ->]]; done). split; [lia|]. split; [|apply crc_cmp_eq].
  intros rest. destruct (Hr rest) as [H1 H2]. split; [|done]. unfold extent_entry_u64s. cbv zeta. rewrite H1.
  destruct Hcase as [->|[->| ->]]; done.
Qed.

Definition sample_crc : bch_extent_crc_unpacked := mk_crc 8 16 8 1 0 4 0 (mk_bch_csum 0xdeadbeef 0).

Lemma crc_roundtrip_witness : exists ws, bch2_extent_crc_pack sample_crc 1 = Some ws /\ bch2_extent_crc_unpack 8 (Some (ws ++ [])) = Some sample_crc.
Proof.
  destruct (crc_roundtrip sample_crc 1) as (ws & H1 & _ & H2 & _).
  - unfold crc_fits, in_range. change (bch_crc_bytes !! Z.to_nat (csum_type sample_crc)) with (Some 4). cbn [sample_crc compressed_size uncompressed_size crc_offset csum_type compression_type crc_nonce crc_csum lo hi]. lia.
  - reflexivity.
  - exists ws. split; [exact H1|]. apply H2.
Defined.
