(* ===== verification/ExtentKeys.v ===== *)
(** * Keys with pointers: reading, trimming, dropping ([btree/bset.rs])

    Walking the entries of a value, decoding its pointers with the checksums
    that cover them, questions about keys (replicas, compression, matching
    extents), trimming a key in front and behind, appending and dropping
    pointers.  A key is its header and the memory of its value; loops over
    entries have fuel, one more than the end of the value is enough. *)

From stdpp Require Import base tactics list option.
From Stdlib Require Import ZArith Lia.
From S2P Require Import Prelude Bpos BkeyPack BkeyOrder Extents.

Open Scope Z_scope.

Definition KEY_TYPE_deleted : Z := 0.
Definition KEY_TYPE_btree_ptr : Z := 5.
Definition KEY_TYPE_extent : Z := 6.
Definition KEY_TYPE_stripe : Z := 14.
Definition KEY_TYPE_reflink_p : Z := 15.
Definition KEY_TYPE_reflink_v : Z := 16.
Definition KEY_TYPE_inline_data : Z := 17.
Definition KEY_TYPE_btree_ptr_v2 : Z := 18.
Definition KEY_TYPE_indirect_inline_data : Z := 19.
Definition KEY_TYPE_error : Z := 2.
Definition BCH_SB_MEMBER_INVALID : Z := 255.
Definition BCH_REPLICAS_MAX : Z := 4.
Definition BKEY_EXTENT_PTR_U64S_MAX : Z := 4.
Definition BKEY_EXTENT_VAL_U64S_MAX : Z := 5 + BKEY_EXTENT_PTR_U64S_MAX * (BCH_REPLICAS_MAX * 2 + 1).

(** The header of a key, and the words of memory from its value on. *)
Record kv := mk_kv { kv_k : bkey; kv_v : list Z }.

Definition with_type (k : bkey) (t : Z) : bkey := mk_bkey (k_u64s k) (k_format k) t (k_version k) (k_size k) (k_p k).
Definition with_size (k : bkey) (s : Z) : bkey := mk_bkey (k_u64s k) (k_format k) (k_type k) (k_version k) s (k_p k).
Definition kv_with_u64s (k : bkey) (u : Z) : bkey := mk_bkey u (k_format k) (k_type k) (k_version k) (k_size k) (k_p k).
Definition with_offset (k : bkey) (o : Z) : bkey :=
  mk_bkey (k_u64s k) (k_format k) (k_type k) (k_version k) (k_size k) (SPOS (inode (k_p k)) o (snapshot (k_p k))).

(** The bytes [nr_blocks] of a stripe's header. *)
Definition stripe_nr_blocks (v : list Z) : Z := (word v 0 / 2 ^ 24) mod 2 ^ 8.

(** Where the entries of a value start and end; [None] for null pointers. *)
Definition bch2_bkey_ptrs_c (k : kv) : option (nat * nat) :=
  let t := k_type (kv_k k) in
  let end_ := Z.to_nat (bkey_val_u64s (kv_k k)) in
  if t =? KEY_TYPE_btree_ptr_v2 then Some (5%nat, end_)
  else if t =? KEY_TYPE_stripe then Some (1%nat, (1 + Z.to_nat (stripe_nr_blocks (kv_v k)))%nat)
  else if (t =? KEY_TYPE_btree_ptr) || (t =? KEY_TYPE_extent) || (t =? KEY_TYPE_reflink_v) then Some (0%nat, end_)
  else None.

(** ** Loops over entries *)

Section Loops.
Context {A : Type}.

(** [while entry < end { body; entry = extent_entry_next_safe(entry) }]; the
    body says whether to leave the loop. *)
Fixpoint each_entry (fuel : nat) (mem : A -> list Z) (body : nat -> A -> option (A * bool)) (entry end_ : nat) (a : A) : option A :=
  if (entry <? end_)%nat then
    match fuel with
    | O => None
    | S fuel =>
        '(a, stop) ← body entry a;
        if stop : bool then Some a else
        next ← extent_entry_next_safe (mem a) entry end_;
        each_entry fuel mem body next end_ a
    end
  else Some a.

(** The loop over the entries of [k]'s value. *)
Definition for_entries (k : kv) (body : nat -> A -> A * bool) (a : A) : option A :=
  match bch2_bkey_ptrs_c k with
  | Some (start, end_) => each_entry (S end_) (fun _ => kv_v k) (fun i a => Some (body i a)) start end_ a
  | None => Some a
  end.

End Loops.

Definition value_at (k : kv) (i : nat) : list Z := drop i (kv_v k).

(** *** Pointers with what comes before them *)

Record extent_ptr_decoded := mk_decoded { has_ec : bool; p_crc : bch_extent_crc_unpacked; p_ptr : Z; p_ec : Z }.

Definition set_crc (d : extent_ptr_decoded) (crc : bch_extent_crc_unpacked) : extent_ptr_decoded := mk_decoded (has_ec d) crc (p_ptr d) (p_ec d).

(** The inner loop: the next pointer, with the checksum and the stripe in front
    of it.  Returns where the pointer is, if one is left. *)
Fixpoint decode_next (fuel : nat) (k : kv) (entry end_ : nat) (d : extent_ptr_decoded) : option (option nat * extent_ptr_decoded) :=
  if (entry <? end_)%nat then
    match fuel with
    | O => None
    | S fuel =>
        let e := value_at k entry in
        if extent_entry_is_ptr e then Some (Some entry, mk_decoded (has_ec d) (p_crc d) (word e 0) (p_ec d))
        else
          d ← (if extent_entry_is_crc e then crc ← bch2_extent_crc_unpack (k_size (kv_k k)) (Some e); Some (set_crc d crc)
               else if extent_entry_is_stripe_ptr e then Some (mk_decoded true (p_crc d) (p_ptr d) (word e 0))
               else Some d);
          next ← extent_entry_next_safe (kv_v k) entry end_;
          decode_next fuel k next end_ d
    end
  else Some (None, d).

Section Decoded.
Context {A : Type}.

(** The outer loop over the decoded pointers of a value. *)
Fixpoint each_decoded (fuel : nat) (k : kv) (body : nat -> extent_ptr_decoded -> A -> A * bool) (entry end_ : nat)
    (crc : bch_extent_crc_unpacked) (a : A) : option A :=
  if (entry <? end_)%nat then
    match fuel with
    | O => None
    | S fuel =>
        '(found, d) ← decode_next (S end_) k entry end_ (mk_decoded false crc 0 0);
        match found with
        | None => Some a
        | Some entry =>
            let '(a, stop) := body entry d a in
            if stop then Some a else
            next ← extent_entry_next_safe (kv_v k) entry end_;
            each_decoded fuel k body next end_ (p_crc d) a
        end
    end
  else Some a.

Definition for_decoded (k : kv) (body : nat -> extent_ptr_decoded -> A -> A * bool) (a : A) : option A :=
  match bch2_bkey_ptrs_c k with
  | Some (start, end_) => each_decoded (S end_) k body start end_ (crc_none (k_size (kv_k k))) a
  | None => Some a
  end.

End Decoded.

(** ** Questions *)

Definition bch2_bkey_extent_ptrs_flags (k : kv) (ptrs : option (nat * nat)) : Z :=
  match ptrs with
  | Some (start, end_) =>
      if negb (start =? end_)%nat && (extent_entry_type (value_at k start) =? 6) then Z.shiftr (word (value_at k start) 0) 7 else 0
  | None => 0
  end.

Definition bch2_bkey_extent_flags (k : kv) : Z := bch2_bkey_extent_ptrs_flags k (bch2_bkey_ptrs_c k).

(** The word of the first pointer to [dev]. *)
Definition bch2_bkey_has_device_c (k : kv) (dev : Z) : option (option nat) :=
  for_entries k (fun i r =>
    if extent_entry_is_ptr (value_at k i) && (BCH_EXTENT_PTR_DEV (word (value_at k i) 0) =? dev) then (Some i, true) else (r, false)) None.

Definition bch2_bkey_has_device_decode (k : kv) (dev : Z) : option (option extent_ptr_decoded) :=
  for_decoded k (fun _ d r => if BCH_EXTENT_PTR_DEV (p_ptr d) =? dev then (Some d, true) else (r, false)) None.

Definition bch2_bkey_dev_ptr_bit (k : kv) (dev : Z) : option Z :=
  '(_, r) ← for_entries k (fun i '(ptr_bit, r) =>
    if extent_entry_is_ptr (value_at k i) then
      if BCH_EXTENT_PTR_DEV (word (value_at k i) 0) =? dev then ((ptr_bit, ptr_bit), true) else ((Z.shiftl ptr_bit 1 mod 2 ^ 32, r), false)
    else ((ptr_bit, r), false)) (1, 0);
  Some r.

Definition p1_disk_offset (k : kv) (p : extent_ptr_decoded) : Z :=
  BCH_EXTENT_PTR_OFFSET (p_ptr p) + crc_offset (p_crc p) - bkey_start_offset (kv_k k).

Definition bch2_bkey_ptrs_match (k1 : kv) (p1 : extent_ptr_decoded) (k2 : kv) (p2 : extent_ptr_decoded) : bool :=
  let ec_idx p := get_bits 17 47 (p_ec p) in
  let ec_block p := get_bits 5 8 (p_ec p) in
  let off p := BCH_EXTENT_PTR_OFFSET (p_ptr p) in
  let same_device_or_ec := (BCH_EXTENT_PTR_DEV (p_ptr p1) =? BCH_EXTENT_PTR_DEV (p_ptr p2)) ||
    (has_ec p1 && has_ec p2 && (ec_idx p1 =? ec_idx p2) && (ec_block p1 =? ec_block p2)) in
  if negb same_device_or_ec || negb (BCH_EXTENT_PTR_GEN (p_ptr p1) =? BCH_EXTENT_PTR_GEN (p_ptr p2)) then false
  else if negb (p1_disk_offset k1 p1 =? p1_disk_offset k2 p2) then false
  else ((off p2 <=? off p1) && (off p1 <? off p2 + compressed_size (p_crc p2))) ||
       ((off p1 <=? off p2) && (off p2 <? off p1 + compressed_size (p_crc p1))).

Definition bkey_extent_is_direct_data (k : bkey) : bool :=
  (k_type k =? KEY_TYPE_btree_ptr) || (k_type k =? KEY_TYPE_btree_ptr_v2) || (k_type k =? KEY_TYPE_extent) || (k_type k =? KEY_TYPE_reflink_v).

Definition bkey_extent_is_unwritten (k : kv) : option bool :=
  for_entries k (fun i r => if extent_entry_is_ptr (value_at k i) && negb (BCH_EXTENT_PTR_UNWRITTEN (word (value_at k i) 0) =? 0) then (true, true) else (r, false)) false.

(** Does a pointer of one agree with a pointer of the other?  [None] of the
    inner loop is a panic or no fuel. *)
Definition bch2_extents_match (k1 k2 : kv) : option bool :=
  if negb (k_type (kv_k k1) =? k_type (kv_k k2)) then Some false
  else if bkey_extent_is_direct_data (kv_k k1) then
    u1 ← bkey_extent_is_unwritten k1;
    u2 ← bkey_extent_is_unwritten k2;
    if negb (eqb u1 u2) then Some false else
    r ← for_decoded k1 (fun _ p1 _ =>
      let r := for_decoded k2 (fun _ p2 r => if bch2_bkey_ptrs_match k1 p1 k2 p2 then (true, true) else (r, false)) false in
      (r, match r with Some b => b | None => true end)) (Some false);
    r
  else Some true.

(** The pointer of [k2] to where [p1] of [k1] points. *)
Definition bch2_extent_has_ptr (k1 : kv) (p1 : extent_ptr_decoded) (k2 : kv) : option (option nat) :=
  for_decoded k2 (fun i p2 r =>
    if (BCH_EXTENT_PTR_DEV (p_ptr p1) =? BCH_EXTENT_PTR_DEV (p_ptr p2)) && (BCH_EXTENT_PTR_GEN (p_ptr p1) =? BCH_EXTENT_PTR_GEN (p_ptr p2)) &&
       (p1_disk_offset k1 p1 =? p1_disk_offset k2 p2) then (Some i, true) else (r, false)) None.

Definition bch2_bkey_matches_ptr (k : kv) (m : Z) (offset : Z) : option bool :=
  for_decoded k (fun _ p r =>
    if (BCH_EXTENT_PTR_DEV (p_ptr p) =? BCH_EXTENT_PTR_DEV m) && (BCH_EXTENT_PTR_GEN (p_ptr p) =? BCH_EXTENT_PTR_GEN m) &&
       (p1_disk_offset k p =? BCH_EXTENT_PTR_OFFSET m - offset) then (true, true) else (r, false)) false.

Definition bch2_bkey_replicas (k : kv) : option Z :=
  for_decoded k (fun _ p replicas =>
    (if BCH_EXTENT_PTR_CACHED (p_ptr p) =? 0 then
       (if has_ec p then replicas + get_bits 13 4 (p_ec p) else replicas) + 1
     else replicas, false)) 0.

Definition bch2_bkey_can_read (k : kv) : option bool :=
  for_decoded k (fun _ p r =>
    if (BCH_EXTENT_PTR_CACHED (p_ptr p) =? 0) && (negb (BCH_EXTENT_PTR_DEV (p_ptr p) =? BCH_SB_MEMBER_INVALID) || has_ec p) then (true, true) else (r, false)) false.

(** The loops that look at the checksum in force: [crc] is that of the entries
    passed so far. *)
Definition crc_step (k : kv) (i : nat) (crc : bch_extent_crc_unpacked) : option bch_extent_crc_unpacked :=
  if extent_entry_is_crc (value_at k i) then bch2_extent_crc_unpack (k_size (kv_k k)) (Some (value_at k i)) else Some crc.

Definition for_entries_crc {A} (k : kv) (body : nat -> bch_extent_crc_unpacked -> A -> A) (a : A) : option A :=
  match bch2_bkey_ptrs_c k with
  | Some (start, end_) =>
      '(_, a) ← each_entry (S end_) (fun _ => kv_v k)
        (fun i '(crc, a) => crc ← crc_step k i crc; Some ((crc, if extent_entry_is_ptr (value_at k i) then body i crc a else a), false))
        start end_ (crc_none (k_size (kv_k k)), a);
      Some a
  | None => Some a
  end.

Definition ptr_dirty (k : kv) (i : nat) : bool := BCH_EXTENT_PTR_CACHED (word (value_at k i) 0) =? 0.

Definition bch2_bkey_sectors_compressed (k : kv) : option Z :=
  for_entries_crc k (fun i crc ret => if ptr_dirty k i && crc_is_compressed crc then wadd 32 ret (compressed_size crc) else ret) 0.

Definition bch2_bkey_nr_dirty_ptrs (k : kv) : option Z :=
  for_entries k (fun i ret =>
    (if extent_entry_is_ptr (value_at k i) && ptr_dirty k i && negb (BCH_EXTENT_PTR_DEV (word (value_at k i) 0) =? BCH_SB_MEMBER_INVALID)
     then ret + 1 else ret, false)) 0.

(** The fifth byte of a reservation's value. *)
Definition reservation_nr_replicas (v : list Z) : Z := (word v 0 / 2 ^ 32) mod 2 ^ 8.

Definition bch2_bkey_nr_ptrs_allocated (k : kv) : option Z :=
  if k_type (kv_k k) =? KEY_TYPE_reservation then Some (reservation_nr_replicas (kv_v k))
  else for_entries k (fun i ret => (if extent_entry_is_ptr (value_at k i) && ptr_dirty k i then ret + 1 else ret, false)) 0.

Definition bch2_bkey_nr_ptrs_fully_allocated (k : kv) : option Z :=
  if k_type (kv_k k) =? KEY_TYPE_reservation then Some (reservation_nr_replicas (kv_v k))
  else for_entries_crc k (fun i crc ret => if ptr_dirty k i && negb (crc_is_compressed crc) then ret + 1 else ret) 0.

Definition bkey_extent_is_reservation (k : kv) : option bool :=
  if k_type (kv_k k) =? KEY_TYPE_reservation then Some true else bkey_extent_is_unwritten k.

Definition bch2_bkey_is_incompressible (k : kv) : option bool :=
  match bch2_bkey_ptrs_c k with
  | Some (start, end_) =>
      each_entry (S end_) (fun _ => kv_v k) (fun i r =>
        if extent_entry_is_crc (value_at k i) then
          crc ← bch2_extent_crc_unpack (k_size (kv_k k)) (Some (value_at k i));
          Some (if compression_type crc =? BCH_COMPRESSION_TYPE_incompressible then (true, true) else (r, false))
        else Some (r, false)) start end_ false
  | None => Some false
  end.

(** *** Kinds of keys *)

Definition bch2_extent_ptr_eq (ptr1 ptr2 : Z) : bool :=
  (BCH_EXTENT_PTR_CACHED ptr1 =? BCH_EXTENT_PTR_CACHED ptr2) && (BCH_EXTENT_PTR_UNWRITTEN ptr1 =? BCH_EXTENT_PTR_UNWRITTEN ptr2) &&
  (BCH_EXTENT_PTR_OFFSET ptr1 =? BCH_EXTENT_PTR_OFFSET ptr2) && (BCH_EXTENT_PTR_DEV ptr1 =? BCH_EXTENT_PTR_DEV ptr2) &&
  (BCH_EXTENT_PTR_GEN ptr1 =? BCH_EXTENT_PTR_GEN ptr2).

Inductive bch_extent_overlap := BCH_EXTENT_OVERLAP_ALL | BCH_EXTENT_OVERLAP_BACK | BCH_EXTENT_OVERLAP_FRONT | BCH_EXTENT_OVERLAP_MIDDLE.

(** Which part of [m] does [k] cover? *)
Definition bch2_extent_overlap (k m : bkey) : bch_extent_overlap :=
  match bpos_lt (k_p k) (k_p m), bpos_gt (bkey_start_pos k) (bkey_start_pos m) with
  | false, false => BCH_EXTENT_OVERLAP_ALL
  | false, true => BCH_EXTENT_OVERLAP_BACK
  | true, false => BCH_EXTENT_OVERLAP_FRONT
  | true, true => BCH_EXTENT_OVERLAP_MIDDLE
  end.

Definition bkey_is_btree_ptr (k : bkey) : bool := (k_type k =? KEY_TYPE_btree_ptr) || (k_type k =? KEY_TYPE_btree_ptr_v2).
Definition bkey_is_user_data (k : bkey) : bool :=
  (k_type k =? KEY_TYPE_extent) || (k_type k =? KEY_TYPE_inline_data) || (k_type k =? KEY_TYPE_reservation).
Definition bkey_extent_is_inline_data (k : bkey) : bool := (k_type k =? KEY_TYPE_inline_data) || (k_type k =? KEY_TYPE_indirect_inline_data).

Definition bkey_inline_data_offset (k : bkey) : option Z :=
  if k_type k =? KEY_TYPE_inline_data then Some 0 else if k_type k =? KEY_TYPE_indirect_inline_data then Some 8 else None.
Definition bkey_inline_data_bytes (k : bkey) : option Z := o ← bkey_inline_data_offset k; usub (bkey_val_bytes k) o.

Definition bkey_extent_is_data (k : bkey) : bool :=
  bkey_extent_is_direct_data k || bkey_extent_is_inline_data k || (k_type k =? KEY_TYPE_reflink_p).

Definition bkey_extent_is_allocation (k : bkey) : bool :=
  (k_type k =? KEY_TYPE_extent) || (k_type k =? KEY_TYPE_reservation) || (k_type k =? KEY_TYPE_reflink_p) || (k_type k =? KEY_TYPE_reflink_v) ||
  (k_type k =? KEY_TYPE_inline_data) || (k_type k =? KEY_TYPE_indirect_inline_data) || (k_type k =? KEY_TYPE_error).

(** *** Lists of devices *)

Definition BCH_BKEY_PTRS_MAX : nat := 16.

(** [data] has [BCH_BKEY_PTRS_MAX] bytes, the first [nr] are in use. *)
Record bch_devs_list := mk_devs { devs_nr : nat; devs_data : list Z }.
Definition devs_default : bch_devs_list := mk_devs 0 (replicate BCH_BKEY_PTRS_MAX 0).

Fixpoint dev_index (data : list Z) (nr : nat) (i : nat) (dev : Z) : option nat :=
  match nr with
  | O => None
  | S nr => if nth i data 0 =? dev then Some i else dev_index data nr (S i) dev
  end.

Definition bch2_dev_list_has_dev (devs : bch_devs_list) (dev : Z) : bool :=
  match dev_index (devs_data devs) (devs_nr devs) 0 dev with Some _ => true | None => false end.

(** [data[j - 1] = data[j]] for [j] from [i + 1] to [nr - 1]. *)
Fixpoint shift_down (data : list Z) (n j : nat) : list Z :=
  match n with
  | O => data
  | S n => shift_down (<[(j - 1)%nat := nth j data 0]> data) n (S j)
  end.

Definition bch2_dev_list_drop_dev (devs : bch_devs_list) (dev : Z) : bch_devs_list :=
  match dev_index (devs_data devs) (devs_nr devs) 0 dev with
  | Some i => mk_devs (devs_nr devs - 1) (shift_down (devs_data devs) (devs_nr devs - S i) (S i))
  | None => devs
  end.

Definition bch2_dev_list_add_dev (devs : bch_devs_list) (dev : Z) : option bch_devs_list :=
  if bch2_dev_list_has_dev devs dev then Some devs else
  _ ← assert (devs_nr devs <? length (devs_data devs))%nat;
  Some (mk_devs (S (devs_nr devs)) (<[devs_nr devs := dev]> (devs_data devs))).

Definition bch2_dev_list_single (dev : Z) : bch_devs_list := mk_devs 1 (<[0%nat := dev]> (replicate BCH_BKEY_PTRS_MAX 0)).

(** The index out of [data] panics. *)
Definition bch2_bkey_devs (k : kv) : option bch_devs_list :=
  match bch2_bkey_ptrs_c k with
  | Some (start, end_) =>
      each_entry (S end_) (fun _ => kv_v k) (fun i ret =>
        let dev := BCH_EXTENT_PTR_DEV (word (value_at k i) 0) in
        if extent_entry_is_ptr (value_at k i) && negb (dev =? BCH_SB_MEMBER_INVALID) then
          _ ← assert (devs_nr ret <? length (devs_data ret))%nat;
          Some (mk_devs (S (devs_nr ret)) (<[devs_nr ret := dev]> (devs_data ret)), false)
        else Some (ret, false)) start end_ devs_default
  | None => Some devs_default
  end.

(** The bits of the devices, by words. *)
Fixpoint count_ones_pos (p : positive) : Z :=
  match p with xH => 1 | xO p => count_ones_pos p | xI p => 1 + count_ones_pos p end.
Definition count_ones (x : Z) : Z := match x with Zpos p => count_ones_pos p | _ => 0 end.
Definition dev_mask_nr (d : list Z) : Z := fold_left (fun ret w => ret + count_ones w) d 0.
Definition bch2_dev_idx_is_online (devs_online : list Z) (dev : Z) : option bool :=
  w ← devs_online !! Z.to_nat (dev / 64);
  Some (negb (Z.land w (Z.shiftl 1 (dev mod 64)) =? 0)).

(** ** Changing values *)

(** [copy(src, dst, n)] within the memory.  Writing behind the memory is
    undefined; there it is [None]. *)
Definition move_entries (v : list Z) (src dst n : nat) : list Z := take dst v ++ take n (drop src v) ++ drop (dst + n) v.
Definition write_at (v : list Z) (i : nat) (ws : list Z) : list Z := take i v ++ ws ++ drop (i + length ws) v.

Definition value_end (k : kv) : nat := Z.to_nat (bkey_val_u64s (kv_k k)).

Definition __extent_entry_insert (k : kv) (dst : nat) (new : list Z) : option kv :=
  u ← extent_entry_u64s new;
  let n := Z.to_nat u in
  _ ← assert ((dst <=? value_end k) && (value_end k + n <=? length (kv_v k)))%nat;
  let v := move_entries (kv_v k) dst (dst + n) (value_end k - dst) in
  Some (mk_kv (kv_with_u64s (kv_k k) (wadd 8 (k_u64s (kv_k k)) u)) (write_at v dst (take n new))).

(** The end is that of the key's value. *)
Definition extent_entry_drop (k : kv) (entry : nat) : option kv :=
  next ← extent_entry_next (kv_v k) entry;
  _ ← assert (negb (k_type (kv_k k) =? KEY_TYPE_stripe));
  _ ← assert (next <=? value_end k)%nat;
  Some (mk_kv (kv_with_u64s (kv_k k) (wsub 8 (k_u64s (kv_k k)) (Z.of_nat (next - entry)))) (move_entries (kv_v k) next entry (value_end k - next))).

Definition bch2_bkey_extent_entry_drop_s (k : kv) (entry : nat) : option kv :=
  next ← extent_entry_next (kv_v k) entry;
  _ ← assert (next <=? value_end k)%nat;
  let v := move_entries (kv_v k) next entry (value_end k - next) in
  u ← extent_entry_u64s (drop entry v);
  Some (mk_kv (kv_with_u64s (kv_k k) (wsub 8 (k_u64s (kv_k k)) u)) v).

Definition bch2_bkey_extent_entry_drop (k : kv) (entry : nat) : option kv := bch2_bkey_extent_entry_drop_s k entry.

Definition bch2_extent_crc_append (k : kv) (new : bch_extent_crc_unpacked) : option kv :=
  '(_, end_) ← bch2_bkey_ptrs_c k;
  type_ ← crc_entry_type new;
  ws ← bch2_extent_crc_pack new type_;
  _ ← assert (end_ + length ws <=? length (kv_v k))%nat;
  let v := write_at (kv_v k) end_ ws in
  u ← extent_entry_u64s (drop end_ v);
  let h := kv_with_u64s (kv_k k) (wadd 8 (k_u64s (kv_k k)) u) in
  _ ← assert (bkey_val_u64s h <=? BKEY_EXTENT_VAL_U64S_MAX);
  Some (mk_kv h v).

Definition bkey_find_crc (k : kv) (crc : bch_extent_crc_unpacked) : option (option nat) :=
  match bch2_bkey_ptrs_c k with
  | Some (start, end_) =>
      each_entry (S end_) (fun _ => kv_v k) (fun i r =>
        if extent_entry_is_crc (value_at k i) then
          c ← bch2_extent_crc_unpack (k_size (kv_k k)) (Some (value_at k i));
          Some (if negb (bch2_crc_unpacked_cmp crc c) then (Some i, true) else (r, false))
        else Some (r, false)) start end_ None
  | None => Some None
  end.

Definition set_word (k : kv) (i : nat) (w : Z) : kv := mk_kv (kv_k k) (<[i := w]> (kv_v k)).

Definition bch2_bkey_narrow_crc (k : kv) (old new : bch_extent_crc_unpacked) : option (kv * bool) :=
  _ ← assert (negb (crc_is_compressed new) && (crc_offset new =? 0) && (uncompressed_size new =? live_size new));
  old_e ← bkey_find_crc k old;
  match old_e with
  | None => Some (k, false)
  | Some old_e =>
      '(_, end_) ← bch2_bkey_ptrs_c k;
      entry ← extent_entry_next (kv_v k) old_e;
      k ← each_entry (S end_) kv_v (fun i k =>
        let e := value_at k i in
        Some (if extent_entry_is_crc e then (k, true)
              else if extent_entry_is_ptr e then
                (set_word k i (SET_BCH_EXTENT_PTR_OFFSET (word e 0) (BCH_EXTENT_PTR_OFFSET (word e 0) + crc_offset old)), false)
              else (k, false))) entry end_ k;
      ws ← bch2_extent_crc_pack new (extent_entry_type (value_at k old_e));
      Some (mk_kv (kv_k k) (write_at (kv_v k) old_e ws), true)
  end.

(** [p]'s words are inserted, the stripe in front of the pointer.  The word of
    the stripe is set to its kind alone. *)
Definition bch2_extent_ptr_decoded_append (k : kv) (p : extent_ptr_decoded) : option kv :=
  '(k, pos) ← (if negb (bch2_crc_unpacked_cmp (crc_none (k_size (kv_k k))) (p_crc p)) then
                 '(start, _) ← bch2_bkey_ptrs_c k; Some (k, start)
               else
                 found ← bkey_find_crc k (p_crc p);
                 match found with
                 | Some pos => pos ← extent_entry_next (kv_v k) pos; Some (k, pos)
                 | None => k ← bch2_extent_crc_append k (p_crc p); Some (k, value_end k)
                 end);
  k ← __extent_entry_insert k pos [SET_BCH_EXTENT_PTR_TYPE (p_ptr p) (Z.shiftl 1 BCH_EXTENT_ENTRY_ptr)];
  if has_ec p then __extent_entry_insert k pos [Z.shiftl 1 BCH_EXTENT_ENTRY_stripe_ptr] else Some k.

(** Walks from [i] to the entry in front of [entry]. *)
Fixpoint prev_from (fuel : nat) (v : list Z) (i entry : nat) : option nat :=
  match fuel with
  | O => None
  | S fuel => next ← extent_entry_next v i; if (next =? entry)%nat then Some i else prev_from fuel v next entry
  end.

Definition extent_entry_prev (v : list Z) (start entry : nat) : option (option nat) :=
  if (start =? entry)%nat then Some None else i ← prev_from (S entry) v start entry; Some (Some i).

(** Does the checksum in front cover no pointer behind [next] any more? *)
Fixpoint drop_crc_after (fuel : nat) (v : list Z) (next end_ : nat) : option bool :=
  if (next =? end_)%nat then Some true else
  match fuel with
  | O => None
  | S fuel =>
      if extent_entry_is_crc (drop next v) then Some true
      else if extent_entry_is_ptr (drop next v) then Some false
      else next ← extent_entry_next v next; drop_crc_after fuel v next end_
  end.

(** Backwards to the pointer before: the stripe, and the checksum if it is not
    needed. *)
Fixpoint drop_before (fuel : nat) (k : kv) (start entry : nat) (drop_crc : bool) : option kv :=
  match fuel with
  | O => None
  | S fuel =>
      prev ← extent_entry_prev (kv_v k) start entry;
      match prev with
      | None => Some k
      | Some entry =>
          let e := value_at k entry in
          if extent_entry_is_ptr e then Some k else
          k ← (if (extent_entry_is_crc e && drop_crc) || extent_entry_is_stripe_ptr e then extent_entry_drop k entry else Some k);
          drop_before fuel k start entry drop_crc
      end
  end.

Definition bch2_bkey_drop_ptr_noerror (k : kv) (ptr : nat) : option kv :=
  if k_type (kv_k k) =? KEY_TYPE_stripe then Some (set_word k ptr (SET_BCH_EXTENT_PTR_DEV (word (value_at k ptr) 0) BCH_SB_MEMBER_INVALID))
  else
    '(start, end_) ← bch2_bkey_ptrs_c k;
    _ ← assert ((start <=? ptr)%nat && (ptr <? end_)%nat);
    _ ← assert (BCH_EXTENT_PTR_TYPE (word (value_at k ptr) 0) =? 1);
    next ← extent_entry_next (kv_v k) ptr;
    drop_crc ← drop_crc_after (S end_) (kv_v k) next end_;
    k ← extent_entry_drop k ptr;
    drop_before (S end_) k start ptr drop_crc.

Definition bch2_bkey_drop_ptr (k : kv) (ptr : nat) : option kv :=
  ec ← (if k_type (kv_k k) =? KEY_TYPE_stripe then Some false
        else d ← bch2_bkey_has_device_decode k (BCH_EXTENT_PTR_DEV (word (value_at k ptr) 0));
             Some (match d with Some d => has_ec d | None => false end));
  if ec : bool then Some (set_word k ptr (SET_BCH_EXTENT_PTR_DEV (word (value_at k ptr) 0) BCH_SB_MEMBER_INVALID))
  else bch2_bkey_drop_ptr_noerror k ptr.

(** The words of the pointers of a value, in order. *)
Definition ptr_at (k : kv) (index : nat) : option (option nat) :=
  '(_, r) ← for_entries k (fun i '(n, r) =>
    if extent_entry_is_ptr (value_at k i) then if (n =? index)%nat then ((n, Some i), true) else ((S n, r), false) else ((n, r), false)) (0%nat, None);
  Some r.

(** The highest bit first; every round clears one. *)
Fixpoint drop_ptrs_mask (fuel : nat) (k : kv) (ptrs : Z) : option kv :=
  if ptrs =? 0 then Some k else
  match fuel with
  | O => None
  | S fuel =>
      let bit := 31 - leading_zeros 32 ptrs in
      found ← ptr_at k (Z.to_nat bit);
      k ← (match found with Some i => bch2_bkey_drop_ptr_noerror k i | None => Some k end);
      drop_ptrs_mask fuel k (Z.lxor ptrs (Z.shiftl 1 bit))
  end.
Definition bch2_bkey_drop_ptrs_mask (k : kv) (ptrs : Z) : option kv := drop_ptrs_mask 32 k ptrs.

Fixpoint drop_device (fuel : nat) (drop_one : kv -> nat -> option kv) (k : kv) (dev : Z) : option kv :=
  match fuel with
  | O => None
  | S fuel =>
      found ← bch2_bkey_has_device_c k dev;
      match found with
      | Some i => k ← drop_one k i; drop_device fuel drop_one k dev
      | None => Some k
      end
  end.

(** One round for every word of the value is enough. *)
Definition bch2_bkey_drop_device_noerror (k : kv) (dev : Z) : option kv := drop_device (S (value_end k)) bch2_bkey_drop_ptr_noerror k dev.
Definition bch2_bkey_drop_device (k : kv) (dev : Z) : option kv := drop_device (S (value_end k)) bch2_bkey_drop_ptr k dev.

(** Drops the stripe in front of the pointer to [dev]. *)
Definition bch2_bkey_drop_ec (k : kv) (dev : Z) : option kv :=
  '(_, k) ← for_entries k (fun i '(ec, r) =>
    let e := value_at k i in
    if extent_entry_is_stripe_ptr e then ((Some i, r), false)
    else if extent_entry_is_ptr e && (BCH_EXTENT_PTR_DEV (word e 0) =? dev) then
      ((ec, match ec with Some ec => bch2_bkey_extent_entry_drop k ec | None => r end), true)
    else ((ec, r), false)) (None, Some k);
  k.

(** The first pointer whose bit is in [mask], with its bit. *)
Definition first_masked (k : kv) (mask : Z) : option (option (nat * Z)) :=
  '(_, r) ← for_entries k (fun i '(ptr_bit, r) =>
    if extent_entry_is_ptr (value_at k i) then
      if negb (Z.land mask ptr_bit =? 0) then ((ptr_bit, Some (i, ptr_bit)), true) else ((Z.shiftl ptr_bit 1 mod 2 ^ 32, r), false)
    else ((ptr_bit, r), false)) (1, None);
  Some r.

(** A bit without a pointer is never cleared. *)
Fixpoint bch2_bkey_drop_ec_mask (fuel : nat) (k : kv) (mask : Z) : option kv :=
  if mask =? 0 then Some k else
  match fuel with
  | O => None
  | S fuel =>
      found ← first_masked k mask;
      match found with
      | Some (i, ptr_bit) =>
          k ← bch2_bkey_drop_ec k (BCH_EXTENT_PTR_DEV (word (value_at k i) 0));
          bch2_bkey_drop_ec_mask fuel k (Z.ldiff mask ptr_bit)
      | None => bch2_bkey_drop_ec_mask fuel k mask
      end
  end.

Definition bch2_bkey_propagate_incompressible (dst src : kv) : option kv :=
  incompressible ← bch2_bkey_is_incompressible src;
  if negb incompressible then Some dst else
  match bch2_bkey_ptrs_c dst with
  | None => Some dst
  | Some (start, end_) =>
      each_entry (S end_) kv_v (fun i k =>
        if extent_entry_is_crc (value_at k i) then
          crc ← bch2_extent_crc_unpack (k_size (kv_k k)) (Some (value_at k i));
          if compression_type crc =? BCH_COMPRESSION_TYPE_none then
            ws ← bch2_extent_crc_pack (mk_crc (compressed_size crc) (uncompressed_size crc) (live_size crc) (csum_type crc)
                   BCH_COMPRESSION_TYPE_incompressible (crc_offset crc) (crc_nonce crc) (crc_csum crc)) (extent_entry_type (value_at k i));
            Some (mk_kv (kv_k k) (write_at (kv_v k) i ws), false)
          else Some (k, false)
        else Some (k, false)) start end_ dst
  end.

Definition bch2_bkey_append_ptr (k : kv) (ptr : Z) : option kv :=
  _ ← assert (k_type (kv_k k) =? KEY_TYPE_btree_ptr_v2);
  _ ← assert (value_end k <? length (kv_v k))%nat;
  u ← uadd 8 (k_u64s (kv_k k)) 1;
  Some (mk_kv (kv_with_u64s (kv_k k) u) (<[value_end k := SET_BCH_EXTENT_PTR_TYPE ptr 1]> (kv_v k))).

(** *** Trimming *)

(** The offset of the checksum at [i] moves by [sub]. *)
Definition crc_advance (type_ w sub : Z) : Z :=
  if type_ =? BCH_EXTENT_ENTRY_crc32 then put_bits 16 7 w (wadd 32 (get_bits 16 7 w) (sub mod 2 ^ 32))
  else if type_ =? BCH_EXTENT_ENTRY_crc64 then put_bits 21 9 w (wadd 64 (get_bits 21 9 w) sub)
  else put_bits 30 13 w (wadd 64 (get_bits 30 13 w) sub).

(** The entries behind [entry]; a pointer moves itself unless a checksum came
    before it. *)
Fixpoint cut_front_entries (fuel : nat) (v : list Z) (entry end_ : nat) (seen_crc : bool) (sub : Z) : option (list Z) :=
  if (entry <? end_)%nat then
    match fuel with
    | O => None
    | S fuel =>
        let e := drop entry v in
        let w := word e 0 in
        let '(v, seen_crc) :=
          if extent_entry_is_ptr e then
            (if seen_crc then v else <[entry := SET_BCH_EXTENT_PTR_OFFSET w (wadd 64 (BCH_EXTENT_PTR_OFFSET w) sub)]> v, seen_crc)
          else if extent_entry_is_crc e then (<[entry := crc_advance (extent_entry_type e) w sub]> v, true)
          else (v, seen_crc) in
        let u64s := extent_entry_u64s_known (extent_entry_type (drop entry v) mod 2 ^ 8) in
        if u64s =? 0 then Some v else cut_front_entries fuel v (entry + Z.to_nat u64s) end_ seen_crc sub
    end
  else Some v.

(** Shrinks the value to [new_val_u64s] words and clears the words behind; the
    result is the change of size, negated. *)
Definition shrink_value (k : kv) (new_val_u64s : Z) : option (kv * Z) :=
  delta ← usub (bkey_val_u64s (kv_k k)) new_val_u64s;
  h ← set_bkey_val_u64s (kv_k k) new_val_u64s;
  let v := if delta =? 0 then kv_v k else write_at (kv_v k) (Z.to_nat new_val_u64s) (replicate (Z.to_nat delta) 0) in
  Some (mk_kv h v, - delta).

Definition bch2_cut_front_s (where_ : bpos) (k : kv) : option (kv * Z) :=
  let start := bkey_start_pos (kv_k k) in
  if bpos_le where_ start then Some (k, 0) else
  _ ← assert (negb (bpos_gt where_ (k_p (kv_k k))));
  sub ← usub (offset where_) (offset start);
  size ← usub (k_size (kv_k k)) (sub mod 2 ^ 32);
  let new_val_u64s := if size =? 0 then 0 else bkey_val_u64s (kv_k k) in
  let h := if size =? 0 then with_type (with_size (kv_k k) size) KEY_TYPE_deleted else with_size (kv_k k) size in
  v ← (if (k_type h =? KEY_TYPE_extent) || (k_type h =? KEY_TYPE_reflink_v) then
         '(start, end_) ← bch2_bkey_ptrs_c (mk_kv h (kv_v k));
         cut_front_entries (S end_) (kv_v k) start end_ false sub
       else Some (kv_v k));
  shrink_value (mk_kv h v) new_val_u64s.

Definition bch2_cut_back_s (where_ : bpos) (k : kv) : option (kv * Z) :=
  if bpos_ge where_ (k_p (kv_k k)) then Some (k, 0) else
  _ ← assert (bpos_ge where_ (bkey_start_pos (kv_k k)));
  len ← usub (offset where_) (offset (bkey_start_pos (kv_k k)));
  let new_val_u64s := if len =? 0 then 0 else bkey_val_u64s (kv_k k) in
  let h := with_size (with_offset (kv_k k) (offset where_)) (len mod 2 ^ 32) in
  shrink_value (mk_kv (if len =? 0 then with_type h KEY_TYPE_deleted else h) (kv_v k)) new_val_u64s.

Definition bch2_cut_front (where_ : bpos) (k : kv) : option kv := '(k, _) ← bch2_cut_front_s where_ k; Some k.
Definition bch2_cut_back (where_ : bpos) (k : kv) : option kv := '(k, _) ← bch2_cut_back_s where_ k; Some k.

(** ** Values as rows of entries *)

(** One entry: its words, as many as its kind says. *)
Definition entry_ok (e : list Z) : Prop :=
  extent_entry_type e < BCH_EXTENT_ENTRY_MAX /\ length e = Z.to_nat (extent_entry_u64s_known (extent_entry_type e)) /\ Forall (in_range 64) e.

(** [k]'s value is [start] words and then the entries [es]. *)
Record holds (k : kv) (start : nat) (pre : list Z) (es : list (list Z)) (post : list Z) : Prop := {
  h_ptrs : bch2_bkey_ptrs_c k = Some (start, value_end k);
  h_mem : kv_v k = pre ++ concat es ++ post;
  h_start : length pre = start;
  h_u64s : k_u64s (kv_k k) = BKEY_U64S + Z.of_nat (start + length (concat es));
  h_fits : k_u64s (kv_k k) <= MAX 8;
  h_entries : Forall entry_ok es
}.

Lemma type_nonneg e : 0 <= extent_entry_type e.
Proof.
  unfold extent_entry_type. cbv zeta. destruct (word e 0 =? 0); [done|]. unfold trailing_zeros.
  destruct (word e 0) as [|p|p]; try done. induction p; cbn; lia.
Qed.

Lemma known_pos t : 0 <= t < BCH_EXTENT_ENTRY_MAX -> 0 < extent_entry_u64s_known t.
Proof.
  intros Ht. unfold extent_entry_u64s_known. destruct (t =? BCH_EXTENT_ENTRY_crc64); [lia|].
  destruct (t =? BCH_EXTENT_ENTRY_crc128); [lia|]. rewrite (proj2 (Z.leb_le 0 t)), (proj2 (Z.ltb_lt t _)) by lia. cbn [andb]. lia.
Qed.

Lemma entry_len e : entry_ok e -> (0 < length e)%nat.
Proof. intros (Ht & -> & _). pose proof (known_pos _ (conj (type_nonneg e) Ht)). lia. Qed.

Lemma word_app e rest i : (i < length e)%nat -> word (e ++ rest) i = word e i.
Proof. intros H. unfold word. by rewrite app_nth1. Qed.

Lemma type_app e rest : entry_ok e -> extent_entry_type (e ++ rest) = extent_entry_type e.
Proof. intros H. pose proof (entry_len _ H). unfold extent_entry_type. by rewrite word_app. Qed.

Lemma is_ptr_app e rest : entry_ok e -> extent_entry_is_ptr (e ++ rest) = extent_entry_is_ptr e.
Proof. intros H. unfold extent_entry_is_ptr. by rewrite type_app. Qed.
Lemma is_stripe_app e rest : entry_ok e -> extent_entry_is_stripe_ptr (e ++ rest) = extent_entry_is_stripe_ptr e.
Proof. intros H. unfold extent_entry_is_stripe_ptr. by rewrite type_app. Qed.
Lemma is_crc_app e rest : entry_ok e -> extent_entry_is_crc (e ++ rest) = extent_entry_is_crc e.
Proof. intros H. unfold extent_entry_is_crc. by rewrite type_app. Qed.

Lemma u64s_ok e rest : entry_ok e -> extent_entry_u64s (e ++ rest) = Some (Z.of_nat (length e)).
Proof.
  intros H. unfold extent_entry_u64s. cbv zeta. rewrite type_app by done. destruct H as (Ht & El & _).
  rewrite (proj2 (assert_true _)) by (apply Z.ltb_lt, Ht). bind_simpl. rewrite El.
  pose proof (known_pos _ (conj (type_nonneg e) Ht)). f_equal. lia.
Qed.

Lemma next_ok v i e rest : drop i v = e ++ rest -> entry_ok e -> extent_entry_next v i = Some (i + length e)%nat.
Proof. intros Hd He. unfold extent_entry_next. rewrite Hd, u64s_ok by done. bind_simpl. by rewrite Nat2Z.id. Qed.

Lemma next_safe_ok v i e rest end_ : drop i v = e ++ rest -> entry_ok e -> extent_entry_next_safe v i end_ = Some (i + length e)%nat.
Proof.
  intros Hd He. unfold extent_entry_next_safe. rewrite Hd, type_app by done. rewrite (proj2 (Z.ltb_lt _ _)) by apply He.
  by apply (next_ok v i e rest).
Qed.

Lemma drop_pre {A} (pre rest : list A) i : length pre = i -> drop i (pre ++ rest) = rest.
Proof. intros <-. apply drop_app_length. Qed.

(** The checksum of an entry, whatever follows it. *)
Lemma unpack_app size e rest : entry_ok e -> extent_entry_is_crc e = true ->
  exists c, bch2_extent_crc_unpack size (Some (e ++ rest)) = Some c /\ bch2_extent_crc_unpack size (Some e) = Some c.
Proof.
  intros He Hc. pose proof He as (Ht & El & _). unfold bch2_extent_crc_unpack. cbv zeta. rewrite type_app by done.
  unfold extent_entry_is_crc in Hc. cbv zeta in Hc. pose proof (entry_len _ He). rewrite (word_app e rest 0) by lia.
  destruct (extent_entry_type e =? BCH_EXTENT_ENTRY_crc32) eqn:E1; [by eexists|].
  destruct (extent_entry_type e =? BCH_EXTENT_ENTRY_crc64) eqn:E2.
  { apply Z.eqb_eq in E2. rewrite E2 in El. change (length e = 2%nat) in El. rewrite (word_app e rest 1) by lia. by eexists. }
  destruct (extent_entry_type e =? BCH_EXTENT_ENTRY_crc128) eqn:E3; [|done].
  apply Z.eqb_eq in E3. rewrite E3 in El. change (length e = 3%nat) in El. rewrite (word_app e rest 1), (word_app e rest 2) by lia. by eexists.
Qed.

(** What the entry changes for the pointers behind it. *)
Definition dec_step (size : Z) (e : list Z) (d : extent_ptr_decoded) : extent_ptr_decoded :=
  if extent_entry_is_crc e then match bch2_extent_crc_unpack size (Some e) with Some crc => set_crc d crc | None => d end
  else if extent_entry_is_stripe_ptr e then mk_decoded true (p_crc d) (p_ptr d) (word e 0) else d.

Definition dec_ptr (e : list Z) (d : extent_ptr_decoded) : extent_ptr_decoded := mk_decoded (has_ec d) (p_crc d) (word e 0) (p_ec d).

Definition dec_init (crc : bch_extent_crc_unpacked) : extent_ptr_decoded := mk_decoded false crc 0 0.

(** The pointers of the entries [es] that start at word [i]. *)
Fixpoint decoded_at (size : Z) (i : nat) (d : extent_ptr_decoded) (es : list (list Z)) : list (nat * extent_ptr_decoded) :=
  match es with
  | [] => []
  | e :: es =>
      if extent_entry_is_ptr e then (i, dec_ptr e d) :: decoded_at size (i + length e) (dec_init (p_crc d)) es
      else decoded_at size (i + length e) (dec_step size e d) es
  end.

(** Up to the first pointer. *)
Fixpoint scan (size : Z) (i : nat) (d : extent_ptr_decoded) (es : list (list Z)) : option (nat * list Z * list (list Z)) * extent_ptr_decoded :=
  match es with
  | [] => (None, d)
  | e :: es => if extent_entry_is_ptr e then (Some (i, e, es), dec_ptr e d) else scan size (i + length e) (dec_step size e d) es
  end.

Lemma decoded_scan size es : forall i d, decoded_at size i d es =
  match scan size i d es with
  | (Some (j, e, rest), d') => (j, d') :: decoded_at size (j + length e) (dec_init (p_crc d')) rest
  | (None, _) => []
  end.
Proof. induction es as [|e es IH]; intros i d; cbn [decoded_at scan]; [done|]. destruct (extent_entry_is_ptr e); [done|apply IH]. Qed.

Lemma scan_split size es : forall i d j e rest d', scan size i d es = (Some (j, e, rest), d') ->
  exists a, es = a ++ e :: rest /\ (j = i + length (concat a))%nat /\ extent_entry_is_ptr e = true.
Proof.
  induction es as [|e0 es IH]; intros i d j e rest d' H; cbn [scan] in H; [done|]. destruct (extent_entry_is_ptr e0) eqn:E.
  - injection H as <- <- <- _. exists []. cbn. split; [done|]. split; [lia|done].
  - apply IH in H as (a & -> & -> & Hp). exists (e0 :: a). cbn. rewrite length_app. split; [done|]. split; [lia|done].
Qed.

Fixpoint fold_break {A B} (body : B -> A -> A * bool) (l : list B) (a : A) : A :=
  match l with
  | [] => a
  | x :: l => let '(a, stop) := body x a in if stop then a else fold_break body l a
  end.

Section Memory.
Context (k : kv) (post : list Z).

Lemma decode_next_ok es : forall fuel pre d, Forall entry_ok es -> kv_v k = pre ++ concat es ++ post -> (length es <= fuel)%nat ->
  decode_next fuel k (length pre) (length pre + length (concat es)) d =
  Some (let '(f, d) := scan (k_size (kv_k k)) (length pre) d es in (option_map (fun '(j, _, _) => j) f, d)).
Proof.
  induction es as [|e es IH]; intros fuel pre d Hes Hv Hf.
  { cbn [concat length scan]. rewrite Nat.add_0_r. destruct fuel; cbn [decode_next]; by rewrite Nat.ltb_irrefl. }
  apply Forall_cons_1 in Hes as [He Hes]. destruct fuel as [|fuel]; [cbn in Hf; lia|]. pose proof (entry_len _ He) as Hpos.
  cbn [decode_next]. cbn [concat] in Hv |- *. rewrite length_app in *. rewrite (proj2 (Nat.ltb_lt _ _)) by lia.
  assert (drop (length pre) (kv_v k) = e ++ concat es ++ post) as Hd by (rewrite Hv, drop_app_length, <- app_assoc; done).
  unfold value_at. rewrite Hd, is_ptr_app, is_crc_app, is_stripe_app by done. cbn [scan].
  destruct (extent_entry_is_ptr e) eqn:Ep. { cbn. by rewrite word_app. }
  assert (forall d, decode_next fuel k (length pre + length e) (length pre + (length e + length (concat es))) d =
    Some (let '(f, d) := scan (k_size (kv_k k)) (length pre + length e) d es in (option_map (fun '(j, _, _) => j) f, d))) as Hrec.
  { intros d'. specialize (IH fuel (pre ++ e) d' Hes). rewrite length_app in IH. rewrite <- Nat.add_assoc in IH. apply IH; [|cbn in Hf; lia].
    rewrite Hv, <- !app_assoc. done. }
  unfold dec_step. destruct (extent_entry_is_crc e) eqn:Ec.
  - destruct (unpack_app (k_size (kv_k k)) e (concat es ++ post) He Ec) as (c & -> & ->). bind_simpl.
    rewrite (next_safe_ok _ _ e (concat es ++ post)) by done. bind_simpl. apply Hrec.
  - rewrite word_app by done. destruct (extent_entry_is_stripe_ptr e); bind_simpl; rewrite (next_safe_ok _ _ e (concat es ++ post)) by done; bind_simpl; apply Hrec.
Qed.

Lemma concat_len es : Forall entry_ok es -> (length es <= length (concat es))%nat.
Proof. induction 1 as [|e es He Hes IH]; cbn; [lia|]. rewrite length_app. pose proof (entry_len _ He). lia. Qed.

Context {A : Type}.

Lemma each_decoded_ok (body : nat -> extent_ptr_decoded -> A -> A * bool) fuel : forall es pre crc a,
  Forall entry_ok es -> kv_v k = pre ++ concat es ++ post -> (length es < fuel)%nat ->
  each_decoded fuel k body (length pre) (length pre + length (concat es)) crc a =
  Some (fold_break (fun '(i, d) a => body i d a) (decoded_at (k_size (kv_k k)) (length pre) (dec_init crc) es) a).
Proof.
  induction fuel as [|fuel IH]; intros es pre crc a Hes Hv Hf; [lia|]. cbn [each_decoded].
  destruct (Nat.ltb_spec (length pre) (length pre + length (concat es))) as [Hlt|Hge].
  2: { pose proof (concat_len _ Hes). destruct es; [done|cbn in *; lia]. }
  rewrite decode_next_ok by (try done; pose proof (concat_len _ Hes); lia). bind_simpl. rewrite decoded_scan. fold (dec_init crc).
  destruct (scan (k_size (kv_k k)) (length pre) (dec_init crc) es) as [[[[j e] rest]|] d'] eqn:Es; cbn [option_map fold_break]; [|done].
  destruct (body j d' a) as [a' stop]. destruct stop; [done|].
  destruct (scan_split _ _ _ _ _ _ _ _ Es) as (l & -> & -> & _). apply Forall_app in Hes as [Hl Hrest]. apply Forall_cons_1 in Hrest as [He Hrest].
  rewrite concat_app in Hv |- *. cbn [concat] in Hv |- *.
  assert (kv_v k = (pre ++ concat l) ++ e ++ concat rest ++ post) as Hv' by (rewrite Hv, <- !app_assoc; done).
  rewrite (next_safe_ok _ _ e (concat rest ++ post)) by (rewrite ?Hv'; try done; by apply drop_pre; rewrite length_app). bind_simpl.
  specialize (IH rest ((pre ++ concat l) ++ e) (p_crc d') a' Hrest). rewrite !length_app in IH |- *.
  rewrite <- IH; [f_equal; lia| |rewrite length_app in Hf; cbn in Hf; lia]. by rewrite Hv', <- !app_assoc.
Qed.

End Memory.

(** The pointers of a key that holds [es] behind [start] words. *)
Definition decoded (k : kv) (start : nat) (es : list (list Z)) : list (nat * extent_ptr_decoded) :=
  decoded_at (k_size (kv_k k)) start (dec_init (crc_none (k_size (kv_k k)))) es.

(** Entries with the words they start at. *)
Fixpoint indexed (i : nat) (es : list (list Z)) : list (nat * list Z) :=
  match es with [] => [] | e :: es => (i, e) :: indexed (i + length e) es end.

Lemma value_end_ok k start pre es post : holds k start pre es post -> value_end k = (start + length (concat es))%nat.
Proof.
  intros H. unfold value_end, bkey_val_u64s. pose proof (h_u64s _ _ _ _ _ H). pose proof (h_fits _ _ _ _ _ H) as Hf. unfold MAX, BKEY_U64S in *.
  rewrite wsub_small by (unfold in_range; lia). lia.
Qed.

Lemma for_decoded_ok {A} k start pre es post (body : nat -> extent_ptr_decoded -> A -> A * bool) a : holds k start pre es post ->
  for_decoded k body a = Some (fold_break (fun '(i, d) a => body i d a) (decoded k start es) a).
Proof.
  intros H. unfold for_decoded. rewrite (h_ptrs _ _ _ _ _ H), (value_end_ok _ _ _ _ _ H). pose proof (h_start _ _ _ _ _ H) as <-.
  apply (each_decoded_ok k post); [apply H|apply H|]. pose proof (concat_len _ (h_entries _ _ _ _ _ H)). lia.
Qed.

Lemma each_entry_ok {A} v post (body : nat -> A -> A * bool) es : forall fuel pre a,
  Forall entry_ok es -> v = pre ++ concat es ++ post -> (length es < fuel)%nat ->
  each_entry fuel (fun _ => v) (fun i a => Some (body i a)) (length pre) (length pre + length (concat es)) a =
  Some (fold_break (fun '(i, _) a => body i a) (indexed (length pre) es) a).
Proof.
  induction es as [|e es IH]; intros fuel pre a Hes Hv Hf; (destruct fuel as [|fuel]; [lia|]); cbn [each_entry concat indexed fold_break].
  { cbn [length]. by rewrite Nat.add_0_r, Nat.ltb_irrefl. }
  apply Forall_cons_1 in Hes as [He Hes]. pose proof (entry_len _ He). cbn [concat] in Hv. rewrite length_app. rewrite (proj2 (Nat.ltb_lt _ _)) by lia. bind_simpl.
  destruct (body (length pre) a) as [a' stop]. destruct stop; [done|].
  rewrite (next_safe_ok _ _ e (concat es ++ post)) by (try done; by rewrite Hv, drop_app_length, <- app_assoc). bind_simpl.
  specialize (IH fuel (pre ++ e) a' Hes). rewrite length_app in IH. rewrite <- IH; [f_equal; lia| |cbn in Hf; lia].
  by rewrite Hv, <- !app_assoc.
Qed.

Lemma for_entries_ok {A} k start pre es post (body : nat -> A -> A * bool) a : holds k start pre es post ->
  for_entries k body a = Some (fold_break (fun '(i, _) a => body i a) (indexed start es) a).
Proof.
  intros H. unfold for_entries. rewrite (h_ptrs _ _ _ _ _ H), (value_end_ok _ _ _ _ _ H). pose proof (h_start _ _ _ _ _ H) as <-.
  apply (each_entry_ok _ post); [apply H|apply H|]. pose proof (concat_len _ (h_entries _ _ _ _ _ H)). lia.
Qed.

(** ** Trimming in front *)

(** The entry moved by [sub]. *)
Definition advance (seen_crc : bool) (sub : Z) (e : list Z) : list Z :=
  match e with
  | [] => []
  | w :: ws =>
      (if extent_entry_is_ptr e then if seen_crc then w else SET_BCH_EXTENT_PTR_OFFSET w (wadd 64 (BCH_EXTENT_PTR_OFFSET w) sub)
       else if extent_entry_is_crc e then crc_advance (extent_entry_type e) w sub else w) :: ws
  end.

Fixpoint advance_all (seen_crc : bool) (sub : Z) (es : list (list Z)) : list (list Z) :=
  match es with
  | [] => []
  | e :: es => advance seen_crc sub e :: advance_all (seen_crc || extent_entry_is_crc e) sub es
  end.

(** The lowest bit decides the kind. *)
Lemma trailing_zeros_low p : Z.pos p mod 2 ^ (pos_ctz p + 1) = 2 ^ pos_ctz p /\ 0 <= pos_ctz p.
Proof.
  induction p as [p IH|p IH|]; cbn [pos_ctz]; [|destruct IH as [IH Hn]|done].
  - split; [|lia]. change (2 ^ (0 + 1)) with 2. change (2 ^ 0) with 1. symmetry. apply Z.mod_unique with (q := Z.pos p); lia.
  - split; [|lia]. rewrite Pos2Z.inj_xO. 
    replace (1 + pos_ctz p + 1) with (1 + (pos_ctz p + 1)) by lia. rewrite (Z.pow_add_r 2 1 (pos_ctz p)), (Z.pow_add_r 2 1 (pos_ctz p + 1)) by lia. change (2 ^ 1) with 2.
    pose proof (pow2_pos (pos_ctz p) Hn). rewrite Z.mul_mod_distr_l by lia. by rewrite IH.
Qed.

Lemma type_low w ws : 0 <= w -> extent_entry_type (w :: ws) < BCH_EXTENT_ENTRY_MAX ->
  get_bits 0 (extent_entry_type (w :: ws) + 1) w = 2 ^ extent_entry_type (w :: ws).
Proof.
  intros Hw. unfold extent_entry_type. change (word (w :: ws) 0) with w. cbv zeta. destruct (Z.eqb_spec w 0).
  { intros H. exfalso. by apply Z.lt_asymm in H. }
  intros _. destruct w as [|p|p]; [lia| |lia]. cbn [trailing_zeros]. unfold get_bits. rewrite Z.shiftr_0_r. destruct (trailing_zeros_low p) as [H Hn].
  by rewrite Z.land_ones by lia.
Qed.

Lemma type_same w w' ws : in_range 64 w -> in_range 64 w' -> extent_entry_type (w :: ws) < BCH_EXTENT_ENTRY_MAX ->
  get_bits 0 (extent_entry_type (w :: ws) + 1) w' = get_bits 0 (extent_entry_type (w :: ws) + 1) w ->
  extent_entry_type (w' :: ws) = extent_entry_type (w :: ws).
Proof.
  intros [Hw _] [Hw' _] Ht Hg. rewrite type_low in Hg by done. pose proof (type_nonneg (w :: ws)).
  destruct (trailing_zeros_field w' _ H Hg Hw') as [Hne E]. unfold extent_entry_type at 1. change (word (w' :: ws) 0) with w'. cbv zeta.
  by rewrite (proj2 (Z.eqb_neq _ _) Hne).
Qed.

Lemma is_ptr_type e : extent_entry_is_ptr e = true -> extent_entry_type e = BCH_EXTENT_ENTRY_ptr.
Proof. unfold extent_entry_is_ptr. intros H. by apply Z.eqb_eq. Qed.

Lemma is_crc_type e : extent_entry_is_crc e = true ->
  extent_entry_type e = BCH_EXTENT_ENTRY_crc32 \/ extent_entry_type e = BCH_EXTENT_ENTRY_crc64 \/ extent_entry_type e = BCH_EXTENT_ENTRY_crc128.
Proof. unfold extent_entry_is_crc. cbv zeta. intros H. destruct (orb_prop _ _ H) as [H1|H1]; [destruct (orb_prop _ _ H1) as [H2|H2]|]; apply Z.eqb_eq in H1 || apply Z.eqb_eq in H2; eauto. Qed.

Lemma ptr_not_crc e : extent_entry_is_ptr e = true -> extent_entry_is_crc e = false.
Proof. intros H%is_ptr_type. unfold extent_entry_is_crc. cbv zeta. by rewrite H. Qed.

Lemma advance_type seen sub e : entry_ok e ->
  extent_entry_type (advance seen sub e) = extent_entry_type e /\ length (advance seen sub e) = length e /\ Forall (in_range 64) (advance seen sub e).
Proof.
  intros (Ht & El & Hw). destruct e as [|w ws]; [done|]. apply Forall_cons_1 in Hw as [Hw Hws]. cbn [advance length].
  assert (forall off n x, extent_entry_type (w :: ws) + 1 <= off -> 0 <= n -> off + n <= 64 ->
    extent_entry_type (put_bits off n w x :: ws) = extent_entry_type (w :: ws) /\ Forall (in_range 64) (put_bits off n w x :: ws)) as Hput.
  { intros off n x Ho Hn Hle. pose proof (type_nonneg (w :: ws)). assert (in_range 64 (put_bits off n w x)) by (apply put_range; [lia..|done]). split; [|by apply Forall_cons_2].
    apply type_same; try done. apply get_put_other; lia. }
  destruct (extent_entry_is_ptr (w :: ws)) eqn:Ep.
  - apply is_ptr_type in Ep. destruct seen; [split; [done|]; split; [done|by apply Forall_cons_2]|]. unfold SET_BCH_EXTENT_PTR_OFFSET.
    destruct (Hput 4 44 (wadd 64 (BCH_EXTENT_PTR_OFFSET w) sub)) as [E1 E2]; [rewrite Ep; unfold BCH_EXTENT_ENTRY_ptr; lia|lia..|]. done.
  - destruct (extent_entry_is_crc (w :: ws)) eqn:Ec; [|split; [done|]; split; [done|by apply Forall_cons_2]].
    unfold crc_advance. destruct (is_crc_type _ Ec) as [E|[E|E]]; rewrite E in *.
    + destruct (Hput 16 7 (wadd 32 (get_bits 16 7 w) (sub mod 2 ^ 32))) as [E1 E2]; [unfold BCH_EXTENT_ENTRY_crc32; lia|lia..|]. done.
    + destruct (Hput 21 9 (wadd 64 (get_bits 21 9 w) sub)) as [E1 E2]; [unfold BCH_EXTENT_ENTRY_crc64; lia|lia..|]. done.
    + destruct (Hput 30 13 (wadd 64 (get_bits 30 13 w) sub)) as [E1 E2]; [unfold BCH_EXTENT_ENTRY_crc128; lia|lia..|]. done.
Qed.

Lemma advance_ok seen sub e : entry_ok e -> entry_ok (advance seen sub e).
Proof. intros H. destruct (advance_type seen sub e H) as (E1 & E2 & E3). destruct H as (Ht & El & _). unfold entry_ok. by rewrite E1, E2. Qed.

Lemma advance_all_ok sub es : forall seen, Forall entry_ok es -> Forall entry_ok (advance_all seen sub es) /\ length (concat (advance_all seen sub es)) = length (concat es).
Proof.
  induction es as [|e es IH]; intros seen H; cbn [advance_all concat]; [done|]. apply Forall_cons_1 in H as [He Hes].
  destruct (IH (seen || extent_entry_is_crc e) Hes) as [H1 H2]. destruct (advance_type seen sub e He) as (_ & El & _).
  split; [apply Forall_cons_2; [by apply advance_ok|done]|]. rewrite !length_app. lia.
Qed.

Lemma insert_head (pre ws : list Z) w w' : <[length pre := w']> (pre ++ w :: ws) = pre ++ w' :: ws.
Proof. rewrite insert_app_r_alt by lia. by rewrite Nat.sub_diag. Qed.

Lemma cut_front_entries_ok sub post es : forall fuel pre seen, Forall entry_ok es -> (length es < fuel)%nat ->
  cut_front_entries fuel (pre ++ concat es ++ post) (length pre) (length pre + length (concat es)) seen sub =
  Some (pre ++ concat (advance_all seen sub es) ++ post).
Proof.
  induction es as [|e es IH]; intros fuel pre seen Hes Hf; (destruct fuel as [|fuel]; [lia|]); cbn [cut_front_entries concat advance_all].
  { cbn [length]. by rewrite Nat.add_0_r, Nat.ltb_irrefl. }
  apply Forall_cons_1 in Hes as [He Hes]. pose proof (entry_len _ He) as Hpos. rewrite length_app. rewrite (proj2 (Nat.ltb_lt _ _)) by lia.
  rewrite drop_app_length. rewrite <- !app_assoc. rewrite is_ptr_app, is_crc_app, type_app by done. rewrite word_app by done.
  destruct (advance_type seen sub e He) as (Et & El & _).
  assert (forall v s, v = pre ++ advance seen sub e ++ concat es ++ post -> s = seen || extent_entry_is_crc e ->
    (if extent_entry_u64s_known (extent_entry_type (drop (length pre) v) mod 2 ^ 8) =? 0 then Some v
     else cut_front_entries fuel v (length pre + Z.to_nat (extent_entry_u64s_known (extent_entry_type (drop (length pre) v) mod 2 ^ 8)))
            (length pre + (length e + length (concat es))) s sub) =
    Some (pre ++ advance seen sub e ++ concat (advance_all (seen || extent_entry_is_crc e) sub es) ++ post)) as Hrest.
  { intros v s -> ->. rewrite drop_app_length, type_app, Et by (by apply advance_ok). pose proof He as (Ht & Hlen & _). pose proof (type_nonneg e).
    rewrite Z.mod_small by (unfold BCH_EXTENT_ENTRY_MAX in Ht; lia). pose proof (known_pos (extent_entry_type e) ltac:(lia)).
    rewrite (proj2 (Z.eqb_neq _ _)) by lia. rewrite <- Hlen.
    specialize (IH fuel (pre ++ advance seen sub e) (seen || extent_entry_is_crc e) Hes ltac:(cbn in Hf; lia)).
    rewrite length_app, El, <- !app_assoc in IH. rewrite <- IH. f_equal. lia. }
  destruct e as [|w ws]; [cbn in Hpos; lia|]. cbn [advance] in Hrest |- *. change (word (w :: ws) 0) with w.
  destruct (extent_entry_is_ptr (w :: ws)) eqn:Ep.
  - rewrite (ptr_not_crc _ Ep) in *. rewrite orb_false_r in *. destruct seen; cbv zeta; apply Hrest; try done. cbn [app]. apply insert_head.
  - destruct (extent_entry_is_crc (w :: ws)) eqn:Ec; cbv zeta; apply Hrest; try done; [cbn [app]; apply insert_head|by rewrite orb_true_r|by rewrite orb_false_r].
Qed.

(** *** Where pointers lead after trimming *)

(** [c] as it is for a key of [size] sectors that starts [sub] later. *)
Definition crc_moved (sub size : Z) (c : bch_extent_crc_unpacked) : bch_extent_crc_unpacked :=
  mk_crc (compressed_size c) (uncompressed_size c) size (csum_type c) (compression_type c) (crc_offset c + sub) (crc_nonce c) (crc_csum c).

Ltac known_type E :=
  rewrite E; cbn [Z.eqb Pos.eqb BCH_EXTENT_ENTRY_crc32 BCH_EXTENT_ENTRY_crc64 BCH_EXTENT_ENTRY_crc128].

Lemma unpack_size e size size' c : bch2_extent_crc_unpack size (Some e) = Some c ->
  bch2_extent_crc_unpack size' (Some e) = Some (crc_moved 0 size' c).
Proof.
  unfold bch2_extent_crc_unpack. cbv zeta. repeat match goal with |- context [if ?b then _ else _] => destruct b end; try done;
    intros [= <-]; unfold crc_moved; cbn [compressed_size uncompressed_size live_size csum_type compression_type crc_offset crc_nonce crc_csum]; by rewrite Z.add_0_r.
Qed.

(** The fields of a word, one of which was moved. *)
Ltac moved_fields :=
  rewrite ?get_put by lia;
  repeat match goal with |- context [get_bits ?o ?n (put_bits ?o' ?n' ?w ?x)] => rewrite (get_put_other o n o' n' w x) by lia end.

Lemma unpack_advance seen sub e size size' c : entry_ok e -> extent_entry_is_crc e = true ->
  bch2_extent_crc_unpack size (Some e) = Some c -> 0 <= sub -> crc_offset c + sub < uncompressed_size c ->
  bch2_extent_crc_unpack size' (Some (advance seen sub e)) = Some (crc_moved sub size' c).
Proof.
  intros He Hc Hu Hs Hlt. destruct (advance_type seen sub e He) as (Et & _ & _). unfold bch2_extent_crc_unpack in *. cbv zeta in *. rewrite Et.
  destruct e as [|w ws]; [by apply entry_len in He; cbn in He; lia|]. cbn [advance]. rewrite Hc.
  assert (extent_entry_is_ptr (w :: ws) = false) as -> by (destruct (extent_entry_is_ptr (w :: ws)) eqn:Ep; [by rewrite (ptr_not_crc _ Ep) in Hc|done]).
  change (word (w :: ws) 0) with w in Hu. unfold crc_advance, wadd.
  destruct (is_crc_type _ Hc) as [E|[E|E]]; rewrite E in *;
    cbn [Z.eqb Pos.eqb BCH_EXTENT_ENTRY_crc32 BCH_EXTENT_ENTRY_crc64 BCH_EXTENT_ENTRY_crc128] in Hu |- *; injection Hu as <-;
    cbn [crc_offset uncompressed_size] in Hlt; unfold crc_moved;
    cbn [compressed_size uncompressed_size live_size csum_type compression_type crc_offset crc_nonce crc_csum];
    match goal with |- context [word (?x :: ws) 0] => change (word (x :: ws) 0) with x end; moved_fields.
  - pose proof (get_bits_range 9 7 w ltac:(lia)). pose proof (get_bits_range 16 7 w ltac:(lia)).
    rewrite (Z.mod_small sub), (Z.mod_small (_ + sub)), Z.mod_small by lia. done.
  - pose proof (get_bits_range 12 9 w ltac:(lia)). pose proof (get_bits_range 21 9 w ltac:(lia)).
    rewrite (Z.mod_small (_ + sub) (2 ^ 64)), Z.mod_small by lia. done.
  - pose proof (get_bits_range 17 13 w ltac:(lia)). pose proof (get_bits_range 30 13 w ltac:(lia)).
    rewrite (Z.mod_small (_ + sub) (2 ^ 64)), Z.mod_small by lia. done.
Qed.

(** The pointers [p] of [k] and [p'] of [k'] lead to the same place: the same
    device and generation, and every sector of the file has the same sector of
    the device. *)
Definition same_place (k k' : kv) (p p' : extent_ptr_decoded) : Prop :=
  p1_disk_offset k p = p1_disk_offset k' p' /\
  BCH_EXTENT_PTR_DEV (p_ptr p') = BCH_EXTENT_PTR_DEV (p_ptr p) /\ BCH_EXTENT_PTR_GEN (p_ptr p') = BCH_EXTENT_PTR_GEN (p_ptr p) /\
  BCH_EXTENT_PTR_CACHED (p_ptr p') = BCH_EXTENT_PTR_CACHED (p_ptr p) /\
  BCH_EXTENT_PTR_UNWRITTEN (p_ptr p') = BCH_EXTENT_PTR_UNWRITTEN (p_ptr p) /\ has_ec p' = has_ec p /\ p_ec p' = p_ec p /\
  csum_type (p_crc p') = csum_type (p_crc p) /\ compression_type (p_crc p') = compression_type (p_crc p) /\
  crc_nonce (p_crc p') = crc_nonce (p_crc p) /\ crc_csum (p_crc p') = crc_csum (p_crc p).

(** The live sectors are inside of what the checksum covers, and of the device. *)
Definition ptr_wf (size : Z) (p : extent_ptr_decoded) : Prop :=
  crc_offset (p_crc p) + size <= uncompressed_size (p_crc p) /\
  BCH_EXTENT_PTR_OFFSET (p_ptr p) + crc_offset (p_crc p) + size < 2 ^ 44.

(** The checksum in force before and after: none seen yet, or the moved one. *)
Definition crc_rel (seen : bool) (sub size : Z) (c c' : bch_extent_crc_unpacked) : Prop :=
  if seen then crc_offset c + size <= uncompressed_size c -> c' = crc_moved sub (size - sub) c
  else c = crc_none size /\ c' = crc_none (size - sub).

Lemma advance_decoded sub size k k' es : 0 <= sub < size -> bkey_start_offset (kv_k k') = bkey_start_offset (kv_k k) + sub ->
  forall i seen d d', Forall entry_ok es -> crc_rel seen sub size (p_crc d) (p_crc d') -> has_ec d' = has_ec d -> p_ec d' = p_ec d ->
  Forall (fun '(_, p) => ptr_wf size p) (decoded_at size i d es) ->
  Forall2 (fun '(i, p) '(i', p') => i = i' /\ same_place k k' p p' /\
      (p_crc p = crc_none size /\ BCH_EXTENT_PTR_OFFSET (p_ptr p') = BCH_EXTENT_PTR_OFFSET (p_ptr p) + sub \/
       compressed_size (p_crc p') = compressed_size (p_crc p) /\ p_ptr p' = p_ptr p))
    (decoded_at size i d es) (decoded_at (size - sub) i d' (advance_all seen sub es)).
Proof.
  intros Hsub Hst. induction es as [|e es IH]; intros i seen d d' Hes Hrel He1 He2 Hwf; cbn [decoded_at advance_all]; [constructor|].
  apply Forall_cons_1 in Hes as [He Hes]. destruct (advance_type seen sub e He) as (Et & El & _).
  assert (extent_entry_is_ptr (advance seen sub e) = extent_entry_is_ptr e) as Ep' by (unfold extent_entry_is_ptr; by rewrite Et).
  assert (extent_entry_is_crc (advance seen sub e) = extent_entry_is_crc e) as Ec' by (unfold extent_entry_is_crc; by rewrite Et).
  assert (extent_entry_is_stripe_ptr (advance seen sub e) = extent_entry_is_stripe_ptr e) as Es' by (unfold extent_entry_is_stripe_ptr; by rewrite Et).
  rewrite Ep', El. cbn [decoded_at] in Hwf. destruct (extent_entry_is_ptr e) eqn:Ep.
  - apply Forall_cons_1 in Hwf as [Hp Hwf]. rewrite (ptr_not_crc _ Ep), orb_false_r. constructor.
    + split; [done|]. destruct e as [|w ws]; [by apply entry_len in He; cbn in He; lia|]. cbn [advance]. rewrite Ep. unfold dec_ptr.
      change (word (w :: ws) 0) with w in *. match goal with |- context [word (?x :: ws) 0] => change (word (x :: ws) 0) with x end.
      destruct Hp as [Hc Ho]. cbn [dec_ptr p_crc p_ptr] in Hc, Ho. change (word (w :: ws) 0) with w in Ho.
      unfold same_place, p1_disk_offset. cbn [p_crc p_ptr has_ec p_ec]. rewrite Hst, He1, He2. destruct seen; cbn [crc_rel] in Hrel.
      * rewrite (Hrel Hc). cbn [crc_moved crc_offset csum_type compression_type crc_nonce crc_csum compressed_size]. split; [|by right].
        split; [lia|]. repeat split; done.
      * destruct Hrel as [Hr1 Hr2]. rewrite Hr1 in Hc, Ho. rewrite Hr1, Hr2. cbn [crc_none crc_offset csum_type compression_type crc_nonce crc_csum] in *.
        pose proof (get_bits_range 4 44 w ltac:(lia)). unfold BCH_EXTENT_PTR_OFFSET, SET_BCH_EXTENT_PTR_OFFSET in *.
        assert (get_bits 4 44 (put_bits 4 44 w (wadd 64 (get_bits 4 44 w) sub)) = get_bits 4 44 w + sub) as ->.
        { rewrite get_put by lia. unfold wadd. rewrite (Z.mod_small _ (2 ^ 64)), Z.mod_small by lia. done. }
        unfold BCH_EXTENT_PTR_DEV, BCH_EXTENT_PTR_GEN, BCH_EXTENT_PTR_CACHED, BCH_EXTENT_PTR_UNWRITTEN. moved_fields.
        split; [|by left]. split; [lia|]. split; [done|]. split; [|repeat split; done].
        apply Z.bits_inj'. intros n Hn. rewrite !Z.shiftr_spec, testbit_put by lia. destruct (Z.ltb_spec (n + 56) (4 + 44)); [lia|]. by rewrite andb_false_r.
    + apply IH; [done| |done|done|done]. cbn [dec_init p_crc]. done.
  - apply IH; [done| | | |done].
    + unfold dec_step. rewrite Ec', Es'. destruct (extent_entry_is_crc e) eqn:Ec.
      * rewrite orb_true_r. destruct (unpack_app size e [] He Ec) as (c & _ & Hu). rewrite Hu. cbn [set_crc p_crc crc_rel]. intros Hc.
        rewrite (unpack_advance seen sub e size (size - sub) c) by (done || lia). done.
      * rewrite orb_false_r. destruct (extent_entry_is_stripe_ptr e); done.
    + unfold dec_step. rewrite Ec', Es'. destruct (extent_entry_is_crc e) eqn:Ec; [|by destruct (extent_entry_is_stripe_ptr e)].
      destruct (bch2_extent_crc_unpack size (Some e)), (bch2_extent_crc_unpack (size - sub) (Some (advance seen sub e))); done.
    + unfold dec_step. rewrite Ec', Es'. destruct (extent_entry_is_crc e) eqn:Ec.
      { destruct (bch2_extent_crc_unpack size (Some e)), (bch2_extent_crc_unpack (size - sub) (Some (advance seen sub e))); done. }
      destruct (extent_entry_is_stripe_ptr e) eqn:Es; [|done]. cbn [p_ec]. destruct e as [|w ws]; [done|]. cbn [advance]. by rewrite Ep, Ec.
Qed.

(** A nonempty range of sectors of a file. *)
Definition range_ok (k : bkey) : Prop := 0 < k_size k < 2 ^ 32 /\ k_size k <= offset (k_p k) < 2 ^ 64.

Lemma start_offset_ok k : range_ok k -> bkey_start_offset k = offset (k_p k) - k_size k.
Proof. intros [H1 H2]. unfold bkey_start_offset. rewrite wsub_small; [done|]. unfold in_range. lia. Qed.

Lemma shrink_value_same k : k_u64s (kv_k k) <= MAX 8 -> BKEY_U64S <= k_u64s (kv_k k) -> shrink_value k (bkey_val_u64s (kv_k k)) = Some (k, 0).
Proof.
  intros Hm Hl. assert (bkey_val_u64s (kv_k k) = k_u64s (kv_k k) - BKEY_U64S) as Ev.
  { unfold bkey_val_u64s. apply wsub_small. unfold in_range, MAX, BKEY_U64S in *. lia. }
  unfold shrink_value. rewrite usub_ok by lia. bind_simpl. unfold set_bkey_val_u64s. rewrite Ev, uadd_ok by (unfold MAX in Hm; lia). bind_simpl.
  rewrite (proj2 (assert_true _)) by (apply Z.leb_le; lia). bind_simpl. rewrite Z.sub_diag. cbn [Z.eqb]. replace (BKEY_U64S + (k_u64s (kv_k k) - BKEY_U64S)) with (k_u64s (kv_k k)) by lia.
  by destruct k as [[] v].
Qed.

Lemma holds_u64s k start pre es post : holds k start pre es post -> BKEY_U64S <= k_u64s (kv_k k) <= MAX 8.
Proof. intros H. pose proof (h_u64s _ _ _ _ _ H). pose proof (h_fits _ _ _ _ _ H). lia. Qed.

Definition front_trimmed (k : kv) (where_ : bpos) : bkey := with_size (kv_k k) (offset (k_p (kv_k k)) - offset where_).

Lemma cut_front_ok k start pre es post where_ : holds k start pre es post ->
  k_type (kv_k k) = KEY_TYPE_extent \/ k_type (kv_k k) = KEY_TYPE_reflink_v -> range_ok (kv_k k) ->
  inode where_ = inode (k_p (kv_k k)) -> bkey_start_offset (kv_k k) < offset where_ < offset (k_p (kv_k k)) ->
  let es' := advance_all false (offset where_ - bkey_start_offset (kv_k k)) es in
  let k' := mk_kv (front_trimmed k where_) (pre ++ concat es' ++ post) in
  bch2_cut_front_s where_ k = Some (k', 0) /\ holds k' start pre es' post.
Proof.
  intros H Ht Hr Hi Hw es' k'. pose proof (start_offset_ok _ Hr) as Est. destruct Hr as [Hr1 Hr2]. pose proof (holds_u64s _ _ _ _ _ H) as Hu.
  assert (holds k' start pre es' post) as H'.
  { destruct (advance_all_ok (offset where_ - bkey_start_offset (kv_k k)) es false (h_entries _ _ _ _ _ H)) as [H1 H2].
    fold es' in H1, H2. constructor; cbn [k' kv_k kv_v front_trimmed with_size].
    - pose proof (h_ptrs _ _ _ _ _ H) as Hp. unfold bch2_bkey_ptrs_c, value_end, bkey_val_u64s in Hp |- *. unfold k', front_trimmed. cbn in Hp |- *.
      by destruct Ht as [Ht|Ht]; rewrite Ht in *.
    - done.
    - apply H.
    - rewrite H2. apply H.
    - apply H.
    - done. }
  split; [|done]. unfold bch2_cut_front_s. cbv zeta. change (offset (bkey_start_pos (kv_k k))) with (bkey_start_offset (kv_k k)).
  assert (bpos_le where_ (bkey_start_pos (kv_k k)) = false) as ->.
  { unfold bpos_le. cbn [bkey_start_pos inode offset snapshot]. rewrite Hi, Z.eqb_refl. cbn [negb]. destruct (Z.eqb_spec (offset where_) (bkey_start_offset (kv_k k))); [lia|]. cbn [negb]. apply Z.ltb_ge. lia. }
  assert (bpos_gt where_ (k_p (kv_k k)) = false) as ->.
  { unfold bpos_gt, bpos_lt. rewrite Hi, Z.eqb_refl. cbn [negb]. destruct (Z.eqb_spec (offset (k_p (kv_k k))) (offset where_)); [lia|]. cbn [negb]. apply Z.ltb_ge. lia. }
  cbn [negb assert mbind option_bind]. rewrite usub_ok by lia. bind_simpl. rewrite (Z.mod_small (offset where_ - _)) by lia. rewrite usub_ok by lia. bind_simpl.
  rewrite (proj2 (Z.eqb_neq (k_size (kv_k k) - _) 0)) by lia. cbn [with_size k_type].
  replace (k_size (kv_k k) - (offset where_ - bkey_start_offset (kv_k k))) with (offset (k_p (kv_k k)) - offset where_) by lia. fold (front_trimmed k where_).
  assert (((k_type (kv_k k) =? KEY_TYPE_extent) || (k_type (kv_k k) =? KEY_TYPE_reflink_v)) = true) as -> by (by destruct Ht as [->| ->]).
  assert (bch2_bkey_ptrs_c (mk_kv (front_trimmed k where_) (kv_v k)) = Some (start, value_end k')) as ->.
  { rewrite <- (h_ptrs _ _ _ _ _ H'). unfold bch2_bkey_ptrs_c. unfold k', front_trimmed. cbn. by destruct Ht as [->| ->]. }
  bind_simpl. rewrite (value_end_ok _ _ _ _ _ H').
  destruct (advance_all_ok (offset where_ - bkey_start_offset (kv_k k)) es false (h_entries _ _ _ _ _ H)) as [_ El]. fold es' in El. rewrite El.
  pose proof (h_mem _ _ _ _ _ H) as ->. pose proof (h_start _ _ _ _ _ H) as <-.
  rewrite cut_front_entries_ok; [|apply H|pose proof (concat_len _ (h_entries _ _ _ _ _ H)); lia]. bind_simpl. fold es' k'.
  apply (shrink_value_same k'); cbn [k' kv_k front_trimmed with_size k_u64s]; lia.
Qed.

Lemma front_trimmed_start k where_ : range_ok (kv_k k) -> bkey_start_offset (kv_k k) < offset where_ < offset (k_p (kv_k k)) ->
  bkey_start_offset (front_trimmed k where_) = offset where_ /\ range_ok (front_trimmed k where_).
Proof.
  intros Hr Hw. pose proof (start_offset_ok _ Hr) as Est. destruct Hr as [H1 H2]. assert (range_ok (front_trimmed k where_)) as Hr' by (unfold range_ok, front_trimmed; cbn; lia).
  split; [|done]. rewrite (start_offset_ok _ Hr'). cbn. lia.
Qed.

(** The sectors of the key are where its pointers say: [p]'s live part is in
    bounds. *)
Definition pointers_wf (k : kv) (start : nat) (es : list (list Z)) : Prop :=
  Forall (fun '(_, p) => ptr_wf (k_size (kv_k k)) p) (decoded k start es).

Lemma cut_front_decoded k start pre es post where_ : holds k start pre es post ->
  k_type (kv_k k) = KEY_TYPE_extent \/ k_type (kv_k k) = KEY_TYPE_reflink_v -> range_ok (kv_k k) -> pointers_wf k start es ->
  inode where_ = inode (k_p (kv_k k)) -> bkey_start_offset (kv_k k) < offset where_ < offset (k_p (kv_k k)) ->
  exists k' es', bch2_cut_front_s where_ k = Some (k', 0) /\ holds k' start pre es' post /\ kv_k k' = front_trimmed k where_ /\
    Forall2 (fun '(i, p) '(i', p') => i = i' /\ same_place k k' p p' /\
      (p_crc p = crc_none (k_size (kv_k k)) /\ BCH_EXTENT_PTR_OFFSET (p_ptr p') = BCH_EXTENT_PTR_OFFSET (p_ptr p) + (offset where_ - bkey_start_offset (kv_k k)) \/
       compressed_size (p_crc p') = compressed_size (p_crc p) /\ p_ptr p' = p_ptr p)) (decoded k start es) (decoded k' start es').
Proof.
  intros H Ht Hr Hp Hi Hw. destruct (cut_front_ok k start pre es post where_ H Ht Hr Hi Hw) as [Hc H'].
  destruct (front_trimmed_start k where_ Hr Hw) as [Hs Hr']. pose proof (start_offset_ok _ Hr) as Est.
  eexists _, _. split; [exact Hc|]. split; [exact H'|]. split; [done|].
  set (sub := offset where_ - bkey_start_offset (kv_k k)). unfold decoded at 2. cbn [kv_k front_trimmed with_size k_size].
  replace (offset (k_p (kv_k k)) - offset where_) with (k_size (kv_k k) - sub) by (unfold sub; lia).
  apply (advance_decoded sub (k_size (kv_k k)) k _ es ltac:(unfold sub; lia)); [|apply H|done..].
  cbn [kv_k]. rewrite Hs. unfold sub. lia.
Qed.

(** C35: C: Trimming an extent in front ends with a key for the sectors from
    [where_] on, whose pointers, one for one, lead every remaining sector to the
    same sector of the same device, with the same flags, stripe and checksum. *)
Theorem cut_front_keeps_places k start pre es post where_ : holds k start pre es post ->
  k_type (kv_k k) = KEY_TYPE_extent \/ k_type (kv_k k) = KEY_TYPE_reflink_v -> range_ok (kv_k k) -> pointers_wf k start es ->
  inode where_ = inode (k_p (kv_k k)) -> bkey_start_offset (kv_k k) < offset where_ < offset (k_p (kv_k k)) ->
  exists k' es', bch2_cut_front_s where_ k = Some (k', 0) /\ holds k' start pre es' post /\
    k_p (kv_k k') = k_p (kv_k k) /\ bkey_start_offset (kv_k k') = offset where_ /\
    Forall2 (fun '(i, p) '(i', p') => i = i' /\ same_place k k' p p') (decoded k start es) (decoded k' start es').
Proof.
  intros H Ht Hr Hp Hi Hw. destruct (cut_front_decoded k start pre es post where_ H Ht Hr Hp Hi Hw) as (k' & es' & Hc & H' & Ek & Hall).
  exists k', es'. split; [done|]. split; [done|]. rewrite Ek. split; [done|]. split; [by apply front_trimmed_start|].
  eapply Forall2_impl; [|exact Hall]. intros [i p] [i' p'] (-> & Hsame & _). done.
Qed.

(** *** The trimmed key is recognised *)

Lemma fold_break_true {B} (f : B -> bool) l : fold_break (fun x r => if f x then (true, true) else (r, false)) l false = existsb f l.
Proof. induction l as [|x l IH]; cbn; [done|]. by destruct (f x). Qed.

Lemma indexed_at v es post : forall pre, v = pre ++ concat es ++ post -> Forall (fun '(i, e) => exists rest, drop i v = e ++ rest) (indexed (length pre) es).
Proof.
  induction es as [|e es IH]; intros pre Hv; cbn [indexed]; [constructor|]. cbn [concat] in Hv. apply Forall_cons_2.
  - eexists. by rewrite Hv, drop_app_length, <- app_assoc.
  - rewrite <- length_app. apply IH. by rewrite Hv, <- !app_assoc.
Qed.

Lemma indexed_ok i es : Forall entry_ok es -> Forall (fun '(_, e) => entry_ok e) (indexed i es).
Proof. intros H. revert i. induction H as [|e es He Hes IH]; intros i; cbn [indexed]; [constructor|by apply Forall_cons_2]. Qed.

Lemma decoded_words size (f : Z -> bool) es : forall i d,
  existsb (fun '(_, p) => f (p_ptr p)) (decoded_at size i d es) = existsb (fun '(_, e) => extent_entry_is_ptr e && f (word e 0)) (indexed i es).
Proof.
  induction es as [|e es IH]; intros i d; cbn [decoded_at indexed existsb]; [done|]. destruct (extent_entry_is_ptr e); cbn [existsb andb orb]; [|apply IH].
  by rewrite IH.
Qed.

(** A loop that looks for a pointer with [f] in its word. *)
Lemma find_ptr_ok k start pre es post (f : Z -> bool) : holds k start pre es post ->
  for_entries k (fun i r => if extent_entry_is_ptr (value_at k i) && f (word (value_at k i) 0) then (true, true) else (r, false)) false =
  Some (existsb (fun '(_, p) => f (p_ptr p)) (decoded k start es)).
Proof.
  intros H. rewrite (for_entries_ok _ _ _ _ _ _ _ H). f_equal. unfold decoded. rewrite decoded_words.
  pose proof (indexed_at _ es post pre (h_mem _ _ _ _ _ H)) as Hat. rewrite (h_start _ _ _ _ _ H) in Hat.
  pose proof (indexed_ok start es (h_entries _ _ _ _ _ H)) as Hok. clear H. induction (indexed start es) as [|[i e] l IH]; cbn [fold_break existsb]; [done|].
  apply Forall_cons_1 in Hat as [[rest Hat] Hats]. apply Forall_cons_1 in Hok as [Hok Hoks]. unfold value_at at 1 2. rewrite Hat, is_ptr_app, word_app by (done || by apply entry_len).
  destruct (extent_entry_is_ptr e && f (word e 0)); [done|by apply IH].
Qed.

(** [bch2_extents_match] tells whether two keys have pointers to the same place. *)
Lemma extents_match_ok k1 k2 s1 s2 pre1 pre2 es1 es2 post1 post2 : holds k1 s1 pre1 es1 post1 -> holds k2 s2 pre2 es2 post2 ->
  k_type (kv_k k1) = k_type (kv_k k2) -> bkey_extent_is_direct_data (kv_k k1) = true ->
  let unwritten k s es := existsb (fun '(_, p) => negb (BCH_EXTENT_PTR_UNWRITTEN (p_ptr p) =? 0)) (decoded k s es) in
  bch2_extents_match k1 k2 = Some (eqb (unwritten k1 s1 es1) (unwritten k2 s2 es2) &&
    existsb (fun '(_, p1) => existsb (fun '(_, p2) => bch2_bkey_ptrs_match k1 p1 k2 p2) (decoded k2 s2 es2)) (decoded k1 s1 es1)).
Proof.
  intros H1 H2 Ht Hd unwritten. unfold bch2_extents_match. rewrite Ht, Z.eqb_refl, Hd. cbn [negb]. unfold bkey_extent_is_unwritten.
  rewrite (find_ptr_ok k1 s1 pre1 es1 post1 (fun w => negb (BCH_EXTENT_PTR_UNWRITTEN w =? 0)) H1). bind_simpl.
  rewrite (find_ptr_ok k2 s2 pre2 es2 post2 (fun w => negb (BCH_EXTENT_PTR_UNWRITTEN w =? 0)) H2). bind_simpl.
  unfold unwritten. destruct (eqb _ _); cbn [negb andb]; [|done].
  rewrite (for_decoded_ok k1 s1 pre1 es1 post1 _ _ H1). bind_simpl.
  assert (forall p1, for_decoded k2 (fun _ p2 r => if bch2_bkey_ptrs_match k1 p1 k2 p2 then (true, true) else (r, false)) false =
    Some (existsb (fun '(_, p2) => bch2_bkey_ptrs_match k1 p1 k2 p2) (decoded k2 s2 es2))) as Hin.
  { intros p1. rewrite (for_decoded_ok k2 s2 pre2 es2 post2 _ _ H2). f_equal. induction (decoded k2 s2 es2) as [|[j p2] l IH]; cbn; [done|].
    by destruct (bch2_bkey_ptrs_match k1 p1 k2 p2). }
  induction (decoded k1 s1 es1) as [|[j p1] l IH]; cbn [fold_break existsb]; [done|]. rewrite Hin.
  destruct (existsb _ (decoded k2 s2 es2)); [done|apply IH].
Qed.

Lemma eqb_refl_bool b : eqb b b = true.
Proof. by destruct b. Qed.

Lemma decoded_compressed size es : forall i d, 0 < compressed_size (p_crc d) ->
  Forall (fun '(_, p) => 0 < compressed_size (p_crc p)) (decoded_at size i d es).
Proof.
  induction es as [|e es IH]; intros i d Hd; cbn [decoded_at]; [constructor|]. destruct (extent_entry_is_ptr e).
  { apply Forall_cons_2; [done|]. by apply IH. }
  apply IH. unfold dec_step. destruct (extent_entry_is_crc e); [|by destruct (extent_entry_is_stripe_ptr e)].
  destruct (bch2_extent_crc_unpack size (Some e)) as [c|] eqn:E; [|done]. cbn [set_crc p_crc]. unfold bch2_extent_crc_unpack in E. cbv zeta in E.
  repeat match type of E with (if ?b then _ else _) = _ => destruct b end; try done; injection E as <-; cbn [compressed_size];
    match goal with |- context [get_bits ?o ?n ?w] => pose proof (get_bits_range o n w ltac:(lia)) end; lia.
Qed.

(** C: An extent with a pointer, trimmed in front, still is recognised as the
    same data: [bch2_extents_match] finds a pointer of the one that agrees with
    a pointer of the other. *)
Theorem cut_front_matches k start pre es post where_ : holds k start pre es post ->
  k_type (kv_k k) = KEY_TYPE_extent \/ k_type (kv_k k) = KEY_TYPE_reflink_v -> range_ok (kv_k k) -> pointers_wf k start es ->
  inode where_ = inode (k_p (kv_k k)) -> bkey_start_offset (kv_k k) < offset where_ < offset (k_p (kv_k k)) ->
  decoded k start es <> [] ->
  exists k', bch2_cut_front_s where_ k = Some (k', 0) /\ bch2_extents_match k k' = Some true.
Proof.
  intros H Ht Hr Hp Hi Hw Hne. destruct (cut_front_decoded k start pre es post where_ H Ht Hr Hp Hi Hw) as (k' & es' & Hc & H' & Ek & Hall).
  exists k'. split; [done|]. rewrite (extents_match_ok k k' start start pre pre es es' post post H H').
  2: { rewrite Ek. done. }
  2: { unfold bkey_extent_is_direct_data. destruct Ht as [->| ->]; done. }
  assert (existsb (fun '(_, p) => negb (BCH_EXTENT_PTR_UNWRITTEN (p_ptr p) =? 0)) (decoded k start es) =
          existsb (fun '(_, p) => negb (BCH_EXTENT_PTR_UNWRITTEN (p_ptr p) =? 0)) (decoded k' start es')) as ->.
  { clear -Hall. induction Hall as [|[i p] [i' p'] l l' (_ & Hs & _) _ IH]; cbn [existsb]; [done|]. rewrite IH. f_equal.
    destruct Hs as (_ & _ & _ & _ & Hu & _). by rewrite Hu. }
  rewrite eqb_refl_bool. cbn [andb]. f_equal. pose proof (start_offset_ok _ Hr) as Est.
  inversion Hall as [E|[i p] [i' p'] l l' (_ & Hs & Hcase) _ E1 E2]; [by rewrite <- E in Hne|]. cbn [existsb].
  assert (bch2_bkey_ptrs_match k p k' p' = true) as ->; [|done].
  destruct Hs as (Hd & Hdev & Hgen & _). unfold bch2_bkey_ptrs_match. rewrite Hdev, Hgen, Hd, !Z.eqb_refl. cbn [orb negb].
  destruct Hr as [Hr1 Hr2]. pose proof (decoded_compressed (k_size (kv_k k)) es start (dec_init (crc_none (k_size (kv_k k)))) (proj1 Hr1)) as Hcomp.
  unfold decoded in E1. rewrite <- E1 in Hcomp. apply Forall_cons_1 in Hcomp as [Hcomp _]. destruct Hcase as [[Hcn Ho]|[Hz Hpp]].
  - rewrite Hcn, Ho. cbn [crc_none compressed_size]. apply orb_true_iff. right. apply andb_true_intro. split; [apply Z.leb_le|apply Z.ltb_lt]; lia.
  - rewrite Hpp, Hz. apply orb_true_iff. left. apply andb_true_intro. split; [apply Z.leb_le|apply Z.ltb_lt]; lia.
Qed.

(** ** Trimming behind *)

Definition back_trimmed (k : kv) (where_ : bpos) : bkey :=
  with_size (with_offset (kv_k k) (offset where_)) (offset where_ - bkey_start_offset (kv_k k)).

Lemma resize_decoded size size' k k' es : bkey_start_offset (kv_k k') = bkey_start_offset (kv_k k) ->
  forall i d d', p_crc d' = crc_moved 0 size' (p_crc d) \/ (p_crc d = crc_none size /\ p_crc d' = crc_none size') ->
    has_ec d' = has_ec d -> p_ec d' = p_ec d -> Forall entry_ok es ->
  Forall2 (fun '(i, p) '(i', p') => i = i' /\ same_place k k' p p') (decoded_at size i d es) (decoded_at size' i d' es).
Proof.
  intros Hst. induction es as [|e es IH]; intros i d d' Hc He1 He2 Hes; cbn [decoded_at]; [constructor|]. apply Forall_cons_1 in Hes as [He Hes].
  destruct (extent_entry_is_ptr e) eqn:Ep.
  - constructor; [|by apply IH]. split; [done|]. unfold same_place, p1_disk_offset, dec_ptr. cbn [p_crc p_ptr has_ec p_ec]. rewrite Hst, He1, He2.
    destruct Hc as [Hc|[Hc1 Hc2]].
    + rewrite Hc. cbn [crc_moved crc_offset csum_type compression_type crc_nonce crc_csum]. repeat split; lia || done.
    + rewrite Hc1, Hc2. repeat split.
  - apply IH; try done; unfold dec_step; destruct (extent_entry_is_crc e) eqn:Ec; try (by destruct (extent_entry_is_stripe_ptr e));
      destruct (unpack_app size e [] He Ec) as (c & _ & Hu); rewrite Hu, (unpack_size e size size' c Hu); [by left|done..].
Qed.

(** C: Trimming an extent behind ends with a key for the sectors up to
    [where_], with the same value, and every pointer leads the remaining sectors
    to where it led them before. *)
Theorem cut_back_keeps_places k start pre es post where_ : holds k start pre es post -> range_ok (kv_k k) ->
  inode where_ = inode (k_p (kv_k k)) -> bkey_start_offset (kv_k k) < offset where_ < offset (k_p (kv_k k)) ->
  exists k', bch2_cut_back_s where_ k = Some (k', 0) /\ holds k' start pre es post /\
    bkey_start_pos (kv_k k') = bkey_start_pos (kv_k k) /\ offset (k_p (kv_k k')) = offset where_ /\
    Forall2 (fun '(i, p) '(i', p') => i = i' /\ same_place k k' p p') (decoded k start es) (decoded k' start es).
Proof.
  intros H Hr Hi Hw. pose proof (start_offset_ok _ Hr) as Est. pose proof Hr as [Hr1 Hr2]. pose proof (holds_u64s _ _ _ _ _ H) as Hu.
  exists (mk_kv (back_trimmed k where_) (kv_v k)).
  assert (range_ok (back_trimmed k where_)) as Hr' by (unfold range_ok, back_trimmed; cbn; lia).
  assert (bkey_start_offset (back_trimmed k where_) = bkey_start_offset (kv_k k)) as Hs by (rewrite (start_offset_ok _ Hr'); cbn; lia).
  split; [|split; [|split; [|split]]].
  - unfold bch2_cut_back_s, bpos_ge. change (offset (bkey_start_pos (kv_k k))) with (bkey_start_offset (kv_k k)).
    assert (bpos_le (k_p (kv_k k)) where_ = false) as ->.
    { unfold bpos_le. rewrite Hi, Z.eqb_refl. cbn [negb]. destruct (Z.eqb_spec (offset (k_p (kv_k k))) (offset where_)); [lia|]. cbn [negb]. apply Z.ltb_ge. lia. }
    assert (bpos_le (bkey_start_pos (kv_k k)) where_ = true) as ->.
    { unfold bpos_le. cbn [bkey_start_pos inode offset snapshot]. rewrite Hi, Z.eqb_refl. cbn [negb].
      destruct (Z.eqb_spec (bkey_start_offset (kv_k k)) (offset where_)); [lia|]. cbn [negb]. apply Z.ltb_lt. lia. }
    cbn [assert mbind option_bind]. rewrite usub_ok by lia. bind_simpl. rewrite (proj2 (Z.eqb_neq (offset where_ - _) 0)) by lia.
    rewrite (Z.mod_small (offset where_ - _)) by lia. fold (back_trimmed k where_).
    apply (shrink_value_same (mk_kv (back_trimmed k where_) (kv_v k))); cbn; lia.
  - pose proof (h_ptrs _ _ _ _ _ H) as Hp. constructor; cbn [kv_k kv_v]; try apply H.
  - cbn [kv_k]. unfold bkey_start_pos. by rewrite Hs.
  - done.
  - unfold decoded. apply resize_decoded; [done| |done|done|apply H]. right. done.
Qed.

(** ** Dropping pointers *)

(** The decoded pointers without their words' places. *)
Definition pointers (size : Z) (d : extent_ptr_decoded) (es : list (list Z)) : list extent_ptr_decoded := map snd (decoded_at size 0 d es).

Lemma decoded_pointers size es : forall i d, map snd (decoded_at size i d es) = pointers size d es.
Proof.
  unfold pointers. induction es as [|e es IH]; intros i d; cbn [decoded_at]; [done|]. destruct (extent_entry_is_ptr e); cbn [map snd]; [f_equal|];
    by rewrite IH, (IH (0 + length e)%nat).
Qed.

Lemma pointers_cons size d e es : pointers size d (e :: es) =
  if extent_entry_is_ptr e then dec_ptr e d :: pointers size (dec_init (p_crc d)) es else pointers size (dec_step size e d) es.
Proof. unfold pointers at 1. cbn [decoded_at]. destruct (extent_entry_is_ptr e); cbn [map snd]; by rewrite decoded_pointers. Qed.

(** What the entries leave for the pointers behind them. *)
Fixpoint dstate (size : Z) (d : extent_ptr_decoded) (es : list (list Z)) : extent_ptr_decoded :=
  match es with
  | [] => d
  | e :: es => dstate size (if extent_entry_is_ptr e then dec_init (p_crc d) else dec_step size e d) es
  end.

Lemma decoded_app size b a : forall i d,
  decoded_at size i d (a ++ b) = decoded_at size i d a ++ decoded_at size (i + length (concat a)) (dstate size d a) b.
Proof.
  induction a as [|e a IH]; intros i d; cbn [app decoded_at dstate concat]; [by rewrite Nat.add_0_r|]. rewrite length_app, Nat.add_assoc.
  destruct (extent_entry_is_ptr e); cbn [app]; by rewrite IH.
Qed.

Lemma pointers_app size a b d : pointers size d (a ++ b) = pointers size d a ++ pointers size (dstate size d a) b.
Proof. unfold pointers at 1. by rewrite decoded_app, map_app, !decoded_pointers. Qed.

Lemma dstate_app size a b : forall d, dstate size d (a ++ b) = dstate size (dstate size d a) b.
Proof. induction a as [|e a IH]; intros d; cbn [app dstate]; [done|apply IH]. Qed.

(** *** Entries in front of the dropped pointer *)

Fixpoint crc_unused (b : list (list Z)) : bool :=
  match b with
  | [] => true
  | e :: b => if extent_entry_is_crc e then true else if extent_entry_is_ptr e then false else crc_unused b
  end.

Definition pruned (drop_crc : bool) (e : list Z) : bool := (extent_entry_is_crc e && drop_crc) || extent_entry_is_stripe_ptr e.

(** From the last entry on, up to a pointer. *)
Fixpoint prune_rev (drop_crc : bool) (r : list (list Z)) : list (list Z) :=
  match r with
  | [] => []
  | e :: r => if extent_entry_is_ptr e then e :: r else if pruned drop_crc e then prune_rev drop_crc r else e :: prune_rev drop_crc r
  end.
Definition prune (drop_crc : bool) (a : list (list Z)) : list (list Z) := rev (prune_rev drop_crc (rev a)).

Lemma prune_snoc dc a e : prune dc (a ++ [e]) =
  if extent_entry_is_ptr e then a ++ [e] else if pruned dc e then prune dc a else prune dc a ++ [e].
Proof.
  unfold prune. rewrite rev_app_distr. cbn [rev app prune_rev]. destruct (extent_entry_is_ptr e); [cbn; by rewrite rev_involutive|].
  by destruct (pruned dc e).
Qed.

Lemma dec_init_eq d : has_ec d = false -> p_ptr d = 0 -> p_ec d = 0 -> d = dec_init (p_crc d).
Proof. destruct d. cbn. by intros -> -> ->. Qed.

(** The state behind what is left: no stripe, and the same checksum unless it
    was dropped. *)
Lemma prune_state size dc crc0 a :
  pointers size (dec_init crc0) (prune dc a) = pointers size (dec_init crc0) a /\
  exists c, dstate size (dec_init crc0) (prune dc a) = dec_init c /\ (dc = false -> c = p_crc (dstate size (dec_init crc0) a)).
Proof.
  induction a as [|e a IH] using rev_ind; [split; [done|]; by eexists|]. rewrite prune_snoc. destruct IH as (IH1 & c & IH2 & IH3).
  rewrite !pointers_app, !dstate_app. cbn [dstate]. rewrite pointers_cons.
  destruct (extent_entry_is_ptr e) eqn:Ep.
  { rewrite pointers_app, dstate_app. cbn [dstate]. rewrite Ep. rewrite pointers_cons, Ep. split; [done|]. by eexists. }
  change (pointers size ?d []) with (@nil extent_ptr_decoded). rewrite app_nil_r. unfold pruned, dec_step. destruct (extent_entry_is_crc e) eqn:Ec.
  - cbn [andb]. destruct dc; cbn [orb].
    + split; [done|]. exists c. by split.
    + assert (extent_entry_is_stripe_ptr e = false) as ->.
      { unfold extent_entry_is_stripe_ptr. by destruct (is_crc_type _ Ec) as [->|[->| ->]]. }
      rewrite pointers_app, dstate_app, IH1, IH2. cbn [dstate]. rewrite Ep, pointers_cons, Ep. unfold dec_step. rewrite Ec. split; [by rewrite app_nil_r|].
      destruct (bch2_extent_crc_unpack size (Some e)) as [x|]; [by eexists|]. eexists. split; [done|]. by rewrite IH3.
  - cbn [andb orb]. destruct (extent_entry_is_stripe_ptr e) eqn:Es.
    + split; [done|]. exists c. split; [done|]. intros Hd. by rewrite IH3.
    + rewrite pointers_app, dstate_app, IH1, IH2. cbn [dstate]. rewrite Ep, pointers_cons, Ep. unfold dec_step. rewrite Ec, Es.
      split; [by rewrite app_nil_r|]. exists c. by split.
Qed.

Lemma pointers_ext size es : forall d d', has_ec d = has_ec d' -> p_crc d = p_crc d' -> p_ec d = p_ec d' -> pointers size d es = pointers size d' es.
Proof.
  induction es as [|e es IH]; intros [h c p x] [h' c' p' x'] H1 H2 H3; [done|]. cbn in H1, H2, H3. subst h' c' x'. rewrite !pointers_cons.
  destruct (extent_entry_is_ptr e); [done|]. apply IH; unfold dec_step; destruct (extent_entry_is_crc e), (extent_entry_is_stripe_ptr e); try done;
    by destruct (bch2_extent_crc_unpack size (Some e)).
Qed.

(** A checksum in force is not read when another one comes first. *)
Lemma crc_unused_ok size b : Forall entry_ok b -> crc_unused b = true ->
  forall d d', has_ec d = has_ec d' -> p_ec d = p_ec d' -> pointers size d b = pointers size d' b.
Proof.
  induction b as [|e b IH]; intros Hb Hu d d' H1 H2; [done|]. apply Forall_cons_1 in Hb as [He Hb]. cbn [crc_unused] in Hu. rewrite !pointers_cons.
  destruct (extent_entry_is_ptr e) eqn:Ep. { by rewrite (ptr_not_crc _ Ep) in Hu. }
  unfold dec_step. destruct (extent_entry_is_crc e) eqn:Ec.
  - destruct (unpack_app size e [] He Ec) as (c & _ & ->). by apply pointers_ext.
  - destruct (extent_entry_is_stripe_ptr e); by apply IH.
Qed.

(** Dropping an entry with what only it needs leaves the other pointers as they
    were. *)
Lemma prune_pointers size crc0 a e b : Forall entry_ok b -> extent_entry_is_ptr e = true ->
  pointers size (dec_init crc0) (prune (crc_unused b) a ++ b) =
  pointers size (dec_init crc0) a ++ pointers size (dec_init (p_crc (dstate size (dec_init crc0) a))) b.
Proof.
  intros Hb He. destruct (prune_state size (crc_unused b) crc0 a) as (H1 & c & H2 & H3). rewrite pointers_app, H1, H2. f_equal.
  destruct (crc_unused b) eqn:Eu; [by apply crc_unused_ok|]. by rewrite H3.
Qed.

(** *** The loops of dropping *)

Lemma prev_from_ok v post e : forall a fuel pre, Forall entry_ok (a ++ [e]) -> v = pre ++ concat (a ++ [e]) ++ post -> (length a < fuel)%nat ->
  prev_from fuel v (length pre) (length pre + length (concat (a ++ [e]))) = Some (length pre + length (concat a))%nat.
Proof.
  induction a as [|e0 a IH]; intros fuel pre Ha Hv Hf; (destruct fuel as [|fuel]; [lia|]); cbn [prev_from app concat] in *; apply Forall_cons_1 in Ha as [He Ha].
  - rewrite (next_ok v _ e post) by (try done; by rewrite Hv, drop_app_length, app_nil_r). bind_simpl. rewrite app_nil_r, Nat.eqb_refl. by rewrite Nat.add_0_r.
  - rewrite (next_ok v _ e0 (concat (a ++ [e]) ++ post)) by (try done; by rewrite Hv, drop_app_length, <- app_assoc). bind_simpl.
    assert (0 < length (concat (a ++ [e])))%nat as Hpos.
    { rewrite concat_app, length_app. apply Forall_app in Ha as [_ Ha]. apply Forall_cons_1 in Ha as [Ha _]. pose proof (entry_len _ Ha). cbn. rewrite app_nil_r. lia. }
    rewrite !length_app. destruct (Nat.eqb_spec (length pre + length e0) (length pre + (length e0 + length (concat (a ++ [e]))))); [lia|].
    specialize (IH fuel (pre ++ e0) Ha). rewrite length_app in IH. rewrite Nat.add_assoc, IH; [f_equal; lia| |cbn in Hf; lia]. by rewrite Hv, <- !app_assoc.
Qed.

Lemma drop_crc_after_ok v post b : forall fuel pre, Forall entry_ok b -> v = pre ++ concat b ++ post -> (length b < fuel)%nat ->
  drop_crc_after fuel v (length pre) (length pre + length (concat b)) = Some (crc_unused b).
Proof.
  induction b as [|e b IH]; intros fuel pre Hb Hv Hf; (destruct fuel as [|fuel]; [lia|]); cbn [drop_crc_after concat crc_unused] in *.
  { cbn [length]. by rewrite Nat.add_0_r, Nat.eqb_refl. }
  apply Forall_cons_1 in Hb as [He Hb]. pose proof (entry_len _ He). rewrite length_app.
  destruct (Nat.eqb_spec (length pre) (length pre + (length e + length (concat b)))); [lia|].
  assert (drop (length pre) v = e ++ concat b ++ post) as Hd by (by rewrite Hv, drop_app_length, <- app_assoc).
  rewrite Hd, is_crc_app, is_ptr_app by done. destruct (extent_entry_is_crc e); [done|]. destruct (extent_entry_is_ptr e); [done|].
  rewrite (next_ok v _ e (concat b ++ post)) by done. bind_simpl. specialize (IH fuel (pre ++ e) Hb). rewrite length_app in IH.
  rewrite Nat.add_assoc. apply IH; [by rewrite Hv, <- !app_assoc|cbn in Hf; lia].
Qed.

(** Keys that differ in their length and memory only. *)
Definition same_key (k k' : kv) : Prop := kv_k k' = kv_with_u64s (kv_k k) (k_u64s (kv_k k')).

Lemma same_key_trans k1 k2 k3 : same_key k1 k2 -> same_key k2 k3 -> same_key k1 k3.
Proof. unfold same_key. intros H1 H2. rewrite H2 at 1. rewrite H1. done. Qed.

Lemma holds_same k k' start pre es post : same_key k k' -> k_type (kv_k k) <> KEY_TYPE_stripe -> bch2_bkey_ptrs_c k = Some (start, value_end k) ->
  kv_v k' = pre ++ concat es ++ post -> length pre = start -> k_u64s (kv_k k') = BKEY_U64S + Z.of_nat (start + length (concat es)) ->
  k_u64s (kv_k k') <= MAX 8 -> Forall entry_ok es -> holds k' start pre es post.
Proof.
  intros Hk Ht Hp. intros. constructor; try done. unfold bch2_bkey_ptrs_c in *. assert (k_type (kv_k k') = k_type (kv_k k)) as -> by (by rewrite Hk).
  rewrite (proj2 (Z.eqb_neq _ KEY_TYPE_stripe) Ht) in *. fold (value_end k'). fold (value_end k) in Hp.
  repeat match type of Hp with (if ?b then _ else _) = _ => destruct b end; congruence.
Qed.

Lemma entry_drop_ok k start pre a e b post : holds k start pre (a ++ e :: b) post -> k_type (kv_k k) <> KEY_TYPE_stripe ->
  exists k' post', extent_entry_drop k (start + length (concat a)) = Some k' /\ holds k' start pre (a ++ b) post' /\ same_key k k'.
Proof.
  intros H Ht. pose proof (h_entries _ _ _ _ _ H) as Hes. apply Forall_app in Hes as [Ha Hb]. apply Forall_cons_1 in Hb as [He Hb].
  pose proof (h_mem _ _ _ _ _ H) as Hv. pose proof (h_start _ _ _ _ _ H) as Hst. pose proof (value_end_ok _ _ _ _ _ H) as Hend.
  pose proof (h_u64s _ _ _ _ _ H) as Hu. pose proof (h_fits _ _ _ _ _ H) as Hf.
  rewrite concat_app in Hv, Hend, Hu. cbn [concat] in Hv, Hend, Hu. rewrite !length_app in Hend, Hu.
  assert (kv_v k = (pre ++ concat a) ++ e ++ concat b ++ post) as Hv' by (rewrite Hv, <- !app_assoc; done).
  assert (length (pre ++ concat a) = (start + length (concat a))%nat) as Hlen by (rewrite length_app; lia).
  assert (kv_v k = ((pre ++ concat a) ++ e) ++ concat b ++ post) as Hv'' by (rewrite Hv', <- !app_assoc; done).
  eexists _, _. split.
  { unfold extent_entry_drop. rewrite (next_ok _ _ e (concat b ++ post)) by (try done; by rewrite Hv', drop_pre). bind_simpl.
    rewrite (proj2 (Z.eqb_neq _ _) Ht). cbn [negb assert mbind option_bind]. rewrite Hend.
    rewrite (proj2 (assert_true _)) by (apply Nat.leb_le; lia). bind_simpl. reflexivity. }
  replace (start + length (concat a) + length e - (start + length (concat a)))%nat with (length e) by lia.
  assert (wsub 8 (k_u64s (kv_k k)) (Z.of_nat (length e)) = BKEY_U64S + Z.of_nat (start + length (concat (a ++ b)))) as Hw.
  { rewrite concat_app, length_app, wsub_small; unfold in_range, BKEY_U64S, MAX in *; lia. }
  split; [|done]. eapply (holds_same k); cbn [kv_k kv_v kv_with_u64s k_u64s]; [done|done|apply H| |done|done| |].
  - unfold move_entries. replace (start + (length (concat a) + (length e + length (concat b))) - (start + length (concat a) + length e))%nat with (length (concat b)) by lia.
    rewrite Hv' at 1. rewrite (take_app_length' (pre ++ concat a)) by done.
    rewrite Hv'' at 1. rewrite (drop_pre ((pre ++ concat a) ++ e)) by (rewrite length_app; lia). rewrite take_app_length.
    rewrite concat_app, <- !app_assoc. reflexivity.
  - rewrite Hw. rewrite concat_app, length_app. unfold BKEY_U64S, MAX in *. lia.
  - by apply Forall_app.
Qed.

Lemma same_key_type k k' : same_key k k' -> k_type (kv_k k') = k_type (kv_k k).
Proof. by intros ->. Qed.
Lemma same_key_size k k' : same_key k k' -> k_size (kv_k k') = k_size (kv_k k).
Proof. by intros ->. Qed.
Lemma same_key_refl k : same_key k k.
Proof. unfold same_key. by destruct (kv_k k). Qed.

Lemma drop_before_ok start pre dc : forall a b k post fuel, holds k start pre (a ++ b) post -> k_type (kv_k k) <> KEY_TYPE_stripe -> (length a < fuel)%nat ->
  exists k' post', drop_before fuel k start (start + length (concat a)) dc = Some k' /\ holds k' start pre (prune dc a ++ b) post' /\ same_key k k'.
Proof.
  induction a as [|e a IH] using rev_ind; intros b k post fuel H Ht Hf; (destruct fuel as [|fuel]; [lia|]); cbn [drop_before].
  { unfold extent_entry_prev. cbn [concat length]. rewrite Nat.add_0_r, Nat.eqb_refl. bind_simpl. eexists _, _. split; [done|]. split; [exact H|apply same_key_refl]. }
  pose proof (h_entries _ _ _ _ _ H) as Hes. pose proof Hes as Hes'. apply Forall_app in Hes' as [Hae Hb]. pose proof Hae as Hae'. apply Forall_app in Hae' as [Ha He].
  apply Forall_cons_1 in He as [He _]. pose proof (h_start _ _ _ _ _ H) as Hst. pose proof (h_mem _ _ _ _ _ H) as Hv. rewrite concat_app in Hv.
  assert (kv_v k = (pre ++ concat a) ++ e ++ concat b ++ post) as Hv' by (rewrite Hv, concat_app; cbn; rewrite app_nil_r, <- !app_assoc; done).
  assert (extent_entry_prev (kv_v k) start (start + length (concat (a ++ [e]))) = Some (Some (start + length (concat a))%nat)) as ->.
  { unfold extent_entry_prev. assert (0 < length (concat (a ++ [e])))%nat as Hpos by (rewrite concat_app, length_app; cbn; rewrite app_nil_r; pose proof (entry_len _ He); lia).
    destruct (Nat.eqb_spec start (start + length (concat (a ++ [e])))); [lia|]. rewrite <- Hst.
    pose proof (concat_len _ Ha). assert (length (concat a) <= length (concat (a ++ [e])))%nat by (rewrite concat_app, length_app; lia).
    rewrite (prev_from_ok (kv_v k) (concat b ++ post) e a _ pre); [done|done|by rewrite Hv, <- !app_assoc|lia]. }
  bind_simpl. unfold value_at. rewrite Hv', drop_pre by (rewrite length_app; lia). rewrite is_ptr_app, is_crc_app, is_stripe_app by done. rewrite prune_snoc.
  destruct (extent_entry_is_ptr e) eqn:Ep. { eexists _, _. split; [done|]. split; [exact H|apply same_key_refl]. }
  fold (pruned dc e). rewrite <- !app_assoc in H. cbn [app] in H. rewrite length_app in Hf. cbn in Hf. destruct (pruned dc e).
  - destruct (entry_drop_ok k start pre a e b post H Ht) as (k1 & post1 & -> & H1 & Hk1). bind_simpl.
    destruct (IH b k1 post1 fuel H1) as (k2 & post2 & -> & H2 & Hk2); [by rewrite (same_key_type _ _ Hk1)|lia|].
    eexists _, _. split; [done|]. split; [exact H2|by eapply same_key_trans].
  - bind_simpl. rewrite <- app_assoc. apply (IH (e :: b) k post fuel H Ht). lia.
Qed.

Lemma ptr_type_bit e rest : entry_ok e -> extent_entry_is_ptr e = true -> BCH_EXTENT_PTR_TYPE (word (e ++ rest) 0) = 1.
Proof.
  intros He Hp. rewrite word_app by (by apply entry_len). pose proof (is_ptr_type _ Hp) as Ht. destruct He as (Hlt & _ & Hw).
  destruct e as [|w ws]; [done|]. apply Forall_cons_1 in Hw as [Hw _]. pose proof (type_low w ws (proj1 Hw) Hlt) as Hl. rewrite Ht in Hl.
  unfold get_bits in Hl. by rewrite Z.shiftr_0_r in Hl.
Qed.

Lemma drop_ptr_ok k start pre a e b post : holds k start pre (a ++ e :: b) post -> k_type (kv_k k) <> KEY_TYPE_stripe -> extent_entry_is_ptr e = true ->
  exists k' post', bch2_bkey_drop_ptr_noerror k (start + length (concat a)) = Some k' /\
    holds k' start pre (prune (crc_unused b) a ++ b) post' /\ same_key k k'.
Proof.
  intros H Ht Ep. pose proof (h_entries _ _ _ _ _ H) as Hes. apply Forall_app in Hes as [Ha Hb]. apply Forall_cons_1 in Hb as [He Hb].
  pose proof (h_mem _ _ _ _ _ H) as Hv. pose proof (h_start _ _ _ _ _ H) as Hst. pose proof (value_end_ok _ _ _ _ _ H) as Hend.
  rewrite concat_app in Hv, Hend. cbn [concat] in Hv, Hend. rewrite !length_app in Hend. pose proof (entry_len _ He).
  assert (kv_v k = ((pre ++ concat a) ++ e) ++ concat b ++ post) as Hv' by (rewrite Hv, <- !app_assoc; done).
  assert (drop (start + length (concat a)) (kv_v k) = e ++ concat b ++ post) as Hd by (rewrite Hv', <- (app_assoc _ e); apply drop_pre; rewrite length_app; lia).
  unfold bch2_bkey_drop_ptr_noerror. rewrite (proj2 (Z.eqb_neq _ _) Ht), (h_ptrs _ _ _ _ _ H), Hend. bind_simpl.
  rewrite (proj2 (assert_true ((start <=? _)%nat && _))) by (apply andb_true_intro; split; [apply Nat.leb_le|apply Nat.ltb_lt]; lia). bind_simpl.
  unfold value_at. rewrite Hd, ptr_type_bit by done. cbn [Z.eqb Pos.eqb assert mbind option_bind]. rewrite (next_ok _ _ e (concat b ++ post)) by done. bind_simpl.
  pose proof (concat_len _ Hb) as Hlb. replace (start + length (concat a) + length e)%nat with (length ((pre ++ concat a) ++ e)) by (rewrite !length_app; lia).
  replace (start + (length (concat a) + (length e + length (concat b))))%nat with (length ((pre ++ concat a) ++ e) + length (concat b))%nat by (rewrite !length_app; lia).
  rewrite (drop_crc_after_ok _ post b) by (done || lia). bind_simpl.
  destruct (entry_drop_ok k start pre a e b post H Ht) as (k1 & post1 & -> & H1 & Hk1). bind_simpl. pose proof (concat_len _ Ha) as Hla.
  destruct (drop_before_ok start pre (crc_unused b) a b k1 post1 (S (length ((pre ++ concat a) ++ e) + length (concat b))) H1) as (k2 & post2 & -> & H2 & Hk2).
  { by rewrite (same_key_type _ _ Hk1). }
  { rewrite !length_app. lia. }
  eexists _, _. split; [done|]. split; [exact H2|]. by eapply same_key_trans.
Qed.

(** An entry with a pointer, by its place. *)
Lemma decoded_split size i es : forall j d p, (i, p) ∈ decoded_at size j d es ->
  exists a e b, es = a ++ e :: b /\ extent_entry_is_ptr e = true /\ i = (j + length (concat a))%nat /\ p = dec_ptr e (dstate size d a).
Proof.
  induction es as [|e es IH]; intros j d p Hin; cbn [decoded_at] in Hin; [by apply not_elem_of_nil in Hin|].
  assert ((i, p) ∈ decoded_at size (j + length e) (if extent_entry_is_ptr e then dec_init (p_crc d) else dec_step size e d) es ->
    exists a e' b, e :: es = a ++ e' :: b /\ extent_entry_is_ptr e' = true /\ i = (j + length (concat a))%nat /\ p = dec_ptr e' (dstate size d a)) as Hrec.
  { intros H. apply IH in H as (a & e' & b & -> & H1 & H2 & H3). exists (e :: a), e', b. cbn [concat dstate]. rewrite length_app. split; [done|]. split; [done|].
    split; [lia|done]. }
  destruct (extent_entry_is_ptr e) eqn:Ep; [|by apply Hrec]. apply elem_of_cons in Hin as [Heq|Hin]; [|by apply Hrec].
  injection Heq as -> ->. exists [], e, es. cbn. split; [done|]. split; [done|]. split; [lia|done].
Qed.

Lemma drop_ptr_decoded k start pre es post i p : holds k start pre es post -> k_type (kv_k k) <> KEY_TYPE_stripe ->
  (i, p) ∈ decoded k start es ->
  exists k' es' post' l1 l2, bch2_bkey_drop_ptr_noerror k i = Some k' /\ holds k' start pre es' post' /\ same_key k k' /\
    decoded k start es = l1 ++ (i, p) :: l2 /\ map snd (decoded k' start es') = map snd (l1 ++ l2).
Proof.
  intros H Ht Hin. destruct (decoded_split _ _ _ _ _ _ Hin) as (a & e & b & -> & Ep & -> & ->).
  destruct (drop_ptr_ok k start pre a e b post H Ht Ep) as (k' & post' & Hd & H' & Hk).
  eexists k', _, post', _, _. split; [exact Hd|]. split; [exact H'|]. split; [done|]. unfold decoded. split.
  { rewrite decoded_app. cbn [decoded_at]. rewrite Ep. reflexivity. }
  rewrite (same_key_size _ _ Hk), decoded_pointers, map_app, !decoded_pointers. apply (prune_pointers _ _ a e); [|done].
  pose proof (h_entries _ _ _ _ _ H) as Hes. apply Forall_app in Hes as [_ Hb]. by apply Forall_cons_1 in Hb as [_ Hb].
Qed.

Lemma list_filter_all {B} (f : B -> bool) l : (forall x, x ∈ l -> f x = true) -> List.filter f l = l.
Proof.
  induction l as [|x l IH]; intros H; cbn; [done|]. rewrite H by (apply list_elem_of_here). f_equal. apply IH. intros y Hy. apply H. by apply list_elem_of_further.
Qed.

(** C: [bch2_bkey_drop_ptr_noerror] removes exactly the pointer it is given: all
    others are decoded as before, with their checksums and stripes, and in the
    same order. *)
Theorem drop_ptr_removes k start pre es post i p : holds k start pre es post -> k_type (kv_k k) <> KEY_TYPE_stripe ->
  (i, p) ∈ decoded k start es ->
  exists k' es' post' l1 l2, bch2_bkey_drop_ptr_noerror k i = Some k' /\ holds k' start pre es' post' /\ same_key k k' /\
    decoded k start es = l1 ++ (i, p) :: l2 /\ map snd (decoded k' start es') = map snd (l1 ++ l2).
Proof.
  intros H Ht Hin. by apply (drop_ptr_decoded _ _ _ _ post).
Qed.

(** *** Dropping a device *)

(** Induction over the pointers: a round drops one of them. *)
Lemma has_device_ok k start pre es post dev : holds k start pre es post ->
  bch2_bkey_has_device_c k dev = Some (fst <$> find (fun '(_, p) => BCH_EXTENT_PTR_DEV (p_ptr p) =? dev) (decoded k start es)).
Proof.
  intros H. unfold bch2_bkey_has_device_c. rewrite (for_entries_ok _ _ _ _ _ _ _ H). f_equal. unfold decoded.
  pose proof (indexed_at _ es post pre (h_mem _ _ _ _ _ H)) as Hat. rewrite (h_start _ _ _ _ _ H) in Hat.
  pose proof (h_entries _ _ _ _ _ H) as Hok. clear H. generalize (dec_init (crc_none (k_size (kv_k k)))). revert start Hat.
  induction es as [|e es IH]; intros i Hat d; cbn [indexed fold_break decoded_at find]; [done|].
  cbn [indexed] in Hat. apply Forall_cons_1 in Hat as [[rest Hat] Hats]. apply Forall_cons_1 in Hok as [He Hok].
  unfold value_at at 1 2. rewrite Hat, is_ptr_app, word_app by (done || by apply entry_len). destruct (extent_entry_is_ptr e); cbn [andb find p_ptr dec_ptr].
  - destruct (BCH_EXTENT_PTR_DEV (word e 0) =? dev); [done|by apply IH].
  - by apply IH.
Qed.

Lemma find_split {B} (f : B -> bool) l x : find f l = Some x -> f x = true /\ x ∈ l.
Proof. intros [H1 H2]%find_some. split; [done|]. by apply list_elem_of_In. Qed.

Lemma drop_device_ok dev : forall fuel k start pre es post, holds k start pre es post -> k_type (kv_k k) <> KEY_TYPE_stripe ->
  (length (decoded k start es) < fuel)%nat ->
  exists k' es' post', drop_device fuel bch2_bkey_drop_ptr_noerror k dev = Some k' /\ holds k' start pre es' post' /\ same_key k k' /\
    map snd (decoded k' start es') = List.filter (fun p => negb (BCH_EXTENT_PTR_DEV (p_ptr p) =? dev)) (map snd (decoded k start es)).
Proof.
  induction fuel as [|fuel IH]; intros k start pre es post H Ht Hf; [lia|]. cbn [drop_device]. rewrite (has_device_ok _ _ _ _ _ _ H). bind_simpl.
  destruct (find _ (decoded k start es)) as [[i p]|] eqn:Ef; cbn [fmap option_fmap option_map fst].
  - apply find_split in Ef as [Hp Hin]. destruct (drop_ptr_decoded _ _ _ _ _ _ _ H Ht Hin) as (k1 & es1 & post1 & l1 & l2 & -> & H1 & Hk1 & E1 & E2). bind_simpl.
    assert (length (decoded k1 start es1) < fuel)%nat as Hlt.
    { rewrite <- (length_map snd), E2, length_map. rewrite E1, !length_app in Hf. rewrite !length_app. cbn in Hf. lia. }
    destruct (IH k1 start pre es1 post1 H1) as (k2 & es2 & post2 & -> & H2 & Hk2 & E3); [by rewrite (same_key_type _ _ Hk1)|done|].
    eexists _, _, _. split; [done|]. split; [exact H2|]. split; [by eapply same_key_trans|]. rewrite E3, E2, E1, !map_app, !List.filter_app. cbn [map snd List.filter].
    by rewrite Hp.
  - eexists _, _, _. split; [done|]. split; [exact H|]. split; [apply same_key_refl|]. symmetry. apply list_filter_all. intros p Hin.
    apply list_elem_of_In, in_map_iff in Hin as ([j q] & <- & Hin). pose proof (find_none _ _ Ef _ Hin) as Hn. cbn in Hn |- *. by rewrite Hn.
Qed.

Lemma decoded_length size es : forall i d, (length (decoded_at size i d es) <= length es)%nat.
Proof. induction es as [|e es IH]; intros i d; cbn; [done|]. destruct (extent_entry_is_ptr e); cbn; specialize (IH (i + length e)%nat); [pose proof (IH (dec_init (p_crc d)))|pose proof (IH (dec_step size e d))]; lia. Qed.

(** C: [bch2_bkey_drop_device_noerror] ends, and leaves exactly the pointers to
    other devices, decoded as before and in their order. *)
Theorem drop_device_filters k start pre es post dev : holds k start pre es post -> k_type (kv_k k) <> KEY_TYPE_stripe ->
  exists k' es' post', bch2_bkey_drop_device_noerror k dev = Some k' /\ holds k' start pre es' post' /\ same_key k k' /\
    map snd (decoded k' start es') = List.filter (fun p => negb (BCH_EXTENT_PTR_DEV (p_ptr p) =? dev)) (map snd (decoded k start es)).
Proof.
  intros H Ht. apply (drop_device_ok dev _ k start pre es post H Ht). rewrite (value_end_ok _ _ _ _ _ H).
  pose proof (concat_len _ (h_entries _ _ _ _ _ H)). pose proof (decoded_length (k_size (kv_k k)) es start (dec_init (crc_none (k_size (kv_k k))))). unfold decoded. lia.
Qed.

(** ** Lists of devices as sets *)

Definition devs_in (d : bch_devs_list) : list Z := take (devs_nr d) (devs_data d).
Definition devs_wf (d : bch_devs_list) : Prop := (devs_nr d <= length (devs_data d))%nat /\ NoDup (devs_in d).

Lemma dev_index_ok dev data : forall nr i, (i + nr <= length data)%nat ->
  match dev_index data nr i dev with
  | Some j => (i <= j < i + nr)%nat /\ data !! j = Some dev
  | None => dev ∉ take nr (drop i data)
  end.
Proof.
  induction nr as [|nr IH]; intros i Hl; cbn [dev_index]; [apply not_elem_of_nil|].
  destruct (lookup_lt_is_Some_2 data i ltac:(lia)) as [x Hx]. rewrite (nth_lookup_Some _ _ _ _ Hx). destruct (Z.eqb_spec x dev) as [->|Hne].
  { split; [lia|done]. }
  specialize (IH (S i) ltac:(lia)). destruct (dev_index data nr (S i) dev) as [j|]; [split; [lia|by apply IH]|].
  rewrite (drop_S _ _ _ Hx). cbn [take]. intros [H|H]%elem_of_cons; [by subst x|by apply IH].
Qed.

Lemma dev_index_wf d dev : (devs_nr d <= length (devs_data d))%nat ->
  match dev_index (devs_data d) (devs_nr d) 0 dev with
  | Some j => (j < devs_nr d)%nat /\ devs_in d !! j = Some dev
  | None => dev ∉ devs_in d
  end.
Proof.
  intros Hl. pose proof (dev_index_ok dev (devs_data d) (devs_nr d) 0 ltac:(lia)) as H. destruct (dev_index _ _ _ _) as [j|]; [|by rewrite drop_0 in H].
  destruct H as [Hj H]. split; [lia|]. unfold devs_in. by rewrite lookup_take_lt by lia.
Qed.

Lemma shift_down_ok n : forall data j, (0 < j)%nat -> (j + n <= length data)%nat ->
  length (shift_down data n j) = length data /\ take (j - 1 + n) (shift_down data n j) = take (j - 1) data ++ take n (drop j data).
Proof.
  induction n as [|n IH]; intros data j Hj Hl; cbn [shift_down]. { rewrite Nat.add_0_r. cbn [take]. by rewrite app_nil_r. }
  destruct (lookup_lt_is_Some_2 data j ltac:(lia)) as [x Hx]. rewrite (nth_lookup_Some _ _ _ _ Hx).
  specialize (IH (<[(j - 1)%nat := x]> data) (S j)). rewrite length_insert in IH. destruct IH as [IH1 IH2]; [lia..|]. split; [done|].
  replace (j - 1 + S n)%nat with (S j - 1 + n)%nat by lia. rewrite IH2. replace (S j - 1)%nat with (S (j - 1)) by lia.
  rewrite (take_S_r _ _ x) by (apply list_lookup_insert_eq; lia). rewrite take_insert_ge by lia. rewrite drop_insert_lt by lia.
  rewrite (drop_S data x j Hx). cbn [take]. by rewrite <- app_assoc.
Qed.

(** C: The list of devices is a set without duplicates: membership, adding and
    removing are those of the set, and adding fails only when all places are
    taken. *)
Theorem devs_list_is_set d dev : devs_wf d ->
  (bch2_dev_list_has_dev d dev = true <-> dev ∈ devs_in d) /\
  (devs_wf (bch2_dev_list_drop_dev d dev) /\ forall x, x ∈ devs_in (bch2_dev_list_drop_dev d dev) <-> x ∈ devs_in d /\ x <> dev) /\
  match bch2_dev_list_add_dev d dev with
  | Some d' => devs_wf d' /\ forall x, x ∈ devs_in d' <-> x = dev \/ x ∈ devs_in d
  | None => dev ∉ devs_in d /\ devs_nr d = length (devs_data d)
  end.
Proof.
  intros [Hl Hnd]. pose proof (dev_index_wf d dev Hl) as Hi. unfold bch2_dev_list_drop_dev, bch2_dev_list_add_dev, bch2_dev_list_has_dev.
  destruct (dev_index (devs_data d) (devs_nr d) 0 dev) as [j|].
  - destruct Hi as [Hj Hi]. assert (dev ∈ devs_in d) as Hin by (by eapply list_elem_of_lookup_2).
    split; [done|]. split; [|split; [done|]; (intros x; split; [tauto|]; by intros [->|?])].
    destruct (shift_down_ok (devs_nr d - S j) (devs_data d) (S j)) as [H1 H2]; [lia..|].
    assert (devs_in (mk_devs (devs_nr d - 1) (shift_down (devs_data d) (devs_nr d - S j) (S j))) = delete j (devs_in d)) as E.
    { unfold devs_in at 1. cbn [devs_nr devs_data]. replace (devs_nr d - 1)%nat with (S j - 1 + (devs_nr d - S j))%nat by lia. rewrite H2.
      rewrite delete_take_drop. unfold devs_in. rewrite take_take, take_drop_commute.
      rewrite (Nat.min_l j) by lia. replace (S j + (devs_nr d - S j))%nat with (devs_nr d) by lia. by rewrite Nat.sub_succ, Nat.sub_0_r. }
    unfold devs_wf. rewrite E. cbn [devs_nr devs_data]. rewrite H1. rewrite (delete_take_drop (devs_in d)) in *.
    assert (devs_in d = take j (devs_in d) ++ dev :: drop (S j) (devs_in d)) as Es by (symmetry; by apply take_drop_middle).
    rewrite Es in Hnd. apply list.NoDup_app in Hnd as (Hn1 & Hn2 & Hn3). apply list.NoDup_cons in Hn3 as [Hn3 Hn4]. split; [split; [lia|]|].
    + apply list.NoDup_app. split; [done|]. split; [|done]. intros x Hx Hx'. apply (Hn2 x Hx). by apply list_elem_of_further.
    + intros x. rewrite Es at 3. rewrite !elem_of_app, elem_of_cons. split.
      * intros [Hx|Hx]; (split; [tauto|]); intros ->; [|done]. apply (Hn2 dev Hx), list_elem_of_here.
      * intros [[Hx|[Hx|Hx]] Hne]; tauto.
  - split; [split; [done|intros H; by apply Hi in H]|]. split. { split; [done|]. intros x. split; [|tauto]. intros H. split; [done|]. by intros ->. }
    destruct (Nat.ltb_spec (devs_nr d) (length (devs_data d))) as [Hlt|Hge]; cbn [assert mbind option_bind]; [|split; [done|lia]].
    assert (devs_in (mk_devs (S (devs_nr d)) (<[devs_nr d := dev]> (devs_data d))) = devs_in d ++ [dev]) as E.
    { unfold devs_in. cbn [devs_nr devs_data]. rewrite (take_S_r _ _ dev) by (apply list_lookup_insert_eq; lia). by rewrite take_insert_ge by lia. }
    unfold devs_wf. rewrite E. cbn [devs_nr devs_data]. rewrite length_insert. split; [split; [lia|]|].
    + apply list.NoDup_app. split; [done|]. split; [|apply NoDup_singleton]. intros x Hx ->%list_elem_of_singleton. done.
    + intros x. rewrite elem_of_app, list_elem_of_singleton. tauto.
Qed.

(** ** Concrete keys *)

Definition sample_ptr (dev off gen : Z) : Z := 1 + off * 2 ^ 4 + dev * 2 ^ 48 + gen * 2 ^ 56.
Definition sample_crc32 : Z := 2 + 7 * 2 ^ 2 + 15 * 2 ^ 9 + 4 * 2 ^ 16 + 1 * 2 ^ 24 + 0xdeadbeef * 2 ^ 32.

(** Sectors 100 to 108 of the file 10: on device 1 as they are, and with a
    checksum over 16 sectors on devices 2 and 1. *)
Definition sample_entries : list (list Z) := [[sample_ptr 1 1000 3]; [sample_crc32]; [sample_ptr 2 2000 5]; [sample_ptr 1 3000 4]].
Definition sample_extent : kv := mk_kv (mk_bkey 9 KEY_FORMAT_CURRENT KEY_TYPE_extent ZERO_VERSION 8 (SPOS 10 108 0)) (concat sample_entries ++ [0; 0]).

Lemma sample_holds : holds sample_extent 0 [] sample_entries [0; 0].
Proof.
  constructor; try done. unfold sample_entries. repeat apply Forall_cons_2; try apply Forall_nil_2;
    (split; [vm_compute; reflexivity|split; [vm_compute; reflexivity|]]; apply Forall_cons_2; [unfold in_range; vm_compute; split; congruence|apply Forall_nil_2]).
Qed.

Lemma sample_wf : pointers_wf sample_extent 0 sample_entries.
Proof.
  unfold pointers_wf, ptr_wf. match goal with |- Forall _ ?l => let l' := eval vm_compute in l in change l with l' end.
  repeat apply Forall_cons_2; try apply Forall_nil_2; vm_compute; split; congruence.
Qed.

Lemma sample_range : range_ok (kv_k sample_extent).
Proof. unfold range_ok. cbn. lia. Qed.

Lemma cut_front_keeps_places_witness : exists k' es', bch2_cut_front_s (SPOS 10 103 0) sample_extent = Some (k', 0) /\
  Forall2 (fun '(i, p) '(i', p') => i = i' /\ same_place sample_extent k' p p') (decoded sample_extent 0 sample_entries) (decoded k' 0 es').
Proof.
  destruct (cut_front_keeps_places sample_extent 0 [] sample_entries [0; 0] (SPOS 10 103 0) sample_holds (or_introl eq_refl) sample_range sample_wf eq_refl)
    as (k' & es' & H1 & _ & _ & _ & H2); [vm_compute; split; reflexivity|]. exists k', es'. split; [exact H1|exact H2].
Defined.

Lemma cut_front_matches_witness : exists k', bch2_cut_front_s (SPOS 10 103 0) sample_extent = Some (k', 0) /\ bch2_extents_match sample_extent k' = Some true.
Proof.
  apply (cut_front_matches sample_extent 0 [] sample_entries [0; 0] (SPOS 10 103 0) sample_holds (or_introl eq_refl) sample_range sample_wf eq_refl).
  - vm_compute. split; reflexivity.
  - vm_compute. congruence.
Defined.

Lemma cut_back_keeps_places_witness : exists k', bch2_cut_back_s (SPOS 10 103 0) sample_extent = Some (k', 0) /\ offset (k_p (kv_k k')) = 103.
Proof.
  destruct (cut_back_keeps_places sample_extent 0 [] sample_entries [0; 0] (SPOS 10 103 0) sample_holds sample_range eq_refl)
    as (k' & H1 & _ & _ & H2 & _); [vm_compute; split; reflexivity|]. exists k'. split; [exact H1|exact H2].
Defined.

Lemma drop_device_filters_witness : exists k', bch2_bkey_drop_device_noerror sample_extent 1 = Some k' /\ exists es',
  map (fun p => BCH_EXTENT_PTR_DEV (p_ptr p)) (map snd (decoded k' 0 es')) = [2].
Proof.
  destruct (drop_device_filters sample_extent 0 [] sample_entries [0; 0] 1 sample_holds) as (k' & es' & post' & H1 & _ & _ & H2); [vm_compute; congruence|].
  exists k'. split; [exact H1|]. exists es'. rewrite H2. vm_compute. reflexivity.
Defined.

Lemma devs_list_is_set_witness : bch2_dev_list_has_dev (bch2_dev_list_single 3) 3 = true.
Proof.
  apply (devs_list_is_set (bch2_dev_list_single 3) 3).
  - split; [cbn; lia|]. apply list.NoDup_singleton.
  - apply list_elem_of_here.
Defined.
