(* ===== verification/Topology.v ===== *)
(** * The topology of a node ([interior.rs], [bch2_btree_node_check_topology])

    The check of a root node: its own range is everything, and the ranges of its
    children follow each other without gap or overlap.  The keys are read with
    the node's iterator, from all sets of the node. *)

From stdpp Require Import base tactics list option sorting.
From Stdlib Require Import ZArith Lia.
From S2P Require Import Prelude Bpos BkeyPack BkeyOrder BsetMem ExtentKeys NodeIter.

Open Scope Z_scope.

(** ** Data *)

(** A key taken out of a node: type, position and value. *)
Record full_key := mk_full { full_type : Z; full_pos : bpos; full_val : list Z }.

Definition bch2_bkey_unpack (b : btree) (k : Z) : option full_key :=
  let m := key_mem b k in
  '(type_, p) ← (if bkey_packed m then key ← __bch2_bkey_unpack_key (b_format b) m; Some (k_type key, k_p key)
                 else Some (kp_type m, unpacked_pos m));
  Some (mk_full type_ p (take (Z.to_nat (bkeyp_val_u64s (b_format b) m)) (drop (Z.to_nat (bkeyp_key_u64s (b_format b) m)) m))).

(** [bch_btree_ptr_v2]: [mem_ptr], [seq], [sectors_written], [flags], then
    [min_key] behind the fourth byte of the third word. *)
Definition ptr_min_key (v : list Z) : option bpos :=
  w ← v !! 2%nat; o ← v !! 3%nat; i ← v !! 4%nat; Some (SPOS i o (w / 2 ^ 32)).

(** The node, the range in its header (if there is one in memory), the key that
    points to it, its level, and whether it is the root of its tree. *)
Record topology_node := mk_topology_node {
  tn_node : btree;
  tn_data : option (bpos * bpos);
  tn_key_type : Z;
  tn_key_pos : bpos;
  tn_key_min : bpos;
  tn_level : Z;
  tn_is_root : bool
}.

(** ** The check *)

(** [prev] is the child before, [from] where the first one must begin, [to]
    where the last one must end. *)
Fixpoint topology_loop (fuel : nat) (b : btree) (from to : bpos) (iter : btree_node_iter) (prev : option full_key) : option Z :=
  match fuel with
  | O => None
  | S fuel =>
      packed ← bch2_btree_node_iter_peek_all iter;
      match packed with
      | None => Some match prev with
                     | None => -1
                     | Some prev => if (full_type prev =? KEY_TYPE_deleted) || negb (bpos_eq (full_pos prev) to) then -1 else 0
                     end
      | Some k =>
          full ← bch2_bkey_unpack b k;
          if negb (full_type full =? KEY_TYPE_btree_ptr_v2) then Some 0 else
          expected ← match prev with
                     | Some prev => if negb (full_type prev =? KEY_TYPE_deleted) then bpos_successor (full_pos prev) else Some from
                     | None => Some from
                     end;
          min_key ← ptr_min_key (full_val full);
          if negb (bpos_eq expected min_key) then Some (-1) else
          iter ← bch2_btree_node_iter_advance iter b;
          topology_loop fuel b from to iter (Some full)
      end
  end.

Definition bch2_btree_node_check_topology (n : topology_node) : option Z :=
  match tn_data n with
  | None => Some (-22)
  | Some (min_key, max_key) =>
      let v2 := tn_key_type n =? KEY_TYPE_btree_ptr_v2 in
      let node_min := if v2 then tn_key_min n else min_key in
      if v2 && negb (bpos_eq node_min min_key) then Some (-1)
      else if tn_is_root n && (negb (bpos_eq min_key POS_MIN) || negb (bpos_eq max_key SPOS_MAX)) then Some (-1)
      else if tn_level n =? 0 then Some 0
      else
        iter ← bch2_btree_node_iter_init_from_start (tn_node n);
        topology_loop (S (iter_fuel (tn_node n))) (tn_node n) node_min (tn_key_pos n) iter None
  end.

(** ** Children that follow each other *)

Definition is_ptr_v2 (c : full_key) : bool := full_type c =? KEY_TYPE_btree_ptr_v2.

(** The children [cs] behind [prev] fill the range up to [to]: each begins right
    behind the one in front, the first at [from], and the last ends at [to].
    At a key that is no pointer to a child the check gives up. *)
Inductive tiled (from to : bpos) : option full_key -> list full_key -> Prop :=
  | tiled_end p : full_pos p = to -> tiled from to (Some p) []
  | tiled_stop prev c cs : is_ptr_v2 c = false -> tiled from to prev (c :: cs)
  | tiled_next prev c m cs : is_ptr_v2 c = true -> ptr_min_key (full_val c) = Some m ->
      match prev with Some p => bpos_successor (full_pos p) = Some m | None => m = from end ->
      tiled from to (Some c) cs -> tiled from to prev (c :: cs).

Definition node_child (b : btree) (k : Z) : full_key :=
  let m := key_mem b k in
  mk_full (kp_type m) (key_pos b k) (take (Z.to_nat (bkeyp_val_u64s (b_format b) m)) (drop (Z.to_nat (bkeyp_key_u64s (b_format b) m)) m)).

Lemma unpack_child b k : node_wf b -> node_key b k -> bch2_bkey_unpack b k = Some (node_child b k) /\ bpos_wf (key_pos b k).
Proof.
  intros [Hf _] (_ & key & Hk). unfold node_child, key_pos. rewrite (unpack_pos_spec _ _ key Hf Hk). split; [|apply Hk].
  unfold bch2_bkey_unpack. destruct Hk as [Hw [[Hh Hp]|[Hn Hu]]].
  - by rewrite (header_ok_packed _ _ Hh), (__bch2_bkey_unpack_key_spec _ _ _ Hf Hh Hw Hp).
  - by rewrite Hn, Hu.
Qed.

(** *** The walk without the iterator *)

Fixpoint tiling (from to : bpos) (prev : option full_key) (cs : list full_key) : option Z :=
  match cs with
  | [] => Some match prev with None => -1 | Some p => if bool_decide (full_pos p = to) then 0 else -1 end
  | c :: cs =>
      if negb (is_ptr_v2 c) then Some 0 else
      expected ← match prev with Some p => bpos_successor (full_pos p) | None => Some from end;
      m ← ptr_min_key (full_val c);
      if bool_decide (expected = m) then tiling from to (Some c) cs else Some (-1)
  end.

Lemma tiling_tiled from to cs : forall prev, tiling from to prev cs = Some 0 <-> tiled from to prev cs.
Proof.
  induction cs as [|c cs IH]; intros prev; cbn [tiling].
  - destruct prev as [p|]; [|split; [done|intros H; inversion H]]. case_bool_decide as E; (split; [|intros H; by inversion H]); [|done]. intros _. by apply tiled_end.
  - destruct (is_ptr_v2 c) eqn:Ec; cbn [negb]; [|split; [intros _; by apply tiled_stop|done]]. split.
    + destruct (match prev with Some p => _ | None => _ end) as [e|] eqn:Ee; [cbn [mbind option_bind]|done]. destruct (ptr_min_key (full_val c)) as [m|] eqn:Em; [cbn [mbind option_bind]|done].
      case_bool_decide as E; [subst e|done]. intros Ht. apply (tiled_next _ _ _ _ m); [done|done| |by apply IH]. destruct prev; [done|]. by injection Ee.
    + intros Ht. inversion Ht as [|? ? ? Hc|? ? m ? _ Hm Hs Ht']; subst; [congruence|]. rewrite Hm.
      assert (match prev with Some p => bpos_successor (full_pos p) | None => Some from end = Some m) as -> by (destruct prev; [done|by subst]).
      cbn [mbind option_bind]. rewrite bool_decide_eq_true_2 by done. by apply IH.
Qed.

Lemma range_keys b k l : forall s, range_ok b (node_key b) (key_val b) s l -> k ∈ l -> node_key b k.
Proof. intros s [_ Hc _]. induction Hc as [|x n e l Hx _ _ _ _ IH]; intros H; [by apply not_elem_of_nil in H|]. apply elem_of_cons in H as [->|H]; [done|by apply IH]. Qed.

Section Loop.
Context (b : btree) (Hb : node_wf b) (from to : bpos).

Lemma loop_tiling fuel : forall iter A B C prev, iter_ok b (node_key b) (key_val b) iter A B C -> (length (concat [A; B; C]) < fuel)%nat ->
  (forall p, prev = Some p -> is_ptr_v2 p = true) ->
  exists ks, StronglySorted (val_le (key_val b)) ks /\ ks ≡ₚ concat [A; B; C] /\ Forall (node_key b) ks /\
    topology_loop fuel b from to iter prev = tiling from to prev (map (node_child b) ks).
Proof.
  pose proof (node_iter_order b Hb) as Hio. induction fuel as [|fuel IH]; intros iter A B C prev Hok Hn Hprev; [lia|]. cbn [topology_loop].
  rewrite (peek_all_spec b _ _ iter A B C (proj1 Hok)). cbn [mbind option_bind]. destruct A as [|x A]; cbn [head].
  - exists []. split; [constructor|]. split; [destruct Hok as (_ & HAB & HBC); destruct B; [by destruct C|done]|]. split; [constructor|]. cbn [map tiling]. destruct prev as [p|]; [|done].
    specialize (Hprev p eq_refl). unfold is_ptr_v2 in Hprev. apply Z.eqb_eq in Hprev. rewrite Hprev, bpos_eq_spec. change (KEY_TYPE_btree_ptr_v2 =? KEY_TYPE_deleted) with false. cbn [orb]. by case_bool_decide.
  - assert (node_key b x) as Hx. { destruct Hok as ((s0 & s1 & s2 & _ & H0 & _) & _). by destruct (range_head b _ _ s0 x A H0). }
    destruct (advance_spec b _ _ iter x A B C Hok) as (iter' & A' & B' & C' & Ea & Hok' & HP). apply concat_perm in HP.
    assert (length (concat [A'; B'; C']) < fuel)%nat as Hn' by (rewrite HP; cbn [concat app length] in Hn |- *; lia).
    assert (forall ks, StronglySorted (val_le (key_val b)) ks -> ks ≡ₚ concat [A'; B'; C'] -> StronglySorted (val_le (key_val b)) (x :: ks) /\ x :: ks ≡ₚ concat [x :: A; B; C]) as Hcons.
    { intros ks Hs HPk. rewrite HP in HPk. split; [constructor; [done|]|by rewrite HPk]. rewrite HPk. by eapply iter_ok_least. }
    assert (forall ks, ks ≡ₚ concat [A'; B'; C'] -> Forall (node_key b) ks) as Hkeys.
    { intros ks ->. destruct Hok' as ((s0 & s1 & s2 & _ & H0 & H1 & H2) & _). apply Forall_forall. intros y Hy. cbn [concat] in Hy. rewrite app_nil_r, !elem_of_app in Hy. destruct Hy as [Hy|[Hy|Hy]]; [exact (range_keys b y _ _ H0 Hy)|exact (range_keys b y _ _ H1 Hy)|exact (range_keys b y _ _ H2 Hy)]. }
    destruct (unpack_child b x Hb Hx) as [-> _]. cbn [mbind option_bind]. fold (is_ptr_v2 (node_child b x)). destruct (is_ptr_v2 (node_child b x)) eqn:Ev; cbn [negb].
    + destruct (IH iter' A' B' C' (Some (node_child b x)) Hok' Hn') as (ks & Hs & HPk & Hks & El); [by intros p [= <-]|]. destruct (Hcons ks Hs HPk) as [Hs' HPk'].
      exists (x :: ks). split; [done|]. split; [done|]. split; [by constructor|]. cbn [map tiling]. rewrite Ev. cbn [negb].
      assert (match prev with Some prev => if negb (full_type prev =? KEY_TYPE_deleted) then bpos_successor (full_pos prev) else Some from | None => Some from end
        = match prev with Some p => bpos_successor (full_pos p) | None => Some from end) as ->.
      { destruct prev as [p|]; [|done]. specialize (Hprev p eq_refl). unfold is_ptr_v2 in Hprev. apply Z.eqb_eq in Hprev. by rewrite Hprev. }
      destruct (match prev with Some p => _ | None => _ end) as [e|]; [cbn [mbind option_bind]|done]. destruct (ptr_min_key (full_val (node_child b x))) as [m|]; [cbn [mbind option_bind]|done].
      rewrite bpos_eq_spec. case_bool_decide; cbn [negb]; [|done]. by rewrite Ea.
    + destruct (iter_all_spec b _ _ fuel iter' A' B' C' Hok' Hn') as (ks & _ & Hs & HPk). destruct (Hcons ks Hs HPk) as [Hs' HPk'].
      exists (x :: ks). split; [done|]. split; [done|]. split; [constructor; [done|by apply Hkeys]|]. cbn [map tiling]. by rewrite Ev.
Qed.
End Loop.

(** *** What the check establishes *)

(** A position in the range of a child. *)
Definition child_covers (c : full_key) (p : bpos) : Prop :=
  exists m, ptr_min_key (full_val c) = Some m /\ bpos_val m <= bpos_val p <= bpos_val (full_pos c).

Definition by_position (c c' : full_key) : Prop := bpos_val (full_pos c) <= bpos_val (full_pos c').

(** Where the next child must begin. *)
Definition next_from (from : bpos) (prev : option full_key) : Z := match prev with Some p => bpos_val (full_pos p) + 1 | None => bpos_val from end.

Lemma tiled_min from prev m : (forall p, prev = Some p -> bpos_wf (full_pos p)) ->
  match prev with Some p => bpos_successor (full_pos p) = Some m | None => m = from end -> bpos_val m = next_from from prev.
Proof.
  intros Hw Hs. destruct prev as [p|]; [|by subst]. pose proof (bpos_successor_spec _ (Hw p eq_refl)) as H. rewrite Hs in H. apply H.
Qed.

Lemma tiled_behind from to cs : forall prev c', tiled from to prev cs -> Forall (fun c => is_ptr_v2 c = true /\ bpos_wf (full_pos c)) cs -> StronglySorted by_position cs ->
  (forall p, prev = Some p -> bpos_wf (full_pos p) /\ Forall (by_position p) cs) -> c' ∈ cs -> forall m, ptr_min_key (full_val c') = Some m -> next_from from prev <= bpos_val m \/ prev = None.
Proof.
  induction cs as [|c cs IH]; intros prev c' Ht Hv Hs Hp Hin m Hm; [by apply not_elem_of_nil in Hin|]. apply Forall_cons_1 in Hv as [[Hc Hw] Hv]. apply StronglySorted_inv in Hs as [Hs Hcs].
  destruct prev as [p|]; [left|by right]. destruct (Hp p eq_refl) as [Hwp Hall]. apply Forall_cons_1 in Hall as [Hpc Hall].
  inversion Ht as [|? ? ? Hn|? ? m0 ? _ Hm0 Hs0 Ht']; subst; [congruence|]. apply elem_of_cons in Hin as [->|Hin].
  - rewrite Hm in Hm0. injection Hm0 as <-. rewrite (tiled_min from (Some p) m); [lia| |done]. by intros ? [= <-].
  - destruct (IH (Some c) c' Ht' Hv Hs) with (m := m) as [H|]; [by intros ? [= <-]|done|done| |done]. cbn in *. unfold by_position in Hpc. lia.
Qed.

Lemma tiled_covers from to p cs : bpos_wf from -> forall prev, tiled from to prev cs -> Forall (fun c => is_ptr_v2 c = true /\ bpos_wf (full_pos c)) cs -> StronglySorted by_position cs ->
  (forall x, prev = Some x -> bpos_wf (full_pos x) /\ Forall (by_position x) cs) -> next_from from prev <= bpos_val p <= bpos_val to ->
  exists c, c ∈ cs /\ child_covers c p /\ forall c', c' ∈ cs -> child_covers c' p -> c' = c.
Proof.
  intros Hf. induction cs as [|c cs IH]; intros prev Ht Hv Hs Hp Hin.
  { inversion Ht as [x E| |]; subst. cbn in Hin. lia. }
  apply Forall_cons_1 in Hv as [[Hc Hw] Hv]. apply StronglySorted_inv in Hs as [Hs Hcs].
  inversion Ht as [|? ? ? Hn|? ? m ? _ Hm Hs0 Ht']; subst; [congruence|].
  assert (bpos_val m = next_from from prev) as Em by (apply tiled_min; [intros x Hx; by apply Hp|exact Hs0]).
  assert (forall x, Some c = Some x -> bpos_wf (full_pos x) /\ Forall (by_position x) cs) as Hnext by (by intros x [= <-]).
  assert (forall c' m', c' ∈ cs -> ptr_min_key (full_val c') = Some m' -> bpos_val (full_pos c) < bpos_val m') as Hlater.
  { intros c' m' Hc' Hm'. destruct (tiled_behind from to cs (Some c) c' Ht' Hv Hs Hnext Hc' m' Hm') as [H|]; [cbn in H; lia|done]. }
  destruct (Z.le_gt_cases (bpos_val p) (bpos_val (full_pos c))) as [Hle|Hgt].
  - exists c. split; [apply list_elem_of_here|]. split; [exists m; split; [done|lia]|]. intros c' Hc' (m' & Hm' & Hr). apply elem_of_cons in Hc' as [->|Hc']; [done|]. specialize (Hlater c' m' Hc' Hm'). lia.
  - destruct (IH (Some c) Ht' Hv Hs Hnext) as (x & Hx & Hcx & Hu); [cbn; lia|]. exists x. split; [by apply list_elem_of_further|]. split; [done|].
    intros c' Hc' Hcov. apply elem_of_cons in Hc' as [->|Hc']; [|by apply Hu]. destruct Hcov as (m' & _ & Hr). lia.
Qed.

(** The range in the header, and the children. *)
Definition node_min (n : topology_node) (min_key : bpos) : bpos := if tn_key_type n =? KEY_TYPE_btree_ptr_v2 then tn_key_min n else min_key.

Record topology_sound (n : topology_node) (Ls : list (list Z)) : Prop := {
  ts_range : exists min_key max_key, tn_data n = Some (min_key, max_key) /\ node_min n min_key = min_key /\ (tn_is_root n = true -> min_key = POS_MIN /\ max_key = SPOS_MAX) /\
    (tn_level n <> 0 -> exists ks, StronglySorted (val_le (key_val (tn_node n))) ks /\ ks ≡ₚ concat Ls /\
       let cs := map (node_child (tn_node n)) ks in tiled min_key (tn_key_pos n) None cs /\
       (Forall (fun c => is_ptr_v2 c = true) cs -> bpos_wf min_key -> forall p, bpos_val min_key <= bpos_val p <= bpos_val (tn_key_pos n) ->
          exists c, c ∈ cs /\ child_covers c p /\ forall c', c' ∈ cs -> child_covers c' p -> c' = c))
}.

Lemma key_val_position b k k' : node_key b k -> node_key b k' -> val_le (key_val b) k k' -> by_position (node_child b k) (node_child b k').
Proof. intros [Hk _] [Hk' _]. unfold val_le, key_val, by_position, in_range in *. cbn [node_child full_pos]. destruct (negb _), (negb _); cbn [Z.b2z]; lia. Qed.

Lemma children_sorted b ks : Forall (node_key b) ks -> StronglySorted (val_le (key_val b)) ks -> StronglySorted by_position (map (node_child b) ks).
Proof.
  intros Hk Hs. induction Hs as [|k ks Hs IH Hall]; [constructor|]. apply Forall_cons_1 in Hk as [Hk Hks]. cbn [map]. constructor; [by apply IH|].
  apply Forall_forall. intros c Hc. apply list_elem_of_fmap in Hc as (k' & -> & Hk'). rewrite Forall_forall in Hall, Hks. apply key_val_position; auto.
Qed.

Lemma check_topology_sound n Ls : node_ok (tn_node n) Ls -> bch2_btree_node_check_topology n = Some 0 -> topology_sound n Ls.
Proof.
  intros (Hb & Hl & Hs). unfold bch2_btree_node_check_topology. destruct (tn_data n) as [[min_key max_key]|] eqn:Ed; [|done]. cbv zeta. fold (node_min n min_key). rewrite !bpos_eq_spec.
  destruct ((tn_key_type n =? KEY_TYPE_btree_ptr_v2) && negb (bool_decide (node_min n min_key = min_key))) eqn:E1; [done|].
  destruct (tn_is_root n && _) eqn:E2; [done|]. intros H. constructor. exists min_key, max_key. split; [done|].
  assert (node_min n min_key = min_key) as Em. { unfold node_min in *. destruct (_ =? _); [|done]. cbn [andb] in E1. by apply negb_false_iff, bool_decide_eq_true in E1. }
  split; [done|]. split.
  { intros Hr. rewrite Hr in E2. cbn [andb] in E2. apply orb_false_iff in E2 as [Ha Hz]. split; [by apply negb_false_iff, bool_decide_eq_true in Ha|by apply negb_false_iff, bool_decide_eq_true in Hz]. }
  intros Hlev. rewrite (proj2 (Z.eqb_neq _ _) Hlev) in H. pose proof (node_iter_order _ Hb) as Hio.
  destruct (iter_start_spec _ _ _ Ls Hs Hl) as (iter & A & B & C & E & Hok & HP). rewrite E in H. cbn [mbind option_bind] in H.
  pose proof (order_fuel _ Hb iter A B C Hok) as Hfuel.
  destruct (loop_tiling _ Hb (node_min n min_key) (tn_key_pos n) (S (iter_fuel (tn_node n))) iter A B C None Hok) as (ks & Hks & HPk & Hk & El); [lia|done|].
  rewrite El in H. apply tiling_tiled in H. rewrite Em in H. exists ks. split; [done|]. split; [by rewrite HPk|]. split; [done|]. intros Hv Hw p Hp.
  apply (tiled_covers _ _ _ _ Hw None H); [|by apply children_sorted|done|done]. apply Forall_forall. intros c Hc. split; [by apply (proj1 (Forall_forall _ _) Hv)|].
  apply list_elem_of_fmap in Hc as (k & -> & Hin). apply (unpack_child _ k Hb). by apply (proj1 (Forall_forall _ _) Hk).
Qed.

(** ** Example *)

(** A root of two children that meet behind position (5, 0, 0). *)
Definition child_key (type_ : Z) (min_key p : bpos) : list Z :=
  [10 + 2 ^ 8 + type_ * 2 ^ 16; 0; snapshot p * 2 ^ 32; offset p; inode p; 0; 0; snapshot min_key * 2 ^ 32; offset min_key; inode min_key].
Definition root_of (keys : list (list Z)) : topology_node :=
  mk_topology_node (mk_btree BKEY_FORMAT_CURRENT 160 ([0; 0; 0] ++ concat keys) [mk_bset_tree 0 BSET_NO_AUX_TREE_VAL 0 0 (3 + Z.of_nat (length (concat keys)))])
    (Some (POS_MIN, SPOS_MAX)) KEY_TYPE_btree_ptr_v2 SPOS_MAX POS_MIN 1 true.
Definition two_children : topology_node :=
  root_of [child_key KEY_TYPE_btree_ptr_v2 POS_MIN (SPOS 5 0 0); child_key KEY_TYPE_btree_ptr_v2 (SPOS 5 0 1) SPOS_MAX].

Lemma two_children_ok : node_ok (tn_node two_children) [[3; 13]].
Proof.
  assert (forall k p, in_range 16 k -> bpos_wf p -> bkey_packed (key_mem (tn_node two_children) k) = false -> unpacked_pos (key_mem (tn_node two_children) k) = p -> node_key (tn_node two_children) k) as Hkey.
  { intros k p Hk Hw Hn Hu. split; [done|]. exists (mk_bkey 5 1 1 ZERO_VERSION 0 p). split; [|by right]. split_and!; try done; unfold bversion_wf, in_range; cbn; lia. }
  split; [split; [apply current_format_wf|reflexivity]|]. split; [cbn; lia|]. constructor; [|constructor].
  assert (node_key (tn_node two_children) 3 /\ node_key (tn_node two_children) 13) as [H3 H13].
  { split; [apply (Hkey 3 (SPOS 5 0 0))|apply (Hkey 13 SPOS_MAX)]; try (by vm_compute); repeat split; by vm_compute. }
  split; [cbn; lia|]. split; [cbn; lia|]. split; cbn [it_end it_k]; [by vm_compute| |repeat constructor; unfold val_le; by vm_compute].
  apply (chain_cons _ _ 3 10); [done|done|lia|by vm_compute|]. apply (chain_cons _ _ 13 10); [done|done|lia|by vm_compute|]. constructor.
Qed.

Example two_children_pass : bch2_btree_node_check_topology two_children = Some 0.
Proof. vm_compute. reflexivity. Qed.
Example gap_found : bch2_btree_node_check_topology (root_of [child_key KEY_TYPE_btree_ptr_v2 POS_MIN (SPOS 5 0 0); child_key KEY_TYPE_btree_ptr_v2 (SPOS 6 0 0) SPOS_MAX]) = Some (-1).
Proof. vm_compute. reflexivity. Qed.

(** The iterator also returns deleted keys, and the check ends with success at
    the first: the gap behind it is not found. *)
Example gap_behind_deleted : bch2_btree_node_check_topology (root_of [child_key KEY_TYPE_deleted POS_MIN (SPOS 4 0 0); child_key KEY_TYPE_btree_ptr_v2 (SPOS 6 0 0) (SPOS 7 0 0)]) = Some 0.
Proof. vm_compute. reflexivity. Qed.
