(* ===== verification/AllocKeys.v ===== *)
(** * Values of the allocation trees ([btree/bset.rs])

    The buckets of a device are described by [bch_alloc_v4] values, the owners
    of its sectors by [bch_backpointer] values.  Modelled: their layout in
    words, as [read_unaligned] and the copies of whole structures see it. *)

From stdpp Require Import base tactics list option.
From Stdlib Require Import ZArith Lia.
From S2P Require Import Prelude Bpos BkeyPack Checksum Extents.

Open Scope Z_scope.

Definition KEY_TYPE_alloc_v4 : Z := 27.
Definition KEY_TYPE_backpointer : Z := 28.

Record bch_alloc_v4 := mk_alloc {
  journal_seq_nonempty : Z;
  a_flags : Z;
  gen : Z;
  oldest_gen : Z;
  data_type : Z;
  stripe_redundancy_obsolete : Z;
  dirty_sectors : Z;
  cached_sectors : Z;
  io_time : Z * Z;
  stripe_refcount : Z;
  nr_external_backpointers : Z;
  journal_seq_empty : Z;
  stripe_sectors : Z;
  a_pad : Z
}.

#[export] Instance alloc_eq_dec : EqDecision bch_alloc_v4.
Proof. solve_decision. Defined.

Definition alloc_default : bch_alloc_v4 := mk_alloc 0 0 0 0 0 0 0 0 (0, 0) 0 0 0 0 0.

Definition set_data_type (a : bch_alloc_v4) (t : Z) : bch_alloc_v4 :=
  mk_alloc (journal_seq_nonempty a) (a_flags a) (gen a) (oldest_gen a) t (stripe_redundancy_obsolete a) (dirty_sectors a) (cached_sectors a)
    (io_time a) (stripe_refcount a) (nr_external_backpointers a) (journal_seq_empty a) (stripe_sectors a) (a_pad a).
Definition set_gens (a : bch_alloc_v4) (g og : Z) : bch_alloc_v4 :=
  mk_alloc (journal_seq_nonempty a) (a_flags a) g og (data_type a) (stripe_redundancy_obsolete a) (dirty_sectors a) (cached_sectors a)
    (io_time a) (stripe_refcount a) (nr_external_backpointers a) (journal_seq_empty a) (stripe_sectors a) (a_pad a).
Definition set_dirty_sectors (a : bch_alloc_v4) (d : Z) : bch_alloc_v4 :=
  mk_alloc (journal_seq_nonempty a) (a_flags a) (gen a) (oldest_gen a) (data_type a) (stripe_redundancy_obsolete a) d (cached_sectors a)
    (io_time a) (stripe_refcount a) (nr_external_backpointers a) (journal_seq_empty a) (stripe_sectors a) (a_pad a).

Definition alloc_wf (a : bch_alloc_v4) : Prop :=
  in_range 64 (journal_seq_nonempty a) /\ in_range 32 (a_flags a) /\ in_range 8 (gen a) /\ in_range 8 (oldest_gen a) /\ in_range 8 (data_type a) /\
  in_range 8 (stripe_redundancy_obsolete a) /\ in_range 32 (dirty_sectors a) /\ in_range 32 (cached_sectors a) /\ in_range 64 (io_time a).1 /\
  in_range 64 (io_time a).2 /\ in_range 32 (stripe_refcount a) /\ in_range 32 (nr_external_backpointers a) /\ in_range 64 (journal_seq_empty a) /\
  in_range 32 (stripe_sectors a) /\ in_range 32 (a_pad a).

(** Little endian, without gaps: eight words. *)
Definition ALLOC_V4_U64S : Z := 8.

Definition alloc_words (a : bch_alloc_v4) : list Z :=
  [journal_seq_nonempty a;
   ((((stripe_redundancy_obsolete a * 2 ^ 8 + data_type a) * 2 ^ 8 + oldest_gen a) * 2 ^ 8 + gen a) * 2 ^ 32) + a_flags a;
   cached_sectors a * 2 ^ 32 + dirty_sectors a;
   (io_time a).1; (io_time a).2;
   nr_external_backpointers a * 2 ^ 32 + stripe_refcount a;
   journal_seq_empty a;
   a_pad a * 2 ^ 32 + stripe_sectors a].

(** The structure at the start of a value. *)
Definition read_alloc (v : list Z) : bch_alloc_v4 :=
  mk_alloc (word v 0) (get_bits 0 32 (word v 1)) (get_bits 32 8 (word v 1)) (get_bits 40 8 (word v 1)) (get_bits 48 8 (word v 1)) (get_bits 56 8 (word v 1))
    (get_bits 0 32 (word v 2)) (get_bits 32 32 (word v 2)) (word v 3, word v 4) (get_bits 0 32 (word v 5)) (get_bits 32 32 (word v 5)) (word v 6)
    (get_bits 0 32 (word v 7)) (get_bits 32 32 (word v 7)).

Record bch_backpointer := mk_bp {
  bp_btree_id : Z;
  bp_level : Z;
  bp_data_type : Z;
  bp_bucket_gen : Z;
  bp_flags : Z;
  bp_bucket_len : Z;
  bp_pos : bpos
}.

#[export] Instance bp_eq_dec : EqDecision bch_backpointer.
Proof. solve_decision. Defined.

Definition BACKPOINTER_U64S : Z := 4.

(** The position is a packed structure: snapshot, offset, inode. *)
Definition bp_words (b : bch_backpointer) : list Z :=
  [bp_flags b * 2 ^ 32 + (((bp_bucket_gen b * 2 ^ 8 + bp_data_type b) * 2 ^ 8 + bp_level b) * 2 ^ 8 + bp_btree_id b);
   snapshot (bp_pos b) * 2 ^ 32 + bp_bucket_len b;
   offset (bp_pos b); inode (bp_pos b)].

Definition read_bp (v : list Z) : bch_backpointer :=
  mk_bp (get_bits 0 8 (word v 0)) (get_bits 8 8 (word v 0)) (get_bits 16 8 (word v 0)) (get_bits 24 8 (word v 0)) (get_bits 32 32 (word v 0))
    (get_bits 0 32 (word v 1)) (SPOS (word v 3) (word v 2) (get_bits 32 32 (word v 1))).

Definition bp_wf (b : bch_backpointer) : Prop :=
  in_range 8 (bp_btree_id b) /\ in_range 8 (bp_level b) /\ in_range 8 (bp_data_type b) /\ in_range 8 (bp_bucket_gen b) /\
  in_range 32 (bp_flags b) /\ in_range 32 (bp_bucket_len b) /\ bpos_wf (bp_pos b).

(** ** Writing a structure and reading it back *)

Lemma get_bits_mod off n v : 0 <= off -> 0 <= n -> get_bits off n v = v / 2 ^ off mod 2 ^ n.
Proof. intros Ho Hn. unfold get_bits. rewrite Z.land_ones, Z.shiftr_div_pow2 by lia. done. Qed.

(** A field between [l] below and [h] above. *)
Lemma get_middle off n h x l : 0 <= off -> 0 <= n -> 0 <= l < 2 ^ off -> 0 <= x < 2 ^ n -> get_bits off n ((h * 2 ^ n + x) * 2 ^ off + l) = x.
Proof. intros Ho Hn Hl Hx. rewrite get_bits_mod by lia. rewrite div_high by lia. by rewrite mod_low by lia. Qed.

Lemma get_lowest n h x : 0 <= n -> 0 <= x < 2 ^ n -> get_bits 0 n (h * 2 ^ n + x) = x.
Proof. intros Hn Hx. rewrite get_bits_mod by lia. change (2 ^ 0) with 1. rewrite Z.div_1_r. by apply mod_low. Qed.

Lemma get_highest off n x l : 0 <= off -> 0 <= n -> 0 <= l < 2 ^ off -> 0 <= x < 2 ^ n -> get_bits off n (x * 2 ^ off + l) = x.
Proof. intros Ho Hn Hl Hx. rewrite get_bits_mod by lia. rewrite div_high by lia. by apply Z.mod_small. Qed.

Lemma read_alloc_words a rest : alloc_wf a -> read_alloc (alloc_words a ++ rest) = a.
Proof.
  destruct a as [jn fl g og dt sr ds cs [t1 t2] rc ne je ss pd]. unfold alloc_wf, in_range. cbn. intros (?&?&?&?&?&?&?&?&?&?&?&?&?&?&?).
  unfold read_alloc, word, alloc_words. cbn [app nth journal_seq_nonempty a_flags gen oldest_gen data_type stripe_redundancy_obsolete dirty_sectors cached_sectors io_time fst snd
    stripe_refcount nr_external_backpointers journal_seq_empty stripe_sectors a_pad]. rewrite !get_lowest, !(get_highest 32 32), (get_middle 32 8) by lia.
  replace ((((sr * 2 ^ 8 + dt) * 2 ^ 8 + og) * 2 ^ 8 + g) * 2 ^ 32 + fl) with (((sr * 2 ^ 8 + dt) * 2 ^ 8 + og) * 2 ^ 40 + (g * 2 ^ 32 + fl)) by lia.
  rewrite (get_middle 40 8) by lia.
  replace (((sr * 2 ^ 8 + dt) * 2 ^ 8 + og) * 2 ^ 40 + (g * 2 ^ 32 + fl)) with ((sr * 2 ^ 8 + dt) * 2 ^ 48 + (og * 2 ^ 40 + g * 2 ^ 32 + fl)) by lia.
  rewrite (get_middle 48 8) by lia.
  replace ((sr * 2 ^ 8 + dt) * 2 ^ 48 + (og * 2 ^ 40 + g * 2 ^ 32 + fl)) with (sr * 2 ^ 56 + (dt * 2 ^ 48 + og * 2 ^ 40 + g * 2 ^ 32 + fl)) by lia.
  rewrite (get_highest 56 8) by lia. done.
Qed.

Lemma read_bp_words b rest : bp_wf b -> read_bp (bp_words b ++ rest) = b.
Proof.
  destruct b as [id lv dt g fl ln [i o s]]. unfold bp_wf, bpos_wf, in_range. cbn [bp_btree_id bp_level bp_data_type bp_bucket_gen bp_flags bp_bucket_len bp_pos inode offset snapshot].
  intros (?&?&?&?&?&?&?&?&?).
  unfold read_bp, word, bp_words. cbn [app nth bp_btree_id bp_level bp_data_type bp_bucket_gen bp_flags bp_bucket_len bp_pos inode offset snapshot].
  rewrite !(get_highest 32 32), (get_lowest 32) by lia.
  replace (fl * 2 ^ 32 + (((g * 2 ^ 8 + dt) * 2 ^ 8 + lv) * 2 ^ 8 + id)) with ((((fl * 2 ^ 8 + g) * 2 ^ 8 + dt) * 2 ^ 8 + lv) * 2 ^ 8 + id) by lia.
  rewrite (get_lowest 8), (get_middle 8 8) by lia.
  replace ((((fl * 2 ^ 8 + g) * 2 ^ 8 + dt) * 2 ^ 8 + lv) * 2 ^ 8 + id) with (((fl * 2 ^ 8 + g) * 2 ^ 8 + dt) * 2 ^ 16 + (lv * 2 ^ 8 + id)) by lia.
  rewrite (get_middle 16 8) by lia.
  replace (((fl * 2 ^ 8 + g) * 2 ^ 8 + dt) * 2 ^ 16 + (lv * 2 ^ 8 + id)) with ((fl * 2 ^ 8 + g) * 2 ^ 24 + (dt * 2 ^ 16 + lv * 2 ^ 8 + id)) by lia.
  rewrite (get_middle 24 8) by lia. done.
Qed.
