(* ===== verification/Trans.v ===== *)
(** * Transactions ([btree/update.rs])

    A transaction collects updates of keys, sorted by the order in which their
    triggers run, and commits them together.  Committing runs the triggers of
    the primary keys, which add updates of the allocation and backpointer trees
    to the same transaction, writes all keys to the journal, and applies them.

    The trees are represented by their contents: a map from a tree and a
    position to the key there; deleted keys are absent.  [BsetUpdate] and
    [NodeSort] relate the sets of keys of a node to such contents.  Paths,
    locks, splits and merges are not part of this model; what they do to a
    commit is its [commit_event].  Functions return [None] where the code
    panics, and otherwise the updates and the code's error number. *)

From stdpp Require Import base tactics list option gmap.
From Stdlib Require Import ZArith Lia.
From S2P Require Import Superblock Prelude Bpos BkeyPack Extents ExtentKeys AllocKeys.

Open Scope Z_scope.

#[export] Instance bpos_countable : Countable bpos :=
  inj_countable' (fun p => (inode p, offset p, snapshot p)) (fun '(i, o, s) => SPOS i o s) (fun p => match p with SPOS _ _ _ => eq_refl end).
#[export] Instance kv_eq_dec : EqDecision kv.
Proof. solve_decision. Defined.

Definition BTREE_ID_ALLOC : Z := 4.
Definition BTREE_ID_FREESPACE : Z := 5.
Definition BTREE_ID_NEED_DISCARD : Z := 6.
Definition BTREE_ID_BACKPOINTERS : Z := 8.
Definition BTREE_ID_NR : Z := 9.
Definition BTREE_ITER_INITIAL : nat := 64.
Definition KEY_TYPE_snapshot : Z := 22.

Definition BTREE_UPDATE_nojournal : Z := 2 ^ 19.
Definition BTREE_TRIGGER_norun : Z := 2 ^ 21.
Definition BTREE_TRIGGER_transactional : Z := 2 ^ 22.
Definition BTREE_TRIGGER_insert : Z := 2 ^ 25.
Definition BTREE_TRIGGER_overwrite : Z := 2 ^ 26.
Definition has_flag (flags f : Z) : bool := negb (Z.land flags f =? 0).

(** What the engine keeps: the trees, the parts of the superblock and of the
    journal that transactions look at, and how many restarts are still to be
    injected into transactions, and into those of the discard worker. *)
Record fs := mk_fs {
  f_trees : gmap (Z * bpos) kv;
  f_nr_devices : Z;
  f_members : option (list bch_member);
  f_devs_online : list Z;
  f_node_size : Z;
  f_last_seq_ondisk : Z;
  f_restarts : Z;
  f_discard_restarts : Z;
  f_journal : list (Z * kv)
}.

Definition with_trees (c : fs) (t : gmap (Z * bpos) kv) (j : list (Z * kv)) : fs :=
  mk_fs t (f_nr_devices c) (f_members c) (f_devs_online c) (f_node_size c) (f_last_seq_ondisk c) (f_restarts c) (f_discard_restarts c) j.
Definition with_restarts (c : fs) (n : Z) : fs :=
  mk_fs (f_trees c) (f_nr_devices c) (f_members c) (f_devs_online c) (f_node_size c) (f_last_seq_ondisk c) n (f_discard_restarts c) (f_journal c).
Definition with_discard_restarts (c : fs) (n : Z) : fs :=
  mk_fs (f_trees c) (f_nr_devices c) (f_members c) (f_devs_online c) (f_node_size c) (f_last_seq_ondisk c) (f_restarts c) n (f_journal c).

(** Without the field of the members, a member without a size. *)
Definition sb_member_get (c : fs) (dev : Z) : bch_member :=
  match f_members c with Some ms => nth (Z.to_nat dev) ms bch_member_default | None => bch_member_default end.

(** ** Keys *)

Definition deleted_key (pos : bpos) : kv := mk_kv (mk_bkey BKEY_U64S KEY_FORMAT_CURRENT KEY_TYPE_deleted ZERO_VERSION 0 pos) [].

(** A key of type [type_] at [pos] with the words [value]. *)
Definition value_key (pos : bpos) (type_ : Z) (value : list Z) : option kv :=
  h ← set_bkey_val_bytes (mk_bkey BKEY_U64S KEY_FORMAT_CURRENT type_ ZERO_VERSION 0 pos) (Z.of_nat (length value) * 8);
  Some (mk_kv h value).

Definition kv_type (k : kv) : Z := k_type (kv_k k).
Definition kv_pos (k : kv) : bpos := k_p (kv_k k).

(** The values are compared over the length of the key. *)
Definition bkey_and_val_eq (l r : kv) : bool :=
  bkey_fields_eq (kv_k l) (kv_k r) &&
  ((bkey_val_u64s (kv_k l) =? 0) || bool_decide (take (value_end l) (kv_v l) = take (value_end l) (kv_v r))).

(** The key at a position, deleted if there is none. *)
Definition peek_slot (c : fs) (btree : Z) (pos : bpos) : kv := default (deleted_key pos) (f_trees c !! (btree, pos)).

(** ** Updates *)

Record btree_insert_entry := mk_entry {
  e_flags : Z;
  e_sort_order : Z;
  e_bkey_type : Z;
  e_btree_id : Z;
  e_level : Z;
  e_cached : bool;
  e_insert_trigger_run : bool;
  e_overwrite_trigger_run : bool;
  e_k_buf_u64s : Z;
  e_k : kv;
  e_old : kv
}.

Definition then_cmp (c d : comparison) : comparison := match c with Eq => d | _ => c end.
Definition cmp_bool (l r : bool) : comparison := Z.compare (Z.b2z l) (Z.b2z r).

Definition btree_insert_entry_cmp (l r : btree_insert_entry) : comparison :=
  then_cmp (then_cmp (then_cmp (Z.compare (e_sort_order l) (e_sort_order r)) (cmp_bool (e_cached l) (e_cached r)))
    (Z.compare (e_level r) (e_level l))) (Z.compare (bpos_cmp (kv_pos (e_k l)) (kv_pos (e_k r))) 0).

Definition btree_trigger_order (btree : Z) : Z := if btree =? 4 then MAX 8 else if btree =? 6 then MAX 8 - 1 else btree.

(** Where an entry belongs: behind all smaller ones. *)
Fixpoint insert_idx (n : btree_insert_entry) (us : list btree_insert_entry) : nat :=
  match us with
  | u :: us => match btree_insert_entry_cmp n u with Gt => S (insert_idx n us) | _ => 0%nat end
  | [] => 0%nat
  end.

Definition set_run (e : btree_insert_entry) (ins ovw : bool) : btree_insert_entry :=
  mk_entry (e_flags e) (e_sort_order e) (e_bkey_type e) (e_btree_id e) (e_level e) (e_cached e) ins ovw (e_k_buf_u64s e) (e_k e) (e_old e).

(** For a path at level 0 of [btree] that stands at the key's position. *)
Definition btree_trans_update_by_path (c : fs) (us : list btree_insert_entry) (btree : Z) (k : kv) (k_buf_u64s flags : Z) : option (list btree_insert_entry) :=
  _ ← assert (length us <? BTREE_ITER_INITIAL)%nat;
  _ ← assert (k_u64s (kv_k k) <=? k_buf_u64s);
  let n := mk_entry flags (btree_trigger_order btree) (Z.min (btree + 1) (MAX 8)) btree 0 false false false k_buf_u64s k (peek_slot c btree (kv_pos k)) in
  let idx := insert_idx n us in
  match us !! idx with
  | Some u =>
      match btree_insert_entry_cmp n u with
      | Eq =>
          _ ← assert (negb (e_insert_trigger_run u) && negb (e_overwrite_trigger_run u));
          Some (<[idx := mk_entry flags (e_sort_order u) (e_bkey_type u) (e_btree_id u) (e_level u) (e_cached n) false false k_buf_u64s k (e_old u)]> us)
      | _ => Some (take idx us ++ n :: drop idx us)
      end
  | None => Some (take idx us ++ n :: drop idx us)
  end.

(** An update at an iterator that does not treat keys as extents. *)
Definition bch2_trans_update (c : fs) (us : list btree_insert_entry) (btree : Z) (k : kv) (flags : Z) : option (list btree_insert_entry) :=
  btree_trans_update_by_path c us btree k (k_u64s (kv_k k)) flags.

Definition bch2_btree_bit_mod (c : fs) (us : list btree_insert_entry) (btree : Z) (pos : bpos) (set : bool) : option (list btree_insert_entry) :=
  let k := mk_kv (mk_bkey BKEY_U64S KEY_FORMAT_CURRENT (if set then KEY_TYPE_set else KEY_TYPE_deleted) ZERO_VERSION 0 pos) [] in
  bch2_trans_update c us btree k 0.

Definition bch2_btree_delete (c : fs) (us : list btree_insert_entry) (btree : Z) (pos : bpos) : option (list btree_insert_entry) :=
  bch2_trans_update c us btree (deleted_key pos) 0.

(** ** Triggers *)

Definition key_trigger_kind (type_ : Z) : Z :=
  if type_ =? KEY_TYPE_snapshot then 1
  else if (type_ =? KEY_TYPE_extent) || (type_ =? KEY_TYPE_btree_ptr) || (type_ =? KEY_TYPE_btree_ptr_v2) then 2
  else 0.

(** 0: use the pointer, 1: skip it, -1: refuse the key. *)
Definition trigger_pointer_validate (c : fs) (ptr : Z) (insert : bool) : option Z :=
  let bad := Some (if insert then -1 else 1) in
  let dev := BCH_EXTENT_PTR_DEV ptr in
  if BCH_SB_MEMBERS_MAX <=? dev then bad else
  online ← bch2_dev_idx_is_online (f_devs_online c) dev;
  if negb online then bad
  else if f_nr_devices c <=? dev then bad
  else match f_members c with
  | None => bad
  | Some _ =>
      let member := sb_member_get c dev in
      if negb (bch2_member_alive member) || (m_bucket_size member =? 0) then bad else
      let bucket := BCH_EXTENT_PTR_OFFSET ptr / m_bucket_size member in
      let first := m_first_bucket member in
      if (first <=? bucket) && (bucket - first <? wsub 64 (m_nbuckets member) first) then Some 0 else bad
  end.

Fixpoint trigger_staged_key (us : list btree_insert_entry) (btree : Z) (pos : bpos) : option kv :=
  match us with
  | [] => None
  | i :: us => if (e_btree_id i =? btree) && (e_level i =? 0) && bpos_eq (kv_pos (e_k i)) pos then Some (e_k i) else trigger_staged_key us btree pos
  end.

Definition is_alloc (k : kv) : bool := (kv_type k =? KEY_TYPE_alloc_v4) && (ALLOC_V4_U64S * 8 <=? bkey_val_bytes (kv_k k)).

Definition trigger_read_alloc (c : fs) (us : list btree_insert_entry) (pos : bpos) : bch_alloc_v4 :=
  let from_tree := let found := peek_slot c 4 pos in if is_alloc found then read_alloc (kv_v found) else alloc_default in
  match trigger_staged_key us 4 pos with
  | Some staged => if is_alloc staged then read_alloc (kv_v staged) else from_tree
  | None => from_tree
  end.

Definition trigger_update_value (c : fs) (us : list btree_insert_entry) (btree : Z) (pos : bpos) (type_ : Z) (value : list Z) : option (list btree_insert_entry) :=
  k ← value_key pos type_ value;
  bch2_trans_update c us btree k 0.

Definition trigger_delete_value (c : fs) (us : list btree_insert_entry) (btree : Z) (pos : bpos) : option (list btree_insert_entry) :=
  bch2_trans_update c us btree (deleted_key pos) 0.

(** The bucket of a pointer of the key [k] gains or loses the key's sectors,
    and the pointer's sector its backpointer. *)
Definition trigger_pointer_derived (c : fs) (us : list btree_insert_entry) (btree level : Z) (k : kv) (ptr : Z) (insert : bool) : option (list btree_insert_entry * Z) :=
  let dev := BCH_EXTENT_PTR_DEV ptr in
  let member := sb_member_get c dev in
  _ ← assert (negb (m_bucket_size member =? 0));
  let bucket := BCH_EXTENT_PTR_OFFSET ptr / m_bucket_size member in
  let alloc_pos := POS dev bucket in
  let alloc := trigger_read_alloc c us alloc_pos in
  let generation := BCH_EXTENT_PTR_GEN ptr in
  if insert && negb (gen alloc =? 0) && negb (gen alloc =? generation) then Some (us, -1) else
  let alloc := if gen alloc =? 0 then set_gens alloc generation (oldest_gen alloc) else alloc in
  let sectors := if negb (level =? 0) then f_node_size c else k_size (kv_k k) in
  match (if insert then uadd 32 (dirty_sectors alloc) sectors else usub (dirty_sectors alloc) sectors) with
  | None => Some (us, -1)
  | Some value =>
      us ← trigger_update_value c us 4 alloc_pos KEY_TYPE_alloc_v4 (alloc_words (set_dirty_sectors alloc value));
      let bp_pos := POS dev (BCH_EXTENT_PTR_OFFSET ptr) in
      if negb insert then us ← trigger_delete_value c us 8 bp_pos; Some (us, 0)
      else us ← trigger_update_value c us 8 bp_pos KEY_TYPE_backpointer
                  (bp_words (mk_bp btree level (if level =? 0 then 0 else 1) generation 0 sectors (kv_pos k)));
           Some (us, 0)
  end.

Definition trigger_extent_pointers (c : fs) (us : list btree_insert_entry) (btree level : Z) (k : kv) (insert : bool) : option (list btree_insert_entry * Z) :=
  match bch2_bkey_ptrs_c k with
  | None => Some (us, 0)
  | Some (start, end_) =>
      each_entry (S end_) (fun _ => kv_v k) (fun entry '(us, _) =>
        if extent_entry_is_ptr (value_at k entry) then
          let ptr := word (value_at k entry) 0 in
          v ← trigger_pointer_validate c ptr insert;
          if v <? 0 then Some ((us, v), true)
          else if 0 <? v then Some ((us, 0), false)
          else '(us, ret) ← trigger_pointer_derived c us btree level k ptr insert;
               Some ((us, ret), negb (ret =? 0))
        else Some ((us, 0), false)) start end_ (us, 0)
  end.

(** The words of the entries of a value. *)
Definition ptr_words (k : kv) : list Z :=
  match bch2_bkey_ptrs_c k with Some (start, end_) => drop start (take end_ (kv_v k)) | None => [] end.

Definition bch2_trigger_extent (c : fs) (us : list btree_insert_entry) (btree level : Z) (old new : kv) (flags : Z) : option (list btree_insert_entry * Z) :=
  if bool_decide (ptr_words new = ptr_words old) then Some (us, 0) else
  if has_flag flags BTREE_TRIGGER_transactional then
    '(us, ret) ← (if negb (kv_type old =? KEY_TYPE_deleted) then trigger_extent_pointers c us btree level old false else Some (us, 0));
    if negb (ret =? 0) then Some (us, ret)
    else if negb (kv_type new =? KEY_TYPE_deleted) then trigger_extent_pointers c us btree level new true
    else Some (us, 0)
  else Some (us, 0).

(** The triggers of snapshot keys are not part of this model. *)
Definition bch2_key_trigger (c : fs) (us : list btree_insert_entry) (btree level : Z) (old new : kv) (flags : Z) : option (list btree_insert_entry * Z) :=
  let type_ := if negb (kv_type old =? 0) then kv_type old else kv_type new in
  if type_ =? KEY_TYPE_snapshot then None
  else if (type_ =? KEY_TYPE_extent) || (type_ =? KEY_TYPE_btree_ptr) || (type_ =? KEY_TYPE_btree_ptr_v2) then
    bch2_trigger_extent c us btree level old new flags
  else Some (us, 0).

(** The entry at [idx] runs its triggers: both at once if the kinds agree, else
    first that of the old key, and in a later round that of the new one. *)
Definition run_one_trans_trigger (c : fs) (us : list btree_insert_entry) (idx : nat) : option (list btree_insert_entry * Z) :=
  i ← us !! idx;
  if negb (bool_decide (peek_slot c (e_btree_id i) (kv_pos (e_k i)) = e_old i)) then Some (us, -1) else
  let deleted := deleted_key (kv_pos (e_k i)) in
  let flags := Z.lor (e_flags i) BTREE_TRIGGER_transactional in
  let old_trigger := key_trigger_kind (kv_type (e_old i)) in
  let new_trigger := key_trigger_kind (kv_type (e_k i)) in
  let '(i', old, new, flags) :=
    if negb (e_insert_trigger_run i) && negb (e_overwrite_trigger_run i) && (old_trigger =? new_trigger) then
      (set_run i true true, e_old i, e_k i, Z.lor flags (Z.lor BTREE_TRIGGER_insert BTREE_TRIGGER_overwrite))
    else if negb (e_overwrite_trigger_run i) then
      (set_run i (e_insert_trigger_run i) true, e_old i, deleted, Z.lor flags BTREE_TRIGGER_overwrite)
    else if negb (e_insert_trigger_run i) then
      (set_run i true (e_overwrite_trigger_run i), deleted, e_k i, Z.lor flags BTREE_TRIGGER_insert)
    else (i, e_old i, e_k i, flags) in
  let us := <[idx := i']> us in
  if negb (old_trigger =? 0) || negb (new_trigger =? 0) then bch2_key_trigger c us (e_btree_id i) (e_level i) old new flags
  else Some (us, 0).

Definition btree_node_type_has_trans_triggers (type_ : Z) : bool :=
  (type_ =? 0) || (type_ =? 1) || (type_ =? 2) || (type_ =? 5) || (type_ =? 7) || (type_ =? 8).

Definition trigger_done (i : btree_insert_entry) : bool :=
  has_flag (e_flags i) BTREE_TRIGGER_norun || negb (btree_node_type_has_trans_triggers (e_bkey_type i)) ||
  (e_insert_trigger_run i && e_overwrite_trigger_run i).

(** One round over the entries of one order, from [idx] on. *)
Fixpoint trigger_round (fuel : nat) (c : fs) (us : list btree_insert_entry) (sort_id : Z) (idx start : nat) (run : bool) :
    option (list btree_insert_entry * Z * nat * nat * bool) :=
  match us !! idx with
  | None => Some (us, 0, idx, start, run)
  | Some i =>
      if sort_id <? e_sort_order i then Some (us, 0, idx, start, run) else
      match fuel with
      | O => None
      | S fuel =>
          if e_sort_order i <? sort_id then trigger_round fuel c us sort_id (S idx) idx run
          else if trigger_done i then trigger_round fuel c us sort_id (S idx) start run
          else
            '(us, ret) ← run_one_trans_trigger c us idx;
            if negb (ret =? 0) then Some (us, ret, idx, start, run)
            else trigger_round fuel c us sort_id (S idx) start true
      end
  end.

(** Rounds until nothing was run. *)
Fixpoint trigger_rounds (fuel : nat) (c : fs) (us : list btree_insert_entry) (sort_id : Z) (start : nat) : option (list btree_insert_entry * Z * nat) :=
  match fuel with
  | O => None
  | S fuel =>
      '(us, ret, idx, start, run) ← trigger_round (S BTREE_ITER_INITIAL) c us sort_id start start false;
      if negb (ret =? 0) then Some (us, ret, idx)
      else if run : bool then trigger_rounds fuel c us sort_id start
      else Some (us, 0, idx)
  end.

Fixpoint trigger_groups (fuel : nat) (c : fs) (us : list btree_insert_entry) (start : nat) : option (list btree_insert_entry * Z) :=
  match us !! start with
  | None => Some (us, 0)
  | Some i =>
      match fuel with
      | O => None
      | S fuel =>
          '(us, ret, idx) ← trigger_rounds (S (S (2 * BTREE_ITER_INITIAL))) c us (e_sort_order i) start;
          if negb (ret =? 0) then Some (us, ret) else trigger_groups fuel c us idx
      end
  end.

Definition bch2_trans_commit_run_triggers (c : fs) (us : list btree_insert_entry) : option (list btree_insert_entry * Z) :=
  '(us, ret) ← trigger_groups (S BTREE_ITER_INITIAL) c us 0;
  if negb (ret =? 0) then Some (us, ret)
  else if forallb trigger_done us then Some (us, 0) else Some (us, -1).

(** ** Commit *)

(** What the parts outside of this model do to an attempt to commit: nothing;
    an error before the keys are written (a leaf without space, which is split
    or merged and the transaction restarted with -4; no journal space; no
    memory); a leaf that must be split when [n] keys are applied, where the split
    itself returns [split] (the commit then asks for a restart, or hands on the
    error of the split); or, while
    the updates are collected, the transaction needs a larger memory block (-12
    with [realloc_bytes_required] set). *)
Inductive commit_event :=
  | Proceed
  | Refuse (ret : Z)
  | SplitAfter (n : nat) (split : Z)
  | Realloc.

Definition is_noop (i : btree_insert_entry) : bool := bkey_and_val_eq (e_old i) (e_k i).

Definition bkey_jset_u64s (payload_u64s : Z) : Z := 1 + payload_u64s.

Definition journaled (us : list btree_insert_entry) : list btree_insert_entry :=
  List.filter (fun i => negb (has_flag (e_flags i) BTREE_UPDATE_nojournal)) us.

(** [bch2_btree_insert_key_leaf] on the contents of the tree. *)
Definition apply_entry (t : gmap (Z * bpos) kv) (i : btree_insert_entry) : gmap (Z * bpos) kv :=
  if kv_type (e_k i) =? KEY_TYPE_deleted then delete (e_btree_id i, kv_pos (e_k i)) t
  else <[(e_btree_id i, kv_pos (e_k i)) := e_k i]> t.

Definition apply_all (t : gmap (Z * bpos) kv) (us : list btree_insert_entry) : gmap (Z * bpos) kv := fold_left apply_entry us t.

(** Behind the triggers: space in the journal, the old keys once more, the
    journal, the trees. *)
Definition commit_write (c : fs) (us : list btree_insert_entry) (ev : commit_event) : option (fs * Z) :=
  match ev with
  | Refuse ret => Some (c, ret)
  | Realloc => Some (c, -12)
  | _ =>
      let journal_u64s := fold_left (fun n i => n + bkey_jset_u64s (k_u64s (kv_k (e_k i)))) (journaled us) 0 in
      if MAX 16 <? journal_u64s then Some (c, -2)
      else if negb (forallb (fun i => bool_decide (peek_slot c (e_btree_id i) (kv_pos (e_k i)) = e_old i)) us) then Some (c, -1)
      else if existsb (fun i => negb (has_flag (e_flags i) BTREE_TRIGGER_norun) &&
                         ((kv_type (e_old i) =? KEY_TYPE_snapshot) || (kv_type (e_k i) =? KEY_TYPE_snapshot))) us then None
      else
        let j := f_journal c ++ map (fun i => (e_btree_id i, e_k i)) (journaled us) in
        match ev with
        | SplitAfter n split => if (n <? length us)%nat then Some (with_trees c (apply_all (f_trees c) (take n us)) j, if negb (split =? 0) then split else -4)
                                else Some (with_trees c (apply_all (f_trees c) us) j, 0)
        | _ => Some (with_trees c (apply_all (f_trees c) us) j, 0)
        end
  end.

(** The updates are gone afterwards. *)
Definition bch2_trans_commit (c : fs) (us : list btree_insert_entry) (ev : commit_event) : option (fs * Z) :=
  if 0 <? f_restarts c then Some (with_restarts c (f_restarts c - 1), -4)
  else if (length us =? 0)%nat then Some (c, 0)
  else
    let us := List.filter (fun i => negb (is_noop i)) us in
    if (length us =? 0)%nat then Some (c, 0)
    else
      '(us, ret) ← bch2_trans_commit_run_triggers c us;
      if negb (ret =? 0) then Some (c, ret) else commit_write c us ev.

(** ** Transactions that are retried *)

(** [loop { begin; stage; commit; restart: continue }]: an attempt for every
    event; [retry] tells the errors to retry on.  [None] of a [stage] is a
    panic; its error keeps the trees. *)
Fixpoint retry_loop (stage : fs -> option (list btree_insert_entry * Z)) (commit : fs -> list btree_insert_entry -> commit_event -> option (fs * Z))
    (retry : Z -> bool) (c : fs) (evs : list commit_event) : option (fs * Z) :=
  match evs with
  | [] => None
  | Realloc :: evs => retry_loop stage commit retry c evs
  | ev :: evs =>
      '(us, ret) ← stage c;
      '(c, ret) ← (if ret =? 0 then commit c us ev else Some (c, ret));
      if retry ret then retry_loop stage commit retry c evs else Some (c, ret)
  end.
