(* ===== verification/TransFacts.v ===== *)
(** * The updates of a transaction, and what committing them does

    The updates are sorted and have one entry for a key, so that they are a map
    from keys to values; committing them is that map over the trees. *)

From stdpp Require Import base tactics list option gmap sorting.
From Stdlib Require Import ZArith Lia.
From S2P Require Import Superblock Prelude Bpos BkeyPack Extents ExtentKeys AllocKeys Trans.

Open Scope Z_scope.

(** ** The order of updates *)

Definition ekey (e : btree_insert_entry) : Z * bpos := (e_btree_id e, kv_pos (e_k e)).

(** The place in the order as a number. *)
Definition place (key : Z * bpos) : Z := btree_trigger_order key.1 * 2 ^ 160 + bpos_val key.2.

Definition key_in_range (key : Z * bpos) : Prop := 0 <= key.1 < BTREE_ID_NR /\ bpos_wf key.2.

(** An update of a leaf key as [btree_trans_update_by_path] makes them. *)
Record update_wf (c : fs) (e : btree_insert_entry) : Prop := {
  u_range : key_in_range (ekey e);
  u_order : e_sort_order e = btree_trigger_order (e_btree_id e);
  u_type : e_bkey_type e = e_btree_id e + 1;
  u_level : e_level e = 0;
  u_cached : e_cached e = false;
  u_old : e_old e = peek_slot c (e_btree_id e) (kv_pos (e_k e))
}.

Definition updates_sorted (us : list btree_insert_entry) : Prop := StronglySorted (fun l r => place (ekey l) < place (ekey r)) us.

Definition updates_wf (c : fs) (us : list btree_insert_entry) : Prop := Forall (update_wf c) us /\ updates_sorted us.

Lemma order_inj b b' : 0 <= b < BTREE_ID_NR -> 0 <= b' < BTREE_ID_NR -> btree_trigger_order b = btree_trigger_order b' -> b = b'.
Proof.
  unfold btree_trigger_order, BTREE_ID_NR, MAX. intros Hb Hb'.
  destruct (Z.eqb_spec b 4), (Z.eqb_spec b 6), (Z.eqb_spec b' 4), (Z.eqb_spec b' 6); lia.
Qed.

Lemma order_range b : 0 <= b < BTREE_ID_NR -> 0 <= btree_trigger_order b < 2 ^ 8.
Proof. unfold btree_trigger_order, BTREE_ID_NR, MAX. intros Hb. destruct (b =? 4), (b =? 6); lia. Qed.

Lemma place_inj k k' : key_in_range k -> key_in_range k' -> place k = place k' -> k = k'.
Proof.
  destruct k as [b p], k' as [b' p']. intros [Hb Hp] [Hb' Hp'] E. unfold place in E. cbn [fst snd] in *.
  pose proof (bpos_val_range p Hp) as R. pose proof (bpos_val_range p' Hp') as R'. unfold in_range in R, R'.
  assert (btree_trigger_order b = btree_trigger_order b') as Eo by nia.
  rewrite Eo in E. f_equal; [by apply order_inj|]. apply bpos_val_inj; [done|done|lia].
Qed.

(** The comparison of the code is that of the places. *)
Lemma entry_cmp_place c l r : update_wf c l -> update_wf c r -> btree_insert_entry_cmp l r = (place (ekey l) ?= place (ekey r)).
Proof.
  intros Hl Hr. unfold btree_insert_entry_cmp. rewrite (u_cached _ _ Hl), (u_cached _ _ Hr), (u_level _ _ Hl), (u_level _ _ Hr), (u_order _ _ Hl), (u_order _ _ Hr).
  destruct (u_range _ _ Hl) as [Hb Hp], (u_range _ _ Hr) as [Hb' Hp']. unfold ekey in *. cbn [fst snd] in *.
  unfold place. cbn [fst snd]. pose proof (bpos_val_range _ Hp) as R. pose proof (bpos_val_range _ Hp') as R'. unfold in_range in R, R'.
  destruct (Z.compare_spec (btree_trigger_order (e_btree_id l)) (btree_trigger_order (e_btree_id r))) as [Eo|Ho|Ho]; cbn [then_cmp].
  - rewrite Eo. cbn [cmp_bool Z.b2z Z.compare then_cmp]. rewrite bpos_cmp_val by done. unfold cmp_sign.
    destruct (Z.compare_spec (bpos_val (kv_pos (e_k l))) (bpos_val (kv_pos (e_k r)))), (Z.compare_spec (btree_trigger_order (e_btree_id r) * 2 ^ 160 + bpos_val (kv_pos (e_k l)))
      (btree_trigger_order (e_btree_id r) * 2 ^ 160 + bpos_val (kv_pos (e_k r)))); try done; lia.
  - symmetry. apply Z.compare_lt_iff. nia.
  - symmetry. apply Z.compare_gt_iff. nia.
Qed.

(** ** Updates as a map *)

Definition find_update (us : list btree_insert_entry) (key : Z * bpos) : option btree_insert_entry := find (fun e => bool_decide (ekey e = key)) us.

Lemma find_update_Some us key e : find_update us key = Some e -> e ∈ us /\ ekey e = key.
Proof. intros H. apply find_some in H as [H1 H2]. split; [by apply list_elem_of_In|]. by apply bool_decide_eq_true in H2. Qed.

Lemma find_update_None us key : find_update us key = None <-> forall e, e ∈ us -> ekey e <> key.
Proof.
  unfold find_update. split.
  - intros H e He Hk. pose proof (find_none _ _ H e (proj1 (list_elem_of_In _ _) He)) as Hn. cbn in Hn. by rewrite bool_decide_eq_false in Hn.
  - intros H. destruct (find _ us) as [e|] eqn:E; [|done]. apply find_update_Some in E as [He Hk]. by apply H in He.
Qed.

Lemma find_update_app us us' key : find_update (us ++ us') key = match find_update us key with Some e => Some e | None => find_update us' key end.
Proof. unfold find_update. induction us as [|e us IH]; cbn; [done|]. destruct (bool_decide (ekey e = key)); [done|apply IH]. Qed.

Lemma find_update_cons e us key : find_update (e :: us) key = if decide (ekey e = key) then Some e else find_update us key.
Proof. unfold find_update. cbn. case_bool_decide; by case_decide. Qed.

Lemma updates_sorted_app us us' : updates_sorted (us ++ us') <->
  updates_sorted us /\ updates_sorted us' /\ forall e e', e ∈ us -> e' ∈ us' -> place (ekey e) < place (ekey e').
Proof.
  unfold updates_sorted. induction us as [|x us IH]; cbn [app].
  { split; [|tauto]. intros H. split; [constructor|]. split; [done|]. intros e e' H'. by apply not_elem_of_nil in H'. }
  split.
  - intros H. apply StronglySorted_inv in H as [H Hx]. apply IH in H as (H1 & H2 & H3). apply Forall_app in Hx as [Hx1 Hx2].
    split; [by constructor|]. split; [done|]. intros e e' He He'. apply elem_of_cons in He as [->|He]; [|by apply H3].
    by apply (proj1 (Forall_forall _ _) Hx2).
  - intros (H1 & H2 & H3). apply StronglySorted_inv in H1 as [H1 Hx]. constructor.
    + apply IH. split; [done|]. split; [done|]. intros e e' He He'. apply H3; [by apply list_elem_of_further|done].
    + apply Forall_app. split; [done|]. apply Forall_forall. intros e' He'. apply H3; [apply list_elem_of_here|done].
Qed.

(** One entry for a key. *)
Lemma find_update_sorted us e : updates_sorted us -> e ∈ us -> find_update us (ekey e) = Some e.
Proof.
  intros Hs He. apply list_elem_of_split in He as (l1 & l2 & ->). apply updates_sorted_app in Hs as (_ & _ & Hlt).
  rewrite find_update_app, find_update_cons, decide_True by done.
  destruct (find_update l1 (ekey e)) as [e'|] eqn:E; [|done]. apply find_update_Some in E as [He' Hk].
  specialize (Hlt e' e He' ltac:(apply list_elem_of_here)). rewrite Hk in Hlt. lia.
Qed.

(** ** Where a new update goes *)

Lemma insert_idx_spec c n us : update_wf c n -> updates_wf c us ->
  (forall e, e ∈ take (insert_idx n us) us -> place (ekey e) < place (ekey n)) /\
  (forall e, e ∈ drop (insert_idx n us) us -> place (ekey n) <= place (ekey e)).
Proof.
  intros Hn [Hw Hs]. induction us as [|u us IH]; cbn [insert_idx]; [split; intros e He; by apply not_elem_of_nil in He|].
  apply Forall_cons_1 in Hw as [Hu Hw]. apply StronglySorted_inv in Hs as [Hs Hlt]. specialize (IH Hw Hs). destruct IH as [IH1 IH2].
  rewrite (entry_cmp_place c) by done. assert (forall e, e ∈ us -> place (ekey u) < place (ekey e)) as Hlt' by (intros e He; by apply (proj1 (Forall_forall _ _) Hlt)).
  destruct (Z.compare_spec (place (ekey n)) (place (ekey u))); cbn [take drop]; (split; [intros e He|intros e He]);
    try (by apply not_elem_of_nil in He); try (apply elem_of_cons in He as [->|He]; [lia|]); try (specialize (Hlt' e He); lia); [by apply IH1|by apply IH2].
Qed.

(** *** Adding an update *)

Definition new_update (c : fs) (b : Z) (k : kv) (buf flags : Z) : btree_insert_entry :=
  mk_entry flags (btree_trigger_order b) (Z.min (b + 1) (MAX 8)) b 0 false false false buf k (peek_slot c b (kv_pos k)).

Lemma new_update_wf c b k buf flags : key_in_range (b, kv_pos k) -> update_wf c (new_update c b k buf flags).
Proof. intros H. constructor; try done. cbn. destruct H as [Hb _]. unfold BTREE_ID_NR, MAX in *. cbn in Hb. lia. Qed.

(** Adding [n] where it belongs, or in the place of an update of its key. *)
Lemma put_spec c us us' l1 l2 n : updates_wf c us -> update_wf c n -> us = l1 ++ l2 ->
  (us' = l1 ++ n :: l2 \/ exists u rest, l2 = u :: rest /\ ekey u = ekey n /\ us' = l1 ++ n :: rest) ->
  (forall e, e ∈ l1 -> place (ekey e) < place (ekey n)) -> (us' = l1 ++ n :: l2 -> forall e, e ∈ l2 -> place (ekey n) < place (ekey e)) ->
  updates_wf c us' /\ (length us' <= S (length us))%nat /\
  (forall key, find_update us' key = if decide (key = ekey n) then Some n else find_update us key).
Proof.
  intros [Hw Hs] Hn -> Hus' H1 H2. apply Forall_app in Hw as [Hw1 Hw2]. apply updates_sorted_app in Hs as (Hs1 & Hs2 & Hs3).
  assert (exists rest, us' = l1 ++ n :: rest /\ Forall (update_wf c) rest /\ updates_sorted (n :: rest) /\ (length rest <= length l2)%nat /\
    (forall key, key <> ekey n -> find_update rest key = find_update l2 key)) as (rest & -> & Hwr & Hsr & Hlr & Hf).
  { destruct Hus' as [->|(u & rest & -> & Hk & ->)].
    - exists l2. do 2 (split; [done|]). split; [constructor; [done|apply Forall_forall; by apply H2]|]. done.
    - exists rest. apply Forall_cons_1 in Hw2 as [_ Hw2]. apply StronglySorted_inv in Hs2 as [Hs2 Hlt]. do 2 (split; [done|]).
      split; [constructor; [done|]; eapply Forall_impl; [exact Hlt|]; intros e; cbn; by rewrite Hk|]. split; [cbn; lia|].
      intros key Hne. rewrite find_update_cons, decide_False by congruence. done. }
  split; [split|split].
  - apply Forall_app. split; [done|]. by apply Forall_cons_2.
  - apply updates_sorted_app. split; [done|]. split; [done|]. intros e e' He He'. specialize (H1 e He). apply elem_of_cons in He' as [->|He']; [done|].
    apply StronglySorted_inv in Hsr as [_ Hlt]. pose proof (proj1 (Forall_forall _ _) Hlt e' He') as Hl. cbn in Hl. lia.
  - rewrite !length_app. cbn. lia.
  - intros key. rewrite !find_update_app, find_update_cons. destruct (decide (key = ekey n)) as [->|Hne].
    + rewrite decide_True by done. destruct (find_update l1 (ekey n)) as [e|] eqn:Ee; [|done]. apply find_update_Some in Ee as [He Hke].
      specialize (H1 e He). rewrite Hke in H1. lia.
    + rewrite decide_False by congruence. by rewrite Hf.
Qed.

(** What the code does at the index it found. *)
Lemma update_at c us b k buf flags : updates_wf c us -> key_in_range (b, kv_pos k) -> (length us < BTREE_ITER_INITIAL)%nat -> k_u64s (kv_k k) <= buf ->
  (forall u, find_update us (b, kv_pos k) = Some u -> e_insert_trigger_run u = false /\ e_overwrite_trigger_run u = false) ->
  let n := new_update c b k buf flags in let idx := insert_idx n us in
  btree_trans_update_by_path c us b k buf flags = 
    Some (take idx us ++ n :: match find_update us (b, kv_pos k) with Some _ => drop (S idx) us | None => drop idx us end) /\
  (forall u, find_update us (b, kv_pos k) = Some u -> us !! idx = Some u).
Proof.
  intros Hus Hk Hlen Hbuf Hrun n idx. pose proof (new_update_wf c b k buf flags Hk) as Hn. fold n in Hn.
  destruct (insert_idx_spec c n us Hn Hus) as [H1 H2]. fold idx in H1, H2. destruct Hus as [Hw Hs].
  assert (forall e, e ∈ us -> update_wf c e) as Hin by (by apply Forall_forall). assert (us = take idx us ++ drop idx us) as Hsplit by (by rewrite take_drop).
  assert (ekey n = (b, kv_pos k)) as Hkey by done.
  assert (forall u, find_update us (b, kv_pos k) = Some u -> us !! idx = Some u) as Hidx.
  { intros u Ef. destruct (find_update_Some _ _ _ Ef) as [Hu Hku]. rewrite Hsplit in Hu. apply elem_of_app in Hu as [Hu|Hu]; [specialize (H1 u Hu); rewrite Hku, Hkey in H1; lia|].
    destruct (drop idx us) as [|v rest] eqn:Ed; [by apply not_elem_of_nil in Hu|].
    assert (us !! idx = Some v) as Ev by (by rewrite <- (Nat.add_0_r idx), <- lookup_drop, Ed).
    apply elem_of_cons in Hu as [->|Hu]; [done|]. exfalso. rewrite Hsplit in Hs. apply updates_sorted_app in Hs as (_ & Hs & _).
    apply StronglySorted_inv in Hs as [_ Hs]. specialize (H2 v ltac:(apply list_elem_of_here)). pose proof (proj1 (Forall_forall _ _) Hs u Hu) as Hlt. cbn in Hlt.
    rewrite Hku in Hlt. rewrite Hkey in H2. lia. }
  split; [|done]. unfold btree_trans_update_by_path. rewrite (proj2 (assert_true (length us <? BTREE_ITER_INITIAL)%nat)) by (by apply Nat.ltb_lt). bind_simpl.
  rewrite (proj2 (assert_true (k_u64s (kv_k k) <=? buf))) by (by apply Z.leb_le). bind_simpl. cbv zeta. fold (new_update c b k buf flags). fold n. fold idx.
  destruct (find_update us (b, kv_pos k)) as [u|] eqn:Ef.
  - rewrite (Hidx u eq_refl). destruct (find_update_Some _ _ _ Ef) as [Hu Hku]. destruct (Hrun u eq_refl) as [Hr1 Hr2].
    rewrite (entry_cmp_place c) by auto. rewrite Hku, Hkey, Z.compare_refl, Hr1, Hr2. cbn [negb andb assert mbind option_bind].
    rewrite insert_take_drop by (by eapply lookup_lt_Some, Hidx). do 3 f_equal.
    destruct (Hin u Hu) as [Hur Huo Hut Hul Huc Hold]. unfold ekey in Hku. injection Hku as Hb Hp. rewrite Hold, Hut, Huo, Hul, Hb, Hp. unfold n, new_update.
    destruct Hk as [Hkb _]. cbn in Hkb. f_equal. unfold BTREE_ID_NR, MAX in *. lia.
  - destruct (us !! idx) as [u|] eqn:Eu; [|done]. assert (u ∈ us) as Hu by (by eapply list_elem_of_lookup_2).
    rewrite (entry_cmp_place c) by auto. destruct (Z.compare_spec (place (ekey n)) (place (ekey u))) as [E| |]; [|done|done].
    apply place_inj in E; [|apply Hn|by apply Hin]. exfalso. apply (proj1 (find_update_None _ _) Ef u Hu). by rewrite <- E.
Qed.

Lemma update_spec c us b k buf flags : updates_wf c us -> key_in_range (b, kv_pos k) -> (length us < BTREE_ITER_INITIAL)%nat -> k_u64s (kv_k k) <= buf ->
  (forall u, find_update us (b, kv_pos k) = Some u -> e_insert_trigger_run u = false /\ e_overwrite_trigger_run u = false) ->
  exists us', btree_trans_update_by_path c us b k buf flags = Some us' /\ updates_wf c us' /\ (length us' <= S (length us))%nat /\
    (forall key, find_update us' key = if decide (key = (b, kv_pos k)) then Some (new_update c b k buf flags) else find_update us key) /\
    (exists l1 l2 l2', us = l1 ++ l2 /\ us' = l1 ++ l2' /\ forall e, e ∈ l2 \/ e ∈ l2' -> place (b, kv_pos k) <= place (ekey e)).
Proof.
  intros Hus Hk Hlen Hbuf Hrun. pose proof (new_update_wf c b k buf flags Hk) as Hn.
  destruct (update_at c us b k buf flags Hus Hk Hlen Hbuf Hrun) as [E Hidx]. set (n := new_update c b k buf flags) in *. set (idx := insert_idx n us) in *.
  destruct (insert_idx_spec c n us Hn Hus) as [H1 H2]. fold idx in H1, H2. eexists. split; [exact E|].
  set (rest := match find_update us (b, kv_pos k) with Some _ => _ | None => _ end). set (us' := take idx us ++ n :: rest).
  destruct (put_spec c us us' (take idx us) (drop idx us) n Hus Hn) as (P1 & P2 & P3); [by rewrite take_drop| |done| |].
  - unfold us', rest. destruct (find_update us (b, kv_pos k)) as [u|] eqn:Ef; [|by left]. right. destruct (find_update_Some _ _ _ Ef) as [_ Hku].
    exists u, (drop (S idx) us). split; [by apply drop_S, Hidx|]. done.
  - unfold us', rest. destruct (find_update us (b, kv_pos k)) as [u|] eqn:Ef.
    + intros El. exfalso. apply (f_equal length) in El. rewrite !length_app in El. cbn [length] in El. rewrite !length_drop in El. pose proof (lookup_lt_Some _ _ _ (Hidx u eq_refl)). lia.
    + intros _ e He. specialize (H2 e He). assert (e ∈ us) as He' by (rewrite <- (take_drop idx us); apply elem_of_app; by right).
      destruct (Z.eq_dec (place (ekey n)) (place (ekey e))) as [Ep|]; [|lia]. apply place_inj in Ep; [|apply Hn|by apply (proj1 (Forall_forall _ _) (proj1 Hus))].
      exfalso. apply (proj1 (find_update_None _ _) Ef e He'). by rewrite <- Ep.
  - do 3 (split; [done|]). exists (take idx us), (drop idx us), (n :: rest). split; [by rewrite take_drop|]. split; [done|]. intros e [He|He]; [by apply H2|].
    apply elem_of_cons in He as [->|He]; [done|]. apply H2. unfold rest in He. destruct (find_update us (b, kv_pos k)) as [u|] eqn:Ef; [|done].
    rewrite (drop_S us u idx) by (by apply Hidx). by apply list_elem_of_further.
Qed.

(** ** Running the triggers *)

(** An entry before and after a trigger: only its flags change. *)
Definition unset (e : btree_insert_entry) : nat :=
  ((if e_insert_trigger_run e then 0 else 1) + (if e_overwrite_trigger_run e then 0 else 1))%nat.

Definition same_update (e e' : btree_insert_entry) : Prop := e' = set_run e (e_insert_trigger_run e') (e_overwrite_trigger_run e').

Lemma same_update_refl e : same_update e e.
Proof. by destruct e. Qed.

Lemma same_update_trans e1 e2 e3 : same_update e1 e2 -> same_update e2 e3 -> same_update e1 e3.
Proof. unfold same_update. intros H1 H2. rewrite H2 at 1. rewrite H1. done. Qed.

Lemma same_update_order e e' : same_update e e' -> e_sort_order e' = e_sort_order e.
Proof. by intros ->. Qed.

Lemma same_update_key e e' : same_update e e' -> ekey e' = ekey e.
Proof. by intros ->. Qed.

Lemma unset_done e : unset e = 0%nat -> trigger_done e = true.
Proof. unfold unset, trigger_done. destruct (e_insert_trigger_run e), (e_overwrite_trigger_run e); cbn; try lia. Qed.

Lemma unset_le e : (unset e <= 2)%nat.
Proof. unfold unset. destruct (e_insert_trigger_run e), (e_overwrite_trigger_run e); lia. Qed.

Section Rounds.
Context (c : fs) (I : list btree_insert_entry -> Prop).

(** The errors of triggers. *)
Context (Herr : Z -> Prop).

Definition order_is (s : Z) (e : btree_insert_entry) : Prop := e_sort_order e = s.
Definition order_above (s : Z) (e : btree_insert_entry) : Prop := s < e_sort_order e.

(** The entries whose rounds are followed: they start without flags. *)
Context (M : btree_insert_entry -> Prop).
Definition untouched (e : btree_insert_entry) : Prop := M e -> e_overwrite_trigger_run e = false.
Definition past_first (e : btree_insert_entry) : Prop := M e -> trigger_done e = true \/ e_overwrite_trigger_run e = true.

(** A trigger changes the flags of its entry, and adds or changes updates of
    higher order.  When the second trigger of an entry runs, the first round
    over its group is over. *)
Definition settled (s : Z) (pre : list btree_insert_entry) : Prop := Forall (fun x => e_sort_order x = s /\ past_first x \/ trigger_done x = true) pre.
Context (Hstep : forall pre e post, I (pre ++ e :: post) -> settled (e_sort_order e) pre -> trigger_done e = false ->
  (M e -> e_overwrite_trigger_run e = true -> Forall (fun x => past_first x \/ order_above (e_sort_order e) x) post) ->
  exists us' ret, run_one_trans_trigger c (pre ++ e :: post) (length pre) = Some (us', ret) /\
    (ret <> 0 /\ Herr ret \/
     ret = 0 /\ exists e' mid post1 post2, us' = pre ++ e' :: mid ++ post2 /\ post = mid ++ post1 /\ same_update e e' /\ (unset e' < unset e)%nat /\
       e_overwrite_trigger_run e' = true /\ I us' /\ Forall (order_above (e_sort_order e)) post1 /\ Forall (order_above (e_sort_order e)) post2 /\
       (Forall untouched post1 -> Forall untouched post2))).
Context (Hlen : forall us, I us -> (length us <= BTREE_ITER_INITIAL)%nat).

(** The entries of a group between rounds. *)
Definition group_step (g g' : list btree_insert_entry) : Prop :=
  Forall2 (fun e e' => same_update e e' /\ (trigger_done e = true /\ e' = e \/ (unset e' < unset e)%nat /\ e_overwrite_trigger_run e' = true)) g g'.

Lemma group_past g g' : group_step g g' -> Forall past_first g'.
Proof. induction 1 as [|e e' g g' [_ [[Hd ->]|[_ He]]] _ IH]; [constructor| |]; (apply Forall_cons_2; [intros _|done]); [by left|by right]. Qed.

(** Either no entry of the group was reached, or all have been. *)
Definition in_phase (g : list btree_insert_entry) : Prop := Forall past_first g \/ Forall untouched g.

Lemma split_above s (todo post mid post1 : list btree_insert_entry) : Forall (order_is s) todo -> Forall (order_above s) post1 -> todo ++ post = mid ++ post1 ->
  exists mid', mid = todo ++ mid' /\ post = mid' ++ post1.
Proof.
  revert mid. induction todo as [|e todo IH]; intros mid Ht Hp E; cbn [app] in *; [by exists mid|]. apply Forall_cons_1 in Ht as [He Ht].
  destruct mid as [|e' mid]; cbn [app] in E.
  - subst post1. apply Forall_cons_1 in Hp as [Hp _]. unfold order_is, order_above in *. lia.
  - injection E as <- E. destruct (IH mid Ht Hp E) as (mid' & -> & ->). by exists mid'.
Qed.

Lemma trigger_round_ok s start : forall fuel todo pre post run, I (pre ++ todo ++ post) -> settled s pre -> Forall (order_is s) todo ->
  Forall (order_above s) post -> (length todo < fuel)%nat -> in_phase todo -> Forall untouched post ->
  exists us' ret idx start' run', trigger_round fuel c (pre ++ todo ++ post) s (length pre) start run = Some (us', ret, idx, start', run') /\
    (ret <> 0 /\ Herr ret \/
     ret = 0 /\ exists todo' post', us' = pre ++ todo' ++ post' /\ idx = (length pre + length todo')%nat /\ start' = start /\ group_step todo todo' /\
       I us' /\ Forall (order_above s) post' /\ Forall untouched post' /\ (run' = false -> run = false /\ Forall (fun e => trigger_done e = true) todo) /\
       (Forall (fun e => trigger_done e = true) todo -> run' = run)).
Proof.
  induction fuel as [|fuel IH]; intros todo pre post run HI Hset Ht Hp Hf Hph Hun; [lia|]. cbn [trigger_round].
  destruct todo as [|e todo]; cbn [app].
  { assert ((pre ++ post) !! length pre = post !! 0%nat) as -> by (rewrite lookup_app_r by lia; by rewrite Nat.sub_diag).
    assert (match post !! 0%nat with None => True | Some i => (s <? e_sort_order i) = true end) as Hhead.
    { destruct post as [|i post]; [done|]. cbn. apply Forall_cons_1 in Hp as [Hi _]. unfold order_above in Hi. by apply Z.ltb_lt. }
    assert (exists us' ret idx start' run', (match post !! 0%nat with
      | Some i => if s <? e_sort_order i then Some (pre ++ post, 0, length pre, start, run) else
          if e_sort_order i <? s then trigger_round fuel c (pre ++ post) s (S (length pre)) (length pre) run
          else if trigger_done i then trigger_round fuel c (pre ++ post) s (S (length pre)) start run
          else '(us, ret) ← run_one_trans_trigger c (pre ++ post) (length pre);
               if negb (ret =? 0) then Some (us, ret, length pre, start, run) else trigger_round fuel c us s (S (length pre)) start true
      | None => Some (pre ++ post, 0, length pre, start, run) end) = Some (us', ret, idx, start', run') /\
      us' = pre ++ post /\ ret = 0 /\ idx = length pre /\ start' = start /\ run' = run) as (us' & ret & idx & st & rn & -> & -> & -> & -> & -> & ->).
    { destruct (post !! 0%nat) as [i|]; [rewrite Hhead|]; by eexists _, _, _, _, _. }
    eexists _, _, _, _, _. split; [done|]. right. split; [done|]. exists [], post. cbn. split; [done|]. split; [lia|]. split; [done|]. split; [constructor|]. done. }
  apply Forall_cons_1 in Ht as [He Ht]. cbn in Hf.
  assert ((pre ++ e :: todo ++ post) !! length pre = Some e) as -> by (rewrite lookup_app_r by lia; by rewrite Nat.sub_diag).
  unfold order_is in He. rewrite He, Z.ltb_irrefl.
  assert (forall e', e_sort_order e' = s -> past_first e' -> settled s (pre ++ [e'])) as Hset' by (intros e' H H'; apply Forall_app; split; [done|apply Forall_cons_2; [by left|constructor]]).
  assert (in_phase todo) as Hph' by (destruct Hph as [H|H]; apply Forall_cons_1 in H as [_ H]; [by left|by right]).
  destruct (trigger_done e) eqn:Ed.
  - destruct (IH todo (pre ++ [e]) post run) as (us' & ret & idx & st & rn & Hr & Hcase); [by rewrite <- app_assoc|apply Hset'; [done|by left]|done|done|lia|done|done|].
    rewrite <- app_assoc, length_app, Nat.add_1_r in Hr. cbn [app] in Hr. rewrite Hr. eexists _, _, _, _, _. split; [done|].
    destruct Hcase as [Hcase|(-> & todo' & post' & -> & -> & -> & Hg & HI' & Hp' & Hun' & Hrun & Hrun')]; [by left|]. right. split; [done|].
    exists (e :: todo'), post'. rewrite length_app, <- app_assoc in *. cbn [app length] in *. split; [done|]. split; [lia|]. split; [done|]. split; [|split; [done|split; [done|split; [done|]]]].
    + constructor; [split; [apply same_update_refl|by left]|done].
    + split; [intros Hr'; destruct (Hrun Hr') as [-> Hall]; split; [done|]; by apply Forall_cons_2|].
      intros Hall. apply Hrun'. by apply Forall_cons_1 in Hall as [_ Hall].
  - assert (M e -> e_overwrite_trigger_run e = true -> Forall (fun x => past_first x \/ order_above (e_sort_order e) x) (todo ++ post)) as Hlate.
    { intros HM Hov. destruct Hph as [Hph|Hph]; [|apply Forall_cons_1 in Hph as [Hph _]; by rewrite (Hph HM) in Hov]. apply Forall_cons_1 in Hph as [_ Hph]. apply Forall_app. split.
      - eapply Forall_impl; [exact Hph|]. intros x Hx. by left.
      - rewrite He. eapply Forall_impl; [exact Hp|]. intros x Hx. by right. }
    destruct (Hstep pre e (todo ++ post) HI ltac:(by rewrite He) Ed Hlate) as (us1 & ret & -> & Hcase). bind_simpl. destruct Hcase as [[Hne He']|(-> & e' & mid & post1 & post2 & -> & Em & Hsame & Hlt & Hov & HI1 & Hp1 & Hp2 & Hun2)].
    { rewrite (proj2 (Z.eqb_neq _ _) Hne). eexists _, _, _, _, _. split; [done|]. left. done. }
    cbn [Z.eqb negb]. rewrite He in Hp1, Hp2. destruct (split_above s todo post mid post1 Ht Hp1 Em) as (mid' & -> & ->).
    apply Forall_app in Hp as [Hmid _]. apply Forall_app in Hun as [Hun1 Hun]. rewrite <- app_assoc in HI1 |- *.
    destruct (IH todo (pre ++ [e']) (mid' ++ post2) true) as (us' & ret & idx & st & rn & Hr & Hcase);
      [by rewrite <- app_assoc|apply Hset'; [by rewrite (same_update_order _ _ Hsame)|intros _; by right]|done|by apply Forall_app|lia|done|apply Forall_app; split; [done|by apply Hun2]|].
    rewrite <- app_assoc, length_app, Nat.add_1_r in Hr. cbn [app] in Hr. rewrite Hr. eexists _, _, _, _, _. split; [done|].
    destruct Hcase as [Hcase|(-> & todo' & post' & -> & -> & -> & Hg & HI' & Hp' & Hun' & Hrun & _)]; [by left|]. right. split; [done|].
    exists (e' :: todo'), post'. rewrite length_app, <- app_assoc in *. cbn [app length] in *. split; [done|]. split; [lia|]. split; [done|]. split; [|split; [done|split; [done|split; [done|]]]].
    + constructor; [split; [done|by right]|done].
    + split; [intros Hr'; destruct (Hrun Hr') as [Hr'' _]; done|]. intros Hall. apply Forall_cons_1 in Hall as [Hd _]. by rewrite Ed in Hd.
Qed.

(** After every round an entry that is not done has one flag less to set. *)
Definition pending (n : nat) (g : list btree_insert_entry) : Prop := Forall (fun e => trigger_done e = true \/ (unset e <= n)%nat) g.

Lemma group_pending n g g' : pending (S n) g -> group_step g g' -> pending n g'.
Proof.
  unfold pending. intros H Hg. induction Hg as [|e e' g g' [Hs He] Hg IH]; [constructor|]. apply Forall_cons_1 in H as [H1 H2].
  apply Forall_cons_2; [|by apply IH]. destruct He as [[Hd ->]|[Hlt _]]; [by left|]. destruct H1 as [H1|H1]; [|right; lia]. left.
  revert H1 Hlt. rewrite Hs. unfold trigger_done, unset. cbn. destruct (has_flag (e_flags e) BTREE_TRIGGER_norun); [done|].
  destruct (btree_node_type_has_trans_triggers (e_bkey_type e)); [cbn|done]. destruct (e_insert_trigger_run e), (e_overwrite_trigger_run e); cbn; try done; try lia.
Qed.

Lemma pending_done g : pending 0 g -> Forall (fun e => trigger_done e = true) g.
Proof. intros H. eapply Forall_impl; [exact H|]. intros e [He|He]; [done|]. apply unset_done. lia. Qed.

Lemma group_done g g' : Forall (fun e => trigger_done e = true) g -> group_step g g' -> Forall (fun e => trigger_done e = true) g'.
Proof.
  intros H Hg. induction Hg as [|e e' g g' [Hs He] Hg IH]; [constructor|]. apply Forall_cons_1 in H as [H1 H2]. apply Forall_cons_2; [|by apply IH].
  destruct He as [[Hd ->]|[Hlt _]]; [done|]. revert H1 Hlt. rewrite Hs. unfold trigger_done, unset. cbn.
  destruct (has_flag (e_flags e) BTREE_TRIGGER_norun); [done|]. destruct (btree_node_type_has_trans_triggers (e_bkey_type e)); [|done]. cbn [negb orb].
  destruct (e_insert_trigger_run e), (e_overwrite_trigger_run e), (e_insert_trigger_run e'), (e_overwrite_trigger_run e'); cbn; try done; try lia.
Qed.

Definition group_same (g g' : list btree_insert_entry) : Prop := Forall2 same_update g g'.

Lemma group_step_same g g' : group_step g g' -> group_same g g'.
Proof. intros H. unfold group_same. induction H as [|e e' g g' [Hs _] _ IH]; by constructor. Qed.

Lemma group_same_trans g1 g2 g3 : group_same g1 g2 -> group_same g2 g3 -> group_same g1 g3.
Proof.
  intros H. revert g3. unfold group_same. induction H as [|e e' g g' Hs _ IH]; intros g3 H3; inversion H3; subst; constructor; [by eapply same_update_trans|by apply IH].
Qed.

Lemma group_same_refl g : group_same g g.
Proof. unfold group_same. induction g; constructor; [apply same_update_refl|done]. Qed.

Lemma group_same_order s g g' : group_same g g' -> Forall (order_is s) g -> Forall (order_is s) g'.
Proof. intros H. induction H as [|e e' g g' Hs _ IH]; intros Hg; [constructor|]. apply Forall_cons_1 in Hg as [H1 H2]. apply Forall_cons_2; [|by apply IH]. unfold order_is. by rewrite (same_update_order _ _ Hs). Qed.

Lemma trigger_rounds_ok s : forall fuel n todo pre post, I (pre ++ todo ++ post) -> settled s pre -> Forall (order_is s) todo ->
  Forall (order_above s) post -> pending n todo -> (n < fuel)%nat -> in_phase todo -> Forall untouched post ->
  exists us' ret idx, trigger_rounds fuel c (pre ++ todo ++ post) s (length pre) = Some (us', ret, idx) /\
    (ret <> 0 /\ Herr ret \/
     ret = 0 /\ exists todo' post', us' = pre ++ todo' ++ post' /\ idx = (length pre + length todo')%nat /\ group_same todo todo' /\ I us' /\
       Forall (order_above s) post' /\ Forall untouched post' /\ Forall (fun e => trigger_done e = true) todo').
Proof.
  induction fuel as [|fuel IH]; intros n todo pre post HI Hset Ht Hp Hn Hf Hph Hun; [lia|]. cbn [trigger_rounds].
  destruct (trigger_round_ok s (length pre) (S BTREE_ITER_INITIAL) todo pre post false HI Hset Ht Hp) as (us' & ret & idx & st & rn & -> & Hcase).
  { pose proof (Hlen _ HI). rewrite !length_app in *. lia. }
  { done. }
  { done. }
  bind_simpl. destruct Hcase as [[Hne He]|(-> & todo' & post' & -> & -> & -> & Hg & HI' & Hp' & Hun' & Hrun & Hrun')].
  { rewrite (proj2 (Z.eqb_neq _ _) Hne). cbn [negb]. eexists _, _, _. split; [done|]. by left. }
  cbn [Z.eqb negb]. pose proof (group_step_same _ _ Hg) as Hsame. destruct rn.
  - destruct n as [|n]; [exfalso; apply pending_done, Hrun' in Hn; done|].
    destruct (IH n todo' pre post' HI' Hset) as (us' & ret & idx & -> & Hcase);
      [by eapply group_same_order|done|by eapply group_pending|lia|left; by eapply group_past|done|].
    eexists _, _, _. split; [done|]. destruct Hcase as [Hcase|(-> & todo2 & post2 & -> & -> & Hs2 & Hcase)]; [by left|]. right. split; [done|].
    exists todo2, post2. split; [done|]. split; [done|]. split; [by eapply group_same_trans|done].
  - eexists _, _, _. split; [done|]. right. split; [done|]. exists todo', post'. do 6 (split; [done|]).
    eapply group_done; [by apply Hrun|done].
Qed.

Context (Hsorted : forall us, I us -> updates_sorted us /\ Forall (fun e => e_sort_order e = btree_trigger_order (e_btree_id e) /\ key_in_range (ekey e)) us).

(** The first entries of one order, and the rest. *)
Lemma split_group i us : updates_sorted (i :: us) -> Forall (fun e => e_sort_order e = btree_trigger_order (e_btree_id e) /\ key_in_range (ekey e)) (i :: us) ->
  exists todo post, us = todo ++ post /\ Forall (order_is (e_sort_order i)) todo /\ Forall (order_above (e_sort_order i)) post.
Proof.
  revert i. induction us as [|e us IH]; intros i Hs Hw; [by exists [], []|]. apply StronglySorted_inv in Hs as [Hs Hlt].
  apply Forall_cons_1 in Hw as [Hi Hw]. destruct (IH e Hs Hw) as (todo & post & -> & Ht & Hp).
  assert (e_sort_order i <= e_sort_order e) as Hle.
  { apply Forall_cons_1 in Hlt as [Hlt _]. apply Forall_cons_1 in Hw as [He _]. destruct Hi as [-> [Hb Hp1]], He as [-> [Hb' Hp2]]. unfold place in Hlt.
    unfold ekey in *. cbn [fst snd] in *. pose proof (bpos_val_range _ Hp1) as R. pose proof (bpos_val_range _ Hp2) as R'. unfold in_range in R, R'. nia. }
  destruct (Z.eq_dec (e_sort_order i) (e_sort_order e)) as [E|Hne].
  - rewrite E in *. exists (e :: todo), post. split; [done|]. split; [by apply Forall_cons_2|done].
  - exists [], (e :: todo ++ post). split; [done|]. split; [constructor|]. apply Forall_cons_2; [unfold order_above; lia|]. apply Forall_app. split.
    + eapply Forall_impl; [exact Ht|]. unfold order_is, order_above. intros x Hx. lia.
    + eapply Forall_impl; [exact Hp|]. unfold order_above. intros x Hx. lia.
Qed.

Lemma trigger_groups_ok : forall fuel pre post, I (pre ++ post) -> Forall (fun e => trigger_done e = true) pre -> (BTREE_ITER_INITIAL - length pre < fuel)%nat -> Forall untouched post ->
  exists us' ret, trigger_groups fuel c (pre ++ post) (length pre) = Some (us', ret) /\
    (ret <> 0 /\ Herr ret \/ ret = 0 /\ I us' /\ Forall (fun e => trigger_done e = true) us').
Proof.
  induction fuel as [|fuel IH]; intros pre post HI Hd Hf Hun; [lia|]. cbn [trigger_groups].
  rewrite lookup_app_r, Nat.sub_diag by lia. destruct post as [|i post]; cbn [lookup list_lookup].
  { eexists _, _. split; [done|]. right. split; [done|]. split; [done|]. by rewrite app_nil_r. }
  destruct (Hsorted _ HI) as [Hs Hw]. apply updates_sorted_app in Hs as (_ & Hs & _). apply Forall_app in Hw as [_ Hw].
  destruct (split_group i post Hs Hw) as (todo & post' & -> & Ht & Hp).
  change (i :: todo ++ post') with ((i :: todo) ++ post') in *. apply Forall_app in Hun as [Hun1 Hun2].
  destruct (trigger_rounds_ok (e_sort_order i) (S (S (2 * BTREE_ITER_INITIAL))) 2 (i :: todo) pre post') as (us' & ret & idx & -> & Hcase).
  - done.
  - eapply Forall_impl; [exact Hd|]. intros x Hx. by right.
  - by apply Forall_cons_2.
  - done.
  - apply Forall_forall. intros x _. right. apply unset_le.
  - unfold BTREE_ITER_INITIAL. lia.
  - by right.
  - done.
  - bind_simpl. destruct Hcase as [[Hne He]|(-> & todo' & post2 & -> & -> & Hg & HI' & Hp' & Hun' & Hd')].
    { rewrite (proj2 (Z.eqb_neq _ _) Hne). cbn [negb]. eexists _, _. split; [done|]. by left. }
    cbn [Z.eqb negb]. rewrite app_assoc, <- length_app in *. apply IH; [done|by apply Forall_app| |done].
    pose proof (Forall2_length _ _ _ Hg) as Hl. pose proof (Hlen _ HI') as Hb. rewrite !length_app in *. cbn [length] in *. lia.
Qed.

Lemma run_triggers_ok us : I us -> Forall untouched us -> exists us' ret, bch2_trans_commit_run_triggers c us = Some (us', ret) /\
    (ret <> 0 /\ Herr ret \/ ret = 0 /\ I us' /\ Forall (fun e => trigger_done e = true) us').
Proof.
  intros HI Hun. unfold bch2_trans_commit_run_triggers. destruct (trigger_groups_ok (S BTREE_ITER_INITIAL) [] us) as (us' & ret & E & Hcase); [done|apply Forall_nil_2|unfold BTREE_ITER_INITIAL; cbn; lia|done|].
  change (trigger_groups (S BTREE_ITER_INITIAL) c us 0) with (trigger_groups (S BTREE_ITER_INITIAL) c ([] ++ us) (length (@nil btree_insert_entry))). rewrite E. bind_simpl.
  destruct Hcase as [[Hne He]|(-> & HI' & Hd)].
  - rewrite (proj2 (Z.eqb_neq _ _) Hne). cbn [negb]. eexists _, _. split; [done|]. by left.
  - cbn [Z.eqb negb]. assert (forallb trigger_done us' = true) as ->.
    { apply forallb_forall. intros x Hx. apply list_elem_of_In in Hx. by apply (proj1 (Forall_forall _ _) Hd). }
    eexists _, _. split; [done|]. by right.
Qed.
End Rounds.

(** ** Staged updates are a map *)

(** C24: staging an update never panics while there is room, keeps the updates
    sorted by the order of their triggers with one entry for a key, and puts
    the key in the place of an earlier update of the same position. *)
Theorem trans_update_is_map c us b k flags : updates_wf c us -> key_in_range (b, kv_pos k) -> (length us < BTREE_ITER_INITIAL)%nat ->
  Forall (fun e => e_insert_trigger_run e = false /\ e_overwrite_trigger_run e = false) us ->
  exists us', bch2_trans_update c us b k flags = Some us' /\ updates_wf c us' /\ (length us' <= S (length us))%nat /\
    forall key, option_map e_k (find_update us' key) = if decide (key = (b, kv_pos k)) then Some k else option_map e_k (find_update us key).
Proof.
  intros Hus Hk Hl Hr. unfold bch2_trans_update.
  destruct (update_spec c us b k (k_u64s (kv_k k)) flags Hus Hk Hl ltac:(lia)) as (us' & E & H1 & H2 & H3 & _).
  { intros u Hu. apply find_update_Some in Hu as [Hu _]. by apply (proj1 (Forall_forall _ _) Hr). }
  exists us'. do 3 (split; [done|]). intros key. rewrite H3. by case_decide.
Qed.

Definition sample_fs : fs := mk_fs ∅ 1 None [1] 512 0 0 0 [].

(** An update of one key, then of one before it and again of the first. *)
Lemma trans_update_is_map_witness : exists us1 us2 us3, bch2_trans_update sample_fs [] 4 (deleted_key (POS 0 7)) 0 = Some us1 /\
  bch2_trans_update sample_fs us1 4 (deleted_key (POS 0 5)) 0 = Some us2 /\ bch2_trans_update sample_fs us2 4 (mk_kv (mk_bkey 6 1 3 ZERO_VERSION 0 (POS 0 7)) [42]) 0 = Some us3 /\
  map (fun u => (kv_pos (e_k u), kv_v (e_k u))) us3 = [(POS 0 5, []); (POS 0 7, [42])] /\ updates_wf sample_fs us3.
Proof.
  destruct (trans_update_is_map sample_fs [] 4 (deleted_key (POS 0 7)) 0) as (us1 & E1 & H1 & _ & _).
  - split; constructor.
  - repeat split; vm_compute; discriminate.
  - unfold BTREE_ITER_INITIAL. cbn. lia.
  - constructor.
  - exists us1. vm_compute in E1. injection E1 as <-.
    destruct (trans_update_is_map sample_fs _ 4 (deleted_key (POS 0 5)) 0 H1) as (us2 & E2 & H2 & _ & _).
    + repeat split; vm_compute; discriminate.
    + unfold BTREE_ITER_INITIAL. cbn. lia.
    + repeat constructor.
    + exists us2. vm_compute in E2. injection E2 as <-.
      destruct (trans_update_is_map sample_fs _ 4 (mk_kv (mk_bkey 6 1 3 ZERO_VERSION 0 (POS 0 7)) [42]) 0 H2) as (us3 & E3 & H3 & _ & _).
      * repeat split; vm_compute; discriminate.
      * unfold BTREE_ITER_INITIAL. cbn. lia.
      * repeat constructor.
      * exists us3. split; [reflexivity|]. split; [reflexivity|]. split; [exact E3|]. split; [|exact H3]. vm_compute in E3. injection E3 as <-. reflexivity.
Defined.
