(* ===== verification/TransCommit.v ===== *)
(** * Committing updates without pointers

    A commit replaces the keys of its updates; retried with what restarts it,
    a transaction of keys without pointers ends with exactly those keys
    replaced.  The buckets of a device are changed by such transactions. *)

From stdpp Require Import base tactics list option gmap sorting.
From Stdlib Require Import ZArith Lia.
From S2P Require Import Superblock Prelude Bpos BkeyPack Extents ExtentKeys AllocKeys Trans TransFacts.

Open Scope Z_scope.

(** ** Keys in memory *)

Record kv_wf (k : kv) : Prop := {
  kw_format : k_format (kv_k k) = KEY_FORMAT_CURRENT;
  kw_u64s : BKEY_U64S <= k_u64s (kv_k k) <= MAX 8;
  kw_value : length (kv_v k) = value_end k
}.

Lemma bversion_eq_true l r : bversion_eq l r = true -> l = r.
Proof. destruct l, r. unfold bversion_eq. cbn. rewrite andb_true_iff, !Z.eqb_eq. intros [-> ->]. done. Qed.

Lemma bkey_fields_eq_true l r : bkey_fields_eq l r = true -> k_format l = k_format r -> l = r.
Proof.
  destruct l as [lu lf lt lv ls lp], r as [ru rf rt rv rs rp]. unfold bkey_fields_eq. cbn. rewrite !andb_true_iff, !Z.eqb_eq, bpos_eq_spec, bool_decide_eq_true.
  intros ((((-> & ->) & ->) & Hv) & ->) ->. by rewrite (bversion_eq_true _ _ Hv).
Qed.

Lemma bkey_and_val_eq_true l r : kv_wf l -> kv_wf r -> bkey_and_val_eq l r = true -> l = r.
Proof.
  intros [Hf Hu Hv] [Hf' Hu' Hv']. unfold bkey_and_val_eq. rewrite andb_true_iff, orb_true_iff, Z.eqb_eq, bool_decide_eq_true. intros [Hk Hval].
  apply bkey_fields_eq_true in Hk; [|by rewrite Hf]. destruct l as [lk lv], r as [rk rv]. cbn [kv_k kv_v] in *. subst rk. unfold value_end in *. cbn [kv_k] in *. f_equal.
  destruct Hval as [H0|Hval].
  - rewrite H0 in Hv, Hv'. destruct lv, rv; try done.
  - by rewrite !take_ge in Hval by lia.
Qed.

Lemma deleted_wf p : kv_wf (deleted_key p).
Proof. by constructor. Qed.

Lemma value_key_ok pos t value : (length value <= 250)%nat ->
  exists k, value_key pos t value = Some k /\ kv_wf k /\ kv_pos k = pos /\ kv_type k = t /\ kv_v k = value /\ k_size (kv_k k) = 0 /\
    k_u64s (kv_k k) = BKEY_U64S + Z.of_nat (length value).
Proof.
  intros Hl. unfold value_key, set_bkey_val_bytes, set_bkey_val_u64s, BKEY_U64S, MAX. cbn [k_format k_type k_version k_size k_p].
  replace ((Z.of_nat (length value) * 8 + 7) / 8) with (Z.of_nat (length value)) by (apply Z.div_unique with 7; lia).
  unfold uadd. rewrite (proj2 (Z.ltb_lt _ _)) by lia. bind_simpl.
  rewrite (proj2 (assert_true (5 + Z.of_nat (length value) <=? 2 ^ 8 - 1))) by (apply Z.leb_le; lia). bind_simpl.
  eexists. split; [done|]. split; [|done]. constructor; cbn; [done|unfold BKEY_U64S, MAX; lia|].
  unfold value_end, bkey_val_u64s, BKEY_U64S, wsub. cbn [kv_k k_u64s]. rewrite Z.mod_small by lia. lia.
Qed.

(** ** The trees *)

Definition trees_wf (c : fs) : Prop := forall b p k, f_trees c !! (b, p) = Some k -> kv_pos k = p /\ kv_type k <> KEY_TYPE_deleted /\ kv_wf k.

Lemma peek_wf c b p : trees_wf c -> kv_wf (peek_slot c b p) /\ kv_pos (peek_slot c b p) = p.
Proof. intros H. unfold peek_slot. destruct (f_trees c !! (b, p)) as [k|] eqn:E; cbn; [destruct (H _ _ _ E) as (?&?&?); done|]. split; [apply deleted_wf|done]. Qed.

(** What a key is when the updates are applied. *)
Definition live (k : kv) : option kv := if kv_type k =? KEY_TYPE_deleted then None else Some k.
Definition after (t : gmap (Z * bpos) kv) (us : list btree_insert_entry) (key : Z * bpos) : option kv :=
  match find_update us key with Some e => live (e_k e) | None => t !! key end.

Lemma live_peek c b p : trees_wf c -> live (peek_slot c b p) = f_trees c !! (b, p).
Proof.
  intros H. unfold peek_slot. destruct (f_trees c !! (b, p)) as [k|] eqn:E; cbn; [|done].
  destruct (H _ _ _ E) as (_ & Ht & _). unfold live. by rewrite (proj2 (Z.eqb_neq _ _) Ht).
Qed.

Lemma apply_entry_lookup t e key : apply_entry t e !! key = if decide (ekey e = key) then live (e_k e) else t !! key.
Proof.
  unfold apply_entry, live, ekey. destruct (kv_type (e_k e) =? KEY_TYPE_deleted); case_decide as E; subst.
  - apply lookup_delete_eq.
  - by apply lookup_delete_ne.
  - apply lookup_insert_eq.
  - by apply lookup_insert_ne.
Qed.

Lemma apply_all_other us : forall t key, find_update us key = None -> apply_all t us !! key = t !! key.
Proof.
  induction us as [|e us IH]; intros t key; [done|]. rewrite find_update_cons. case_decide as E; [done|]. intros Hf.
  cbn [apply_all fold_left]. fold (apply_all (apply_entry t e) us). rewrite IH by done. rewrite apply_entry_lookup. by case_decide.
Qed.

Lemma apply_all_lookup us : forall t key, updates_sorted us -> apply_all t us !! key = after t us key.
Proof.
  unfold after. induction us as [|e us IH]; intros t key Hs; [done|]. rewrite find_update_cons.
  cbn [apply_all fold_left]. fold (apply_all (apply_entry t e) us). case_decide as E.
  - subst key. rewrite apply_all_other; [rewrite apply_entry_lookup; by case_decide|]. apply find_update_None. intros e' He' Hk.
    apply StronglySorted_inv in Hs as [_ Hlt]. pose proof (proj1 (Forall_forall _ _) Hlt e' He') as Hl. cbn in Hl. rewrite Hk in Hl. lia.
  - apply StronglySorted_inv in Hs as [Hs _]. rewrite IH by done. destruct (find_update us key); [done|]. rewrite apply_entry_lookup. by case_decide.
Qed.

(** Updates that change nothing can be left out. *)
Lemma updates_filter c f us : updates_wf c us -> updates_wf c (List.filter f us).
Proof.
  intros [Hw Hs]. split.
  - apply Forall_forall. intros e He. apply list_elem_of_In, filter_In in He as [He _]. by apply (proj1 (Forall_forall _ _) Hw), list_elem_of_In.
  - unfold updates_sorted in *. induction us as [|e us IH]; [constructor|]. apply StronglySorted_inv in Hs as [Hs Hlt]. apply Forall_cons_1 in Hw as [_ Hw].
    cbn [List.filter]. destruct (f e); [|by apply IH]. constructor; [by apply IH|]. apply Forall_forall. intros e' He'.
    apply list_elem_of_In, filter_In in He' as [He' _]. by apply (proj1 (Forall_forall _ _) Hlt), list_elem_of_In.
Qed.

Lemma find_update_filter f us key : updates_sorted us ->
  find_update (List.filter f us) key = match find_update us key with Some e => if f e then Some e else None | None => None end.
Proof.
  induction us as [|e us IH]; intros Hs; [done|]. apply StronglySorted_inv in Hs as [Hs Hlt]. rewrite find_update_cons. cbn [List.filter]. case_decide as E.
  - destruct (f e) eqn:Ef; [rewrite find_update_cons; by case_decide|]. rewrite IH by done. destruct (find_update us key) as [e'|] eqn:E'; [|done].
    apply find_update_Some in E' as [He' Hk]. pose proof (proj1 (Forall_forall _ _) Hlt e' He') as Hl. cbn in Hl. rewrite Hk, E in Hl. lia.
  - destruct (f e) eqn:Ef; [rewrite find_update_cons; case_decide; [done|]|]; by rewrite IH.
Qed.

Lemma after_noop c us key : trees_wf c -> updates_wf c us -> Forall (fun e => kv_wf (e_k e)) us ->
  after (f_trees c) (List.filter (fun i => negb (is_noop i)) us) key = after (f_trees c) us key.
Proof.
  intros Hc [Hw Hs] Hk. unfold after. rewrite find_update_filter by done. destruct (find_update us key) as [e|] eqn:Ef; [|done].
  destruct (is_noop e) eqn:En; [|done]. cbn [negb]. apply find_update_Some in Ef as [He <-]. unfold is_noop in En.
  pose proof (proj1 (Forall_forall _ _) Hw e He) as Hwe. pose proof (proj1 (Forall_forall _ _) Hk e He) as Hke. rewrite (u_old _ _ Hwe) in En.
  apply bkey_and_val_eq_true in En; [|by apply peek_wf|done]. unfold ekey. rewrite <- En at 2. by rewrite live_peek.
Qed.

(** ** Triggers of keys without pointers *)

Definition plain_kv (k : kv) : Prop := key_trigger_kind (kv_type k) = 0.
Definition plain_update (e : btree_insert_entry) : Prop := plain_kv (e_old e) /\ plain_kv (e_k e).

Lemma plain_same e e' : same_update e e' -> plain_update e -> plain_update e'.
Proof. by intros ->. Qed.

Lemma wf_same c e e' : same_update e e' -> update_wf c e -> update_wf c e'.
Proof. intros -> []. by constructor. Qed.

Lemma updates_wf_same c us us' : Forall2 same_update us us' -> updates_wf c us -> updates_wf c us'.
Proof.
  intros H [Hw Hs]. split.
  - clear Hs. induction H as [|e e' us us' Hse H IH]; [constructor|]. apply Forall_cons_1 in Hw as [H1 H2]. apply Forall_cons_2; [by eapply wf_same|by apply IH].
  - clear Hw. unfold updates_sorted in *. induction H as [|e e' us us' Hse H IH]; [constructor|]. apply StronglySorted_inv in Hs as [Hs Hlt]. constructor; [by apply IH|].
    clear IH Hs. induction H as [|x x' us us' Hx H IH]; [constructor|]. apply Forall_cons_1 in Hlt as [H1 H2]. apply Forall_cons_2; [|by apply IH].
    by rewrite (same_update_key _ _ Hse), (same_update_key _ _ Hx).
Qed.

(** The flags that a run of the trigger of [e] sets. *)
Definition run_flags (e : btree_insert_entry) : btree_insert_entry :=
  if negb (e_insert_trigger_run e) && negb (e_overwrite_trigger_run e) && (key_trigger_kind (kv_type (e_old e)) =? key_trigger_kind (kv_type (e_k e))) then set_run e true true
  else if negb (e_overwrite_trigger_run e) then set_run e (e_insert_trigger_run e) true
  else set_run e true (e_overwrite_trigger_run e).

Lemma run_flags_same e : same_update e (run_flags e).
Proof. unfold run_flags. by repeat (match goal with |- context [if ?b then _ else _] => destruct b end). Qed.

Lemma run_flags_unset e : trigger_done e = false -> (unset (run_flags e) < unset e)%nat.
Proof.
  unfold trigger_done, run_flags, unset. rewrite !orb_false_iff. intros [[_ _] Hd].
  destruct (e_insert_trigger_run e), (e_overwrite_trigger_run e); try done; cbn; try lia.
  destruct (_ =? _); cbn; lia.
Qed.

Lemma not_done e : trigger_done e = false -> e_insert_trigger_run e && e_overwrite_trigger_run e = false.
Proof. unfold trigger_done. rewrite !orb_false_iff. by intros [[_ _] ->]. Qed.

Lemma run_flags_overwritten e : e_overwrite_trigger_run (run_flags e) = true.
Proof. unfold run_flags. destruct (negb _ && negb _ && _); [done|]. by destruct (e_overwrite_trigger_run e) eqn:E. Qed.

Lemma run_plain c pre e post : update_wf c e -> plain_update e -> trigger_done e = false ->
  run_one_trans_trigger c (pre ++ e :: post) (length pre) = Some (pre ++ run_flags e :: post, 0).
Proof.
  intros Hw [Ho Hn] Hd. unfold run_one_trans_trigger. rewrite list_lookup_middle by done. bind_simpl. rewrite <- (u_old _ _ Hw), bool_decide_true by done. cbn [negb].
  apply not_done in Hd. unfold run_flags. unfold plain_kv in *. rewrite Ho, Hn. cbn [Z.eqb negb orb andb].
  destruct (e_insert_trigger_run e) eqn:E1, (e_overwrite_trigger_run e) eqn:E2; try done; cbn [negb andb]; by rewrite insert_app_r_alt, Nat.sub_diag by lia.
Qed.

Lemma plain_triggers c us : updates_wf c us -> (length us <= BTREE_ITER_INITIAL)%nat -> Forall plain_update us ->
  exists us', bch2_trans_commit_run_triggers c us = Some (us', 0) /\ Forall2 same_update us us' /\ updates_wf c us'.
Proof.
  intros Hw Hl Hp. set (I := fun us' => Forall2 same_update us us' /\ updates_wf c us' /\ Forall plain_update us').
  destruct (run_triggers_ok c I (fun _ => False) (fun _ => False)) with (us := us) as (us' & ret & E & Hcase).
  - intros pre e post (Hsame & [Hw' Hs'] & Hp') _ Hd _. apply Forall_app in Hp' as Hp2. destruct Hp2 as [_ Hp2]. apply Forall_cons_1 in Hp2 as [Hpe _].
    apply Forall_app in Hw' as Hw2. destruct Hw2 as [_ Hw2]. apply Forall_cons_1 in Hw2 as [Hwe _].
    eexists _, _. split; [by apply run_plain|]. right. split; [done|]. exists (run_flags e), post, [], []. rewrite !app_nil_r. split; [done|]. split; [done|].
    assert (Forall2 same_update (pre ++ e :: post) (pre ++ run_flags e :: post)) as H2.
    { apply Forall2_app; [by apply group_same_refl|]. constructor; [apply run_flags_same|apply group_same_refl]. }
    split; [apply run_flags_same|]. split; [by apply run_flags_unset|]. split; [apply run_flags_overwritten|]. split; [|split; [constructor|split; constructor]]. split; [by eapply group_same_trans|].
    split; [by eapply updates_wf_same|]. apply Forall_app in Hp' as [H1 H3]. apply Forall_cons_1 in H3 as [H3 H4]. apply Forall_app. split; [done|].
    apply Forall_cons_2; [by eapply plain_same; [apply run_flags_same|]|done].
  - intros us' (H & _ & _). by rewrite <- (Forall2_length _ _ _ H).
  - intros us' (_ & [Hw' Hs'] & _). split; [done|]. eapply Forall_impl; [exact Hw'|]. intros e []. done.
  - split; [apply group_same_refl|done].
  - apply Forall_forall. by intros x _ [].
  - destruct Hcase as [[_ []]|(-> & (Hsame & Hw' & _) & _)]. eauto.
Qed.

Lemma after_same t us us' key : Forall2 same_update us us' -> after t us' key = after t us key.
Proof.
  intros H. unfold after. assert (match find_update us key, find_update us' key with Some e, Some e' => e_k e' = e_k e | None, None => True | _, _ => False end) as Hf.
  { induction H as [|e e' us us' He H IH]; [done|]. rewrite !find_update_cons, (same_update_key _ _ He). case_decide; [by rewrite He|done]. }
  destruct (find_update us key), (find_update us' key); by rewrite ?Hf.
Qed.

(** ** One commit *)

(** The parts a commit does not touch. *)
Definition same_env (c c' : fs) : Prop :=
  f_nr_devices c' = f_nr_devices c /\ f_members c' = f_members c /\ f_devs_online c' = f_devs_online c /\ f_node_size c' = f_node_size c /\
  f_last_seq_ondisk c' = f_last_seq_ondisk c.

Lemma same_env_refl c : same_env c c.
Proof. done. Qed.

Lemma same_env_trans c1 c2 c3 : same_env c1 c2 -> same_env c2 c3 -> same_env c1 c3.
Proof. unfold same_env. intuition congruence. Qed.

(** Errors are not 0. *)
#[export] Instance commit_event_eq_dec : EqDecision commit_event.
Proof. solve_decision. Defined.

(** The error an event brings. *)
Definition event_ret (ev : commit_event) : Z := match ev with Refuse ret => ret | SplitAfter _ split => split | _ => 0 end.

Definition ret_ok (ev : commit_event) (ret : Z) : Prop := ret = 0 \/ ret = -4 \/ ret = event_ret ev \/ ev = Realloc.

Definition event_ok (ev : commit_event) : Prop := match ev with Refuse ret => ret <> 0 | _ => True end.

Definition leaf_keys_ok (us : list btree_insert_entry) : Prop := Forall (fun e => kv_wf (e_k e) /\ plain_update e) us.

Lemma journal_size us : Forall (fun e => k_u64s (kv_k (e_k e)) <= MAX 8) us -> (length us <= BTREE_ITER_INITIAL)%nat ->
  fold_left (fun n i => n + bkey_jset_u64s (k_u64s (kv_k (e_k i)))) (journaled us) 0 <= MAX 16.
Proof.
  intros Hk Hl. assert (forall l n, Forall (fun e => k_u64s (kv_k (e_k e)) <= MAX 8) l ->
    fold_left (fun n i => n + bkey_jset_u64s (k_u64s (kv_k (e_k i)))) l n <= n + 256 * Z.of_nat (length l)) as H.
  { induction l as [|e l IH]; intros n Hf; cbn [fold_left length]; [lia|]. apply Forall_cons_1 in Hf as [H1 H2]. specialize (IH (n + bkey_jset_u64s (k_u64s (kv_k (e_k e)))) H2).
    unfold bkey_jset_u64s, MAX in *. lia. }
  assert (Forall (fun e => k_u64s (kv_k (e_k e)) <= MAX 8) (journaled us) /\ (length (journaled us) <= length us)%nat) as [Hj Hlj].
  { unfold journaled. split; [|apply filter_length_le]. apply Forall_forall. intros x Hx. apply list_elem_of_In, filter_In in Hx as [Hx _].
    by apply (proj1 (Forall_forall _ _) Hk), list_elem_of_In. }
  specialize (H _ 0 Hj). unfold BTREE_ITER_INITIAL, MAX in *. lia.
Qed.

Lemma after_take t us n key : updates_sorted us -> after t (take n us) key = t !! key \/ after t (take n us) key = after t us key.
Proof.
  intros Hs. unfold after. destruct (find_update (take n us) key) as [e|] eqn:E; [|by left]. right.
  rewrite <- (take_drop n us) at 1. by rewrite find_update_app, E.
Qed.

Lemma plain_no_snapshot k : plain_kv k -> (kv_type k =? KEY_TYPE_snapshot) = false.
Proof. unfold plain_kv, key_trigger_kind. by destruct (kv_type k =? KEY_TYPE_snapshot). Qed.

(** What writing the keys needs of them. *)
Definition writable (e : btree_insert_entry) : Prop :=
  k_u64s (kv_k (e_k e)) <= MAX 8 /\ (kv_type (e_old e) =? KEY_TYPE_snapshot) = false /\ (kv_type (e_k e) =? KEY_TYPE_snapshot) = false.

Lemma commit_write_result c us ev : updates_wf c us -> Forall writable us -> (length us <= BTREE_ITER_INITIAL)%nat -> event_ok ev ->
  exists c' ret, commit_write c us ev = Some (c', ret) /\ same_env c c' /\ f_restarts c' = f_restarts c /\ f_discard_restarts c' = f_discard_restarts c /\
    (forall key, f_trees c' !! key = f_trees c !! key \/ f_trees c' !! key = after (f_trees c) us key) /\
    (ret = 0 -> forall key, f_trees c' !! key = after (f_trees c) us key) /\
    (ret <> 0 -> (forall n split, ev <> SplitAfter n split) -> f_trees c' = f_trees c) /\ (ev = Proceed -> ret = 0) /\ ret_ok ev ret.
Proof.
  intros [Hw Hs] Hk Hl Hev. unfold commit_write.
  assert (Forall (fun e => k_u64s (kv_k (e_k e)) <= MAX 8) us) as Hu by (eapply Forall_impl; [exact Hk|]; by intros e [? _]).
  pose proof (journal_size us Hu Hl) as Hj. rewrite (proj2 (Z.ltb_ge _ _)) by exact Hj.
  assert (forallb (fun i => bool_decide (peek_slot c (e_btree_id i) (kv_pos (e_k i)) = e_old i)) us = true) as ->.
  { apply forallb_forall. intros e He. apply bool_decide_eq_true. symmetry. by apply u_old, (proj1 (Forall_forall _ _) Hw), list_elem_of_In. }
  assert (existsb (fun i => negb (has_flag (e_flags i) BTREE_TRIGGER_norun) &&
    ((kv_type (e_old i) =? KEY_TYPE_snapshot) || (kv_type (e_k i) =? KEY_TYPE_snapshot))) us = false) as ->.
  { apply not_true_iff_false. intros H. apply existsb_exists in H as (e & He & H). apply list_elem_of_In in He.
    destruct (proj1 (Forall_forall _ _) Hk e He) as (_ & Ho & Hn). by rewrite Ho, Hn, andb_false_r in H. }
  cbn [negb]. destruct ev as [|r|n split|]; cbn in Hev.
  - eexists _, _. split; [done|]. cbn. repeat (split; [done|]). assert (forall key, apply_all (f_trees c) us !! key = after (f_trees c) us key) as H by (intros key; by apply apply_all_lookup).
    split; [by right|]. split; [done|]. split; [|by split; [|left]]. intros H0; done.
  - eexists _, _. split; [done|]. repeat (split; [done|]). split; [by left|]. split; [done|]. split; [done|]. split; [done|]. by right; right; left.
  - destruct (n <? length us)%nat eqn:En; (eexists _, _; split; [done|]; cbn; repeat (split; [done|])).
    + assert ((if negb (split =? 0) then split else -4) <> 0) as Hne by (destruct (Z.eqb_spec split 0); cbn; lia).
      split; [|split; [done|split; [|split; [done|by destruct (Z.eqb_spec split 0); cbn; [right; left|right; right; left]]]]].
      * intros key. rewrite apply_all_lookup; [by apply after_take|]. rewrite <- (take_drop n us) in Hs. by apply updates_sorted_app in Hs as [Hs _].
      * intros _ Hn. by destruct (Hn n split).
    + split; [intros key; right; by apply apply_all_lookup|]. split; [intros _ key; by apply apply_all_lookup|]. split; [done|]. split; [done|]. by left.
  - eexists _, _. split; [done|]. repeat (split; [done|]). split; [by left|]. split; [done|]. split; [done|]. split; [done|]. by do 3 right.
Qed.

Lemma leaf_keys_writable us : leaf_keys_ok us -> Forall writable us.
Proof.
  intros H. eapply Forall_impl; [exact H|]. intros e [[_ Hu _] [Ho Hn]]. split; [lia|]. by rewrite (plain_no_snapshot _ Ho), (plain_no_snapshot _ Hn).
Qed.

(** What an attempt to commit leaves, for keys without pointers. *)
Record commit_result (c : fs) (us : list btree_insert_entry) (ev : commit_event) (c' : fs) (ret : Z) : Prop := {
  cr_env : same_env c c';
  cr_keys : forall key, f_trees c' !! key = f_trees c !! key \/ f_trees c' !! key = after (f_trees c) us key;
  cr_done : ret = 0 -> forall key, f_trees c' !! key = after (f_trees c) us key;
  cr_refused : ret <> 0 -> (forall n split, ev <> SplitAfter n split) -> f_trees c' = f_trees c;
  cr_restart : 0 < f_restarts c -> f_restarts c' = f_restarts c - 1 /\ ret = -4;
  cr_no_restart : f_restarts c <= 0 -> f_restarts c' = f_restarts c /\ (ev = Proceed -> ret = 0);
  cr_discard : f_discard_restarts c' = f_discard_restarts c;
  cr_ret : ret_ok ev ret
}.

Lemma leaf_keys_filter f us : leaf_keys_ok us -> leaf_keys_ok (List.filter f us).
Proof. intros H. apply Forall_forall. intros e He. apply list_elem_of_In, filter_In in He as [He _]. by apply (proj1 (Forall_forall _ _) H), list_elem_of_In. Qed.

Lemma leaf_keys_same us us' : Forall2 same_update us us' -> leaf_keys_ok us -> leaf_keys_ok us'.
Proof.
  intros H. induction H as [|e e' us us' He H IH]; intros Hk; [constructor|]. apply Forall_cons_1 in Hk as [[H1 H2] H3]. apply Forall_cons_2; [|by apply IH].
  rewrite He. split; [done|]. destruct H2. by split.
Qed.

Lemma commit_plain c us ev : trees_wf c -> updates_wf c us -> leaf_keys_ok us -> (length us <= BTREE_ITER_INITIAL)%nat -> event_ok ev ->
  exists c' ret, bch2_trans_commit c us ev = Some (c', ret) /\ commit_result c us ev c' ret.
Proof.
  intros Hc Hw Hk Hl Hev. unfold bch2_trans_commit. destruct (Z.ltb_spec 0 (f_restarts c)) as [Hr|Hr].
  { eexists _, _. split; [done|]. constructor; cbn; try done; try lia; [by left|by right; left]. }
  assert (forall key, after (f_trees c) (List.filter (fun i => negb (is_noop i)) us) key = after (f_trees c) us key) as Hnoop.
  { intros key. apply after_noop; [done|done|]. eapply Forall_impl; [exact Hk|]. by intros e [He _]. }
  assert (forall us', (forall key, after (f_trees c) us' key = f_trees c !! key) -> (forall key, after (f_trees c) us' key = after (f_trees c) us key) ->
    commit_result c us ev c 0) as Hsame.
  { intros us' H1 H2. constructor; try done; try lia; [by left| |by left]. intros _ key. by rewrite <- H2. }
  destruct (length us =? 0)%nat eqn:E0.
  { apply Nat.eqb_eq, nil_length_inv in E0 as ->. eexists _, _. split; [done|]. by eapply (Hsame []). }
  destruct (length (List.filter (fun i => negb (is_noop i)) us) =? 0)%nat eqn:E1.
  { apply Nat.eqb_eq, nil_length_inv in E1. rewrite E1 in Hnoop. eexists _, _. split; [done|]. by eapply (Hsame []). }
  set (us1 := List.filter _ us) in *. assert (length us1 <= BTREE_ITER_INITIAL)%nat as Hl1 by (etransitivity; [apply filter_length_le|done]).
  pose proof (updates_filter c (fun i => negb (is_noop i)) us Hw) as Hw1. fold us1 in Hw1. pose proof (leaf_keys_filter (fun i => negb (is_noop i)) us Hk) as Hk1. fold us1 in Hk1.
  destruct (plain_triggers c us1 Hw1 Hl1) as (us2 & -> & Hs2 & Hw2); [eapply Forall_impl; [exact Hk1|]; by intros e [_ He]|]. bind_simpl. cbn [Z.eqb negb].
  destruct (commit_write_result c us2 ev Hw2) as (c' & ret & -> & H1 & H2 & H3 & H4 & H5 & H6 & H7 & H8); [by eapply leaf_keys_writable, leaf_keys_same|by rewrite <- (Forall2_length _ _ _ Hs2)|done|].
  assert (forall key, after (f_trees c) us2 key = after (f_trees c) us key) as Ha by (intros key; rewrite (after_same _ _ _ _ Hs2); apply Hnoop).
  eexists _, _. split; [done|]. constructor; try done; try lia; [intros key; rewrite <- Ha; apply H4|]. intros H0 key. rewrite <- Ha. by apply H5.
Qed.

(** ** Transactions of keys without pointers, with their retries *)

(** The keys, each for a tree, one after the other. *)
Fixpoint stage_keys (c : fs) (us : list btree_insert_entry) (ks : list (Z * kv)) : option (list btree_insert_entry) :=
  match ks with
  | [] => Some us
  | (b, k) :: ks => us ← bch2_trans_update c us b k 0; stage_keys c us ks
  end.

(** What is then where. *)
Fixpoint over (f : Z * bpos -> option kv) (ks : list (Z * kv)) : Z * bpos -> option kv :=
  match ks with
  | [] => f
  | (b, k) :: ks => over (fun key => if decide (key = (b, kv_pos k)) then live k else f key) ks
  end.

Definition keys_after (t : gmap (Z * bpos) kv) (ks : list (Z * kv)) : Z * bpos -> option kv := over (fun key => t !! key) ks.

Definition key_ok (bk : Z * kv) : Prop := key_in_range (bk.1, kv_pos bk.2) /\ kv_wf bk.2 /\ plain_kv bk.2.

(** The keys that are replaced have no pointers either. *)
Definition plain_at (t : gmap (Z * bpos) kv) (ks : list (Z * kv)) : Prop := forall b k old, (b, k) ∈ ks -> t !! (b, kv_pos k) = Some old -> plain_kv old.

Lemma over_ext ks : forall f g key, f key = g key -> over f ks key = over g ks key.
Proof. induction ks as [|[b k] ks IH]; intros f g key E; cbn [over]; [done|]. apply IH. by case_decide. Qed.

Lemma over_cases ks : forall f key, over f ks key = f key \/ (exists b k, (b, k) ∈ ks /\ key = (b, kv_pos k) /\ over f ks key = live k /\ forall g, over g ks key = live k).
Proof.
  induction ks as [|[b k] ks IH]; intros f key; cbn [over]; [by left|].
  destruct (IH (fun key => if decide (key = (b, kv_pos k)) then live k else f key) key) as [E|(b' & k' & Hk & -> & E & Hg)].
  - rewrite E. case_decide as Hd; [|by left]. right. exists b, k. split; [apply list_elem_of_here|]. do 2 (split; [done|]). intros g.
    rewrite (over_ext ks _ (fun key => if decide (key = (b, kv_pos k)) then live k else f key)); [done|]. cbn beta. by case_decide.
  - right. exists b', k'. split; [by apply list_elem_of_further|]. split; [done|]. split; [done|]. intros g. apply Hg.
Qed.

Lemma peek_plain c b k ks : plain_at (f_trees c) ks -> (b, k) ∈ ks -> plain_kv (peek_slot c b (kv_pos k)).
Proof. intros H Hk. unfold peek_slot. destruct (f_trees c !! (b, kv_pos k)) as [old|] eqn:E; [by eapply H|done]. Qed.

Lemma peek_ne_plain c b k bk ks : plain_at (f_trees c) (bk :: ks) -> (b, k) ∈ ks -> plain_kv (peek_slot c b (kv_pos k)).
Proof. intros H Hk. eapply peek_plain; [exact H|by apply list_elem_of_further]. Qed.

Definition no_flags (us : list btree_insert_entry) : Prop := Forall (fun e => e_insert_trigger_run e = false /\ e_overwrite_trigger_run e = false) us.

Lemma forall_after_update (P : btree_insert_entry -> Prop) us us' n key : updates_sorted us' -> Forall P us -> P n ->
  (forall k, find_update us' k = if decide (k = key) then Some n else find_update us k) -> Forall P us'.
Proof.
  intros Hs Hus Hn Hf. apply Forall_forall. intros e He. pose proof (find_update_sorted us' e Hs He) as E. rewrite Hf in E. case_decide as Hd.
  - by injection E as <-.
  - apply find_update_Some in E as [E _]. by apply (proj1 (Forall_forall _ _) Hus).
Qed.

Lemma stage_ok c ks : forall us, updates_wf c us -> no_flags us -> leaf_keys_ok us -> Forall key_ok ks -> plain_at (f_trees c) ks ->
  (length us + length ks <= BTREE_ITER_INITIAL)%nat ->
  exists us', stage_keys c us ks = Some us' /\ updates_wf c us' /\ no_flags us' /\ leaf_keys_ok us' /\ (length us' <= BTREE_ITER_INITIAL)%nat /\
    (forall key, after (f_trees c) us' key = over (after (f_trees c) us) ks key).
Proof.
  induction ks as [|[b k] ks IH]; intros us Hw Hn Hl Hk Hp Hlen; cbn [stage_keys over length] in *.
  { exists us. do 4 (split; [done|]). split; [lia|done]. }
  apply Forall_cons_1 in Hk as [(Hr & Hkw & Hkp) Hk]. unfold bch2_trans_update.
  destruct (update_spec c us b k (k_u64s (kv_k k)) 0 Hw Hr ltac:(lia) ltac:(lia)) as (us1 & -> & Hw1 & Hlen1 & Hf & _).
  { intros u Hu. apply find_update_Some in Hu as [Hu _]. by apply (proj1 (Forall_forall _ _) Hn). }
  bind_simpl. pose proof (peek_plain c b k _ Hp (list_elem_of_here _ _)) as Hold.
  destruct (IH us1) as (us' & E & H1 & H2 & H3 & H4 & H5).
  - done.
  - eapply forall_after_update; [apply Hw1|exact Hn| |exact Hf]. done.
  - eapply forall_after_update; [apply Hw1|exact Hl| |exact Hf]. done.
  - done.
  - intros b' k' old H' Ho. eapply Hp; [by apply list_elem_of_further|done].
  - lia.
  - exists us'. do 5 (split; [done|]). intros key. rewrite H5. apply over_ext. unfold after. rewrite Hf. by case_decide.
Qed.

(** How many commits will still be made to restart. *)
Definition restarts_left (c : fs) : Z := Z.max 0 (f_restarts c) + Z.max 0 (f_discard_restarts c).

(** What an attempt of a commit of such keys must do. *)
Record attempt_result (c : fs) (us : list btree_insert_entry) (ev : commit_event) (c' : fs) (ret : Z) : Prop := {
  at_env : same_env c c';
  at_keys : forall key, f_trees c' !! key = f_trees c !! key \/ f_trees c' !! key = after (f_trees c) us key;
  at_done : ret = 0 -> forall key, f_trees c' !! key = after (f_trees c) us key;
  at_refused : ret <> 0 -> (forall n split, ev <> SplitAfter n split) -> f_trees c' = f_trees c;
  at_left : restarts_left c' <= restarts_left c;
  at_proceed : ev = Proceed -> ret = 0 \/ ret = -4 /\ restarts_left c' < restarts_left c;
  at_ret : ret = 0 \/ ret = -4 \/ ret = event_ret ev
}.

Definition commits (commit : fs -> list btree_insert_entry -> commit_event -> option (fs * Z)) : Prop :=
  forall c us ev, trees_wf c -> updates_wf c us -> leaf_keys_ok us -> (length us <= BTREE_ITER_INITIAL)%nat -> event_ok ev -> ev <> Realloc ->
    exists c' ret, commit c us ev = Some (c', ret) /\ attempt_result c us ev c' ret.

Lemma commit_commits : commits bch2_trans_commit.
Proof.
  intros c us ev Hc Hw Hk Hl Hev Hne. destruct (commit_plain c us ev Hc Hw Hk Hl Hev) as (c' & ret & E & H). exists c', ret. split; [done|].
  destruct H as [H1 H2 H3 H4 H5 H6 H7 H8]. constructor; try done.
  - unfold restarts_left. rewrite H7. destruct (Z.lt_ge_cases 0 (f_restarts c)) as [Hr|Hr]; [destruct (H5 Hr)|destruct (H6 Hr)]; lia.
  - intros ->. unfold restarts_left. rewrite H7. destruct (Z.lt_ge_cases 0 (f_restarts c)) as [Hr|Hr]; [destruct (H5 Hr); right|destruct (H6 Hr); left]; [lia|auto].
  - destruct H8 as [H8|[H8|[H8|H8]]]; auto. done.
Qed.

(** *** The loop *)

Definition stage_of (ks : list (Z * kv)) (c : fs) : option (list btree_insert_entry * Z) := us ← stage_keys c [] ks; Some (us, 0).
Definition is_restart (ret : Z) : bool := ret =? -4.

Definition is_split (ev : commit_event) : bool := match ev with SplitAfter _ _ => true | _ => false end.

Lemma trees_wf_over c c' ks : trees_wf c -> Forall key_ok ks -> (forall key, f_trees c' !! key = f_trees c !! key \/ f_trees c' !! key = keys_after (f_trees c) ks key) -> trees_wf c'.
Proof.
  intros Hc Hk H b p k E. destruct (H (b, p)) as [Hs|Hs]; rewrite Hs in E; [by eapply Hc|]. unfold keys_after in E.
  destruct (over_cases ks (fun key => f_trees c !! key) (b, p)) as [Ho|(b' & k' & Hin & [= -> ->] & Ho & _)]; rewrite Ho in E; [by eapply Hc|].
  unfold live in E. destruct (kv_type k' =? KEY_TYPE_deleted) eqn:Ed; [done|]. injection E as <-. split; [done|]. split; [by apply Z.eqb_neq|].
  by apply (proj1 (Forall_forall _ _) Hk _ Hin).
Qed.

Lemma plain_at_over c c' ks : Forall key_ok ks -> plain_at (f_trees c) ks -> (forall key, f_trees c' !! key = f_trees c !! key \/ f_trees c' !! key = keys_after (f_trees c) ks key) ->
  plain_at (f_trees c') ks.
Proof.
  intros Hk Hp H b k old Hin E. destruct (H (b, kv_pos k)) as [Hs|Hs]; rewrite Hs in E; [by eapply Hp|]. unfold keys_after in E.
  destruct (over_cases ks (fun key => f_trees c !! key) (b, kv_pos k)) as [Ho|(b' & k' & Hin' & _ & Ho & _)]; rewrite Ho in E; [by eapply Hp|].
  unfold live in E. destruct (kv_type k' =? KEY_TYPE_deleted); [done|]. injection E as <-. by apply (proj1 (Forall_forall _ _) Hk _ Hin').
Qed.

(** The keys of an attempt on a partly changed tree are those of the first. *)
Lemma keys_after_again t t' ks key : (forall key, t' !! key = t !! key \/ t' !! key = keys_after t ks key) -> keys_after t' ks key = keys_after t ks key.
Proof.
  intros H. unfold keys_after. destruct (over_cases ks (fun key => t !! key) key) as [E|(b & k & _ & _ & E & Hg)]; [|by rewrite E, Hg].
  destruct (over_cases ks (fun key => t' !! key) key) as [E'|(b & k & _ & _ & E' & Hg)].
  - rewrite E, E'. destruct (H key) as [Hs|Hs]; [done|]. rewrite Hs. unfold keys_after. by rewrite E.
  - rewrite E'. symmetry. apply Hg.
Qed.

Record loop_result (c : fs) (ks : list (Z * kv)) (c' : fs) (ret : Z) : Prop := {
  lr_env : same_env c c';
  lr_keys : forall key, f_trees c' !! key = f_trees c !! key \/ f_trees c' !! key = keys_after (f_trees c) ks key;
  lr_done : ret = 0 -> forall key, f_trees c' !! key = keys_after (f_trees c) ks key;
  lr_wf : trees_wf c';
  lr_left : restarts_left c' <= restarts_left c
}.

Definition restart_event (ev : commit_event) : Prop := match ev with Refuse ret => ret = -4 | SplitAfter _ split => split = 0 \/ split = -4 | _ => True end.
Lemma restart_ret ev : restart_event ev -> event_ok ev /\ (event_ret ev = 0 \/ event_ret ev = -4).
Proof. destruct ev as [|r|n split|]; cbn; [auto|lia|intuition|auto]. Qed.

Section Loop.
Context (commit : fs -> list btree_insert_entry -> commit_event -> option (fs * Z)) (Hcommit : commits commit).
Context (ks : list (Z * kv)) (Hks : Forall key_ok ks) (Hlen : (length ks <= BTREE_ITER_INITIAL)%nat).

Lemma attempt_ok c ev : trees_wf c -> plain_at (f_trees c) ks -> event_ok ev -> ev <> Realloc ->
  exists us c' ret, stage_of ks c = Some (us, 0) /\ commit c us ev = Some (c', ret) /\ loop_result c ks c' ret /\ plain_at (f_trees c') ks /\
    attempt_result c us ev c' ret.
Proof.
  intros Hc Hp Hev Hne. unfold stage_of.
  destruct (stage_ok c ks []) as (us & -> & Hw & _ & Hl & Hlu & Ha); [split; constructor|constructor|constructor|done|done|done|]. bind_simpl.
  destruct (Hcommit c us ev) as (c' & ret & E & Hr); try done. exists us, c', ret. split; [done|]. split; [done|].
  assert (forall key, after (f_trees c) us key = keys_after (f_trees c) ks key) as Hk by (intros key; by rewrite Ha).
  assert (forall key, f_trees c' !! key = f_trees c !! key \/ f_trees c' !! key = keys_after (f_trees c) ks key) as Hk'.
  { intros key. rewrite <- Hk. apply Hr. }
  split; [|split; [by eapply plain_at_over|done]]. constructor; [apply Hr|done| |by eapply trees_wf_over|apply Hr].
  intros H0 key. rewrite <- Hk. by apply Hr.
Qed.

Lemma loop_result_trans c c1 c2 ret : loop_result c ks c1 (-4) -> loop_result c1 ks c2 ret -> loop_result c ks c2 ret.
Proof.
  intros [H1 H2 H3 H4 H5] [H1' H2' H3' H4' H5']. pose proof (fun key => keys_after_again (f_trees c) (f_trees c1) ks key H2) as Ha. constructor; [by eapply same_env_trans| | |done|lia].
  - intros key. destruct (H2' key) as [->| ->]; [apply H2|]. right. apply Ha.
  - intros H0 key. by rewrite H3'.
Qed.

Lemma retry_step c ev evs us c1 r1 : ev <> Realloc -> stage_of ks c = Some (us, 0) -> commit c us ev = Some (c1, r1) ->
  retry_loop (stage_of ks) commit is_restart c (ev :: evs) = if is_restart r1 then retry_loop (stage_of ks) commit is_restart c1 evs else Some (c1, r1).
Proof. intros Hne Hs Ec. destruct ev; try done; cbn [retry_loop]; rewrite Hs; cbn [mbind option_bind]; cbn [Z.eqb]; by rewrite Ec. Qed.

(** Whatever happens to the attempts: success replaces the keys; an error
    without a split in an attempt changes nothing. *)
Lemma retry_result evs : forall c c' ret, trees_wf c -> plain_at (f_trees c) ks -> Forall event_ok evs ->
  retry_loop (stage_of ks) commit is_restart c evs = Some (c', ret) ->
  loop_result c ks c' ret /\ (ret <> 0 -> forallb (fun ev => negb (is_split ev)) evs = true -> f_trees c' = f_trees c).
Proof.
  induction evs as [|ev evs IH]; intros c c' ret Hc Hp Hev E; [done|]. apply Forall_cons_1 in Hev as [He Hev]. cbn [forallb].
  destruct (decide (ev = Realloc)) as [->|Hne].
  { cbn [retry_loop] in E. destruct (IH _ _ _ Hc Hp Hev E) as [H1 H2]. split; [done|]. intros H0 Hf. by apply H2. }
  destruct (attempt_ok c ev Hc Hp He Hne) as (us & c1 & r1 & Hs & Ec & Hr & Hp1 & Hat).
  rewrite (retry_step c ev evs us c1 r1 Hne Hs Ec) in E. unfold is_restart in E at 1. destruct (Z.eqb_spec r1 (-4)) as [E4|Hr4]; [rewrite E4 in *|].
  - destruct (IH c1 c' ret (lr_wf _ _ _ _ Hr) Hp1 Hev E) as [H1 H2]. split; [by eapply loop_result_trans|].
    intros H0 [Hsp Hf]%andb_true_iff. rewrite H2 by done. apply (at_refused _ _ _ _ _ Hat); [done|]. by intros n split ->.
  - injection E as <- <-. split; [done|]. intros H0 [Hsp _]%andb_true_iff. apply (at_refused _ _ _ _ _ Hat); [done|]. by intros n split ->.
Qed.

Definition proceeds (evs : list commit_event) : nat := length (List.filter (fun ev => match ev with Proceed => true | _ => false end) evs).

(** Only restarts delay it: with attempts enough, the keys are replaced. *)
Lemma retry_success evs : forall c, trees_wf c -> plain_at (f_trees c) ks -> Forall restart_event evs -> restarts_left c < Z.of_nat (proceeds evs) ->
  exists c', retry_loop (stage_of ks) commit is_restart c evs = Some (c', 0) /\ loop_result c ks c' 0.
Proof.
  induction evs as [|ev evs IH]; intros c Hc Hp Hev Hn; [unfold restarts_left, proceeds in Hn; cbn in Hn; lia|].
  apply Forall_cons_1 in Hev as [He Hev].
  destruct (decide (ev = Realloc)) as [->|Hne]; [by apply IH|].
  destruct (restart_ret ev He) as [He' Hev4].
  destruct (attempt_ok c ev Hc Hp He' Hne) as (us & c1 & r1 & Hs & Ec & Hr & Hp1 & Hat).
  rewrite (retry_step c ev evs us c1 r1 Hne Hs Ec). unfold is_restart at 1.
  assert (r1 = 0 \/ r1 = -4 /\ restarts_left c1 < Z.of_nat (proceeds evs)) as [->|[-> Hl]].
  { destruct (at_ret _ _ _ _ _ Hat) as [H0|H4]; [by left|]. assert (r1 = 0 \/ r1 = -4) as [H0|H0] by (clear -H4 Hev4; lia); [by left|clear H4; rename H0 into H4].
    right. split; [done|]. pose proof (at_left _ _ _ _ _ Hat). destruct ev; try done; try (unfold proceeds in *; cbn in Hn; lia).
    destruct (at_proceed _ _ _ _ _ Hat eq_refl) as [H0|[_ Hlt]]; [lia|]. unfold proceeds in *. cbn in Hn. lia. }
  - cbn [Z.eqb]. by exists c1.
  - change (-4 =? -4) with true. cbv iota. destruct (IH c1 (lr_wf _ _ _ _ Hr) Hp1 Hev Hl) as (c' & -> & Hr'). exists c'. split; [done|]. by eapply loop_result_trans.
Qed.

End Loop.

(** ** Transactions *)

(** a transaction of keys without pointers, retried on restarts.  With
    attempts enough it succeeds, and has replaced exactly its keys; whatever
    happens to the attempts, success means that, every key is as before or as
    the transaction wants it, and an error changes nothing unless an attempt
    was split in the middle. *)
Theorem transaction_applies ks c evs : Forall key_ok ks -> (length ks <= BTREE_ITER_INITIAL)%nat -> trees_wf c -> plain_at (f_trees c) ks -> Forall event_ok evs ->
  (Forall restart_event evs -> restarts_left c < Z.of_nat (proceeds evs) -> exists c', retry_loop (stage_of ks) bch2_trans_commit is_restart c evs = Some (c', 0)) /\
  forall c' ret, retry_loop (stage_of ks) bch2_trans_commit is_restart c evs = Some (c', ret) ->
    (ret = 0 -> forall key, f_trees c' !! key = keys_after (f_trees c) ks key) /\
    (ret <> 0 -> forallb (fun ev => negb (is_split ev)) evs = true -> f_trees c' = f_trees c) /\
    (forall key, f_trees c' !! key = f_trees c !! key \/ f_trees c' !! key = keys_after (f_trees c) ks key).
Proof.
  intros Hks Hl Hc Hp Hev. split.
  - intros Hr Hn. destruct (retry_success _ commit_commits ks Hks Hl evs c Hc Hp Hr Hn) as (c' & E & _). by exists c'.
  - intros c' ret E. destruct (retry_result _ commit_commits ks Hks Hl evs c c' ret Hc Hp Hev E) as [[_ H1 H2 _ _] H3]. done.
Qed.

Definition sample_keys : list (Z * kv) := [(5, mk_kv (mk_bkey BKEY_U64S KEY_FORMAT_CURRENT KEY_TYPE_set ZERO_VERSION 0 (POS 0 7)) []); (6, deleted_key (POS 0 7))].

(** One injected restart, a larger memory block, a leaf split, then success. *)
Definition restarting_fs : fs := with_restarts sample_fs 1.

Lemma transaction_applies_witness : exists c', retry_loop (stage_of sample_keys) bch2_trans_commit is_restart restarting_fs [Realloc; Proceed; Refuse (-4); Proceed] = Some (c', 0) /\
  f_trees c' !! (5, POS 0 7) = keys_after ∅ sample_keys (5, POS 0 7).
Proof.
  assert (Forall key_ok sample_keys) as Hk.
  { apply Forall_cons_2; [|apply Forall_cons_2; [|apply Forall_nil_2]]; repeat split; vm_compute; discriminate. }
  assert (trees_wf restarting_fs) as Hc by (intros b p k H; discriminate H).
  assert (plain_at (f_trees restarting_fs) sample_keys) as Hp by (intros b k old _ H; discriminate H).
  assert (Forall event_ok [Realloc; Proceed; Refuse (-4); Proceed]) as He by (repeat (apply Forall_cons_2; [vm_compute; discriminate || exact I|]); apply Forall_nil_2).
  destruct (transaction_applies sample_keys restarting_fs [Realloc; Proceed; Refuse (-4); Proceed] Hk ltac:(vm_compute; lia) Hc Hp He) as [H1 H2].
  destruct H1 as [c' E].
  - repeat (apply Forall_cons_2; [vm_compute; reflexivity || exact I|]). apply Forall_nil_2.
  - vm_compute. reflexivity.
  - exists c'. split; [exact E|]. apply (H2 _ _ E). reflexivity.
Defined.
