(* ===== verification/Buckets.v ===== *)
(** * Buckets of a device ([engine.rs])

    Allocating a bucket, the claims of writers on open buckets, making a device
    writable or not, reclaiming, discarding and freeing a bucket, the queue of
    discards and its worker, and the checks of the indexes.  The description of
    a bucket is in the tree of allocations; free buckets have an entry in the
    tree of free space, empty ones that wait for the device in that of discards.

    The mutexes are taken one operation at a time: an operation is a step from
    one state to the next.  A poisoned mutex is not modelled. *)

From stdpp Require Import base tactics list option gmap sorting.
From Stdlib Require Import ZArith Lia.
From S2P Require Import Superblock Prelude Bpos BkeyPack Extents ExtentKeys AllocKeys Trans TransFacts TransCommit.

Open Scope Z_scope.

Definition BCH_DATA_FREE : Z := 0.
Definition BCH_DATA_BTREE : Z := 3.
Definition BCH_DATA_NEED_DISCARD : Z := 9.

(** A bucket far behind in generations is sorted behind the others. *)
Definition alloc_freespace_pos (position : bpos) (alloc : bch_alloc_v4) : bpos :=
  let gc_gen := wsub 8 (gen alloc) (oldest_gen alloc) in
  SPOS (inode position) (Z.lor (offset position) (Z.shiftl (Z.shiftr gc_gen 4) 56)) (snapshot position).

(** ** Reading a tree *)

(** The keys of a tree in order.  The iterator goes on behind the slot of the
    key it returned: of the keys of a slot it finds the first. *)
Definition kv_le (k k' : kv) : Prop := bpos_val (kv_pos k) <= bpos_val (kv_pos k').
#[export] Instance kv_le_dec k k' : Decision (kv_le k k') := decide (bpos_val (kv_pos k) <= bpos_val (kv_pos k')).

Definition tree_keys (c : fs) (btree : Z) : list kv :=
  merge_sort kv_le (map snd (List.filter (fun x => x.1.1 =? btree) (map_to_list (f_trees c)))).

Definition bucket_slot (p : bpos) : Z * Z := (inode p, offset p).

Fixpoint first_of_slots (prev : option (Z * Z)) (ks : list kv) : list kv :=
  match ks with
  | [] => []
  | k :: ks => if decide (prev = Some (bucket_slot (kv_pos k))) then first_of_slots prev ks else k :: first_of_slots (Some (bucket_slot (kv_pos k))) ks
  end.

Definition scan_raw_locked (c : fs) (btree : Z) : list kv := first_of_slots None (tree_keys c btree).

(** ** The state of the engine, as far as buckets are concerned *)

Record engine := mk_engine {
  e_fs : fs;
  discard_queue : list (Z * Z);
  discard_inflight : gset (Z * Z);
  open_buckets : gset (Z * Z);
  rw_devs : gset Z
}.

Definition with_fs (e : engine) (c : fs) : engine := mk_engine c (discard_queue e) (discard_inflight e) (open_buckets e) (rw_devs e).
Definition with_queue (e : engine) (q : list (Z * Z)) (s : gset (Z * Z)) : engine := mk_engine (e_fs e) q s (open_buckets e) (rw_devs e).
Definition with_open (e : engine) (s : gset (Z * Z)) : engine := mk_engine (e_fs e) (discard_queue e) (discard_inflight e) s (rw_devs e).
Definition with_rw (e : engine) (s : gset Z) : engine := mk_engine (e_fs e) (discard_queue e) (discard_inflight e) (open_buckets e) s.

Inductive mismatch := FreespaceSet | NeedDiscardSet | OpenBucketFree | NotRwBucketFree | InvalidPointer | Generation | DuplicateBackpointer | AllocSet | BackpointerSet.
Inductive engine_error := InvalidBtreeId (id : Z) | ValueTooLarge (words : Z) | Transaction (ret : Z) | DerivedState (m : mismatch) | Journal (ret : Z).
Inductive result (A : Type) := Ok (a : A) | Err (e : engine_error).
Arguments Ok {A} a.
Arguments Err {A} e.

#[export] Instance mismatch_eq_dec : EqDecision mismatch.
Proof. solve_decision. Defined.
#[export] Instance engine_error_eq_dec : EqDecision engine_error.
Proof. solve_decision. Defined.

(** ** Checks *)

Definition is_alloc_key (k : kv) : bool := kv_type k =? KEY_TYPE_alloc_v4.
Definition is_set_key (k : kv) : bool := kv_type k =? KEY_TYPE_set.

Record bucket_sets := mk_sets { s_free : gset (Z * Z); s_index : gset (Z * Z); s_discard : gset (Z * Z) }.

(** One key of the allocation tree. *)
Definition add_bucket (s : bucket_sets) (k : kv) : bucket_sets :=
  if negb (is_alloc_key k) then s else
  let alloc := read_alloc (kv_v k) in
  if data_type alloc =? BCH_DATA_FREE then
    mk_sets ({[bucket_slot (kv_pos k)]} ∪ s_free s) ({[bucket_slot (alloc_freespace_pos (kv_pos k) alloc)]} ∪ s_index s) (s_discard s)
  else if data_type alloc =? BCH_DATA_NEED_DISCARD then mk_sets (s_free s) (s_index s) ({[bucket_slot (kv_pos k)]} ∪ s_discard s)
  else s.

Definition expected_sets (c : fs) : bucket_sets := fold_left add_bucket (scan_raw_locked c 4) (mk_sets ∅ ∅ ∅).

Definition set_slots (ks : list kv) : gset (Z * Z) := list_to_set (map (fun k => bucket_slot (kv_pos k)) (List.filter is_set_key ks)).

Definition verify_bucket_indexes (e : engine) : result unit :=
  let s := expected_sets (e_fs e) in
  let indexed := set_slots (scan_raw_locked (e_fs e) BTREE_ID_FREESPACE) in
  if negb (size (s_free s) =? size indexed)%nat || negb (bool_decide (s_index s = indexed)) ||
     existsb (fun '(dev, offset) => negb (bool_decide ((dev, Z.land offset (2 ^ 56 - 1)) ∈ s_free s))) (elements indexed)
  then Err (DerivedState FreespaceSet)
  else if negb (bool_decide (s_discard s = set_slots (scan_raw_locked (e_fs e) BTREE_ID_NEED_DISCARD))) then Err (DerivedState NeedDiscardSet)
  else Ok tt.

Fixpoint check_guards (e : engine) (ks : list kv) : result unit :=
  match ks with
  | [] => Ok tt
  | k :: ks =>
      if negb (is_alloc_key k) then check_guards e ks
      else if negb (data_type (read_alloc (kv_v k)) =? BCH_DATA_FREE) then check_guards e ks
      else if bool_decide (bucket_slot (kv_pos k) ∈ open_buckets e) then Err (DerivedState OpenBucketFree)
      else if negb (bool_decide (inode (kv_pos k) ∈ rw_devs e)) then Err (DerivedState NotRwBucketFree)
      else check_guards e ks
  end.

Definition verify_guard_invariants (e : engine) : result unit := check_guards e (scan_raw_locked (e_fs e) 4).

Definition open_bucket_count (e : engine) : nat := size (open_buckets e).
Definition discard_queue_empty (e : engine) : bool := bool_decide (discard_queue e = []).

(** ** Transactions of a bucket *)

(** A transaction ends, or the list of what happens to its attempts does. *)
Definition finish (e : engine) {A} (a : A) (r : option (fs * Z)) : option (engine * result A) :=
  '(c, ret) ← r;
  Some (with_fs e c, if ret =? 0 then Ok a else Err (Transaction ret)).

Definition update_alloc (c : fs) (pos : bpos) (alloc : bch_alloc_v4) : option (list btree_insert_entry) :=
  trigger_update_value c [] 4 pos KEY_TYPE_alloc_v4 (alloc_words alloc).

(** A new free bucket.  Any error is a panic, a restart too. *)
Definition add_free_bucket (e : engine) (bucket_offset : Z) (evs : list commit_event) : option engine :=
  let position := POS 0 bucket_offset in
  '(c, ret) ← retry_loop (fun c =>
      us ← update_alloc c position alloc_default;
      us ← bch2_btree_bit_mod c us BTREE_ID_FREESPACE (alloc_freespace_pos position alloc_default) true;
      Some (us, 0)) bch2_trans_commit (fun _ => false) (e_fs e) evs;
  _ ← assert (ret =? 0);
  Some (with_fs e c).

Definition freespace_candidates (c : fs) (dev : Z) : gset Z :=
  list_to_set (map (fun k => Z.land (offset (kv_pos k)) (2 ^ 56 - 1))
    (List.filter (fun k => is_set_key k && (inode (kv_pos k) =? dev)) (scan_raw_locked c BTREE_ID_FREESPACE))).

(** A bucket to allocate: free, within the device, and not without an entry in
    the index if there are any. *)
Definition allocatable (c : fs) (dev : Z) (member : bch_member) (k : kv) : bool :=
  let cands := freespace_candidates c dev in
  is_alloc_key k && (inode (kv_pos k) =? dev) && (BKEY_U64S + 1 <=? k_u64s (kv_k k)) &&
  negb ((offset (kv_pos k) <? m_first_bucket member) || (m_nbuckets member <=? offset (kv_pos k))) &&
  (bool_decide (cands = ∅) || bool_decide (offset (kv_pos k) ∈ cands)) &&
  (data_type (read_alloc (kv_v k)) =? BCH_DATA_FREE).

Definition allocate_bucket (e : engine) (dev : Z) (evs : list commit_event) : option (engine * result bpos) :=
  let c := e_fs e in
  let fail ret := Some (e, Err (Transaction ret)) in
  if f_nr_devices c <=? dev then fail (-1) else
  let member := sb_member_get c dev in
  if (m_bucket_size member =? 0) || negb (bch2_member_alive member) then fail (-1)
  else if negb (bool_decide (dev ∈ rw_devs e)) then fail (-1)
  else match find (allocatable c dev member) (scan_raw_locked c 4) with
  | None => fail (-28)
  | Some k =>
      let old_alloc := read_alloc (kv_v k) in
      finish e (POS (inode (kv_pos k)) (offset (kv_pos k))) (retry_loop (fun c =>
        us ← update_alloc c (kv_pos k) (set_data_type old_alloc BCH_DATA_BTREE);
        us ← bch2_btree_bit_mod c us BTREE_ID_FREESPACE (alloc_freespace_pos (kv_pos k) old_alloc) false;
        Some (us, 0)) bch2_trans_commit is_restart c evs)
  end.

Definition open_bucket (e : engine) (position : bpos) : engine := with_open e ({[bucket_slot position]} ∪ open_buckets e).
Definition close_open_bucket (e : engine) (position : bpos) : engine := with_open e (open_buckets e ∖ {[bucket_slot position]}).

Definition set_device_rw (e : engine) (dev : Z) (rw : bool) : engine * result unit :=
  if rw then (with_rw e ({[dev]} ∪ rw_devs e), Ok tt)
  else if existsb (fun b => b.1 =? dev) (elements (open_buckets e)) then (e, Err (Transaction (-16)))
  else (with_rw e (rw_devs e ∖ {[dev]}), Ok tt).

(** *** Reclaiming *)

(** The discard worker's restarts are injected in front of the commit. *)
Definition discard_commit (c : fs) (us : list btree_insert_entry) (ev : commit_event) : option (fs * Z) :=
  if 0 <? f_discard_restarts c then Some (with_discard_restarts c (f_discard_restarts c - 1), -4) else bch2_trans_commit c us ev.

(** An empty bucket waits for its discard under a new generation; behind the
    discard it is free. *)
Definition reclaimed (alloc : bch_alloc_v4) : bch_alloc_v4 :=
  if negb (data_type alloc =? BCH_DATA_NEED_DISCARD) then
    set_gens (set_data_type alloc BCH_DATA_NEED_DISCARD) (wadd 8 (gen alloc) 1)
      (if oldest_gen alloc =? gen alloc then wadd 8 (oldest_gen alloc) 1 else oldest_gen alloc)
  else set_data_type alloc BCH_DATA_FREE.

Definition stage_reclaim (pos : bpos) (old_alloc alloc : bch_alloc_v4) (c : fs) : option (list btree_insert_entry * Z) :=
  us ← update_alloc c pos alloc;
  if data_type alloc =? BCH_DATA_FREE then
    us ← bch2_btree_bit_mod c us BTREE_ID_FREESPACE (alloc_freespace_pos pos alloc) true;
    us ← bch2_btree_bit_mod c us BTREE_ID_NEED_DISCARD pos false;
    Some (us, 0)
  else
    us ← bch2_btree_bit_mod c us BTREE_ID_FREESPACE (alloc_freespace_pos pos old_alloc) false;
    us ← bch2_btree_bit_mod c us BTREE_ID_NEED_DISCARD pos true;
    Some (us, 0).

Definition saturating_mul (w a b : Z) : Z := Z.min (a * b) (MAX w).
Definition saturating_add (w a b : Z) : Z := Z.min (a + b) (MAX w).

Definition find_alloc (c : fs) (position : bpos) : option kv :=
  find (fun k => is_alloc_key k && bool_decide (kv_pos k = position)) (scan_raw_locked c 4).

Definition has_backpointer (c : fs) (position : bpos) (member : bch_member) : bool :=
  let start := saturating_mul 64 (offset position) (m_bucket_size member) in
  let end_ := saturating_add 64 start (m_bucket_size member) in
  existsb (fun k => (kv_type k =? KEY_TYPE_backpointer) && (inode (kv_pos k) =? inode position) && (start <=? offset (kv_pos k)) && (offset (kv_pos k) <? end_))
    (scan_raw_locked c 8).

Definition reclaim_bucket (e : engine) (position : bpos) (evs : list commit_event) : option (engine * result unit) :=
  let c := e_fs e in
  let fail ret := Some (e, Err (Transaction ret)) in
  if f_nr_devices c <=? inode position then fail (-1) else
  let member := sb_member_get c (inode position) in
  if m_bucket_size member =? 0 then fail (-1)
  else if (offset position <? m_first_bucket member) || (m_nbuckets member <=? offset position) then fail (-1)
  else if bool_decide (bucket_slot position ∈ open_buckets e) then fail (-16)
  else if negb (bool_decide (inode position ∈ rw_devs e)) then fail (-16)
  else if has_backpointer c position member then fail (-16)
  else match find_alloc c position with
  | None => fail (-2)
  | Some k =>
      let alloc := read_alloc (kv_v k) in
      if negb (dirty_sectors alloc =? 0) || negb (cached_sectors alloc =? 0) then fail (-16)
      else if (data_type alloc =? BCH_DATA_NEED_DISCARD) && (f_last_seq_ondisk c <? journal_seq_empty alloc) then fail (-11)
      else finish e tt (retry_loop (stage_reclaim (kv_pos k) alloc (reclaimed alloc)) discard_commit is_restart c evs)
  end.

Definition discard_bucket (e : engine) (position : bpos) (evs : list commit_event) : option (engine * result unit) :=
  let c := e_fs e in
  let fail ret := Some (e, Err (Transaction ret)) in
  if f_nr_devices c <=? inode position then fail (-1)
  else match find_alloc c position with
  | None => fail (-2)
  | Some k =>
      let alloc := read_alloc (kv_v k) in
      if negb (data_type alloc =? BCH_DATA_NEED_DISCARD) || (f_last_seq_ondisk c <? journal_seq_empty alloc) then fail (-11)
      else if bool_decide (bucket_slot position ∈ open_buckets e) then fail (-11)
      else if negb (bool_decide (inode position ∈ rw_devs e)) then fail (-11)
      else reclaim_bucket e position evs
  end.

(** *** The queue of discards *)

Definition queue_discard_bucket (e : engine) (position : bpos) : engine * result unit :=
  if bool_decide (bucket_slot position ∈ discard_inflight e) then (e, Err (Transaction (-17)))
  else (with_queue e (discard_queue e ++ [bucket_slot position]) ({[bucket_slot position]} ∪ discard_inflight e), Ok tt).

Definition is_again {A} (r : result A) : bool := match r with Err (Transaction ret) => ret =? -11 | _ => false end.

(** The queue's first bucket: put back at the end if it is not ready. *)
Definition discard_first (e : engine) (p : Z * Z) (q : list (Z * Z)) (evs : list commit_event) : option (engine * result unit) :=
  '(e, r) ← discard_bucket (with_queue e q (discard_inflight e)) (POS p.1 p.2) evs;
  Some (if is_again r
        then (with_queue e (discard_queue e ++ [p]) (discard_inflight e), r)
        else (with_queue e (discard_queue e) (discard_inflight e ∖ {[p]}), r)).

Definition run_discard_worker_once (e : engine) (evs : list commit_event) : option (engine * result unit) :=
  match discard_queue e with
  | [] => Some (e, Err (Transaction (-11)))
  | p :: q => discard_first e p q evs
  end.

(** A pass over the [n] buckets queued at its start; [evs] has what happens to
    the transaction of each. *)
Fixpoint discard_pass (n : nat) (e : engine) (deferred : bool) (evs : list (list commit_event)) : option (engine * result bool * list (list commit_event)) :=
  match n, discard_queue e with
  | O, _ => Some (e, Ok deferred, evs)
  | _, [] => Some (e, Ok deferred, evs)
  | S n, p :: q =>
      ev ← head evs;
      '(e, r) ← discard_first e p q ev;
      match r with
      | Ok _ => discard_pass n e deferred (tail evs)
      | Err err => if is_again r then discard_pass n e true (tail evs) else Some (e, Err err, tail evs)
      end
  end.

Fixpoint run_discard_worker (fuel : nat) (e : engine) (evs : list (list commit_event)) : option (engine * result unit) :=
  match fuel with
  | O => None
  | S fuel =>
      if (length (discard_queue e) =? 0)%nat then Some (e, Ok tt) else
      '(e, r, evs) ← discard_pass (length (discard_queue e)) e false evs;
      match r with
      | Err err => Some (e, Err err)
      | Ok true => Some (e, Err (Transaction (-11)))
      | Ok false => run_discard_worker fuel e evs
      end
  end.

(** The discards of the tree that are not queued yet. *)
Definition discover_step (x : engine * Z) (p : Z * Z) : engine * Z :=
  let '(e, n) := x in
  if bool_decide (p ∈ discard_inflight e) then (e, n) else (with_queue e (discard_queue e ++ [p]) ({[p]} ∪ discard_inflight e), n + 1).

Definition discover_discard_buckets (e : engine) : engine * Z :=
  fold_left discover_step (map (fun k => bucket_slot (kv_pos k)) (List.filter is_set_key (scan_raw_locked (e_fs e) BTREE_ID_NEED_DISCARD))) (e, 0).
