(* ===== verification/BucketFacts.v ===== *)
(** * Buckets and their indexes agree

    What the checks of the indexes establish, and that every operation on
    buckets keeps it: the free buckets are those of the free space tree, those
    that wait for a discard those of the discard tree. *)

From stdpp Require Import base tactics list option gmap sorting.
From Stdlib Require Import ZArith Lia.
From S2P Require Import Superblock Prelude Bpos BkeyPack Extents ExtentKeys AllocKeys Trans TransFacts TransCommit Buckets.

Open Scope Z_scope.

(** ** Trees of buckets *)

Definition alloc_at (c : fs) (p : bpos) : option bch_alloc_v4 :=
  match f_trees c !! (4, p) with Some k => if is_alloc_key k then Some (read_alloc (kv_v k)) else None | None => None end.

Definition is_set (c : fs) (b : Z) (p : bpos) : Prop := exists k, f_trees c !! (b, p) = Some k /\ is_set_key k = true.

(** The trees of buckets have keys of one snapshot, without pointers. *)
Definition bucket_tree (b : Z) : Prop := b = 4 \/ b = BTREE_ID_FREESPACE \/ b = BTREE_ID_NEED_DISCARD \/ b = 8.

Definition alloc_key_ok (p : bpos) (k : kv) : Prop := is_alloc_key k = true -> (length (kv_v k) = 8)%nat /\ alloc_wf (read_alloc (kv_v k)) /\ offset p < 2 ^ 56.

Record buckets_wf (c : fs) : Prop := {
  bw_trees : trees_wf c;
  bw_keys : forall b p k, bucket_tree b -> f_trees c !! (b, p) = Some k -> snapshot p = 0 /\ bpos_wf p /\ plain_kv k;
  bw_alloc : forall p k, f_trees c !! (4, p) = Some k -> alloc_key_ok p k
}.

(** The indexes agree with the buckets. *)
Record consistent (c : fs) : Prop := {
  co_free : forall q, is_set c BTREE_ID_FREESPACE q <-> exists p a, alloc_at c p = Some a /\ data_type a = BCH_DATA_FREE /\ q = alloc_freespace_pos p a;
  co_discard : forall p, is_set c BTREE_ID_NEED_DISCARD p <-> exists a, alloc_at c p = Some a /\ data_type a = BCH_DATA_NEED_DISCARD
}.

(** ** Reading a tree *)

Lemma kv_le_total : Total kv_le.
Proof. intros k k'. unfold kv_le. lia. Qed.
Lemma kv_le_trans : Transitive kv_le.
Proof. intros k k' k''. unfold kv_le. lia. Qed.

Lemma tree_keys_in c b k : trees_wf c -> k ∈ tree_keys c b <-> f_trees c !! (b, kv_pos k) = Some k.
Proof.
  intros Hc. unfold tree_keys. rewrite merge_sort_Permutation, list_elem_of_fmap. split.
  - intros ([[b' p] k'] & -> & Hin). apply list_elem_of_In, filter_In in Hin as [Hin E]. cbn in E |- *. apply Z.eqb_eq in E as ->.
    apply list_elem_of_In, elem_of_map_to_list in Hin. by destruct (Hc _ _ _ Hin) as (-> & _).
  - intros E. exists ((b, kv_pos k), k). split; [done|]. apply list_elem_of_In, filter_In. split; [|by apply Z.eqb_eq]. by apply list_elem_of_In, elem_of_map_to_list.
Qed.

Lemma tree_keys_NoDup c b : trees_wf c -> NoDup (tree_keys c b).
Proof.
  intros Hc. unfold tree_keys. rewrite merge_sort_Permutation. apply NoDup_fmap_2_strong.
  - intros [[b1 p1] k1] [[b2 p2] k2] H1 H2. cbn. intros ->. apply list_elem_of_In, filter_In in H1 as [H1 E1]. apply list_elem_of_In, filter_In in H2 as [H2 E2].
    cbn in E1, E2. apply Z.eqb_eq in E1 as ->, E2 as ->. apply list_elem_of_In, elem_of_map_to_list in H1, H2.
    destruct (Hc _ _ _ H1) as (<- & _), (Hc _ _ _ H2) as (<- & _). done.
  - pose proof (NoDup_map_to_list (f_trees c)) as Hn. induction Hn as [|x l Hx Hn IH]; cbn [List.filter]; [constructor|].
    destruct (x.1.1 =? b); [|done]. constructor; [|done]. intros Hin. apply Hx. apply list_elem_of_In, filter_In in Hin as [Hin _]. by apply list_elem_of_In.
Qed.

Lemma first_of_slots_all ks : forall prev, NoDup (map (fun k => bucket_slot (kv_pos k)) ks) -> (forall k, k ∈ ks -> prev <> Some (bucket_slot (kv_pos k))) -> first_of_slots prev ks = ks.
Proof.
  induction ks as [|k ks IH]; intros prev Hn Hp; cbn [first_of_slots map] in *; [done|]. apply list.NoDup_cons in Hn as [Hk Hn].
  rewrite decide_False by (apply Hp, list_elem_of_here). f_equal. apply IH; [done|]. intros k' Hin E. apply Hk.
  apply (inj Some) in E. rewrite E. apply list_elem_of_fmap. by exists k'.
Qed.

Lemma slot_inj p q : snapshot p = 0 -> snapshot q = 0 -> bucket_slot p = bucket_slot q -> p = q.
Proof. destruct p, q. cbn. intros -> -> [= -> ->]. done. Qed.

Lemma scan_all c b : buckets_wf c -> bucket_tree b -> scan_raw_locked c b = tree_keys c b.
Proof.
  intros Hc Hb. apply first_of_slots_all; [|done]. apply NoDup_fmap_2_strong; [|by apply tree_keys_NoDup, Hc].
  intros k k' H H' E. apply tree_keys_in in H, H'; try apply Hc. destruct (bw_keys _ Hc _ _ _ Hb H) as (H0 & _), (bw_keys _ Hc _ _ _ Hb H') as (H0' & _).
  pose proof (slot_inj _ _ H0 H0' E) as Ep. rewrite Ep, H' in H. by injection H as ->.
Qed.

Lemma scan_in c b k : buckets_wf c -> bucket_tree b -> k ∈ scan_raw_locked c b <-> f_trees c !! (b, kv_pos k) = Some k.
Proof. intros Hc Hb. rewrite scan_all by done. apply tree_keys_in, Hc. Qed.

Lemma tree_keys_sorted c b : trees_wf c -> (forall p k, f_trees c !! (b, p) = Some k -> bpos_wf p) -> StronglySorted (fun k k' => bpos_val (kv_pos k) < bpos_val (kv_pos k')) (tree_keys c b).
Proof.
  intros Hc Hw. pose proof (tree_keys_NoDup c b Hc) as Hn.
  assert (StronglySorted kv_le (tree_keys c b)) as Hs by (apply StronglySorted_merge_sort; [apply kv_le_trans|apply kv_le_total]).
  assert (forall k, k ∈ tree_keys c b -> f_trees c !! (b, kv_pos k) = Some k) as Hin by (intros k; by apply tree_keys_in).
  induction (tree_keys c b) as [|k ks IH]; [constructor|]. apply list.NoDup_cons in Hn as [Hk Hn]. apply StronglySorted_inv in Hs as [Hs Hle].
  constructor; [apply IH; [done|done|]; intros k' Hk'; apply Hin; by apply list_elem_of_further|]. apply Forall_forall. intros k' Hk'.
  pose proof (proj1 (Forall_forall _ _) Hle k' Hk') as Hl. unfold kv_le in Hl. pose proof (Hin k (list_elem_of_here _ _)) as E1. pose proof (Hin k' (list_elem_of_further _ _ _ Hk')) as E2.
  destruct (Z.eq_dec (bpos_val (kv_pos k)) (bpos_val (kv_pos k'))) as [E|]; [|lia]. exfalso. apply Hk.
  apply bpos_val_inj in E; [|by apply (Hw _ _ E1)|by apply (Hw _ _ E2)]. rewrite E, E2 in E1. by injection E1 as <-.
Qed.

Lemma scan_sorted c b : buckets_wf c -> bucket_tree b -> StronglySorted (fun k k' => bpos_val (kv_pos k) < bpos_val (kv_pos k')) (scan_raw_locked c b).
Proof. intros Hc Hb. rewrite scan_all by done. apply tree_keys_sorted; [apply Hc|]. intros p k Hk. apply (bw_keys _ Hc _ _ _ Hb Hk). Qed.

(** The first of the keys of every inode and offset. *)
Lemma slot_between p q r : bpos_wf p -> bpos_wf q -> bpos_wf r -> bpos_val p < bpos_val q < bpos_val r -> bucket_slot p = bucket_slot r -> bucket_slot q = bucket_slot r.
Proof.
  intros (_ & Ho & Hs) (_ & Ho' & Hs') (_ & Ho2 & Hs2) H [= E1 E2]. unfold bucket_slot, bpos_val, bkey_val, in_range in *. rewrite E1, E2 in *.
  assert (inode q * 2 ^ 64 + offset q = inode r * 2 ^ 64 + offset r) as E by nia. assert (inode q = inode r) as Ei by nia. rewrite Ei in E. f_equal; lia.
Qed.

Lemma first_of_slots_in ks : forall prev k, Forall (fun x => bpos_wf (kv_pos x)) ks -> StronglySorted (fun x y => bpos_val (kv_pos x) < bpos_val (kv_pos y)) ks ->
  (forall s, prev = Some s -> exists q, s = bucket_slot q /\ bpos_wf q /\ Forall (fun x => bpos_val q < bpos_val (kv_pos x)) ks) ->
  k ∈ first_of_slots prev ks <-> k ∈ ks /\ prev <> Some (bucket_slot (kv_pos k)) /\ Forall (fun x => bucket_slot (kv_pos x) = bucket_slot (kv_pos k) -> bpos_val (kv_pos k) <= bpos_val (kv_pos x)) ks.
Proof.
  induction ks as [|x ks IH]; intros prev k Hw Hs Hp; cbn [first_of_slots]; [split; [intros H; by apply not_elem_of_nil in H|by intros [H _]; apply not_elem_of_nil in H]|].
  apply Forall_cons_1 in Hw as [Hx Hw]. apply StronglySorted_inv in Hs as [Hs Hxs]. rewrite Forall_cons, elem_of_cons. destruct (decide (prev = Some (bucket_slot (kv_pos x)))) as [->|Hne].
  - rewrite IH; [|done|done|].
    + split; [intros (H1 & H2 & H3); split; [by right|]; split; [done|]; split; [by intros E; rewrite E in H2|done]|]. intros ([->|H1] & H2 & _ & H3); done.
    + intros s [= <-]. exists (kv_pos x). done.
  - rewrite elem_of_cons, IH; [|done|done|intros s [= <-]; by exists (kv_pos x)]. rewrite Forall_forall in Hxs. split.
    + intros [->|(H1 & H2 & H3)].
      * split; [by left|]. split; [done|]. split; [lia|]. apply Forall_forall. intros y Hy _. specialize (Hxs y Hy). cbn in Hxs. lia.
      * split; [by right|]. split; [|split; [intros E; by rewrite E in H2|done]]. intros ->. destruct (Hp _ eq_refl) as (q & E & Hq & Hall). apply Forall_cons_1 in Hall as [Hqx _].
        apply H2. f_equal. apply (slot_between q (kv_pos x) (kv_pos k)); [done|done|by apply (proj1 (Forall_forall _ _) Hw)| |done]. specialize (Hxs k H1). cbn in Hxs. lia.
    + intros ([->|H1] & H2 & H3 & H4); [by left|]. right. split; [done|]. split; [|done]. intros [= E1 E2]. assert (bucket_slot (kv_pos x) = bucket_slot (kv_pos k)) as E by (unfold bucket_slot; congruence).
      specialize (H3 E). specialize (Hxs k H1). cbn in Hxs. lia.
Qed.

(** What a scan finds: of the keys with one inode and offset the one of the
    lowest snapshot. *)
Lemma scan_first c b k : trees_wf c -> (forall p k, f_trees c !! (b, p) = Some k -> bpos_wf p) ->
  k ∈ scan_raw_locked c b <-> f_trees c !! (b, kv_pos k) = Some k /\ forall p k', f_trees c !! (b, p) = Some k' -> bucket_slot p = bucket_slot (kv_pos k) -> snapshot (kv_pos k) <= snapshot p.
Proof.
  intros Hc Hw. unfold scan_raw_locked. assert (forall k, k ∈ tree_keys c b <-> f_trees c !! (b, kv_pos k) = Some k) as Hin by (intros k'; by apply tree_keys_in).
  rewrite first_of_slots_in; [|apply Forall_forall; intros x Hx; apply Hin in Hx; by apply (Hw _ x)|by apply tree_keys_sorted|done].
  rewrite Hin, Forall_forall. assert (forall p q, bucket_slot p = bucket_slot q -> bpos_val q <= bpos_val p <-> snapshot q <= snapshot p) as Hv.
  { intros p q [= E1 E2]. unfold bpos_val, bkey_val. rewrite E1, E2. lia. }
  split; (intros [H1 H2]; split; [done|]).
  - intros p k' Hk' E. destruct H2 as [_ H2]. destruct (Hc _ _ _ Hk') as (Ep & _). apply (Hv p); [done|]. rewrite <- Ep in Hk', E |- *. apply H2; [by apply Hin|done].
  - split; [done|]. intros x Hx E. apply Hv; [done|]. apply Hin in Hx. by apply (H2 _ x).
Qed.

(** ** The sets of the checks *)

Definition in_state (t : Z) (k : kv) : Prop := is_alloc_key k = true /\ data_type (read_alloc (kv_v k)) = t.

Lemma add_bucket_in s k p :
  (p ∈ s_free (add_bucket s k) <-> p ∈ s_free s \/ in_state BCH_DATA_FREE k /\ p = bucket_slot (kv_pos k)) /\
  (p ∈ s_index (add_bucket s k) <-> p ∈ s_index s \/ in_state BCH_DATA_FREE k /\ p = bucket_slot (alloc_freespace_pos (kv_pos k) (read_alloc (kv_v k)))) /\
  (p ∈ s_discard (add_bucket s k) <-> p ∈ s_discard s \/ in_state BCH_DATA_NEED_DISCARD k /\ p = bucket_slot (kv_pos k)).
Proof.
  assert (BCH_DATA_FREE <> BCH_DATA_NEED_DISCARD) as Hne by done. unfold add_bucket, in_state. destruct (is_alloc_key k); cbn [negb]; [|intuition congruence].
  destruct (Z.eqb_spec (data_type (read_alloc (kv_v k))) BCH_DATA_FREE) as [->|Hf]; [|destruct (Z.eqb_spec (data_type (read_alloc (kv_v k))) BCH_DATA_NEED_DISCARD) as [->|Hd]];
    cbn [s_free s_index s_discard]; rewrite ?elem_of_union, ?elem_of_singleton; intuition congruence.
Qed.

Lemma fold_bucket_in (get : bucket_sets -> gset (Z * Z)) (P : kv -> Z * Z -> Prop) ks p : (forall s k, p ∈ get (add_bucket s k) <-> p ∈ get s \/ P k p) ->
  forall s, p ∈ get (fold_left add_bucket ks s) <-> p ∈ get s \/ exists k, k ∈ ks /\ P k p.
Proof.
  intros Hstep. induction ks as [|k ks IH]; intros s; cbn [fold_left].
  - split; [by left|]. intros [H|(k & H & _)]; [done|by apply not_elem_of_nil in H].
  - rewrite IH, Hstep. setoid_rewrite elem_of_cons. split.
    + intros [[H|H]|(x & H & Hx)]; [by left|right; exists k; tauto|right; exists x; tauto].
    + intros [H|(x & [->|H] & Hx)]; [tauto|tauto|]. right. by exists x.
Qed.

(** A bucket as the tree has it. *)
Lemma alloc_at_key c p a : alloc_at c p = Some a <-> exists k, f_trees c !! (4, p) = Some k /\ is_alloc_key k = true /\ read_alloc (kv_v k) = a.
Proof.
  unfold alloc_at. destruct (f_trees c !! (4, p)) as [k|]; [|split; [done|by intros (k & H & _)]].
  destruct (is_alloc_key k) eqn:E; split; try done.
  - intros [= <-]. by exists k.
  - by intros (k' & [= <-] & _ & <-).
  - intros (k' & [= <-] & H & _). congruence.
Qed.

Lemma scan_alloc c t (P : bpos -> bch_alloc_v4 -> Prop) : buckets_wf c ->
  (exists k, k ∈ scan_raw_locked c 4 /\ in_state t k /\ P (kv_pos k) (read_alloc (kv_v k))) <-> exists p a, alloc_at c p = Some a /\ data_type a = t /\ P p a.
Proof.
  intros Hc. assert (bucket_tree 4) as H4 by (by left). split.
  - intros (k & Hk & [Ha Ht] & HP). apply scan_in in Hk; [|done|done]. exists (kv_pos k), (read_alloc (kv_v k)). split; [|done]. apply alloc_at_key. by exists k.
  - intros (p & a & Ha & Ht & HP). apply alloc_at_key in Ha as (k & Hk & Hka & <-). destruct (bw_trees _ Hc _ _ _ Hk) as (Hp & _). exists k.
    split; [apply scan_in; [done|done|by rewrite Hp]|]. split; [done|]. by rewrite Hp.
Qed.

Lemma expected_free c p : buckets_wf c -> p ∈ s_free (expected_sets c) <-> exists q a, alloc_at c q = Some a /\ data_type a = BCH_DATA_FREE /\ p = bucket_slot q.
Proof.
  intros Hc. unfold expected_sets. rewrite (fold_bucket_in s_free (fun k p => in_state BCH_DATA_FREE k /\ p = bucket_slot (kv_pos k))) by (intros s k; apply add_bucket_in).
  rewrite <- (scan_alloc c _ (fun q a => p = bucket_slot q)) by done. cbn. set_solver.
Qed.

Lemma expected_index c p : buckets_wf c -> p ∈ s_index (expected_sets c) <-> exists q a, alloc_at c q = Some a /\ data_type a = BCH_DATA_FREE /\ p = bucket_slot (alloc_freespace_pos q a).
Proof.
  intros Hc. unfold expected_sets.
  rewrite (fold_bucket_in s_index (fun k p => in_state BCH_DATA_FREE k /\ p = bucket_slot (alloc_freespace_pos (kv_pos k) (read_alloc (kv_v k))))) by (intros s k; apply add_bucket_in).
  rewrite <- (scan_alloc c _ (fun q a => p = bucket_slot (alloc_freespace_pos q a))) by done. cbn. set_solver.
Qed.

Lemma expected_discard c p : buckets_wf c -> p ∈ s_discard (expected_sets c) <-> exists q a, alloc_at c q = Some a /\ data_type a = BCH_DATA_NEED_DISCARD /\ p = bucket_slot q.
Proof.
  intros Hc. unfold expected_sets. rewrite (fold_bucket_in s_discard (fun k p => in_state BCH_DATA_NEED_DISCARD k /\ p = bucket_slot (kv_pos k))) by (intros s k; apply add_bucket_in).
  rewrite <- (scan_alloc c _ (fun q a => p = bucket_slot q)) by done. cbn. set_solver.
Qed.

Lemma set_slots_in c b p : buckets_wf c -> bucket_tree b -> p ∈ set_slots (scan_raw_locked c b) <-> exists q, is_set c b q /\ p = bucket_slot q.
Proof.
  intros Hc Hb. unfold set_slots. rewrite elem_of_list_to_set, list_elem_of_fmap. split.
  - intros (k & -> & Hk). apply list_elem_of_In, filter_In in Hk as [Hk Hs]. apply list_elem_of_In, scan_in in Hk; [|done|done]. exists (kv_pos k). split; [|done]. by exists k.
  - intros (q & (k & Hk & Hs) & ->). destruct (bw_trees _ Hc _ _ _ Hk) as (Hp & _). exists k. rewrite Hp. split; [done|]. apply list_elem_of_In, filter_In. split; [|done].
    apply list_elem_of_In, scan_in; [done|done|by rewrite Hp].
Qed.

(** ** Where a free bucket is indexed *)

Lemma gc_gen_range a : 0 <= Z.shiftr (wsub 8 (gen a) (oldest_gen a)) 4 < 2 ^ 4.
Proof.
  pose proof (Z.mod_pos_bound (gen a - oldest_gen a) (2 ^ 8) ltac:(lia)) as H. unfold wsub. rewrite Z.shiftr_div_pow2 by lia.
  split; [apply Z.div_pos; lia|]. apply Z.div_lt_upper_bound; lia.
Qed.

Lemma freespace_offset p a : 0 <= offset p < 2 ^ 56 -> offset (alloc_freespace_pos p a) = offset p + Z.shiftr (wsub 8 (gen a) (oldest_gen a)) 4 * 2 ^ 56.
Proof.
  intros Hp. unfold alloc_freespace_pos. cbn [offset]. pose proof (gc_gen_range a) as Hg. set (g := Z.shiftr (wsub 8 (gen a) (oldest_gen a)) 4) in *.
  rewrite Z.lor_comm, <- Z.shiftl_mul_pow2 by lia. rewrite Z.add_comm. symmetry. rewrite <- Z.lxor_lor, Z.add_nocarry_lxor; [done| |].
  all: apply Z.bits_inj'; intros n Hn; rewrite Z.land_spec, Z.bits_0, Z.shiftl_spec by lia.
  all: destruct (Z.lt_ge_cases n 56); [rewrite Z.testbit_neg_r by lia; done|].
  all: replace (Z.testbit (offset p) n) with false; [apply andb_false_r|]; symmetry; rewrite <- (Z.mod_small (offset p) (2 ^ 56)) by lia; by apply Z.mod_pow2_bits_high.
Qed.

Lemma freespace_mask p a : 0 <= offset p < 2 ^ 56 -> Z.land (offset (alloc_freespace_pos p a)) (2 ^ 56 - 1) = offset p.
Proof.
  intros Hp. rewrite freespace_offset by done. change (2 ^ 56 - 1) with (Z.ones 56). rewrite Z.land_ones by lia.
  rewrite Z.add_mod, Z.mod_mul by lia. rewrite Z.add_0_r, Z.mod_mod by lia. by apply Z.mod_small.
Qed.

Lemma freespace_inj p q a b : 0 <= offset p < 2 ^ 56 -> 0 <= offset q < 2 ^ 56 -> alloc_freespace_pos p a = alloc_freespace_pos q b -> p = q.
Proof.
  intros Hp Hq E. pose proof (f_equal inode E) as Ei. pose proof (f_equal snapshot E) as Es. pose proof (freespace_mask p a Hp) as Hm. rewrite E, freespace_mask in Hm by done.
  destruct p, q. cbn in *. congruence.
Qed.

Lemma freespace_wf p a : bpos_wf p -> offset p < 2 ^ 56 -> bpos_wf (alloc_freespace_pos p a) /\ snapshot (alloc_freespace_pos p a) = snapshot p.
Proof.
  intros (Hi & Ho & Hs) Hlt. unfold in_range in *. split; [|done]. unfold bpos_wf, in_range. rewrite freespace_offset by lia. pose proof (gc_gen_range a).
  change (inode (alloc_freespace_pos p a)) with (inode p). change (snapshot (alloc_freespace_pos p a)) with (snapshot p). change (2 ^ 64) with (256 * 2 ^ 56). change (2 ^ 4) with 16 in *. nia.
Qed.

(** The buckets of the tree. *)
Lemma alloc_at_wf c p a : buckets_wf c -> alloc_at c p = Some a -> snapshot p = 0 /\ bpos_wf p /\ alloc_wf a /\ 0 <= offset p < 2 ^ 56.
Proof.
  intros Hc Ha. apply alloc_at_key in Ha as (k & Hk & Hka & <-). destruct (bw_keys _ Hc 4 _ _ (or_introl eq_refl) Hk) as (Hs & Hw & _).
  destruct (bw_alloc _ Hc _ _ Hk Hka) as (_ & Hwf & Ho). split; [done|]. split; [done|]. split; [done|]. destruct Hw as (H1 & H2 & H3). unfold in_range in H2. lia.
Qed.

Lemma is_set_wf c b p : buckets_wf c -> bucket_tree b -> is_set c b p -> snapshot p = 0 /\ bpos_wf p.
Proof. intros Hc Hb (k & Hk & _). by destruct (bw_keys _ Hc _ _ _ Hb Hk) as (Hs & Hw & _). Qed.

(** ** The check of the indexes *)

Definition free_key (k : kv) : bool := is_alloc_key k && (data_type (read_alloc (kv_v k)) =? BCH_DATA_FREE).

Lemma free_key_state k : free_key k = true <-> in_state BCH_DATA_FREE k.
Proof. unfold free_key, in_state. by rewrite andb_true_iff, Z.eqb_eq. Qed.

(** Free buckets and their places in the index are equally many. *)
Lemma free_sizes c : buckets_wf c -> size (s_free (expected_sets c)) = size (s_index (expected_sets c)).
Proof.
  intros Hc. set (l := List.filter free_key (scan_raw_locked c 4)).
  assert (forall k, k ∈ l -> f_trees c !! (4, kv_pos k) = Some k /\ 0 <= offset (kv_pos k) < 2 ^ 56 /\ snapshot (kv_pos k) = 0) as Hl.
  { intros k Hk. apply list_elem_of_In, filter_In in Hk as [Hk Hf]. apply list_elem_of_In, scan_in in Hk; [|done|by left]. split; [done|].
    apply free_key_state in Hf as [Ha _]. destruct (alloc_at_wf c (kv_pos k) (read_alloc (kv_v k)) Hc) as (Hs & _ & _ & Ho); [apply alloc_at_key; by exists k|done]. }
  assert (NoDup l) as Hn.
  { unfold l. rewrite scan_all by (done || by left). pose proof (tree_keys_NoDup c 4 (bw_trees _ Hc)) as Hn. induction Hn as [|x xs Hx Hn IH]; cbn [List.filter]; [constructor|].
    destruct (free_key x); [|done]. constructor; [|done]. intros H. apply Hx. apply list_elem_of_In, filter_In in H as [H _]. by apply list_elem_of_In. }
  assert (forall p, p ∈ s_free (expected_sets c) <-> p ∈ (list_to_set (map (fun k => bucket_slot (kv_pos k)) l) : gset (Z * Z))) as E1.
  { intros p. rewrite expected_free, <- (scan_alloc c _ (fun q a => p = bucket_slot q)) by done. rewrite elem_of_list_to_set, list_elem_of_fmap. unfold l.
    split; [intros (k & H1 & H2 & ->)|intros (k & -> & H); apply list_elem_of_In, filter_In in H as [H1 H2]]; exists k; [split; [done|]|split; [by apply list_elem_of_In|split; [by apply free_key_state|done]]].
    apply list_elem_of_In, filter_In. split; [by apply list_elem_of_In|by apply free_key_state]. }
  assert (forall p, p ∈ s_index (expected_sets c) <-> p ∈ (list_to_set (map (fun k => bucket_slot (alloc_freespace_pos (kv_pos k) (read_alloc (kv_v k)))) l) : gset (Z * Z))) as E2.
  { intros p. rewrite expected_index, <- (scan_alloc c _ (fun q a => p = bucket_slot (alloc_freespace_pos q a))) by done. rewrite elem_of_list_to_set, list_elem_of_fmap. unfold l.
    split; [intros (k & H1 & H2 & ->)|intros (k & -> & H); apply list_elem_of_In, filter_In in H as [H1 H2]]; exists k; [split; [done|]|split; [by apply list_elem_of_In|split; [by apply free_key_state|done]]].
    apply list_elem_of_In, filter_In. split; [by apply list_elem_of_In|by apply free_key_state]. }
  apply set_eq in E1, E2. rewrite E1, E2, !size_list_to_set; [by rewrite !length_map| |]; apply NoDup_fmap_2_strong; try done; intros k k' H H' E; cbn in E.
  - destruct (Hl k H) as (Hk & Ho & Hs), (Hl k' H') as (Hk' & Ho' & Hs'). assert (alloc_freespace_pos (kv_pos k) (read_alloc (kv_v k)) = alloc_freespace_pos (kv_pos k') (read_alloc (kv_v k'))) as E' by (by apply slot_inj).
    apply freespace_inj in E'; [|done|done]. rewrite E', Hk' in Hk. by injection Hk as ->.
  - destruct (Hl k H) as (Hk & Ho & Hs), (Hl k' H') as (Hk' & Ho' & Hs'). pose proof (slot_inj _ _ Hs Hs' E) as E'. rewrite E', Hk' in Hk. by injection Hk as ->.
Qed.

Lemma consistent_index c : buckets_wf c -> consistent c <->
  s_index (expected_sets c) = set_slots (scan_raw_locked c BTREE_ID_FREESPACE) /\ s_discard (expected_sets c) = set_slots (scan_raw_locked c BTREE_ID_NEED_DISCARD).
Proof.
  intros Hc. assert (bucket_tree BTREE_ID_FREESPACE) as B5 by (by right; left). assert (bucket_tree BTREE_ID_NEED_DISCARD) as B6 by (by right; right; left).
  assert (forall q a, alloc_at c q = Some a -> snapshot (alloc_freespace_pos q a) = 0) as Hfs.
  { intros q a H. by destruct (alloc_at_wf _ _ _ Hc H) as (Hs & _). }
  split.
  - intros [Hf Hd]. split; apply set_eq; intros p.
    + rewrite expected_index, set_slots_in by done. split; [intros (q & a & Ha & Ht & ->)|intros (q & Hq & ->); apply Hf in Hq as (q' & a & Ha & Ht & ->); by exists q', a].
      exists (alloc_freespace_pos q a). split; [|done]. apply Hf. by exists q, a.
    + rewrite expected_discard, set_slots_in by done. split; [intros (q & a & Ha & Ht & ->); exists q; split; [apply Hd; by exists a|done]|].
      intros (q & Hq & ->). apply Hd in Hq as (a & Ha & Ht). by exists q, a.
  - intros [Hf Hd]. rewrite set_eq in Hf, Hd. split.
    + intros q. split.
      * intros Hq. assert (bucket_slot q ∈ s_index (expected_sets c)) as H by (apply Hf, set_slots_in; [done|done|by exists q]).
        apply expected_index in H as (p & a & Ha & Ht & E); [|done]. exists p, a. split; [done|]. split; [done|]. apply slot_inj; [by apply (is_set_wf _ _ _ Hc B5)|by apply Hfs|done].
      * intros (p & a & Ha & Ht & ->). assert (bucket_slot (alloc_freespace_pos p a) ∈ set_slots (scan_raw_locked c BTREE_ID_FREESPACE)) as H by (apply Hf, expected_index; [done|by exists p, a]).
        apply set_slots_in in H as (q & Hq & E); [|done|done]. apply slot_inj in E; [by rewrite E|by eapply Hfs|by apply (is_set_wf _ _ _ Hc B5)].
    + intros q. split.
      * intros Hq. assert (bucket_slot q ∈ s_discard (expected_sets c)) as H by (apply Hd, set_slots_in; [done|done|by exists q]).
        apply expected_discard in H as (p & a & Ha & Ht & E); [|done]. exists a. apply slot_inj in E; [by rewrite E|by apply (is_set_wf _ _ _ Hc B6)|by apply (alloc_at_wf _ _ _ Hc Ha)].
      * intros (a & Ha & Ht). assert (bucket_slot q ∈ set_slots (scan_raw_locked c BTREE_ID_NEED_DISCARD)) as H by (apply Hd, expected_discard; [done|by exists q, a]).
        apply set_slots_in in H as (p & Hp & E); [|done|done]. apply slot_inj in E; [by rewrite E|by apply (alloc_at_wf _ _ _ Hc Ha)|by apply (is_set_wf _ _ _ Hc B6)].
Qed.

Lemma verify_consistent e : buckets_wf (e_fs e) -> verify_bucket_indexes e = Ok tt <-> consistent (e_fs e).
Proof.
  intros Hc. rewrite consistent_index by done. unfold verify_bucket_indexes. set (c := e_fs e) in *.
  destruct (decide (s_index (expected_sets c) = set_slots (scan_raw_locked c BTREE_ID_FREESPACE))) as [Ei|Ni].
  2: { rewrite bool_decide_false by done. cbn [negb]. rewrite orb_true_r. cbn. split; [done|by intros []]. }
  rewrite <- Ei, (free_sizes c Hc), Nat.eqb_refl, bool_decide_true by done. cbn [negb orb].
  assert (existsb (fun '(dev, offset) => negb (bool_decide ((dev, Z.land offset (2 ^ 56 - 1)) ∈ s_free (expected_sets c)))) (elements (s_index (expected_sets c))) = false) as ->.
  { apply not_true_iff_false. intros H. apply existsb_exists in H as ([dev off] & Hin & H). apply list_elem_of_In, elem_of_elements, expected_index in Hin as (q & a & Ha & Ht & E); [|done].
    apply negb_true_iff, bool_decide_eq_false in H. apply H, expected_free; [done|]. exists q, a. split; [done|]. split; [done|]. pose proof (f_equal fst E) as E1. pose proof (f_equal snd E) as E2.
    change (dev = inode q) in E1. change (off = offset (alloc_freespace_pos q a)) in E2. rewrite E1, E2.
    destruct (alloc_at_wf _ _ _ Hc Ha) as (_ & _ & _ & Ho). by rewrite freespace_mask. }
  case_bool_decide as Hd; cbn [negb]; split; [done|done|done|by intros []].
Qed.

(** ** The transaction of a bucket *)

Definition alloc_key (p : bpos) (a : bch_alloc_v4) : kv := mk_kv (mk_bkey (BKEY_U64S + 8) KEY_FORMAT_CURRENT KEY_TYPE_alloc_v4 ZERO_VERSION 0 p) (alloc_words a).
Definition bit_key (p : bpos) (set : bool) : kv := mk_kv (mk_bkey BKEY_U64S KEY_FORMAT_CURRENT (if set then KEY_TYPE_set else KEY_TYPE_deleted) ZERO_VERSION 0 p) [].

Lemma alloc_key_value p a : value_key p KEY_TYPE_alloc_v4 (alloc_words a) = Some (alloc_key p a).
Proof. done. Qed.

(** The keys of a bucket's transaction: its description, the index of free
    buckets, and for some that of discards. *)
Definition bucket_keys (p : bpos) (a : bch_alloc_v4) (f : bpos) (free : bool) (discard : option bool) : list (Z * kv) :=
  (4, alloc_key p a) :: (BTREE_ID_FREESPACE, bit_key f free) :: match discard with Some d => [(BTREE_ID_NEED_DISCARD, bit_key p d)] | None => [] end.

Lemma retry_loop_ext f g commit retry evs : (forall c, f c = g c) -> forall c, retry_loop f commit retry c evs = retry_loop g commit retry c evs.
Proof.
  intros Hfg. induction evs as [|ev evs IH]; intros c; [done|]. cbn [retry_loop]. rewrite <- Hfg.
  destruct ev; try apply IH; (destruct (f c) as [[us0 r0]|]; [cbn [mbind option_bind]|done]).
  all: destruct (if r0 =? 0 then _ else _) as [[c1 r1]|]; [cbn [mbind option_bind]|done]; destruct (retry r1); [apply IH|done].
Qed.

Lemma stage_update_alloc c p a : update_alloc c p a = bch2_trans_update c [] 4 (alloc_key p a) 0.
Proof. unfold update_alloc, trigger_update_value. by rewrite alloc_key_value. Qed.

Lemma stage_two c p a f free :
  (us ← update_alloc c p a; us ← bch2_btree_bit_mod c us BTREE_ID_FREESPACE f free; Some (us, 0)) = stage_of (bucket_keys p a f free None) c.
Proof.
  rewrite stage_update_alloc. unfold stage_of, bucket_keys. cbn [stage_keys]. destruct (bch2_trans_update c [] 4 (alloc_key p a) 0) as [us|]; [cbn [mbind option_bind]|done].
  change (bch2_btree_bit_mod c us BTREE_ID_FREESPACE f free) with (bch2_trans_update c us BTREE_ID_FREESPACE (bit_key f free) 0). by destruct (bch2_trans_update c us _ _ 0).
Qed.

Lemma stage_three c p a f free d :
  (us ← update_alloc c p a; us ← bch2_btree_bit_mod c us BTREE_ID_FREESPACE f free; us ← bch2_btree_bit_mod c us BTREE_ID_NEED_DISCARD p d; Some (us, 0)) =
  stage_of (bucket_keys p a f free (Some d)) c.
Proof.
  rewrite stage_update_alloc. unfold stage_of, bucket_keys. cbn [stage_keys]. destruct (bch2_trans_update c [] 4 (alloc_key p a) 0) as [us|]; [cbn [mbind option_bind]|done].
  change (bch2_btree_bit_mod c us BTREE_ID_FREESPACE f free) with (bch2_trans_update c us BTREE_ID_FREESPACE (bit_key f free) 0). destruct (bch2_trans_update c us _ _ 0) as [us2|]; [cbn [mbind option_bind]|done].
  change (bch2_btree_bit_mod c us2 BTREE_ID_NEED_DISCARD p d) with (bch2_trans_update c us2 BTREE_ID_NEED_DISCARD (bit_key p d) 0). by destruct (bch2_trans_update c us2 _ _ 0).
Qed.

Lemma bit_key_ok b p set : (b = BTREE_ID_FREESPACE \/ b = BTREE_ID_NEED_DISCARD) -> bpos_wf p -> key_ok (b, bit_key p set).
Proof. intros Hb Hp. split; [split; [destruct Hb as [->| ->]; done|done]|]. split; [|by destruct set]. by constructor. Qed.

Lemma alloc_key_ok' p a : bpos_wf p -> key_ok (4, alloc_key p a).
Proof. intros Hp. split; [done|]. split; [|done]. by constructor. Qed.

Lemma bucket_keys_ok p a f free d : bpos_wf p -> bpos_wf f -> Forall key_ok (bucket_keys p a f free d).
Proof.
  intros Hp Hf. unfold bucket_keys. apply Forall_cons_2; [by apply alloc_key_ok'|]. apply Forall_cons_2; [apply bit_key_ok; [by left|done]|].
  destruct d; [|constructor]. apply Forall_cons_2; [apply bit_key_ok; [by right|done]|constructor].
Qed.

Lemma bucket_keys_plain c p a f free d : buckets_wf c -> plain_at (f_trees c) (bucket_keys p a f free d).
Proof.
  intros Hc b k old Hin Hk. assert (bucket_tree b) as Hb.
  { unfold bucket_keys in Hin. rewrite !elem_of_cons in Hin. destruct Hin as [[= -> _]|[[= -> _]|Hin]]; [by left|by right; left|]. destruct d; [|by apply not_elem_of_nil in Hin].
    apply list_elem_of_singleton in Hin. injection Hin as -> _. by right; right; left. }
  by apply (bw_keys _ Hc _ _ _ Hb Hk).
Qed.

(** *** What it leaves *)

Lemma is_alloc_at (t : fs) p k : f_trees t !! (4, p) = Some k -> alloc_at t p = if is_alloc_key k then Some (read_alloc (kv_v k)) else None.
Proof. unfold alloc_at. by intros ->. Qed.

Section Transition.
Context (c c' : fs) (p : bpos) (a : bch_alloc_v4) (f : bpos) (free : bool) (d : option bool).
Context (Hkeys : forall key, f_trees c' !! key = keys_after (f_trees c) (bucket_keys p a f free d) key) (Ha : alloc_wf a).

Lemma after_alloc q : alloc_at c' q = if decide (q = p) then Some a else alloc_at c q.
Proof.
  unfold alloc_at. rewrite Hkeys. unfold keys_after, bucket_keys. destruct d; cbn [over].
  all: rewrite ?(decide_False (P := (4, q) = (BTREE_ID_NEED_DISCARD, _))), ?(decide_False (P := (4, q) = (BTREE_ID_FREESPACE, _))) by done.
  all: change (kv_pos (alloc_key p a)) with p; destruct (decide (q = p)) as [->|Hne].
  1, 3: rewrite decide_True by done; cbn; rewrite <- (app_nil_r (alloc_words a)); by rewrite read_alloc_words.
  all: by rewrite decide_False by congruence.
Qed.

Lemma live_bit q set : match live (bit_key q set) with Some k => is_set_key k = true | None => False end <-> set = true.
Proof. by destruct set. Qed.

Lemma is_set_match (t : fs) b q : is_set t b q <-> match f_trees t !! (b, q) with Some k => is_set_key k = true | None => False end.
Proof. unfold is_set. destruct (f_trees t !! (b, q)) as [k|]; [|split; [by intros (k & H & _)|done]]. split; [by intros (k' & [= <-] & H)|by exists k]. Qed.

Lemma after_free q : is_set c' BTREE_ID_FREESPACE q <-> if decide (q = f) then free = true else is_set c BTREE_ID_FREESPACE q.
Proof.
  rewrite !is_set_match, Hkeys. unfold keys_after, bucket_keys. destruct d; cbn [over].
  all: rewrite ?(decide_False (P := (BTREE_ID_FREESPACE, q) = (BTREE_ID_NEED_DISCARD, _))), ?(decide_False (P := (BTREE_ID_FREESPACE, q) = (4, _))) by done.
  all: change (kv_pos (bit_key f free)) with f; destruct (decide (q = f)) as [->|Hne].
  1, 3: rewrite decide_True by done; apply live_bit.
  all: rewrite decide_False by congruence; by rewrite is_set_match.
Qed.

Lemma after_discard q : is_set c' BTREE_ID_NEED_DISCARD q <-> match d with Some s => if decide (q = p) then s = true else is_set c BTREE_ID_NEED_DISCARD q | None => is_set c BTREE_ID_NEED_DISCARD q end.
Proof.
  rewrite !is_set_match, Hkeys. unfold keys_after, bucket_keys. destruct d as [s|]; cbn [over].
  all: rewrite (decide_False (P := (BTREE_ID_NEED_DISCARD, q) = (4, _))), (decide_False (P := (BTREE_ID_NEED_DISCARD, q) = (BTREE_ID_FREESPACE, _))) by done.
  - change (kv_pos (bit_key p s)) with p. destruct (decide (q = p)) as [->|Hne]; [rewrite decide_True by done; apply live_bit|].
    rewrite decide_False by congruence. by rewrite is_set_match.
  - by rewrite is_set_match.
Qed.

End Transition.

(** A bucket goes from one state to another, and the indexes follow. *)
Lemma transition_consistent c c' p old new : buckets_wf c -> consistent c -> alloc_at c p = Some old ->
  (forall q, alloc_at c' q = if decide (q = p) then Some new else alloc_at c q) ->
  (forall q, is_set c' BTREE_ID_FREESPACE q <->
     data_type new = BCH_DATA_FREE /\ q = alloc_freespace_pos p new \/ is_set c BTREE_ID_FREESPACE q /\ ~ (data_type old = BCH_DATA_FREE /\ q = alloc_freespace_pos p old)) ->
  (forall q, is_set c' BTREE_ID_NEED_DISCARD q <-> data_type new = BCH_DATA_NEED_DISCARD /\ q = p \/ is_set c BTREE_ID_NEED_DISCARD q /\ q <> p) ->
  consistent c'.
Proof.
  intros Hc [Hf Hd] Hold Ha H5 H6. pose proof (alloc_at_wf _ _ _ Hc Hold) as (_ & _ & _ & Hop). split; intros q.
  - rewrite H5. split.
    + intros [[Ht ->]|[Hq Hne]]; [exists p, new; by rewrite Ha, decide_True|]. apply Hf in Hq as (p' & a' & Ha' & Ht & ->).
      exists p', a'. rewrite Ha. destruct (decide (p' = p)) as [->|]; [|done]. rewrite Hold in Ha'. injection Ha' as <-. by destruct Hne.
    + intros (p' & a' & Ha' & Ht & ->). rewrite Ha in Ha'. destruct (decide (p' = p)) as [->|Hne]; [injection Ha' as <-; by left|]. right.
      split; [apply Hf; by exists p', a'|]. intros [_ E]. apply Hne. pose proof (alloc_at_wf _ _ _ Hc Ha') as (_ & _ & _ & Ho'). by eapply freespace_inj.
  - rewrite H6, Hd, Ha. destruct (decide (q = p)) as [->|Hne].
    + split; [intros [[Ht _]|[_ []]]; [by exists new|done]|]. intros (a' & [= <-] & Ht). by left.
    + split; [intros [[_ ?]|[H _]]; [done|exact H]|]. intros H. by right.
Qed.

(** What the attempts leave is well formed. *)
Lemma bucket_keys_wf c c' p a f free d : buckets_wf c -> bpos_wf p -> snapshot p = 0 -> offset p < 2 ^ 56 -> alloc_wf a -> bpos_wf f -> snapshot f = 0 ->
  trees_wf c' -> (forall key, f_trees c' !! key = f_trees c !! key \/ f_trees c' !! key = keys_after (f_trees c) (bucket_keys p a f free d) key) -> buckets_wf c'.
Proof.
  intros Hc Hp Hps Hpo Ha Hf Hfs Ht H.
  assert (forall b q k, f_trees c' !! (b, q) = Some k -> f_trees c !! (b, q) = Some k \/ (b = 4 /\ q = p /\ k = alloc_key p a) \/
    (b <> 4 /\ (q = f \/ q = p) /\ plain_kv k)) as Hcases.
  { intros b q k Hk. destruct (H (b, q)) as [E|E]; rewrite E in Hk; [by left|]. unfold keys_after in Hk.
    destruct (over_cases (bucket_keys p a f free d) (fun key => f_trees c !! key) (b, q)) as [Eo|(b' & k' & Hin & [= -> ->] & Eo & _)]; rewrite Eo in Hk; [by left|]. right.
    unfold live in Hk. destruct (kv_type k' =? KEY_TYPE_deleted) eqn:Ed; [done|]. injection Hk as <-. unfold bucket_keys in Hin. rewrite !elem_of_cons in Hin.
    destruct Hin as [[= -> ->]|[[= -> ->]|Hin]]; [by left|right; split; [done|]; split; [by left|by destruct free]|].
    destruct d as [s|]; [|by apply not_elem_of_nil in Hin]. apply list_elem_of_singleton in Hin. injection Hin as -> ->. right. split; [done|]. split; [by right|by destruct s]. }
  constructor; [done| |].
  - intros b q k Hb Hk. destruct (Hcases b q k Hk) as [E|[(-> & -> & ->)|(_ & [-> | ->] & Hpl)]]; [by eapply bw_keys|done|done|done].
  - intros q k Hk. destruct (Hcases 4 q k Hk) as [E|[(_ & -> & ->)|(H4 & _)]]; [by eapply bw_alloc| |done]. intros _. split; [done|]. split; [|done].
    cbn [kv_v alloc_key]. rewrite <- (app_nil_r (alloc_words a)). by rewrite read_alloc_words.
Qed.

(** ** Operations *)

Record inv (e : engine) : Prop := {
  i_wf : buckets_wf (e_fs e);
  i_consistent : consistent (e_fs e);
  i_members : forall dev, 0 <= m_bucket_size (sb_member_get (e_fs e) dev)
}.

Lemma discard_commits : commits discard_commit.
Proof.
  intros c us ev Hc Hw Hk Hl Hev Hne. unfold discard_commit. destruct (Z.ltb_spec 0 (f_discard_restarts c)) as [Hr|Hr]; [|by apply commit_commits].
  eexists _, _. split; [done|]. constructor; try done; cbn.
  - by left.
  - unfold restarts_left. cbn. lia.
  - intros _. right. split; [done|]. unfold restarts_left. cbn. lia.
  - by right; left.
Qed.

(** The first of a sorted list. *)
Lemma find_first {A} (R : A -> A -> Prop) (f : A -> bool) l x : StronglySorted R l -> find f l = Some x ->
  x ∈ l /\ f x = true /\ forall y, y ∈ l -> f y = true -> y = x \/ R x y.
Proof.
  induction l as [|z l IH]; intros Hs Hf; [done|]. apply StronglySorted_inv in Hs as [Hs Hz]. cbn in Hf. destruct (f z) eqn:Ez.
  - injection Hf as <-. split; [apply list_elem_of_here|]. split; [done|]. intros y Hy _. apply elem_of_cons in Hy as [->|Hy]; [by left|right]. by apply (proj1 (Forall_forall _ _) Hz).
  - destruct (IH Hs Hf) as (H1 & H2 & H3). split; [by apply list_elem_of_further|]. split; [done|]. intros y Hy Hfy. apply elem_of_cons in Hy as [->|Hy]; [congruence|by apply H3].
Qed.

(** A free bucket of a device that can be allocated. *)
Definition free_bucket (c : fs) (dev : Z) (p : bpos) : Prop :=
  exists a, alloc_at c p = Some a /\ data_type a = BCH_DATA_FREE /\ inode p = dev /\
    m_first_bucket (sb_member_get c dev) <= offset p < m_nbuckets (sb_member_get c dev).

Lemma candidates_in c dev p a : buckets_wf c -> consistent c -> alloc_at c p = Some a -> data_type a = BCH_DATA_FREE -> inode p = dev -> offset p ∈ freespace_candidates c dev.
Proof.
  intros Hc Hco Ha Ht Hi. assert (bucket_tree BTREE_ID_FREESPACE) as B5 by (by right; left). assert (is_set c BTREE_ID_FREESPACE (alloc_freespace_pos p a)) as (k & Hk & Hs).
  { apply (co_free _ Hco). by exists p, a. }
  destruct (bw_trees _ Hc _ _ _ Hk) as (Hp & _). unfold freespace_candidates. apply elem_of_list_to_set, list_elem_of_fmap. exists k. rewrite Hp.
  destruct (alloc_at_wf _ _ _ Hc Ha) as (_ & _ & _ & Ho). rewrite freespace_mask by done. split; [done|]. apply list_elem_of_In, filter_In.
  split; [apply list_elem_of_In, scan_in; [done|done|by rewrite Hp]|]. rewrite Hs, Hp. cbn. by apply Z.eqb_eq.
Qed.

Lemma allocatable_free c dev k : buckets_wf c -> consistent c -> k ∈ scan_raw_locked c 4 ->
  allocatable c dev (sb_member_get c dev) k = true <-> free_bucket c dev (kv_pos k).
Proof.
  intros Hc Hco Hk. apply scan_in in Hk; [|done|by left]. unfold allocatable. rewrite !andb_true_iff, !orb_true_iff, negb_true_iff, orb_false_iff, !bool_decide_eq_true, !Z.eqb_eq, Z.leb_le, Z.ltb_ge, Z.leb_gt.
  split.
  - intros (((((Ha & Hi) & _) & Hr) & _) & Ht). exists (read_alloc (kv_v k)). split; [by rewrite (is_alloc_at _ _ _ Hk), Ha|]. done.
  - intros (a & Ha & Ht & Hi & Hr). pose proof Ha as Ha'. rewrite (is_alloc_at _ _ _ Hk) in Ha'. destruct (is_alloc_key k) eqn:Ek; [|done]. injection Ha' as <-.
    repeat split; try done; try lia.
    + destruct (bw_trees _ Hc _ _ _ Hk) as (_ & _ & [_ Hu Hv]). destruct (bw_alloc _ Hc _ _ Hk Ek) as (Hl & _). unfold value_end, bkey_val_u64s, wsub, BKEY_U64S, MAX in *.
      rewrite Z.mod_small in Hv by lia. lia.
    + right. by eapply candidates_in.
Qed.

Definition same_engine (e e' : engine) : Prop :=
  discard_queue e' = discard_queue e /\ discard_inflight e' = discard_inflight e /\ open_buckets e' = open_buckets e /\ rw_devs e' = rw_devs e.

(** An error changes nothing, unless an attempt was split. *)
Definition unsplit (evs : list commit_event) : Prop := Forall event_ok evs /\ forallb (fun ev => negb (is_split ev)) evs = true.

(** The transaction of a bucket, with its retries. *)
Record moved (c c' : fs) (p : bpos) (old new : bch_alloc_v4) : Prop := {
  mv_wf : buckets_wf c';
  mv_consistent : consistent c';
  mv_alloc : forall q, alloc_at c' q = if decide (q = p) then Some new else alloc_at c q;
  mv_refs : forall q, f_trees c' !! (8, q) = f_trees c !! (8, q)
}.

Lemma bucket_loop commit c p old new (free : bool) d evs c' ret : commits commit -> buckets_wf c -> consistent c -> alloc_at c p = Some old -> alloc_wf new ->
  let f := if free then alloc_freespace_pos p new else alloc_freespace_pos p old in
  free = bool_decide (data_type new = BCH_DATA_FREE) -> (free = true -> data_type old <> BCH_DATA_FREE) ->
  (match d with Some s => s = bool_decide (data_type new = BCH_DATA_NEED_DISCARD) | None => data_type old <> BCH_DATA_NEED_DISCARD /\ data_type new <> BCH_DATA_NEED_DISCARD end) ->
  Forall event_ok evs ->
  retry_loop (stage_of (bucket_keys p new f free d)) commit is_restart c evs = Some (c', ret) ->
  buckets_wf c' /\ same_env c c' /\ restarts_left c' <= restarts_left c /\ (ret = 0 -> moved c c' p old new) /\ (ret <> 0 -> forallb (fun ev => negb (is_split ev)) evs = true -> f_trees c' = f_trees c).
Proof.
  intros Hcm Hc Hco Hold Hnew f Hfree Hex Hd Hev E. destruct (alloc_at_wf _ _ _ Hc Hold) as (Hps & Hp & _ & Hpo).
  assert (bpos_wf f /\ snapshot f = 0) as [Hf Hfs].
  { unfold f. destruct free; [destruct (freespace_wf p new Hp)|destruct (freespace_wf p old Hp)]; try lia; split; try done; congruence. }
  destruct (retry_result commit Hcm (bucket_keys p new f free d) (bucket_keys_ok _ _ _ _ _ Hp Hf) ltac:(destruct d; cbn; unfold BTREE_ITER_INITIAL; lia)
    evs c c' ret (bw_trees _ Hc) (bucket_keys_plain _ _ _ _ _ _ Hc) Hev E) as [[Henv Hk Hdone Hwf Hleft] Href].
  assert (buckets_wf c') as Hc' by (eapply bucket_keys_wf; [exact Hc|exact Hp|exact Hps|lia|exact Hnew|exact Hf|exact Hfs|exact Hwf|exact Hk]). split; [done|]. split; [done|]. split; [done|]. split; [|done]. intros H0.
  pose proof (after_alloc c c' p new f free d (Hdone H0) Hnew) as Ha. split; [done| |done|].
  2: { intros q. rewrite Hdone by done. unfold keys_after, bucket_keys. by destruct d. }
  eapply (transition_consistent c c' p old new); [done|done|done|done| |].
  - intros q. rewrite (after_free c c' p new f free d (Hdone H0)). unfold f. destruct free.
    + symmetry in Hfree. apply bool_decide_eq_true in Hfree. destruct (decide (q = alloc_freespace_pos p new)) as [->|Hne]; [tauto|].
      split; [intros H; right; split; [done|intros [H' _]; by apply Hex]|]. intros [[_ ?]|[H _]]; done.
    + symmetry in Hfree. apply bool_decide_eq_false in Hfree. destruct (decide (q = alloc_freespace_pos p old)) as [->|Hne].
      * split; [done|]. intros [[H _]|[H Hn]]; [done|]. exfalso. apply (co_free _ Hco) in H as (p' & a' & Ha' & Ht & Eq).
        pose proof (alloc_at_wf _ _ _ Hc Ha') as (_ & _ & _ & Ho'). apply freespace_inj in Eq as <-; [|done|done]. rewrite Hold in Ha'. injection Ha' as <-. by apply Hn.
      * split; [intros H; right; split; [done|tauto]|]. intros [[H _]|[H _]]; done.
  - intros q. rewrite (after_discard c c' p new f free d (Hdone H0)). destruct d as [s|].
    + subst s. destruct (decide (q = p)) as [->|Hne]; [rewrite bool_decide_eq_true; tauto|tauto].
    + destruct Hd as [Ho Hn]. split; [|tauto]. intros H. right. split; [done|]. intros ->. apply (co_discard _ Hco) in H as (a & Ha' & Ht). rewrite Hold in Ha'. by injection Ha' as <-.
Qed.

Lemma finish_some {A} e (a : A) r x : finish e a r = Some x -> exists c ret, r = Some (c, ret) /\ x = (with_fs e c, if ret =? 0 then Ok a else Err (Transaction ret)).
Proof. unfold finish. destruct r as [[c ret]|]; [|done]. intros [= <-]. by exists c, ret. Qed.

Lemma with_fs_same e c : same_engine e (with_fs e c).
Proof. done. Qed.

Lemma set_data_wf a t : alloc_wf a -> in_range 8 t -> alloc_wf (set_data_type a t).
Proof. destruct a. unfold alloc_wf. cbn. tauto. Qed.

(** *** Allocation *)

Definition allocated (e : engine) (dev : Z) (p : bpos) (e' : engine) : Prop :=
  free_bucket (e_fs e) dev p /\ (forall q, free_bucket (e_fs e) dev q -> offset p <= offset q) /\ dev ∈ rw_devs e /\
  exists old, alloc_at (e_fs e) p = Some old /\ moved (e_fs e) (e_fs e') p old (set_data_type old BCH_DATA_BTREE).

Lemma first_free c dev k : buckets_wf c -> consistent c -> find (allocatable c dev (sb_member_get c dev)) (scan_raw_locked c 4) = Some k ->
  f_trees c !! (4, kv_pos k) = Some k /\ free_bucket c dev (kv_pos k) /\ forall q, free_bucket c dev q -> offset (kv_pos k) <= offset q.
Proof.
  intros Hc Hco Hf. assert (bucket_tree 4) as B4 by (by left). destruct (find_first _ _ _ _ (scan_sorted c 4 Hc B4) Hf) as (Hk & Ha & Hmin).
  apply allocatable_free in Ha; [|done|done|done]. pose proof Hk as Hk'. apply scan_in in Hk'; [|done|done]. split; [done|]. split; [done|]. intros q Hq.
  pose proof Hq as (b & Hb & Ht & Hi & Hr). apply alloc_at_key in Hb as (kq & Hkq & Hka & Hv). destruct (bw_trees _ Hc _ _ _ Hkq) as (Hpq & _).
  assert (kq ∈ scan_raw_locked c 4) as Hin by (apply scan_in; [done|done|by rewrite Hpq]).
  destruct (Hmin kq Hin) as [->|Hlt]; [apply allocatable_free; [done|done|done|by rewrite Hpq]|rewrite Hpq; lia|].
  rewrite Hpq in Hlt. destruct Ha as (a & Ha & _ & Hi' & _). destruct (alloc_at_wf _ _ _ Hc Ha) as (Hs & Hw & _).
  destruct (bw_keys _ Hc _ _ _ B4 Hkq) as (Hs' & Hw' & _). unfold bpos_val, bkey_val in Hlt. rewrite Hs, Hs', Hi, Hi' in Hlt. lia.
Qed.

Lemma no_free c dev : buckets_wf c -> consistent c -> find (allocatable c dev (sb_member_get c dev)) (scan_raw_locked c 4) = None -> forall q, ~ free_bucket c dev q.
Proof.
  intros Hc Hco Hf q Hq. pose proof Hq as (b & Hb & _). apply alloc_at_key in Hb as (kq & Hkq & _). destruct (bw_trees _ Hc _ _ _ Hkq) as (Hpq & _).
  assert (kq ∈ scan_raw_locked c 4) as Hin by (apply scan_in; [done|by left|by rewrite Hpq]).
  pose proof (find_none _ _ Hf kq (proj1 (list_elem_of_In _ _) Hin)) as Hn. rewrite (proj2 (allocatable_free c dev kq Hc Hco Hin)) in Hn; [done|by rewrite Hpq].
Qed.

Lemma pos_slot p : snapshot p = 0 -> POS (inode p) (offset p) = p.
Proof. destruct p. cbn. by intros ->. Qed.

Lemma allocate_ok e dev evs e' r : inv e -> Forall event_ok evs -> allocate_bucket e dev evs = Some (e', r) ->
  same_engine e e' /\ buckets_wf (e_fs e') /\ same_env (e_fs e) (e_fs e') /\
  match r with
  | Ok p => allocated e dev p e'
  | Err _ => forallb (fun ev => negb (is_split ev)) evs = true -> f_trees (e_fs e') = f_trees (e_fs e)
  end.
Proof.
  intros [Hc Hco _] Hev. unfold allocate_bucket. destruct (_ <=? dev); [intros [= <- <-]; done|]. destruct (_ || _); [intros [= <- <-]; done|].
  destruct (bool_decide (dev ∈ rw_devs e)) eqn:Erw; cbn [negb]; [|intros [= <- <-]; done]. apply bool_decide_eq_true in Erw.
  destruct (find _ _) as [k|] eqn:Ef; [|intros [= <- <-]; done].
  destruct (first_free _ _ _ Hc Hco Ef) as (Hk & Hfree & Hmin). intros E. apply finish_some in E as (c' & ret & E & [= -> ->]).
  pose proof Hfree as (old & Hold & Ht & Hi & Hr). pose proof Hold as Ho. rewrite (is_alloc_at _ _ _ Hk) in Ho. destruct (is_alloc_key k) eqn:Ek; [|done]. injection Ho as Ho. rewrite Ho in *.
  destruct (alloc_at_wf _ _ _ Hc Hold) as (Hs & _ & Hw & _).
  rewrite (retry_loop_ext _ (stage_of (bucket_keys (kv_pos k) (set_data_type old BCH_DATA_BTREE) (alloc_freespace_pos (kv_pos k) old) false None))) in E by (intros c0; apply stage_two).
  pose proof (bucket_loop bch2_trans_commit (e_fs e) (kv_pos k) old (set_data_type old BCH_DATA_BTREE) false None evs c' ret commit_commits Hc Hco Hold) as Hloop. cbv zeta in Hloop.
  destruct Hloop as (H1 & H2 & Hl & H3 & H4); [by apply set_data_wf|done|done|by rewrite Ht|done|exact E|].
  split; [done|]. split; [done|]. split; [done|]. destruct (Z.eqb_spec ret 0) as [->|Hne].
  - rewrite pos_slot by done. split; [done|]. split; [done|]. split; [done|]. exists old. split; [done|]. by apply H3.
  - by apply H4.
Qed.

(** A device buckets can be taken from. *)
Definition usable (e : engine) (dev : Z) : Prop :=
  dev < f_nr_devices (e_fs e) /\ m_bucket_size (sb_member_get (e_fs e) dev) <> 0 /\ bch2_member_alive (sb_member_get (e_fs e) dev) = true /\ dev ∈ rw_devs e.

Lemma allocate_usable e dev evs : usable e dev -> allocate_bucket e dev evs =
  match find (allocatable (e_fs e) dev (sb_member_get (e_fs e) dev)) (scan_raw_locked (e_fs e) 4) with
  | None => Some (e, Err (Transaction (-28)))
  | Some k => finish e (POS (inode (kv_pos k)) (offset (kv_pos k))) (retry_loop (fun c =>
        us ← update_alloc c (kv_pos k) (set_data_type (read_alloc (kv_v k)) BCH_DATA_BTREE);
        us ← bch2_btree_bit_mod c us BTREE_ID_FREESPACE (alloc_freespace_pos (kv_pos k) (read_alloc (kv_v k))) false;
        Some (us, 0)) bch2_trans_commit is_restart (e_fs e) evs)
  end.
Proof.
  intros (Hd & Hb & Ha & Hrw). unfold allocate_bucket. rewrite (proj2 (Z.leb_gt _ _)) by lia. rewrite (proj2 (Z.eqb_neq _ _)), Ha, bool_decide_true by done. done.
Qed.

Lemma allocate_complete e dev evs : inv e -> usable e dev -> Forall restart_event evs -> restarts_left (e_fs e) < Z.of_nat (proceeds evs) ->
  (exists p, free_bucket (e_fs e) dev p) -> exists e' p, allocate_bucket e dev evs = Some (e', Ok p).
Proof.
  intros [Hc Hco _] Hu Hev Hn [p Hp]. rewrite allocate_usable by done. destruct (find _ _) as [k|] eqn:Ef; [|by destruct (no_free _ _ Hc Hco Ef p)].
  destruct (first_free _ _ _ Hc Hco Ef) as (Hk & (a & Ha & _) & _). destruct (alloc_at_wf _ _ _ Hc Ha) as (_ & Hw & _ & Ho).
  rewrite (retry_loop_ext _ (stage_of (bucket_keys (kv_pos k) (set_data_type (read_alloc (kv_v k)) BCH_DATA_BTREE) (alloc_freespace_pos (kv_pos k) (read_alloc (kv_v k))) false None))) by (intros c0; apply stage_two).
  destruct (retry_success bch2_trans_commit commit_commits (bucket_keys (kv_pos k) (set_data_type (read_alloc (kv_v k)) BCH_DATA_BTREE) (alloc_freespace_pos (kv_pos k) (read_alloc (kv_v k))) false None))
    with (evs := evs) (c := e_fs e) as (c' & -> & _).
  - apply bucket_keys_ok; [done|]. apply freespace_wf; [done|lia].
  - cbn. unfold BTREE_ITER_INITIAL. lia.
  - apply Hc.
  - by apply bucket_keys_plain.
  - done.
  - done.
  - by eexists _, _.
Qed.

(** *** Reclaiming and discarding *)

(** Nothing points into the bucket. *)
Definition unreferenced (c : fs) (p : bpos) : Prop :=
  let size := m_bucket_size (sb_member_get c (inode p)) in
  forall q k, f_trees c !! (8, q) = Some k -> kv_type k = KEY_TYPE_backpointer -> inode q = inode p -> offset q < MAX 64 -> ~ (offset p * size <= offset q < (offset p + 1) * size).

(** When a bucket may be reclaimed. *)
Record reclaimable (e : engine) (p : bpos) (old : bch_alloc_v4) : Prop := {
  rc_closed : bucket_slot p ∉ open_buckets e;
  rc_rw : inode p ∈ rw_devs e;
  rc_refs : unreferenced (e_fs e) p;
  rc_empty : dirty_sectors old = 0 /\ cached_sectors old = 0;
  rc_member : m_first_bucket (sb_member_get (e_fs e) (inode p)) <= offset p < m_nbuckets (sb_member_get (e_fs e) (inode p));
  rc_durable : data_type old = BCH_DATA_NEED_DISCARD -> journal_seq_empty old <= f_last_seq_ondisk (e_fs e)
}.

Lemma reclaimed_wf a : alloc_wf a -> alloc_wf (reclaimed a).
Proof.
  intros H. unfold reclaimed. destruct (data_type a =? BCH_DATA_NEED_DISCARD); cbn [negb]; [by apply set_data_wf|].
  destruct a as [jn fl g og dt sr ds cs io rc ne je ss pd]. unfold alloc_wf, in_range, wadd in *. cbn [set_gens set_data_type journal_seq_nonempty a_flags gen oldest_gen data_type
    stripe_redundancy_obsolete dirty_sectors cached_sectors io_time stripe_refcount nr_external_backpointers journal_seq_empty stripe_sectors a_pad] in *.
  pose proof (Z.mod_pos_bound (g + 1) (2 ^ 8) ltac:(lia)). pose proof (Z.mod_pos_bound (og + 1) (2 ^ 8) ltac:(lia)). unfold BCH_DATA_NEED_DISCARD.
  destruct (og =? g); intuition lia.
Qed.

Lemma reclaimed_type a : data_type (reclaimed a) = if data_type a =? BCH_DATA_NEED_DISCARD then BCH_DATA_FREE else BCH_DATA_NEED_DISCARD.
Proof. unfold reclaimed. by destruct (data_type a =? BCH_DATA_NEED_DISCARD). Qed.

Definition reclaim_keys (p : bpos) (old : bch_alloc_v4) : list (Z * kv) :=
  let free := bool_decide (data_type (reclaimed old) = BCH_DATA_FREE) in
  bucket_keys p (reclaimed old) (if free then alloc_freespace_pos p (reclaimed old) else alloc_freespace_pos p old) free
    (Some (bool_decide (data_type (reclaimed old) = BCH_DATA_NEED_DISCARD))).

Lemma stage_reclaim_keys p old c : stage_reclaim p old (reclaimed old) c = stage_of (reclaim_keys p old) c.
Proof.
  unfold stage_reclaim, reclaim_keys. rewrite reclaimed_type. destruct (data_type old =? BCH_DATA_NEED_DISCARD); rewrite <- stage_three; [|].
  - destruct (update_alloc c p (reclaimed old)); done.
  - destruct (update_alloc c p (reclaimed old)); done.
Qed.

Lemma find_alloc_ok c p k : buckets_wf c -> find_alloc c p = Some k -> f_trees c !! (4, p) = Some k /\ kv_pos k = p /\ alloc_at c p = Some (read_alloc (kv_v k)).
Proof.
  intros Hc Hf. apply find_some in Hf as [Hk H]. apply andb_true_iff in H as [Ha Hp]. apply bool_decide_eq_true in Hp. apply list_elem_of_In, scan_in in Hk; [|done|by left].
  rewrite Hp in Hk. split; [done|]. split; [done|]. by rewrite (is_alloc_at _ _ _ Hk), Ha.
Qed.

Lemma find_alloc_some c p a : buckets_wf c -> alloc_at c p = Some a -> exists k, find_alloc c p = Some k /\ read_alloc (kv_v k) = a.
Proof.
  intros Hc Ha. pose proof Ha as Hk. apply alloc_at_key in Hk as (k & Hk & Hka & Hv). destruct (bw_trees _ Hc _ _ _ Hk) as (Hp & _). destruct (find_alloc c p) as [k'|] eqn:Ef.
  - apply find_alloc_ok in Ef as (_ & _ & E); [|done]. exists k'. split; [done|]. congruence.
  - assert (k ∈ scan_raw_locked c 4) as Hin by (apply scan_in; [done|by left|by rewrite Hp]).
    pose proof (find_none _ _ Ef k (proj1 (list_elem_of_In _ _) Hin)) as Hn. cbn in Hn. by rewrite Hka, bool_decide_true in Hn.
Qed.

Lemma no_backpointer c p : buckets_wf c -> 0 <= offset p -> 0 <= m_bucket_size (sb_member_get c (inode p)) -> has_backpointer c p (sb_member_get c (inode p)) = false -> unreferenced c p.
Proof.
  intros Hc Hp Hs H q k Hk Ht Hi Hm Hr. destruct (bw_trees _ Hc _ _ _ Hk) as (Hkp & _). assert (k ∈ scan_raw_locked c 8) as Hin by (apply scan_in; [done|by do 3 right|by rewrite Hkp]).
  apply not_true_iff_false in H. apply H, existsb_exists. exists k. split; [by apply list_elem_of_In|]. rewrite Hkp, Hi, Ht, !Z.eqb_refl. cbn [andb].
  unfold saturating_add, saturating_mul. apply andb_true_iff. split; [apply Z.leb_le|apply Z.ltb_lt]; nia.
Qed.

Lemma reclaim_ok e p evs e' r : inv e -> Forall event_ok evs -> reclaim_bucket e p evs = Some (e', r) ->
  same_engine e e' /\ buckets_wf (e_fs e') /\ same_env (e_fs e) (e_fs e') /\ restarts_left (e_fs e') <= restarts_left (e_fs e) /\
  match r with
  | Ok _ => exists old, alloc_at (e_fs e) p = Some old /\ reclaimable e p old /\ moved (e_fs e) (e_fs e') p old (reclaimed old)
  | Err _ => forallb (fun ev => negb (is_split ev)) evs = true -> f_trees (e_fs e') = f_trees (e_fs e)
  end.
Proof.
  intros [Hc Hco Hs] Hev. unfold reclaim_bucket. destruct (_ <=? inode p); [intros [= <- <-]; done|]. destruct (_ =? 0); [intros [= <- <-]; done|].
  destruct (_ || _) eqn:Er; [intros [= <- <-]; done|]. apply orb_false_iff in Er as [Er1 Er2]. apply Z.ltb_ge in Er1. apply Z.leb_gt in Er2.
  destruct (bool_decide (bucket_slot p ∈ open_buckets e)) eqn:Eo; [intros [= <- <-]; done|]. apply bool_decide_eq_false in Eo.
  destruct (bool_decide (inode p ∈ rw_devs e)) eqn:Erw; cbn [negb]; [|intros [= <- <-]; done]. apply bool_decide_eq_true in Erw.
  destruct (has_backpointer _ _ _) eqn:Eb; [intros [= <- <-]; done|].
  destruct (find_alloc _ _) as [k|] eqn:Ef; [|intros [= <- <-]; done]. apply find_alloc_ok in Ef as (Hk & Hkp & Ha); [|done]. set (old := read_alloc (kv_v k)) in *.
  destruct (alloc_at_wf _ _ _ Hc Ha) as (_ & _ & Hw & Ho). apply no_backpointer in Eb; [|done|lia|apply Hs].
  destruct (negb (dirty_sectors old =? 0) || negb (cached_sectors old =? 0)) eqn:Ed; [intros [= <- <-]; done|]. apply orb_false_iff in Ed as [Ed1 Ed2]. apply negb_false_iff, Z.eqb_eq in Ed1, Ed2.
  destruct ((data_type old =? BCH_DATA_NEED_DISCARD) && _) eqn:Ej; [intros [= <- <-]; done|].
  intros E. apply finish_some in E as (c' & ret & E & [= -> ->]). rewrite Hkp in E.
  rewrite (retry_loop_ext _ (stage_of (reclaim_keys p old))) in E by (intros c0; apply stage_reclaim_keys).
  assert (bool_decide (data_type (reclaimed old) = BCH_DATA_FREE) = true -> data_type old <> BCH_DATA_FREE) as Hfree.
  { rewrite bool_decide_eq_true, reclaimed_type. destruct (Z.eqb_spec (data_type old) BCH_DATA_NEED_DISCARD) as [->|]; done. }
  destruct (bucket_loop discard_commit _ p old (reclaimed old) (bool_decide (data_type (reclaimed old) = BCH_DATA_FREE))
    (Some (bool_decide (data_type (reclaimed old) = BCH_DATA_NEED_DISCARD))) _ _ _ discard_commits Hc Hco Ha (reclaimed_wf _ Hw) eq_refl Hfree eq_refl Hev E) as (H1 & H2 & Hl & H3 & H4).
  do 4 (split; [done|]). destruct (Z.eqb_spec ret 0) as [->|Hne]; [|by apply H4]. exists old. split; [done|]. split; [|by apply H3].
  constructor; try done. intros Ht. rewrite (proj2 (Z.eqb_eq _ _) Ht) in Ej. cbn in Ej. apply Z.ltb_ge in Ej. done.
Qed.
