(* ===== verification/BucketOps.v ===== *)
(** * The operations on buckets, and the worker of discards

    The theorems on what every operation of [Buckets] does: allocation takes
    the first free bucket, reclaiming frees no bucket in use, the worker empties
    its queue, and after any of them the indexes agree with the buckets. *)

From stdpp Require Import base tactics list option gmap sorting.
From Stdlib Require Import ZArith Lia.
From S2P Require Import Superblock Prelude Bpos BkeyPack Extents ExtentKeys AllocKeys Trans TransFacts TransCommit Buckets BucketFacts.

Open Scope Z_scope.

Definition no_split (evs : list commit_event) : bool := forallb (fun ev => negb (is_split ev)) evs.

(** Attempts that restart, and succeed in the end. *)
Definition attempts_ok (c : fs) (evs : list commit_event) : Prop := Forall restart_event evs /\ restarts_left c < Z.of_nat (proceeds evs).

Lemma restart_events_ok evs : Forall restart_event evs -> Forall event_ok evs.
Proof. intros H. eapply Forall_impl; [exact H|]. intros [|r|n s|]; cbn; lia || done. Qed.

(** ** What stays *)

Lemma env_members c c' dev : same_env c c' -> sb_member_get c' dev = sb_member_get c dev.
Proof. intros (_ & Hm & _). unfold sb_member_get. by rewrite Hm. Qed.

Lemma same_trees c c' : f_trees c' = f_trees c -> (buckets_wf c -> buckets_wf c') /\ (consistent c -> consistent c').
Proof.
  intros E. assert (forall b p, is_set c' b p <-> is_set c b p) as Hs by (intros b p; unfold is_set; by rewrite E).
  assert (forall p, alloc_at c' p = alloc_at c p) as Ha by (intros p; unfold alloc_at; by rewrite E). split.
  - intros [H1 H2 H3]. constructor; [intros b p k; rewrite E; apply H1|intros b p k; rewrite E; apply H2|intros p k; rewrite E; apply H3].
  - intros [H1 H2]. constructor; intros q; rewrite Hs; [rewrite H1|rewrite H2]; by setoid_rewrite Ha.
Qed.

Lemma keep_inv e e' : inv e -> buckets_wf (e_fs e') -> same_env (e_fs e) (e_fs e') -> (consistent (e_fs e')) -> inv e'.
Proof. intros [H1 H2 H3] Hw Henv Hc. constructor; [done|done|]. intros dev. by rewrite (env_members _ _ dev Henv). Qed.

Lemma inv_fs e e' : e_fs e' = e_fs e -> inv e -> inv e'.
Proof. intros E [H1 H2 H3]. constructor; by rewrite E. Qed.

Lemma allocate_inv e dev evs e' r : inv e -> Forall event_ok evs -> no_split evs = true -> allocate_bucket e dev evs = Some (e', r) -> inv e' /\ same_engine e e'.
Proof.
  intros Hi Hev Hn E. destruct (allocate_ok e dev evs e' r Hi Hev E) as (Hs & Hw & Henv & Hr). split; [|done]. eapply keep_inv; [done|done|done|].
  destruct r as [p|err]; [by destruct Hr as (_ & _ & _ & old & _ & [])|]. apply (same_trees (e_fs e)); [by apply Hr|apply Hi].
Qed.

Lemma reclaim_inv e p evs e' r : inv e -> Forall event_ok evs -> no_split evs = true -> reclaim_bucket e p evs = Some (e', r) -> inv e' /\ same_engine e e'.
Proof.
  intros Hi Hev Hn E. destruct (reclaim_ok e p evs e' r Hi Hev E) as (Hs & Hw & Henv & _ & Hr). split; [|done]. eapply keep_inv; [done|done|done|].
  destruct r as [[]|err]; [by destruct Hr as (old & _ & _ & [])|]. apply (same_trees (e_fs e)); [by apply Hr|apply Hi].
Qed.

(** ** Discarding *)

Lemma discard_ok e p evs e' r : inv e -> Forall event_ok evs -> discard_bucket e p evs = Some (e', r) ->
  same_engine e e' /\ buckets_wf (e_fs e') /\ same_env (e_fs e) (e_fs e') /\ restarts_left (e_fs e') <= restarts_left (e_fs e) /\
  match r with
  | Ok _ => exists old, alloc_at (e_fs e) p = Some old /\ data_type old = BCH_DATA_NEED_DISCARD /\ reclaimable e p old /\
      moved (e_fs e) (e_fs e') p old (set_data_type old BCH_DATA_FREE)
  | Err _ => no_split evs = true -> f_trees (e_fs e') = f_trees (e_fs e)
  end.
Proof.
  intros Hi Hev. pose proof (i_wf _ Hi) as Hc. unfold discard_bucket. destruct (_ <=? inode p); [intros [= <- <-]; done|]. destruct (find_alloc _ _) as [k|] eqn:Ef; [|intros [= <- <-]; done].
  destruct (negb (data_type _ =? _) || _) eqn:Ed; [intros [= <- <-]; done|]. apply orb_false_iff in Ed as [Ed _]. apply negb_false_iff, Z.eqb_eq in Ed.
  destruct (bool_decide _); [intros [= <- <-]; done|]. destruct (negb _); [intros [= <- <-]; done|]. intros E.
  destruct (reclaim_ok e p evs e' r Hi Hev E) as (Hs & Hw & Henv & Hl & Hr). do 4 (split; [done|]). destruct r as [[]|err]; [|done].
  destruct Hr as (old & Ha & Hrc & Hm). apply find_alloc_ok in Ef as (_ & _ & Ha'); [|apply Hi]. rewrite Ha in Ha'. injection Ha' as Ha'. rewrite <- Ha' in Ed. exists old.
  do 3 (split; [done|]). unfold reclaimed in Hm. by rewrite Ed in Hm.
Qed.

Lemma discard_inv e p evs e' r : inv e -> Forall event_ok evs -> no_split evs = true -> discard_bucket e p evs = Some (e', r) -> inv e' /\ same_engine e e'.
Proof.
  intros Hi Hev Hn E. destruct (discard_ok e p evs e' r Hi Hev E) as (Hs & Hw & Henv & _ & Hr). split; [|done]. eapply keep_inv; [done|done|done|].
  destruct r as [[]|err]; [by destruct Hr as (old & _ & _ & _ & [])|]. apply (same_trees (e_fs e)); [by apply Hr|apply Hi].
Qed.

(** A bucket the worker can free. *)
Definition ready (e : engine) (p : bpos) : Prop :=
  inode p < f_nr_devices (e_fs e) /\ m_bucket_size (sb_member_get (e_fs e) (inode p)) <> 0 /\
  exists a, alloc_at (e_fs e) p = Some a /\ data_type a = BCH_DATA_NEED_DISCARD /\ reclaimable e p a.

Lemma unreferenced_has c p : buckets_wf c -> unreferenced c p -> has_backpointer c p (sb_member_get c (inode p)) = false.
Proof.
  intros Hc Hu. apply not_true_iff_false. intros H. apply existsb_exists in H as (k & Hk & H). apply list_elem_of_In, scan_in in Hk; [|done|by do 3 right].
  rewrite !andb_true_iff, !Z.eqb_eq, Z.leb_le, Z.ltb_lt in H. destruct H as (((Ht & Hi) & H1) & H2). unfold saturating_add, saturating_mul in *.
  apply (Hu (kv_pos k) k Hk Ht Hi); lia.
Qed.

Lemma discard_ready e p evs : inv e -> ready e p -> attempts_ok (e_fs e) evs -> exists e', discard_bucket e p evs = Some (e', Ok tt).
Proof.
  intros Hi (Hd & Hb & a & Ha & Ht & [R1 R2 R3 [R4 R5] R6 R7]) [Hev Hn]. pose proof (i_wf _ Hi) as Hc. destruct (find_alloc_some _ _ _ Hc Ha) as (k & Ef & Ek).
  specialize (R7 Ht). unfold discard_bucket, reclaim_bucket. rewrite Ef, Ek, (unreferenced_has _ _ Hc R3), R4, R5, Ht.
  rewrite !(proj2 (Z.leb_gt _ _)), (proj2 (Z.ltb_ge _ _)), (proj2 (Z.ltb_ge _ _)), (bool_decide_false _ R1), (bool_decide_true _ R2), (proj2 (Z.eqb_neq _ _) Hb) by lia.
  change (BCH_DATA_NEED_DISCARD =? BCH_DATA_NEED_DISCARD) with true. cbn [negb orb andb Z.eqb].
  destruct (alloc_at_wf _ _ _ Hc Ha) as (_ & Hw & _ & Ho). destruct (find_alloc_ok _ _ _ Hc Ef) as (_ & -> & _).
  rewrite (retry_loop_ext _ (stage_of (reclaim_keys p a))) by (intros c0; apply stage_reclaim_keys).
  destruct (retry_success discard_commit discard_commits (reclaim_keys p a)) with (evs := evs) (c := e_fs e) as (c' & -> & _).
  - apply bucket_keys_ok; [done|]. destruct (bool_decide _); apply freespace_wf; done || lia.
  - cbn. unfold BTREE_ITER_INITIAL. lia.
  - apply Hc.
  - by apply bucket_keys_plain.
  - done.
  - done.
  - by eexists.
Qed.

(** ** The queue *)

Definition queue_ok (e : engine) : Prop := NoDup (discard_queue e) /\ forall p, p ∈ discard_inflight e <-> p ∈ discard_queue e.

Lemma queue_discard_ok e p : queue_ok e -> queue_ok (queue_discard_bucket e p).1 /\ e_fs (queue_discard_bucket e p).1 = e_fs e /\
  (bucket_slot p ∈ discard_queue (queue_discard_bucket e p).1).
Proof.
  intros [Hn Hi]. unfold queue_discard_bucket. case_bool_decide as Hp; cbn [fst].
  - split; [done|]. split; [done|]. by apply Hi.
  - split; [|split; [done|]].
    + rewrite Hi in Hp. split; cbn.
      * apply list.NoDup_app. split; [done|]. split; [|apply NoDup_singleton]. intros x Hx Hx'. apply list_elem_of_singleton in Hx' as ->. done.
      * intros x. rewrite elem_of_union, elem_of_singleton, elem_of_app, list_elem_of_singleton, Hi. tauto.
    + cbn. apply elem_of_app. right. apply list_elem_of_here.
Qed.

Lemma discover_ok ps : forall e n, queue_ok e ->
  let r := fold_left discover_step ps (e, n) in
  queue_ok r.1 /\ e_fs r.1 = e_fs e /\ (exists new, discard_queue r.1 = discard_queue e ++ new /\ r.2 = n + Z.of_nat (length new)) /\
  (forall p, p ∈ discard_queue r.1 <-> p ∈ discard_queue e \/ p ∈ ps).
Proof.
  induction ps as [|p ps IH]; intros e n Hq; cbn [fold_left].
  { split; [done|]. split; [done|]. split; [exists []; rewrite app_nil_r; split; [done|cbn; lia]|]. intros p. cbn. split; [by left|]. intros [H|H]; [done|by apply not_elem_of_nil in H]. }
  cbn [discover_step]. destruct Hq as [Hn Hi]. case_bool_decide as Hp.
  - destruct (IH e n (conj Hn Hi)) as (H1 & H2 & H3 & H4). do 3 (split; [done|]). intros q. rewrite H4, elem_of_cons. apply Hi in Hp. split; [tauto|]. intros [H|[->|H]]; tauto.
  - assert (queue_ok (with_queue e (discard_queue e ++ [p]) ({[p]} ∪ discard_inflight e))) as Hq'.
    { rewrite Hi in Hp. split; cbn.
      - apply list.NoDup_app. split; [done|]. split; [|apply NoDup_singleton]. intros x Hx Hx'. apply list_elem_of_singleton in Hx' as ->. done.
      - intros x. rewrite elem_of_union, elem_of_singleton, elem_of_app, list_elem_of_singleton, Hi. tauto. }
    destruct (IH _ (n + 1) Hq') as (H1 & H2 & (new & H3 & H3') & H4). split; [done|]. split; [by rewrite H2|]. split.
    + exists (p :: new). split; [by rewrite H3; cbn; rewrite <- app_assoc|]. rewrite H3'. cbn [length]. lia.
    + intros q. rewrite H4. cbn [with_queue discard_queue]. rewrite elem_of_app, list_elem_of_singleton, elem_of_cons. tauto.
Qed.

(** *** The worker *)

Lemma inv_queue e q s : inv e -> inv (with_queue e q s).
Proof. by apply inv_fs. Qed.

(** The parts the worker does not change. *)
Definition same_claims (e e' : engine) : Prop := open_buckets e' = open_buckets e /\ rw_devs e' = rw_devs e.

Lemma discard_first_ok e p q ev e' r : inv e -> queue_ok e -> discard_queue e = p :: q -> Forall event_ok ev -> no_split ev = true ->
  discard_first e p q ev = Some (e', r) ->
  inv e' /\ queue_ok e' /\ discard_queue e' = q ++ (if is_again r then [p] else []) /\ same_claims e e' /\ restarts_left (e_fs e') <= restarts_left (e_fs e).
Proof.
  intros Hi [Hn Hq] Eq Hev Hs. unfold discard_first. destruct (discard_bucket _ _ _) as [[e1 r1]|] eqn:E; [cbn [mbind option_bind]|done].
  pose proof (inv_queue e q (discard_inflight e) Hi) as Hi1. destruct (discard_inv _ _ _ _ _ Hi1 Hev Hs E) as (Hi' & (Hsq & Hsi & Hso & Hsr)).
  destruct (discard_ok _ _ _ _ _ Hi1 Hev E) as (_ & _ & _ & Hl & _). cbn in Hsq, Hsi, Hso, Hsr, Hl. rewrite Eq in Hn, Hq. apply list.NoDup_cons in Hn as [Hp Hn].
  destruct (is_again r1) eqn:Ea; intros [= <- <-]; rewrite Ea; (split; [by apply inv_queue|]); (split; [|by split; [cbn; rewrite Hsq, ?app_nil_r|]]); split; cbn; rewrite Hsq, ?Hsi.
  - apply list.NoDup_app. split; [done|]. split; [|apply NoDup_singleton]. intros x Hx Hx'. apply list_elem_of_singleton in Hx' as ->. done.
  - intros x. rewrite Hq, elem_of_cons, elem_of_app, list_elem_of_singleton. tauto.
  - done.
  - intros x. rewrite elem_of_difference, elem_of_singleton, Hq, elem_of_cons. split; [tauto|]. intros Hx. split; [by right|]. intros ->. done.
Qed.

(** A pass takes every bucket queued at its start once; what stays is behind
    the others, in order. *)
Lemma discard_pass_ok l : forall acc e deferred evs e' r evs', inv e -> queue_ok e -> discard_queue e = l ++ acc -> Forall (fun ev => Forall event_ok ev /\ no_split ev = true) evs ->
  discard_pass (length l) e deferred evs = Some (e', r, evs') ->
  inv e' /\ queue_ok e' /\ same_claims e e' /\ (exists used, evs = used ++ evs') /\
  match r with
  | Ok d => exists kept, kept `sublist_of` l /\ discard_queue e' = acc ++ kept /\ d = deferred || negb (length kept =? 0)%nat
  | Err err => is_again (@Err bool err) = false
  end.
Proof.
  induction l as [|p l IH]; intros acc e deferred evs e' r evs' Hi Hq Eq Hev; cbn [length discard_pass app] in *.
  { intros [= <- <- <-]. do 3 (split; [done|]). split; [by exists []|]. exists []. split; [done|]. rewrite app_nil_r. split; [done|]. cbn. by rewrite orb_false_r. }
  rewrite Eq. destruct evs as [|ev evs]; [done|]. cbn [head mbind option_bind tail]. apply Forall_cons_1 in Hev as [[He Hs] Hev].
  destruct (discard_first e p (l ++ acc) ev) as [[e1 r1]|] eqn:E; [cbn [mbind option_bind]|done].
  destruct (discard_first_ok _ _ _ _ _ _ Hi Hq Eq He Hs E) as (Hi1 & Hq1 & Eq1 & Hc1 & _).
  assert (forall d' rest, discard_queue e1 = l ++ acc ++ rest -> discard_pass (length l) e1 d' evs = Some (e', r, evs') ->
    inv e' /\ queue_ok e' /\ same_claims e e' /\ (exists used, ev :: evs = used ++ evs') /\
    match r with Ok d => exists kept, kept `sublist_of` l /\ discard_queue e' = (acc ++ rest) ++ kept /\ d = d' || negb (length kept =? 0)%nat | Err err => is_again (@Err bool err) = false end) as Hrec.
  { intros d' rest Hqe Hp. destruct (IH (acc ++ rest) e1 d' evs e' r evs' Hi1 Hq1 Hqe Hev Hp) as (H1 & H2 & H3 & (used & ->) & H4).
    split; [done|]. split; [done|]. split; [unfold same_claims in *; intuition congruence|]. split; [by exists (ev :: used)|done]. }
  destruct r1 as [[]|err]; [|destruct (is_again (Err err)) eqn:Ea].
  - intros Hp. destruct (Hrec deferred []) as (H1 & H2 & H3 & H4 & H5); [by rewrite Eq1; cbn; rewrite !app_nil_r|done|]. do 4 (split; [done|]). rewrite app_nil_r in H5.
    destruct r; [|done]. destruct H5 as (kept & Hk & H5). exists kept. split; [by apply sublist_cons|done].
  - intros Hp. destruct (Hrec true [p]) as (H1 & H2 & H3 & H4 & H5); [by rewrite Eq1, <- app_assoc|done|]. do 4 (split; [done|]).
    destruct r; [|done]. destruct H5 as (kept & Hk & H5 & ->). exists (p :: kept). split; [by apply sublist_skip|]. split; [by rewrite H5, <- app_assoc|]. cbn. by rewrite orb_true_r.
  - intros [= <- <- <-]. do 3 (split; [done|]). split; [by exists [ev]|done].
Qed.

Lemma worker_ok fuel : forall e evs e' r, inv e -> queue_ok e -> Forall (fun ev => Forall event_ok ev /\ no_split ev = true) evs -> run_discard_worker fuel e evs = Some (e', r) ->
  inv e' /\ queue_ok e' /\ same_claims e e' /\ (r = Ok tt -> discard_queue e' = []) /\
  (r = Err (Transaction (-11)) -> discard_queue e' <> [] /\ discard_queue e' `sublist_of` discard_queue e).
Proof.
  induction fuel as [|fuel IH]; intros e evs e' r Hi Hq Hev; cbn [run_discard_worker]; [done|].
  destruct (length (discard_queue e) =? 0)%nat eqn:E0; [intros [= <- <-]; apply Nat.eqb_eq, nil_length_inv in E0; done|].
  destruct (discard_pass _ _ _ _) as [[[e1 r1] evs1]|] eqn:Ep; [cbn [mbind option_bind]|done].
  destruct (discard_pass_ok _ [] _ _ _ _ _ _ Hi Hq ltac:(by rewrite app_nil_r) Hev Ep) as (Hi1 & Hq1 & Hc1 & (used & ->) & Hr). apply Forall_app in Hev as [_ Hev].
  destruct r1 as [[]|err].
  - intros [= <- <-]. do 3 (split; [done|]). split; [done|]. intros _. destruct Hr as (kept & Hk & Ek & Hd). cbn in Ek. rewrite Ek. split; [|done]. intros ->. done.
  - destruct Hr as (kept & Hk & Ek & Hd). cbn in Ek, Hd. symmetry in Hd. apply negb_false_iff, Nat.eqb_eq, nil_length_inv in Hd as ->. intros E.
    destruct (IH _ _ _ _ Hi1 Hq1 Hev E) as (H1 & H2 & H3 & H4 & H5). split; [done|]. split; [done|]. split; [unfold same_claims in *; intuition congruence|].
    split; [done|]. intros Hr. destruct (H5 Hr) as [Hne Hsub]. rewrite Ek in Hsub. by apply sublist_nil_r in Hsub.
  - intros [= <- <-]. do 3 (split; [done|]). split; [done|]. intros [= ->]. done.
Qed.

(** *** When every bucket is ready *)

Lemma reclaimable_moved e e' p a p1 old new : same_env (e_fs e) (e_fs e') -> same_claims e e' -> moved (e_fs e) (e_fs e') p1 old new -> reclaimable e p a -> reclaimable e' p a.
Proof.
  intros Henv [Ho Hr] Hm [H1 H2 H3 H4 H5 H6]. pose proof Henv as (_ & _ & _ & _ & Hl). constructor; try done; rewrite ?Ho, ?Hr, ?Hl, ?(env_members _ _ _ Henv); try done.
  intros q k. rewrite (mv_refs _ _ _ _ _ Hm), (env_members _ _ _ Henv). apply H3.
Qed.

Lemma ready_moved e e' p p1 old new : same_env (e_fs e) (e_fs e') -> same_claims e e' -> moved (e_fs e) (e_fs e') p1 old new -> p <> p1 -> ready e p -> ready e' p.
Proof.
  intros Henv Hc Hm Hne (H1 & H2 & a & Ha & Ht & Hr). pose proof Henv as (Hn & _). unfold ready. rewrite Hn, (env_members _ _ _ Henv). split; [done|]. split; [done|].
  exists a. rewrite (mv_alloc _ _ _ _ _ Hm), decide_False by done. split; [done|]. split; [done|]. by eapply reclaimable_moved.
Qed.

Lemma ready_queue e q s p : ready e p -> ready (with_queue e q s) p.
Proof. intros (H1 & H2 & a & H3 & H4 & [R1 R2 R3 R4 R5 R6]). split; [done|]. split; [done|]. by exists a. Qed.

Definition bucket_pos (p : Z * Z) : bpos := POS p.1 p.2.

(** The buckets of [l] are free, the others as before. *)
Definition freed (c c' : fs) (l : list (Z * Z)) : Prop := forall p, alloc_at c' p =
  if decide (snapshot p = 0 /\ bucket_slot p ∈ l) then match alloc_at c p with Some a => Some (set_data_type a BCH_DATA_FREE) | None => None end else alloc_at c p.

Lemma pass_completes l : forall e evs, inv e -> queue_ok e -> discard_queue e = l -> Forall (fun p => ready e (bucket_pos p)) l ->
  (length l <= length evs)%nat -> Forall (attempts_ok (e_fs e)) evs ->
  exists e' evs', discard_pass (length l) e false evs = Some (e', Ok false, evs') /\ inv e' /\ discard_queue e' = [] /\ freed (e_fs e) (e_fs e') l /\ discard_inflight e' = ∅.
Proof.
  induction l as [|p l IH]; intros e evs Hi [Hn Hq] Eq Hr Hl Hev; cbn [length discard_pass].
  { exists e, evs. split; [done|]. split; [done|]. split; [done|]. split; [|apply set_eq; intros x; rewrite Hq, Eq; set_solver].
    intros q. rewrite decide_False; [done|]. intros [_ H]. by apply not_elem_of_nil in H. }
  rewrite Eq. destruct evs as [|ev evs]; [cbn in Hl; lia|]. cbn [head mbind option_bind tail]. apply Forall_cons_1 in Hev as [He Hev]. apply Forall_cons_1 in Hr as [Hp Hr].
  unfold discard_first. pose proof (inv_queue e l (discard_inflight e) Hi) as Hi1.
  destruct (discard_ready (with_queue e l (discard_inflight e)) (bucket_pos p) ev Hi1 (ready_queue _ _ _ _ Hp) He) as (e1 & E). unfold bucket_pos in E. rewrite E. cbn [mbind option_bind is_again].
  destruct (discard_ok _ _ _ _ _ Hi1 (restart_events_ok _ (proj1 He)) E) as ((Hsq & Hsi & Hso & Hsr) & Hw & Henv & Hleft & (old & Ha & Ht & Hrc & Hm)). cbn in Hsq, Hsi, Hso, Hsr, Hleft, Henv, Ha, Hm.
  rewrite Eq in Hn, Hq. apply list.NoDup_cons in Hn as [Hpn Hn]. set (e2 := with_queue e1 (discard_queue e1) (discard_inflight e1 ∖ {[p]})).
  assert (inv e2) as Hi2 by (eapply keep_inv; [exact Hi1|exact Hw|exact Henv|apply Hm]).
  destruct (IH e2 evs Hi2) as (e' & evs' & Ep & H1 & H2 & H3 & H4).
  - split; cbn; rewrite Hsq; [done|]. intros x. rewrite Hsi, elem_of_difference, elem_of_singleton, Hq, elem_of_cons. split; [tauto|]. intros Hx. split; [by right|]. intros ->. done.
  - done.
  - apply Forall_forall. intros x Hx. eapply (ready_moved e e2); [exact Henv|done|exact Hm| |by apply (proj1 (Forall_forall _ _) Hr)].
    intros Ex. destruct x, p. unfold bucket_pos in Ex. injection Ex as -> ->. done.
  - cbn in Hl. lia.
  - eapply Forall_impl; [exact Hev|]. intros x [Hx Hx']. split; [done|]. cbn. lia.
  - exists e', evs'. split; [done|]. split; [done|]. split; [done|]. split; [|done]. intros q. rewrite H3. cbn [e_fs e2 with_queue]. rewrite (mv_alloc _ _ _ _ _ Hm).
    destruct (decide (q = POS p.1 p.2)) as [->|Hne].
    + rewrite decide_False by (destruct p; cbn; tauto). rewrite decide_True by (split; [done|destruct p; apply list_elem_of_here]). by rewrite Ha.
    + destruct (decide (snapshot q = 0 /\ bucket_slot q ∈ l)) as [[Hs Hin]|Hnin]; [by rewrite decide_True by (split; [done|by apply list_elem_of_further])|].
      rewrite decide_False; [done|]. intros [Hs Hin]. apply elem_of_cons in Hin as [Es|Hin]; [|tauto]. apply Hne. rewrite <- Es. destruct q. cbn in *. by rewrite Hs.
Qed.

Lemma worker_completes fuel e evs : inv e -> queue_ok e -> Forall (fun p => ready e (bucket_pos p)) (discard_queue e) ->
  (length (discard_queue e) <= length evs)%nat -> Forall (attempts_ok (e_fs e)) evs -> (2 <= fuel)%nat ->
  exists e', run_discard_worker fuel e evs = Some (e', Ok tt) /\ discard_queue e' = [] /\ discard_inflight e' = ∅ /\ freed (e_fs e) (e_fs e') (discard_queue e) /\ inv e'.
Proof.
  intros Hi Hq Hr Hl Hev Hf. destruct fuel as [|[|fuel]]; [lia|lia|].
  destruct (pass_completes (discard_queue e) e evs Hi Hq eq_refl Hr Hl Hev) as (e' & evs' & Ep & H1 & H2 & H3 & H4).
  cbn [run_discard_worker]. destruct (length (discard_queue e) =? 0)%nat eqn:E0.
  - apply Nat.eqb_eq, nil_length_inv in E0. rewrite E0 in *. exists e. split; [done|]. split; [done|]. split; [apply set_eq; intros x; rewrite (proj2 Hq), E0; set_solver|].
    split; [|done]. intros q. rewrite decide_False; [done|]. intros [_ H]. by apply not_elem_of_nil in H.
  - rewrite Ep. cbn [mbind option_bind]. rewrite H2. cbn. by exists e'.
Qed.

(** ** A new free bucket *)

Lemma once_result commit ks c evs c' ret : commits commit -> Forall key_ok ks -> (length ks <= BTREE_ITER_INITIAL)%nat -> trees_wf c -> plain_at (f_trees c) ks -> Forall event_ok evs ->
  retry_loop (stage_of ks) commit (fun _ => false) c evs = Some (c', ret) -> loop_result c ks c' ret.
Proof.
  intros Hcm Hks Hlen Hc Hp. induction evs as [|ev evs IH]; intros Hev E; [done|]. apply Forall_cons_1 in Hev as [He Hev].
  destruct (decide (ev = Realloc)) as [->|Hne]; [by apply IH|].
  destruct (attempt_ok commit Hcm ks Hks Hlen c ev Hc Hp He Hne) as (us & c1 & r1 & Hs & Ec & Hr & _).
  assert (retry_loop (stage_of ks) commit (fun _ => false) c (ev :: evs) = Some (c1, r1)) as E'.
  { destruct ev; try done; cbn [retry_loop]; rewrite Hs; cbn [mbind option_bind]; cbn [Z.eqb]; by rewrite Ec. }
  rewrite E' in E. by injection E as <- <-.
Qed.

Lemma add_free_ok e off evs e' : inv e -> 0 <= off < 2 ^ 56 -> alloc_at (e_fs e) (POS 0 off) = None -> Forall event_ok evs -> add_free_bucket e off evs = Some e' ->
  inv e' /\ same_engine e e' /\ alloc_at (e_fs e') (POS 0 off) = Some alloc_default.
Proof.
  intros [Hc Hco Hm] Hoff Hnone Hev. set (p := POS 0 off) in *. unfold add_free_bucket.
  rewrite (retry_loop_ext _ (stage_of (bucket_keys p alloc_default (alloc_freespace_pos p alloc_default) true None))) by (intros c0; apply stage_two).
  destruct (retry_loop _ _ _ _ _) as [[c' ret]|] eqn:E; [cbn [mbind option_bind]|done]. destruct (assert (ret =? 0)) as [[]|] eqn:Ea; [cbn [mbind option_bind]|done].
  apply assert_true, Z.eqb_eq in Ea as ->. intros [= <-].
  assert (bpos_wf p) as Hp by (unfold p, bpos_wf, in_range; cbn; lia). destruct (freespace_wf p alloc_default Hp) as [Hf Hfs]; [cbn; lia|].
  apply (once_result bch2_trans_commit) in E as [Henv Hk Hdone Hwf _]; [|apply commit_commits|by apply bucket_keys_ok|cbn; unfold BTREE_ITER_INITIAL; lia|apply Hc|by apply bucket_keys_plain|done].
  specialize (Hdone eq_refl). assert (alloc_wf alloc_default) as Hd by done.
  assert (buckets_wf c') as Hc' by (eapply bucket_keys_wf; [exact Hc|exact Hp|done|cbn; lia|exact Hd|exact Hf|exact Hfs|exact Hwf|exact Hk]).
  pose proof (after_alloc _ c' p alloc_default _ true None Hdone Hd) as Ha. split; [|split; [done|by rewrite Ha, decide_True]].
  constructor; [done| |intros dev; cbn; by rewrite (env_members _ _ dev Henv)]. cbn [e_fs with_fs]. split; intros q.
  - rewrite (after_free _ c' p alloc_default _ true None Hdone). setoid_rewrite Ha. destruct (decide (q = alloc_freespace_pos p alloc_default)) as [->|Hne].
    + split; [intros _; exists p, alloc_default; by rewrite decide_True|done].
    + rewrite (co_free _ Hco). split; intros (p' & a' & H1 & H2 & ->); exists p', a'; (destruct (decide (p' = p)) as [->|]; [|done]); [congruence|]. injection H1 as <-. done.
  - rewrite (after_discard _ c' p alloc_default _ true None Hdone), Ha, (co_discard _ Hco). destruct (decide (q = p)) as [->|]; [|done].
    rewrite Hnone. split; [by intros (a & H & _)|]. intros (a & [= <-] & H). done.
Qed.

(** ** Theorems *)

(** An operation, with attempts that no split leaves half done. *)
Definition attempts (evs : list commit_event) : Prop := Forall event_ok evs /\ no_split evs = true.

Inductive bucket_step (e : engine) : engine -> Prop :=
  | StepAdd off evs e' : 0 <= off < 2 ^ 56 -> alloc_at (e_fs e) (POS 0 off) = None -> attempts evs -> add_free_bucket e off evs = Some e' -> bucket_step e e'
  | StepAllocate dev evs e' r : attempts evs -> allocate_bucket e dev evs = Some (e', r) -> bucket_step e e'
  | StepOpen p : bucket_step e (open_bucket e p)
  | StepClose p : bucket_step e (close_open_bucket e p)
  | StepRw dev rw : bucket_step e (set_device_rw e dev rw).1
  | StepReclaim p evs e' r : attempts evs -> reclaim_bucket e p evs = Some (e', r) -> bucket_step e e'
  | StepDiscard p evs e' r : attempts evs -> discard_bucket e p evs = Some (e', r) -> bucket_step e e'
  | StepQueue p : bucket_step e (queue_discard_bucket e p).1
  | StepDiscover : bucket_step e (discover_discard_buckets e).1
  | StepWorkerOnce evs e' r : attempts evs -> run_discard_worker_once e evs = Some (e', r) -> bucket_step e e'
  | StepWorker fuel evs e' r : Forall attempts evs -> run_discard_worker fuel e evs = Some (e', r) -> bucket_step e e'.

Lemma step_inv e e' : bucket_step e e' -> inv e -> queue_ok e -> inv e' /\ queue_ok e'.
Proof.
  assert (forall e1 e2, same_engine e1 e2 -> queue_ok e1 -> queue_ok e2) as Hqs.
  { intros e1 e2 (Hq & Hs & _) [H1 H2]. split; rewrite Hq; [done|]. by rewrite Hs. }
  intros [off evs e1 Ho Hn [Hev _] E|dev evs e1 r [Hev Hs] E|p|p|dev rw|p evs e1 r [Hev Hs] E|p evs e1 r [Hev Hs] E|p| |evs e1 r [Hev Hs] E|fuel evs e1 r Hev E] Hi Hq.
  - destruct (add_free_ok _ _ _ _ Hi Ho Hn Hev E) as (H1 & H2 & _). split; [done|]. by eapply Hqs.
  - destruct (allocate_inv _ _ _ _ _ Hi Hev Hs E) as [H1 H2]. split; [done|]. by eapply Hqs.
  - split; [by eapply (inv_fs e)|done].
  - split; [by eapply (inv_fs e)|done].
  - unfold set_device_rw. destruct rw; [split; [by eapply (inv_fs e)|done]|]. destruct (existsb _ _); [done|split; [by eapply (inv_fs e)|done]].
  - destruct (reclaim_inv _ _ _ _ _ Hi Hev Hs E) as [H1 H2]. split; [done|]. by eapply Hqs.
  - destruct (discard_inv _ _ _ _ _ Hi Hev Hs E) as [H1 H2]. split; [done|]. by eapply Hqs.
  - destruct (queue_discard_ok e p Hq) as (H1 & H2 & _). split; [by eapply inv_fs|done].
  - unfold discover_discard_buckets. destruct (discover_ok (map (fun k => bucket_slot (kv_pos k)) (List.filter is_set_key (scan_raw_locked (e_fs e) BTREE_ID_NEED_DISCARD))) e 0 Hq) as (H1 & H2 & _).
    split; [by eapply inv_fs|done].
  - unfold run_discard_worker_once in E. destruct (discard_queue e) as [|p q] eqn:Eq; [by injection E as <- _|].
    destruct (discard_first_ok _ _ _ _ _ _ Hi Hq Eq Hev Hs E) as (H1 & H2 & _). done.
  - destruct (worker_ok fuel e evs e1 r Hi Hq) as (H1 & H2 & _); [|done|done]. eapply Forall_impl; [exact Hev|]. by intros x [].
Qed.

(** the check of the bucket indexes passes exactly if the free space tree
    has the places of the free buckets and no others, and the discard tree the
    buckets that need a discard and no others. *)
Theorem verify_indexes_exact e : buckets_wf (e_fs e) -> verify_bucket_indexes e = Ok tt <-> consistent (e_fs e).
Proof. apply verify_consistent. Qed.

(** C12: whatever operations are done on buckets, in whatever order and however
    often their transactions are refused or restarted, as long as no leaf is
    split in the middle of a commit, the indexes agree with the buckets, and
    the queue of discards has every bucket of its set once; the check of the
    indexes passes in every state that is reached. *)
Theorem buckets_stay_consistent e e' : rtc bucket_step e e' -> inv e -> queue_ok e -> inv e' /\ queue_ok e' /\ verify_bucket_indexes e' = Ok tt.
Proof.
  intros H. induction H as [e|e e1 e' Hs _ IH]; intros Hi Hq.
  - split; [done|]. split; [done|]. apply verify_consistent; apply Hi.
  - destruct (step_inv e e1 Hs Hi Hq) as [Hi1 Hq1]. by apply IH.
Qed.

(** C14: on a writable device, with a transaction that only restarts,
    allocation takes the first free bucket, which then belongs to a btree and
    to no index, and changes no other; it refuses with -28 exactly if no bucket
    is free. *)
Theorem allocate_first_free e dev evs : inv e -> usable e dev -> attempts_ok (e_fs e) evs ->
  match allocate_bucket e dev evs with
  | Some (e', Ok p) => allocated e dev p e' /\ same_engine e e'
  | Some (e', Err err) => err = Transaction (-28) /\ e' = e /\ forall q, ~ free_bucket (e_fs e) dev q
  | None => False
  end.
Proof.
  intros Hi Hu [Hev Hn]. pose proof Hi as [Hc Hco _]. destruct (find (allocatable (e_fs e) dev (sb_member_get (e_fs e) dev)) (scan_raw_locked (e_fs e) 4)) as [k|] eqn:Ef.
  - destruct (first_free _ _ _ Hc Hco Ef) as (_ & Hfree & _).
    destruct (allocate_complete e dev evs Hi Hu Hev Hn ltac:(by eexists)) as (e' & p & E). rewrite E.
    destruct (allocate_ok _ _ _ _ _ Hi (restart_events_ok _ Hev) E) as (Hs & _ & _ & Ha). done.
  - rewrite (allocate_usable _ _ _ Hu), Ef. split; [done|]. split; [done|]. by apply no_free.
Qed.

(** C13: a bucket changes its state by reclaiming only if nobody has it open,
    its device is writable, no backpointer points into it and it has no dirty
    or cached sectors; and then a bucket that did not wait for a discard waits
    for one under the next generation, and one that did, durably, is free.  No
    other bucket changes, and the indexes follow.  A refusal changes nothing. *)
Theorem reclaim_frees_unused e p evs e' r : inv e -> attempts evs -> reclaim_bucket e p evs = Some (e', r) ->
  same_engine e e' /\
  match r with
  | Ok _ => exists old, alloc_at (e_fs e) p = Some old /\ reclaimable e p old /\ moved (e_fs e) (e_fs e') p old (reclaimed old) /\
      (data_type old <> BCH_DATA_NEED_DISCARD -> data_type (reclaimed old) = BCH_DATA_NEED_DISCARD /\ gen (reclaimed old) = (gen old + 1) mod 2 ^ 8) /\
      (data_type old = BCH_DATA_NEED_DISCARD -> reclaimed old = set_data_type old BCH_DATA_FREE)
  | Err _ => f_trees (e_fs e') = f_trees (e_fs e)
  end.
Proof.
  intros Hi [Hev Hs] E. destruct (reclaim_ok e p evs e' r Hi Hev E) as (H1 & _ & _ & _ & H2). split; [done|]. destruct r as [[]|err]; [|by apply H2].
  destruct H2 as (old & Ha & Hr & Hm). exists old. do 3 (split; [done|]). split.
  - intros Ht. unfold reclaimed. rewrite (proj2 (Z.eqb_neq _ _) Ht). done.
  - intros Ht. unfold reclaimed. by rewrite Ht.
Qed.

(** C15: if every bucket of the queue can be freed and its transaction only
    restarts, the worker of discards ends, its queue is empty, and exactly the
    queued buckets have become free. *)
Theorem discard_worker_completes fuel e evs : inv e -> queue_ok e -> Forall (fun p => ready e (bucket_pos p)) (discard_queue e) ->
  (length (discard_queue e) <= length evs)%nat -> Forall (attempts_ok (e_fs e)) evs -> (2 <= fuel)%nat ->
  exists e', run_discard_worker fuel e evs = Some (e', Ok tt) /\ discard_queue e' = [] /\ discard_inflight e' = ∅ /\ freed (e_fs e) (e_fs e') (discard_queue e) /\
    verify_bucket_indexes e' = Ok tt.
Proof.
  intros Hi Hq Hr Hl Hev Hf. destruct (worker_completes fuel e evs Hi Hq Hr Hl Hev Hf) as (e' & H1 & H2 & H3 & H4 & H5).
  exists e'. do 4 (split; [done|]). apply verify_consistent; apply H5.
Qed.

(** the worker reports that it is done only with an empty queue, and that
    it must come back only if buckets are left, which are some of those queued
    before, in their order. *)
Theorem discard_worker_queue fuel e evs e' r : inv e -> queue_ok e -> Forall attempts evs -> run_discard_worker fuel e evs = Some (e', r) ->
  (r = Ok tt -> discard_queue_empty e' = true) /\
  (r = Err (Transaction (-11)) -> discard_queue_empty e' = false /\ discard_queue e' `sublist_of` discard_queue e) /\
  open_buckets e' = open_buckets e /\ rw_devs e' = rw_devs e.
Proof.
  intros Hi Hq Hev E. destruct (worker_ok fuel e evs e' r Hi Hq) as (_ & _ & [H1 H2] & H3 & H4); [|done|].
  { eapply Forall_impl; [exact Hev|]. by intros x []. }
  unfold discard_queue_empty. split; [intros Hr; by apply bool_decide_eq_true, H3|]. split; [|done]. intros Hr. destruct (H4 Hr). split; [by apply bool_decide_eq_false|done].
Qed.

(** ** Examples *)

Definition sample_member : bch_member :=
  mk_bch_member (replicate 16 7) 64 2 128 0 (replicate 3 0) 0 0 (replicate 4 0) (replicate 3 0) (replicate 3 0) 0 0 0 0 0 (replicate 16 0) (replicate 64 0) 0 (replicate 64 0).
Definition device_fs : fs := mk_fs ∅ 1 (Some [sample_member]) [1] 512 0 0 1 [].
Definition sample_engine : engine := mk_engine device_fs [] ∅ ∅ {[0]}.

Lemma sample_inv : inv sample_engine.
Proof.
  constructor.
  - constructor; intros *; cbn; rewrite ?lookup_empty; done.
  - split; intros q.
    + split; [intros (k & H & _); cbn in H; by rewrite lookup_empty in H|]. intros (p & a & H & _). unfold alloc_at in H. cbn in H. by rewrite lookup_empty in H.
    + split; [intros (k & H & _); cbn in H; by rewrite lookup_empty in H|]. intros (a & H & _). unfold alloc_at in H. cbn in H. by rewrite lookup_empty in H.
  - intros dev. unfold sb_member_get. cbn [f_members device_fs e_fs sample_engine]. destruct (Z.to_nat dev) as [|[|n]]; cbn; lia.
Qed.

Lemma sample_queue : queue_ok sample_engine.
Proof. split; [constructor|]. intros p. cbn. set_solver. Qed.

(** Two free buckets, the first of which is allocated and reclaimed. *)
Definition state_of {A} (r : option (engine * A)) (e : engine) : engine := match r with Some (e, _) => e | None => e end.
Definition sample_free : engine := default sample_engine (add_free_bucket (default sample_engine (add_free_bucket sample_engine 5 [Proceed])) 3 [Proceed]).
Definition sample_allocated : engine := state_of (allocate_bucket sample_free 0 [Proceed]) sample_free.
Definition sample_reclaimed : engine := state_of (reclaim_bucket sample_allocated (POS 0 3) [Proceed; Proceed]) sample_allocated.
Definition sample_queued : engine := (queue_discard_bucket sample_reclaimed (POS 0 3)).1.


#[local] Opaque sample_free sample_allocated sample_reclaimed sample_queued.

Lemma sample_attempts : attempts [Proceed; Proceed] /\ attempts [Proceed].
Proof. repeat constructor. Qed.

Lemma sample_run : rtc bucket_step sample_engine sample_free /\ rtc bucket_step sample_free sample_queued.
Proof.
  destruct sample_attempts as [Ha2 Ha1]. split.
  - eapply rtc_l; [eapply (StepAdd _ 5 [Proceed] (default sample_engine (add_free_bucket sample_engine 5 [Proceed]))); [lia|done|done|vm_compute; reflexivity]|].
    eapply rtc_l; [eapply (StepAdd _ 3 [Proceed] sample_free); [lia|vm_compute; reflexivity|done|vm_compute; reflexivity]|]. constructor.
  - eapply rtc_l; [eapply (StepAllocate _ 0 [Proceed] sample_allocated (Ok (POS 0 3))); [done|vm_compute; reflexivity]|].
    eapply rtc_l; [eapply (StepReclaim _ (POS 0 3) [Proceed; Proceed] sample_reclaimed (Ok tt)); [done|vm_compute; reflexivity]|].
    eapply rtc_l; [apply (StepQueue _ (POS 0 3))|]. constructor.
Qed.

Lemma rtc_inv e e' : rtc bucket_step e e' -> inv e -> queue_ok e -> inv e' /\ queue_ok e'.
Proof. induction 1 as [|e e1 e' Hs _ IH]; intros Hi Hq; [done|]. destruct (step_inv e e1 Hs Hi Hq). by apply IH. Qed.

Lemma sample_free_inv : inv sample_free /\ queue_ok sample_free.
Proof. apply (rtc_inv sample_engine); [apply sample_run|apply sample_inv|apply sample_queue]. Qed.

Lemma sample_queued_inv : inv sample_queued /\ queue_ok sample_queued.
Proof. apply (rtc_inv sample_free); [apply sample_run|apply sample_free_inv|apply sample_free_inv]. Qed.

Lemma sample_allocated_inv : inv sample_allocated.
Proof.
  destruct sample_attempts as [_ [H1 H2]].
  by apply (allocate_inv sample_free 0 [Proceed] sample_allocated (Ok (POS 0 3)) (proj1 sample_free_inv) H1 H2); vm_compute.
Qed.

Lemma sample_alloc : alloc_at (e_fs sample_queued) (POS 0 3) = Some (mk_alloc 0 0 1 1 9 0 0 0 (0, 0) 0 0 0 0 0).
Proof. vm_compute. reflexivity. Qed.

Lemma sample_ready : ready sample_queued (POS 0 3).
Proof.
  split; [vm_compute; reflexivity|]. split; [vm_compute; discriminate|]. eexists. split; [apply sample_alloc|]. split; [done|].
  constructor.
  - eapply bool_decide_eq_false. vm_compute. reflexivity.
  - eapply bool_decide_eq_true. vm_compute. reflexivity.
  - apply no_backpointer; [apply sample_queued_inv|done|vm_compute; discriminate|vm_compute; reflexivity].
  - done.
  - vm_compute. split; [discriminate|reflexivity].
  - intros _. vm_compute. discriminate.
Qed.

Lemma verify_indexes_exact_witness : verify_bucket_indexes sample_free = Ok tt /\ consistent (e_fs sample_free).
Proof.
  assert (verify_bucket_indexes sample_free = Ok tt) as H by (vm_compute; reflexivity).
  split; [exact H|]. apply (verify_indexes_exact sample_free); [apply sample_free_inv|exact H].
Defined.

Lemma buckets_stay_consistent_witness : verify_bucket_indexes sample_queued = Ok tt.
Proof.
  apply (buckets_stay_consistent sample_free sample_queued); [apply sample_run|apply sample_free_inv|apply sample_free_inv].
Defined.

Lemma allocate_first_free_witness : exists e', allocate_bucket sample_free 0 [Proceed; Proceed] = Some (e', Ok (POS 0 3)) /\ free_bucket (e_fs sample_free) 0 (POS 0 3).
Proof.
  assert (usable sample_free 0) as Hu.
  { split; [vm_compute; reflexivity|]. split; [vm_compute; discriminate|]. split; [vm_compute; reflexivity|].
    apply (proj1 (bool_decide_eq_true (0 ∈ rw_devs sample_free))). vm_compute. reflexivity. }
  assert (attempts_ok (e_fs sample_free) [Proceed; Proceed]) as Ha by (split; [apply Forall_cons_2; [exact I|apply Forall_cons_2; [exact I|apply Forall_nil_2]]|vm_compute; reflexivity]).
  pose proof (allocate_first_free sample_free 0 [Proceed; Proceed] (proj1 sample_free_inv) Hu Ha) as H.
  assert (allocate_bucket sample_free 0 [Proceed; Proceed] = Some (sample_allocated, Ok (POS 0 3))) as E by (vm_compute; reflexivity).
  rewrite E in H. exists sample_allocated. split; [exact E|]. apply H.
Defined.

Lemma reclaim_frees_unused_witness : exists e', reclaim_bucket sample_allocated (POS 0 3) [Proceed; Proceed] = Some (e', Ok tt) /\ same_engine sample_allocated e'.
Proof.
  assert (reclaim_bucket sample_allocated (POS 0 3) [Proceed; Proceed] = Some (sample_reclaimed, Ok tt)) as E by (vm_compute; reflexivity).
  exists sample_reclaimed. split; [exact E|]. apply (reclaim_frees_unused _ _ _ _ _ sample_allocated_inv (proj1 sample_attempts) E).
Defined.

Lemma sample_all_ready : Forall (fun p => ready sample_queued (bucket_pos p)) (discard_queue sample_queued).
Proof. change (discard_queue sample_queued) with [(0, 3)]. apply Forall_cons_2; [apply sample_ready|constructor]. Qed.

Lemma discard_worker_completes_witness : exists e', run_discard_worker 2 sample_queued [[Proceed]] = Some (e', Ok tt) /\ discard_queue e' = [].
Proof.
  destruct (discard_worker_completes 2 sample_queued [[Proceed]] (proj1 sample_queued_inv) (proj2 sample_queued_inv) sample_all_ready) as (e' & H1 & H2 & _).
  - vm_compute. lia.
  - apply Forall_cons_2; [|constructor]. split; [apply Forall_cons_2; [exact I|apply Forall_nil_2]|vm_compute; reflexivity].
  - lia.
  - exists e'. split; [exact H1|exact H2].
Defined.

Lemma discard_worker_queue_witness : exists e', run_discard_worker 2 sample_queued [[Proceed]] = Some (e', Ok tt) /\ discard_queue_empty e' = true.
Proof.
  assert (run_discard_worker 2 sample_queued [[Proceed]] = Some (state_of (run_discard_worker 2 sample_queued [[Proceed]]) sample_queued, Ok tt)) as E by (vm_compute; reflexivity).
  eexists. split; [exact E|]. apply (discard_worker_queue 2 sample_queued [[Proceed]] _ _ (proj1 sample_queued_inv) (proj2 sample_queued_inv)) in E; [|apply Forall_cons_2; [apply sample_attempts|apply Forall_nil_2]].
  apply E. reflexivity.
Defined.
