(* ===== verification/Derived.v ===== *)
(** * Buckets and backpointers follow the extents

    A commit of extents keeps the derived trees exact: the sectors a bucket is
    charged with are those of the pointers into it, with their generation, and
    the backpointers are those of the pointers.  [ref] is a pointer of a key,
    the reference all of this is about. *)

From stdpp Require Import base tactics list option gmap sorting.
From Stdlib Require Import ZArith Lia.
From S2P Require Import Superblock Prelude Bpos BkeyPack Extents ExtentKeys AllocKeys Trans TransFacts TransCommit.

Open Scope Z_scope.

(** ** Pointers of keys *)

Record ref := mk_ref { r_btree : Z; r_pos : bpos; r_ptr : Z; r_len : Z }.

#[export] Instance ref_eq_dec : EqDecision ref.
Proof. solve_decision. Defined.

(** The words of the pointers of a key; [None] if its entries cannot be read. *)
Definition collect (v : list Z) (i : nat) (acc : list Z) : option (list Z * bool) :=
  Some (if extent_entry_is_ptr (drop i v) then acc ++ [word (drop i v) 0] else acc, false).
Definition key_ptrs (k : kv) : option (list Z) :=
  match bch2_bkey_ptrs_c k with Some (start, end_) => each_entry (S end_) (fun _ => kv_v k) (collect (kv_v k)) start end_ [] | None => Some [] end.

Definition has_refs (k : kv) : bool := key_trigger_kind (kv_type k) =? 2.
Definition refs_of (b : Z) (k : kv) : list ref := if has_refs k then map (fun p => mk_ref b (kv_pos k) p (k_size (kv_k k))) (default [] (key_ptrs k)) else [].

Definition ref_gen (r : ref) : Z := BCH_EXTENT_PTR_GEN (r_ptr r).
Definition ref_dev (r : ref) : Z := BCH_EXTENT_PTR_DEV (r_ptr r).
Definition ref_bucket (c : fs) (r : ref) : bpos := POS (ref_dev r) (BCH_EXTENT_PTR_OFFSET (r_ptr r) / m_bucket_size (sb_member_get c (ref_dev r))).
Definition ref_sector (r : ref) : bpos := POS (ref_dev r) (BCH_EXTENT_PTR_OFFSET (r_ptr r)).
Definition ref_owner (r : ref) : Z * bpos := (r_btree r, r_pos r).

(** A pointer of a 64 bit word, on a device that is there. *)
Record ref_ok (c : fs) (r : ref) : Prop := {
  ro_ptr : in_range 64 (r_ptr r);
  ro_len : in_range 32 (r_len r);
  ro_btree : 0 <= r_btree r < BTREE_ID_NR;
  ro_pos : bpos_wf (r_pos r)
}.
Definition ref_valid (c : fs) (r : ref) : Prop := trigger_pointer_validate c (r_ptr r) true = Some 0.

Lemma valid_remove c r : ref_valid c r -> trigger_pointer_validate c (r_ptr r) false = Some 0.
Proof.
  unfold ref_valid, trigger_pointer_validate. destruct (BCH_SB_MEMBERS_MAX <=? _); [done|]. destruct (bch2_dev_idx_is_online _ _) as [[]|]; [cbn|done|done].
  destruct (_ <=? _); [done|]. destruct (f_members c); [|done]. destruct (_ || _); [done|]. by destruct (_ && _).
Qed.

Lemma valid_bucket_size c r : ref_valid c r -> m_bucket_size (sb_member_get c (ref_dev r)) <> 0.
Proof.
  unfold ref_valid, trigger_pointer_validate, ref_dev. destruct (BCH_SB_MEMBERS_MAX <=? _); [done|]. destruct (bch2_dev_idx_is_online _ _) as [[]|]; [cbn|done|done].
  destruct (_ <=? _); [done|]. destruct (f_members c); [|done]. destruct (negb _ || _) eqn:E; [done|]. intros _ H0. apply orb_false_iff in E as [_ E]. by apply Z.eqb_neq in E.
Qed.

(** *** The loop over pointers *)

(** What happens to one pointer; the flag says to leave the loop. *)
Definition one_pointer (c : fs) (btree : Z) (k : kv) (insert : bool) (us : list btree_insert_entry) (ptr : Z) : option (list btree_insert_entry * Z * bool) :=
  v ← trigger_pointer_validate c ptr insert;
  if v <? 0 then Some (us, v, true) else if 0 <? v then Some (us, 0, false)
  else '(us, ret) ← trigger_pointer_derived c us btree 0 k ptr insert; Some (us, ret, negb (ret =? 0)).

Fixpoint ptr_fold (c : fs) (btree : Z) (k : kv) (insert : bool) (ptrs : list Z) (us : list btree_insert_entry) : option (list btree_insert_entry * Z) :=
  match ptrs with
  | [] => Some (us, 0)
  | ptr :: ptrs => '(us, ret, stop) ← one_pointer c btree k insert us ptr; if stop : bool then Some (us, ret) else ptr_fold c btree k insert ptrs us
  end.

Lemma one_pointer_ret c btree k insert us ptr us' ret : one_pointer c btree k insert us ptr = Some (us', ret, false) -> ret = 0.
Proof.
  unfold one_pointer. destruct (trigger_pointer_validate _ _ _) as [v|]; [cbn [mbind option_bind]|done]. destruct (v <? 0); [done|]. destruct (0 <? v); [by intros [= _ <-]|].
  destruct (trigger_pointer_derived _ _ _ _ _ _ _) as [[us1 r1]|]; [cbn [mbind option_bind]|done]. intros [= _ <- H]. apply negb_false_iff in H. by apply Z.eqb_eq.
Qed.

Definition ptr_body (c : fs) (btree : Z) (k : kv) (insert : bool) (entry : nat) (a : list btree_insert_entry * Z) : option (list btree_insert_entry * Z * bool) :=
  let '(us, _) := a in
  if extent_entry_is_ptr (value_at k entry) then
    let ptr := word (value_at k entry) 0 in
    v ← trigger_pointer_validate c ptr insert;
    if v <? 0 then Some ((us, v), true)
    else if 0 <? v then Some ((us, 0), false)
    else '(us, ret) ← trigger_pointer_derived c us btree 0 k ptr insert;
         Some ((us, ret), negb (ret =? 0))
  else Some ((us, 0), false).

Lemma ptr_body_ptr c btree k insert entry us r : extent_entry_is_ptr (value_at k entry) = true ->
  ptr_body c btree k insert entry (us, r) = '(us, ret, stop) ← one_pointer c btree k insert us (word (value_at k entry) 0); Some ((us, ret), stop).
Proof.
  intros H. unfold ptr_body, one_pointer. rewrite H. cbv zeta. destruct (trigger_pointer_validate _ _ _) as [v|]; [cbn [mbind option_bind]|done].
  destruct (v <? 0); [done|]. destruct (0 <? v); [done|]. by destruct (trigger_pointer_derived _ _ _ _ _ _ _) as [[us1 r1]|].
Qed.

Lemma ptr_body_skip c btree k insert entry us r : extent_entry_is_ptr (value_at k entry) = false -> ptr_body c btree k insert entry (us, r) = Some ((us, 0), false).
Proof. intros H. unfold ptr_body. by rewrite H. Qed.

Lemma walk_ptrs c btree k insert end_ : forall fuel entry acc l, each_entry fuel (fun _ => kv_v k) (collect (kv_v k)) entry end_ acc = Some l ->
  exists l', l = acc ++ l' /\ forall us, each_entry fuel (fun _ => kv_v k) (ptr_body c btree k insert) entry end_ (us, 0) = ptr_fold c btree k insert l' us.
Proof.
  induction fuel as [|fuel IH]; intros entry acc l; cbn [each_entry]; destruct (entry <? end_)%nat; try done; try (intros [= <-]; exists []; by rewrite app_nil_r).
  intros H.
  change (collect (kv_v k) entry acc) with (Some (if extent_entry_is_ptr (value_at k entry) then acc ++ [word (value_at k entry) 0] else acc, false)) in H.
  cbn [mbind option_bind] in H. destruct (extent_entry_next_safe (kv_v k) entry end_) as [next|] eqn:En; [cbn [mbind option_bind] in H|done].
  destruct (extent_entry_is_ptr (value_at k entry)) eqn:Ep; rewrite ?Ep in H; destruct (IH _ _ _ H) as (l' & -> & E).
  - exists (word (value_at k entry) 0 :: l'). split; [by rewrite <- app_assoc|]. intros us. rewrite (ptr_body_ptr _ _ _ _ _ _ _ Ep). cbn [ptr_fold].
    destruct (one_pointer c btree k insert us (word (value_at k entry) 0)) as [[[us1 r1] stop]|] eqn:Eo; [cbn [mbind option_bind]|done]. destruct stop; [done|].
    apply one_pointer_ret in Eo as ->. apply E.
  - exists l'. split; [done|]. intros us. rewrite (ptr_body_skip _ _ _ _ _ _ _ Ep). cbn [mbind option_bind]. apply E.
Qed.

Lemma extent_pointers_fold c us btree k insert : key_ptrs k <> None ->
  trigger_extent_pointers c us btree 0 k insert = ptr_fold c btree k insert (default [] (key_ptrs k)) us.
Proof.
  unfold trigger_extent_pointers, key_ptrs. destruct (bch2_bkey_ptrs_c k) as [[start end_]|]; [|done]. intros H.
  destruct (each_entry _ _ (collect (kv_v k)) _ _ _) as [l|] eqn:E; [|done]. destruct (walk_ptrs c btree k insert end_ (S end_) start [] l E) as (l' & -> & H').
  exact (H' us).
Qed.

(** *** The pointers are those of the words of the entries *)

Definition entry_size (w : list Z) : nat := if extent_entry_type w <? BCH_EXTENT_ENTRY_MAX then Z.to_nat (extent_entry_u64s_known (extent_entry_type w)) else length w.

Fixpoint ptrs_in (fuel : nat) (w : list Z) : list Z :=
  match fuel, w with
  | S fuel, x :: _ => (if extent_entry_is_ptr w then [x] else []) ++ ptrs_in fuel (drop (entry_size w) w)
  | _, _ => []
  end.

Lemma entry_size_pos x w : (0 < entry_size (x :: w))%nat.
Proof.
  unfold entry_size. destruct (Z.ltb_spec (extent_entry_type (x :: w)) BCH_EXTENT_ENTRY_MAX); [|cbn; lia].
  pose proof (known_pos _ (conj (type_nonneg (x :: w)) H)). lia.
Qed.

Lemma type_word w w' : word w 0 = word w' 0 -> extent_entry_type w = extent_entry_type w'.
Proof. unfold extent_entry_type. by intros ->. Qed.

Lemma next_safe_total v i end_ : extent_entry_next_safe v i end_ =
  Some (if extent_entry_type (drop i v) <? BCH_EXTENT_ENTRY_MAX then (i + Z.to_nat (extent_entry_u64s_known (extent_entry_type (drop i v))))%nat else end_).
Proof.
  unfold extent_entry_next_safe. destruct (_ <? _) eqn:E; [|done]. unfold extent_entry_next, extent_entry_u64s. cbv zeta. by rewrite E.
Qed.

Lemma collect_ptrs v end_ : (end_ <= length v)%nat -> forall fuel fuel' i acc, (end_ - i < fuel)%nat -> (end_ - i < fuel')%nat ->
  each_entry fuel (fun _ => v) (collect v) i end_ acc = Some (acc ++ ptrs_in fuel' (drop i (take end_ v))).
Proof.
  intros He. induction fuel as [|fuel IH]; intros fuel' i acc Hf Hf'; [lia|]. destruct fuel' as [|fuel']; [lia|]. cbn [each_entry].
  destruct (Nat.ltb_spec i end_) as [Hi|Hi].
  2: { rewrite drop_ge by (rewrite length_take; lia). cbn. by rewrite app_nil_r. }
  set (w := drop i (take end_ v)). assert (length w = end_ - i)%nat as Hlw by (unfold w; rewrite length_drop, length_take; lia).
  assert (word w 0 = word (drop i v) 0) as Hw.
  { unfold w, word. rewrite !nth_lookup, !lookup_drop, Nat.add_0_r. by rewrite lookup_take_lt by lia. }
  destruct w as [|x w'] eqn:Ew; [cbn in Hlw; lia|]. assert (word (x :: w') 0 = x) as Hx by done. rewrite Hx in Hw.
  assert (extent_entry_type (drop i v) = extent_entry_type (x :: w')) as Ht by (by apply type_word).
  change (collect v i acc) with (Some (if extent_entry_is_ptr (drop i v) then acc ++ [word (drop i v) 0] else acc, false)). cbn [mbind option_bind].
  rewrite next_safe_total, Ht. cbn [mbind option_bind]. set (next := if _ <? _ then _ else _).
  assert (drop (entry_size (x :: w')) (x :: w') = drop next (take end_ v) /\ (i < next)%nat) as [Hd Hn].
  { assert (forall n, drop n (x :: w') = drop (i + n) (take end_ v)) as Hdd by (intros n; rewrite <- Ew; apply drop_drop).
    pose proof (entry_size_pos x w') as Hp. rewrite Hdd. unfold next. unfold entry_size in *. destruct (_ <? _); [split; [done|lia]|]. split; [|lia].
    rewrite !drop_ge; [done| |]; rewrite length_take; lia. }
  rewrite (IH fuel' next) by lia. f_equal. cbn [ptrs_in]. rewrite Hd. unfold extent_entry_is_ptr. rewrite Ht.
  destruct (_ =? _); cbn [app]; [|done]. rewrite <- Hw. by rewrite <- app_assoc.
Qed.

Definition words_fit (k : kv) : Prop := match bch2_bkey_ptrs_c k with Some (_, end_) => (end_ <= length (kv_v k))%nat | None => True end.

Lemma key_ptrs_words k : words_fit k -> key_ptrs k = Some (ptrs_in (S (length (ptr_words k))) (ptr_words k)).
Proof.
  unfold key_ptrs, ptr_words, words_fit. destruct (bch2_bkey_ptrs_c k) as [[start end_]|]; [|done]. intros He.
  rewrite (collect_ptrs _ _ He (S end_) (S (end_ - start))) by lia. cbn [app]. f_equal.
  by rewrite length_drop, length_take, Nat.min_l.
Qed.

Lemma same_words_same_refs b k k' : words_fit k -> words_fit k' -> has_refs k = has_refs k' -> kv_pos k = kv_pos k' -> ptr_words k = ptr_words k' ->
  k_size (kv_k k) = k_size (kv_k k') -> refs_of b k = refs_of b k'.
Proof. intros H H' Hr Hp Hw Hs. unfold refs_of. by rewrite (key_ptrs_words k H), (key_ptrs_words k' H'), Hr, Hp, Hw, Hs. Qed.

(** ** Updates of the derived trees *)

Definition derived_tree (b : Z) : Prop := b = 4 \/ b = 8.

Lemma derived_order b : derived_tree b -> 8 <= btree_trigger_order b.
Proof. by intros [-> | ->]. Qed.

(** What a trigger relies on of the derived trees. *)
Record derived_trees (c : fs) : Prop := {
  dt_alloc : forall p k, f_trees c !! (4, p) = Some k -> is_alloc k = true -> alloc_wf (read_alloc (kv_v k));
  dt_plain : forall b p k, 8 <= btree_trigger_order b -> f_trees c !! (b, p) = Some k -> plain_kv k
}.

Section Steps.
Context (c : fs) (Hdt : derived_trees c).

Definition low (e : btree_insert_entry) : Prop := e_sort_order e < 8.
Definition high (e : btree_insert_entry) : Prop := 8 <= e_sort_order e.

(** No trigger of an entry of the derived trees has run. *)
Definition dflags (us : list btree_insert_entry) : Prop := Forall (fun e => derived_tree (e_btree_id e) -> e_insert_trigger_run e = false /\ e_overwrite_trigger_run e = false) us.

(** Keys that can be written; those of the trees behind the primary ones have
    no pointers, and those of buckets are buckets. *)
Definition good_key (e : btree_insert_entry) : Prop := kv_wf (e_k e) /\ (high e -> plain_update e) /\ (e_btree_id e = 4 -> is_alloc (e_k e) = true).
Definition keys_good (us : list btree_insert_entry) : Prop := Forall good_key us.

(** Entries of the derived trees were added or replaced, at most [n] more. *)
Record grown (us us' : list btree_insert_entry) (n : nat) : Prop := {
  g_wf : updates_wf c us';
  g_len : (length us' <= length us + n)%nat;
  g_split : forall l h, us = l ++ h -> Forall low l -> Forall high h -> exists h', us' = l ++ h' /\ Forall high h';
  g_other : forall key, ~ derived_tree key.1 -> find_update us' key = find_update us key;
  g_dflags : dflags us';
  g_good : keys_good us -> keys_good us'
}.

Lemma grown_refl us : updates_wf c us -> dflags us -> grown us us 0.
Proof. intros H H'. constructor; try done; [lia|]. intros l h -> Hl Hh. by exists h. Qed.

Lemma grown_trans us1 us2 us3 n m : grown us1 us2 n -> grown us2 us3 m -> grown us1 us3 (n + m).
Proof.
  intros [H1 H2 H3 H4 H5 H6] [H1' H2' H3' H4' H5' H6']. constructor; try done; [lia| | |].
  - intros l h E Hl Hh. destruct (H3 l h E Hl Hh) as (h' & E' & Hh'). by eapply H3'.
  - intros key Hk. by rewrite H4', H4.
  - auto.
Qed.

Lemma order_place e : update_wf c e -> place (ekey e) / 2 ^ 160 = e_sort_order e.
Proof.
  intros He. destruct (u_range _ _ He) as [_ Hp]. unfold place. rewrite (u_order _ _ He). pose proof (bpos_val_range _ Hp) as R. unfold in_range in R.
  unfold ekey in *. cbn [fst snd] in *. rewrite Z.add_comm, Z.div_add by lia. by rewrite Z.div_small by lia.
Qed.

Lemma place_order b p : bpos_wf p -> place (b, p) / 2 ^ 160 = btree_trigger_order b.
Proof. intros Hp. unfold place. cbn [fst snd]. pose proof (bpos_val_range _ Hp) as R. unfold in_range in R. rewrite Z.add_comm, Z.div_add by lia. by rewrite Z.div_small by lia. Qed.

Lemma place_high b p e : derived_tree b -> bpos_wf p -> update_wf c e -> place (b, p) <= place (ekey e) -> high e.
Proof.
  intros Hb Hp He Hle. unfold high. rewrite <- (order_place e He). pose proof (derived_order b Hb). rewrite <- (place_order b p Hp) in H.
  etransitivity; [exact H|]. apply Z.div_le_mono; lia.
Qed.

(** Low entries in front, high ones behind: where the list is cut matters
    only behind the low ones. *)
Lemma cut_behind (l h l1 l2 : list btree_insert_entry) : l ++ h = l1 ++ l2 -> Forall low l -> Forall high l2 -> exists m, l1 = l ++ m /\ h = m ++ l2.
Proof.
  revert l1. induction l as [|e l IH]; intros l1 E Hl Hh; cbn [app] in *; [by exists l1|]. apply Forall_cons_1 in Hl as [He Hl].
  destruct l1 as [|e' l1]; cbn [app] in E.
  - subst l2. apply Forall_cons_1 in Hh as [Hh _]. unfold low, high in *. lia.
  - injection E as <- E. destruct (IH l1 E Hl Hh) as (m & -> & ->). by exists m.
Qed.

Lemma derived_put us b k : derived_tree b -> updates_wf c us -> dflags us -> (length us < BTREE_ITER_INITIAL)%nat -> key_in_range (b, kv_pos k) -> kv_wf k -> plain_kv k -> (b = 4 -> is_alloc k = true) ->
  exists us', bch2_trans_update c us b k 0 = Some us' /\ grown us us' 1 /\
    forall key, find_update us' key = if decide (key = (b, kv_pos k)) then Some (new_update c b k (k_u64s (kv_k k)) 0) else find_update us key.
Proof.
  intros Hb Hw Hd Hl Hk Hkw Hpk Hka. unfold bch2_trans_update.
  destruct (update_spec c us b k (k_u64s (kv_k k)) 0 Hw Hk Hl ltac:(lia)) as (us' & E & Hw' & Hl' & Hf & (l1 & l2 & l2' & -> & -> & Hp)).
  { intros u Hu. apply find_update_Some in Hu as [Hu Hku]. apply (proj1 (Forall_forall _ _) Hd u Hu). injection Hku as <- _. exact Hb. }
  exists (l1 ++ l2'). split; [done|]. split; [|done].
  assert (Forall high l2 /\ Forall high l2') as [Hh2 Hh2'].
  { destruct Hw as [Hw _], Hw' as [Hw' _]. apply Forall_app in Hw as [_ Hw], Hw' as [_ Hw']. destruct Hk as [_ Hkp].
    split; apply Forall_forall; intros e He; (eapply (place_high b (kv_pos k)); [done|done| |apply Hp; tauto]); [by apply (proj1 (Forall_forall _ _) Hw)|by apply (proj1 (Forall_forall _ _) Hw')]. }
  constructor; [done|lia| | | |].
  - intros l h E' Hlo Hhi. destruct (cut_behind _ _ _ _ (eq_sym E') Hlo Hh2) as (m & -> & ->). exists (m ++ l2'). rewrite <- app_assoc. split; [done|].
    apply Forall_app in Hhi as [Hm _]. by apply Forall_app.
  - intros key Hkey. rewrite Hf, decide_False; [done|]. by intros ->.
  - apply Forall_forall. intros e He. pose proof (find_update_sorted _ e (proj2 Hw') He) as Ef. rewrite Hf in Ef. case_decide as Ek; [by injection Ef as <-|].
    apply find_update_Some in Ef as [Ef _]. by apply (proj1 (Forall_forall _ _) Hd).
  - intros Hpl. eapply forall_after_update; [apply Hw'|exact Hpl| |exact Hf]. split; [done|]. split; [|done]. intros _. split; [|done].
    cbn. unfold peek_slot. destruct (f_trees c !! (b, kv_pos k)) as [k'|] eqn:E'; [|done]. cbn. eapply (dt_plain _ Hdt); [by apply derived_order|exact E'].
Qed.

(** *** What a trigger sees *)

Definition aview (us : list btree_insert_entry) (p : bpos) : bch_alloc_v4 := trigger_read_alloc c us p.
Definition bview (us : list btree_insert_entry) (p : bpos) : option kv := after (f_trees c) us (8, p).

Lemma staged_find us b p : updates_wf c us -> trigger_staged_key us b p = option_map e_k (find_update us (b, p)).
Proof.
  intros [Hw _]. induction us as [|e us IH]; [done|]. apply Forall_cons_1 in Hw as [He Hw]. cbn [trigger_staged_key]. rewrite find_update_cons, (u_level _ _ He), bpos_eq_spec.
  unfold ekey. destruct (Z.eqb_spec (e_btree_id e) b) as [->|Hne]; cbn [andb Z.eqb].
  - case_bool_decide as Hp; [by rewrite decide_True by (by rewrite Hp)|]. rewrite decide_False by congruence. by apply IH.
  - rewrite decide_False by congruence. by apply IH.
Qed.

Lemma aview_ext us us' p : updates_wf c us -> updates_wf c us' -> find_update us' (4, p) = find_update us (4, p) -> aview us' p = aview us p.
Proof. intros H H' E. unfold aview, trigger_read_alloc. by rewrite !staged_find, E. Qed.

Lemma bview_ext us us' p : find_update us' (8, p) = find_update us (8, p) -> bview us' p = bview us p.
Proof. intros E. unfold bview, after. by rewrite E. Qed.

Definition bucket_key (p : bpos) (a : bch_alloc_v4) : kv := mk_kv (mk_bkey (BKEY_U64S + 8) KEY_FORMAT_CURRENT KEY_TYPE_alloc_v4 ZERO_VERSION 0 p) (alloc_words a).

Lemma bucket_put us p a : updates_wf c us -> dflags us -> (length us < BTREE_ITER_INITIAL)%nat -> bpos_wf p -> alloc_wf a ->
  exists us', trigger_update_value c us 4 p KEY_TYPE_alloc_v4 (alloc_words a) = Some us' /\ grown us us' 1 /\
    (forall q, aview us' q = if decide (q = p) then a else aview us q) /\ (forall q, bview us' q = bview us q).
Proof.
  intros Hw Hd Hl Hp Ha. unfold trigger_update_value. change (value_key p KEY_TYPE_alloc_v4 (alloc_words a)) with (Some (bucket_key p a)). cbn [mbind option_bind].
  destruct (derived_put us 4 (bucket_key p a)) as (us' & E & Hg & Hf); [by left|done|done|done|split; [split; [cbn; lia|reflexivity]|done]|by constructor|done|done|]. exists us'. split; [done|]. split; [done|]. split.
  - intros q. destruct (decide (q = p)) as [->|Hne].
    + unfold aview, trigger_read_alloc. rewrite (staged_find _ _ _ (g_wf _ _ _ Hg)), Hf, decide_True by done. cbn [option_map new_update e_k].
      change (is_alloc (bucket_key p a)) with true. cbv iota. cbn [kv_v bucket_key]. rewrite <- (app_nil_r (alloc_words a)). by apply read_alloc_words.
    + apply aview_ext; [done|apply Hg|]. rewrite Hf, decide_False; [done|]. intros [= ->]. done.
  - intros q. apply bview_ext. rewrite Hf, decide_False; [done|]. by intros [= ?].
Qed.

Lemma backpointer_put us k : kv_wf k -> plain_kv k -> updates_wf c us -> dflags us -> (length us < BTREE_ITER_INITIAL)%nat -> bpos_wf (kv_pos k) ->
  exists us', bch2_trans_update c us 8 k 0 = Some us' /\ grown us us' 1 /\
    (forall q, aview us' q = aview us q) /\ (forall q, bview us' q = if decide (q = kv_pos k) then live k else bview us q).
Proof.
  intros Hkw Hpk Hw Hd Hl Hp. destruct (derived_put us 8 k) as (us' & E & Hg & Hf); [by right|done|done|done|split; [split; [cbn; lia|reflexivity]|done]|done|done|done|]. exists us'. split; [done|]. split; [done|]. split.
  - intros q. apply aview_ext; [done|apply Hg|]. rewrite Hf, decide_False; [done|]. by intros [= ?].
  - intros q. unfold bview, after. rewrite Hf. destruct (decide (q = kv_pos k)) as [->|Hne]; [by rewrite decide_True by done|]. by rewrite decide_False by congruence.
Qed.

(** *** Exact derived trees *)

Fixpoint sum_at (p : bpos) (refs : list ref) : Z :=
  match refs with [] => 0 | r :: refs => (if decide (ref_bucket c r = p) then r_len r else 0) + sum_at p refs end.

Definition bp_key (r : ref) : kv :=
  mk_kv (mk_bkey (BKEY_U64S + 4) KEY_FORMAT_CURRENT KEY_TYPE_backpointer ZERO_VERSION 0 (ref_sector r)) (bp_words (mk_bp (r_btree r) 0 0 (ref_gen r) 0 (r_len r) (r_pos r))).

(** Buckets are charged with the pointers [refs], of their generation. *)
Definition charged (us : list btree_insert_entry) (refs : list ref) : Prop := forall p, snapshot p = 0 ->
  dirty_sectors (aview us p) = sum_at p refs /\ forall r, r ∈ refs -> ref_bucket c r = p -> gen (aview us p) = ref_gen r.

(** The backpointers are those of [refs]. *)
Definition pointed (us : list btree_insert_entry) (refs : list ref) : Prop :=
  (forall r, r ∈ refs -> bview us (ref_sector r) = Some (bp_key r)) /\ (forall p k, snapshot p = 0 -> bview us p = Some k -> exists r, r ∈ refs /\ ref_sector r = p).

Lemma sum_at_app p l l' : sum_at p (l ++ l') = sum_at p l + sum_at p l'.
Proof. induction l as [|r l IH]; cbn; lia. Qed.

Lemma sum_at_perm p l l' : l ≡ₚ l' -> sum_at p l = sum_at p l'.
Proof. induction 1; cbn; lia. Qed.

Lemma sum_at_nonneg p l : Forall (ref_ok c) l -> 0 <= sum_at p l.
Proof.
  induction l as [|r l IH]; intros H; [done|]. apply Forall_cons_1 in H as [[_ [Hr _] _ _] H]. specialize (IH H). cbn. destruct (decide _); lia.
Qed.

Lemma sum_at_sub p l l' : l ⊆+ l' -> Forall (ref_ok c) l' -> sum_at p l <= sum_at p l'.
Proof.
  intros H Hl. apply submseteq_Permutation in H as [k Hk]. rewrite (sum_at_perm _ _ _ Hk), sum_at_app. rewrite Hk in Hl. apply Forall_app in Hl as [_ Hl].
  pose proof (sum_at_nonneg p k Hl). lia.
Qed.

(** All pointers of the transaction and of the trees, before and behind it. *)
Context (U : list ref) (HU : Forall (ref_ok c) U).

(** Generation 0 is one no bucket was given yet: pointers of it are not mixed
    with others in a bucket. *)
Context (Hmix : forall r r', r ∈ U -> r' ∈ U -> ref_bucket c r = ref_bucket c r' -> ref_gen r' = 0 -> ref_gen r = 0).

(** What is not refused: pointers to devices that are there, in buckets of
    their generation, with sums that fit. *)
Definition admissible : Prop :=
  (forall r, r ∈ U -> ref_valid c r) /\ (forall r r', r ∈ U -> r' ∈ U -> ref_bucket c r = ref_bucket c r' -> ref_gen r = ref_gen r') /\
  (forall r, r ∈ U -> gen (aview [] (ref_bucket c r)) = 0 \/ gen (aview [] (ref_bucket c r)) = ref_gen r) /\ (forall p, sum_at p U < 2 ^ 32).

Record exact (us : list btree_insert_entry) (refs : list ref) : Prop := {
  ex_wf : updates_wf c us;
  ex_alloc : forall p, alloc_wf (aview us p);
  ex_charged : charged us refs;
  ex_pointed : pointed us refs;
  ex_valid : Forall (ref_valid c) refs;
  ex_gens : forall p, gen (aview us p) = gen (aview [] p) \/ exists r, r ∈ U /\ ref_bucket c r = p /\ gen (aview us p) = ref_gen r
}.

Lemma exact_perm us refs refs' : refs ≡ₚ refs' -> exact us refs -> exact us refs'.
Proof.
  intros Hp [H1 H3 H4 [H5 H5'] H6 H7]. constructor; try done; [| |by rewrite <- Hp].
  - intros p Hs. destruct (H4 p Hs) as [Hd Hg]. rewrite <- (sum_at_perm _ _ _ Hp). split; [done|]. intros r Hr. apply Hg. by rewrite Hp.
  - split; [intros r Hr; apply H5; by rewrite Hp|]. intros p k Hs Hk. destruct (H5' p k Hs Hk) as (r & Hr & E). exists r. by rewrite <- Hp.
Qed.

Lemma ptr_ranges r : ref_ok c r -> in_range 8 (ref_dev r) /\ in_range 44 (BCH_EXTENT_PTR_OFFSET (r_ptr r)) /\ in_range 8 (ref_gen r).
Proof.
  intros [Hp _ _ _]. unfold in_range in *. split; [apply get_bits_range; lia|]. split; [apply get_bits_range; lia|].
  unfold ref_gen, BCH_EXTENT_PTR_GEN. rewrite Z.shiftr_div_pow2 by lia. split; [apply Z.div_pos; lia|apply Z.div_lt_upper_bound; lia].
Qed.

Lemma sector_wf r : ref_ok c r -> bpos_wf (ref_sector r).
Proof. intros H. destruct (ptr_ranges r H) as (H1 & H2 & _). unfold bpos_wf, in_range, ref_sector, POS in *. cbn [inode offset snapshot]. lia. Qed.

Lemma bucket_wf r : ref_ok c r -> ref_valid c r -> 0 <= m_bucket_size (sb_member_get c (ref_dev r)) -> bpos_wf (ref_bucket c r).
Proof.
  intros H Hv Hb. destruct (ptr_ranges r H) as (H1 & H2 & _). pose proof (valid_bucket_size c r Hv) as Hb'. unfold bpos_wf, in_range, ref_bucket, POS in *. cbn [inode offset snapshot].
  pose proof (Z.div_pos (BCH_EXTENT_PTR_OFFSET (r_ptr r)) (m_bucket_size (sb_member_get c (ref_dev r))) ltac:(lia) ltac:(lia)).
  assert (BCH_EXTENT_PTR_OFFSET (r_ptr r) / m_bucket_size (sb_member_get c (ref_dev r)) <= BCH_EXTENT_PTR_OFFSET (r_ptr r)) by (apply Z.div_le_upper_bound; nia). lia.
Qed.

(** *** One pointer *)

Context (Honline : length (f_devs_online c) = 4%nat) (Hsizes : forall dev, 0 <= m_bucket_size (sb_member_get c dev)).

Lemma validate_insert r : ref_ok c r -> ref_valid c r \/ trigger_pointer_validate c (r_ptr r) true = Some (-1) /\ ~ ref_valid c r.
Proof.
  intros H. destruct (ptr_ranges r H) as (Hd & _ & _). unfold ref_valid, trigger_pointer_validate, ref_dev in *. unfold in_range in Hd.
  destruct (BCH_SB_MEMBERS_MAX <=? _); [by right|]. unfold bch2_dev_idx_is_online.
  destruct (f_devs_online c !! Z.to_nat (BCH_EXTENT_PTR_DEV (r_ptr r) / 64)) as [w|] eqn:E.
  2: { apply lookup_ge_None in E. rewrite Honline in E. pose proof (Z.div_lt_upper_bound (BCH_EXTENT_PTR_DEV (r_ptr r)) 64 4). lia. }
  cbn [mbind option_bind]. destruct (negb _); [by right|]. destruct (_ <=? _); [by right|]. destruct (f_members c); [|by right].
  destruct (_ || _); [by right|]. destruct (_ && _); [by left|by right].
Qed.

Lemma alloc_wf_gens a g : alloc_wf a -> in_range 8 g -> alloc_wf (set_gens a g (oldest_gen a)).
Proof. destruct a. unfold alloc_wf. cbn. tauto. Qed.

Lemma alloc_wf_dirty a d : alloc_wf a -> in_range 32 d -> alloc_wf (set_dirty_sectors a d).
Proof. destruct a. unfold alloc_wf. cbn. tauto. Qed.

(** The bucket of [r] gets [d] sectors, and the generation of [r]. *)
Definition recharged (us us' : list btree_insert_entry) (r : ref) (d : Z) : Prop :=
  forall q, dirty_sectors (aview us' q) = (if decide (q = ref_bucket c r) then d else dirty_sectors (aview us q)) /\
            gen (aview us' q) = (if decide (q = ref_bucket c r) then ref_gen r else gen (aview us q)).

(** What [trigger_pointer_derived] does if it does anything: [a] is the bucket
    it puts, [bp] the key in the tree of backpointers. *)
Lemma two_puts us r d (insert : bool) k : dflags us -> exact us k -> ref_ok c r -> ref_valid c r -> in_range 32 d -> (length us + 2 <= BTREE_ITER_INITIAL)%nat ->
  gen (aview us (ref_bucket c r)) = 0 \/ gen (aview us (ref_bucket c r)) = ref_gen r ->
  let a := aview us (ref_bucket c r) in let a := if gen a =? 0 then set_gens a (ref_gen r) (oldest_gen a) else a in
  let bp := if insert then bp_key r else deleted_key (ref_sector r) in
  exists us1 us2, trigger_update_value c us 4 (ref_bucket c r) KEY_TYPE_alloc_v4 (alloc_words (set_dirty_sectors a d)) = Some us1 /\
    bch2_trans_update c us1 8 bp 0 = Some us2 /\ grown us us2 2 /\ updates_wf c us2 /\ dflags us2 /\ (forall q, alloc_wf (aview us2 q)) /\
    recharged us us2 r d /\ (forall q, bview us2 q = if decide (q = ref_sector r) then live bp else bview us q).
Proof.
  intros Hdf Hex Hr Hv Hd Hl Hg a a' bp. destruct Hex as [Hw Ha _ _ _ _]. destruct (ptr_ranges r Hr) as (_ & _ & Hrg).
  assert (alloc_wf a') as Ha' by (unfold a'; destruct (_ =? 0); [apply alloc_wf_gens; [apply Ha|done]|apply Ha]).
  assert (gen a' = ref_gen r) as Hga by (unfold a'; destruct (Z.eqb_spec (gen a) 0) as [|Hne]; [by destruct a|unfold a in *; by destruct Hg]).
  destruct (bucket_put us (ref_bucket c r) (set_dirty_sectors a' d)) as (us1 & E1 & G1 & A1 & B1); [done|done|unfold BTREE_ITER_INITIAL in *; lia|by apply bucket_wf|by apply alloc_wf_dirty|].
  destruct (backpointer_put us1 bp) as (us2 & E2 & G2 & A2 & B2); [unfold bp; destruct insert; by constructor|by unfold bp; destruct insert|apply G1|apply G1|pose proof (g_len _ _ _ G1); unfold BTREE_ITER_INITIAL in *; lia|unfold bp; destruct insert; by apply sector_wf|].
  exists us1, us2. split; [done|]. split; [done|]. split; [by apply (grown_trans _ us1 _ 1 1)|]. split; [apply G2|]. split; [apply G2|]. split; [|split].
  - intros q. rewrite A2, A1. case_decide; [by apply alloc_wf_dirty|done].
  - intros q. rewrite A2, A1. case_decide; [|done]. split; [by destruct a'|]. rewrite <- Hga. by destruct a'.
  - intros q. rewrite B2, B1. by unfold bp; destruct insert.
Qed.

(** [r] is a pointer of the key [k] of the tree [b]. *)
Definition ref_in (b : Z) (k : kv) (r : ref) : Prop := r_btree r = b /\ r_pos r = kv_pos k /\ r_len r = k_size (kv_k k).

Lemma refs_of_in b k r : r ∈ refs_of b k -> ref_in b k r.
Proof. unfold refs_of. destruct (has_refs k); [|intros H; by apply not_elem_of_nil in H]. intros H. apply list_elem_of_fmap in H as (p & -> & _). done. Qed.

Lemma dirty_gens a g : dirty_sectors (if gen a =? 0 then set_gens a g (oldest_gen a) else a) = dirty_sectors a.
Proof. by destruct (gen a =? 0). Qed.

Lemma ref_in_bp b k r : ref_in b k r -> value_key (ref_sector r) KEY_TYPE_backpointer (bp_words (mk_bp b 0 0 (ref_gen r) 0 (k_size (kv_k k)) (kv_pos k))) = Some (bp_key r).
Proof. intros (<- & <- & <-). done. Qed.

Lemma bucket_snapshot r : snapshot (ref_bucket c r) = 0.
Proof. done. Qed.

Lemma pointer_insert us refs r b k : dflags us -> exact us refs -> Forall (ref_ok c) (r :: refs) -> ref_in b k r -> (r :: refs) ⊆+ U -> NoDup (map ref_sector (r :: refs)) ->
  (length us + 2 <= BTREE_ITER_INITIAL)%nat ->
  exists us' ret stop, one_pointer c b k true us (r_ptr r) = Some (us', ret, stop) /\
    (ret <> 0 /\ stop = true /\ ~ admissible \/ ret = 0 /\ stop = false /\ grown us us' 2 /\ exact us' (r :: refs)).
Proof.
  intros Hdf Hex Hall Hin HrU Hnd Hl. apply Forall_cons_1 in Hall as Hr. destruct Hr as [Hr _]. assert (r ∈ U) as HU' by (eapply elem_of_submseteq; [apply list_elem_of_here|exact HrU]).
  unfold one_pointer. destruct (validate_insert r Hr) as [Hv|[-> Hv]].
  2: { cbn [mbind option_bind]. change (-1 <? 0) with true. cbv iota. eexists _, _, _. split; [done|]. left. split; [done|]. split; [done|]. intros (Had & _). by apply Hv, Had. }
  unfold ref_valid in Hv. rewrite Hv. cbn [mbind option_bind]. rewrite !Z.ltb_irrefl. unfold trigger_pointer_derived. cbv zeta.
  change (BCH_EXTENT_PTR_DEV (r_ptr r)) with (ref_dev r). change (BCH_EXTENT_PTR_GEN (r_ptr r)) with (ref_gen r).
  change (POS (ref_dev r) (BCH_EXTENT_PTR_OFFSET (r_ptr r) / m_bucket_size (sb_member_get c (ref_dev r)))) with (ref_bucket c r).
  change (POS (ref_dev r) (BCH_EXTENT_PTR_OFFSET (r_ptr r))) with (ref_sector r). change (trigger_read_alloc c us (ref_bucket c r)) with (aview us (ref_bucket c r)).
  rewrite (proj2 (assert_true (negb (m_bucket_size (sb_member_get c (ref_dev r)) =? 0)))) by (apply negb_true_iff, Z.eqb_neq, valid_bucket_size; done).
  cbn [mbind option_bind andb Z.eqb negb]. destruct Hin as (Eb & Ep & El). rewrite <- El.
  destruct (Hex.(ex_charged _ _) _ (bucket_snapshot r)) as [Hdirty Hgens].
  destruct (negb (gen (aview us (ref_bucket c r)) =? 0) && negb (gen (aview us (ref_bucket c r)) =? ref_gen r)) eqn:Eg.
  { cbn [mbind option_bind]. eexists _, _, _. split; [done|]. left. split; [done|]. split; [done|]. intros (_ & Hsame & Hbase & _).
    apply andb_true_iff in Eg as [E0%negb_true_iff%Z.eqb_neq E1%negb_true_iff%Z.eqb_neq].
    destruct (ex_gens _ _ Hex (ref_bucket c r)) as [E|(r' & Hr' & Ebk & E)].
    - destruct (Hbase r HU') as [H0|H0]; congruence.
    - apply E1. rewrite E. by apply Hsame. }
  assert (gen (aview us (ref_bucket c r)) = 0 \/ gen (aview us (ref_bucket c r)) = ref_gen r) as Hg.
  { apply andb_false_iff in Eg as [E|E]; apply negb_false_iff, Z.eqb_eq in E; auto. }
  rewrite dirty_gens, Hdirty. unfold uadd.
  destruct (Z.ltb_spec (sum_at (ref_bucket c r) refs + r_len r) (2 ^ 32)) as [Hlt|Hge].
  2: { cbn [mbind option_bind]. eexists _, _, _. split; [done|]. left. split; [done|]. split; [done|]. intros (_ & _ & _ & Hsum).
    pose proof (sum_at_sub (ref_bucket c r) _ _ HrU HU) as Hs. cbn [sum_at] in Hs. rewrite decide_True in Hs by done. specialize (Hsum (ref_bucket c r)). lia. }
  pose proof (sum_at_nonneg (ref_bucket c r) (r :: refs) Hall) as Hnn. cbn [sum_at] in Hnn. rewrite decide_True in Hnn by done.
  destruct (two_puts us r (sum_at (ref_bucket c r) refs + r_len r) true refs Hdf Hex Hr Hv ltac:(unfold in_range; lia) Hl Hg) as (us1 & us2 & -> & E2 & G & Hw & Hd & Ha & Hre & Hb).
  cbn [mbind option_bind]. unfold trigger_update_value. rewrite El, (ref_in_bp b k r) by done. cbn [mbind option_bind] in *. rewrite E2. cbn [mbind option_bind].
  eexists _, _, _. split; [done|]. right. split; [done|]. split; [done|]. split; [done|].
  apply NoDup_cons in Hnd as [Hnr Hnd].
  constructor; try done.
  - intros p Hp. destruct (Hre p) as [-> ->]. destruct (Hex.(ex_charged _ _) p Hp) as [Hdp Hgp]. cbn [sum_at]. destruct (decide (p = ref_bucket c r)) as [->|Hne].
    + rewrite decide_True by done. split; [lia|]. intros r' [->|Hr']%elem_of_cons Hbk; [done|].
      assert (r' ∈ U) as HU'' by (eapply elem_of_submseteq; [by apply list_elem_of_further|exact HrU]). specialize (Hgp r' Hr' Hbk).
      destruct (Z.eq_dec (ref_gen r') 0) as [E0|E0]; [rewrite E0; by apply (Hmix r r')|].
      destruct Hg as [H0|H0]; congruence.
    + rewrite decide_False by congruence. split; [lia|]. intros r' [->|Hr']%elem_of_cons Hbk; [congruence|]. by apply Hgp.
  - destruct (ex_pointed _ _ Hex) as [H1 H2]. split.
    + intros r' [->|Hr']%elem_of_cons; rewrite Hb; [by rewrite decide_True|]. rewrite decide_False; [by apply H1|]. intros E. apply Hnr. rewrite <- E. by apply list_elem_of_fmap_2.
    + intros p k' Hp Hk'. rewrite Hb in Hk'. destruct (decide (p = ref_sector r)) as [->|Hne]; [exists r; split; [apply list_elem_of_here|done]|].
      destruct (H2 p k' Hp Hk') as (r' & Hr' & E). exists r'. split; [by apply list_elem_of_further|done].
  - apply Forall_cons_2; [done|apply Hex].
  - intros p. destruct (Hre p) as [_ ->]. case_decide as E; [|apply Hex]. right. exists r. by rewrite E.
Qed.

Lemma pointer_remove us refs r b k : dflags us -> exact us (r :: refs) -> Forall (ref_ok c) (r :: refs) -> ref_in b k r -> NoDup (map ref_sector (r :: refs)) ->
  (length us + 2 <= BTREE_ITER_INITIAL)%nat ->
  exists us', one_pointer c b k false us (r_ptr r) = Some (us', 0, false) /\ grown us us' 2 /\ exact us' refs.
Proof.
  intros Hdf Hex Hall Hin Hnd Hl. apply Forall_cons_1 in Hall as Hr. destruct Hr as [Hr Hrs].
  pose proof (ex_valid _ _ Hex) as Hvs. apply Forall_cons_1 in Hvs as [Hv Hvs].
  unfold one_pointer. rewrite (valid_remove c r Hv). cbn [mbind option_bind]. rewrite !Z.ltb_irrefl. unfold trigger_pointer_derived. cbv zeta.
  change (BCH_EXTENT_PTR_DEV (r_ptr r)) with (ref_dev r). change (BCH_EXTENT_PTR_GEN (r_ptr r)) with (ref_gen r).
  change (POS (ref_dev r) (BCH_EXTENT_PTR_OFFSET (r_ptr r) / m_bucket_size (sb_member_get c (ref_dev r)))) with (ref_bucket c r).
  change (POS (ref_dev r) (BCH_EXTENT_PTR_OFFSET (r_ptr r))) with (ref_sector r). change (trigger_read_alloc c us (ref_bucket c r)) with (aview us (ref_bucket c r)).
  rewrite (proj2 (assert_true (negb (m_bucket_size (sb_member_get c (ref_dev r)) =? 0)))) by (apply negb_true_iff, Z.eqb_neq, valid_bucket_size; done).
  cbn [mbind option_bind andb Z.eqb negb]. destruct Hin as (Eb & Ep & El). rewrite <- El.
  destruct (Hex.(ex_charged _ _) _ (bucket_snapshot r)) as [Hdirty Hgens].
  assert (gen (aview us (ref_bucket c r)) = ref_gen r) as Hg by (apply Hgens; [apply list_elem_of_here|done]).
  rewrite dirty_gens, Hdirty. cbn [sum_at]. rewrite decide_True by done. unfold usub.
  pose proof (sum_at_nonneg (ref_bucket c r) refs Hrs) as Hnn. rewrite (proj2 (Z.leb_le _ _)) by lia. rewrite Z.add_simpl_l.
  assert (in_range 32 (sum_at (ref_bucket c r) refs)) as Hsr.
  { pose proof (ex_alloc _ _ Hex (ref_bucket c r)) as Ha. unfold alloc_wf in Ha. destruct Ha as (_&_&_&_&_&_&Ha&_). rewrite Hdirty in Ha. cbn [sum_at] in Ha. rewrite decide_True in Ha by done.
    destruct (ro_len _ _ Hr). unfold in_range in *. lia. }
  destruct (two_puts us r (sum_at (ref_bucket c r) refs) false _ Hdf Hex Hr Hv Hsr Hl (or_intror Hg)) as (us1 & us2 & -> & E2 & G & Hw & Hd & Ha & Hre & Hb).
  cbn [mbind option_bind]. unfold trigger_delete_value. cbn [mbind option_bind] in *. rewrite E2. cbn [mbind option_bind].
  eexists. split; [done|]. split; [done|]. apply NoDup_cons in Hnd as [Hnr Hnd].
  constructor; try done.
  - intros p Hp. destruct (Hre p) as [-> ->]. destruct (Hex.(ex_charged _ _) p Hp) as [Hdp Hgp]. cbn [sum_at] in Hdp. destruct (decide (p = ref_bucket c r)) as [->|Hne].
    + split; [done|]. intros r' Hr' Hbk. rewrite <- Hg. apply Hgp; [by apply list_elem_of_further|done].
    + rewrite decide_False in Hdp by congruence. split; [lia|]. intros r' Hr' Hbk. apply Hgp; [by apply list_elem_of_further|done].
  - destruct (ex_pointed _ _ Hex) as [H1 H2]. split.
    + intros r' Hr'. rewrite Hb. rewrite decide_False; [apply H1; by apply list_elem_of_further|]. intros E. apply Hnr. rewrite <- E. by apply list_elem_of_fmap_2.
    + intros p k' Hp Hk'. rewrite Hb in Hk'. destruct (decide (p = ref_sector r)) as [->|Hne]; [done|].
      destruct (H2 p k' Hp Hk') as (r' & [->|Hr']%elem_of_cons & E); [congruence|]. by exists r'.
  - intros p. destruct (Hre p) as [_ ->]. case_decide as E; [rewrite E, <- Hg; apply Hex|apply Hex].
Qed.

(** *** All pointers of a key *)

Lemma insert_all b k : forall l us refs, dflags us -> exact us refs -> Forall (ref_ok c) (l ++ refs) -> Forall (ref_in b k) l -> (l ++ refs) ⊆+ U -> NoDup (map ref_sector (l ++ refs)) ->
  (length us + 2 * length l <= BTREE_ITER_INITIAL)%nat ->
  exists us' ret, ptr_fold c b k true (map r_ptr l) us = Some (us', ret) /\
    (ret <> 0 /\ ~ admissible \/ ret = 0 /\ grown us us' (2 * length l) /\ exact us' (l ++ refs)).
Proof.
  induction l as [|r l IH]; intros us refs Hdf Hex Hall Hin HlU Hnd Hl; cbn [app map length ptr_fold] in *.
  { eexists _, _. split; [done|]. right. split; [done|]. split; [|done]. apply grown_refl; [apply Hex|done]. }
  apply Forall_cons_1 in Hin as [Hinr Hin].
  assert (r :: l ++ refs ≡ₚ l ++ r :: refs) as Hperm by (apply Permutation_middle).
  destruct (pointer_insert us refs r b k Hdf Hex) as (us1 & ret & stop & -> & Hcase).
  - apply Forall_cons_1 in Hall as [H1 H2]. apply Forall_app in H2 as [_ H2]. by apply Forall_cons_2.
  - done.
  - etransitivity; [|exact HlU]. apply submseteq_skip, submseteq_inserts_l. done.
  - cbn [map]. apply NoDup_cons in Hnd as [H1 H2]. rewrite map_app in H1, H2. apply list.NoDup_app in H2 as (_ & _ & H2). apply NoDup_cons. split; [|done].
    intros H. apply H1. apply elem_of_app. by right.
  - lia.
  - cbn [mbind option_bind]. destruct Hcase as [(Hne & -> & Hna)|(-> & -> & G & Hex1)]; [eexists _, _; split; [done|]; by left|].
    destruct (IH us1 (r :: refs) (g_dflags _ _ _ G) Hex1) as (us2 & ret & -> & Hcase).
    + by rewrite <- Hperm.
    + done.
    + by rewrite <- Hperm.
    + rewrite <- Hperm. done.
    + pose proof (g_len _ _ _ G). lia.
    + eexists _, _. split; [done|]. destruct Hcase as [Hcase|(-> & G2 & Hex2)]; [by left|]. right. split; [done|]. split.
      * replace (2 * S (length l))%nat with (2 + 2 * length l)%nat by lia. by eapply grown_trans.
      * by eapply exact_perm; [symmetry; exact Hperm|].
Qed.

Lemma remove_all b k : forall l us refs, dflags us -> exact us (l ++ refs) -> Forall (ref_ok c) (l ++ refs) -> Forall (ref_in b k) l -> NoDup (map ref_sector (l ++ refs)) ->
  (length us + 2 * length l <= BTREE_ITER_INITIAL)%nat ->
  exists us', ptr_fold c b k false (map r_ptr l) us = Some (us', 0) /\ grown us us' (2 * length l) /\ exact us' refs.
Proof.
  induction l as [|r l IH]; intros us refs Hdf Hex Hall Hin Hnd Hl; cbn [app map length ptr_fold] in *.
  { eexists. split; [done|]. split; [|done]. apply grown_refl; [apply Hex|done]. }
  apply Forall_cons_1 in Hin as [Hinr Hin].
  destruct (pointer_remove us (l ++ refs) r b k Hdf Hex Hall Hinr Hnd ltac:(lia)) as (us1 & -> & G & Hex1). cbn [mbind option_bind].
  apply Forall_cons_1 in Hall as [_ Hall]. apply NoDup_cons in Hnd as [_ Hnd]. pose proof (g_len _ _ _ G).
  destruct (IH us1 refs (g_dflags _ _ _ G) Hex1 Hall Hin Hnd ltac:(lia)) as (us2 & -> & G2 & Hex2). eexists. split; [done|]. split; [|done].
  replace (2 * S (length l))%nat with (2 + 2 * length l)%nat by lia. by eapply grown_trans.
Qed.

(** *** The trigger of an extent *)

Lemma grown_le us us' n m : grown us us' n -> (n <= m)%nat -> grown us us' m.
Proof. intros [H1 H2 H3 H4 H5 H6] H. constructor; try done. lia. Qed.

(** Keys the trigger of extents is run with. *)
Definition extent_or_deleted (k : kv) : Prop := has_refs k = true /\ kv_type k <> KEY_TYPE_deleted \/ k = deleted_key (kv_pos k).

Lemma deleted_refs b p : refs_of b (deleted_key p) = [].
Proof. done. Qed.

Lemma deleted_form b k : k = deleted_key (kv_pos k) -> refs_of b k = [] /\ kv_type k = KEY_TYPE_deleted.
Proof. intros E. rewrite E. done. Qed.

Lemma deleted_fit p : words_fit (deleted_key p).
Proof. done. Qed.

Lemma no_words_no_refs b k : words_fit k -> ptr_words k = [] -> refs_of b k = [].
Proof. intros H E. unfold refs_of. destruct (has_refs k); [|done]. by rewrite (key_ptrs_words k H), E. Qed.

Lemma refs_ptrs b k : has_refs k = true -> map r_ptr (refs_of b k) = default [] (key_ptrs k).
Proof. intros H. unfold refs_of. rewrite H, map_map. cbn. apply map_id. Qed.

Lemma fold_pointers us b k insert : words_fit k -> has_refs k = true -> trigger_extent_pointers c us b 0 k insert = ptr_fold c b k insert (map r_ptr (refs_of b k)) us.
Proof. intros Hf Hr. rewrite extent_pointers_fold by (by rewrite (key_ptrs_words k Hf)). by rewrite refs_ptrs. Qed.

Lemma refs_all_in b k : Forall (ref_in b k) (refs_of b k).
Proof. apply Forall_forall. intros r. apply refs_of_in. Qed.

Definition fits (b : Z) (k : kv) (rest : list ref) : Prop := Forall (ref_ok c) (refs_of b k ++ rest) /\ NoDup (map ref_sector (refs_of b k ++ rest)).

Lemma remove_key us b k rest : dflags us -> exact us (refs_of b k ++ rest) -> words_fit k -> extent_or_deleted k -> fits b k rest ->
  (length us + 2 * length (refs_of b k) <= BTREE_ITER_INITIAL)%nat ->
  exists us', (if negb (kv_type k =? KEY_TYPE_deleted) then trigger_extent_pointers c us b 0 k false else Some (us, 0)) = Some (us', 0) /\
    grown us us' (2 * length (refs_of b k)) /\ exact us' rest.
Proof.
  intros Hdf Hex Hw Hk [Hok Hnd] Hl. destruct Hk as [[Hr Hd]|Hk]; [|destruct (deleted_form b k Hk) as [Er Et]; rewrite Er, Et in *].
  - rewrite (proj2 (Z.eqb_neq _ _) Hd). cbn [negb]. rewrite fold_pointers by done. apply remove_all; try done. apply refs_all_in.
  - eexists. split; [done|]. split; [|done]. apply grown_refl; [apply Hex|done].
Qed.

Lemma insert_key us b k rest : dflags us -> exact us rest -> words_fit k -> extent_or_deleted k -> fits b k rest -> (refs_of b k ++ rest) ⊆+ U ->
  (length us + 2 * length (refs_of b k) <= BTREE_ITER_INITIAL)%nat ->
  exists us' ret, (if negb (kv_type k =? KEY_TYPE_deleted) then trigger_extent_pointers c us b 0 k true else Some (us, 0)) = Some (us', ret) /\
    (ret <> 0 /\ ~ admissible \/ ret = 0 /\ grown us us' (2 * length (refs_of b k)) /\ exact us' (refs_of b k ++ rest)).
Proof.
  intros Hdf Hex Hw Hk [Hok Hnd] HU' Hl. destruct Hk as [[Hr Hd]|Hk]; [|destruct (deleted_form b k Hk) as [Er Et]; rewrite Er, Et in *].
  - rewrite (proj2 (Z.eqb_neq _ _) Hd). cbn [negb]. rewrite fold_pointers by done. apply insert_all; try done. apply refs_all_in.
  - eexists _, _. split; [done|]. right. split; [done|]. split; [|done]. apply grown_refl; [apply Hex|done].
Qed.

Lemma trigger_extent_ok us b old new rest flags : dflags us -> exact us (refs_of b old ++ rest) -> words_fit old -> words_fit new ->
  extent_or_deleted old -> extent_or_deleted new -> (ptr_words new = ptr_words old -> refs_of b new = refs_of b old) ->
  fits b old rest -> fits b new rest -> (refs_of b new ++ rest) ⊆+ U -> has_flag flags BTREE_TRIGGER_transactional = true ->
  (length us + 2 * (length (refs_of b old) + length (refs_of b new)) <= BTREE_ITER_INITIAL)%nat ->
  exists us' ret, bch2_trigger_extent c us b 0 old new flags = Some (us', ret) /\
    (ret <> 0 /\ ~ admissible \/ ret = 0 /\ grown us us' (2 * (length (refs_of b old) + length (refs_of b new))) /\ exact us' (refs_of b new ++ rest)).
Proof.
  intros Hdf Hex Hwo Hwn Hko Hkn Hsame Hfo Hfn HU' Hfl Hl. unfold bch2_trigger_extent. case_bool_decide as Ew.
  - eexists _, _. split; [done|]. right. split; [done|]. rewrite (Hsame Ew). split; [|done]. eapply grown_le; [apply grown_refl; [apply Hex|done]|lia].
  - rewrite Hfl. destruct (remove_key us b old rest Hdf Hex Hwo Hko Hfo ltac:(lia)) as (us1 & -> & G1 & Hex1). cbn [mbind option_bind Z.eqb negb].
    pose proof (g_len _ _ _ G1) as Hl1. destruct (insert_key us1 b new rest (g_dflags _ _ _ G1) Hex1 Hwn Hkn Hfn HU' ltac:(lia)) as (us2 & ret & -> & Hcase).
    eexists _, _. split; [done|]. destruct Hcase as [Hcase|(-> & G2 & Hex2)]; [by left|]. right. split; [done|]. split; [|done].
    eapply grown_le; [by eapply grown_trans|lia].
Qed.

(** *** The trigger of an update *)

Lemma find_same us us' key : Forall2 same_update us us' -> option_map e_k (find_update us' key) = option_map e_k (find_update us key).
Proof.
  intros H. induction H as [|e e' us us' He H IH]; [done|]. rewrite !find_update_cons, (same_update_key _ _ He). case_decide; [|done]. cbn. by rewrite He.
Qed.

Lemma aview_same us us' p : updates_wf c us -> Forall2 same_update us us' -> aview us' p = aview us p.
Proof.
  intros Hw H. unfold aview, trigger_read_alloc. rewrite (staged_find us) by done. rewrite (staged_find us') by (by eapply updates_wf_same). by rewrite (find_same _ _ _ H).
Qed.

Lemma exact_same us us' refs : Forall2 same_update us us' -> exact us refs -> exact us' refs.
Proof.
  intros H [H1 H2 H3 H4 H5 H6]. assert (forall p, aview us' p = aview us p) as Ha by (intros p; by apply aview_same).
  assert (forall p, bview us' p = bview us p) as Hb by (intros p; by apply after_same). constructor; try done.
  - by eapply updates_wf_same.
  - intros p. by rewrite Ha.
  - intros p Hp. rewrite Ha. by apply H3.
  - destruct H4 as [H4 H4']. split; [intros r Hr; rewrite Hb; by apply H4|]. intros p k Hp. rewrite Hb. by apply H4'.
  - intros p. rewrite Ha. apply H6.
Qed.

(** What the code relies on of an update: snapshot keys are not treated here,
    its words can be read, the trigger does run if it is of use, and the size of
    an extent does not change without its pointers. *)
Record entry_ok (e : btree_insert_entry) : Prop := {
  eo_kinds : key_trigger_kind (kv_type (e_old e)) <> 1 /\ key_trigger_kind (kv_type (e_k e)) <> 1;
  eo_fit : words_fit (e_old e) /\ words_fit (e_k e);
  eo_pos : kv_pos (e_old e) = kv_pos (e_k e);
  eo_size : has_refs (e_old e) = true -> has_refs (e_k e) = true -> ptr_words (e_k e) = ptr_words (e_old e) -> k_size (kv_k (e_k e)) = k_size (kv_k (e_old e));
  eo_armed : plain_update e \/ has_flag (e_flags e) BTREE_TRIGGER_norun = false /\ btree_node_type_has_trans_triggers (e_bkey_type e) = true;
  eo_flags : e_insert_trigger_run e = true -> e_overwrite_trigger_run e = true
}.

Definition old_refs (e : btree_insert_entry) : list ref := refs_of (e_btree_id e) (e_old e).
Definition new_refs (e : btree_insert_entry) : list ref := refs_of (e_btree_id e) (e_k e).

(** The pointers accounted for, of an update whose triggers ran so far. *)
Definition share (e : btree_insert_entry) : list ref :=
  if e_overwrite_trigger_run e then (if e_insert_trigger_run e then new_refs e else []) else old_refs e.

(** The pointers that are still to be worked on. *)
Definition to_do (e : btree_insert_entry) : nat :=
  ((if e_overwrite_trigger_run e then 0 else length (old_refs e)) + (if e_insert_trigger_run e then 0 else length (new_refs e)))%nat.

Lemma kind_plain t : key_trigger_kind t = 0 -> (t =? KEY_TYPE_snapshot) = false /\ (t =? KEY_TYPE_extent) || (t =? KEY_TYPE_btree_ptr) || (t =? KEY_TYPE_btree_ptr_v2) = false.
Proof. unfold key_trigger_kind. destruct (t =? KEY_TYPE_snapshot); [done|]. by destruct (_ || _). Qed.

Lemma kind_extent t : key_trigger_kind t = 2 -> (t =? KEY_TYPE_snapshot) = false /\ (t =? KEY_TYPE_extent) || (t =? KEY_TYPE_btree_ptr) || (t =? KEY_TYPE_btree_ptr_v2) = true /\ t <> KEY_TYPE_deleted.
Proof. unfold key_trigger_kind. destruct (t =? KEY_TYPE_snapshot); [done|]. destruct (_ || _) eqn:E; [|done]. intros _. split; [done|]. split; [done|]. by intros ->. Qed.

Lemma kind_cases t : key_trigger_kind t = 0 \/ key_trigger_kind t = 1 \/ key_trigger_kind t = 2.
Proof. unfold key_trigger_kind. destruct (_ =? _); [auto|]. destruct (_ || _); auto. Qed.

Definition trigger_type (old new : kv) : Z := if negb (kv_type old =? 0) then kv_type old else kv_type new.

Lemma key_trigger_plain us b l old new flags : key_trigger_kind (trigger_type old new) = 0 -> bch2_key_trigger c us b l old new flags = Some (us, 0).
Proof. intros H. unfold bch2_key_trigger. fold (trigger_type old new). destruct (kind_plain _ H) as [-> ->]. done. Qed.

Lemma key_trigger_refs us b old new flags : key_trigger_kind (trigger_type old new) = 2 -> bch2_key_trigger c us b 0 old new flags = bch2_trigger_extent c us b 0 old new flags.
Proof. intros H. unfold bch2_key_trigger. fold (trigger_type old new). destruct (kind_extent _ H) as (-> & -> & _). done. Qed.

Lemma trigger_type_old old new : key_trigger_kind (kv_type old) = 2 -> key_trigger_kind (trigger_type old new) = 2.
Proof. intros H. destruct (kind_extent _ H) as (_ & _ & Ht). unfold trigger_type. by rewrite (proj2 (Z.eqb_neq (kv_type old) 0) Ht). Qed.

Lemma plain_refs b k : key_trigger_kind (kv_type k) = 0 -> refs_of b k = [].
Proof. intros H. unfold refs_of, has_refs. by rewrite H. Qed.

Lemma refs_extent k : key_trigger_kind (kv_type k) = 2 -> has_refs k = true /\ extent_or_deleted k.
Proof. intros H. assert (has_refs k = true) as Hr by (unfold has_refs; by rewrite H). split; [done|]. left. split; [done|]. by apply kind_extent. Qed.

Lemma transactional_set f x : has_flag (Z.lor (Z.lor f BTREE_TRIGGER_transactional) x) BTREE_TRIGGER_transactional = true.
Proof.
  unfold has_flag. apply negb_true_iff, Z.eqb_neq. intros H. apply (f_equal (fun z => Z.testbit z 22)) in H.
  rewrite Z.land_spec, !Z.lor_spec in H. change (Z.testbit BTREE_TRIGGER_transactional 22) with true in H. by rewrite orb_true_r in H.
Qed.

(** The next trigger of [e] adds the pointers of the new key. *)
Definition inserts (e : btree_insert_entry) : Prop :=
  e_overwrite_trigger_run e = true \/ key_trigger_kind (kv_type (e_old e)) = key_trigger_kind (kv_type (e_k e)).

(** The keys the next trigger of [e] works on are fine in place of its share. *)
Definition entry_fits (e : btree_insert_entry) (rest : list ref) : Prop :=
  rest ⊆+ U /\ fits (e_btree_id e) (deleted_key (kv_pos (e_k e))) rest /\ (e_overwrite_trigger_run e = false -> fits (e_btree_id e) (e_old e) rest) /\
  (inserts e -> fits (e_btree_id e) (e_k e) rest /\ (new_refs e ++ rest) ⊆+ U).

Lemma same_refs e : entry_ok e -> has_refs (e_old e) = true -> has_refs (e_k e) = true -> ptr_words (e_k e) = ptr_words (e_old e) -> new_refs e = old_refs e.
Proof.
  intros H Ho Hn Ew. destruct (eo_fit _ H) as [H1 H2]. apply same_words_same_refs; try done; [by rewrite Ho|by rewrite (eo_pos _ H)|by apply (eo_size _ H)].
Qed.

Lemma kind_ne k : key_trigger_kind (kv_type k) <> 1 -> key_trigger_kind (kv_type k) = 0 \/ key_trigger_kind (kv_type k) = 2.
Proof. intros H. destruct (kind_cases (kv_type k)) as [|[|]]; tauto. Qed.

Definition entry_result (us : list btree_insert_entry) (x : option (list btree_insert_entry * Z)) (n : nat) (refs : list ref) : Prop :=
  exists us' ret, x = Some (us', ret) /\ (ret <> 0 /\ ~ admissible \/ ret = 0 /\ grown us us' (2 * n) /\ exact us' refs).

Lemma result_idle us n refs : dflags us -> exact us refs -> entry_result us (Some (us, 0)) n refs.
Proof. intros Hd H. eexists _, _. split; [done|]. right. split; [done|]. split; [|done]. eapply grown_le; [apply grown_refl; [apply H|done]|lia]. Qed.

(** The trigger of one update with [old] and [new], of which one may be left
    out. *)
Lemma key_trigger_result us b old new rest flags : dflags us -> exact us (refs_of b old ++ rest) -> words_fit old -> words_fit new ->
  key_trigger_kind (trigger_type old new) = 2 -> extent_or_deleted old -> extent_or_deleted new ->
  (ptr_words new = ptr_words old -> refs_of b new = refs_of b old) ->
  fits b old rest -> fits b new rest -> (refs_of b new ++ rest) ⊆+ U -> has_flag flags BTREE_TRIGGER_transactional = true ->
  (length us + 2 * (length (refs_of b old) + length (refs_of b new)) <= BTREE_ITER_INITIAL)%nat ->
  entry_result us (bch2_key_trigger c us b 0 old new flags) (length (refs_of b old) + length (refs_of b new)) (refs_of b new ++ rest).
Proof. intros Hd Hex Hwo Hwn Hk. rewrite key_trigger_refs by done. by apply trigger_extent_ok. Qed.

Lemma run_entry pre e post rest : update_wf c e -> entry_ok e -> trigger_done e = false ->
  let us := pre ++ run_flags e :: post in dflags us -> exact us (share e ++ rest) -> entry_fits e rest -> (length us + 2 * to_do e <= BTREE_ITER_INITIAL)%nat ->
  entry_result us (run_one_trans_trigger c (pre ++ e :: post) (length pre)) (to_do e - to_do (run_flags e)) (share (run_flags e) ++ rest).
Proof.
  intros Hwe Hok Hd us Hdf Hex (HrU & Hfd & Hfo' & Hfn') Hl. unfold run_one_trans_trigger. rewrite list_lookup_middle by done. cbn [mbind option_bind].
  rewrite <- (u_old _ _ Hwe), bool_decide_true by done. cbn [negb]. rewrite (u_level _ _ Hwe).
  apply not_done in Hd. destruct (eo_kinds _ Hok) as [Ko%kind_ne Kn%kind_ne]. destruct (eo_fit _ Hok) as [Wo Wn].
  assert (forall e', <[length pre := e']> (pre ++ e :: post) = pre ++ e' :: post) as Hins by (intros e'; by rewrite insert_app_r_alt, Nat.sub_diag by lia).
  unfold us, run_flags, share, to_do in *.
  destruct (e_insert_trigger_run e) eqn:E1; [rewrite (eo_flags _ Hok E1) in Hd; done|]. cbn [negb andb] in *.
  destruct (e_overwrite_trigger_run e) eqn:E2; cbn [negb andb] in *; [|destruct (Z.eqb_spec (key_trigger_kind (kv_type (e_old e))) (key_trigger_kind (kv_type (e_k e)))) as [Ek|Ek]].
  - destruct (Hfn' (or_introl E2)) as [Hfn HnU]. rewrite Hins. cbn [set_run e_insert_trigger_run e_overwrite_trigger_run e_btree_id e_old e_k] in *.
    change (new_refs (set_run e true true)) with (new_refs e). change (old_refs (set_run e true true)) with (old_refs e).
    destruct Kn as [Kn|Kn].
    + unfold new_refs in *. rewrite (plain_refs _ _ Kn) in *. destruct (_ || _); [rewrite key_trigger_plain by done|]; by apply result_idle.
    + rewrite Kn. cbn [Z.eqb negb]. rewrite orb_true_r. destruct (refs_extent _ Kn) as [Rn Xn]. replace (0 + length (new_refs e) - (0 + 0))%nat with (length (new_refs e)) by lia.
      apply (key_trigger_result _ (e_btree_id e) (deleted_key (kv_pos (e_k e))) (e_k e) rest); try done; [by right|rewrite deleted_refs; intros E; by apply no_words_no_refs|apply transactional_set].
  - pose proof (Hfo' eq_refl) as Hfo. destruct (Hfn' (or_intror Ek)) as [Hfn HnU]. rewrite Hins. cbn [set_run e_insert_trigger_run e_overwrite_trigger_run e_btree_id e_old e_k] in *.
    change (new_refs (set_run e true true)) with (new_refs e). change (old_refs (set_run e true true)) with (old_refs e).
    replace (length (old_refs e) + length (new_refs e) - (0 + 0))%nat with (length (old_refs e) + length (new_refs e))%nat by lia.
    destruct Kn as [Kn|Kn].
    + rewrite Kn in *. rewrite Ek. cbn [Z.eqb negb orb]. unfold new_refs, old_refs in *. rewrite (plain_refs _ _ Kn), (plain_refs _ _ Ek) in *. by apply result_idle.
    + rewrite Kn in *. rewrite Ek. cbn [Z.eqb negb orb]. destruct (refs_extent _ Kn) as [Rn Xn], (refs_extent _ Ek) as [Ro Xo].
      apply (key_trigger_result _ (e_btree_id e) (e_old e) (e_k e) rest); try done; [by apply trigger_type_old|by intros E; apply same_refs|apply transactional_set].
  - pose proof (Hfo' eq_refl) as Hfo. rewrite Hins. cbn [set_run e_insert_trigger_run e_overwrite_trigger_run e_btree_id e_old e_k] in *.
    change (new_refs (set_run e false true)) with (new_refs e). change (old_refs (set_run e false true)) with (old_refs e).
    replace (length (old_refs e) + length (new_refs e) - (0 + length (new_refs e)))%nat with (length (old_refs e)) by lia.
    assert (negb (key_trigger_kind (kv_type (e_old e)) =? 0) || negb (key_trigger_kind (kv_type (e_k e)) =? 0) = true) as ->.
    { destruct Ko as [Ko|Ko], Kn as [Kn|Kn]; rewrite Ko, Kn in Ek |- *; done. }
    destruct Ko as [Ko|Ko].
    + unfold old_refs in *. rewrite (plain_refs _ _ Ko) in *. rewrite key_trigger_plain; [by apply result_idle|]. unfold trigger_type. by destruct (kv_type (e_old e) =? 0).
    + destruct (refs_extent _ Ko) as [Ro Xo]. pose proof (key_trigger_result (pre ++ set_run e false true :: post) (e_btree_id e) (e_old e) (deleted_key (kv_pos (e_k e))) rest) as K.
      rewrite deleted_refs, Nat.add_0_r in K. apply K; try done.
      * by apply trigger_type_old.
      * by right.
      * intros E. symmetry. apply no_words_no_refs; [done|]. by rewrite <- E.
      * apply transactional_set.
      * unfold old_refs in Hl. lia.
Qed.

(** *** Lists of updates, changed at one place *)

Lemma same_at pre e e' post : same_update e e' -> Forall2 same_update (pre ++ e :: post) (pre ++ e' :: post).
Proof. intros H. apply Forall2_app; [apply group_same_refl|]. constructor; [done|apply group_same_refl]. Qed.

Lemma find_at pre e e' post key : ekey e' = ekey e -> key <> ekey e -> find_update (pre ++ e' :: post) key = find_update (pre ++ e :: post) key.
Proof. intros E Hne. rewrite !find_update_app, !find_update_cons. rewrite !(decide_False (P := _ = key)) by congruence. done. Qed.

Lemma order_mono x y : update_wf c x -> update_wf c y -> place (ekey x) < place (ekey y) -> e_sort_order x <= e_sort_order y.
Proof. intros Hx Hy H. rewrite <- (order_place x Hx), <- (order_place y Hy). apply Z.div_le_mono; lia. Qed.

Lemma sorted_around pre e post : updates_wf c (pre ++ e :: post) -> Forall (fun x => e_sort_order x <= e_sort_order e) pre /\ Forall (fun x => e_sort_order e <= e_sort_order x) post.
Proof.
  intros [Hw Hs]. apply Forall_app in Hw as [Hw1 Hw2]. apply Forall_cons_1 in Hw2 as [He Hw2]. apply updates_sorted_app in Hs as (_ & Hs & Hlt). apply StronglySorted_inv in Hs as [_ Hs].
  split; apply Forall_forall; intros x Hx; apply order_mono; try done; try (by apply (proj1 (Forall_forall _ _) Hw1)); try (by apply (proj1 (Forall_forall _ _) Hw2)).
  - apply Hlt; [done|apply list_elem_of_here].
  - by apply (proj1 (Forall_forall _ _) Hs).
Qed.

Lemma updates_wf_tail e us : updates_wf c (e :: us) -> updates_wf c us.
Proof. intros [Hw Hs]. apply Forall_cons_1 in Hw as [_ Hw]. by apply StronglySorted_inv in Hs as [Hs _]. Qed.

Lemma low_then_high us : updates_wf c us -> exists l h, us = l ++ h /\ Forall low l /\ Forall high h.
Proof.
  induction us as [|e us IH]; intros Hw; [by exists [], []|].
  destruct (Z.lt_ge_cases (e_sort_order e) 8) as [Hlow|Hhigh].
  - destruct IH as (l & h & -> & Hl & Hh); [by eapply updates_wf_tail|].
    exists (e :: l), h. split; [done|]. split; [by apply Forall_cons_2|done].
  - exists [], (e :: us). split; [done|]. split; [constructor|]. apply Forall_cons_2; [done|]. destruct (sorted_around [] e us Hw) as [_ H].
    eapply Forall_impl; [exact H|]. intros x Hx. cbn in Hx. unfold high. lia.
Qed.

Lemma good_same e e' : same_update e e' -> good_key e -> good_key e'.
Proof. intros -> (H1 & H2 & H3). done. Qed.

Lemma ok_same e e' : same_update e e' -> (e_insert_trigger_run e' = true -> e_overwrite_trigger_run e' = true) -> entry_ok e -> entry_ok e'.
Proof. intros -> Hf []. by constructor. Qed.

Lemma run_flags_order e : entry_ok e -> e_insert_trigger_run (run_flags e) = true -> e_overwrite_trigger_run (run_flags e) = true.
Proof.
  intros H. unfold run_flags. destruct (negb _ && negb _ && _); [done|]. destruct (e_overwrite_trigger_run e) eqn:E; cbn; [done|]. done.
Qed.

Definition sum_to_do (us : list btree_insert_entry) : nat := sum_list_with to_do us.

Lemma plain_no_refs e : plain_update e -> old_refs e = [] /\ new_refs e = [].
Proof. intros [H1 H2]. split; by apply plain_refs. Qed.

Lemma plain_to_do e : plain_update e -> to_do e = 0%nat.
Proof. intros H. destruct (plain_no_refs e H) as [H1 H2]. unfold to_do. rewrite H1, H2. by destruct (e_overwrite_trigger_run e), (e_insert_trigger_run e). Qed.

Lemma high_to_do us : keys_good us -> Forall high us -> sum_to_do us = 0%nat.
Proof.
  unfold sum_to_do. induction us as [|e us IH]; intros Hg Hh; [done|]. apply Forall_cons_1 in Hg as [(_ & Hp & _) Hg], Hh as [He Hh].
  cbn. rewrite IH by done. rewrite plain_to_do by auto. done.
Qed.

Lemma old_refs_run e i o : old_refs (set_run e i o) = old_refs e.
Proof. done. Qed.

Lemma new_refs_run e i o : new_refs (set_run e i o) = new_refs e.
Proof. done. Qed.

Lemma to_do_le e : (to_do (run_flags e) <= to_do e)%nat.
Proof.
  unfold run_flags. repeat (match goal with |- context [if ?b then _ else _] => destruct b eqn:? end); unfold to_do; rewrite ?old_refs_run, ?new_refs_run; cbn; 
    destruct (e_overwrite_trigger_run e), (e_insert_trigger_run e); cbn in *; try done; lia.
Qed.

(** *** The pointers of a commit *)

(** The updates it starts with, and the keys that may have pointers. *)
Context (Htw : trees_wf c) (us0 : list btree_insert_entry) (K : list (Z * bpos)).

Definition primary (key : Z * bpos) : Prop := btree_trigger_order key.1 < 8.
Definition old_at (key : Z * bpos) : list ref := refs_of key.1 (peek_slot c key.1 key.2).
Definition new_at (key : Z * bpos) : list ref := match find_update us0 key with Some e => new_refs e | None => [] end.
Definition contrib (us : list btree_insert_entry) (key : Z * bpos) : list ref := match find_update us key with Some e => share e | None => old_at key end.

Context (HK : NoDup K) (HKp : forall key, key ∈ K -> primary key) (HKin : forall e, e ∈ us0 -> primary (ekey e) -> ekey e ∈ K).
Context (HKU : flat_map (fun key => old_at key ++ new_at key) K ⊆+ U).
Context (Hself : forall key, key ∈ K -> NoDup (map ref_sector (old_at key)) /\ NoDup (map ref_sector (new_at key))).

(** No sector is that of two new keys.  It may move from one key to another
    that had no pointers and whose triggers do not run in an earlier group. *)
Context (Hbehind : forall x y r r', x ∈ K -> y ∈ K -> x <> y -> r ∈ new_at x -> r' ∈ new_at y -> ref_sector r <> ref_sector r').
Context (Hmoves : forall x y r r', x ∈ K -> y ∈ K -> x <> y -> r ∈ new_at x -> r' ∈ old_at y -> ref_sector r = ref_sector r' ->
  has_refs (peek_slot c x.1 x.2) = false /\ btree_trigger_order y.1 <= btree_trigger_order x.1 /\ is_Some (find_update us0 y)).

Definition picked (sel : Z * bpos -> list ref) (key : Z * bpos) : Prop := sel key = [] \/ sel key = old_at key \/ sel key = new_at key.

Lemma flat_map_eq {A B} (f g : A -> list B) l : (forall x, x ∈ l -> f x = g x) -> flat_map f l = flat_map g l.
Proof. induction l as [|x l IH]; intros H; [done|]. cbn. rewrite H by apply list_elem_of_here. rewrite IH; [done|]. intros y Hy. by apply H, list_elem_of_further. Qed.

Lemma flat_map_sub (f g : Z * bpos -> list ref) l : (forall key, key ∈ l -> f key ⊆+ g key) -> flat_map f l ⊆+ flat_map g l.
Proof.
  induction l as [|key l IH]; intros H; [done|]. cbn. apply submseteq_app; [apply H, list_elem_of_here|]. apply IH. intros k Hk. by apply H, list_elem_of_further.
Qed.

Lemma picked_sub sel key : picked sel key -> sel key ⊆+ old_at key ++ new_at key.
Proof. intros [-> |[-> | ->]]; [apply submseteq_nil_l|by apply submseteq_inserts_r|by apply submseteq_inserts_l]. Qed.

Lemma picked_U sel : (forall key, key ∈ K -> picked sel key) -> flat_map sel K ⊆+ U.
Proof. intros H. etransitivity; [|exact HKU]. apply flat_map_sub. intros key Hk. by apply picked_sub, H. Qed.

Lemma flat_map_in {A B} (f : A -> list B) l x : x ∈ flat_map f l <-> exists a, a ∈ l /\ x ∈ f a.
Proof. rewrite list_elem_of_In, in_flat_map. split; intros (a & H1 & H2); exists a; by rewrite !list_elem_of_In in *. Qed.

(** *** What holds while the triggers run *)

Record invariant (us : list btree_insert_entry) : Prop := {
  iv_exact : exact us (flat_map (contrib us) K);
  iv_once : NoDup (map ref_sector (flat_map (contrib us) K));
  iv_good : keys_good us;
  iv_ok : Forall (fun e => low e -> entry_ok e) us;
  iv_same : forall key, primary key -> option_map e_k (find_update us key) = option_map e_k (find_update us0 key);
  iv_budget : (length us + 2 * sum_to_do us <= BTREE_ITER_INITIAL)%nat;
  iv_phase : dflags us \/ Forall (fun e => low e -> trigger_done e = true) us
}.

Lemma low_primary e : update_wf c e -> low e <-> primary (ekey e).
Proof. intros H. unfold low, primary, ekey. by rewrite (u_order _ _ H). Qed.

Lemma primary_not_derived key : primary key -> ~ derived_tree key.1.
Proof. intros H Hd. apply derived_order in Hd. unfold primary in H. lia. Qed.

Lemma in_wf us e : invariant us -> e ∈ us -> update_wf c e.
Proof. intros H He. apply (proj1 (Forall_forall _ _) (proj1 (ex_wf _ _ (iv_exact _ H))) e He). Qed.

Lemma old_refs_at e : update_wf c e -> old_refs e = old_at (ekey e).
Proof. intros H. unfold old_refs, old_at. by rewrite (u_old _ _ H). Qed.

Lemma new_refs_at us e : invariant us -> e ∈ us -> low e -> new_refs e = new_at (ekey e) /\ ekey e ∈ K.
Proof.
  intros H He Hl. pose proof (in_wf us e H He) as Hw. pose proof (iv_same _ H (ekey e) (proj1 (low_primary e Hw) Hl)) as E.
  rewrite (find_update_sorted us e (proj2 (ex_wf _ _ (iv_exact _ H))) He) in E. unfold new_at. destruct (find_update us0 (ekey e)) as [e0|] eqn:E0; [|done].
  cbn in E. apply find_update_Some in E0 as [Hin Hk]. split.
  - unfold new_refs. assert (e_k e = e_k e0) as -> by congruence. unfold ekey in Hk. congruence.
  - rewrite <- Hk. apply HKin; [done|]. rewrite Hk. by apply low_primary.
Qed.

Lemma contrib_picked us key : invariant us -> key ∈ K -> picked (contrib us) key.
Proof.
  intros H Hk. unfold picked, contrib. destruct (find_update us key) as [e|] eqn:E; [|by right; left]. apply find_update_Some in E as [He <-].
  pose proof (in_wf us e H He) as Hw. destruct (new_refs_at us e H He) as [En _]; [by apply low_primary, HKp|].
  unfold share. rewrite (old_refs_at e Hw), En. destruct (e_overwrite_trigger_run e), (e_insert_trigger_run e); auto.
Qed.

(** The new pointers of the next trigger are not at sectors accounted for. *)
Lemma others_apart us e K' : invariant us -> e ∈ us -> low e -> K ≡ₚ ekey e :: K' -> inserts e ->
  (forall y, y ∈ us -> ekey y <> ekey e -> e_overwrite_trigger_run e = true -> e_sort_order y <= e_sort_order e -> past_first low y) ->
  forall r r', r ∈ new_refs e -> r' ∈ flat_map (contrib us) K' -> ref_sector r <> ref_sector r'.
Proof.
  intros H He Hlow HK' Hins Hlate r r' Hr Hr' Es. pose proof (in_wf us e H He) as Hwe. destruct (new_refs_at us e H He Hlow) as [En HKe]. rewrite En in Hr.
  assert (NoDup (ekey e :: K')) as [HnK' _]%NoDup_cons by (by rewrite <- HK').
  apply flat_map_in in Hr' as (y & Hy & Hr'). assert (y ∈ K) as HyK by (rewrite HK'; by apply list_elem_of_further). assert (ekey e <> y) as Hne by (intros E; apply HnK'; by rewrite E).
  assert (r' ∈ old_at y -> has_refs (e_old e) = false /\ btree_trigger_order y.1 <= e_sort_order e /\ is_Some (find_update us y)) as Hmv.
  { intros Ho. destruct (Hmoves (ekey e) y r r' HKe HyK Hne Hr Ho Es) as (H1 & H2 & [e0 H3]). rewrite (u_old _ _ Hwe), (u_order _ _ Hwe). split; [done|]. split; [done|].
    pose proof (iv_same _ H y (HKp y HyK)) as E. rewrite H3 in E. destruct (find_update us y); [by eexists|done]. }
  assert (has_refs (e_k e) = true) as Hnk.
  { rewrite <- En in Hr. unfold new_refs, refs_of in Hr. destruct (has_refs (e_k e)); [done|]. by apply not_elem_of_nil in Hr. }
  unfold contrib in Hr'. destruct (find_update us y) as [x|] eqn:Ex; [|destruct (Hmv Hr') as (_ & _ & [? ?]); done].
  apply find_update_Some in Ex as [Hx <-]. pose proof (in_wf us x H Hx) as Hwx. assert (low x) as Hlx by (apply low_primary; [done|by apply HKp]).
  destruct (new_refs_at us x H Hx Hlx) as [Enx _]. unfold share in Hr'. destruct (e_overwrite_trigger_run x) eqn:Eo.
  - destruct (e_insert_trigger_run x); [|by apply not_elem_of_nil in Hr']. rewrite Enx in Hr'. exact (Hbehind (ekey e) (ekey x) r r' HKe HyK Hne Hr Hr' Es).
  - rewrite (old_refs_at x Hwx) in Hr'. destruct (Hmv Hr') as (Hno & Hord & _).
    assert (e_overwrite_trigger_run e = true) as Hov by (destruct Hins as [|Ek]; [done|]; unfold has_refs in *; rewrite Ek in Hno; congruence).
    assert (e_sort_order x <= e_sort_order e) as Hord' by (by rewrite (u_order _ _ Hwx)).
    destruct (Hlate x Hx ltac:(congruence) Hov Hord' Hlx) as [Hd|Hd]; [|congruence].
    destruct (eo_armed _ (proj1 (Forall_forall _ _) (iv_ok _ H) x Hx Hlx)) as [Hp|[Hf Ht]].
    + destruct (plain_no_refs x Hp) as [E0 _]. rewrite <- (old_refs_at x Hwx), E0 in Hr'. by apply not_elem_of_nil in Hr'.
    + unfold trigger_done in Hd. rewrite Hf, Ht, Eo in Hd. by rewrite andb_false_r in Hd.
Qed.

(** After its next trigger an update accounts for nothing, or for the new key. *)
Lemma share_next e : entry_ok e -> trigger_done e = false -> share (run_flags e) = [] /\ True \/ share (run_flags e) = new_refs e /\ inserts e.
Proof.
  intros Hok Hd. apply not_done in Hd. unfold run_flags, share, inserts. destruct (e_insert_trigger_run e) eqn:E1; [rewrite (eo_flags _ Hok E1) in Hd; done|].
  destruct (e_overwrite_trigger_run e) eqn:E2; cbn [negb andb]; [right; split; [done|by left]|].
  destruct (Z.eqb_spec (key_trigger_kind (kv_type (e_old e))) (key_trigger_kind (kv_type (e_k e)))) as [Ek|Ek]; [right; split; [done|by right]|].
  left. split; [|done]. done.
Qed.

Lemma once_app (l l' : list ref) : NoDup (map ref_sector l) -> NoDup (map ref_sector l') -> (forall r r', r ∈ l -> r' ∈ l' -> ref_sector r <> ref_sector r') -> NoDup (map ref_sector (l ++ l')).
Proof.
  intros H1 H2 H. rewrite map_app. apply list.NoDup_app. split; [done|]. split; [|done]. intros x Hx Hx'. apply list_elem_of_fmap in Hx as (r & -> & Hr), Hx' as (r' & E & Hr'). by apply (H r r').
Qed.

Lemma low_step pre e post : invariant (pre ++ e :: post) -> low e -> settled low (e_sort_order e) pre -> trigger_done e = false ->
  (low e -> e_overwrite_trigger_run e = true -> Forall (fun x => past_first low x \/ order_above (e_sort_order e) x) post) ->
  exists us' ret, run_one_trans_trigger c (pre ++ e :: post) (length pre) = Some (us', ret) /\
    (ret <> 0 /\ ~ admissible \/
     ret = 0 /\ exists mid post1 post2, us' = pre ++ run_flags e :: mid ++ post2 /\ post = mid ++ post1 /\ invariant us' /\ Forall high post1 /\ Forall high post2).
Proof.
  intros H Hlow Hset Hd Hlate. set (us := pre ++ e :: post) in *. assert (e ∈ us) as He by (apply elem_of_app; right; apply list_elem_of_here).
  pose proof (in_wf us e H He) as Hwe. destruct (new_refs_at us e H He Hlow) as [En HKe]. pose proof (proj1 (low_primary e Hwe) Hlow) as Hprim.
  assert (entry_ok e) as Hok by (apply (proj1 (Forall_forall _ _) (iv_ok _ H) e He Hlow)).
  pose proof (ex_wf _ _ (iv_exact _ H)) as Hwf. pose proof (find_update_sorted us e (proj2 Hwf) He) as Ef.
  assert (exists K', K ≡ₚ ekey e :: K') as [K' HK'].
  { apply list_elem_of_split in HKe as (l1 & l2 & ->). exists (l1 ++ l2). symmetry. apply Permutation_middle. }
  assert (NoDup (ekey e :: K')) as [HnK' _]%NoDup_cons by (by rewrite <- HK').
  set (rest := flat_map (contrib us) K').
  assert (exact us (share e ++ rest)) as Hex.
  { eapply exact_perm; [|apply H]. rewrite (Permutation_flat_map _ HK'). cbn [flat_map]. unfold contrib at 1. by rewrite Ef. }
  set (us1 := pre ++ run_flags e :: post). assert (Forall2 same_update us us1) as Hsame by (apply same_at, run_flags_same).
  assert (flat_map (contrib us) K ≡ₚ share e ++ rest) as Eperm by (rewrite (Permutation_flat_map _ HK'); cbn [flat_map]; unfold contrib at 1; by rewrite Ef).
  assert (NoDup (map ref_sector (share e ++ rest))) as Honce by (rewrite <- Eperm; apply (iv_once _ H)).
  assert (NoDup (map ref_sector rest)) as Hrest by (rewrite map_app in Honce; by apply list.NoDup_app in Honce as (_ & _ & Honce)).
  assert (inserts e -> NoDup (map ref_sector (new_refs e ++ rest))) as Hnew.
  { intros Hins. apply once_app; [rewrite En; by apply Hself|done|]. apply (others_apart us e K'); try done. intros y Hy Hne Hov Hord Hly.
    apply elem_of_app in Hy as [Hy|Hy]; [destruct (proj1 (Forall_forall _ _) Hset y Hy) as [[_ Hp]|Hp]; [by apply Hp|by left]|].
    apply elem_of_cons in Hy as [->|Hy]; [done|]. destruct (proj1 (Forall_forall _ _) (Hlate Hlow Hov) y Hy) as [Hp|Hp]; [by apply Hp|]. unfold order_above in Hp. lia. }
  assert (rest ⊆+ flat_map (fun key => old_at key ++ new_at key) K') as HrK.
  { apply flat_map_sub. intros key Hkey. apply picked_sub, contrib_picked; [done|]. rewrite HK'. by apply list_elem_of_further. }
  assert (forall k, refs_of (e_btree_id e) k = [] \/ refs_of (e_btree_id e) k = old_at (ekey e) \/ refs_of (e_btree_id e) k = new_at (ekey e) -> (refs_of (e_btree_id e) k ++ rest) ⊆+ U) as HinU.
  { intros k Hk. etransitivity; [|exact HKU]. rewrite (Permutation_flat_map _ HK'). cbn [flat_map]. apply submseteq_app; [|done]. by apply (picked_sub (fun _ => refs_of (e_btree_id e) k)). }
  assert (forall k, refs_of (e_btree_id e) k = [] \/ refs_of (e_btree_id e) k = old_at (ekey e) \/ refs_of (e_btree_id e) k = new_at (ekey e) -> NoDup (map ref_sector (refs_of (e_btree_id e) k ++ rest)) ->
    fits (e_btree_id e) k rest) as Hfit.
  { intros k Hk Hn. split; [|done]. apply Forall_forall. intros r Hr. apply (proj1 (Forall_forall _ _) HU). eapply elem_of_submseteq; [exact Hr|by apply HinU]. }
  assert (dflags us) as Hdf.
  { destruct (iv_phase _ H) as [Hdf|Hph]; [done|]. rewrite (proj1 (Forall_forall _ _) Hph e He Hlow) in Hd. done. }
  assert (dflags us1) as Hdf1.
  { apply Forall_app in Hdf as [H1 H2]. apply Forall_cons_1 in H2 as [_ H2]. apply Forall_app. split; [done|]. apply Forall_cons_2; [|done].
    rewrite (run_flags_same e). cbn. intros Hder. exfalso. by apply (primary_not_derived _ Hprim). }
  pose proof (iv_budget _ H) as Hbud.
  assert (sum_to_do us = (sum_to_do pre + (to_do e + sum_to_do post)))%nat as Esum by (unfold sum_to_do, us; by rewrite sum_list_with_app).
  assert (length us1 = length us) as Hlen1 by (unfold us1, us; rewrite !length_app; done).
  destruct (run_entry pre e post rest Hwe Hok Hd Hdf1 ltac:(by eapply exact_same)) as (us2 & ret & Erun & Hcase).
  { split; [apply (HinU (deleted_key (kv_pos (e_k e)))); left; apply deleted_refs|]. split; [apply Hfit; [left; apply deleted_refs|by rewrite deleted_refs]|]. split.
    - intros Eo. apply Hfit; [right; left; by apply old_refs_at|]. unfold share in Honce. by rewrite Eo in Honce.
    - intros Hins. split; [apply Hfit; [right; by right|by apply Hnew]|]. apply HinU. right. by right. }
  { fold us1. lia. }
  exists us2, ret. split; [done|]. destruct Hcase as [Hcase|(-> & G & Hex2)]; [by left|]. right. split; [done|].
  assert (updates_wf c post) as Hwpost.
  { destruct Hwf as [Hw Hs]. apply Forall_app in Hw as [_ Hw]. apply updates_sorted_app in Hs as (_ & Hs & _). eapply updates_wf_tail. by split. }
  destruct (low_then_high post Hwpost) as (mid & h & -> & Hmid & Hh).
  assert (Forall low pre) as Hpre.
  { destruct (sorted_around pre e (mid ++ h) Hwf) as [Hp _]. eapply Forall_impl; [exact Hp|]. intros x Hx. cbn in Hx. unfold low in *. lia. }
  assert (low (run_flags e)) as Hlow' by (unfold low; by rewrite (same_update_order _ _ (run_flags_same e))).
  destruct (g_split _ _ _ G (pre ++ run_flags e :: mid) h) as (h' & -> & Hh').
  { by rewrite <- app_assoc. }
  { apply Forall_app. split; [done|]. by apply Forall_cons_2. }
  { done. }
  rewrite <- app_assoc in *. cbn [app] in *. set (us2 := pre ++ run_flags e :: mid ++ h') in *.
  exists mid, h, h'. split; [done|]. split; [done|]. split; [|done].
  assert (ekey (run_flags e) = ekey e) as Eke by (apply same_update_key, run_flags_same).
  assert (forall key, primary key -> find_update us2 key = find_update us1 key) as Hfind by (intros key Hkey; apply (g_other _ _ _ G); by apply primary_not_derived).
  assert (find_update us1 (ekey e) = Some (run_flags e)) as Ef1.
  { rewrite <- Eke. apply find_update_sorted; [by eapply updates_wf_same|]. apply elem_of_app. right. apply list_elem_of_here. }
  assert (keys_good us2) as Hgood2.
  { apply (g_good _ _ _ G). pose proof (iv_good _ H) as Hg. apply Forall_app in Hg as [H1 H2]. apply Forall_cons_1 in H2 as [H2 H3]. apply Forall_app. split; [done|]. apply Forall_cons_2; [|done].
    by eapply good_same; [apply run_flags_same|]. }
  assert (flat_map (contrib us2) K ≡ₚ share (run_flags e) ++ rest) as Eperm2.
  { rewrite (Permutation_flat_map _ HK'). cbn [flat_map]. unfold contrib at 1. rewrite Hfind, Ef1 by done. apply Permutation_app_head.
    unfold rest. assert (forall key, key ∈ K' -> contrib us2 key = contrib us key) as Hc.
    { intros key Hkey. assert (key ∈ K) as HKk by (rewrite HK'; by apply list_elem_of_further). unfold contrib. rewrite Hfind by (by apply HKp).
      unfold us1, us. rewrite (find_at pre e (run_flags e)); [done|done|]. intros ->. done. }
    by rewrite (flat_map_eq _ _ _ Hc). }
  constructor.
  - eapply exact_perm; [symmetry; exact Eperm2|exact Hex2].
  - rewrite Eperm2. destruct (share_next e Hok Hd) as [[Es _]|[Es Hins]]; rewrite Es; [done|by apply Hnew].
  - done.
  - pose proof (iv_ok _ H) as Ho. apply Forall_app in Ho as [H1 H2]. apply Forall_cons_1 in H2 as [H2 H3]. apply Forall_app in H3 as [H3 _].
    apply Forall_app. split; [done|]. apply Forall_cons_2; [intros _; eapply ok_same; [apply run_flags_same|by apply run_flags_order|by apply H2]|]. apply Forall_app. split; [done|].
    eapply Forall_impl; [exact Hh'|]. unfold low, high. intros x Hx Hx'. lia.
  - intros key Hkey. rewrite Hfind by done. rewrite (find_same _ _ _ Hsame). by apply (iv_same _ H).
  - pose proof (g_len _ _ _ G) as Hl2. pose proof (to_do_le e) as Hle. unfold us2, us1, us in *. clear us2 us1 us. unfold sum_to_do in *.
    pose proof (iv_good _ H) as Hg. apply Forall_app in Hg as [_ Hg]. apply Forall_cons_1 in Hg as [_ Hg]. apply Forall_app in Hg as [_ Hg].
    apply Forall_app in Hgood2 as [_ Hg2]. apply Forall_cons_1 in Hg2 as [_ Hg2]. apply Forall_app in Hg2 as [_ Hg2].
    pose proof (high_to_do h Hg Hh) as E0. pose proof (high_to_do h' Hg2 Hh') as E0'. unfold sum_to_do in *.
    rewrite !sum_list_with_app in *. cbn [sum_list_with] in *. rewrite !sum_list_with_app in *. lia.
  - left. apply G.
Qed.

Lemma high_step pre e post : invariant (pre ++ e :: post) -> high e -> settled low (e_sort_order e) pre -> trigger_done e = false ->
  run_one_trans_trigger c (pre ++ e :: post) (length pre) = Some (pre ++ run_flags e :: post, 0) /\ invariant (pre ++ run_flags e :: post).
Proof.
  intros H Hh Hset Hd. set (us := pre ++ e :: post) in *. set (us1 := pre ++ run_flags e :: post). assert (e ∈ us) as He by (apply elem_of_app; right; apply list_elem_of_here).
  pose proof (in_wf us e H He) as Hwe. pose proof (proj1 (Forall_forall _ _) (iv_good _ H) e He) as Hge. destruct Hge as (Hkw & Hpl & Hal).
  split; [by apply run_plain; auto|]. assert (Forall2 same_update us us1) as Hsame by (apply same_at, run_flags_same).
  assert (~ primary (ekey e)) as Hnp by (intros Hp; apply low_primary in Hp; [unfold low, high in *; lia|done]).
  assert (ekey (run_flags e) = ekey e) as Eke by (apply same_update_key, run_flags_same). pose proof (iv_good _ H) as Hg. pose proof (iv_ok _ H) as Ho.
  apply Forall_app in Hg as [Hg1 Hg2]. apply Forall_cons_1 in Hg2 as [Hg2 Hg3]. apply Forall_app in Ho as [Ho1 Ho2]. apply Forall_cons_1 in Ho2 as [_ Ho3].
  assert (high (run_flags e)) as Hh' by (unfold high; by rewrite (same_update_order _ _ (run_flags_same e))).
  assert (flat_map (contrib us1) K = flat_map (contrib us) K) as Esame.
  { apply flat_map_eq. intros key Hk. unfold contrib, us1, us. rewrite (find_at pre e (run_flags e)); [done|done|]. intros ->. by apply Hnp, HKp. }
  constructor.
  - eapply exact_same; [exact Hsame|]. rewrite Esame. apply H.
  - rewrite Esame. apply H.
  - apply Forall_app. split; [done|]. apply Forall_cons_2; [|done]. by eapply good_same; [apply run_flags_same|].
  - apply Forall_app. split; [done|]. apply Forall_cons_2; [|done]. intros Hl. unfold low, high in *. lia.
  - intros key Hk. rewrite (find_same _ _ _ Hsame). by apply (iv_same _ H).
  - pose proof (iv_budget _ H) as Hb. pose proof (to_do_le e). unfold us1, us, sum_to_do in *. rewrite !length_app, !sum_list_with_app in *. cbn [length sum_list_with] in *. lia.
  - right. destruct (sorted_around pre e post (ex_wf _ _ (iv_exact _ H))) as [_ Hpost]. apply Forall_app. split.
    + eapply Forall_impl; [exact Hset|]. intros x [[Hx _]|Hx] Hl; [|done]. unfold low, high in *. lia.
    + apply Forall_cons_2; [unfold low, high in *; lia|]. eapply Forall_impl; [exact Hpost|]. intros x Hx Hl. cbn in Hx. unfold low, high in *. lia.
Qed.

(** All triggers together. *)
Lemma derived_triggers us : invariant us -> Forall (untouched low) us -> exists us' ret, bch2_trans_commit_run_triggers c us = Some (us', ret) /\
  (ret <> 0 /\ ~ admissible \/ ret = 0 /\ invariant us' /\ Forall (fun e => trigger_done e = true) us').
Proof.
  intros H Hun. apply (run_triggers_ok c invariant (fun _ => ~ admissible) low); [| | |done|done].
  - intros pre e post HI Hset Hd Hlate. destruct (Z.lt_ge_cases (e_sort_order e) 8) as [Hl|Hh].
    + destruct (low_step pre e post HI Hl Hset Hd Hlate) as (us' & ret & E & Hcase). exists us', ret. split; [done|]. destruct Hcase as [Hcase|(-> & mid & p1 & p2 & -> & -> & HI' & H1 & H2)]; [by left|].
      right. split; [done|]. exists (run_flags e), mid, p1, p2. do 2 (split; [done|]). split; [apply run_flags_same|]. split; [by apply run_flags_unset|]. split; [apply run_flags_overwritten|]. split; [done|].
      unfold order_above, untouched, high, low in *. split; [|split]; [| |intros _]; (eapply Forall_impl; [eassumption|]; intros x Hx; cbn in Hx; lia).
    + destruct (high_step pre e post HI Hh Hset Hd) as [E HI']. eexists _, _. split; [done|]. right. split; [done|]. exists (run_flags e), post, [], []. rewrite !app_nil_r.
      do 2 (split; [done|]). split; [apply run_flags_same|]. split; [by apply run_flags_unset|]. split; [apply run_flags_overwritten|]. split; [done|]. split; [constructor|]. split; constructor.
  - intros us1 H1. pose proof (iv_budget _ H1). lia.
  - intros us1 H1. pose proof (ex_wf _ _ (iv_exact _ H1)) as [Hw Hs]. split; [done|]. eapply Forall_impl; [exact Hw|]. intros e []. done.
Qed.

(** When they have all run, the pointers are those of the new keys. *)
Definition final_at (us : list btree_insert_entry) (key : Z * bpos) : list ref := match after (f_trees c) us key with Some k => refs_of key.1 k | None => [] end.

Lemma share_done e : trigger_done e = true -> entry_ok e -> share e = new_refs e.
Proof.
  intros Hd Hok. destruct (eo_armed _ Hok) as [Hp|[Hf Ht]].
  - destruct (plain_no_refs e Hp) as [H1 H2]. unfold share. rewrite H1, H2. by destruct (e_overwrite_trigger_run e), (e_insert_trigger_run e).
  - unfold trigger_done in Hd. rewrite Hf, Ht in Hd. cbn in Hd. apply andb_true_iff in Hd as [H1 H2]. unfold share. by rewrite H1, H2.
Qed.

Lemma live_refs b k : refs_of b k = match live k with Some k => refs_of b k | None => [] end.
Proof. unfold live. destruct (Z.eqb_spec (kv_type k) KEY_TYPE_deleted) as [E|]; [|done]. apply plain_refs. by rewrite E. Qed.

Lemma contrib_done us key : invariant us -> Forall (fun e => trigger_done e = true) us -> primary key -> contrib us key = final_at us key.
Proof.
  intros H Hd Hp. unfold contrib, final_at, after. destruct (find_update us key) as [e|] eqn:E.
  - apply find_update_Some in E as [He <-]. pose proof (in_wf us e H He) as Hw. apply low_primary in Hp; [|done].
    rewrite share_done; [apply live_refs|by apply (proj1 (Forall_forall _ _) Hd)|by apply (proj1 (Forall_forall _ _) (iv_ok _ H) e)].
  - unfold old_at, peek_slot. destruct key as [b p]. cbn [fst snd]. by destruct (f_trees c !! (b, p)).
Qed.

End Steps.

(** ** The trees *)

Definition tree_refs (t : gmap (Z * bpos) kv) : list ref := flat_map (fun '(key, k) => refs_of key.1 k) (map_to_list t).
Definition refs_at (t : gmap (Z * bpos) kv) (key : Z * bpos) : list ref := match t !! key with Some k => refs_of key.1 k | None => [] end.

Lemma flat_map_none {A B} (f : A -> list B) l : (forall x, x ∈ l -> f x = []) -> flat_map f l = [].
Proof. induction l as [|x l IH]; intros H; [done|]. cbn. rewrite H by apply list_elem_of_here. apply IH. intros y Hy. by apply H, list_elem_of_further. Qed.

Lemma flat_map_cover {A B} `{EqDecision A} (f : A -> list B) l l' : NoDup l -> NoDup l' -> (forall x, f x <> [] -> x ∈ l <-> x ∈ l') -> flat_map f l ≡ₚ flat_map f l'.
Proof.
  revert l'. induction l as [|x l IH]; intros l' Hn Hn' H.
  - assert (flat_map f l' = []) as ->; [|done]. apply flat_map_none. intros x Hx. destruct (f x) eqn:E; [done|].
    destruct (H x) as [_ H']; [by rewrite E|]. by apply H', not_elem_of_nil in Hx.
  - apply NoDup_cons in Hn as [Hx Hn]. cbn [flat_map]. destruct (decide (f x = [])) as [E|E].
    + rewrite E. apply IH; [done|done|]. intros y Hy. rewrite <- H by done. rewrite elem_of_cons. split; [by right|]. intros [->|Hy']; done.
    + assert (x ∈ l') as Hx' by (apply H; [done|apply list_elem_of_here]). apply list_elem_of_split in Hx' as (l1 & l2 & ->).
      rewrite <- Permutation_middle in Hn'. apply NoDup_cons in Hn' as [Hx' Hn'].
      rewrite (Permutation_flat_map f (symmetry (Permutation_middle l1 l2 x))). cbn [flat_map]. apply Permutation_app_head. apply IH; [done|done|].
      intros y Hy. specialize (H y Hy). rewrite elem_of_app, !elem_of_cons in H. rewrite elem_of_app. split.
      * intros Hyl. destruct (proj1 H (or_intror Hyl)) as [|[->|]]; [by left|done|by right].
      * intros Hyl. destruct (proj2 H) as [->|]; [tauto| |done]. by rewrite elem_of_app in Hx'.
Qed.

Lemma tree_refs_keys t : tree_refs t ≡ₚ flat_map (refs_at t) (map fst (map_to_list t)).
Proof.
  unfold tree_refs. assert (forall l, (forall key k, (key, k) ∈ l -> t !! key = Some k) -> flat_map (fun '(key, k) => refs_of key.1 k) l = flat_map (refs_at t) (map fst l)) as H.
  { induction l as [|[key k] l IH]; intros Hl; [done|]. cbn. unfold refs_at at 1. rewrite (Hl key k) by apply list_elem_of_here. rewrite IH; [done|].
    intros key' k' Hin. by apply Hl, list_elem_of_further. }
  rewrite H; [done|]. intros key k. by apply elem_of_map_to_list.
Qed.

Lemma tree_refs_over t l : NoDup l -> (forall key, refs_at t key <> [] -> key ∈ l) -> tree_refs t ≡ₚ flat_map (refs_at t) l.
Proof.
  intros Hn Hl. rewrite tree_refs_keys. assert (forall key, refs_at t key <> [] -> key ∈ map fst (map_to_list t)) as Hd.
  { intros key H. unfold refs_at in H. destruct (t !! key) as [k|] eqn:E; [|done]. apply list_elem_of_fmap. exists (key, k). split; [done|]. by apply elem_of_map_to_list. }
  apply flat_map_cover; [apply NoDup_fst_map_to_list|done|]. intros key H. split; auto.
Qed.

(** Buckets and backpointers are those of the pointers in the trees. *)
Record derived_ok (c : fs) : Prop := {
  do_trees : derived_trees c;
  do_alloc : forall p, alloc_wf (aview c [] p);
  do_charged : charged c [] (tree_refs (f_trees c));
  do_pointed : pointed c [] (tree_refs (f_trees c));
  do_valid : Forall (ref_valid c) (tree_refs (f_trees c));
  do_refs : Forall (ref_ok c) (tree_refs (f_trees c));
  do_once : NoDup (map ref_sector (tree_refs (f_trees c)))
}.

(** An update given to a commit. *)
Record update_ok (c : fs) (e : btree_insert_entry) : Prop := {
  uo_flags : e_insert_trigger_run e = false /\ e_overwrite_trigger_run e = false;
  uo_key : kv_wf (e_k e);
  uo_tree : ~ derived_tree (e_btree_id e);
  uo_high : high e -> plain_update e;
  uo_low : low e -> entry_ok e;
  uo_refs : Forall (ref_ok c) (new_refs e);
  uo_once : NoDup (map ref_sector (new_refs e))
}.

(** All pointers before and behind it. *)
Definition all_refs (c : fs) (us : list btree_insert_entry) : list ref := tree_refs (f_trees c) ++ flat_map new_refs us.

(** Behind the commit no two keys have the same sector.  A sector may move from
    one key to another, as when an extent is trimmed behind or split and the
    part in front keeps it, if the other key had no pointers, and its triggers do
    not run in an earlier group. *)
Record sectors_apart (c : fs) (us : list btree_insert_entry) : Prop := {
  sa_behind : forall x y r r', x <> y -> r ∈ final_at c us x -> r' ∈ final_at c us y -> ref_sector r <> ref_sector r';
  sa_moves : forall x y r r', x <> y -> r ∈ final_at c us x -> r' ∈ refs_at (f_trees c) y -> ref_sector r = ref_sector r' ->
    has_refs (peek_slot c x.1 x.2) = false /\ btree_trigger_order y.1 <= btree_trigger_order x.1
}.

Definition unmixed (c : fs) (U : list ref) : Prop := forall r r', r ∈ U -> r' ∈ U -> ref_bucket c r = ref_bucket c r' -> ref_gen r' = 0 -> ref_gen r = 0.

Lemma same_member c c' dev : same_env c c' -> sb_member_get c' dev = sb_member_get c dev.
Proof. intros (_ & E & _). unfold sb_member_get. by rewrite E. Qed.

Lemma same_bucket c c' r : same_env c c' -> ref_bucket c' r = ref_bucket c r.
Proof. intros H. unfold ref_bucket. by rewrite (same_member c c'). Qed.

Lemma same_sum c c' p l : same_env c c' -> sum_at c' p l = sum_at c p l.
Proof. intros H. induction l as [|r l IH]; [done|]. cbn. by rewrite IH, (same_bucket c c'). Qed.

Lemma same_valid c c' r : same_env c c' -> ref_valid c r -> ref_valid c' r.
Proof.
  intros H. unfold ref_valid, trigger_pointer_validate. rewrite (same_member c c') by done. destruct H as (-> & -> & -> & _). done.
Qed.

Lemma new_at_sub us l : NoDup l -> flat_map (new_at us) l ⊆+ flat_map new_refs us.
Proof.
  revert l. induction us as [|e us IH]; intros l Hn.
  - by rewrite (flat_map_none _ l).
  - assert (forall key, key <> ekey e -> new_at (e :: us) key = new_at us key) as Hne.
    { intros key Hk. unfold new_at. rewrite find_update_cons. by rewrite decide_False by congruence. }
    cbn [flat_map]. destruct (decide (ekey e ∈ l)) as [Hin|Hin].
    + apply list_elem_of_split in Hin as (l1 & l2 & ->). rewrite <- Permutation_middle in Hn. apply NoDup_cons in Hn as [Hk Hn].
      rewrite (Permutation_flat_map _ (symmetry (Permutation_middle l1 l2 (ekey e)))). cbn [flat_map]. apply submseteq_app.
      * unfold new_at. by rewrite find_update_cons, decide_True.
      * rewrite (flat_map_eq _ (new_at us)); [by apply IH|]. intros x Hx. apply Hne. by intros ->.
    + etransitivity; [|apply submseteq_inserts_l; by apply IH]. rewrite (flat_map_eq _ (new_at us)); [done|]. intros x Hx. apply Hne. by intros ->.
Qed.

Lemma flat_map_both {A B} (f g : A -> list B) l : flat_map (fun x => f x ++ g x) l ≡ₚ flat_map f l ++ flat_map g l.
Proof.
  induction l as [|x l IH]; [done|]. cbn. rewrite IH, <- !app_assoc. apply Permutation_app_head. rewrite !app_assoc. apply Permutation_app_tail. apply Permutation_app_comm.
Qed.

(** What a transaction saw of the buckets is what is read behind it. *)
Lemma aview_after c c' us p : updates_wf c us -> (forall e, e ∈ us -> e_btree_id e = 4 -> is_alloc (e_k e) = true) ->
  (forall key, f_trees c' !! key = after (f_trees c) us key) -> aview c' [] p = aview c us p.
Proof.
  intros Hw Hal Hkeys. unfold aview, trigger_read_alloc. rewrite (staged_find c us) by done. cbn [trigger_staged_key]. unfold peek_slot. rewrite Hkeys. unfold after.
  destruct (find_update us (4, p)) as [e|] eqn:E; cbn [option_map]; [|done]. apply find_update_Some in E as [E Hk]. injection Hk as Hb _.
  specialize (Hal e E Hb). rewrite Hal. unfold live.
  assert (kv_type (e_k e) = KEY_TYPE_alloc_v4) as -> by (unfold is_alloc in Hal; by apply andb_true_iff in Hal as [Hal%Z.eqb_eq _]).
  change (KEY_TYPE_alloc_v4 =? KEY_TYPE_deleted) with false. cbv iota. cbn [default]. unfold is_alloc in Hal |- *. cbn [from_option id]. by rewrite Hal.
Qed.

Section Commit.
Context (c : fs) (us : list btree_insert_entry) (Htw : trees_wf c) (Hok : derived_ok c) (Hw : updates_wf c us) (Hus : Forall (update_ok c) us).
Context (Hroom : (length us + 2 * sum_to_do us <= BTREE_ITER_INITIAL)%nat).
Context (Hun : sectors_apart c us) (Hmix : unmixed c (all_refs c us)).
Context (Honline : length (f_devs_online c) = 4%nat) (Hsizes : forall dev, 0 <= m_bucket_size (sb_member_get c dev)).

Definition changed : list btree_insert_entry := List.filter (fun i => negb (is_noop i)) us.
Definition ref_keys : list (Z * bpos) := filter (fun key => btree_trigger_order key.1 < 8) (elements (dom (f_trees c) ∪ list_to_set (map ekey changed))).

Lemma changed_wf : updates_wf c changed.
Proof. by apply updates_filter. Qed.

Lemma changed_in e : e ∈ changed -> e ∈ us.
Proof. intros H. apply list_elem_of_In, filter_In in H as [H _]. by apply list_elem_of_In. Qed.

Lemma changed_ok : Forall (update_ok c) changed.
Proof. apply Forall_forall. intros e He. by apply (proj1 (Forall_forall _ _) Hus), changed_in. Qed.

Lemma sum_filter f l : (sum_to_do (List.filter f l) <= sum_to_do l)%nat.
Proof. unfold sum_to_do. induction l as [|e l IH]; [done|]. cbn. destruct (f e); cbn; lia. Qed.

Lemma changed_new : flat_map new_refs changed ⊆+ flat_map new_refs us.
Proof.
  unfold changed. clear. induction us as [|e l IH]; [done|]. cbn [List.filter flat_map]. destruct (negb (is_noop e)); cbn [flat_map]; [by apply submseteq_app|by apply submseteq_inserts_l].
Qed.

Lemma ref_keys_in key : key ∈ ref_keys <-> primary key /\ (is_Some (f_trees c !! key) \/ exists e, e ∈ changed /\ ekey e = key).
Proof.
  unfold ref_keys. rewrite list_elem_of_filter, elem_of_elements, elem_of_union, elem_of_dom, elem_of_list_to_set, list_elem_of_fmap. unfold primary.
  split; intros [H1 H2]; (split; [done|]); (destruct H2 as [H2|(e & H2 & H3)]; [by left|right; by exists e]).
Qed.

Lemma old_at_refs key : old_at c key = refs_at (f_trees c) key.
Proof. unfold old_at, refs_at, peek_slot. destruct key as [b p]. cbn [fst snd]. by destruct (f_trees c !! (b, p)). Qed.

Lemma plain_tree_refs key : ~ primary key -> refs_at (f_trees c) key = [].
Proof.
  intros H. unfold refs_at. destruct (f_trees c !! key) as [k|] eqn:E; [|done]. destruct key as [b p]. apply plain_refs. eapply (dt_plain _ (do_trees _ Hok)); [|exact E].
  unfold primary in H. cbn in H. lia.
Qed.

Lemma start_refs : tree_refs (f_trees c) ≡ₚ flat_map (old_at c) ref_keys.
Proof.
  rewrite (flat_map_eq (old_at c) (refs_at (f_trees c))) by (intros key _; apply old_at_refs). apply tree_refs_over; [apply NoDup_filter, NoDup_elements|].
  intros key H. apply ref_keys_in. split.
  - destruct (decide (btree_trigger_order key.1 < 8)) as [|Hn]; [done|]. by rewrite plain_tree_refs in H.
  - left. unfold refs_at in H. by destruct (f_trees c !! key).
Qed.

Lemma keys_in_U : flat_map (fun key => old_at c key ++ new_at changed key) ref_keys ⊆+ all_refs c us.
Proof.
  rewrite flat_map_both. unfold all_refs. apply submseteq_app; [by rewrite start_refs|]. etransitivity; [|apply changed_new]. apply new_at_sub, NoDup_filter, NoDup_elements.
Qed.

Lemma refs_in_U : Forall (ref_ok c) (all_refs c us).
Proof.
  apply Forall_app. split; [apply Hok|]. apply Forall_forall. intros r Hr. apply flat_map_in in Hr as (e & He & Hr).
  apply (proj1 (Forall_forall _ _) (uo_refs _ _ (proj1 (Forall_forall _ _) Hus e He)) r Hr).
Qed.

Lemma part_once l key : key ∈ l -> NoDup (map ref_sector (flat_map (old_at c) l)) -> NoDup (map ref_sector (old_at c key)).
Proof.
  intros H Hn. apply list_elem_of_split in H as (l1 & l2 & ->). rewrite flat_map_app in Hn. cbn in Hn. rewrite !map_app in Hn.
  apply list.NoDup_app in Hn as (_ & _ & Hn). by apply list.NoDup_app in Hn as (Hn & _ & _).
Qed.

Lemma keys_once key : key ∈ ref_keys -> NoDup (map ref_sector (old_at c key)) /\ NoDup (map ref_sector (new_at changed key)).
Proof.
  intros H. split.
  - apply (part_once ref_keys); [done|]. rewrite <- start_refs. apply Hok.
  - unfold new_at. destruct (find_update changed key) as [e|] eqn:E; [|constructor]. apply find_update_Some in E as [E _].
    apply (uo_once _ _ (proj1 (Forall_forall _ _) changed_ok e E)).
Qed.

Lemma changed_final key : final_at c changed key = final_at c us key.
Proof.
  unfold final_at, changed. rewrite after_noop; [done|done|done|]. eapply Forall_impl; [exact Hus|]. intros e He. apply He.
Qed.

Lemma new_final key r : r ∈ new_at changed key -> r ∈ final_at c us key.
Proof.
  rewrite <- changed_final. unfold new_at, final_at, after. destruct (find_update changed key) as [e|] eqn:E; [|intros H; by apply not_elem_of_nil in H].
  apply find_update_Some in E as [_ <-]. unfold new_refs. by rewrite live_refs.
Qed.

Lemma unchanged_final key : find_update changed key = None -> final_at c us key = refs_at (f_trees c) key.
Proof. intros E. rewrite <- changed_final. unfold final_at, after, refs_at. by rewrite E. Qed.

Lemma new_apart x y r r' : x ∈ ref_keys -> y ∈ ref_keys -> x <> y -> r ∈ new_at changed x -> r' ∈ new_at changed y -> ref_sector r <> ref_sector r'.
Proof. intros _ _ Hne Hr Hr'. apply (sa_behind _ _ Hun x y); [done|by apply new_final|by apply new_final]. Qed.

Lemma new_moves x y r r' : x ∈ ref_keys -> y ∈ ref_keys -> x <> y -> r ∈ new_at changed x -> r' ∈ old_at c y -> ref_sector r = ref_sector r' ->
  has_refs (peek_slot c x.1 x.2) = false /\ btree_trigger_order y.1 <= btree_trigger_order x.1 /\ is_Some (find_update changed y).
Proof.
  intros _ _ Hne Hr Hr' Es. apply new_final in Hr. rewrite old_at_refs in Hr'. destruct (sa_moves _ _ Hun x y r r' Hne Hr Hr' Es) as [H1 H2]. split; [done|]. split; [done|].
  destruct (find_update changed y) eqn:E; [by eexists|]. exfalso. apply (sa_behind _ _ Hun x y r r' Hne Hr); [by rewrite unchanged_final|done].
Qed.

Lemma no_derived_update b p : derived_tree b -> find_update changed (b, p) = None.
Proof.
  intros Hb. destruct (find_update changed (b, p)) as [e|] eqn:E; [|done]. apply find_update_Some in E as [E Hk].
  exfalso. apply (uo_tree _ _ (proj1 (Forall_forall _ _) changed_ok e E)). injection Hk as -> _. done.
Qed.

Lemma start_views p : aview c changed p = aview c [] p /\ bview c changed p = bview c [] p.
Proof.
  split; [apply (aview_ext c []); [split; constructor|apply changed_wf|]|apply bview_ext]; rewrite no_derived_update; try done; [by left|by right].
Qed.

Lemma start_invariant : invariant c (all_refs c us) changed ref_keys changed.
Proof.
  pose proof changed_ok as Hco. assert (tree_refs (f_trees c) ≡ₚ flat_map (contrib c changed) ref_keys) as Eperm.
  { rewrite start_refs. rewrite (flat_map_eq (contrib c changed) (old_at c)); [done|]. intros key _. unfold contrib.
    destruct (find_update changed key) as [e|] eqn:E; [|done]. apply find_update_Some in E as [E <-].
    destruct (uo_flags _ _ (proj1 (Forall_forall _ _) Hco e E)) as [_ Hf]. unfold share. rewrite Hf. apply old_refs_at. by apply (proj1 (Forall_forall _ _) (proj1 changed_wf)). }
  constructor.
  - apply (exact_perm c _ _ (tree_refs (f_trees c))); [done|].
    + constructor.
      * apply changed_wf.
      * intros p. rewrite (proj1 (start_views p)). apply Hok.
      * intros p. rewrite (proj1 (start_views p)). apply Hok.
      * split; [intros r; rewrite (proj2 (start_views _))|intros p k; rewrite (proj2 (start_views p))]; apply Hok.
      * apply Hok.
      * intros p. left. by rewrite (proj1 (start_views p)).
  - rewrite <- Eperm. apply Hok.
  - eapply Forall_impl; [exact Hco|]. intros e H. split; [apply H|]. split; [apply H|]. intros E. exfalso. apply (uo_tree _ _ H). by left.
  - eapply Forall_impl; [exact Hco|]. intros e H. apply H.
  - done.
  - unfold changed. pose proof (filter_length_le (fun i => negb (is_noop i)) us). pose proof (sum_filter (fun i => negb (is_noop i)) us). lia.
  - left. eapply Forall_impl; [exact Hco|]. intros e H Hd. destruct (uo_tree _ _ H Hd).
Qed.

Lemma ref_key_in e : e ∈ changed -> primary (ekey e) -> ekey e ∈ ref_keys.
Proof. intros He Hp. apply ref_keys_in. split; [done|]. right. by exists e. Qed.

Lemma ref_key_primary key : key ∈ ref_keys -> primary key.
Proof. intros H. by apply ref_keys_in in H as [H _]. Qed.

(** Running the triggers. *)
Lemma commit_triggers : exists us' ret, bch2_trans_commit_run_triggers c changed = Some (us', ret) /\
  (ret <> 0 /\ ~ admissible c (all_refs c us) \/
   ret = 0 /\ invariant c (all_refs c us) changed ref_keys us' /\ Forall (fun e => trigger_done e = true) us').
Proof.
  pose proof ref_key_in. pose proof ref_key_primary. pose proof new_apart. pose proof new_moves.
  eapply derived_triggers; try done; [apply Hok|apply refs_in_U|apply NoDup_filter, NoDup_elements|apply keys_in_U|by apply keys_once|apply start_invariant|].
  eapply Forall_impl; [exact changed_ok|]. intros e He _. apply He.
Qed.

(** The trees behind it. *)
Section Behind.
Context (us' : list btree_insert_entry) (Hinv : invariant c (all_refs c us) changed ref_keys us') (Hdone : Forall (fun e => trigger_done e = true) us').
Context (c' : fs) (Henv : same_env c c') (Hkeys : forall key, f_trees c' !! key = after (f_trees c) us' key).

Lemma good_in e : e ∈ us' -> good_key e /\ update_wf c e.
Proof. intros H. split; [apply (proj1 (Forall_forall _ _) (iv_good _ _ _ _ _ Hinv) e H)|by eapply in_wf]. Qed.

Lemma aview_behind p : aview c' [] p = aview c us' p.
Proof. apply aview_after; [apply (ex_wf _ _ _ _ (iv_exact _ _ _ _ _ Hinv))| |done]. intros e He. by apply good_in. Qed.

Lemma bview_behind p : bview c' [] p = bview c us' p.
Proof. unfold bview. apply Hkeys. Qed.

Lemma plain_behind b p k : 8 <= btree_trigger_order b -> f_trees c' !! (b, p) = Some k -> plain_kv k.
Proof.
  intros Hb. rewrite Hkeys. unfold after. destruct (find_update us' (b, p)) as [e|] eqn:E; [|apply (dt_plain _ (do_trees _ Hok)); done].
  apply find_update_Some in E as [E Hk]. destruct (good_in e E) as [(_ & Hpl & _) Hwe]. unfold live. destruct (_ =? _); [done|]. intros [= <-]. apply Hpl.
  unfold high. rewrite (u_order _ _ Hwe). injection Hk as -> _. done.
Qed.

Lemma refs_behind : tree_refs (f_trees c') ≡ₚ flat_map (contrib c us') ref_keys.
Proof.
  rewrite (tree_refs_over _ ref_keys); [|apply NoDup_filter, NoDup_elements|].
  - rewrite (flat_map_eq (contrib c us') (refs_at (f_trees c'))); [done|]. intros key Hk. apply ref_keys_in in Hk as [Hp _]. rewrite (contrib_done _ _ _ _ _ _ Hinv Hdone Hp).
    unfold final_at, refs_at. by rewrite Hkeys.
  - intros [b p] H. unfold refs_at in H. destruct (f_trees c' !! (b, p)) as [k|] eqn:E; [|done]. cbn [fst] in H.
    assert (primary (b, p)) as Hp.
    { unfold primary. cbn. destruct (Z.lt_ge_cases (btree_trigger_order b) 8) as [|Hge]; [done|]. by rewrite plain_refs in H by (by eapply plain_behind). }
    apply ref_keys_in. split; [done|]. rewrite Hkeys in E. unfold after in E. destruct (find_update us' (b, p)) as [e|] eqn:Ef; [|left; by exists k].
    right. pose proof (iv_same _ _ _ _ _ Hinv _ Hp) as Hs. rewrite Ef in Hs. destruct (find_update changed (b, p)) as [e0|] eqn:E0; [|done].
    apply find_update_Some in E0 as [E0 Hk]. by exists e0.
Qed.

Lemma picked_behind key : key ∈ ref_keys -> picked c changed (contrib c us') key.
Proof. pose proof ref_key_in. pose proof ref_key_primary. by eapply contrib_picked. Qed.

Lemma derived_behind : derived_ok c'.
Proof.
  pose proof (iv_exact _ _ _ _ _ Hinv) as Hex. eapply exact_perm in Hex; [|symmetry; exact refs_behind]. destruct Hex as [H1 H2 H3 [H4 H4'] H5 _]. 
  assert (forall p, alloc_wf (aview c' [] p)) as Ha by (intros p; rewrite aview_behind; apply H2).
  constructor.
  - constructor; [|apply plain_behind]. intros p k E Hk. specialize (Ha p). unfold aview, trigger_read_alloc in Ha. cbn [trigger_staged_key] in Ha. unfold peek_slot in Ha. rewrite E in Ha.
    cbn [default from_option id] in Ha. by rewrite Hk in Ha.
  - done.
  - intros p Hp. rewrite aview_behind, (same_sum c c') by done. destruct (H3 p Hp) as [Hd Hg]. split; [done|]. intros r Hr. rewrite (same_bucket c c') by done. by apply Hg.
  - split; [intros r; rewrite bview_behind; apply H4|intros p k; rewrite bview_behind; apply H4'].
  - eapply Forall_impl; [exact H5|]. intros r. by apply same_valid.
  - rewrite refs_behind. apply Forall_forall. intros r Hr. destruct (proj1 (Forall_forall _ _) refs_in_U r) as [? ? ? ?]; [|by constructor].
    eapply elem_of_submseteq; [exact Hr|]. exact (picked_U c (all_refs c us) changed ref_keys keys_in_U (contrib c us') picked_behind).
  - rewrite refs_behind. apply (iv_once _ _ _ _ _ Hinv).
Qed.
End Behind.

End Commit.

(** ** A commit of extents *)

Lemma good_writable c us us0 K U us' : invariant c U us0 K us -> us' = us -> Forall writable us'.
Proof.
  intros H ->. apply Forall_forall. intros e He. pose proof (proj1 (Forall_forall _ _) (iv_good _ _ _ _ _ H) e He) as (Hk & Hp & _). split; [destruct Hk; lia|].
  assert (key_trigger_kind (kv_type (e_old e)) <> 1 /\ key_trigger_kind (kv_type (e_k e)) <> 1) as [H1 H2].
  { destruct (Z.lt_ge_cases (e_sort_order e) 8) as [Hl|Hh]; [by apply eo_kinds, (proj1 (Forall_forall _ _) (iv_ok _ _ _ _ _ H) e He)|]. destruct (Hp Hh) as [H1 H2]. unfold plain_kv in *. lia. }
  unfold key_trigger_kind in H1, H2. by destruct (kv_type (e_old e) =? KEY_TYPE_snapshot), (kv_type (e_k e) =? KEY_TYPE_snapshot).
Qed.


(** *** A device of 128 buckets *)

Definition small_member : bch_member :=
  mk_bch_member (replicate 16 1) 128 1 128 0 (replicate 3 0) 0 0 (replicate 4 0) (replicate 3 0) (replicate 3 0) 0 0 0 0 0 (replicate 16 0) (replicate 64 0) 0 (replicate 64 0).
Definition device : fs := mk_fs ∅ 1 (Some [small_member]) [1; 0; 0; 0] 512 0 0 0 [].

(** Eight sectors in bucket 2, and a copy in bucket 3, of generation 3. *)
Definition ptr_to (sector g : Z) : Z := SET_BCH_EXTENT_PTR_GEN (SET_BCH_EXTENT_PTR_OFFSET 1 sector) g.
Definition two_copies : kv := mk_kv (mk_bkey (BKEY_U64S + 2) KEY_FORMAT_CURRENT KEY_TYPE_extent ZERO_VERSION 8 (POS 7 8)) [ptr_to 256 3; ptr_to 400 3].
Definition copies_updates : list btree_insert_entry := default [] (bch2_trans_update device [] 0 two_copies 0).

Example copies_refs : all_refs device copies_updates = [mk_ref 0 (POS 7 8) (ptr_to 256 3) 8; mk_ref 0 (POS 7 8) (ptr_to 400 3) 8].
Proof. vm_compute. reflexivity. Qed.

Example copies_charged : match bch2_trans_commit device copies_updates Proceed with
  | Some (c', 0) => (dirty_sectors (aview c' [] (POS 0 2)), gen (aview c' [] (POS 0 3)), bview c' [] (POS 0 400)) = (8, 3, Some (bp_key (mk_ref 0 (POS 7 8) (ptr_to 400 3) 8)))
  | _ => False end.
Proof. vm_compute. reflexivity. Qed.

Lemma device_derived : derived_ok device.
Proof.
  assert (tree_refs (f_trees device) = []) as E by reflexivity. assert (forall p, aview device [] p = alloc_default) as Ea by done.
  constructor; rewrite ?E; try (by constructor).
  - intros p _. rewrite Ea. split; [done|]. intros r Hr. by apply not_elem_of_nil in Hr.
  - split; [intros r Hr; by apply not_elem_of_nil in Hr|]. intros p k _ H. unfold bview, after in H. cbn in H. by rewrite lookup_empty in H.
Qed.

Lemma copies_new : new_refs (new_update device 0 two_copies (k_u64s (kv_k two_copies)) 0) = [mk_ref 0 (POS 7 8) (ptr_to 256 3) 8; mk_ref 0 (POS 7 8) (ptr_to 400 3) 8].
Proof. vm_compute. reflexivity. Qed.

Lemma copies_ok : updates_wf device copies_updates /\ Forall (update_ok device) copies_updates.
Proof.
  split; [split|].
  - apply Forall_cons_2; [|apply Forall_nil_2]. constructor; try reflexivity. repeat split; vm_compute; discriminate.
  - repeat constructor.
  - apply Forall_cons_2; [|apply Forall_nil_2]. constructor; try done.
    + by intros [H|H].
    + intros _. constructor; try done; [split; vm_compute; try exact I; repeat constructor|right; by split].
    + change (new_refs _) with (new_refs (new_update device 0 two_copies (k_u64s (kv_k two_copies)) 0)). rewrite copies_new. apply Forall_cons_2; [|apply Forall_cons_2; [|apply Forall_nil_2]]; constructor; cbn [r_ptr r_len r_btree r_pos]; repeat split; vm_compute; done.
    + change (new_refs _) with (new_refs (new_update device 0 two_copies (k_u64s (kv_k two_copies)) 0)). rewrite copies_new. cbn [map]. change (NoDup [POS 0 256; POS 0 400]). apply list.NoDup_cons. split; [|apply NoDup_singleton]. by rewrite list_elem_of_singleton.
Qed.

Lemma copies_refs_in r : r ∈ all_refs device copies_updates -> r = mk_ref 0 (POS 7 8) (ptr_to 256 3) 8 \/ r = mk_ref 0 (POS 7 8) (ptr_to 400 3) 8.
Proof. rewrite copies_refs. intros H. apply elem_of_cons in H as [->|H]; [by left|]. apply list_elem_of_singleton in H as ->. by right. Qed.

Lemma copies_admissible : admissible device (all_refs device copies_updates).
Proof.
  split; [|split; [|split]].
  - intros r Hr. apply copies_refs_in in Hr as [-> | ->]; vm_compute; reflexivity.
  - intros r r' Hr Hr' _. by apply copies_refs_in in Hr as [-> | ->], Hr' as [-> | ->].
  - intros r _. left. reflexivity.
  - intros p. rewrite copies_refs. cbn [sum_at r_len]. repeat case_decide; lia.
Qed.

Lemma copies_apart : sectors_apart device copies_updates.
Proof.
  assert (forall x r, r ∈ final_at device copies_updates x -> x = (0, POS 7 8)) as H.
  { intros x r. unfold final_at, after. destruct (find_update copies_updates x) as [e|] eqn:E; [|change (f_trees device !! x) with (@None kv); intros Hr; by apply not_elem_of_nil in Hr].
    apply find_update_Some in E as [E <-]. apply list_elem_of_singleton in E as ->. reflexivity. }
  constructor; intros x y r r' Hne Hr Hr'.
  - apply H in Hr, Hr'. congruence.
  - by apply not_elem_of_nil in Hr'.
Qed.

(** *** A part in front that keeps its sector *)

(** The extent is overwritten behind its first four sectors. *)
Definition committed : fs := match bch2_trans_commit device copies_updates Proceed with Some (c, _) => c | None => device end.
Definition kept_front : kv := mk_kv (mk_bkey (BKEY_U64S + 1) KEY_FORMAT_CURRENT KEY_TYPE_extent ZERO_VERSION 4 (POS 7 4)) [ptr_to 256 3].
Definition new_behind : kv := mk_kv (mk_bkey (BKEY_U64S + 1) KEY_FORMAT_CURRENT KEY_TYPE_extent ZERO_VERSION 4 (POS 7 8)) [ptr_to 700 3].
Definition trim_updates : list btree_insert_entry := default [] (us ← bch2_trans_update committed [] 0 kept_front 0; bch2_trans_update committed us 0 new_behind 0).

Definition ref_kept : ref := mk_ref 0 (POS 7 4) (ptr_to 256 3) 4.
Definition ref_behind : ref := mk_ref 0 (POS 7 8) (ptr_to 700 3) 4.

Example trim_charged : match bch2_trans_commit committed trim_updates Proceed with
  | Some (c', 0) => (dirty_sectors (aview c' [] (POS 0 2)), dirty_sectors (aview c' [] (POS 0 3)), bview c' [] (POS 0 256)) = (4, 0, Some (bp_key ref_kept))
  | _ => False end.
Proof. vm_compute. reflexivity. Qed.

Definition eight_dirty : bch_alloc_v4 := set_dirty_sectors (set_gens alloc_default 3 0) 8.
Definition ref_256 : ref := mk_ref 0 (POS 7 8) (ptr_to 256 3) 8.
Definition ref_400 : ref := mk_ref 0 (POS 7 8) (ptr_to 400 3) 8.
Definition copies_list : list ((Z * bpos) * kv) :=
  [((0, POS 7 8), two_copies); ((4, POS 0 2), bucket_key (POS 0 2) eight_dirty); ((4, POS 0 3), bucket_key (POS 0 3) eight_dirty);
   ((8, POS 0 256), bp_key ref_256); ((8, POS 0 400), bp_key ref_400)].

Lemma committed_trees : f_trees committed = list_to_map copies_list.
Proof. vm_compute. reflexivity. Qed.
Lemma copies_in b p k : (list_to_map copies_list : gmap (Z * bpos) kv) !! (b, p) = Some k -> ((b, p), k) ∈ copies_list.
Proof. apply elem_of_list_to_map_2. Qed.

Lemma copies_each (P : Z -> bpos -> kv -> Prop) : P 0 (POS 7 8) two_copies -> (forall q, q = POS 0 2 \/ q = POS 0 3 -> P 4 q (bucket_key q eight_dirty)) -> P 8 (POS 0 256) (bp_key ref_256) -> P 8 (POS 0 400) (bp_key ref_400) ->
  forall b p k, (list_to_map copies_list : gmap (Z * bpos) kv) !! (b, p) = Some k -> P b p k.
Proof.
  intros H1 H2 H3 H4 b p k H. apply copies_in in H. unfold copies_list in H. rewrite !elem_of_cons in H.
  destruct H as [[= -> -> ->]|[[= -> -> ->]|[[= -> -> ->]|[[= -> -> ->]|[[= -> -> ->]|H]]]]]; try done; [apply H2; by left|apply H2; by right|]. by apply not_elem_of_nil in H.
Qed.

Lemma committed_wf : trees_wf committed.
Proof.
  intros b p k. rewrite committed_trees. revert b p k. apply (copies_each (fun _ p k => kv_pos k = p /\ kv_type k <> KEY_TYPE_deleted /\ kv_wf k)).
  - split; [reflexivity|]. split; [discriminate|]. by constructor.
  - intros q _. split; [reflexivity|]. split; [discriminate|]. constructor; [reflexivity|done|reflexivity].
  - split; [reflexivity|]. split; [discriminate|]. by constructor.
  - split; [reflexivity|]. split; [discriminate|]. by constructor.
Qed.

Definition trim_front : btree_insert_entry := mk_entry 0 0 1 0 0 false false false 6 kept_front (deleted_key (POS 7 4)).
Definition trim_behind : btree_insert_entry := mk_entry 0 0 1 0 0 false false false 6 new_behind two_copies.
Lemma trim_shape : trim_updates = [trim_front; trim_behind].
Proof. vm_compute. reflexivity. Qed.

Lemma trim_old : peek_slot committed 0 (POS 7 4) = deleted_key (POS 7 4) /\ peek_slot committed 0 (POS 7 8) = two_copies.
Proof. split; vm_compute; reflexivity. Qed.

Lemma trim_refs : all_refs committed trim_updates = [ref_256; ref_400; ref_kept; ref_behind].
Proof. vm_compute. reflexivity. Qed.

Lemma trim_ref_ok : Forall (ref_ok committed) [ref_256; ref_400; ref_kept; ref_behind].
Proof. repeat (apply Forall_cons_2; [constructor; repeat split; by vm_compute|]). apply Forall_nil_2. Qed.

Lemma trim_ok : updates_wf committed trim_updates /\ Forall (update_ok committed) trim_updates.
Proof.
  rewrite trim_shape. assert (forall b, ~ derived_tree b <-> b <> 4 /\ b <> 8) as Hd by (intros b; unfold derived_tree; tauto). split; [split|].
  - apply Forall_cons_2; [|apply Forall_cons_2; [|apply Forall_nil_2]]; (constructor; [repeat split; vm_compute; discriminate|reflexivity|reflexivity|reflexivity|reflexivity|symmetry; apply trim_old]).
  - repeat constructor.
  - pose proof trim_ref_ok as Hr. apply Forall_cons_1 in Hr as [_ Hr]. apply Forall_cons_1 in Hr as [_ Hr]. apply Forall_cons_1 in Hr as [Hk Hb].
    apply Forall_cons_2; [|apply Forall_cons_2; [|apply Forall_nil_2]]; (constructor; [split; reflexivity|constructor; [reflexivity|by vm_compute|reflexivity]|by apply Hd|intros Hh; by vm_compute in Hh| |by constructor|apply NoDup_singleton]);
      intros _; (constructor; [split; by vm_compute|split; vm_compute; try exact I; repeat constructor|reflexivity|intros _ _ E; by vm_compute in E|right; by split|done]).
Qed.

Lemma trim_apart : sectors_apart committed trim_updates.
Proof.
  assert (forall x r, r ∈ final_at committed trim_updates x -> x = (0, POS 7 4) /\ r = ref_kept \/ x = (0, POS 7 8) /\ r = ref_behind) as H.
  { intros x r. unfold final_at, after. rewrite trim_shape, !find_update_cons. change (ekey trim_front) with (0, POS 7 4). change (ekey trim_behind) with (0, POS 7 8). destruct (decide ((0, POS 7 4) = x)) as [<-|N1]; [|destruct (decide ((0, POS 7 8) = x)) as [<-|N2]].
    - intros Hr. left. split; [done|]. by apply list_elem_of_singleton in Hr.
    - intros Hr. right. split; [done|]. by apply list_elem_of_singleton in Hr.
    - cbn [find_update find option_map]. rewrite committed_trees. destruct x as [b p]. destruct ((list_to_map copies_list : gmap (Z * bpos) kv) !! (b, p)) as [k|] eqn:Ek; [|intros Hr; by apply not_elem_of_nil in Hr].
      revert b p k Ek N1 N2. apply (copies_each (fun b p k => (0, POS 7 4) <> (b, p) -> (0, POS 7 8) <> (b, p) -> r ∈ refs_of b k -> _)); [intros _ N _; by destruct (N eq_refl)|intros q _ _ _ Hr; by apply not_elem_of_nil in Hr|intros _ _ Hr; by apply not_elem_of_nil in Hr|intros _ _ Hr; by apply not_elem_of_nil in Hr]. }
  assert (forall y r, r ∈ refs_at (f_trees committed) y -> y = (0, POS 7 8) /\ (r = ref_256 \/ r = ref_400)) as H'.
  { intros [b p] r. unfold refs_at. rewrite committed_trees. destruct ((list_to_map copies_list : gmap (Z * bpos) kv) !! (b, p)) as [k|] eqn:Ek; [|intros Hr; by apply not_elem_of_nil in Hr].
    revert b p k Ek. apply (copies_each (fun b p k => r ∈ refs_of b k -> (b, p) = (0, POS 7 8) /\ (r = ref_256 \/ r = ref_400))); [|intros q _ Hr; by apply not_elem_of_nil in Hr|intros Hr; by apply not_elem_of_nil in Hr|intros Hr; by apply not_elem_of_nil in Hr].
    intros Hr. split; [done|]. change (r ∈ [ref_256; ref_400]) in Hr. apply elem_of_cons in Hr as [->|Hr]; [by left|right]. by apply list_elem_of_singleton in Hr. }
  constructor; intros x y r r' Hne Hr Hr'.
  - by apply H in Hr as [[-> ->]|[-> ->]], Hr' as [[-> ->]|[-> ->]].
  - apply H' in Hr' as [-> Hr']. apply H in Hr as [[-> ->]|[-> ->]]; [|done]. intros _. split; [vm_compute; reflexivity|done].
Qed.

Lemma trim_admissible : admissible committed (all_refs committed trim_updates).
Proof.
  rewrite trim_refs. split; [|split; [|split]].
  - intros r Hr. rewrite !elem_of_cons in Hr. destruct Hr as [->|[->|[->|[->|Hr]]]]; [vm_compute; reflexivity..|by apply not_elem_of_nil in Hr].
  - intros r r' Hr Hr' _. rewrite !elem_of_cons in Hr, Hr'. destruct Hr as [->|[->|[->|[->|Hr]]]]; [..|by apply not_elem_of_nil in Hr]; destruct Hr' as [->|[->|[->|[->|Hr']]]]; try reflexivity; by apply not_elem_of_nil in Hr'.
  - intros r Hr. rewrite !elem_of_cons in Hr. destruct Hr as [->|[->|[->|[->|Hr]]]]; [..|by apply not_elem_of_nil in Hr]; vm_compute; auto.
  - intros p. cbn [sum_at r_len ref_256 ref_400 ref_kept ref_behind]. repeat case_decide; lia.
Qed.

Lemma gens_unmixed c U : (forall r, r ∈ U -> ref_gen r = 3) -> unmixed c U.
Proof. intros H r r' _ Hr' _ E. rewrite (H r' Hr') in E. discriminate. Qed.

Lemma sizes_ok c : f_members c = Some [small_member] -> forall dev, 0 <= m_bucket_size (sb_member_get c dev).
Proof. intros E dev. unfold sb_member_get. rewrite E. cbn. destruct (Z.to_nat dev) as [|[|n]]; cbn; lia. Qed.


(** A sector that moves to a key in front that had pointers: the trigger of the
    key it came from deletes the new backpointer, which is at the same sector. *)
Definition moved_from : kv := mk_kv (mk_bkey (BKEY_U64S + 1) KEY_FORMAT_CURRENT KEY_TYPE_extent ZERO_VERSION 8 (POS 7 16)) [ptr_to 700 3].
Definition moved_to : kv := mk_kv (mk_bkey (BKEY_U64S + 1) KEY_FORMAT_CURRENT KEY_TYPE_extent ZERO_VERSION 8 (POS 7 8)) [ptr_to 700 3].
Example moved_sector_forgotten :
  (us ← bch2_trans_update committed [] 0 moved_from 0; x ← bch2_trans_commit committed us Proceed;
   us ← bch2_trans_update x.1 [] 0 moved_to 0; us ← bch2_trans_update x.1 us 0 (deleted_key (POS 7 16)) 0; y ← bch2_trans_commit x.1 us Proceed;
   Some (y.2, dirty_sectors (aview y.1 [] (POS 0 5)), bview y.1 [] (POS 0 700))) = Some (0, 8, None).
Proof. vm_compute. reflexivity. Qed.
