(* ===== verification/DerivedCheck.v ===== *)
(** * The check of the derived trees ([engine.rs])

    The check reads all keys with pointers, adds up what the trees of
    allocations and of backpointers should say, and compares.  It passes
    exactly if they are those of the pointers, the specification of [Derived];
    so it passes after every commit. *)

From stdpp Require Import base tactics list option gmap sorting.
From Stdlib Require Import ZArith Lia.
From S2P Require Import Superblock Prelude Bpos BkeyPack Extents ExtentKeys AllocKeys Trans TransFacts TransCommit Buckets BucketFacts Derived.

Open Scope Z_scope.

(** Generation and sectors of a bucket; tree, level, type, generation, length
    and position of a backpointer. *)
Notation alloc_entry := (Z * Z)%type.
Notation bp_entry := (Z * Z * Z * Z * Z * bpos)%type.
Record derived_maps := mk_maps { m_alloc : gmap (Z * Z) alloc_entry; m_bp : gmap (Z * Z) bp_entry }.

Definition check_pointer (c : fs) (btree : Z) (k : kv) (ptr : Z) (m : derived_maps) : result derived_maps :=
  let dev := BCH_EXTENT_PTR_DEV ptr in
  let offset := BCH_EXTENT_PTR_OFFSET ptr in
  let generation := BCH_EXTENT_PTR_GEN ptr in
  let member := sb_member_get c dev in
  if m_bucket_size member =? 0 then Err (DerivedState InvalidPointer) else
  let bucket := offset / m_bucket_size member in
  let sectors := k_size (kv_k k) in
  let alloc := default (generation, 0) (m_alloc m !! (dev, bucket)) in
  if negb (alloc.1 =? generation) then Err (DerivedState Generation) else
  match uadd 32 alloc.2 sectors with
  | None => Err (Transaction (-1))
  | Some sum =>
      let bp := (btree, 0, (if kv_type k =? KEY_TYPE_extent then 0 else 1), generation, sectors, kv_pos k) in
      match m_bp m !! (dev, offset) with
      | Some _ => Err (DerivedState DuplicateBackpointer)
      | None => Ok (mk_maps (<[(dev, bucket) := (alloc.1, sum)]> (m_alloc m)) (<[(dev, offset) := bp]> (m_bp m)))
      end
  end.

Definition is_err {A} (r : result A) : bool := match r with Err _ => true | Ok _ => false end.

Definition check_entry (c : fs) (btree : Z) (k : kv) (entry : nat) (r : result derived_maps) : result derived_maps * bool :=
  match r with
  | Err err => (Err err, true)
  | Ok m =>
      if extent_entry_is_ptr (value_at k entry) then let r := check_pointer c btree k (word (value_at k entry) 0) m in (r, is_err r)
      else (Ok m, false)
  end.

Definition check_key (c : fs) (btree : Z) (k : kv) (m : derived_maps) : option (result derived_maps) :=
  if negb (kv_type k =? KEY_TYPE_extent) && negb (kv_type k =? KEY_TYPE_btree_ptr) && negb (kv_type k =? KEY_TYPE_btree_ptr_v2) then Some (Ok m)
  else for_entries k (check_entry c btree k) (Ok m).

Fixpoint check_keys (c : fs) (ks : list (Z * kv)) (m : derived_maps) : option (result derived_maps) :=
  match ks with
  | [] => Some (Ok m)
  | (b, k) :: ks => r ← check_key c b k m; match r with Ok m => check_keys c ks m | Err err => Some (Err err) end
  end.

(** The trees but those of allocations and backpointers. *)
Definition primary_trees : list Z := List.filter (fun id => negb (id =? 4) && negb (id =? 8)) (map Z.of_nat (seq 0 (Z.to_nat BTREE_ID_NR))).
Definition primary_keys (c : fs) : list (Z * kv) := flat_map (fun b => map (pair b) (scan_raw_locked c b)) primary_trees.

Definition add_actual_alloc (m : gmap (Z * Z) alloc_entry) (k : kv) : gmap (Z * Z) alloc_entry :=
  if negb (is_alloc_key k) || (k_u64s (kv_k k) <? BKEY_U64S + 1) then m else
  let alloc := read_alloc (kv_v k) in
  if negb (dirty_sectors alloc =? 0) then <[bucket_slot (kv_pos k) := (gen alloc, dirty_sectors alloc)]> m else m.

Definition bp_key_entry (k : kv) : bp_entry :=
  let bp := read_bp (kv_v k) in (bp_btree_id bp, bp_level bp, bp_data_type bp, bp_bucket_gen bp, bp_bucket_len bp, bp_pos bp).
Definition add_actual_bp (m : gmap (Z * Z) bp_entry) (k : kv) : gmap (Z * Z) bp_entry :=
  if negb (kv_type k =? KEY_TYPE_backpointer) then m else <[bucket_slot (kv_pos k) := bp_key_entry k]> m.

Definition check_extents_to_backpointers (c : fs) : option (result unit) :=
  r ← check_keys c (primary_keys c) (mk_maps ∅ ∅);
  Some match r with
       | Err err => Err err
       | Ok expected =>
           if negb (bool_decide (fold_left add_actual_alloc (scan_raw_locked c 4) ∅ = m_alloc expected)) then Err (DerivedState AllocSet)
           else if negb (bool_decide (fold_left add_actual_bp (scan_raw_locked c 8) ∅ = m_bp expected)) then Err (DerivedState BackpointerSet)
           else Ok tt
       end.

(** ** The pointers of a key *)

Fixpoint check_ptrs (c : fs) (btree : Z) (k : kv) (ptrs : list Z) (m : derived_maps) : result derived_maps :=
  match ptrs with
  | [] => Ok m
  | ptr :: ptrs => match check_pointer c btree k ptr m with Ok m => check_ptrs c btree k ptrs m | Err err => Err err end
  end.

Lemma walk_check c btree k end_ : forall fuel entry acc l, each_entry fuel (fun _ => kv_v k) (collect (kv_v k)) entry end_ acc = Some l ->
  exists l', l = acc ++ l' /\ forall m, each_entry fuel (fun _ => kv_v k) (fun i r => Some (check_entry c btree k i r)) entry end_ (Ok m) = Some (check_ptrs c btree k l' m).
Proof.
  induction fuel as [|fuel IH]; intros entry acc l; cbn [each_entry]; destruct (entry <? end_)%nat; try done; try (intros [= <-]; exists []; by rewrite app_nil_r).
  intros H. change (collect (kv_v k) entry acc) with (Some (if extent_entry_is_ptr (value_at k entry) then acc ++ [word (value_at k entry) 0] else acc, false)) in H.
  cbn [mbind option_bind] in H. destruct (extent_entry_next_safe (kv_v k) entry end_) as [next|] eqn:En; [cbn [mbind option_bind] in H|done].
  destruct (extent_entry_is_ptr (value_at k entry)) eqn:Ep; destruct (IH _ _ _ H) as (l' & -> & E).
  - exists (word (value_at k entry) 0 :: l'). split; [by rewrite <- app_assoc|]. intros m. cbn [check_entry check_ptrs]. rewrite Ep. cbn [mbind option_bind].
    destruct (check_pointer c btree k (word (value_at k entry) 0) m) as [m1|err]; [apply E|done].
  - exists l'. split; [done|]. intros m. cbn [check_entry]. rewrite Ep. cbn [mbind option_bind]. apply E.
Qed.

(** Pointers as references. *)
Definition ref_slot (r : ref) : Z * Z := bucket_slot (ref_sector r).
Definition ref_home (c : fs) (r : ref) : Z * Z := bucket_slot (ref_bucket c r).
Definition ref_entry (r : ref) : bp_entry := (r_btree r, 0, 0, ref_gen r, r_len r, r_pos r).

Definition add_ref (c : fs) (r : ref) (m : derived_maps) : result derived_maps :=
  let alloc := default (ref_gen r, 0) (m_alloc m !! ref_home c r) in
  if negb (alloc.1 =? ref_gen r) then Err (DerivedState Generation) else
  match uadd 32 alloc.2 (r_len r) with
  | None => Err (Transaction (-1))
  | Some sum =>
      match m_bp m !! ref_slot r with
      | Some _ => Err (DerivedState DuplicateBackpointer)
      | None => Ok (mk_maps (<[ref_home c r := (alloc.1, sum)]> (m_alloc m)) (<[ref_slot r := ref_entry r]> (m_bp m)))
      end
  end.

Fixpoint add_refs (c : fs) (l : list ref) (m : derived_maps) : result derived_maps :=
  match l with [] => Ok m | r :: l => match add_ref c r m with Ok m => add_refs c l m | Err err => Err err end end.

Lemma add_refs_app c l l' m : add_refs c (l ++ l') m = match add_refs c l m with Ok m => add_refs c l' m | Err err => Err err end.
Proof. revert m. induction l as [|r l IH]; intros m; [done|]. cbn. destruct (add_ref c r m); [apply IH|done]. Qed.

(** A key whose pointers can be read: an extent without errors. *)
Definition plain_extent (c : fs) (b : Z) (k : kv) : Prop := has_refs k = true -> kv_type k = KEY_TYPE_extent /\ words_fit k /\ Forall (ref_valid c) (refs_of b k).

Lemma check_ptrs_refs c b k : kv_type k = KEY_TYPE_extent -> forall l m, Forall (ref_valid c) (map (fun p => mk_ref b (kv_pos k) p (k_size (kv_k k))) l) ->
  check_ptrs c b k l m = add_refs c (map (fun p => mk_ref b (kv_pos k) p (k_size (kv_k k))) l) m.
Proof.
  intros Ht. induction l as [|p l IH]; intros m Hv; [done|]. apply Forall_cons_1 in Hv as [Hp Hv]. cbn [check_ptrs add_refs map].
  assert (check_pointer c b k p m = add_ref c (mk_ref b (kv_pos k) p (k_size (kv_k k))) m) as ->; [|by destruct (add_ref _ _ m); [apply IH|]].
  pose proof (valid_bucket_size _ _ Hp) as Hs. unfold ref_dev in Hs. cbn [r_ptr] in Hs. unfold check_pointer, add_ref, ref_home, ref_slot, ref_entry, ref_gen, ref_bucket, ref_sector, ref_dev, bucket_slot.
  cbn [r_ptr r_btree r_len r_pos inode offset POS]. rewrite (proj2 (Z.eqb_neq _ _) Hs), Ht. done.
Qed.

Lemma check_key_refs c b k m : plain_extent c b k -> check_key c b k m = Some (add_refs c (refs_of b k) m).
Proof.
  intros H. unfold check_key. assert (negb (kv_type k =? KEY_TYPE_extent) && negb (kv_type k =? KEY_TYPE_btree_ptr) && negb (kv_type k =? KEY_TYPE_btree_ptr_v2) = negb (has_refs k)) as ->.
  { unfold has_refs, key_trigger_kind. destruct (Z.eqb_spec (kv_type k) KEY_TYPE_snapshot) as [->|_]; [done|].
    destruct (kv_type k =? KEY_TYPE_extent), (kv_type k =? KEY_TYPE_btree_ptr), (kv_type k =? KEY_TYPE_btree_ptr_v2); done. }
  unfold plain_extent in H. unfold refs_of in *. destruct (has_refs k) eqn:Er; cbn [negb]; [|done]. destruct (H eq_refl) as (Ht & Hw & Hv).
  pose proof (key_ptrs_words k Hw) as Hk. revert Hk. generalize (ptrs_in (S (length (ptr_words k))) (ptr_words k)) as l. intros l Hk. rewrite Hk in Hv |- *. cbn [default] in Hv |- *. unfold for_entries. unfold key_ptrs in Hk. destruct (bch2_bkey_ptrs_c k) as [[start end_]|] eqn:Ep.
  - destruct (walk_check c b k end_ _ _ _ _ Hk) as (l' & El & E). cbn in El. subst l'. rewrite E. f_equal. by apply check_ptrs_refs.
  - injection Hk as Hk. rewrite <- Hk. done.
Qed.

Definition key_refs (ks : list (Z * kv)) : list ref := flat_map (fun '(b, k) => refs_of b k) ks.

Lemma check_keys_refs c ks : Forall (fun '(b, k) => plain_extent c b k) ks -> forall m, check_keys c ks m = Some (add_refs c (key_refs ks) m).
Proof.
  induction ks as [|[b k] ks IH]; intros Hks m; [done|]. apply Forall_cons_1 in Hks as [Hk Hks]. cbn [check_keys key_refs flat_map].
  rewrite (check_key_refs _ _ _ _ Hk). cbn [mbind option_bind]. rewrite add_refs_app. destruct (add_refs c (refs_of b k) m); [by apply IH|done].
Qed.

(** ** What is added up *)

Record maps_of (c : fs) (l : list ref) (m : derived_maps) : Prop := {
  mo_alloc : forall b, match m_alloc m !! b with
             | None => forall r, r ∈ l -> ref_home c r <> b
             | Some (g, n) => n = sum_at c (POS b.1 b.2) l /\ (exists r, r ∈ l /\ ref_home c r = b) /\ forall r, r ∈ l -> ref_home c r = b -> ref_gen r = g
             end;
  mo_bp : forall s t, m_bp m !! s = Some t <-> exists r, r ∈ l /\ ref_slot r = s /\ ref_entry r = t
}.

(** No sector has two pointers, no bucket two generations or too many sectors. *)
Record summable (c : fs) (l : list ref) : Prop := {
  su_once : NoDup (map ref_slot l);
  su_gens : forall r r', r ∈ l -> r' ∈ l -> ref_home c r = ref_home c r' -> ref_gen r = ref_gen r';
  su_fits : forall b, sum_at c (POS b.1 b.2) l < 2 ^ 32
}.

Lemma home_bucket c r b : ref_home c r = b <-> ref_bucket c r = POS b.1 b.2.
Proof.
  unfold ref_home, ref_bucket, bucket_slot, POS. cbn [inode offset]. generalize (BCH_EXTENT_PTR_OFFSET (r_ptr r) / m_bucket_size (sb_member_get c (ref_dev r))), (ref_dev r). intros n d.
  destruct b as [d' n']. cbn [fst snd]. split; [by intros [= -> ->]|]. by intros [= -> ->].
Qed.

Definition lens_ok (l : list ref) : Prop := Forall (fun r => 0 <= r_len r) l.

Lemma sum_nonneg c p l : lens_ok l -> 0 <= sum_at c p l.
Proof. induction l as [|r l IH]; intros H; [done|]. apply Forall_cons_1 in H as [Hr H]. specialize (IH H). cbn. destruct (decide _); lia. Qed.

Lemma summable_app c l l' : lens_ok (l ++ l') -> summable c (l ++ l') -> summable c l.
Proof.
  intros Hl [H1 H2 H3]. apply Forall_app in Hl as [_ Hl]. constructor.
  - rewrite map_app in H1. apply list.NoDup_app in H1 as [H1 _]. exact H1.
  - intros r r' Hr Hr'. apply H2; apply elem_of_app; by left.
  - intros b. specialize (H3 b). rewrite sum_at_app in H3. pose proof (sum_nonneg c (POS b.1 b.2) l' Hl). lia.
Qed.

Lemma sum_none c b l : (forall r, r ∈ l -> ref_home c r <> b) -> sum_at c (POS b.1 b.2) l = 0.
Proof.
  induction l as [|r l IH]; intros H; [done|]. cbn. rewrite decide_False by (intros E; apply (H r); [apply list_elem_of_here|by apply home_bucket]).
  apply IH. intros r' Hr'. by apply H, list_elem_of_further.
Qed.

Lemma sum_snoc c b l r : sum_at c (POS b.1 b.2) (l ++ [r]) = sum_at c (POS b.1 b.2) l + (if decide (ref_home c r = b) then r_len r else 0).
Proof.
  rewrite sum_at_app. cbn. assert ((if decide (ref_bucket c r = POS b.1 b.2) then r_len r else 0) = (if decide (ref_home c r = b) then r_len r else 0)) as ->; [|lia].
  repeat case_decide; try done; by rewrite home_bucket in *.
Qed.

Lemma in_snoc {A} (x y : A) l : x ∈ l ++ [y] <-> x ∈ l \/ x = y.
Proof. by rewrite elem_of_app, list_elem_of_singleton. Qed.

Lemma add_ref_step c r l m : maps_of c l m -> summable c l -> lens_ok (l ++ [r]) ->
  match add_ref c r m with Ok m' => maps_of c (l ++ [r]) m' /\ summable c (l ++ [r]) | Err _ => ~ summable c (l ++ [r]) end.
Proof.
  intros [Ha Hb] Hs Hl. unfold add_ref. cbv zeta. set (b := ref_home c r). set (alloc := default _ _).
  assert (alloc.2 = sum_at c (POS b.1 b.2) l /\ (alloc.1 = ref_gen r \/ exists r', r' ∈ l /\ ref_home c r' = b /\ ref_gen r' = alloc.1) /\ forall r', r' ∈ l -> ref_home c r' = b -> ref_gen r' = alloc.1) as (Es & Eg & Hg).
  { unfold alloc. specialize (Ha b). destruct (m_alloc m !! b) as [[g n]|]; cbn [default fst snd].
    - destruct Ha as (-> & (r' & Hr' & Hb') & Hall). split; [done|]. split; [|done]. right. exists r'. split; [done|]. split; [done|]. by apply Hall.
    - split; [by rewrite sum_none|]. split; [by left|]. intros r' Hr' Hb'. by destruct (Ha r'). }
  destruct (Z.eqb_spec alloc.1 (ref_gen r)) as [Eq|Ng]; cbn [negb].
  2: { destruct Eg as [|(r' & Hr' & Hb' & E)]; [done|]. intros [_ H2 _]. apply Ng. rewrite <- E. apply H2; [by apply in_snoc; left|by apply in_snoc; right|done]. }
  assert (sum_at c (POS b.1 b.2) (l ++ [r]) = alloc.2 + r_len r) as Esum by (rewrite sum_snoc, decide_True by done; lia).
  destruct (uadd 32 alloc.2 (r_len r)) as [sum|] eqn:Eu.
  2: { intros [_ _ H3]. specialize (H3 b). rewrite Esum in H3. rewrite uadd_ok in Eu; [done|lia]. }
  apply uadd_Some in Eu as [Hu ->]. destruct (m_bp m !! ref_slot r) as [t|] eqn:Et.
  { intros [H1 _ _]. apply Hb in Et as (r' & Hr' & Hsl & _). rewrite map_app in H1. apply list.NoDup_app in H1 as (_ & H1 & _). apply (H1 (ref_slot r)); [|apply list_elem_of_here].
    apply list_elem_of_fmap. by exists r'. }
  assert (forall r', r' ∈ l -> ref_slot r' <> ref_slot r) as Hnew by (intros r' Hr' E; rewrite (proj2 (Hb _ _) (ex_intro _ r' (conj Hr' (conj E eq_refl)))) in Et; done).
  split; constructor; cbn [m_alloc m_bp].
  - intros b'. destruct (decide (b' = b)) as [->|Hne].
    + rewrite lookup_insert_eq. split; [done|]. split; [exists r; split; [by apply in_snoc; right|done]|]. intros r' [Hr'| ->]%in_snoc Hb'; [by apply Hg|done].
    + rewrite lookup_insert_ne by done. specialize (Ha b'). destruct (m_alloc m !! b') as [[g n]|]; cbv beta iota in Ha |- *.
      * destruct Ha as (-> & (r' & Hr' & Hb') & Hall). split; [by rewrite sum_snoc, decide_False, Z.add_0_r|]. split; [exists r'; split; [by apply in_snoc; left|done]|].
        intros r2 [Hr2| ->]%in_snoc Hb2; [by apply Hall|done].
      * intros r' [Hr'| ->]%in_snoc; [by apply Ha|done].
  - intros s t. destruct (decide (s = ref_slot r)) as [->|Hne].
    + rewrite lookup_insert_eq. split; [intros [= <-]; exists r; split; [by apply in_snoc; right|done]|]. intros (r' & [Hr'| ->]%in_snoc & E & <-); [by destruct (Hnew r')|done].
    + rewrite lookup_insert_ne by done. rewrite Hb. split; intros (r' & Hr' & E & Et'); exists r'; [split; [by apply in_snoc; left|done]|]. apply in_snoc in Hr' as [Hr'| ->]; [done|congruence].
  - rewrite map_app. apply list.NoDup_app. split; [apply Hs|]. split; [|apply NoDup_singleton]. intros x Hx ->%list_elem_of_singleton. apply list_elem_of_fmap in Hx as (r' & E & Hr'). by apply (Hnew r').
  - intros r1 r2 [H1| ->]%in_snoc [H2| ->]%in_snoc E; [by apply (su_gens _ _ Hs)| | |done].
    + rewrite <- Eq. by apply Hg.
    + rewrite <- Eq. symmetry. apply Hg; [done|]. by symmetry.
  - intros b'. rewrite sum_snoc. case_decide as E; [subst b'; unfold b in *; lia|]. pose proof (su_fits _ _ Hs b'). lia.
Qed.

Lemma add_refs_spec c : forall l done_ m, maps_of c done_ m -> summable c done_ -> lens_ok (done_ ++ l) ->
  match add_refs c l m with Ok m' => maps_of c (done_ ++ l) m' /\ summable c (done_ ++ l) | Err _ => ~ summable c (done_ ++ l) end.
Proof.
  induction l as [|r l IH]; intros d m Hm Hs Hl; cbn [add_refs]; [by rewrite app_nil_r|].
  assert (d ++ r :: l = (d ++ [r]) ++ l) as E by (by rewrite <- app_assoc). rewrite E in Hl |- *. pose proof Hl as Hl1. apply Forall_app in Hl1 as [Hl1 _].
  pose proof (add_ref_step c r d m Hm Hs Hl1) as H. destruct (add_ref c r m) as [m1|err].
  - destruct H as [Hm1 Hs1]. by apply IH.
  - intros Hall. apply H. by eapply summable_app.
Qed.

Lemma add_refs_empty c l : lens_ok l -> match add_refs c l (mk_maps ∅ ∅) with Ok m => maps_of c l m /\ summable c l | Err _ => ~ summable c l end.
Proof.
  intros Hl. apply (add_refs_spec c l []); [| |done].
  - constructor; cbn [m_alloc m_bp].
    + intros b. rewrite lookup_empty. intros r Hr. by apply not_elem_of_nil in Hr.
    + intros s t. rewrite lookup_empty. split; [done|]. intros (r & Hr & _). by apply not_elem_of_nil in Hr.
  - constructor; [constructor| |done]. intros r r' Hr. by apply not_elem_of_nil in Hr.
Qed.

(** ** What the derived trees say *)

Lemma fold_select {V} (sel : kv -> option V) (step : gmap (Z * Z) V -> kv -> gmap (Z * Z) V) ks s v :
  (forall m k, step m k = match sel k with Some v => <[bucket_slot (kv_pos k) := v]> m | None => m end) -> NoDup (map (fun k => bucket_slot (kv_pos k)) ks) -> forall m,
  (forall k, k ∈ ks -> m !! bucket_slot (kv_pos k) = None) ->
  fold_left step ks m !! s = Some v <-> m !! s = Some v \/ exists k, k ∈ ks /\ bucket_slot (kv_pos k) = s /\ sel k = Some v.
Proof.
  intros Hstep. induction ks as [|k ks IH]; intros Hn m Hm; cbn [fold_left].
  { split; [by left|]. intros [H|(k & Hk & _)]; [done|by apply not_elem_of_nil in Hk]. }
  cbn [map] in Hn. apply list.NoDup_cons in Hn as [Hk Hn].
  assert (forall k', k' ∈ ks -> bucket_slot (kv_pos k') <> bucket_slot (kv_pos k)) as Hne by (intros k' Hk' E; apply Hk; rewrite <- E; apply list_elem_of_fmap; by exists k').
  rewrite IH; [|done|].
  - rewrite Hstep. setoid_rewrite elem_of_cons. destruct (sel k) as [v'|] eqn:Es.
    + destruct (decide (s = bucket_slot (kv_pos k))) as [->|Hs].
      * rewrite lookup_insert_eq, (Hm k) by apply list_elem_of_here. split.
        -- intros [[= ->]|(k' & Hk' & E & _)]; [right; exists k; by split; [left|]|by destruct (Hne k')].
        -- intros [|(k' & [->|Hk'] & E & Ek)]; [done|left; congruence|by destruct (Hne k')].
      * rewrite lookup_insert_ne by done. split; [intros [H|(k' & Hk' & E)]; [by left|right; exists k'; tauto]|]. intros [H|(k' & [->|Hk'] & E & Ek)]; [by left|congruence|right; by exists k'].
    + split; [intros [H|(k' & Hk' & E)]; [by left|right; exists k'; tauto]|]. intros [H|(k' & [->|Hk'] & E & Ek)]; [by left|congruence|right; by exists k'].
  - intros k' Hk'. rewrite Hstep. destruct (sel k); [rewrite lookup_insert_ne by (intros E; by apply (Hne k'))|]; apply Hm; by apply list_elem_of_further.
Qed.

Definition alloc_sel (k : kv) : option alloc_entry :=
  if is_alloc_key k && (BKEY_U64S + 1 <=? k_u64s (kv_k k)) && negb (dirty_sectors (read_alloc (kv_v k)) =? 0) then Some (gen (read_alloc (kv_v k)), dirty_sectors (read_alloc (kv_v k))) else None.
Definition bp_sel (k : kv) : option bp_entry := if kv_type k =? KEY_TYPE_backpointer then Some (bp_key_entry k) else None.

Lemma alloc_step m k : add_actual_alloc m k = match alloc_sel k with Some v => <[bucket_slot (kv_pos k) := v]> m | None => m end.
Proof. unfold add_actual_alloc, alloc_sel. cbv zeta. rewrite Z.ltb_antisym. destruct (is_alloc_key k); [|done]. destruct (_ <=? _); [|done]. cbn [negb orb andb]. by destruct (negb _). Qed.
Lemma bp_step m k : add_actual_bp m k = match bp_sel k with Some v => <[bucket_slot (kv_pos k) := v]> m | None => m end.
Proof. unfold add_actual_bp, bp_sel. by destruct (_ =? _). Qed.

(** The backpointer at a sector. *)
Definition bp_at (c : fs) (p : bpos) : option bp_entry := k ← f_trees c !! (8, p); bp_sel k.
Definition bps_are (c : fs) (l : list ref) : Prop := forall p t, snapshot p = 0 -> bp_at c p = Some t <-> exists r, r ∈ l /\ ref_sector r = p /\ ref_entry r = t.

(** Trees that the check can read: extents on devices that are there,
    descriptions of buckets of full length. *)
Record checkable (c : fs) : Prop := {
  ck_trees : trees_wf c;
  ck_derived : derived_trees c;
  ck_pos : forall b p k, f_trees c !! (b, p) = Some k -> bpos_wf p;
  ck_flat : forall b p k, b = 4 \/ b = 8 -> f_trees c !! (b, p) = Some k -> snapshot p = 0;
  ck_alloc : forall p k, f_trees c !! (4, p) = Some k -> is_alloc_key k = true -> is_alloc k = true;
  ck_extents : forall b p k, f_trees c !! (b, p) = Some k -> plain_extent c b k;
  ck_refs : Forall (ref_ok c) (tree_refs (f_trees c));
  ck_sizes : Forall (fun r => r_len r <> 0) (tree_refs (f_trees c))
}.

(** The pointers the check sees: those of the keys a scan finds, which are the
    keys of the lowest snapshot of every inode and offset. *)
Definition seen_refs (c : fs) : list ref := key_refs (primary_keys c).

(** No two snapshots have a key of the same inode and offset. *)
Definition one_per_slot (c : fs) : Prop :=
  forall b p q k k', f_trees c !! (b, p) = Some k -> f_trees c !! (b, q) = Some k' -> bucket_slot p = bucket_slot q -> p = q.

Section Check.
Context (c : fs) (Hc : checkable c).

Lemma check_scan b : b = 4 \/ b = 8 -> scan_raw_locked c b = tree_keys c b.
Proof.
  intros Hb. apply first_of_slots_all; [|done]. apply NoDup_fmap_2_strong; [|by apply tree_keys_NoDup, Hc]. intros k k' H H' E. apply tree_keys_in in H, H'; try apply Hc.
  pose proof (slot_inj _ _ (ck_flat _ Hc _ _ _ Hb H) (ck_flat _ Hc _ _ _ Hb H') E) as Ep. rewrite Ep, H' in H. by injection H as ->.
Qed.

Lemma seen_first b k : k ∈ scan_raw_locked c b <-> f_trees c !! (b, kv_pos k) = Some k /\ forall p k', f_trees c !! (b, p) = Some k' -> bucket_slot p = bucket_slot (kv_pos k) -> snapshot (kv_pos k) <= snapshot p.
Proof. apply scan_first; [apply Hc|]. intros p k'. apply (ck_pos _ Hc). Qed.

Lemma scan_slots b : b = 4 \/ b = 8 -> NoDup (map (fun k => bucket_slot (kv_pos k)) (scan_raw_locked c b)).
Proof.
  intros Hb. rewrite check_scan by done. apply NoDup_fmap_2_strong; [|by apply tree_keys_NoDup, Hc]. intros k k' H H' E. apply tree_keys_in in H, H'; try apply Hc.
  pose proof (slot_inj _ _ (ck_flat _ Hc _ _ _ Hb H) (ck_flat _ Hc _ _ _ Hb H') E) as Ep. rewrite Ep, H' in H. by injection H as ->.
Qed.

Lemma scan_at b k : b = 4 \/ b = 8 -> k ∈ scan_raw_locked c b <-> f_trees c !! (b, kv_pos k) = Some k.
Proof. intros Hb. rewrite check_scan by done. apply tree_keys_in, Hc. Qed.

Lemma at_slot b s k : b = 4 \/ b = 8 -> (f_trees c !! (b, kv_pos k) = Some k /\ bucket_slot (kv_pos k) = s) <-> f_trees c !! (b, POS s.1 s.2) = Some k.
Proof.
  intros Hb. split.
  - intros [Hk <-]. change (POS (bucket_slot (kv_pos k)).1 (bucket_slot (kv_pos k)).2) with (POS (inode (kv_pos k)) (offset (kv_pos k))). rewrite pos_slot; [done|]. by apply (ck_flat _ Hc b (kv_pos k) k).
  - intros Hk. destruct (ck_trees _ Hc _ _ _ Hk) as (-> & _). split; [done|by destruct s].
Qed.

Lemma actual_bp s t : fold_left add_actual_bp (scan_raw_locked c 8) ∅ !! s = Some t <-> bp_at c (POS s.1 s.2) = Some t.
Proof.
  rewrite (fold_select bp_sel _ _ _ _ bp_step (scan_slots 8 (or_intror eq_refl))) by (intros; apply lookup_empty). unfold bp_at. split.
  - intros [H|(k & Hk & Es & E)]; [by rewrite lookup_empty in H|]. apply scan_at in Hk; [|by right]. rewrite (proj1 (at_slot 8 s k (or_intror eq_refl)) (conj Hk Es)). exact E.
  - destruct (f_trees c !! (8, POS s.1 s.2)) as [k|] eqn:Ek; [|done]. intros E. right. exists k. apply at_slot in Ek as [Ek Es]; [|by right]. split; [apply scan_at; [by right|done]|done].
Qed.

Lemma actual_alloc s g n : fold_left add_actual_alloc (scan_raw_locked c 4) ∅ !! s = Some (g, n) <-> n <> 0 /\ gen (aview c [] (POS s.1 s.2)) = g /\ dirty_sectors (aview c [] (POS s.1 s.2)) = n.
Proof.
  rewrite (fold_select alloc_sel _ _ _ _ alloc_step (scan_slots 4 (or_introl eq_refl))) by (intros; apply lookup_empty). unfold aview, trigger_read_alloc, peek_slot. cbn [trigger_staged_key].
  assert (forall k, f_trees c !! (4, POS s.1 s.2) = Some k -> alloc_sel k = Some (g, n) <-> is_alloc k = true /\ n <> 0 /\ gen (read_alloc (kv_v k)) = g /\ dirty_sectors (read_alloc (kv_v k)) = n) as Hsel.
  { intros k Hk. unfold alloc_sel. destruct (is_alloc_key k) eqn:Ea.
    - pose proof (ck_alloc _ Hc _ _ Hk Ea) as Hal. rewrite Hal. destruct (ck_trees _ Hc _ _ _ Hk) as (_ & _ & [_ Hu _]). unfold is_alloc in Hal. apply andb_true_iff in Hal as [_ Hal%Z.leb_le].
      unfold bkey_val_bytes, bkey_val_u64s, wsub, ALLOC_V4_U64S, BKEY_U64S, MAX in *. rewrite Z.mod_small in Hal by lia. rewrite (proj2 (Z.leb_le _ _)) by lia. cbn [andb].
      destruct (Z.eqb_spec (dirty_sectors (read_alloc (kv_v k))) 0) as [E|E]; cbn [negb]; [split; [done|]; intros (_ & H1 & _ & H2); congruence|].
      split; [intros [= <- <-]; done|]. intros (_ & _ & <- & <-). done.
    - cbn [andb]. split; [done|]. unfold is_alloc, is_alloc_key in *. rewrite Ea. by intros [? _]. }
  split.
  - intros [H|(k & Hk & Es & E)]; [by rewrite lookup_empty in H|]. apply scan_at in Hk; [|by left]. pose proof (proj1 (at_slot 4 s k (or_introl eq_refl)) (conj Hk Es)) as Ek. rewrite Ek. cbn [default id].
    apply (Hsel _ Ek) in E as (-> & E). done.
  - destruct (f_trees c !! (4, POS s.1 s.2)) as [k|] eqn:Ek; cbn [default id].
    + destruct (is_alloc k) eqn:Ea; [|intros (Hn & _ & Hd); by destruct Hn]. intros H. right. exists k. pose proof (proj2 (at_slot 4 s k (or_introl eq_refl)) Ek) as [Ek' Es]. split; [apply scan_at; [by left|done]|]. split; [done|]. by apply Hsel.
    + change (is_alloc (deleted_key (POS s.1 s.2))) with false. cbn. intros (Hn & _ & Hd). by destruct Hn.
Qed.

(** *** The keys read *)

Definition located (x : Z * kv) : (Z * bpos) * kv := ((x.1, kv_pos x.2), x.2).

Lemma primary_in b k : (b, k) ∈ primary_keys c <-> b ∈ primary_trees /\ k ∈ scan_raw_locked c b.
Proof.
  unfold primary_keys. rewrite list_elem_of_In, in_flat_map. split.
  - intros (b' & Hb & Hk). apply in_map_iff in Hk as (k' & [= -> ->] & Hk). split; by apply list_elem_of_In.
  - intros [Hb Hk]. exists b. split; [by apply list_elem_of_In|]. by apply in_map, list_elem_of_In.
Qed.

Lemma primary_at b k : (b, k) ∈ primary_keys c -> f_trees c !! (b, kv_pos k) = Some k.
Proof. intros H. apply primary_in in H as [_ H]. by apply seen_first in H as [H _]. Qed.

Lemma seen_in r : r ∈ seen_refs c -> r ∈ tree_refs (f_trees c).
Proof.
  unfold seen_refs, key_refs, tree_refs. rewrite !list_elem_of_In, !in_flat_map. intros ([b k] & Hk & Hr). exists ((b, kv_pos k), k). split; [|done].
  apply list_elem_of_In, elem_of_map_to_list, primary_at. by apply list_elem_of_In.
Qed.

Lemma NoDup_flat_map {A B} (f : A -> list B) l : NoDup l -> (forall x, x ∈ l -> NoDup (f x)) -> (forall x y z, x ∈ l -> y ∈ l -> z ∈ f x -> z ∈ f y -> x = y) -> NoDup (flat_map f l).
Proof.
  induction 1 as [|x l Hx Hn IH]; intros H1 H2; [constructor|]. cbn. apply list.NoDup_app. split; [by apply H1, list_elem_of_here|]. split.
  - intros z Hz Hz'. apply list_elem_of_In, in_flat_map in Hz' as (y & Hy & Hz'). apply list_elem_of_In in Hy, Hz'.
    rewrite (H2 x y z (list_elem_of_here _ _) (list_elem_of_further _ _ _ Hy) Hz Hz') in Hx. done.
  - apply IH; [intros y Hy; by apply H1, list_elem_of_further|]. intros y y' z Hy Hy'. apply H2; by apply list_elem_of_further.
Qed.

Lemma check_total : exists r, check_keys c (primary_keys c) (mk_maps ∅ ∅) = Some r /\ r = add_refs c (key_refs (primary_keys c)) (mk_maps ∅ ∅).
Proof.
  eexists. split; [|done]. apply check_keys_refs. apply Forall_forall. intros [b k] Hk. apply primary_at in Hk. by apply (ck_extents _ Hc _ _ _ Hk).
Qed.

Context (Hone : one_per_slot c).

Lemma one_scan b : scan_raw_locked c b = tree_keys c b.
Proof.
  apply first_of_slots_all; [|done]. apply NoDup_fmap_2_strong; [|by apply tree_keys_NoDup, Hc]. intros k k' H H' E. apply tree_keys_in in H, H'; try apply Hc.
  pose proof (Hone _ _ _ _ _ H H' E) as Ep. rewrite Ep, H' in H. by injection H as ->.
Qed.

Lemma primary_NoDup : NoDup (primary_keys c).
Proof.
  apply NoDup_flat_map; [apply (bool_decide_unpack _); by vm_compute| |].
  - intros b _. apply NoDup_fmap_2; [intros k k'; by intros [= ->]|]. rewrite one_scan. apply tree_keys_NoDup, Hc.
  - intros b b' [b1 k] _ _ H H'. apply list_elem_of_fmap in H as (? & [= -> _] & _), H' as (? & [= <- _] & _). done.
Qed.

Lemma primary_refs : seen_refs c ≡ₚ tree_refs (f_trees c).
Proof.
  unfold seen_refs, key_refs, tree_refs. set (f := fun x : (Z * bpos) * kv => refs_of x.1.1 x.2).
  assert (flat_map (fun '(b, k) => refs_of b k) (primary_keys c) = flat_map f (map located (primary_keys c))) as ->.
  { generalize (primary_keys c). induction l as [|[b k] l IH]; [done|]. cbn. by rewrite IH. }
  assert (flat_map (fun '(key, k) => refs_of key.1 k) (map_to_list (f_trees c)) = flat_map f (map_to_list (f_trees c))) as ->.
  { apply flat_map_eq. by intros [[b p] k]. }
  apply flat_map_cover; [|apply NoDup_map_to_list|].
  - apply NoDup_fmap_2; [|apply primary_NoDup]. intros [b k] [b' k']. cbn. by intros [= -> _ ->].
  - intros [[b p] k] Hf. rewrite elem_of_map_to_list, list_elem_of_fmap. split.
    + intros ([b' k'] & [= -> -> ->] & H). by apply primary_at in H.
    + intros Hk. destruct (ck_trees _ Hc _ _ _ Hk) as (Ep & _). exists (b, k). split; [unfold located; cbn; by rewrite Ep|]. apply primary_in. split; [|rewrite one_scan; apply tree_keys_in; [apply Hc|by rewrite Ep]].
      cbn in Hf. destruct (refs_of b k) as [|r l] eqn:Er; [done|].
      assert (r ∈ tree_refs (f_trees c)) as Hr.
      { unfold tree_refs. apply list_elem_of_In, in_flat_map. exists ((b, p), k). split; [by apply list_elem_of_In, elem_of_map_to_list|]. cbn [fst]. rewrite Er. by left. }
      assert (r_btree r = b) as Eb.
      { assert (r ∈ refs_of b k) as Hin by (rewrite Er; apply list_elem_of_here). unfold refs_of in Hin. destruct (has_refs k); [|by apply not_elem_of_nil in Hin]. apply list_elem_of_fmap in Hin as (? & -> & _). done. }
      pose proof (proj1 (Forall_forall _ _) (ck_refs _ Hc) r Hr) as [_ _ Hb _]. rewrite Eb in Hb. unfold BTREE_ID_NR in Hb.
      assert (b <> 4 /\ b <> 8) as [H4 H8].
      { assert (forall b', derived_tree b' -> b <> b') as Hd; [|split; apply Hd; [by left|by right]]. intros b' Hd ->. pose proof (dt_plain _ (ck_derived _ Hc) _ _ _ (derived_order _ Hd) Hk) as Hpl.
        unfold plain_kv in Hpl. unfold refs_of, has_refs in Er. by rewrite Hpl in Er. }
      apply list_elem_of_In, filter_In. split; [|by rewrite (proj2 (Z.eqb_neq _ _) H4), (proj2 (Z.eqb_neq _ _) H8)]. apply in_map_iff. exists (Z.to_nat b). split; [lia|].
      apply in_seq. change (Z.to_nat BTREE_ID_NR) with 9%nat. lia.
Qed.
End Check.

Lemma in_perm {A} (l l' : list A) x : l ≡ₚ l' -> x ∈ l <-> x ∈ l'.
Proof. by intros ->. Qed.

Lemma charged_perm c us l l' : l ≡ₚ l' -> charged c us l -> charged c us l'.
Proof. intros Hp H p H0. destruct (H p H0) as [H1 H2]. split; [by rewrite H1, (sum_at_perm _ _ _ _ Hp)|]. intros r Hr. apply H2. by rewrite Hp. Qed.

Lemma bps_perm c l l' : l ≡ₚ l' -> bps_are c l -> bps_are c l'.
Proof. intros Hp H p t H0. rewrite (H p t H0). split; intros (r & Hr & E); exists r; (split; [|done]); [by rewrite <- Hp|by rewrite Hp]. Qed.

Lemma summable_perm c l l' : l ≡ₚ l' -> summable c l -> summable c l'.
Proof.
  intros Hp [H1 H2 H3]. constructor.
  - by rewrite <- Hp.
  - intros r r' Hr Hr'. apply H2; by rewrite Hp.
  - intros b. by rewrite <- (sum_at_perm _ _ _ _ Hp).
Qed.

(** ** The comparison *)

Section Compare.
Context (c : fs) (Hc : checkable c) (l : list ref) (m : derived_maps) (Hm : maps_of c l m).
Context (Hl : Forall (fun r => 0 < r_len r) l).

Lemma sum_positive b r : r ∈ l -> ref_home c r = b -> sum_at c (POS b.1 b.2) l <> 0.
Proof.
  intros Hr Hb. assert (lens_ok l) as Hlen by (eapply Forall_impl; [exact Hl|]; cbn; lia). apply list_elem_of_split in Hr as (l1 & l2 & El). rewrite El in Hl, Hlen |- *.
  apply Forall_app in Hl as [_ Hl2]. apply Forall_cons_1 in Hl2 as [Hlr _]. apply Forall_app in Hlen as [H1 H2]. apply Forall_cons_1 in H2 as [_ H2].
  rewrite sum_at_app. cbn [sum_at]. rewrite decide_True by (by apply home_bucket). pose proof (sum_nonneg c (POS b.1 b.2) l1 H1). pose proof (sum_nonneg c (POS b.1 b.2) l2 H2). lia.
Qed.

Lemma alloc_maps_equal : fold_left add_actual_alloc (scan_raw_locked c 4) ∅ = m_alloc m <-> charged c [] l.
Proof.
  split.
  - intros E p H0. rewrite <- (pos_slot p H0). set (b := bucket_slot p). change (POS (inode p) (offset p)) with (POS b.1 b.2).
    pose proof (mo_alloc _ _ _ Hm b) as H. rewrite <- E in H. set (am := fold_left add_actual_alloc (scan_raw_locked c 4) ∅) in *. destruct (am !! b) as [[g n]|] eqn:Eb.
    + apply (actual_alloc c Hc) in Eb as (_ & Eg & En). destruct H as (Hn & _ & Hall). split; [by rewrite En|]. intros r Hr Hb. rewrite Eg. symmetry. apply Hall; [done|]. by apply home_bucket.
    + split; [|intros r Hr Hb; destruct (H r Hr); by apply home_bucket]. rewrite (sum_none _ _ _ H). destruct (decide (dirty_sectors (aview c [] (POS b.1 b.2)) = 0)) as [|Hn]; [done|].
      pose proof (proj2 (actual_alloc c Hc b _ _) (conj Hn (conj eq_refl eq_refl))) as Hx. fold am in Hx. by rewrite Eb in Hx.
  - intros H. apply map_eq. intros b. pose proof (mo_alloc _ _ _ Hm b) as Hb. destruct (H (POS b.1 b.2) eq_refl) as [H1 H2]. destruct (m_alloc m !! b) as [[g n]|].
    + destruct Hb as (-> & (r & Hr & Er) & Hall). apply (actual_alloc c Hc). split; [by eapply sum_positive|]. split; [|done]. rewrite (H2 r Hr) by (by apply home_bucket). by apply Hall.
    + apply eq_None_not_Some. intros [[g n] E]. apply (actual_alloc c Hc) in E as (Hn & _ & E). apply Hn. rewrite <- E, H1. by apply sum_none.
Qed.

Lemma bp_maps_equal : fold_left add_actual_bp (scan_raw_locked c 8) ∅ = m_bp m <-> bps_are c l.
Proof.
  assert (forall r s, ref_sector r = POS s.1 s.2 <-> ref_slot r = s) as Hs.
  { intros r [d o]. unfold ref_slot, ref_sector, bucket_slot. cbn [inode offset POS fst snd]. unfold POS. split; [by intros [= -> ->]|]. by intros [= -> ->]. }
  split.
  - intros E p t H0. rewrite <- (pos_slot p H0). set (b := bucket_slot p). change (POS (inode p) (offset p)) with (POS b.1 b.2). rewrite <- (actual_bp c Hc), E, (mo_bp _ _ _ Hm).
    split; intros (r & Hr & Es & Et); exists r; (split; [done|]); (split; [by apply Hs|done]).
  - intros H. apply map_eq. intros b. apply option_eq. intros t. rewrite (actual_bp c Hc), (mo_bp _ _ _ Hm), (H (POS b.1 b.2) t eq_refl).
    split; intros (r & Hr & Es & Et); exists r; (split; [done|]); (split; [by apply Hs|done]).
Qed.
End Compare.

Lemma slots_sectors l : NoDup (map ref_slot l) <-> NoDup (map ref_sector l).
Proof.
  assert (forall r r', ref_slot r = ref_slot r' <-> ref_sector r = ref_sector r') as H.
  { intros r r'. unfold ref_slot. split; [|by intros ->]. by apply slot_inj. }
  induction l as [|r l IH]; cbn [map]; [split; constructor|]. rewrite !list.NoDup_cons, IH, !list_elem_of_fmap.
  split; intros [Hn Hd]; (split; [|done]); intros (r' & E & Hr'); apply Hn; exists r'; (split; [by apply H|done]).
Qed.

Lemma charged_summable c l : lens_ok l -> derived_trees c -> charged c [] l -> NoDup (map ref_sector l) -> summable c l.
Proof.
  intros Hl Hd Hch Hn. constructor; [by apply slots_sectors| |].
  - intros r r' Hr Hr' E. assert (forall x, x ∈ l -> ref_home c x = ref_home c r -> ref_gen x = gen (aview c [] (ref_bucket c r))) as H.
    { intros x Hx Ex. symmetry. destruct (Hch (ref_bucket c r) eq_refl) as [_ H]. apply H; [done|]. rewrite (proj1 (home_bucket c x _) eq_refl), Ex. symmetry. by apply home_bucket. }
    by rewrite (H r Hr eq_refl), (H r' Hr' (eq_sym E)).
  - intros b. destruct (Hch (POS b.1 b.2) eq_refl) as [<- _]. unfold aview, trigger_read_alloc, peek_slot. cbn [trigger_staged_key].
    destruct (f_trees c !! (4, POS b.1 b.2)) as [k|] eqn:Ek; cbn [default id]; [|done]. destruct (is_alloc k) eqn:Ea; [|done].
    pose proof (dt_alloc _ Hd _ _ Ek Ea) as Hw. unfold alloc_wf, in_range in Hw. lia.
Qed.

Lemma add_refs_error c l m err : add_refs c l m = Err err -> err <> DerivedState AllocSet /\ err <> DerivedState BackpointerSet.
Proof.
  revert m. induction l as [|r l IH]; intros m; cbn [add_refs]; [done|]. unfold add_ref at 1. destruct (negb _); [by intros [= <-]|]. destruct (uadd _ _ _) as [n|]; [|by intros [= <-]].
  destruct (m_bp m !! ref_slot r); [by intros [= <-]|apply IH].
Qed.

(** What the result of the check says of the pointers [l]. *)
Definition verdict (c : fs) (l : list ref) (r : option (result unit)) : Prop :=
  match r with
  | Some (Ok _) => charged c [] l /\ bps_are c l /\ NoDup (map ref_sector l)
  | Some (Err err) =>
      if decide (err = DerivedState AllocSet) then summable c l /\ ~ charged c [] l
      else if decide (err = DerivedState BackpointerSet) then summable c l /\ charged c [] l /\ ~ bps_are c l
      else ~ summable c l
  | None => False
  end.

Lemma seen_lens c : checkable c -> Forall (fun r => 0 < r_len r) (seen_refs c).
Proof.
  intros Hc. apply Forall_forall. intros x Hx. apply (seen_in c Hc) in Hx. pose proof (proj1 (Forall_forall _ _) (ck_sizes _ Hc) x Hx) as Hx2.
  destruct (proj1 (Forall_forall _ _) (ck_refs _ Hc) x Hx) as [_ [Hx1 _] _ _]. cbn in Hx2. lia.
Qed.

Lemma check_verdict c : checkable c -> verdict c (seen_refs c) (check_extents_to_backpointers c).
Proof.
  intros Hc. destruct (check_total c Hc) as (r & E & Er). unfold check_extents_to_backpointers. rewrite E. cbn [mbind option_bind]. fold (seen_refs c) in Er. pose proof (seen_lens c Hc) as Hpos.
  revert Er Hpos. generalize (seen_refs c) as l. intros l Er Hpos.
  assert (lens_ok l) as Hlen by (eapply Forall_impl; [exact Hpos|]; cbn; lia).
  pose proof (add_refs_empty c l Hlen) as H. rewrite <- Er in H. destruct r as [m|err].
  2: { destruct (add_refs_error _ _ _ _ (eq_sym Er)) as [H1 H2]. unfold verdict. by rewrite !decide_False. }
  destruct H as [Hm Hs]. pose proof (alloc_maps_equal c Hc l m Hm Hpos) as Ha. pose proof (bp_maps_equal c Hc l m Hm) as Hb.
  case_bool_decide as Ea; cbn [negb]; [|unfold verdict; rewrite decide_True by done; by rewrite <- Ha].
  case_bool_decide as Eb; cbn [negb]; [|unfold verdict; rewrite decide_False, decide_True by done; by rewrite <- Ha, <- Hb].
  unfold verdict. rewrite <- Ha, <- Hb. split; [done|]. split; [done|]. apply slots_sectors, Hs.
Qed.

Lemma bp_key_reads c r : ref_ok c r -> bp_sel (bp_key r) = Some (ref_entry r).
Proof.
  intros Hr. pose proof (ptr_ranges _ _ Hr) as (_ & _ & Hg). destruct Hr as [_ Hl Hb Hp]. unfold bp_sel, bp_key_entry. cbn [bp_key kv_type kv_k k_type kv_v]. change (KEY_TYPE_backpointer =? KEY_TYPE_backpointer) with true. cbv iota.
  rewrite <- (app_nil_r (bp_words _)), read_bp_words; [done|]. unfold bp_wf, in_range, BTREE_ID_NR in *. cbn [bp_btree_id bp_level bp_data_type bp_bucket_gen bp_flags bp_bucket_len bp_pos]. repeat split; try lia; apply Hp.
Qed.

Lemma exact_bps c : trees_wf c -> derived_ok c -> bps_are c (tree_refs (f_trees c)).
Proof.
  intros Ht [_ _ _ [H1 H2] _ Hr _] p t H0. assert (forall r, r ∈ tree_refs (f_trees c) -> bp_at c (ref_sector r) = Some (ref_entry r)) as Hget.
  { intros r Hin. specialize (H1 r Hin). unfold bview, after in H1. cbn [find_update] in H1. unfold bp_at. change (f_trees c !! (8, ref_sector r) = Some (bp_key r)) in H1. rewrite H1. cbn [mbind option_bind].
    apply (bp_key_reads c). by apply (proj1 (Forall_forall _ _) Hr). }
  split.
  - intros E. unfold bp_at in E. destruct (f_trees c !! (8, p)) as [k|] eqn:Ek; [|done]. destruct (H2 p k H0 Ek) as (r & Hin & <-). exists r. split; [done|]. split; [done|].
    specialize (Hget r Hin). unfold bp_at in Hget. rewrite Ek in Hget. congruence.
  - intros (r & Hin & <- & <-). by apply Hget.
Qed.

Lemma derived_check_iff c : checkable c -> let l := seen_refs c in
  check_extents_to_backpointers c = Some (Ok tt) <-> charged c [] l /\ bps_are c l /\ NoDup (map ref_sector l).
Proof.
  intros Hc l. pose proof (check_verdict c Hc) as Hv. fold l in Hv.
  assert (lens_ok l) as Hlen by (eapply Forall_impl; [exact (seen_lens c Hc)|]; cbn; lia).
  split; [intros E; rewrite E in Hv; exact Hv|].
  intros (H1 & H2 & H3). destruct (check_extents_to_backpointers c) as [[[]|err]|]; [done| |done]. unfold verdict in Hv. exfalso.
  pose proof (charged_summable c l Hlen (ck_derived _ Hc) H1 H3) as Hs. repeat case_decide; tauto.
Qed.

(** C17: the check of the derived trees sees the pointers of the keys of the
    lowest snapshot of every inode and offset, and ends with a verdict on them:
    it passes exactly if every bucket has the generation and the sum of the
    sectors of these pointers, and every sector with such a pointer its
    backpointer, and no other does; else its error says whether the pointers
    contradict each other, or which tree is wrong.  Where no two snapshots have
    a key of one inode and offset these are all pointers, and the check passes
    on derived trees as commits keep them; with two such keys the verdict may be
    wrong both ways. *)
Theorem derived_check_exact c : checkable c -> let seen := seen_refs c in
  (forall b k, (b, k) ∈ primary_keys c <-> b ∈ primary_trees /\ f_trees c !! (b, kv_pos k) = Some k /\
     forall p k', f_trees c !! (b, p) = Some k' -> bucket_slot p = bucket_slot (kv_pos k) -> snapshot (kv_pos k) <= snapshot p) /\
  verdict c seen (check_extents_to_backpointers c) /\
  (check_extents_to_backpointers c = Some (Ok tt) <-> charged c [] seen /\ bps_are c seen /\ NoDup (map ref_sector seen)) /\
  (one_per_slot c -> seen ≡ₚ tree_refs (f_trees c) /\ (derived_ok c -> check_extents_to_backpointers c = Some (Ok tt))).
Proof.
  intros Hc l. split; [intros b k; by rewrite primary_in, (seen_first c Hc)|]. split; [by apply check_verdict|]. split; [by apply derived_check_iff|].
  intros Hone. pose proof (primary_refs c Hc Hone) as Hp. fold l in Hp. split; [done|]. intros Hok. apply derived_check_iff; [done|]. fold l.
  split; [eapply charged_perm; [by symmetry|apply Hok]|]. split; [eapply bps_perm; [by symmetry|apply exact_bps; [apply Hc|done]]|]. rewrite Hp. apply Hok.
Qed.

(** ** Examples *)

Definition with_keys (l : list ((Z * bpos) * kv)) : fs := with_trees device (list_to_map l) [].
Definition copies_device : fs := with_keys copies_list.

Lemma copies_tree_refs : tree_refs (f_trees copies_device) = [ref_256; ref_400].
Proof. vm_compute. reflexivity. Qed.

Lemma eight_dirty_wf : alloc_wf eight_dirty.
Proof. repeat split; vm_compute; done. Qed.

Lemma eight_dirty_reads : read_alloc (alloc_words eight_dirty) = eight_dirty.
Proof. rewrite <- (app_nil_r (alloc_words eight_dirty)). apply read_alloc_words, eight_dirty_wf. Qed.

Lemma copies_checkable : checkable copies_device.
Proof.
  constructor; rewrite ?copies_tree_refs.
  - intros b p k. apply (copies_each (fun _ p k => kv_pos k = p /\ kv_type k <> KEY_TYPE_deleted /\ kv_wf k)); intros; split; try done; split; try done; constructor; try done; cbn; unfold BKEY_U64S, MAX; lia.
  - constructor.
    + intros p k H. revert H. generalize 4. intros b H. revert b p k H. apply (copies_each (fun _ _ k => is_alloc k = true -> alloc_wf (read_alloc (kv_v k)))); [done| |done|done]. intros q _ _. cbn [bucket_key kv_v]. rewrite eight_dirty_reads. apply eight_dirty_wf.
    + intros b p k Hb H. revert b p k H Hb. apply (copies_each (fun b _ k => 8 <= btree_trigger_order b -> plain_kv k)); try done.
  - intros b p k H. revert b p k H. apply (copies_each (fun _ p _ => bpos_wf p)); [repeat split; done|intros q [-> | ->]; repeat split; done|repeat split; done|repeat split; done].
  - intros b p k Hb H. revert b p k H Hb. apply (copies_each (fun b p _ => b = 4 \/ b = 8 -> snapshot p = 0)); try done. by intros q [-> | ->].
  - intros p k H. revert H. generalize 4. intros b H. revert b p k H. by apply (copies_each (fun _ _ k => is_alloc_key k = true -> is_alloc k = true)).
  - apply (copies_each (fun b _ k => plain_extent copies_device b k)); try done. intros _. split; [done|]. split; [vm_compute; repeat constructor|]. repeat (apply Forall_cons_2; [by vm_compute|]). constructor.
  - repeat (apply Forall_cons_2; [constructor; cbn [r_ptr r_len r_btree r_pos ref_256 ref_400]; repeat split; vm_compute; done|]). constructor.
  - repeat (apply Forall_cons_2; [done|]). constructor.
Qed.

Lemma copies_one : one_per_slot copies_device.
Proof.
  intros b p q k k' H H' E. apply copies_in in H, H'. unfold copies_list in H, H'. rewrite !elem_of_cons in H, H'.
    destruct H as [[= -> -> ->]|[[= -> -> ->]|[[= -> -> ->]|[[= -> -> ->]|[[= -> -> ->]|H]]]]]; [..|by apply not_elem_of_nil in H];
      (destruct H' as [[= ? ->]|[[= ? ->]|[[= ? ->]|[[= ? ->]|[[= ? ->]|H']]]]]; [..|by apply not_elem_of_nil in H']); try done; subst; try done; vm_compute in E; congruence.
Qed.

Lemma derived_check_exact_witness : check_extents_to_backpointers copies_device = Some (Ok tt) /\
  dirty_sectors (aview copies_device [] (POS 0 2)) = sum_at copies_device (POS 0 2) (seen_refs copies_device) /\ seen_refs copies_device ≡ₚ tree_refs (f_trees copies_device).
Proof.
  assert (check_extents_to_backpointers copies_device = Some (Ok tt)) as E by (vm_compute; reflexivity). split; [exact E|].
  destruct (derived_check_exact copies_device copies_checkable) as (_ & _ & [H _] & Hall). destruct (H E) as (Hch & _). split; [exact (proj1 (Hch (POS 0 2) eq_refl))|].
  exact (proj1 (Hall copies_one)).
Defined.

(** A backpointer too few, another generation: the errors. *)
Example missing_backpointer : check_extents_to_backpointers (with_keys (take 4 copies_list)) = Some (Err (DerivedState BackpointerSet)).
Proof. vm_compute. reflexivity. Qed.
Example missing_bucket : check_extents_to_backpointers (with_keys (take 2 copies_list)) = Some (Err (DerivedState AllocSet)).
Proof. vm_compute. reflexivity. Qed.

(** The check looks at one extent of an inode and offset only: where two
    snapshots have their own, it fails although the derived trees are exact, and
    passes although bucket and backpointer of the second extent are missing. *)
Definition extent_in (s sector : Z) : kv := mk_kv (mk_bkey (BKEY_U64S + 1) KEY_FORMAT_CURRENT KEY_TYPE_extent ZERO_VERSION 8 (SPOS 7 8 s)) [ptr_to sector 3].
Definition two_snapshots : fs :=
  with_keys [((0, SPOS 7 8 1), extent_in 1 256); ((0, SPOS 7 8 2), extent_in 2 400); ((4, POS 0 2), bucket_key (POS 0 2) eight_dirty); ((4, POS 0 3), bucket_key (POS 0 3) eight_dirty);
             ((8, POS 0 256), bp_key (mk_ref 0 (SPOS 7 8 1) (ptr_to 256 3) 8)); ((8, POS 0 400), bp_key (mk_ref 0 (SPOS 7 8 2) (ptr_to 400 3) 8))].
Example snapshots_fail : check_extents_to_backpointers two_snapshots = Some (Err (DerivedState AllocSet)).
Proof. vm_compute. reflexivity. Qed.
Definition second_forgotten : fs :=
  with_keys [((0, SPOS 7 8 1), extent_in 1 256); ((0, SPOS 7 8 2), extent_in 2 400); ((4, POS 0 2), bucket_key (POS 0 2) eight_dirty);
             ((8, POS 0 256), bp_key (mk_ref 0 (SPOS 7 8 1) (ptr_to 256 3) 8))].
Example snapshots_pass : check_extents_to_backpointers second_forgotten = Some (Ok tt) /\ length (tree_refs (f_trees second_forgotten)) = 2%nat.
Proof. split; vm_compute; reflexivity. Qed.
