(* ===== verification/Iter.v ===== *)
(** * Iterators over a btree ([btree/iter.rs])

    Looking up and walking the keys of a tree: [peek], [advance], [peek_slot],
    with the views of snapshots.  The keys of a leaf are in the order in which the
    iterator over the sets of a node returns them ([NodeIter]): of the keys at
    one position the deleted ones come first.  A search in a leaf passes by deleted keys at
    the position searched for ([BsetSearch]).  Locks and reading of nodes appear
    as the error a traversal returns (pointers in nodes in the middle are not
    looked up in the journal); the keys of the journal, while it is
    replayed, as the function of [JournalKeys] that looks one up.  The key cache
    is not modelled: no iterator is given a path in it. *)

From stdpp Require Import base tactics list option gmap sorting.
From Stdlib Require Import ZArith Lia.
From S2P Require Import Superblock Prelude Bpos BkeyPack Snapshot Extents ExtentKeys AllocKeys Trans Buckets.

Open Scope Z_scope.

Definition BTREE_ITER_slots : Z := 2 ^ 0.
Definition BTREE_ITER_intent : Z := 2 ^ 1.
Definition BTREE_ITER_is_extents : Z := 2 ^ 3.
Definition BTREE_ITER_not_extents : Z := 2 ^ 4.
Definition BTREE_ITER_cached : Z := 2 ^ 5.
Definition BTREE_ITER_snapshot_field : Z := 2 ^ 8.
Definition BTREE_ITER_all_snapshots : Z := 2 ^ 9.
Definition BTREE_ITER_filter_snapshots : Z := 2 ^ 10.
Definition BTREE_ITER_nofilter_whiteouts : Z := 2 ^ 11.

Definition KEY_TYPE_whiteout : Z := 1.
Definition KEY_TYPE_extent_whiteout : Z := 36.

(** ** The tree *)

(** A leaf covers the positions from [min_key] to [max_key]. *)
Record leaf := mk_leaf { min_key : bpos; max_key : bpos; leaf_keys : list kv }.

(** Nodes in the middle have pointers, each at the last position of its child. *)
Inductive node :=
  | Leaf (l : leaf)
  | Inner (node_min : bpos) (ptrs : list (bpos * node)).

Definition node_min_key (n : node) : bpos := match n with Leaf l => min_key l | Inner m _ => m end.

(** What an iterator sees of its transaction: the tree, the updates, the keys
    of the journal while it is replayed, the error of a traversal to a position
    (0 for none), the snapshots. *)
Record btree_trans := mk_trans {
  t_root : option node;
  t_updates : list btree_insert_entry;
  t_journal : option (bpos -> bpos -> option kv);
  t_traverse : bpos -> Z;
  t_snapshots : option snapshot_table
}.

Record btree_iter := mk_bt_iter {
  it_btree : Z;
  it_flags : Z;
  it_snapshot : Z;
  it_pos : bpos;
  it_k : bkey;
  it_path : bpos;
  it_update_path : option bpos
}.

Definition iflag (it : btree_iter) (f : Z) : bool := has_flag (it_flags it) f.
Definition with_pos (it : btree_iter) (p : bpos) : btree_iter := mk_bt_iter (it_btree it) (it_flags it) (it_snapshot it) p (it_k it) (it_path it) (it_update_path it).
Definition with_k (it : btree_iter) (k : bkey) : btree_iter := mk_bt_iter (it_btree it) (it_flags it) (it_snapshot it) (it_pos it) k (it_path it) (it_update_path it).
Definition with_path (it : btree_iter) (p : bpos) : btree_iter := mk_bt_iter (it_btree it) (it_flags it) (it_snapshot it) (it_pos it) (it_k it) p (it_update_path it).
Definition with_update_path (it : btree_iter) (p : option bpos) : btree_iter := mk_bt_iter (it_btree it) (it_flags it) (it_snapshot it) (it_pos it) (it_k it) (it_path it) p.
Definition with_flags (it : btree_iter) (f : Z) : btree_iter := mk_bt_iter (it_btree it) f (it_snapshot it) (it_pos it) (it_k it) (it_path it) (it_update_path it).

Definition key_init (p : bpos) : bkey := kv_k (deleted_key p).

Definition bch2_trans_iter_init (btree : Z) (pos : bpos) (flags : Z) : btree_iter := mk_bt_iter btree flags (snapshot pos) pos (key_init pos) pos None.

(** The position in the mode of the iterator. *)
Definition iter_bpos (it : btree_iter) (pos : bpos) : bpos := if iflag it BTREE_ITER_all_snapshots then pos else bpos_with_snapshot pos (it_snapshot it).

(** The private function; it leaves the key without size. *)
Definition btree_iter_set_pos (it : btree_iter) (pos : bpos) : btree_iter :=
  let new_pos := iter_bpos it pos in
  let k := it_k it in
  mk_bt_iter (it_btree it) (it_flags it) (it_snapshot it) new_pos (mk_bkey (k_u64s k) (k_format k) KEY_TYPE_deleted (k_version k) 0 new_pos) new_pos None.

Definition bch2_btree_iter_set_pos (it : btree_iter) (pos : bpos) : btree_iter :=
  let new_pos := iter_bpos it pos in
  mk_bt_iter (it_btree it) (it_flags it) (it_snapshot it) new_pos (key_init new_pos) (it_path it) None.

Definition bch2_btree_iter_set_snapshot (it : btree_iter) (s : Z) : btree_iter :=
  let it := mk_bt_iter (it_btree it) (it_flags it) s (it_pos it) (it_k it) (it_path it) (it_update_path it) in
  bch2_btree_iter_set_pos it (bpos_with_snapshot (it_pos it) s).

(** ** Traversing to a leaf *)

(** In a node in the middle the first pointer not before the position. *)
Fixpoint descend (pos : bpos) (n : node) : Z + leaf :=
  match n with
  | Leaf l => inr l
  | Inner _ ptrs =>
      (fix scan (ptrs : list (bpos * node)) : Z + leaf :=
         match ptrs with
         | [] => inl (-2)
         | (p, child) :: ptrs =>
             if bpos_cmp p pos <? 0 then scan ptrs
             else if (0 <? bpos_cmp pos p) || (bpos_cmp pos (node_min_key child) <? 0) then inl (-3)
             else descend pos child
         end) ptrs
  end.

Definition bch2_btree_path_traverse_one (t : btree_trans) (pos : bpos) : Z + leaf :=
  if negb (t_traverse t pos =? 0) then inl (t_traverse t pos)
  else match t_root t with None => inl (-1) | Some root => descend pos root end.

(** The first key of a leaf that is not before [pos]. *)
Definition not_before (pos : bpos) (k : kv) : bool :=
  let c := bpos_cmp (kv_pos k) pos in if negb (c =? 0) then 0 <? c else negb (kv_type k =? KEY_TYPE_deleted).
Definition leaf_peek_all (l : leaf) (pos : bpos) : option kv := find (not_before pos) (leaf_keys l).

(** ** Peeking *)

Inductive peeked := Found (k : kv) | Nothing | Failed (ret : Z).

(** The updates of the transaction, in front of [current]. *)
Definition peek_update (it : btree_iter) (pos end_ : bpos) (current : option kv) (u : btree_insert_entry) : option kv :=
  if negb (e_btree_id u =? it_btree it) || negb (e_level u =? 0) || (negb (iflag it BTREE_ITER_slots) && (kv_type (e_k u) =? KEY_TYPE_deleted)) ||
     (bpos_cmp (kv_pos (e_k u)) pos <? 0) || (0 <? bpos_cmp (kv_pos (e_k u)) end_) then current
  else match current with
       | Some k => if bpos_cmp (kv_pos (e_k u)) (kv_pos k) <=? 0 then Some (e_k u) else current
       | None => Some (e_k u)
       end.
Definition bch2_btree_trans_peek_updates (t : btree_trans) (it : btree_iter) (current : option kv) (end_ : bpos) : option kv :=
  fold_left (peek_update it (it_pos it) end_) (t_updates t) current.

(** Extents are found by their end: the search is for a position behind. *)
Definition extent_search (it : btree_iter) (search_key : bpos) : option bpos :=
  if iflag it BTREE_ITER_is_extents && negb (bkey_eq search_key POS_MAX) then
    if iflag it BTREE_ITER_all_snapshots then bpos_successor search_key
    else q ← bpos_nosnap_successor search_key; Some (bpos_with_snapshot q (it_snapshot it))
  else Some search_key.

Definition extent_pos (it : btree_iter) (k : bkey) : bpos := if iflag it BTREE_ITER_is_extents then bpos_max (it_pos it) (bkey_start_pos k) else k_p k.

Definition tree_key_past (it : btree_iter) (pos end_ : bpos) : bool :=
  (iflag it BTREE_ITER_all_snapshots && (0 <? bpos_cmp pos end_)) ||
  (negb (iflag it BTREE_ITER_all_snapshots) &&
   ((iflag it BTREE_ITER_is_extents && negb (bkey_lt pos end_)) || (negb (iflag it BTREE_ITER_is_extents) && bkey_lt end_ pos))).

Definition out_of_range (it : btree_iter) (pos end_ : bpos) : bool :=
  if iflag it BTREE_ITER_all_snapshots then bpos_gt pos end_
  else if iflag it BTREE_ITER_is_extents then bkey_ge pos end_
  else bpos_gt pos end_.

(** The search goes on behind a deleted key, or behind the leaf. *)
Fixpoint peek_tree_loop (fuel : nat) (t : btree_trans) (it : btree_iter) (search_key end_ : bpos) : option (btree_iter * peeked) :=
  match fuel with
  | O => None
  | S fuel =>
      search_key ← extent_search it search_key;
      let it := with_path it search_key in
      match bch2_btree_path_traverse_one t search_key with
      | inl ret => Some (bch2_btree_iter_set_pos it (it_pos it), Failed ret)
      | inr leaf =>
          match leaf_peek_all leaf search_key with
          | None =>
              let leaf_end := if bpos_cmp (max_key leaf) end_ <? 0 then max_key leaf else end_ in
              match (j ← t_journal t; j search_key leaf_end) with
              | Some journal_k =>
                  if kv_type journal_k =? KEY_TYPE_deleted then
                    if bpos_eq (kv_pos journal_k) SPOS_MAX then Some (it, Nothing)
                    else s ← bpos_successor (kv_pos journal_k); peek_tree_loop fuel t it s end_
                  else Some (with_pos (with_k it (kv_k journal_k)) (kv_pos journal_k), Found journal_k)
              | None =>
                  match bch2_btree_trans_peek_updates t it None leaf_end with
                  | Some u => Some (with_pos (with_k it (kv_k u)) (kv_pos u), Found u)
                  | None =>
                      let max := max_key leaf in
                      if (0 <? bpos_cmp max end_) || (0 <=? bpos_cmp max SPOS_MAX) then Some (bch2_btree_iter_set_pos it SPOS_MAX, Nothing)
                      else s ← bpos_successor max; peek_tree_loop fuel t it s end_
                  end
              end
          | Some k =>
              let it := with_k it (kv_k k) in
              let next_pos := extent_pos it (kv_k k) in
              if tree_key_past it next_pos end_ then Some (btree_iter_set_pos it end_, Nothing) else
              let it := with_pos it (iter_bpos it next_pos) in
              match (j ← t_journal t; jk ← j search_key end_; if bpos_cmp (kv_pos jk) (kv_pos k) <=? 0 then Some jk else None) with
              | Some journal_k =>
                  if kv_type journal_k =? KEY_TYPE_deleted then
                    if bpos_eq (kv_pos journal_k) SPOS_MAX then Some (it, Nothing)
                    else s ← bpos_successor (kv_pos journal_k); peek_tree_loop fuel t it s end_
                  else
                    let it := with_k it (kv_k journal_k) in
                    let candidate := extent_pos it (kv_k journal_k) in
                    if out_of_range it candidate end_ then Some (btree_iter_set_pos it end_, Nothing)
                    else Some (with_pos it candidate, Found journal_k)
              | None =>
                  k ← bch2_btree_trans_peek_updates t it (Some k) end_;
                  let it := with_k it (kv_k k) in
                  if kv_type k =? KEY_TYPE_deleted then
                    next ← (if bpos_eq search_key (kv_pos k) then bpos_successor (kv_pos k) else Some (kv_pos k));
                    if bpos_eq next SPOS_MAX then Some (it, Nothing) else peek_tree_loop fuel t it next end_
                  else
                    let candidate := extent_pos it (kv_k k) in
                    if out_of_range it candidate end_ then Some (btree_iter_set_pos it end_, Nothing)
                    else Some (with_pos it candidate, Found k)
              end
          end
      end
  end.

(** Without a filter. *)
Definition peek_all (fuel : nat) (t : btree_trans) (it : btree_iter) (end_ : bpos) : option (btree_iter * peeked) :=
  peek_tree_loop fuel t (with_update_path it None) (it_pos it) end_.

Definition is_whiteout (k : kv) : bool := (kv_type k =? KEY_TYPE_deleted) || (kv_type k =? KEY_TYPE_whiteout) || (kv_type k =? KEY_TYPE_extent_whiteout).

Definition is_ancestor (t : btree_trans) (id ancestor : Z) : option bool :=
  match t_snapshots t with None => Some false | Some s => bch2_snapshot_is_ancestor s id ancestor end.

(** The keys that the snapshot of the iterator sees, without whiteouts.  [it]
    has the flags without the filter, [flags] has all. *)
Fixpoint filter_loop (fuel n : nat) (t : btree_trans) (flags : Z) (it : btree_iter) (end_ : bpos) : option (btree_iter * peeked) :=
  match n with
  | O => None
  | S n =>
      '(it, ret) ← peek_all fuel t it end_;
      match ret with
      | Found k =>
          let past := if has_flag flags BTREE_ITER_is_extents then inode end_ <? inode (kv_pos k) else bkey_lt end_ (kv_pos k) in
          if past then Some (with_flags (btree_iter_set_pos it end_) flags, Nothing)
          else if snapshot (kv_pos k) <? it_snapshot it then filter_loop fuel n t flags (with_pos it (bpos_with_snapshot (kv_pos k) (it_snapshot it))) end_
          else
            let it := match it_update_path it with Some p => if bkey_eq p (kv_pos k) then it else with_update_path it None | None => it end in
            let want := has_flag flags BTREE_ITER_intent && negb (has_flag flags BTREE_ITER_is_extents) && bool_decide (it_update_path it = None) in
            let up := bpos_with_snapshot (kv_pos k) (it_snapshot it) in
            let it := if want then with_update_path it (Some up) else it in
            match (if want then bch2_btree_path_traverse_one t up else inr (mk_leaf up up [])) with
            | inl ret => Some (with_flags it flags, Failed ret)
            | inr _ =>
                anc ← is_ancestor t (it_snapshot it) (snapshot (kv_pos k));
                if negb anc then s ← bpos_successor (kv_pos k); filter_loop fuel n t flags (with_pos it s) end_
                else if negb (has_flag flags BTREE_ITER_nofilter_whiteouts) && is_whiteout k then
                  if (kv_type k =? KEY_TYPE_extent_whiteout) && bkey_ge (kv_pos k) end_ then Some (with_flags (btree_iter_set_pos it end_) flags, Nothing)
                  else if kv_type k =? KEY_TYPE_extent_whiteout then filter_loop fuel n t flags (with_pos it (bpos_with_snapshot (kv_pos k) (it_snapshot it))) end_
                  else
                    s ← (if has_flag flags BTREE_ITER_all_snapshots then bpos_successor (kv_pos k)
                         else q ← bpos_nosnap_successor (kv_pos k); Some (bpos_with_snapshot q (it_snapshot it)));
                    filter_loop fuel n t flags (with_pos it s) end_
                else Some (with_flags it flags, Found k)
            end
      | _ => Some (with_flags it flags, ret)
      end
  end.

Definition without_filter (flags : Z) : Z := Z.land flags (Z.lxor (MAX 16) BTREE_ITER_filter_snapshots).

(** [n] bounds the keys looked at, [fuel] the searches for one of them. *)
Definition bch2_btree_iter_peek_max (n : nat) (t : btree_trans) (it : btree_iter) (end_ : bpos) : option (btree_iter * peeked) :=
  if iflag it BTREE_ITER_filter_snapshots then filter_loop n n t (it_flags it) (with_flags it (without_filter (it_flags it))) end_
  else peek_all n t it end_.

Definition bch2_btree_iter_peek (n : nat) (t : btree_trans) (it : btree_iter) : option (btree_iter * peeked) := bch2_btree_iter_peek_max n t it SPOS_MAX.

(** *** The next key *)

Definition bch2_btree_iter_advance (it : btree_iter) : option (btree_iter * bool) :=
  let pos := k_p (it_k it) in
  let ret := if iflag it BTREE_ITER_all_snapshots then negb (bpos_eq pos SPOS_MAX) else negb (bkey_eq pos SPOS_MAX) in
  next ← (if ret && negb (iflag it BTREE_ITER_is_extents) then
            if iflag it BTREE_ITER_all_snapshots then bpos_successor pos
            else q ← bpos_nosnap_successor pos; Some (bpos_with_snapshot q (it_snapshot it))
          else Some pos);
  Some (btree_iter_set_pos it next, ret).

Definition bch2_btree_iter_next (n : nat) (t : btree_trans) (it : btree_iter) : option (btree_iter * peeked) :=
  '(it, more) ← bch2_btree_iter_advance it;
  if more : bool then bch2_btree_iter_peek n t it else Some (it, Nothing).

(** [peek], then [next] until there is nothing; an error ends it.  Keys that are
    not deleted go to [visit]. *)
Fixpoint walk_loop {A} (visit : A -> kv -> result A) (m n : nat) (t : btree_trans) (it : btree_iter) (current : peeked) (out : A) : option (result A) :=
  match current with
  | Nothing => Some (Ok out)
  | Failed ret => Some (Err (Transaction ret))
  | Found k =>
      match m with
      | O => None
      | S m =>
          match (if kv_type k =? KEY_TYPE_deleted then Ok out else visit out k) with
          | Err err => Some (Err err)
          | Ok out => '(it, current) ← bch2_btree_iter_next n t it; walk_loop visit m n t it current out
          end
      end
  end.

Definition walk_tree {A} (visit : A -> kv -> result A) (m n : nat) (t : btree_trans) (it : btree_iter) (out : A) : option (result A) :=
  '(it, current) ← bch2_btree_iter_peek n t it; walk_loop visit m n t it current out.

(** Copies of all keys of a tree, for the checks. *)
Definition copy_key (out : list kv) (k : kv) : result (list kv) := if k_u64s (kv_k k) <? BKEY_U64S then Err (Transaction (-1)) else Ok (out ++ [k]).
Definition scan_raw_tree (m n : nat) (t : btree_trans) (btree : Z) : option (result (list kv)) :=
  walk_tree copy_key m n t (bch2_trans_iter_init btree POS_MIN BTREE_ITER_intent) [].

(** ** Trees *)

Definition pval (p : bpos) : Z := bpos_val p.
Definition live_key (k : kv) : bool := negb (kv_type k =? KEY_TYPE_deleted).

(** The order of keys in a leaf: by position, deleted ones first. *)
Definition key_rank (k : kv) : Z := 2 * pval (kv_pos k) + Z.b2z (live_key k).

Record leaf_ok (lo hi : Z) (l : leaf) : Prop := {
  lo_min : bpos_wf (min_key l) /\ pval (min_key l) = lo;
  lo_max : bpos_wf (max_key l) /\ pval (max_key l) = hi;
  lo_keys : Forall (fun k => bpos_wf (kv_pos k) /\ lo <= pval (kv_pos k) <= hi) (leaf_keys l);
  lo_sorted : StronglySorted (fun k k' => key_rank k <= key_rank k' /\ (live_key k = true -> key_rank k < key_rank k')) (leaf_keys l)
}.

(** A tree covers the positions from [lo] to [hi] without gaps. *)
Fixpoint tree_ok (n : node) (lo hi : Z) : Prop :=
  lo <= hi /\
  match n with
  | Leaf l => leaf_ok lo hi l
  | Inner m ptrs =>
      bpos_wf m /\ pval m = lo /\
      (fix all (ptrs : list (bpos * node)) (lo : Z) : Prop :=
         match ptrs with
         | [] => lo = hi + 1
         | (p, child) :: ptrs => bpos_wf p /\ tree_ok child lo (pval p) /\ all ptrs (pval p + 1)
         end) ptrs lo
  end.

Fixpoint leaves (n : node) : list leaf :=
  match n with
  | Leaf l => [l]
  | Inner _ ptrs => (fix all (ptrs : list (bpos * node)) : list leaf := match ptrs with [] => [] | (_, child) :: ptrs => leaves child ++ all ptrs end) ptrs
  end.

Definition tree_keys_all (n : node) : list kv := concat (map leaf_keys (leaves n)).

(** The children of a node, one after the other. *)
Fixpoint children_ok (ptrs : list (bpos * node)) (lo hi : Z) : Prop :=
  match ptrs with
  | [] => lo = hi + 1
  | (p, child) :: ptrs => bpos_wf p /\ tree_ok child lo (pval p) /\ children_ok ptrs (pval p + 1) hi
  end.
Fixpoint leaves_of (ptrs : list (bpos * node)) : list leaf := match ptrs with [] => [] | (_, child) :: ptrs => leaves child ++ leaves_of ptrs end.
Fixpoint scan_ptrs (pos : bpos) (ptrs : list (bpos * node)) : Z + leaf :=
  match ptrs with
  | [] => inl (-2)
  | (p, child) :: ptrs =>
      if bpos_cmp p pos <? 0 then scan_ptrs pos ptrs
      else if (0 <? bpos_cmp pos p) || (bpos_cmp pos (node_min_key child) <? 0) then inl (-3)
      else descend pos child
  end.

Lemma node_induction (P : node -> Prop) (Pl : list (bpos * node) -> Prop) :
  (forall l, P (Leaf l)) -> (forall m ptrs, Pl ptrs -> P (Inner m ptrs)) -> Pl [] -> (forall p child ptrs, P child -> Pl ptrs -> Pl ((p, child) :: ptrs)) -> forall n, P n.
Proof.
  intros H1 H2 H3 H4. fix IH 1. intros [l|m ptrs]; [apply H1|]. apply H2. induction ptrs as [|[p child] ptrs IHp]; [apply H3|]. apply H4; [apply IH|apply IHp].
Qed.

Lemma tree_ok_inner m ptrs lo hi : tree_ok (Inner m ptrs) lo hi <-> lo <= hi /\ bpos_wf m /\ pval m = lo /\ children_ok ptrs lo hi.
Proof.
  cbn [tree_ok]. split; intros (H1 & H2 & H3 & H4); (split; [done|]; split; [done|]; split; [done|]); clear H1 H2 H3; revert lo H4; induction ptrs as [|[p child] ptrs IH]; intros lo H; try done;
    destruct H as (H1 & H2 & H3); (split; [done|]; split; [done|]; by apply IH).
Qed.

Lemma leaves_inner m ptrs : leaves (Inner m ptrs) = leaves_of ptrs.
Proof. cbn [leaves]. induction ptrs as [|[p child] ptrs IH]; [done|]. cbn [leaves_of]. by rewrite <- IH. Qed.

Lemma descend_inner pos m ptrs : descend pos (Inner m ptrs) = scan_ptrs pos ptrs.
Proof. cbn [descend]. induction ptrs as [|[p child] ptrs IH]; [done|]. cbn [scan_ptrs]. by rewrite <- IH. Qed.

Lemma tree_ok_min n lo hi : tree_ok n lo hi -> lo <= hi /\ bpos_wf (node_min_key n) /\ pval (node_min_key n) = lo.
Proof. destruct n as [l|m ptrs]; [intros [H H']; split; [done|]; apply H'|]. intros (H1 & H2 & H3 & _)%tree_ok_inner. done. Qed.

(** The leaves, one after the other. *)
Fixpoint row_ok (ls : list leaf) (lo hi : Z) : Prop :=
  match ls with
  | [] => lo = hi + 1
  | l :: ls => lo <= pval (max_key l) /\ leaf_ok lo (pval (max_key l)) l /\ row_ok ls (pval (max_key l) + 1) hi
  end.

Lemma row_ok_app ls ls' lo mid hi : row_ok ls lo mid -> row_ok ls' (mid + 1) hi -> row_ok (ls ++ ls') lo hi.
Proof. revert lo. induction ls as [|l ls IH]; intros lo; cbn [row_ok app]; [by intros ->|]. intros (H1 & H2 & H3) H. split; [done|]. split; [done|]. by apply IH. Qed.

Lemma leaves_row n : forall lo hi, tree_ok n lo hi -> row_ok (leaves n) lo hi.
Proof.
  apply (node_induction (fun n => forall lo hi, tree_ok n lo hi -> row_ok (leaves n) lo hi) (fun ptrs => forall lo hi, children_ok ptrs lo hi -> row_ok (leaves_of ptrs) lo hi)); clear n.
  - intros l lo hi [H1 H2]. cbn [leaves row_ok]. destruct (lo_max _ _ _ H2) as [_ ->]. done.
  - intros m ptrs IH lo hi (_ & _ & _ & H)%tree_ok_inner. rewrite leaves_inner. by apply IH.
  - done.
  - intros p child ptrs IHc IHp lo hi (H1 & H2 & H3). cbn [leaves_of]. eapply row_ok_app; [by apply IHc|]. by apply IHp.
Qed.

Lemma children_row ptrs : forall lo hi, children_ok ptrs lo hi -> row_ok (leaves_of ptrs) lo hi.
Proof.
  induction ptrs as [|[p child] ptrs IH]; intros lo hi H; [done|]. destruct H as (H1 & H2 & H3). cbn [leaves_of]. eapply row_ok_app; [by apply leaves_row|]. by apply IH.
Qed.

(** Descending finds the leaf of a position. *)
Lemma descend_finds n pos : bpos_wf pos -> forall lo hi, tree_ok n lo hi -> lo <= pval pos <= hi ->
  exists l pre post, descend pos n = inr l /\ leaves n = pre ++ l :: post /\ pval (min_key l) <= pval pos <= pval (max_key l) /\ row_ok pre lo (pval (min_key l) - 1) /\ row_ok (l :: post) (pval (min_key l)) hi.
Proof.
  intros Hpos.
  apply (node_induction (fun n => forall lo hi, tree_ok n lo hi -> lo <= pval pos <= hi ->
      exists l pre post, descend pos n = inr l /\ leaves n = pre ++ l :: post /\ pval (min_key l) <= pval pos <= pval (max_key l) /\ row_ok pre lo (pval (min_key l) - 1) /\ row_ok (l :: post) (pval (min_key l)) hi)
    (fun ptrs => forall lo hi, children_ok ptrs lo hi -> lo <= pval pos <= hi ->
      exists l pre post, scan_ptrs pos ptrs = inr l /\ leaves_of ptrs = pre ++ l :: post /\ pval (min_key l) <= pval pos <= pval (max_key l) /\ row_ok pre lo (pval (min_key l) - 1) /\ row_ok (l :: post) (pval (min_key l)) hi)); clear n.
  - intros l lo hi [H1 H2] Hr. exists l, [], []. destruct (lo_min _ _ _ H2) as [_ ->], (lo_max _ _ _ H2) as [_ E]. rewrite E. cbn [row_ok]. rewrite E. repeat (split; [done || lia|]). done.
  - intros m ptrs IH lo hi (_ & _ & _ & H)%tree_ok_inner Hr. rewrite descend_inner, leaves_inner. by apply IH.
  - intros lo hi H Hr. cbn in H. lia.
  - intros p child ptrs IHc IHp lo hi (Hp & Hc & H) Hr. cbn [scan_ptrs leaves_of]. rewrite bpos_cmp_val by done. unfold pval in *.
    destruct (Z.compare_spec (bpos_val p) (bpos_val pos)) as [E|Hlt|Hgt]; cbn [cmp_sign].
    2: { change (-1 <? 0) with true. cbv iota. destruct (IHp _ _ H) as (l & pre & post & E1 & E2 & E3 & E4 & E5); [lia|].
      exists l, (leaves child ++ pre), post. rewrite E1, E2, <- app_assoc. split; [done|]. split; [done|]. split; [done|]. split; [|done]. eapply row_ok_app; [by apply leaves_row|]. done. }
    all: assert ((0 <? bpos_cmp pos p) || (bpos_cmp pos (node_min_key child) <? 0) = false) as ->;
      [destruct (tree_ok_min _ _ _ Hc) as (_ & Hm & Em); rewrite !bpos_cmp_val by done; unfold pval in Em; apply orb_false_iff; split;
        [destruct (Z.compare_spec (bpos_val pos) (bpos_val p)); cbn; lia|destruct (Z.compare_spec (bpos_val pos) (bpos_val (node_min_key child))); cbn; lia]|].
    all: cbn [Z.ltb Z.compare]; destruct (IHc _ _ Hc) as (l & pre & post & E1 & E2 & E3 & E4 & E5); [lia|].
    all: exists l, pre, (post ++ leaves_of ptrs); rewrite E1, E2, <- app_assoc; split; [done|]; split; [done|]; split; [done|]; split; [done|].
    all: change (l :: post ++ leaves_of ptrs) with ((l :: post) ++ leaves_of ptrs); eapply row_ok_app; [exact E5|].
    all: by apply children_row.
Qed.

(** ** What a search finds *)

(** The first key that is not deleted, from a position on. *)
Definition find_from (s : Z) (ks : list kv) : option kv := find (fun k => live_key k && (s <=? pval (kv_pos k))) ks.

Lemma find_from_app s ks ks' : find_from s (ks ++ ks') = match find_from s ks with Some k => Some k | None => find_from s ks' end.
Proof. unfold find_from. induction ks as [|k ks IH]; [done|]. cbn. by destruct (live_key k && _). Qed.

Lemma find_from_before s ks : Forall (fun k => live_key k = false \/ pval (kv_pos k) < s) ks -> find_from s ks = None.
Proof.
  unfold find_from. induction ks as [|k ks IH]; intros H; [done|]. apply Forall_cons_1 in H as [Hk H]. cbn. rewrite IH by done.
  destruct Hk as [-> |Hk]; [done|]. by rewrite (proj2 (Z.leb_gt _ _) Hk), andb_false_r.
Qed.

Lemma find_from_all s s' ks : Forall (fun k => s <= pval (kv_pos k) /\ s' <= pval (kv_pos k)) ks -> find_from s ks = find_from s' ks.
Proof.
  unfold find_from. induction ks as [|k ks IH]; intros H; [done|]. apply Forall_cons_1 in H as [[H1 H2] H]. cbn. rewrite IH by done.
  by rewrite (proj2 (Z.leb_le _ _) H1), (proj2 (Z.leb_le _ _) H2).
Qed.

Lemma row_keys ls : forall lo hi, row_ok ls lo hi -> Forall (fun k => bpos_wf (kv_pos k) /\ lo <= pval (kv_pos k) <= hi) (concat (map leaf_keys ls)).
Proof.
  induction ls as [|l ls IH]; intros lo hi H; [constructor|]. destruct H as (H1 & H2 & H3). cbn. apply Forall_app. split.
  - eapply Forall_impl; [apply (lo_keys _ _ _ H2)|]. cbn. intros k [Hw Hk]. split; [done|]. pose proof H3 as H3'. clear IH. destruct ls as [|l' ls]; cbn in H3; [lia|]. destruct H3 as (H4 & H5 & H6).
    assert (forall ls lo hi, row_ok ls lo hi -> lo <= hi + 1) as Hle.
    { clear. induction ls as [|l ls IH]; intros lo hi H; [cbn in H; lia|]. destruct H as (H1 & _ & H3). apply IH in H3. lia. }
    apply Hle in H3'. lia.
  - eapply Forall_impl; [by apply IH|]. cbn. intros k [Hw Hk]. split; [done|]. lia.
Qed.

Lemma not_before_rank pos k : bpos_wf pos -> bpos_wf (kv_pos k) -> not_before pos k = (2 * pval pos + 1 <=? key_rank k).
Proof.
  intros H1 H2. unfold not_before, key_rank, live_key, pval. cbv zeta. rewrite bpos_cmp_val by done.
  destruct (Z.compare_spec (bpos_val (kv_pos k)) (bpos_val pos)); cbn [cmp_sign Z.eqb Z.ltb Z.compare negb]; destruct (kv_type k =? KEY_TYPE_deleted); cbn [negb Z.b2z]; symmetry;
    (apply Z.leb_le || apply Z.leb_gt); lia.
Qed.

Lemma find_in_halves {A} (f : A -> bool) l x : find f l = Some x -> exists l1 l2, l = l1 ++ x :: l2 /\ f x = true /\ Forall (fun y => f y = false) l1.
Proof.
  induction l as [|y l IH]; [done|]. cbn. destruct (f y) eqn:E; [intros [= ->]; by exists [], l|]. intros H. destruct (IH H) as (l1 & l2 & -> & H1 & H2).
  exists (y :: l1), l2. split; [done|]. split; [done|]. by apply Forall_cons_2.
Qed.

Section Peek.
Context (t : btree_trans) (root : node) (top : Z) (btree : Z).
Context (Hroot : t_root t = Some root) (Htree : tree_ok root 0 top) (Htop : top = 2 ^ 160 - 1).
Context (Hreplayed : t_journal t = None) (Hfree : forall p, t_traverse t p = 0).

(** The transaction has no updates of this tree. *)
Context (Hclean : Forall (fun u => e_btree_id u <> btree \/ e_level u <> 0) (t_updates t)).

(** The last position is not used. *)
Context (Hlast : Forall (fun k => kv_pos k <> SPOS_MAX) (tree_keys_all root)).

Lemma no_updates it current end_ : it_btree it = btree -> bch2_btree_trans_peek_updates t it current end_ = current.
Proof.
  intros Hb. unfold bch2_btree_trans_peek_updates. generalize (it_pos it). intros pos. clear -Hclean Hb. induction (t_updates t) as [|u us IH]; [done|]. apply Forall_cons_1 in Hclean as [Hu H].
  cbn. assert (peek_update it pos end_ current u = current) as ->; [|by apply IH]. unfold peek_update. rewrite Hb.
  destruct Hu as [Hu|Hu]; rewrite (proj2 (Z.eqb_neq _ _) Hu); cbn [negb orb]; [done|]. by rewrite orb_true_r.
Qed.

(** How far a search is from the end. *)
Definition distance (s : Z) : nat :=
  Nat.add (length (List.filter (fun l => s <=? pval (max_key l)) (leaves root))) (length (List.filter (fun k => negb (live_key k) && (s <? pval (kv_pos k))) (tree_keys_all root))).

Lemma filter_fewer {A} (f g : A -> bool) l : (forall x, f x = true -> g x = true) -> (length (List.filter f l) <= length (List.filter g l))%nat.
Proof.
  intros H. induction l as [|x l IH]; [done|]. cbn. specialize (H x). destruct (f x); [rewrite H by done; cbn; lia|]. destruct (g x); cbn; lia.
Qed.

Lemma filter_one_less {A} (f g : A -> bool) l x : (forall x, f x = true -> g x = true) -> x ∈ l -> f x = false -> g x = true -> (length (List.filter f l) < length (List.filter g l))%nat.
Proof.
  intros H Hx Hf Hg. apply list_elem_of_split in Hx as (l1 & l2 & ->). rewrite !List.filter_app, !length_app. cbn. rewrite Hf, Hg. cbn.
  pose proof (filter_fewer f g l1 H). pose proof (filter_fewer f g l2 H). lia.
Qed.

Lemma distance_leaf s l : l ∈ leaves root -> s <= pval (max_key l) -> (distance (pval (max_key l) + 1)%Z < distance s)%nat.
Proof.
  intros Hl Hs. unfold distance.
  pose proof (filter_one_less (fun l' => pval (max_key l) + 1 <=? pval (max_key l')) (fun l' => s <=? pval (max_key l')) (leaves root) l) as H1.
  pose proof (filter_fewer (fun k => negb (live_key k) && (pval (max_key l) + 1 <? pval (kv_pos k))) (fun k => negb (live_key k) && (s <? pval (kv_pos k))) (tree_keys_all root)) as H2.
  cbn beta in *. assert ((pval (max_key l) + 1 <=? pval (max_key l)) = false) as E1 by (apply Z.leb_gt; lia). assert ((s <=? pval (max_key l)) = true) as E2 by (by apply Z.leb_le).
  specialize (H1 ltac:(intros x H; apply Z.leb_le in H; apply Z.leb_le; lia) Hl E1 E2).
  specialize (H2 ltac:(intros x H; apply andb_true_iff in H as [H H']; rewrite H; apply Z.ltb_lt in H'; cbn; apply Z.ltb_lt; lia)). lia.
Qed.

Lemma distance_key s k : k ∈ tree_keys_all root -> live_key k = false -> s < pval (kv_pos k) -> (distance (pval (kv_pos k)) < distance s)%nat.
Proof.
  intros Hk Hd Hs. unfold distance.
  pose proof (filter_fewer (fun l => pval (kv_pos k) <=? pval (max_key l)) (fun l => s <=? pval (max_key l)) (leaves root)) as H1.
  pose proof (filter_one_less (fun k' => negb (live_key k') && (pval (kv_pos k) <? pval (kv_pos k'))) (fun k' => negb (live_key k') && (s <? pval (kv_pos k'))) (tree_keys_all root) k) as H2.
  cbn beta in *. rewrite Hd in H2. cbn [negb andb] in H2.
  specialize (H1 ltac:(intros x H; apply Z.leb_le in H; apply Z.leb_le; lia)).
  specialize (H2 ltac:(intros x H; apply andb_true_iff in H as [H H']; rewrite H; apply Z.ltb_lt in H'; cbn; apply Z.ltb_lt; lia) Hk (Z.ltb_irrefl _) ltac:(by apply Z.ltb_lt)). lia.
Qed.

Definition same_iter (it it' : btree_iter) : Prop := it_btree it' = it_btree it /\ it_flags it' = it_flags it /\ it_snapshot it' = it_snapshot it.

Definition found_in (it' : btree_iter) (r : peeked) (first : option kv) (end_ : bpos) : Prop :=
  match first with
  | Some k => if pval (kv_pos k) <=? pval end_ then r = Found k /\ it_pos it' = kv_pos k /\ it_k it' = kv_k k else r = Nothing
  | None => r = Nothing
  end.

Lemma found_past it' k first end_ : first = Some k -> pval end_ < pval (kv_pos k) -> found_in it' Nothing first end_.
Proof. intros -> H. cbn. by rewrite (proj2 (Z.leb_gt _ _) H). Qed.

Lemma past_val it p end_ : bpos_wf p -> bpos_wf end_ -> iflag it BTREE_ITER_is_extents = false -> tree_key_past it p end_ = true -> pval end_ < pval p.
Proof.
  intros Hp He Hx. unfold tree_key_past. rewrite Hx. cbn [negb andb orb]. unfold pval. rewrite bpos_cmp_val, bkey_lt_val by done.
  destruct (iflag it BTREE_ITER_all_snapshots); cbn [negb andb orb].
  - rewrite orb_false_r. destruct (Z.compare_spec (bpos_val p) (bpos_val end_)); cbn; [done|done|lia].
  - unfold bpos_val. destruct Hp as (_ & _ & Hp), He as (_ & _ & He). unfold in_range in *. intros H%Z.ltb_lt. nia.
Qed.

Lemma out_val it p end_ : bpos_wf p -> bpos_wf end_ -> iflag it BTREE_ITER_is_extents = false -> out_of_range it p end_ = negb (pval p <=? pval end_).
Proof.
  intros Hp He Hx. unfold out_of_range, bpos_gt, pval. rewrite Hx. rewrite bpos_lt_cmp, bpos_cmp_val, cmp_sign_ltb by done. rewrite Z.leb_antisym, negb_involutive. by destruct (iflag it BTREE_ITER_all_snapshots).
Qed.

(** A search either ends in its leaf, or goes on behind it. *)
Lemma leaf_search pos : bpos_wf pos -> exists l, bch2_btree_path_traverse_one t pos = inr l /\ l ∈ leaves root /\ bpos_wf (max_key l) /\ pval pos <= pval (max_key l) <= top /\
  match leaf_peek_all l pos with
  | Some k => bpos_wf (kv_pos k) /\ k ∈ tree_keys_all root /\ pval pos <= pval (kv_pos k) /\
      (live_key k = true -> find_from (pval pos) (tree_keys_all root) = Some k) /\
      (live_key k = false -> pval pos < pval (kv_pos k) /\ find_from (pval pos) (tree_keys_all root) = find_from (pval (kv_pos k)) (tree_keys_all root))
  | None => find_from (pval pos) (tree_keys_all root) = find_from (pval (max_key l) + 1) (tree_keys_all root) /\
      forall k, find_from (pval pos) (tree_keys_all root) = Some k -> pval (max_key l) < pval (kv_pos k)
  end.
Proof.
  intros Hpos. pose proof (bpos_val_range pos Hpos) as R. unfold in_range in R.
  destruct (descend_finds root pos Hpos 0 top Htree) as (l & pre & post & E1 & E2 & Hr & Hpre & Hrow); [unfold pval; lia|].
  exists l. unfold bch2_btree_path_traverse_one. rewrite Hfree, Hroot, E1. cbn [Z.eqb negb]. split; [done|].
  assert (l ∈ leaves root) as Hin by (rewrite E2; apply elem_of_app; right; apply list_elem_of_here). split; [done|].
  destruct Hrow as (Hle & Hl & Hpost). split; [apply (lo_max _ _ _ Hl)|]. split.
  { split; [lia|]. clear -Hpost Htop. destruct post as [|l' post]; [cbn in Hpost; lia|]. destruct Hpost as (H1 & H2 & H3).
    assert (forall ls lo hi, row_ok ls lo hi -> lo <= hi + 1) as Hrle.
    { clear. induction ls as [|l ls IH]; intros lo hi H; [cbn in H; lia|]. destruct H as (H1 & _ & H3). apply IH in H3. lia. }
    apply Hrle in H3. lia. }
  assert (tree_keys_all root = concat (map leaf_keys pre) ++ leaf_keys l ++ concat (map leaf_keys post)) as Ek.
  { unfold tree_keys_all. rewrite E2, map_app, concat_app. done. }
  pose proof (row_keys _ _ _ Hpre) as Kpre. pose proof (row_keys _ _ _ Hpost) as Kpost. pose proof (lo_keys _ _ _ Hl) as Kl. rewrite Ek.
  assert (forall s, pval pos <= s -> find_from s (concat (map leaf_keys pre)) = None) as Npre.
  { intros s Hs. apply find_from_before. eapply Forall_impl; [exact Kpre|]. cbn. intros k [_ Hk]. right. lia. }
  unfold leaf_peek_all. destruct (find (not_before pos) (leaf_keys l)) as [k|] eqn:Ef.
  - apply find_in_halves in Ef as (l1 & l2 & El & Hk & H1). rewrite El in Kl |- *. apply Forall_app in Kl as [Kl1 Kl2]. apply Forall_cons_1 in Kl2 as [[Hkw Hkr] Kl2].
    rewrite not_before_rank in Hk by done. apply Z.leb_le in Hk. unfold key_rank in Hk.
    assert (Forall (fun x => live_key x = false \/ pval (kv_pos x) < pval pos) l1) as B1.
    { apply Forall_forall. intros x Hx. pose proof (proj1 (Forall_forall _ _) H1 x Hx) as Hnb. pose proof (proj1 (Forall_forall _ _) Kl1 x Hx) as [Hxw _]. cbn in Hnb. rewrite not_before_rank in Hnb by done.
      apply Z.leb_gt in Hnb. unfold key_rank in Hnb. destruct (live_key x); [right; cbn in Hnb; lia|by left]. }
    pose proof (lo_sorted _ _ _ Hl) as Hsort. rewrite El in Hsort. clear El. split; [done|]. split; [apply elem_of_app; right; apply elem_of_app; left; apply elem_of_app; right; apply list_elem_of_here|].
    assert (pval pos <= pval (kv_pos k)) as Hpk by (destruct (live_key k); cbn in Hk; lia). split; [done|]. split.
    + intros Hlive. rewrite find_from_app, (Npre _ (Z.le_refl _)), find_from_app, find_from_app, (find_from_before _ l1 B1). unfold find_from at 1. cbn. rewrite Hlive, (proj2 (Z.leb_le _ _) Hpk). done.
    + intros Hdead. rewrite Hdead in Hk. cbn in Hk. assert (pval pos < pval (kv_pos k)) as Hlt by lia. split; [done|].
      rewrite !find_from_app, !(Npre _ Hpk), (Npre _ (Z.le_refl _)). rewrite (find_from_before _ l1 B1).
      rewrite (find_from_before (pval (kv_pos k)) l1) by (eapply Forall_impl; [exact B1|]; cbn; intros x [Hx|Hx]; [by left|right; lia]).
      assert (forall s, find_from s (k :: l2) = find_from s l2) as Hskip by (intros s; unfold find_from; cbn; by rewrite Hdead). rewrite !Hskip.
      assert (Forall (fun x => pval pos <= pval (kv_pos x) /\ pval (kv_pos k) <= pval (kv_pos x)) l2) as A2.
      { assert (StronglySorted (fun k k' => key_rank k <= key_rank k' /\ (live_key k = true -> key_rank k < key_rank k')) (k :: l2)) as Hs2.
        { clear -Hsort. induction l1 as [|x l1 IH]; [done|]. apply StronglySorted_inv in Hsort as [Hsort _]. by apply IH. }
        apply StronglySorted_inv in Hs2 as [_ Hs2]. eapply Forall_impl; [exact Hs2|]. cbn. intros x [Hx _]. unfold key_rank in Hx. rewrite Hdead in Hx. destruct (live_key x); cbn in Hx; lia. }
      rewrite (find_from_all _ _ l2 A2). rewrite (find_from_all (pval pos) (pval (kv_pos k)) (concat (map leaf_keys post))); [done|].
      eapply Forall_impl; [exact Kpost|]. cbn. intros x [_ Hx]. lia.
  - assert (Forall (fun x => live_key x = false \/ pval (kv_pos x) < pval pos) (leaf_keys l)) as B1.
    { apply Forall_forall. intros x Hx. pose proof (find_none _ _ Ef x (proj1 (list_elem_of_In _ _) Hx)) as Hnb. pose proof (proj1 (Forall_forall _ _) Kl x Hx) as [Hxw _]. rewrite not_before_rank in Hnb by done.
      apply Z.leb_gt in Hnb. unfold key_rank in Hnb. destruct (live_key x); [right; cbn in Hnb; lia|by left]. }
    rewrite !find_from_app, (Npre _ (Z.le_refl _)), (Npre (pval (max_key l) + 1)) by lia. rewrite (find_from_before _ _ B1).
    rewrite (find_from_before (pval (max_key l) + 1) (leaf_keys l)) by (eapply Forall_impl; [exact Kl|]; cbn; intros x [_ Hx]; right; lia).
    split; [apply find_from_all; eapply Forall_impl; [exact Kpost|]; cbn; intros x [_ Hx]; lia|].
    intros k Hk. unfold find_from in Hk. apply find_some in Hk as [Hk _]. apply list_elem_of_In in Hk. pose proof (proj1 (Forall_forall _ _) Kpost k Hk) as [_ Hx]. lia.
Qed.

Lemma iter_bpos_wf it p : bpos_wf p -> in_range 32 (it_snapshot it) -> bpos_wf (iter_bpos it p).
Proof. intros (H1 & H2 & H3) Hs. unfold iter_bpos. by destruct (iflag it BTREE_ITER_all_snapshots). Qed.

Lemma peek_tree_loop_spec : forall fuel it search end_, bpos_wf search -> bpos_wf end_ -> it_btree it = btree -> iflag it BTREE_ITER_is_extents = false ->
  (distance (pval search) < fuel)%nat ->
  exists it' r, peek_tree_loop fuel t it search end_ = Some (it', r) /\ same_iter it it' /\ found_in it' r (find_from (pval search) (tree_keys_all root)) end_.
Proof.
  induction fuel as [|fuel IH]; intros it search end_ Hs He Hb Hx Hf; [lia|]. cbn [peek_tree_loop]. unfold extent_search. rewrite Hx. cbn [andb mbind option_bind].
  destruct (leaf_search search Hs) as (l & -> & Hl & Hmaxw & Hmax & Hcase).
  destruct (leaf_peek_all l search) as [k|]; rewrite Hreplayed; cbn [mbind option_bind].
  - destruct Hcase as (Hkw & Hkin & Hsk & Hlive & Hdead). unfold extent_pos, iter_bpos, iflag in *. cbn [with_path with_k it_flags it_pos]. rewrite Hx.
    assert (forall p, found_in p Nothing (find_from (pval search) (tree_keys_all root)) end_ \/ pval (kv_pos k) <= pval end_) as Hpast.
    { intros p. destruct (Z.le_gt_cases (pval (kv_pos k)) (pval end_)) as [|Hgt]; [by right|left]. destruct (live_key k) eqn:Ek; [by eapply found_past; [apply Hlive|lia]|].
      destruct (Hdead eq_refl) as [_ ->]. destruct (find_from (pval (kv_pos k)) (tree_keys_all root)) as [k'|] eqn:E; [|done]. eapply found_past; [done|].
      unfold find_from in E. apply find_some in E as [_ E]. apply andb_true_iff in E as [_ E%Z.leb_le]. lia. }
    destruct (tree_key_past _ _ _) eqn:Ep.
    { eexists _, _. split; [done|]. split; [done|]. apply past_val in Ep; [|done|done|done]. destruct (Hpast (btree_iter_set_pos (with_k (with_path it search) (kv_k k)) end_)) as [H|H]; [done|]. unfold kv_pos in *. lia. }
    rewrite no_updates by done. cbn [mbind option_bind]. unfold live_key in *. destruct (kv_type k =? KEY_TYPE_deleted) eqn:Et; cbn [negb] in *.
    + destruct (Hdead eq_refl) as [Hlt ->]. rewrite bpos_eq_spec, bool_decide_false by (intros ->; lia). cbn [mbind option_bind].
      rewrite bpos_eq_spec, bool_decide_false by (by apply (proj1 (Forall_forall _ _) Hlast)).
      match goal with |- context [peek_tree_loop fuel t ?it' _ _] => destruct (IH it' (kv_pos k) end_ Hkw He) as (it2 & r & -> & H1 & H2) end; [done|done| |].
      * pose proof (distance_key (pval search) k Hkin) as Hd. unfold live_key in Hd. rewrite Et in Hd. specialize (Hd eq_refl Hlt). lia.
      * exists it2, r. split; [done|]. split; [exact H1|exact H2].
    + rewrite (Hlive eq_refl). cbn [with_pos with_k with_path it_flags it_pos]. rewrite Hx. rewrite out_val; [|exact Hkw|exact He|exact Hx]. fold (kv_pos k).
      destruct (pval (kv_pos k) <=? pval end_) eqn:Eo; cbn [negb]; (eexists _, _; split; [done|]; split; [done|]); cbn [found_in]; by rewrite Eo.
  - destruct Hcase as [Hnext Hbehind]. rewrite no_updates by done. cbv zeta.
    assert (bpos_wf SPOS_MAX) as Hsm by done. rewrite !bpos_cmp_val by done. unfold pval in *.
    destruct ((0 <? cmp_sign (bpos_val (max_key l) ?= bpos_val end_)) || (0 <=? cmp_sign (bpos_val (max_key l) ?= bpos_val SPOS_MAX))) eqn:Ec.
    + eexists _, _. split; [done|]. split; [done|]. unfold found_in. destruct (find_from _ _) as [k|] eqn:Ef; [|done].
      specialize (Hbehind k eq_refl). apply orb_true_iff in Ec as [Ec|Ec].
      * destruct (Z.compare_spec (bpos_val (max_key l)) (bpos_val end_)); cbn in Ec; try lia. unfold pval. by rewrite (proj2 (Z.leb_gt _ _)) by lia.
      * exfalso. unfold find_from in Ef. apply find_some in Ef as [Ef _]. apply list_elem_of_In in Ef. pose proof (leaves_row _ _ _ Htree) as Hrow. apply row_keys in Hrow.
        pose proof (proj1 (Forall_forall _ _) Hrow k Ef) as [_ Hk]. unfold pval in Hk. assert (bpos_val SPOS_MAX = 2 ^ 160 - 1) as Em by reflexivity.
        destruct (Z.compare_spec (bpos_val (max_key l)) (bpos_val SPOS_MAX)); cbn in Ec; try lia.
    + apply orb_false_iff in Ec as [_ Ec]. pose proof (bpos_successor_spec (max_key l) Hmaxw) as Hsucc. destruct (bpos_successor (max_key l)) as [q|].
      2: { rewrite Hsucc in Ec. rewrite Z.compare_refl in Ec. done. }
      destruct Hsucc as [Hqw Hq]. cbn [mbind option_bind]. rewrite Hnext, <- Hq.
      destruct (IH (with_path it search) q end_ Hqw He) as (it' & r & -> & H1 & H2); [done|done| |by exists it', r].
      rewrite Hq. pose proof (distance_leaf (bpos_val search) l Hl ltac:(unfold pval; lia)) as Hd. unfold pval in Hd. lia.
Qed.

(** *** Walking all keys *)

Definition from (s : Z) : list kv := List.filter (fun k => live_key k && (s <=? pval (kv_pos k))) (tree_keys_all root).

Lemma find_from_head s : find_from s (tree_keys_all root) = head (from s).
Proof. unfold find_from, from. generalize (tree_keys_all root). intros ks. induction ks as [|k ks IH]; [done|]. cbn. by destruct (live_key k && _). Qed.

Definition key_before (k k' : kv) : Prop := key_rank k <= key_rank k' /\ (live_key k = true -> key_rank k < key_rank k').

Lemma sorted_app (R : kv -> kv -> Prop) l l' : StronglySorted R l -> StronglySorted R l' -> (forall x y, x ∈ l -> y ∈ l' -> R x y) -> StronglySorted R (l ++ l').
Proof.
  induction l as [|x l IH]; intros H1 H2 H; [done|]. apply StronglySorted_inv in H1 as [H1 Hx]. cbn. constructor.
  - apply IH; [done|done|]. intros a b Ha. apply H. by apply list_elem_of_further.
  - apply Forall_app. split; [done|]. apply Forall_forall. intros y Hy. apply H; [apply list_elem_of_here|done].
Qed.

Lemma row_sorted ls : forall lo hi, row_ok ls lo hi -> StronglySorted key_before (concat (map leaf_keys ls)).
Proof.
  induction ls as [|l ls IH]; intros lo hi H; [constructor|]. destruct H as (H1 & H2 & H3). cbn. apply sorted_app; [apply (lo_sorted _ _ _ H2)|by eapply IH|].
  intros x y Hx Hy. pose proof (proj1 (Forall_forall _ _) (lo_keys _ _ _ H2) x Hx) as [_ Rx]. pose proof (proj1 (Forall_forall _ _) (row_keys _ _ _ H3) y Hy) as [_ Ry]. cbn in *.
  unfold key_before, key_rank. destruct (live_key x), (live_key y); cbn; lia.
Qed.

Lemma from_next_in ks s s' k rest : StronglySorted key_before ks -> List.filter (fun k => live_key k && (s <=? pval (kv_pos k))) ks = k :: rest -> pval (kv_pos k) < s' ->
  List.filter (fun k => live_key k && (s' <=? pval (kv_pos k))) ks = List.filter (fun k => s' <=? pval (kv_pos k)) rest /\ Forall (fun x => pval (kv_pos k) < pval (kv_pos x)) rest /\ live_key k = true /\ s <= pval (kv_pos k).
Proof.
  intros Hs. induction ks as [|x ks IH]; [done|]. apply StronglySorted_inv in Hs as [Hs Hx]. cbn. destruct (live_key x && (s <=? pval (kv_pos x))) eqn:E.
  - intros [= -> <-] Hlt. apply andb_true_iff in E as [El Es%Z.leb_le]. rewrite El, (proj2 (Z.leb_gt _ _) Hlt). cbn [andb].
    assert (Forall (fun y => live_key y = true -> pval (kv_pos k) < pval (kv_pos y)) ks) as Hy.
    { eapply Forall_impl; [exact Hx|]. intros y [_ Hy] Hl. specialize (Hy El). unfold key_rank in Hy. rewrite El, Hl in Hy. cbn in Hy. lia. }
    split; [|split; [|done]].
    + clear -Hy Es Hlt. induction ks as [|y ks IH]; [done|]. apply Forall_cons_1 in Hy as [Hy H]. cbn. destruct (live_key y); cbn [andb]; [|by apply IH].
      specialize (Hy eq_refl). rewrite (proj2 (Z.leb_le s _)) by lia. cbn. by rewrite IH.
    + apply Forall_forall. intros y Hin. apply list_elem_of_In, filter_In in Hin as [Hin Hl]. apply andb_true_iff in Hl as [Hl _]. apply list_elem_of_In in Hin. by apply (proj1 (Forall_forall _ _) Hy y Hin).
  - intros Hf Hlt. destruct (IH Hs Hf Hlt) as (H1 & H2 & H3 & H4). split; [|done]. rewrite <- H1. destruct (live_key x && (s' <=? pval (kv_pos x))) eqn:E'; [|done].
    exfalso. apply andb_true_iff in E' as [El Es'%Z.leb_le]. rewrite El in E. cbn in E. apply Z.leb_gt in E. lia.
Qed.

Lemma from_next s s' k rest : from s = k :: rest -> pval (kv_pos k) < s' ->
  from s' = List.filter (fun k => s' <=? pval (kv_pos k)) rest /\ Forall (fun x => pval (kv_pos k) < pval (kv_pos x)) rest /\ live_key k = true /\ s <= pval (kv_pos k).
Proof. apply from_next_in. eapply row_sorted. by apply leaves_row. Qed.

Lemma from_in s k : k ∈ from s -> k ∈ tree_keys_all root /\ bpos_wf (kv_pos k) /\ kv_pos k <> SPOS_MAX.
Proof.
  intros H. apply list_elem_of_In, filter_In in H as [H _]. apply list_elem_of_In in H. split; [done|]. split; [|by apply (proj1 (Forall_forall _ _) Hlast)].
  pose proof (row_keys _ _ _ (leaves_row _ _ _ Htree)) as Hr. by apply (proj1 (Forall_forall _ _) Hr k H).
Qed.

Lemma below_max p : bpos_wf p -> (pval p <=? pval SPOS_MAX) = true.
Proof. intros H. pose proof (bpos_val_range p H) as R. unfold in_range in R. apply Z.leb_le. unfold pval. change (bpos_val SPOS_MAX) with (2 ^ 160 - 1). lia. Qed.

(** An iterator that walks a tree as it is. *)
Definition plain_iter (it : btree_iter) : Prop := it_btree it = btree /\ iflag it BTREE_ITER_is_extents = false /\ iflag it BTREE_ITER_filter_snapshots = false /\ it_snapshot it = 0.

Lemma plain_same_iter it it' : same_iter it it' -> plain_iter it -> plain_iter it'.
Proof. intros (H1 & H2 & H3). unfold plain_iter, iflag. by rewrite H1, H2, H3. Qed.

Lemma peek_spec n it : plain_iter it -> bpos_wf (it_pos it) -> (distance (pval (it_pos it)) < n)%nat ->
  exists it' r, bch2_btree_iter_peek n t it = Some (it', r) /\ same_iter it it' /\
    match from (pval (it_pos it)) with k :: _ => r = Found k /\ it_k it' = kv_k k | [] => r = Nothing end.
Proof.
  intros (Hb & Hx & Hf & _) Hp Hn. unfold bch2_btree_iter_peek, bch2_btree_iter_peek_max. rewrite Hf. unfold peek_all.
  destruct (peek_tree_loop_spec n (with_update_path it None) (it_pos it) SPOS_MAX) as (it' & r & E & Hs & Hr); [done|done|done|done|done|].
  exists it', r. split; [done|]. split; [done|]. rewrite find_from_head in Hr. unfold found_in in Hr. destruct (from (pval (it_pos it))) as [|k rest] eqn:Ef; [done|]. cbn [head] in Hr.
  destruct (from_in (pval (it_pos it)) k) as (_ & Hw & _); [rewrite Ef; apply list_elem_of_here|]. rewrite (below_max _ Hw) in Hr. tauto.
Qed.

Lemma distance_le s s' : s <= s' -> (distance s' <= distance s)%nat.
Proof.
  intros H. unfold distance. apply Nat.add_le_mono; apply filter_fewer; intros x Hx.
  - apply Z.leb_le in Hx. apply Z.leb_le. lia.
  - apply andb_true_iff in Hx as [-> Hx%Z.ltb_lt]. cbn. apply Z.ltb_lt. lia.
Qed.

(** All keys, or the first of every slot. *)
Definition walked (all : bool) (ks : list kv) : list kv := if all then ks else first_of_slots None ks.

(** What a walk over these keys visits. *)
Fixpoint visit_all {A} (visit : A -> kv -> result A) (out : A) (ks : list kv) : result A :=
  match ks with
  | [] => Ok out
  | k :: ks => match visit out k with Err err => Err err | Ok out => visit_all visit out ks end
  end.

Lemma slot_val p q : bpos_wf p -> bpos_wf q -> bucket_slot p = bucket_slot q <-> bkey_val p = bkey_val q.
Proof. intros (H1 & H2 & _) (H3 & H4 & _). unfold bucket_slot, bkey_val, in_range in *. split; [by intros [= -> ->]|]. intros H. f_equal; nia. Qed.

Lemma slot_order p q : bpos_wf p -> bpos_wf q -> (bkey_val p + 1) * 2 ^ 32 <= pval q <-> bkey_val p < bkey_val q.
Proof. intros _ (_ & _ & H). unfold pval, bpos_val, in_range in *. nia. Qed.

Lemma first_of_slots_next k ks : bpos_wf (kv_pos k) -> Forall (fun x => bpos_wf (kv_pos x)) ks -> StronglySorted (fun x y => pval (kv_pos x) < pval (kv_pos y)) ks -> Forall (fun x => pval (kv_pos k) < pval (kv_pos x)) ks ->
  first_of_slots (Some (bucket_slot (kv_pos k))) ks = first_of_slots None (List.filter (fun x => (bkey_val (kv_pos k) + 1) * 2 ^ 32 <=? pval (kv_pos x)) ks).
Proof.
  intros Hk Hw Hs Hlt. induction ks as [|x ks IH]; [done|]. apply Forall_cons_1 in Hw as [Hx Hw], Hlt as [Hkx Hlt]. apply StronglySorted_inv in Hs as [Hs Hxs].
  cbn [first_of_slots List.filter]. destruct (decide (Some (bucket_slot (kv_pos k)) = Some (bucket_slot (kv_pos x)))) as [E|E].
  - injection E as E1 E2. assert (bkey_val (kv_pos k) = bkey_val (kv_pos x)) as Ev by (apply slot_val; [done|done|]; unfold bucket_slot; congruence).
    rewrite (proj2 (Z.leb_gt _ _)); [by apply IH|]. destruct Hx as (_ & _ & Hx). unfold pval, bpos_val, in_range in *. lia.
  - assert (bkey_val (kv_pos k) < bkey_val (kv_pos x)) as Hv.
    { assert (bkey_val (kv_pos k) <> bkey_val (kv_pos x)) by (intros Ev; apply E; f_equal; by apply slot_val). destruct Hk as (_ & _ & Hk), Hx as (_ & _ & Hx). unfold pval, bpos_val, in_range in *. nia. }
    rewrite (proj2 (Z.leb_le _ _)) by (by apply slot_order). cbn [first_of_slots]. rewrite decide_False by done. f_equal.
    assert (List.filter (fun y => (bkey_val (kv_pos k) + 1) * 2 ^ 32 <=? pval (kv_pos y)) ks = ks) as ->; [|done].
    assert ((bkey_val (kv_pos k) + 1) * 2 ^ 32 <= pval (kv_pos x)) as Hle by (by apply slot_order).
    clear -Hxs Hle. induction ks as [|y ks IH]; [done|]. apply Forall_cons_1 in Hxs as [Hy Hxs]. cbn. rewrite (proj2 (Z.leb_le _ _)) by lia. by rewrite IH.
Qed.

Lemma from_sorted s : StronglySorted (fun x y => pval (kv_pos x) < pval (kv_pos y)) (from s).
Proof.
  unfold from. pose proof (row_sorted _ _ _ (leaves_row _ _ _ Htree)) as H. fold (tree_keys_all root) in H. revert H. generalize (tree_keys_all root). intros ks H.
  induction ks as [|x ks IH]; [constructor|]. apply StronglySorted_inv in H as [H Hx]. cbn. destruct (live_key x && _) eqn:E; [|by apply IH]. constructor; [by apply IH|].
  apply Forall_forall. intros y Hy. apply list_elem_of_In, filter_In in Hy as [Hy Hl]. apply list_elem_of_In in Hy. destruct (proj1 (Forall_forall _ _) Hx y Hy) as [_ Hr].
  apply andb_true_iff in E as [El _], Hl as [Hl _]. specialize (Hr El). unfold key_rank in Hr. rewrite El, Hl in Hr. cbn in Hr. lia.
Qed.

Lemma from_tail s k rest : from s = k :: rest -> bpos_wf (kv_pos k) /\ kv_pos k <> SPOS_MAX /\ s <= pval (kv_pos k) /\ live_key k = true /\
  Forall (fun x => bpos_wf (kv_pos x)) rest /\ StronglySorted (fun x y => pval (kv_pos x) < pval (kv_pos y)) rest /\ Forall (fun x => pval (kv_pos k) < pval (kv_pos x)) rest.
Proof.
  intros E. pose proof (from_sorted s) as Hs. rewrite E in Hs. apply StronglySorted_inv in Hs as [Hs Hk].
  destruct (from_in s k) as (_ & Hw & Hm); [rewrite E; apply list_elem_of_here|]. destruct (from_next s (pval (kv_pos k) + 1) k rest E ltac:(lia)) as (_ & _ & Hl & Hle).
  do 4 (split; [done|]). split; [|done]. apply Forall_forall. intros x Hx. apply (from_in s). rewrite E. by apply list_elem_of_further.
Qed.

(** One step: the iterator stands behind the key, or is at the end. *)
Lemma iter_next_spec n it s k rest : plain_iter it -> it_k it = kv_k k -> from s = k :: rest -> (distance s < n)%nat ->
  exists it' r, bch2_btree_iter_next n t it = Some (it', r) /\ same_iter it it' /\
    match (if iflag it BTREE_ITER_all_snapshots then rest else List.filter (fun x => (bkey_val (kv_pos k) + 1) * 2 ^ 32 <=? pval (kv_pos x)) rest) with
    | k' :: rest' => r = Found k' /\ it_k it' = kv_k k' /\ exists s', s <= s' /\ from s' = k' :: rest'
    | [] => r = Nothing
    end.
Proof.
  intros Hpl Hk E Hn. destruct (from_tail s k rest E) as (Hw & Hm & Hsk & Hl & Hrw & Hrs & Hrlt). pose proof Hpl as (Hb & Hx & Hf & Hsn).
  unfold bch2_btree_iter_next, bch2_btree_iter_advance. rewrite Hx, Hk. cbn [negb]. rewrite andb_true_r. fold (kv_pos k).
  assert (forall q, bpos_wf q -> pval (kv_pos k) < pval q -> iter_bpos it q = q ->
    exists it' r, bch2_btree_iter_peek n t (btree_iter_set_pos it q) = Some (it', r) /\ same_iter it it' /\
      match List.filter (fun x => pval q <=? pval (kv_pos x)) rest with k' :: rest' => r = Found k' /\ it_k it' = kv_k k' /\ exists s', s <= s' /\ from s' = k' :: rest' | [] => r = Nothing end) as Hgo.
  { intros q Hq Hlt Eq. destruct (from_next s (pval q) k rest E Hlt) as (Er & _).
    destruct (peek_spec n (btree_iter_set_pos it q)) as (it' & r & Ep & Hs & Hr); unfold btree_iter_set_pos in *; cbn [it_pos] in *; rewrite Eq in *; [done|done|pose proof (distance_le s (pval q) ltac:(lia)); lia|].
    exists it', r. split; [done|]. split; [done|]. rewrite Er in Hr. destruct (List.filter _ rest) as [|k' rest'] eqn:Efl; [done|]. destruct Hr as [-> Hr]. split; [done|]. split; [done|]. exists (pval q). split; [lia|]. by rewrite Er. }
  destruct (iflag it BTREE_ITER_all_snapshots) eqn:Ea.
  - rewrite bpos_eq_spec, bool_decide_false by done. cbn [negb]. pose proof (bpos_successor_spec _ Hw) as Hq. destruct (bpos_successor (kv_pos k)) as [q|]; [|done]. destruct Hq as [Hqw Hq].
    cbn [mbind option_bind]. destruct (Hgo q Hqw) as (it' & r & -> & Hs & Hr); [unfold pval; lia|unfold iter_bpos; by rewrite Ea|]. exists it', r. split; [done|]. split; [done|].
    assert (List.filter (fun x => pval q <=? pval (kv_pos x)) rest = rest) as Efl; [|by rewrite Efl in Hr].
    clear -Hrlt Hq. induction rest as [|x rest IH]; [done|]. apply Forall_cons_1 in Hrlt as [Hx Hrlt]. cbn. unfold pval in *. rewrite (proj2 (Z.leb_le _ _)) by lia. by rewrite IH.
  - rewrite bkey_eq_spec. pose proof (bpos_nosnap_successor_spec _ Hw) as Hq. destruct ((inode (kv_pos k) =? inode SPOS_MAX) && (offset (kv_pos k) =? offset SPOS_MAX)) eqn:Em; cbn [negb].
    + apply andb_true_iff in Em as [Ei%Z.eqb_eq Eo%Z.eqb_eq]. cbn [mbind option_bind]. eexists _, _. split; [done|]. split; [done|].
      assert (List.filter (fun x => (bkey_val (kv_pos k) + 1) * 2 ^ 32 <=? pval (kv_pos x)) rest = []) as ->; [|done].
      assert ((bkey_val (kv_pos k) + 1) * 2 ^ 32 = 2 ^ 160) as Ev by (unfold bkey_val; rewrite Ei, Eo; reflexivity). rewrite Ev.
      clear -Hrw. induction rest as [|x rest IH]; [done|]. apply Forall_cons_1 in Hrw as [Hx Hrw]. cbn. pose proof (bpos_val_range _ Hx) as R. unfold in_range in R.
      rewrite (proj2 (Z.leb_gt _ _)) by (unfold pval; lia). by apply IH.
    + destruct (bpos_nosnap_successor (kv_pos k)) as [q|]; [|destruct Hq as [Ei Eo]; rewrite Ei, Eo in Em; done]. destruct Hq as (Hqw & Hq & Hqs). cbn [mbind option_bind].
      assert (bpos_with_snapshot q (it_snapshot it) = q) as Eq by (rewrite Hsn, <- Hqs; by destruct q). rewrite Eq.
      assert (pval q = (bkey_val (kv_pos k) + 1) * 2 ^ 32) as Ev by (unfold pval, bpos_val; lia).
      destruct (Hgo q Hqw) as (it' & r & -> & Hs & Hr); [destruct Hw as (_ & _ & Hw); rewrite Ev; unfold pval, bpos_val, in_range in *; lia|unfold iter_bpos; by rewrite Ea|].
      exists it', r. split; [done|]. split; [done|]. by rewrite <- Ev.
Qed.

Lemma walk_spec {A} (visit : A -> kv -> result A) n : forall m it s k rest out, plain_iter it -> it_k it = kv_k k -> from s = k :: rest -> (distance s < n)%nat -> (length rest < m)%nat ->
  walk_loop visit m n t it (Found k) out = Some (visit_all visit out (walked (iflag it BTREE_ITER_all_snapshots) (k :: rest))).
Proof.
  induction m as [|m IH]; intros it s k rest out Hpl Hk E Hn Hm; [lia|]. cbn [walk_loop]. destruct (from_tail s k rest E) as (Hw & _ & Hsk & Hl & Hrw & Hrs & Hrlt).
  unfold live_key in Hl. apply negb_true_iff in Hl. rewrite Hl.
  destruct (iter_next_spec n it s k rest Hpl Hk E Hn) as (it' & r & -> & Hs & Hr). cbn [mbind option_bind]. pose proof (plain_same_iter _ _ Hs Hpl) as Hpl'.
  assert (iflag it' BTREE_ITER_all_snapshots = iflag it BTREE_ITER_all_snapshots) as Ef by (destruct Hs as (_ & Hs & _); unfold iflag; by rewrite Hs).
  set (rest' := if iflag it BTREE_ITER_all_snapshots then rest else _) in Hr.
  assert (k :: walked (iflag it BTREE_ITER_all_snapshots) rest' = walked (iflag it BTREE_ITER_all_snapshots) (k :: rest)) as <-.
  { unfold walked, rest'. destruct (iflag it BTREE_ITER_all_snapshots); [done|]. cbn [first_of_slots]. rewrite decide_False by done. f_equal. symmetry. by apply first_of_slots_next. }
  cbn [visit_all]. destruct (visit out k) as [out'|err]; [|done].
  assert (length rest' <= length rest)%nat as Hlen by (unfold rest'; destruct (iflag it BTREE_ITER_all_snapshots); [done|apply filter_length_le]).
  destruct rest' as [|k' rest2].
  - rewrite Hr. destruct m; cbn [walk_loop]; unfold walked; by destruct (iflag it BTREE_ITER_all_snapshots).
  - destruct Hr as (-> & Hk' & s' & Hss & E'). cbn in Hlen. rewrite (IH it' s' k' rest2 out' Hpl' Hk' E'), Ef; [done|pose proof (distance_le s s' Hss); lia|lia].
Qed.

Lemma distance_bound s : (distance s <= length (leaves root) + length (tree_keys_all root))%nat.
Proof. unfold distance. apply Nat.add_le_mono; apply filter_length_le. Qed.

End Peek.

(** A tree that a transaction without updates of it walks, after recovery. *)
Record quiet (t : btree_trans) (root : node) (btree : Z) : Prop := {
  q_root : t_root t = Some root;
  q_tree : tree_ok root 0 (2 ^ 160 - 1);
  q_replayed : t_journal t = None;
  q_free : forall p, t_traverse t p = 0;
  q_clean : Forall (fun u => e_btree_id u <> btree \/ e_level u <> 0) (t_updates t);
  q_last : Forall (fun k => kv_pos k <> SPOS_MAX) (tree_keys_all root)
}.

Definition live_keys (root : node) : list kv := List.filter live_key (tree_keys_all root).

Lemma peek_max_first t root btree n it end_ : quiet t root btree -> it_btree it = btree -> iflag it BTREE_ITER_is_extents = false -> iflag it BTREE_ITER_filter_snapshots = false ->
  bpos_wf (it_pos it) -> bpos_wf end_ -> (length (leaves root) + length (tree_keys_all root) < n)%nat ->
  exists it' r, bch2_btree_iter_peek_max n t it end_ = Some (it', r) /\ same_iter it it' /\
    (forall k, r = Found k -> it_pos it' = kv_pos k /\ it_k it' = kv_k k) /\
    r = match find (fun k => bpos_le (it_pos it) (kv_pos k)) (live_keys root) with
        | Some k => if bpos_le (kv_pos k) end_ then Found k else Nothing
        | None => Nothing
        end.
Proof.
  intros [H1 H2 H3 H4 H5 H6] Hb Hx Hf Hp He Hn. unfold bch2_btree_iter_peek_max. rewrite Hf. unfold peek_all. pose proof (distance_bound root (pval (it_pos it))).
  destruct (peek_tree_loop_spec t root _ btree H1 H2 eq_refl H3 H4 H5 H6 n (with_update_path it None) (it_pos it) end_) as (it' & r & E & Hs & Hr); [done|done|done|done|cbn [with_update_path it_pos]; lia|].
  exists it', r. split; [done|]. split; [done|]. split.
  { intros k ->. unfold found_in in Hr. destruct (find_from _ _) as [k'|]; [|done]. destruct (_ <=? _); [|done]. destruct Hr as ([= <-] & H7 & H8). done. }
  pose proof (row_keys _ _ _ (leaves_row _ _ _ H2)) as Hw. fold (tree_keys_all root) in Hw.
  assert (find (fun k => bpos_le (it_pos it) (kv_pos k)) (live_keys root) = find_from (pval (it_pos it)) (tree_keys_all root)) as ->.
  { unfold live_keys, find_from. clear -Hw Hp. induction (tree_keys_all root) as [|k ks IH]; [done|]. apply Forall_cons_1 in Hw as [[Hk _] Hw]. cbn. destruct (live_key k); cbn; [|by apply IH].
    rewrite bpos_le_cmp, bpos_cmp_val, cmp_sign_leb by done. unfold pval. destruct (_ <=? _); [done|by apply IH]. }
  unfold found_in in Hr. destruct (find_from _ _) as [k|] eqn:Ef; [|done]. unfold find_from in Ef. apply find_some in Ef as [Ef _]. apply list_elem_of_In in Ef. destruct (proj1 (Forall_forall _ _) Hw k Ef) as [Hk _].
  rewrite bpos_le_cmp, bpos_cmp_val, cmp_sign_leb by done. unfold pval in Hr. destruct (_ <=? _); [by destruct Hr|done].
Qed.

(** C22: in a transaction that has nothing staged for the leaves of the tree,
    whose locks are free, after recovery (no keys of the journal over the
    tree), an iterator that neither reads extents nor filters snapshots: [peek]
    ends, after at most one round for every leaf and every key, and returns the
    first key of the tree, at or behind the iterator's position, that is not
    deleted, if it is not behind the end, and moves the iterator to it;
    otherwise it returns nothing. *)
Theorem peek_finds_first t root btree n it end_ : quiet t root btree -> it_btree it = btree -> iflag it BTREE_ITER_is_extents = false -> iflag it BTREE_ITER_filter_snapshots = false ->
  bpos_wf (it_pos it) -> bpos_wf end_ -> (length (leaves root) + length (tree_keys_all root) < n)%nat ->
  exists it' r, bch2_btree_iter_peek_max n t it end_ = Some (it', r) /\ same_iter it it' /\
    (forall k, r = Found k -> it_pos it' = kv_pos k /\ it_k it' = kv_k k) /\
    r = match find (fun k => bpos_le (it_pos it) (kv_pos k)) (live_keys root) with
        | Some k => if bpos_le (kv_pos k) end_ then Found k else Nothing
        | None => Nothing
        end.
Proof. apply peek_max_first. Qed.

Lemma from_start root top : tree_ok root 0 top -> from root 0 = live_keys root.
Proof.
  intros Ht. unfold from, live_keys. pose proof (row_keys _ _ _ (leaves_row _ _ _ Ht)) as Hw. fold (tree_keys_all root) in Hw. induction (tree_keys_all root) as [|k ks IH]; [done|].
  apply Forall_cons_1 in Hw as [[_ Hk] Hw]. cbn [List.filter]. rewrite (proj2 (Z.leb_le 0 (pval (kv_pos k)))), andb_true_r by apply Hk. destruct (live_key k); [f_equal|]; by apply IH.
Qed.

(** The keys of a tree that are not deleted are in order. *)
Lemma live_sorted root top : tree_ok root 0 top -> StronglySorted (fun x y => pval (kv_pos x) < pval (kv_pos y)) (live_keys root) /\ Forall (fun k => bpos_wf (kv_pos k)) (live_keys root).
Proof.
  intros Ht. split; [rewrite <- (from_start root top Ht); by eapply from_sorted|]. apply Forall_forall. intros k Hk. apply list_elem_of_In, filter_In in Hk as [Hk _]. apply list_elem_of_In in Hk.
  pose proof (row_keys _ _ _ (leaves_row _ _ _ Ht)) as Hr. by apply (proj1 (Forall_forall _ _) Hr k Hk).
Qed.

(** A walk from the first position on visits the keys that are not deleted. *)
Lemma walk_tree_all {A} (visit : A -> kv -> result A) t root btree flags m n out : quiet t root btree -> has_flag flags BTREE_ITER_is_extents = false -> has_flag flags BTREE_ITER_filter_snapshots = false ->
  (length (leaves root) + length (tree_keys_all root) < n)%nat -> (length (tree_keys_all root) <= m)%nat ->
  walk_tree visit m n t (bch2_trans_iter_init btree POS_MIN flags) out = Some (visit_all visit out (walked (has_flag flags BTREE_ITER_all_snapshots) (live_keys root))).
Proof.
  intros [H1 H2 H3 H4 H5 H6] Hx Hf Hn Hm. unfold walk_tree. set (it := bch2_trans_iter_init btree POS_MIN flags).
  assert (plain_iter btree it) as Hpl by done. pose proof (distance_bound root (pval (it_pos it))).
  pose proof (from_start root _ H2 : from root (pval (it_pos it)) = live_keys root) as Efrom.
  destruct (peek_spec t root _ btree H1 H2 eq_refl H3 H4 H5 H6 n it Hpl) as (it' & r & -> & Hs & Hr); [done|lia|]. cbn [mbind option_bind]. rewrite Efrom in Hr.
  pose proof (filter_length_le live_key (tree_keys_all root)) as Hlen. fold (live_keys root) in Hlen. destruct (live_keys root) as [|k rest] eqn:El.
  - rewrite Hr. destruct m; cbn; by destruct (has_flag flags BTREE_ITER_all_snapshots).
  - destruct Hr as [-> Hr]. cbn in Hlen. rewrite (walk_spec t root _ btree H1 H2 eq_refl H3 H4 H5 H6 visit n m it' (pval (it_pos it)) k rest); [|by eapply plain_same_iter|done|done|lia|lia].
    destruct Hs as (_ & Hs & _). unfold iflag. by rewrite Hs.
Qed.

(** C23: the scan for the checks terminates and returns, of the keys of the tree
    that are not deleted, the first of every inode and offset, in order. *)
Theorem scan_walks_tree t root btree m n : quiet t root btree -> Forall (fun k => BKEY_U64S <= k_u64s (kv_k k)) (live_keys root) ->
  (length (leaves root) + length (tree_keys_all root) < n)%nat -> (length (tree_keys_all root) <= m)%nat ->
  scan_raw_tree m n t btree = Some (Ok (first_of_slots None (live_keys root))).
Proof.
  intros Hq Hu Hn Hm. unfold scan_raw_tree. rewrite (walk_tree_all _ t root) by done. f_equal. change (has_flag BTREE_ITER_intent BTREE_ITER_all_snapshots) with false. cbn [walked].
  assert (Forall (fun k => BKEY_U64S <= k_u64s (kv_k k)) (first_of_slots None (live_keys root))) as Hu'.
  { generalize (@None (Z * Z)). induction (live_keys root) as [|k ks IH]; intros prev; [constructor|]. apply Forall_cons_1 in Hu as [Hk Hu]. cbn [first_of_slots]. case_decide; [by apply IH|]. apply Forall_cons_2; [done|]. by apply IH. }
  assert (forall ks out, Forall (fun k => BKEY_U64S <= k_u64s (kv_k k)) ks -> visit_all copy_key out ks = Ok (out ++ ks)) as Hall; [|by apply Hall].
  induction ks as [|k ks IH]; intros out Hks; cbn [visit_all]; [by rewrite app_nil_r|]. apply Forall_cons_1 in Hks as [Hk Hks]. unfold copy_key at 1. rewrite (proj2 (Z.ltb_ge _ _)) by done.
  rewrite IH by done. by rewrite <- app_assoc.
Qed.

(** ** Examples *)

(** Two leaves; the key at offset 7 is deleted in one set and written in another. *)
Definition at_offset (o : Z) : bpos := SPOS 1 o 0.
Definition live_at (o : Z) : kv := mk_kv (mk_bkey 6 KEY_FORMAT_CURRENT KEY_TYPE_snapshot ZERO_VERSION 0 (at_offset o)) [o].
Definition sample_left : leaf := mk_leaf POS_MIN (at_offset 10) [live_at 3; deleted_key (at_offset 5); deleted_key (at_offset 7); live_at 7].
Definition sample_right : leaf := mk_leaf (SPOS 1 10 1) SPOS_MAX [deleted_key (at_offset 12); live_at 15].
Definition sample_root : node := Inner POS_MIN [(at_offset 10, Leaf sample_left); (SPOS_MAX, Leaf sample_right)].
Definition sample_view (us : list btree_insert_entry) : btree_trans := mk_trans (Some sample_root) us None (fun _ => 0) None.

Lemma sample_quiet us : Forall (fun u => e_btree_id u <> 9 \/ e_level u <> 0) us -> quiet (sample_view us) sample_root 9.
Proof.
  intros H. assert (leaf_ok 0 (pval (at_offset 10)) sample_left /\ leaf_ok (pval (at_offset 10) + 1) (2 ^ 160 - 1) sample_right) as [Hl Hr].
  { split; constructor; cbn [leaf_keys sample_left sample_right].
    all: repeat match goal with |- _ /\ _ => split | |- bpos_wf _ => hnf | |- in_range _ _ => hnf | |- Forall _ [] => constructor | |- Forall _ (_ :: _) => apply Forall_cons_2 | |- StronglySorted _ [] => constructor | |- StronglySorted _ (_ :: _) => constructor end.
    all: try (vm_compute; congruence). }
  constructor; try done. repeat (apply Forall_cons_2; [done|]). constructor.
Qed.

Lemma peek_finds_first_witness : exists it' r, bch2_btree_iter_peek_max 9 (sample_view []) (bch2_trans_iter_init 9 (at_offset 4) 0) (at_offset 20) = Some (it', r) /\ r = Found (live_at 7).
Proof.
  destruct (peek_finds_first (sample_view []) sample_root 9 9 (bch2_trans_iter_init 9 (at_offset 4) 0) (at_offset 20)) as (it' & r & E & _ & _ & ->);
    [by apply sample_quiet|done|done|done|done|done|by vm_compute; lia|]. exists it', (Found (live_at 7)). split; [exact E|reflexivity].
Defined.

Lemma scan_walks_tree_witness : scan_raw_tree 6 9 (sample_view []) 9 = Some (Ok [live_at 3; live_at 7; live_at 15]).
Proof.
  rewrite (scan_walks_tree (sample_view []) sample_root 9 6 9); [reflexivity|by apply sample_quiet|repeat (apply Forall_cons_2; [done|]); constructor|vm_compute; lia|vm_compute; lia].
Defined.

(** A key that the transaction has staged is not seen if the tree has a key
    behind it: the iterator is moved to the tree's key before the updates are
    looked at. *)
Definition staged_at (k : kv) : btree_insert_entry := mk_entry 0 0 0 9 0 false false false 6 k (deleted_key (kv_pos k)).
Definition peeked_from (us : list btree_insert_entry) (o : Z) : option peeked :=
  '(_, r) ← bch2_btree_iter_peek 20 (sample_view us) (bch2_trans_iter_init 9 (at_offset o) 0); Some r.

Example staged_insert_unseen : peeked_from [staged_at (live_at 1)] 0 = Some (Found (live_at 3)).
Proof. reflexivity. Qed.
(** Nor is the deletion of a key: the tree's key is still returned. *)
Example staged_delete_unseen : peeked_from [staged_at (deleted_key (at_offset 3))] 0 = Some (Found (live_at 3)).
Proof. reflexivity. Qed.
