(* ===== verification/Fsck.v ===== *)
(** * Repairing the indexes of buckets ([engine.rs], fsck)

    The repair compares the indexes of free buckets and of discards with the
    buckets, deletes the entries that should not be there and inserts those
    that are missing, each in a transaction of its own; the checks follow.
    Faults can be injected into the transactions of the repair. *)

From stdpp Require Import base tactics list option gmap sorting.
From Stdlib Require Import ZArith Lia.
From S2P Require Import NodeIter Topology Superblock Prelude Bpos BkeyPack Extents ExtentKeys AllocKeys Trans TransFacts TransCommit Buckets BucketFacts BucketOps Derived DerivedCheck.

Open Scope Z_scope.

Inductive FsckFaultPoint := DuringRepairRestart | DuringRepairOom | AfterRepairBeforeFlush.

#[export] Instance fault_eq_dec : EqDecision FsckFaultPoint.
Proof. solve_decision. Defined.

(** The fault is used up by the first transaction. *)
Fixpoint bit_mod_sync (c : fs) (btree : Z) (position : bpos) (set : bool) (fault : option FsckFaultPoint) (evs : list commit_event) : option (fs * option FsckFaultPoint * result unit) :=
  match evs with
  | [] => None
  | Realloc :: evs => bit_mod_sync c btree position set fault evs
  | ev :: evs =>
      us ← bch2_btree_bit_mod c [] btree position set;
      '(c, fault, ret) ← match fault with
                         | Some DuringRepairRestart => Some (c, None, -4)
                         | Some DuringRepairOom => Some (c, None, -12)
                         | _ => '(c, ret) ← bch2_trans_commit c us ev; Some (c, fault, ret)
                         end;
      if ret =? -4 then bit_mod_sync c btree position set fault evs
      else Some (c, fault, if ret =? 0 then Ok tt else Err (Transaction ret))
  end.

(** One after the other; [evs] has what happens to the transaction of each. *)
Fixpoint sync_all (c : fs) (btree : Z) (set : bool) (ps : list bpos) (fault : option FsckFaultPoint) (evs : list (list commit_event)) :
    option (fs * option FsckFaultPoint * list (list commit_event) * result unit) :=
  match ps with
  | [] => Some (c, fault, evs, Ok tt)
  | p :: ps =>
      ev ← head evs;
      '(c, fault, r) ← bit_mod_sync c btree p set fault ev;
      match r with
      | Ok _ => sync_all c btree set ps fault (tail evs)
      | Err err => Some (c, fault, tail evs, Err err)
      end
  end.

(** Sets are walked in order. *)
Definition slot_le (p q : Z * Z) : Prop := p.1 < q.1 \/ p.1 = q.1 /\ p.2 <= q.2.
#[export] Instance slot_le_dec p q : Decision (slot_le p q).
Proof. unfold slot_le. apply _. Defined.
Definition slots_in_order (s : gset (Z * Z)) : list (Z * Z) := merge_sort slot_le (elements s).

Definition stale_entries (expected : gset (Z * Z)) (ks : list kv) : list bpos :=
  map kv_pos (List.filter (fun k => is_set_key k && negb (bool_decide (bucket_slot (kv_pos k) ∈ expected))) ks).
Definition missing_entries (expected : gset (Z * Z)) (ks : list kv) : list bpos :=
  map (fun s => POS s.1 s.2) (slots_in_order (expected ∖ set_slots ks)).

Definition repair_index (c : fs) (btree : Z) (expected : gset (Z * Z)) (fault : option FsckFaultPoint) (evs : list (list commit_event)) :
    option (fs * option FsckFaultPoint * list (list commit_event) * result unit) :=
  let ks := scan_raw_locked c btree in
  '(c, fault, evs, r) ← sync_all c btree false (stale_entries expected ks) fault evs;
  match r with
  | Ok _ => sync_all c btree true (missing_entries expected ks) fault evs
  | Err err => Some (c, fault, evs, Err err)
  end.

(** [superblock] says whether there is one. *)
Definition repair_derived_indexes (superblock : bool) (e : engine) (fault : option FsckFaultPoint) (evs : list (list commit_event)) : option (engine * result unit) :=
  if negb superblock then Some (e, Err (Transaction (-1))) else
  let s := expected_sets (e_fs e) in
  '(c, fault, evs, r) ← repair_index (e_fs e) BTREE_ID_FREESPACE (s_index s) fault evs;
  match r with
  | Err err => Some (with_fs e c, Err err)
  | Ok _ =>
      '(c, fault, evs, r) ← repair_index c BTREE_ID_NEED_DISCARD (s_discard s) fault evs;
      Some (with_fs e c, r)
  end.

(** *** The checks *)

Definition first_error (rs : list (result unit)) : result unit := default (Ok tt) (find is_err rs).

(** The order of the keys a scan of all snapshots returns, and the topology of
    the root.  The trees of this state are maps; [roots] has their root nodes,
    as they are in memory in that state. *)
Fixpoint out_of_order (ps : list bpos) : bool :=
  match ps with
  | p :: (q :: _) as ps => bpos_le q p || out_of_order ps
  | _ => false
  end.

Definition verify (roots : fs -> Z -> option topology_node) (c : fs) (btree : Z) : option (result unit) :=
  if out_of_order (map kv_pos (tree_keys c btree)) then Some (Err (Transaction (-1))) else
  match roots c btree with
  | None => Some (Err (Transaction (-1)))
  | Some root => ret ← bch2_btree_node_check_topology root; Some (if ret =? 0 then Ok tt else Err (Transaction ret))
  end.

Definition live_btrees (roots : fs -> Z -> option topology_node) (c : fs) : list Z :=
  List.filter (fun id => bool_decide (is_Some (roots c id))) (map Z.of_nat (seq 0 (Z.to_nat BTREE_ID_NR))).

Definition verify_all (roots : fs -> Z -> option topology_node) (e : engine) : option (result unit) :=
  verified ← mapM (verify roots (e_fs e)) (live_btrees roots (e_fs e));
  derived ← check_extents_to_backpointers (e_fs e);
  Some (first_error (verified ++ [derived; verify_bucket_indexes e; verify_guard_invariants e])).

(** [opened] is the engine of the image, [flush] the result of writing the
    journal. *)
Definition fsck_image_with_fault (opened : result engine) (superblock fix_errors : bool) (fault : option FsckFaultPoint) (evs : list (list commit_event)) (flush : result unit)
    (roots : fs -> Z -> option topology_node) : option (option engine * result unit) :=
  match opened with
  | Err err => Some (None, Err err)
  | Ok e =>
      '(e, r) ← (if fix_errors then
                   '(e, r) ← repair_derived_indexes superblock e fault evs;
                   Some (e, match r with
                            | Ok _ => if bool_decide (fault = Some AfterRepairBeforeFlush) then Err (Journal (-5)) else flush
                            | Err err => Err err
                            end)
                 else Some (e, Ok tt));
      match r with
      | Err err => Some (Some e, Err err)
      | Ok _ => r ← verify_all roots e; Some (Some e, r)
      end
  end.

(** ** One entry *)

Definition index_tree (b : Z) : Prop := b = BTREE_ID_FREESPACE \/ b = BTREE_ID_NEED_DISCARD.

Lemma index_bucket_tree b : index_tree b -> bucket_tree b.
Proof. intros [-> | ->]; [right; by left|right; right; by left]. Qed.

Lemma bit_mod_keys c b p set us : stage_of [(b, bit_key p set)] c = Some (us, 0) -> bch2_btree_bit_mod c [] b p set = Some us.
Proof.
  unfold stage_of. cbn [stage_keys]. change (bch2_btree_bit_mod c [] b p set) with (bch2_trans_update c [] b (bit_key p set) 0).
  destruct (bch2_trans_update c [] b (bit_key p set) 0) as [us1|]; [|done]. cbn. by intros [= ->].
Qed.

Lemma bit_mod_step c b p set ev evs us : ev <> Realloc -> bch2_btree_bit_mod c [] b p set = Some us -> forall fault,
  bit_mod_sync c b p set fault (ev :: evs) =
  '(c, fault, ret) ← match fault with
                     | Some DuringRepairRestart => Some (c, None, -4)
                     | Some DuringRepairOom => Some (c, None, -12)
                     | _ => '(c, ret) ← bch2_trans_commit c us ev; Some (c, fault, ret)
                     end;
  if ret =? -4 then bit_mod_sync c b p set fault evs else Some (c, fault, if ret =? 0 then Ok tt else Err (Transaction ret)).
Proof. intros Hne E fault. destruct ev; try done; cbn [bit_mod_sync]; rewrite E; reflexivity. Qed.

Section Entry.
Context (b : Z) (p : bpos) (set : bool) (Hb : index_tree b) (Hp : bpos_wf p) (H0 : snapshot p = 0).
Let ks : list (Z * kv) := [(b, bit_key p set)].

Lemma entry_keys_ok : Forall key_ok ks /\ (length ks <= BTREE_ITER_INITIAL)%nat.
Proof. split; [apply Forall_cons_2; [by apply bit_key_ok|constructor]|cbn; unfold BTREE_ITER_INITIAL; lia]. Qed.

Lemma entry_plain c : buckets_wf c -> plain_at (f_trees c) ks.
Proof.
  intros Hc b' k old Hin Hk. apply list_elem_of_singleton in Hin. injection Hin as -> _. by apply (bw_keys _ Hc _ _ _ (index_bucket_tree _ Hb) Hk).
Qed.

(** Whatever happens, the entry is in the wanted state behind a success, and
    an error changes nothing else. *)
Lemma bit_mod_result evs : forall c fault c' fault' r, trees_wf c -> plain_at (f_trees c) ks -> Forall event_ok evs ->
  bit_mod_sync c b p set fault evs = Some (c', fault', r) ->
  exists ret, loop_result c ks c' ret /\ r = (if ret =? 0 then Ok tt else Err (Transaction ret)).
Proof.
  destruct entry_keys_ok as [Hks Hlen].
  induction evs as [|ev evs IH]; intros c fault c' fault' r Hc Hpl Hev E; [done|]. apply Forall_cons_1 in Hev as [He Hev].
  destruct (decide (ev = Realloc)) as [->|Hne]; [by eapply IH|].
  destruct (attempt_ok _ commit_commits ks Hks Hlen c ev Hc Hpl He Hne) as (us & c1 & r1 & Hs & Ec & Hr & Hp1 & _).
  rewrite (bit_mod_step c b p set ev evs us Hne (bit_mod_keys _ _ _ _ _ Hs)) in E.
  assert (loop_result c ks c (-4)) as Hsame by (constructor; [done|by left|done|done|lia]).
  assert (forall f, (r ← (if r1 =? -4 then bit_mod_sync c1 b p set f evs else Some (c1, f, if r1 =? 0 then Ok tt else Err (Transaction r1))); Some r) = Some (c', fault', r) ->
    exists ret, loop_result c ks c' ret /\ r = (if ret =? 0 then Ok tt else Err (Transaction ret))) as Hgo.
  { intros f Ef. destruct (Z.eqb_spec r1 (-4)) as [E4|_].
    - destruct (bit_mod_sync c1 b p set f evs) as [x|] eqn:Ex; [cbn in Ef; injection Ef as ->|done]. rewrite E4 in Hr.
      destruct (IH _ _ _ _ _ (lr_wf _ _ _ _ Hr) Hp1 Hev Ex) as (ret & Hl & ->). exists ret. split; [|done]. exact (loop_result_trans ks Hlen _ _ _ _ Hr Hl).
    - cbn in Ef. injection Ef as <- _ <-. by exists r1. }
  destruct fault as [[]|].
  - cbn in E. destruct (IH _ _ _ _ _ Hc Hpl Hev E) as (ret & Hl & ->). by exists ret.
  - cbn in E. injection E as <- <- <-. exists (-12). split; [|done]. constructor; [done|by left|done|done|lia].
  - rewrite Ec in E. cbn [mbind option_bind] in E. apply (Hgo (Some AfterRepairBeforeFlush)). rewrite E. done.
  - rewrite Ec in E. cbn [mbind option_bind] in E. apply (Hgo None). rewrite E. done.
Qed.

Definition fault_left (f : option FsckFaultPoint) : Z := match f with Some DuringRepairRestart => 1 | _ => 0 end.

(** With attempts enough it succeeds. *)
Lemma bit_mod_success evs : forall c fault, trees_wf c -> plain_at (f_trees c) ks -> Forall restart_event evs -> restarts_left c + fault_left fault < Z.of_nat (proceeds evs) ->
  fault <> Some DuringRepairOom -> exists c' fault', bit_mod_sync c b p set fault evs = Some (c', fault', Ok tt) /\ fault' <> Some DuringRepairOom /\ fault_left fault' <= fault_left fault.
Proof.
  destruct entry_keys_ok as [Hks Hlen].
  induction evs as [|ev evs IH]; intros c fault Hc Hpl Hev Hn Hf; [unfold restarts_left, proceeds in Hn; destruct fault as [[]|]; cbn in Hn; lia|].
  apply Forall_cons_1 in Hev as [He Hev]. destruct (decide (ev = Realloc)) as [->|Hne]; [by apply IH|].
  destruct (restart_ret ev He) as [He' Hev4].
  destruct (attempt_ok _ commit_commits ks Hks Hlen c ev Hc Hpl He' Hne) as (us & c1 & r1 & Hs & Ec & Hr & Hp1 & Hat).
  rewrite (bit_mod_step c b p set ev evs us Hne (bit_mod_keys _ _ _ _ _ Hs)).
  assert (Z.of_nat (proceeds (ev :: evs)) <= Z.of_nat (proceeds evs) + 1) as Hpr by (unfold proceeds; destruct ev; cbn; lia).
  destruct (decide (fault = Some DuringRepairRestart)) as [->|Hfr].
  { cbn [mbind option_bind]. change (-4 =? -4) with true. cbv iota. destruct (IH c None Hc Hpl Hev) as (c' & f' & -> & Hf' & Hl); [cbn in *; lia|done|]. exists c', f'. split; [done|]. split; [done|]. cbn in *. lia. }
  assert (r1 = 0 \/ r1 = -4 /\ restarts_left c1 < Z.of_nat (proceeds evs)) as Hr1.
  { assert (fault_left fault = 0) as Ef by (destruct fault as [[]|]; done).
    destruct (at_ret _ _ _ _ _ Hat) as [H1|H4]; [by left|]. assert (r1 = 0 \/ r1 = -4) as [H1|H1] by (clear -H4 Hev4; lia); [by left|clear H4; rename H1 into H4].
    right. split; [done|]. pose proof (at_left _ _ _ _ _ Hat). destruct ev; try done; try (unfold proceeds in *; cbn in Hn; lia).
    destruct (at_proceed _ _ _ _ _ Hat eq_refl) as [H1|[_ Hlt]]; [lia|]. unfold proceeds in *. cbn in Hn. lia. }
  assert (exists c' fault', (if r1 =? -4 then bit_mod_sync c1 b p set fault evs else Some (c1, fault, if r1 =? 0 then Ok tt else Err (Transaction r1))) = Some (c', fault', Ok tt) /\
    fault' <> Some DuringRepairOom /\ fault_left fault' <= fault_left fault) as Hgo.
  { destruct Hr1 as [->|[-> Hl]]; [exists c1, fault; split; [done|]; split; [done|lia]|]. change (-4 =? -4) with true. cbv iota.
    apply IH; [apply Hr|done|done| |done]. destruct fault as [[]|]; cbn in *; try done; lia. }
  destruct fault as [[]|]; try done; by rewrite Ec.
Qed.

End Entry.

(** ** Many entries *)

(** The entries [ps] of one index are as wanted, or some are as before. *)
Record synced (c c' : fs) (b : Z) (set : bool) (ps : list bpos) (r : result unit) : Prop := {
  sy_env : same_env c c';
  sy_wf : buckets_wf c';
  sy_other : forall b' q, b' <> b -> f_trees c' !! (b', q) = f_trees c !! (b', q);
  sy_cases : forall q, (is_set c' b q <-> is_set c b q) \/ q ∈ ps /\ (is_set c' b q <-> set = true);
  sy_keep : forall q, q ∉ ps -> is_set c' b q <-> is_set c b q;
  sy_done : r = Ok tt -> forall q, q ∈ ps -> is_set c' b q <-> set = true
}.

Lemma entry_after c c' b p set key : index_tree b -> (f_trees c' !! key = f_trees c !! key \/ f_trees c' !! key = keys_after (f_trees c) [(b, bit_key p set)] key) ->
  f_trees c' !! key = f_trees c !! key \/ key = (b, p) /\ f_trees c' !! key = live (bit_key p set).
Proof. intros Hb [H|H]; [by left|]. rewrite H. unfold keys_after. cbn [over]. case_decide as E; [by right|by left]. Qed.

Lemma bit_mod_synced c b p set fault evs c' fault' r : buckets_wf c -> index_tree b -> bpos_wf p -> snapshot p = 0 -> Forall event_ok evs ->
  bit_mod_sync c b p set fault evs = Some (c', fault', r) -> synced c c' b set [p] r.
Proof.
  intros Hc Hb Hp H0 Hev E. destruct (bit_mod_result b p set Hb Hp evs c fault c' fault' r (bw_trees _ Hc) (entry_plain _ _ _ Hb _ Hc) Hev E) as (ret & [H1 H2 H3 H4 _] & ->).
  assert (forall key, f_trees c' !! key = f_trees c !! key \/ key = (b, p) /\ f_trees c' !! key = live (bit_key p set)) as Hk by (intros key; by apply entry_after).
  assert (forall q, f_trees c' !! (b, q) = live (bit_key q set) -> is_set c' b q <-> set = true) as Hlive by (intros q Eq; rewrite is_set_match, Eq; apply live_bit).
  assert (4 <> b) as H4b by (by destruct Hb as [-> | ->]).
  constructor; [done| | | | |].
  - constructor; [done| |].
    + intros b' q k Hb' Eq. destruct (Hk (b', q)) as [E1|[[= -> ->] E1]]; [rewrite E1 in Eq; by apply (bw_keys _ Hc _ _ _ Hb' Eq)|].
      rewrite Eq in E1. split; [done|]. split; [done|]. unfold live in E1. destruct set; [by injection E1 as ->|done].
    + intros q k Eq. destruct (Hk (4, q)) as [E1|[[= E1 _] _]]; [rewrite E1 in Eq; by apply (bw_alloc _ Hc)|done].
  - intros b' q Hne. destruct (Hk (b', q)) as [E1|[[= -> _] _]]; done.
  - intros q. destruct (Hk (b, q)) as [E1|[[= ->] E1]]; [left; by rewrite !is_set_match, E1|]. right. split; [apply list_elem_of_here|]. by apply Hlive.
  - intros q Hq. destruct (Hk (b, q)) as [E1|[[= ->] E1]]; [by rewrite !is_set_match, E1|]. by destruct Hq; apply list_elem_of_here.
  - intros Hr q ->%list_elem_of_singleton. apply Hlive. destruct (Z.eqb_spec ret 0) as [Hz|]; [|done]. rewrite (H3 Hz). unfold keys_after. cbn [over]. by rewrite decide_True.
Qed.

Lemma synced_refl c b set : buckets_wf c -> synced c c b set [] (Ok tt).
Proof. intros Hc. constructor; try done; [by left|]. intros _ q Hq. by apply not_elem_of_nil in Hq. Qed.

Lemma synced_cons c c1 c2 b set p ps r : synced c c1 b set [p] (Ok tt) -> synced c1 c2 b set ps r -> synced c c2 b set (p :: ps) r.
Proof.
  intros H H'. constructor; [by eapply same_env_trans; [apply H|apply H']|apply H'| | | |].
  - intros b' q Hne. by rewrite (sy_other _ _ _ _ _ _ H') , (sy_other _ _ _ _ _ _ H).
  - intros q. destruct (sy_cases _ _ _ _ _ _ H' q) as [E|[Hq E]]; [|right; split; [by apply list_elem_of_further|done]]. rewrite E.
    destruct (sy_cases _ _ _ _ _ _ H q) as [E1|[Hq E1]]; [by left|right]. apply list_elem_of_singleton in Hq as ->. split; [apply list_elem_of_here|done].
  - intros q Hq. rewrite elem_of_cons in Hq. rewrite (sy_keep _ _ _ _ _ _ H') by tauto. apply (sy_keep _ _ _ _ _ _ H). rewrite list_elem_of_singleton. tauto.
  - intros Hr q Hq. destruct (decide (q ∈ ps)) as [Hin|Hn]; [by apply (sy_done _ _ _ _ _ _ H')|]. apply elem_of_cons in Hq as [->|]; [|done].
    rewrite (sy_keep _ _ _ _ _ _ H') by done. apply (sy_done _ _ _ _ _ _ H); [done|apply list_elem_of_here].
Qed.

Definition entries_ok (ps : list bpos) : Prop := Forall (fun p => bpos_wf p /\ snapshot p = 0) ps.

Lemma sync_all_synced b set ps : index_tree b -> entries_ok ps -> forall c fault evs c' fault' evs' r, buckets_wf c -> Forall (Forall event_ok) evs ->
  sync_all c b set ps fault evs = Some (c', fault', evs', r) -> synced c c' b set ps r /\ Forall (Forall event_ok) evs'.
Proof.
  intros Hb. induction ps as [|p ps IH]; intros Hps c fault evs c' fault' evs' r Hc Hev E; cbn [sync_all] in E.
  { injection E as <- <- <- <-. split; [by apply synced_refl|done]. }
  apply Forall_cons_1 in Hps as [[Hp H0] Hps]. destruct evs as [|ev evs]; [done|]. cbn [head mbind option_bind tail] in E. apply Forall_cons_1 in Hev as [He Hev].
  destruct (bit_mod_sync c b p set fault ev) as [[[c1 f1] r1]|] eqn:E1; [cbn [mbind option_bind] in E|done].
  pose proof (bit_mod_synced c b p set fault ev c1 f1 r1 Hc Hb Hp H0 He E1) as H1. destruct r1 as [[]|err].
  - destruct (IH Hps c1 f1 evs c' fault' evs' r (sy_wf _ _ _ _ _ _ H1) Hev E) as [H2 H3]. split; [by eapply synced_cons|done].
  - injection E as <- <- <- <-. split; [|done]. destruct H1 as [H1 H2 H3 H4 H5 H6]. constructor; try done.
    + intros q. destruct (H4 q) as [|[Hq Ho]]; [by left|right]. apply list_elem_of_singleton in Hq as ->. split; [apply list_elem_of_here|done].
    + intros q Hq. apply H5. rewrite list_elem_of_singleton. rewrite elem_of_cons in Hq. tauto.
Qed.

(** Attempts enough for every entry. *)
Definition enough (c : fs) (evs : list (list commit_event)) : Prop := Forall (fun ev => Forall restart_event ev /\ restarts_left c + 1 < Z.of_nat (proceeds ev)) evs.

Lemma bit_mod_left b p set evs : index_tree b -> bpos_wf p -> forall c fault c' fault' r, buckets_wf c -> Forall event_ok evs -> bit_mod_sync c b p set fault evs = Some (c', fault', r) -> restarts_left c' <= restarts_left c.
Proof.
  intros Hb Hp c fault c' fault' r Hc Hev E. by destruct (bit_mod_result b p set Hb Hp evs c fault c' fault' r (bw_trees _ Hc) (entry_plain _ _ _ Hb _ Hc) Hev E) as (ret & [] & _).
Qed.

Lemma sync_all_success b set ps : index_tree b -> entries_ok ps -> forall c fault evs, buckets_wf c -> enough c evs -> (length ps <= length evs)%nat -> fault <> Some DuringRepairOom ->
  exists c' fault', sync_all c b set ps fault evs = Some (c', fault', drop (length ps) evs, Ok tt) /\ fault' <> Some DuringRepairOom /\ restarts_left c' <= restarts_left c.
Proof.
  intros Hb. induction ps as [|p ps IH]; intros Hps c fault evs Hc Hev Hl Hf; cbn [sync_all]; [exists c, fault; by rewrite drop_0|].
  apply Forall_cons_1 in Hps as [[Hp H0] Hps]. destruct evs as [|ev evs]; [cbn in Hl; lia|]. cbn [head mbind option_bind tail]. apply Forall_cons_1 in Hev as [[He Hn] Hev].
  destruct (bit_mod_success b p set Hb Hp ev c fault (bw_trees _ Hc) (entry_plain _ _ _ Hb _ Hc) He) as (c1 & f1 & E1 & Hf1 & _); [destruct fault as [[]|]; cbn [fault_left]; lia|done|].
  pose proof (bit_mod_synced c b p set fault ev c1 f1 (Ok tt) Hc Hb Hp H0 (restart_events_ok _ He) E1) as H1. pose proof (bit_mod_left b p set ev Hb Hp c fault c1 f1 _ Hc (restart_events_ok _ He) E1) as Hle.
  rewrite E1. cbn [mbind option_bind]. cbn in Hl. destruct (IH Hps c1 f1 evs (sy_wf _ _ _ _ _ _ H1)) as (c' & f' & -> & Hf' & Hle'); [eapply Forall_impl; [exact Hev|]; cbn; intros x [Hx1 Hx2]; split; [done|lia]|lia|done|].
  exists c', f'. split; [done|]. split; [done|lia].
Qed.

(** ** An index *)

Definition slots_ok (expected : gset (Z * Z)) : Prop := forall s, s ∈ expected -> bpos_wf (POS s.1 s.2).

Lemma stale_in c b expected q : buckets_wf c -> index_tree b -> q ∈ stale_entries expected (scan_raw_locked c b) <-> is_set c b q /\ bucket_slot q ∉ expected.
Proof.
  intros Hc Hb. unfold stale_entries. rewrite list_elem_of_fmap. split.
  - intros (k & -> & Hk). apply list_elem_of_In, filter_In in Hk as [Hk [Hs Hn]%andb_true_iff]. apply list_elem_of_In, scan_in in Hk; [|done|by apply index_bucket_tree].
    split; [by exists k|]. apply negb_true_iff in Hn. by apply bool_decide_eq_false in Hn.
  - intros [(k & Hk & Hs) Hn]. destruct (bw_trees _ Hc _ _ _ Hk) as (Hp & _). exists k. split; [done|]. apply list_elem_of_In, filter_In. split.
    + apply list_elem_of_In, scan_in; [done|by apply index_bucket_tree|by rewrite Hp].
    + rewrite Hs, Hp. by rewrite bool_decide_false.
Qed.

Lemma slots_in_order_in s x : x ∈ slots_in_order s <-> x ∈ s.
Proof. unfold slots_in_order. by rewrite merge_sort_Permutation, elem_of_elements. Qed.

Lemma missing_in expected ks q : q ∈ missing_entries expected ks <-> snapshot q = 0 /\ bucket_slot q ∈ expected /\ bucket_slot q ∉ set_slots ks.
Proof.
  unfold missing_entries. rewrite list_elem_of_fmap. setoid_rewrite slots_in_order_in. setoid_rewrite elem_of_difference. split.
  - intros ([i o] & -> & H1 & H2). done.
  - intros (H0 & H1 & H2). exists (bucket_slot q). split; [|done]. symmetry. by apply pos_slot.
Qed.

(** The entries of an index are those expected. *)
Definition index_is (c : fs) (b : Z) (expected : gset (Z * Z)) : Prop := forall q, is_set c b q <-> snapshot q = 0 /\ bucket_slot q ∈ expected.

Lemma repair_index_ok c b expected fault evs c' fault' evs' r : buckets_wf c -> index_tree b -> slots_ok expected -> Forall (Forall event_ok) evs ->
  repair_index c b expected fault evs = Some (c', fault', evs', r) ->
  same_env c c' /\ buckets_wf c' /\ (forall b' q, b' <> b -> f_trees c' !! (b', q) = f_trees c !! (b', q)) /\ Forall (Forall event_ok) evs' /\
  (forall q, (is_set c' b q <-> is_set c b q) \/ (is_set c' b q <-> snapshot q = 0 /\ bucket_slot q ∈ expected)) /\
  (r = Ok tt -> index_is c' b expected).
Proof.
  intros Hc Hb Hex Hev E. unfold repair_index in E. set (ks := scan_raw_locked c b) in *.
  destruct (sync_all c b false (stale_entries expected ks) fault evs) as [[[[c1 f1] evs1] r1]|] eqn:E1; [cbn [mbind option_bind] in E|done].
  assert (entries_ok (stale_entries expected ks)) as Hst.
  { apply Forall_forall. intros q Hq. apply stale_in in Hq as [Hq _]; [|done|done]. by destruct (is_set_wf _ _ _ Hc (index_bucket_tree _ Hb) Hq). }
  assert (entries_ok (missing_entries expected ks)) as Hmi.
  { apply Forall_forall. intros q Hq. apply missing_in in Hq as (H0 & Hq & _). split; [|done]. rewrite <- (pos_slot q H0). exact (Hex _ Hq). }
  destruct (sync_all_synced _ _ _ Hb Hst _ _ _ _ _ _ _ Hc Hev E1) as [H1 Hev1].
  assert (forall q, is_set c b q -> snapshot q = 0) as H0 by (intros q Hq; by apply (is_set_wf _ _ _ Hc (index_bucket_tree _ Hb) Hq)).
  assert (forall q, (is_set c1 b q <-> is_set c b q) \/ (is_set c1 b q <-> snapshot q = 0 /\ bucket_slot q ∈ expected)) as Hone.
  { intros q. destruct (sy_cases _ _ _ _ _ _ H1 q) as [|[Hq Ho]]; [by left|right]. apply stale_in in Hq as [_ Hq]; [|done|done]. rewrite Ho. split; [done|tauto]. }
  destruct r1 as [[]|err].
  2: { injection E as <- <- <- <-. split; [apply H1|]. split; [apply H1|]. split; [apply H1|]. done. }
  destruct (sync_all_synced _ _ _ Hb Hmi _ _ _ _ _ _ _ (sy_wf _ _ _ _ _ _ H1) Hev1 E) as [H2 Hev2].
  split; [eapply same_env_trans; [apply H1|apply H2]|]. split; [apply H2|]. split; [intros b' q Hne; by rewrite (sy_other _ _ _ _ _ _ H2), (sy_other _ _ _ _ _ _ H1)|]. split; [done|].
  split.
  { intros q. destruct (sy_cases _ _ _ _ _ _ H2 q) as [E2|[Hq E2]]; [destruct (Hone q); [left|right]; tauto|]. right. apply missing_in in Hq. rewrite E2. tauto. }
  intros Hr q. destruct (decide (q ∈ missing_entries expected ks)) as [Hm|Hm].
  - rewrite (sy_done _ _ _ _ _ _ H2 Hr q Hm). apply missing_in in Hm. tauto.
  - rewrite (sy_keep _ _ _ _ _ _ H2 q Hm). destruct (decide (q ∈ stale_entries expected ks)) as [Hs|Hs].
    + rewrite (sy_done _ _ _ _ _ _ H1 eq_refl q Hs). apply stale_in in Hs; [|done|done]. split; [done|tauto].
    + rewrite (sy_keep _ _ _ _ _ _ H1 q Hs). unfold ks in Hs; rewrite stale_in in Hs by done; fold ks in Hs. rewrite missing_in in Hm. split.
      * intros Hq. split; [by apply H0|]. destruct (decide (bucket_slot q ∈ expected)); tauto.
      * intros [Hq Hin]. destruct (decide (bucket_slot q ∈ set_slots ks)) as [Hss|]; [|tauto].
        apply set_slots_in in Hss as (q' & Hq' & Eq); [|done|by apply index_bucket_tree]. by rewrite (slot_inj q q' Hq (H0 _ Hq') Eq).
Qed.

Definition to_repair (c : fs) (b : Z) (expected : gset (Z * Z)) : nat :=
  length (stale_entries expected (scan_raw_locked c b)) + length (missing_entries expected (scan_raw_locked c b)).

Lemma enough_weaken c c' evs : restarts_left c' <= restarts_left c -> enough c evs -> enough c' evs.
Proof. intros Hl H. eapply Forall_impl; [exact H|]. cbn. intros x [H1 H2]. split; [done|lia]. Qed.

Lemma enough_ok c evs : enough c evs -> Forall (Forall event_ok) evs.
Proof. intros H. eapply Forall_impl; [exact H|]. cbn. intros x [H1 _]. by apply restart_events_ok. Qed.

Lemma repair_index_success c b expected fault evs : buckets_wf c -> index_tree b -> slots_ok expected -> enough c evs -> (to_repair c b expected <= length evs)%nat -> fault <> Some DuringRepairOom ->
  exists c' fault', repair_index c b expected fault evs = Some (c', fault', drop (to_repair c b expected) evs, Ok tt) /\ fault' <> Some DuringRepairOom /\ restarts_left c' <= restarts_left c.
Proof.
  intros Hc Hb Hex Hev Hl Hf. unfold repair_index, to_repair in *. set (ks := scan_raw_locked c b) in *.
  assert (entries_ok (stale_entries expected ks)) as Hst.
  { apply Forall_forall. intros q Hq. apply stale_in in Hq as [Hq _]; [|done|done]. by destruct (is_set_wf _ _ _ Hc (index_bucket_tree _ Hb) Hq). }
  assert (entries_ok (missing_entries expected ks)) as Hmi.
  { apply Forall_forall. intros q Hq. apply missing_in in Hq as (H0 & Hq & _). split; [|done]. rewrite <- (pos_slot q H0). exact (Hex _ Hq). }
  destruct (sync_all_success b false _ Hb Hst c fault evs Hc Hev) as (c1 & f1 & E1 & Hf1 & Hl1); [lia|done|]. rewrite E1. cbn [mbind option_bind].
  destruct (sync_all_synced _ _ _ Hb Hst _ _ _ _ _ _ _ Hc (enough_ok _ _ Hev) E1) as [H1 _].
  destruct (sync_all_success b true _ Hb Hmi c1 f1 (drop (length (stale_entries expected ks)) evs) (sy_wf _ _ _ _ _ _ H1)) as (c2 & f2 & -> & Hf2 & Hl2);
    [apply (enough_weaken c); [done|by apply Forall_drop]|rewrite length_drop; lia|done|].
  exists c2, f2. rewrite drop_drop. split; [done|]. split; [done|lia].
Qed.

(** ** The repair *)

Lemma index_slots_ok c : buckets_wf c -> slots_ok (s_index (expected_sets c)).
Proof.
  intros Hc s Hs. apply expected_index in Hs as (p & a & Ha & _ & ->); [|done]. destruct (alloc_at_wf _ _ _ Hc Ha) as (H0 & Hp & _ & _ & Ho).
  destruct (freespace_wf p a Hp Ho) as [Hw Hs]. change (bpos_wf (POS (inode (alloc_freespace_pos p a)) (offset (alloc_freespace_pos p a)))). by rewrite pos_slot by congruence.
Qed.

Lemma discard_slots_ok c : buckets_wf c -> slots_ok (s_discard (expected_sets c)).
Proof.
  intros Hc s Hs. apply expected_discard in Hs as (p & a & Ha & _ & ->); [|done]. destruct (alloc_at_wf _ _ _ Hc Ha) as (H0 & Hp & _).
  change (bpos_wf (POS (inode p) (offset p))). by rewrite pos_slot.
Qed.

Lemma indexes_consistent c c' : buckets_wf c -> (forall p, alloc_at c' p = alloc_at c p) ->
  index_is c' BTREE_ID_FREESPACE (s_index (expected_sets c)) -> index_is c' BTREE_ID_NEED_DISCARD (s_discard (expected_sets c)) -> consistent c'.
Proof.
  intros Hc Ha Hf Hd. constructor.
  - intros q. rewrite (Hf q), expected_index by done. setoid_rewrite Ha. split.
    + intros (H0 & p & a & Hp & Ht & E). exists p, a. split; [done|]. split; [done|]. apply slot_inj; [done| |done]. by destruct (alloc_at_wf _ _ _ Hc Hp).
    + intros (p & a & Hp & Ht & ->). split; [by destruct (alloc_at_wf _ _ _ Hc Hp)|]. by exists p, a.
  - intros p. rewrite (Hd p), expected_discard by done. setoid_rewrite Ha. split.
    + intros (H0 & q & a & Hq & Ht & E). rewrite (slot_inj p q H0); [by exists a|by destruct (alloc_at_wf _ _ _ Hc Hq)|done].
    + intros (a & Hp & Ht). split; [by destruct (alloc_at_wf _ _ _ Hc Hp)|]. by exists p, a.
Qed.

(** What an index should say of a position. *)
Definition wanted (c : fs) (b : Z) (q : bpos) : Prop :=
  snapshot q = 0 /\ bucket_slot q ∈ (if b =? BTREE_ID_FREESPACE then s_index (expected_sets c) else s_discard (expected_sets c)).

Lemma repair_ok e fault evs e' r : buckets_wf (e_fs e) -> Forall (Forall event_ok) evs -> repair_derived_indexes true e fault evs = Some (e', r) ->
  buckets_wf (e_fs e') /\ same_env (e_fs e) (e_fs e') /\ same_engine e e' /\ (forall b q, ~ index_tree b -> f_trees (e_fs e') !! (b, q) = f_trees (e_fs e) !! (b, q)) /\
  (forall b q, index_tree b -> (is_set (e_fs e') b q <-> is_set (e_fs e) b q) \/ (is_set (e_fs e') b q <-> wanted (e_fs e) b q)) /\
  (r = Ok tt -> consistent (e_fs e')).
Proof.
  intros Hc Hev E. unfold repair_derived_indexes in E. cbn [negb] in E. set (c := e_fs e) in *.
  destruct (repair_index c BTREE_ID_FREESPACE (s_index (expected_sets c)) fault evs) as [[[[c1 f1] evs1] r1]|] eqn:E1; [cbn [mbind option_bind] in E|done].
  destruct (repair_index_ok _ _ _ _ _ _ _ _ _ Hc (or_introl eq_refl) (index_slots_ok _ Hc) Hev E1) as (He1 & Hc1 & Ho1 & Hev1 & Hs1 & Hd1).
  assert (forall b, ~ index_tree b -> b <> BTREE_ID_FREESPACE /\ b <> BTREE_ID_NEED_DISCARD) as Hnot by (intros b Hb; unfold index_tree in Hb; tauto).
  assert (forall q, is_set c1 BTREE_ID_NEED_DISCARD q <-> is_set c BTREE_ID_NEED_DISCARD q) as Hkeep by (intros q; by rewrite !is_set_match, Ho1).
  destruct r1 as [[]|err].
  2: { injection E as <- <-. split; [done|]. split; [done|]. split; [done|]. split; [intros b q Hb; destruct (Hnot b Hb); by apply Ho1|]. split; [|done].
    intros b q [-> | ->]; [apply Hs1|left; apply Hkeep]. }
  destruct (repair_index c1 BTREE_ID_NEED_DISCARD (s_discard (expected_sets c)) f1 evs1) as [[[[c2 f2] evs2] r2]|] eqn:E2; [cbn [mbind option_bind] in E|done]. injection E as <- <-.
  destruct (repair_index_ok _ _ _ _ _ _ _ _ _ Hc1 (or_intror eq_refl) (discard_slots_ok _ Hc) Hev1 E2) as (He2 & Hc2 & Ho2 & _ & Hs2 & Hd2).
  assert (forall q, is_set c2 BTREE_ID_FREESPACE q <-> is_set c1 BTREE_ID_FREESPACE q) as Hkeep2 by (intros q; by rewrite !is_set_match, Ho2).
  cbn [e_fs with_fs]. split; [done|]. split; [by eapply same_env_trans|]. split; [done|]. split; [intros b q Hb; destruct (Hnot b Hb); by rewrite Ho2, Ho1|]. split.
  - intros b q [-> | ->]; [destruct (Hs1 q) as [H|H]; [left|right]; by rewrite Hkeep2|]. destruct (Hs2 q) as [H|H]; [left; by rewrite H|right; by rewrite H].
  - intros Hr. apply (indexes_consistent c); [done| | |by apply Hd2].
    + intros p. unfold alloc_at. by rewrite Ho2, Ho1.
    + intros q. rewrite Hkeep2. by apply Hd1.
Qed.

(** The number of entries to repair. *)
Definition work (c : fs) : nat := to_repair c BTREE_ID_FREESPACE (s_index (expected_sets c)) + to_repair c BTREE_ID_NEED_DISCARD (s_discard (expected_sets c)).

Lemma scan_same c c' b : (forall q, f_trees c' !! (b, q) = f_trees c !! (b, q)) -> buckets_wf c -> buckets_wf c' -> bucket_tree b -> scan_raw_locked c' b ≡ₚ scan_raw_locked c b.
Proof.
  intros H Hc Hc' Hb. rewrite !scan_all by done. apply NoDup_Permutation; [apply tree_keys_NoDup, Hc'|apply tree_keys_NoDup, Hc|]. intros k. rewrite !tree_keys_in by (apply Hc || apply Hc'). by rewrite H.
Qed.

Lemma filter_perm {A} (f : A -> bool) l l' : l ≡ₚ l' -> List.filter f l ≡ₚ List.filter f l'.
Proof.
  induction 1 as [|x l l' _ IH|x y l|l1 l2 l3 _ IH1 _ IH2]; [done| | |by transitivity (List.filter f l2)]; cbn.
  - destruct (f x); [by constructor|done].
  - destruct (f x), (f y); try done. constructor.
Qed.

Lemma to_repair_same c c' b expected : (forall q, f_trees c' !! (b, q) = f_trees c !! (b, q)) -> buckets_wf c -> buckets_wf c' -> bucket_tree b -> to_repair c' b expected = to_repair c b expected.
Proof.
  intros H Hc Hc' Hb. pose proof (scan_same c c' b H Hc Hc' Hb) as Hp. unfold to_repair, stale_entries, missing_entries. f_equal.
  - rewrite !length_map. by apply Permutation_length, filter_perm.
  - assert (set_slots (scan_raw_locked c' b) = set_slots (scan_raw_locked c b)) as ->; [|done]. unfold set_slots. apply leibniz_equiv. intros x.
    rewrite !elem_of_list_to_set, !list_elem_of_fmap. split; intros (k & -> & Hk); exists k; (split; [done|]); apply list_elem_of_In, filter_In in Hk as [Hk Hs]; apply list_elem_of_In, filter_In; (split; [|done]); apply list_elem_of_In.
    + rewrite <- Hp. by apply list_elem_of_In.
    + rewrite Hp. by apply list_elem_of_In.
Qed.

Lemma repair_success e fault evs : buckets_wf (e_fs e) -> Forall (Forall event_ok) evs -> enough (e_fs e) evs -> (work (e_fs e) <= length evs)%nat -> fault <> Some DuringRepairOom ->
  exists e', repair_derived_indexes true e fault evs = Some (e', Ok tt).
Proof.
  intros Hc Hev Hen Hw Hf. unfold repair_derived_indexes. cbn [negb]. set (c := e_fs e) in *. unfold work in Hw.
  destruct (repair_index_success c BTREE_ID_FREESPACE (s_index (expected_sets c)) fault evs Hc (or_introl eq_refl) (index_slots_ok _ Hc) Hen ltac:(lia) Hf) as (c1 & f1 & E1 & Hf1 & Hl1).
  destruct (repair_index_ok _ _ _ _ _ _ _ _ _ Hc (or_introl eq_refl) (index_slots_ok _ Hc) Hev E1) as (_ & Hc1 & Ho1 & Hev1 & _).
  rewrite E1. cbn [mbind option_bind].
  destruct (repair_index_success c1 BTREE_ID_NEED_DISCARD (s_discard (expected_sets c)) f1 (drop (to_repair c BTREE_ID_FREESPACE (s_index (expected_sets c))) evs) Hc1 (or_intror eq_refl) (discard_slots_ok _ Hc))
    as (c2 & f2 & -> & _); [apply (enough_weaken c); [done|by apply Forall_drop]| |done|by eexists].
  rewrite (to_repair_same c c1 BTREE_ID_NEED_DISCARD); [rewrite length_drop; lia| |done|done|right; right; by left]. intros q. by apply Ho1.
Qed.

(** C19: the repair ends, in as many transactions as there are wrong or missing
    entries, and then the check of the indexes passes.  It changes nothing but
    the two indexes, and even where it is given up every entry is as it was or
    as the buckets want it; without a superblock it is refused. *)
Theorem repair_restores_indexes e fault evs : buckets_wf (e_fs e) -> Forall (Forall event_ok) evs ->
  (enough (e_fs e) evs -> (work (e_fs e) <= length evs)%nat -> fault <> Some DuringRepairOom -> exists e', repair_derived_indexes true e fault evs = Some (e', Ok tt)) /\
  (forall e' r, repair_derived_indexes true e fault evs = Some (e', r) ->
    (r = Ok tt -> verify_bucket_indexes e' = Ok tt) /\ same_engine e e' /\
    (forall b q, ~ index_tree b -> f_trees (e_fs e') !! (b, q) = f_trees (e_fs e) !! (b, q)) /\
    (forall b q, index_tree b -> (is_set (e_fs e') b q <-> is_set (e_fs e) b q) \/ (is_set (e_fs e') b q <-> wanted (e_fs e) b q))) /\
  repair_derived_indexes false e fault evs = Some (e, Err (Transaction (-1))).
Proof.
  intros Hc Hev. split; [|split; [|done]].
  - intros Hen Hw Hf. by apply repair_success.
  - intros e' r E. destruct (repair_ok e fault evs e' r Hc Hev E) as (H1 & _ & H2 & H3 & H4 & H5). split; [|done]. intros Hr. apply verify_consistent; [done|by apply H5].
Qed.

(** ** The whole check *)

Lemma first_error_ok rs : first_error rs = Ok tt <-> Forall (fun r => r = Ok tt) rs.
Proof.
  unfold first_error. induction rs as [|r rs IH]; cbn [find]; [split; [constructor|done]|]. destruct r as [[]|err]; cbn [is_err].
  - rewrite IH. split; [intros H; by apply Forall_cons_2|intros H; by apply Forall_cons_1 in H as [_ H]].
  - cbn. split; [done|]. intros H. by apply Forall_cons_1 in H as [H _].
Qed.

Lemma index_key_plain c b p k : buckets_wf c -> index_tree b -> f_trees c !! (b, p) = Some k -> plain_kv k /\ snapshot p = 0.
Proof. intros Hc Hb Hk. by destruct (bw_keys _ Hc _ _ _ (index_bucket_tree _ Hb) Hk) as (? & _ & ?). Qed.

Lemma index_no_refs b k : plain_kv k -> refs_of b k = [].
Proof. unfold plain_kv, refs_of, has_refs. by intros ->. Qed.

(** A scan only depends on its tree. *)
Lemma tree_keys_same c c' b : trees_wf c -> trees_wf c' -> (forall p k, f_trees c !! (b, p) = Some k -> bpos_wf p) -> (forall q, f_trees c' !! (b, q) = f_trees c !! (b, q)) -> tree_keys c' b = tree_keys c b.
Proof.
  intros Hc Hc' Hw H. apply (StronglySorted_unique_strong (fun k k' => bpos_val (kv_pos k) < bpos_val (kv_pos k'))).
  - intros; lia.
  - apply tree_keys_sorted; [done|]. intros p k. rewrite H. apply Hw.
  - by apply tree_keys_sorted.
  - apply NoDup_Permutation; [by apply tree_keys_NoDup|by apply tree_keys_NoDup|]. intros k. by rewrite !tree_keys_in, H.
Qed.

(** Trees that only differ in the indexes have the same pointers. *)
Lemma seen_unchanged c c' : buckets_wf c -> buckets_wf c' -> (forall b p k, f_trees c !! (b, p) = Some k -> bpos_wf p) ->
  (forall b q, ~ index_tree b -> f_trees c' !! (b, q) = f_trees c !! (b, q)) -> seen_refs c' = seen_refs c.
Proof.
  intros Hc Hc' Hw H. unfold seen_refs, primary_keys, key_refs.
  assert (forall c l, flat_map (fun '(b, k) => refs_of b k) (flat_map (fun b => map (pair b) (scan_raw_locked c b)) l) = flat_map (fun b => flat_map (refs_of b) (scan_raw_locked c b)) l) as E.
  { intros c0. induction l as [|b l IH]; [done|]. cbn [flat_map]. rewrite flat_map_app, IH. f_equal. generalize (scan_raw_locked c0 b). induction l0 as [|k ks IHk]; [done|]. cbn. by rewrite IHk. }
  rewrite !E. apply flat_map_eq. intros b _. destruct (decide (b = BTREE_ID_FREESPACE \/ b = BTREE_ID_NEED_DISCARD)) as [Hb|Hb].
  - assert (forall c, buckets_wf c -> flat_map (refs_of b) (scan_raw_locked c b) = []) as Hn; [|by rewrite !Hn].
    intros c0 Hc0. assert (forall k, k ∈ scan_raw_locked c0 b -> refs_of b k = []) as Hk.
    { intros k Hk. apply scan_in in Hk; [|done|by apply index_bucket_tree]. apply index_no_refs. by apply (index_key_plain c0 b (kv_pos k) k). }
    rewrite (flat_map_eq (refs_of b) (fun _ => []) _ Hk). generalize (scan_raw_locked c0 b). by induction l.
  - unfold scan_raw_locked. rewrite (tree_keys_same c c' b); [done|apply Hc|apply Hc'|apply Hw|]. intros q. by apply H.
Qed.

Lemma refs_unchanged c c' : buckets_wf c -> buckets_wf c' -> (forall b q, ~ index_tree b -> f_trees c' !! (b, q) = f_trees c !! (b, q)) -> tree_refs (f_trees c') ≡ₚ tree_refs (f_trees c).
Proof.
  intros Hc Hc' H. assert (forall key, refs_at (f_trees c') key = refs_at (f_trees c) key) as Hr.
  { intros [b p]. destruct (decide (b = BTREE_ID_FREESPACE \/ b = BTREE_ID_NEED_DISCARD)) as [Hb|Hb]; [|unfold refs_at; by rewrite H].
    assert (forall c, buckets_wf c -> refs_at (f_trees c) (b, p) = []) as Hn; [|by rewrite !Hn].
    intros c1 Hc1. unfold refs_at. destruct (f_trees c1 !! (b, p)) as [k|] eqn:E; [|done]. apply index_no_refs. by apply (index_key_plain c1 b p k). }
  set (l := elements (dom (f_trees c) ∪ dom (f_trees c'))).
  assert (forall c1, (c1 = c \/ c1 = c') -> forall key, refs_at (f_trees c1) key <> [] -> key ∈ l) as Hl.
  { intros c1 Hc1 key Hk. unfold refs_at in Hk. destruct (f_trees c1 !! key) as [k|] eqn:E; [|done]. apply elem_of_elements, elem_of_union. apply elem_of_dom_2 in E. destruct Hc1 as [-> | ->]; tauto. }
  rewrite (tree_refs_over (f_trees c') l), (tree_refs_over (f_trees c) l); [|apply NoDup_elements|by apply Hl; left|apply NoDup_elements|by apply Hl; right].
  by rewrite (flat_map_eq (refs_at (f_trees c')) (refs_at (f_trees c))) by (intros; apply Hr).
Qed.

Lemma repaired_checkable c c' : buckets_wf c -> buckets_wf c' -> same_env c c' -> (forall b q, ~ index_tree b -> f_trees c' !! (b, q) = f_trees c !! (b, q)) -> checkable c -> checkable c'.
Proof.
  intros Hc Hc' He H Hk. assert (forall b, index_tree b \/ ~ index_tree b) as Hdec by (intros b; unfold index_tree; destruct (decide (b = BTREE_ID_FREESPACE)), (decide (b = BTREE_ID_NEED_DISCARD)); tauto).
  assert (~ index_tree 4) as H4 by (intros [|]; done). assert (forall b p k, f_trees c' !! (b, p) = Some k -> f_trees c !! (b, p) = Some k \/ plain_kv k /\ snapshot p = 0 /\ index_tree b) as Hcase.
  { intros b p k E. destruct (Hdec b) as [Hb|Hb]; [right; destruct (index_key_plain c' b p k Hc' Hb E); done|left; by rewrite <- H]. }
  constructor; [apply Hc'| | | | | |rewrite (refs_unchanged c c') by done|rewrite (refs_unchanged c c') by done; apply Hk].
  - constructor.
    + intros p k E. rewrite H in E by done. by apply (dt_alloc _ (ck_derived _ Hk) p).
    + intros b p k Hb E. destruct (Hcase _ _ _ E) as [E'|(Hp & _)]; [by apply (dt_plain _ (ck_derived _ Hk) b p k)|done].
  - intros b p k E. destruct (Hdec b) as [Hb|Hb]; [by apply (bw_keys _ Hc' _ _ _ (index_bucket_tree _ Hb) E)|]. rewrite H in E by done. by apply (ck_pos _ Hk b p k).
  - intros b p k Hb E. assert (~ index_tree b) as Hi by (destruct Hb as [-> | ->]; intros [|]; done). rewrite H in E by done. by apply (ck_flat _ Hk b p k).
  - intros p k E. rewrite H in E by done. by apply (ck_alloc _ Hk p).
  - intros b p k E. destruct (Hcase _ _ _ E) as [E'|(Hp & _)].
    + intros Hr. destruct (ck_extents _ Hk _ _ _ E' Hr) as (H1 & H2 & H3). split; [done|]. split; [done|]. eapply Forall_impl; [exact H3|]. intros r. by apply same_valid.
    + unfold plain_extent, has_refs. rewrite Hp. done.
  - eapply Forall_impl; [exact (ck_refs _ Hk)|]. intros r [H1 H2 H3 H5]. by constructor.
Qed.

Lemma repaired_one c c' : buckets_wf c' -> (forall b q, ~ index_tree b -> f_trees c' !! (b, q) = f_trees c !! (b, q)) -> one_per_slot c -> one_per_slot c'.
Proof.
  intros Hc' H Hone b p q k k' E E' Es. destruct (decide (b = BTREE_ID_FREESPACE \/ b = BTREE_ID_NEED_DISCARD)) as [Hb|Hb].
  - destruct (index_key_plain c' b p k Hc' Hb E) as [_ H1], (index_key_plain c' b q k' Hc' Hb E') as [_ H2]. by apply slot_inj.
  - rewrite H in E, E' by done. by apply (Hone b p q k k').
Qed.

(** What a check without errors says of the buckets and their indexes: of the
    pointers it sees, those of the lowest snapshot of every inode and offset. *)
Record sound (e : engine) : Prop := {
  so_indexes : consistent (e_fs e);
  so_charged : charged (e_fs e) [] (seen_refs (e_fs e));
  so_backpointers : bps_are (e_fs e) (seen_refs (e_fs e));
  so_once : NoDup (map ref_sector (seen_refs (e_fs e)));
  so_guards : verify_guard_invariants e = Ok tt
}.

(** The keys of a scan are in order, so the check of a tree is that of its root. *)
Lemma sorted_in_order ks : Forall (fun k => bpos_wf (kv_pos k)) ks -> StronglySorted (fun k k' => bpos_val (kv_pos k) < bpos_val (kv_pos k')) ks -> out_of_order (map kv_pos ks) = false.
Proof.
  intros Hw Hs. induction Hs as [|k ks Hs IH Hall]; [done|]. apply Forall_cons_1 in Hw as [Hk Hw]. cbn [map out_of_order]. destruct ks as [|k' ks]; [done|].
  apply Forall_cons_1 in Hall as [Hlt _]. pose proof (IH Hw) as E. cbn [map] in E |- *. rewrite E, orb_false_r. apply Forall_cons_1 in Hw as [Hk' _]. rewrite bpos_le_val by done. apply Z.leb_gt. lia.
Qed.

Lemma verify_root roots c b : checkable c -> verify roots c b = match roots c b with
  | None => Some (Err (Transaction (-1)))
  | Some root => ret ← bch2_btree_node_check_topology root; Some (if ret =? 0 then Ok tt else Err (Transaction ret))
  end.
Proof.
  intros Hk. unfold verify. rewrite sorted_in_order; [done| |].
  - apply Forall_forall. intros k H. apply tree_keys_in in H; [|apply Hk]. by apply (ck_pos _ Hk _ _ _ H).
  - apply tree_keys_sorted; [apply Hk|]. apply (ck_pos _ Hk b).
Qed.

(** The topology check of every root says that it is right. *)
Definition roots_pass (roots : fs -> Z -> option topology_node) (c : fs) : Prop :=
  forall b root, 0 <= b < BTREE_ID_NR -> roots c b = Some root -> bch2_btree_node_check_topology root = Some 0.

Lemma live_in roots c b : b ∈ live_btrees roots c <-> 0 <= b < BTREE_ID_NR /\ is_Some (roots c b).
Proof.
  unfold live_btrees. rewrite list_elem_of_In, filter_In, in_map_iff. unfold BTREE_ID_NR. split.
  - intros [(n & <- & Hn) H]. apply in_seq in Hn. change (Z.to_nat 9) with 9%nat in Hn. split; [lia|]. by apply bool_decide_eq_true in H.
  - intros [Hb [root Hr]]. split; [exists (Z.to_nat b); split; [lia|]; apply in_seq; change (Z.to_nat 9) with 9%nat; lia|]. apply bool_decide_eq_true. by exists root.
Qed.

Lemma live_pass roots c rs : checkable c -> mapM (verify roots c) (live_btrees roots c) = Some rs -> Forall (fun r => r = Ok tt) rs <-> roots_pass roots c.
Proof.
  intros Hk Hm. apply mapM_Some in Hm. split.
  - intros Hf b root Hb Hr. assert (b ∈ live_btrees roots c) as Hin by (apply live_in; split; [done|by exists root]). apply list_elem_of_lookup_1 in Hin as [i Hi].
    destruct (Forall2_lookup_l _ _ _ _ _ Hm Hi) as (r & Hri & E). rewrite verify_root, Hr in E by done.
    rewrite Forall_lookup in Hf. rewrite (Hf i r Hri) in E. destruct (bch2_btree_node_check_topology root) as [ret|]; cbn [mbind option_bind] in E; [|done]. destruct (Z.eqb_spec ret 0) as [Hz|Hz]; [by rewrite Hz|done].
  - intros Hp. apply Forall_lookup. intros i r Hri. destruct (Forall2_lookup_r _ _ _ _ _ Hm Hri) as (b & Hi & E). apply list_elem_of_lookup_2, live_in in Hi as [Hb [root Hr]].
    rewrite verify_root, Hr in E by done. rewrite (Hp b root Hb Hr) in E. cbn in E. by injection E as <-.
Qed.

Lemma pass_verified roots c : checkable c -> roots_pass roots c -> is_Some (mapM (verify roots c) (live_btrees roots c)).
Proof.
  intros Hk Hp. assert (forall l, (forall b, b ∈ l -> b ∈ live_btrees roots c) -> is_Some (mapM (verify roots c) l)) as H; [|by apply H].
  induction l as [|b l IH]; intros Hl; [by exists []|]. cbn [mapM]. destruct (proj1 (live_in roots c b) (Hl b (list_elem_of_here _ _))) as [Hb [root Hr]].
  rewrite verify_root, Hr, (Hp b root Hb Hr) by done. cbn. destruct IH as [rs ->]; [intros b' Hb'; by apply Hl, list_elem_of_further|]. by eexists.
Qed.

Lemma verify_all_sound roots e : buckets_wf (e_fs e) -> checkable (e_fs e) ->
  verify_all roots e = Some (Ok tt) <-> roots_pass roots (e_fs e) /\ sound e.
Proof.
  intros Hc Hk. unfold verify_all. destruct (derived_check_iff _ Hk) as [Hd1 Hd2]. pose proof (check_verdict _ Hk) as Hv.
  destruct (mapM (verify roots (e_fs e)) (live_btrees roots (e_fs e))) as [rs|] eqn:Em; cbn [mbind option_bind].
  2: { split; [done|]. intros [Hp _]. destruct (pass_verified roots _ Hk Hp) as [? E]. by rewrite E in Em. }
  destruct (check_extents_to_backpointers (e_fs e)) as [r|]; [cbn [mbind option_bind]|done]. clear Hv. pose proof (live_pass roots _ rs Hk Em) as Hl.
  assert (forall A (x y : A), Some x = Some y <-> x = y) as Hsome by (intros A x y; split; [by intros [= ->]|by intros ->]). rewrite Hsome in Hd1, Hd2 |- *. rewrite first_error_ok, Forall_app, Hl. split.
  - intros [Hf H]. split; [done|]. apply Forall_cons_1 in H as [H1 H]. apply Forall_cons_1 in H as [H2 H]. apply Forall_cons_1 in H as [H3 _]. destruct (Hd1 H1) as (H4 & H5 & H6).
    constructor; [by apply verify_consistent|done|done|done|done].
  - intros [Hf [H1 H2 H3 H5 H4]]. split; [done|]. apply Forall_cons_2; [|apply Forall_cons_2; [by apply verify_consistent|by apply Forall_cons_2]].
    apply Hd2. split; [done|]. done.
Qed.

(** Guards look at free buckets only. *)
Definition guarded (e : engine) (k : kv) : Prop :=
  is_alloc_key k = true -> data_type (read_alloc (kv_v k)) = BCH_DATA_FREE -> bucket_slot (kv_pos k) ∉ open_buckets e /\ inode (kv_pos k) ∈ rw_devs e.

Lemma check_guards_ok e ks : check_guards e ks = Ok tt <-> Forall (guarded e) ks.
Proof.
  induction ks as [|k ks IH]; cbn [check_guards]; [split; [constructor|done]|]. rewrite Forall_cons, <- IH. unfold guarded.
  destruct (is_alloc_key k); cbn [negb]; [|split; [done|tauto]]. destruct (Z.eqb_spec (data_type (read_alloc (kv_v k))) BCH_DATA_FREE) as [E|E]; cbn [negb]; [|split; [done|tauto]].
  case_bool_decide as H1; [split; [done|intros [H _]; by destruct (H eq_refl E)]|]. case_bool_decide as H2; cbn [negb]; [split; [done|tauto]|]. split; [done|]. intros [H _]. by destruct (H eq_refl E).
Qed.

(** Everything but the indexes of buckets is as it should be. *)
Record sound_data (e : engine) : Prop := {
  sd_charged : charged (e_fs e) [] (seen_refs (e_fs e));
  sd_backpointers : bps_are (e_fs e) (seen_refs (e_fs e));
  sd_once : NoDup (map ref_sector (seen_refs (e_fs e)));
  sd_guards : verify_guard_invariants e = Ok tt
}.

Lemma repaired_data e e' : buckets_wf (e_fs e) -> buckets_wf (e_fs e') -> checkable (e_fs e) -> same_env (e_fs e) (e_fs e') -> same_engine e e' ->
  (forall b q, ~ index_tree b -> f_trees (e_fs e') !! (b, q) = f_trees (e_fs e) !! (b, q)) -> sound_data e -> sound_data e'.
Proof.
  intros Hc Hc' Hck He (_ & _ & Ho & Hr) H [H1 H2 H3 H4]. pose proof (seen_unchanged _ _ Hc Hc' (ck_pos _ Hck) H) as Hp.
  assert (~ index_tree 4 /\ ~ index_tree 8) as [N4 N8] by (split; intros [|]; done).
  constructor; rewrite ?Hp.
  - intros p H0. rewrite (same_sum (e_fs e) (e_fs e')) by done. destruct (H1 p H0) as [Hd Hg].
    assert (aview (e_fs e') [] p = aview (e_fs e) [] p) as -> by (unfold aview, trigger_read_alloc, peek_slot; by rewrite H).
    split; [done|]. intros r Hin Hb. apply Hg; [done|]. by rewrite <- (same_bucket (e_fs e) (e_fs e')).
  - intros p t H0. rewrite <- (H2 p t H0). unfold bp_at. by rewrite H.
  - done.
  - unfold verify_guard_invariants in *. apply check_guards_ok. rewrite (scan_same (e_fs e) (e_fs e') 4); [|intros q; by apply H|done|done|by left].
    apply check_guards_ok in H4. eapply Forall_impl; [exact H4|]. intros k Hk. unfold guarded in *. by rewrite Ho, Hr.
Qed.

(** C18: on trees that the check can read, a check of an image that reports
    success means that they are sound, whatever fault was injected: the indexes
    of buckets are those of the buckets; counters and backpointers are those of
    the pointers the check sees, which are all pointers if no two snapshots have
    a key of one inode and offset; no free bucket is open or on a device that is
    not writable; and the children of every root fill its range without gap or
    overlap, up to the first key that is no pointer to a child.  Without repair
    nothing is changed, with it only the indexes of buckets.  And a repair
    without a hard fault makes an image succeed of which only those indexes are
    wrong. *)
Theorem fsck_success_sound e fix_errors fault evs flush roots : buckets_wf (e_fs e) -> checkable (e_fs e) -> Forall (Forall event_ok) evs ->
  (forall e', fsck_image_with_fault (Ok e) true fix_errors fault evs flush roots = Some (Some e', Ok tt) ->
     sound e' /\ (one_per_slot (e_fs e) -> seen_refs (e_fs e') ≡ₚ tree_refs (f_trees (e_fs e'))) /\
     (forall b root Ls, 0 <= b < BTREE_ID_NR -> roots (e_fs e') b = Some root -> node_ok (tn_node root) Ls -> topology_sound root Ls) /\
     (fix_errors = false -> e' = e) /\ (forall b q, ~ index_tree b -> f_trees (e_fs e') !! (b, q) = f_trees (e_fs e) !! (b, q))) /\
  (enough (e_fs e) evs -> (work (e_fs e) <= length evs)%nat -> fault = None \/ fault = Some DuringRepairRestart -> flush = Ok tt -> (forall c, roots_pass roots c) -> sound_data e ->
     exists e', fsck_image_with_fault (Ok e) true true fault evs flush roots = Some (Some e', Ok tt)).
Proof.
  intros Hc Hk Hev. split.
  - intros e' E. assert (buckets_wf (e_fs e') /\ checkable (e_fs e') /\ verify_all roots e' = Some (Ok tt) /\ (fix_errors = false -> e' = e) /\
      (forall b q, ~ index_tree b -> f_trees (e_fs e') !! (b, q) = f_trees (e_fs e) !! (b, q))) as (Hc' & Hk' & Ev & Hno & Ho).
    { unfold fsck_image_with_fault in E. destruct fix_errors.
      + destruct (repair_derived_indexes true e fault evs) as [[e1 r1]|] eqn:Er; [cbn [mbind option_bind] in E|done]. destruct (repair_ok e fault evs e1 r1 Hc Hev Er) as (Hc1 & He & _ & Ho & _).
        destruct r1 as [[]|]; [|done]. case_bool_decide; [done|]. destruct flush as [[]|]; [|done].
        destruct (verify_all roots e1) as [r|] eqn:Ev; [cbn [mbind option_bind] in E; injection E as <- ->|done]. split; [done|]. split; [by apply (repaired_checkable (e_fs e))|done].
      + cbn [mbind option_bind] in E. destruct (verify_all roots e) as [r|] eqn:Ev; [cbn [mbind option_bind] in E; injection E as <- ->|done]. done. }
    apply verify_all_sound in Ev as [Hf Hs]; [|done|done]. split; [done|]. split; [intros Hone; apply primary_refs; [done|]; by eapply repaired_one|]. split; [|done].
    intros b root Ls Hb Hr Hn. apply check_topology_sound; [done|]. by apply (Hf b).
  - intros Hen Hw Hf -> Hp Hd. unfold fsck_image_with_fault.
    destruct (repair_success e fault evs Hc Hev Hen Hw) as (e' & E); [by destruct Hf as [-> | ->]|]. rewrite E. cbn [mbind option_bind].
    destruct (repair_ok e fault evs e' (Ok tt) Hc Hev E) as (Hc1 & He & Hse & Ho & _ & Hco). rewrite bool_decide_false by (by destruct Hf as [-> | ->]).
    assert (verify_all roots e' = Some (Ok tt)) as ->; [|by eexists]. apply verify_all_sound; [done|by apply (repaired_checkable (e_fs e))|]. split; [apply Hp|].
    destruct (repaired_data e e' Hc Hc1 Hk He Hse Ho Hd) as [H1 H2 H3 H4]. constructor; try done. by apply Hco.
Qed.

(** ** Example *)

(** Two buckets that the index of free buckets lacks. *)
Definition unindexed : engine := mk_engine copies_device [] ∅ ∅ {[0]}.

Lemma unindexed_wf : buckets_wf (e_fs unindexed).
Proof.
  constructor; [apply copies_checkable| |].
  - intros b p k Hb H. revert b p k H Hb. apply (copies_each (fun b p k => bucket_tree b -> snapshot p = 0 /\ bpos_wf p /\ plain_kv k)); [|intros q [-> | ->]| |]; try done. by intros [|[|[|]]].
  - intros p k H. revert H. generalize 4. intros b H. revert b p k H. apply (copies_each (fun _ p k => alloc_key_ok p k)); try done.
    intros q Hq _. split; [done|]. cbn [bucket_key kv_v]. rewrite eight_dirty_reads. split; [apply eight_dirty_wf|]. by destruct Hq as [-> | ->].
Qed.

Lemma two_attempts : Forall (Forall event_ok) [[Refuse (-4); Proceed; Proceed]; [Proceed; Proceed]] /\ enough (e_fs unindexed) [[Refuse (-4); Proceed; Proceed]; [Proceed; Proceed]].
Proof. split; repeat (apply Forall_cons_2 || apply Forall_nil_2); try done; split; repeat (apply Forall_cons_2 || apply Forall_nil_2); try done; by vm_compute. Qed.

Lemma unindexed_work : work (e_fs unindexed) = 2%nat.
Proof. vm_compute. reflexivity. Qed.

Lemma repair_restores_indexes_witness : exists e', repair_derived_indexes true unindexed (Some DuringRepairRestart) [[Refuse (-4); Proceed; Proceed]; [Proceed; Proceed]] = Some (e', Ok tt) /\
  verify_bucket_indexes e' = Ok tt /\ verify_bucket_indexes unindexed = Err (DerivedState FreespaceSet).
Proof.
  destruct (repair_restores_indexes unindexed (Some DuringRepairRestart) [[Refuse (-4); Proceed; Proceed]; [Proceed; Proceed]] unindexed_wf (proj1 two_attempts)) as (H1 & H2 & _).
  destruct (H1 (proj2 two_attempts)) as (e' & E); [rewrite unindexed_work; cbn; lia|discriminate|]. exists e'. split; [exact E|]. split; [apply (H2 e' (Ok tt) E); reflexivity|vm_compute; reflexivity].
Defined.

(** The roots: two children each in trees 0 and 4. *)
Definition some_roots (c : fs) (b : Z) : option topology_node := if (b =? 0) || (b =? 4) then Some two_children else None.

Lemma some_roots_pass c : roots_pass some_roots c.
Proof. intros b root _. unfold some_roots. destruct (_ || _); [|done]. intros [= <-]. exact two_children_pass. Qed.

Lemma fsck_success_sound_witness : exists e', fsck_image_with_fault (Ok unindexed) true true None [[Refuse (-4); Proceed; Proceed]; [Proceed; Proceed]] (Ok tt) some_roots = Some (Some e', Ok tt) /\
  sound e' /\ seen_refs (e_fs e') ≡ₚ tree_refs (f_trees (e_fs e')) /\ topology_sound two_children [[3; 13]].
Proof.
  destruct (fsck_success_sound unindexed true None [[Refuse (-4); Proceed; Proceed]; [Proceed; Proceed]] (Ok tt) some_roots unindexed_wf copies_checkable (proj1 two_attempts)) as [H1 H2].
  destruct (H2 (proj2 two_attempts)) as (e' & E).
  - rewrite unindexed_work. cbn. lia.
  - left. reflexivity.
  - reflexivity.
  - exact some_roots_pass.
  - assert (check_extents_to_backpointers copies_device = Some (Ok tt)) as E by (vm_compute; reflexivity). apply (derived_check_iff _ copies_checkable) in E as (H3 & H4 & H5).
    constructor; [exact H3|exact H4|exact H5|vm_compute; reflexivity].
  - exists e'. split; [exact E|]. destruct (H1 e' E) as (Hs & Hone & Hr & _). split; [exact Hs|]. split; [exact (Hone copies_one)|].
    exact (Hr 0 two_children [[3; 13]] (conj (Z.le_refl 0) eq_refl) eq_refl two_children_ok).
Defined.
