(* ===== verification/Rebuild.v ===== *)
(** * Rebuilding the derived trees ([engine.rs], [btree/update.rs])

    When the journal is replayed no triggers run.  Recovery then throws the
    trees of allocations, of free buckets and of backpointers away, and puts
    them together again from the pointers of all keys; the state of a bucket
    and its generation it keeps from before.  The trees are maps here as in
    [Trans]; every transaction takes what happens to it from a list. *)

From stdpp Require Import base tactics list option gmap sorting.
From Stdlib Require Import ZArith Lia.
From S2P Require Import Superblock Prelude Bpos BkeyPack Extents ExtentKeys AllocKeys Trans TransFacts TransCommit Buckets BucketFacts BucketOps Derived DerivedCheck Fsck.

Open Scope Z_scope.

Inductive RecoveryFaultPoint := AfterJournalReplay | DuringDerivedRebuild | BeforePublication.

#[export] Instance recovery_fault_eq_dec : EqDecision RecoveryFaultPoint.
Proof. solve_decision. Defined.

(** [begin; stage; commit], once more only for memory. *)
Definition commit_once (stage : fs -> option (list btree_insert_entry * Z)) : fs -> list commit_event -> option (fs * Z) :=
  retry_loop stage bch2_trans_commit (fun _ => false).

(** ** The passes *)

Section Passes.
(** What happens to the transactions, one after the other. *)
Context (evs : nat -> list commit_event).

(** A transaction for every element, up to the first error; [n] counts them. *)
Fixpoint commit_each {A} (one : A -> fs -> list commit_event -> option (fs * Z)) (xs : list A) (c : fs) (n : nat) : option (fs * nat * Z) :=
  match xs with
  | [] => Some (c, n, 0)
  | x :: xs => '(c, ret) ← one x c (evs n); if ret =? 0 then commit_each one xs c (S n) else Some (c, S n, ret)
  end.

(** The keys are copied before the first of them is handled. *)
Definition live_tree_keys (c : fs) (btree : Z) : list kv := List.filter (fun k => negb (kv_type k =? KEY_TYPE_deleted)) (tree_keys c btree).

Definition clear_key (btree : Z) (pos : bpos) : fs -> list commit_event -> option (fs * Z) :=
  commit_once (fun c => us ← bch2_btree_delete c [] btree pos; Some (us, 0)).

Definition bch2_clear_derived_tree (c : fs) (btree : Z) (n : nat) : option (fs * nat * Z) :=
  commit_each (clear_key btree) (map kv_pos (live_tree_keys c btree)) c n.

Fixpoint clear_trees (bs : list Z) (c : fs) (n : nat) : option (fs * nat * Z) :=
  match bs with
  | [] => Some (c, n, 0)
  | b :: bs => '(c, n, ret) ← bch2_clear_derived_tree c b n; if ret =? 0 then clear_trees bs c n else Some (c, n, ret)
  end.

(** The key itself is not written again. *)
Definition rebuild_flags : Z := Z.lor BTREE_TRIGGER_transactional BTREE_TRIGGER_insert.

Definition bch2_rebuild_derived_for_key (btree level : Z) (k : kv) (c : fs) (ev : list commit_event) : option (fs * Z) :=
  if negb (kv_type k =? KEY_TYPE_extent) && negb (kv_type k =? KEY_TYPE_btree_ptr) && negb (kv_type k =? KEY_TYPE_btree_ptr_v2) then Some (c, 0)
  else commit_once (fun c => bch2_trigger_extent c [] btree level (deleted_key (kv_pos k)) k rebuild_flags) c ev.

Fixpoint rebuild_trees (bs : list Z) (c : fs) (n : nat) : option (fs * nat * Z) :=
  match bs with
  | [] => Some (c, n, 0)
  | b :: bs =>
      '(c, n, ret) ← commit_each (bch2_rebuild_derived_for_key b 0) (live_tree_keys c b) c n;
      if ret =? 0 then rebuild_trees bs c n else Some (c, n, ret)
  end.

(** ** Buckets *)

Definition add_alloc (m : gmap (Z * Z) bch_alloc_v4) (k : kv) : gmap (Z * Z) bch_alloc_v4 :=
  if is_alloc_key k then <[bucket_slot (kv_pos k) := read_alloc (kv_v k)]> m else m.
Definition allocs (c : fs) : gmap (Z * Z) bch_alloc_v4 := fold_left add_alloc (scan_raw_locked c 4) ∅.

Definition restored (rebuilt : gmap (Z * Z) bch_alloc_v4) (slot : Z * Z) (old : bch_alloc_v4) : bch_alloc_v4 :=
  set_gens (set_data_type (default old (rebuilt !! slot)) (data_type old)) (gen old) (oldest_gen old).

Definition restore_bucket (preserved rebuilt : gmap (Z * Z) bch_alloc_v4) (slot : Z * Z) : fs -> list commit_event -> option (fs * Z) :=
  commit_once (fun c => old ← preserved !! slot; us ← trigger_update_value c [] 4 (POS slot.1 slot.2) KEY_TYPE_alloc_v4 (alloc_words (restored rebuilt slot old)); Some (us, 0)).

Definition free_positions (c : fs) : list (bpos * bch_alloc_v4) :=
  map (fun k => (kv_pos k, read_alloc (kv_v k))) (List.filter (fun k => is_alloc_key k && (data_type (read_alloc (kv_v k)) =? BCH_DATA_FREE)) (scan_raw_locked c 4)).

Definition index_bucket (x : bpos * bch_alloc_v4) : fs -> list commit_event -> option (fs * Z) :=
  commit_once (fun c => us ← bch2_btree_bit_mod c [] BTREE_ID_FREESPACE (alloc_freespace_pos x.1 x.2) true; Some (us, 0)).

(** ** All of it *)

(** The error of a pass leaves the function. *)
Definition then_pass (r : option (fs * nat * Z)) (go : fs -> nat -> option (fs * result unit)) : option (fs * result unit) :=
  '(c, n, ret) ← r; if ret =? 0 then go c n else Some (c, Err (Transaction ret)).

Definition rebuild_derived_state (superblock : bool) (c : fs) (fault : option RecoveryFaultPoint) : option (fs * result unit) :=
  if negb superblock then Some (c, Ok tt) else
  let preserved := allocs c in
  then_pass (clear_trees [4; BTREE_ID_FREESPACE; 8] c 0) (fun c n =>
  if decide (fault = Some DuringDerivedRebuild) then Some (c, Err (Journal (-4))) else
  then_pass (rebuild_trees primary_trees c n) (fun c n =>
  let rebuilt := allocs c in
  then_pass (commit_each (restore_bucket preserved rebuilt) (slots_in_order (dom preserved)) c n) (fun c n =>
  then_pass (commit_each index_bucket (free_positions c) c n) (fun c _ => Some (c, Ok tt))))).
End Passes.

(** ** Passes of single keys *)

(** Of the events of a transaction one does not ask for memory. *)
Definition tried (ev : list commit_event) : Prop := Forall event_ok ev /\ exists e, e ∈ ev /\ e <> Realloc.

Fixpoint granted (ev : list commit_event) : Prop :=
  match ev with Realloc :: ev => granted ev | Proceed :: _ => True | _ => False end.

Lemma once_attempt stage c ev : tried ev -> exists e, e <> Realloc /\ event_ok e /\ (granted ev -> e = Proceed) /\
  commit_once stage c ev = '(us, ret) ← stage c; if ret =? 0 then bch2_trans_commit c us e else Some (c, ret).
Proof.
  unfold commit_once. intros [Hev Hex]. induction ev as [|e ev IH]; [destruct Hex as (e & He & _); by apply not_elem_of_nil in He|].
  apply Forall_cons_1 in Hev as [He Hev]. destruct (decide (e = Realloc)) as [->|Hne].
  - destruct IH as (e & H); [done| |by exists e]. destruct Hex as (e & [->|Hin]%elem_of_cons & Hne); [done|by exists e].
  - exists e. split; [done|]. split; [done|]. split; [by destruct e|].
    assert (forall r : option (fs * Z), ('(c, ret) ← r; Some (c, ret)) = r) as Hid by (intros [[]|]; done).
    destruct e as [|r| |]; try done; cbn [retry_loop]; destruct (stage c) as [[us ret]|]; try done; cbn [mbind option_bind]; apply Hid.
Qed.

(** What a list of transactions of the keys [ks] leaves. *)
Record passed (c c' : fs) (ks : list (Z * kv)) (ret : Z) : Prop := {
  ps_env : same_env c c';
  ps_wf : trees_wf c';
  ps_other : forall key, (forall b k, (b, k) ∈ ks -> key <> (b, kv_pos k)) -> f_trees c' !! key = f_trees c !! key;
  ps_done : ret = 0 -> forall key, f_trees c' !! key = keys_after (f_trees c) ks key;
  ps_left : restarts_left c' <= restarts_left c
}.

Lemma over_miss ks : forall f key, (forall b k, (b, k) ∈ ks -> key <> (b, kv_pos k)) -> over f ks key = f key.
Proof. intros f key H. destruct (over_cases ks f key) as [E|(b & k & Hin & E & _)]; [done|]. by destruct (H b k Hin). Qed.

Lemma over_hit ks b k : forall f, (b, k) ∈ ks -> exists k', (b, k') ∈ ks /\ kv_pos k' = kv_pos k /\ over f ks (b, kv_pos k) = live k'.
Proof.
  induction ks as [|[b0 k0] ks IH]; intros f Hin; [by apply not_elem_of_nil in Hin|]. cbn [over]. apply elem_of_cons in Hin as [[= <- <-]|Hin].
  - destruct (over_cases ks (fun key => if decide (key = (b, kv_pos k)) then live k else f key) (b, kv_pos k)) as [->|(b' & k' & Hin & E & -> & _)].
    + exists k. split; [apply list_elem_of_here|]. split; [done|]. by rewrite decide_True.
    + injection E as <- E. exists k'. split; [by apply list_elem_of_further|]. by split.
  - destruct (IH (fun key => if decide (key = (b0, kv_pos k0)) then live k0 else f key) Hin) as (k' & H1 & H2 & H3). exists k'. split; [by apply list_elem_of_further|]. by split.
Qed.

Lemma loop_passed c bk c' ret : loop_result c [bk] c' ret -> passed c c' [bk] ret.
Proof.
  intros [H1 H2 H3 H4 H5]. constructor; try done. intros key Hk. destruct (H2 key) as [E|E]; [done|]. rewrite E. by apply over_miss.
Qed.

Lemma passed_cons c c1 c2 bk ks ret : passed c c1 [bk] 0 -> passed c1 c2 ks ret -> passed c c2 (bk :: ks) ret.
Proof.
  intros [H1 H2 H3 H4 H5] [H1' H2' H3' H4' H5']. constructor; [by eapply same_env_trans|done| | |lia].
  - intros key Hk. rewrite H3', H3; [done| |]; intros b k Hin; apply Hk; [apply list_elem_of_singleton in Hin as ->; apply list_elem_of_here|by apply list_elem_of_further].
  - intros H0 key. rewrite (H4' H0). unfold keys_after. destruct bk as [b k]. cbn [over]. apply over_ext. by rewrite (H4 eq_refl).
Qed.

Lemma passed_stop c c1 bk ks ret : ret <> 0 -> passed c c1 [bk] ret -> passed c c1 (bk :: ks) ret.
Proof.
  intros Hne [H1 H2 H3 H4 H5]. constructor; try done. intros key Hk. apply H3. intros b k Hin. apply Hk. apply list_elem_of_singleton in Hin as ->. apply list_elem_of_here.
Qed.

Lemma one_key_ok bk c ev : key_ok bk -> trees_wf c -> plain_at (f_trees c) [bk] -> tried ev ->
  exists c' ret, commit_once (stage_of [bk]) c ev = Some (c', ret) /\ passed c c' [bk] ret /\ (restarts_left c = 0 -> granted ev -> ret = 0).
Proof.
  intros Hk Hc Hp Hev. destruct (once_attempt (stage_of [bk]) c ev Hev) as (e & Hne & He & Hg & ->).
  destruct (attempt_ok _ commit_commits [bk] (Forall_cons_2 _ _ _ Hk (Forall_nil_2 _)) ltac:(cbn; unfold BTREE_ITER_INITIAL; lia) c e Hc Hp He Hne) as (us & c' & ret & -> & E & Hr & _ & Hat).
  cbn [mbind option_bind Z.eqb]. rewrite E. exists c', ret. split; [done|]. split; [by apply loop_passed|]. intros H0 Hgr.
  destruct (at_proceed _ _ _ _ _ Hat (Hg Hgr)) as [H|[_ H]]; [done|]. unfold restarts_left in *. lia.
Qed.

Section Keys.
Context (evs : nat -> list commit_event) (Hevs : forall n, tried (evs n)).

Lemma commit_keys {A} (one : A -> fs -> list commit_event -> option (fs * Z)) (key : A -> Z * kv) xs : forall c n,
  (forall x c ev, x ∈ xs -> one x c ev = commit_once (stage_of [key x]) c ev) -> Forall key_ok (map key xs) -> trees_wf c -> plain_at (f_trees c) (map key xs) ->
  exists c' n' ret, commit_each evs one xs c n = Some (c', n', ret) /\ passed c c' (map key xs) ret /\
    (restarts_left c = 0 -> (forall n, granted (evs n)) -> ret = 0).
Proof.
  induction xs as [|x xs IH]; intros c n Hone Hks Hc Hp; cbn [commit_each map] in *.
  { eexists _, _, _. split; [done|]. split; [|done]. by constructor. }
  apply Forall_cons_1 in Hks as [Hk Hks]. rewrite Hone by apply list_elem_of_here.
  destruct (one_key_ok (key x) c (evs n) Hk Hc) as (c1 & ret & -> & Hr & Hg); [|apply Hevs|].
  { intros b k old Hin. apply Hp. apply list_elem_of_singleton in Hin as ->. apply list_elem_of_here. }
  cbn [mbind option_bind]. destruct (Z.eqb_spec ret 0) as [->|Hne].
  - destruct (IH c1 (S n)) as (c2 & n2 & ret & -> & Hr2 & Hg2).
    + intros y c' ev Hy. by apply Hone, list_elem_of_further.
    + done.
    + apply Hr.
    + intros b k old Hin Ho. rewrite (ps_done _ _ _ _ Hr eq_refl) in Ho. unfold keys_after in Ho. destruct (over_cases [key x] (fun key => f_trees c !! key) (b, kv_pos k)) as [E|(b' & k' & H1 & H2 & E & _)]; rewrite E in Ho.
      * eapply Hp; [by apply list_elem_of_further|done].
      * apply list_elem_of_singleton in H1. unfold live in Ho. destruct (_ =? _); [done|]. injection Ho as <-. rewrite <- H1 in Hk. apply Hk.
    + eexists _, _, _. split; [done|]. split; [by eapply passed_cons|]. intros H0 Hgr. apply Hg2; [|done]. pose proof (ps_left _ _ _ _ Hr). unfold restarts_left in *. lia.
  - eexists _, _, _. split; [done|]. split; [by apply passed_stop|]. intros H0 Hgr. by destruct (Hne (Hg H0 (Hgr n))).
Qed.
End Keys.

(** ** Clearing *)

Lemma stage_one b k c : stage_of [(b, k)] c = us ← bch2_trans_update c [] b k 0; Some (us, 0).
Proof. unfold stage_of. cbn [stage_keys]. by destruct (bch2_trans_update c [] b k 0). Qed.

(** The trees that are cleared have keys without pointers. *)
Definition plain_tree (c : fs) (b : Z) : Prop := forall p k, f_trees c !! (b, p) = Some k -> bpos_wf p /\ plain_kv k.

Record cleared (c c' : fs) (bs : list Z) (ret : Z) : Prop := {
  cl_env : same_env c c';
  cl_wf : trees_wf c';
  cl_other : forall b p, b ∉ bs -> f_trees c' !! (b, p) = f_trees c !! (b, p);
  cl_done : ret = 0 -> forall b p, b ∈ bs -> f_trees c' !! (b, p) = None;
  cl_left : restarts_left c' <= restarts_left c
}.

Section Clear.
Context (evs : nat -> list commit_event) (Hevs : forall n, tried (evs n)).

Lemma clear_tree_ok c b n : trees_wf c -> plain_tree c b -> 0 <= b < BTREE_ID_NR ->
  exists c' n' ret, bch2_clear_derived_tree evs c b n = Some (c', n', ret) /\ cleared c c' [b] ret /\ (restarts_left c = 0 -> (forall n, granted (evs n)) -> ret = 0).
Proof.
  intros Hc Hp Hb. unfold bch2_clear_derived_tree.
  assert (forall p, p ∈ map kv_pos (live_tree_keys c b) <-> is_Some (f_trees c !! (b, p))) as Hin.
  { intros p. unfold live_tree_keys. rewrite list_elem_of_fmap. split.
    - intros (k & -> & Hk). apply list_elem_of_In, filter_In in Hk as [Hk _]. apply list_elem_of_In, tree_keys_in in Hk; [|done]. by exists k.
    - intros [k Hk]. destruct (Hc _ _ _ Hk) as (<- & Ht & _). exists k. split; [done|]. apply list_elem_of_In, filter_In. split; [by apply list_elem_of_In, tree_keys_in|].
      by apply negb_true_iff, Z.eqb_neq. }
  set (ps := map kv_pos (live_tree_keys c b)) in *.
  assert (forall b' k, (b', k) ∈ map (fun p => (b, deleted_key p)) ps -> b' = b /\ exists p, p ∈ ps /\ k = deleted_key p) as Hks.
  { intros b' k Hk. apply list_elem_of_fmap in Hk as (p & [= -> ->] & Hk). split; [done|]. by exists p. }
  destruct (commit_keys evs Hevs (clear_key b) (fun p => (b, deleted_key p)) ps c n) as (c' & n' & ret & -> & Hr & Hg); [| |done| |].
  - intros p c1 ev _. apply retry_loop_ext. intros c2. by rewrite stage_one.
  - apply Forall_forall. intros [b' k] Hk. destruct (Hks _ _ Hk) as (-> & p & Hpin & ->). apply Hin in Hpin as [k' Hk']. split; [split; [done|]; by apply (Hp _ _ Hk')|]. split; [apply deleted_wf|done].
  - intros b' k old Hk Ho. destruct (Hks _ _ Hk) as (-> & p & _ & ->). by apply (Hp _ _ Ho).
  - eexists _, _, _. split; [done|]. split; [|done]. destruct Hr as [H1 H2 H3 H4 H5]. constructor; try done.
    + intros b' p Hb'. apply H3. intros b1 k Hk [= -> ->]. apply Hb'. destruct (Hks _ _ Hk) as [-> _]. apply list_elem_of_here.
    + intros H0 b' p Hb'. apply list_elem_of_singleton in Hb' as ->. rewrite (H4 H0). destruct (decide (p ∈ ps)) as [Hi|Hn].
      * destruct (over_hit (map (fun p => (b, deleted_key p)) ps) b (deleted_key p) (fun key => f_trees c !! key)) as (k' & Hk' & _ & E); [by apply list_elem_of_fmap_2 with (f := fun p => (b, deleted_key p))|].
        unfold keys_after. change (kv_pos (deleted_key p)) with p in E. rewrite E. destruct (Hks _ _ Hk') as (_ & q & _ & ->). done.
      * unfold keys_after. rewrite over_miss.
        -- destruct (f_trees c !! (b, p)) eqn:E; [|done]. exfalso. apply Hn, Hin. by rewrite E.
        -- intros b1 k Hk [= -> ->]. destruct (Hks _ _ Hk) as (_ & q & Hq & ->). done.
Qed.

Lemma clear_trees_ok bs : forall c n, trees_wf c -> (forall b, b ∈ bs -> plain_tree c b /\ 0 <= b < BTREE_ID_NR) -> NoDup bs ->
  exists c' n' ret, clear_trees evs bs c n = Some (c', n', ret) /\ cleared c c' bs ret /\ (restarts_left c = 0 -> (forall n, granted (evs n)) -> ret = 0).
Proof.
  induction bs as [|b bs IH]; intros c n Hc Hbs Hn; cbn [clear_trees].
  { eexists _, _, _. split; [done|]. split; [|done]. constructor; try done. intros _ b p Hb. by apply not_elem_of_nil in Hb. }
  apply list.NoDup_cons in Hn as [Hb Hn]. destruct (Hbs b (list_elem_of_here _ _)) as [Hp Hr].
  destruct (clear_tree_ok c b n Hc Hp Hr) as (c1 & n1 & ret & -> & [H1 H2 H3 H4 H5] & Hg). cbn [mbind option_bind]. destruct (Z.eqb_spec ret 0) as [->|Hne].
  - destruct (IH c1 n1) as (c2 & n2 & ret & -> & [H1' H2' H3' H4' H5'] & Hg2); [done| |done|].
    { intros b' Hb'. destruct (Hbs b' (list_elem_of_further _ _ _ Hb')) as [Hp' Hr']. split; [|done]. intros p k Hk. apply Hp'. rewrite <- H3; [done|]. intros ->%list_elem_of_singleton. done. }
    eexists _, _, _. split; [done|]. split.
    + constructor; [by eapply same_env_trans|done| | |lia].
      * intros b' p Hb'. apply not_elem_of_cons in Hb' as [Hb1 Hb2]. rewrite H3' by done. apply H3. by intros ->%list_elem_of_singleton.
      * intros H0 b' p Hb'. destruct (decide (b' ∈ bs)) as [Hi|Hni]; [by apply H4'|]. apply elem_of_cons in Hb' as [->|]; [|done]. rewrite H3' by done. by apply H4, list_elem_of_here.
    + intros H0 Hgr. apply Hg2; [|done]. unfold restarts_left in *. lia.
  - eexists _, _, _. split; [done|]. split; [|by intros H0 Hgr; destruct (Hne (Hg H0 Hgr))]. constructor; try done. intros b' p Hb'. apply not_elem_of_cons in Hb' as [Hb1 Hb2]. apply H3. by intros ->%list_elem_of_singleton.
Qed.
End Clear.

(** ** What the pointers of a key put *)

Section Pointers.
Context (c : fs) (Hdt : derived_trees c) (Hsizes : forall dev, 0 <= m_bucket_size (sb_member_get c dev)).

(** The buckets of the pointers [l], and their backpointers, are put. *)
Record puts (us us' : list btree_insert_entry) (l : list ref) : Prop := {
  pu_wf : updates_wf c us';
  pu_dflags : dflags us';
  pu_len : (length us' <= length us + 2 * length l)%nat;
  pu_new : forall key e, find_update us' key = Some e -> find_update us key = Some e \/
    exists r, r ∈ l /\ (key = (4, ref_bucket c r) /\ (exists a, e_k e = bucket_key (ref_bucket c r) a) \/ key = (8, ref_sector r) /\ e_k e = bp_key r);
  pu_there : forall r, r ∈ l -> find_update us' (4, ref_bucket c r) <> None;
  pu_kept : forall key, find_update us key <> None -> find_update us' key <> None
}.

Lemma puts_refl us : updates_wf c us -> dflags us -> puts us us [].
Proof. intros H H'. constructor; try done; [cbn; lia|by left|]. intros r Hr. by apply not_elem_of_nil in Hr. Qed.

Lemma puts_trans us us1 us2 l l' : puts us us1 l -> puts us1 us2 l' -> puts us us2 (l ++ l').
Proof.
  intros [H1 H2 H3 H4 H5 H6] [H1' H2' H3' H4' H5' H6']. constructor; try done; [rewrite length_app; lia| | |auto].
  - intros key e He. destruct (H4' key e He) as [He1|(r & Hr & Hc)]; [destruct (H4 key e He1) as [|(r & Hr & Hc)]; [by left|]|];
      right; exists r; (split; [apply elem_of_app; tauto|done]).
  - intros r [Hr|Hr]%elem_of_app; [by apply H6', H5|by apply H5'].
Qed.

Lemma pointer_puts us r b k us' : updates_wf c us -> dflags us -> ref_ok c r -> ref_valid c r -> ref_in b k r -> (length us + 2 <= BTREE_ITER_INITIAL)%nat ->
  one_pointer c b k true us (r_ptr r) = Some (us', 0, false) -> puts us us' [r].
Proof.
  intros Hw Hd Hr Hv Hin Hl. unfold one_pointer. unfold ref_valid in Hv. rewrite Hv. cbn [mbind option_bind]. rewrite !Z.ltb_irrefl. unfold trigger_pointer_derived. cbv zeta.
  change (BCH_EXTENT_PTR_DEV (r_ptr r)) with (ref_dev r). change (BCH_EXTENT_PTR_GEN (r_ptr r)) with (ref_gen r).
  change (POS (ref_dev r) (BCH_EXTENT_PTR_OFFSET (r_ptr r) / m_bucket_size (sb_member_get c (ref_dev r)))) with (ref_bucket c r).
  change (POS (ref_dev r) (BCH_EXTENT_PTR_OFFSET (r_ptr r))) with (ref_sector r). generalize (trigger_read_alloc c us (ref_bucket c r)). intros a.
  rewrite (proj2 (assert_true (negb (m_bucket_size (sb_member_get c (ref_dev r)) =? 0)))) by (apply negb_true_iff, Z.eqb_neq, valid_bucket_size; done).
  cbn [mbind option_bind andb Z.eqb negb]. destruct Hin as (Eb & Ep & El). rewrite <- El.
  destruct (negb (gen a =? 0) && _); [done|]. destruct (uadd 32 _ (r_len r)) as [value|]; [|done].
  set (a' := set_dirty_sectors _ _). unfold trigger_update_value. change (value_key (ref_bucket c r) KEY_TYPE_alloc_v4 (alloc_words a')) with (Some (bucket_key (ref_bucket c r) a')).
  rewrite El, (ref_in_bp b k r) by done. cbn [mbind option_bind].
  destruct (derived_put c Hdt us 4 (bucket_key (ref_bucket c r) a')) as (us1 & -> & G1 & F1); [by left|done|done|lia|split; [done|by apply bucket_wf]|by constructor|done|done|]. cbn [mbind option_bind].
  destruct (derived_put c Hdt us1 8 (bp_key r)) as (us2 & -> & G2 & F2); [by right|apply G1|apply G1|pose proof (g_len _ _ _ _ G1); lia|split; [done|by eapply sector_wf]|by constructor|done|done|]. cbn [mbind option_bind].
  intros [= <-]. change (kv_pos (bucket_key (ref_bucket c r) a')) with (ref_bucket c r) in F1. change (kv_pos (bp_key r)) with (ref_sector r) in F2. constructor.
  - apply G2.
  - apply G2.
  - pose proof (g_len _ _ _ _ G1). pose proof (g_len _ _ _ _ G2). cbn. lia.
  - intros key e. rewrite F2, F1. case_decide as E2; [|case_decide as E1; [|by left]]; intros [= <-]; right; exists r; (split; [apply list_elem_of_here|]); [by right|]. left. split; [done|]. by exists a'.
  - intros r' ->%list_elem_of_singleton. rewrite F2, F1. rewrite decide_False by (by intros [= ?]). by rewrite decide_True.
  - intros key Hk. rewrite F2, F1. by repeat case_decide.
Qed.

Lemma fold_puts b k l : forall us us', updates_wf c us -> dflags us -> Forall (ref_ok c) l -> Forall (ref_valid c) l -> Forall (ref_in b k) l ->
  (length us + 2 * length l <= BTREE_ITER_INITIAL)%nat -> ptr_fold c b k true (map r_ptr l) us = Some (us', 0) -> puts us us' l.
Proof.
  induction l as [|r l IH]; intros us us' Hw Hd Hok Hv Hin Hl; cbn [map ptr_fold length] in *; [intros [= <-]; by apply puts_refl|].
  apply Forall_cons_1 in Hok as [Hr Hok], Hv as [Hvr Hv], Hin as [Hir Hin].
  destruct (one_pointer c b k true us (r_ptr r)) as [[[us1 r1] stop]|] eqn:E; [|done]. cbn [mbind option_bind]. destruct stop.
  { intros [= -> ->]. unfold one_pointer in E. unfold ref_valid in Hvr. rewrite Hvr in E. cbn [mbind option_bind] in E. rewrite !Z.ltb_irrefl in E.
    destruct (trigger_pointer_derived _ _ _ _ _ _ _) as [[us2 r2]|]; [|done]. cbn [mbind option_bind] in E. by injection E as -> ->. }
  pose proof (one_pointer_ret _ _ _ _ _ _ _ _ E) as ->. pose proof (pointer_puts us r b k us1 Hw Hd Hr Hvr Hir ltac:(lia) E) as P1. intros Ef.
  change (r :: l) with ([r] ++ l). eapply puts_trans; [exact P1|]. apply IH; try done; [apply P1|apply P1|]. pose proof (pu_len _ _ _ P1). cbn in *. lia.
Qed.
End Pointers.

Lemma same_ok c c' r : ref_ok c r -> ref_ok c' r.
Proof. by intros []. Qed.

(** Behind the commit the trees are what the transaction has seen. *)
Lemma exact_after c c' U us refs : exact c U us refs -> (forall e, e ∈ us -> e_btree_id e = 4 -> is_alloc (e_k e) = true) -> same_env c c' ->
  (forall key, f_trees c' !! key = after (f_trees c) us key) -> exact c' U [] refs.
Proof.
  intros [H1 H2 H3 [H4 H4'] H5 _] Hal Henv Hkeys. assert (forall p, aview c' [] p = aview c us p) as Ha by (intros p; by apply aview_after).
  assert (forall p, bview c' [] p = bview c us p) as Hb by (intros p; apply Hkeys). constructor.
  - split; constructor.
  - intros p. rewrite Ha. apply H2.
  - intros p Hp. rewrite Ha, (same_sum c c') by done. destruct (H3 p Hp) as [Hd Hg]. split; [done|]. intros r Hr. rewrite (same_bucket c c') by done. by apply Hg.
  - split; [intros r; rewrite Hb; apply H4|intros p k; rewrite Hb; apply H4'].
  - eapply Forall_impl; [exact H5|]. intros r. by apply same_valid.
  - intros p. by left.
Qed.

(** ** The pass over all keys *)

(** What recovery can put together again: trees in range, extents that can be
    read, with at most 32 pointers. *)
Record rebuildable (c : fs) : Prop := {
  rb_buckets : buckets_wf c;
  rb_range : forall b p k, f_trees c !! (b, p) = Some k -> key_in_range (b, p);
  rb_extents : forall b p k, f_trees c !! (b, p) = Some k -> has_refs k = true -> words_fit k /\ (length (refs_of b k) <= 32)%nat;
  rb_refs : Forall (ref_ok c) (tree_refs (f_trees c));
  rb_once : NoDup (map ref_sector (tree_refs (f_trees c)));
  rb_unmixed : unmixed c (tree_refs (f_trees c));
  rb_online : length (f_devs_online c) = 4%nat;
  rb_sizes : forall dev, 0 <= m_bucket_size (sb_member_get c dev)
}.

(** Pointers that contradict nothing. *)
Definition plausible (c : fs) : Prop := let U := tree_refs (f_trees c) in
  Forall (ref_valid c) U /\ (forall r r', r ∈ U -> r' ∈ U -> ref_bucket c r = ref_bucket c r' -> ref_gen r = ref_gen r') /\ (forall p, sum_at c p U < 2 ^ 32).

Lemma late_trees b : 0 <= b < BTREE_ID_NR -> 8 <= btree_trigger_order b -> bucket_tree b.
Proof.
  unfold BTREE_ID_NR, bucket_tree, btree_trigger_order, BTREE_ID_NEED_DISCARD, BTREE_ID_FREESPACE. destruct (Z.eqb_spec b 4); [by left|]. destruct (Z.eqb_spec b 6); [by right; right; left|]. intros. right. right. right. lia.
Qed.

Lemma rebuildable_derived c : rebuildable c -> derived_trees c.
Proof.
  intros H. constructor.
  - intros p k Hk Ha. apply (bw_alloc _ (rb_buckets _ H) _ _ Hk). unfold is_alloc in Ha. by apply andb_true_iff in Ha as [Ha _].
  - intros b p k Hb Hk. destruct (rb_range _ H _ _ _ Hk) as [Hr _]. by apply (bw_keys _ (rb_buckets _ H) _ _ _ (late_trees _ Hr Hb) Hk).
Qed.

Section Rebuilding.
Context (c : fs) (Hc : rebuildable c).
Notation U := (tree_refs (f_trees c)).

(** What holds whether or not a transaction succeeds. *)
Record kept (c1 c2 : fs) : Prop := {
  kp_env : same_env c1 c2;
  kp_wf : trees_wf c2;
  kp_other : forall b p, ~ derived_tree b -> f_trees c2 !! (b, p) = f_trees c1 !! (b, p);
  kp_left : restarts_left c2 <= restarts_left c1
}.

(** The derived trees are those of [refs]. *)
Record halfway (c' : fs) (refs : list ref) : Prop := {
  hw_kept : kept c c';
  hw_exact : exact c' U [] refs;
  hw_alloc : forall p k, f_trees c' !! (4, p) = Some k -> exists r a, r ∈ refs /\ ref_bucket c r = p /\ k = bucket_key p a;
  hw_there : forall r, r ∈ refs -> is_Some (f_trees c' !! (4, ref_bucket c r));
  hw_bp : forall p k, f_trees c' !! (8, p) = Some k -> exists r, r ∈ refs /\ ref_sector r = p /\ k = bp_key r
}.

Lemma kept_refl c1 : trees_wf c1 -> kept c1 c1.
Proof. intros H. by constructor. Qed.

Lemma kept_trans c1 c2 c3 : kept c1 c2 -> kept c2 c3 -> kept c1 c3.
Proof. intros [H1 H2 H3 H4] [H1' H2' H3' H4']. constructor; [by eapply same_env_trans|done| |lia]. intros b p Hb. by rewrite H3', H3. Qed.

Lemma halfway_derived c' refs : halfway c' refs -> derived_trees c'.
Proof.
  intros H. constructor.
  - intros p k Hk Ha. pose proof (ex_alloc _ _ _ _ (hw_exact _ _ H) p) as Hw. unfold aview, trigger_read_alloc in Hw. cbn [trigger_staged_key] in Hw. unfold peek_slot in Hw. rewrite Hk in Hw. cbn [default from_option id] in Hw. by rewrite Ha in Hw.
  - intros b p k Hb Hk. destruct (decide (b = 4)) as [->|H4]; [by destruct (hw_alloc _ _ H _ _ Hk) as (r & a & _ & _ & ->)|].
    destruct (decide (b = 8)) as [->|H8]; [by destruct (hw_bp _ _ H _ _ Hk) as (r & _ & _ & ->)|].
    rewrite (kp_other _ _ (hw_kept _ _ H)) in Hk by (by intros [|]). by apply (dt_plain _ (rebuildable_derived _ Hc) _ _ _ Hb Hk).
Qed.

Lemma halfway_admissible c' refs : halfway c' refs -> refs ⊆+ U -> plausible c -> admissible c' U.
Proof.
  intros H Hs (H1 & H2 & H3). pose proof (kp_env _ _ (hw_kept _ _ H)) as He. split; [|split; [|split]].
  - intros r Hr. apply (same_valid c c'); [done|]. by apply (proj1 (Forall_forall _ _) H1).
  - intros r r' Hr Hr'. rewrite !(same_bucket c c') by done. by apply H2.
  - intros r Hr. rewrite (same_bucket c c') by done. destruct (f_trees c' !! (4, ref_bucket c r)) as [k|] eqn:E.
    + right. destruct (hw_alloc _ _ H _ _ E) as (r' & a & Hr' & Eb & _). destruct (ex_charged _ _ _ _ (hw_exact _ _ H) (ref_bucket c r) (bucket_snapshot _ _)) as [_ Hg].
      rewrite (Hg r' Hr') by (by rewrite (same_bucket c c')). apply H2; [|done|done]. by eapply elem_of_submseteq.
    + left. unfold aview, trigger_read_alloc. cbn [trigger_staged_key]. unfold peek_slot. by rewrite E.
  - intros p. rewrite (same_sum c c') by done. apply H3.
Qed.

(** The updates of a transaction that only puts pointers. *)
Lemma puts_keys c' us l : derived_trees c' -> puts c' [] us l -> leaf_keys_ok us /\ (forall e, e ∈ us -> derived_tree (e_btree_id e) /\ (e_btree_id e = 4 -> is_alloc (e_k e) = true)).
Proof.
  intros Hd Hp. pose proof (pu_wf _ _ _ _ Hp) as [Hw Hs].
  assert (forall e, e ∈ us -> exists r, r ∈ l /\ (ekey e = (4, ref_bucket c' r) /\ (exists a, e_k e = bucket_key (ref_bucket c' r) a) \/ ekey e = (8, ref_sector r) /\ e_k e = bp_key r)) as H.
  { intros e He. destruct (pu_new _ _ _ _ Hp (ekey e) e (find_update_sorted us e Hs He)) as [?|H]; [done|exact H]. }
  assert (forall e, e ∈ us -> derived_tree (e_btree_id e)) as Ht.
  { intros e He. destruct (H e He) as (r & _ & [[[= E _] _]|[[= E _] _]]); rewrite E; [by left|by right]. }
  split.
  - apply Forall_forall. intros e He. assert (kv_wf (e_k e) /\ plain_kv (e_k e)) as [H1 H2].
    { destruct (H e He) as (r & _ & [[_ [a ->]]|[_ ->]]); (split; [by constructor|done]). }
    split; [done|]. split; [|done]. pose proof (proj1 (Forall_forall _ _) Hw e He) as Hwe. rewrite (u_old _ _ Hwe). unfold peek_slot.
    destruct (f_trees c' !! _) as [k|] eqn:E; [|done]. cbn. eapply (dt_plain _ Hd); [|exact E]. by apply derived_order, Ht.
  - intros e He. split; [by apply Ht|]. intros E4. destruct (H e He) as (r & _ & [[_ [a ->]]|[[= E _] _]]); [done|congruence].
Qed.

(** The trees behind it, if it succeeds or not. *)
Lemma puts_commit c' us l ev c2 ret : trees_wf c' -> derived_trees c' -> puts c' [] us l -> attempt_result c' us ev c2 ret -> kept c' c2.
Proof.
  intros Hw Hd Hp Hat. destruct (puts_keys c' us l Hd Hp) as [Hk Ht]. constructor; [apply Hat| | |apply Hat].
  - intros b p k Hk'. destruct (at_keys _ _ _ _ _ Hat (b, p)) as [E|E]; rewrite E in Hk'; [by apply (Hw b)|]. unfold after in Hk'.
    destruct (find_update us (b, p)) as [e|] eqn:Ef; [|by apply (Hw b)]. apply find_update_Some in Ef as [He Hke]. unfold live in Hk'. destruct (Z.eqb_spec (kv_type (e_k e)) KEY_TYPE_deleted); [done|].
    injection Hk' as <-. injection Hke as _ <-. split; [done|]. split; [done|]. by apply (proj1 (Forall_forall _ _) Hk e He).
  - intros b p Hb. destruct (at_keys _ _ _ _ _ Hat (b, p)) as [E|E]; rewrite E; [done|]. unfold after. destruct (find_update us (b, p)) as [e|] eqn:Ef; [|done].
    apply find_update_Some in Ef as [He [= <- _]]. by destruct (Ht e He).
Qed.

Lemma puts_halfway c' refs us l c2 : halfway c' refs -> puts c' [] us l -> exact c' U us (l ++ refs) -> kept c' c2 ->
  (forall key, f_trees c2 !! key = after (f_trees c') us key) -> halfway c2 (l ++ refs).
Proof.
  intros H Hp Hex Hk Hkeys. destruct (puts_keys c' us l (halfway_derived _ _ H) Hp) as [_ Ht]. pose proof (kp_env _ _ (hw_kept _ _ H)) as He.
  assert (forall key, find_update us key = None -> f_trees c2 !! key = f_trees c' !! key) as Hold by (intros key E; rewrite Hkeys; unfold after; by rewrite E).
  assert (forall r, ref_bucket c' r = ref_bucket c r) as Hb by (intros r; by apply same_bucket). constructor.
  - eapply kept_trans; [apply H|done].
  - eapply exact_after; [exact Hex| |apply Hk|done]. intros e He'. by apply Ht.
  - intros p k E. rewrite Hkeys in E. unfold after in E. destruct (find_update us (4, p)) as [e|] eqn:Ef.
    + destruct (pu_new _ _ _ _ Hp _ _ Ef) as [?|(r & Hr & [[[= Ep] [a Ea]]|[[= ?] _]])]; [done|]. rewrite Ea, Hb in E. rewrite Hb in Ep. injection E as <-. exists r, a. split; [apply elem_of_app; by left|]. by rewrite Ep.
    + destruct (hw_alloc _ _ H _ _ E) as (r & a & Hr & Hrest). exists r, a. split; [apply elem_of_app; by right|done].
  - intros r [Hr|Hr]%elem_of_app.
    + rewrite Hkeys. pose proof (pu_there _ _ _ _ Hp r Hr) as Hn. rewrite Hb in Hn. unfold after. destruct (find_update us (4, ref_bucket c r)) as [e|] eqn:Ef; [|done].
      destruct (pu_new _ _ _ _ Hp _ _ Ef) as [?|(r' & _ & [[_ [a Ea]]|[[= ?] _]])]; [done|]. rewrite Ea. by eexists.
    + destruct (find_update us (4, ref_bucket c r)) as [e|] eqn:Ef; [|rewrite Hold by done; by apply (hw_there _ _ H)].
      rewrite Hkeys. unfold after. rewrite Ef. destruct (pu_new _ _ _ _ Hp _ _ Ef) as [?|(r' & _ & [[_ [a Ea]]|[[= ?] _]])]; [done|]. rewrite Ea. by eexists.
  - intros p k E. rewrite Hkeys in E. unfold after in E. destruct (find_update us (8, p)) as [e|] eqn:Ef.
    + destruct (pu_new _ _ _ _ Hp _ _ Ef) as [?|(r & Hr & [[[= ?] _]|[[= Ep] Ek]])]; [done|]. rewrite Ek in E. injection E as <-. exists r. split; [apply elem_of_app; by left|]. by split.
    + destruct (hw_bp _ _ H _ _ E) as (r & Hr & Hrest). exists r. split; [apply elem_of_app; by right|done].
Qed.

(** One key. *)
Lemma rebuild_key_ok c' refs b k ev : halfway c' refs -> f_trees c !! (b, kv_pos k) = Some k -> refs_of b k ++ refs ⊆+ U -> tried ev ->
  exists c2 ret, bch2_rebuild_derived_for_key b 0 k c' ev = Some (c2, ret) /\ kept c' c2 /\ (ret = 0 -> halfway c2 (refs_of b k ++ refs)) /\
    (restarts_left c' = 0 -> granted ev -> plausible c -> ret = 0).
Proof.
  intros H Hk Hs Hev. pose proof (kp_env _ _ (hw_kept _ _ H)) as He. pose proof (halfway_derived _ _ H) as Hd. pose proof (kp_wf _ _ (hw_kept _ _ H)) as Hw.
  unfold bch2_rebuild_derived_for_key. assert (negb (kv_type k =? KEY_TYPE_extent) && negb (kv_type k =? KEY_TYPE_btree_ptr) && negb (kv_type k =? KEY_TYPE_btree_ptr_v2) = negb (has_refs k)) as ->.
  { unfold has_refs, key_trigger_kind. destruct (Z.eqb_spec (kv_type k) KEY_TYPE_snapshot) as [->|_]; [done|].
    destruct (kv_type k =? KEY_TYPE_extent), (kv_type k =? KEY_TYPE_btree_ptr), (kv_type k =? KEY_TYPE_btree_ptr_v2); done. }
  destruct (has_refs k) eqn:Er; cbn [negb].
  2: { eexists _, _. split; [done|]. split; [by apply kept_refl|]. split; [|done]. intros _. unfold refs_of. by rewrite Er. }
  destruct (rb_extents _ Hc _ _ _ Hk Er) as [Hfit H32]. destruct (bw_trees _ (rb_buckets _ Hc) _ _ _ Hk) as (_ & Htype & _).
  assert (Forall (ref_ok c') U) as HU by (eapply Forall_impl; [apply (rb_refs _ Hc)|]; intros r; apply same_ok).
  assert (Forall (ref_ok c') (refs_of b k ++ refs)) as Hok by (apply Forall_forall; intros r Hr; apply (proj1 (Forall_forall _ _) HU); by eapply elem_of_submseteq).
  assert (Hmix : forall r r', r ∈ U -> r' ∈ U -> ref_bucket c' r = ref_bucket c' r' -> ref_gen r' = 0 -> ref_gen r = 0).
  { intros r r' Hr Hr'. rewrite !(same_bucket c c') by done. by apply (rb_unmixed _ Hc). }
  assert (Hon : length (f_devs_online c') = 4%nat) by (destruct He as (_ & _ & -> & _); apply (rb_online _ Hc)).
  assert (Hsz : forall dev, 0 <= m_bucket_size (sb_member_get c' dev)) by (intros dev; rewrite (same_member c c') by done; apply (rb_sizes _ Hc)).
  assert (fits c' b k refs) as Hfits.
  { split; [done|]. pose proof (rb_once _ Hc) as Hn. apply submseteq_Permutation in Hs as [l Hl]. rewrite Hl, map_app in Hn. by apply list.NoDup_app in Hn as [Hn _]. }
  destruct (once_attempt (fun c => bch2_trigger_extent c [] b 0 (deleted_key (kv_pos k)) k rebuild_flags) c' ev Hev) as (e & Hne & Hev' & Hg & ->).
  destruct (insert_key c' Hd U HU Hmix Hon Hsz [] b k refs) as (us & ret & Eins & Hcase); [constructor|apply H|done|left; by split|done|done|cbn [length]; unfold BTREE_ITER_INITIAL; lia|].
  assert (exists us ret, bch2_trigger_extent c' [] b 0 (deleted_key (kv_pos k)) k rebuild_flags = Some (us, ret) /\
    (ret <> 0 /\ ~ admissible c' U \/ ret = 0 /\ puts c' [] us (refs_of b k) /\ exact c' U us (refs_of b k ++ refs))) as (us1 & ret1 & -> & Hst).
  { unfold bch2_trigger_extent. case_bool_decide as Ew.
    - exists [], 0. split; [done|]. right. split; [done|]. rewrite (no_words_no_refs b k) by done. split; [apply puts_refl; [split; constructor|constructor]|apply H].
    - change (has_flag rebuild_flags BTREE_TRIGGER_transactional) with true. change (negb (kv_type (deleted_key (kv_pos k)) =? KEY_TYPE_deleted)) with false. cbv iota. cbn [mbind option_bind Z.eqb negb].
      exists us, ret. split; [done|]. destruct Hcase as [Hcase|(-> & G & Hex)]; [by left|]. right. split; [done|]. split; [|done].
      rewrite (proj2 (Z.eqb_neq _ _) Htype) in Eins. cbn [negb] in Eins. rewrite fold_pointers in Eins by done.
      eapply fold_puts; [done|done|split; constructor|constructor|by apply Forall_app in Hok as [? _]|pose proof (ex_valid _ _ _ _ Hex) as Hv; by apply Forall_app in Hv as [? _]|apply refs_all_in|cbn [length]; unfold BTREE_ITER_INITIAL; lia|exact Eins]. }
  cbn [mbind option_bind]. destruct Hst as [[Hn Hna]|(-> & Hp & Hex)].
  { rewrite (proj2 (Z.eqb_neq _ _) Hn). eexists _, _. split; [done|]. split; [by apply kept_refl|]. split; [done|]. intros _ _ Hpl. exfalso. apply Hna.
    eapply halfway_admissible; [exact H| |done]. etransitivity; [|exact Hs]. by apply submseteq_inserts_l. }
  cbn [Z.eqb]. destruct (puts_keys c' us1 _ Hd Hp) as [Hlk _]. pose proof (pu_len _ _ _ _ Hp) as Hlen. cbn [length] in Hlen.
  destruct (commit_commits c' us1 e Hw (pu_wf _ _ _ _ Hp) Hlk ltac:(unfold BTREE_ITER_INITIAL; lia) Hev' Hne) as (c2 & ret2 & -> & Hat).
  eexists _, _. split; [done|]. assert (kept c' c2) as Hkept by (by eapply puts_commit). split; [done|]. split.
  - intros H0. eapply puts_halfway; [done|done|done|done|]. by apply (at_done _ _ _ _ _ Hat).
  - intros H0 Hgr _. destruct (at_proceed _ _ _ _ _ Hat (Hg Hgr)) as [E|[_ E]]; [done|]. unfold restarts_left in *. lia.
Qed.

Lemma halfway_perm c' refs refs' : refs ≡ₚ refs' -> halfway c' refs -> halfway c' refs'.
Proof.
  intros Hp [H1 H2 H3 H4 H5]. constructor; [done|by eapply exact_perm| | |].
  - intros p k E. destruct (H3 p k E) as (r & a & Hr & H). exists r, a. by rewrite <- Hp.
  - intros r Hr. apply H4. by rewrite Hp.
  - intros p k E. destruct (H5 p k E) as (r & Hr & H). exists r. by rewrite <- Hp.
Qed.

Context (evs : nat -> list commit_event) (Hevs : forall n, tried (evs n)).

Lemma rebuild_keys_ok b ks : forall c' refs n, halfway c' refs -> (forall k, k ∈ ks -> f_trees c !! (b, kv_pos k) = Some k) -> flat_map (refs_of b) ks ++ refs ⊆+ U ->
  exists c2 n' ret, commit_each evs (bch2_rebuild_derived_for_key b 0) ks c' n = Some (c2, n', ret) /\ kept c' c2 /\
    (ret = 0 -> halfway c2 (flat_map (refs_of b) ks ++ refs)) /\ (restarts_left c' = 0 -> (forall n, granted (evs n)) -> plausible c -> ret = 0).
Proof.
  induction ks as [|k ks IH]; intros c' refs n H Hks Hs; cbn [commit_each flat_map] in *.
  { eexists _, _, _. split; [done|]. split; [|done]. apply kept_refl, (kp_wf _ _ (hw_kept _ _ H)). }
  assert (refs_of b k ++ refs ⊆+ U) as Hs1.
  { etransitivity; [|exact Hs]. rewrite <- app_assoc. apply submseteq_skips_l, submseteq_inserts_l. done. }
  destruct (rebuild_key_ok c' refs b k (evs n) H) as (c1 & ret & -> & Hk & Hd & Hg); [apply Hks, list_elem_of_here|done|apply Hevs|]. cbn [mbind option_bind].
  destruct (Z.eqb_spec ret 0) as [->|Hne].
  - assert (flat_map (refs_of b) ks ++ refs_of b k ++ refs ≡ₚ (refs_of b k ++ flat_map (refs_of b) ks) ++ refs) as Hperm by (by rewrite app_assoc, (Permutation_app_comm (flat_map _ ks))).
    destruct (IH c1 (refs_of b k ++ refs) (S n) (Hd eq_refl)) as (c2 & n2 & ret & -> & Hk2 & Hd2 & Hg2); [intros k' Hk'; by apply Hks, list_elem_of_further|by rewrite Hperm|].
    eexists _, _, _. split; [done|]. split; [by eapply kept_trans|]. split; [intros H0; eapply halfway_perm; [exact Hperm|auto]|].
    intros H0 Hgr Hpl. apply Hg2; [|done|done]. pose proof (kp_left _ _ Hk). unfold restarts_left in *. lia.
  - eexists _, _, _. split; [done|]. split; [done|]. split; [done|]. intros H0 Hgr Hpl. by destruct (Hne (Hg H0 (Hgr n) Hpl)).
Qed.

(** The pointers of one tree. *)
Definition tree_part (c : fs) (b : Z) : list ref := flat_map (refs_of b) (live_tree_keys c b).

Lemma live_keys_in c' b k : trees_wf c' -> k ∈ live_tree_keys c' b <-> f_trees c' !! (b, kv_pos k) = Some k.
Proof.
  intros Hw. unfold live_tree_keys. rewrite list_elem_of_In, filter_In, <- list_elem_of_In, tree_keys_in by done. split; [tauto|]. intros E. split; [done|].
  destruct (Hw _ _ _ E) as (_ & Ht & _). by apply negb_true_iff, Z.eqb_neq.
Qed.

Lemma filter_NoDup {A} (f : A -> bool) l : NoDup l -> NoDup (List.filter f l).
Proof.
  induction 1 as [|x l Hx Hn IH]; cbn [List.filter]; [constructor|]. destruct (f x); [|done]. constructor; [|done].
  intros Hin. apply Hx. apply list_elem_of_In, filter_In in Hin as [Hin _]. by apply list_elem_of_In.
Qed.

Lemma live_keys_NoDup c' b : trees_wf c' -> NoDup (live_tree_keys c' b).
Proof. intros Hw. by apply filter_NoDup, tree_keys_NoDup. Qed.

Lemma part_kept c' b : kept c c' -> ~ derived_tree b -> tree_part c' b ≡ₚ tree_part c b.
Proof.
  intros Hk Hb. apply Permutation_flat_map. apply NoDup_Permutation; [apply live_keys_NoDup, Hk|apply live_keys_NoDup, (rb_buckets _ Hc)|].
  intros k. rewrite (live_keys_in c') by apply Hk. rewrite (live_keys_in c) by apply (rb_buckets _ Hc). by rewrite (kp_other _ _ Hk).
Qed.

Lemma rebuild_trees_ok bs : forall c' refs n, halfway c' refs -> (forall b, b ∈ bs -> ~ derived_tree b) -> flat_map (tree_part c) bs ++ refs ⊆+ U ->
  exists c2 n' ret, rebuild_trees evs bs c' n = Some (c2, n', ret) /\ kept c' c2 /\
    (ret = 0 -> halfway c2 (flat_map (tree_part c) bs ++ refs)) /\ (restarts_left c' = 0 -> (forall n, granted (evs n)) -> plausible c -> ret = 0).
Proof.
  induction bs as [|b bs IH]; intros c' refs n H Hbs Hs; cbn [rebuild_trees flat_map] in *.
  { eexists _, _, _. split; [done|]. split; [|done]. apply kept_refl, (kp_wf _ _ (hw_kept _ _ H)). }
  pose proof (hw_kept _ _ H) as Hk0. pose proof (Hbs b (list_elem_of_here _ _)) as Hb. pose proof (part_kept c' b Hk0 Hb) as Hpart.
  assert (flat_map (refs_of b) (live_tree_keys c' b) ++ refs ⊆+ U) as Hs1.
  { fold (tree_part c' b). rewrite Hpart. etransitivity; [|exact Hs]. rewrite <- app_assoc. apply submseteq_skips_l, submseteq_inserts_l. done. }
  destruct (rebuild_keys_ok b (live_tree_keys c' b) c' refs n H) as (c1 & n1 & ret & -> & Hk & Hd & Hg).
  { intros k Hk. apply live_keys_in in Hk; [|apply Hk0]. by rewrite <- (kp_other _ _ Hk0). }
  { done. }
  cbn [mbind option_bind]. destruct (Z.eqb_spec ret 0) as [->|Hne].
  - specialize (Hd eq_refl). fold (tree_part c' b) in Hd. assert (tree_part c' b ++ refs ≡ₚ tree_part c b ++ refs) as Hperm1 by (by rewrite Hpart). pose proof (halfway_perm _ _ _ Hperm1 Hd) as Hd1.
    assert (flat_map (tree_part c) bs ++ tree_part c b ++ refs ≡ₚ (tree_part c b ++ flat_map (tree_part c) bs) ++ refs) as Hperm by (by rewrite app_assoc, (Permutation_app_comm (flat_map _ bs))).
    destruct (IH c1 (tree_part c b ++ refs) n1 Hd1) as (c2 & n2 & ret & -> & Hk2 & Hd2 & Hg2); [intros b' Hb'; by apply Hbs, list_elem_of_further|by rewrite Hperm|].
    eexists _, _, _. split; [done|]. split; [by eapply kept_trans|]. split; [intros H0; eapply halfway_perm; [exact Hperm|auto]|].
    intros H0 Hgr Hpl. apply Hg2; [|done|done]. pose proof (kp_left _ _ Hk). unfold restarts_left in *. lia.
  - eexists _, _, _. split; [done|]. split; [done|]. split; [done|]. intros H0 Hgr Hpl. by destruct (Hne (Hg H0 Hgr Hpl)).
Qed.

(** All trees together have all pointers. *)
Lemma all_parts : flat_map (tree_part c) primary_trees ≡ₚ U.
Proof.
  pose proof (bw_trees _ (rb_buckets _ Hc)) as Hw.
  set (L := flat_map (fun b => map (fun k => (b, kv_pos k)) (live_tree_keys c b)) primary_trees).
  assert (flat_map (tree_part c) primary_trees = flat_map (refs_at (f_trees c)) L) as ->.
  { unfold L. generalize primary_trees. induction l as [|b l IH]; [done|]. cbn [flat_map]. rewrite IH, flat_map_app. f_equal. unfold tree_part.
    assert (forall ks, (forall k, k ∈ ks -> f_trees c !! (b, kv_pos k) = Some k) -> flat_map (refs_of b) ks = flat_map (refs_at (f_trees c)) (map (fun k => (b, kv_pos k)) ks)) as ->; [|done|].
    - induction ks as [|k ks IHk]; intros Hks; [done|]. cbn [map flat_map]. rewrite IHk by (intros k' Hk'; by apply Hks, list_elem_of_further). f_equal. unfold refs_at. by rewrite (Hks k (list_elem_of_here _ _)).
    - intros k Hk. by apply live_keys_in in Hk. }
  symmetry. apply tree_refs_over.
  - apply NoDup_flat_map; [apply (bool_decide_unpack _); by vm_compute| |].
    + intros b _. apply NoDup_fmap_2_strong; [|by apply live_keys_NoDup]. intros k k' H H' [= E]. apply live_keys_in in H, H'; try done. rewrite E, H' in H. by injection H as ->.
    + intros b b' key _ _ H H'. apply list_elem_of_fmap in H as (? & -> & _), H' as (? & [= <- _] & _). done.
  - intros [b p] Hr. unfold refs_at in Hr. destruct (f_trees c !! (b, p)) as [k|] eqn:E; [|done]. cbn [fst] in Hr. destruct (Hw _ _ _ E) as (Ep & _).
    apply list_elem_of_In, in_flat_map. exists b. rewrite <- !list_elem_of_In. split.
    + destruct (rb_range _ Hc _ _ _ E) as [Hb _]. cbn in Hb. unfold primary_trees. apply list_elem_of_In, filter_In. split.
      * apply in_map_iff. exists (Z.to_nat b). split; [lia|]. apply in_seq. unfold BTREE_ID_NR in *. lia.
      * apply andb_true_iff. rewrite !negb_true_iff, !Z.eqb_neq. assert (~ bucket_tree b); [|unfold bucket_tree in *; tauto].
        intros Hbt. apply Hr. apply plain_refs. by apply (bw_keys _ (rb_buckets _ Hc) _ _ _ Hbt E).
    + apply list_elem_of_fmap. exists k. rewrite Ep. split; [done|]. apply live_keys_in; [done|]. by rewrite Ep.
Qed.

Lemma empty_halfway : (forall p, f_trees c !! (4, p) = None) -> (forall p, f_trees c !! (8, p) = None) -> halfway c [].
Proof.
  intros H4 H8. assert (forall p, aview c [] p = alloc_default) as Ha.
  { intros p. unfold aview, trigger_read_alloc. cbn [trigger_staged_key]. unfold peek_slot. by rewrite H4. }
  constructor.
  - apply kept_refl, (rb_buckets _ Hc).
  - constructor; [split; constructor| | | |constructor|by left].
    + intros p. rewrite Ha. by vm_compute.
    + intros p _. rewrite Ha. split; [done|]. intros r Hr. by apply not_elem_of_nil in Hr.
    + split; [intros r Hr; by apply not_elem_of_nil in Hr|]. intros p k _ Hk. unfold bview in Hk. change (after (f_trees c) [] (8, p)) with (f_trees c !! (8, p)) in Hk. by rewrite H8 in Hk.
  - intros p k. by rewrite H4.
  - intros r Hr. by apply not_elem_of_nil in Hr.
  - intros p k. by rewrite H8.
Qed.

Lemma rebuild_pass n : (forall p, f_trees c !! (4, p) = None) -> (forall p, f_trees c !! (8, p) = None) ->
  exists c2 n' ret, rebuild_trees evs primary_trees c n = Some (c2, n', ret) /\ kept c c2 /\
    (ret = 0 -> halfway c2 U) /\ (restarts_left c = 0 -> (forall n, granted (evs n)) -> plausible c -> ret = 0).
Proof.
  intros H4 H8. destruct (rebuild_trees_ok primary_trees c [] n (empty_halfway H4 H8)) as (c2 & n' & ret & E & Hk & Hd & Hg).
  - intros b Hb. unfold primary_trees in Hb. apply list_elem_of_In, filter_In in Hb as [_ Hb]. apply andb_true_iff in Hb as [H1%negb_true_iff%Z.eqb_neq H2%negb_true_iff%Z.eqb_neq]. by intros [|].
  - rewrite app_nil_r. by rewrite all_parts.
  - exists c2, n', ret. split; [done|]. split; [done|]. split; [|done]. intros H0. eapply halfway_perm; [|by apply Hd]. rewrite app_nil_r. apply all_parts.
Qed.
End Rebuilding.

(** ** The trees of buckets as maps *)

Lemma slots_NoDup c b : buckets_wf c -> bucket_tree b -> NoDup (map (fun k => bucket_slot (kv_pos k)) (scan_raw_locked c b)).
Proof.
  intros Hc Hb. rewrite scan_all by done. apply NoDup_fmap_2_strong; [|by apply tree_keys_NoDup, Hc].
  intros k k' H H' E. apply tree_keys_in in H, H'; try apply Hc. destruct (bw_keys _ Hc _ _ _ Hb H) as (H0 & _), (bw_keys _ Hc _ _ _ Hb H') as (H0' & _).
  pose proof (slot_inj _ _ H0 H0' E) as Ep. rewrite Ep, H' in H. by injection H as ->.
Qed.

(** What was kept of the buckets, and what is there again. *)
Lemma allocs_at c s : buckets_wf c -> allocs c !! s = alloc_at c (POS s.1 s.2).
Proof.
  intros Hc. apply option_eq. intros a. unfold allocs.
  rewrite (fold_select (fun k => if is_alloc_key k then Some (read_alloc (kv_v k)) else None)); [|by intros m k; unfold add_alloc; destruct (is_alloc_key k)|apply slots_NoDup; [done|by left]|intros; apply lookup_empty].
  rewrite alloc_at_key. split.
  - intros [H|(k & Hk & Es & E)]; [by rewrite lookup_empty in H|]. apply scan_in in Hk; [|done|by left]. destruct (bw_keys _ Hc 4 _ _ (or_introl eq_refl) Hk) as (H0 & _).
    assert (kv_pos k = POS s.1 s.2) as Ep by (apply slot_inj; [done|done|by rewrite Es; destruct s]). exists k. rewrite <- Ep. split; [done|]. destruct (is_alloc_key k); [by injection E|done].
  - intros (k & Hk & Ha & <-). right. exists k. destruct (bw_trees _ Hc _ _ _ Hk) as (Ep & _). split; [apply scan_in; [done|by left|by rewrite Ep]|]. rewrite Ep, Ha. by destruct s.
Qed.

Lemma alloc_at_slot c p : buckets_wf c -> snapshot p = 0 -> allocs c !! bucket_slot p = alloc_at c p.
Proof. intros Hc H0. rewrite allocs_at by done. f_equal. by destruct p; cbn in *; subst. Qed.

Lemma restored_wf R s old : alloc_wf old -> (forall a, R !! s = Some a -> alloc_wf a) -> alloc_wf (restored R s old).
Proof.
  intros Ho HR. unfold restored. assert (alloc_wf (default old (R !! s))) as H by (destruct (R !! s) eqn:E; [by apply HR|done]).
  unfold alloc_wf in *. destruct (default old (R !! s)), old. cbn in *. tauto.
Qed.

Lemma bucket_key_at c p a : alloc_wf a -> f_trees c !! (4, p) = Some (bucket_key p a) -> alloc_at c p = Some a.
Proof.
  intros Ha E. unfold alloc_at. rewrite E. change (is_alloc_key (bucket_key p a)) with true. cbv iota. cbn [kv_v bucket_key]. f_equal. rewrite <- (app_nil_r (alloc_words a)). by apply read_alloc_words.
Qed.

(** Buckets stay well formed when keys of the trees of buckets are put. *)
Definition put_ok (bk : Z * kv) : Prop :=
  bucket_tree bk.1 /\ snapshot (kv_pos bk.2) = 0 /\ bpos_wf (kv_pos bk.2) /\ plain_kv bk.2 /\ (bk.1 = 4 -> alloc_key_ok (kv_pos bk.2) bk.2).

Lemma passed_buckets c c' ks : buckets_wf c -> Forall put_ok ks -> passed c c' ks 0 -> buckets_wf c'.
Proof.
  intros Hc Hks Hp. assert (forall key, f_trees c' !! key = f_trees c !! key \/ exists b k, (b, k) ∈ ks /\ key = (b, kv_pos k) /\ f_trees c' !! key = live k) as Hcase.
  { intros key. rewrite (ps_done _ _ _ _ Hp eq_refl). unfold keys_after. destruct (over_cases ks (fun key => f_trees c !! key) key) as [E|(b & k & H1 & H2 & H3 & _)]; [by left|right]. by exists b, k. }
  constructor; [apply Hp| |].
  - intros b p k Hb E. destruct (Hcase (b, p)) as [E'|(b' & k' & Hin & [= -> ->] & E')]; rewrite E' in E; [by apply (bw_keys _ Hc b)|].
    unfold live in E. destruct (_ =? _); [done|]. injection E as <-. destruct (proj1 (Forall_forall _ _) Hks _ Hin) as (_ & H1 & H2 & H3 & _). done.
  - intros p k E. destruct (Hcase (4, p)) as [E'|(b' & k' & Hin & [= <- ->] & E')]; rewrite E' in E; [by apply (bw_alloc _ Hc)|].
    unfold live in E. destruct (_ =? _); [done|]. injection E as <-. destruct (proj1 (Forall_forall _ _) Hks _ Hin) as (_ & _ & _ & _ & H). by apply H.
Qed.

(** ** Restoring the buckets *)

Section Restore.
Context (evs : nat -> list commit_event) (Hevs : forall n, tried (evs n)).
Context (c c2 : fs) (Hc : buckets_wf c) (Hc2 : buckets_wf c2).
Notation P := (allocs c).
Notation R := (allocs c2).

Definition restored_key (s : Z * Z) : Z * kv := (4, bucket_key (POS s.1 s.2) (restored R s (default alloc_default (P !! s)))).

Lemma preserved_ok s old : P !! s = Some old -> bpos_wf (POS s.1 s.2) /\ 0 <= s.2 < 2 ^ 56 /\ alloc_wf (restored R s old).
Proof.
  intros H. rewrite allocs_at in H by done. destruct (alloc_at_wf _ _ _ Hc H) as (_ & Hw & Ha & Ho). split; [done|]. split; [done|]. apply restored_wf; [done|].
  intros a Ea. rewrite allocs_at in Ea by done. by destruct (alloc_at_wf _ _ _ Hc2 Ea) as (_ & _ & Hwa & _).
Qed.

Lemma restored_put s : s ∈ dom P -> put_ok (restored_key s).
Proof.
  intros [old Ho]%elem_of_dom. destruct (preserved_ok s old Ho) as (H1 & H2 & H3). unfold restored_key. rewrite Ho. split; [by left|]. split; [done|]. split; [done|]. split; [done|].
  intros _ _. split; [done|]. split; [|cbn; lia]. cbn [kv_v bucket_key snd default id]. rewrite <- (app_nil_r (alloc_words _)). by rewrite read_alloc_words.
Qed.

Lemma restore_pass n : exists c3 n' ret, commit_each evs (restore_bucket P R) (slots_in_order (dom P)) c2 n = Some (c3, n', ret) /\
  passed c2 c3 (map restored_key (slots_in_order (dom P))) ret /\ (restarts_left c2 = 0 -> (forall n, granted (evs n)) -> ret = 0).
Proof.
  apply (commit_keys evs Hevs (restore_bucket P R) restored_key).
  - intros s c' ev Hs. apply slots_in_order_in, elem_of_dom in Hs as [old Ho]. apply retry_loop_ext. intros c1. unfold restored_key. rewrite Ho, stage_one. cbn [default id mbind option_bind].
    unfold trigger_update_value. change (value_key (POS s.1 s.2) KEY_TYPE_alloc_v4 (alloc_words (restored R s old))) with (Some (bucket_key (POS s.1 s.2) (restored R s old))). done.
  - apply Forall_forall. intros bk Hbk. apply list_elem_of_fmap in Hbk as (s & -> & Hs). apply slots_in_order_in in Hs. destruct (restored_put s Hs) as (_ & _ & H2 & H3 & _).
    split; [split; [done|exact H2]|]. split; [by constructor|done].
  - apply Hc2.
  - intros b k old Hin E. apply list_elem_of_fmap in Hin as (s & [= -> ->] & Hs). by apply (bw_keys _ Hc2 4 _ _ (or_introl eq_refl) E).
Qed.

Lemma restored_buckets c3 : passed c2 c3 (map restored_key (slots_in_order (dom P))) 0 ->
  buckets_wf c3 /\ (forall b p, b <> 4 -> f_trees c3 !! (b, p) = f_trees c2 !! (b, p)) /\
  (forall p, alloc_at c3 p = match alloc_at c p with Some old => Some (restored R (bucket_slot p) old) | None => alloc_at c2 p end).
Proof.
  intros Hp. set (ks := map restored_key (slots_in_order (dom P))) in *.
  assert (forall b k, (b, k) ∈ ks -> exists s, s ∈ dom P /\ b = 4 /\ (b, k) = restored_key s) as Hks.
  { intros b k Hin. apply list_elem_of_fmap in Hin as (s & E & Hs). exists s. split; [by apply slots_in_order_in|]. split; [by injection E|done]. }
  assert (buckets_wf c3) as Hc3.
  { eapply passed_buckets; [exact Hc2| |exact Hp]. apply Forall_forall. intros [b k] Hin. destruct (Hks b k Hin) as (s & Hs & _ & ->). by apply restored_put. }
  split; [done|]. split.
  - intros b p Hb. apply (ps_other _ _ _ _ Hp). intros b' k Hin [= -> ->]. by destruct (Hks b' k Hin) as (_ & _ & -> & _).
  - intros p. destruct (alloc_at c p) as [old|] eqn:E.
    + destruct (alloc_at_wf _ _ _ Hc E) as (H0 & _). rewrite <- (alloc_at_slot c p) in E by done. destruct (preserved_ok _ _ E) as (_ & _ & Hwf). apply bucket_key_at; [done|].
      assert (restored_key (bucket_slot p) = (4, bucket_key p (restored R (bucket_slot p) old))) as Ek by (unfold restored_key; rewrite E; cbn [default id]; do 2 f_equal; by apply pos_slot).
      assert ((4, bucket_key p (restored R (bucket_slot p) old)) ∈ ks) as Hin.
      { rewrite <- Ek. apply list_elem_of_fmap_2 with (f := restored_key). apply slots_in_order_in, elem_of_dom. by exists old. }
      rewrite (ps_done _ _ _ _ Hp eq_refl). unfold keys_after. destruct (over_hit ks 4 _ (fun key => f_trees c2 !! key) Hin) as (k' & Hin' & Epos & Eo). change (kv_pos (bucket_key p (restored R (bucket_slot p) old))) with p in Eo, Epos.
      rewrite Eo. destruct (Hks _ _ Hin') as (s & Hs & _ & Es). injection Es as Es. rewrite Es in Epos. change (POS s.1 s.2 = p) in Epos.
      assert (s = bucket_slot p) as -> by (rewrite <- Epos; by destruct s). rewrite Es. change (bucket_key (POS (bucket_slot p).1 (bucket_slot p).2) (restored R (bucket_slot p) (default alloc_default (P !! bucket_slot p)))) with (restored_key (bucket_slot p)).2. by rewrite Ek.
    + unfold alloc_at at 1 2. rewrite (ps_other _ _ _ _ Hp); [done|]. intros b k Hin [= <- ->]. destruct (Hks _ _ Hin) as (s & [old Hs]%elem_of_dom & _ & [= ->]).
      change (kv_pos (bucket_key (POS s.1 s.2) (restored R s (default alloc_default (P !! s))))) with (POS s.1 s.2) in E. rewrite allocs_at in Hs by done. congruence.
Qed.
End Restore.

(** ** The index of free buckets *)

Section Index.
Context (evs : nat -> list commit_event) (Hevs : forall n, tried (evs n)).
Context (c : fs) (Hc : buckets_wf c) (Hempty : forall p, f_trees c !! (BTREE_ID_FREESPACE, p) = None).

Definition index_key (x : bpos * bch_alloc_v4) : Z * kv := (BTREE_ID_FREESPACE, bit_key (alloc_freespace_pos x.1 x.2) true).

Lemma free_positions_in p a : (p, a) ∈ free_positions c <-> alloc_at c p = Some a /\ data_type a = BCH_DATA_FREE.
Proof.
  unfold free_positions. rewrite list_elem_of_fmap, alloc_at_key. split.
  - intros (k & [= -> ->] & Hk). apply list_elem_of_In, filter_In in Hk as [Hk [Ha Ht%Z.eqb_eq]%andb_true_iff]. apply list_elem_of_In, scan_in in Hk; [|done|by left]. split; [|done]. by exists k.
  - intros [(k & Hk & Ha & <-) Ht]. destruct (bw_trees _ Hc _ _ _ Hk) as (Ep & _). exists k. split; [by rewrite Ep|]. apply list_elem_of_In, filter_In. split; [|apply andb_true_iff; split; [done|by apply Z.eqb_eq]].
    apply list_elem_of_In, scan_in; [done|by left|by rewrite Ep].
Qed.

Lemma free_position_put x : x ∈ free_positions c -> put_ok (index_key x).
Proof.
  destruct x as [p a]. intros [Ha _]%free_positions_in. destruct (alloc_at_wf _ _ _ Hc Ha) as (H0 & Hw & _ & Ho). destruct (freespace_wf p a Hw (proj2 Ho)) as [H1 H2].
  split; [by right; left|]. split; [cbn [index_key snd fst]; change (snapshot (alloc_freespace_pos p a) = 0); by rewrite H2|]. split; [done|]. by split.
Qed.

Lemma index_pass n : exists c' n' ret, commit_each evs index_bucket (free_positions c) c n = Some (c', n', ret) /\
  passed c c' (map index_key (free_positions c)) ret /\ (restarts_left c = 0 -> (forall n, granted (evs n)) -> ret = 0).
Proof.
  apply (commit_keys evs Hevs index_bucket index_key).
  - intros x c' ev _. apply retry_loop_ext. intros c1. unfold index_key. by rewrite stage_one.
  - apply Forall_forall. intros bk Hbk. apply list_elem_of_fmap in Hbk as (x & -> & Hx). destruct (free_position_put x Hx) as (_ & _ & H2 & _). by apply bit_key_ok; [left|].
  - apply Hc.
  - intros b k old Hin E. apply list_elem_of_fmap in Hin as (x & [= -> ->] & Hx). by rewrite Hempty in E.
Qed.

Lemma index_built c' : passed c c' (map index_key (free_positions c)) 0 ->
  buckets_wf c' /\ (forall b p, b <> BTREE_ID_FREESPACE -> f_trees c' !! (b, p) = f_trees c !! (b, p)) /\
  (forall q, is_set c' BTREE_ID_FREESPACE q <-> exists p a, alloc_at c p = Some a /\ data_type a = BCH_DATA_FREE /\ q = alloc_freespace_pos p a).
Proof.
  intros Hp. set (ks := map index_key (free_positions c)) in *.
  assert (forall b k, (b, k) ∈ ks -> exists p a, alloc_at c p = Some a /\ data_type a = BCH_DATA_FREE /\ b = BTREE_ID_FREESPACE /\ k = bit_key (alloc_freespace_pos p a) true) as Hks.
  { intros b k Hin. apply list_elem_of_fmap in Hin as ([p a] & [= -> ->] & [H1 H2]%free_positions_in). by exists p, a. }
  split; [|split].
  - eapply passed_buckets; [exact Hc| |exact Hp]. apply Forall_forall. intros bk Hin. apply list_elem_of_fmap in Hin as (x & -> & Hx). by apply free_position_put.
  - intros b p Hb. apply (ps_other _ _ _ _ Hp). intros b' k Hin [= -> ->]. by destruct (Hks b' k Hin) as (_ & _ & _ & _ & -> & _).
  - intros q. rewrite is_set_match, (ps_done _ _ _ _ Hp eq_refl). unfold keys_after. split.
    + destruct (over_cases ks (fun key => f_trees c !! key) (BTREE_ID_FREESPACE, q)) as [->|(b & k & Hin & [= <- ->] & -> & _)]; [by rewrite Hempty|]. intros _.
      destruct (Hks _ _ Hin) as (p & a & H1 & H2 & _ & ->). by exists p, a.
    + intros (p & a & H1 & H2 & ->). destruct (over_hit ks BTREE_ID_FREESPACE (bit_key (alloc_freespace_pos p a) true) (fun key => f_trees c !! key)) as (k' & Hin' & _ & E).
      { apply (list_elem_of_fmap_2 index_key _ (p, a)). by apply free_positions_in. }
      change (kv_pos (bit_key (alloc_freespace_pos p a) true)) with (alloc_freespace_pos p a) in E. rewrite E. by destruct (Hks _ _ Hin') as (p' & a' & _ & _ & _ & ->).
Qed.
End Index.

(** ** All passes *)

Lemma rebuild_tree_cases b : b ∈ [4; BTREE_ID_FREESPACE; 8] -> bucket_tree b /\ 0 <= b < BTREE_ID_NR.
Proof. rewrite !elem_of_cons. unfold bucket_tree, BTREE_ID_NR, BTREE_ID_FREESPACE. intros [->|[->|[->|H]]]; [..|by apply not_elem_of_nil in H]; split; auto; lia. Qed.

Lemma cleared_at c c1 b p k : cleared c c1 [4; BTREE_ID_FREESPACE; 8] 0 -> f_trees c1 !! (b, p) = Some k -> b ∉ [4; BTREE_ID_FREESPACE; 8] /\ f_trees c !! (b, p) = Some k.
Proof.
  intros H E. destruct (decide (b ∈ [4; BTREE_ID_FREESPACE; 8])) as [Hb|Hb]; [by rewrite (cl_done _ _ _ _ H eq_refl) in E|]. split; [done|]. by rewrite <- (cl_other _ _ _ _ H).
Qed.

Lemma cleared_refs c c1 : buckets_wf c -> cleared c c1 [4; BTREE_ID_FREESPACE; 8] 0 -> tree_refs (f_trees c1) ≡ₚ tree_refs (f_trees c).
Proof.
  intros Hc H. assert (forall key, refs_at (f_trees c1) key = refs_at (f_trees c) key) as E.
  { intros [b p]. unfold refs_at. destruct (decide (b ∈ [4; BTREE_ID_FREESPACE; 8])) as [Hb|Hb]; [|by rewrite (cl_other _ _ _ _ H)].
    rewrite (cl_done _ _ _ _ H) by done. destruct (f_trees c !! (b, p)) as [k|] eqn:E; [|done]. symmetry. apply plain_refs. by apply (bw_keys _ Hc _ _ _ (proj1 (rebuild_tree_cases b Hb)) E). }
  rewrite (tree_refs_keys (f_trees c)). rewrite (tree_refs_over (f_trees c1) (map fst (map_to_list (f_trees c)))).
  - by rewrite (flat_map_eq (refs_at (f_trees c1)) (refs_at (f_trees c))).
  - apply NoDup_fst_map_to_list.
  - intros key Hk. rewrite E in Hk. unfold refs_at in Hk. destruct (f_trees c !! key) as [k|] eqn:Ek; [|done]. apply list_elem_of_fmap. exists (key, k). split; [done|]. by apply elem_of_map_to_list.
Qed.

Lemma cleared_rebuildable c c1 : rebuildable c -> cleared c c1 [4; BTREE_ID_FREESPACE; 8] 0 -> rebuildable c1.
Proof.
  intros [H1 H2 H3 H4 H5 H6 H7 H8] H. pose proof (cl_env _ _ _ _ H) as He. pose proof (cleared_refs c c1 H1 H) as Hr. constructor.
  - constructor; [apply H| |].
    + intros b p k Hb E. apply (cleared_at c) in E as [_ E]; [|done]. by apply (bw_keys _ H1 b).
    + intros p k E. apply (cleared_at c) in E as [_ E]; [|done]. by apply (bw_alloc _ H1).
  - intros b p k E. apply (cleared_at c) in E as [_ E]; [|done]. by eapply H2.
  - intros b p k E. apply (cleared_at c) in E as [_ E]; [|done]. by eapply H3.
  - rewrite Hr. eapply Forall_impl; [exact H4|]. intros r. apply same_ok.
  - by rewrite Hr.
  - intros r r'. rewrite Hr, !(same_bucket c c1) by done. apply H6.
  - by destruct He as (_ & _ & -> & _).
  - intros dev. by rewrite (same_member c c1).
Qed.

Lemma cleared_plausible c c1 : rebuildable c -> cleared c c1 [4; BTREE_ID_FREESPACE; 8] 0 -> plausible c -> plausible c1.
Proof.
  intros Hc H (H1 & H2 & H3). pose proof (cl_env _ _ _ _ H) as He. pose proof (cleared_refs c c1 (rb_buckets _ Hc) H) as Hr. split; [|split].
  - rewrite Hr. eapply Forall_impl; [exact H1|]. intros r. by apply same_valid.
  - intros r r'. rewrite Hr, !(same_bucket c c1) by done. apply H2.
  - intros p. rewrite (same_sum c c1), (sum_at_perm c p _ _ Hr) by done. apply H3.
Qed.

(** What is there again: pointers have backpointers, and no other sector has;
    buckets with pointers have the sum of their sectors; other buckets, and the
    state and generation of all of them, are as they were; the index has the
    free buckets. *)
Record rebuilt_from (c c' : fs) : Prop := {
  rf_wf : buckets_wf c';
  rf_backpointers : forall p k, f_trees c' !! (8, p) = Some k <-> exists r, r ∈ tree_refs (f_trees c) /\ ref_sector r = p /\ k = bp_key r;
  rf_pointed : forall r, r ∈ tree_refs (f_trees c) -> exists a, alloc_at c' (ref_bucket c r) = Some a /\ dirty_sectors a = sum_at c (ref_bucket c r) (tree_refs (f_trees c)) /\
    (alloc_at c (ref_bucket c r) = None -> gen a = ref_gen r);
  rf_unpointed : forall p, (forall r, r ∈ tree_refs (f_trees c) -> ref_bucket c r <> p) -> alloc_at c' p = alloc_at c p;
  rf_state : forall p old, alloc_at c p = Some old -> exists a, alloc_at c' p = Some a /\ data_type a = data_type old /\ gen a = gen old /\ oldest_gen a = oldest_gen old;
  rf_index : forall q, is_set c' BTREE_ID_FREESPACE q <-> exists p a, alloc_at c' p = Some a /\ data_type a = BCH_DATA_FREE /\ q = alloc_freespace_pos p a
}.

Lemma halfway_buckets c c' refs : rebuildable c -> refs ⊆+ tree_refs (f_trees c) -> halfway c c' refs -> buckets_wf c' /\
  (forall p a, alloc_at c' p = Some a -> exists r, r ∈ refs /\ ref_bucket c r = p) /\
  (forall r, r ∈ refs -> exists a, alloc_at c' (ref_bucket c r) = Some a /\ dirty_sectors a = sum_at c (ref_bucket c r) refs /\ gen a = ref_gen r).
Proof.
  intros Hc Hs H. pose proof (hw_kept _ _ _ H) as Hk. pose proof (kp_env _ _ Hk) as He.
  assert (forall r, r ∈ refs -> ref_ok c r /\ ref_valid c r) as Hok.
  { intros r Hr. split; [apply (proj1 (Forall_forall _ _) (rb_refs _ Hc)); by eapply elem_of_submseteq|]. apply (same_valid c' c); [by destruct He as (?&?&?&?&?)|].
    by apply (proj1 (Forall_forall _ _) (ex_valid _ _ _ _ (hw_exact _ _ _ H))). }
  assert (forall p k, f_trees c' !! (4, p) = Some k -> read_alloc (kv_v k) = aview c' [] p) as Hav.
  { intros p k E. unfold aview, trigger_read_alloc. cbn [trigger_staged_key]. unfold peek_slot. rewrite E. cbn [default from_option id]. by destruct (hw_alloc _ _ _ H p k E) as (r & a & _ & _ & ->). }
  assert (buckets_wf c') as Hw.
  { constructor; [apply Hk| |].
    - intros b p k Hb E. destruct (decide (b = 4)) as [->|H4]; [|destruct (decide (b = 8)) as [->|H8]].
      + destruct (hw_alloc _ _ _ H p k E) as (r & a & Hr & <- & ->). destruct (Hok r Hr) as [H1 H2]. split; [done|]. split; [|done]. apply bucket_wf; [done|done|apply (rb_sizes _ Hc)].
      + destruct (hw_bp _ _ _ H p k E) as (r & Hr & <- & ->). destruct (Hok r Hr) as [H1 H2]. split; [done|]. split; [|done]. by apply (sector_wf c).
      + rewrite (kp_other _ _ Hk) in E by (by intros [|]). by apply (bw_keys _ (rb_buckets _ Hc) b).
    - intros p k E _. rewrite (Hav p k E). split; [by destruct (hw_alloc _ _ _ H p k E) as (r & a & _ & _ & ->)|]. split; [apply (ex_alloc _ _ _ _ (hw_exact _ _ _ H))|].
      destruct (hw_alloc _ _ _ H p k E) as (r & a & Hr & <- & _). destruct (Hok r Hr) as [H1 H2]. destruct (ptr_ranges c r H1) as (_ & Hoff & _). unfold in_range in Hoff.
      unfold ref_bucket, POS. cbn [offset]. pose proof (rb_sizes _ Hc (ref_dev r)). pose proof (valid_bucket_size _ _ H2).
      assert (BCH_EXTENT_PTR_OFFSET (r_ptr r) / m_bucket_size (sb_member_get c (ref_dev r)) <= BCH_EXTENT_PTR_OFFSET (r_ptr r)) by (apply Z.div_le_upper_bound; nia). lia. }
  split; [done|]. split.
  - intros p a Ha. apply alloc_at_key in Ha as (k & E & _). destruct (hw_alloc _ _ _ H p k E) as (r & a' & Hr & Eb & _). by exists r.
  - intros r Hr. destruct (hw_there _ _ _ H r Hr) as [k E]. exists (aview c' [] (ref_bucket c r)). split.
    + apply alloc_at_key. exists k. split; [done|]. split; [by destruct (hw_alloc _ _ _ H _ k E) as (? & ? & _ & _ & ->)|by apply Hav].
    + destruct (ex_charged _ _ _ _ (hw_exact _ _ _ H) (ref_bucket c r) (bucket_snapshot _ _)) as [Hd Hg]. rewrite Hd. split; [by apply same_sum|]. apply Hg; [done|by apply same_bucket].
Qed.

Lemma restored_fields R s old : data_type (restored R s old) = data_type old /\ gen (restored R s old) = gen old /\ oldest_gen (restored R s old) = oldest_gen old /\
  dirty_sectors (restored R s old) = dirty_sectors (default old (R !! s)).
Proof. unfold restored. by destruct (default old (R !! s)), old. Qed.

Lemma restored_none R s old : R !! s = None -> restored R s old = old.
Proof. unfold restored. intros ->. by destruct old. Qed.

Lemma rebuilt_all c c1 c2 c3 c4 : rebuildable c -> cleared c c1 [4; BTREE_ID_FREESPACE; 8] 0 -> halfway c1 c2 (tree_refs (f_trees c1)) ->
  passed c2 c3 (map (restored_key c c2) (slots_in_order (dom (allocs c)))) 0 -> passed c3 c4 (map index_key (free_positions c3)) 0 -> rebuilt_from c c4.
Proof.
  intros Hc H1 H2 H3 H4. pose proof (cleared_rebuildable c c1 Hc H1) as Hc1. pose proof (cleared_refs c c1 (rb_buckets _ Hc) H1) as Hr. pose proof (cl_env _ _ _ _ H1) as He.
  destruct (halfway_buckets c1 c2 _ Hc1 (reflexivity _) H2) as (Hw2 & Ha2 & Hp2).
  destruct (restored_buckets c c2 (rb_buckets _ Hc) Hw2 c3 H3) as (Hw3 & Ho3 & Ha3).
  assert (forall p, f_trees c3 !! (BTREE_ID_FREESPACE, p) = None) as Hempty.
  { intros p. rewrite Ho3, (kp_other _ _ (hw_kept _ _ _ H2)) by (done || by intros [|]). apply (cl_done _ _ _ _ H1 eq_refl). rewrite !elem_of_cons. tauto. }
  destruct (index_built c3 Hw3 Hempty c4 H4) as (Hw4 & Ho4 & Hi4).
  assert (forall p, alloc_at c4 p = alloc_at c3 p) as Ha4 by (intros p; unfold alloc_at; by rewrite Ho4).
  assert (forall r, ref_bucket c1 r = ref_bucket c r) as Hb by (intros r; by apply same_bucket).
  assert (forall r, r ∈ tree_refs (f_trees c) -> exists a, alloc_at c2 (ref_bucket c r) = Some a /\ dirty_sectors a = sum_at c (ref_bucket c r) (tree_refs (f_trees c)) /\ gen a = ref_gen r) as Hp2'.
  { intros r Hin. rewrite <- Hr in Hin. destruct (Hp2 r Hin) as (a & E1 & E2 & E3). rewrite Hb in E1, E2. rewrite (same_sum c c1), (sum_at_perm c _ _ _ Hr) in E2 by done. by exists a. }
  assert (forall p old, alloc_at c p = Some old -> allocs c2 !! bucket_slot p = alloc_at c2 p) as Hslot.
  { intros p old Ho. apply alloc_at_slot; [done|]. by destruct (alloc_at_wf _ _ _ (rb_buckets _ Hc) Ho). }
  constructor.
  - done.
  - intros p k. rewrite Ho4, Ho3 by done. split.
    + intros E. destruct (hw_bp _ _ _ H2 p k E) as (r & Hin & Hs). exists r. by rewrite <- Hr.
    + intros (r & Hin & <- & ->). rewrite <- Hr in Hin. exact (proj1 (ex_pointed _ _ _ _ (hw_exact _ _ _ H2)) r Hin).
  - intros r Hin. rewrite Ha4, Ha3. destruct (Hp2' r Hin) as (a & E1 & E2 & E3). destruct (alloc_at c (ref_bucket c r)) as [old|] eqn:Eo; [|by exists a].
    eexists. split; [done|]. split; [|done]. destruct (restored_fields (allocs c2) (bucket_slot (ref_bucket c r)) old) as (_ & _ & _ & ->). by rewrite (Hslot _ _ Eo), E1.
  - intros p Hno. rewrite Ha4, Ha3. assert (alloc_at c2 p = None) as E2.
    { destruct (alloc_at c2 p) as [a|] eqn:E; [|done]. destruct (Ha2 p a E) as (r & Hin & Ep). rewrite Hr in Hin. rewrite Hb in Ep. by destruct (Hno r Hin). }
    destruct (alloc_at c p) as [old|] eqn:Eo; [|done]. f_equal. apply restored_none. by rewrite (Hslot _ _ Eo).
  - intros p old Eo. rewrite Ha4, Ha3, Eo. eexists. split; [done|]. destruct (restored_fields (allocs c2) (bucket_slot p) old) as (-> & -> & -> & _). done.
  - intros q. rewrite Hi4. by setoid_rewrite Ha4.
Qed.

(** The trees that are not derived from others. *)
Definition untouched (c c' : fs) : Prop := forall b p, b <> 4 -> b <> BTREE_ID_FREESPACE -> b <> 8 -> f_trees c' !! (b, p) = f_trees c !! (b, p).

(** What a run of the passes comes to; [sure] is when it must succeed. *)
Definition comes_to (c : fs) (sure : Prop) (x : option (fs * result unit)) : Prop :=
  exists c' r, x = Some (c', r) /\ same_env c c' /\ untouched c c' /\ (r = Ok tt -> rebuilt_from c c') /\ (sure -> r = Ok tt).

Lemma left_zero c c' : restarts_left c' <= restarts_left c -> restarts_left c = 0 -> restarts_left c' = 0.
Proof. unfold restarts_left. lia. Qed.

Lemma stop_pass c c' (sure : Prop) ret go n : same_env c c' -> untouched c c' -> ret <> 0 -> (sure -> ret = 0) -> comes_to c sure (then_pass (Some (c', n, ret)) go).
Proof.
  intros He Hu Hne Hs. unfold then_pass. cbn [mbind option_bind]. rewrite (proj2 (Z.eqb_neq _ _) Hne). exists c', (Err (Transaction ret)). split_and!; try done. intros H. by destruct (Hne (Hs H)).
Qed.

Section Whole.
Context (evs : nat -> list commit_event) (Hevs : forall n, tried (evs n)) (c : fs) (Hc : rebuildable c).

Lemma last_passes c1 c2 n (sure : Prop) : cleared c c1 [4; BTREE_ID_FREESPACE; 8] 0 -> halfway c1 c2 (tree_refs (f_trees c1)) -> same_env c c2 -> untouched c c2 ->
  (sure -> restarts_left c2 = 0 /\ forall n, granted (evs n)) ->
  comes_to c sure (then_pass (commit_each evs (restore_bucket (allocs c) (allocs c2)) (slots_in_order (dom (allocs c))) c2 n) (fun c n =>
    then_pass (commit_each evs index_bucket (free_positions c) c n) (fun c _ => Some (c, Ok tt)))).
Proof.
  intros H1 H2 He2 Hu2 Hsure. destruct (halfway_buckets c1 c2 _ (cleared_rebuildable c c1 Hc H1) (reflexivity _) H2) as (Hw2 & _).
  destruct (restore_pass evs Hevs c c2 (rb_buckets _ Hc) Hw2 n) as (c3 & n3 & ret3 & -> & H3 & G3).
  assert (forall b p, b <> 4 -> f_trees c3 !! (b, p) = f_trees c2 !! (b, p)) as Ho3.
  { intros b p N4. apply (ps_other _ _ _ _ H3). intros b' k Hin [= -> ->]. apply list_elem_of_fmap in Hin as (s & [= ? _] & _). done. }
  assert (same_env c c3) as He3 by (eapply same_env_trans; [exact He2|apply H3]).
  assert (untouched c c3) as Hu3 by (intros b p N4 N5 N8; rewrite Ho3 by done; by apply Hu2).
  destruct (Z.eq_dec ret3 0) as [->|N3]; [|apply stop_pass; try done; intros Hs; destruct (Hsure Hs); auto].
  unfold then_pass at 1. cbn [mbind option_bind Z.eqb]. destruct (restored_buckets c c2 (rb_buckets _ Hc) Hw2 c3 H3) as (Hw3 & _ & _).
  assert (forall p, f_trees c3 !! (BTREE_ID_FREESPACE, p) = None) as Hempty.
  { intros p. rewrite Ho3, (kp_other _ _ (hw_kept _ _ _ H2)) by (done || by intros [|]). apply (cl_done _ _ _ _ H1 eq_refl). rewrite !elem_of_cons. tauto. }
  destruct (index_pass evs Hevs c3 Hw3 Hempty n3) as (c4 & n4 & ret4 & -> & H4 & G4). assert (same_env c c4) as He4 by (eapply same_env_trans; [exact He3|apply H4]).
  assert (untouched c c4) as Hu4.
  { intros b p N4 N5 N8. rewrite (ps_other _ _ _ _ H4); [by apply Hu3|]. intros b' k Hin [= -> ->]. by apply list_elem_of_fmap in Hin as (s & [= ? _] & _). }
  destruct (Z.eq_dec ret4 0) as [->|N4].
  - exists c4, (Ok tt). split_and!; try done. intros _. by eapply rebuilt_all.
  - apply stop_pass; try done. intros Hs. destruct (Hsure Hs) as [HL HG]. apply G4; [|done]. by apply (left_zero c2); [apply (ps_left _ _ _ _ H3)|].
Qed.

Lemma all_passes fault : comes_to c (fault <> Some DuringDerivedRebuild /\ restarts_left c = 0 /\ (forall n, granted (evs n)) /\ plausible c) (rebuild_derived_state evs true c fault).
Proof.
  unfold rebuild_derived_state. cbn [negb].
  destruct (clear_trees_ok evs Hevs [4; BTREE_ID_FREESPACE; 8] c 0) as (c1 & n1 & ret1 & -> & H1 & G1); [apply (rb_buckets _ Hc)| |apply (bool_decide_unpack _); by vm_compute|].
  { intros b Hb. destruct (rebuild_tree_cases b Hb) as [Ht Hr]. split; [|done]. intros p k E. by destruct (bw_keys _ (rb_buckets _ Hc) b p k Ht E) as (_ & ? & ?). }
  pose proof (cl_env _ _ _ _ H1) as He1. assert (untouched c c1) as Hu1.
  { intros b p N4 N5 N8. apply (cl_other _ _ _ _ H1). rewrite !elem_of_cons. intros [|[|[|H]]]; try done. by apply not_elem_of_nil in H. }
  destruct (Z.eq_dec ret1 0) as [->|N1]; [|apply stop_pass; try done; intros (_ & HL & HG & _); auto].
  unfold then_pass at 1. cbn [mbind option_bind Z.eqb]. case_decide as Hf; [exists c1, (Err (Journal (-4))); split_and!; try done; by intros []|].
  pose proof (cleared_rebuildable c c1 Hc H1) as Hc1. pose proof (cl_left _ _ _ _ H1) as L1.
  destruct (rebuild_pass c1 Hc1 evs Hevs n1) as (c2 & n2 & ret2 & -> & K2 & H2 & G2); [intros p; apply (cl_done _ _ _ _ H1 eq_refl); rewrite !elem_of_cons; tauto..|].
  assert (same_env c c2) as He2 by (eapply same_env_trans; [exact He1|apply K2]).
  assert (untouched c c2) as Hu2 by (intros b p N4 N5 N8; rewrite (kp_other _ _ K2) by (by intros [|]); by apply Hu1).
  destruct (Z.eq_dec ret2 0) as [->|N2].
  - unfold then_pass at 1. cbn [mbind option_bind Z.eqb]. eapply last_passes; [done|by apply H2|done|done|]. intros (_ & HL & HG & _). split; [|done].
    eapply left_zero; [apply K2|]. by eapply left_zero.
  - apply stop_pass; try done. intros (_ & HL & HG & Hpl). apply G2; [by eapply left_zero|done|exact (cleared_plausible c c1 Hc H1 Hpl)].
Qed.
End Whole.

(** C11: recovery on trees it can read, in which no two pointers name the same
    sector.  Whatever happens to its transactions, trees other than those of
    buckets, of free buckets and of backpointers keep their keys, an error
    included.  If it succeeds, the backpointers are exactly those of the
    pointers of all keys, and a bucket with pointers has the sum of their
    sectors.  The rest comes from the old records and not from the pointers: a
    bucket without pointers keeps its old record, a stale sector count
    included; the state and generation of every bucket are the old ones; and
    the index of free buckets has exactly the buckets whose old state is free,
    or that had no record.  It succeeds if nothing disturbs it, and if no
    pointers contradict each other. *)
Theorem rebuild_restores_derived evs c fault : rebuildable c -> (forall n, tried (evs n)) ->
  exists c' r, rebuild_derived_state evs true c fault = Some (c', r) /\ same_env c c' /\
    (forall b p, b <> 4 -> b <> BTREE_ID_FREESPACE -> b <> 8 -> f_trees c' !! (b, p) = f_trees c !! (b, p)) /\
    (r = Ok tt -> rebuilt_from c c') /\
    (fault <> Some DuringDerivedRebuild /\ restarts_left c = 0 /\ (forall n, granted (evs n)) /\ plausible c -> r = Ok tt).
Proof. intros Hc Hevs. exact (all_passes evs Hevs c Hc fault). Qed.

(** ** Examples *)

(** The extent with two copies; of its buckets one has too many sectors, the
    other is missing, as are the backpointers, of which there is a stray one. *)
Definition damaged_list : list ((Z * bpos) * kv) :=
  [((0, POS 7 8), two_copies); ((4, POS 0 2), bucket_key (POS 0 2) (set_dirty_sectors eight_dirty 99)); ((8, POS 0 999), bp_key (mk_ref 0 (POS 7 8) (ptr_to 999 3) 8))].
Definition damaged : fs := with_keys damaged_list.

Lemma damaged_each (P : Z -> bpos -> kv -> Prop) : Forall (fun x => P x.1.1 x.1.2 x.2) damaged_list -> forall b p k, f_trees damaged !! (b, p) = Some k -> P b p k.
Proof.
  intros H b p k E. assert (((b, p), k) ∈ damaged_list) as Hin by exact (elem_of_list_to_map_2 _ _ _ E). exact (proj1 (Forall_forall _ _) H _ Hin).
Qed.

Lemma damaged_refs : tree_refs (f_trees damaged) = [ref_256; ref_400].
Proof. vm_compute. reflexivity. Qed.


Lemma two_refs_ok (P : ref -> Prop) : P ref_256 -> P ref_400 -> Forall P [ref_256; ref_400].
Proof. by repeat constructor. Qed.

Ltac each_key := repeat (apply Forall_cons_2; [|]); [..|by constructor]; cbn [fst snd].

Lemma damaged_wf : trees_wf damaged.
Proof.
  intros b p k. revert b p k. apply (damaged_each (fun _ p k => kv_pos k = p /\ kv_type k <> KEY_TYPE_deleted /\ kv_wf k)).
  each_key; (split; [done|split; [done|]]); constructor; try done; cbn; unfold BKEY_U64S, MAX; lia.
Qed.

Lemma damaged_buckets : buckets_wf damaged.
Proof.
  constructor; [exact damaged_wf| |].
  - intros b p k Hb H. revert b p k H Hb. apply (damaged_each (fun b p k => bucket_tree b -> snapshot p = 0 /\ bpos_wf p /\ plain_kv k)).
    each_key; try (intros [|[|[|]]]; done); done.
  - intros p k H. revert H. generalize 4. intros b H. revert b p k H. apply (damaged_each (fun _ p k => alloc_key_ok p k)).
    by each_key.
Qed.

Lemma damaged_rebuildable : rebuildable damaged.
Proof.
  constructor; rewrite ?damaged_refs.
  - exact damaged_buckets.
  - apply (damaged_each (fun b p _ => key_in_range (b, p))). each_key; by vm_compute.
  - apply (damaged_each (fun b _ k => has_refs k = true -> words_fit k /\ (length (refs_of b k) <= 32)%nat)). each_key; intros H; try done.
    split; [vm_compute; repeat constructor|]. vm_compute. lia.
  - apply two_refs_ok; constructor; cbn [r_ptr r_len r_btree r_pos ref_256 ref_400]; repeat split; vm_compute; done.
  - vm_compute. apply (bool_decide_unpack _). by vm_compute.
  - intros r r' Hr Hr' _. rewrite !elem_of_cons in Hr, Hr'. destruct Hr' as [->|[->|H]]; [done|done|by apply not_elem_of_nil in H].
  - done.
  - intros dev. unfold sb_member_get. change (f_members damaged) with (Some [small_member]). cbv iota. destruct (Z.to_nat dev) as [|[|n]]; cbn; lia.
Qed.

Definition calm : nat -> list commit_event := fun _ => [Realloc; Proceed].

Lemma calm_tried n : tried (calm n) /\ granted (calm n).
Proof. split; [|done]. split; [by repeat constructor|]. exists Proceed. split; [|done]. apply list_elem_of_further, list_elem_of_here. Qed.

Lemma damaged_plausible : plausible damaged.
Proof.
  unfold plausible. rewrite damaged_refs. split; [|split].
  - apply two_refs_ok; by vm_compute.
  - intros r r' Hr Hr' _. rewrite !elem_of_cons in Hr, Hr'. destruct Hr as [->|[->|H]], Hr' as [->|[->|H']]; try done; by apply not_elem_of_nil in H || by apply not_elem_of_nil in H'.
  - intros p. cbn. repeat case_decide; lia.
Qed.

Lemma rebuild_restores_derived_witness : exists c', rebuild_derived_state calm true damaged None = Some (c', Ok tt) /\ check_extents_to_backpointers damaged = Some (Err (DerivedState AllocSet)) /\
  (forall r, r ∈ tree_refs (f_trees damaged) -> f_trees c' !! (8, ref_sector r) = Some (bp_key r)).
Proof.
  destruct (rebuild_restores_derived calm damaged None damaged_rebuildable (fun n => proj1 (calm_tried n))) as (c' & r & E & _ & _ & Hr & Hs).
  assert (r = Ok tt) as -> by (apply Hs; split; [done|]; split; [done|]; split; [apply calm_tried|exact damaged_plausible]).
  exists c'. split; [exact E|]. split; [by vm_compute|]. intros r Hin. apply (rf_backpointers _ _ (Hr eq_refl)). exists r. split; [exact Hin|]. split; reflexivity.
Defined.

(** The check passes then. *)
Example damaged_repaired : (x ← rebuild_derived_state calm true damaged None; check_extents_to_backpointers x.1) = Some (Ok tt).
Proof. vm_compute. reflexivity. Qed.

(** Not so if a bucket without pointers had sectors: it keeps them. *)
Definition stale : fs := with_keys (((4, POS 0 5), bucket_key (POS 0 5) eight_dirty) :: damaged_list).
Example stale_sectors_survive :
  (x ← rebuild_derived_state calm true stale None; r ← check_extents_to_backpointers x.1; Some (x.2, r, option_map dirty_sectors (alloc_at x.1 (POS 0 5)))) =
  Some (Ok tt, Err (DerivedState AllocSet), Some 8).
Proof. vm_compute. reflexivity. Qed.

(** A bucket with pointers but no key is given state 0, that of free ones, and
    is in the index of free buckets. *)
Example pointed_bucket_free : (x ← rebuild_derived_state calm true damaged None; Some (option_map data_type (alloc_at x.1 (POS 0 3)), map kv_pos (scan_raw_locked x.1 BTREE_ID_FREESPACE))) =
  Some (Some BCH_DATA_FREE, [POS 0 2; POS 0 3]).
Proof. vm_compute. reflexivity. Qed.
