(* ===== verification/Store.v ===== *)
(** * The operations on keys ([engine.rs])

    A transaction of the engine puts and deletes keys of any tree; a reader
    gets the key at a position or scans a tree.  Writers work on the contents
    of the trees ([Trans]), readers on the nodes ([Iter]); a tree that [shows]
    the contents ties them together.  Against a map from positions to values:
    a transaction that succeeds has changed the map by its operations in their
    order, and readers return what the map has. *)

From stdpp Require Import base tactics list option gmap sorting.
From Stdlib Require Import ZArith Lia.
From S2P Require Import Superblock Prelude Bpos BkeyPack Extents ExtentKeys AllocKeys Trans TransFacts TransCommit Buckets BucketFacts Iter.

Open Scope Z_scope.

Definition KEY_TYPE_cookie : Z := 3.
Definition BKEY_U64S_MAX : Z := MAX 8.
Definition BKEY_VAL_U64S_MAX : Z := BKEY_U64S_MAX - BKEY_U64S.

Definition BtreeId_new (id : Z) : result Z := if BTREE_ID_NR <=? id then Err (InvalidBtreeId id) else Ok id.

Record BtreeKey := mk_btree_key { position : bpos; value : list Z }.

#[export] Instance btree_key_eq_dec : EqDecision BtreeKey.
Proof. solve_decision. Defined.

Definition BtreeKey_new (p : bpos) (v : list Z) : result BtreeKey :=
  if BKEY_VAL_U64S_MAX <? Z.of_nat (length v) then Err (ValueTooLarge (Z.of_nat (length v))) else Ok (mk_btree_key p v).

(** A key of the type of cookies, or a deleted one without a value. *)
Definition encode_key (p : bpos) (v : list Z) (deleted : bool) : kv :=
  let v := if deleted then [] else v in
  mk_kv (mk_bkey (wadd 8 BKEY_U64S (Z.of_nat (length v))) KEY_FORMAT_CURRENT (if deleted then KEY_TYPE_deleted else KEY_TYPE_cookie) ZERO_VERSION 0 p) v.

Definition decode_key (raw : kv) : result BtreeKey :=
  let header := kv_k raw in
  if (k_u64s header <? BKEY_U64S) || negb (Z.land (k_format header) (2 ^ 7 - 1) =? KEY_FORMAT_CURRENT) then Err (Transaction (-1)) else
  let value_u64s := bkey_val_u64s header in
  if BKEY_VAL_U64S_MAX <? value_u64s then Err (Transaction (-1))
  else BtreeKey_new (k_p header) (take (Z.to_nat value_u64s) (kv_v raw)).

(** ** Reading *)

Definition get_locked (n : nat) (t : btree_trans) (btree : Z) (p : bpos) : option (result (option BtreeKey)) :=
  '(_, found) ← bch2_btree_iter_peek n t (bch2_trans_iter_init btree p BTREE_ITER_not_extents);
  Some match found with
       | Failed ret => Err (Transaction ret)
       | Nothing => Ok None
       | Found k =>
           if negb (bpos_eq (kv_pos k) p) || (kv_type k =? KEY_TYPE_deleted) then Ok None
           else match decode_key k with Ok key => Ok (Some key) | Err err => Err err end
       end.

(** Keys must come in order. *)
Definition push_key (out : list BtreeKey) (k : kv) : result (list BtreeKey) :=
  match decode_key k with
  | Err err => Err err
  | Ok key =>
      match last out with
      | Some previous => if bpos_cmp (position previous) (position key) <? 0 then Ok (out ++ [key]) else Err (Transaction (-1))
      | None => Ok [key]
      end
  end.

Definition scan_locked (m n : nat) (t : btree_trans) (btree : Z) : option (result (list BtreeKey)) :=
  walk_tree push_key m n t (bch2_trans_iter_init btree POS_MIN (Z.lor BTREE_ITER_not_extents (Z.lor BTREE_ITER_snapshot_field BTREE_ITER_all_snapshots))) [].

(** ** Writing *)

Inductive TransactionOperation :=
  | Put (btree : Z) (key : BtreeKey)
  | Delete (btree : Z) (p : bpos).

Definition staged_key (op : TransactionOperation) : Z * kv :=
  match op with
  | Put btree key => (btree, encode_key (position key) (value key) false)
  | Delete btree p => (btree, encode_key p [] true)
  end.

Fixpoint stage_operations (c : fs) (us : list btree_insert_entry) (ops : list TransactionOperation) : option (list btree_insert_entry) :=
  match ops with
  | [] => Some us
  | op :: ops => us ← bch2_trans_update c us (staged_key op).1 (staged_key op).2 0; stage_operations c us ops
  end.

Definition commit_operations_once (e : engine) (ops : list TransactionOperation) (evs : list commit_event) : option (engine * result unit) :=
  finish e tt (retry_loop (fun c => us ← stage_operations c [] ops; Some (us, 0)) bch2_trans_commit is_restart (e_fs e) evs).

Definition is_journal_full (r : result unit) : bool := match r with Err (Transaction ret) => ret =? -9 | _ => false end.

(** Without space in the journal it is reclaimed, and the transaction tried
    again.  [attempts] has what happens to the transaction and the result of
    the reclaim behind it, which leaves the keys of the trees alone; [schedule]
    is the result of asking for a background reclaim. *)
Fixpoint commit_loop (e : engine) (ops : list TransactionOperation) (attempts : list (list commit_event * result unit)) (schedule : result unit) : option (engine * result unit) :=
  match attempts with
  | [] => None
  | (evs, reclaim) :: attempts =>
      '(e, r) ← commit_operations_once e ops evs;
      if is_journal_full r then
        match reclaim with Ok _ => commit_loop e ops attempts schedule | Err err => Some (e, Err err) end
      else match r with Ok _ => Some (e, schedule) | Err err => Some (e, Err err) end
  end.

Definition commit_operations (e : engine) (ops : list TransactionOperation) (attempts : list (list commit_event * result unit)) (schedule : result unit) : option (engine * result unit) :=
  if (length ops =? 0)%nat then Some (e, Ok tt) else commit_loop e ops attempts schedule.

(** ** Keys and their words *)

Definition key_ok_value (v : list Z) : Prop := Z.of_nat (length v) <= BKEY_VAL_U64S_MAX.

Lemma encode_put_wf p v : key_ok_value v -> kv_wf (encode_key p v false) /\ plain_kv (encode_key p v false) /\ decode_key (encode_key p v false) = Ok (mk_btree_key p v).
Proof.
  unfold key_ok_value, BKEY_VAL_U64S_MAX, BKEY_U64S_MAX, BKEY_U64S, MAX. intros Hv. change (2 ^ 8 - 1 - 5) with 250 in Hv.
  assert (wadd 8 BKEY_U64S (Z.of_nat (length v)) = 5 + Z.of_nat (length v)) as Eu by (unfold wadd, BKEY_U64S; apply Z.mod_small; lia).
  assert (bkey_val_u64s (kv_k (encode_key p v false)) = Z.of_nat (length v)) as Ev.
  { unfold bkey_val_u64s, encode_key. cbn [kv_k k_u64s]. rewrite Eu. unfold wsub, BKEY_U64S. rewrite Z.mod_small by lia. lia. }
  split; [|split; [done|]].
  - constructor; [done|cbn [encode_key kv_k k_u64s]; rewrite Eu; unfold BKEY_U64S, MAX; lia|]. unfold value_end. rewrite Ev. cbn. lia.
  - unfold decode_key. rewrite Ev. cbn [encode_key kv_k k_u64s k_format k_p kv_v]. rewrite Eu. change (Z.land KEY_FORMAT_CURRENT (2 ^ 7 - 1) =? KEY_FORMAT_CURRENT) with true. cbn [negb]. rewrite orb_false_r.
    unfold BKEY_U64S, BtreeKey_new. change BKEY_VAL_U64S_MAX with 250. rewrite (proj2 (Z.ltb_ge _ _)), (proj2 (Z.ltb_ge _ _)) by lia. rewrite Nat2Z.id, firstn_all. rewrite (proj2 (Z.ltb_ge _ _)) by lia. done.
Qed.

(** Keys as readers see them. *)
Definition decoded (k : kv) : BtreeKey := mk_btree_key (kv_pos k) (kv_v k).

Lemma decode_wf k : kv_wf k -> decode_key k = Ok (decoded k).
Proof.
  intros [Hf [H1 H2] Hl]. unfold decode_key. rewrite Hf. change (Z.land KEY_FORMAT_CURRENT (2 ^ 7 - 1) =? KEY_FORMAT_CURRENT) with true. cbn [negb]. rewrite orb_false_r, (proj2 (Z.ltb_ge _ _)) by lia.
  assert (0 <= bkey_val_u64s (kv_k k) <= 250) as Hv by (unfold bkey_val_u64s, wsub, BKEY_U64S, MAX in *; rewrite Z.mod_small by lia; lia).
  unfold BtreeKey_new. change BKEY_VAL_U64S_MAX with 250. rewrite (proj2 (Z.ltb_ge _ _)) by lia. unfold value_end in Hl. rewrite firstn_all2 by lia. rewrite (proj2 (Z.ltb_ge _ _)) by lia. done.
Qed.

(** ** The map *)

Definition contents (c : fs) : gmap (Z * bpos) (list Z) := kv_v <$> f_trees c.

Definition apply_op (m : gmap (Z * bpos) (list Z)) (op : TransactionOperation) : gmap (Z * bpos) (list Z) :=
  match op with
  | Put b key => <[(b, position key) := value key]> m
  | Delete b p => delete (b, p) m
  end.

Definition op_key (op : TransactionOperation) : Z * bpos := match op with Put b key => (b, position key) | Delete b p => (b, p) end.
Definition op_ok (op : TransactionOperation) : Prop := key_in_range (op_key op) /\ match op with Put _ key => key_ok_value (value key) | Delete _ _ => True end.

Lemma staged_pos op : ((staged_key op).1, kv_pos (staged_key op).2) = op_key op.
Proof. by destruct op. Qed.

Lemma staged_ok op : op_ok op -> key_ok (staged_key op).
Proof.
  intros [Hr Hv]. split; [destruct op; exact Hr|]. destruct op as [b key|b p]; cbn [staged_key snd].
  - by destruct (encode_put_wf (position key) (value key) Hv) as (H1 & H2 & _).
  - split; [|done]. apply (deleted_wf p).
Qed.

Lemma stage_operations_keys ops : forall c us, stage_operations c us ops = stage_keys c us (map staged_key ops).
Proof.
  induction ops as [|op ops IH]; intros c us; [done|]. cbn [stage_operations map stage_keys]. destruct (staged_key op) as [b k]. cbn [fst snd]. destruct (bch2_trans_update c us b k 0); [apply IH|done].
Qed.

Lemma over_ops ops : forall f (m : gmap (Z * bpos) (list Z)) key, (forall key, m !! key = kv_v <$> f key) -> fold_left apply_op ops m !! key = kv_v <$> over f (map staged_key ops) key.
Proof.
  induction ops as [|op ops IH]; intros f m key H; [apply H|]. cbn [fold_left map]. destruct (staged_key op) as [b k] eqn:Es. cbn [over]. apply IH. intros key'.
  assert ((b, kv_pos k) = op_key op) as -> by (rewrite <- staged_pos; by rewrite Es). destruct op as [b' key0|b' p]; injection Es as <- <-; cbn [apply_op op_key].
  - case_decide as E; [subst key'; by rewrite lookup_insert_eq|]. by rewrite lookup_insert_ne by congruence.
  - case_decide as E; [subst key'; by rewrite lookup_delete_eq|]. by rewrite lookup_delete_ne by congruence.
Qed.

Lemma contents_after c c' ops : (forall key, f_trees c' !! key = keys_after (f_trees c) (map staged_key ops) key) -> contents c' = fold_left apply_op ops (contents c).
Proof.
  intros H. apply map_eq. intros key. unfold contents at 1. rewrite lookup_fmap, H. symmetry. apply over_ops. intros key'. unfold contents. by rewrite lookup_fmap.
Qed.

Lemma contents_at c c' ops key : f_trees c' !! key = f_trees c !! key \/ f_trees c' !! key = keys_after (f_trees c) (map staged_key ops) key ->
  contents c' !! key = contents c !! key \/ contents c' !! key = fold_left apply_op ops (contents c) !! key.
Proof.
  unfold contents at 1 2 3. rewrite !lookup_fmap. intros [->|E]; [by left|right]. rewrite E. symmetry. apply over_ops. intros key'. unfold contents. by rewrite lookup_fmap.
Qed.

(** ** Transactions *)

Definition attempts_fine (attempts : list (list commit_event * result unit)) : Prop := Forall (fun a => Forall event_ok a.1) attempts.
Definition attempts_whole (attempts : list (list commit_event * result unit)) : Prop := Forall (fun a => forallb (fun ev => negb (is_split ev)) a.1 = true) attempts.

Lemma once_loop e ops evs : commit_operations_once e ops evs = finish e tt (retry_loop (stage_of (map staged_key ops)) bch2_trans_commit is_restart (e_fs e) evs).
Proof. unfold commit_operations_once. f_equal. apply retry_loop_ext. intros c. unfold stage_of. by rewrite stage_operations_keys. Qed.

Section Commit.
Context (ops : list TransactionOperation) (Hops : Forall op_ok ops) (Hlen : (length ops < BTREE_ITER_INITIAL)%nat).
Let ks : list (Z * kv) := map staged_key ops.

Lemma ops_keys_ok : Forall key_ok ks /\ (length ks <= BTREE_ITER_INITIAL)%nat.
Proof. split; [apply Forall_map; eapply Forall_impl; [exact Hops|apply staged_ok]|unfold ks; rewrite length_map; lia]. Qed.

(** Keys that are replaced have no pointers. *)
Lemma plain_after c c' ret : plain_at (f_trees c) ks -> loop_result c ks c' ret -> plain_at (f_trees c') ks.
Proof. intros Hp Hr. destruct ops_keys_ok as [Hk _]. eapply (plain_at_over c); [done|done|apply Hr]. Qed.

Lemma loop_compose c c1 c2 r1 r2 : loop_result c ks c1 r1 -> loop_result c1 ks c2 r2 -> loop_result c ks c2 r2.
Proof.
  intros [H1 H2 H3 H4 H5] [H1' H2' H3' H4' H5']. pose proof (fun key => keys_after_again (f_trees c) (f_trees c1) ks key H2) as Ha. constructor; [by eapply same_env_trans| | |done|lia].
  - intros key. destruct (H2' key) as [->| ->]; [apply H2|]. right. apply Ha.
  - intros H0 key. by rewrite H3'.
Qed.

(** Whatever happens to the attempts. *)
Lemma commit_loop_ok schedule attempts : forall e e' r, trees_wf (e_fs e) -> plain_at (f_trees (e_fs e)) ks -> attempts_fine attempts ->
  commit_loop e ops attempts schedule = Some (e', r) ->
  same_engine e e' /\ exists ret, loop_result (e_fs e) ks (e_fs e') ret /\ (ret = 0 -> r = schedule) /\ (ret <> 0 -> r <> Ok tt) /\ (ret <> 0 -> attempts_whole attempts -> f_trees (e_fs e') = f_trees (e_fs e)).
Proof.
  destruct ops_keys_ok as [Hk Hl].
  induction attempts as [|[evs reclaim] attempts IH]; intros e e' r Hc Hp Ha E; [done|]. apply Forall_cons_1 in Ha as [Hev Ha]. cbn [fst] in Hev. cbn [commit_loop] in E.
  rewrite once_loop in E. fold ks in E. destruct (retry_loop (stage_of ks) bch2_trans_commit is_restart (e_fs e) evs) as [[c1 ret1]|] eqn:E1; [cbn [finish mbind option_bind] in E|done].
  destruct (retry_result _ commit_commits ks Hk Hl evs (e_fs e) c1 ret1 Hc Hp Hev E1) as [Hr Hn].
  assert (same_engine e (with_fs e c1)) as Hse by done.
  assert (attempts_whole ((evs, reclaim) :: attempts) -> ret1 <> 0 -> f_trees c1 = f_trees (e_fs e)) as Hwhole by (intros Hw H0; apply Forall_cons_1 in Hw as [Hw _]; by apply Hn).
  destruct (Z.eqb_spec ret1 0) as [H0|H0].
  - cbn [is_journal_full] in E. injection E as <- <-. split; [done|]. exists ret1. split; [done|]. done.
  - destruct (is_journal_full (Err (Transaction ret1))) eqn:Ef.
    + destruct reclaim as [[]|err].
      * destruct (IH (with_fs e c1) e' r (lr_wf _ _ _ _ Hr) (plain_after _ _ _ Hp Hr) Ha E) as (Hs & ret & Hr2 & H1 & H2 & H3).
        split; [done|]. exists ret. split; [by eapply loop_compose|]. split; [done|]. split; [done|]. intros Hne Hw. rewrite (H3 Hne); [by apply Hwhole|]. by apply Forall_cons_1 in Hw as [_ Hw].
      * injection E as <- <-. split; [done|]. exists ret1. split; [done|]. split; [done|]. split; [done|]. intros _ Hw. by apply Hwhole.
    + injection E as <- <-. split; [done|]. exists ret1. split; [done|]. split; [done|]. split; [done|]. intros _ Hw. by apply Hwhole.
Qed.
End Commit.

(** C20: a transaction of fewer than 64 operations, at positions whose keys
    have no pointers, on trees without ill-formed keys.  When it succeeds it
    has changed the map of all keys by its operations, one after the other, and
    nothing else.  When it fails, every position has what it had before or what
    the operations leave there.  The two are not mixed if no leaf was split in
    the middle of an attempt: then the map is as before, or all operations are
    applied and only the request for a background reclaim behind them failed,
    whose error is returned.  An attempt that is only interrupted by restarts,
    with restarts left, succeeds. *)
Theorem transaction_refines_map ops e attempts schedule : Forall op_ok ops -> (length ops < BTREE_ITER_INITIAL)%nat -> trees_wf (e_fs e) ->
  plain_at (f_trees (e_fs e)) (map staged_key ops) -> attempts_fine attempts ->
  (forall e' r, commit_operations e ops attempts schedule = Some (e', r) ->
     same_engine e e' /\ trees_wf (e_fs e') /\
     (r = Ok tt -> contents (e_fs e') = fold_left apply_op ops (contents (e_fs e))) /\
     (forall key, contents (e_fs e') !! key = contents (e_fs e) !! key \/ contents (e_fs e') !! key = fold_left apply_op ops (contents (e_fs e)) !! key) /\
     (r <> Ok tt -> attempts_whole attempts -> contents (e_fs e') = contents (e_fs e) \/ r = schedule /\ contents (e_fs e') = fold_left apply_op ops (contents (e_fs e)))) /\
  (forall evs reclaim rest, attempts = (evs, reclaim) :: rest -> Forall restart_event evs -> restarts_left (e_fs e) < Z.of_nat (proceeds evs) -> schedule = Ok tt ->
     exists e', commit_operations e ops attempts schedule = Some (e', Ok tt)).
Proof.
  intros Hops Hlen Hc Hp Ha. unfold commit_operations. split.
  - intros e' r. destruct (length ops =? 0)%nat eqn:E0.
    { apply Nat.eqb_eq, nil_length_inv in E0 as ->. intros [= <- <-]. split; [done|]. split; [done|]. split; [done|]. split; [by left|done]. }
    intros E. destruct (commit_loop_ok ops Hops Hlen schedule attempts e e' r Hc Hp Ha E) as (Hs & ret & Hr & H1 & H2 & H3). split; [done|]. split; [apply Hr|]. split; [|split].
    + intros Hok. apply contents_after. destruct (decide (ret = 0)) as [H0|H0]; [|by destruct (H2 H0)]. by apply (lr_done _ _ _ _ Hr).
    + intros key. apply contents_at, (lr_keys _ _ _ _ Hr).
    + intros Hne Hw. destruct (decide (ret = 0)) as [H0|H0]; [right; split; [by apply H1|]; apply contents_after; by apply (lr_done _ _ _ _ Hr)|]. left. unfold contents. by rewrite (H3 H0 Hw).
  - intros evs reclaim rest -> Hev Hn ->. destruct (length ops =? 0)%nat; [by eexists|]. destruct (ops_keys_ok ops Hops Hlen) as [Hk Hl].
    destruct (retry_success _ commit_commits (map staged_key ops) Hk Hl evs (e_fs e) Hc Hp Hev Hn) as (c' & E & _). cbn [commit_loop]. rewrite once_loop, E. cbn. by eexists.
Qed.

(** ** Readers *)

(** A tree that has the keys of [btree]. *)
Definition shows (root : node) (c : fs) (btree : Z) : Prop := forall k, k ∈ live_keys root <-> f_trees c !! (btree, kv_pos k) = Some k.

Section Readers.
Context (c : fs) (Hc : trees_wf c) (t : btree_trans) (root : node) (btree : Z) (Hq : quiet t root btree) (Hs : shows root c btree).

Lemma shown_wf k : k ∈ live_keys root -> kv_wf k /\ kv_type k <> KEY_TYPE_deleted /\ bpos_wf (kv_pos k).
Proof.
  intros Hk. destruct (live_sorted _ _ (q_tree _ _ _ Hq)) as [_ Hw]. pose proof (proj1 (Forall_forall _ _) Hw k Hk) as Hp. apply Hs in Hk. by destruct (Hc _ _ _ Hk) as (_ & Ht & Hwf).
Qed.

(** The first key at or behind a position. *)
Lemma first_behind ks p : bpos_wf p -> Forall (fun k => bpos_wf (kv_pos k)) ks -> StronglySorted (fun x y => pval (kv_pos x) < pval (kv_pos y)) ks ->
  match find (fun k => bpos_le p (kv_pos k)) ks with
  | Some k => k ∈ ks /\ forall k', k' ∈ ks -> kv_pos k' = p -> k' = k
  | None => forall k', k' ∈ ks -> kv_pos k' <> p
  end.
Proof.
  intros Hp Hw Hsrt. induction ks as [|k ks IH]; cbn [find]; [intros k' Hk'; by apply not_elem_of_nil in Hk'|]. apply Forall_cons_1 in Hw as [Hk Hw]. apply StronglySorted_inv in Hsrt as [Hsrt Hlt].
  rewrite bpos_le_cmp, bpos_cmp_val, cmp_sign_leb by done. destruct (Z.leb_spec (bpos_val p) (bpos_val (kv_pos k))) as [Hle|Hgt].
  - split; [apply list_elem_of_here|]. intros k' [->|Hk']%elem_of_cons E; [done|]. pose proof (proj1 (Forall_forall _ _) Hlt k' Hk') as H. cbn in H. unfold pval in H. rewrite E in H. lia.
  - specialize (IH Hw Hsrt). destruct (find _ ks) as [k1|].
    + destruct IH as [H1 H2]. split; [by apply list_elem_of_further|]. intros k' [->|Hk']%elem_of_cons E; [rewrite E in Hgt; lia|by apply H2].
    + intros k' [->|Hk']%elem_of_cons E; [rewrite E in Hgt; lia|by apply (IH k')].
Qed.

Lemma get_spec n p : bpos_wf p -> (length (leaves root) + length (tree_keys_all root) < n)%nat ->
  get_locked n t btree p = Some (Ok (mk_btree_key p <$> contents c !! (btree, p))).
Proof.
  intros Hp Hn. unfold get_locked, bch2_btree_iter_peek. assert (bpos_wf SPOS_MAX) as Hmax by done.
  destruct (peek_max_first t root btree n (bch2_trans_iter_init btree p BTREE_ITER_not_extents) SPOS_MAX Hq eq_refl eq_refl eq_refl Hp Hmax Hn) as (it' & r & -> & _ & _ & ->). cbn [mbind option_bind it_pos bch2_trans_iter_init].
  destruct (live_sorted _ _ (q_tree _ _ _ Hq)) as [Hsrt Hw]. pose proof (first_behind (live_keys root) p Hp Hw Hsrt) as H. unfold contents. rewrite lookup_fmap.
  destruct (find _ (live_keys root)) as [k|].
  - destruct H as [Hk Hf]. destruct (shown_wf k Hk) as (Hwf & Ht & Hkw). rewrite bpos_le_cmp, bpos_cmp_val, cmp_sign_leb, (proj2 (Z.leb_le _ _)) by (done || by apply Z.leb_le, (below_max (kv_pos k))).
    rewrite (proj2 (Z.eqb_neq _ _) Ht), orb_false_r, bpos_eq_spec. case_bool_decide as E; cbn [negb].
    + rewrite (decode_wf k Hwf). apply Hs in Hk. rewrite <- E. rewrite Hk. done.
    + destruct (f_trees c !! (btree, p)) as [k'|] eqn:Ek; [|done]. destruct (Hc _ _ _ Ek) as (Ep & _). exfalso. apply E. rewrite <- (Hf k'); [done|apply Hs; by rewrite Ep|done].
  - destruct (f_trees c !! (btree, p)) as [k'|] eqn:Ek; [|done]. destruct (Hc _ _ _ Ek) as (Ep & _). exfalso. apply (H k'); [apply Hs; by rewrite Ep|done].
Qed.

Lemma push_all ks : forall out, Forall kv_wf ks -> Forall (fun k => bpos_wf (kv_pos k)) ks -> StronglySorted (fun x y => pval (kv_pos x) < pval (kv_pos y)) ks ->
  (forall x, last out = Some x -> bpos_wf (position x) /\ Forall (fun k => pval (position x) < pval (kv_pos k)) ks) -> visit_all push_key out ks = Ok (out ++ map decoded ks).
Proof.
  induction ks as [|k ks IH]; intros out Hk Hw Hsrt Hlast; cbn [visit_all map]; [by rewrite app_nil_r|].
  apply Forall_cons_1 in Hk as [Hk0 Hk], Hw as [Hw0 Hw]. apply StronglySorted_inv in Hsrt as [Hsrt Hlt].
  assert (push_key out k = Ok (out ++ [decoded k])) as ->.
  { unfold push_key. rewrite (decode_wf k Hk0). destruct (last out) as [x|] eqn:El.
    - destruct (Hlast x eq_refl) as [Hx Hxs]. apply Forall_cons_1 in Hxs as [Hx0 _]. cbn [decoded position]. rewrite bpos_cmp_val by done. unfold pval in Hx0.
      destruct (Z.compare_spec (bpos_val (position x)) (bpos_val (kv_pos k))); cbn [cmp_sign]; [lia|done|lia].
    - by rewrite (proj1 (last_None _) El). }
  rewrite IH; [by rewrite <- app_assoc|done|done|done|]. intros x E. rewrite last_snoc in E. injection E as <-. done.
Qed.

Lemma scan_spec_keys m n : (length (leaves root) + length (tree_keys_all root) < n)%nat -> (length (tree_keys_all root) <= m)%nat ->
  scan_locked m n t btree = Some (Ok (map decoded (live_keys root))).
Proof.
  intros Hn Hm. unfold scan_locked. rewrite (walk_tree_all push_key t root btree _ m n [] Hq) by done. f_equal. change (has_flag _ BTREE_ITER_all_snapshots) with true. cbn [walked].
  destruct (live_sorted _ _ (q_tree _ _ _ Hq)) as [Hsrt Hw]. rewrite (push_all _ []); [done| |done|done|done]. apply Forall_forall. intros k Hk. by apply shown_wf.
Qed.
End Readers.

(** C21: on a tree that shows the keys, [get] ends and returns the value that
    the map has at the position, or that there is none; and a scan ends and
    returns every key of the map with its value once, in the order of their
    positions. *)
Theorem readers_refine_map c t root btree m n : trees_wf c -> quiet t root btree -> shows root c btree ->
  (length (leaves root) + length (tree_keys_all root) < n)%nat -> (length (tree_keys_all root) <= m)%nat ->
  (forall p, bpos_wf p -> get_locked n t btree p = Some (Ok (mk_btree_key p <$> contents c !! (btree, p)))) /\
  exists out, scan_locked m n t btree = Some (Ok out) /\ StronglySorted (fun x y => pval (position x) < pval (position y)) out /\
    forall key, key ∈ out <-> contents c !! (btree, position key) = Some (value key).
Proof.
  intros Hc Hq Hs Hn Hm. split; [intros p Hp; by apply (get_spec c Hc t root btree Hq Hs)|]. eexists. split; [by apply (scan_spec_keys c Hc t root btree Hq Hs)|].
  destruct (live_sorted _ _ (q_tree _ _ _ Hq)) as [Hsrt _]. split.
  - clear -Hsrt. induction Hsrt as [|k ks Hsrt IH Hlt]; cbn; [constructor|]. constructor; [done|]. by apply Forall_map.
  - intros key. rewrite list_elem_of_fmap. unfold contents. rewrite lookup_fmap. split.
    + intros (k & -> & Hk). apply Hs in Hk. cbn [decoded position value]. by rewrite Hk.
    + intros E. destruct (f_trees c !! (btree, position key)) as [k|] eqn:Ek; [|done]. injection E as E. destruct (Hc _ _ _ Ek) as (Ep & _). exists k. split; [|apply Hs; by rewrite Ep].
      destruct key as [p v]. unfold decoded. cbn in *. congruence.
Qed.

(** ** Examples *)

Definition empty_engine : engine := mk_engine sample_fs [] ∅ ∅ ∅.
Definition sample_operations : list TransactionOperation := [Put 0 (mk_btree_key (POS 1 5) [7; 8]); Delete 3 (POS 2 2); Put 0 (mk_btree_key (POS 1 5) [9])].
(** The journal is full once, then a restart. *)
Definition sample_tries : list (list commit_event * result unit) := [([Refuse (-9)], Ok tt); ([Refuse (-4); Proceed], Ok tt)].

Lemma sample_operations_ok : Forall op_ok sample_operations.
Proof. repeat (apply Forall_cons_2 || apply Forall_nil_2); (split; [split; [done|repeat split; vm_compute; done]|]); done. Qed.

Lemma transaction_refines_map_witness : exists e', commit_operations empty_engine sample_operations sample_tries (Ok tt) = Some (e', Ok tt) /\ contents (e_fs e') !! (0, POS 1 5) = Some [9].
Proof.
  destruct (transaction_refines_map sample_operations empty_engine sample_tries (Ok tt)) as [H _].
  - exact sample_operations_ok.
  - cbn. unfold BTREE_ITER_INITIAL. lia.
  - intros b p k E. discriminate E.
  - intros b k old _ E. discriminate E.
  - repeat (apply Forall_cons_2 || apply Forall_nil_2); cbn; lia || exact I.
  - destruct (commit_operations empty_engine sample_operations sample_tries (Ok tt)) as [[e' r]|] eqn:E; [|vm_compute in E; discriminate E].
    assert (r = Ok tt) as Hr by (vm_compute in E; injection E as _ <-; reflexivity). destruct (H e' r eq_refl) as (_ & _ & Hc & _ & _). exists e'. rewrite Hr in *. split; [reflexivity|].
    rewrite (Hc eq_refl). reflexivity.
Defined.

(** The tree of [Iter]'s example. *)
Definition shown_list : list ((Z * bpos) * kv) := [((9, at_offset 3), live_at 3); ((9, at_offset 7), live_at 7); ((9, at_offset 15), live_at 15)].
Definition shown_fs : fs := with_trees sample_fs (list_to_map shown_list) [].

Lemma shown_in b p k : f_trees shown_fs !! (b, p) = Some k <-> ((b, p), k) ∈ shown_list.
Proof. symmetry. apply elem_of_list_to_map. by apply (bool_decide_unpack _); vm_compute. Qed.

Lemma shown_wf_trees : trees_wf shown_fs.
Proof.
  intros b p k H. apply shown_in in H. unfold shown_list in H. rewrite !elem_of_cons in H.
  destruct H as [[= -> -> ->]|[[= -> -> ->]|[[= -> -> ->]|H]]]; [..|by apply not_elem_of_nil in H]; split; try done; split; try done; constructor; try done; vm_compute; done.
Qed.

Lemma sample_shows : shows sample_root shown_fs 9.
Proof.
  intros k. rewrite shown_in. change (live_keys sample_root) with [live_at 3; live_at 7; live_at 15]. unfold shown_list. rewrite !elem_of_cons. split.
  - intros [->|[->|[->|H]]]; [by left|by right; left|by right; right; left|by apply not_elem_of_nil in H].
  - intros [[= _ ->]|[[= _ ->]|[[= _ ->]|H]]]; [by left|by right; left|by right; right; left|by apply not_elem_of_nil in H].
Qed.

Lemma readers_refine_map_witness : get_locked 10 (sample_view []) 9 (at_offset 7) = Some (Ok (Some (mk_btree_key (at_offset 7) [7]))) /\
  exists out, scan_locked 7 10 (sample_view []) 9 = Some (Ok out) /\ forall key, key ∈ out <-> contents shown_fs !! (9, position key) = Some (value key).
Proof.
  destruct (readers_refine_map shown_fs (sample_view []) sample_root 9 7 10 shown_wf_trees) as (H1 & out & H2 & _ & H3).
  - apply sample_quiet. constructor.
  - exact sample_shows.
  - vm_compute. lia.
  - vm_compute. lia.
  - split; [rewrite H1; [reflexivity|repeat split; vm_compute; congruence]|]. exists out. split; [exact H2|exact H3].
Defined.
